(* ===== verification/_CoqProject ===== *)
-Q . S2P
Prelude.v
Bytes.v
Riscv.v
KString.v
Locks.v
Kalloc.v
Vm.v
Uvm.v
UserMem.v
UvmProps.v
Proc.v
ProcInv.v
Sched.v
Smp.v
Fault.v
Fork.v
Trap.v
Asm.v
Syscall.v
Virtio.v
VirtioInv.v
VirtioProps.v
Bio.v
Log.v
LogCrash.v
Pipe.v
Fs.v
FsBlocks.v
FsInode.v
FsFile.v
FsData.v
FsTrunc.v
FsDir.v
FsPath.v
FsOps.v
FsAbs.v
FsFrame.v
File.v
FsDemo.v
FsProps.v
Mkfs.v
MkfsInv.v
MkfsVol.v
MkfsProps.v
Format.v
Printf.v
UPrintf.v
Umalloc.v
Grep.v
Uart.v
Console.v
Devices.v
Exec.v
Sysfile.v
Kernel.v
Refs.v
Sh.v
ShRun.v
Ulib.v
Utils.v
Boot.v
