(* ===== verification/Prelude.v ===== *)
(** * A verification development for the "graduation" xv6-riscv kernel

    The program is a teaching kernel for RISC-V (src/kernel) with its user
    programs (src/user) and the program that makes its disk image (src/mkfs):
    xv6 with a buddy page allocator that counts
    references, copy-on-write fork, lazily allocated heaps and five schedulers.
    This library translates the C code, function by function, into executable
    definitions and proves theorems about them.

    ** How the code is translated

    A C function is a function of the same name.  Code with effects is in the
    monad [M S] of this file: a computation takes a state of type [S] and
    returns a value and a new state, or it panics (the C code calls panic or
    does something that has no defined result), or it is [Blocked] (it sleeps
    or spins until another process or CPU acts), or it is [OutOfFuel].  Early
    returns, guards and error values are those of the source.  Integers are
    [Z], with [u8], [u32], [u64] and [i32] where the width matters.  Pointers
    into physical memory are addresses, and memory is a map from addresses to
    bytes; pointers to entries of a fixed table are indices; on-disk
    structures are the bytes of their blocks.  The linker symbols [end] and
    [trampoline], the processes' devices and the memory of a caller are
    arguments of the definitions or classes of operations.

    [wp m Q s] says that [m] returns from [s], with a result that satisfies
    [Q]; theorems about what an operation does are stated with it, so that
    they exclude panics, endless loops and waiting.  [wlp] is the partial
    version, for invariants and frames; [moves R m] says that [m] changes the
    state along [R].

    ** Loops and fuel

    A loop over a range or a list is a Fixpoint on what is left of it.  Other
    loops take the number of turns as an argument or as a bound in the
    definition: the number of pages of the range (page-table walks), of bytes
    (copies), of buffers, inodes and directory entries (searches), of headers
    in the free list (malloc).  Theorems with [wp] show that the bound is
    enough.  Loops without a bound in the code take fuel: the wait for the
    serial port to become idle, the scheduler's endless loop, of which a round
    is modelled, strlen and its like, and the loops of user programs around
    read and wait, for which one more turn than there are bytes is enough.

    ** Files

    - Prelude: the monad and its program logic, updates of functions, generic
      lemmas on lists and integers, the tactics and hint databases.
    - Bytes, Riscv, KString: little-endian fields in byte arrays; pages, page
      table entries and the memory map (riscv.h, memlayout.h); string.c.
    - Locks: spinlock.c and sleeplock.c, also as an interleaving of CPUs.
    - Kalloc: kalloc.c.  It discharges the class [PageAllocator] of Vm, which
      is all that the theorems on memory use of it.
    - Vm, Uvm, UserMem, UvmProps: vm.c; page tables, the memory a process
      sees, copies to and from it, teardown.
    - Proc, ProcInv, Fork: proc.c; the table, its invariant over a step
      relation, and fork.  Proc uses the file layer through [FileLayer].
    - Sched: the loop of scheduler and sched on one CPU, with every lock
      operation.  Smp: any number of CPUs with the process locks, as a step
      relation on their positions in scheduler, sched and the functions that
      change the state of a process.
    - Fault, Trap, Syscall: trap.c; syscall.c and sysproc.c.
    - Asm: entry.S, swtch.S, trampoline.S and kernelvec.S as instruction lists
      on a hart with registers, page table and memory.
    - Boot: entry in machine mode (start.c), the accessors of riscv.h, plic.c
      and main.c, on a hart with privilege modes.
    - Virtio, VirtioInv, VirtioProps: virtio_disk.c; the driver and the device
      as steps on shared rings, the invariant, and the theorems.
    - Bio, Log, LogCrash: bio.c and log.c; crashes and recovery.
    - Fs, and FsBlocks, FsInode, FsFile, FsData, FsTrunc, FsDir, FsPath, FsOps,
      FsFrame, FsDemo, FsProps: fs.c, its representation of files and
      directories, and the theorems; File: file.c.  FsAbs: the volume as a map
      from inode numbers to types, link counts and contents.
    - Mkfs, MkfsInv, MkfsVol, MkfsProps: mkfs/mkfs.c; the image under
      construction on the representation of files of FsFile and FsData.
    - Pipe: pipe.c.  Uart: uart.c.  Console: console.c.
    - Devices: pipes, console and port over the processes and their memory,
      and procdump.  Exec: exec.c.  Sysfile: sysfile.c and pipealloc.
    - Kernel: the parts put together; it discharges what Proc and Fork ask of
      the file layer.  Refs: the invariant of the whole kernel on open files.
    - Format, Printf, UPrintf: printf.c of the kernel and of user programs.
    - Umalloc: user/umalloc.c.  Grep: user/grep.c.
    - Sh, ShRun: user/sh.c; the parser, and the processes of a line as trees of
      system calls.
    - Ulib, Utils: user/ulib.c, and the programs cat, wc, grep, ls, echo, rm,
      mkdir, ln, kill, init, zombie and stressfs.

    ** What is proved

    - Storage: the disk driver and its device, in any interleaving, are a disk
      with atomic transfers and never all wait, also if the device acts only
      when it is notified (VirtioProps); a transaction is atomic under crashes
      at any block write, also during recovery (LogCrash); the buffer cache
      behaves as the bare disk (Bio); reads return what writes wrote and a
      write is cut by a crash only between its chunks, path lookup and directories behave as maps, and the
      last iput frees exactly the blocks of the file (FsProps); mkfs makes a
      well-formed file system that boots and holds the files, unless their
      entries fill the last block of the root directory (MkfsProps).
    - Memory: kinit puts exactly the memory after the kernel on the free lists;
      from lists of blocks aligned to their sizes, which kinit builds if the
      kernel ends at a multiple of 4 MB, the allocator hands out each free page
      once and gets it back with the last reference (Kalloc); mapping, unmapping, copy-on-write
      duplication and copies do what they say on every branch (Vm, UvmProps);
      a page fault does not change what the process sees, and a write after
      fork stays private (Fault).
    - Processes: the table is consistent in every reachable state (ProcInv);
      fork's child is a copy (Fork); however the CPUs interleave, a process is
      on one of them at most, nothing panics or deadlocks on the process locks,
      and a CPU that reaches a runnable process runs it (Smp); at most one CPU
      is in a critical section (Locks); clock, return from a trap and sleep (Trap, Syscall); an
      interrupt leaves every register of the user program as it was, and a
      context switch resumes the other thread with its own (Asm); a CPU enters
      main in supervisor mode with its interrupts delegated (Boot).
    - Files: reference counts of open files are the numbers of descriptors in
      every reachable state of the kernel (Refs); pipes are queues that
      lose a byte only where a copy fails, and a wakeup only where a writer is
      killed (Pipe); the console is a line discipline (Console) and the port
      sends every byte in order (Uart).
    - User programs: malloc's blocks are disjoint and malloc returns
      (Umalloc); printf's numerals (Printf, UPrintf); grep's matcher accepts
      the regular expression (Grep); the shell's parser accepts its grammar
      (Sh) and a line executes its commands with their descriptors (ShRun);
      cat, wc, grep and ls print what they should however read cuts the files
      into pieces (Utils).
    - Flaws of the code have theorems too: schedulers that acquire a lock
      twice, page-table pages that are never freed, a copyout that panics, a
      log that overflows, and others next to the code they are about.

    ** What is not modelled

    - initcode.S and usys.pl.
    - Interleaving inside system calls: a call runs without interruption up to
      the point where it sleeps.  The interleavings that the locks are for are
      followed in Locks, Sched, Smp, Virtio and, segment by segment, Pipe, Console
      and Uart; above the driver a block transfer is atomic, which VirtioProps
      justifies.
    - Failing copies in the file system: its theorems are for buffers of the
      caller that can be read, or written; [copyout_correct] of UvmProps says
      when the copies themselves fail or panic.
    - The tests (usertests.c, grind.c and the like); lab_scheduling, an earlier
      state of files of the kernel, and the .backup files. *)

From Stdlib Require Export ZArith Lia Bool ZifyBool ZifyNat FunctionalExtensionality.
From stdpp Require Export base numbers strings tactics sets list.

#[global] Open Scope Z_scope.
#[global] Arguments Z.of_nat : simpl never.
#[global] Arguments Z.to_nat : simpl never.

(** ** Outcomes of kernel code

    A kernel function returns, panics (the message of [panic()] in
    kernel/printf.c), or waits for another thread (a [sleep()] or a spin that
    only another thread can end).  [OutOfFuel] is the result of a loop whose
    model has run out of its iteration budget; the theorems that say that a
    function returns exclude it. *)

Inductive outcome (A : Type) : Type :=
| Ret (a : A)
| Panic (msg : string)
| Blocked
| OutOfFuel.
Arguments Ret {A} a.
Arguments Panic {A} msg.
Arguments Blocked {A}.
Arguments OutOfFuel {A}.

(** ** The state monad with outcomes *)

Definition M (S A : Type) : Type := S -> outcome (A * S).

Definition ret {S A} (a : A) : M S A := fun s => Ret (a, s).
Definition bind {S A B} (m : M S A) (k : A -> M S B) : M S B :=
  fun s => match m s with
           | Ret (a, s') => k a s'
           | Panic msg => Panic msg
           | Blocked => Blocked
           | OutOfFuel => OutOfFuel
           end.
Definition panic {S A} (msg : string) : M S A := fun _ => Panic msg.
Definition blocked {S A} : M S A := fun _ => Blocked.
Definition out_of_fuel {S A} : M S A := fun _ => OutOfFuel.
Definition gets {S A} (f : S -> A) : M S A := fun s => Ret (f s, s).
Definition modify {S} (f : S -> S) : M S unit := fun s => Ret (tt, f s).

(** Runs [m] on a component of a larger state. *)
Definition zoom {S T A} (get : S -> T) (put : T -> S -> S) (m : M T A) : M S A :=
  fun s => match m (get s) with
           | Ret (a, t) => Ret (a, put t s)
           | Panic msg => Panic msg
           | Blocked => Blocked
           | OutOfFuel => OutOfFuel
           end.

Declare Scope kernel_scope.
Delimit Scope kernel_scope with K.

Notation "'let!' x ':=' m 'in' k" := (bind m (fun x => k))
  (at level 10, x pattern, m at level 100, k at level 200,
   format "'let!'  x  ':='  m  'in' '//' k") : kernel_scope.
Notation "m ;; k" := (bind m (fun _ => k))
  (at level 100, right associativity, format "m ;; '//' k") : kernel_scope.
Notation "'when!' b 'do' m" := (if b then m else ret tt)
  (at level 90, b at level 100, m at level 90) : kernel_scope.

#[global] Open Scope kernel_scope.

(** [for(x in l) body(x)] without early exit. *)
Fixpoint for_each {S A} (l : list A) (body : A -> M S unit) : M S unit :=
  match l with
  | [] => ret tt
  | x :: l' => body x ;; for_each l' body
  end.

(** ** Total-correctness assertions

    [wp m Q s]: started in [s], [m] returns (no panic, no wait, enough fuel)
    and its result and final state satisfy [Q]. *)

Definition wp {S A} (m : M S A) (Q : A -> S -> Prop) (s : S) : Prop :=
  match m s with
  | Ret (a, s') => Q a s'
  | _ => False
  end.

Section wp_rules.
Context {S : Type}.

Lemma wp_ret {A} (a : A) (Q : A -> S -> Prop) s : Q a s -> wp (ret a) Q s.
Proof. done. Qed.

Lemma wp_bind {A B} (m : M S A) (k : A -> M S B) (Q : B -> S -> Prop) s :
  wp m (fun a => wp (k a) Q) s -> wp (bind m k) Q s.
Proof. unfold wp, bind. by destruct (m s) as [[a s']| | |]. Qed.

Lemma wp_gets {A} (f : S -> A) (Q : A -> S -> Prop) s :
  Q (f s) s -> wp (gets f) Q s.
Proof. done. Qed.

Lemma wp_modify (f : S -> S) (Q : unit -> S -> Prop) s :
  Q tt (f s) -> wp (modify f) Q s.
Proof. done. Qed.

Lemma wp_mono {A} (m : M S A) (Q Q' : A -> S -> Prop) s :
  wp m Q s -> (forall a s', Q a s' -> Q' a s') -> wp m Q' s.
Proof. unfold wp. destruct (m s) as [[a s']| | |]; eauto. Qed.

Lemma bind_assoc {A B C} (m : M S A) (k : A -> M S B) (h : B -> M S C) :
  bind (bind m k) h = bind m (fun a => bind (k a) h).
Proof.
  apply functional_extensionality. intros s. unfold bind.
  by destruct (m s) as [[a s']| | |].
Qed.

(** Running a sequence whose first part is known to return or to panic. *)
Lemma bind_ret_eq {A B} (m : M S A) (k : A -> M S B) s a s' :
  m s = Ret (a, s') -> bind m k s = k a s'.
Proof. unfold bind. by intros ->. Qed.
Lemma bind_panic_eq {A B} (m : M S A) (k : A -> M S B) s msg :
  m s = Panic msg -> bind m k s = Panic msg.
Proof. unfold bind. by intros ->. Qed.

Lemma wp_returns {A} (m : M S A) (Q : A -> S -> Prop) s :
  wp m Q s <-> exists a s', m s = Ret (a, s') /\ Q a s'.
Proof.
  unfold wp. split.
  - destruct (m s) as [[a s']| | |]; [|done..]. by exists a, s'.
  - by intros (a & s' & -> & HQ).
Qed.

Lemma wp_if {A} (b : bool) (m1 m2 : M S A) (Q : A -> S -> Prop) s :
  (b = true -> wp m1 Q s) -> (b = false -> wp m2 Q s) ->
  wp (if b then m1 else m2) Q s.
Proof. destruct b; auto. Qed.

Lemma wp_zoom {T A} (get : S -> T) (put : T -> S -> S) (m : M T A)
    (Q : A -> S -> Prop) s :
  wp m (fun a t => Q a (put t s)) (get s) -> wp (zoom get put m) Q s.
Proof. unfold wp, zoom. by destruct (m (get s)) as [[a s']| | |]. Qed.

(** The invariant rule of [for_each]: [I done rest] holds between
    iterations. *)
Lemma wp_for_each_gen {A} (body : A -> M S unit) (I : list A -> list A -> S -> Prop)
    (dn rest : list A) s :
  I dn rest s ->
  (forall d x r s, d ++ x :: r = dn ++ rest -> I d (x :: r) s ->
     wp (body x) (fun _ s' => I (d ++ [x]) r s') s) ->
  wp (for_each rest body) (fun _ s' => I (dn ++ rest) [] s') s.
Proof.
  revert dn s. induction rest as [|x rest IH]; intros dn s HI Hstep; simpl.
  { by rewrite app_nil_r. }
  apply wp_bind. eapply wp_mono; [by apply (Hstep dn x rest)|].
  intros ? s' HI'. cbv beta in HI'.
  replace (dn ++ x :: rest) with ((dn ++ [x]) ++ rest) by by rewrite <- app_assoc.
  apply IH; [done|].
  intros d y r s'' Heq. apply Hstep. by rewrite Heq, <- app_assoc.
Qed.

Lemma wp_for_each {A} (body : A -> M S unit) (I : list A -> list A -> S -> Prop)
    (l : list A) s :
  I [] l s ->
  (forall d x r s, d ++ x :: r = l -> I d (x :: r) s ->
     wp (body x) (fun _ s' => I (d ++ [x]) r s') s) ->
  wp (for_each l body) (fun _ s' => I l [] s') s.
Proof. intros HI Hstep. by apply (wp_for_each_gen body I [] l s). Qed.
End wp_rules.

Create HintDb kernel.
#[export] Hint Resolve wp_ret wp_gets wp_modify wp_bind : kernel.

(** *** Partial correctness

    [wlp m Q s]: if [m] returns from [s], its result and final state satisfy
    [Q].  For invariants, which also have to hold along runs that end in a
    panic or in a wait. *)

Definition wlp {S A} (m : M S A) (Q : A -> S -> Prop) (s : S) : Prop :=
  forall a s', m s = Ret (a, s') -> Q a s'.

Section wlp_rules.
Context {S : Type}.

Lemma wlp_ret {A} (a : A) (Q : A -> S -> Prop) s : Q a s -> wlp (ret a) Q s.
Proof. by intros HQ ? ? [= <- <-]. Qed.
Lemma wlp_bind {A B} (m : M S A) (k : A -> M S B) (Q : B -> S -> Prop) s :
  wlp m (fun a => wlp (k a) Q) s -> wlp (bind m k) Q s.
Proof.
  intros Hm b s'. unfold bind. destruct (m s) as [[a s1]| | |] eqn:E; try done. by apply Hm.
Qed.
(** When it does not matter what the first part does. *)
Lemma wlp_any {A B} (m : M S A) (k : A -> M S B) (Q : B -> S -> Prop) s :
  (forall a s', wlp (k a) Q s') -> wlp (bind m k) Q s.
Proof. intros Hk. apply wlp_bind. intros a s' _. apply Hk. Qed.
Lemma wlp_gets {A} (f : S -> A) (Q : A -> S -> Prop) s : Q (f s) s -> wlp (gets f) Q s.
Proof. by intros HQ ? ? [= <- <-]. Qed.
Lemma wlp_modify (f : S -> S) (Q : unit -> S -> Prop) s : Q tt (f s) -> wlp (modify f) Q s.
Proof. by intros HQ [] ? [= <-]. Qed.
Lemma wlp_panic {A} msg (Q : A -> S -> Prop) s : wlp (panic msg) Q s.
Proof. by intros ? ?. Qed.
Lemma wlp_blocked {A} (Q : A -> S -> Prop) s : wlp blocked Q s.
Proof. by intros ? ?. Qed.
Lemma wlp_out_of_fuel {A} (Q : A -> S -> Prop) s : wlp out_of_fuel Q s.
Proof. by intros ? ?. Qed.
Lemma wlp_mono {A} (m : M S A) (Q Q' : A -> S -> Prop) s :
  wlp m Q s -> (forall a s', Q a s' -> Q' a s') -> wlp m Q' s.
Proof. intros Hm HQ a s' E. by apply HQ, Hm. Qed.
Lemma wlp_if {A} (b : bool) (m1 m2 : M S A) (Q : A -> S -> Prop) s :
  (b = true -> wlp m1 Q s) -> (b = false -> wlp m2 Q s) -> wlp (if b then m1 else m2) Q s.
Proof. destruct b; auto. Qed.
Lemma wlp_zoom {T A} (get : S -> T) (put : T -> S -> S) (m : M T A) (Q : A -> S -> Prop) s :
  wlp m (fun a t => Q a (put t s)) (get s) -> wlp (zoom get put m) Q s.
Proof.
  intros Hm a s'. unfold zoom. destruct (m (get s)) as [[a1 t]| | |] eqn:E; try done.
  intros [= <- <-]. by apply Hm.
Qed.
Lemma wlp_for_each {A} (body : A -> M S unit) (I : S -> Prop) (l : list A) s :
  I s -> (forall x s, x ∈ l -> I s -> wlp (body x) (fun _ => I) s) ->
  wlp (for_each l body) (fun _ => I) s.
Proof.
  revert s. induction l as [|x l IH]; intros s HI Hb; [by apply wlp_ret|]. simpl.
  apply wlp_bind. eapply wlp_mono; [apply Hb; [left|done]|]. intros ? s' HI'.
  apply IH; [done|]. intros y s'' Hy. apply Hb. by right.
Qed.
Lemma wlp_for_each_rest {A} (body : A -> M S unit) (I : list A -> S -> Prop) (l : list A) s :
  I l s -> (forall x r s, I (x :: r) s -> wlp (body x) (fun _ => I r) s) ->
  wlp (for_each l body) (fun _ => I []) s.
Proof.
  intros HI Hb. revert s HI. induction l as [|x l IH]; intros s HI; [by apply wlp_ret|]. simpl.
  apply wlp_bind. eapply wlp_mono; [by apply Hb|]. intros ? s' HI'. by apply IH.
Qed.
Lemma wp_wlp {A} (m : M S A) (Q : A -> S -> Prop) s : wp m Q s -> wlp m Q s.
Proof. intros Hw a s' E. unfold wp in Hw. by rewrite E in Hw. Qed.
End wlp_rules.

(** *** Frames

    [moves R m]: a run of [m] that returns takes the state along [R], a
    preorder that says what [m] may change. *)

Definition moves {S A} (R : S -> S -> Prop) (m : M S A) : Prop := forall s, wlp m (fun _ s' => R s s') s.

Section moves_rules.
Context {S : Type} (R : S -> S -> Prop) `{!PreOrder R}.

Lemma moves_ret {A} (a : A) : moves R (ret a).
Proof. intros s. by apply wlp_ret. Qed.
Lemma moves_bind {A B} (m : M S A) (f : A -> M S B) : moves R m -> (forall a, moves R (f a)) -> moves R (bind m f).
Proof.
  intros Hm Hf s. apply wlp_bind. eapply wlp_mono; [apply Hm|]. cbv beta. intros a s1 E1.
  eapply wlp_mono; [apply Hf|]. cbv beta. intros b s2 E2. by etransitivity.
Qed.
Lemma moves_gets {A} (f : S -> A) : moves R (gets f).
Proof. intros s. by apply wlp_gets. Qed.
Lemma moves_modify (f : S -> S) : (forall s, R s (f s)) -> moves R (modify f).
Proof. intros Hf s. by apply wlp_modify. Qed.
Lemma moves_panic {A} msg : moves R (panic (A := A) msg).
Proof. by intros s a s'. Qed.
Lemma moves_blocked {A} : moves R (blocked (A := A)).
Proof. by intros s a s'. Qed.
Lemma moves_out_of_fuel {A} : moves R (out_of_fuel (A := A)).
Proof. by intros s a s'. Qed.
Lemma moves_for_each {A} (l : list A) (f : A -> M S unit) : (forall x, moves R (f x)) -> moves R (for_each l f).
Proof. intros Hf. induction l as [|x l IH]; [apply moves_ret|]. by apply moves_bind. Qed.
Lemma moves_zoom {T A} (Q : T -> T -> Prop) (get : S -> T) (put : T -> S -> S) (m : M T A) :
  (forall s t, Q (get s) t -> R s (put t s)) -> moves Q m -> moves R (zoom get put m).
Proof. intros Hp Hm s. apply wlp_zoom. eapply wlp_mono; [apply Hm|]. cbv beta. intros a t. apply Hp. Qed.
End moves_rules.

Create HintDb moves.
#[export] Hint Resolve moves_ret moves_gets moves_panic moves_blocked moves_out_of_fuel : moves.

(** Takes a goal [moves R m] apart along the structure of [m]. *)
Ltac moves :=
  repeat (cbv zeta; first
    [ solve [auto with moves typeclass_instances]
    | match goal with
      | |- moves _ (bind _ _) => apply moves_bind; [try exact _|..|intros ?]
      | |- moves _ (for_each _ _) => apply moves_for_each; [try exact _|intros ?]
      | |- moves _ (match ?x with _ => _ end) => destruct x
      end ]).

(** One step of symbolic execution, for partial and for total correctness. *)
Ltac wlp_step :=
  lazymatch goal with
  | |- wlp (bind _ _) _ _ => apply wlp_bind
  | |- wlp (ret _) _ _ => apply wlp_ret
  | |- wlp (gets _) _ _ => apply wlp_gets
  | |- wlp (modify _) _ _ => apply wlp_modify
  | |- wlp (panic _) _ _ => apply wlp_panic
  | |- wlp blocked _ _ => apply wlp_blocked
  | |- wlp out_of_fuel _ _ => apply wlp_out_of_fuel
  | |- wlp (if _ then _ else _) _ _ => apply wlp_if; intros ?
  end; cbv beta.

Ltac wp_step :=
  lazymatch goal with
  | |- wp (bind _ _) _ _ => apply wp_bind
  | |- wp (ret _) _ _ => apply wp_ret
  | |- wp (gets _) _ _ => apply wp_gets
  | |- wp (modify _) _ _ => apply wp_modify
  | |- wp (zoom _ _ _) _ _ => apply wp_zoom
  | |- wp (if _ then _ else _) _ _ => apply wp_if; intros ?
  end.
Ltac wp_steps := repeat (wp_step; cbv beta).

(** ** Machine integers *)

Definition u8 (x : Z) : Z := x mod 2 ^ 8.
Definition u16 (x : Z) : Z := x mod 2 ^ 16.
Definition u32 (x : Z) : Z := x mod 2 ^ 32.
Definition u64 (x : Z) : Z := x mod 2 ^ 64.
(** Conversion to a signed 32-bit [int]. *)
Definition i32 (x : Z) : Z := (x + 2 ^ 31) mod 2 ^ 32 - 2 ^ 31.

Lemma u8_id x : 0 <= x < 256 -> u8 x = x.
Proof. apply Z.mod_small. Qed.
Lemma u32_id x : 0 <= x < 2 ^ 32 -> u32 x = x.
Proof. apply Z.mod_small. Qed.
Lemma u64_id x : 0 <= x < 2 ^ 64 -> u64 x = x.
Proof. apply Z.mod_small. Qed.
Lemma i32_id x : - 2 ^ 31 <= x < 2 ^ 31 -> i32 x = x.
Proof. intros. unfold i32. rewrite Z.mod_small; lia. Qed.
Lemma u8_range x : 0 <= u8 x < 256.
Proof. by apply Z.mod_pos_bound. Qed.
Lemma u32_range x : 0 <= u32 x < 2 ^ 32.
Proof. by apply Z.mod_pos_bound. Qed.
Lemma u64_range x : 0 <= u64 x < 2 ^ 64.
Proof. by apply Z.mod_pos_bound. Qed.
Lemma i32_range x : - 2 ^ 31 <= i32 x < 2 ^ 31.
Proof.
  unfold i32. pose proof (Z.mod_pos_bound (x + 2 ^ 31) (2 ^ 32)). lia.
Qed.

#[export] Hint Resolve u8_range u32_range u64_range i32_range : kernel.

(** Boolean comparisons turned into propositions, then [lia]. *)
Ltac bool_to_prop :=
  repeat match goal with
  | H : (_ && _)%bool = true |- _ => apply andb_true_iff in H as [? ?]
  | H : (_ || _)%bool = false |- _ => apply orb_false_iff in H as [? ?]
  | H : negb _ = true |- _ => apply negb_true_iff in H
  | H : negb _ = false |- _ => apply negb_false_iff in H
  | H : (_ =? _) = true |- _ => apply Z.eqb_eq in H
  | H : (_ =? _) = false |- _ => apply Z.eqb_neq in H
  | H : (_ <=? _) = true |- _ => apply Z.leb_le in H
  | H : (_ <=? _) = false |- _ => apply Z.leb_gt in H
  | H : (_ <? _) = true |- _ => apply Z.ltb_lt in H
  | H : (_ <? _) = false |- _ => apply Z.ltb_ge in H
  end.
Ltac blia := bool_to_prop; lia.

(** Case analysis on the first boolean test of the goal. *)
Ltac case_bool :=
  match goal with
  | |- context [if ?b then _ else _] => destruct b eqn:?; bool_to_prop
  end.

(** ** Functional update (arrays indexed by a number) *)

Definition upd {K A} `{EqDecision K} (f : K -> A) (k : K) (v : A) : K -> A :=
  fun j => if decide (j = k) then v else f j.

Section upd.
Context {K A : Type} `{EqDecision K}.
Implicit Types (f : K -> A) (k j : K) (v : A).

Lemma upd_same f k v : upd f k v k = v.
Proof. unfold upd. by destruct (decide (k = k)). Qed.
Lemma upd_other f k v j : j <> k -> upd f k v j = f j.
Proof. intros. unfold upd. by destruct (decide (j = k)). Qed.
Lemma upd_id f k j : upd f k (f k) j = f j.
Proof. unfold upd. by destruct (decide (j = k)) as [->|]. Qed.
Lemma upd_upd f k v w : upd (upd f k v) k w = upd f k w.
Proof. apply functional_extensionality. intros j. unfold upd. by destruct (decide _). Qed.
End upd.

(** Case split on which entry an update is about. *)
Ltac upd_cases j k :=
  let E := fresh "E" in
  destruct (decide (j = k)) as [E|E];
  [subst; rewrite ?upd_same in *|rewrite ?(upd_other _ k _ j) in * by done].

(** Looks up updates at entries that are known to be the same or different. *)
Ltac upds :=
  repeat match goal with
  | |- context [upd ?f ?k ?v ?j] =>
      first [constr_eq k j; rewrite (upd_same f k v)
            |rewrite (upd_other f k v j) by first [done | congruence | lia]]
  end.

(** Uses the specification [H] of the operation that comes next, or of the
    whole rest. *)
Ltac wp_last H := eapply wp_mono; [apply H; upds; try done; try lia | cbv beta].
Ltac wp_call H :=
  lazymatch goal with |- wp (bind _ _) _ _ => apply wp_bind | _ => idtac end; wp_last H.

(** ** Bit operations *)

Lemma land_ones_mod x n : 0 <= n -> Z.land x (2 ^ n - 1) = x mod 2 ^ n.
Proof.
  intros. rewrite <- Z.land_ones by done. f_equal. rewrite Z.ones_equiv. lia.
Qed.

Lemma land_lnot_ones x n :
  0 <= n -> Z.land x (Z.lnot (2 ^ n - 1)) = x - x mod 2 ^ n.
Proof.
  intros. replace (2 ^ n - 1) with (Z.ones n) by (rewrite Z.ones_equiv; lia).
  rewrite <- Z.ldiff_land, Z.ldiff_ones_r by done.
  rewrite Z.shiftl_mul_pow2, Z.shiftr_div_pow2 by done.
  pose proof (Z.div_mod x (2 ^ n)). lia.
Qed.

(** Disjoint bits: [lor] is addition. *)
Lemma land_low_high x y n :
  0 <= n -> x mod 2 ^ n = 0 -> 0 <= y < 2 ^ n -> Z.land x y = 0.
Proof.
  intros Hn Hx Hy. apply Z.bits_inj_iff'. intros i Hi.
  rewrite Z.bits_0, Z.land_spec. destruct (decide (i < n)).
  - rewrite (Z.div_mod x (2 ^ n)), Hx, Z.add_0_r, Z.mul_comm by lia.
    rewrite Z.mul_pow2_bits_low; [done|lia].
  - rewrite <- (Z.mod_small y (2 ^ n)) by lia.
    rewrite Z.mod_pow2_bits_high; [by rewrite andb_false_r|lia].
Qed.

Lemma lor_add_low x y n :
  0 <= n -> x mod 2 ^ n = 0 -> 0 <= y < 2 ^ n -> Z.lor x y = x + y.
Proof.
  intros Hn Hx Hy. pose proof (land_low_high x y n Hn Hx Hy).
  rewrite <- Z.lxor_lor by done. by rewrite <- Z.add_nocarry_lxor.
Qed.

Lemma lor_range x y n :
  0 <= n -> 0 <= x < 2 ^ n -> 0 <= y < 2 ^ n -> 0 <= Z.lor x y < 2 ^ n.
Proof.
  intros Hn Hx Hy. split; [apply Z.lor_nonneg; lia|].
  rewrite <- (Z.mod_small x (2 ^ n)), <- (Z.mod_small y (2 ^ n)) by done.
  rewrite <- !Z.land_ones, <- Z.land_lor_distr_l, Z.land_ones by done.
  apply Z.mod_pos_bound. lia.
Qed.

(** [lia] decides divisions and remainders by constants. *)
Ltac Zify.zify_post_hook ::= Z.to_euclidean_division_equations.
