(* ===== verification/Bytes.v ===== *)
(** * Byte images of C values

    Little-endian integers in arrays of bytes: reading and writing fields of a
    struct that is overlaid on a disk block or on a buffer. *)

From S2P Require Import Prelude.

Fixpoint le_bytes (n : nat) (v : Z) : list Z :=
  match n with O => [] | S n' => u8 v :: le_bytes n' (v / 256) end.
Definition int_bytes (v : Z) : list Z := le_bytes 4 (u32 v).

Fixpoint le_val (bs : list Z) : Z :=
  match bs with [] => 0 | b :: bs' => b + 256 * le_val bs' end.

(** [n] bytes from [off], and the array with other bytes from [off]. *)
Definition slice (d : list Z) (off n : nat) : list Z := take n (drop off d).
Definition put (d : list Z) (off : nat) (bs : list Z) : list Z := list_inserts off bs d.

Definition get32 (d : list Z) (off : nat) : Z := le_val (slice d off 4).
Definition put32 (d : list Z) (off : nat) (v : Z) : list Z := put d off (le_bytes 4 v).
Definition get16 (d : list Z) (off : nat) : Z := le_val (slice d off 2).
Definition put16 (d : list Z) (off : nat) (v : Z) : list Z := put d off (le_bytes 2 v).

(** The bytes [f] has from [off] on. *)
Definition bytes_at (f : Z -> Z) (off : Z) (n : nat) : list Z :=
  map (fun i => f (off + Z.of_nat i)) (seq 0 n).

(** ** Integers *)

Lemma length_le_bytes n v : length (le_bytes n v) = n.
Proof. revert v. induction n; intros; simpl; auto. Qed.

Lemma le_val_bytes n v : le_val (le_bytes n v) = v mod 256 ^ Z.of_nat n.
Proof.
  revert v. induction n as [|n IH]; intros v.
  { change (Z.of_nat 0) with 0. simpl. by rewrite Z.mod_1_r. }
  cbn [le_bytes le_val]. rewrite IH, Nat2Z.inj_succ, Z.pow_succ_r by lia. unfold u8.
  change (2 ^ 8) with 256. rewrite Z.rem_mul_r by lia. done.
Qed.

Lemma le_val_id n v : 0 <= v < 256 ^ Z.of_nat n -> le_val (le_bytes n v) = v.
Proof. intros. rewrite le_val_bytes. by apply Z.mod_small. Qed.

Definition is_byte (b : Z) : Prop := 0 <= b < 256.

Lemma le_bytes_byte n v : Forall is_byte (le_bytes n v).
Proof. revert v. induction n; intros; simpl; constructor; [apply u8_range|done]. Qed.

Lemma le_bytes_val bs : Forall is_byte bs -> le_bytes (length bs) (le_val bs) = bs.
Proof.
  induction 1 as [|b bs Hb _ IH]; [done|]. unfold is_byte in Hb. simpl.
  replace (u8 (b + 256 * le_val bs)) with b.
  - replace ((b + 256 * le_val bs) / 256) with (le_val bs); [by rewrite IH|].
    rewrite Z.mul_comm, Z.div_add, Z.div_small by lia. lia.
  - unfold u8. change (2 ^ 8) with 256. rewrite Z.mul_comm, Z.mod_add, Z.mod_small by lia. done.
Qed.

Lemma le_val_range bs : Forall is_byte bs -> 0 <= le_val bs < 256 ^ Z.of_nat (length bs).
Proof.
  intros H. pose proof (le_val_bytes (length bs) (le_val bs)) as E.
  rewrite le_bytes_val in E by done. rewrite E. apply Z.mod_pos_bound. lia.
Qed.

(** ** Slices *)

Lemma length_slice d off n : (off + n <= length d)%nat -> length (slice d off n) = n.
Proof. intros. unfold slice. rewrite length_take, length_drop. lia. Qed.

Lemma length_put d off bs : length (put d off bs) = length d.
Proof. apply length_inserts. Qed.

Lemma lookup_slice d off n k : (k < n)%nat -> slice d off n !! k = d !! (off + k)%nat.
Proof. intros. unfold slice. by rewrite lookup_take_lt, lookup_drop. Qed.

Lemma slice_put_same d off bs :
  (off + length bs <= length d)%nat -> slice (put d off bs) off (length bs) = bs.
Proof.
  intros H. apply list_eq. intros k. destruct (decide (k < length bs)%nat) as [Hk|Hk].
  - rewrite lookup_slice by done. unfold put. rewrite list_lookup_inserts by lia. f_equal. lia.
  - rewrite (lookup_ge_None_2 bs) by lia. apply lookup_ge_None_2. unfold slice.
    rewrite length_take. lia.
Qed.

Lemma slice_put_other d off bs off' n :
  (off' + n <= off \/ off + length bs <= off')%nat ->
  slice (put d off bs) off' n = slice d off' n.
Proof.
  intros H. apply list_eq. intros k. destruct (decide (k < n)%nat) as [Hk|Hk].
  - rewrite !lookup_slice by done. unfold put.
    destruct H; [apply list_lookup_inserts_lt|apply list_lookup_inserts_ge]; lia.
  - unfold slice. by rewrite !lookup_take_ge by lia.
Qed.

Lemma nth_put d off bs k : (off + length bs <= length d)%nat ->
  nth k (put d off bs) 0 =
  if decide (off <= k < off + length bs)%nat then nth (k - off) bs 0 else nth k d 0.
Proof.
  intros H. unfold put. rewrite !nth_lookup. case_decide as Hk.
  - rewrite list_lookup_inserts by lia. done.
  - destruct (decide (k < off)%nat).
    + by rewrite list_lookup_inserts_lt.
    + by rewrite list_lookup_inserts_ge by lia.
Qed.

Lemma length_bytes_at f off n : length (bytes_at f off n) = n.
Proof. unfold bytes_at. by rewrite length_map, length_seq. Qed.

Lemma lookup_bytes_at f off n i : (i < n)%nat -> bytes_at f off n !! i = Some (f (off + Z.of_nat i)).
Proof. intros Hi. unfold bytes_at. by rewrite list_lookup_fmap, lookup_seq_lt. Qed.

Lemma bytes_at_app f off n m : bytes_at f off (n + m) = bytes_at f off n ++ bytes_at f (off + Z.of_nat n) m.
Proof.
  apply list_eq. intros i. destruct (decide (i < n + m)%nat) as [Hi|Hi].
  - rewrite lookup_bytes_at by done. destruct (decide (i < n)%nat) as [Hn|Hn].
    + by rewrite lookup_app_l, lookup_bytes_at by (by rewrite ?length_bytes_at).
    + rewrite lookup_app_r, length_bytes_at, lookup_bytes_at by (rewrite ?length_bytes_at; lia).
      do 2 f_equal. lia.
  - rewrite !lookup_ge_None_2; [done| |]; rewrite ?length_app, !length_bytes_at; lia.
Qed.

Lemma bytes_at_ext f g off n : (forall i, (i < n)%nat -> f (off + Z.of_nat i) = g (off + Z.of_nat i)) ->
  bytes_at f off n = bytes_at g off n.
Proof. intros H. apply map_ext_in. intros i Hi%List.in_seq. apply H. lia. Qed.

Lemma slice_slice d off n off' n' : (off' + n' <= n)%nat ->
  slice (slice d off n) off' n' = slice d (off + off') n'.
Proof.
  intros H. apply list_eq. intros k. destruct (decide (k < n')%nat) as [Hk|Hk].
  - rewrite !lookup_slice by lia. f_equal. lia.
  - unfold slice at 1 3. by rewrite !lookup_take_ge by lia.
Qed.

Lemma get32_put32 d off v :
  (off + 4 <= length d)%nat -> 0 <= v < 2 ^ 32 -> get32 (put32 d off v) off = v.
Proof.
  intros H Hv. unfold get32, put32. rewrite <-(length_le_bytes 4 v) at 2.
  rewrite slice_put_same by (rewrite length_le_bytes; lia). by apply le_val_id.
Qed.

Lemma get32_put_other d off bs off' :
  (off' + 4 <= off \/ off + length bs <= off')%nat -> get32 (put d off bs) off' = get32 d off'.
Proof. intros. unfold get32. by rewrite slice_put_other. Qed.

Lemma get32_put32_other d off v off' :
  (off' + 4 <= off \/ off + 4 <= off')%nat -> get32 (put32 d off v) off' = get32 d off'.
Proof. intros. apply get32_put_other. by rewrite length_le_bytes. Qed.

Lemma get16_put16 d off v :
  (off + 2 <= length d)%nat -> 0 <= v < 2 ^ 16 -> get16 (put16 d off v) off = v.
Proof.
  intros H Hv. unfold get16, put16. rewrite <-(length_le_bytes 2 v) at 2.
  rewrite slice_put_same by (rewrite length_le_bytes; lia). by apply le_val_id.
Qed.

Lemma get16_put_other d off bs off' :
  (off' + 2 <= off \/ off + length bs <= off')%nat -> get16 (put d off bs) off' = get16 d off'.
Proof. intros. unfold get16. by rewrite slice_put_other. Qed.

Lemma length_put32 d off v : length (put32 d off v) = length d.
Proof. apply length_put. Qed.
Lemma length_put16 d off v : length (put16 d off v) = length d.
Proof. apply length_put. Qed.

(** Blocks of bytes stay blocks of bytes. *)
Lemma put_byte d off bs : Forall is_byte d -> Forall is_byte bs -> Forall is_byte (put d off bs).
Proof.
  intros Hd Hb. unfold put. revert off. induction Hb as [|b bs Hb _ IH]; intros off; simpl; [done|].
  by apply Forall_insert.
Qed.
Lemma slice_byte d off n : Forall is_byte d -> Forall is_byte (slice d off n).
Proof. intros. by apply Forall_take, Forall_drop. Qed.

Create HintDb bytes.
Create Rewrite HintDb bytes.
#[export] Hint Rewrite length_put length_put32 length_put16 length_le_bytes : bytes.
#[export] Hint Resolve put_byte slice_byte le_bytes_byte : bytes.
