(* ===== verification/Riscv.v ===== *)
(** * Machine and memory layout

    The macros of kernel/riscv.h (pages, page-table entries) and the address
    map of kernel/memlayout.h, and physical memory as bytes with
    little-endian 64-bit words. *)

From S2P Require Import Prelude.

(** ** kernel/riscv.h: pages and page-table entries *)

Definition PGSIZE : Z := 4096.
Definition PGSHIFT : Z := 12.

Definition PGROUNDUP (sz : Z) : Z := Z.land (u64 (sz + PGSIZE - 1)) (Z.lnot (PGSIZE - 1)).
Definition PGROUNDDOWN (a : Z) : Z := Z.land a (Z.lnot (PGSIZE - 1)).

Definition PTE_V : Z := Z.shiftl 1 0.
Definition PTE_R : Z := Z.shiftl 1 1.
Definition PTE_W : Z := Z.shiftl 1 2.
Definition PTE_X : Z := Z.shiftl 1 3.
Definition PTE_U : Z := Z.shiftl 1 4.
Definition PTE_COW : Z := Z.shiftl 1 8.

Definition PA2PTE (pa : Z) : Z := u64 (Z.shiftl (Z.shiftr pa 12) 10).
Definition PTE2PA (pte : Z) : Z := u64 (Z.shiftl (Z.shiftr pte 10) 12).
Definition PTE_FLAGS (pte : Z) : Z := Z.land pte 0x3FF.

Definition PXMASK : Z := 0x1FF.
Definition PXSHIFT (level : Z) : Z := PGSHIFT + 9 * level.
Definition PX (level va : Z) : Z := Z.land (Z.shiftr va (PXSHIFT level)) PXMASK.

Definition MAXVA : Z := Z.shiftl 1 (9 + 9 + 9 + 12 - 1).

(** ** kernel/memlayout.h *)

Definition KERNBASE : Z := 0x80000000.
Definition PHYSTOP : Z := KERNBASE + 128 * 1024 * 1024.
Definition TRAMPOLINE : Z := MAXVA - PGSIZE.
Definition TRAPFRAME : Z := TRAMPOLINE - PGSIZE.
Definition KSTACK (p : Z) : Z := TRAMPOLINE - (p + 1) * 2 * PGSIZE.

(** [lia] sees through the layout constants. *)
Ltac Zify.zify_pre_hook ::=
  unfold PHYSTOP, KERNBASE, TRAPFRAME, TRAMPOLINE, PGSIZE, PGSHIFT in *;
  change MAXVA with 274877906944 in *.

(** ** Rounding *)

Lemma PGROUNDDOWN_eq a : PGROUNDDOWN a = a - a mod PGSIZE.
Proof.
  unfold PGROUNDDOWN. change (PGSIZE - 1) with (2 ^ 12 - 1).
  by rewrite land_lnot_ones.
Qed.

Lemma PGROUNDUP_eq sz :
  0 <= sz <= 2 ^ 64 - PGSIZE -> PGROUNDUP sz = (sz + PGSIZE - 1) / PGSIZE * PGSIZE.
Proof.
  intros. unfold PGROUNDUP. change (PGSIZE - 1) with (2 ^ 12 - 1).
  rewrite land_lnot_ones by done. rewrite u64_id by lia.
  pose proof (Z.div_mod (sz + PGSIZE - 1) PGSIZE ltac:(done)).
  change (2 ^ 12) with PGSIZE. lia.
Qed.

(** The rounded value is the least page boundary that is not below [sz]. *)
Lemma PGROUNDUP_spec sz :
  0 <= sz <= 2 ^ 64 - PGSIZE ->
  PGROUNDUP sz mod PGSIZE = 0 /\ sz <= PGROUNDUP sz < sz + PGSIZE.
Proof.
  intros. rewrite PGROUNDUP_eq by done. unfold PGSIZE in *.
  split; [apply Z.mod_mul; lia|]. lia.
Qed.

Lemma PGROUNDUP_aligned sz :
  0 <= sz <= 2 ^ 64 - PGSIZE -> sz mod PGSIZE = 0 -> PGROUNDUP sz = sz.
Proof. intros. rewrite PGROUNDUP_eq by done. unfold PGSIZE in *. lia. Qed.

Lemma PGROUNDDOWN_spec a :
  PGROUNDDOWN a mod PGSIZE = 0 /\ PGROUNDDOWN a <= a < PGROUNDDOWN a + PGSIZE.
Proof. rewrite PGROUNDDOWN_eq. unfold PGSIZE. lia. Qed.

(** ** Page-table entries *)

Lemma PA2PTE_eq pa : 0 <= pa < 2 ^ 56 -> PA2PTE pa = pa / 2 ^ 12 * 2 ^ 10.
Proof.
  intros. unfold PA2PTE. rewrite Z.shiftr_div_pow2, Z.shiftl_mul_pow2 by lia.
  apply u64_id. lia.
Qed.

Lemma PTE2PA_eq pte : 0 <= pte < 2 ^ 54 -> PTE2PA pte = pte / 2 ^ 10 * 2 ^ 12.
Proof.
  intros. unfold PTE2PA. rewrite Z.shiftr_div_pow2, Z.shiftl_mul_pow2 by lia.
  apply u64_id. lia.
Qed.

(** A PTE built from a page address and flags gives back both. *)
Lemma PTE_roundtrip pa flags :
  0 <= pa < 2 ^ 56 -> pa mod PGSIZE = 0 -> 0 <= flags < 1024 ->
  PTE2PA (Z.lor (PA2PTE pa) flags) = pa /\
  PTE_FLAGS (Z.lor (PA2PTE pa) flags) = flags.
Proof.
  intros Hpa Hal Hf. rewrite PA2PTE_eq by done. unfold PGSIZE in *.
  rewrite (lor_add_low _ flags 10) by lia.
  split.
  - rewrite PTE2PA_eq by lia. lia.
  - unfold PTE_FLAGS. change 0x3FF with (2 ^ 10 - 1). rewrite land_ones_mod by done. lia.
Qed.

Lemma PX_eq level va :
  0 <= level -> PX level va = (va / 2 ^ (12 + 9 * level)) mod 512.
Proof.
  intros. unfold PX, PXMASK, PXSHIFT, PGSHIFT. change 0x1FF with (2 ^ 9 - 1).
  rewrite land_ones_mod, Z.shiftr_div_pow2 by lia. done.
Qed.

Lemma PX_range level va : 0 <= level -> 0 <= PX level va < 512.
Proof. intros. rewrite PX_eq by done. lia. Qed.

(** The three indices determine the page of an address below MAXVA. *)
Lemma PX_inj va va' :
  0 <= va < MAXVA -> 0 <= va' < MAXVA ->
  PX 2 va = PX 2 va' -> PX 1 va = PX 1 va' -> PX 0 va = PX 0 va' ->
  PGROUNDDOWN va = PGROUNDDOWN va'.
Proof.
  rewrite !PX_eq, !PGROUNDDOWN_eq by lia.
  change (2 ^ (12 + 9 * 2)) with 1073741824. change (2 ^ (12 + 9 * 1)) with 2097152.
  change (2 ^ (12 + 9 * 0)) with 4096. lia.
Qed.

#[export] Hint Resolve PX_range : kernel.

(** ** Physical memory *)

Definition memory := Z -> Z.

(** A byte load and a byte store. *)
Definition ldb (m : memory) (a : Z) : Z := u8 (m a).
Definition stb (m : memory) (a v : Z) : memory :=
  fun x => if x =? a then u8 v else m x.

(** [n]-byte little-endian words. *)
Fixpoint ld_le (m : memory) (a : Z) (n : nat) : Z :=
  match n with
  | O => 0
  | S n' => ldb m a + 256 * ld_le m (a + 1) n'
  end.

Fixpoint st_le (m : memory) (a : Z) (n : nat) (v : Z) : memory :=
  match n with
  | O => m
  | S n' => stb (st_le m (a + 1) n' (v / 256)) a v
  end.

Definition ld64 (m : memory) (a : Z) : Z := ld_le m a 8.
Definition st64 (m : memory) (a v : Z) : memory := st_le m a 8 v.

Lemma ldb_range m a : 0 <= ldb m a < 256.
Proof. apply u8_range. Qed.

Lemma stb_same m a v : stb m a v a = u8 v.
Proof. unfold stb. by rewrite Z.eqb_refl. Qed.
Lemma stb_other m a v x : x <> a -> stb m a v x = m x.
Proof. intros. unfold stb. by rewrite (proj2 (Z.eqb_neq x a)). Qed.

Lemma st_le_other m a n v x : x < a \/ a + Z.of_nat n <= x -> st_le m a n v x = m x.
Proof.
  revert m a v. induction n as [|n IH]; intros m a v H; simpl; [done|].
  rewrite stb_other by lia. apply IH. lia.
Qed.

Lemma ld_le_ext m m' a n :
  (forall x, a <= x < a + Z.of_nat n -> m x = m' x) -> ld_le m a n = ld_le m' a n.
Proof.
  revert a. induction n as [|n IH]; intros a H; simpl; [done|].
  unfold ldb. rewrite H, IH by (intros; try apply H; lia). done.
Qed.

Lemma ld_le_range m a n : 0 <= ld_le m a n < 256 ^ Z.of_nat n.
Proof.
  revert a. induction n as [|n IH]; intros a; simpl ld_le; [done|].
  pose proof (ldb_range m a). specialize (IH (a + 1)).
  rewrite Nat2Z.inj_succ, Z.pow_succ_r by lia. lia.
Qed.

Lemma ld_st_le m a n v : ld_le (st_le m a n v) a n = v mod 256 ^ Z.of_nat n.
Proof.
  revert m a v. induction n as [|n IH]; intros m a v; simpl ld_le; simpl st_le.
  { by rewrite Z.mod_1_r. }
  rewrite (ld_le_ext _ (st_le m (a + 1) n (v / 256))).
  2: { intros x Hx. apply stb_other. lia. }
  rewrite IH. unfold ldb. rewrite stb_same, Nat2Z.inj_succ, Z.pow_succ_r by lia.
  unfold u8. rewrite Z.mod_mod by done. change (2 ^ 8) with 256.
  rewrite Z.rem_mul_r by lia. lia.
Qed.

Lemma ld64_range m a : 0 <= ld64 m a < 2 ^ 64.
Proof. apply (ld_le_range m a 8). Qed.

Lemma ld_st64_same m a v : ld64 (st64 m a v) a = u64 v.
Proof. apply (ld_st_le m a 8). Qed.

Lemma st64_other m a v x : x < a \/ a + 8 <= x -> st64 m a v x = m x.
Proof. intros. apply st_le_other. lia. Qed.

Lemma ld64_ext m m' a :
  (forall x, a <= x < a + 8 -> m x = m' x) -> ld64 m a = ld64 m' a.
Proof. intros. apply ld_le_ext. intros. apply H. lia. Qed.

Lemma ld_st64_other m a v b : b + 8 <= a \/ a + 8 <= b -> ld64 (st64 m a v) b = ld64 m b.
Proof. intros. apply ld64_ext. intros. apply st64_other. lia. Qed.

#[export] Hint Resolve ldb_range ld64_range : kernel.
