(* ===== verification/KString.v ===== *)
(** * kernel/string.c

    The byte-string routines of the kernel over physical memory.  Every loop
    of the source is a Fixpoint on the number of iterations left; [strlen],
    whose loop has no bound, takes fuel. *)

From S2P Require Import Prelude Riscv.

Implicit Types (m : memory) (a d s t p q c : Z).

(** ** memset *)

Fixpoint memset_loop m (cdst c i : Z) (left : nat) : memory :=
  match left with
  | O => m
  | S left' => memset_loop (stb m (cdst + i) c) cdst c (i + 1) left'
  end.
Definition memset m (dst c n : Z) : memory := memset_loop m dst c 0 (Z.to_nat n).

(** ** memcmp *)

Fixpoint memcmp_loop m (s1 s2 : Z) (n : nat) : Z :=
  match n with
  | O => 0
  | S n' => if negb (ldb m s1 =? ldb m s2) then ldb m s1 - ldb m s2
            else memcmp_loop m (s1 + 1) (s2 + 1) n'
  end.
Definition memcmp m (v1 v2 n : Z) : Z := memcmp_loop m v1 v2 (Z.to_nat n).

(** ** memmove *)

(** [while(n-- > 0) *--d = *--s;] *)
Fixpoint move_down m (d s : Z) (n : nat) : memory :=
  match n with
  | O => m
  | S n' => move_down (stb m (d - 1) (ldb m (s - 1))) (d - 1) (s - 1) n'
  end.
(** [while(n-- > 0) *d++ = *s++;] *)
Fixpoint move_up m (d s : Z) (n : nat) : memory :=
  match n with
  | O => m
  | S n' => move_up (stb m d (ldb m s)) (d + 1) (s + 1) n'
  end.
Definition memmove m (dst src n : Z) : memory :=
  if n =? 0 then m
  else if (src <? dst) && (dst <? src + n)
  then move_down m (dst + n) (src + n) (Z.to_nat n)
  else move_up m dst src (Z.to_nat n).
Definition memcpy m (dst src n : Z) : memory := memmove m dst src n.

(** ** strncmp *)

Fixpoint strncmp_loop m (p q : Z) (n : nat) : Z :=
  match n with
  | O => 0
  | S n' =>
      if negb (ldb m p =? 0) && (ldb m p =? ldb m q)
      then strncmp_loop m (p + 1) (q + 1) n'
      else ldb m p - ldb m q
  end.
Definition strncmp m (p q n : Z) : Z := strncmp_loop m p q (Z.to_nat n).

(** ** strncpy and safestrcpy *)

(** [while(n-- > 0) *s++ = 0;] *)
Fixpoint zero_fill m (s : Z) (n : nat) : memory :=
  match n with
  | O => m
  | S n' => zero_fill (stb m s 0) (s + 1) n'
  end.
Fixpoint strncpy_loop m (s t : Z) (n : nat) : memory :=
  match n with
  | O => m
  | S n' => let ch := ldb m t in
            let m' := stb m s ch in
            if ch =? 0 then zero_fill m' (s + 1) n' else strncpy_loop m' (s + 1) (t + 1) n'
  end.
Definition strncpy m (s t n : Z) : memory := strncpy_loop m s t (Z.to_nat n).

(** [while(--n > 0 && ( *s++ = *t++) != 0);] followed by [*s = 0;];
    [n] is the value after the first decrement. *)
Fixpoint safestrcpy_loop m (s t : Z) (n : nat) : memory :=
  match n with
  | O => stb m s 0
  | S n' => let ch := ldb m t in
            let m' := stb m s ch in
            if ch =? 0 then stb m' (s + 1) 0 else safestrcpy_loop m' (s + 1) (t + 1) n'
  end.
Definition safestrcpy m (s t n : Z) : memory :=
  if n <=? 0 then m else safestrcpy_loop m s t (Z.to_nat (n - 1)).

(** ** strlen *)

Fixpoint strlen_loop m (s n : Z) (fuel : nat) : outcome Z :=
  match fuel with
  | O => OutOfFuel
  | S fuel' => if ldb m (s + n) =? 0 then Ret n else strlen_loop m s (n + 1) fuel'
  end.
Definition strlen m (s : Z) (fuel : nat) : outcome Z := strlen_loop m s 0 fuel.

(** ** Lemmas *)

Lemma ldb_u8 m a : u8 (ldb m a) = ldb m a.
Proof. apply u8_id, ldb_range. Qed.

Lemma memset_loop_spec m cdst c i k x :
  memset_loop m cdst c i k x =
  if (cdst + i <=? x) && (x <? cdst + i + Z.of_nat k) then u8 c else m x.
Proof.
  revert m i. induction k as [|k IH]; intros m i; simpl.
  { case_bool; [lia|done]. }
  rewrite IH. unfold stb. repeat case_bool; try done; blia.
Qed.

Lemma memset_spec m dst c n x :
  0 <= n ->
  memset m dst c n x = if (dst <=? x) && (x <? dst + n) then u8 c else m x.
Proof.
  intros. unfold memset. rewrite memset_loop_spec.
  by rewrite Z.add_0_r, Z2Nat.id by done.
Qed.

Lemma memset_other m dst c n x :
  0 <= n -> x < dst \/ dst + n <= x -> memset m dst c n x = m x.
Proof. intros. rewrite memset_spec by done. case_bool; [lia|done]. Qed.

Lemma memset_inside m dst c n x :
  dst <= x < dst + n -> memset m dst c n x = u8 c.
Proof.
  intros. rewrite memset_spec by lia. case_bool; [done|].
  apply andb_false_iff in Heqb as [?|?]; blia.
Qed.

Lemma move_up_spec m d s n x :
  d <= s \/ s + Z.of_nat n <= d ->
  move_up m d s n x =
  if (d <=? x) && (x <? d + Z.of_nat n) then ldb m (s + (x - d)) else m x.
Proof.
  revert m d s. induction n as [|n IH]; intros m d s H; simpl.
  { case_bool; [lia|done]. }
  rewrite IH by lia. replace (s + 1 + (x - (d + 1))) with (s + (x - d)) by lia.
  unfold ldb at 1, stb.
  destruct (decide (x = d)) as [->|].
  { rewrite Z.sub_diag, Z.add_0_r. repeat case_bool; try blia; try done. apply ldb_u8. }
  repeat case_bool; try blia; done.
Qed.

Lemma move_down_spec m d s n x :
  s <= d ->
  move_down m d s n x =
  if (d - Z.of_nat n <=? x) && (x <? d) then ldb m (s + (x - d)) else m x.
Proof.
  revert m d s. induction n as [|n IH]; intros m d s H; simpl.
  { case_bool; [lia|done]. }
  rewrite IH by lia. replace (s - 1 + (x - (d - 1))) with (s + (x - d)) by lia.
  unfold ldb at 1, stb.
  destruct (decide (x = d - 1)) as [->|].
  { replace (s + (d - 1 - d)) with (s - 1) by lia.
    repeat case_bool; try blia; try done. apply ldb_u8. }
  repeat case_bool; try blia; done.
Qed.

Lemma memmove_eq m dst src n x :
  0 <= n ->
  memmove m dst src n x =
  if (dst <=? x) && (x <? dst + n) then ldb m (src + (x - dst)) else m x.
Proof.
  intros Hn. unfold memmove. case_bool; [subst; case_bool; [lia|done]|].
  case_bool.
  - rewrite move_down_spec by lia. rewrite Z2Nat.id by lia.
    replace (src + n + (x - (dst + n))) with (src + (x - dst)) by lia.
    by replace (dst + n - n) with dst by lia.
  - apply andb_false_iff in Heqb0.
    rewrite move_up_spec by (rewrite Z2Nat.id by lia; destruct Heqb0; blia).
    by rewrite Z2Nat.id by lia.
Qed.

Lemma memmove_other m dst src n x :
  0 <= n -> x < dst \/ dst + n <= x -> memmove m dst src n x = m x.
Proof. intros. rewrite memmove_eq by done. case_bool; [lia|done]. Qed.

Lemma memmove_inside m dst src n x :
  dst <= x < dst + n -> memmove m dst src n x = ldb m (src + (x - dst)).
Proof.
  intros. rewrite memmove_eq by lia. case_bool; [done|].
  apply andb_false_iff in Heqb as [?|?]; blia.
Qed.

Lemma memcmp_loop_zero m s1 s2 n :
  memcmp_loop m s1 s2 n = 0 <->
  forall i, 0 <= i < Z.of_nat n -> ldb m (s1 + i) = ldb m (s2 + i).
Proof.
  revert s1 s2. induction n as [|n IH]; intros s1 s2; simpl.
  { split; [lia|done]. }
  case_bool.
  - split; [lia|]. intros Hall. specialize (Hall 0 ltac:(lia)).
    rewrite !Z.add_0_r in Hall. lia.
  - rewrite IH. split; intros Hall i Hi.
    + destruct (decide (i = 0)) as [->|]; [by rewrite !Z.add_0_r|].
      specialize (Hall (i - 1) ltac:(lia)).
      by replace (s1 + 1 + (i - 1)) with (s1 + i) in Hall by lia;
         replace (s2 + 1 + (i - 1)) with (s2 + i) in Hall by lia.
    + specialize (Hall (i + 1) ltac:(lia)).
      by replace (s1 + (i + 1)) with (s1 + 1 + i) in Hall by lia;
         replace (s2 + (i + 1)) with (s2 + 1 + i) in Hall by lia.
Qed.

Lemma strlen_loop_spec m s n k fuel :
  0 <= k -> ldb m (s + n + k) = 0 ->
  (forall i, 0 <= i < k -> ldb m (s + n + i) <> 0) ->
  (Z.to_nat k < fuel)%nat -> strlen_loop m s n fuel = Ret (n + k).
Proof.
  revert n k. induction fuel as [|fuel IH]; intros n k Hk Hz Hnz Hf; [lia|]. simpl.
  destruct (decide (k = 0)) as [->|].
  { rewrite Z.add_0_r in Hz. by rewrite Hz, Z.add_0_r. }
  specialize (Hnz 0 ltac:(lia)) as H0. rewrite Z.add_0_r in H0.
  rewrite (proj2 (Z.eqb_neq _ _) H0).
  rewrite (IH (n + 1) (k - 1)); [f_equal; lia|lia| | |lia].
  - by replace (s + (n + 1) + (k - 1)) with (s + n + k) by lia.
  - intros i Hi. replace (s + (n + 1) + i) with (s + n + (i + 1)) by lia.
    apply Hnz. lia.
Qed.

(** What [safestrcpy] leaves in memory, by induction on the loop: [k] is the
    length of the copied string. *)
Lemma safestrcpy_loop_spec m s t n :
  s + Z.of_nat n + 1 <= t \/ t + Z.of_nat n + 1 <= s ->
  exists k, 0 <= k <= Z.of_nat n /\
    (forall i, 0 <= i < k -> ldb m (t + i) <> 0 /\
       safestrcpy_loop m s t n (s + i) = ldb m (t + i)) /\
    safestrcpy_loop m s t n (s + k) = 0 /\
    (k = Z.of_nat n \/ ldb m (t + k) = 0) /\
    (forall x, x < s \/ s + Z.of_nat n < x -> safestrcpy_loop m s t n x = m x).
Proof.
  revert m s t. induction n as [|n IH]; intros m s t Hdis; simpl.
  { exists 0. rewrite Z.add_0_r, stb_same. repeat split; try lia.
    intros x Hx. apply stb_other. lia. }
  destruct (Z.eqb_spec (ldb m t) 0) as [E|E].
  { exists 0. rewrite !Z.add_0_r. repeat split; try lia.
    - rewrite stb_other, stb_same by lia. by rewrite E.
    - intros x Hx. rewrite !stb_other by lia. done. }
  destruct (IH (stb m s (ldb m t)) (s + 1) (t + 1) ltac:(lia))
    as (k & Hk & Hcp & Hz & Hend & Hout).
  assert (Hld : forall i, 0 <= i <= Z.of_nat n ->
            ldb (stb m s (ldb m t)) (t + 1 + i) = ldb m (t + (i + 1))).
  { intros i Hi. unfold ldb at 1. rewrite stb_other by lia.
    unfold ldb. do 2 f_equal. lia. }
  exists (k + 1). split; [lia|]. split_and!.
  - intros i Hi. destruct (decide (i = 0)) as [->|].
    { rewrite !Z.add_0_r. split; [done|]. rewrite Hout by lia.
      by rewrite stb_same, ldb_u8. }
    destruct (Hcp (i - 1) ltac:(lia)) as [Hn Hv].
    rewrite Hld in Hn, Hv by lia.
    replace (i - 1 + 1) with i in * by lia.
    replace (s + 1 + (i - 1)) with (s + i) in Hv by lia. done.
  - by replace (s + (k + 1)) with (s + 1 + k) by lia.
  - destruct Hend as [->|Hend]; [left; lia|right].
    rewrite Hld in Hend by lia. done.
  - intros x Hx. rewrite Hout by lia. apply stb_other. lia.
Qed.

(** ** Properties *)

(** [memmove] copies the source bytes as they were before the call,
    for every placement of the two areas, overlapping ones included, and
    changes no other byte. *)
Theorem memmove_correct m dst src n :
  0 <= n ->
  (forall i, 0 <= i < n -> memmove m dst src n (dst + i) = ldb m (src + i)) /\
  (forall x, x < dst \/ dst + n <= x -> memmove m dst src n x = m x).
Proof.
  intros Hn. split; intros.
  - rewrite memmove_inside by lia. f_equal. lia.
  - by apply memmove_other.
Qed.

(** The overlapping copy of [0;1;2;3;4] by one byte upwards. *)
Lemma memmove_correct_witness :
  0 <= 4 /\ memmove (fun x => x) 1 0 4 (1 + 3) = 3 /\ memmove (fun x => x) 1 0 4 5 = 5.
Proof.
  destruct (memmove_correct (fun x => x) 1 0 4 ltac:(lia)) as [Hin Hout].
  split; [lia|]. split; [exact (Hin 3 ltac:(lia))|exact (Hout 5 ltac:(lia))].
Defined.

(** for a destination of [n > 0] bytes disjoint from the source,
    [safestrcpy] writes the first [k] (non-NUL) bytes of the source followed
    by a NUL, where the string stops because the source ends there or because
    the destination is full; every byte outside the destination is
    unchanged. *)
Theorem safestrcpy_correct m s t n :
  0 < n -> s + n <= t \/ t + n <= s ->
  exists k, 0 <= k < n /\
    (forall i, 0 <= i < k -> ldb m (t + i) <> 0 /\
       safestrcpy m s t n (s + i) = ldb m (t + i)) /\
    safestrcpy m s t n (s + k) = 0 /\
    (k = n - 1 \/ ldb m (t + k) = 0) /\
    (forall x, x < s \/ s + n <= x -> safestrcpy m s t n x = m x).
Proof.
  intros Hn Hdis. unfold safestrcpy. rewrite (proj2 (Z.leb_gt n 0)) by done.
  destruct (safestrcpy_loop_spec m s t (Z.to_nat (n - 1)) ltac:(lia))
    as (k & Hk & Hcp & Hz & Hend & Hout).
  exists k. split_and!; [lia|lia|done|done| |].
  - destruct Hend; [left; lia|by right].
  - intros x Hx. apply Hout. lia.
Qed.

Lemma safestrcpy_correct_witness :
  exists k, 0 <= k < 16 /\ safestrcpy (fun x => if x =? 105 then 0 else 65) 0 100 16 k = 0.
Proof.
  destruct (safestrcpy_correct (fun x => if x =? 105 then 0 else 65) 0 100 16
              ltac:(lia) ltac:(lia)) as (k & Hk & _ & Hz & _).
  exists k. split; [exact Hk|exact Hz].
Defined.
