(* ===== verification/Locks.v ===== *)
(** * kernel/spinlock.c and kernel/sleeplock.c

    Interrupt nesting ([push_off]/[pop_off]), spin locks and sleep locks.
    [acquire] and [release] are given twice: as one operation of the calling
    CPU, the way the other components use them, and as the steps at which
    other CPUs can interleave, for the mutual-exclusion theorem. *)

From S2P Require Import Prelude.

(** ** Per-CPU interrupt state: struct cpu (proc.h) and sstatus.SIE *)

Record cpu := Cpu {
  noff : Z;        (* depth of push_off() nesting *)
  intena : bool;   (* were interrupts enabled before push_off()? *)
  sie : bool;      (* sstatus.SIE: device interrupts enabled *)
}.

Definition intr_on (c : cpu) : cpu := Cpu (noff c) (intena c) true.
Definition intr_off (c : cpu) : cpu := Cpu (noff c) (intena c) false.
Definition intr_get (c : cpu) : bool := sie c.

Definition push_off (c : cpu) : cpu :=
  let old := intr_get c in
  let c := intr_off c in
  let c := if noff c =? 0 then Cpu (noff c) old (sie c) else c in
  Cpu (i32 (noff c + 1)) (intena c) (sie c).

Definition pop_off (c : cpu) : outcome cpu :=
  if intr_get c then Panic "pop_off - interruptible"
  else if noff c <? 1 then Panic "pop_off"
  else let c := Cpu (i32 (noff c - 1)) (intena c) (sie c) in
       Ret (if (noff c =? 0) && intena c then intr_on c else c).

(** ** Spin locks *)

Record spinlock := Spinlock {
  locked : bool;
  lcpu : option nat;   (* the cpu holding the lock *)
}.

Definition initlock : spinlock := Spinlock false None.

(** CPUs by number, spin locks by number. *)
Record machine := Machine {
  cpus : nat -> cpu;
  locks : nat -> spinlock;
}.

Definition set_cpu (i : nat) (c : cpu) (s : machine) : machine :=
  Machine (upd (cpus s) i c) (locks s).
Definition set_lock (l : nat) (k : spinlock) (s : machine) : machine :=
  Machine (cpus s) (upd (locks s) l k).

Definition holding (i : nat) (k : spinlock) : bool :=
  locked k && bool_decide (lcpu k = Some i).

Definition push_off_m (i : nat) : M machine unit :=
  modify (fun s => set_cpu i (push_off (cpus s i)) s).
Definition pop_off_m (i : nat) : M machine unit :=
  fun s => match pop_off (cpus s i) with
           | Ret c => Ret (tt, set_cpu i c s)
           | Panic msg => Panic msg
           | Blocked => Blocked
           | OutOfFuel => OutOfFuel
           end.

(** [acquire(lk)] on CPU [i]: spins ([Blocked]) while another CPU has it. *)
Definition acquire (i l : nat) : M machine unit :=
  push_off_m i ;;
  let! k := gets (fun s => locks s l) in
  if holding i k then panic "acquire"
  else if locked k then blocked
  else modify (set_lock l (Spinlock true None)) ;;
       modify (set_lock l (Spinlock true (Some i))).

Definition release (i l : nat) : M machine unit :=
  let! k := gets (fun s => locks s l) in
  if negb (holding i k) then panic "release"
  else modify (set_lock l (Spinlock (locked k) None)) ;;
       modify (set_lock l (Spinlock false None)) ;;
       pop_off_m i.

(** ** The interleaving of CPUs that use one lock

    Between two labels a CPU executes one of the statements of [acquire] or
    [release] that touch shared state. *)

Inductive pc :=
| Out      (* not using the lock *)
| Acq0     (* push_off() done *)
| Acq1     (* in the amoswap loop *)
| Acq2     (* amoswap returned 0, lk->cpu not yet set *)
| Crit     (* acquire() has returned *)
| Rel1     (* lk->cpu cleared, lk->locked still 1 *)
| Rel2     (* lk->locked cleared, pop_off() not yet called *)
| Dead.    (* panic *)

#[export] Instance pc_eq_dec : EqDecision pc.
Proof. solve_decision. Defined.

Record config := Config {
  ccpu : nat -> cpu;
  clock : spinlock;
  cpc : nat -> pc;
}.

Inductive step : config -> config -> Prop :=
| step_push i C :
    cpc C i = Out ->
    step C (Config (upd (ccpu C) i (push_off (ccpu C i))) (clock C) (upd (cpc C) i Acq0))
| step_check i C :
    cpc C i = Acq0 ->
    step C (Config (ccpu C) (clock C)
              (upd (cpc C) i (if holding i (clock C) then Dead else Acq1)))
| step_spin i C :
    cpc C i = Acq1 -> locked (clock C) = true -> step C C
| step_swap i C :
    cpc C i = Acq1 -> locked (clock C) = false ->
    step C (Config (ccpu C) (Spinlock true (lcpu (clock C))) (upd (cpc C) i Acq2))
| step_own i C :
    cpc C i = Acq2 ->
    step C (Config (ccpu C) (Spinlock (locked (clock C)) (Some i)) (upd (cpc C) i Crit))
| step_release i C :
    cpc C i = Crit ->
    step C (if holding i (clock C)
            then Config (ccpu C) (Spinlock (locked (clock C)) None) (upd (cpc C) i Rel1)
            else Config (ccpu C) (clock C) (upd (cpc C) i Dead))
| step_unswap i C :
    cpc C i = Rel1 ->
    step C (Config (ccpu C) (Spinlock false (lcpu (clock C))) (upd (cpc C) i Rel2))
| step_pop i C :
    cpc C i = Rel2 ->
    step C (match pop_off (ccpu C i) with
            | Ret c => Config (upd (ccpu C) i c) (clock C) (upd (cpc C) i Out)
            | _ => Config (ccpu C) (clock C) (upd (cpc C) i Dead)
            end).

Inductive reachable (C0 : config) : config -> Prop :=
| reach_refl : reachable C0 C0
| reach_step C C' : reachable C0 C -> step C C' -> reachable C0 C'.

(** ** Sleep locks

    [acquiresleep] waits ([Blocked]) while the lock is taken; the spin lock
    inside makes each operation atomic. *)

Record sleeplock := Sleeplock { slocked : bool; spid : Z }.

Definition initsleeplock : sleeplock := Sleeplock false 0.
Definition acquiresleep (pid : Z) (k : sleeplock) : outcome sleeplock :=
  if slocked k then Blocked else Ret (Sleeplock true pid).
Definition releasesleep (k : sleeplock) : sleeplock := Sleeplock false 0.
Definition holdingsleep (pid : Z) (k : sleeplock) : bool :=
  slocked k && (spid k =? pid).

(** ** Lemmas *)

Lemma holding_true i k : holding i k = true <-> locked k = true /\ lcpu k = Some i.
Proof. unfold holding. by rewrite andb_true_iff, bool_decide_eq_true. Qed.

#[global] Arguments push_off : simpl never.
#[global] Arguments pop_off : simpl never.

(** A CPU outside any push_off() section, and one at depth [d > 0]. *)
Definition cpu_wf (c : cpu) : Prop :=
  0 <= noff c < 2 ^ 31 - 1 /\ (0 < noff c -> sie c = false).

Lemma push_off_eq c :
  0 <= noff c < 2 ^ 31 - 1 ->
  push_off c = Cpu (noff c + 1) (if noff c =? 0 then sie c else intena c) false.
Proof.
  intros. unfold push_off, intr_off, intr_get. simpl.
  destruct (Z.eqb_spec (noff c) 0) as [E|E]; simpl; rewrite i32_id by lia; done.
Qed.

Lemma pop_push c :
  cpu_wf c -> pop_off (push_off c) =
    Ret (Cpu (noff c) (if noff c =? 0 then sie c else intena c) (sie c)).
Proof.
  intros [Hr Hs]. rewrite push_off_eq by done. unfold pop_off, intr_get, intr_on. simpl.
  case_bool; [lia|]. replace (noff c + 1 - 1) with (noff c) by lia.
  rewrite i32_id by lia. destruct (Z.eqb_spec (noff c) 0) as [E|E]; simpl.
  - by destruct (sie c).
  - by rewrite Hs by lia.
Qed.

(** [n] nested sections opened, [n] closed. *)
Fixpoint pushes (n : nat) (c : cpu) : cpu :=
  match n with O => c | S n' => push_off (pushes n' c) end.
Fixpoint pops (n : nat) (o : outcome cpu) : outcome cpu :=
  match n with
  | O => o
  | S n' => pops n' (match o with Ret c => pop_off c | _ => o end)
  end.

Lemma pushes_wf c n :
  cpu_wf c -> noff c + Z.of_nat n < 2 ^ 31 - 1 ->
  cpu_wf (pushes n c) /\ noff (pushes n c) = noff c + Z.of_nat n.
Proof.
  intros Hwf. induction n as [|n IH]; intros Hn; cbn [pushes].
  { split; [done|lia]. }
  destruct IH as [[Hr Hs] Heq]; [lia|].
  rewrite push_off_eq by lia. split; [split|]; simpl; try done; lia.
Qed.

Lemma pops_pushes c n :
  cpu_wf c -> noff c + Z.of_nat (S n) < 2 ^ 31 - 1 ->
  pops (S n) (Ret (pushes (S n) c)) =
  Ret (Cpu (noff c) (if noff c =? 0 then sie c else intena c) (sie c)).
Proof.
  intros Hwf. induction n as [|n IH]; intros Hn; [by apply pop_push|].
  destruct (pushes_wf c (S n) Hwf ltac:(lia)) as [Hwf' Hn'].
  rewrite <- IH by lia. change (pushes (S (S n)) c) with (push_off (pushes (S n) c)).
  cbn [pops]. rewrite pop_push by done. destruct Hwf as [Hr _]. case_bool; [lia|].
  by destruct (pushes (S n) c).
Qed.

(** The program counters inside the critical region. *)
Definition owns (p : pc) : Prop := p = Acq2 \/ p = Crit \/ p = Rel1.

Record lock_inv (C : config) : Prop := {
  inv_excl : forall i j, owns (cpc C i) -> owns (cpc C j) -> i = j;
  inv_locked : locked (clock C) = true <-> exists i, owns (cpc C i);
  inv_lcpu : forall i, lcpu (clock C) = Some i <-> cpc C i = Crit;
  inv_alive : forall i, cpc C i <> Dead;
  inv_out : forall i, cpc C i = Out -> noff (ccpu C i) = 0;
  inv_in : forall i, cpc C i <> Out -> noff (ccpu C i) = 1 /\ sie (ccpu C i) = false;
}.

Lemma owns_dec p : {owns p} + {~ owns p}.
Proof. unfold owns. destruct p; (left; tauto) || (right; intros [?|[?|?]]; done). Defined.

(** A step of [i] that stays outside the critical region. *)
Lemma lock_inv_outside C i p c :
  lock_inv C -> ~ owns (cpc C i) -> ~ owns p -> p <> Dead ->
  (p = Out -> noff c = 0) -> (p <> Out -> noff c = 1 /\ sie c = false) ->
  lock_inv (Config (upd (ccpu C) i c) (clock C) (upd (cpc C) i p)).
Proof.
  intros [Hex Hlk Hlc Hal Ho Hi] Hni Hnp Hd HO HI. constructor; simpl.
  - intros j k. upd_cases j i; [done|]. upd_cases k i; [done|]. apply Hex.
  - rewrite Hlk. split; intros [j Hj]; exists j.
    + upd_cases j i; done.
    + upd_cases j i; done.
  - intros j. rewrite Hlc. upd_cases j i; [|done].
    unfold owns in Hni, Hnp. intuition congruence.
  - intros j. upd_cases j i; auto.
  - intros j. upd_cases j i; auto.
  - intros j. upd_cases j i; auto.
Qed.

(** A step of [i] inside or into the critical region, interrupts off. *)
Lemma lock_inv_inside C i p lk :
  lock_inv C -> cpc C i <> Out -> owns p \/ p = Rel2 ->
  (forall j, j <> i -> ~ owns (cpc C j)) ->
  (locked lk = true <-> owns p) ->
  lcpu lk = (if decide (p = Crit) then Some i else None) ->
  lock_inv (Config (ccpu C) lk (upd (cpc C) i p)).
Proof.
  intros [Hex Hlk Hlc Hal Ho Hi] Hio Hp Hne Hl Hc. constructor; simpl.
  - intros j k. upd_cases j i; upd_cases k i; try done; intros; exfalso; eapply Hne; eauto.
  - rewrite Hl. split.
    + intros ?. exists i. by rewrite upd_same.
    + intros [j Hj]. upd_cases j i; [done|]. exfalso. by eapply Hne.
  - intros j. rewrite Hc. upd_cases j i.
    + destruct (decide (p = Crit)); intuition congruence.
    + split.
      * intros HS. destruct (decide (p = Crit)); congruence.
      * intros HC. exfalso. apply (Hne j E). unfold owns. tauto.
  - intros j. upd_cases j i; [|auto]. unfold owns in Hp. intuition congruence.
  - intros j. upd_cases j i; [|auto]. unfold owns in Hp. intuition congruence.
  - intros j. upd_cases j i; auto.
Qed.

Lemma lock_inv_owner_unique C i :
  lock_inv C -> owns (cpc C i) -> forall j, j <> i -> ~ owns (cpc C j).
Proof. intros HI Ho j Hj Hoj. apply Hj. by eapply (inv_excl C HI). Qed.

Lemma config_eta C : C = Config (ccpu C) (clock C) (cpc C).
Proof. by destruct C. Qed.

Lemma lock_inv_crit C i :
  lock_inv C -> cpc C i = Crit -> holding i (clock C) = true.
Proof.
  intros HI Hp. apply holding_true. split.
  - apply (inv_locked C HI). exists i. rewrite Hp. unfold owns. tauto.
  - by apply (inv_lcpu C HI).
Qed.

Lemma lock_inv_pop C i :
  lock_inv C -> cpc C i = Rel2 ->
  exists c, pop_off (ccpu C i) = Ret c /\ noff c = 0.
Proof.
  intros HI Hp. destruct (inv_in C HI i) as [Hn Hs]; [congruence|].
  unfold pop_off, intr_get. rewrite Hs, Hn. simpl.
  destruct (intena (ccpu C i)); eexists; split; reflexivity.
Qed.

Ltac owns_crush := unfold owns in *; intuition congruence.

Lemma lock_inv_unowned C i :
  lock_inv C -> cpc C i = Acq1 -> locked (clock C) = false ->
  forall j, ~ owns (cpc C j).
Proof.
  intros HI _ Hl j Hj.
  assert (locked (clock C) = true) by (apply (inv_locked C HI); eauto). congruence.
Qed.

Lemma lock_inv_step C C' : lock_inv C -> step C C' -> lock_inv C'.
Proof.
  intros HI Hstep. destruct Hstep as
    [i C Hp|i C Hp|i C Hp Hl|i C Hp Hl|i C Hp|i C Hp|i C Hp|i C Hp].
  - apply lock_inv_outside; try done; [rewrite Hp| |]; try owns_crush.
    intros _. pose proof (inv_out C HI i Hp) as Hn.
    rewrite push_off_eq by lia. simpl. lia.
  - destruct (holding i (clock C)) eqn:Hh.
    { apply holding_true in Hh as [_ Hh]. apply (inv_lcpu C HI) in Hh. congruence. }
    destruct (inv_in C HI i) as [Hn Hs]; [congruence|].
    rewrite (functional_extensionality (ccpu C) (upd (ccpu C) i (ccpu C i)))
      by (intros; by rewrite upd_id).
    apply lock_inv_outside; try done; [rewrite Hp|]; owns_crush.
  - done.
  - apply lock_inv_inside; try done; [congruence|owns_crush| |owns_crush|].
    + intros j _. by eapply lock_inv_unowned.
    + simpl. destruct (lcpu (clock C)) as [j|] eqn:E; [|done].
      apply (inv_lcpu C HI) in E. exfalso.
      apply (lock_inv_unowned C i HI Hp Hl j). owns_crush.
  - assert (Ho : owns (cpc C i)) by (rewrite Hp; owns_crush).
    apply lock_inv_inside; try done; [congruence|owns_crush| |].
    + by apply lock_inv_owner_unique.
    + simpl. split; [owns_crush|]. intros _. apply (inv_locked C HI). eauto.
  - rewrite (lock_inv_crit C i HI Hp).
    assert (Ho : owns (cpc C i)) by (rewrite Hp; owns_crush).
    apply lock_inv_inside; try done; [congruence|owns_crush| |].
    + by apply lock_inv_owner_unique.
    + simpl. split; [owns_crush|]. intros _. apply (inv_locked C HI). eauto.
  - assert (Ho : owns (cpc C i)) by (rewrite Hp; owns_crush).
    apply lock_inv_inside; try done; [congruence|by right| | |].
    + by apply lock_inv_owner_unique.
    + simpl. owns_crush.
    + simpl. destruct (lcpu (clock C)) as [j|] eqn:E; [|done].
      apply (inv_lcpu C HI) in E. exfalso.
      assert (j = i) as -> by (eapply (inv_excl C HI); [owns_crush|done]). congruence.
  - destruct (lock_inv_pop C i HI Hp) as (c & -> & Hn).
    apply lock_inv_outside; try done; [rewrite Hp|]; owns_crush.
Qed.

Lemma lock_inv_reachable C0 C : lock_inv C0 -> reachable C0 C -> lock_inv C.
Proof. intros H0. induction 1; eauto using lock_inv_step. Qed.

(** The initial configuration: [initlock] done, nobody uses the lock. *)
Definition lock_init (cs : nat -> cpu) : config := Config cs initlock (fun _ => Out).

Lemma lock_inv_init cs : (forall i, noff (cs i) = 0) -> lock_inv (lock_init cs).
Proof.
  intros H. constructor; simpl; try done.
  - intros i j [?|[?|?]]; done.
  - split; [done|]. intros [i [?|[?|?]]]; done.
Qed.

(** ** Properties *)

(** C26: for any number of CPUs and any interleaving of their [acquire]
    and [release] statements, at most one CPU is between the successful
    amoswap of [acquire] and the amoswap of [release]; the holder has
    interrupts off, and neither function panics. *)
Theorem spinlock_mutual_exclusion cs C :
  (forall i, noff (cs i) = 0) -> reachable (lock_init cs) C ->
  (forall i j, owns (cpc C i) -> owns (cpc C j) -> i = j) /\
  (forall i, owns (cpc C i) -> locked (clock C) = true /\ sie (ccpu C i) = false) /\
  (forall i, cpc C i <> Dead).
Proof.
  intros H0 Hr. pose proof (lock_inv_reachable _ _ (lock_inv_init cs H0) Hr) as HI.
  split_and!; [apply (inv_excl C HI)| |apply (inv_alive C HI)].
  intros i Ho. split; [apply (inv_locked C HI); eauto|].
  apply (inv_in C HI). owns_crush.
Qed.

(** Two CPUs: CPU 0 enters, CPU 1 is left spinning. *)
Lemma spinlock_mutual_exclusion_witness :
  exists C, cpc C 0%nat = Crit /\ cpc C 1%nat = Acq1 /\ locked (clock C) = true /\
    (forall i, cpc C i <> Dead).
Proof.
  set (cs := fun _ : nat => Cpu 0 false true).
  pose proof (reach_refl (lock_init cs)) as R.
  eapply reach_step in R; [|apply (step_push 0%nat); reflexivity].
  eapply reach_step in R; [|apply (step_push 1%nat); reflexivity].
  eapply reach_step in R; [|apply (step_check 0%nat); reflexivity].
  eapply reach_step in R; [|apply (step_check 1%nat); reflexivity].
  eapply reach_step in R; [|apply (step_swap 0%nat); reflexivity].
  eapply reach_step in R; [|apply (step_own 0%nat); reflexivity].
  destruct (spinlock_mutual_exclusion cs _ ltac:(reflexivity) R) as (_ & _ & Hal).
  eexists. split; [|split; [|split; [|exact Hal]]]; reflexivity.
Defined.

(** [n] calls of [push_off] followed by [n] calls of [pop_off]
    never panic and leave the nesting depth and the interrupt-enable bit as
    they were, whether or not interrupts were on at the start. *)
Theorem push_pop_balanced c n :
  cpu_wf c -> noff c + Z.of_nat n < 2 ^ 31 - 1 ->
  exists c', pops n (Ret (pushes n c)) = Ret c' /\ noff c' = noff c /\ sie c' = sie c.
Proof.
  intros Hwf Hn. destruct n as [|n]; [by exists c|].
  rewrite pops_pushes by (done || lia). by eexists.
Qed.

Lemma push_pop_balanced_witness :
  cpu_wf (Cpu 0 false true) /\
  exists c', pops 3 (Ret (pushes 3 (Cpu 0 false true))) = Ret c' /\ sie c' = true.
Proof.
  assert (Hwf : cpu_wf (Cpu 0 false true)) by (split; simpl; lia).
  split; [exact Hwf|].
  destruct (push_pop_balanced (Cpu 0 false true) 3 Hwf ltac:(simpl; lia))
    as (c' & Hp & _ & Hs).
  exists c'. split; [exact Hp|exact Hs].
Defined.
