(* ===== verification/Kalloc.v ===== *)
(** * kernel/kalloc.c: the buddy allocator

    The free lists are the source's: an array of list heads in [kmem] and, in
    the first eight bytes of every free block, the address of the next block
    ([struct run]).  [refcount] and [order_map] are the two byte arrays of
    [kmem].  The symbol [end] of the linker script (kernel.ld), the first
    address after the kernel image, is the parameter [end_]. *)

From S2P Require Import Prelude Riscv KString.

(** ** State *)

Definition MAX_ORDER : nat := 10.

Record kstate := KState {
  mem : memory;             (* physical memory *)
  freelist : nat -> Z;      (* kmem.freelist: the head of each list, 0 if empty *)
  refcount : Z -> Z;        (* kmem.refcount *)
  order_map : Z -> Z;       (* kmem.order_map *)
}.

Definition set_mem (m : memory) (s : kstate) : kstate :=
  KState m (freelist s) (refcount s) (order_map s).
Definition set_head (k : nat) (a : Z) (s : kstate) : kstate :=
  KState (mem s) (upd (freelist s) k a) (refcount s) (order_map s).
Definition set_ref (i v : Z) (s : kstate) : kstate :=
  KState (mem s) (freelist s) (upd (refcount s) i (u8 v)) (order_map s).
Definition set_order (i v : Z) (s : kstate) : kstate :=
  KState (mem s) (freelist s) (refcount s) (upd (order_map s) i (u8 v)).

(** ** Helpers *)

Definition pa2index (pa : Z) : Z := i32 (u64 (pa - KERNBASE) / PGSIZE).
Definition index2pa (index : Z) : Z := u64 (KERNBASE + i32 (index * PGSIZE)).

Fixpoint get_order_loop (size order block_size : Z) (fuel : nat) : Z :=
  match fuel with
  | O => order
  | S fuel' =>
      if (block_size <? size) && (order <? Z.of_nat MAX_ORDER)
      then get_order_loop size (order + 1) (Z.shiftl block_size 1) fuel'
      else order
  end.
Definition get_order (size : Z) : Z := get_order_loop size 0 PGSIZE (S MAX_ORDER).

Definition get_buddy (pa : Z) (order : nat) : Z :=
  Z.lxor pa (Z.shiftl PGSIZE (Z.of_nat order)).
Definition is_aligned (pa : Z) (order : nat) : bool :=
  Z.land pa (Z.shiftl PGSIZE (Z.of_nat order) - 1) =? 0.

(** [r->next = kmem.freelist[k]; kmem.freelist[k] = r;] *)
Definition push_run (k : nat) (r : Z) : M kstate unit :=
  modify (fun s => set_mem (st64 (mem s) r (freelist s k)) s) ;;
  modify (set_head k r).

Section kalloc.
Context (end_ : Z).

Definition bad_pa (pa : Z) : bool :=
  negb (pa mod PGSIZE =? 0) || (pa <? end_) || (PHYSTOP <=? pa).

(** ** Reference counts *)

Definition incref (pa : Z) : M kstate unit :=
  if bad_pa pa then panic "incref: invalid pa"
  else
    let index := pa2index pa in
    let! c := gets (fun s => refcount s index) in
    when! c <? 255 do modify (set_ref index (c + 1)).

Definition decref (pa : Z) : M kstate bool :=
  if bad_pa pa then panic "decref: invalid pa"
  else
    let index := pa2index pa in
    let! c := gets (fun s => refcount s index) in
    if c =? 0 then panic "decref: refcount underflow"
    else modify (set_ref index (c - 1)) ;;
         gets (fun s => refcount s index =? 0).

Definition getref (pa : Z) : M kstate Z :=
  if bad_pa pa then panic "getref: invalid pa"
  else gets (fun s => refcount s (pa2index pa)).

(** ** Initialisation *)

(** The largest order (up to MAX_ORDER) that fits the region. *)
Fixpoint max_order_loop (total_pages : Z) (max_order : nat) (max_block_size : Z)
    (fuel : nat) : nat * Z :=
  match fuel with
  | O => (max_order, max_block_size)
  | S fuel' =>
      if (Nat.ltb max_order MAX_ORDER) && (u64 (max_block_size * 2) <=? u64 (total_pages * PGSIZE))
      then max_order_loop total_pages (S max_order) (u64 (Z.shiftl max_block_size 1)) fuel'
      else (max_order, max_block_size)
  end.

(** [while(current + size <= pa_end)]: push a block of [size] bytes on list
    [k]; returns the first address not covered. *)
Fixpoint add_blocks (k : nat) (size pa_end current : Z) (fuel : nat) : M kstate Z :=
  match fuel with
  | O => out_of_fuel
  | S fuel' =>
      if u64 (current + size) <=? pa_end
      then push_run k current ;; add_blocks k size pa_end (u64 (current + size)) fuel'
      else ret current
  end.

(** At most one iteration per page of memory and one to leave the loop. *)
Definition NPAGES : Z := (PHYSTOP - KERNBASE) / PGSIZE.
Definition loop_fuel : nat := S (Z.to_nat NPAGES).

Definition freerange (pa_start pa_end : Z) : M kstate unit :=
  let p := PGROUNDUP pa_start in
  let total_pages := u64 (pa_end - p) / PGSIZE in
  let '(max_order, max_block_size) := max_order_loop total_pages 0 PGSIZE (S MAX_ORDER) in
  let! current := add_blocks max_order max_block_size pa_end p loop_fuel in
  let! _ := add_blocks 0 PGSIZE pa_end current loop_fuel in
  ret tt.

Definition kinit : M kstate unit :=
  for_each (seq 0 (S MAX_ORDER)) (fun i => modify (set_head i 0)) ;;
  for_each (seqZ 0 NPAGES)
    (fun i => modify (set_ref i 0) ;; modify (set_order i 0)) ;;
  freerange end_ PHYSTOP.

(** ** Allocation *)

(** [while(current_order > order)]: split, keeping the lower half. *)
Fixpoint split_loop (r : Z) (order current_order : nat) : M kstate unit :=
  match current_order with
  | O => ret tt
  | S c => if Nat.leb order c
           then push_run c (get_buddy r c) ;; split_loop r order c
           else ret tt
  end.

(** [while(current_order <= MAX_ORDER)]; [fuel] is the number of orders left. *)
Fixpoint alloc_loop (order current_order : nat) (fuel : nat) : M kstate Z :=
  match fuel with
  | O => ret 0
  | S fuel' =>
      let! r := gets (fun s => freelist s current_order) in
      if negb (r =? 0) then
        modify (fun s => set_head current_order (ld64 (mem s) r) s) ;;
        split_loop r order current_order ;;
        modify (set_order (pa2index r) (Z.of_nat order)) ;;
        ret r
      else alloc_loop order (S current_order) fuel'
  end.
Definition buddy_alloc (order : nat) : M kstate Z :=
  alloc_loop order order (S MAX_ORDER - order).

(** ** Freeing *)

(** [*prev = v], where [prev] points to the list head ([None]) or to the
    [next] field of a block. *)
Definition set_prev (k : nat) (prev : option Z) (v : Z) : M kstate unit :=
  match prev with
  | None => modify (set_head k v)
  | Some a => modify (fun s => set_mem (st64 (mem s) a v) s)
  end.

(** The search for [buddy] in list [k]: removes it and returns true, or
    returns false. *)
Fixpoint unlink_loop (k : nat) (buddy : Z) (prev : option Z) (curr : Z) (fuel : nat)
    : M kstate bool :=
  match fuel with
  | O => out_of_fuel
  | S fuel' =>
      if curr =? 0 then ret false
      else if curr =? buddy then
        let! nxt := gets (fun s => ld64 (mem s) curr) in
        set_prev k prev nxt ;; ret true
      else
        let! nxt := gets (fun s => ld64 (mem s) curr) in
        unlink_loop k buddy (Some curr) nxt fuel'
  end.

(** [while(current_order < MAX_ORDER)]: merge with the buddy while it is
    free; returns the merged block.  [fuel] is the number of orders left. *)
Fixpoint merge_loop (current_pa : Z) (current_order : nat) (fuel : nat)
    : M kstate (Z * nat) :=
  match fuel with
  | O => ret (current_pa, current_order)
  | S fuel' =>
      let buddy := get_buddy current_pa current_order in
      let! head := gets (fun s => freelist s current_order) in
      let! buddy_free := unlink_loop current_order buddy None head loop_fuel in
      if buddy_free : bool then
        merge_loop (if buddy <? current_pa then buddy else current_pa)
          (S current_order) fuel'
      else ret (current_pa, current_order)
  end.

Definition buddy_free (pa : Z) (order : nat) : M kstate unit :=
  let! (current_pa, current_order) := merge_loop pa order (MAX_ORDER - order) in
  push_run current_order current_pa ;;
  let block_size := Z.shiftl PGSIZE (Z.of_nat current_order) in
  for_each (seqZ 0 (block_size / PGSIZE))
    (fun i => modify (set_order (pa2index current_pa + i) 0)).

(** ** The interface *)

Definition kfree (pa : Z) : M kstate unit :=
  if bad_pa pa then panic "kfree"
  else
    let! c := getref pa in
    if 0 <? c then ret tt
    else
      modify (fun s => set_mem (memset (mem s) pa 1 PGSIZE) s) ;;
      let! order := gets (fun s => order_map s (pa2index pa)) in
      buddy_free pa (Z.to_nat order).

Definition kalloc : M kstate Z :=
  let! pa := buddy_alloc 0 in
  (if negb (pa =? 0) then
     modify (fun s => set_mem (memset (mem s) pa 5 PGSIZE) s) ;;
     modify (set_ref (pa2index pa) 1)
   else ret tt) ;;
  ret pa.
End kalloc.

(** ** Blocks and the invariant *)

(** The size of a block of order [k]. *)
Definition bsize (k : nat) : Z := PGSIZE * 2 ^ Z.of_nat k.

(** The linked list at [h] holds the addresses [l]. *)
Fixpoint chain (m : memory) (h : Z) (l : list Z) : Prop :=
  match l with
  | [] => h = 0
  | a :: l' => h = a /\ a <> 0 /\ chain m (ld64 m a) l'
  end.

Definition in_block (a : Z) (k : nat) (x : Z) : Prop := a <= x < a + bsize k.
Definition block_free (L : nat -> list Z) (k : nat) (a : Z) : Prop :=
  (k <= MAX_ORDER)%nat /\ a ∈ L k.
(** The bytes that belong to free blocks. *)
Definition free_addr (L : nat -> list Z) (x : Z) : Prop :=
  exists k a, block_free L k a /\ in_block a k x.

Definition disjoint_blocks (a : Z) (k : nat) (a' : Z) (k' : nat) : Prop :=
  a + bsize k <= a' \/ a' + bsize k' <= a.

Definition block_ok (end_ a : Z) (k : nat) : Prop :=
  (k <= MAX_ORDER)%nat /\ (bsize k | a) /\ end_ <= a /\ a + bsize k <= PHYSTOP.

(** [L k] lists the blocks of free list [k].  Blocks are aligned to their size
    and lie in [[end_, PHYSTOP)]; no two overlap; a free page has reference
    count 0; every recorded order is 0, since [kalloc] is the only client. *)
Record kinv (end_ : Z) (s : kstate) (L : nat -> list Z) : Prop := {
  ki_chain : forall k, (k <= MAX_ORDER)%nat -> chain (mem s) (freelist s k) (L k);
  ki_ok : forall k a, block_free L k a -> block_ok end_ a k;
  ki_nodup : forall k, (k <= MAX_ORDER)%nat -> NoDup (L k);
  ki_disj : forall k a k' a', block_free L k a -> block_free L k' a' ->
      (a, k) <> (a', k') -> disjoint_blocks a k a' k';
  ki_order : forall i, 0 <= i < NPAGES -> order_map s i = 0;
  ki_ref0 : forall i, free_addr L (KERNBASE + i * PGSIZE) -> refcount s i = 0;
  ki_refr : forall i, 0 <= i < NPAGES -> 0 <= refcount s i < 256;
}.

(** The same without the alignment: blocks start at any page.  This is what
    [kinit] builds for every end of the kernel image. *)
Definition placed (end_ a : Z) (k : nat) : Prop :=
  (k <= MAX_ORDER)%nat /\ (PGSIZE | a) /\ end_ <= a /\ a + bsize k <= PHYSTOP.
Record klists (end_ : Z) (s : kstate) (L : nat -> list Z) : Prop := {
  kl_chain : forall k, (k <= MAX_ORDER)%nat -> chain (mem s) (freelist s k) (L k);
  kl_ok : forall k a, block_free L k a -> placed end_ a k;
  kl_nodup : forall k, (k <= MAX_ORDER)%nat -> NoDup (L k);
  kl_disj : forall k a k' a', block_free L k a -> block_free L k' a' ->
      (a, k) <> (a', k') -> disjoint_blocks a k a' k';
  kl_order : forall i, 0 <= i < NPAGES -> order_map s i = 0;
  kl_ref0 : forall i, free_addr L (KERNBASE + i * PGSIZE) -> refcount s i = 0;
  kl_refr : forall i, 0 <= i < NPAGES -> 0 <= refcount s i < 256;
}.

(** A block outside the free lists that may be added to them. *)
Record hole (end_ : Z) (s : kstate) (L : nat -> list Z) (a : Z) (k : nat) : Prop := {
  ho_ok : block_ok end_ a k;
  ho_apart : forall k' a', block_free L k' a' -> disjoint_blocks a k a' k';
  ho_ref0 : forall i, in_block a k (KERNBASE + i * PGSIZE) -> refcount s i = 0;
}.

(** ** Arithmetic of blocks *)

Lemma bsize_0 : bsize 0 = PGSIZE.
Proof. done. Qed.
Lemma bsize_S k : bsize (S k) = 2 * bsize k.
Proof. unfold bsize. rewrite Nat2Z.inj_succ, Z.pow_succ_r by lia. lia. Qed.
Lemma bsize_ge k : PGSIZE <= bsize k.
Proof. unfold bsize. pose proof (Z.pow_pos_nonneg 2 (Z.of_nat k)). nia. Qed.
Lemma bsize_pos k : 0 < bsize k.
Proof. pose proof (bsize_ge k). lia. Qed.
Lemma bsize_page k : (PGSIZE | bsize k).
Proof. exists (2 ^ Z.of_nat k). unfold bsize. lia. Qed.
Lemma bsize_shift k : Z.shiftl PGSIZE (Z.of_nat k) = bsize k.
Proof. by rewrite Z.shiftl_mul_pow2 by lia. Qed.
Lemma bsize_max k : (k <= MAX_ORDER)%nat -> bsize k <= bsize MAX_ORDER.
Proof.
  intros. unfold bsize. apply Z.mul_le_mono_nonneg_l; [lia|].
  apply Z.pow_le_mono_r; lia.
Qed.

#[export] Hint Resolve bsize_pos bsize_ge bsize_page : kernel.

Lemma lxor_1 q : Z.lxor q 1 = if Z.even q then q + 1 else q - 1.
Proof.
  assert (Heven : forall t, Z.lxor (2 * t) 1 = 2 * t + 1).
  { intros t. rewrite <- Z.add_nocarry_lxor; [done|].
    rewrite (land_low_high _ 1 1); lia. }
  destruct (Z.even q) eqn:E.
  - apply Z.even_spec in E as [t ->]. apply Heven.
  - rewrite <- Z.negb_odd in E. apply negb_false_iff in E.
    apply Z.odd_spec in E as [t ->]. rewrite <- Heven.
    rewrite Z.lxor_assoc, Z.lxor_nilpotent, Z.lxor_0_r, Heven. lia.
Qed.

(** The buddy of an aligned block: the two halves of an aligned block of the
    next order. *)
Lemma get_buddy_cases a k :
  (bsize k | a) ->
  ((bsize (S k) | a) /\ get_buddy a k = a + bsize k) \/
  ((bsize (S k) | a - bsize k) /\ get_buddy a k = a - bsize k).
Proof.
  intros [q ->]. unfold get_buddy. rewrite bsize_shift.
  assert (Hx : Z.lxor (q * bsize k) (bsize k) = Z.lxor q 1 * bsize k).
  { unfold bsize. change PGSIZE with (2 ^ 12). rewrite <- Z.pow_add_r by lia.
    rewrite <- (Z.mul_1_l (2 ^ (12 + Z.of_nat k))) at 2.
    rewrite <- !Z.shiftl_mul_pow2 by lia. by rewrite Z.shiftl_lxor. }
  rewrite Hx, lxor_1, bsize_S. destruct (Z.even q) eqn:E.
  - left. apply Z.even_spec in E as [t ->]. split; [exists t|]; lia.
  - right. rewrite <- Z.negb_odd in E. apply negb_false_iff in E.
    apply Z.odd_spec in E as [t ->]. split; [exists t|]; lia.
Qed.

Lemma get_buddy_lower a k : (bsize (S k) | a) -> get_buddy a k = a + bsize k.
Proof.
  intros Hd. destruct (get_buddy_cases a k) as [[_ H]|[Hd' H]]; [|done|].
  - destruct Hd as [q ->]. exists (2 * q). rewrite bsize_S. lia.
  - exfalso. pose proof (bsize_pos k). pose proof (Z.divide_sub_r _ _ _ Hd Hd') as [q Hq].
    rewrite bsize_S in Hq.
    assert ((1 - 2 * q) * bsize k = 0) as [?|?]%Z.mul_eq_0 by lia; lia.
Qed.

Lemma divide_half k a : (bsize (S k) | a) -> (bsize k | a).
Proof. intros [q ->]. exists (2 * q). rewrite bsize_S. lia. Qed.

Lemma pa2index_eq pa :
  KERNBASE <= pa < PHYSTOP -> pa2index pa = (pa - KERNBASE) / PGSIZE.
Proof.
  intros. unfold pa2index. rewrite u64_id by lia. apply i32_id. lia.
Qed.

(** ** Chains *)

Lemma chain_ext m m' h l :
  (forall a x, a ∈ l -> a <= x < a + 8 -> m' x = m x) -> chain m h l -> chain m' h l.
Proof.
  revert h. induction l as [|a l IH]; intros h Heq Hc; [done|].
  destruct Hc as (-> & Hnz & Hc). split; [done|]. split; [done|].
  rewrite (ld64_ext m' m) by (intros; apply (Heq a); [left|lia]).
  apply IH; [|done]. intros b x Hb. apply Heq. by right.
Qed.

Lemma chain_split m h l1 b l2 :
  chain m h (l1 ++ b :: l2) -> b <> 0 /\ chain m (ld64 m b) l2.
Proof.
  revert h. induction l1 as [|a l1 IH]; intros h Hc; simpl in Hc.
  - by destruct Hc as (_ & ? & ?).
  - destruct Hc as (_ & _ & Hc). eauto.
Qed.

(** Removing [b] after [c] by storing the successor of [b] in [c]. *)
Lemma chain_unlink m h l1 c b l2 :
  (forall a, a ∈ l1 ++ b :: l2 -> a + 8 <= c \/ c + 8 <= a) ->
  chain m h (l1 ++ c :: b :: l2) -> chain (st64 m c (ld64 m b)) h (l1 ++ c :: l2).
Proof.
  revert h. induction l1 as [|a l1 IH]; intros h Hsp Hc; simpl in *.
  - destruct Hc as (-> & Hc0 & Hb & Hb0 & Hc). split; [done|]. split; [done|].
    rewrite ld_st64_same, u64_id by apply ld64_range.
    eapply chain_ext; [|done]. intros a x Ha Hx. apply st64_other.
    destruct (Hsp a) as [?|?]; [by right|lia|lia].
  - destruct Hc as (-> & Ha0 & Hc). split; [done|]. split; [done|].
    rewrite ld_st64_other by (specialize (Hsp a ltac:(left)); lia).
    apply IH; [|done]. intros d Hd. apply Hsp. by right.
Qed.

Lemma unlink_absent k b prev curr s l fuel :
  chain (mem s) curr l -> b ∉ l -> (length l < fuel)%nat ->
  unlink_loop k b prev curr fuel s = Ret (false, s).
Proof.
  revert prev curr fuel. induction l as [|a l IH]; intros prev curr fuel Hc Hb Hf;
    (destruct fuel as [|fuel]; [simpl in Hf; lia|]); simpl in *.
  - by subst.
  - destruct Hc as (-> & Ha0 & Hc). apply not_elem_of_cons in Hb as [Hne Hb].
    case_bool; [done|]. case_bool; [congruence|].
    unfold bind, gets. apply IH; [done|done|lia].
Qed.

Lemma unlink_present k b prev curr s l1 l2 fuel :
  chain (mem s) curr (l1 ++ b :: l2) -> b ∉ l1 -> (length l1 < fuel)%nat ->
  unlink_loop k b prev curr fuel s =
  (set_prev k (match last l1 with Some c => Some c | None => prev end)
     (ld64 (mem s) b) ;; ret true) s.
Proof.
  revert prev curr fuel. induction l1 as [|a l1 IH]; intros prev curr fuel Hc Hb Hf;
    (destruct fuel as [|fuel]; [simpl in Hf; lia|]); cbn [unlink_loop].
  - destruct Hc as (-> & Ha0 & Hc). case_bool; [done|]. by rewrite Z.eqb_refl.
  - destruct Hc as (-> & Ha0 & Hc). apply not_elem_of_cons in Hb as [Hne Hb].
    simpl in Hf. case_bool; [done|]. case_bool; [congruence|].
    unfold bind at 1, gets. rewrite IH, last_cons by (done || lia).
    by destruct (last l1).
Qed.

(** ** The free lists as sets of blocks *)

Lemma block_free_push L k a k' a' :
  (k <= MAX_ORDER)%nat ->
  block_free (upd L k (a :: L k)) k' a' <-> (k' = k /\ a' = a) \/ block_free L k' a'.
Proof.
  intros Hk. unfold block_free. upd_cases k' k.
  - rewrite elem_of_cons. tauto.
  - tauto.
Qed.

Lemma block_free_remove L k l1 b l2 k' a' :
  (k <= MAX_ORDER)%nat -> L k = l1 ++ b :: l2 -> NoDup (L k) ->
  block_free (upd L k (l1 ++ l2)) k' a' <-> block_free L k' a' /\ (a', k') <> (b, k).
Proof.
  intros Hk HL Hnd. unfold block_free. upd_cases k' k.
  - rewrite HL in *. apply NoDup_app in Hnd as (_ & Hdis & [Hb _]%NoDup_cons).
    rewrite !elem_of_app, elem_of_cons. split.
    + intros [? Hin]. split; [tauto|]. intros [= ->].
      destruct Hin as [Hin|Hin]; [|done]. apply (Hdis b Hin). by left.
    + intros [[? [?|[->|?]]] Hne]; tauto.
  - split; [|tauto]. intros. split; [done|]. congruence.
Qed.

Lemma free_addr_push L k a x :
  (k <= MAX_ORDER)%nat ->
  free_addr (upd L k (a :: L k)) x <-> free_addr L x \/ in_block a k x.
Proof.
  intros Hk. unfold free_addr. setoid_rewrite block_free_push; [|done]. split.
  - intros (k' & a' & [[-> ->]|?] & ?); eauto.
  - intros [(k' & a' & ? & ?)|?]; eauto 10.
Qed.

Lemma free_addr_remove L k l1 b l2 x :
  (k <= MAX_ORDER)%nat -> L k = l1 ++ b :: l2 -> NoDup (L k) ->
  free_addr L x <-> free_addr (upd L k (l1 ++ l2)) x \/ in_block b k x.
Proof.
  intros Hk HL Hnd. unfold free_addr.
  setoid_rewrite (block_free_remove L k l1 b l2); [|done..]. split.
  - intros (k' & a' & Hf & Hin). destruct (decide ((a', k') = (b, k))) as [[= -> ->]|]; eauto 10.
  - intros [(k' & a' & [? _] & ?)|?]; [by eauto|].
    exists k, b. split; [|done]. split; [done|]. rewrite HL. set_solver.
Qed.

Section invariant.
Context (end_ : Z) (Hend : KERNBASE <= end_ <= PHYSTOP).

Lemma block_in_range a k x :
  block_ok end_ a k -> in_block a k x -> end_ <= x < PHYSTOP.
Proof. unfold block_ok, in_block. lia. Qed.

(** Only the contents of free blocks matter to the invariant. *)
Lemma kinv_ext s s' L :
  kinv end_ s L ->
  (forall x, free_addr L x -> mem s' x = mem s x) ->
  freelist s' = freelist s -> refcount s' = refcount s -> order_map s' = order_map s ->
  kinv end_ s' L.
Proof.
  intros [Hch Hok Hnd Hdj Hor Hr0 Hrr] Hm Hf Hr Ho.
  constructor; rewrite ?Hf, ?Hr, ?Ho; try done.
  intros k Hk. eapply chain_ext; [|by apply Hch]. intros a x Ha Hx. apply Hm.
  exists k, a. split; [done|]. unfold in_block. pose proof (bsize_ge k). lia.
Qed.

Lemma page_count l :
  NoDup l -> (forall a, a ∈ l -> (PGSIZE | a) /\ KERNBASE <= a < PHYSTOP) ->
  (length l < loop_fuel)%nat.
Proof.
  intros Hnd Hl. unfold loop_fuel.
  assert (Hsub : l ⊆+ ((fun i => KERNBASE + i * PGSIZE) <$> seqZ 0 NPAGES)).
  { apply NoDup_submseteq; [done|]. intros a Ha. apply Hl in Ha as [[q ->] Hr].
    apply list_elem_of_fmap. exists (q - KERNBASE / PGSIZE). split; [lia|].
    apply elem_of_seqZ. change NPAGES with 32768. lia. }
  apply submseteq_length in Hsub. rewrite length_fmap, length_seqZ in Hsub. lia.
Qed.

Lemma kinv_length s L k :
  kinv end_ s L -> (k <= MAX_ORDER)%nat -> (length (L k) < loop_fuel)%nat.
Proof.
  intros HI Hk. apply page_count; [by apply (ki_nodup _ _ _ HI)|].
  intros a Ha. destruct (ki_ok _ _ _ HI k a) as (_ & Hd & He & Hp); [done|].
  split.
  - etrans; [apply bsize_page|done].
  - pose proof (bsize_pos k). lia.
Qed.

Lemma kinv_spaced s L k a b :
  kinv end_ s L -> block_free L k a -> block_free L k b -> a <> b ->
  a + 8 <= b \/ b + 8 <= a.
Proof.
  intros HI Ha Hb Hne. pose proof (bsize_ge k).
  destruct (ki_disj _ _ _ HI k a k b); [done|done|congruence|lia|lia].
Qed.

Lemma kinv_klists s L :
  kinv end_ s L <-> klists end_ s L /\ forall k a, block_free L k a -> (bsize k | a).
Proof.
  split.
  - intros [Hch Hok Hnd Hdj Hor Hr0 Hrr]. split; [|intros k a Hf; by apply Hok].
    constructor; try done. intros k a Hf. destruct (Hok k a Hf) as (? & ? & ?). split_and!; try done; try lia.
    etrans; [apply bsize_page|done].
  - intros [[Hch Hok Hnd Hdj Hor Hr0 Hrr] Hal]. constructor; try done.
    intros k a Hf. destruct (Hok k a Hf) as (? & _ & ?). split; [done|]. split; [by apply Hal|done].
Qed.

(** Adding a block. *)
Lemma push_run_lists s L k a :
  klists end_ s L -> placed end_ a k -> (forall k' a', block_free L k' a' -> disjoint_blocks a k a' k') ->
  (forall i, in_block a k (KERNBASE + i * PGSIZE) -> refcount s i = 0) ->
  wp (push_run k a) (fun _ s' => klists end_ s' (upd L k (a :: L k)) /\
    (forall x, ~ in_block a k x -> mem s' x = mem s x) /\
    refcount s' = refcount s /\ order_map s' = order_map s) s.
Proof.
  intros HI [Hk Hok] Hap Hr0. pose proof HI as [Hch Hok' Hnd Hdj Hor Hr0' Hrr].
  unfold push_run. wp_steps. pose proof (bsize_ge k).
  assert (Hmem : forall x, ~ in_block a k x ->
            st64 (mem s) a (freelist s k) x = mem s x).
  { intros x Hx. apply st64_other. unfold in_block in Hx. lia. }
  split_and!; [|done..]. constructor; simpl; try done.
  - intros k' Hk'.
    assert (Hold : chain (st64 (mem s) a (freelist s k)) (freelist s k') (L k')).
    { eapply chain_ext; [|by apply Hch]. intros b x Hb Hx. apply Hmem.
      unfold in_block. destruct (Hap k' b) as [?|?]; [done| |]; pose proof (bsize_ge k'); lia. }
    upd_cases k' k; [|done]. simpl. split; [done|]. split; [lia|].
    rewrite ld_st64_same. destruct (L k) as [|h l] eqn:E; simpl in Hold.
    + by rewrite Hold.
    + destruct Hold as (-> & Hh0 & Hc). rewrite u64_id; [done|].
      destruct (Hok' k h) as (_ & _ & ? & ?); [split; [done|]; rewrite E; by left|]. lia.
  - intros k' b [[-> ->]|Hf]%block_free_push; [by split| |done]. auto.
  - intros k' Hk'. upd_cases k' k; [|auto]. apply NoDup_cons. split; [|auto].
    intros Hin. destruct (Hap k a) as [?|?]; [done|lia|lia].
  - intros k1 b1 k2 b2 [[-> ->]|Hf1]%block_free_push [[-> ->]|Hf2]%block_free_push Hne;
      try done.
    + by apply Hap.
    + destruct (Hap _ _ Hf1); [by right|by left].
    + by apply Hdj.
  - intros i [?|?]%free_addr_push; auto.
Qed.

Lemma push_run_inv s L k a :
  kinv end_ s L -> hole end_ s L a k ->
  wp (push_run k a) (fun _ s' => kinv end_ s' (upd L k (a :: L k)) /\
    (forall x, ~ in_block a k x -> mem s' x = mem s x) /\
    refcount s' = refcount s /\ order_map s' = order_map s) s.
Proof.
  intros [HI Hal]%kinv_klists [(Hk & Hd & Hr) Hap Hr0].
  eapply wp_mono; [apply push_run_lists; try done|].
  - split; [done|]. split; [etrans; [apply bsize_page|done]|done].
  - intros [] s' (HI' & H). split; [|done]. apply kinv_klists. split; [done|].
    intros k' b [[-> ->]|Hf]%block_free_push; [done| |done]. by apply Hal.
Qed.

(** Removing a block: [s'] differs from [s] in the links of list [k] only. *)
Lemma kinv_remove s s' L k l1 b l2 :
  kinv end_ s L -> (k <= MAX_ORDER)%nat -> L k = l1 ++ b :: l2 ->
  chain (mem s') (freelist s' k) (l1 ++ l2) ->
  (forall k', k' <> k -> freelist s' k' = freelist s k') ->
  (forall x, ~ (exists a, a ∈ L k /\ a <= x < a + 8) -> mem s' x = mem s x) ->
  refcount s' = refcount s -> order_map s' = order_map s ->
  kinv end_ s' (upd L k (l1 ++ l2)) /\ hole end_ s' (upd L k (l1 ++ l2)) b k.
Proof.
  intros HI Hk HL Hc Hf Hm Hr Ho. pose proof HI as [Hch Hok Hnd Hdj Hor Hr0 Hrr].
  assert (Hbf : block_free L k b) by (split; [done|]; rewrite HL; set_solver).
  assert (Hrm := fun k' a' => block_free_remove L k l1 b l2 k' a' Hk HL (Hnd k Hk)).
  split; constructor; rewrite ?Hr, ?Ho; try done.
  - intros k' Hk'. upd_cases k' k; [done|]. rewrite Hf by done.
    eapply chain_ext; [|by apply Hch]. intros a x Ha Hx. apply Hm.
    intros (a2 & Ha2 & Hx2). pose proof (bsize_ge k). pose proof (bsize_ge k').
    destruct (Hdj k' a k a2); [done|done|congruence|lia|lia].
  - intros k' a [? _]%Hrm. auto.
  - intros k' Hk'. upd_cases k' k; [|auto]. specialize (Hnd k Hk). rewrite HL in Hnd.
    eapply sublist_NoDup; [done|]. apply sublist_app; [done|]. by apply sublist_cons.
  - intros k1 a1 k2 a2 [? _]%Hrm [? _]%Hrm Hne. by apply Hdj.
  - intros i Hi. apply Hr0. apply (free_addr_remove L k l1 b l2); auto.
  - auto.
  - intros k' a' [? Hne]%Hrm. apply Hdj; auto.
  - intros i Hi. apply Hr0. by exists k, b.
Qed.

(** [s'] differs from [s] in the contents of free memory and the list heads. *)
Definition same_outside (L : nat -> list Z) (s s' : kstate) : Prop :=
  (forall x, ~ free_addr L x -> mem s' x = mem s x) /\
  refcount s' = refcount s /\ order_map s' = order_map s.

Lemma unlink_inv s L k b :
  kinv end_ s L -> (k <= MAX_ORDER)%nat ->
  wp (unlink_loop k b None (freelist s k) loop_fuel) (fun (r : bool) s' =>
    if r then exists L', kinv end_ s' L' /\ hole end_ s' L' b k /\
      (forall k' a', block_free L' k' a' -> block_free L k' a') /\ block_free L k b /\
      (forall x, free_addr L x <-> free_addr L' x \/ in_block b k x) /\
      same_outside L s s'
    else s' = s) s.
Proof.
  intros HI Hk. pose proof (kinv_length s L k HI Hk) as Hlen.
  pose proof (ki_chain _ _ _ HI k Hk) as Hc.
  destruct (decide (b ∈ L k)) as [Hin|Hnin].
  2: { unfold wp. by rewrite (unlink_absent k b None _ s (L k)). }
  apply list_elem_of_split_l in Hin as (l1 & l2 & HL & Hb1).
  assert (Hnd := ki_nodup _ _ _ HI k Hk).
  assert (Hbf : block_free L k b) by (split; [done|]; rewrite HL; set_solver).
  rewrite HL in Hc, Hlen. rewrite length_app in Hlen.
  unfold wp. rewrite (unlink_present k b None _ s l1 l2) by (done || lia).
  assert (Hgoal : forall s', chain (mem s') (freelist s' k) (l1 ++ l2) ->
    (forall k', k' <> k -> freelist s' k' = freelist s k') ->
    (forall x, ~ (exists a, a ∈ L k /\ a <= x < a + 8) -> mem s' x = mem s x) ->
    refcount s' = refcount s -> order_map s' = order_map s ->
    exists L', kinv end_ s' L' /\ hole end_ s' L' b k /\
      (forall k' a', block_free L' k' a' -> block_free L k' a') /\ block_free L k b /\
      (forall x, free_addr L x <-> free_addr L' x \/ in_block b k x) /\
      same_outside L s s').
  { intros s' Hc' Hf Hm Hr Ho. exists (upd L k (l1 ++ l2)).
    destruct (kinv_remove s s' L k l1 b l2) as [? ?]; try done.
    split_and!; try done.
    - intros k' a' [? _]%(block_free_remove L k l1 b l2); done.
    - intros x. by apply free_addr_remove.
    - split_and!; [|done..]. intros x Hx. apply Hm. intros (a & Ha & Hxa).
      apply Hx. exists k, a. split; [done|]. unfold in_block.
      pose proof (bsize_ge k). lia. }
  destruct (last l1) as [c|] eqn:El.
  - apply last_Some in El as [l1' ->]. rewrite <- !app_assoc in *. simpl in *.
    apply Hgoal; simpl; try done.
    + apply chain_unlink; [|done]. intros a Ha.
      assert (c <> a).
      { intros ->. rewrite HL in Hnd. apply NoDup_app in Hnd as (_ & Hd & [Hn _]%NoDup_cons).
        apply elem_of_app in Ha as [Ha|Ha]; [|done]. apply (Hd _ Ha). by left. }
      destruct (kinv_spaced s L k c a HI); try done.
      * split; [done|]. rewrite HL. set_solver.
      * split; [done|]. rewrite HL. set_solver.
      * by right.
      * by left.
    + intros x Hx. apply st64_other. destruct (decide (c <= x < c + 8)); [|lia].
      exfalso. apply Hx. exists c. rewrite HL. split; [set_solver|done].
  - apply last_None in El as ->. simpl in *.
    apply Hgoal; simpl; try done.
    + rewrite upd_same. by destruct Hc as (_ & _ & Hc).
    + intros k' Hk'. by rewrite upd_other.
Qed.

Lemma hole_weaken s s' L L' a k :
  hole end_ s L a k -> refcount s' = refcount s ->
  (forall k' a', block_free L' k' a' -> block_free L k' a') ->
  hole end_ s' L' a k.
Proof.
  intros [Hok Hap Hr] Hrc Hsub. constructor; [done|auto|]. by rewrite Hrc.
Qed.

(** Two free buddies make a free block of the next order. *)
Lemma hole_merge s L a b k :
  hole end_ s L a k -> hole end_ s L b k -> (k < MAX_ORDER)%nat -> b = get_buddy a k ->
  let c := if b <? a then b else a in
  hole end_ s L c (S k) /\
  (forall x, in_block c (S k) x <-> in_block a k x \/ in_block b k x).
Proof.
  intros [(Hk & Hda & Hea & Hpa) Hapa Hra] [(_ & Hdb & Heb & Hpb) Hapb Hrb] Hlt -> c.
  pose proof (bsize_pos k). unfold in_block in *. rewrite !bsize_S.
  assert (Hc : (bsize (S k) | c) /\
    ((c = a /\ get_buddy a k = a + bsize k) \/
     (c = get_buddy a k /\ a = c + bsize k))).
  { destruct (get_buddy_cases a k Hda) as [[Hd Hg]|[Hd Hg]]; subst c; rewrite Hg in *;
      case_bool; try lia; split; auto; lia. }
  destruct Hc as [Hd Hc].
  split; [constructor|].
  - unfold block_ok. rewrite bsize_S. split_and!; [lia|by rewrite <- bsize_S|lia|lia].
  - intros k' a' Hf. specialize (Hapa _ _ Hf). specialize (Hapb _ _ Hf).
    pose proof (bsize_pos k'). unfold disjoint_blocks in *. rewrite bsize_S. lia.
  - unfold in_block. rewrite bsize_S. intros i Hi.
    destruct (decide (a <= KERNBASE + i * PGSIZE < a + bsize k)); [auto|apply Hrb; lia].
  - intros x. lia.
Qed.

Lemma merge_loop_inv fuel : forall pa k s L,
  kinv end_ s L -> hole end_ s L pa k -> fuel = (MAX_ORDER - k)%nat ->
  wp (merge_loop pa k fuel) (fun r s' => exists L',
    kinv end_ s' L' /\ hole end_ s' L' r.1 r.2 /\ same_outside L s s' /\
    (forall x, free_addr L' x \/ in_block r.1 r.2 x <-> free_addr L x \/ in_block pa k x)) s.
Proof.
  induction fuel as [|fuel IH]; intros pa k s L HI Hh Hf; cbn [merge_loop].
  { apply wp_ret. exists L. by split_and!. }
  pose proof (ho_ok _ _ _ _ _ Hh) as (Hk & _).
  wp_steps. eapply wp_mono; [by apply unlink_inv|]. intros [] s'; cbv beta iota; simpl.
  - intros (L' & HI' & Hhb & Hsub & Hbf & Hfree & Hsame).
    destruct (hole_merge s' L' pa (get_buddy pa k) k) as [Hm Hin]; try done; [|lia|].
    { eapply hole_weaken; [done|apply Hsame|done]. }
    eapply wp_mono; [apply (IH _ _ s' L'); [done|done|lia]|].
    intros [pa' k'] s'' (L'' & ? & ? & Hs'' & Hfr''). exists L''. split_and!; try done.
    + destruct Hsame as (Hm1 & ? & ?), Hs'' as (Hm2 & ? & ?).
      split_and!; try congruence. intros x Hx. rewrite Hm2, Hm1; [done|done|].
      contradict Hx. apply Hfree. by left.
    + intros x. rewrite Hfr'', Hin, Hfree. tauto.
  - intros ->. apply wp_ret. exists L. by split_and!.
Qed.

(** Clearing entries of [order_map] that are 0 anyway. *)
Lemma clear_order_inv s L base n :
  kinv end_ s L ->
  wp (for_each (seqZ 0 n) (fun i => modify (set_order (base + i) 0)))
     (fun _ s' => kinv end_ s' L /\ mem s' = mem s /\ refcount s' = refcount s) s.
Proof.
  intros HI. apply (wp_for_each _ (fun _ _ s' => kinv end_ s' L /\ mem s' = mem s /\
    refcount s' = refcount s)); [done|].
  intros d i r s1 _ ([Hch Hok Hnd Hdj Hor Hr0 Hrr] & Hm & Hr).
  wp_steps. split_and!; [|done..]. constructor; try done.
  intros j Hj. simpl. upd_cases j (base + i); auto.
Qed.

(** [buddy_free] returns a block to the free memory. *)
Lemma buddy_free_inv s L pa k :
  kinv end_ s L -> hole end_ s L pa k ->
  wp (buddy_free pa k) (fun _ s' => exists L', kinv end_ s' L' /\
    (forall x, free_addr L' x <-> free_addr L x \/ in_block pa k x) /\
    (forall x, ~ free_addr L' x -> mem s' x = mem s x) /\
    refcount s' = refcount s) s.
Proof.
  intros HI Hh. unfold buddy_free. wp_step.
  eapply wp_mono; [by apply merge_loop_inv|].
  intros [pa' k'] s1 (L1 & HI1 & Hh1 & (Hm1 & Hr1 & Ho1) & Hfr1). simpl in *.
  pose proof (ho_ok _ _ _ _ _ Hh1) as (Hk' & _).
  wp_step. eapply wp_mono; [by apply push_run_inv|].
  intros _ s2 (HI2 & Hm2 & Hr2 & Ho2).
  eapply wp_mono; [by apply clear_order_inv|].
  intros _ s3 (HI3 & Hm3 & Hr3). eexists. split; [done|].
  assert (Hfr : forall x, free_addr (upd L1 k' (pa' :: L1 k')) x <->
                          free_addr L x \/ in_block pa k x).
  { intros x. by rewrite free_addr_push, Hfr1. }
  split_and!; [done| |congruence].
  intros x Hx. rewrite Hm3, Hm2.
  - apply Hm1. contradict Hx. apply Hfr. by left.
  - contradict Hx. apply free_addr_push; auto.
Qed.

(** Splitting: the upper halves go to the free lists. *)
Lemma split_loop_inv c : forall r order s L,
  kinv end_ s L -> hole end_ s L r c -> (order <= c)%nat ->
  wp (split_loop r order c) (fun _ s' => exists L',
    kinv end_ s' L' /\ hole end_ s' L' r order /\
    (forall x, free_addr L' x \/ in_block r order x <-> free_addr L x \/ in_block r c x) /\
    (forall x, ~ in_block r c x -> mem s' x = mem s x) /\
    refcount s' = refcount s /\ order_map s' = order_map s) s.
Proof.
  induction c as [|c IH]; intros r order s L HI Hh Hle; cbn [split_loop].
  { assert (order = 0%nat) as -> by lia. apply wp_ret. exists L. by split_and!. }
  destruct (Nat.leb_spec order c) as [Hoc|Hoc].
  2: { assert (order = S c) as -> by lia. apply wp_ret. exists L. by split_and!. }
  destruct Hh as [(Hk & Hd & He & Hp) Hap Hr0].
  rewrite get_buddy_lower by done. pose proof (bsize_pos c).
  apply divide_half in Hd as Hd'.
  unfold in_block, disjoint_blocks in *. rewrite bsize_S in *.
  assert (Hb : hole end_ s L (r + bsize c) c).
  { constructor.
    - unfold block_ok. split_and!; [lia| |lia|lia].
      by apply Z.divide_add_r.
    - intros k' a' Hf. specialize (Hap _ _ Hf). unfold disjoint_blocks. lia.
    - unfold in_block. intros i Hi. apply Hr0. lia. }
  wp_step. eapply wp_mono; [by apply push_run_inv|].
  intros ? s1 (HI1 & Hm1 & Hr1 & Ho1).
  eapply wp_mono; [apply IH; [done| |done]|].
  { constructor.
    - unfold block_ok. split_and!; [lia|done|lia|lia].
    - intros k' a' [[-> ->]|Hf]%block_free_push; [|specialize (Hap _ _ Hf)|lia];
        unfold disjoint_blocks; lia.
    - unfold in_block. intros i Hi. rewrite Hr1. apply Hr0. lia. }
  intros ? s2 (L2 & HI2 & Hh2 & Hfr2 & Hm2 & Hr2 & Ho2). exists L2.
  split_and!; try done; try congruence.
  - intros x. rewrite Hfr2, free_addr_push by lia. unfold in_block.
    assert (r <= x < r + 2 * bsize c <->
            r <= x < r + bsize c \/ r + bsize c <= x < r + bsize c + bsize c) by lia. tauto.
  - intros x Hx. rewrite Hm2, Hm1; [done| |]; unfold in_block; lia.
Qed.

Lemma kinv_set_order s L i :
  kinv end_ s L -> kinv end_ (set_order i 0 s) L.
Proof.
  intros [Hch Hok Hnd Hdj Hor Hr0 Hrr]. constructor; try done.
  intros j Hj. simpl. upd_cases j i; auto.
Qed.

(** The first block of a non-empty list, taken off it. *)
Lemma pop_run_inv s L k r :
  kinv end_ s L -> (k <= MAX_ORDER)%nat -> freelist s k = r -> r <> 0 ->
  let s' := set_head k (ld64 (mem s) r) s in
  exists L', kinv end_ s' L' /\ hole end_ s' L' r k /\ block_free L k r /\
    (forall x, free_addr L x <-> free_addr L' x \/ in_block r k x).
Proof.
  intros HI Hk Hh Hr s'. pose proof (ki_chain _ _ _ HI k Hk) as Hc.
  destruct (L k) as [|a l] eqn:HL; simpl in Hc; [congruence|].
  destruct Hc as (Ha & Ha0 & Hc). rewrite Hh in Ha. subst a.
  destruct (kinv_remove s s' L k [] r l) as [HI' Hh']; try done; simpl.
  - by rewrite upd_same.
  - intros k' Hk'. by rewrite upd_other.
  - exists (upd L k l). split_and!; try done.
    + split; [done|]. rewrite HL. by left.
    + intros x. apply (free_addr_remove L k [] r l); try done. by apply (ki_nodup _ _ _ HI).
Qed.

Lemma kinv_empty s L k :
  kinv end_ s L -> (k <= MAX_ORDER)%nat -> freelist s k = 0 -> L k = [].
Proof.
  intros HI Hk H0. pose proof (ki_chain _ _ _ HI k Hk) as Hc. rewrite H0 in Hc.
  destruct (L k) as [|a l]; [done|]. by destruct Hc as (<- & ? & _).
Qed.

Lemma alloc_loop_inv fuel : forall cur s L,
  kinv end_ s L -> (cur + fuel = S MAX_ORDER)%nat ->
  wp (alloc_loop 0 cur fuel) (fun r s' =>
    if r =? 0 then s' = s /\ (forall k, (cur <= k <= MAX_ORDER)%nat -> L k = [])
    else exists L', kinv end_ s' L' /\ hole end_ s' L' r 0 /\
      (forall x, free_addr L x <-> free_addr L' x \/ in_block r 0 x) /\
      (forall x, ~ free_addr L x -> mem s' x = mem s x) /\ refcount s' = refcount s) s.
Proof.
  induction fuel as [|fuel IH]; intros cur s L HI Hf; cbn [alloc_loop].
  { apply wp_ret. split; [done|]. intros. lia. }
  wp_step. wp_step. destruct (Z.eqb_spec (freelist s cur) 0) as [E|E]; simpl negb; cbv iota.
  - eapply wp_mono; [apply IH; [done|lia]|]. intros r s'. cbv beta. destruct (r =? 0).
    + intros [-> Hr]. split; [done|]. intros k Hk.
      destruct (decide (k = cur)) as [->|]; [|apply Hr; lia].
      apply (kinv_empty s L cur HI); [lia|done].
    + done.
  - destruct (pop_run_inv s L cur (freelist s cur)) as (L1 & HI1 & Hh1 & Hbf & Hfr1); try done.
    { lia. }
    wp_step. wp_step. wp_step.
    eapply wp_mono; [apply split_loop_inv; [done|done|lia]|].
    intros _ s2 (L2 & HI2 & Hh2 & Hfr2 & Hm2 & Hr2 & Ho2). wp_steps.
    rewrite (proj2 (Z.eqb_neq _ _) E). exists L2. split_and!.
    + by apply kinv_set_order.
    + by eapply hole_weaken.
    + intros x. rewrite Hfr2, Hfr1. done.
    + intros x Hx. simpl. apply Hm2. contradict Hx. by exists cur, (freelist s cur).
    + done.
Qed.

(** ** What the two entry points do *)

Lemma pa2index_range pa : bad_pa end_ pa = false -> 0 <= pa2index pa < NPAGES.
Proof.
  unfold bad_pa. intros Hb. bool_to_prop. rewrite pa2index_eq by lia.
  change NPAGES with 32768. lia.
Qed.

Lemma page_hole s L pa :
  kinv end_ s L -> bad_pa end_ pa = false -> ~ free_addr L pa ->
  refcount s (pa2index pa) = 0 -> hole end_ s L pa 0.
Proof.
  intros HI Hb Hnf Hr. unfold bad_pa in Hb. bool_to_prop.
  assert (Hd : (PGSIZE | pa)) by (by apply Z.mod_divide).
  constructor.
  - unfold block_ok. rewrite bsize_0. split_and!; [lia|done|done|].
    destruct Hd as [q ->]. lia.
  - intros k a Hf. destruct (ki_ok _ _ _ HI k a Hf) as (_ & Hda & He & Hp).
    unfold disjoint_blocks. rewrite bsize_0. pose proof (bsize_page k) as Hbk.
    assert (Hda' : (PGSIZE | a)) by (by etrans).
    destruct Hd as [q ->], Hda' as [q' ->], Hbk as [n Hn].
    destruct (decide (q' * PGSIZE <= q * PGSIZE < q' * PGSIZE + bsize k)) as [Hin|Hin].
    + exfalso. apply Hnf. by exists k, (q' * PGSIZE).
    + rewrite Hn in *. lia.
  - unfold in_block. rewrite bsize_0. intros i Hi. rewrite <- Hr. f_equal.
    rewrite pa2index_eq by lia. destruct Hd as [q ->]. lia.
Qed.

Lemma kinv_memset_page s L pa c :
  kinv end_ s L -> hole end_ s L pa 0 ->
  kinv end_ (set_mem (memset (mem s) pa c PGSIZE) s) L.
Proof.
  intros HI Hh. eapply kinv_ext; try done. simpl. intros x (k & a & Hf & Hx).
  apply memset_other; [done|]. destruct (ho_apart _ _ _ _ _ Hh k a Hf); unfold in_block in Hx;
    rewrite ?bsize_0 in *; lia.
Qed.

Lemma kfree_inv s L pa :
  kinv end_ s L -> bad_pa end_ pa = false -> ~ free_addr L pa ->
  refcount s (pa2index pa) = 0 ->
  wp (kfree end_ pa) (fun _ s' => exists L', kinv end_ s' L' /\
    (forall x, free_addr L' x <-> free_addr L x \/ pa <= x < pa + PGSIZE) /\
    (forall x, ~ free_addr L' x -> mem s' x = mem s x) /\
    refcount s' = refcount s) s.
Proof.
  intros HI Hb Hnf Hr. unfold kfree, getref. rewrite Hb. wp_step. wp_step.
  rewrite Hr. simpl. wp_steps. simpl.
  rewrite (ki_order _ _ _ HI) by (by apply pa2index_range).
  pose proof (page_hole s L pa HI Hb Hnf Hr) as Hh.
  eapply wp_mono; [apply (buddy_free_inv _ L)|].
  - by apply kinv_memset_page.
  - by eapply hole_weaken.
  - intros ? s' (L' & HI' & Hfr & Hm & Hrc). exists L'. split_and!; try done.
    intros x Hx. rewrite Hm by done. apply memset_other; [done|].
    destruct (decide (pa <= x < pa + PGSIZE)); [|lia]. exfalso. apply Hx, Hfr. by right.
Qed.

Lemma kalloc_inv s L :
  kinv end_ s L ->
  wp kalloc (fun pa s' =>
    (pa = 0 /\ s' = s /\ forall x, ~ free_addr L x) \/
    (bad_pa end_ pa = false /\ exists L', kinv end_ s' L' /\
      (forall x, free_addr L x <-> free_addr L' x \/ pa <= x < pa + PGSIZE) /\
      (forall x, pa <= x < pa + PGSIZE -> ~ free_addr L' x) /\
      (forall x, pa <= x < pa + PGSIZE -> mem s' x = 5) /\
      (forall x, ~ free_addr L x -> mem s' x = mem s x) /\
      refcount s' = upd (refcount s) (pa2index pa) 1)) s.
Proof.
  intros HI. unfold kalloc, buddy_alloc. wp_step.
  eapply wp_mono; [by apply (alloc_loop_inv _ 0 s L)|].
  intros pa s1. cbv beta. destruct (Z.eqb_spec pa 0) as [->|Hne].
  - intros [-> Hempty]. wp_steps; [done|]. left. split_and!; [done..|].
    intros x (k & a & [Hk Ha] & _). rewrite Hempty in Ha by lia. set_solver.
  - intros (L1 & HI1 & Hh1 & Hfr & Hm & Hr). wp_steps; [|done]. right.
    pose proof (ho_ok _ _ _ _ _ Hh1) as (_ & Hd & He & Hp). rewrite bsize_0 in *.
    assert (Hb : bad_pa end_ pa = false).
    { unfold bad_pa. apply Z.mod_divide in Hd; [|done]. lia. }
    split; [done|]. exists L1.
    pose proof (kinv_memset_page s1 L1 pa 5 HI1 Hh1) as [Hch Hok Hnd Hdj Hor Hr0 Hrr].
    assert (Hnf : forall x, pa <= x < pa + PGSIZE -> ~ free_addr L1 x).
    { intros x Hx (k & a & Hf & Hin). unfold in_block in Hin.
      destruct (ho_apart _ _ _ _ _ Hh1 k a Hf); rewrite ?bsize_0 in *; lia. }
    split_and!.
    + constructor; try done; simpl in *.
      * intros i Hi. upd_cases i (pa2index pa); [|auto]. exfalso.
        rewrite pa2index_eq in Hi by lia.
        destruct Hd as [q ->].
        apply (Hnf (KERNBASE + (q * PGSIZE - KERNBASE) / PGSIZE * PGSIZE)); [lia|done].
      * intros i Hi. upd_cases i (pa2index pa); [done|auto].
    + intros x. rewrite Hfr. unfold in_block. by rewrite bsize_0.
    + apply Hnf.
    + intros x Hx. simpl. by rewrite memset_inside.
    + intros x Hx. simpl. rewrite memset_other; [by apply Hm|done|].
      destruct (decide (pa <= x < pa + PGSIZE)); [|lia].
      exfalso. apply Hx, Hfr. right. unfold in_block. by rewrite bsize_0.
    + simpl. by rewrite Hr.
Qed.

(** ** Initialisation *)

Lemma max_order_loop_spec total fuel : forall k size k' size',
  (k <= MAX_ORDER)%nat -> size = bsize k ->
  max_order_loop total k size fuel = (k', size') -> (k' <= MAX_ORDER)%nat /\ size' = bsize k'.
Proof.
  induction fuel as [|fuel IH]; intros k size k' size' Hk -> Heq; simpl in Heq.
  { by injection Heq as <- <-. }
  destruct (Nat.ltb_spec k MAX_ORDER) as [Hlt|Hge]; simpl in Heq.
  2: { by injection Heq as <- <-. }
  case_match; [|by injection Heq as <- <-].
  eapply (IH (S k)); [lia| |exact Heq].
  rewrite Z.shiftl_mul_pow2, bsize_S, u64_id by
    (try done; pose proof (bsize_pos k); pose proof (bsize_max k Hk);
     change (bsize MAX_ORDER) with 4194304 in *; lia).
  lia.
Qed.

(** Blocks of order [k] from [cur] on, where no byte is free yet. *)
Lemma add_blocks_lists k fuel : forall cur s L,
  klists end_ s L -> (forall i, 0 <= i < NPAGES -> refcount s i = 0) ->
  (k <= MAX_ORDER)%nat -> (PGSIZE | cur) -> end_ <= cur <= PHYSTOP ->
  (forall x, free_addr L x -> x < cur) ->
  (Z.to_nat ((PHYSTOP - cur) / PGSIZE) < fuel)%nat ->
  wp (add_blocks k (bsize k) PHYSTOP cur fuel) (fun cur' s' => exists L',
    klists end_ s' L' /\ (forall i, 0 <= i < NPAGES -> refcount s' i = 0) /\
    (PGSIZE | cur') /\ cur <= cur' <= PHYSTOP /\ PHYSTOP < cur' + bsize k /\
    (forall x, free_addr L' x <-> free_addr L x \/ cur <= x < cur') /\
    (forall k' a, block_free L' k' a -> block_free L k' a \/ k' = k /\ (bsize k | a - cur))) s.
Proof.
  induction fuel as [|fuel IH]; intros cur s L HI Hr Hk Hd He Hlt Hf; [lia|].
  cbn [add_blocks]. pose proof (bsize_ge k). pose proof (bsize_max k Hk).
  change (bsize MAX_ORDER) with 4194304 in *. rewrite u64_id by lia.
  destruct (Z.leb_spec (cur + bsize k) PHYSTOP) as [Hle|Hgt].
  - wp_step. eapply wp_mono; [apply (push_run_lists s L k cur HI); [unfold placed; split_and!; (done || lia)| |]|].
    + intros k' a' Hf'. right. pose proof (bsize_pos k').
      enough (a' + bsize k' - 1 < cur) by lia. apply Hlt. exists k', a'. split; [done|]. unfold in_block. lia.
    + unfold in_block. intros i Hi. apply Hr. change NPAGES with 32768. lia.
    + intros [] s1 (HI1 & Hm1 & Hr1 & Ho1).
      eapply wp_mono; [apply (IH (cur + bsize k) s1 _ HI1); try done|].
      * by rewrite Hr1.
      * apply Z.divide_add_r; [done|apply bsize_page].
      * lia.
      * intros x Hx. rewrite free_addr_push in Hx by done.
        destruct Hx as [Hx|Hx]; [apply Hlt in Hx|unfold in_block in Hx]; lia.
      * lia.
      * intros cur' s2 (L2 & HI2 & Hr2 & Hd2 & Hc2 & Hp2 & Hfr & Hb). exists L2.
        split_and!; try done; try lia.
        -- intros x. rewrite Hfr, free_addr_push by done. unfold in_block.
           assert (cur <= x < cur' <-> cur <= x < cur + bsize k \/ cur + bsize k <= x < cur') by lia.
           tauto.
        -- intros k' a [[[-> ->]|?]%block_free_push|[-> Hda]]%Hb; [right| |done|right].
           ++ rewrite Z.sub_diag. split; [done|apply Z.divide_0_r].
           ++ by left.
           ++ split; [done|]. replace (a - cur) with (a - (cur + bsize k) + bsize k) by lia.
              by apply Z.divide_add_r.
  - apply wp_ret. exists L. split_and!; try done; try lia; [|by left].
    intros x. split; [auto|]. intros [?|?]; [done|lia].
Qed.

(** After the two clearing loops: empty lists, all counters 0. *)
Lemma kinit_clear s :
  wp (for_each (seq 0 (S MAX_ORDER)) (fun i => modify (set_head i 0)) ;;
      for_each (seqZ 0 NPAGES) (fun i => modify (set_ref i 0) ;; modify (set_order i 0)))
    (fun _ s' => kinv end_ s' (fun _ => []) /\
       forall i, 0 <= i < NPAGES -> refcount s' i = 0) s.
Proof.
  wp_step. eapply wp_mono.
  { apply (wp_for_each _ (fun d _ s' => forall k, k ∈ d -> freelist s' k = 0)).
    - intros k Hk. set_solver.
    - intros d i r s1 _ H1. wp_steps. simpl. intros k Hk. upd_cases k i; [done|].
      apply H1. set_solver. }
  cbv beta. intros _ s1 H1. eapply wp_mono.
  { apply (wp_for_each _ (fun d _ s' => freelist s' = freelist s1 /\
      forall i, i ∈ d -> refcount s' i = 0 /\ order_map s' i = 0)).
    - split; [done|]. intros k Hk. set_solver.
    - intros d i r s2 _ [Hf H2]. wp_steps. simpl. split; [done|].
      intros k Hk. upd_cases k i; [done|]. apply H2. set_solver. }
  cbv beta. intros _ s2 [Hf H2].
  assert (H2' : forall i, 0 <= i < NPAGES -> refcount s2 i = 0 /\ order_map s2 i = 0).
  { intros i Hi. apply H2. apply elem_of_seqZ. lia. }
  split; [|intros; by apply H2'].
  assert (Hno : forall k a, ~ block_free (fun _ => []) k a) by (intros k a [_ ?]; set_solver).
  constructor.
  - intros k Hk. simpl. rewrite Hf. apply H1. apply elem_of_seq. lia.
  - intros k a []%Hno.
  - intros k _. constructor.
  - intros k a k' a' []%Hno.
  - intros; by apply H2'.
  - intros i (k & a & []%Hno & _).
  - intros i Hi. destruct (H2' i Hi). lia.
Qed.

Lemma kinit_lists s :
  wp (kinit end_) (fun _ s' => exists L k, klists end_ s' L /\ (k <= MAX_ORDER)%nat /\
    (forall i, 0 <= i < NPAGES -> refcount s' i = 0) /\
    (forall x, free_addr L x <-> PGROUNDUP end_ <= x < PHYSTOP) /\
    (forall k' a, block_free L k' a -> k' = k /\ (bsize k | a - PGROUNDUP end_) \/ k' = O)) s.
Proof.
  destruct (PGROUNDUP_spec end_) as [Hpa Hpr]; [lia|].
  assert (Hle : PGROUNDUP end_ <= PHYSTOP) by lia.
  unfold kinit. rewrite <- bind_assoc. wp_step.
  eapply wp_mono; [apply kinit_clear|]. intros _ s1 ([HI1 _]%kinv_klists & Hr1).
  unfold freerange.
  destruct (max_order_loop _ _ _ _) as [k size] eqn:Hmo.
  apply max_order_loop_spec in Hmo as [Hk ->]; [|lia|done].
  wp_step. eapply wp_mono.
  { apply (add_blocks_lists k loop_fuel (PGROUNDUP end_) s1 (fun _ => [])); try done; [by apply Z.mod_divide|lia| |].
    - intros x (? & ? & [_ ?] & _). set_solver.
    - unfold loop_fuel. change NPAGES with 32768. lia. }
  intros cur s2 (L2 & HI2 & Hr2 & Hd2 & Hc2 & Hp2 & Hfr2 & Hb2). cbv beta.
  wp_step. eapply wp_mono.
  { rewrite <- bsize_0. apply (add_blocks_lists 0 loop_fuel cur s2 L2); try done; [lia|lia| |].
    - intros x [(? & ? & [_ ?] & _)|?]%Hfr2; [set_solver|lia].
    - unfold loop_fuel. change NPAGES with 32768. lia. }
  intros cur' s3 (L3 & HI3 & Hr3 & Hd3 & Hc3 & Hp3 & Hfr3 & Hb3). wp_steps.
  exists L3, k. split_and!; try done.
  - intros x. rewrite Hfr3, Hfr2. assert (cur' = PHYSTOP) as ->.
    { rewrite bsize_0 in *. destruct Hd3 as [q ->]. lia. }
    split.
    + intros [[(? & ? & [_ ?] & _)|?]|?]; [set_solver|lia|lia].
    + intros Hx. destruct (decide (x < cur)); [left; right|right]; lia.
  - intros k' a [[[_ Hin]|?]%Hb2|[-> _]]%Hb3; [set_solver|by left|by right].
Qed.

(** An image that ends at a multiple of the largest block size. *)
Lemma kinit_aligned L k :
  (bsize MAX_ORDER | PGROUNDUP end_) -> (k <= MAX_ORDER)%nat -> (forall k' a, block_free L k' a -> placed end_ a k') ->
  (forall k' a, block_free L k' a -> k' = k /\ (bsize k | a - PGROUNDUP end_) \/ k' = O) ->
  forall k' a, block_free L k' a -> (bsize k' | a).
Proof.
  intros Hal Hk Hok Hb k' a Hf. destruct (Hb k' a Hf) as [[-> Hd]| ->]; [|apply (Hok _ _ Hf)].
  replace a with (a - PGROUNDUP end_ + PGROUNDUP end_) by lia. apply Z.divide_add_r; [done|].
  etrans; [|done]. exists (2 ^ Z.of_nat (MAX_ORDER - k)). unfold bsize.
  replace (2 ^ Z.of_nat MAX_ORDER) with (2 ^ Z.of_nat (MAX_ORDER - k) * 2 ^ Z.of_nat k)
    by (rewrite <- Z.pow_add_r by lia; f_equal; lia). ring.
Qed.
Lemma kinit_inv s :
  (bsize MAX_ORDER | PGROUNDUP end_) ->
  wp (kinit end_) (fun _ s' => exists L, kinv end_ s' L /\
    (forall i, 0 <= i < NPAGES -> refcount s' i = 0) /\
    (forall x, free_addr L x <-> PGROUNDUP end_ <= x < PHYSTOP)) s.
Proof.
  intros Hal. eapply wp_mono; [apply kinit_lists|]. intros _ s' (L & k & HI & Hk & Hr & Hfr & Hb).
  exists L. split_and!; try done. apply kinv_klists. split; [done|].
  eapply kinit_aligned; try done. apply HI.
Qed.
End invariant.

(** ** The allocator's contract

    What the rest of the kernel relies on: a set of free bytes that is a union
    of pages, from which [kalloc] takes a page and to which [kfree] returns
    one.  The clients (Vm.v, Trap.v) are proved against this class. *)

Definition page (pa x : Z) : Prop := pa <= x < pa + PGSIZE.

Class PageAllocator (end_ : Z) := {
  pa_inv : kstate -> Prop;
  pa_free : kstate -> Z -> Prop;
  pa_alloc : forall s, pa_inv s ->
    wp kalloc (fun pa s' =>
      (pa = 0 /\ s' = s /\ forall x, ~ pa_free s x) \/
      (bad_pa end_ pa = false /\ pa_inv s' /\
       (forall x, pa_free s x <-> pa_free s' x \/ page pa x) /\
       (forall x, page pa x -> ~ pa_free s' x) /\
       (forall x, page pa x -> mem s' x = 5) /\
       (forall x, ~ pa_free s x -> mem s' x = mem s x) /\
       refcount s' = upd (refcount s) (pa2index pa) 1)) s;
  pa_put : forall s pa, pa_inv s -> bad_pa end_ pa = false -> ~ pa_free s pa ->
    refcount s (pa2index pa) = 0 ->
    wp (kfree end_ pa) (fun _ s' => pa_inv s' /\
       (forall x, pa_free s' x <-> pa_free s x \/ page pa x) /\
       (forall x, ~ pa_free s' x -> mem s' x = mem s x) /\
       refcount s' = refcount s) s;
  (** Memory outside the free pages, and the counts of pages that are not
      free, belong to the clients. *)
  pa_ext : forall s s', pa_inv s ->
    (forall x, pa_free s x -> mem s' x = mem s x) ->
    freelist s' = freelist s -> order_map s' = order_map s ->
    (forall i, pa_free s (KERNBASE + i * PGSIZE) -> refcount s' i = refcount s i) ->
    (forall i, 0 <= i < NPAGES -> 0 <= refcount s' i < 256) ->
    pa_inv s' /\ forall x, pa_free s' x <-> pa_free s x;
  pa_refr : forall s i, pa_inv s -> 0 <= i < NPAGES -> 0 <= refcount s i < 256;
  pa_free_range : forall s x, pa_inv s -> pa_free s x -> end_ <= x < PHYSTOP;
}.

(** At least [n] pages are free. *)
Definition avail {end_} `{!PageAllocator end_} (s : kstate) (n : nat) : Prop :=
  exists l, NoDup l /\ (n <= length l)%nat /\
    forall p, p ∈ l -> p mod PGSIZE = 0 /\ forall x, page p x -> pa_free s x.

Section avail.
Context {end_ : Z} `{!PageAllocator end_}.

Lemma avail_le s n m : avail s n -> (m <= n)%nat -> avail s m.
Proof. intros (l & ? & ? & ?) ?. exists l. split_and!; (done || lia). Qed.

Lemma avail_ext s s' n : (forall x, pa_free s' x <-> pa_free s x) -> avail s n -> avail s' n.
Proof. intros Hfr (l & ? & ? & Hl). exists l. setoid_rewrite Hfr. done. Qed.

Lemma avail_none s n : (forall x, ~ pa_free s x) -> ~ avail s (S n).
Proof.
  intros Hno ([|p l] & _ & Hn & Hl); [simpl in Hn; lia|].
  destruct (Hl p ltac:(left)) as [_ Hp]. apply (Hno p), Hp. unfold page, PGSIZE. lia.
Qed.

(** Taking a page leaves the others. *)
Lemma avail_taken s s' q n :
  q mod PGSIZE = 0 -> (forall x, pa_free s x <-> pa_free s' x \/ page q x) ->
  avail s (S n) -> avail s' n.
Proof.
  intros Hq Hfr (l & Hnd & Hn & Hl). exists (list_difference l [q]). split_and!.
  - by apply NoDup_list_difference.
  - assert (Hsub : l ⊆+ q :: list_difference l [q]).
    { apply NoDup_submseteq; [done|]. intros p Hp. destruct (decide (p = q)) as [->|]; [left|right].
      apply list_elem_of_difference. set_solver. }
    apply submseteq_length in Hsub. simpl in Hsub. lia.
  - intros p [Hp Hpq]%list_elem_of_difference. destruct (Hl p Hp) as [Hal Hx].
    split; [done|]. intros x Hpx. destruct (proj1 (Hfr x) (Hx x Hpx)) as [?|Hqx]; [done|].
    exfalso. apply Hpq. assert (p = q) as -> by (unfold page, PGSIZE in *; lia). left.
Qed.
End avail.

Lemma chain_det m h l l' : chain m h l -> chain m h l' -> l = l'.
Proof.
  revert h l'. induction l as [|a l IH]; intros h [|a' l']; simpl; try done.
  - by intros -> (<- & ? & _).
  - by intros (-> & ? & _) ->.
  - intros (-> & _ & Hc) (<- & _ & Hc'). f_equal. eauto.
Qed.

Lemma free_addr_det end_ s L L' x :
  kinv end_ s L -> kinv end_ s L' -> free_addr L x -> free_addr L' x.
Proof.
  intros HI HI' (k & a & [Hk Ha] & Hx). exists k, a. split; [|done]. split; [done|].
  rewrite (chain_det (mem s) (freelist s k) (L' k) (L k)); [done| |];
    by eapply ki_chain.
Qed.

(** The invariant and the free set of the buddy allocator. *)
Definition buddy_inv (end_ : Z) (s : kstate) : Prop := exists L, kinv end_ s L.
Definition buddy_free_set (end_ : Z) (s : kstate) (x : Z) : Prop :=
  exists L, kinv end_ s L /\ free_addr L x.

Lemma buddy_free_set_eq end_ s L x :
  kinv end_ s L -> buddy_free_set end_ s x <-> free_addr L x.
Proof.
  intros HI. split; [|by exists L]. intros (L' & HI' & Hx). by eapply free_addr_det.
Qed.

Lemma kinv_client end_ s s' L :
  kinv end_ s L -> (forall x, free_addr L x -> mem s' x = mem s x) ->
  freelist s' = freelist s -> order_map s' = order_map s ->
  (forall i, free_addr L (KERNBASE + i * PGSIZE) -> refcount s' i = refcount s i) ->
  (forall i, 0 <= i < NPAGES -> 0 <= refcount s' i < 256) -> kinv end_ s' L.
Proof.
  intros HI Hm Hf Ho Hr Hrr.
  destruct (kinv_ext end_ s (KState (mem s') (freelist s') (refcount s) (order_map s')) L HI)
    as [Hch Hok Hnd Hdj Hor Hr0 _]; try done.
  constructor; try done. intros i Hi. rewrite Hr by done. by apply Hr0.
Qed.

(** The buddy allocator meets the contract, for any kernel image that ends
    inside physical memory. *)
#[export] Instance buddy_allocator (end_ : Z) (Hend : KERNBASE <= end_ <= PHYSTOP) :
  PageAllocator end_.
Proof.
  refine {| pa_inv := buddy_inv end_; pa_free := buddy_free_set end_ |}.
  - intros s [L HI]. eapply wp_mono; [by apply (kalloc_inv end_ Hend s L)|].
    intros pa s' [(-> & -> & He)|(Hb & L' & HI' & Hfr & Hnf & H5 & Hm & Hr)].
    + left. split_and!; [done..|]. intros x. by rewrite (buddy_free_set_eq _ _ _ _ HI).
    + right. setoid_rewrite (buddy_free_set_eq _ _ _ _ HI).
      setoid_rewrite (buddy_free_set_eq _ _ _ _ HI').
      split_and!; try done. by exists L'.
  - intros s pa [L HI] Hb Hnf Hr. rewrite (buddy_free_set_eq _ _ _ _ HI) in Hnf.
    eapply wp_mono; [by apply (kfree_inv end_ Hend s L)|].
    intros ? s' (L' & HI' & Hfr & Hm & Hrc).
    setoid_rewrite (buddy_free_set_eq _ _ _ _ HI).
    setoid_rewrite (buddy_free_set_eq _ _ _ _ HI').
    split_and!; try done. by exists L'.
  - intros s s' [L HI] Hm Hf Ho Hr Hrr. setoid_rewrite (buddy_free_set_eq _ _ _ _ HI) in Hm.
    setoid_rewrite (buddy_free_set_eq _ _ _ _ HI) in Hr.
    assert (HI' : kinv end_ s' L) by (by eapply kinv_client).
    split; [by exists L|]. intros x.
    by rewrite (buddy_free_set_eq _ _ _ _ HI), (buddy_free_set_eq _ _ _ _ HI').
  - intros s i [L HI]. apply (ki_refr _ _ _ HI).
  - intros s x [L HI] Hx. rewrite (buddy_free_set_eq _ _ _ _ HI) in Hx.
    destruct Hx as (k & a & Hf & Hx). eapply block_in_range; [|done].
    by apply (ki_ok _ _ _ HI).
Defined.

(** ** Properties *)

(** The use of the two calls in vm.c and trap.c:
    [if(decref(pa)) kfree(pa);] *)
Definition drop_page (end_ pa : Z) : M kstate unit :=
  let! z := decref end_ pa in
  when! z do kfree end_ pa.

Lemma set_ref_client end_ `{!PageAllocator end_} s pa v :
  pa_inv s -> bad_pa end_ pa = false -> ~ pa_free s pa -> 0 <= v < 256 ->
  KERNBASE <= end_ ->
  pa_inv (set_ref (pa2index pa) v s) /\
  forall x, pa_free (set_ref (pa2index pa) v s) x <-> pa_free s x.
Proof.
  intros HI Hb Hnf Hv He. unfold bad_pa in Hb. bool_to_prop.
  apply pa_ext; try done; simpl.
  - intros i Hi. upd_cases i (pa2index pa); [|done]. exfalso. apply Hnf.
    rewrite pa2index_eq in Hi by lia.
    by replace (KERNBASE + (pa - KERNBASE) / PGSIZE * PGSIZE) with pa in Hi by lia.
  - intros i Hi. upd_cases i (pa2index pa); [rewrite u8_id by lia; lia|].
    by apply pa_refr.
Qed.

Lemma drop_page_inv end_ `{!PageAllocator end_} s pa :
  KERNBASE <= end_ -> pa_inv s -> bad_pa end_ pa = false -> ~ pa_free s pa ->
  0 < refcount s (pa2index pa) < 256 ->
  wp (drop_page end_ pa) (fun _ s' => pa_inv s' /\
    refcount s' = upd (refcount s) (pa2index pa) (refcount s (pa2index pa) - 1) /\
    (forall x, pa_free s' x <->
       pa_free s x \/ (refcount s (pa2index pa) = 1 /\ page pa x)) /\
    (forall x, ~ pa_free s' x -> mem s' x = mem s x)) s.
Proof.
  intros He HI Hb Hnf Hr. unfold drop_page, decref. rewrite Hb.
  remember (refcount s (pa2index pa)) as c eqn:Hcd.
  destruct (set_ref_client end_ s pa (c - 1)) as [HI' Hfr]; try done; [lia|].
  assert (Hc : upd (refcount s) (pa2index pa) (u8 (c - 1)) =
               upd (refcount s) (pa2index pa) (c - 1)) by (rewrite u8_id by lia; done).
  wp_step. wp_step. wp_step. rewrite <- Hcd. case_bool; [lia|].
  wp_step. wp_step. wp_step. simpl. rewrite upd_same, u8_id by lia.
  destruct (Z.eqb_spec (c - 1) 0) as [E|E]; simpl.
  - eapply wp_mono; [apply pa_put; try done|].
    + by rewrite Hfr.
    + simpl. rewrite upd_same, u8_id by lia. done.
    + intros ? s' (HI2 & Hfr2 & Hm2 & Hr2). split_and!; try done.
      * rewrite Hr2. simpl. by rewrite Hc.
      * intros x. rewrite Hfr2, Hfr. intuition lia.
  - wp_step. split_and!; try done. intros x. rewrite Hfr. intuition lia.
Qed.

(** C27: for every end of the kernel image below PHYSTOP, [kinit] does not
    panic and terminates, and it builds linked free lists of page-aligned blocks
    that do not overlap and that together are exactly the memory from the first
    page after the image to PHYSTOP; all reference counts are 0.  If that page
    is moreover aligned to the largest block size (4 MB), the blocks are aligned
    to their sizes, which is the invariant that [buddy_alloc] and [buddy_free]
    keep; for other images [unaligned_split_escapes] shows that splitting a
    block goes wrong. *)
Theorem kinit_correct end_ s :
  KERNBASE <= end_ <= PHYSTOP ->
  wp (kinit end_) (fun _ s' => exists L, klists end_ s' L /\
    (forall i, 0 <= i < NPAGES -> refcount s' i = 0) /\
    (forall x, free_addr L x <-> PGROUNDUP end_ <= x < PHYSTOP) /\
    ((bsize MAX_ORDER | PGROUNDUP end_) -> kinv end_ s' L)) s.
Proof.
  intros Hend. eapply wp_mono; [by apply kinit_lists|]. intros ? s' (L & k & HI & Hk & Hr & Hfr & Hb).
  exists L. split_and!; try done. intros Hal. apply kinv_klists. split; [done|].
  eapply kinit_aligned; try done. apply HI.
Qed.

(** A kernel image that ends at 0x80025000. *)
Lemma kinit_correct_witness :
  wp (kinit 0x80025000) (fun _ s' => exists L, klists 0x80025000 s' L /\ free_addr L 0x80025000)
    (KState (fun _ => 0) (fun _ => 0) (fun _ => 0) (fun _ => 0)).
Proof.
  eapply wp_mono.
  - apply (kinit_correct 0x80025000). unfold KERNBASE, PHYSTOP; lia.
  - intros _ s' (L & HI & _ & Hfr & _). exists L. split; [exact HI|]. apply Hfr. vm_compute. intuition congruence.
Defined.

(** C19: in a well-formed state, [kalloc] returns 0 exactly when no byte
    is free and then changes nothing; otherwise it returns a page-aligned page
    that was free, removes just that page from the free memory, fills it with
    5s, sets its reference count to 1 and changes no memory outside the free
    area. *)
Theorem kalloc_correct end_ s :
  KERNBASE <= end_ <= PHYSTOP -> buddy_inv end_ s ->
  wp kalloc (fun pa s' =>
    (pa = 0 /\ s' = s /\ forall x, ~ buddy_free_set end_ s x) \/
    (bad_pa end_ pa = false /\ buddy_inv end_ s' /\
     (forall x, buddy_free_set end_ s x <-> buddy_free_set end_ s' x \/ page pa x) /\
     (forall x, page pa x -> ~ buddy_free_set end_ s' x) /\
     (forall x, page pa x -> mem s' x = 5) /\
     (forall x, ~ buddy_free_set end_ s x -> mem s' x = mem s x) /\
     refcount s' = upd (refcount s) (pa2index pa) 1)) s.
Proof. intros Hend HI. by apply (@pa_alloc end_ (buddy_allocator end_ Hend)). Qed.

Definition boot_end : Z := 0x80400000.
Lemma boot_end_ok : KERNBASE <= boot_end <= PHYSTOP.
Proof. vm_compute. intuition congruence. Qed.
Lemma boot_state : exists s L, kinv boot_end s L /\
  (forall i, 0 <= i < NPAGES -> refcount s i = 0) /\
  (forall x, free_addr L x <-> boot_end <= x < PHYSTOP).
Proof.
  assert (Hal : (bsize MAX_ORDER | PGROUNDUP boot_end)) by (exists 513; reflexivity).
  pose proof (kinit_inv boot_end boot_end_ok
    (KState (fun _ => 0) (fun _ => 0) (fun _ => 0) (fun _ => 0)) Hal) as Hw.
  destruct (proj1 (wp_returns _ _ _) Hw) as (? & s & _ & L & HI & Hr & Hfr).
  exists s, L. split_and!; done.
Qed.

Lemma kalloc_correct_witness :
  exists s, buddy_inv boot_end s /\ wp kalloc (fun pa _ => bad_pa boot_end pa = false) s.
Proof.
  destruct boot_state as (s & L & HI & _ & Hfr). exists s.
  assert (HB : buddy_inv boot_end s) by (exists L; exact HI).
  split; [exact HB|]. eapply wp_mono; [exact (kalloc_correct boot_end s boot_end_ok HB)|].
  intros pa s' [(_ & _ & Hnone)|(Hb & _)]; [|exact Hb].
  exfalso. apply (Hnone boot_end). exists L. split; [exact HI|]. apply Hfr.
  vm_compute. intuition congruence.
Defined.

(** C21: giving up one reference of an allocated page with
    [if(decref(pa)) kfree(pa)] decrements its count; the page returns to the
    free memory exactly when that was the last reference, and no memory
    outside the free area changes. *)
Theorem drop_page_correct end_ s pa :
  KERNBASE <= end_ <= PHYSTOP -> buddy_inv end_ s -> bad_pa end_ pa = false ->
  ~ buddy_free_set end_ s pa -> refcount s (pa2index pa) <> 0 ->
  wp (drop_page end_ pa) (fun _ s' => buddy_inv end_ s' /\
    refcount s' = upd (refcount s) (pa2index pa) (refcount s (pa2index pa) - 1) /\
    (forall x, buddy_free_set end_ s' x <->
       buddy_free_set end_ s x \/ (refcount s (pa2index pa) = 1 /\ page pa x)) /\
    (forall x, ~ buddy_free_set end_ s' x -> mem s' x = mem s x)) s.
Proof.
  intros Hend HI Hb Hnf Hr. pose proof (pa2index_range end_ Hend pa Hb) as Hi.
  apply (@drop_page_inv end_ (buddy_allocator end_ Hend)); try done; [lia|].
  destruct HI as [L HI]. pose proof (ki_refr _ _ _ HI _ Hi). lia.
Qed.

(** A page just allocated at boot, given back. *)
Lemma drop_page_correct_witness :
  exists s pa, wp (drop_page boot_end pa) (fun _ s' => buddy_free_set boot_end s' pa) s.
Proof.
  destruct boot_state as (s & L & HI & _ & Hfr).
  pose proof (kalloc_inv boot_end boot_end_ok s L HI) as Hw.
  destruct (proj1 (wp_returns _ _ _) Hw) as (pa & s1 & _ & [(_ & _ & Hnone)|(Hb & L1 & HI1 & _ & Hnf & _ & _ & Hr)]).
  { exfalso. apply (Hnone boot_end), Hfr. vm_compute. intuition congruence. }
  exists s1, pa. assert (Hp : page pa pa) by (unfold page, PGSIZE; lia).
  assert (H1 : refcount s1 (pa2index pa) = 1) by (rewrite Hr; apply upd_same).
  eapply wp_mono.
  - apply (drop_page_correct boot_end s1 pa boot_end_ok); [by exists L1|exact Hb| |by rewrite H1].
    rewrite (buddy_free_set_eq _ _ _ _ HI1). by apply Hnf.
  - intros _ s' (_ & _ & Hfr' & _). apply Hfr'. right. split; [exact H1|exact Hp].
Defined.

(** [kfree] alone never returns a page obtained from [kalloc]: the
    reference count is still 1, so the call leaves the state as [kalloc] left
    it and the page stays out of the free memory.  (Page-table pages,
    trapframes, pipes and exec arguments are freed this way.) *)
Theorem kalloc_kfree_leaks end_ s :
  KERNBASE <= end_ <= PHYSTOP -> buddy_inv end_ s ->
  wp kalloc (fun pa s1 => pa = 0 \/
    (kfree end_ pa s1 = Ret (tt, s1) /\ ~ buddy_free_set end_ s1 pa)) s.
Proof.
  intros Hend HI.
  eapply wp_mono; [by apply (@pa_alloc end_ (buddy_allocator end_ Hend))|].
  intros pa s1 [(-> & _)|(Hb & _ & _ & Hnf & _ & _ & Hr)]; [by left|right].
  split; [|apply Hnf; unfold page; lia].
  unfold kfree, getref, bind, gets. rewrite Hb, Hr, upd_same. done.
Qed.

Lemma kalloc_kfree_leaks_witness :
  exists s, wp kalloc (fun pa s1 => pa <> 0 /\ kfree boot_end pa s1 = Ret (tt, s1)) s.
Proof.
  destruct boot_state as (s & L & HI & _ & Hfr). exists s.
  assert (HB : buddy_inv boot_end s) by (exists L; exact HI).
  pose proof (kalloc_kfree_leaks boot_end s boot_end_ok HB) as Hl.
  pose proof (kalloc_inv boot_end boot_end_ok s L HI) as Hw.
  apply wp_returns in Hw as (pa & s1 & Heq & Hpost). unfold wp in *. rewrite Heq in *.
  destruct Hpost as [(_ & _ & Hnone)|(Hb & _)].
  { exfalso. apply (Hnone boot_end), Hfr. vm_compute. intuition congruence. }
  assert (Hpa : pa <> 0) by (intros ->; discriminate Hb).
  destruct Hl as [H0|[Hk _]]; [done|]. split; [exact Hpa|exact Hk].
Defined.

(** *** A region that is not aligned to the block size *)

Lemma max_order_loop_full total fuel : forall k,
  bsize MAX_ORDER <= total * PGSIZE < 2 ^ 64 -> (k <= MAX_ORDER)%nat ->
  (MAX_ORDER - k < fuel)%nat ->
  max_order_loop total k (bsize k) fuel = (MAX_ORDER, bsize MAX_ORDER).
Proof.
  induction fuel as [|fuel IH]; intros k Ht Hk Hf; [lia|]. cbn [max_order_loop].
  pose proof (bsize_pos k). pose proof (bsize_max k Hk).
  destruct (Nat.ltb_spec k MAX_ORDER) as [Hlt|Hge]; simpl.
  - pose proof (bsize_max (S k) Hlt). rewrite bsize_S in *.
    change (bsize MAX_ORDER) with 4194304 in *.
    rewrite !u64_id by lia. case_bool; [|lia].
    rewrite Z.shiftl_mul_pow2, u64_id by lia.
    replace (bsize k * 2 ^ 1) with (bsize (S k)) by (rewrite bsize_S; lia).
    apply IH; [done|lia|lia].
  - by assert (k = MAX_ORDER) as -> by lia.
Qed.

(** Every block added keeps the residue of the start of the region, and the
    other lists are not touched. *)
Lemma add_blocks_residue k fuel : forall cur s,
  (k <= MAX_ORDER)%nat -> 0 < cur <= PHYSTOP ->
  (Z.to_nat ((PHYSTOP - cur) / PGSIZE) < fuel)%nat ->
  wp (add_blocks k (bsize k) PHYSTOP cur fuel) (fun cur' s' =>
    cur <= cur' <= PHYSTOP /\
    (forall j, j <> k -> freelist s' j = freelist s j) /\
    ((PGSIZE | cur) -> (PGSIZE | freelist s k) -> (PGSIZE | freelist s' k)) /\
    (~ (bsize k | cur) ->
     cur + bsize k <= PHYSTOP \/ (freelist s k <> 0 /\ ~ (bsize k | freelist s k)) ->
     freelist s' k <> 0 /\ ~ (bsize k | freelist s' k))) s.
Proof.
  induction fuel as [|fuel IH]; intros cur s Hk Hc Hf; [lia|].
  cbn [add_blocks]. pose proof (bsize_ge k). pose proof (bsize_max k Hk).
  change (bsize MAX_ORDER) with 4194304 in *. rewrite u64_id by lia.
  case_bool.
  2: { apply wp_ret. split_and!; try done; try lia. intros _ [?|?]; [lia|done]. }
  unfold push_run. wp_steps. eapply wp_mono; [apply IH; try done; simpl; lia|].
  intros cur' s' (? & Hoth & Hpg & Hres). split_and!; try lia.
  - intros j Hj. rewrite Hoth by done. simpl. by rewrite upd_other.
  - intros Hcp _. apply Hpg; simpl; [|by rewrite upd_same].
    apply Z.divide_add_r; [done|apply bsize_page].
  - intros Hnc _. apply Hres; simpl.
    + intros Hd. apply Hnc. apply (Z.divide_add_cancel_r (bsize k) (bsize k)); [done|].
      by rewrite Z.add_comm.
    + right. rewrite upd_same. split; [lia|done].
Qed.

(** Splitting with empty lists below: each list gets the buddy of its order. *)
Lemma split_loop_heads c : forall r s,
  wp (split_loop r 0 c) (fun _ s' =>
    (forall k, (k < c)%nat -> freelist s' k = get_buddy r k) /\
    (forall k, (c <= k)%nat -> freelist s' k = freelist s k)) s.
Proof.
  induction c as [|c IH]; intros r s; cbn [split_loop].
  { apply wp_ret. split; [lia|done]. }
  simpl Nat.leb. cbv iota. unfold push_run. wp_steps.
  eapply wp_mono; [apply IH|]. intros ? s' [Hlo Hhi]. split.
  - intros k Hk. destruct (decide (k = c)) as [->|]; [|apply Hlo; lia].
    rewrite Hhi by lia. simpl. by rewrite upd_same.
  - intros k Hk. rewrite Hhi by lia. simpl. rewrite upd_other; [done|lia].
Qed.

Lemma alloc_loop_skip fuel : forall cur s r,
  (forall k, (k < MAX_ORDER)%nat -> freelist s k = 0) ->
  freelist s MAX_ORDER = r -> r <> 0 -> (cur + fuel = S MAX_ORDER)%nat -> (0 < fuel)%nat ->
  wp (alloc_loop 0 cur fuel) (fun pa s' => pa = r /\
    forall k, (k < MAX_ORDER)%nat -> freelist s' k = get_buddy r k) s.
Proof.
  induction fuel as [|fuel IH]; intros cur s r Hlo Hhi Hr Hf Hpos; [lia|].
  cbn [alloc_loop]. wp_step. wp_step. destruct (decide (cur = MAX_ORDER)) as [->|].
  - rewrite Hhi, (proj2 (Z.eqb_neq r 0)) by done. simpl negb. cbv iota.
    wp_step. wp_step. wp_step. eapply wp_mono; [apply split_loop_heads|].
    intros ? s' [Hlo' _]. wp_steps. by split.
  - rewrite Hlo by lia. simpl. apply IH; try done; lia.
Qed.

Lemma unaligned_level k : forall r,
  (PGSIZE | r) -> ~ (bsize k | r) ->
  exists j, (j < k)%nat /\ get_buddy r j = r - bsize j.
Proof.
  induction k as [|k IH]; intros r Hp Hn; [done|].
  destruct (decide (r mod bsize k = 0)) as [Hd|Hd];
    rewrite Z.mod_divide in Hd by (pose proof (bsize_pos k); lia).
  - exists k. split; [lia|]. destruct (get_buddy_cases r k Hd) as [[? _]|[_ ?]]; done.
  - destruct (IH r Hp Hd) as (j & Hj & Hg). exists j. split; [lia|done].
Qed.

Lemma kinit_unaligned end_ s :
  KERNBASE <= end_ <= PHYSTOP -> PGROUNDUP end_ + bsize MAX_ORDER <= PHYSTOP ->
  ~ (bsize MAX_ORDER | PGROUNDUP end_) ->
  wp (kinit end_) (fun _ s1 => freelist s1 MAX_ORDER <> 0 /\
    (PGSIZE | freelist s1 MAX_ORDER) /\ ~ (bsize MAX_ORDER | freelist s1 MAX_ORDER)) s.
Proof.
  intros He Hp Hn. destruct (PGROUNDUP_spec end_) as [Hpa Hpr]; [lia|].
  unfold kinit. rewrite <- bind_assoc. wp_step.
  eapply wp_mono; [by apply (kinit_clear end_)|]. intros _ s1 [HI1 _].
  unfold freerange. change PGSIZE with (bsize 0) at 2.
  rewrite max_order_loop_full; [|change (bsize MAX_ORDER) with 4194304 in *; rewrite u64_id; lia|lia|lia].
  wp_step. eapply wp_mono.
  { apply (add_blocks_residue MAX_ORDER loop_fuel); [done|lia|].
    unfold loop_fuel. change NPAGES with 32768. lia. }
  intros cur s2 (Hc2 & _ & Hpg & Hres). cbv beta. wp_step.
  eapply wp_mono.
  { rewrite <- bsize_0. apply (add_blocks_residue 0 loop_fuel); [lia|lia|].
    unfold loop_fuel. change NPAGES with 32768. lia. }
  intros cur' s3 (_ & Hoth & _). wp_steps. rewrite Hoth by done.
  assert (Hh : freelist s1 MAX_ORDER = 0) by (by apply (ki_chain _ _ _ HI1)).
  destruct Hres as [? ?]; [done|by left|]. split_and!; try done.
  apply Hpg; [by apply Z.mod_divide|]. rewrite Hh. apply Z.divide_0_r.
Qed.

(** [freerange] starts its 4 MB blocks at the first page after the
    kernel image.  When that page is not 4 MB aligned, the first 4 MB block
    [r] that [buddy_alloc] splits (the lists of smaller blocks being
    exhausted) puts on some free list a "buddy" that lies below [r], outside
    the block being split: memory of the neighbouring block or of the kernel
    image. *)
Theorem unaligned_split_escapes end_ s :
  KERNBASE <= end_ <= PHYSTOP -> PGROUNDUP end_ + bsize MAX_ORDER <= PHYSTOP ->
  ~ (bsize MAX_ORDER | PGROUNDUP end_) ->
  wp (kinit end_) (fun _ s1 => forall s2,
    freelist s2 MAX_ORDER = freelist s1 MAX_ORDER ->
    (forall k, (k < MAX_ORDER)%nat -> freelist s2 k = 0) ->
    wp (buddy_alloc 0) (fun r s3 => r = freelist s1 MAX_ORDER /\
      exists k, (k < MAX_ORDER)%nat /\ freelist s3 k = r - bsize k) s2) s.
Proof.
  intros He Hp Hn. eapply wp_mono; [by apply kinit_unaligned|].
  intros ? s1 (H0 & Hpg & Hna) s2 Heq Hlo. unfold buddy_alloc.
  eapply wp_mono.
  { apply (alloc_loop_skip _ 0 s2 (freelist s1 MAX_ORDER)); try done; unfold MAX_ORDER; lia. }
  intros r s3 [-> Hb]. split; [done|].
  destruct (unaligned_level MAX_ORDER _ Hpg Hna) as (j & Hj & Hg).
  exists j. split; [done|]. by rewrite Hb.
Qed.

(** A kernel image that ends at 0x80025000, as the one the Makefile builds
    ends somewhere below 0x80400000. *)
Lemma unaligned_split_escapes_witness :
  exists s1 s2, wp (buddy_alloc 0) (fun r s3 => r = freelist s1 MAX_ORDER /\
      exists k, (k < MAX_ORDER)%nat /\ freelist s3 k = r - bsize k) s2.
Proof.
  set (s := KState (fun _ => 0) (fun _ => 0) (fun _ => 0) (fun _ => 0)).
  assert (He : KERNBASE <= 0x80025000 <= PHYSTOP) by (vm_compute; intuition congruence).
  assert (Hp : PGROUNDUP 0x80025000 + bsize MAX_ORDER <= PHYSTOP)
    by (vm_compute; intuition congruence).
  assert (Hn : ~ (bsize MAX_ORDER | PGROUNDUP 0x80025000)).
  { change (bsize MAX_ORDER) with 4194304. change (PGROUNDUP 0x80025000) with 2147635200.
    intros [q Hq]. lia. }
  pose proof (unaligned_split_escapes 0x80025000 s He Hp Hn) as Hw.
  destruct (proj1 (wp_returns _ _ _) Hw) as (u & s1 & _ & Hs2).
  exists s1, (KState (fun _ => 0)
    (fun k => if decide (k = MAX_ORDER) then freelist s1 MAX_ORDER else 0)
    (fun _ => 0) (fun _ => 0)).
  apply Hs2; simpl.
  - reflexivity.
  - intros k Hk. destruct (decide (k = MAX_ORDER)); [lia|reflexivity].
Defined.
