(* ===== verification/Vm.v ===== *)
(** * kernel/vm.c: page tables and user memory

    Page tables live in physical memory: a PTE is the 64-bit word at its
    address.  A pointer to a PTE is that address, and 0 is the null pointer.
    Bytes that the kernel copies from or to one of its own buffers are lists
    of bytes.  Loops over pages take the number of pages they can visit as
    fuel. *)

From S2P Require Import Prelude Riscv KString Kalloc.

(** ** Memory accesses *)

Definition load (a : Z) : M kstate Z := gets (fun s => ld64 (mem s) a).
Definition store (a v : Z) : M kstate unit :=
  modify (fun s => set_mem (st64 (mem s) a v) s).
Definition memset_m (pa c n : Z) : M kstate unit :=
  modify (fun s => set_mem (memset (mem s) pa c n) s).

(** Does [v] have one of the bits [mask]? *)
Definition bits (v mask : Z) : bool := negb (Z.land v mask =? 0).

Section vm.
Context (end_ : Z).

(** ** walk and walkaddr *)

(** [for(level = 2; level > 0; level--)]; [level] counts down. *)
Fixpoint walk_loop (level : nat) (pagetable va : Z) (alloc : bool) : M kstate Z :=
  match level with
  | O => ret (pagetable + 8 * PX 0 va)
  | S level' =>
      let pte := pagetable + 8 * PX (Z.of_nat level) va in
      let! v := load pte in
      if bits v PTE_V then walk_loop level' (PTE2PA v) va alloc
      else if negb alloc then ret 0
      else
        let! pt := kalloc in
        if pt =? 0 then ret 0
        else memset_m pt 0 PGSIZE ;;
             store pte (Z.lor (PA2PTE pt) PTE_V) ;;
             walk_loop level' pt va alloc
  end.

Definition walk (pagetable va : Z) (alloc : bool) : M kstate Z :=
  if MAXVA <=? va then panic "walk" else walk_loop 2 pagetable va alloc.

Definition walkaddr (pagetable va : Z) : M kstate Z :=
  if MAXVA <=? va then ret 0
  else
    let! pte := walk pagetable va false in
    if pte =? 0 then ret 0
    else
      let! v := load pte in
      if negb (bits v PTE_V) then ret 0
      else if negb (bits v PTE_U) then ret 0
      else ret (PTE2PA v).

(** ** Mapping and unmapping *)

Fixpoint mappages_loop (pagetable a last pa perm : Z) (fuel : nat) : M kstate Z :=
  match fuel with
  | O => out_of_fuel
  | S fuel' =>
      let! pte := walk pagetable a true in
      if pte =? 0 then ret (-1)
      else
        let! v := load pte in
        if bits v PTE_V then panic "mappages: remap"
        else
          store pte (Z.lor (Z.lor (PA2PTE pa) perm) PTE_V) ;;
          if a =? last then ret 0
          else mappages_loop pagetable (u64 (a + PGSIZE)) last (u64 (pa + PGSIZE)) perm fuel'
  end.

Definition mappages (pagetable va size pa perm : Z) : M kstate Z :=
  if negb (va mod PGSIZE =? 0) then panic "mappages: va not aligned"
  else if negb (size mod PGSIZE =? 0) then panic "mappages: size not aligned"
  else if size =? 0 then panic "mappages: size"
  else mappages_loop pagetable va (u64 (va + size - PGSIZE)) pa perm
         (Z.to_nat (size / PGSIZE)).

Definition kvmmap (kpgtbl va pa sz perm : Z) : M kstate unit :=
  let! r := mappages kpgtbl va sz pa perm in
  when! negb (r =? 0) do panic "kvmmap".

(** One iteration of [uvmunmap]. *)
Definition unmap_page (pagetable a : Z) (do_free : bool) : M kstate unit :=
  let! pte := walk pagetable a false in
  if pte =? 0 then ret tt
  else
    let! v := load pte in
    if negb (bits v PTE_V) then ret tt
    else if PTE_FLAGS v =? PTE_V then panic "uvmunmap: not a leaf"
    else
      let pa := PTE2PA v in
      (when! do_free do drop_page end_ pa) ;;
      store pte 0.

Fixpoint uvmunmap_loop (pagetable a last : Z) (do_free : bool) (fuel : nat) : M kstate unit :=
  match fuel with
  | O => out_of_fuel
  | S fuel' =>
      if a <? last then
        unmap_page pagetable a do_free ;;
        uvmunmap_loop pagetable (u64 (a + PGSIZE)) last do_free fuel'
      else ret tt
  end.

Definition uvmunmap (pagetable va npages : Z) (do_free : bool) : M kstate unit :=
  if negb (va mod PGSIZE =? 0) then panic "uvmunmap: not aligned"
  else uvmunmap_loop pagetable va (u64 (va + npages * PGSIZE)) do_free (S (Z.to_nat npages)).

(** ** User address spaces *)

Definition uvmcreate : M kstate Z :=
  let! pagetable := kalloc in
  if pagetable =? 0 then ret 0
  else memset_m pagetable 0 PGSIZE ;; ret pagetable.

(** Stores the bytes of a kernel buffer at [a]. *)
Fixpoint st_bytes (m : memory) (a : Z) (bs : list Z) : memory :=
  match bs with
  | [] => m
  | b :: bs' => st_bytes (stb m a b) (a + 1) bs'
  end.
(** The [n] bytes at [a]. *)
Fixpoint ld_bytes (m : memory) (a : Z) (n : nat) : list Z :=
  match n with
  | O => []
  | S n' => ldb m a :: ld_bytes m (a + 1) n'
  end.
Definition put_bytes (a : Z) (bs : list Z) : M kstate unit :=
  modify (fun s => set_mem (st_bytes (mem s) a bs) s).

Definition uvmfirst (pagetable : Z) (src : list Z) : M kstate unit :=
  if PGSIZE <=? Z.of_nat (length src) then panic "uvmfirst: more than a page"
  else
    let! m := kalloc in
    if m =? 0 then panic "kerneltrap" (* memset of the null pointer *)
    else
    memset_m m 0 PGSIZE ;;
    let! _ := mappages pagetable 0 PGSIZE m
      (Z.lor (Z.lor (Z.lor PTE_W PTE_R) PTE_X) PTE_U) in
    put_bytes m src.

(** Lazy allocation: only the size changes. *)
Definition uvmalloc (pagetable oldsz newsz xperm : Z) : M kstate Z :=
  if newsz <? oldsz then ret oldsz else ret newsz.

Definition uvmdealloc (pagetable oldsz newsz : Z) : M kstate Z :=
  if oldsz <=? newsz then ret oldsz
  else
    (if PGROUNDUP newsz <? PGROUNDUP oldsz then
       let npages := i32 ((PGROUNDUP oldsz - PGROUNDUP newsz) / PGSIZE) in
       uvmunmap pagetable (PGROUNDUP newsz) (u64 npages) true
     else ret tt) ;;
    ret newsz.

(** [depth] bounds the recursion; a page table has three levels. *)
Fixpoint freewalk_depth (depth : nat) (pagetable : Z) : M kstate unit :=
  match depth with
  | O => out_of_fuel
  | S depth' =>
      for_each (seqZ 0 512) (fun i =>
        let! pte := load (pagetable + 8 * i) in
        if bits pte PTE_V && negb (bits pte (Z.lor (Z.lor PTE_R PTE_W) PTE_X)) then
          freewalk_depth depth' (PTE2PA pte) ;;
          store (pagetable + 8 * i) 0
        else if bits pte PTE_V then panic "freewalk: leaf"
        else ret tt) ;;
      kfree end_ pagetable
  end.
Definition freewalk (pagetable : Z) : M kstate unit := freewalk_depth 3 pagetable.

Definition uvmfree (pagetable sz : Z) : M kstate unit :=
  (when! 0 <? sz do uvmunmap pagetable 0 (PGROUNDUP sz / PGSIZE) true) ;;
  freewalk pagetable.

(** ** Copy-on-write fork *)

Fixpoint uvmcopy_loop (old new i sz : Z) (fuel : nat) : M kstate Z :=
  match fuel with
  | O => out_of_fuel
  | S fuel' =>
      if i <? sz then
        let! pte := walk old i false in
        if pte =? 0 then uvmcopy_loop old new (u64 (i + PGSIZE)) sz fuel'
        else
          let! v := load pte in
          if negb (bits v PTE_V) then uvmcopy_loop old new (u64 (i + PGSIZE)) sz fuel'
          else
            let pa := PTE2PA v in
            let flags := Z.lor (Z.land (PTE_FLAGS v) (Z.lnot PTE_W)) PTE_COW in
            store pte (Z.lor (Z.lor (PA2PTE pa) flags) PTE_V) ;;
            incref end_ pa ;;
            let! r := mappages new i PGSIZE pa flags in
            if negb (r =? 0) then
              let! _ := decref end_ pa in
              uvmunmap new 0 (i / PGSIZE) true ;;
              ret (-1)
            else uvmcopy_loop old new (u64 (i + PGSIZE)) sz fuel'
      else ret 0
  end.
Definition uvmcopy (old new sz : Z) : M kstate Z :=
  uvmcopy_loop old new 0 sz (S (Z.to_nat ((sz + PGSIZE - 1) / PGSIZE))).

Definition uvmclear (pagetable va : Z) : M kstate unit :=
  let! pte := walk pagetable va false in
  if pte =? 0 then panic "uvmclear"
  else
    let! v := load pte in
    store pte (Z.land v (Z.lnot PTE_U)).

(** ** Copies between kernel and user memory *)

(** [pte == 0 || !V || !U || !W] *)
Definition not_user_writable (pte v : Z) : bool :=
  (pte =? 0) || negb (bits v PTE_V) || negb (bits v PTE_U) || negb (bits v PTE_W).

(** The part of [copyout] that finds or lazily allocates the page: [None] is
    the return of -1, [Some] is [*pte]. *)
Definition copyout_page (pagetable va0 : Z) : M kstate (option Z) :=
  let! pte := walk pagetable va0 false in
  let! v := load pte in
  if not_user_writable pte v then
    let! m := kalloc in
    if m =? 0 then ret None
    else
      memset_m m 0 PGSIZE ;;
      let! r := mappages pagetable va0 PGSIZE m (Z.lor (Z.lor PTE_W PTE_R) PTE_U) in
      if negb (r =? 0) then kfree end_ m ;; ret None
      else
        let! pte := walk pagetable va0 false in
        let! v := load pte in
        if not_user_writable pte v then ret None else ret (Some v)
  else ret (Some v).

Fixpoint copyout_loop (pagetable dstva : Z) (src : list Z) (fuel : nat) : M kstate Z :=
  match fuel with
  | O => out_of_fuel
  | S fuel' =>
      match src with
      | [] => ret 0
      | _ :: _ =>
          let va0 := PGROUNDDOWN dstva in
          if MAXVA <=? va0 then ret (-1)
          else
            let! o := copyout_page pagetable va0 in
            match o with
            | None => ret (-1)
            | Some v =>
                let pa0 := PTE2PA v in
                let n := Z.to_nat (PGSIZE - (dstva - va0)) in
                put_bytes (pa0 + (dstva - va0)) (take n src) ;;
                copyout_loop pagetable (u64 (va0 + PGSIZE)) (drop n src) fuel'
            end
      end
  end.
Definition copyout (pagetable dstva : Z) (src : list Z) : M kstate Z :=
  copyout_loop pagetable dstva src (S (length src)).

(** [copyin] returns its status and the bytes written to [dst] before it
    returned. *)
Fixpoint copyin_loop (pagetable srcva len : Z) (fuel : nat) : M kstate (Z * list Z) :=
  match fuel with
  | O => out_of_fuel
  | S fuel' =>
      if len <=? 0 then ret (0, [])
      else
        let va0 := PGROUNDDOWN srcva in
        let! pa0 := walkaddr pagetable va0 in
        if pa0 =? 0 then ret (-1, [])
        else
          let n := Z.min (PGSIZE - (srcva - va0)) len in
          let! bs := gets (fun s => ld_bytes (mem s) (pa0 + (srcva - va0)) (Z.to_nat n)) in
          let! (r, rest) := copyin_loop pagetable (u64 (va0 + PGSIZE)) (len - n) fuel' in
          ret (r, bs ++ rest)
  end.
Definition copyin (pagetable srcva len : Z) : M kstate (Z * list Z) :=
  copyin_loop pagetable srcva len (S (Z.to_nat len)).

(** The inner loop of [copyinstr]: copies up to [n] bytes at [p]; returns
    whether a NUL was reached and what was written. *)
Fixpoint copystr_chunk (m : memory) (p : Z) (n : nat) : bool * list Z :=
  match n with
  | O => (false, [])
  | S n' =>
      if ldb m p =? 0 then (true, [0])
      else let '(got, bs) := copystr_chunk m (p + 1) n' in (got, ldb m p :: bs)
  end.
Fixpoint copyinstr_loop (pagetable srcva max : Z) (fuel : nat) : M kstate (Z * list Z) :=
  match fuel with
  | O => out_of_fuel
  | S fuel' =>
      if max <=? 0 then ret (-1, [])
      else
        let va0 := PGROUNDDOWN srcva in
        let! pa0 := walkaddr pagetable va0 in
        if pa0 =? 0 then ret (-1, [])
        else
          let n := Z.min (PGSIZE - (srcva - va0)) max in
          let! (got_null, bs) :=
            gets (fun s => copystr_chunk (mem s) (pa0 + (srcva - va0)) (Z.to_nat n)) in
          if got_null : bool then ret (0, bs)
          else
            let! (r, rest) := copyinstr_loop pagetable (u64 (va0 + PGSIZE)) (max - n) fuel' in
            ret (r, bs ++ rest)
  end.
Definition copyinstr (pagetable srcva max : Z) : M kstate (Z * list Z) :=
  copyinstr_loop pagetable srcva max (S (Z.to_nat max)).
End vm.

(** ** The kernel page table *)

Definition UART0 : Z := 0x10000000.
Definition VIRTIO0 : Z := 0x10001000.
Definition PLIC : Z := 0x0c000000.
Definition NPROC : nat := 64.

Section kvm.
(** Symbols of the linker script: the end of the kernel text, and the page of
    trampoline.S. *)
Context (etext trampoline : Z).

Definition proc_mapstacks (kpgtbl : Z) : M kstate unit :=
  for_each (seq 0 NPROC) (fun p =>
    let! pa := kalloc in
    if pa =? 0 then panic "kalloc"
    else kvmmap kpgtbl (KSTACK (Z.of_nat p)) pa PGSIZE (Z.lor PTE_R PTE_W)).

Definition kvmmake : M kstate Z :=
  let! kpgtbl := kalloc in
  if kpgtbl =? 0 then panic "kerneltrap" (* memset of the null pointer *)
  else
  memset_m kpgtbl 0 PGSIZE ;;
  kvmmap kpgtbl UART0 UART0 PGSIZE (Z.lor PTE_R PTE_W) ;;
  kvmmap kpgtbl VIRTIO0 VIRTIO0 PGSIZE (Z.lor PTE_R PTE_W) ;;
  kvmmap kpgtbl PLIC PLIC 0x4000000 (Z.lor PTE_R PTE_W) ;;
  kvmmap kpgtbl KERNBASE KERNBASE (u64 (etext - KERNBASE)) (Z.lor PTE_R PTE_X) ;;
  kvmmap kpgtbl etext etext (u64 (PHYSTOP - etext)) (Z.lor PTE_R PTE_W) ;;
  kvmmap kpgtbl TRAMPOLINE trampoline PGSIZE (Z.lor PTE_R PTE_X) ;;
  proc_mapstacks kpgtbl ;;
  ret kpgtbl.
End kvm.

(** ** The shape of a page table

    [T] names the pages of a page table by their position in the tree. *)

Inductive tnode := NRoot | N1 (i : Z) | N0 (i j : Z).

#[export] Instance tnode_eq_dec : EqDecision tnode.
Proof. solve_decision. Defined.

Definition ptree := tnode -> option Z.

Definition child (n : tnode) (j : Z) : tnode :=
  match n with NRoot => N1 j | N1 i => N0 i j | N0 i _ => N0 i j end.
Definition inner (n : tnode) : Prop := match n with N0 _ _ => False | _ => True end.
Definition node_ok (n : tnode) : Prop :=
  match n with
  | NRoot => True
  | N1 i => 0 <= i < 512
  | N0 i j => 0 <= i < 512 /\ 0 <= j < 512
  end.

(** The page of level 0 that maps [va], and its PTE (0 when there is none). *)
Definition leaf (va : Z) : tnode := N0 (PX 2 va) (PX 1 va).
Definition pte_addr (T : ptree) (va : Z) : Z :=
  match T (leaf va) with Some p => p + 8 * PX 0 va | None => 0 end.
Definition pte_of (s : kstate) (T : ptree) (va : Z) : Z :=
  match T (leaf va) with Some p => ld64 (mem s) (p + 8 * PX 0 va) | None => 0 end.

Section shape.
Context (end_ : Z) `{PA : !PageAllocator end_}.

Record pt_wf (s : kstate) (root : Z) (T : ptree) : Prop := {
  wf_root : T NRoot = Some root;
  wf_ok : forall n p, T n = Some p -> node_ok n;
  wf_inj : forall n n' p, T n = Some p -> T n' = Some p -> n = n';
  wf_page : forall n p, T n = Some p ->
    bad_pa end_ p = false /\ forall x, page p x -> ~ pa_free s x;
  wf_parent : forall i j p, T (N0 i j) = Some p -> exists q, T (N1 i) = Some q;
  wf_slot : forall n p j, inner n -> T n = Some p -> 0 <= j < 512 ->
    match T (child n j) with
    | Some q => ld64 (mem s) (p + 8 * j) = Z.lor (PA2PTE q) PTE_V
    | None => bits (ld64 (mem s) (p + 8 * j)) PTE_V = false
    end;
}.

(** Addresses inside the pages of [T]. *)
Definition pt_mem (T : ptree) (x : Z) : Prop := exists n p, T n = Some p /\ page p x.
End shape.

(** ** Bits of page-table entries *)

Lemma table_pte q :
  0 <= q < 2 ^ 56 -> q mod PGSIZE = 0 ->
  bits (Z.lor (PA2PTE q) PTE_V) PTE_V = true /\ PTE2PA (Z.lor (PA2PTE q) PTE_V) = q /\
  0 <= Z.lor (PA2PTE q) PTE_V < 2 ^ 64.
Proof.
  intros Hq Hal. destruct (PTE_roundtrip q PTE_V Hq Hal ltac:(done)) as [Hpa _].
  split_and!; try done.
  - unfold bits. rewrite Z.land_comm, Z.lor_comm, Z.land_lor_distr_r.
    change (Z.land PTE_V PTE_V) with 1. apply negb_true_iff, Z.eqb_neq.
    intros H. apply Z.lor_eq_0_iff in H as [H _]. done.
  - apply Z.lor_nonneg. split; [|done]. unfold PA2PTE. apply u64_range.
  - rewrite PA2PTE_eq by done. change PTE_V with 1. rewrite (lor_add_low _ 1 10) by lia. lia.
Qed.

Lemma bits_0 m : bits 0 m = false.
Proof. unfold bits. by rewrite Z.land_0_l. Qed.

Lemma ld64_zero m a : (forall x, a <= x < a + 8 -> m x = 0) -> ld64 m a = 0.
Proof.
  intros H. rewrite (ld64_ext m (fun _ => 0)) by (intros; by rewrite H). reflexivity.
Qed.

Section walk_proofs.
Context (end_ : Z) `{PA : !PageAllocator end_} (Hend : KERNBASE <= end_ <= PHYSTOP).

Lemma bad_pa_range p :
  bad_pa end_ p = false -> p mod PGSIZE = 0 /\ end_ <= p /\ p + PGSIZE <= PHYSTOP /\ 0 < p.
Proof. unfold bad_pa. intros. bool_to_prop. lia. Qed.

Lemma pa2index_inj p q :
  bad_pa end_ p = false -> bad_pa end_ q = false -> pa2index p = pa2index q -> p = q.
Proof.
  intros (? & ? & ? & ?)%bad_pa_range (? & ? & ? & ?)%bad_pa_range.
  rewrite !pa2index_eq by lia. lia.
Qed.

Lemma page_disjoint p q x :
  p mod PGSIZE = 0 -> q mod PGSIZE = 0 -> page p x -> page q x -> p = q.
Proof. unfold page. lia. Qed.

Lemma pt_mem_page T n p x : T n = Some p -> page p x -> pt_mem T x.
Proof. intros. by exists n, p. Qed.

Lemma slot_page p j x : 0 <= j < 512 -> p + 8 * j <= x < p + 8 * j + 8 -> page p x.
Proof. unfold page. lia. Qed.

(** A page table is not affected by what happens outside its pages. *)
Lemma pt_wf_frame s s' root T :
  pt_wf end_ s root T -> (forall x, pt_mem T x -> mem s' x = mem s x) ->
  (forall x, pt_mem T x -> ~ pa_free s' x) -> pt_wf end_ s' root T.
Proof.
  intros [Hr Hok Hinj Hpg Hpar Hsl] Hm Hf. constructor; try done.
  - intros n p Hn. split; [by eapply Hpg|]. intros x Hx. apply Hf. by exists n, p.
  - intros n p j Hi Hn Hj. rewrite (ld64_ext (mem s') (mem s)); [by apply Hsl|].
    intros x Hx. apply Hm. exists n, p. split; [done|]. by eapply slot_page.
Qed.

Lemma pte_of_frame s s' T va :
  (forall x, pt_mem T x -> mem s' x = mem s x) -> pte_of s' T va = pte_of s T va.
Proof.
  intros Hm. unfold pte_of. destruct (T (leaf va)) as [p|] eqn:E; [|done].
  apply ld64_ext. intros x Hx. apply Hm. exists (leaf va), p. split; [done|].
  eapply slot_page; [|done]. by apply PX_range.
Qed.

(** The PTE depends on the page of the address only. *)
Lemma PX_page level va va' :
  0 <= level -> PGROUNDDOWN va = PGROUNDDOWN va' -> PX level va = PX level va'.
Proof.
  intros Hl E. rewrite !PX_eq, !Z.pow_add_r, <- !Z.div_div by lia.
  rewrite !PGROUNDDOWN_eq in E. replace (va / 2 ^ 12) with (va' / 2 ^ 12) by lia. done.
Qed.
Lemma pte_of_page s T va va' :
  PGROUNDDOWN va = PGROUNDDOWN va' -> pte_of s T va = pte_of s T va'.
Proof.
  intros E. unfold pte_of, leaf. by rewrite !(PX_page _ va va') by done.
Qed.

(** The walk down to a level-0 page that exists or not. *)
Lemma walk_loop_0 s p va alloc : walk_loop 0 p va alloc s = Ret (p + 8 * PX 0 va, s).
Proof. done. Qed.

Lemma walk_level s root T n p lvl va q alloc :
  pt_wf end_ s root T -> inner n -> T n = Some p ->
  T (child n (PX (Z.of_nat (S lvl)) va)) = Some q ->
  walk_loop (S lvl) p va alloc s = walk_loop lvl q va alloc s.
Proof.
  intros Hwf Hi Hn Hc. cbn [walk_loop]. unfold bind, load, gets.
  pose proof (wf_slot _ _ _ _ Hwf n p _ Hi Hn (PX_range (Z.of_nat (S lvl)) va ltac:(lia))) as Hs.
  rewrite Hc in Hs. rewrite Hs.
  destruct (wf_page _ _ _ _ Hwf _ _ Hc) as [Hb _]. apply bad_pa_range in Hb as (? & ? & ? & ?).
  destruct (table_pte q) as (-> & -> & _); [lia|done|done].
Qed.

Lemma walk_level_none s root T n p lvl va :
  pt_wf end_ s root T -> inner n -> T n = Some p ->
  T (child n (PX (Z.of_nat (S lvl)) va)) = None ->
  walk_loop (S lvl) p va false s = Ret (0, s).
Proof.
  intros Hwf Hi Hn Hc. cbn [walk_loop]. unfold bind, load, gets.
  pose proof (wf_slot _ _ _ _ Hwf n p _ Hi Hn (PX_range (Z.of_nat (S lvl)) va ltac:(lia))) as Hs.
  rewrite Hc in Hs. by rewrite Hs.
Qed.

(** [walk] without allocation finds the PTE of [va], or returns 0, and changes
    nothing. *)
Lemma walk_spec s root T va :
  pt_wf end_ s root T -> 0 <= va < MAXVA -> walk root va false s = Ret (pte_addr T va, s).
Proof.
  intros Hwf Hva. unfold walk. case_bool; [lia|].
  pose proof (wf_root _ _ _ _ Hwf) as Hr. unfold pte_addr, leaf.
  destruct (T (N1 (PX 2 va))) as [p1|] eqn:E1.
  - rewrite (walk_level s root T NRoot root 1 va p1) by done.
    destruct (T (N0 (PX 2 va) (PX 1 va))) as [p0|] eqn:E0.
    + rewrite (walk_level s root T (N1 (PX 2 va)) p1 0 va p0) by done. done.
    + by rewrite (walk_level_none s root T (N1 (PX 2 va)) p1 0 va) by done.
  - rewrite (walk_level_none s root T NRoot root 1 va) by done.
    destruct (T (N0 (PX 2 va) (PX 1 va))) as [p0|] eqn:E0; [|done].
    apply (wf_parent _ _ _ _ Hwf) in E0 as [? ?]. congruence.
Qed.

(** An existing PTE is found without allocation in any case. *)
Lemma walk_found s root T va alloc :
  pt_wf end_ s root T -> 0 <= va < MAXVA -> T (leaf va) <> None ->
  walk root va alloc s = Ret (pte_addr T va, s).
Proof.
  intros Hwf Hva HT. unfold walk. case_bool; [lia|].
  pose proof (wf_root _ _ _ _ Hwf) as Hr. unfold pte_addr, leaf in *.
  destruct (T (N0 (PX 2 va) (PX 1 va))) as [p0|] eqn:E0; [|done].
  destruct (wf_parent _ _ _ _ Hwf _ _ _ E0) as [p1 E1].
  rewrite (walk_level s root T NRoot root 1 va p1) by done.
  by rewrite (walk_level s root T (N1 (PX 2 va)) p1 0 va p0) by done.
Qed.

Lemma pte_addr_nonzero s root T va :
  pt_wf end_ s root T -> pte_addr T va = 0 <-> T (leaf va) = None.
Proof.
  intros Hwf. unfold pte_addr. destruct (T (leaf va)) as [p|] eqn:E; [|done].
  destruct (wf_page _ _ _ _ Hwf _ _ E) as [Hb _]. apply bad_pa_range in Hb as (_ & _ & _ & ?).
  pose proof (PX_range 0 va ltac:(lia)). split; [lia|done].
Qed.

(** ** Growing a page table *)

(** What an operation on the page table [T] leaves alone: it takes pages only
    from the free ones, and it writes only to these and to [T]'s pages. *)
Record pt_frame (s : kstate) (T : ptree) (s' : kstate) (T' : ptree) : Prop := {
  g_ext : forall n p, T n = Some p -> T' n = Some p;
  g_new : forall n p, T' n = Some p -> T n = Some p \/ (forall x, page p x -> pa_free s x);
  g_free : forall x, pa_free s' x -> pa_free s x;
  g_mem : forall x, ~ pa_free s x -> ~ pt_mem T x -> mem s' x = mem s x;
  g_ref : forall i, ~ pa_free s (KERNBASE + i * PGSIZE) -> refcount s' i = refcount s i;
}.
(** A change of the tree that keeps every PTE. *)
Record pt_grow (s : kstate) (T : ptree) (s' : kstate) (T' : ptree) : Prop := {
  g_frame : pt_frame s T s' T';
  g_pte : forall va, 0 <= va < MAXVA -> pte_of s' T' va = pte_of s T va;
}.

Lemma pt_frame_refl s T : pt_frame s T s T.
Proof. constructor; auto. Qed.
Lemma pt_grow_refl s T : pt_grow s T s T.
Proof. constructor; auto using pt_frame_refl. Qed.

Lemma pt_frame_trans s T s1 T1 s2 T2 :
  pt_frame s T s1 T1 -> pt_frame s1 T1 s2 T2 -> pt_frame s T s2 T2.
Proof.
  intros [He Hn Hf Hm Hr] [He' Hn' Hf' Hm' Hr']. constructor; auto.
  - intros n p [?|Hfr]%Hn'; [auto|right; auto].
  - intros x Hx Hp. rewrite Hm', Hm; auto. intros (n & p & Hnp & Hpx).
    apply Hn in Hnp as [?|Hnp]; [|by apply Hx, Hnp]. apply Hp. by exists n, p.
  - intros i Hi. rewrite Hr', Hr; auto.
Qed.
Lemma pt_grow_trans s T s1 T1 s2 T2 :
  pt_grow s T s1 T1 -> pt_grow s1 T1 s2 T2 -> pt_grow s T s2 T2.
Proof.
  intros [Hf Hp] [Hf' Hp']. constructor; [by eapply pt_frame_trans|].
  intros. by rewrite Hp', Hp.
Qed.

(** A fresh zeroed page [q] hung below node [n] at index [j]: what [walk] does
    after a successful [kalloc] (state [s1]). *)
Section add_table.
Context (s s1 : kstate) (root : Z) (T : ptree) (n : tnode) (p j q : Z).
Context (Hwf : pt_wf end_ s root T) (Hi : inner n) (Hn : T n = Some p)
  (Hj : 0 <= j < 512) (Hc : T (child n j) = None)
  (Hb : bad_pa end_ q = false) (HI1 : pa_inv s1)
  (Hfr : forall x, pa_free s x <-> pa_free s1 x \/ page q x)
  (Hnf : forall x, page q x -> ~ pa_free s1 x)
  (Hm : forall x, ~ pa_free s x -> mem s1 x = mem s x)
  (Hr : refcount s1 = upd (refcount s) (pa2index q) 1).

Definition added : kstate :=
  set_mem (st64 (memset (mem s1) q 0 PGSIZE) (p + 8 * j) (Z.lor (PA2PTE q) PTE_V)) s1.
Definition added_tree : ptree := upd T (child n j) (Some q).

Lemma added_fresh x : page q x -> pa_free s x.
Proof. intros. apply Hfr. by right. Qed.

Lemma added_apart x n' p' : T n' = Some p' -> page p' x -> ~ page q x.
Proof.
  intros Hn' Hx Hq. apply (wf_page _ _ _ _ Hwf _ _ Hn') in Hx. by apply Hx, added_fresh.
Qed.

Lemma in_slot x : ~ page p x -> x < p + 8 * j \/ p + 8 * j + 8 <= x.
Proof.
  intros Hx. destruct (decide (p + 8 * j <= x < p + 8 * j + 8)); [|lia].
  exfalso. apply Hx. by eapply slot_page.
Qed.

Lemma added_mem_other x : ~ page p x -> ~ page q x -> mem added x = mem s1 x.
Proof.
  intros Hxp Hxq. simpl. rewrite st64_other by (by apply in_slot).
  apply memset_other; [done|]. unfold page in Hxq. lia.
Qed.

Lemma added_mem_new x : page q x -> mem added x = 0.
Proof.
  intros Hx. simpl. rewrite st64_other, memset_inside; [done|done|].
  apply in_slot. intros Hp. by eapply added_apart.
Qed.

Lemma added_slot : ld64 (mem added) (p + 8 * j) = Z.lor (PA2PTE q) PTE_V.
Proof.
  pose proof (bad_pa_range q Hb) as (? & ? & ? & ?).
  simpl. rewrite ld_st64_same, u64_id; [done|]. apply table_pte; [lia|done].
Qed.

(** The words of the old tables, the new slot excepted. *)
Lemma added_old n' p' j' :
  T n' = Some p' -> 0 <= j' < 512 -> (n', j') <> (n, j) ->
  ld64 (mem added) (p' + 8 * j') = ld64 (mem s) (p' + 8 * j').
Proof.
  intros Hn' Hj' Hne. destruct (wf_page _ _ _ _ Hwf n' p' Hn') as [Hb' Hf'].
  pose proof (bad_pa_range p' Hb') as (Ha' & _).
  destruct (wf_page _ _ _ _ Hwf n p Hn) as [Hbp _].
  pose proof (bad_pa_range p Hbp) as (Hpa & _).
  apply ld64_ext. intros x Hx. assert (Hxp : page p' x) by (by eapply slot_page).
  pose proof (added_apart x n' p' Hn' Hxp) as Hnq.
  simpl. rewrite st64_other, memset_other; [by apply Hm, Hf'|done|unfold page in Hnq; lia|].
  destruct (decide (p' = p)) as [->|Hpp'].
  - assert (n' = n) as -> by (by eapply (wf_inj _ _ _ _ Hwf)).
    assert (j' <> j) by congruence. lia.
  - apply in_slot. intros Hp. apply Hpp'. by eapply (page_disjoint p' p x).
Qed.

Lemma added_inv : pa_inv added /\ forall x, pa_free added x <-> pa_free s1 x.
Proof.
  apply pa_ext; try done.
  - intros x Hx. apply added_mem_other; [|by intros ?%Hnf].
    intros Hp. apply (wf_page _ _ _ _ Hwf _ _ Hn) in Hp. apply Hp, Hfr. by left.
  - intros. by apply (pa_refr s1).
Qed.

Lemma added_tree_eq n' :
  added_tree n' = if decide (n' = child n j) then Some q else T n'.
Proof. done. Qed.

Lemma child_inj n1 j1 n2 j2 :
  inner n1 -> inner n2 -> child n1 j1 = child n2 j2 -> n1 = n2 /\ j1 = j2.
Proof. destruct n1, n2; simpl; try done; intros _ _ [=]; subst; done. Qed.

Lemma added_wf_slot n' p' j' :
  inner n' -> added_tree n' = Some p' -> 0 <= j' < 512 ->
  match added_tree (child n' j') with
  | Some q' => ld64 (mem added) (p' + 8 * j') = Z.lor (PA2PTE q') PTE_V
  | None => bits (ld64 (mem added) (p' + 8 * j')) PTE_V = false
  end.
Proof.
  intros Hi'. rewrite !added_tree_eq. destruct (decide (n' = child n j)) as [->|Hn'].
  - intros [= <-] Hj'. rewrite decide_False by (destruct n; simpl in *; congruence).
    assert (T (child (child n j) j') = None) as ->.
    { destruct n as [|i|]; [|done|done]. simpl in *.
      destruct (T (N0 j j')) as [?|] eqn:E; [|done].
      apply (wf_parent _ _ _ _ Hwf) in E as [? ?]. congruence. }
    rewrite ld64_zero; [apply bits_0|]. intros x Hx. apply added_mem_new. by eapply slot_page.
  - intros Hn'' Hj'. destruct (decide (child n' j' = child n j)) as [E|E].
    + apply child_inj in E as [-> ->]; [|done..]. assert (p' = p) as -> by congruence.
      apply added_slot.
    + rewrite (added_old n' p' j') by (try done; intros [= -> ->]; done).
      by apply (wf_slot _ _ _ _ Hwf).
Qed.

Lemma added_wf : pt_wf end_ added root added_tree.
Proof.
  constructor.
  - rewrite added_tree_eq, decide_False by (by destruct n). apply (wf_root _ _ _ _ Hwf).
  - intros n' p'. rewrite added_tree_eq. destruct (decide _) as [->|];
      [|apply (wf_ok _ _ _ _ Hwf)].
    pose proof (wf_ok _ _ _ _ Hwf n p Hn). by destruct n.
  - assert (Hqn : forall n', T n' <> Some q).
    { intros n' Hn'. apply (added_apart q n' q Hn'); unfold page; lia. }
    intros n1 n2 p'. rewrite !added_tree_eq.
    destruct (decide (n1 = _)) as [->|], (decide (n2 = _)) as [->|]; intros H1 H2.
    + done.
    + rewrite <- H1 in H2. by apply Hqn in H2.
    + rewrite <- H2 in H1. by apply Hqn in H1.
    + by eapply (wf_inj _ _ _ _ Hwf).
  - intros n' p'. rewrite added_tree_eq. destruct added_inv as [_ Hfr2].
    setoid_rewrite Hfr2. case_decide.
    + by intros [= <-].
    + intros Hn'. destruct (wf_page _ _ _ _ Hwf n' p' Hn') as [? Hf']. split; [done|].
      intros x Hx Hfx. apply (Hf' x Hx), Hfr. by left.
  - intros i' j' p'. rewrite !added_tree_eq.
    destruct (decide (N1 i' = child n j)); [by eauto|].
    destruct (decide (N0 i' j' = child n j)) as [E|]; [|apply (wf_parent _ _ _ _ Hwf)].
    intros _. destruct n as [|i|]; [done| |done]. injection E as -> ->. eauto.
  - apply added_wf_slot.
Qed.

Lemma added_grow : pt_grow s T added added_tree.
Proof.
  pose proof (bad_pa_range q Hb) as (? & ? & ? & ?). constructor; [constructor|].
  - intros n' p' Hn'. rewrite added_tree_eq. case_decide; [congruence|done].
  - intros n' p'. rewrite added_tree_eq. case_decide; [|by left].
    intros [= <-]. right. apply added_fresh.
  - intros x Hx%added_inv. apply Hfr. by left.
  - intros x Hx Hpt. rewrite added_mem_other; [by apply Hm| |by intros ?%added_fresh].
    intros ?. apply Hpt. by exists n, p.
  - intros i Hfi. simpl. rewrite Hr. upd_cases i (pa2index q); [|done]. exfalso.
    apply Hfi, added_fresh. rewrite pa2index_eq by lia. unfold page. lia.
  - intros va Hva. unfold pte_of. rewrite added_tree_eq. case_decide as E.
    + rewrite <- E in Hc. rewrite Hc. apply ld64_zero. intros x Hx. apply added_mem_new.
      eapply slot_page; [|done]. apply PX_range. lia.
    + destruct (T (leaf va)) as [p0|] eqn:E0; [|done].
      apply (added_old (leaf va)); [done|apply PX_range; lia|]. intros [= E1 _].
      rewrite <- E1 in Hi. done.
Qed.
End add_table.

(** *** walk with allocation *)

(** The page of level [lvl] on the way to [va]. *)
Definition path (lvl : nat) (va : Z) : tnode :=
  match lvl with O => leaf va | S O => N1 (PX 2 va) | _ => NRoot end.

Lemma path_child lvl va :
  (lvl <= 1)%nat -> child (path (S lvl) va) (PX (Z.of_nat (S lvl)) va) = path lvl va.
Proof. destruct lvl as [|[|]]; [done..|lia]. Qed.
Lemma path_inner lvl va : inner (path (S lvl) va).
Proof. by destruct lvl. Qed.

(** The post-condition of a walk from state [s] and tree [T]; [need] free pages
    are enough. *)
Definition walked (s : kstate) (root : Z) (T : ptree) (need : nat) (va a : Z) (s' : kstate) : Prop :=
  (forall m, avail s (m + need) -> a <> 0 /\ avail s' m) /\ exists T', pa_inv s' /\ pt_wf end_ s' root T' /\ pt_grow s T s' T' /\
    ((a = 0 /\ forall x, ~ pa_free s' x) \/
     exists p, T' (leaf va) = Some p /\ a = p + 8 * PX 0 va).

Lemma walk_loop_alloc s root T lvl p va :
  (lvl <= 2)%nat -> pa_inv s -> pt_wf end_ s root T -> T (path lvl va) = Some p ->
  wp (walk_loop lvl p va true) (walked s root T lvl va) s.
Proof.
  intros Hl HI Hwf Hp. revert s T p HI Hwf Hp.
  induction lvl as [|lvl IH]; intros s T p HI Hwf Hp.
  { pose proof (bad_pa_range p (proj1 (wf_page _ _ _ _ Hwf _ _ Hp))) as (_ & _ & _ & ?).
    pose proof (PX_range 0 va ltac:(lia)). split.
    - intros m Hm. rewrite Nat.add_0_r in Hm. split; [lia|done].
    - exists T. split_and!; eauto using pt_grow_refl. }
  pose proof (path_child lvl va ltac:(lia)) as Hpc.
  pose proof (PX_range (Z.of_nat (S lvl)) va ltac:(lia)) as HPX.
  destruct (T (path lvl va)) as [q|] eqn:E.
  { unfold wp. rewrite (walk_level s root T (path (S lvl) va) p lvl va q);
      [|done|apply path_inner|done|by rewrite Hpc].
    eapply wp_mono; [apply (IH ltac:(lia) s T q); done|]. intros a s' [Hav Hpost]. split; [|done].
    intros m Hm. apply Hav. eapply avail_le; [done|lia]. }
  cbn [walk_loop]. unfold load. wp_step. wp_step. wp_step; simpl negb; cbv iota.
  { pose proof (wf_slot _ _ _ _ Hwf _ _ _ (path_inner _ _) Hp HPX) as Hs.
    rewrite Hpc, E in Hs. congruence. }
  wp_step. eapply wp_mono; [by apply pa_alloc|].
  intros q s1 [(-> & -> & Hno)|(Hb & HI1 & Hfr & Hnf & _ & Hm & Hr)]; cbv beta.
  { simpl. wp_step. split; [|exists T; split_and!; eauto using pt_grow_refl].
    intros m Hm. rewrite Nat.add_succ_r in Hm. by apply avail_none in Hm. }
  pose proof (bad_pa_range q Hb) as (? & _ & _ & ?). case_bool; [lia|].
  unfold memset_m, store. do 4 wp_step. rewrite <- Hpc in E.
  pose proof (added_wf s s1 root T _ p _ q Hwf (path_inner _ _) Hp HPX E Hb HI1 Hfr Hnf Hm) as Hwf2.
  pose proof (added_grow s s1 root T _ p _ q Hwf (path_inner _ _) Hp HPX E Hb HI1 Hfr Hnf Hm Hr) as Hg.
  pose proof (added_inv s s1 root T _ p _ q Hwf Hp HPX HI1 Hfr Hnf) as [HI2 Hfr2].
  eapply wp_mono; [apply (IH ltac:(lia) _ _ q HI2 Hwf2)|].
  - rewrite added_tree_eq, Hpc. by rewrite decide_True.
  - intros a s' (Hav & T' & HI' & Hwf' & Hg' & Ha). split.
    + intros m' Hm'. apply Hav. eapply avail_ext; [done|]. eapply avail_taken; [done|done|].
      by rewrite <- Nat.add_succ_r.
    + exists T'. split_and!; try done. by eapply pt_grow_trans.
Qed.

Lemma walk_alloc s root T va :
  pa_inv s -> pt_wf end_ s root T -> 0 <= va < MAXVA ->
  wp (walk root va true) (walked s root T 2 va) s.
Proof.
  intros HI Hwf Hva. unfold walk. case_bool; [lia|].
  apply walk_loop_alloc; [lia|done|done|]. apply (wf_root _ _ _ _ Hwf).
Qed.

(** *** Writing one PTE *)

Definition set_pte (s : kstate) (T : ptree) (va v : Z) : kstate :=
  set_mem (st64 (mem s) (pte_addr T va) v) s.

Definition same_page (va va' : Z) : bool := PGROUNDDOWN va =? PGROUNDDOWN va'.

Lemma set_pte_mem s T va v x :
  T (leaf va) <> None -> ~ pt_mem T x -> mem (set_pte s T va v) x = mem s x.
Proof.
  intros HT Hx. simpl. unfold pte_addr. destruct (T (leaf va)) as [p|] eqn:E; [|done].
  pose proof (PX_range 0 va ltac:(lia)) as HPX. apply st64_other.
  destruct (decide (p + 8 * PX 0 va <= x < p + 8 * PX 0 va + 8)); [|lia].
  exfalso. apply Hx. exists (leaf va), p. split; [done|]. by eapply slot_page.
Qed.

Lemma set_pte_same s T va v :
  T (leaf va) <> None -> 0 <= v < 2 ^ 64 -> pte_of (set_pte s T va v) T va = v.
Proof.
  intros HT Hv. unfold pte_of, set_pte, pte_addr. destruct (T (leaf va)) as [p|]; [|done].
  simpl. by rewrite ld_st64_same, u64_id.
Qed.

(** The words of the table other than the PTE of [va]. *)
Lemma set_pte_word s root T va v n p j :
  pt_wf end_ s root T -> T n = Some p -> 0 <= j < 512 -> (n, j) <> (leaf va, PX 0 va) ->
  T (leaf va) <> None ->
  ld64 (mem (set_pte s T va v)) (p + 8 * j) = ld64 (mem s) (p + 8 * j).
Proof.
  intros Hwf Hn Hj Hne HT. simpl. unfold pte_addr.
  destruct (T (leaf va)) as [p0|] eqn:E; [|done]. apply ld_st64_other.
  pose proof (PX_range 0 va ltac:(lia)) as HPX.
  destruct (wf_page _ _ _ _ Hwf _ _ Hn) as [Hb _].
  destruct (wf_page _ _ _ _ Hwf _ _ E) as [Hb0 _].
  apply bad_pa_range in Hb as (Ha & _), Hb0 as (Ha0 & _).
  destruct (decide (p = p0)) as [->|Hpp]; [|lia].
  assert (n = leaf va) as -> by (by eapply (wf_inj _ _ _ _ Hwf)).
  assert (j <> PX 0 va) by congruence. lia.
Qed.

Lemma set_pte_other s root T va va' v :
  pt_wf end_ s root T -> T (leaf va) <> None -> 0 <= va < MAXVA -> 0 <= va' < MAXVA ->
  same_page va va' = false ->
  pte_of (set_pte s T va v) T va' = pte_of s T va'.
Proof.
  intros Hwf HT Hva Hva' Hne. unfold pte_of at 1 2.
  destruct (T (leaf va')) as [p'|] eqn:E; [|done].
  apply (set_pte_word s root T va v (leaf va')); try done; [by apply PX_range|].
  unfold leaf. intros [= H2 H1 H0]. unfold same_page in Hne. bool_to_prop.
  apply Hne. by apply PX_inj.
Qed.

Lemma set_pte_wf s root T va v :
  pa_inv s -> pt_wf end_ s root T -> T (leaf va) <> None ->
  pa_inv (set_pte s T va v) /\ (forall x, pa_free (set_pte s T va v) x <-> pa_free s x) /\
  pt_wf end_ (set_pte s T va v) root T.
Proof.
  intros HI Hwf HT.
  destruct (pa_ext s (set_pte s T va v)) as [HI' Hfr]; try done.
  { intros x Hx. apply set_pte_mem; [done|]. intros (n & p & Hn & Hp).
    by apply (wf_page _ _ _ _ Hwf _ _ Hn) in Hp. }
  { intros. by apply (pa_refr s). }
  split_and!; try done. pose proof Hwf as [Hr Hok Hinj Hpg Hpar Hsl].
  constructor; try done.
  - intros n p Hn. destruct (Hpg n p Hn) as [? Hf]. split; [done|]. intros x Hx.
    rewrite Hfr. by apply Hf.
  - intros n p j Hi Hn Hj. rewrite (set_pte_word s root T va v n) by (try done; intros [= -> _]; done).
    by apply Hsl.
Qed.

Lemma set_pte_frame s root T va v :
  pa_inv s -> pt_wf end_ s root T -> T (leaf va) <> None ->
  pt_frame s T (set_pte s T va v) T.
Proof.
  intros HI Hwf HT. destruct (set_pte_wf s root T va v) as (_ & Hfr & _); try done.
  constructor; auto.
  - intros x. by rewrite Hfr.
  - intros x _ Hx. by apply set_pte_mem.
Qed.

(** *** mappages *)

Definition leaf_pte (pa perm : Z) : Z := Z.lor (Z.lor (PA2PTE pa) perm) PTE_V.

Lemma leaf_pte_spec pa perm :
  0 <= pa < 2 ^ 56 -> pa mod PGSIZE = 0 -> 0 <= perm < 1024 ->
  bits (leaf_pte pa perm) PTE_V = true /\ PTE2PA (leaf_pte pa perm) = pa /\
  PTE_FLAGS (leaf_pte pa perm) = Z.lor perm PTE_V /\ 0 <= leaf_pte pa perm < 2 ^ 64.
Proof.
  intros Hpa Hal Hp. unfold leaf_pte. rewrite <- Z.lor_assoc.
  assert (Hlor : 0 <= Z.lor perm PTE_V < 1024) by (apply (lor_range _ _ 10); [lia|lia|done]).
  destruct (PTE_roundtrip pa (Z.lor perm PTE_V)) as [H1 H2]; try done.
  split_and!; try done.
  - unfold bits. rewrite Z.land_lor_distr_l, Z.land_lor_distr_l.
    change (Z.land PTE_V PTE_V) with 1. apply negb_true_iff, Z.eqb_neq.
    intros H. by apply Z.lor_eq_0_iff in H as [_ [_ ?]%Z.lor_eq_0_iff].
  - apply Z.lor_nonneg. split; [unfold PA2PTE; apply u64_range|lia].
  - rewrite PA2PTE_eq by done. rewrite (lor_add_low _ _ 10) by lia. lia.
Qed.

(** The PTEs after [k] pages from [va] have been mapped to those from [pa]. *)
Definition map_range (f : Z -> Z) (va k pa perm va' : Z) : Z :=
  if (va <=? va') && (va' <? va + k * PGSIZE)
  then leaf_pte (pa + (PGROUNDDOWN va' - va)) perm else f va'.

Definition mapped (s : kstate) (root : Z) (T : ptree) (va n pa perm r : Z) (s' : kstate) : Prop :=
  (forall m, avail s (m + 2 * Z.to_nat n) -> r = 0 /\ avail s' m) /\
  exists k T', pa_inv s' /\ pt_wf end_ s' root T' /\ pt_frame s T s' T' /\
    (r = 0 /\ k = n \/ r = -1 /\ 0 <= k < n /\ forall x, ~ pa_free s' x) /\
    forall va', 0 <= va' < MAXVA ->
      pte_of s' T' va' = map_range (pte_of s T) va k pa perm va'.

Lemma map_range_0 f va pa perm va' : map_range f va 0 pa perm va' = f va'.
Proof. unfold map_range. case_bool; [lia|done]. Qed.

(** One page, then the rest. *)
Lemma map_range_S f g va k pa perm va' :
  0 <= k -> va mod PGSIZE = 0 ->
  g va' = (if same_page va va' then leaf_pte pa perm else f va') ->
  map_range g (va + PGSIZE) k (pa + PGSIZE) perm va' = map_range f va (k + 1) pa perm va'.
Proof.
  intros Hk Hal Hg. unfold map_range. rewrite Hg. unfold same_page.
  pose proof (PGROUNDDOWN_spec va') as [? ?]. pose proof (PGROUNDDOWN_spec va) as [? ?].
  assert (PGROUNDDOWN va = va) as -> by lia.
  destruct (Z.eqb_spec va (PGROUNDDOWN va')) as [E|E].
  - destruct ((va + PGSIZE <=? va') && _) eqn:E1; [lia|].
    destruct ((va <=? va') && _) eqn:E2; [|lia]. f_equal. lia.
  - destruct ((va + PGSIZE <=? va') && _) eqn:E1, ((va <=? va') && _) eqn:E2; try lia.
    f_equal. lia.
Qed.

(** The body of the loop of [mappages] before the test of [last]. *)
Definition map_page (root va pa perm : Z) : M kstate bool :=
  let! pte := walk root va true in
  if pte =? 0 then ret false
  else
    let! v := load pte in
    if bits v PTE_V then panic "mappages: remap"
    else store pte (leaf_pte pa perm) ;; ret true.

Lemma mappages_loop_S root a last pa perm fuel :
  mappages_loop root a last pa perm (S fuel) =
  (let! ok := map_page root a pa perm in
   if ok : bool then
     if a =? last then ret 0
     else mappages_loop root (u64 (a + PGSIZE)) last (u64 (pa + PGSIZE)) perm fuel
   else ret (-1)).
Proof.
  apply functional_extensionality. intros s. cbn [mappages_loop].
  unfold map_page, bind, load, store, gets, modify, ret, panic.
  destruct (walk root a true s) as [[pte s1]| | |]; [|done..].
  destruct (pte =? 0); [done|]. by destruct (bits _ _).
Qed.

Lemma map_page_inv s root T va pa perm :
  pa_inv s -> pt_wf end_ s root T -> 0 <= va < MAXVA ->
  0 <= pa < 2 ^ 56 -> pa mod PGSIZE = 0 -> 0 <= perm < 1024 ->
  bits (pte_of s T va) PTE_V = false ->
  wp (map_page root va pa perm) (fun ok s' =>
    (forall m, avail s (m + 2) -> ok = true /\ avail s' m) /\ exists T', pa_inv s' /\ pt_wf end_ s' root T' /\ pt_frame s T s' T' /\
      if ok : bool then
        forall va', 0 <= va' < MAXVA ->
          pte_of s' T' va' = if same_page va va' then leaf_pte pa perm else pte_of s T va'
      else (forall x, ~ pa_free s' x) /\
        forall va', 0 <= va' < MAXVA -> pte_of s' T' va' = pte_of s T va') s.
Proof.
  intros HI Hwf Hva Hpa Hal Hperm Hun. unfold map_page. wp_step.
  eapply wp_mono; [by apply (walk_alloc s root T va)|].
  intros a s1 (Hav & T1 & HI1 & Hwf1 & [Hf1 Hp1] & [[-> Hno]|(p & Hp & Ha)]).
  { simpl. wp_step. split; [|exists T1; by split_and!]. by intros m [? _]%Hav. }
  assert (HT : T1 (leaf va) <> None) by congruence.
  assert (Hpa' : pte_addr T1 va = a) by (unfold pte_addr; by rewrite Hp).
  assert (Hpv : ld64 (mem s1) a = pte_of s T va)
    by (rewrite <- Hp1 by lia; unfold pte_of; by rewrite Hp, Ha).
  pose proof (pte_addr_nonzero s1 root T1 va Hwf1) as Hnz.
  case_bool; [exfalso; apply HT, Hnz; lia|].
  unfold load, store. do 2 wp_step. rewrite Hpv, Hun. do 3 wp_step.
  destruct (leaf_pte_spec pa perm) as (_ & _ & _ & Hr); [done..|].
  rewrite <- Hpa'. change (set_mem _ _) with (set_pte s1 T1 va (leaf_pte pa perm)).
  destruct (set_pte_wf s1 root T1 va (leaf_pte pa perm)) as (HI2 & Hfr2 & Hwf2); try done.
  split; [intros m Hm%Hav; split; [done|by eapply avail_ext, Hm]|].
  exists T1. split_and!; try done.
  - eapply pt_frame_trans; [done|]. by eapply set_pte_frame.
  - intros va' Hva'. destruct (same_page va va') eqn:E.
    + unfold same_page in E. bool_to_prop. rewrite (pte_of_page _ _ va' va) by done.
      by apply set_pte_same.
    + rewrite (set_pte_other s1 root) by done. auto.
Qed.

Lemma mappages_loop_inv n : forall s root T va pa perm,
  pa_inv s -> pt_wf end_ s root T ->
  va mod PGSIZE = 0 -> 0 <= va -> va + Z.of_nat (S n) * PGSIZE <= MAXVA ->
  pa mod PGSIZE = 0 -> 0 <= pa -> pa + Z.of_nat (S n) * PGSIZE <= 2 ^ 56 -> 0 <= perm < 1024 ->
  (forall va', va <= va' < va + Z.of_nat (S n) * PGSIZE -> bits (pte_of s T va') PTE_V = false) ->
  wp (mappages_loop root va (va + Z.of_nat n * PGSIZE) pa perm (S n))
     (mapped s root T va (Z.of_nat (S n)) pa perm) s.
Proof.
  assert (HMAX : MAXVA = 2 ^ 38) by done.
  induction n as [|n IH]; intros s root T va pa perm HI Hwf Hal Hva Hmax Hpal Hpa Hpmax Hperm Hun;
    rewrite mappages_loop_S; wp_step;
    (eapply wp_mono; [apply (map_page_inv s root T va pa perm); auto; try lia; apply Hun; lia|]);
    intros [|] s1 (Hav & T1 & HI1 & Hwf1 & Hf1 & Hp1); cbv beta iota;
    try (destruct Hp1 as [Hno Hp1]; wp_step; split;
         [intros m Hm; destruct (Hav m) as [? _]; [eapply avail_le; [exact Hm|lia]|done]|];
         exists 0, T1; split_and!; auto;
         [right; split_and!; auto; lia|intros; rewrite map_range_0; auto]).
  - rewrite (proj2 (Z.eqb_eq _ _)) by lia. wp_step.
    split; [by intros m Hm; split; [done|]; apply Hav|]. exists 1, T1. split_and!; auto.
    intros va' Hva'. change 1 with (0 + 1).
    by rewrite <- (map_range_S _ _ va 0 pa perm va' ltac:(lia) Hal (Hp1 va' Hva')), map_range_0.
  - rewrite (proj2 (Z.eqb_neq _ _)), !u64_id by lia.
    replace (va + Z.of_nat (S n) * PGSIZE) with (va + PGSIZE + Z.of_nat n * PGSIZE) by lia.
    eapply wp_mono; [apply (IH s1 root T1); auto; try lia|].
    { intros va' Hva'. rewrite Hp1 by lia. unfold same_page.
      pose proof (PGROUNDDOWN_spec va') as [? ?]. pose proof (PGROUNDDOWN_spec va) as [? ?].
      destruct (Z.eqb_spec (PGROUNDDOWN va) (PGROUNDDOWN va')); [lia|]. apply Hun. lia. }
    intros r s2 (Hav2 & k & T2 & HI2 & Hwf2 & Hf2 & Hr & Hp2). split.
    { intros m Hm. apply Hav2, Hav. eapply avail_le; [done|lia]. }
    assert (0 <= k) by (destruct Hr as [[_ ->]|(_ & ? & _)]; lia).
    exists (k + 1), T2. split_and!; auto.
    + by eapply pt_frame_trans.
    + destruct Hr as [[-> ->]|(-> & ? & ?)]; [left|right; split_and!; auto]; lia.
    + intros va' Hva'. rewrite Hp2 by done. by apply map_range_S, Hp1.
Qed.

Lemma mappages_inv s root T va n pa perm :
  pa_inv s -> pt_wf end_ s root T -> 0 < n ->
  va mod PGSIZE = 0 -> 0 <= va -> va + n * PGSIZE <= MAXVA ->
  pa mod PGSIZE = 0 -> 0 <= pa -> pa + n * PGSIZE <= 2 ^ 56 -> 0 <= perm < 1024 ->
  (forall va', va <= va' < va + n * PGSIZE -> bits (pte_of s T va') PTE_V = false) ->
  wp (mappages root va (n * PGSIZE) pa perm) (mapped s root T va n pa perm) s.
Proof.
  intros HI Hwf Hn Hal Hva Hmax Hpal Hpa Hpmax Hperm Hun. unfold mappages.
  assert (HMAX : MAXVA = 2 ^ 38) by done.
  rewrite Hal. rewrite (Z.mod_mul n PGSIZE) by done. rewrite (Z.div_mul n PGSIZE) by done.
  simpl negb. cbv iota. case_bool; [lia|].
  rewrite u64_id by lia.
  destruct (Z.to_nat n) as [|m] eqn:E; [lia|]. assert (n = Z.of_nat (S m)) as -> by lia.
  replace (va + Z.of_nat (S m) * PGSIZE - PGSIZE) with (va + Z.of_nat m * PGSIZE) by lia.
  by apply mappages_loop_inv.
Qed.

(** A single page. *)
Lemma mappages_one s root T va pa perm :
  pa_inv s -> pt_wf end_ s root T -> va mod PGSIZE = 0 -> 0 <= va < MAXVA ->
  pa mod PGSIZE = 0 -> 0 <= pa < PHYSTOP -> 0 <= perm < 1024 ->
  bits (pte_of s T va) PTE_V = false ->
  wp (mappages root va PGSIZE pa perm) (mapped s root T va 1 pa perm) s.
Proof.
  intros HI Hwf Hal Hva Hpal Hpa Hperm Hun.
  assert (HMAX : MAXVA = 2 ^ 38) by done.
  change PGSIZE with (1 * PGSIZE) at 1. apply mappages_inv; try done; try lia.
  intros va' Hva'. rewrite (pte_of_page s T va' va); [done|]. rewrite !PGROUNDDOWN_eq. lia.
Qed.

(** Mapping a page that is mapped already. *)
Lemma mappages_remap s root T va pa perm :
  pt_wf end_ s root T -> va mod PGSIZE = 0 -> 0 <= va < MAXVA ->
  bits (pte_of s T va) PTE_V = true ->
  mappages root va PGSIZE pa perm s = Panic "mappages: remap".
Proof.
  intros Hwf Hal Hva Hv. unfold mappages. rewrite Hal.
  change (PGSIZE mod PGSIZE =? 0) with true. change (PGSIZE =? 0) with false. cbn [negb Z.eqb].
  assert (HT : T (leaf va) <> None) by (intros E; revert Hv; unfold pte_of; by rewrite E).
  change (Z.to_nat (PGSIZE / PGSIZE)) with 1%nat. rewrite mappages_loop_S.
  apply bind_panic_eq. unfold map_page.
  rewrite (bind_ret_eq _ _ _ _ _ (walk_found s root T va true Hwf Hva HT)).
  rewrite (proj2 (Z.eqb_neq _ _)) by (by rewrite (pte_addr_nonzero s root)).
  unfold load. erewrite bind_ret_eq by done.
  replace (ld64 (mem s) (pte_addr T va)) with (pte_of s T va)
    by (unfold pte_addr, pte_of; by destruct (T (leaf va))).
  by rewrite Hv.
Qed.

(** *** An empty page table *)

Definition empty_tree (root : Z) : ptree := upd (fun _ => None) NRoot (Some root).

Lemma empty_tree_eq root n p : empty_tree root n = Some p -> n = NRoot /\ p = root.
Proof. unfold empty_tree. upd_cases n NRoot; [|done]. by intros [= ->]. Qed.

Lemma empty_pte s root va : pte_of s (empty_tree root) va = 0.
Proof. done. Qed.

Lemma uvmcreate_inv s :
  pa_inv s ->
  wp uvmcreate (fun root s' =>
    (root = 0 /\ s' = s /\ forall x, ~ pa_free s x) \/
    (bad_pa end_ root = false /\ pa_inv s' /\ pt_wf end_ s' root (empty_tree root) /\
     (forall x, pa_free s x <-> pa_free s' x \/ page root x) /\
     (forall x, ~ pa_free s x -> mem s' x = mem s x) /\
     refcount s' = upd (refcount s) (pa2index root) 1)) s.
Proof.
  intros HI. unfold uvmcreate. wp_step. eapply wp_mono; [by apply pa_alloc|].
  intros q s1 [(-> & -> & Hno)|(Hb & HI1 & Hfr & Hnf & _ & Hm & Hr)]; cbv beta.
  { simpl. wp_step. by left. }
  pose proof (bad_pa_range q Hb) as (? & ? & ? & ?). case_bool; [lia|].
  unfold memset_m. do 3 wp_step. right.
  assert (Hother : forall x, ~ page q x -> memset (mem s1) q 0 PGSIZE x = mem s1 x).
  { intros x Hx. apply memset_other; [done|]. unfold page in Hx. lia. }
  destruct (pa_ext s1 (set_mem (memset (mem s1) q 0 PGSIZE) s1)) as [HI2 Hfr2]; try done.
  { intros x Hx. apply Hother. by intros ?%Hnf. }
  { intros. by apply (pa_refr s1). }
  split_and!; try done.
  - constructor; try done.
    + by intros n p [-> ->]%empty_tree_eq.
    + by intros n n' p [-> ->]%empty_tree_eq [-> _]%empty_tree_eq.
    + intros n p [-> ->]%empty_tree_eq. split; [done|]. intros x Hx. rewrite Hfr2. by apply Hnf.
    + intros n p j Hi [-> ->]%empty_tree_eq Hj. simpl. rewrite ld64_zero; [done|].
      intros x Hx. simpl. apply memset_inside. lia.
  - intros x. rewrite Hfr, Hfr2. done.
  - intros x Hx. simpl. rewrite Hother; [auto|]. intros Hp. apply Hx, Hfr. by right.
Qed.
End walk_proofs.

(** ** Properties *)

(** C22: on a well-formed page table whose [n] pages from [va] are not
    mapped, [mappages] either maps exactly those pages to the [n] physical
    pages from [pa] with the given permissions and returns 0, or runs out of
    memory and returns -1 with a prefix of [k < n] pages mapped; with [2 n]
    free pages it succeeds.  In both cases
    the page table stays well formed, every other PTE is unchanged, and memory
    outside the page table and the pages that were free is not written. *)
Theorem mappages_correct end_ `{PA : !PageAllocator end_} s root T va n pa perm :
  KERNBASE <= end_ <= PHYSTOP -> pa_inv s -> pt_wf end_ s root T -> 0 < n ->
  va mod PGSIZE = 0 -> 0 <= va -> va + n * PGSIZE <= MAXVA ->
  pa mod PGSIZE = 0 -> 0 <= pa -> pa + n * PGSIZE <= 2 ^ 56 -> 0 <= perm < 1024 ->
  (forall va', va <= va' < va + n * PGSIZE -> bits (pte_of s T va') PTE_V = false) ->
  wp (mappages root va (n * PGSIZE) pa perm) (fun r s' =>
    (avail s (2 * Z.to_nat n) -> r = 0) /\
    exists k T', pa_inv s' /\ pt_wf end_ s' root T' /\
      (r = 0 /\ k = n \/ r = -1 /\ 0 <= k < n /\ forall x, ~ pa_free s' x) /\
      (forall va', 0 <= va' < MAXVA -> pte_of s' T' va' =
         if (va <=? va') && (va' <? va + k * PGSIZE)
         then Z.lor (Z.lor (PA2PTE (pa + (PGROUNDDOWN va' - va))) perm) PTE_V
         else pte_of s T va') /\
      (forall x, ~ pa_free s x -> ~ pt_mem T x -> mem s' x = mem s x)) s.
Proof.
  intros Hend HI Hwf Hn Hal Hva Hmax Hpal Hpa Hpmax Hperm Hun.
  eapply wp_mono; [by apply (mappages_inv end_ Hend s root T)|].
  intros r s' (Hav & k & T' & HI' & Hwf' & Hf & Hr & Hpte). split.
  { intros Ha. by apply (Hav O). }
  exists k, T'. split_and!; try done. apply (g_mem _ _ _ _ _ Hf).
Qed.

(** A page table with nothing mapped, in the memory after boot. *)
Lemma boot_table : exists s root,
  @pa_inv boot_end (buddy_allocator boot_end boot_end_ok) s /\
  @pt_wf boot_end (buddy_allocator boot_end boot_end_ok) s root (empty_tree root) /\
  @avail boot_end (buddy_allocator boot_end boot_end_ok) s 100.
Proof.
  destruct boot_state as (s & L & HI & _ & Hfr).
  assert (Hall : forall x, boot_end <= x < PHYSTOP -> buddy_free_set boot_end s x).
  { intros x Hx. exists L. split; [done|]. by apply Hfr. }
  assert (Hav : @avail boot_end (buddy_allocator boot_end boot_end_ok) s 101).
  { exists ((fun i => boot_end + i * PGSIZE) <$> seqZ 0 101). split_and!.
    - apply NoDup_fmap_2; [intros i j; lia|apply NoDup_seqZ].
    - by rewrite length_fmap, length_seqZ.
    - intros p (i & -> & Hi)%list_elem_of_fmap. apply elem_of_seqZ in Hi.
      split; [unfold boot_end; lia|]. intros x Hx. apply Hall. unfold page in Hx.
      unfold boot_end in *. lia. }
  pose proof (@uvmcreate_inv boot_end (buddy_allocator boot_end boot_end_ok) boot_end_ok s
    ltac:(by exists L)) as Hw.
  destruct (proj1 (wp_returns _ _ _) Hw) as (root & s' & _ & [(_ & _ & Hno)|(Hb & HI' & Hwf & Hfr' & _)]).
  { exfalso. by apply avail_none in Hav. }
  exists s', root. apply (bad_pa_range boot_end boot_end_ok) in Hb as (? & ? & ? & _).
  split_and!; try done. by eapply avail_taken.
Qed.

Lemma mappages_correct_witness : exists s root,
  wp (mappages root PGSIZE (2 * PGSIZE) boot_end (Z.lor PTE_R PTE_U)) (fun r _ => r = 0) s.
Proof.
  destruct boot_table as (s & root & HI & Hwf & Hav). exists s, root.
  eapply wp_mono.
  - apply (@mappages_correct boot_end (buddy_allocator boot_end boot_end_ok) s root
      (empty_tree root) PGSIZE 2 boot_end (Z.lor PTE_R PTE_U) boot_end_ok HI Hwf);
      try (vm_compute; intuition congruence).
  - intros r s' [Hr _]. apply Hr. eapply avail_le; [exact Hav|vm_compute; lia].
Defined.
