(* ===== verification/Uvm.v ===== *)
(** * User address spaces (kernel/vm.c)

    The theorems on unmapping, copy-on-write duplication and teardown of user
    address spaces, and on the copies between kernel and user memory.  They
    are proved for any [PageAllocator]; the buddy allocator of Kalloc.v is one. *)

From S2P Require Import Prelude Riscv KString Kalloc Vm.

Definition valid (v : Z) : bool := bits v PTE_V.

Section user_space.
Context (end_ : Z) `{PA : !PageAllocator end_} (Hend : KERNBASE <= end_ <= PHYSTOP).

(** The PTEs of [lo, hi) map the page [pa]. *)
Definition maps (s : kstate) (T : ptree) (lo hi pa : Z) : Prop :=
  exists va, lo <= va < hi /\ valid (pte_of s T va) = true /\ PTE2PA (pte_of s T va) = pa.

(** The mapped pages of [lo, hi): leaves that map distinct, referenced pages
    which are neither free nor part of the page table. *)
Record space_ok (s : kstate) (T : ptree) (lo hi : Z) : Prop := {
  sp_leaf : forall va, lo <= va < hi -> valid (pte_of s T va) = true ->
    PTE_FLAGS (pte_of s T va) <> PTE_V;
  sp_page : forall pa, maps s T lo hi pa -> bad_pa end_ pa = false /\
    0 < refcount s (pa2index pa) < 256 /\
    forall x, page pa x -> ~ pa_free s x /\ ~ pt_mem T x;
  sp_inj : forall va va', lo <= va < hi -> lo <= va' < hi ->
    valid (pte_of s T va) = true -> valid (pte_of s T va') = true ->
    PTE2PA (pte_of s T va) = PTE2PA (pte_of s T va') -> same_page va va' = true;
}.

(** The range [lo, hi) is unmapped: every page it mapped lost one reference,
    and the pages that lost their last one are free. *)
Record unmapped (s : kstate) (T : ptree) (lo hi : Z) (s' : kstate) : Prop := {
  um_pte : forall va, 0 <= va < MAXVA -> pte_of s' T va =
    if (lo <=? va) && (va <? hi) && valid (pte_of s T va) then 0 else pte_of s T va;
  um_ref : forall pa, maps s T lo hi pa ->
    refcount s' (pa2index pa) = refcount s (pa2index pa) - 1;
  um_ref_other : forall pa, bad_pa end_ pa = false -> ~ maps s T lo hi pa ->
    refcount s' (pa2index pa) = refcount s (pa2index pa);
  um_free : forall x, pa_free s' x <-> pa_free s x \/
    exists pa, maps s T lo hi pa /\ refcount s (pa2index pa) = 1 /\ page pa x;
  um_mem : forall x, ~ pa_free s' x -> ~ pt_mem T x -> mem s' x = mem s x;
}.

Lemma maps_split s T lo mid hi pa :
  lo <= mid <= hi -> maps s T lo hi pa <-> maps s T lo mid pa \/ maps s T mid hi pa.
Proof.
  intros Hm. split.
  - intros (va & Hva & Hv). destruct (decide (va < mid)); [left|right]; exists va; split; auto; lia.
  - intros [(va & Hva & Hv)|(va & Hva & Hv)]; exists va; split; auto; lia.
Qed.

(** The part of the space above [mid] after the part below has been
    unmapped. *)
Section after.
Context (s s1 : kstate) (T : ptree) (lo mid hi : Z).
Context (Hok : space_ok s T lo hi) (Hm : lo <= mid <= hi) (H0 : 0 <= lo) (Hhi : hi <= MAXVA)
  (Hal : mid mod PGSIZE = 0) (Hum : unmapped s T lo mid s1).

Lemma after_pte va : mid <= va < hi -> pte_of s1 T va = pte_of s T va.
Proof.
  intros Hva. rewrite (um_pte _ _ _ _ _ Hum) by lia.
  destruct ((lo <=? va) && (va <? mid)) eqn:E; [lia|done].
Qed.

Lemma after_maps pa : maps s1 T mid hi pa <-> maps s T mid hi pa.
Proof.
  split; intros (va & Hva & Hv); exists va; (split; [done|]);
    [rewrite <- after_pte by done|rewrite after_pte by done]; done.
Qed.

Lemma after_distinct pa : maps s T lo mid pa -> maps s T mid hi pa -> False.
Proof.
  intros (va & Hva & Hv & Hp) (va' & Hva' & Hv' & Hp').
  pose proof (sp_inj _ _ _ _ Hok va va' ltac:(lia) ltac:(lia) Hv Hv' ltac:(congruence)) as E.
  unfold same_page in E. bool_to_prop.
  pose proof (PGROUNDDOWN_spec va) as [? ?]. pose proof (PGROUNDDOWN_spec va') as [? ?]. lia.
Qed.

Lemma after_page pa : maps s T mid hi pa ->
  refcount s1 (pa2index pa) = refcount s (pa2index pa) /\
  forall x, page pa x -> ~ pa_free s1 x.
Proof.
  intros Hpa. pose proof (proj2 (maps_split s T lo mid hi pa Hm) (or_intror Hpa)) as Hpa'.
  destruct (sp_page _ _ _ _ Hok pa Hpa') as (Hb & _ & Hx). split.
  - apply (um_ref_other _ _ _ _ _ Hum); [done|]. intros H. by eapply after_distinct.
  - intros x Hpx [Hf|(pa' & Hpa1 & _ & Hpx')]%(um_free _ _ _ _ _ Hum).
    { by destruct (Hx x Hpx). }
    assert (pa = pa') as <-; [|by eapply after_distinct].
    pose proof (proj2 (maps_split s T lo mid hi pa' Hm) (or_introl Hpa1)) as Hpa1'.
    destruct (sp_page _ _ _ _ Hok pa' Hpa1') as (Hb' & _ & _).
    apply (bad_pa_range end_ Hend) in Hb as (? & _), Hb' as (? & _). by eapply page_disjoint.
Qed.

Lemma after_ok : space_ok s1 T mid hi.
Proof.
  constructor.
  - intros va Hva. rewrite after_pte by done. apply (sp_leaf _ _ _ _ Hok). lia.
  - intros pa Hpa%after_maps. destruct (after_page pa Hpa) as [-> Hnf].
    pose proof (proj2 (maps_split s T lo mid hi pa Hm) (or_intror Hpa)) as Hpa'.
    destruct (sp_page _ _ _ _ Hok pa Hpa') as (Hb & Hr & Hx).
    split_and!; try lia; [done|]. intros x Hpx. split; [by apply Hnf|by apply Hx].
  - intros va va' Hva Hva'. rewrite !after_pte by done. apply (sp_inj _ _ _ _ Hok); lia.
Qed.

Lemma unmapped_trans s2 : unmapped s1 T mid hi s2 -> unmapped s T lo hi s2.
Proof.
  intros Hum2. constructor.
  - intros va Hva. rewrite (um_pte _ _ _ _ _ Hum2), (um_pte _ _ _ _ _ Hum) by lia.
    destruct ((lo <=? va) && (va <? mid)) eqn:E1, ((mid <=? va) && (va <? hi)) eqn:E2,
      ((lo <=? va) && (va <? hi)) eqn:E3; try lia; simpl;
      destruct (valid (pte_of s T va)); done.
  - intros pa [Hpa|Hpa]%(maps_split s T lo mid hi pa Hm).
    + pose proof (proj2 (maps_split s T lo mid hi pa Hm) (or_introl Hpa)) as Hpa'.
      destruct (sp_page _ _ _ _ Hok pa Hpa') as (Hb & _).
      rewrite (um_ref_other _ _ _ _ _ Hum2), (um_ref _ _ _ _ _ Hum) by
        (try done; rewrite after_maps; intros ?; by eapply after_distinct). done.
    + rewrite (um_ref _ _ _ _ _ Hum2) by (by rewrite after_maps).
      by destruct (after_page pa Hpa) as [-> _].
  - intros pa Hb Hn. rewrite (maps_split s T lo mid hi pa Hm) in Hn.
    rewrite (um_ref_other _ _ _ _ _ Hum2), (um_ref_other _ _ _ _ _ Hum)
      by (rewrite ?after_maps; tauto). done.
  - intros x. rewrite (um_free _ _ _ _ _ Hum2), (um_free _ _ _ _ _ Hum). split.
    + intros [[Hf|(pa & Hpa & Hr)]|(pa & Hpa%after_maps & Hr)]; [by left|right; exists pa..];
        rewrite (maps_split s T lo mid hi pa Hm); [by split; auto|].
      destruct (after_page pa Hpa) as [E _]. rewrite E in Hr. by split; auto.
    + intros [Hf|(pa & Hpa & Hr)]; [by left; left|].
      apply (maps_split s T lo mid hi pa Hm) in Hpa as [Hpa|Hpa].
      * left. right. by exists pa.
      * right. exists pa. rewrite after_maps. by destruct (after_page pa Hpa) as [-> _].
  - intros x Hx Hpt. rewrite (um_mem _ _ _ _ _ Hum2), (um_mem _ _ _ _ _ Hum); try done.
    intros Hf. apply Hx, (um_free _ _ _ _ _ Hum2). by left.
Qed.
End after.

(** *** uvmunmap *)

Lemma unmapped_nothing s T lo hi :
  (forall va, lo <= va < hi -> valid (pte_of s T va) = false) -> unmapped s T lo hi s.
Proof.
  intros Hn. assert (Hm : forall pa, ~ maps s T lo hi pa).
  { intros pa (va & Hva & Hv & _). rewrite Hn in Hv by done. done. }
  constructor; try done.
  - intros va _. destruct ((lo <=? va) && (va <? hi)) eqn:E; [|done]. rewrite Hn by lia. done.
  - intros pa Hpa. by apply Hm in Hpa.
  - intros x. split; [by left|]. intros [?|(pa & Hpa & _)]; [done|by apply Hm in Hpa].
Qed.

(** The page [va] is mapped: its page loses a reference and its PTE is
    cleared. *)
Lemma unmapped_one s root T va s1 :
  pa_inv s1 -> pt_wf end_ s1 root T -> T (leaf va) <> None -> va mod PGSIZE = 0 ->
  0 <= va < MAXVA -> (forall va', pte_of s1 T va' = pte_of s T va') ->
  let pa := PTE2PA (pte_of s T va) in
  bad_pa end_ pa = false -> valid (pte_of s T va) = true ->
  refcount s1 = upd (refcount s) (pa2index pa) (refcount s (pa2index pa) - 1) ->
  (forall x, pa_free s1 x <-> pa_free s x \/ (refcount s (pa2index pa) = 1 /\ page pa x)) ->
  (forall x, ~ pa_free s1 x -> mem s1 x = mem s x) ->
  unmapped s T va (va + PGSIZE) (set_pte s1 T va 0).
Proof.
  intros HI1 Hwf1 HT Hal Hva Hpte pa Hb Hv Hr Hfr Hm.
  destruct (set_pte_wf end_ Hend s1 root T va 0) as (_ & Hfr2 & _); try done.
  assert (Hsame : forall va', va <= va' < va + PGSIZE -> PGROUNDDOWN va' = PGROUNDDOWN va).
  { intros va' ?. rewrite !PGROUNDDOWN_eq. lia. }
  assert (Hmaps : forall pa', maps s T va (va + PGSIZE) pa' <-> pa' = pa).
  { intros pa'. split.
    - intros (va' & Hva' & _ & <-). by rewrite (pte_of_page s T va' va) by auto.
    - intros ->. exists va. split_and!; [lia|lia|done|done]. }
  pose proof (bad_pa_range end_ Hend pa Hb) as (? & ? & ? & ?).
  constructor.
  - intros va' Hva'. destruct ((va <=? va') && (va' <? va + PGSIZE)) eqn:E.
    + assert (Hs : PGROUNDDOWN va' = PGROUNDDOWN va) by (apply Hsame; lia).
      rewrite !(pte_of_page _ T va' va) by done. rewrite Hv. simpl.
      by apply set_pte_same.
    + rewrite (set_pte_other end_ Hend s1 root) by (try done; unfold same_page;
        rewrite !PGROUNDDOWN_eq; lia). simpl. apply Hpte.
  - intros pa' ->%Hmaps. simpl. by rewrite Hr, upd_same.
  - intros pa' Hb' Hne. rewrite Hmaps in Hne. simpl. rewrite Hr.
    apply (bad_pa_range end_ Hend) in Hb' as (? & ? & ? & ?).
    rewrite upd_other; [done|]. rewrite !pa2index_eq by lia. lia.
  - intros x. rewrite Hfr2, Hfr. split.
    + intros [?|[? ?]]; [by left|]. right. exists pa. by rewrite Hmaps.
    + intros [?|(pa' & ->%Hmaps & ?)]; [by left|by right].
  - intros x. rewrite Hfr2. intros Hx Hpt. rewrite set_pte_mem by done. by apply Hm.
Qed.

Lemma unmap_page_inv s root T va :
  pa_inv s -> pt_wf end_ s root T -> va mod PGSIZE = 0 -> 0 <= va < MAXVA ->
  space_ok s T va (va + PGSIZE) ->
  wp (unmap_page end_ root va true)
     (fun _ s' => pa_inv s' /\ pt_wf end_ s' root T /\ unmapped s T va (va + PGSIZE) s') s.
Proof.
  intros HI Hwf Hal Hva Hok. unfold unmap_page. wp_step.
  apply wp_returns. eexists _, _. split; [by eapply walk_spec|].
  assert (Hsame : forall va', va <= va' < va + PGSIZE -> pte_of s T va' = pte_of s T va).
  { intros va' ?. apply pte_of_page. rewrite !PGROUNDDOWN_eq. lia. }
  destruct (T (leaf va)) as [p|] eqn:HT.
  2:{ rewrite (proj2 (pte_addr_nonzero end_ Hend s root T va Hwf) HT). simpl. wp_step.
      split_and!; try done. apply unmapped_nothing. intros va' Hva'.
      rewrite Hsame by done. unfold pte_of. by rewrite HT. }
  assert (HT' : T (leaf va) <> None) by congruence.
  pose proof (pte_addr_nonzero end_ Hend s root T va Hwf) as Hnz.
  case_bool; [exfalso; tauto|]. unfold load. do 2 wp_step.
  assert (ld64 (mem s) (pte_addr T va) = pte_of s T va) as ->
    by (unfold pte_addr, pte_of; by rewrite HT).
  fold (valid (pte_of s T va)). destruct (valid (pte_of s T va)) eqn:Hv; simpl.
  2:{ wp_step. split_and!; try done. apply unmapped_nothing. intros va' Hva'.
      by rewrite Hsame. }
  case_bool; [exfalso; eapply (sp_leaf _ _ _ _ Hok va); [lia|done|done]|].
  destruct (sp_page _ _ _ _ Hok (PTE2PA (pte_of s T va))) as (Hb & Hr & Hx).
  { exists va. split_and!; [lia|lia|done|done]. }
  pose proof (bad_pa_range end_ Hend _ Hb) as (? & ? & ? & ?).
  wp_step. eapply wp_mono; [apply drop_page_inv; try done; [lia|]|].
  { apply Hx. unfold page. lia. }
  intros ? s1 (HI1 & Hr1 & Hfr1 & Hm1). unfold store. wp_step.
  change (set_mem _ _) with (set_pte s1 T va 0).
  assert (Hnf : forall x, pt_mem T x -> ~ pa_free s1 x).
  { intros x Hpt [Hf|[_ Hp]]%Hfr1; [|by apply Hx in Hp as [_ ?]].
    destruct Hpt as (n & q & Hn & Hq). by apply (wf_page _ _ _ _ Hwf _ _ Hn) in Hq. }
  assert (Hwf1 : pt_wf end_ s1 root T) by (eapply pt_wf_frame; eauto).
  destruct (set_pte_wf end_ Hend s1 root T va 0) as (HI2 & _ & Hwf2); try done.
  split_and!; try done. eapply unmapped_one; eauto.
  intros va'. apply pte_of_frame. eauto.
Qed.

Lemma uvmunmap_loop_inv n : forall s root T lo,
  pa_inv s -> pt_wf end_ s root T -> lo mod PGSIZE = 0 -> 0 <= lo ->
  lo + Z.of_nat n * PGSIZE <= MAXVA -> space_ok s T lo (lo + Z.of_nat n * PGSIZE) ->
  wp (uvmunmap_loop end_ root lo (lo + Z.of_nat n * PGSIZE) true (S n))
     (fun _ s' => pa_inv s' /\ pt_wf end_ s' root T /\
        unmapped s T lo (lo + Z.of_nat n * PGSIZE) s') s.
Proof.
  assert (HMAX : MAXVA = 2 ^ 38) by done.
  induction n as [|n IH]; intros s root T lo HI Hwf Hal Hlo Hhi Hok;
    change (uvmunmap_loop end_ root lo ?l true (S ?m)) with
      (if lo <? l then unmap_page end_ root lo true ;;
         uvmunmap_loop end_ root (u64 (lo + PGSIZE)) l true m else ret tt).
  { case_bool; [lia|]. wp_step. split_and!; try done. apply unmapped_nothing. lia. }
  case_bool; [|lia]. wp_step. eapply wp_mono.
  { apply (unmap_page_inv s root T lo); try done; [lia|].
    destruct Hok as [Hl Hp Hi]. constructor.
    - intros; apply Hl; [lia|done].
    - intros pa (va & ? & ?). apply Hp. exists va. split; [lia|done].
    - intros; apply Hi; (lia || done). }
  intros ? s1 (HI1 & Hwf1 & Hum). rewrite u64_id by lia.
  replace (lo + Z.of_nat (S n) * PGSIZE) with (lo + PGSIZE + Z.of_nat n * PGSIZE) in * by lia.
  eapply wp_mono; [apply (IH s1 root T (lo + PGSIZE)); try done; [lia..|]|].
  { eapply (after_ok s s1 T lo (lo + PGSIZE)); try done; lia. }
  intros ? s2 (HI2 & Hwf2 & Hum2). split_and!; try done.
  eapply (unmapped_trans s s1 T lo (lo + PGSIZE)); try done; lia.
Qed.

Lemma uvmunmap_inv s root T va n :
  pa_inv s -> pt_wf end_ s root T -> va mod PGSIZE = 0 -> 0 <= va -> 0 <= n ->
  va + n * PGSIZE <= MAXVA -> space_ok s T va (va + n * PGSIZE) ->
  wp (uvmunmap end_ root va n true)
     (fun _ s' => pa_inv s' /\ pt_wf end_ s' root T /\ unmapped s T va (va + n * PGSIZE) s') s.
Proof.
  intros HI Hwf Hal Hva Hn Hhi Hok. unfold uvmunmap. rewrite Hal. simpl negb. cbv iota.
  assert (HMAX : MAXVA = 2 ^ 38) by done. rewrite u64_id by lia.
  replace n with (Z.of_nat (Z.to_nat n)) in * by lia. rewrite Nat2Z.id.
  by apply uvmunmap_loop_inv.
Qed.

(** *** uvmcopy *)

(** The PTE that parent and child get for the parent's [v]. *)
Definition cow_flags (v : Z) : Z := Z.lor (Z.land (PTE_FLAGS v) (Z.lnot PTE_W)) PTE_COW.
Definition cow (v : Z) : Z := leaf_pte (PTE2PA v) (cow_flags v).

Lemma PTE_FLAGS_range v : 0 <= PTE_FLAGS v < 1024.
Proof.
  unfold PTE_FLAGS. change 0x3FF with (2 ^ 10 - 1). rewrite land_ones_mod by done. lia.
Qed.

Lemma cow_flags_range v : 0 <= cow_flags v < 1024.
Proof.
  apply (lor_range _ _ 10); [done| |done]. unfold PTE_FLAGS.
  rewrite <- Z.land_assoc, (Z.land_comm 0x3FF), Z.land_assoc.
  change 0x3FF with (2 ^ 10 - 1). rewrite land_ones_mod by done. lia.
Qed.

Section uvmcopy.
Context (s : kstate) (root : Z) (T : ptree) (root' : Z) (T' : ptree) (hi : Z).
Context (HI : pa_inv s) (Hwf : pt_wf end_ s root T) (Hwf' : pt_wf end_ s root' T')
  (Hdis : forall x, pt_mem T x -> ~ pt_mem T' x) (Hok : space_ok s T 0 hi)
  (Hsep : forall pa x, maps s T 0 hi pa -> page pa x -> ~ pt_mem T' x)
  (Hcnt : forall pa, maps s T 0 hi pa -> refcount s (pa2index pa) < 255)
  (Hnew : forall va, 0 <= va < hi -> pte_of s T' va = 0)
  (Hhi : hi <= MAXVA).

(** The pages below [i] are shared; those below [io] are marked in the
    parent. *)
Record copied (io i : Z) (s' : kstate) (T'' : ptree) : Prop := {
  cp_inv : pa_inv s';
  cp_wf : pt_wf end_ s' root T;
  cp_wf' : pt_wf end_ s' root' T'';
  cp_old : forall va, 0 <= va < MAXVA -> pte_of s' T va =
    if (va <? io) && valid (pte_of s T va) then cow (pte_of s T va) else pte_of s T va;
  cp_new : forall va, 0 <= va < MAXVA -> pte_of s' T'' va =
    if (va <? i) && valid (pte_of s T va) then cow (pte_of s T va) else pte_of s T' va;
  cp_mem : forall x, ~ pa_free s x -> ~ pt_mem T x -> ~ pt_mem T' x -> mem s' x = mem s x;
  cp_free : forall x, pa_free s' x -> pa_free s x;
  cp_tree : forall n p, T'' n = Some p -> T' n = Some p \/ (forall x, page p x -> pa_free s x);
}.

(** The reference counts when the pages below [i] are shared. *)
Record refs_up (i : Z) (s' : kstate) : Prop := {
  cp_ref : forall pa, maps s T 0 i pa ->
    refcount s' (pa2index pa) = refcount s (pa2index pa) + 1;
  cp_ref_other : forall pa, bad_pa end_ pa = false -> ~ pa_free s pa -> ~ maps s T 0 i pa ->
    refcount s' (pa2index pa) = refcount s (pa2index pa);
}.

Lemma copied_start : copied 0 0 s T' /\ refs_up 0 s.
Proof.
  split; constructor; try done; auto.
  - intros va Hva. case_bool; [lia|done].
  - intros va Hva. case_bool; [lia|done].
  - intros pa (va & ? & _). lia.
Qed.

(** The pages of the child's table are apart from the parent's and from every
    page that was not free. *)
Lemma copied_new_page io i s' T'' x :
  copied io i s' T'' -> pt_mem T'' x -> pt_mem T' x \/ pa_free s x.
Proof.
  intros Hc (n & p & Hn & Hp). apply (cp_tree _ _ _ _ Hc) in Hn as [Hn|Hn]; [|by right; apply Hn].
  left. by exists n, p.
Qed.
Lemma copied_dis io i s' T'' x : copied io i s' T'' -> pt_mem T x -> ~ pt_mem T'' x.
Proof.
  intros Hc Hx [Hx'|Hf]%(copied_new_page io i s' T'' x Hc); [by eapply Hdis|].
  destruct Hx as (n & p & Hn & Hp). by apply (wf_page _ _ _ _ Hwf _ _ Hn) in Hp.
Qed.
Lemma mapped_page va :
  0 <= va < hi -> valid (pte_of s T va) = true ->
  let pa := PTE2PA (pte_of s T va) in
  maps s T 0 hi pa /\ bad_pa end_ pa = false /\
  0 < refcount s (pa2index pa) < 255 /\
  forall x, page pa x -> ~ pa_free s x /\ ~ pt_mem T x /\ ~ pt_mem T' x.
Proof.
  intros Hva Hv pa. assert (Hm : maps s T 0 hi pa) by (by exists va).
  destruct (sp_page _ _ _ _ Hok pa Hm) as (Hb & Hr & Hx). pose proof (Hcnt pa Hm).
  split_and!; try done; try lia. intros x Hp. destruct (Hx x Hp). eauto.
Qed.

Lemma cow_spec va :
  0 <= va < hi -> valid (pte_of s T va) = true ->
  valid (cow (pte_of s T va)) = true /\ PTE2PA (cow (pte_of s T va)) = PTE2PA (pte_of s T va) /\
  PTE_FLAGS (cow (pte_of s T va)) <> PTE_V /\ 0 <= cow (pte_of s T va) < 2 ^ 64.
Proof.
  intros Hva Hv. destruct (mapped_page va Hva Hv) as (_ & Hb & _).
  apply (bad_pa_range end_ Hend) in Hb as (? & ? & ? & ?).
  destruct (leaf_pte_spec (PTE2PA (pte_of s T va)) (cow_flags (pte_of s T va))) as (E1 & E2 & E3 & E4);
    [lia|done|apply cow_flags_range|].
  unfold cow. split_and!; try done; try lia. rewrite E3. intros E.
  apply (f_equal (fun v => Z.testbit v 8)) in E. unfold cow_flags in E.
  rewrite !Z.lor_spec in E. change (Z.testbit PTE_COW 8) with true in E.
  rewrite orb_true_r in E. done.
Qed.

(** The page at [i], between the pages below and those above. *)
Section page_i.
Context (i : Z) (Hal : i mod PGSIZE = 0) (Hi0 : 0 <= i) (Hi : i + PGSIZE <= hi).

Lemma page_i va : i <= va < i + PGSIZE -> pte_of s T va = pte_of s T i.
Proof. intros. apply pte_of_page. rewrite !PGROUNDDOWN_eq. lia. Qed.

Lemma maps_next pa : maps s T 0 (i + PGSIZE) pa <->
  maps s T 0 i pa \/ (valid (pte_of s T i) = true /\ PTE2PA (pte_of s T i) = pa).
Proof.
  rewrite (maps_split s T 0 i) by lia. split; (intros [?|Hm]; [by left|right]).
  - destruct Hm as (va & Hva & Hv). by rewrite page_i in Hv.
  - exists i. split; [lia|done].
Qed.

Lemma maps_i_new : valid (pte_of s T i) = true -> ~ maps s T 0 i (PTE2PA (pte_of s T i)).
Proof.
  intros Hv (va & Hva & Hv' & E).
  pose proof (sp_inj _ _ _ _ Hok va i ltac:(lia) ltac:(lia) Hv' Hv E) as Hs.
  unfold same_page in Hs. rewrite !PGROUNDDOWN_eq in Hs. lia.
Qed.

Lemma copied_skip s1 T1 :
  valid (pte_of s T i) = false -> copied i i s1 T1 /\ refs_up i s1 ->
  copied (i + PGSIZE) (i + PGSIZE) s1 T1 /\ refs_up (i + PGSIZE) s1.
Proof.
  intros Hv [[] [Hr Hro]]. assert (Hpg : forall va, (va <? i + PGSIZE) && valid (pte_of s T va) =
    (va <? i) && valid (pte_of s T va)).
  { intros va. destruct (va <? i) eqn:?, (va <? i + PGSIZE) eqn:?; try done; [lia|].
    rewrite page_i by lia. by rewrite Hv. }
  split; constructor; auto.
  - intros va Hva. rewrite Hpg. auto.
  - intros va Hva. rewrite Hpg. auto.
  - intros pa [?|[? _]]%maps_next; [auto|congruence].
  - intros pa ? ? Hm. rewrite maps_next in Hm. apply Hro; tauto.
Qed.

Section valid_i.
Context (Hv : valid (pte_of s T i) = true).
Let v : Z := pte_of s T i.
Let pa : Z := PTE2PA v.

Lemma leaf_i : T (leaf i) <> None.
Proof. intros E. revert Hv. unfold pte_of. by rewrite E. Qed.

(** The store to the parent's PTE. *)
Lemma copied_mark s1 T1 :
  copied i i s1 T1 /\ refs_up i s1 ->
  copied (i + PGSIZE) i (set_pte s1 T i (cow v)) T1 /\ refs_up i (set_pte s1 T i (cow v)).
Proof.
  intros [Hc Hr]. pose proof Hc as [HI1 Hwf1 Hwf1' Hold Hnw Hmem Hfree Htree].
  destruct (set_pte_wf end_ Hend s1 root T i (cow v)) as (HI2 & Hfr2 & Hwf2); [done..|apply leaf_i|].
  assert (Hm2 : forall x, ~ pt_mem T x -> mem (set_pte s1 T i (cow v)) x = mem s1 x)
    by (intros; apply set_pte_mem; [apply leaf_i|done]).
  assert (Hm2' : forall x, pt_mem T1 x -> mem (set_pte s1 T i (cow v)) x = mem s1 x).
  { intros x Hx. apply Hm2. intros Hx'. by eapply copied_dis. }
  split; [constructor; auto|by destruct Hr; constructor].
  - eapply pt_wf_frame; [done|done|]. intros x (n & p & Hn & Hp). rewrite Hfr2.
    by apply (wf_page _ _ _ _ Hwf1' _ _ Hn).
  - intros va Hva. destruct (same_page i va) eqn:E.
    + unfold same_page in E. bool_to_prop. rewrite (pte_of_page _ _ va i), (pte_of_page s _ va i) by done.
      rewrite set_pte_same; [|apply leaf_i|apply cow_spec; [lia|done]].
      rewrite !PGROUNDDOWN_eq in E. rewrite Hv. case_bool; [done|lia].
    + rewrite (set_pte_other end_ Hend s1 root) by (done || apply leaf_i || lia).
      rewrite Hold by done. unfold same_page in E. rewrite !PGROUNDDOWN_eq in E.
      destruct (va <? i) eqn:?, (va <? i + PGSIZE) eqn:?; try done; lia.
  - intros va Hva. rewrite (pte_of_frame s1) by done. auto.
  - intros x ? ? ?. rewrite Hm2 by done. auto.
  - intros x. rewrite Hfr2. auto.
Qed.

Lemma page_i_facts :
  bad_pa end_ pa = false /\ 0 < refcount s (pa2index pa) < 255 /\
  ~ pa_free s pa /\ ~ maps s T 0 i pa /\ 0 <= pa < 2 ^ 56 /\ pa mod PGSIZE = 0.
Proof.
  destruct (mapped_page i ltac:(lia) Hv) as (_ & Hb & Hr & Hx). fold v pa in Hb, Hr, Hx.
  pose proof (bad_pa_range end_ Hend _ Hb) as (? & ? & ? & ?).
  split_and!; try done; try lia; [|apply maps_i_new; done].
  apply (Hx pa). unfold page. lia.
Qed.

Lemma refs_incref s1 :
  refs_up i s1 -> 0 < refcount s1 (pa2index pa) < 255 /\
    refs_up (i + PGSIZE) (set_ref (pa2index pa) (refcount s1 (pa2index pa) + 1) s1).
Proof.
  intros [Hr Hro]. destruct page_i_facts as (Hb & Hc & Hnf & Hnm & _).
  rewrite (Hro pa) by done. split; [done|]. constructor; simpl; rewrite u8_id by lia.
  - intros p [Hp|[_ <-]]%maps_next; [|by rewrite upd_same].
    rewrite upd_other; [auto|]. intros E. apply Hnm.
    destruct (sp_page _ _ _ _ Hok p) as (Hbp & _); [apply (maps_split s T 0 i); [lia|by left]|].
    by rewrite <- (pa2index_inj end_ Hend p pa).
  - intros p Hbp Hf Hm. rewrite maps_next in Hm. rewrite upd_other; [apply Hro; tauto|].
    intros E. apply Hm. right. split; [done|]. by apply (pa2index_inj end_ Hend).
Qed.

Lemma refs_decref s1 :
  refs_up (i + PGSIZE) s1 -> 0 < refcount s1 (pa2index pa) < 256 /\
    refs_up i (set_ref (pa2index pa) (refcount s1 (pa2index pa) - 1) s1).
Proof.
  intros [Hr Hro]. destruct page_i_facts as (Hb & Hc & Hnf & Hnm & _).
  rewrite (Hr pa) by (apply maps_next; right; done).
  split; [lia|]. constructor; simpl; rewrite u8_id by lia.
  - intros p Hp. rewrite upd_other; [apply Hr, maps_next; by left|]. intros E. apply Hnm.
    destruct (sp_page _ _ _ _ Hok p) as (Hbp & _); [apply (maps_split s T 0 i); [lia|by left]|].
    by rewrite <- (pa2index_inj end_ Hend p pa).
  - intros p Hbp Hf Hm. destruct (decide (p = pa)) as [->|Hne]; [rewrite upd_same; lia|].
    rewrite upd_other by (intros E; by apply Hne, (pa2index_inj end_ Hend)).
    apply Hro; try done. rewrite maps_next. intros [?|[_ <-]]; [|apply Hne]; done.
Qed.

Lemma copied_ref io j s1 T1 w :
  copied io j s1 T1 -> 0 <= w < 256 -> copied io j (set_ref (pa2index pa) w s1) T1.
Proof.
  intros Hc Hw. pose proof Hc as [HI1 Hwf1 Hwf1' Hold Hnw Hmem Hfree Htree].
  destruct page_i_facts as (Hb & _ & Hnf & _).
  destruct (set_ref_client end_ s1 pa w) as [HI2 Hfr]; auto; [lia|].
  constructor; auto.
  - eapply pt_wf_frame; [done|done|]. intros x (n & p & Hn & Hp). rewrite Hfr.
    by apply (wf_page _ _ _ _ Hwf1 _ _ Hn).
  - eapply pt_wf_frame; [done|done|]. intros x (n & p & Hn & Hp). rewrite Hfr.
    by apply (wf_page _ _ _ _ Hwf1' _ _ Hn).
  - intros x. rewrite Hfr. auto.
Qed.

(** The call of [mappages] for the child. *)
Lemma copied_mapped s1 T1 r s2 :
  copied (i + PGSIZE) i s1 T1 -> refs_up (i + PGSIZE) s1 ->
  mapped end_ s1 root' T1 i 1 pa (cow_flags v) r s2 ->
  refs_up (i + PGSIZE) s2 /\
  (r = 0 /\ exists T2, copied (i + PGSIZE) (i + PGSIZE) s2 T2) \/
  refs_up (i + PGSIZE) s2 /\ (r = -1 /\ exists T2, copied (i + PGSIZE) i s2 T2).
Proof.
  intros Hc Hr (_ & k & T2 & HI2 & Hwf2 & Hf & Hk & Hpte).
  pose proof Hc as [HI1 Hwf1 Hwf1' Hold Hnw Hmem Hfree Htree].
  assert (HmT : forall x, pt_mem T x -> mem s2 x = mem s1 x).
  { intros x Hx. apply (g_mem _ _ _ _ _ Hf); [|by eapply copied_dis].
    destruct Hx as (n & p & Hn & Hp). by apply (wf_page _ _ _ _ Hwf1 _ _ Hn). }
  assert (Hrest : forall j, (forall va, 0 <= va < MAXVA -> pte_of s2 T2 va =
      if (va <? j) && valid (pte_of s T va) then cow (pte_of s T va) else pte_of s T' va) ->
      copied (i + PGSIZE) j s2 T2).
  { intros j Hj. constructor; auto.
    - eapply pt_wf_frame; [done|done|]. intros x (n & p & Hn & Hp) Hx.
      apply (wf_page _ _ _ _ Hwf1 _ _ Hn) in Hp. by apply Hp, (g_free _ _ _ _ _ Hf).
    - intros va Hva. rewrite (pte_of_frame s1) by done. auto.
    - intros x Hx HxT HxT'. rewrite (g_mem _ _ _ _ _ Hf); auto.
      intros [?|?]%(copied_new_page _ _ _ _ _ Hc); done.
    - intros x Hx. by apply Hfree, (g_free _ _ _ _ _ Hf).
    - intros n p [Hn|Hn]%(g_new _ _ _ _ _ Hf); [auto|]. right. intros x Hx. auto. }
  assert (Hrefs : refs_up (i + PGSIZE) s2).
  { assert (Hkeep : forall p, bad_pa end_ p = false -> ~ pa_free s p ->
        refcount s2 (pa2index p) = refcount s1 (pa2index p)).
    { intros p Hb Hnf. apply (g_ref _ _ _ _ _ Hf). intros Hfr%Hfree. apply Hnf.
      apply (bad_pa_range end_ Hend) in Hb as (? & ? & ? & ?). rewrite pa2index_eq in Hfr by lia.
      by replace (KERNBASE + (p - KERNBASE) / PGSIZE * PGSIZE) with p in Hfr by lia. }
    destruct Hr as [Hr Hro]. constructor.
    - intros p Hp. destruct (sp_page _ _ _ _ Hok p) as (Hbp & _ & Hx);
        [apply (maps_split s T 0 (i + PGSIZE)); [lia|by left]|].
      rewrite Hkeep; auto. apply (Hx p). unfold page. lia.
    - intros p Hb Hnf Hm. rewrite Hkeep; auto. }
  destruct Hk as [[-> ->]|(-> & Hk & _)]; [left|right]; split_and!; try done; exists T2; apply Hrest;
    intros va Hva; rewrite Hpte by done; unfold map_range; rewrite Hnw by done.
  - destruct (va <? i) eqn:E1, (va <? i + PGSIZE) eqn:E2, ((i <=? va) && (va <? i + 1 * PGSIZE)) eqn:E3;
      try lia; try done.
    simpl. rewrite page_i, Hv by lia. unfold cow. f_equal. unfold pa, v. rewrite PGROUNDDOWN_eq. lia.
  - destruct ((i <=? va) && (va <? i + k * PGSIZE)) eqn:E3; [lia|done].
Qed.
End valid_i.
End page_i.

(** Undoing a partial copy. *)
Section undo.
Context (io i : Z) (s1 : kstate) (T1 : ptree) (Hi : 0 <= i <= hi).
Context (Hc : copied io i s1 T1) (Hr : refs_up i s1).

Lemma copied_pte va : 0 <= va < i -> pte_of s1 T1 va =
  if valid (pte_of s T va) then cow (pte_of s T va) else 0.
Proof.
  intros Hva. rewrite (cp_new _ _ _ _ Hc) by lia. rewrite (proj2 (Z.ltb_lt _ _)) by lia.
  simpl. by rewrite Hnew by lia.
Qed.

Lemma copied_valid va : 0 <= va < i -> valid (pte_of s1 T1 va) = valid (pte_of s T va) /\
  (valid (pte_of s T va) = true ->
   PTE2PA (pte_of s1 T1 va) = PTE2PA (pte_of s T va) /\ PTE_FLAGS (pte_of s1 T1 va) <> PTE_V).
Proof.
  intros Hva. rewrite copied_pte by done. destruct (valid (pte_of s T va)) eqn:E; [|done].
  by destruct (cow_spec va ltac:(lia) E) as (-> & ? & ? & _).
Qed.

Lemma copied_maps pa : maps s1 T1 0 i pa <-> maps s T 0 i pa.
Proof.
  split; intros (va & Hva & Hv & Hp); exists va; destruct (copied_valid va Hva) as [E H].
  - rewrite E in Hv. destruct (H Hv) as [<- _]. done.
  - destruct (H Hv) as [-> _]. rewrite E. done.
Qed.

Lemma maps_below pa : maps s T 0 i pa -> maps s T 0 hi pa.
Proof. intros H. apply (maps_split s T 0 i); [lia|by left]. Qed.

Lemma copied_space_ok : space_ok s1 T1 0 i.
Proof.
  constructor.
  - intros va Hva. destruct (copied_valid va Hva) as [-> H]. intros Hv. by apply H.
  - intros pa Hp%copied_maps. rewrite (cp_ref _ _ Hr) by done.
    pose proof (Hcnt pa (maps_below pa Hp)).
    destruct (sp_page _ _ _ _ Hok pa (maps_below pa Hp)) as (Hb & ? & Hx).
    split_and!; try done; try lia. intros x Hpx. destruct (Hx x Hpx) as [Hf _]. split.
    + intros ?. by apply Hf, (cp_free _ _ _ _ Hc).
    + intros [?|?]%(copied_new_page _ _ _ _ _ Hc); [|done]. by apply (Hsep pa x) in Hpx; [|apply maps_below].
  - intros va va' Hva Hva'. destruct (copied_valid va Hva) as [-> H], (copied_valid va' Hva') as [-> H'].
    intros Hv Hv'. destruct (H Hv) as [-> _], (H' Hv') as [-> _].
    apply (sp_inj _ _ _ _ Hok); (done || lia).
Qed.

Lemma copied_undo s2 :
  unmapped s1 T1 0 i s2 -> pa_inv s2 -> pt_wf end_ s2 root' T1 ->
  copied io 0 s2 T1 /\ refs_up 0 s2.
Proof.
  intros Hum HI2 Hwf2. pose proof Hc as [HI1 Hwf1 Hwf1' Hold Hnw Hmem Hfree Htree].
  assert (Hfr : forall x, pa_free s2 x <-> pa_free s1 x).
  { intros x. rewrite (um_free _ _ _ _ _ Hum). split; [|by left].
    intros [?|(pa & Hp%copied_maps & Hone & _)]; [done|]. rewrite (cp_ref _ _ Hr) in Hone by done.
    destruct (sp_page _ _ _ _ Hok pa (maps_below pa Hp)) as (_ & ? & _). lia. }
  assert (HmT : forall x, pt_mem T x -> ~ pa_free s2 x /\ mem s2 x = mem s1 x).
  { intros x Hx. assert (~ pa_free s2 x).
    { rewrite Hfr. destruct Hx as (n & p & Hn & Hp). by apply (wf_page _ _ _ _ Hwf1 _ _ Hn). }
    split; [done|]. apply (um_mem _ _ _ _ _ Hum); [done|by eapply copied_dis]. }
  split; constructor; auto.
  - eapply pt_wf_frame; [done|by apply HmT|by apply HmT].
  - intros va Hva. rewrite (pte_of_frame s1) by (by apply HmT). auto.
  - intros va Hva. rewrite (um_pte _ _ _ _ _ Hum), Hnw by lia.
    destruct ((0 <=? va) && (va <? i)) eqn:E1, (va <? i) eqn:E2, (va <? 0) eqn:E3; try lia; [|done].
    rewrite Hnew by lia. destruct (valid (pte_of s T va)) eqn:E; cbn [andb]; [|done].
    by destruct (cow_spec va ltac:(lia) E) as (-> & _).
  - intros x Hx HxT HxT'. rewrite (um_mem _ _ _ _ _ Hum); auto.
    + rewrite Hfr. auto.
    + intros [?|?]%(copied_new_page _ _ _ _ _ Hc); done.
  - intros x. rewrite Hfr. auto.
  - intros pa (va & ? & _). lia.
  - intros pa Hb Hnf _. apply dec_stable. intros Hne.
    assert (Hp : ~ maps s T 0 i pa).
    { intros Hp. apply Hne. rewrite (um_ref _ _ _ _ _ Hum), (cp_ref _ _ Hr)
        by (done || by apply copied_maps). lia. }
    apply Hne. rewrite (um_ref_other _ _ _ _ _ Hum), (cp_ref_other _ _ Hr); try done.
    by rewrite copied_maps.
Qed.
End undo.

(** The body of the loop at a mapped page, followed by [K]. *)
Lemma share_page i s1 T1 (K : M kstate Z) (Q : Z -> kstate -> Prop) :
  i mod PGSIZE = 0 -> 0 <= i -> i + PGSIZE <= hi -> valid (pte_of s T i) = true ->
  copied i i s1 T1 /\ refs_up i s1 ->
  (forall s2 T2, copied (i + PGSIZE) (i + PGSIZE) s2 T2 /\ refs_up (i + PGSIZE) s2 ->
     (forall m, avail s1 (m + 2) -> avail s2 m) -> wp K Q s2) ->
  (forall s2 T2, copied (i + PGSIZE) 0 s2 T2 /\ refs_up 0 s2 -> ~ avail s1 2 -> Q (-1) s2) ->
  let v := pte_of s T i in
  wp (store (pte_addr T i) (cow v) ;;
      incref end_ (PTE2PA v) ;;
      let! r := mappages root' i PGSIZE (PTE2PA v) (cow_flags v) in
      if negb (r =? 0) then
        let! _ := decref end_ (PTE2PA v) in
        uvmunmap end_ root' 0 (i / PGSIZE) true ;; ret (-1)
      else K) Q s1.
Proof.
  intros Hal Hi0 Hi Hv Hc HK HQ. cbv zeta. destruct (page_i_facts i Hal Hi0 Hi Hv) as (Hb & _ & _ & _ & Hpr & Hpal).
  unfold store. do 2 wp_step. cbv beta. change (set_mem _ s1) with (set_pte s1 T i (cow (pte_of s T i))).
  assert (Hav1 : forall m, avail s1 m -> avail (set_pte s1 T i (cow (pte_of s T i))) m).
  { intros m. apply avail_ext. destruct Hc as [Hc _].
    apply (set_pte_wf end_ Hend s1 root); [apply (cp_inv _ _ _ _ Hc)|apply (cp_wf _ _ _ _ Hc)|by apply leaf_i]. }
  apply copied_mark in Hc as [Hc Hr]; [|done..]. revert Hc Hr Hav1.
  generalize (set_pte s1 T i (cow (pte_of s T i))). intros s2 Hc Hr Hav1.
  rename s1 into s0, s2 into s1. apply (refs_incref i) in Hr as [Hcnt1 Hr]; [|done..].
  assert (Hav2 : forall m, avail s1 m -> avail (set_ref (pa2index (PTE2PA (pte_of s T i)))
    (refcount s1 (pa2index (PTE2PA (pte_of s T i))) + 1) s1) m).
  { intros m. apply avail_ext, set_ref_client; [apply (cp_inv _ _ _ _ Hc)|done| |lia|lia].
    intros Hf. destruct (page_i_facts i Hal Hi0 Hi Hv) as (_ & _ & Hnf & _).
    by apply Hnf, (cp_free _ _ _ _ Hc). }
  apply (copied_ref i Hal Hi0 Hi Hv _ _ _ _ (refcount s1 (pa2index (PTE2PA (pte_of s T i))) + 1)) in Hc; [|lia].
  unfold incref. rewrite Hb. wp_step. do 2 wp_step.
  rewrite (proj2 (Z.ltb_lt _ _)) by lia. wp_step. wp_step.
  revert Hc Hr Hav2. generalize (set_ref (pa2index (PTE2PA (pte_of s T i))) (refcount s1 (pa2index (PTE2PA (pte_of s T i))) + 1) s1).
  intros s2 Hc Hr Hav2. assert (Hav : forall m, avail s0 m -> avail s2 m) by auto.
  clear s1 Hcnt1 Hav1 Hav2. rename s2 into s1.
  apply (bad_pa_range end_ Hend) in Hb as Hbr. 
  eapply wp_mono; [apply (mappages_one end_ Hend s1 root' T1); try done; try lia|].
  { apply (cp_inv _ _ _ _ Hc). }
  { apply (cp_wf' _ _ _ _ Hc). }
  { apply cow_flags_range. }
  { rewrite (cp_new _ _ _ _ Hc), Z.ltb_irrefl by lia. cbn [andb]. by rewrite Hnew by lia. }
  intros r s2 Hm. destruct (copied_mapped i Hal Hi0 Hi Hv s1 T1 r s2 Hc Hr Hm)
    as [[Hr2 [-> [T2 Hc2]]]|[Hr2 [-> [T2 Hc2]]]]; cbv beta; simpl negb; cbv iota.
  { eapply HK; [done|]. intros m Ha%Hav. by apply (proj1 Hm). }
  assert (Hno : ~ avail s0 2) by (intros Ha%Hav; by destruct (proj1 Hm O Ha)).
  apply (refs_decref i) in Hr2 as [Hcnt2 Hr2]; [|done..].
  apply (copied_ref i Hal Hi0 Hi Hv _ _ _ _ (refcount s2 (pa2index (PTE2PA (pte_of s T i))) - 1)) in Hc2; [|lia].
  unfold decref. rewrite Hb. wp_step. do 2 wp_step.
  rewrite (proj2 (Z.eqb_neq _ _)) by lia. wp_step. do 2 wp_step.
  revert Hc2 Hr2. generalize (set_ref (pa2index (PTE2PA (pte_of s T i))) (refcount s2 (pa2index (PTE2PA (pte_of s T i))) - 1) s2).
  clear s2 Hm Hcnt2. intros s2 Hc2 Hr2. wp_step.
  assert (Hio : 0 <= i <= hi) by lia. pose proof (copied_space_ok _ _ s2 T2 Hio Hc2 Hr2) as Hsp.
  replace i with (0 + i / PGSIZE * PGSIZE) in Hsp by lia.
  eapply wp_mono; [apply (uvmunmap_inv s2 root' T2 0 (i / PGSIZE)); try done; try lia|].
  { apply (cp_inv _ _ _ _ Hc2). }
  { apply (cp_wf' _ _ _ _ Hc2). }
  intros _ s3 (HI3 & Hwf3 & Hum). wp_step. replace (0 + i / PGSIZE * PGSIZE) with i in Hum by lia.
  eapply HQ; [|done]. eapply copied_undo; eauto.
Qed.

(** The two ways [uvmcopy] ends: everything is shared, or the child has
    nothing and only marks are left in the parent. *)
Definition copy_done (s1 : kstate) (n : nat) (r : Z) (s' : kstate) : Prop :=
  (avail s1 (2 * n) -> r = 0) /\ exists T2, (r = 0 /\ copied hi hi s' T2 /\ refs_up hi s') \/
    (r = -1 /\ exists k, 0 < k <= hi /\ copied k 0 s' T2 /\ refs_up 0 s').

Lemma uvmcopy_loop_inv sz n : forall i s1 T1,
  hi - PGSIZE < sz <= hi -> i mod PGSIZE = 0 -> 0 <= i -> i + Z.of_nat n * PGSIZE = hi ->
  copied i i s1 T1 /\ refs_up i s1 ->
  wp (uvmcopy_loop end_ root root' i sz (S n)) (copy_done s1 n) s1.
Proof.
  assert (HMAX : MAXVA = 2 ^ 38) by done.
  induction n as [|n IH]; intros i s1 T1 Hsz Hal Hi0 Hihi Hc; cbn [uvmcopy_loop].
  { rewrite (proj2 (Z.ltb_ge _ _)) by lia. wp_step. split; [done|]. exists T1. left.
    replace hi with i by lia. destruct Hc. done. }
  assert (Hi : i + PGSIZE <= hi) by lia.
  rewrite (proj2 (Z.ltb_lt _ _)) by lia. wp_step. apply wp_returns.
  eexists _, _. split; [eapply walk_spec; [done|apply Hc|lia]|].
  rewrite (u64_id (i + PGSIZE)) by lia.
  pose proof (pte_addr_nonzero end_ Hend s root T i Hwf) as Hnz.
  assert (Hskip : valid (pte_of s T i) = false ->
    wp (uvmcopy_loop end_ root root' (i + PGSIZE) sz (S n)) (copy_done s1 (S n)) s1).
  { intros Hv. eapply wp_mono; [eapply IH; try done; try lia; by apply copied_skip|].
    intros r s2 [Hav Hd]. split; [|done]. intros Ha. apply Hav. eapply avail_le; [done|lia]. }
  destruct (T (leaf i)) as [p|] eqn:HT.
  2:{ rewrite (proj2 Hnz) by done. simpl. apply Hskip. unfold pte_of. by rewrite HT. }
  rewrite (proj2 (Z.eqb_neq _ _)) by (intros E; by apply Hnz in E).
  unfold load. wp_step. wp_step.
  assert (ld64 (mem s1) (pte_addr T i) = pte_of s T i) as ->.
  { transitivity (pte_of s1 T i); [unfold pte_addr, pte_of; by rewrite HT|].
    rewrite (cp_old _ _ _ _ (proj1 Hc)) by lia. by rewrite Z.ltb_irrefl. }
  fold (valid (pte_of s T i)). destruct (valid (pte_of s T i)) eqn:Hv; simpl negb; cbv iota.
  2:{ by apply Hskip. }
  eapply share_page; try done.
  - intros s2 T2 Hc2 Hav2. eapply wp_mono; [eapply IH; try done; lia|].
    intros r s3 [Hav Hd]. split; [|done]. intros Ha. apply Hav, Hav2. eapply avail_le; [done|lia].
  - intros s2 T2 [Hc2 Hr2] Hno. split; [intros Ha; exfalso; apply Hno; eapply avail_le; [done|lia]|].
    exists T2. right. split; [done|]. exists (i + PGSIZE). split_and!; auto; lia.
Qed.

Lemma uvmcopy_inv sz :
  0 <= sz -> hi = (sz + PGSIZE - 1) / PGSIZE * PGSIZE ->
  wp (uvmcopy end_ root root' sz) (copy_done s (Z.to_nat (hi / PGSIZE))) s.
Proof.
  intros Hsz Hhi'. unfold uvmcopy.
  replace (hi / PGSIZE) with ((sz + PGSIZE - 1) / PGSIZE) by lia.
  eapply uvmcopy_loop_inv; [lia|done|lia|lia|apply copied_start].
Qed.
End uvmcopy.
End user_space.
