(* ===== verification/UserMem.v ===== *)
(** * User memory as bytes (kernel/vm.c)

    The byte a process sees at a virtual address, the lazy allocation of a
    page, and the copies between kernel buffers and user memory. *)

From S2P Require Import Prelude Riscv KString Kalloc Vm Uvm.

Lemma same_page_trans va a b :
  same_page va a = true -> same_page va b = true -> same_page a b = true.
Proof. unfold same_page. rewrite !Z.eqb_eq. congruence. Qed.

Lemma page_start pa : page pa pa.
Proof. unfold page. lia. Qed.

Section user_mem.
Context (end_ : Z) `{PA : !PageAllocator end_} (Hend : KERNBASE <= end_ <= PHYSTOP).

(** The physical address of the user's byte [va]. *)
Definition upa (s : kstate) (T : ptree) (va : Z) : Z :=
  PTE2PA (pte_of s T va) + va mod PGSIZE.
Definition ubyte (s : kstate) (T : ptree) (va : Z) : Z := ldb (mem s) (upa s T va).

Definition user_flags (v : Z) (perm : Z) : bool :=
  valid v && bits v PTE_U && (Z.land v perm =? perm).

(** Page [q] belongs to the kernel alone: it is in use, with one reference,
    outside the page table and mapped nowhere in [lo, hi). *)
Record fresh (s : kstate) (T : ptree) (lo hi q : Z) : Prop := {
  fr_pa : bad_pa end_ q = false;
  fr_ref : refcount s (pa2index q) = 1;
  fr_page : forall x, page q x -> ~ pa_free s x /\ ~ pt_mem T x;
  fr_maps : ~ maps s T lo hi q;
}.

(** A user address space in a state of the kernel. *)
Record uspace (s : kstate) (root : Z) (T : ptree) (lo hi : Z) : Prop := {
  us_inv : pa_inv s;
  us_wf : pt_wf end_ s root T;
  us_ok : space_ok end_ s T lo hi;
  us_lo : 0 <= lo;
  us_hi : hi <= MAXVA;
}.

(** The mapped bytes of [lo, hi) outside [c] are as before. *)
Definition same_bytes (s : kstate) (T : ptree) (s' : kstate) (T' : ptree) (lo hi : Z)
    (c : Z -> bool) : Prop :=
  forall va, lo <= va < hi -> c va = false -> pte_of s' T' va = pte_of s T va /\
    (valid (pte_of s T va) = true -> ubyte s' T' va = ubyte s T va).

(** A page from [kalloc], filled in any way. *)
Section alloc.
Context (s s1 : kstate) (root : Z) (T : ptree) (lo hi q : Z).
Context (Hwf : pt_wf end_ s root T) (Hok : space_ok end_ s T lo hi)
  (Hb : bad_pa end_ q = false) (HI1 : pa_inv s1)
  (Hfr : forall x, pa_free s x <-> pa_free s1 x \/ page q x)
  (Hnf : forall x, page q x -> ~ pa_free s1 x)
  (Hm : forall x, ~ pa_free s x -> mem s1 x = mem s x)
  (Hr : refcount s1 = upd (refcount s) (pa2index q) 1).
(** [m]: the memory after the page has been filled. *)
Context (m : memory) (Hfill : forall x, ~ page q x -> m x = mem s1 x).

Lemma alloc_mem x : ~ pa_free s x -> m x = mem s x.
Proof.
  intros Hx. rewrite Hfill; [by apply Hm|]. intros Hq. apply Hx, Hfr. by right.
Qed.

Lemma alloc_pt_mem x : pt_mem T x -> ~ pa_free s x.
Proof. intros (n & p & Hn & Hp). by apply (wf_page _ _ _ _ Hwf _ _ Hn). Qed.

Lemma alloc_inv :
  pa_inv (set_mem m s1) /\ (forall x, pa_free (set_mem m s1) x <-> pa_free s1 x).
Proof.
  apply pa_ext; try done.
  - intros x Hx. apply Hfill. by intros ?%Hnf.
  - intros. by apply (pa_refr s1).
Qed.

Lemma alloc_free x : ~ pa_free s x -> ~ pa_free (set_mem m s1) x.
Proof.
  destruct alloc_inv as [_ Hfr2]. rewrite Hfr2. intros Hx Hx1. apply Hx, Hfr. by left.
Qed.

Lemma alloc_wf : pt_wf end_ (set_mem m s1) root T.
Proof.
  eapply pt_wf_frame; [done| |].
  - intros x Hx. by apply alloc_mem, alloc_pt_mem.
  - intros x Hx. by apply alloc_free, alloc_pt_mem.
Qed.

Lemma alloc_pte va : pte_of (set_mem m s1) T va = pte_of s T va.
Proof. apply pte_of_frame. intros x Hx. by apply alloc_mem, alloc_pt_mem. Qed.

Lemma alloc_maps pa : maps (set_mem m s1) T lo hi pa <-> maps s T lo hi pa.
Proof. unfold maps. by setoid_rewrite alloc_pte. Qed.

Lemma alloc_ref pa :
  bad_pa end_ pa = false -> ~ pa_free s pa -> refcount s1 (pa2index pa) = refcount s (pa2index pa).
Proof.
  intros Hbp Hx. rewrite Hr, upd_other; [done|]. intros E.
  apply (pa2index_inj end_ Hend) in E as ->; try done. apply Hx, Hfr. right. unfold page. lia.
Qed.

Lemma alloc_space : space_ok end_ (set_mem m s1) T lo hi.
Proof.
  destruct Hok as [Hl Hp Hi]. constructor.
  - intros va. rewrite alloc_pte. apply Hl.
  - intros pa Hpa%alloc_maps. destruct (Hp pa Hpa) as (Hbp & Hrp & Hx). simpl.
    rewrite alloc_ref by (try done; apply Hx, page_start).
    split_and!; try done; try lia. intros x Hpx. destruct (Hx x Hpx). split; [|done].
    by apply alloc_free.
  - intros va va'. rewrite !alloc_pte. apply Hi.
Qed.

Lemma alloc_fresh : fresh (set_mem m s1) T lo hi q.
Proof.
  constructor; [done|by simpl; rewrite Hr, upd_same| |].
  - intros x Hx. destruct alloc_inv as [_ ->]. split; [by apply Hnf|].
    intros Hp%alloc_pt_mem. apply Hp, Hfr. by right.
  - intros Hq%alloc_maps. apply (sp_page _ _ _ _ _ Hok) in Hq as (_ & _ & Hx).
    destruct (Hx q (page_start q)) as [Hx' _]. apply Hx', Hfr. right. apply page_start.
Qed.

Lemma alloc_frame : pt_frame end_ s T (set_mem m s1) T.
Proof.
  constructor; auto.
  - intros x Hx%alloc_inv. apply Hfr. by left.
  - intros x Hx _. by apply alloc_mem.
  - intros i Hi. simpl. rewrite Hr, upd_other; [done|]. intros ->. apply Hi, Hfr. right.
    pose proof (bad_pa_range end_ Hend q Hb) as (? & ? & ? & ?).
    rewrite pa2index_eq by lia. unfold page. lia.
Qed.

Lemma alloc_bytes : same_bytes s T (set_mem m s1) T lo hi (fun _ => false).
Proof.
  intros va Hva _. rewrite alloc_pte. split; [done|]. intros Hv.
  unfold ubyte, upa, ldb. rewrite alloc_pte. f_equal. apply alloc_mem.
  destruct (sp_page _ _ _ _ _ Hok (PTE2PA (pte_of s T va))) as (_ & _ & Hx); [by exists va|].
  apply Hx. unfold page. lia.
Qed.

Lemma allocated :
  pa_inv (set_mem m s1) /\ pt_wf end_ (set_mem m s1) root T /\
  space_ok end_ (set_mem m s1) T lo hi /\ fresh (set_mem m s1) T lo hi q /\
  pt_frame end_ s T (set_mem m s1) T /\
  same_bytes s T (set_mem m s1) T lo hi (fun _ => false).
Proof using All.
  destruct alloc_inv. auto 8 using alloc_wf, alloc_space, alloc_fresh, alloc_frame, alloc_bytes.
Qed.
End alloc.

(** A fresh page [q] takes the place of what the page [c] mapped; [c] is one
    page, or empty. *)
Section remap.
Context (s s' : kstate) (root : Z) (T T' : ptree) (lo hi q v : Z) (c : Z -> bool).
Context (Hok : space_ok end_ s T lo hi) (Hfresh : fresh s T lo hi q)
  (Hf : pt_frame end_ s T s' T') (H0 : 0 <= lo) (Hhi : hi <= MAXVA)
  (Hc : forall a b, c a = true -> c b = true -> same_page a b = true) (Hq : PTE2PA v = q) (Hflags : PTE_FLAGS v <> PTE_V)
  (Hpte : forall va', 0 <= va' < MAXVA ->
     pte_of s' T' va' = if c va' then v else pte_of s T va').

Lemma remap_pt_mem x : pt_mem T' x -> pt_mem T x \/ pa_free s x.
Proof.
  intros (n & p & [Hn|Hn]%(g_new _ _ _ _ _ Hf) & Hp); [|by right; apply Hn].
  left. by exists n, p.
Qed.

Lemma remap_maps pa : maps s' T' lo hi pa -> pa = q \/ maps s T lo hi pa.
Proof.
  intros (va' & Hva' & Hv & <-). rewrite Hpte in * by lia.
  destruct (c va'); [by left|right]. by exists va'.
Qed.

Lemma remap_keep pa :
  bad_pa end_ pa = false -> (forall x, page pa x -> ~ pa_free s x /\ ~ pt_mem T x) ->
  refcount s' (pa2index pa) = refcount s (pa2index pa) /\
  forall x, page pa x -> (~ pa_free s' x /\ ~ pt_mem T' x) /\ mem s' x = mem s x.
Proof.
  intros Hb Hx. split.
  - apply (g_ref _ _ _ _ _ Hf). apply (bad_pa_range end_ Hend) in Hb as (? & ? & ? & ?).
    rewrite pa2index_eq by lia.
    replace (KERNBASE + (pa - KERNBASE) / PGSIZE * PGSIZE) with pa by lia. apply Hx, page_start.
  - intros x Hpx. destruct (Hx x Hpx) as [Hnf Hnp]. split_and!.
    + intros ?%(g_free _ _ _ _ _ Hf). done.
    + intros [?|?]%remap_pt_mem; done.
    + by apply (g_mem _ _ _ _ _ Hf).
Qed.

Lemma remap_space : space_ok end_ s' T' lo hi.
Proof.
  pose proof Hok as [Hl Hp Hi]. constructor.
  - intros va' Hva'. rewrite Hpte by lia. destruct (c va'); [done|by apply Hl].
  - intros pa [->|Hpa]%remap_maps.
    + destruct (remap_keep q) as [-> Hx]; [apply Hfresh..|].
      rewrite (fr_ref _ _ _ _ _ Hfresh). split_and!; try lia; [apply Hfresh|]. by intros x [? _]%Hx.
    + destruct (Hp pa Hpa) as (Hb & Hr & Hx). destruct (remap_keep pa) as [-> Hx']; try done.
      split_and!; try done; try lia. by intros x [? _]%Hx'.
  - assert (Hnq : forall va', lo <= va' < hi -> valid (pte_of s T va') = true ->
      PTE2PA (pte_of s T va') <> PTE2PA v).
    { rewrite Hq. intros va' ? ? E. apply (fr_maps _ _ _ _ _ Hfresh). by exists va'. }
    intros va1 va2 Hva1 Hva2. rewrite !Hpte by lia.
    destruct (c va1) eqn:E1, (c va2) eqn:E2; intros Hv1 Hv2 E.
    + by apply Hc.
    + by apply Hnq in Hv2.
    + by apply Hnq in Hv1.
    + by apply Hi.
Qed.

(** What the process sees: the contents of [q] in the page [c], and
    everywhere else what it saw before. *)
Lemma remap_byte va' : lo <= va' < hi ->
  if c va' then ubyte s' T' va' = ldb (mem s) (q + va' mod PGSIZE)
  else valid (pte_of s T va') = true -> ubyte s' T' va' = ubyte s T va'.
Proof.
  intros Hva'. unfold ubyte, upa, ldb. rewrite Hpte by lia. destruct (c va').
  - rewrite Hq. f_equal. apply (remap_keep q); [apply Hfresh..|]. unfold page. lia.
  - intros Hv. f_equal. destruct (sp_page _ _ _ _ _ Hok (PTE2PA (pte_of s T va'))) as (Hb & _ & Hx).
    { by exists va'. }
    apply (remap_keep _ Hb Hx). unfold page. lia.
Qed.

Lemma remap_bytes : same_bytes s T s' T' lo hi c.
Proof.
  intros va' Hva' E. pose proof (remap_byte va' Hva') as H. rewrite E in H.
  rewrite Hpte by lia. by rewrite E.
Qed.
Lemma remapped :
  space_ok end_ s' T' lo hi /\ same_bytes s T s' T' lo hi c /\
  (forall va', lo <= va' < hi -> c va' = true -> pte_of s' T' va' = v /\
     ubyte s' T' va' = ldb (mem s) (q + va' mod PGSIZE)).
Proof using All.
  split_and!; [apply remap_space|apply remap_bytes|]. intros va' Hva' E.
  pose proof (remap_byte va' Hva') as H. rewrite E in H. split; [|done].
  rewrite Hpte by lia. by rewrite E.
Qed.
End remap.

Lemma same_bytes_trans s T s1 T1 s2 T2 lo hi c :
  same_bytes s T s1 T1 lo hi (fun _ => false) -> same_bytes s1 T1 s2 T2 lo hi c ->
  same_bytes s T s2 T2 lo hi c.
Proof.
  intros H1 H2 va Hva Hc. destruct (H1 va Hva eq_refl) as [E1 B1], (H2 va Hva Hc) as [E2 B2].
  rewrite E1 in *. split; [done|]. intros Hv. by rewrite B2, B1.
Qed.

(** A successful [mappages] of one page changes its PTE alone. *)
Lemma mapped_one s root T va q perm s' :
  mapped end_ s root T va 1 q perm 0 s' -> va mod PGSIZE = 0 ->
  exists T', pa_inv s' /\ pt_wf end_ s' root T' /\ pt_frame end_ s T s' T' /\
    forall va', 0 <= va' < MAXVA ->
      pte_of s' T' va' = if same_page va va' then leaf_pte q perm else pte_of s T va'.
Proof.
  intros (_ & k & T' & HI' & Hwf' & Hf & [[_ ->]|(? & _)] & Hpte) Hal; [|done].
  exists T'. split_and!; try done. intros va' Hva'. rewrite Hpte by done. unfold map_range, same_page.
  rewrite !PGROUNDDOWN_eq.
  destruct (Z.eqb_spec (va - va mod PGSIZE) (va' - va' mod PGSIZE)),
    ((va <=? va') && (va' <? va + 1 * PGSIZE)) eqn:E; try lia.
  f_equal. lia.
Qed.

Lemma kfree_held s pa :
  bad_pa end_ pa = false -> 0 < refcount s (pa2index pa) -> kfree end_ pa s = Ret (tt, s).
Proof.
  intros Hb Hr. unfold kfree, getref, bind, gets. rewrite Hb.
  by rewrite (proj2 (Z.ltb_lt _ _)) by done.
Qed.

(** [kalloc], [memset] to 0 and [mappages], as the lazy allocation does
    them, followed by [K]. *)
Lemma lazy_map {A} s root T lo hi va perm (Kfail : M kstate A) (K : Z -> Z -> M kstate A)
    (Q : A -> kstate -> Prop) :
  uspace s root T lo hi -> va mod PGSIZE = 0 -> lo <= va < hi ->
  0 <= perm < 1024 -> Z.lor perm PTE_V <> PTE_V -> valid (pte_of s T va) = false ->
  ((forall x, ~ pa_free s x) -> ~ avail s 3 -> wp Kfail Q s) ->
  (forall m s' T', uspace s' root T' lo hi -> fresh s' T' lo hi m ->
     same_bytes s T s' T' lo hi (fun _ => false) -> (forall x, ~ pa_free s' x) ->
     ~ avail s 3 -> wp (K m (-1)) Q s') ->
  (forall m s' T', uspace s' root T' lo hi -> pt_frame end_ s T s' T' ->
     bad_pa end_ m = false -> (forall x, page m x -> pa_free s x) ->
     refcount s' (pa2index m) = 1 ->
     same_bytes s T s' T' lo hi (same_page va) ->
     (forall va', lo <= va' < hi -> same_page va va' = true ->
        pte_of s' T' va' = leaf_pte m perm /\ ubyte s' T' va' = 0) ->
     (forall n, avail s (n + 3) -> avail s' n) -> wp (K m 0) Q s') ->
  wp (let! m := kalloc in
      if m =? 0 then Kfail
      else memset_m m 0 PGSIZE ;; let! r := mappages root va PGSIZE m perm in K m r) Q s.
Proof.
  intros [HI Hwf Hok H0 Hhi] Hal Hva Hperm Hpv Hinv Hnone Hfail Hsucc.
  wp_step. eapply wp_mono; [by apply pa_alloc|].
  intros q s1 [(-> & -> & Hno)|(Hb & HI1 & Hfr & Hnf & _ & Hm & Hr)]; cbv beta.
  { apply Hnone; [done|]. by apply avail_none. }
  pose proof (bad_pa_range end_ Hend q Hb) as (? & ? & ? & ?). case_bool; [lia|].
  unfold memset_m. do 2 wp_step. cbv beta.
  set (m := memset (mem s1) q 0 PGSIZE).
  assert (Hfill : forall x, ~ page q x -> m x = mem s1 x).
  { intros x Hx. apply memset_other; [done|]. unfold page in Hx. lia. }
  destruct (allocated s s1 root T lo hi q Hwf Hok Hb HI1 Hfr Hnf Hm Hr m Hfill)
    as (HI2 & Hwf2 & Hok2 & Hfresh & Hfrm & Hby).
  assert (Hav : forall n, avail s (S n) -> avail (set_mem m s1) n).
  { intros n Hn. destruct (alloc_inv s1 q HI1 Hnf m Hfill) as [_ Hfr2].
    eapply avail_ext; [exact Hfr2|]. by eapply avail_taken. }
  assert (Hinv2 : bits (pte_of (set_mem m s1) T va) PTE_V = false)
    by (destruct (Hby va Hva eq_refl) as [-> _]; done).
  destruct (leaf_pte_spec q perm) as (_ & Hq & Hfl & _); [lia|done|done|].
  wp_step. eapply wp_mono; [apply (mappages_one end_ Hend _ root T); try done; lia|].
  intros r s2 Hmap. cbv beta.
  destruct (decide (r = 0)) as [->|Hr0].
  - assert (Hav2 : forall n, avail s (n + 3) -> avail s2 n).
    { intros n Hn. apply (proj1 Hmap), Hav. eapply avail_le; [done|lia]. }
    apply mapped_one in Hmap as (T2 & HI3 & Hwf3 & Hfrm3 & Hpte3); [|done].
    destruct (remapped (set_mem m s1) s2 root T T2 lo hi q (leaf_pte q perm) (same_page va))
      as (Hok3 & Hby3 & Hnew); try done; [apply same_page_trans|by rewrite Hfl|].
    apply (Hsucc q s2 T2); try done.
    + by eapply pt_frame_trans.
    + intros x Hx. apply Hfr. by right.
    + destruct (remap_keep (set_mem m s1) s2 T T2 Hfrm3 q) as [-> _]; apply Hfresh.
    + by eapply same_bytes_trans.
    + intros va' Hva' E. destruct (Hnew va' Hva' E) as [-> ->]. split; [done|].
      unfold ldb. simpl. unfold m. rewrite memset_inside by (done || lia). done.
  - assert (Hav2 : ~ avail s 3) by (intros Hn%Hav; by destruct (proj1 Hmap O Hn)).
    destruct Hmap as (_ & k & T2 & HI3 & Hwf3 & Hfrm3 & [[? _]|(-> & Hk & Hno)] & Hpte3); [done|].
    destruct (remapped (set_mem m s1) s2 root T T2 lo hi q (leaf_pte q perm) (fun _ => false))
      as (Hok3 & Hby3 & _); try done; [by rewrite Hfl| |].
    { intros va' Hva'. rewrite Hpte3 by done. unfold map_range. case_bool; [lia|done]. }
    assert (Hsame : forall va', lo <= va' < hi -> pte_of s2 T2 va' = pte_of (set_mem m s1) T va')
      by (intros va' Hva'; by apply Hby3).
    apply (Hfail q s2 T2); try done; [|by eapply same_bytes_trans].
    destruct (remap_keep (set_mem m s1) s2 T T2 Hfrm3 q) as [E Hx]; [apply Hfresh..|].
    constructor; [done|by rewrite E; apply Hfresh|by intros x [? _]%Hx|].
    intros (va' & Hva' & Hv'). rewrite Hsame in Hv' by done.
    apply (fr_maps _ _ _ _ _ Hfresh). by exists va'.
Qed.

(** ** copyin *)

(** [walkaddr]'s answer. *)
Definition uaddr (s : kstate) (T : ptree) (va : Z) : Z :=
  if (va <? MAXVA) && valid (pte_of s T va) && bits (pte_of s T va) PTE_U
  then PTE2PA (pte_of s T va) else 0.

Lemma uaddr_page s T va va' :
  0 <= va -> PGROUNDDOWN va = PGROUNDDOWN va' -> uaddr s T va = uaddr s T va'.
Proof.
  intros H0 E. unfold uaddr. rewrite (pte_of_page s T va va') by done.
  rewrite !PGROUNDDOWN_eq in E. by replace (va' <? MAXVA) with (va <? MAXVA) by lia.
Qed.

Lemma walkaddr_spec s root T va :
  pt_wf end_ s root T -> 0 <= va -> walkaddr root va s = Ret (uaddr s T va, s).
Proof.
  intros Hwf Hva. unfold walkaddr, uaddr. destruct (va <? MAXVA) eqn:E.
  2:{ rewrite (proj2 (Z.leb_le _ _)) by lia. done. }
  rewrite (proj2 (Z.leb_gt _ _)) by lia. unfold bind at 1.
  rewrite (walk_spec end_ Hend s root T va) by (done || lia).
  destruct (T (leaf va)) as [p|] eqn:HT.
  2:{ rewrite (proj2 (pte_addr_nonzero end_ Hend s root T va Hwf)) by done.
      unfold pte_of. by rewrite HT. }
  pose proof (pte_addr_nonzero end_ Hend s root T va Hwf) as Hnz.
  rewrite (proj2 (Z.eqb_neq _ _)) by (intros E'; apply Hnz in E'; congruence).
  unfold load, bind, gets.
  replace (ld64 (mem s) (pte_addr T va)) with (pte_of s T va)
    by (unfold pte_addr, pte_of; by rewrite HT).
  fold (valid (pte_of s T va)). destruct (valid (pte_of s T va)), (bits (pte_of s T va) PTE_U); done.
Qed.

Lemma ld_bytes_spec m a n : ld_bytes m a n = map (ldb m) (seqZ a (Z.of_nat n)).
Proof.
  revert a. induction n as [|n IH]; intros a; [done|]. cbn [ld_bytes].
  rewrite seqZ_cons by lia. rewrite IH. simpl. do 3 f_equal; lia.
Qed.

(** A piece that lies in one page. *)
Lemma user_chunk s T va n :
  0 <= va -> 0 <= n -> va mod PGSIZE + n <= PGSIZE ->
  ld_bytes (mem s) (PTE2PA (pte_of s T va) + (va - PGROUNDDOWN va)) (Z.to_nat n) =
  map (ubyte s T) (seqZ va n).
Proof.
  intros Hva Hn Hpg. rewrite ld_bytes_spec, Z2Nat.id by done. rewrite PGROUNDDOWN_eq.
  apply list_eq. intros i. rewrite !list_lookup_fmap.
  destruct (decide (Z.of_nat i < n)).
  - rewrite !lookup_seqZ_lt by done. simpl. f_equal. unfold ubyte, upa. f_equal.
    rewrite (pte_of_page s T (va + Z.of_nat i) va); [lia|]. rewrite !PGROUNDDOWN_eq. lia.
  - by rewrite !lookup_seqZ_ge by lia.
Qed.

Lemma copyin_loop_inv s root T fuel : forall srcva len,
  pt_wf end_ s root T -> 0 <= srcva -> srcva + len + PGSIZE <= 2 ^ 64 ->
  0 <= len < Z.of_nat fuel ->
  exists r bs, copyin_loop root srcva len fuel s = Ret ((r, bs), s) /\
    ((r = 0 /\ (forall a, srcva <= a < srcva + len -> uaddr s T a <> 0) /\
      bs = map (ubyte s T) (seqZ srcva len)) \/
     (r = -1 /\ exists a, srcva <= a < srcva + len /\ uaddr s T a = 0)).
Proof.
  induction fuel as [|fuel IH]; intros srcva len Hwf Hs Hmax Hlen; [lia|]. cbn [copyin_loop].
  destruct (Z.leb_spec len 0).
  { exists 0, []. split; [done|]. left. split_and!; [done|lia|]. by rewrite seqZ_nil by lia. }
  pose proof (PGROUNDDOWN_spec srcva) as [Hal Hrd].
  assert (Hpd : PGROUNDDOWN (PGROUNDDOWN srcva) = PGROUNDDOWN srcva) by (rewrite !PGROUNDDOWN_eq; lia).
  assert (Hsr : 0 <= PGROUNDDOWN srcva) by (rewrite PGROUNDDOWN_eq; lia).
  remember (Z.min (PGSIZE - (srcva - PGROUNDDOWN srcva)) len) as n eqn:Hn.
  assert (Hpg : forall a, srcva <= a < srcva + n -> uaddr s T a = uaddr s T srcva).
  { intros a Ha. apply uaddr_page; [lia|]. rewrite !PGROUNDDOWN_eq in *. lia. }
  unfold bind at 1. rewrite (walkaddr_spec s root T) by done. rewrite (uaddr_page s T _ srcva) by done.
  destruct (Z.eqb_spec (uaddr s T srcva) 0) as [E0|E0].
  { exists (-1), []. split; [done|]. right. split; [done|]. exists srcva. split; [lia|done]. }
  unfold bind at 1, gets. rewrite u64_id by lia.
  destruct (IH (PGROUNDDOWN srcva + PGSIZE) (len - n)) as (r & bs & Hrun & Hpost); [done|lia..|].
  unfold bind at 1. rewrite Hrun. exists r. eexists. split; [done|].
  assert (uaddr s T srcva = PTE2PA (pte_of s T srcva)) as E1 by (revert E0; unfold uaddr; by case_match).
  rewrite E1, user_chunk by (try lia; rewrite PGROUNDDOWN_eq in *; lia).
  destruct Hpost as [(-> & Hall & ->)|(-> & a & Ha & Hz)]; [left|right].
  - split_and!; [done| |].
    + intros a Ha. destruct (decide (a < srcva + n)); [by rewrite Hpg by lia|apply Hall; lia].
    + destruct (decide (len = n)) as [<-|].
      * rewrite Z.sub_diag, (seqZ_nil (PGROUNDDOWN srcva + PGSIZE) 0) by lia. by rewrite app_nil_r.
      * replace (PGROUNDDOWN srcva + PGSIZE) with (srcva + n) by lia.
        rewrite <- map_app, <- seqZ_app by lia. do 2 f_equal. lia.
  - split; [done|]. exists a. split; [lia|done].
Qed.

(** ** copyout *)

Lemma st_bytes_other bs : forall m a x,
  x < a \/ a + Z.of_nat (length bs) <= x -> st_bytes m a bs x = m x.
Proof.
  induction bs as [|b bs IH]; intros m a x Hx; [done|]. cbn [st_bytes]. simpl in Hx.
  rewrite IH by lia. apply stb_other. lia.
Qed.
Lemma st_bytes_inside bs : forall m a x b,
  bs !! Z.to_nat (x - a) = Some b -> a <= x -> st_bytes m a bs x = u8 b.
Proof.
  induction bs as [|b0 bs IH]; intros m a x b Hb Hx; [done|]. cbn [st_bytes].
  destruct (decide (x = a)) as [->|].
  - rewrite Z.sub_diag in Hb. injection Hb as ->. rewrite st_bytes_other by lia. apply stb_same.
  - apply IH; [|lia]. rewrite <- Hb. replace (Z.to_nat (x - a)) with (S (Z.to_nat (x - (a + 1)))) by lia.
    done.
Qed.

Lemma u8_u8 b : u8 (u8 b) = u8 b.
Proof. apply u8_id, u8_range. Qed.

(** A store of [bs] through the mapping of [va], within its page. *)
Section put.
Context (s : kstate) (root : Z) (T : ptree) (lo hi va : Z) (bs : list Z).
Context (Hus : uspace s root T lo hi) (Hva : lo <= va < hi) (Hv : valid (pte_of s T va) = true)
  (Hlen : va mod PGSIZE + Z.of_nat (length bs) <= PGSIZE).

Definition put : kstate :=
  set_mem (st_bytes (mem s) (PTE2PA (pte_of s T va) + va mod PGSIZE) bs) s.

Lemma put_other x : ~ page (PTE2PA (pte_of s T va)) x -> mem put x = mem s x.
Proof. intros Hx. apply st_bytes_other. unfold page in Hx. lia. Qed.

Lemma put_page : bad_pa end_ (PTE2PA (pte_of s T va)) = false /\
  forall x, page (PTE2PA (pte_of s T va)) x -> ~ pa_free s x /\ ~ pt_mem T x.
Proof.
  destruct (sp_page _ _ _ _ _ (us_ok _ _ _ _ _ Hus) (PTE2PA (pte_of s T va))) as (Hb & _ & Hx);
    [by exists va|done].
Qed.

Lemma put_pte va' : pte_of put T va' = pte_of s T va'.
Proof. apply pte_of_frame. intros x Hx. apply put_other. by intros [_ ?]%put_page. Qed.

Lemma put_free : pa_inv put /\ forall x, pa_free put x <-> pa_free s x.
Proof.
  pose proof (us_inv _ _ _ _ _ Hus) as HI. apply pa_ext; try done.
  - intros x Hx. apply put_other. by intros [? _]%put_page.
  - intros. by apply (pa_refr s).
Qed.

Lemma put_uspace : uspace put root T lo hi.
Proof.
  destruct Hus as [HI Hwf [Hl Hp Hi] H0 Hhi], put_free as [HI' Hfr]. constructor; try done.
  - eapply pt_wf_frame; [done| |].
    + intros x Hx. apply put_other. by intros [_ ?]%put_page.
    + intros x (n & p & Hn & Hpx). rewrite Hfr. by apply (wf_page _ _ _ _ Hwf _ _ Hn).
  - assert (Hmaps : forall pa, maps put T lo hi pa <-> maps s T lo hi pa)
      by (intros; unfold maps; by setoid_rewrite put_pte).
    constructor.
    + intros va'. rewrite put_pte. apply Hl.
    + intros pa Hpa%Hmaps. destruct (Hp pa Hpa) as (? & ? & Hx).
      change (refcount put) with (refcount s). split_and!; try done; try lia. intros x. rewrite Hfr. apply Hx.
    + intros va1 va2. rewrite !put_pte. apply Hi.
Qed.

Lemma page_put_byte va' : lo <= va' < hi -> valid (pte_of s T va') = true ->
  match bs !! Z.to_nat (va' - va) with
  | Some b => if va <=? va' then ubyte put T va' = u8 b else ubyte put T va' = ubyte s T va'
  | None => ubyte put T va' = ubyte s T va'
  end.
Proof.
  intros Hva' Hv'. unfold ubyte, upa, ldb. rewrite put_pte.
  set (a := PTE2PA (pte_of s T va)). set (a' := PTE2PA (pte_of s T va')).
  destruct (same_page va va') eqn:E.
  - assert (Hpa : a' = a).
    { unfold a, a'. unfold same_page in E. bool_to_prop. by rewrite (pte_of_page s T va va'). }
    unfold same_page in E. rewrite !PGROUNDDOWN_eq in E. rewrite Hpa.
    destruct (bs !! Z.to_nat (va' - va)) as [b|] eqn:Eb.
    + destruct (Z.leb_spec va va').
      * simpl. fold a. rewrite (st_bytes_inside _ _ _ _ b); [apply u8_u8| |lia].
        rewrite <- Eb. f_equal. lia.
      * simpl. rewrite st_bytes_other by lia. done.
    + apply lookup_ge_None_1 in Eb. simpl. rewrite st_bytes_other by lia. done.
  - assert (Hne : a <> a').
    { intros Ea. destruct Hus as [_ _ [_ _ Hi] _ _]. rewrite (Hi va va') in E by done. done. }
    assert (mem put (a' + va' mod PGSIZE) = mem s (a' + va' mod PGSIZE)) as ->.
    { apply put_other. fold a. intros Hx. apply Hne. destruct put_page as [Hb _]. fold a in Hb.
      destruct (sp_page _ _ _ _ _ (us_ok _ _ _ _ _ Hus) a') as (Hb' & _); [by exists va'|].
      apply (bad_pa_range end_ Hend) in Hb as (? & _), Hb' as (? & _).
      eapply (page_disjoint a a'); try done. unfold page. lia. }
    destruct (bs !! _) as [b|] eqn:Eb; [|done]. destruct (Z.leb_spec va va'); [|done].
    apply lookup_lt_Some in Eb. unfold same_page in E. rewrite !PGROUNDDOWN_eq in E. lia.
Qed.
End put.

(** With lazy allocation a page that is not mapped yet reads as zeros. *)
Definition ucontent (s : kstate) (T : ptree) (va : Z) : Z :=
  if valid (pte_of s T va) then ubyte s T va else 0.

(** What [copyout] can write to: a lazily unallocated page, or one that is
    mapped for the user to write. *)
Definition out_ok (v : Z) : bool := negb (valid v) || bits v PTE_U && bits v PTE_W.

Lemma bits_leaf q perm mask :
  0 <= q < 2 ^ 56 -> q mod PGSIZE = 0 -> 0 <= perm < 1024 -> 0 <= mask < 1024 ->
  bits (leaf_pte q perm) mask = bits (Z.lor perm PTE_V) mask.
Proof.
  intros Hq Hal Hp Hm. destruct (leaf_pte_spec q perm) as (_ & _ & <- & _); try done.
  unfold bits, PTE_FLAGS. do 2 f_equal. rewrite <- Z.land_assoc. f_equal.
  change 0x3FF with (2 ^ 10 - 1). rewrite Z.land_comm, land_ones_mod, Z.mod_small by lia. done.
Qed.

Lemma same_content s T s' T' lo hi va :
  same_bytes s T s' T' lo hi (same_page va) ->
  (forall va', lo <= va' < hi -> same_page va va' = true -> ubyte s' T' va' = 0) ->
  valid (pte_of s T va) = false ->
  forall va', lo <= va' < hi -> ucontent s' T' va' = ucontent s T va'.
Proof.
  intros Hb Hz Hinv va' Hva'. unfold ucontent. destruct (same_page va va') eqn:E.
  - rewrite Hz by done. unfold same_page in E. bool_to_prop.
    rewrite (pte_of_page s T va' va), Hinv by done. by destruct (valid (pte_of s' T' va')).
  - destruct (Hb va' Hva' E) as [-> Hb']. destruct (valid (pte_of s T va')); auto.
Qed.

Lemma load_pte_addr s T va :
  T (leaf va) <> None -> ld64 (mem s) (pte_addr T va) = pte_of s T va.
Proof. unfold pte_addr, pte_of. by destruct (T (leaf va)). Qed.

Lemma valid_leaf s T va : valid (pte_of s T va) = true -> T (leaf va) <> None.
Proof. intros Hv E. revert Hv. unfold pte_of. by rewrite E. Qed.

Lemma not_writable s root T va :
  pt_wf end_ s root T ->
  not_user_writable (pte_addr T va) (ld64 (mem s) (pte_addr T va)) =
  negb (valid (pte_of s T va) && bits (pte_of s T va) PTE_U && bits (pte_of s T va) PTE_W).
Proof.
  intros Hwf. unfold not_user_writable. destruct (T (leaf va)) as [p|] eqn:E.
  - rewrite load_pte_addr by congruence.
    rewrite (proj2 (Z.eqb_neq _ _)) by
      (intros E'; apply (pte_addr_nonzero end_ Hend s root T va Hwf) in E'; congruence).
    fold (valid (pte_of s T va)). by destruct (valid _), (bits _ PTE_U), (bits _ PTE_W).
  - rewrite (proj2 (pte_addr_nonzero end_ Hend s root T va Hwf)) by done.
    unfold pte_of. by rewrite E.
Qed.

(** The page is there and writable after [copyout_page]. *)
Lemma copyout_page_inv s root T lo hi va :
  uspace s root T lo hi -> va mod PGSIZE = 0 -> lo <= va < hi -> out_ok (pte_of s T va) = true ->
  wp (copyout_page end_ root va) (fun o s' => exists T', uspace s' root T' lo hi /\
    (forall va', lo <= va' < hi -> ucontent s' T' va' = ucontent s T va') /\
    (forall va', lo <= va' < hi -> same_page va va' = false -> pte_of s' T' va' = pte_of s T va') /\
    match o with
    | Some v => v = pte_of s' T' va /\ valid v = true /\ forall n, avail s (n + 3) -> avail s' n
    | None => (forall x, ~ pa_free s' x) /\ ~ avail s 3
    end) s.
Proof.
  intros Hus Hal Hva Hout. pose proof Hus as [HI Hwf Hok H0 Hhi]. unfold copyout_page.
  wp_step. apply wp_returns. eexists _, _. split; [eapply walk_spec; [done|done|lia]|].
  unfold load. do 2 wp_step. rewrite (not_writable s root) by done.
  unfold out_ok in Hout. destruct (valid (pte_of s T va)) eqn:Hv; simpl in Hout.
  { cbn [andb]. rewrite Hout. simpl. wp_step. exists T.
    rewrite load_pte_addr by (by apply (valid_leaf s)). split_and!; try done.
    intros n Hn. eapply avail_le; [done|lia]. }
  simpl negb. cbv iota. eapply lazy_map; try done.
  - intros Hno Hav. wp_step. exists T. by split_and!.
  - intros m s' T' Hus' Hfr Hby Hno Hav. simpl negb. cbv iota. wp_step. apply wp_returns.
    eexists _, _. split; [apply kfree_held; [apply Hfr|by rewrite (fr_ref _ _ _ _ _ Hfr)]|].
    wp_step. exists T'. split_and!; try done; intros va' Hva'; [|by intros; apply Hby].
    unfold ucontent. destruct (Hby va' Hva' eq_refl) as [-> ?].
    destruct (valid (pte_of s T va')); auto.
  - intros m s' T' Hus' Hfrm Hb _ _ Hby Hnew Hav. simpl negb. cbv iota. pose proof Hus' as [_ Hwf' _ _ _].
    destruct (Hnew va Hva) as [Hpte _]; [by unfold same_page; rewrite Z.eqb_refl|].
    wp_step. apply wp_returns. eexists _, _. split; [eapply walk_spec; [done|done|lia]|].
    do 2 wp_step. rewrite (not_writable s' root) by done. rewrite Hpte.
    apply (bad_pa_range end_ Hend) in Hb as (? & ? & ? & ?).
    assert (Hval : valid (leaf_pte m (Z.lor (Z.lor PTE_W PTE_R) PTE_U)) = true)
      by (unfold valid; by rewrite bits_leaf by (done || lia)).
    rewrite Hval, !bits_leaf by (done || lia). simpl. wp_step. exists T'.
    rewrite load_pte_addr, Hpte by (apply (valid_leaf s'); by rewrite Hpte).
    split_and!; try done.
    + eapply same_content; [done| |done]. intros va' Hva' E. by apply Hnew.
    + intros va' Hva' E. by apply Hby.
Qed.

(** [f] after the bytes [bs] have been written from [a] on. *)
Definition written (a : Z) (bs : list Z) (f : Z -> Z) (va : Z) : Z :=
  if a <=? va then match bs !! Z.to_nat (va - a) with Some b => u8 b | None => f va end else f va.

Lemma written_nil a f va : written a [] f va = f va.
Proof. unfold written. by case_bool. Qed.

Lemma written_ext a bs f g va : f va = g va -> written a bs f va = written a bs g va.
Proof. intros E. unfold written. case_bool; [|done]. by destruct (bs !! _). Qed.

Lemma written_app a bs bs' f va :
  written (a + Z.of_nat (length bs)) bs' (written a bs f) va = written a (bs ++ bs') f va.
Proof.
  unfold written. destruct (Z.leb_spec a va).
  - destruct (Z.leb_spec (a + Z.of_nat (length bs)) va).
    + rewrite lookup_app_r by lia. rewrite (proj2 (lookup_ge_None bs (Z.to_nat (va - a)))) by lia.
      by replace (Z.to_nat (va - (a + Z.of_nat (length bs)))) with (Z.to_nat (va - a) - length bs)%nat by lia.
    + rewrite lookup_app_l by lia. done.
  - case_bool; [lia|done].
Qed.

(** One page of [copyout]. *)
Lemma put_content s root T lo hi va bs :
  uspace s root T lo hi -> lo <= va < hi -> valid (pte_of s T va) = true ->
  va mod PGSIZE + Z.of_nat (length bs) <= PGSIZE -> va + Z.of_nat (length bs) <= hi ->
  forall va', lo <= va' < hi ->
    ucontent (put s T va bs) T va' = written va bs (ucontent s T) va'.
Proof.
  intros Hus Hva Hv Hlen Hhi va' Hva'. unfold ucontent, written.
  rewrite (put_pte s root T lo hi va bs) by done.
  destruct (valid (pte_of s T va')) eqn:Hv'.
  - pose proof (page_put_byte s root T lo hi va bs Hus Hva Hv Hlen va' Hva' Hv') as H.
    destruct (bs !! _) as [b|]; [by destruct (va <=? va')|]. rewrite H. by destruct (va <=? va').
  - destruct (Z.leb_spec va va'); [|done]. destruct (bs !! _) as [b|] eqn:E; [|done].
    apply lookup_lt_Some in E. rewrite (pte_of_page s T va' va) in Hv'; [congruence|].
    rewrite !PGROUNDDOWN_eq. lia.
Qed.

Definition copied_out (s : kstate) (root : Z) (T : ptree) (lo hi dstva : Z) (src : list Z)
    (r : Z) (s' : kstate) : Prop :=
  (avail s (3 * length src) -> r = 0) /\
  exists T' n, uspace s' root T' lo hi /\
    (r = 0 /\ n = length src \/ r = -1 /\ (n < length src)%nat /\ forall x, ~ pa_free s' x) /\
    forall va, lo <= va < hi -> ucontent s' T' va = written dstva (take n src) (ucontent s T) va.

Lemma copyout_loop_inv fuel : forall s root T lo hi dstva src,
  uspace s root T lo hi -> lo mod PGSIZE = 0 -> (length src < fuel)%nat ->
  lo <= dstva -> dstva + Z.of_nat (length src) <= hi ->
  (forall va, dstva <= va < dstva + Z.of_nat (length src) -> out_ok (pte_of s T va) = true) ->
  wp (copyout_loop end_ root dstva src fuel) (copied_out s root T lo hi dstva src) s.
Proof.
  assert (HMAX : MAXVA = 2 ^ 38) by done.
  induction fuel as [|fuel IH]; intros s root T lo hi dstva src Hus Hlo Hfuel Hd Hhi Hout; [lia|].
  pose proof Hus as [_ _ _ H0 Hh]. destruct src as [|b0 bs].
  { split; [done|]. exists T, O. split_and!; [done|by left|]. intros. by rewrite written_nil. }
  cbn [copyout_loop]. remember (b0 :: bs) as src eqn:Esrc.
  assert (Hne : (0 < length src)%nat) by (subst; simpl; lia). clear Esrc b0 bs.
  pose proof (PGROUNDDOWN_spec dstva) as [Hal Hrd]. remember (PGROUNDDOWN dstva) as va0 eqn:Eva0.
  assert (Hpd : PGROUNDDOWN va0 = PGROUNDDOWN dstva) by (rewrite Eva0, !PGROUNDDOWN_eq; lia).
  rewrite (proj2 (Z.leb_gt _ _)) by lia. wp_step.
  eapply wp_mono; [apply (copyout_page_inv s root T lo hi); try done; [lia|]|].
  { rewrite (pte_of_page s T va0 dstva) by done. apply Hout. lia. }
  intros [v|] s1 (T1 & Hus1 & Hc1 & Hp1 & Hv); cbv beta iota.
  2:{ destruct Hv as [Hv Hno]. wp_step. split.
      { intros Ha. exfalso. apply Hno. eapply avail_le; [done|lia]. }
      exists T1, O. split_and!; [done|right; split_and!; [done|lia|done]|].
      intros va Hva. rewrite take_0, written_nil. auto. }
  destruct Hv as (-> & Hv & Hav). rewrite (pte_of_page s1 T1 va0 dstva) in * by done.
  remember (Z.to_nat (PGSIZE - (dstva - va0))) as n eqn:En.
  assert (Hmod : dstva - va0 = dstva mod PGSIZE) by lia.
  unfold put_bytes. do 2 wp_step. cbv beta. rewrite Hmod.
  change (set_mem _ s1) with (put s1 T1 dstva (take n src)).
  assert (Hlt : dstva mod PGSIZE + Z.of_nat (length (take n src)) <= PGSIZE)
    by (rewrite length_take; lia).
  pose proof (put_uspace s1 root T1 lo hi dstva (take n src) Hus1 ltac:(lia) Hv Hlt) as Hus2.
  pose proof (put_content s1 root T1 lo hi dstva (take n src) Hus1 ltac:(lia) Hv Hlt) as Hc2.
  rewrite length_take in Hc2. specialize (Hc2 ltac:(lia)).
  assert (Hp2 : forall va, pte_of (put s1 T1 dstva (take n src)) T1 va = pte_of s1 T1 va)
    by (intros; apply (put_pte s1 root T1 lo hi); (done || lia)).
  rewrite u64_id by lia. destruct (decide (length src <= n)%nat).
  { rewrite drop_ge, take_ge in * by lia. destruct fuel as [|fuel]; [lia|]. cbn [copyout_loop].
    wp_step. split; [done|]. exists T1, (length src). split_and!; [done|by left|]. intros va Hva.
    rewrite Hc2, firstn_all by done. apply written_ext. auto. }
  assert (Hva0 : va0 + PGSIZE = dstva + Z.of_nat (length (take n src))) by (rewrite length_take; lia).
  eapply wp_mono; [apply (IH _ root T1 lo hi); rewrite ?length_drop; try done; try lia|].
  { intros va Hva. rewrite Hp2, Hp1; [apply Hout; lia|lia|].
    unfold same_page. rewrite Hpd. rewrite !PGROUNDDOWN_eq. lia. }
  intros r s3 (Hav3 & T3 & k & Hus3 & Hr & Hc3). split.
  { intros Ha. apply Hav3. eapply avail_ext.
    - apply (put_free s1 root T1 lo hi); (done || lia).
    - apply Hav. eapply avail_le; [done|]. rewrite length_drop. lia. }
  exists T3, (n + k)%nat. rewrite length_drop in Hr.
  split_and!; [done|intuition lia|]. intros va Hva. rewrite Hc3 by done. rewrite Hva0.
  rewrite (written_ext _ _ _ _ va (Hc2 va Hva)), written_app.
  rewrite take_take_drop. apply written_ext. auto.
Qed.

Lemma copyout_inv s root T lo hi dstva src :
  uspace s root T lo hi -> lo mod PGSIZE = 0 ->
  lo <= dstva -> dstva + Z.of_nat (length src) <= hi ->
  (forall va, dstva <= va < dstva + Z.of_nat (length src) -> out_ok (pte_of s T va) = true) ->
  wp (copyout end_ root dstva src) (copied_out s root T lo hi dstva src) s.
Proof. intros. apply copyout_loop_inv; (done || lia). Qed.
End user_mem.
