(* ===== verification/UvmProps.v ===== *)
(** * Properties of user address spaces

    The correctness theorems about kernel/vm.c for user page tables, stated
    for any page allocator and instantiated with the buddy allocator in the
    witnesses, and the teardown of a page table by [freewalk]. *)

From S2P Require Import Prelude Riscv KString Kalloc Vm Uvm UserMem.

(** ** freewalk *)

Section freewalk.
Context (end_ : Z) `{PA : !PageAllocator end_} (Hend : KERNBASE <= end_ <= PHYSTOP).

(** [n'] is in the subtree of [n]. *)
Definition desc (n n' : tnode) : Prop :=
  match n, n' with
  | NRoot, _ => True
  | N1 i, N1 i' => i = i'
  | N1 i, N0 i' _ => i = i'
  | N0 i j, N0 i' j' => i = i' /\ j = j'
  | _, _ => False
  end.
Definition height (n : tnode) : nat := match n with NRoot => 3 | N1 _ => 2 | N0 _ _ => 1 end.

(** Addresses of the pages of the subtree of [n]. *)
Definition sub (T : ptree) (n : tnode) (x : Z) : Prop :=
  exists n' p, desc n n' /\ T n' = Some p /\ page p x.

Lemma desc_refl n : desc n n.
Proof. by destruct n. Qed.
Lemma desc_child n j n' : inner n -> desc (child n j) n' -> desc n n' /\ n' <> n.
Proof. destruct n, n'; simpl; intros; intuition congruence. Qed.
Lemma desc_children n j j' n' :
  inner n -> desc (child n j) n' -> desc (child n j') n' -> j = j'.
Proof. destruct n, n'; simpl; intros; intuition congruence. Qed.
Lemma height_child n j : inner n -> height n = S (height (child n j)).
Proof. by destruct n. Qed.

(** The words of the subtree of [n]: child pointers, and no leaf mappings. *)
Definition shape (m : memory) (T : ptree) (n : tnode) : Prop :=
  forall n' p j, desc n n' -> T n' = Some p -> 0 <= j < 512 ->
    match (match n' with N0 _ _ => None | _ => T (child n' j) end) with
    | Some q => ld64 m (p + 8 * j) = Z.lor (PA2PTE q) PTE_V
    | None => valid (ld64 m (p + 8 * j)) = false
    end.

Section walk.
Context (s : kstate) (root : Z) (T : ptree) (Hwf : pt_wf end_ s root T)
  (Href : forall n p, T n = Some p -> 0 < refcount s (pa2index p)).

Lemma page_apart n p n' p' x :
  T n = Some p -> T n' = Some p' -> page p x -> page p' x -> n = n'.
Proof.
  intros Hn Hn' Hp Hp'. destruct (wf_page _ _ _ _ Hwf _ _ Hn) as [Hb _].
  destruct (wf_page _ _ _ _ Hwf _ _ Hn') as [Hb' _].
  apply (bad_pa_range end_ Hend) in Hb as (? & _), Hb' as (? & _).
  assert (p = p') as <- by (by eapply page_disjoint). by eapply (wf_inj _ _ _ _ Hwf).
Qed.

Lemma own_not_child n p j x : inner n -> T n = Some p -> page p x -> ~ sub T (child n j) x.
Proof.
  intros Hi Hn Hp (n' & p' & [_ Hd]%desc_child & Hn' & Hp'); [|done].
  apply Hd. by eapply page_apart.
Qed.
Lemma children_apart n j j' x :
  inner n -> sub T (child n j) x -> sub T (child n j') x -> j = j'.
Proof.
  intros Hi (n1 & p1 & Hd1 & Hn1 & Hp1) (n2 & p2 & Hd2 & Hn2 & Hp2).
  assert (n1 = n2) as <- by (by eapply page_apart). by eapply desc_children.
Qed.
Lemma sub_child n j x : inner n -> sub T (child n j) x -> sub T n x.
Proof.
  intros Hi (n' & p & [Hd _]%desc_child & Hn' & Hp); [|done]. by exists n', p.
Qed.

Lemma shape_ext m m' n :
  (forall x, sub T n x -> m' x = m x) -> shape m T n -> shape m' T n.
Proof.
  intros Hm Hs n' p j Hd Hn Hj. rewrite (ld64_ext m' m); [by apply Hs|].
  intros x Hx. apply Hm. exists n', p. split_and!; try done. by eapply slot_page.
Qed.

Lemma shape_child m n j : inner n -> shape m T n -> shape m T (child n j).
Proof. intros Hi Hs n' p k [Hd _]%desc_child; [|done]. by apply Hs. Qed.

Lemma table_flags q :
  bad_pa end_ q = false ->
  valid (Z.lor (PA2PTE q) PTE_V) = true /\ PTE2PA (Z.lor (PA2PTE q) PTE_V) = q /\
  bits (Z.lor (PA2PTE q) PTE_V) (Z.lor (Z.lor PTE_R PTE_W) PTE_X) = false.
Proof.
  intros (? & ? & ? & ?)%(bad_pa_range end_ Hend).
  assert (E : Z.lor (PA2PTE q) PTE_V = leaf_pte q 0) by (unfold leaf_pte; by rewrite Z.lor_0_r).
  rewrite E. destruct (leaf_pte_spec q 0) as (? & ? & _); [lia|done|lia|].
  split_and!; try done. by rewrite bits_leaf by (done || lia).
Qed.

(** The state after a part of the loop of [freewalk] on node [n]. *)
Definition freed (m : memory) (n : tnode) (p : Z) (rest : list Z) (s' : kstate) : Prop :=
  exists m', s' = set_mem m' s /\ (forall x, ~ sub T n x -> m' x = m x) /\
    forall j, j ∈ rest -> ld64 m' (p + 8 * j) = ld64 m (p + 8 * j) /\
      (inner n -> forall x, sub T (child n j) x -> m' x = m x).

(** One iteration on a slot with a child: the child has been freed with
    memory [m2], then the slot is cleared. *)
Lemma freed_child m n p j q rest m1 m2 :
  inner n -> T n = Some p -> 0 <= j < 512 -> j ∉ rest -> (forall k, k ∈ rest -> 0 <= k < 512) ->
  T (child n j) = Some q ->
  (forall x, ~ sub T n x -> m1 x = m x) ->
  (forall k, k ∈ rest -> ld64 m1 (p + 8 * k) = ld64 m (p + 8 * k) /\
      (inner n -> forall x, sub T (child n k) x -> m1 x = m x)) ->
  (forall x, ~ sub T (child n j) x -> m2 x = m1 x) ->
  freed m n p rest (set_mem (st64 m2 (p + 8 * j) 0) s).
Proof.
  intros Hi Hn Hj Hjr Hk Hc Hout Hrest Hm2.
  assert (Hst : forall x, ~ page p x -> st64 m2 (p + 8 * j) 0 x = m2 x).
  { intros x Hx. apply st64_other. unfold page in Hx. lia. }
  eexists. split_and!; [done| |].
  - intros x Hx. rewrite Hst, Hm2; [by apply Hout| |].
    + intros Hs. by eapply Hx, sub_child.
    + intros Hp. apply Hx. exists n, p. split_and!; try done. apply desc_refl.
  - intros k Hkr. pose proof (Hk k Hkr). destruct (Hrest k Hkr) as [Hl Hsub]. split.
    + assert (j <> k) by (intros ->; done). rewrite ld_st64_other by lia. rewrite <- Hl.
      apply ld64_ext. intros x Hx. apply Hm2. eapply own_not_child; [done|done|]. by eapply slot_page.
    + intros _ x Hx. rewrite Hst, Hm2; [by apply Hsub| |].
      * intros Hx'. assert (j = k) as -> by (by eapply children_apart). done.
      * intros Hp. by eapply own_not_child.
Qed.

Lemma freewalk_slot d n p m j rest s' :
  (forall n p m, (height n <= d)%nat -> T n = Some p -> shape m T n ->
     wp (freewalk_depth end_ d p) (fun _ s' => freed m n p [] s') (set_mem m s)) ->
  (height n <= S d)%nat -> T n = Some p -> shape m T n ->
  0 <= j < 512 -> j ∉ rest -> (forall k, k ∈ rest -> 0 <= k < 512) ->
  freed m n p (j :: rest) s' ->
  wp (let! pte := load (p + 8 * j) in
      if bits pte PTE_V && negb (bits pte (Z.lor (Z.lor PTE_R PTE_W) PTE_X)) then
        freewalk_depth end_ d (PTE2PA pte) ;; store (p + 8 * j) 0
      else if bits pte PTE_V then panic "freewalk: leaf" else ret tt)
     (fun _ s'' => freed m n p rest s'') s'.
Proof.
  intros IH Hd Hn Hs Hj Hjr Hk (m1 & -> & Hout & Hrest).
  unfold load. do 2 wp_step. simpl mem. destruct (Hrest j ltac:(left)) as [-> Hch].
  pose proof (Hs n p j (desc_refl n) Hn Hj) as Hslot.
  assert (Hrest' : forall k, k ∈ rest -> ld64 m1 (p + 8 * k) = ld64 m (p + 8 * k) /\
      (inner n -> forall x, sub T (child n k) x -> m1 x = m x)) by (intros; apply Hrest; by right).
  fold (valid (ld64 m (p + 8 * j))).
  destruct (match n with N0 _ _ => None | _ => T (child n j) end) as [q|] eqn:Hc.
  2:{ rewrite Hslot. simpl. wp_step. by exists m1. }
  assert (Hi : inner n) by (by destruct n). assert (Hc' : T (child n j) = Some q) by (by destruct n).
  rewrite Hslot. destruct (table_flags q) as (-> & -> & ->);
    [by eapply (wf_page _ _ _ _ Hwf)|]. simpl andb. cbv iota.
  wp_step. eapply wp_mono; [apply (IH (child n j) q m1); [|done|]|].
  - pose proof (height_child n j Hi). lia.
  - eapply shape_ext; [|by apply shape_child]. by apply Hch.
  - intros ? s2 (m2 & -> & Hm2 & _). unfold store. wp_step. simpl. by eapply freed_child.
Qed.

Lemma freewalk_node d : forall n p m,
  (height n <= d)%nat -> T n = Some p -> shape m T n ->
  wp (freewalk_depth end_ d p) (fun _ s' => freed m n p [] s') (set_mem m s).
Proof.
  induction d as [|d IH]; intros n p m Hd Hn Hs; [by destruct n; simpl in Hd; lia|].
  cbn [freewalk_depth]. wp_step.
  eapply wp_mono; [apply (wp_for_each _ (fun _ rest s' => freed m n p rest s'))|].
  - exists m. split_and!; try done; by intros.
  - intros dn j rest s' Hsplit Hf.
    assert (Hin : forall k, k ∈ j :: rest -> 0 <= k < 512).
    { intros k Hk. apply (elem_of_seqZ 0 512). rewrite <- Hsplit. set_solver. }
    apply freewalk_slot; try done.
    + apply Hin. left.
    + pose proof (NoDup_seqZ 0 512) as Hnd. rewrite <- Hsplit in Hnd.
      apply NoDup_app in Hnd as (_ & _ & Hnd). by inversion Hnd.
    + intros k Hk. apply Hin. by right.
  - intros ? s' Hf. destruct (wf_page _ _ _ _ Hwf _ _ Hn) as [Hb _].
    apply wp_returns. exists tt, s'. split; [|done]. apply kfree_held; [done|].
    destruct Hf as (m1 & -> & _). by eapply Href.
Qed.
End walk.
End freewalk.

(** ** Flags of shared pages *)

Lemma bits_testbit v k : 0 <= k -> bits v (Z.shiftl 1 k) = Z.testbit v k.
Proof.
  intros Hk. unfold bits. rewrite Z.shiftl_1_l. destruct (Z.testbit v k) eqn:E.
  - apply negb_true_iff, Z.eqb_neq. intros H.
    apply (f_equal (fun z => Z.testbit z k)) in H. rewrite Z.land_spec, Z.pow2_bits_true, E in H by done.
    by rewrite Z.bits_0 in H.
  - apply negb_false_iff, Z.eqb_eq, Z.bits_inj'. intros i Hi.
    rewrite Z.land_spec, Z.bits_0. destruct (decide (i = k)) as [->|]; [by rewrite E|].
    rewrite Z.pow2_bits_false by done. apply andb_false_r.
Qed.

Lemma cow_bits v :
  0 <= PTE2PA v < 2 ^ 56 -> PTE2PA v mod PGSIZE = 0 ->
  bits (cow v) PTE_W = false /\ bits (cow v) PTE_COW = true /\ bits (cow v) PTE_U = bits v PTE_U.
Proof.
  intros Hpa Hal. pose proof (cow_flags_range v). unfold cow.
  rewrite !bits_leaf by (done || lia). unfold PTE_W, PTE_COW, PTE_U. rewrite !bits_testbit by done.
  unfold cow_flags, PTE_FLAGS. rewrite !Z.lor_spec, !Z.land_spec, !Z.lnot_spec by done.
  change (Z.testbit PTE_W 2) with true. change (Z.testbit PTE_COW 8) with true.
  change (Z.testbit PTE_COW 4) with false. change (Z.testbit PTE_V 4) with false.
  change (Z.testbit 0x3FF 4) with true. change (Z.testbit PTE_W 4) with false.
  change (Z.testbit PTE_COW 2) with false. change (Z.testbit PTE_V 2) with false. simpl.
  by rewrite !andb_false_r, !orb_true_r, !orb_false_r, !andb_true_r.
Qed.

(** What parent and child see of the shared pages. *)
Lemma cow_content end_ `{PA : !PageAllocator end_} s T s' T'' va :
  KERNBASE <= end_ <= PHYSTOP ->
  (valid (pte_of s T va) = true -> bad_pa end_ (PTE2PA (pte_of s T va)) = false /\
     forall x, page (PTE2PA (pte_of s T va)) x -> mem s' x = mem s x) ->
  pte_of s' T'' va = (if valid (pte_of s T va) then cow (pte_of s T va) else 0) \/
  pte_of s' T'' va = (if valid (pte_of s T va) then cow (pte_of s T va) else pte_of s T va) \/
  pte_of s' T'' va = pte_of s T va ->
  ucontent s' T'' va = ucontent s T va.
Proof.
  intros Hend Hm Hp. unfold ucontent. destruct (valid (pte_of s T va)) eqn:Hv.
  - destruct (Hm eq_refl) as [Hb Hx]. apply (bad_pa_range end_ Hend) in Hb as (? & ? & ? & ?).
    destruct (leaf_pte_spec (PTE2PA (pte_of s T va)) (cow_flags (pte_of s T va))) as (E1 & E2 & _);
      [lia|done|apply cow_flags_range|]. fold (cow (pte_of s T va)) in E1, E2.
    assert (valid (pte_of s' T'' va) = true /\ PTE2PA (pte_of s' T'' va) = PTE2PA (pte_of s T va))
      as [-> E] by (destruct Hp as [->|[->| ->]]; done).
    unfold ubyte, upa, ldb. rewrite E. f_equal. apply Hx. unfold page. lia.
  - destruct Hp as [->|[->| ->]]; [done|by rewrite Hv..].
Qed.

(** ** Properties *)

Section properties.
Context (end_ : Z) `{PA : !PageAllocator end_}.

(** A parent's address space of [npages] pages and a child's empty page
    table, as [fork] passes them to [uvmcopy]. *)
Record fork_ready (s : kstate) (root : Z) (T : ptree) (root' : Z) (T' : ptree) (hi : Z) : Prop := {
  fk_end : KERNBASE <= end_ <= PHYSTOP;
  fk_space : uspace end_ s root T 0 hi;
  fk_wf : pt_wf end_ s root' T';
  fk_apart : forall x, pt_mem T x -> ~ pt_mem T' x;
  fk_pages : forall pa x, maps s T 0 hi pa -> page pa x -> ~ pt_mem T' x;
  fk_count : forall pa, maps s T 0 hi pa -> refcount s (pa2index pa) < 255;
  fk_empty : forall va, 0 <= va < hi -> pte_of s T' va = 0;
}.

Definition npages (sz : Z) : Z := (sz + PGSIZE - 1) / PGSIZE.

(** C20: copy-on-write fork.  [uvmcopy] never panics.  If it returns 0,
    the child sees byte for byte what the parent sees, every mapped page is
    shared through a PTE without PTE_W and with PTE_COW in both page tables,
    and each shared page gained exactly one reference.  If it returns -1, which
    does not happen with two free pages per page of the parent, the child maps
    nothing and no reference count has changed.  In both cases the parent sees
    the same memory as before. *)
Theorem uvmcopy_correct s root T root' T' sz :
  0 <= sz -> fork_ready s root T root' T' (npages sz * PGSIZE) ->
  wp (uvmcopy end_ root root' sz) (fun r s' => exists T2,
    pa_inv s' /\ pt_wf end_ s' root T /\ pt_wf end_ s' root' T2 /\
    (avail s (2 * Z.to_nat (npages sz)) -> r = 0) /\
    (forall va, 0 <= va < npages sz * PGSIZE -> ucontent s' T va = ucontent s T va) /\
    ((r = 0 /\
      (forall va, 0 <= va < npages sz * PGSIZE ->
         ucontent s' T2 va = ucontent s T va /\
         (valid (pte_of s T va) = true ->
            pte_of s' T va = pte_of s' T2 va /\ PTE2PA (pte_of s' T va) = PTE2PA (pte_of s T va) /\
            bits (pte_of s' T va) PTE_W = false /\ bits (pte_of s' T va) PTE_COW = true)) /\
      (forall pa, maps s T 0 (npages sz * PGSIZE) pa ->
         refcount s' (pa2index pa) = refcount s (pa2index pa) + 1)) \/
     (r = -1 /\
      (forall va, 0 <= va < npages sz * PGSIZE -> pte_of s' T2 va = 0) /\
      (forall pa, bad_pa end_ pa = false -> ~ pa_free s pa ->
         refcount s' (pa2index pa) = refcount s (pa2index pa))))) s.
Proof.
  intros Hsz [Hend [HI Hwf Hok _ Hhi] Hwf' Hdis Hsep Hcnt Hnew].
  eapply wp_mono; [by apply (uvmcopy_inv end_ Hend s root T root' T' (npages sz * PGSIZE))|].
  rewrite Z.div_mul by done. intros r s' (Hav & T2 & Hr).
  assert (Hpg : forall va, 0 <= va < npages sz * PGSIZE -> valid (pte_of s T va) = true ->
    let pa := PTE2PA (pte_of s T va) in bad_pa end_ pa = false /\
    forall x, page pa x -> ~ pa_free s x /\ ~ pt_mem T x /\ ~ pt_mem T' x).
  { intros va Hva Hv. by destruct (mapped_page end_ s T T' _ Hok Hsep Hcnt va Hva Hv) as (_ & ? & _ & ?). }
  assert (Hsee : forall io i T3, copied end_ s root T root' T' io i s' T2 -> forall va,
    0 <= va < npages sz * PGSIZE ->
    pte_of s' T3 va = (if valid (pte_of s T va) then cow (pte_of s T va) else 0) \/
    pte_of s' T3 va = (if valid (pte_of s T va) then cow (pte_of s T va) else pte_of s T va) \/
    pte_of s' T3 va = pte_of s T va -> ucontent s' T3 va = ucontent s T va).
  { intros io i T3 Hc va Hva Hp. eapply (cow_content end_); [done| |done]. intros Hv.
    destruct (Hpg va Hva Hv) as [Hb Hx]. split; [done|]. intros x Hpx.
    apply (cp_mem _ _ _ _ _ _ _ _ _ _ Hc); by apply Hx. }
  exists T2. destruct Hr as [(-> & Hc & Hrf)|(-> & k & Hk & Hc & Hrf)];
    pose proof Hc as [HI2 Hwf2 Hwf2' Hold Hnw Hmem Hfree Htree]; split_and!; try done.
  all: try (intros va Hva; eapply Hsee; [done|done|]; rewrite Hold by lia;
            destruct (va <? _), (valid (pte_of s T va)); simpl; tauto).
  - left. split_and!; [done| |apply Hrf].
    intros va Hva. rewrite Hold, Hnw by lia. rewrite (proj2 (Z.ltb_lt _ _)) by lia.
    split.
    + eapply Hsee; [done|done|]. left. rewrite Hnw by lia. rewrite (proj2 (Z.ltb_lt _ _)) by lia.
      simpl. by rewrite Hnew.
    + intros Hv. rewrite Hv. simpl. destruct (Hpg va Hva Hv) as [Hb _].
      apply (bad_pa_range end_ Hend) in Hb as (? & ? & ? & ?).
      destruct (cow_bits (pte_of s T va)) as (? & ? & _); [lia|done|]. split_and!; try done.
      destruct (leaf_pte_spec (PTE2PA (pte_of s T va)) (cow_flags (pte_of s T va)))
        as (_ & E & _); [lia|done|apply cow_flags_range|exact E].
  - right. split_and!; [done| |].
    + intros va Hva. rewrite Hnw by lia. rewrite (proj2 (Z.ltb_ge _ _)) by lia. by apply Hnew.
    + intros pa Hb Hnf. apply (cp_ref_other _ _ _ _ _ Hrf); try done. intros (va & ? & _). lia.
Qed.

(** C23: unmapping [n] pages of an address space with freeing returns
    without panic; afterwards none of them is mapped, every other PTE is
    unchanged, each page that was mapped lost exactly one reference and is free
    exactly if that was its last one, and no other memory was written. *)
Theorem uvmunmap_correct s root T va n :
  KERNBASE <= end_ <= PHYSTOP -> pa_inv s -> pt_wf end_ s root T ->
  va mod PGSIZE = 0 -> 0 <= va -> 0 <= n -> va + n * PGSIZE <= MAXVA ->
  space_ok end_ s T va (va + n * PGSIZE) ->
  wp (uvmunmap end_ root va n true) (fun _ s' =>
    pa_inv s' /\ pt_wf end_ s' root T /\
    (forall va', 0 <= va' < MAXVA -> pte_of s' T va' =
       if (va <=? va') && (va' <? va + n * PGSIZE) && valid (pte_of s T va') then 0
       else pte_of s T va') /\
    (forall pa, maps s T va (va + n * PGSIZE) pa ->
       refcount s' (pa2index pa) = refcount s (pa2index pa) - 1) /\
    (forall x, pa_free s' x <-> pa_free s x \/
       exists pa, maps s T va (va + n * PGSIZE) pa /\ refcount s (pa2index pa) = 1 /\ page pa x) /\
    (forall x, ~ pa_free s' x -> ~ pt_mem T x -> mem s' x = mem s x)) s.
Proof.
  intros Hend HI Hwf Hal Hva Hn Hhi Hok.
  eapply wp_mono; [by apply (uvmunmap_inv end_ Hend s root T)|].
  intros ? s' (HI' & Hwf' & []). by split_and!.
Qed.

(** C25: [copyin] changes nothing and never panics; it returns 0 with the
    user's bytes exactly when every byte of the range is mapped for the user,
    and -1 otherwise. *)
Theorem copyin_correct s root T srcva len :
  KERNBASE <= end_ <= PHYSTOP -> pt_wf end_ s root T ->
  0 <= srcva -> 0 <= len -> srcva + len + PGSIZE <= 2 ^ 64 ->
  exists r bs, copyin root srcva len s = Ret ((r, bs), s) /\
    ((r = 0 /\ (forall a, srcva <= a < srcva + len -> uaddr s T a <> 0) /\
      bs = map (ubyte s T) (seqZ srcva len)) \/
     (r = -1 /\ exists a, srcva <= a < srcva + len /\ uaddr s T a = 0)).
Proof. intros. apply (copyin_loop_inv end_); (done || lia). Qed.

Lemma copyout_page_panics s root T va :
  KERNBASE <= end_ <= PHYSTOP -> pa_inv s -> pt_wf end_ s root T ->
  va mod PGSIZE = 0 -> 0 <= va < MAXVA ->
  out_ok (pte_of s T va) = false -> avail s 1 ->
  copyout_page end_ root va s = Panic "mappages: remap".
Proof.
  intros Hend HI Hwf Hal Hva Hout Hav. unfold copyout_page.
  unfold out_ok in Hout. apply orb_false_iff in Hout as [Hv%negb_false_iff Hw].
  rewrite (bind_ret_eq _ _ _ _ _ (walk_spec end_ Hend s root T va Hwf Hva)).
  unfold load. erewrite bind_ret_eq by done. cbv beta.
  rewrite (not_writable end_ Hend s root) by done. rewrite <-andb_assoc, Hw, andb_false_r. cbv beta iota delta [negb].
  destruct (proj1 (wp_returns _ _ _) (pa_alloc s HI)) as (q & s1 & Hk &
    [(-> & -> & Hno)|(Hb & HI1 & Hfr & Hnf & _ & Hm & Hr)]); [by apply avail_none in Hav|].
  rewrite (bind_ret_eq _ _ _ _ _ Hk). cbv beta.
  pose proof (bad_pa_range end_ Hend q Hb) as (? & ? & ? & ?).
  rewrite (proj2 (Z.eqb_neq _ _)) by lia. unfold memset_m. erewrite bind_ret_eq by done. cbv beta.
  assert (Hfill : forall x, ~ page q x -> memset (mem s1) q 0 PGSIZE x = mem s1 x).
  { intros x Hx. apply memset_other; [done|]. unfold page in Hx. lia. }
  apply bind_panic_eq, (mappages_remap end_ Hend _ root T); try done.
  - by eapply alloc_wf.
  - by erewrite alloc_pte.
Qed.

(** A write by the kernel to a page that is mapped but not writable by the user
    (a shared copy-on-write page after [fork], the guard page) takes the lazy-allocation path
    of [copyout], which maps the page a second time: the kernel panics. *)
Theorem copyout_cow_panics s root T dstva b src :
  KERNBASE <= end_ <= PHYSTOP -> pa_inv s -> pt_wf end_ s root T -> 0 <= dstva < MAXVA ->
  out_ok (pte_of s T dstva) = false -> avail s 1 ->
  copyout end_ root dstva (b :: src) s = Panic "mappages: remap".
Proof.
  intros Hend HI Hwf Hd Hw Hav. unfold copyout. cbn [copyout_loop].
  pose proof (PGROUNDDOWN_spec dstva) as [Hal Hrd].
  assert (Hpd : PGROUNDDOWN (PGROUNDDOWN dstva) = PGROUNDDOWN dstva) by (rewrite !PGROUNDDOWN_eq; lia).
  assert (0 <= PGROUNDDOWN dstva) by (rewrite PGROUNDDOWN_eq; lia).
  rewrite (proj2 (Z.leb_gt _ _)) by lia.
  apply bind_panic_eq, (copyout_page_panics s root T); try done; [lia|];
    by rewrite (pte_of_page s T _ dstva).
Qed.

(** C24: [copyout] to a range of the address space.  If every page of the range
    is either lazily unallocated or writable by the user, it never panics; it
    returns 0 when memory suffices, and then the range holds exactly the bytes
    of [src]; on -1 a prefix has been written; everything else the process
    sees, unallocated pages reading as zeros, is unchanged.  If the first page
    of the range is mapped without being writable by the user, as every page
    is after [fork], and a page is free, the kernel panics. *)
Theorem copyout_correct s root T lo hi dstva src :
  KERNBASE <= end_ <= PHYSTOP -> uspace end_ s root T lo hi -> lo mod PGSIZE = 0 ->
  lo <= dstva -> dstva + Z.of_nat (length src) <= hi ->
  ((forall va, dstva <= va < dstva + Z.of_nat (length src) -> out_ok (pte_of s T va) = true) ->
   wp (copyout end_ root dstva src) (fun r s' =>
    (avail s (3 * length src) -> r = 0) /\
    exists T' n, uspace end_ s' root T' lo hi /\
      (r = 0 /\ n = length src \/ r = -1 /\ (n < length src)%nat) /\
      forall va, lo <= va < hi -> ucontent s' T' va =
        written dstva (take n src) (ucontent s T) va) s) /\
  (src <> [] -> out_ok (pte_of s T dstva) = false -> avail s 1 ->
   copyout end_ root dstva src s = Panic "mappages: remap").
Proof.
  intros Hend Hus Hlo Hd Hhi. split.
  - intros Hout. eapply wp_mono; [by apply (copyout_inv end_ Hend)|].
    intros r s' (Hav & T' & n & Hus' & Hr & Hc). split; [done|]. exists T', n.
    split_and!; try done. tauto.
  - intros Hne Hout Hav. destruct src as [|b src]; [done|]. pose proof Hus as [HI Hwf _ H0 Hmax].
    apply (copyout_cow_panics s root T); try done. simpl in Hhi. lia.
Qed.

(** [freewalk] on a page table without leaf mappings returns
    without panic, but frees nothing: its pages come from [kalloc] with a
    reference count of 1, and [kfree] returns early for such a page.  Every
    page of a page table is lost when its process exits. *)
Theorem freewalk_leaks s root T :
  KERNBASE <= end_ <= PHYSTOP -> pa_inv s -> pt_wf end_ s root T ->
  (forall n p, T n = Some p -> 0 < refcount s (pa2index p)) ->
  (forall i j p k, T (N0 i j) = Some p -> 0 <= k < 512 ->
     valid (ld64 (mem s) (p + 8 * k)) = false) ->
  wp (freewalk end_ root) (fun _ s' => pa_inv s' /\ refcount s' = refcount s /\
    forall x, pa_free s' x <-> pa_free s x) s.
Proof.
  intros Hend HI Hwf Href Hleaf.
  assert (Hs : shape (mem s) T NRoot).
  { intros n p j _ Hn Hj. destruct n as [| |i k]; [by apply (wf_slot _ _ _ _ Hwf)..|]. by eapply Hleaf. }
  pose proof (freewalk_node end_ Hend s root T Hwf Href 3 NRoot root (mem s) ltac:(done)
    (wf_root _ _ _ _ Hwf) Hs) as Hw.
  replace (set_mem (mem s) s) with s in Hw by (by destruct s).
  eapply wp_mono; [exact Hw|]. intros ? s' (m' & -> & Hout & _).
  destruct (pa_ext s (set_mem m' s)) as [HI' Hfr]; try done; [|by intros; apply (pa_refr s)].
    intros x Hx. apply Hout. intros (n & p & _ & Hn & Hp).
    by apply (wf_page _ _ _ _ Hwf _ _ Hn) in Hp.
Qed.
End properties.

(** ** Witnesses *)

#[local] Instance boot_pa : PageAllocator boot_end := buddy_allocator boot_end boot_end_ok.

(** A process with one page at [v] and an empty page table for a child. *)
Lemma boot_fork_at perm v hi : 0 <= perm < 1024 -> Z.lor perm PTE_V <> PTE_V ->
  v mod PGSIZE = 0 -> 0 <= v < hi -> hi <= MAXVA ->
  exists s root T root' m, fork_ready boot_end s root T root' (empty_tree root') hi /\
    pte_of s T v = leaf_pte m perm /\ 0 <= m < 2 ^ 56 /\ m mod PGSIZE = 0 /\ avail s 90.
Proof.
  intros Hperm HpV Hal Hv Hhi.
  destruct boot_table as (s & root & HI & Hwf & Hav).
  destruct (proj1 (wp_returns _ _ _) (uvmcreate_inv boot_end boot_end_ok s HI))
    as (root' & s1 & _ & [(_ & _ & Hno)|(Hb & HI1 & Hwf' & Hfr & Hm & Hr)]).
  { exfalso. by apply avail_none in Hav. }
  assert (Hroot : forall x, pt_mem (empty_tree root) x -> ~ pa_free s x).
  { intros x (n & p & Hn & Hp). by apply (wf_page _ _ _ _ Hwf _ _ Hn). }
  assert (Hwf1 : pt_wf boot_end s1 root (empty_tree root)).
  { eapply pt_wf_frame; [done| |]; intros x Hx%Hroot; [by apply Hm|].
    intros Hx'. apply Hx, Hfr. by left. }
  assert (Hus : uspace boot_end s1 root (empty_tree root) 0 hi).
  { constructor; try done. constructor; try done; by intros ? (? & ? & ? & _). }
  assert (Hav1 : avail s1 99).
  { apply (bad_pa_range boot_end boot_end_ok) in Hb as (? & _). by eapply avail_taken. }
  assert (Hempty : forall x, pt_mem (empty_tree root') x -> ~ pa_free s1 x).
  { intros x (n & p & Hn & Hp). by apply (wf_page _ _ _ _ Hwf' _ _ Hn). }
  assert (Hgoal : wp (let! m := kalloc in if m =? 0 then ret 0 else memset_m m 0 PGSIZE ;;
      let! r := mappages root v PGSIZE m perm in ret r)
    (fun r s2 => exists T m, fork_ready boot_end s2 root T root' (empty_tree root') hi /\
      pte_of s2 T v = leaf_pte m perm /\ 0 <= m < 2 ^ 56 /\ m mod PGSIZE = 0 /\ avail s2 90) s1).
  2:{ destruct (proj1 (wp_returns _ _ _) Hgoal) as (r & s2 & _ & T & m & H).
      exists s2, root, T, root', m. exact H. }
  eapply (lazy_map boot_end boot_end_ok s1 root (empty_tree root) 0 hi v); try done.
  - intros _ Hno. exfalso. apply Hno. eapply avail_le; [done|lia].
  - intros ? ? ? _ _ _ _ Hno. exfalso. apply Hno. eapply avail_le; [done|lia].
  - intros m s2 T Hus2 Hf Hbm Hfree Hone Hold Hnew Hav2. wp_step. exists T, m.
    assert (Hsv : same_page v v = true) by apply Z.eqb_refl.
    destruct (Hnew v) as [Hpte _]; [lia|done|].
    pose proof (bad_pa_range boot_end boot_end_ok m Hbm) as (? & ? & ? & ?).
    assert (Hmm : m < 2 ^ 56) by lia.
    assert (Hmaps : forall pa, maps s2 T 0 hi pa -> pa = m).
    { intros pa (va & Hva & Hval & <-). destruct (same_page v va) eqn:Esp.
      2:{ destruct (Hold va Hva Esp) as [E _]. rewrite E in Hval. discriminate Hval. }
      destruct (Hnew va Hva Esp) as [-> _]. by destruct (leaf_pte_spec m perm) as (_ & ? & _); [lia|..]. }
    split_and!; try done; [|lia|apply Hav2; eapply avail_le; [done|lia]].
    constructor; try done.
    + eapply pt_wf_frame; [done| |]; intros x Hx.
      * apply (g_mem _ _ _ _ _ Hf); [by apply Hempty|]. intros (n & p & [-> ->]%empty_tree_eq & Hp).
        destruct Hx as (n' & p' & [-> ->]%empty_tree_eq & Hp').
        apply (Hroot x); [by exists NRoot, root|]. apply Hfr. by right.
      * intros Hx'. apply (Hempty x Hx). by apply (g_free _ _ _ _ _ Hf).
    + intros x (n & p & [Hn|Hn]%(g_new _ _ _ _ _ Hf) & Hp) Hx; [|by eapply (Hempty x), Hn].
        apply empty_tree_eq in Hn as [-> ->]. destruct Hx as (n' & p' & [-> ->]%empty_tree_eq & Hp').
        apply (Hroot x); [by exists NRoot, root|]. apply Hfr. by right.
    + intros pa x ->%Hmaps Hpx Hx. by apply (Hempty x), Hfree.
    + intros pa ->%Hmaps. by rewrite Hone.
Qed.

Lemma boot_fork perm : 0 <= perm < 1024 -> Z.lor perm PTE_V <> PTE_V ->
  exists s root T root' m, fork_ready boot_end s root T root' (empty_tree root') PGSIZE /\
    pte_of s T 0 = leaf_pte m perm /\ 0 <= m < 2 ^ 56 /\ m mod PGSIZE = 0 /\ avail s 90.
Proof. intros ? ?. apply boot_fork_at; try done. Qed.

Definition user_rw : Z := Z.lor (Z.lor PTE_W PTE_R) PTE_U.

Lemma uvmcopy_correct_witness : exists s root T root',
  valid (pte_of s T 0) = true /\
  wp (uvmcopy boot_end root root' 100) (fun r s' => r = 0 /\
    exists T2, ucontent s' T2 5 = ucontent s T 5) s.
Proof.
  destruct (boot_fork user_rw ltac:(done) ltac:(done)) as (s & root & T & root' & m & Hf & Hp & Hm & Hal & Hav).
  exists s, root, T, root'. split.
  - rewrite Hp. unfold valid. rewrite bits_leaf by (done || lia). reflexivity.
  - eapply wp_mono; [apply (uvmcopy_correct boot_end s root T root' (empty_tree root') 100 ltac:(lia) Hf)|].
    intros r s' (T2 & _ & _ & _ & Hr & _ & [(-> & Hc & _)|(-> & _)]).
    + split; [reflexivity|]. exists T2. apply Hc. unfold npages. lia.
    + exfalso. assert (E : -1 = 0) by (apply Hr; eapply avail_le; [exact Hav|vm_compute; lia]). discriminate E.
Defined.

Lemma uvmunmap_correct_witness : exists s root T,
  valid (pte_of s T 0) = true /\
  wp (uvmunmap boot_end root 0 1 true) (fun _ s' => pte_of s' T 0 = 0) s.
Proof.
  destruct (boot_fork user_rw ltac:(done) ltac:(done)) as (s & root & T & root' & m & [_ [HI Hwf Hok _ _] _ _ _ _ _] & Hp & Hm & Hal & _).
  exists s, root, T. assert (Hv : valid (pte_of s T 0) = true).
  { rewrite Hp. unfold valid. rewrite bits_leaf by (done || lia). reflexivity. }
  split; [exact Hv|]. eapply wp_mono.
  - apply (uvmunmap_correct boot_end s root T 0 1 boot_end_ok HI Hwf); [lia..|exact Hok].
  - intros _ s' (_ & _ & Hpte & _). rewrite Hpte by lia. rewrite Hv. reflexivity.
Defined.

Lemma copyin_correct_witness : exists s root T bs,
  uaddr s T 0 <> 0 /\ copyin root 0 10 s = Ret ((0, bs), s).
Proof.
  destruct (boot_fork user_rw ltac:(done) ltac:(done)) as (s & root & T & root' & m & [_ [HI Hwf Hok _ _] _ _ _ _ _] & Hp & Hm & Hal & _).
  assert (Hu : forall a, 0 <= a < PGSIZE -> uaddr s T a <> 0).
  { intros a Ha. rewrite (uaddr_page s T a 0) by (rewrite ?PGROUNDDOWN_eq; lia).
    unfold uaddr, valid. rewrite Hp, !bits_leaf by (done || lia). simpl.
    destruct (leaf_pte_spec m user_rw) as (_ & E & _); [lia|done|done|]. rewrite E. intros ->.
    destruct (sp_page _ _ _ _ _ Hok 0) as (Hb & _); [|discriminate Hb].
    exists 0. unfold valid. rewrite Hp, bits_leaf by (done || lia). split; [lia|]. split; [reflexivity|exact E]. }
  destruct (copyin_correct boot_end s root T 0 10 boot_end_ok Hwf) as (r & bs & Hrun & [(-> & _)|(-> & a & Ha & E)]);
    [lia..| |].
  - exists s, root, T, bs. split; [apply Hu; lia|exact Hrun].
  - exfalso. apply (Hu a); [lia|exact E].
Defined.

Lemma copyout_correct_witness : exists s root T,
  wp (copyout boot_end root 10 [1; 2; 3]) (fun r s' => r = 0 /\
    exists T', ucontent s' T' 11 = 2 /\ ucontent s' T' 20 = ucontent s T 20) s.
Proof.
  destruct (boot_fork user_rw ltac:(done) ltac:(done)) as (s & root & T & root' & m & [_ Hus _ _ _ _ _] & Hp & Hm & Hal & Hav).
  exists s, root, T. eapply wp_mono.
  - apply (proj1 (copyout_correct boot_end s root T 0 PGSIZE 10 [1; 2; 3] boot_end_ok Hus
      ltac:(lia) ltac:(lia) ltac:(simpl; lia))). intros va Hva. simpl in Hva.
    rewrite (pte_of_page s T va 0) by (rewrite !PGROUNDDOWN_eq; lia).
    rewrite Hp. unfold out_ok, valid. rewrite !bits_leaf by (done || lia). reflexivity.
  - intros r s' [Hr (T' & n & _ & Hn & Hc)]. specialize (Hr ltac:(eapply avail_le; [exact Hav|simpl; lia])).
    split; [exact Hr|]. exists T'. destruct Hn as [[_ ->]|[-> _]]; [|discriminate Hr].
    rewrite !Hc by lia. split; reflexivity.
Defined.

Lemma copyout_cow_panics_witness : exists s root,
  copyout boot_end root 16 [7] s = Panic "mappages: remap".
Proof.
  destruct (boot_fork (Z.lor (Z.lor PTE_R PTE_U) PTE_COW) ltac:(done) ltac:(done))
    as (s & root & T & root' & m & [_ [HI Hwf _ _ _] _ _ _ _ _] & Hp & Hm & Hal & Hav).
  exists s, root. apply (copyout_cow_panics boot_end s root T 16 7 [] boot_end_ok HI Hwf);
    [vm_compute; intuition congruence| |eapply avail_le; [exact Hav|lia]].
  rewrite (pte_of_page s T 16 0) by reflexivity. rewrite Hp. unfold out_ok, valid.
  rewrite !bits_leaf by (done || lia). reflexivity.
Defined.

Lemma freewalk_leaks_witness : exists s root,
  wp (freewalk boot_end root) (fun _ s' => ~ pa_free s' root) s.
Proof.
  destruct boot_state as (s0 & L & HI0 & Hr0 & Hfr0).
  assert (HB : @pa_inv boot_end boot_pa s0) by (exists L; exact HI0).
  destruct (proj1 (wp_returns _ _ _) (uvmcreate_inv boot_end boot_end_ok s0 HB))
    as (root & s & _ & [(_ & _ & Hno)|(Hb & HI & Hwf & Hfr & Hm & Hr)]).
  { exfalso. apply (Hno boot_end). exists L. split; [exact HI0|]. apply Hfr0. vm_compute. intuition congruence. }
  exists s, root. eapply wp_mono.
  - apply (freewalk_leaks boot_end s root (empty_tree root) boot_end_ok HI Hwf).
    + intros n p [-> ->]%empty_tree_eq. rewrite Hr, upd_same. lia.
    + intros i j p k E. apply empty_tree_eq in E as [E _]. discriminate E.
  - intros _ s' (_ & _ & Hs). rewrite Hs.
    apply (wf_page _ _ _ _ Hwf NRoot root (wf_root _ _ _ _ Hwf)). apply page_start.
Defined.
