(* ===== verification/Proc.v ===== *)
(** * kernel/proc.c: processes

    The process table, process creation and exit, sleeping and waking, and the
    statistics and parameters of the schedulers.  A process pointer is an index
    into the table, a null pointer is [None].  The current process, [myproc()],
    is the argument [me].  Each operation runs its critical sections without
    interruption; the locks themselves are in Locks.v and, for the scheduler
    loop, in Sched.v.  The outcome [Blocked] is a call of [sleep] from which the
    caller would start over. *)

From S2P Require Import Prelude Bytes Riscv KString Kalloc Vm.

(** ** struct proc (proc.h) *)

Inductive procstate := UNUSED | USED | SLEEPING | RUNNABLE | RUNNING | ZOMBIE.
#[export] Instance procstate_eq_dec : EqDecision procstate.
Proof. solve_decision. Defined.

(** The addresses that processes sleep on. *)
Inductive channel :=
| NoChan | ProcChan (i : nat) | TicksChan | UartChan | DiskChan | LogChan | ConsChan
| PipeRead (pi : Z) | PipeWrite (pi : Z) | LockChan (l : nat) | BufChan (b : nat).
#[export] Instance channel_eq_dec : EqDecision channel.
Proof. solve_decision. Defined.

(** Saved registers of a kernel context: ra, sp and s0 to s11. *)
Record context := Context_ { c_ra : Z; c_sp : Z; c_s : list Z }.

Record proc := Proc {
  p_state : procstate;
  p_chan : channel;
  p_killed : Z;
  p_xstate : Z;
  p_pid : Z;
  p_parent : option nat;
  p_kstack : Z;
  p_sz : Z;
  p_pagetable : Z;
  p_trapframe : Z;
  p_context : context;
  p_ofile : nat -> Z;
  p_cwd : Z;
  p_name : list Z;
  p_priority : Z;
  p_ctime : Z;
  p_stime : Z;
  p_retime : Z;
  p_rutime : Z;
  p_tickets : Z;
}.
Definition set_state (v : procstate) (p : proc) : proc :=
  Proc v (p_chan p) (p_killed p) (p_xstate p) (p_pid p) (p_parent p) (p_kstack p) (p_sz p)
    (p_pagetable p) (p_trapframe p) (p_context p) (p_ofile p) (p_cwd p) (p_name p) (p_priority p)
    (p_ctime p) (p_stime p) (p_retime p) (p_rutime p) (p_tickets p).
Definition set_chan (v : channel) (p : proc) : proc :=
  Proc (p_state p) v (p_killed p) (p_xstate p) (p_pid p) (p_parent p) (p_kstack p) (p_sz p)
    (p_pagetable p) (p_trapframe p) (p_context p) (p_ofile p) (p_cwd p) (p_name p) (p_priority p)
    (p_ctime p) (p_stime p) (p_retime p) (p_rutime p) (p_tickets p).
Definition set_killed (v : Z) (p : proc) : proc :=
  Proc (p_state p) (p_chan p) v (p_xstate p) (p_pid p) (p_parent p) (p_kstack p) (p_sz p)
    (p_pagetable p) (p_trapframe p) (p_context p) (p_ofile p) (p_cwd p) (p_name p) (p_priority p)
    (p_ctime p) (p_stime p) (p_retime p) (p_rutime p) (p_tickets p).
Definition set_xstate (v : Z) (p : proc) : proc :=
  Proc (p_state p) (p_chan p) (p_killed p) v (p_pid p) (p_parent p) (p_kstack p) (p_sz p)
    (p_pagetable p) (p_trapframe p) (p_context p) (p_ofile p) (p_cwd p) (p_name p) (p_priority p)
    (p_ctime p) (p_stime p) (p_retime p) (p_rutime p) (p_tickets p).
Definition set_pid (v : Z) (p : proc) : proc :=
  Proc (p_state p) (p_chan p) (p_killed p) (p_xstate p) v (p_parent p) (p_kstack p) (p_sz p)
    (p_pagetable p) (p_trapframe p) (p_context p) (p_ofile p) (p_cwd p) (p_name p) (p_priority p)
    (p_ctime p) (p_stime p) (p_retime p) (p_rutime p) (p_tickets p).
Definition set_parent (v : option nat) (p : proc) : proc :=
  Proc (p_state p) (p_chan p) (p_killed p) (p_xstate p) (p_pid p) v (p_kstack p) (p_sz p)
    (p_pagetable p) (p_trapframe p) (p_context p) (p_ofile p) (p_cwd p) (p_name p) (p_priority p)
    (p_ctime p) (p_stime p) (p_retime p) (p_rutime p) (p_tickets p).
Definition set_kstack (v : Z) (p : proc) : proc :=
  Proc (p_state p) (p_chan p) (p_killed p) (p_xstate p) (p_pid p) (p_parent p) v (p_sz p)
    (p_pagetable p) (p_trapframe p) (p_context p) (p_ofile p) (p_cwd p) (p_name p) (p_priority p)
    (p_ctime p) (p_stime p) (p_retime p) (p_rutime p) (p_tickets p).
Definition set_sz (v : Z) (p : proc) : proc :=
  Proc (p_state p) (p_chan p) (p_killed p) (p_xstate p) (p_pid p) (p_parent p) (p_kstack p) v
    (p_pagetable p) (p_trapframe p) (p_context p) (p_ofile p) (p_cwd p) (p_name p) (p_priority p)
    (p_ctime p) (p_stime p) (p_retime p) (p_rutime p) (p_tickets p).
Definition set_pagetable (v : Z) (p : proc) : proc :=
  Proc (p_state p) (p_chan p) (p_killed p) (p_xstate p) (p_pid p) (p_parent p) (p_kstack p) (p_sz p)
    v (p_trapframe p) (p_context p) (p_ofile p) (p_cwd p) (p_name p) (p_priority p) (p_ctime p)
    (p_stime p) (p_retime p) (p_rutime p) (p_tickets p).
Definition set_trapframe (v : Z) (p : proc) : proc :=
  Proc (p_state p) (p_chan p) (p_killed p) (p_xstate p) (p_pid p) (p_parent p) (p_kstack p) (p_sz p)
    (p_pagetable p) v (p_context p) (p_ofile p) (p_cwd p) (p_name p) (p_priority p) (p_ctime p)
    (p_stime p) (p_retime p) (p_rutime p) (p_tickets p).
Definition set_context (v : context) (p : proc) : proc :=
  Proc (p_state p) (p_chan p) (p_killed p) (p_xstate p) (p_pid p) (p_parent p) (p_kstack p) (p_sz p)
    (p_pagetable p) (p_trapframe p) v (p_ofile p) (p_cwd p) (p_name p) (p_priority p) (p_ctime p)
    (p_stime p) (p_retime p) (p_rutime p) (p_tickets p).
Definition set_ofile (v : nat -> Z) (p : proc) : proc :=
  Proc (p_state p) (p_chan p) (p_killed p) (p_xstate p) (p_pid p) (p_parent p) (p_kstack p) (p_sz p)
    (p_pagetable p) (p_trapframe p) (p_context p) v (p_cwd p) (p_name p) (p_priority p) (p_ctime p)
    (p_stime p) (p_retime p) (p_rutime p) (p_tickets p).
Definition set_cwd (v : Z) (p : proc) : proc :=
  Proc (p_state p) (p_chan p) (p_killed p) (p_xstate p) (p_pid p) (p_parent p) (p_kstack p) (p_sz p)
    (p_pagetable p) (p_trapframe p) (p_context p) (p_ofile p) v (p_name p) (p_priority p) (p_ctime
    p) (p_stime p) (p_retime p) (p_rutime p) (p_tickets p).
Definition set_name (v : list Z) (p : proc) : proc :=
  Proc (p_state p) (p_chan p) (p_killed p) (p_xstate p) (p_pid p) (p_parent p) (p_kstack p) (p_sz p)
    (p_pagetable p) (p_trapframe p) (p_context p) (p_ofile p) (p_cwd p) v (p_priority p) (p_ctime
    p) (p_stime p) (p_retime p) (p_rutime p) (p_tickets p).
Definition set_priority (v : Z) (p : proc) : proc :=
  Proc (p_state p) (p_chan p) (p_killed p) (p_xstate p) (p_pid p) (p_parent p) (p_kstack p) (p_sz p)
    (p_pagetable p) (p_trapframe p) (p_context p) (p_ofile p) (p_cwd p) (p_name p) v (p_ctime p)
    (p_stime p) (p_retime p) (p_rutime p) (p_tickets p).
Definition set_ctime (v : Z) (p : proc) : proc :=
  Proc (p_state p) (p_chan p) (p_killed p) (p_xstate p) (p_pid p) (p_parent p) (p_kstack p) (p_sz p)
    (p_pagetable p) (p_trapframe p) (p_context p) (p_ofile p) (p_cwd p) (p_name p) (p_priority p) v
    (p_stime p) (p_retime p) (p_rutime p) (p_tickets p).
Definition set_stime (v : Z) (p : proc) : proc :=
  Proc (p_state p) (p_chan p) (p_killed p) (p_xstate p) (p_pid p) (p_parent p) (p_kstack p) (p_sz p)
    (p_pagetable p) (p_trapframe p) (p_context p) (p_ofile p) (p_cwd p) (p_name p) (p_priority p)
    (p_ctime p) v (p_retime p) (p_rutime p) (p_tickets p).
Definition set_retime (v : Z) (p : proc) : proc :=
  Proc (p_state p) (p_chan p) (p_killed p) (p_xstate p) (p_pid p) (p_parent p) (p_kstack p) (p_sz p)
    (p_pagetable p) (p_trapframe p) (p_context p) (p_ofile p) (p_cwd p) (p_name p) (p_priority p)
    (p_ctime p) (p_stime p) v (p_rutime p) (p_tickets p).
Definition set_rutime (v : Z) (p : proc) : proc :=
  Proc (p_state p) (p_chan p) (p_killed p) (p_xstate p) (p_pid p) (p_parent p) (p_kstack p) (p_sz p)
    (p_pagetable p) (p_trapframe p) (p_context p) (p_ofile p) (p_cwd p) (p_name p) (p_priority p)
    (p_ctime p) (p_stime p) (p_retime p) v (p_tickets p).
Definition set_tickets (v : Z) (p : proc) : proc :=
  Proc (p_state p) (p_chan p) (p_killed p) (p_xstate p) (p_pid p) (p_parent p) (p_kstack p) (p_sz p)
    (p_pagetable p) (p_trapframe p) (p_context p) (p_ofile p) (p_cwd p) (p_name p) (p_priority p)
    (p_ctime p) (p_stime p) (p_retime p) (p_rutime p) v.


Definition DEFAULT_TICKETS : Z := 1.
Definition NOFILE : nat := 16.

(** ** The kernel's state

    [F] is the state of the file layer, which is modelled elsewhere. *)
Record kern (F : Type) := Kern {
  kst : kstate;
  procs : nat -> proc;
  nextpid : Z;
  initproc : option nat;
  ticks : Z;
  zs : Z * Z * Z * Z;
  files : F;
}.
Arguments Kern {F}.
Arguments kst {F}. Arguments procs {F}. Arguments nextpid {F}. Arguments initproc {F}.
Arguments ticks {F}. Arguments zs {F}. Arguments files {F}.

(** What the process code uses of the file layer: references to open files and
    to directories, a transaction around the release of a directory, and path
    lookup.  The operations work on the whole kernel state because they can
    sleep and wake processes; the first argument of some is the process that
    calls them. *)
Class FileLayer (F : Type) := {
  filedup : Z -> M (kern F) Z;
  fileclose : nat -> Z -> M (kern F) unit;
  idup : Z -> M (kern F) Z;
  begin_op : M (kern F) unit;
  iput : nat -> Z -> M (kern F) unit;
  end_op : nat -> M (kern F) unit;
  namei : nat -> list Z -> M (kern F) Z;
}.

(** The scheduling algorithm chosen at compile time ([SCHEDFLAG]). *)
Inductive policy := NONE | DEFAULT | PRIORITY | FCFS | LOTTERY | SML.

Section proc.
Context {F : Type}.
Abbreviation K := (kern F).

Definition set_kst (x : kstate) (k : K) : K :=
  Kern x (procs k) (nextpid k) (initproc k) (ticks k) (zs k) (files k).
Definition set_procs (x : nat -> proc) (k : K) : K :=
  Kern (kst k) x (nextpid k) (initproc k) (ticks k) (zs k) (files k).
Definition set_nextpid (x : Z) (k : K) : K :=
  Kern (kst k) (procs k) x (initproc k) (ticks k) (zs k) (files k).
Definition set_initproc (x : option nat) (k : K) : K :=
  Kern (kst k) (procs k) (nextpid k) x (ticks k) (zs k) (files k).
Definition set_ticks (x : Z) (k : K) : K :=
  Kern (kst k) (procs k) (nextpid k) (initproc k) x (zs k) (files k).
Definition set_zs (x : Z * Z * Z * Z) (k : K) : K :=
  Kern (kst k) (procs k) (nextpid k) (initproc k) (ticks k) x (files k).
Definition set_files (x : F) (k : K) : K :=
  Kern (kst k) (procs k) (nextpid k) (initproc k) (ticks k) (zs k) x.

(** A memory operation on the kernel state, and updates of one process. *)
Definition liftk {A} (m : M kstate A) : M K A := zoom kst set_kst m.
Definition get (i : nat) : M K proc := gets (fun k => procs k i).
Definition put_proc (i : nat) (f : proc -> proc) (k : K) : K :=
  set_procs (upd (procs k) i (f (procs k i))) k.
Definition change (i : nat) (f : proc -> proc) : M K unit := modify (put_proc i f).

Definition proc_table : list nat := seq 0 NPROC.

(** ** sleep and wakeup *)

(** The part of [sleep] up to the switch to the scheduler; the caller has
    released its lock.  The part after it is [wake_up_self]. *)
Definition sleep_on (me : nat) (c : channel) : M K unit :=
  change me (set_chan c) ;; change me (set_state SLEEPING).
Definition wake_up_self (me : nat) : M K unit := change me (set_chan NoChan).

Definition wakeup (me : option nat) (c : channel) : M K unit :=
  for_each proc_table (fun i =>
    if bool_decide (Some i = me) then ret tt
    else
      let! p := get i in
      when! bool_decide (p_state p = SLEEPING) && bool_decide (p_chan p = c)
      do change i (set_state RUNNABLE)).

(** [for(p = proc; p < &proc[NPROC]; p++) if(p->pid == pid) ...; the first
    match ends the loop. *)
Definition find_pid (pid : Z) (k : K) : option nat :=
  List.find (fun i => p_pid (procs k i) =? pid) proc_table.

Definition kill (pid : Z) : M K Z :=
  let! o := gets (find_pid pid) in
  match o with
  | None => ret (-1)
  | Some i =>
      change i (set_killed 1) ;;
      let! p := get i in
      (when! bool_decide (p_state p = SLEEPING) do change i (set_state RUNNABLE)) ;;
      ret 0
  end.

Definition setkilled (i : nat) : M K unit := change i (set_killed 1).
Definition killed (i : nat) : M K Z := gets (fun k => p_killed (procs k i)).

(** ** Scheduling statistics and parameters *)

Definition updatestatistics : M K unit :=
  for_each proc_table (fun i =>
    let! p := get i in
    match p_state p with
    | SLEEPING => change i (set_stime (i32 (p_stime p + 1)))
    | RUNNABLE => change i (set_retime (i32 (p_retime p + 1)))
    | RUNNING => change i (set_rutime (i32 (p_rutime p + 1)))
    | _ => ret tt
    end).

(** One of the four generators: [sh1], [sh2] are the shifts that give [b],
    [mask] and [sh3] those of the new state. *)
Definition lfsr (z sh1 sh2 mask sh3 : Z) : Z :=
  let b := Z.shiftr (i32 (Z.lxor (i32 (Z.shiftl z sh1)) z)) sh2 in
  i32 (Z.lxor (Z.shiftl (Z.land z mask) sh3) b).

Definition random (max : Z) : M K Z :=
  if max <=? 0 then ret 1
  else
    let! (z1, z2, z3, z4) := gets zs in
    let z1 := lfsr z1 6 13 4294967294 18 in
    let z2 := lfsr z2 2 27 4294967288 2 in
    let z3 := lfsr z3 13 21 4294967280 7 in
    let z4 := lfsr z4 3 12 4294967168 13 in
    modify (set_zs (z1, z2, z3, z4)) ;;
    let rand := Z.rem (Z.lxor (Z.lxor (Z.lxor z1 z2) z3) z4) max in
    ret (if rand <? 0 then rand * -1 else rand).

Definition chpr (pid priority : Z) : M K Z :=
  let! o := gets (find_pid pid) in
  match o with
  | Some i => change i (set_priority priority) ;; ret pid
  | None => ret pid
  end.
Definition chtickets (pid tickets : Z) : M K Z :=
  let! o := gets (find_pid pid) in
  match o with
  | Some i => change i (set_tickets tickets) ;; ret pid
  | None => ret pid
  end.
End proc.

(** ** Strings *)

(** [safestrcpy] to a field of [n] bytes that holds [s]. *)
Fixpoint take_str (n : nat) (t : list Z) : list Z :=
  match n, t with
  | S n', c :: t' => if c =? 0 then [] else c :: take_str n' t'
  | _, _ => []
  end.
Definition safestrcpy_list (s t : list Z) (n : nat) : list Z :=
  let w := take_str (n - 1) t ++ [0] in w ++ drop (length w) s.

(** ** Process creation and exit *)

Section lifecycle.
(** The end of the kernel image, the page of trampoline.S and the address of
    [forkret] are fixed by the linker. *)
Context {F : Type} `{FL : FileLayer F} (end_ trampoline forkret : Z) (pol : policy).
Abbreviation K := (kern F).

Definition procinit : M K unit :=
  for_each proc_table (fun i =>
    change i (set_state UNUSED) ;; change i (set_kstack (KSTACK (Z.of_nat i)))).

Definition allocpid : M K Z :=
  let! pid := gets nextpid in
  modify (set_nextpid (i32 (pid + 1))) ;; ret pid.

Definition proc_pagetable (i : nat) : M K Z :=
  let! p := get i in
  let! pagetable := liftk uvmcreate in
  if pagetable =? 0 then ret 0
  else
    let! r := liftk (mappages pagetable TRAMPOLINE PGSIZE trampoline (Z.lor PTE_R PTE_X)) in
    if r <? 0 then liftk (uvmfree end_ pagetable 0) ;; ret 0
    else
      let! r := liftk (mappages pagetable TRAPFRAME PGSIZE (p_trapframe p) (Z.lor PTE_R PTE_W)) in
      if r <? 0 then
        liftk (uvmunmap end_ pagetable TRAMPOLINE 1 false) ;;
        liftk (uvmfree end_ pagetable 0) ;; ret 0
      else ret pagetable.

Definition proc_freepagetable (pagetable sz : Z) : M K unit :=
  liftk (uvmunmap end_ pagetable TRAMPOLINE 1 false) ;;
  liftk (uvmunmap end_ pagetable TRAPFRAME 1 false) ;;
  liftk (uvmfree end_ pagetable sz).

Definition freeproc (i : nat) : M K unit :=
  let! p := get i in
  (when! negb (p_trapframe p =? 0) do liftk (kfree end_ (p_trapframe p))) ;;
  change i (set_trapframe 0) ;;
  (when! negb (p_pagetable p =? 0) do proc_freepagetable (p_pagetable p) (p_sz p)) ;;
  change i (set_pagetable 0) ;;
  change i (set_sz 0) ;;
  change i (set_pid 0) ;;
  change i (set_parent None) ;;
  change i (fun p => set_name (<[O := 0]> (p_name p)) p) ;;
  change i (set_chan NoChan) ;;
  change i (set_killed 0) ;;
  change i (set_xstate 0) ;;
  change i (set_state UNUSED).

Definition find_unused (k : K) : option nat :=
  List.find (fun i => bool_decide (p_state (procs k i) = UNUSED)) proc_table.

(** The scheduling fields of a new process. *)
Definition init_sched (i : nat) : M K unit :=
  (match pol with
   | PRIORITY => change i (set_priority 10)
   | SML => change i (set_priority 2)
   | _ => ret tt
   end) ;;
  let! t := gets ticks in
  change i (set_ctime t) ;;
  change i (set_retime 0) ;;
  change i (set_rutime 0) ;;
  change i (set_stime 0) ;;
  change i (set_tickets DEFAULT_TICKETS).

Definition allocproc : M K (option nat) :=
  let! o := gets find_unused in
  match o with
  | None => ret None
  | Some i =>
      let! pid := allocpid in
      change i (set_pid pid) ;;
      change i (set_state USED) ;;
      init_sched i ;;
      let! tf := liftk kalloc in
      change i (set_trapframe tf) ;;
      if tf =? 0 then freeproc i ;; ret None
      else
        let! pt := proc_pagetable i in
        change i (set_pagetable pt) ;;
        if pt =? 0 then freeproc i ;; ret None
        else
          change i (fun p => set_context
            (Context_ forkret (u64 (p_kstack p + PGSIZE)) (repeat 0 12)) p) ;;
          ret (Some i)
  end.

Definition initcode : list Z :=
  [0x17; 0x05; 0x00; 0x00; 0x13; 0x05; 0x45; 0x02;
   0x97; 0x05; 0x00; 0x00; 0x93; 0x85; 0x35; 0x02;
   0x93; 0x08; 0x70; 0x00; 0x73; 0x00; 0x00; 0x00;
   0x93; 0x08; 0x20; 0x00; 0x73; 0x00; 0x00; 0x00;
   0xef; 0xf0; 0x9f; 0xff; 0x2f; 0x69; 0x6e; 0x69;
   0x74; 0x00; 0x00; 0x24; 0x00; 0x00; 0x00; 0x00;
   0x00; 0x00; 0x00; 0x00].

(** Offsets in struct trapframe, and its size. *)
Definition tf_kernel_satp : Z := 0.
Definition tf_kernel_sp : Z := 8.
Definition tf_kernel_trap : Z := 16.
Definition tf_epc : Z := 24.
Definition tf_kernel_hartid : Z := 32.
Definition tf_sp : Z := 48.
Definition tf_a0 : Z := 112.
Definition tf_a1 : Z := 120.
Definition tf_a7 : Z := 168.
Definition tf_size : Z := 288.

(** A character string constant: its bytes without the final NUL. *)
Definition chars (s : string) : list Z :=
  map (fun c => Z.of_nat (Ascii.nat_of_ascii c)) (String.list_ascii_of_string s).

Definition userinit : M K unit :=
  let! o := allocproc in
  modify (set_initproc o) ;;
  match o with
  | None => panic "kerneltrap" (* the null pointer is dereferenced *)
  | Some i =>
      let! p := get i in
      liftk (uvmfirst (p_pagetable p) initcode) ;;
      change i (set_sz PGSIZE) ;;
      liftk (store (p_trapframe p + tf_epc) 0) ;;
      liftk (store (p_trapframe p + tf_sp) PGSIZE) ;;
      change i (set_tickets DEFAULT_TICKETS) ;;
      change i (fun p => set_name (safestrcpy_list (p_name p) (chars "initcode") 16) p) ;;
      let! d := namei i (chars "/") in
      change i (set_cwd d) ;;
      change i (set_state RUNNABLE)
  end.

Definition growproc (me : nat) (n : Z) : M K Z :=
  let! p := get me in
  let sz := p_sz p in
  if 0 <? n then
    let! sz := liftk (uvmalloc (p_pagetable p) sz (u64 (sz + n)) PTE_W) in
    if sz =? 0 then ret (-1) else change me (set_sz sz) ;; ret 0
  else if n <? 0 then
    let! sz := liftk (uvmdealloc end_ (p_pagetable p) sz (u64 (sz + n))) in
    change me (set_sz sz) ;; ret 0
  else change me (set_sz sz) ;; ret 0.

Definition fork (me : nat) : M K Z :=
  let! o := allocproc in
  match o with
  | None => ret (-1)
  | Some np =>
      let! p := get me in
      let! c := get np in
      let! r := liftk (uvmcopy end_ (p_pagetable p) (p_pagetable c) (p_sz p)) in
      if r <? 0 then freeproc np ;; ret (-1)
      else
        change np (set_sz (p_sz p)) ;;
        liftk (modify (fun s =>
          set_mem (memmove (mem s) (p_trapframe c) (p_trapframe p) tf_size) s)) ;;
        change np (set_tickets (p_tickets p)) ;;
        change np (set_priority (p_priority p)) ;;
        liftk (store (p_trapframe c + tf_a0) 0) ;;
        for_each (seq 0 NOFILE) (fun fd =>
          when! negb (p_ofile p fd =? 0) do
            let! f := filedup (p_ofile p fd) in
            change np (fun c => set_ofile (upd (p_ofile c) fd f) c)) ;;
        let! d := idup (p_cwd p) in
        change np (set_cwd d) ;;
        change np (fun c => set_name (safestrcpy_list (p_name c) (p_name p) 16) c) ;;
        let! pid := gets (fun k => p_pid (procs k np)) in
        change np (set_parent (Some me)) ;;
        change np (set_state RUNNABLE) ;;
        ret pid
  end.

Definition proc_chan (p : option nat) : channel :=
  match p with Some i => ProcChan i | None => NoChan end.

Definition reparent (me p : nat) : M K unit :=
  let! init := gets initproc in
  for_each proc_table (fun pp =>
    let! q := get pp in
    when! bool_decide (p_parent q = Some p) do
      (change pp (set_parent init) ;; wakeup (Some me) (proc_chan init))).

(** [exit] up to the switch to the scheduler, from which it does not
    return. *)
Definition exit (me : nat) (status : Z) : M K unit :=
  let! init := gets initproc in
  if bool_decide (Some me = init) then panic "init exiting"
  else
    for_each (seq 0 NOFILE) (fun fd =>
      let! p := get me in
      when! negb (p_ofile p fd =? 0) do
        (fileclose me (p_ofile p fd) ;;
         change me (fun p => set_ofile (upd (p_ofile p) fd 0) p))) ;;
    begin_op ;;
    let! p := get me in
    iput me (p_cwd p) ;;
    end_op me ;;
    change me (set_cwd 0) ;;
    reparent me me ;;
    let! p := get me in
    wakeup (Some me) (proc_chan (p_parent p)) ;;
    change me (set_xstate status) ;;
    change me (set_state ZOMBIE).

Definition is_child (me : nat) (k : K) (i : nat) : bool :=
  bool_decide (p_parent (procs k i) = Some me).
Definition zombie_child (me : nat) (k : K) : option nat :=
  List.find (fun i => is_child me k i && bool_decide (p_state (procs k i) = ZOMBIE)) proc_table.
Definition havekids (me : nat) (k : K) : bool := existsb (is_child me k) proc_table.

(** [if(addr != 0 && copyout(...) < 0)] *)
Definition copyout_int (me : nat) (addr v : Z) : M K bool :=
  if addr =? 0 then ret true
  else
    let! p := get me in
    let! r := liftk (copyout end_ (p_pagetable p) addr (int_bytes v)) in
    ret (negb (r <? 0)).

Definition wait (me : nat) (addr : Z) : M K Z :=
  let! o := gets (zombie_child me) in
  match o with
  | Some pp =>
      let! q := get pp in
      let! ok := copyout_int me addr (p_xstate q) in
      if negb ok then ret (-1) else freeproc pp ;; ret (p_pid q)
  | None =>
      let! h := gets (havekids me) in
      let! d := killed me in
      if negb h || negb (d =? 0) then ret (-1) else blocked
  end.

Definition wait2 (me : nat) (retime_addr rutime_addr stime_addr : Z) : M K Z :=
  let! o := gets (zombie_child me) in
  match o with
  | Some pp =>
      let! q := get pp in
      let! ok := copyout_int me retime_addr (p_retime q) in
      if negb ok then ret (-1)
      else
        let! ok := copyout_int me rutime_addr (p_rutime q) in
        if negb ok then ret (-1)
        else
          let! ok := copyout_int me stime_addr (p_stime q) in
          if negb ok then ret (-1) else freeproc pp ;; ret (p_pid q)
  | None =>
      let! h := gets (havekids me) in
      let! d := killed me in
      if negb h || negb (d =? 0) then ret (-1) else blocked
  end.

(** ** Copies to and from user or kernel addresses *)

Definition either_copyout (me : nat) (user_dst : bool) (dst : Z) (src : list Z) : M K Z :=
  let! p := get me in
  if user_dst then liftk (copyout end_ (p_pagetable p) dst src)
  else liftk (put_bytes dst src) ;; ret 0.

Definition either_copyin (me : nat) (user_src : bool) (src len : Z) : M K (Z * list Z) :=
  let! p := get me in
  if user_src then liftk (copyin (p_pagetable p) src len)
  else
    let! bs := liftk (gets (fun s => ld_bytes (mem s) src (Z.to_nat len))) in
    ret (0, bs).
End lifecycle.
