(* ===== verification/ProcInv.v ===== *)
(** * Invariants of the process table

    The operations of Proc.v keep the process table consistent: pids are
    unique, unused slots are blank, no process is an orphan, and a parent is
    never freed before its children.  The states reachable by system calls,
    wake-ups and scheduling are the states of a step relation. *)

From stdpp Require Import relations.
From S2P Require Import Prelude Riscv KString Kalloc Vm Proc.

(** ** Symbolic execution on the process table *)

Section table.
Context {F : Type}.
Abbreviation K := (kern F).

(** [k'] is [k] with another process [i]. *)
Definition only (i : nat) (k k' : K) (p' : proc) : Prop :=
  procs k' = upd (procs k) i p' /\ nextpid k' = nextpid k /\ initproc k' = initproc k.

Lemma wlp_liftk {A} (m : M kstate A) (Q : A -> K -> Prop) k :
  (forall a s, Q a (set_kst s k)) -> wlp (liftk m) Q k.
Proof. intros HQ. apply wlp_zoom. intros a s _. apply HQ. Qed.

Lemma wlp_change i f (Q : unit -> K -> Prop) k : Q tt (put_proc i f k) -> wlp (change i f) Q k.
Proof. apply wlp_modify. Qed.

(** A loop over the table whose body changes the process of its index. *)
Lemma for_each_change (body : nat -> M K unit) (g : nat -> proc -> proc) l k :
  NoDup l -> (forall i k, body i k = Ret (tt, put_proc i (g i) k)) ->
  for_each l body k =
  Ret (tt, set_procs (fun j => if decide (j ∈ l) then g j (procs k j) else procs k j) k).
Proof.
  intros Hnd Hb. revert k. induction Hnd as [|i l Hi Hnd IH]; intros k; simpl.
  { do 2 f_equal. destruct k; unfold set_procs; simpl. f_equal. }
  erewrite bind_ret_eq by apply Hb. rewrite IH. do 2 f_equal.
  unfold put_proc, set_procs. destruct k; simpl. f_equal.
  apply functional_extensionality. intros j. destruct (decide (j = i)) as [->|Hj].
  - rewrite decide_False by done. rewrite upd_same, decide_True by (left). done.
  - rewrite upd_other by done. destruct (decide (j ∈ l)), (decide (j ∈ i :: l)); set_solver.
Qed.

Lemma in_table i : i ∈ proc_table <-> (i < NPROC)%nat.
Proof. unfold proc_table. rewrite elem_of_seq. lia. Qed.

Lemma put_same i f (k : K) : f (procs k i) = procs k i -> put_proc i f k = k.
Proof.
  intros E. unfold put_proc. rewrite E. destruct k. unfold set_procs. simpl. f_equal.
  apply functional_extensionality. intros j. by rewrite upd_id.
Qed.

(** The same over the whole table. *)
Lemma for_each_table (body : nat -> M K unit) (g : nat -> proc -> proc) k :
  (forall i k, body i k = Ret (tt, put_proc i (g i) k)) ->
  for_each proc_table body k =
  Ret (tt, set_procs (fun i => if decide (i < NPROC)%nat then g i (procs k i) else procs k i) k).
Proof.
  intros Hb. rewrite (for_each_change body g) by (apply NoDup_seq || done). do 2 f_equal. f_equal.
  apply functional_extensionality. intros i.
  destruct (decide (i ∈ proc_table)) as [H|H], (decide (i < NPROC)%nat); try done;
    rewrite in_table in H; done.
Qed.

(** What [wakeup] does to a process. *)
Definition woken (me : option nat) (c : channel) (i : nat) (p : proc) : proc :=
  if bool_decide (Some i <> me) && bool_decide (p_state p = SLEEPING) && bool_decide (p_chan p = c)
  then set_state RUNNABLE p else p.

Lemma wakeup_spec me c (k : K) :
  wakeup me c k = Ret (tt, set_procs (fun i =>
    if decide (i < NPROC)%nat then woken me c i (procs k i) else procs k i) k).
Proof.
  unfold wakeup. apply (for_each_table _ (woken me c)).
  intros i k'. unfold woken. rewrite bool_decide_not.
  destruct (bool_decide (Some i = me)); simpl; [by rewrite put_same|].
  unfold bind, get, gets. destruct (bool_decide _ && bool_decide _) eqn:E; [|by rewrite put_same; simpl; rewrite ?E].
  do 2 f_equal. unfold put_proc. by rewrite E.
Qed.
End table.

(** ** The file layer *)

Section woke.
Context {F : Type}.
Abbreviation K := (kern F).

(** What an operation of the file layer may do to the process table: wake
    processes. *)
Definition woke (k k' : K) : Prop :=
  nextpid k' = nextpid k /\ initproc k' = initproc k /\
  forall i, procs k' i = procs k i \/
    (p_state (procs k i) = SLEEPING /\ procs k' i = set_state RUNNABLE (procs k i)).

Lemma woke_refl k : woke k k.
Proof. split_and!; auto. Qed.

Lemma woke_trans k k1 k2 : woke k k1 -> woke k1 k2 -> woke k k2.
Proof.
  intros (Hn & Hi & Hp) (Hn' & Hi' & Hp'). split_and!; [congruence..|]. intros i.
  destruct (Hp i) as [E|[Hs E]], (Hp' i) as [E'|[Hs' E']]; rewrite ?E in *; auto.
Qed.

Lemma woke_wakeup me c k : wlp (wakeup me c) (fun _ => woke k) k.
Proof.
  intros ? k'. rewrite wakeup_spec. intros [= _ <-]. split_and!; try done. intros i. simpl.
  destruct (decide _); [|by left]. unfold woken.
  destruct (bool_decide_reflect (p_state (procs k i) = SLEEPING)); [|rewrite andb_false_r; by left].
  destruct (_ && _ && _); auto.
Qed.

Lemma woke_files k x : woke k (set_files x k).
Proof. split_and!; try done. by left. Qed.
Lemma woke_kst k x : woke k (set_kst x k).
Proof. split_and!; try done. by left. Qed.
End woke.

(** The promise of the file layer to the process code. *)
Class FileLayerOk (F : Type) {FL : FileLayer F} := {
  fl_filedup : forall f k, wlp (filedup f) (fun _ => woke k) k;
  fl_fileclose : forall me f k, wlp (fileclose me f) (fun _ => woke k) k;
  fl_idup : forall d k, wlp (idup d) (fun _ => woke k) k;
  fl_begin_op : forall k, wlp begin_op (fun _ => woke k) k;
  fl_iput : forall me d k, wlp (iput me d) (fun _ => woke k) k;
  fl_end_op : forall me k, wlp (end_op me) (fun _ => woke k) k;
}.

Section inv.
Context {F : Type} `{FL : FileLayer F} {FOK : FileLayerOk F}.
Context (end_ trampoline forkret : Z) (pol : policy).
Abbreviation K := (kern F).

Definition live (s : procstate) : Prop := s <> UNUSED /\ s <> ZOMBIE.

(** [x] is a slot that [allocproc] has handed out and that has no parent
    yet. *)
Record ptable_inv_but (x : option nat) (k : K) : Prop := {
  pi_unused : forall i, (i < NPROC)%nat -> p_state (procs k i) = UNUSED ->
    p_pid (procs k i) = 0 /\ p_parent (procs k i) = None;
  pi_pid : forall i, (i < NPROC)%nat -> p_state (procs k i) <> UNUSED ->
    0 < p_pid (procs k i) < nextpid k;
  pi_uniq : forall i j, (i < NPROC)%nat -> (j < NPROC)%nat ->
    p_state (procs k i) <> UNUSED -> p_state (procs k j) <> UNUSED ->
    p_pid (procs k i) = p_pid (procs k j) -> i = j;
  pi_parent : forall i j, (i < NPROC)%nat -> p_parent (procs k i) = Some j ->
    (j < NPROC)%nat /\ live (p_state (procs k j));
  pi_init : exists j, initproc k = Some j /\ (j < NPROC)%nat /\ live (p_state (procs k j));
  pi_orphan : forall i, (i < NPROC)%nat ->
    p_state (procs k i) <> UNUSED -> Some i <> initproc k -> Some i <> x ->
    p_parent (procs k i) <> None;
  pi_nextpid : 0 < nextpid k;
  pi_new : forall i, x = Some i -> (i < NPROC)%nat /\ Some i <> initproc k /\
    forall j, (j < NPROC)%nat -> p_parent (procs k j) <> Some i;
}.
Definition ptable_inv : K -> Prop := ptable_inv_but None.

(** The process that [freeproc] leaves. *)
Definition freed_proc (p : proc) : proc :=
  Proc UNUSED NoChan 0 0 0 None (p_kstack p) 0 0 0 (p_context p) (p_ofile p) (p_cwd p)
    (<[O := 0]> (p_name p)) (p_priority p) (p_ctime p) (p_stime p) (p_retime p) (p_rutime p)
    (p_tickets p).

Lemma only_change i f (k k1 : K) p1 :
  only i k k1 p1 -> only i k (put_proc i f k1) (f p1).
Proof.
  intros (Hp & Hn & Hi). unfold only, put_proc. simpl. rewrite Hp, upd_same, upd_upd. done.
Qed.
Lemma only_kst i (k k1 : K) p1 s : only i k k1 p1 -> only i k (set_kst s k1) p1.
Proof. done. Qed.
Lemma only_refl i (k : K) : only i k k (procs k i).
Proof.
  split_and!; try done. apply functional_extensionality. intros j. by rewrite upd_id.
Qed.

Lemma freeproc_only i (k : K) :
  wlp (freeproc end_ i) (fun _ k' => only i k k' (freed_proc (procs k i))) k.
Proof.
  unfold freeproc, get. wlp_step. wlp_step.
  assert (Hskip : forall (b : bool) (m : M K unit) k0 p0, only i k k0 p0 ->
    (forall k1, only i k k1 p0 -> wlp m (fun _ k' => only i k k' p0) k1) ->
    wlp (when! b do m) (fun _ k' => only i k k' p0) k0).
  { intros [] m k0 p0 H0 Hm; [by apply Hm|by wlp_step]. }
  wlp_step. eapply wlp_mono; [apply Hskip; [apply only_refl|]|].
  { intros k1 H1. apply wlp_liftk. intros _ s. by apply only_kst. }
  intros ? k1 H1. wlp_step. apply wlp_change. apply only_change with (f := set_trapframe 0) in H1.
  revert H1. generalize (put_proc i (set_trapframe 0) k1). clear k1. intros k1 H1.
  wlp_step. eapply wlp_mono; [apply Hskip; [exact H1|]|].
  { intros k2 H2. unfold proc_freepagetable. repeat (wlp_step; apply wlp_liftk; intros ? ?).
    apply wlp_liftk. intros ? ?. by repeat apply only_kst. }
  intros ? k2 H2. repeat (wlp_step; apply wlp_change; cbv beta). apply wlp_change.
  destruct (procs k i) eqn:E.
  do 9 (eapply only_change in H2). exact H2.
Qed.

Lemma wlp_proc_pagetable i (Q : Z -> K -> Prop) k :
  (forall pt s, Q pt (set_kst s k)) -> wlp (proc_pagetable end_ trampoline i) Q k.
Proof.
  intros HQ. unfold proc_pagetable, get. wlp_step. wlp_step.
  assert (HQ2 : forall pt s s', Q pt (set_kst s' (set_kst s k))) by (intros; apply HQ).
  wlp_step. apply wlp_liftk. intros pt s1. wlp_step; [wlp_step; apply HQ|].
  wlp_step. apply wlp_liftk. intros r s2. wlp_step.
  { wlp_step. apply wlp_liftk. intros ? s3. wlp_step. apply HQ2. }
  wlp_step. apply wlp_liftk. intros r' s3. wlp_step; [|wlp_step; apply HQ2].
  wlp_step. apply wlp_liftk. intros ? s4. wlp_step. apply wlp_liftk. intros ? s5. wlp_step. apply HQ2.
Qed.

(** [allocproc] takes the first unused slot and a fresh pid; when it fails the
    slot is unused again. *)
Definition allocated_slot (k : K) (i : nat) (o : option nat) (k' : K) : Prop :=
  exists p', only i (set_nextpid (i32 (nextpid k + 1)) k) k' p' /\
    match o with
    | Some i' => i' = i /\ p_state p' = USED /\ p_pid p' = nextpid k /\
        p_parent p' = p_parent (procs k i) /\ p_killed p' = p_killed (procs k i)
    | None => p_state p' = UNUSED /\ p_pid p' = 0 /\ p_parent p' = None
    end.

Lemma allocproc_slot k :
  wlp (allocproc end_ trampoline forkret pol) (fun o k' =>
    match find_unused k with
    | None => o = None /\ k' = k
    | Some i => allocated_slot k i o k'
    end) k.
Proof.
  unfold allocproc. wlp_step. wlp_step. destruct (find_unused k) as [i|]; [|by wlp_step].
  unfold allocpid. wlp_step. wlp_step. wlp_step. wlp_step. wlp_step. wlp_step.
  set (k0 := set_nextpid _ k).
  assert (Hch : forall f (m : M K (option nat)) Q k1 p1, only i k0 k1 p1 ->
    (forall k2, only i k0 k2 (f p1) -> wlp m Q k2) -> wlp (change i f ;; m) Q k1).
  { intros f m Q k1 p1 H1 Hm. wlp_step. apply wlp_change. apply Hm. by apply only_change. }
  assert (Hch' : forall f k1 p1, only i k0 k1 p1 -> wlp (change i f) (fun _ k2 => only i k0 k2 (f p1)) k1).
  { intros f k1 p1 H1. apply wlp_change. by apply only_change. }
  eapply Hch; [apply only_refl|]. intros k1 H1. eapply Hch; [exact H1|]. clear H1 k1. intros k1 H1.
  wlp_step. eapply wlp_mono with (Q := fun _ k2 => exists p2, only i k0 k2 p2 /\
    p_state p2 = USED /\ p_pid p2 = nextpid k /\ p_parent p2 = p_parent (procs k i) /\
    p_killed p2 = p_killed (procs k i)).
  { unfold init_sched. wlp_step.
    eapply wlp_mono with (Q := fun _ k2 => exists p2, only i k0 k2 p2 /\
      p_state p2 = USED /\ p_pid p2 = nextpid k /\ p_parent p2 = p_parent (procs k i) /\
      p_killed p2 = p_killed (procs k i)).
    { destruct pol; try (wlp_step; eexists; split; [exact H1|done]);
        (eapply wlp_mono; [by eapply Hch'|]); intros ? ? Ho; eexists; (split; [exact Ho|done]). }
    intros ? k2 (p2 & H2 & Hs). wlp_step. wlp_step.
    do 4 (wlp_step; apply wlp_change; eapply only_change in H2). apply wlp_change.
    eapply only_change in H2. eexists. split; [exact H2|]. done. }
  intros ? k2 (p2 & H2 & Hs2 & Hp2 & Hpar2 & Hk2). wlp_step. apply wlp_liftk. intros tf s.
  eapply only_kst in H2. eapply Hch; [exact H2|]. clear H2 k2. intros k2 H2.
  assert (Hfree : forall k3 p3, only i k0 k3 p3 ->
    wlp (freeproc end_ i ;; ret None) (fun o k' => allocated_slot k i o k') k3).
  { intros k3 p3 H3. wlp_step. eapply wlp_mono; [apply freeproc_only|].
    intros ? k4 H4. wlp_step. exists (freed_proc p3). split; [|done].
    destruct H3 as (Hp3 & Hn3 & Hi3), H4 as (Hp4 & Hn4 & Hi4).
    split_and!; [|by rewrite Hn4, Hn3|by rewrite Hi4, Hi3].
    by rewrite Hp4, Hp3, upd_same, upd_upd. }
  wlp_step; [by eapply Hfree|]. wlp_step. apply wlp_proc_pagetable. intros pt s'.
  eapply only_kst in H2. eapply Hch; [exact H2|]. clear H2 k2. intros k2 H2.
  wlp_step; [by eapply Hfree|]. eapply Hch; [exact H2|]. intros k3 H3. wlp_step.
  eexists. split; [exact H3|]. done.
Qed.

(** *** Steps that keep pid, parent and liveness *)

Definition compat (p p' : proc) : Prop :=
  p_pid p' = p_pid p /\ p_parent p' = p_parent p /\
  (p_state p' = p_state p \/ live (p_state p) /\ live (p_state p')).

Lemma compat_refl p : compat p p.
Proof. split_and!; auto. Qed.

Lemma compat_live p p' : compat p p' ->
  (p_state p' = UNUSED <-> p_state p = UNUSED) /\ (live (p_state p') <-> live (p_state p)).
Proof. unfold compat, live. intros (_ & _ & [->|H]); tauto. Qed.

Lemma inv_compat x k k' :
  nextpid k' = nextpid k -> initproc k' = initproc k ->
  (forall i, compat (procs k i) (procs k' i)) -> ptable_inv_but x k -> ptable_inv_but x k'.
Proof.
  intros Hn Hi Hc [H1 H2 H3 H4 H5 H6 H7 H8].
  assert (Hu : forall i, p_state (procs k' i) = UNUSED <-> p_state (procs k i) = UNUSED)
    by (intros i; apply compat_live, Hc).
  assert (Hl : forall i, live (p_state (procs k' i)) <-> live (p_state (procs k i)))
    by (intros i; apply compat_live, Hc).
  assert (Hp : forall i, p_pid (procs k' i) = p_pid (procs k i)) by (intros i; apply Hc).
  assert (Hpar : forall i, p_parent (procs k' i) = p_parent (procs k i)) by (intros i; apply Hc).
  constructor; rewrite ?Hn, ?Hi.
  - intros i. rewrite Hu, Hp, Hpar. apply H1.
  - intros i Hlt. rewrite Hu, Hp. by apply H2.
  - intros i j Hlt Hlt'. rewrite !Hu, !Hp. by apply H3.
  - intros i j. rewrite Hpar, Hl. apply H4.
  - destruct H5 as (j & ? & ? & ?). exists j. by rewrite Hl.
  - intros i. rewrite Hu, Hpar. apply H6.
  - done.
  - intros i Hx. setoid_rewrite Hpar. by apply H8.
Qed.

Lemma inv_woke x k k' : woke k k' -> ptable_inv_but x k -> ptable_inv_but x k'.
Proof.
  intros (Hn & Hi & Hp). apply inv_compat; try done. intros i.
  destruct (Hp i) as [->|[Hs ->]]; [by split_and!; auto|]. split_and!; try done. right.
  rewrite Hs. by split; split.
Qed.

Lemma inv_change x i f k :
  compat (procs k i) (f (procs k i)) -> ptable_inv_but x k -> ptable_inv_but x (put_proc i f k).
Proof.
  intros Hc. apply inv_compat; try done. intros j. unfold put_proc. simpl.
  upd_cases j i; [done|]. split_and!; auto.
Qed.

Lemma inv_kst x s k : ptable_inv_but x k -> ptable_inv_but x (set_kst s k).
Proof. by apply inv_woke, woke_kst. Qed.

(** *** Process creation *)

Lemma find_unused_Some (k : K) i :
  find_unused k = Some i -> (i < NPROC)%nat /\ p_state (procs k i) = UNUSED.
Proof.
  intros [Hin Hs]%List.find_some. apply bool_decide_eq_true in Hs. split; [|done].
  apply in_table. by apply list_elem_of_In.
Qed.

(** A slot that was unused: a fresh pid, or still unused. *)
Lemma inv_allocated k i o k' :
  ptable_inv k -> nextpid k < 2 ^ 31 - 1 -> (i < NPROC)%nat -> p_state (procs k i) = UNUSED ->
  allocated_slot k i o k' -> ptable_inv_but o k'.
Proof.
  intros [H1 H2 H3 H4 H5 H6 H7 _] Hmax Hi Hun (p' & (Hp & Hn & Hin) & Ho).
  simpl in Hn, Hin. rewrite i32_id in Hn by lia. destruct (H1 i Hi Hun) as [Hpid Hpar].
  assert (Hother : forall j, j <> i -> procs k' j = procs k j)
    by (intros j Hj; rewrite Hp; simpl; by rewrite upd_other).
  assert (Hself : procs k' i = p') by (rewrite Hp; simpl; by rewrite upd_same).
  assert (Hlive : forall j, live (p_state (procs k j)) -> live (p_state (procs k' j)) ).
  { intros j Hj. rewrite Hother; [done|]. intros ->. by destruct Hj. }
  assert (Hp' : p_state p' = UNUSED /\ p_pid p' = 0 \/ o = Some i /\ p_state p' = USED /\ p_pid p' = nextpid k)
    by (destruct o; [right; by destruct Ho as (-> & ? & ? & _)|left; by destruct Ho as (? & ? & _)]).
  assert (Hpar' : p_parent p' = None)
    by (destruct o; [by destruct Ho as (_ & _ & _ & -> & _)|by destruct Ho as (_ & _ & ?)]).
  assert (Hold : forall j, (j < NPROC)%nat -> p_state (procs k j) <> UNUSED -> p_pid (procs k j) <> nextpid k)
    by (intros j Hj Hs; specialize (H2 j Hj Hs); lia).
  constructor; rewrite ?Hn, ?Hin.
  - intros j Hj. destruct (decide (j = i)) as [->|Hji]; [|rewrite Hother by done; by apply H1].
    rewrite Hself. destruct Hp' as [[_ ?]|(_ & -> & _)]; [done|done].
  - intros j Hj. destruct (decide (j = i)) as [->|Hji].
    + rewrite Hself. destruct Hp' as [[? _]|(_ & _ & ->)]; [done|lia].
    + rewrite Hother by done. intros Hs. specialize (H2 j Hj Hs). lia.
  - intros j j' Hj Hj'. destruct (decide (j = i)) as [->|Hji], (decide (j' = i)) as [->|Hji'];
      rewrite ?Hself, ?(Hother j), ?(Hother j') by done; try done; [| |by apply H3].
    + destruct Hp' as [[? _]|(_ & _ & ->)]; [done|]. intros _ Hs E. by apply Hold in Hs.
    + destruct Hp' as [[? _]|(_ & _ & ->)]; [done|]. intros Hs _ E. by apply Hold in Hs.
  - intros j j'. destruct (decide (j = i)) as [->|Hji]; [rewrite Hself; congruence|].
    rewrite Hother by done. intros Hj E. destruct (H4 j j' Hj E). auto.
  - destruct H5 as (j & ? & ? & ?). exists j. auto.
  - intros j Hj. destruct (decide (j = i)) as [->|Hji].
    + rewrite Hself. destruct Hp' as [[? _]|(-> & _)]; done.
    + rewrite Hother by done. intros Hs Hni _. by apply H6.
  - lia.
  - intros j ->. destruct Ho as (-> & _). split_and!; [done| |].
    + destruct H5 as (j & -> & _ & [Hj _]). intros [= ->]. done.
    + intros j Hj. destruct (decide (j = i)) as [->|Hji]; [by rewrite Hself, Hpar'|].
      rewrite Hother by done. intros E. destruct (H4 j i Hj E) as [_ [? _]]. done.
Qed.

(** The invariant together with the liveness of some processes, which the
    steps below keep. *)
Definition inv_live (x : option nat) (l : list nat) (ini : option nat) (k : K) : Prop :=
  ptable_inv_but x k /\ (forall i, i ∈ l -> live (p_state (procs k i))) /\ initproc k = ini.

Lemma inv_live_compat x l ini k k' :
  nextpid k' = nextpid k -> initproc k' = initproc k ->
  (forall i, compat (procs k i) (procs k' i)) -> inv_live x l ini k -> inv_live x l ini k'.
Proof.
  intros Hn Hi Hc (HI & Hl & Hini). split_and!; [by eapply inv_compat| |congruence]. intros i Hin.
  by apply (compat_live _ _ (Hc i)), Hl.
Qed.

Lemma wlp_compat {A} x l ini i f (m : M K A) Q k :
  (forall p, compat p (f p)) -> inv_live x l ini k ->
  (forall k', inv_live x l ini k' -> wlp m Q k') -> wlp (change i f ;; m) Q k.
Proof.
  intros Hf HI Hm. wlp_step. apply wlp_change, Hm. apply (inv_live_compat x l ini k); [done|done| |done].
  intros j. unfold put_proc. simpl. upd_cases j i; [apply Hf|apply compat_refl].
Qed.

Lemma wlp_kst_op {A B} x l ini (m : M kstate A) (m' : A -> M K B) Q k :
  inv_live x l ini k -> (forall a k', inv_live x l ini k' -> wlp (m' a) Q k') ->
  wlp (let! a := liftk m in m' a) Q k.
Proof.
  intros HI Hm. wlp_step. apply wlp_liftk. intros a s. apply Hm.
  apply (inv_live_compat x l ini k); [done|done| |done]. intros i. apply compat_refl.
Qed.

Lemma wlp_woke_op {A B} x l ini (m : M K A) (m' : A -> M K B) Q k :
  (forall k, wlp m (fun _ => woke k) k) -> inv_live x l ini k ->
  (forall a k', inv_live x l ini k' -> wlp (m' a) Q k') -> wlp (let! a := m in m' a) Q k.
Proof.
  intros Hw HI Hm. wlp_step. eapply wlp_mono; [apply Hw|]. intros a k' (Hn & Hi & Hp). apply Hm.
  apply (inv_live_compat x l ini k); [done|done| |done]. intros i.
  destruct (Hp i) as [->|[Hs ->]]; [by split_and!; auto|]. split_and!; try done.
  right. rewrite Hs. by split; split.
Qed.

(** Giving the new process its parent. *)
Lemma inv_set_parent np me ini k :
  inv_live (Some np) [me; np] ini k -> (me < NPROC)%nat ->
  inv_live None [me; np] ini (put_proc np (set_parent (Some me)) k).
Proof.
  intros ([H1 H2 H3 H4 H5 H6 H7 _] & Hl & Hini) Hme.
  set (k' := put_proc np (set_parent (Some me)) k).
  assert (Hs : forall i, p_state (procs k' i) = p_state (procs k i) /\ p_pid (procs k' i) = p_pid (procs k i)).
  { intros i. unfold k', put_proc. simpl. by upd_cases i np. }
  assert (Hpar : forall i, i <> np -> p_parent (procs k' i) = p_parent (procs k i)).
  { intros i Hi. unfold k', put_proc. simpl. by rewrite upd_other. }
  assert (Hnp : p_parent (procs k' np) = Some me).
  { unfold k', put_proc. simpl. by rewrite upd_same. }
  assert (Hst : forall i, p_state (procs k' i) = p_state (procs k i)) by (intros; apply Hs).
  assert (Hpid : forall i, p_pid (procs k' i) = p_pid (procs k i)) by (intros; apply Hs).
  split_and!; [|intros i Hin; rewrite Hst; by apply Hl|done].
  constructor; try done.
  - intros i Hi. rewrite Hst, Hpid. intros Hu. rewrite Hpar; [by apply H1|].
    intros ->. destruct (Hl np) as [? _]; [set_solver|done].
  - intros i Hi. rewrite Hst, Hpid. by apply H2.
  - intros i j Hi Hj. rewrite !Hst, !Hpid. by apply H3.
  - intros i j Hi. rewrite Hst. destruct (decide (i = np)) as [->|Hne].
    + rewrite Hnp. intros [= <-]. split; [done|]. apply Hl. set_solver.
    + rewrite Hpar by done. by apply H4.
  - destruct H5 as (j & ? & ? & ?). exists j. by rewrite Hst.
  - intros i Hi. rewrite Hst. destruct (decide (i = np)) as [->|Hne]; [by rewrite Hnp|].
    rewrite Hpar by done. intros ? ? _. apply H6; try done. congruence.
Qed.

(** A slot without children that is released. *)
Lemma inv_free x i k k' :
  only i k k' (freed_proc (procs k i)) -> ptable_inv_but x k -> x = None \/ x = Some i ->
  (i < NPROC)%nat -> Some i <> initproc k ->
  (forall j, (j < NPROC)%nat -> p_parent (procs k j) <> Some i) -> ptable_inv k'.
Proof.
  intros (Hp & Hn & Hin) [H1 H2 H3 H4 H5 H6 H7 _] Hx Hi Hni Hch.
  assert (Hother : forall j, j <> i -> procs k' j = procs k j)
    by (intros j Hj; rewrite Hp; by rewrite upd_other).
  assert (Hself : procs k' i = freed_proc (procs k i)) by (rewrite Hp; by rewrite upd_same).
  constructor; rewrite ?Hn, ?Hin.
  - intros j Hj. destruct (decide (j = i)) as [->|Hne]; [by rewrite Hself|].
    rewrite Hother by done. by apply H1.
  - intros j Hj. destruct (decide (j = i)) as [->|Hne]; [by rewrite Hself|].
    rewrite Hother by done. by apply H2.
  - intros j j' Hj Hj'. destruct (decide (j = i)) as [->|], (decide (j' = i)) as [->|];
      rewrite ?Hself, ?(Hother j), ?(Hother j') by done; try done. by apply H3.
  - intros j j' Hj. destruct (decide (j = i)) as [->|Hne]; [by rewrite Hself|].
    rewrite (Hother j) by done. intros E. rewrite Hother; [by eapply H4|]. intros ->.
    by eapply Hch.
  - destruct H5 as (j & Hj & ? & ?). exists j. rewrite Hother by congruence. done.
  - intros j Hj. destruct (decide (j = i)) as [->|Hne]; [by rewrite Hself|].
    rewrite Hother by done. intros ? ? _. apply H6; try done. destruct Hx as [->| ->]; congruence.
  - done.
  - done.
Qed.

Ltac keep_compat :=
  eapply wlp_compat; [by intros ?; split_and!; [| |left]|eassumption|].

Lemma fork_inv me k :
  ptable_inv k -> nextpid k < 2 ^ 31 - 1 -> (me < NPROC)%nat -> live (p_state (procs k me)) ->
  wlp (fork end_ trampoline forkret pol me) (fun _ => ptable_inv) k.
Proof.
  intros HI Hmax Hme Hlive. unfold fork. wlp_step. eapply wlp_mono; [apply allocproc_slot|].
  intros o k1 Hal. destruct (find_unused k) as [i|] eqn:Hf.
  2:{ destruct Hal as [-> ->]. by wlp_step. }
  apply find_unused_Some in Hf as [Hi Hun].
  pose proof (inv_allocated k i o k1 HI Hmax Hi Hun Hal) as HI1.
  destruct Hal as (p' & (Hp & Hn & Hin) & Ho). destruct o as [np|]; [|by wlp_step].
  destruct Ho as (-> & Hs & _).
  assert (Hmei : me <> i) by (intros ->; by destruct Hlive).
  assert (HJ : inv_live (Some i) [me; i] (initproc k) k1).
  { split_and!; [done| |done]. intros j Hj. rewrite Hp. simpl. assert (j = me \/ j = i) as [->| ->] by set_solver.
    - by rewrite upd_other.
    - rewrite upd_same, Hs. done. }
  unfold get. wlp_step. wlp_step. wlp_step. wlp_step.
  eapply wlp_kst_op; [done|]. clear HJ HI1. intros r k2 HJ. wlp_step.
  { wlp_step. eapply wlp_mono; [apply freeproc_only|]. intros ? k3 Ho. wlp_step.
    destruct HJ as [HI2 _]. destruct (pi_new _ _ HI2 i eq_refl) as (_ & ? & ?).
    apply (inv_free (Some i) i k2 k3); auto. }
  keep_compat. clear HJ k2. intros k2 HJ. eapply wlp_kst_op; [done|]. clear HJ k2. intros _ k2 HJ.
  keep_compat. clear HJ k2. intros k2 HJ. keep_compat. clear HJ k2. intros k2 HJ.
  eapply wlp_kst_op; [done|]. clear HJ k2. intros _ k2 HJ. wlp_step.
  eapply wlp_mono; [apply (wlp_for_each _ (inv_live (Some i) [me; i] (initproc k))); [done|]|].
  { intros fd k3 _ HJ3. wlp_step; [|by wlp_step].
    eapply wlp_woke_op; [apply fl_filedup|done|]. intros f k4 HJ4.
    apply wlp_change. apply (inv_live_compat _ _ _ k4); try done. intros j. unfold put_proc. simpl.
    upd_cases j i; [by split_and!; [| |left]|apply compat_refl]. }
  clear HJ k2. intros ? k2 HJ. eapply wlp_woke_op; [apply fl_idup|exact HJ|]. clear HJ k2. intros d k2 HJ.
  keep_compat. clear HJ k2. intros k2 HJ. keep_compat. clear HJ k2. intros k2 HJ.
  wlp_step. wlp_step. wlp_step. apply wlp_change. apply inv_set_parent in HJ; [|done].
  wlp_step. apply wlp_change. wlp_step. destruct HJ as (HJ & Hl & _).
  apply inv_change; [|done]. split_and!; try done. right. split; [apply Hl; set_solver|done].
Qed.

(** *** exit *)

(** A process whose children have been given away becomes a zombie. *)
Lemma inv_zombie me k :
  ptable_inv k -> (me < NPROC)%nat -> p_state (procs k me) <> UNUSED -> Some me <> initproc k ->
  (forall j, (j < NPROC)%nat -> p_parent (procs k j) <> Some me) ->
  ptable_inv (put_proc me (set_state ZOMBIE) k).
Proof.
  intros [H1 H2 H3 H4 H5 H6 H7 _] Hme Hs Hni Hch. set (k' := put_proc _ _ _).
  assert (Hpp : forall i, p_pid (procs k' i) = p_pid (procs k i) /\ p_parent (procs k' i) = p_parent (procs k i))
    by (intros i; unfold k', put_proc; simpl; by upd_cases i me).
  assert (Hpid : forall i, p_pid (procs k' i) = p_pid (procs k i)) by (intros; apply Hpp).
  assert (Hpar : forall i, p_parent (procs k' i) = p_parent (procs k i)) by (intros; apply Hpp).
  assert (Hother : forall i, i <> me -> procs k' i = procs k i)
    by (intros i Hi; unfold k', put_proc; simpl; by rewrite upd_other).
  assert (Hu : forall i, p_state (procs k' i) = UNUSED <-> p_state (procs k i) = UNUSED).
  { intros i. destruct (decide (i = me)) as [->|]; [|by rewrite Hother].
    unfold k', put_proc. simpl. rewrite upd_same. done. }
  constructor; try done.
  - intros i Hi. rewrite Hu, Hpid, Hpar. by apply H1.
  - intros i Hi. rewrite Hu, Hpid. by apply H2.
  - intros i j Hi Hj. rewrite !Hu, !Hpid. by apply H3.
  - intros i j Hi. rewrite Hpar. intros E. rewrite Hother; [by eapply H4|].
    intros ->. by eapply Hch.
  - destruct H5 as (j & Hj & ? & ?). exists j. rewrite Hother by congruence. done.
  - intros i Hi. rewrite Hu, Hpar. by apply H6.
Qed.

(** Giving a child to init. *)
Lemma inv_reparent x pp init k :
  ptable_inv_but x k -> initproc k = init -> p_parent (procs k pp) <> None -> (pp < NPROC)%nat ->
  x = None -> ptable_inv_but x (put_proc pp (set_parent init) k).
Proof.
  intros [H1 H2 H3 H4 H5 H6 H7 H8] Hini Hpar Hpp ->. set (k' := put_proc _ _ _).
  assert (Hps : forall i, p_pid (procs k' i) = p_pid (procs k i) /\ p_state (procs k' i) = p_state (procs k i))
    by (intros i; unfold k', put_proc; simpl; by upd_cases i pp).
  assert (Hpid : forall i, p_pid (procs k' i) = p_pid (procs k i)) by (intros; apply Hps).
  assert (Hst : forall i, p_state (procs k' i) = p_state (procs k i)) by (intros; apply Hps).
  assert (Hother : forall i, i <> pp -> procs k' i = procs k i)
    by (intros i Hi; unfold k', put_proc; simpl; by rewrite upd_other).
  assert (Hself : p_parent (procs k' pp) = init)
    by (unfold k', put_proc; simpl; by rewrite upd_same).
  destruct H5 as (ji & Hji & Hjlt & Hjl). constructor; try done.
  - intros i Hi. rewrite Hst. intros Hu. destruct (H1 i Hi Hu) as [? E].
    rewrite Hother; [done|]. intros ->. congruence.
  - intros i Hi. rewrite Hst, Hpid. by apply H2.
  - intros i j Hi Hj. rewrite !Hst, !Hpid. by apply H3.
  - intros i j Hi. rewrite Hst. destruct (decide (i = pp)) as [->|].
    + rewrite Hself. intros E. assert (j = ji) as -> by congruence. done.
    + rewrite Hother by done. by apply H4.
  - exists ji. by rewrite Hst.
  - intros i Hi. rewrite Hst. destruct (decide (i = pp)) as [->|].
    + rewrite Hself. congruence.
    + rewrite Hother by done. by apply H6.
Qed.

Lemma reparent_inv me ini k :
  inv_live None [me] ini k -> Some me <> ini ->
  wlp (reparent me me) (fun _ k' => inv_live None [me] ini k' /\
    forall j, (j < NPROC)%nat -> p_parent (procs k' j) <> Some me) k.
Proof.
  intros HI Hni. unfold reparent. wlp_step. wlp_step.
  assert (initproc k = ini) as -> by apply HI.
  eapply wlp_mono.
  - apply (wlp_for_each_rest _ (fun rest k' => inv_live None [me] ini k' /\
      (forall j, j ∈ rest -> (j < NPROC)%nat) /\
      forall j, (j < NPROC)%nat -> j ∉ rest -> p_parent (procs k' j) <> Some me)).
    + split_and!; [done|by intros j ?%in_table|]. intros j Hj Hn. by rewrite in_table in Hn.
    + clear k HI. intros pp rest k (HI & Hlt & Hdone). unfold get. wlp_step. wlp_step.
      assert (Hlt' : forall j, j ∈ rest -> (j < NPROC)%nat) by (intros; apply Hlt; by right).
      assert (Hpp : (pp < NPROC)%nat) by (apply Hlt; left).
      destruct (bool_decide_reflect (p_parent (procs k pp) = Some me)) as [E|E].
      2:{ wlp_step. split_and!; try done. intros j Hj Hn. destruct (decide (j = pp)) as [->|]; [done|].
          apply Hdone; [done|]. set_solver. }
      wlp_step. apply wlp_change.
      set (P := fun (j : nat) (p : proc) => (j < NPROC)%nat -> j ∉ rest -> p_parent p <> Some me).
      assert (HI' : inv_live None [me] ini (put_proc pp (set_parent ini) k)).
      { destruct HI as (HI & Hl & Hini). split_and!; [apply inv_reparent; congruence| |done].
        intros i ->%list_elem_of_singleton. unfold put_proc. simpl.
        upd_cases me pp; [|apply Hl; set_solver]. simpl. apply Hl. set_solver. }
      intros ? k'. rewrite wakeup_spec. intros [= _ <-]. split_and!; [|done|].
      * eapply inv_live_compat; [| | |exact HI']; try done. intros i. simpl.
        destruct (decide (i < NPROC)%nat); [|apply compat_refl]. unfold woken.
        destruct (bool_decide_reflect (p_state (upd (procs k) pp (set_parent ini (procs k pp)) i) = SLEEPING)) as [Hs|];
          [|rewrite andb_false_r; apply compat_refl].
        destruct (_ && _ && _); [|apply compat_refl]. split_and!; try done. right. by rewrite Hs.
      * intros j Hj Hn. simpl. rewrite decide_True by done.
        assert (Hp : forall p, p_parent (woken (Some me) (proc_chan ini) j p) = p_parent p)
          by (intros p; unfold woken; by destruct (_ && _ && _)).
        rewrite Hp. upd_cases j pp; [simpl; congruence|]. apply Hdone; [done|]. set_solver.
  - intros ? k' (HI' & _ & Hall). split; [done|]. intros j Hj. apply Hall; [done|]. set_solver.
Qed.

Lemma exit_inv me st k :
  ptable_inv k -> (me < NPROC)%nat -> live (p_state (procs k me)) ->
  wlp (exit me st) (fun _ => ptable_inv) k.
Proof.
  intros HI Hme Hl. unfold exit. wlp_step. wlp_step. wlp_step; [by wlp_step|].
  match goal with H : bool_decide _ = false |- _ => apply bool_decide_eq_false in H as Hni end.
  assert (HJ : inv_live None [me] (initproc k) k) by (split_and!; [done|set_solver|done]).
  revert HJ Hni. generalize (initproc k). intros ini HJ Hni. wlp_step.
  eapply wlp_mono; [apply (wlp_for_each _ (inv_live None [me] ini)); [done|]|].
  { intros fd k1 _ HJ1. unfold get. wlp_step. wlp_step. wlp_step; [|by wlp_step].
    eapply wlp_woke_op; [apply fl_fileclose|exact HJ1|]. intros _ k2 HJ2. apply wlp_change.
    eapply inv_live_compat; [| | |exact HJ2]; try done. intros j. unfold put_proc. simpl.
    upd_cases j me; [by split_and!; [| |left]|apply compat_refl]. }
  clear -FOK HJ Hni Hme. rename k into k0, HJ into HJ0. intros ? k HJ. clear HJ0 k0.
  eapply wlp_woke_op; [apply fl_begin_op|exact HJ|]. clear HJ k. intros _ k HJ.
  unfold get. wlp_step. wlp_step.
  eapply wlp_woke_op; [apply fl_iput|exact HJ|]. clear HJ. intros _ k1 HJ.
  eapply wlp_woke_op; [apply fl_end_op|exact HJ|]. clear HJ k1. intros _ k1 HJ.
  keep_compat. clear HJ k1. intros k1 HJ. wlp_step. eapply wlp_mono; [by apply reparent_inv|].
  intros ? k2 [HJ2 Hno]. wlp_step. wlp_step. wlp_step.
  eapply wlp_mono; [apply woke_wakeup|]. intros ? k3 Hw.
  assert (Hno3 : forall j, (j < NPROC)%nat -> p_parent (procs k3 j) <> Some me).
  { intros j Hj. destruct Hw as (_ & _ & Hp). destruct (Hp j) as [->|[_ ->]]; by apply Hno. }
  assert (HJ3 : inv_live None [me] ini k3).
  { destruct HJ2 as (HI2 & Hl2 & Hi2), Hw as (Hn & Hi & Hp).
    apply (inv_live_compat None [me] ini k2); try done. intros i.
    destruct (Hp i) as [->|[Hs ->]]; [apply compat_refl|]. split_and!; try done. right. by rewrite Hs. }
  wlp_step. apply wlp_change. apply wlp_change. destruct HJ3 as (HI3 & Hl3 & Hi3).
  apply inv_zombie; try done.
  - apply inv_change; [|done]. by split_and!; [| |left].
  - unfold put_proc. simpl. rewrite upd_same. simpl. apply Hl3. set_solver.
  - simpl. congruence.
  - intros j Hj. unfold put_proc. simpl. upd_cases j me; by apply Hno3.
Qed.

(** *** wait *)

Lemma zombie_child_Some me (k : K) pp :
  zombie_child me k = Some pp ->
  (pp < NPROC)%nat /\ p_parent (procs k pp) = Some me /\ p_state (procs k pp) = ZOMBIE.
Proof.
  intros [Hin Hs]%List.find_some. apply andb_true_iff in Hs as [Hc Hz].
  unfold is_child in Hc. apply bool_decide_eq_true in Hc, Hz. split_and!; try done.
  apply in_table. by apply list_elem_of_In.
Qed.

Lemma wlp_copyout_int {A} me addr v (m : bool -> M K A) Q k :
  (forall b s, wlp (m b) Q (set_kst s k)) -> wlp (let! ok := copyout_int end_ me addr v in m ok) Q k.
Proof.
  intros Hm. wlp_step. unfold copyout_int, get. wlp_step.
  - wlp_step. specialize (Hm true (kst k)). by destruct k.
  - wlp_step. wlp_step. wlp_step. apply wlp_liftk. intros r s. wlp_step. apply Hm.
Qed.

(** Reaping a zombie, in a state that differs in memory only. *)
Lemma reap_inv me pp k k1 (v : Z) :
  ptable_inv k -> zombie_child me k = Some pp -> procs k1 = procs k ->
  nextpid k1 = nextpid k -> initproc k1 = initproc k ->
  wlp (freeproc end_ pp ;; ret v) (fun _ => ptable_inv) k1.
Proof.
  intros HI (Hpp & Hpar & Hz)%zombie_child_Some Hp Hn Hi.
  assert (HI1 : ptable_inv k1) by (eapply inv_compat; [..|exact HI]; try done; intros; rewrite Hp; apply compat_refl).
  wlp_step. eapply wlp_mono; [apply freeproc_only|]. intros ? k2 Ho. wlp_step.
  apply (inv_free None pp k1 k2); auto.
  - destruct (pi_init _ _ HI1) as (j & -> & _ & [_ Hj]). intros [= ->]. by rewrite Hp in Hj.
  - intros j Hj E. destruct (pi_parent _ _ HI1 j pp Hj E) as [_ [_ ?]]. by rewrite Hp in *.
Qed.

Lemma wait_inv me addr k : ptable_inv k -> wlp (wait end_ me addr) (fun _ => ptable_inv) k.
Proof.
  intros HI. unfold wait. wlp_step. wlp_step. destruct (zombie_child me k) as [pp|] eqn:Hz.
  - unfold get. wlp_step. wlp_step. apply wlp_copyout_int. intros b s. wlp_step.
    + wlp_step. by apply inv_kst.
    + by eapply reap_inv.
  - wlp_step. wlp_step. unfold killed. wlp_step. wlp_step. wlp_step; by wlp_step.
Qed.

Lemma wait2_inv me a1 a2 a3 k : ptable_inv k -> wlp (wait2 end_ me a1 a2 a3) (fun _ => ptable_inv) k.
Proof.
  intros HI. unfold wait2. wlp_step. wlp_step. destruct (zombie_child me k) as [pp|] eqn:Hz.
  - unfold get. wlp_step. wlp_step. do 3 (apply wlp_copyout_int; intros ? ?;
      wlp_step; [wlp_step; by repeat apply inv_kst|]). by eapply reap_inv.
  - wlp_step. wlp_step. unfold killed. wlp_step. wlp_step. wlp_step; by wlp_step.
Qed.

(** *** The other operations *)

Lemma keeps_inv {A} (m : M K A) k :
  wlp m (fun _ k' => nextpid k' = nextpid k /\ initproc k' = initproc k /\
    forall i, compat (procs k i) (procs k' i)) k ->
  ptable_inv k -> wlp m (fun _ => ptable_inv) k.
Proof.
  intros Hm HI. eapply wlp_mono; [done|]. intros ? k' (? & ? & ?). by eapply inv_compat.
Qed.

Lemma change_keeps i f (k : K) :
  compat (procs k i) (f (procs k i)) ->
  wlp (change i f) (fun _ k' => nextpid k' = nextpid k /\ initproc k' = initproc k /\
    forall j, compat (procs k j) (procs k' j)) k.
Proof.
  intros Hc. apply wlp_change. split_and!; try done. intros j. unfold put_proc. simpl.
  upd_cases j i; [done|apply compat_refl].
Qed.

Lemma change_keeps_inv i f k :
  compat (procs k i) (f (procs k i)) -> ptable_inv k -> wlp (change i f) (fun _ => ptable_inv) k.
Proof. intros Hc. by apply keeps_inv, change_keeps. Qed.

Lemma kill_inv pid k : ptable_inv k -> wlp (kill pid) (fun _ => ptable_inv) k.
Proof.
  intros HI. unfold kill. wlp_step. wlp_step. destruct (find_pid pid k) as [i|]; [|by wlp_step].
  wlp_step. eapply wlp_mono; [apply change_keeps_inv; [by split_and!; [| |left]|done]|].
  intros ? k1 HI1. unfold get. wlp_step. wlp_step. wlp_step.
  destruct (bool_decide_reflect (p_state (procs k1 i) = SLEEPING)) as [Hs|].
  - eapply wlp_mono; [apply change_keeps_inv; [|exact HI1]|].
    + split_and!; try done. right. by rewrite Hs.
    + intros ? k2 HI2. by wlp_step.
  - by do 2 wlp_step.
Qed.

Lemma param_inv pid (f : proc -> proc) k :
  (forall p, compat p (f p)) -> ptable_inv k ->
  wlp (let! o := gets (find_pid pid) in
       match o with Some i => change i f ;; ret pid | None => ret pid end) (fun _ => ptable_inv) k.
Proof.
  intros Hf HI. wlp_step. wlp_step. destruct (find_pid pid k) as [i|]; [|by wlp_step].
  wlp_step. eapply wlp_mono; [by apply change_keeps_inv|]. intros ? k1 HI1. by wlp_step.
Qed.

Lemma growproc_inv me n k : ptable_inv k -> wlp (growproc end_ me n) (fun _ => ptable_inv) k.
Proof.
  intros HI. unfold growproc, get. wlp_step. wlp_step.
  assert (Hset : forall sz (k1 : K), ptable_inv k1 -> wlp (change me (set_sz sz) ;; ret 0) (fun _ => ptable_inv) k1).
  { intros sz k1 HI1. wlp_step.
    eapply wlp_mono; [apply change_keeps_inv; [by split_and!; [| |left]|done]|].
    intros ? k2 HI2. by wlp_step. }
  wlp_step; [|wlp_step; [|by apply Hset]].
  - wlp_step. apply wlp_liftk. intros sz s. wlp_step; [wlp_step|apply Hset]; by apply inv_kst.
  - wlp_step. apply wlp_liftk. intros sz s. by apply Hset, inv_kst.
Qed.

Lemma updatestatistics_inv k : ptable_inv k -> wlp updatestatistics (fun _ => ptable_inv) k.
Proof.
  intros HI. apply (wlp_for_each _ ptable_inv); [done|]. intros i k1 _ HI1. unfold get.
  wlp_step. wlp_step. destruct (p_state (procs k1 i)) eqn:E; try by wlp_step.
  all: apply change_keeps_inv; [by split_and!; [| |left]|done].
Qed.

(** ** Reachable process tables *)

Definition running (k : K) (me : nat) : Prop :=
  (me < NPROC)%nat /\ p_state (procs k me) = RUNNING.

(** One system call, wake-up, clock tick or scheduling decision.  Forks stop
    when the pids are used up. *)
Inductive pstep (k : K) : K -> Prop :=
| ps_fork me r k' : running k me -> nextpid k < 2 ^ 31 - 1 ->
    fork end_ trampoline forkret pol me k = Ret (r, k') -> pstep k k'
| ps_exit me st k' : running k me -> exit me st k = Ret (tt, k') -> pstep k k'
| ps_wait me addr r k' : running k me -> wait end_ me addr k = Ret (r, k') -> pstep k k'
| ps_wait2 me a1 a2 a3 r k' : running k me -> wait2 end_ me a1 a2 a3 k = Ret (r, k') -> pstep k k'
| ps_kill me pid r k' : running k me -> kill pid k = Ret (r, k') -> pstep k k'
| ps_growproc me n r k' : running k me -> growproc end_ me n k = Ret (r, k') -> pstep k k'
| ps_chpr me pid v r k' : running k me -> chpr pid v k = Ret (r, k') -> pstep k k'
| ps_chtickets me pid v r k' : running k me -> chtickets pid v k = Ret (r, k') -> pstep k k'
| ps_sleep me c k' : running k me -> sleep_on me c k = Ret (tt, k') -> pstep k k'
| ps_wakeup me c k' : wakeup me c k = Ret (tt, k') -> pstep k k'
| ps_tick k' : updatestatistics k = Ret (tt, k') -> pstep k k'
| ps_yield me : running k me -> pstep k (put_proc me (set_state RUNNABLE) k)
| ps_schedule i : (i < NPROC)%nat -> p_state (procs k i) = RUNNABLE ->
    pstep k (put_proc i (set_state RUNNING) k).

Lemma running_live k me : running k me -> live (p_state (procs k me)).
Proof. intros [_ ->]. done. Qed.

Lemma sleep_on_inv me c k :
  ptable_inv k -> running k me -> wlp (sleep_on me c) (fun _ => ptable_inv) k.
Proof.
  intros HI Hr. unfold sleep_on. wlp_step.
  eapply wlp_mono; [apply change_keeps; by split_and!; [| |left]|]. intros ? k2 (Hn & Hi & Hc).
  assert (HI2 : ptable_inv k2) by (by eapply inv_compat).
  apply change_keeps_inv; [|done]. split_and!; try done. right. split; [|done].
  eapply compat_live; [apply Hc|]. by apply running_live.
Qed.

Lemma pstep_inv k k' : ptable_inv k -> pstep k k' -> ptable_inv k'.
Proof.
  intros HI [me r k1 Hr Hn E|me st k1 Hr E|me addr r k1 Hr E|me a1 a2 a3 r k1 Hr E|me pid r k1 Hr E
    |me n r k1 Hr E|me pid v r k1 Hr E|me pid v r k1 Hr E|me c k1 Hr E|me c k1 E|k1 E|me Hr|i Hi Hs].
  - eapply fork_inv, E; [done..|apply Hr|by apply running_live].
  - eapply exit_inv, E; [done|apply Hr|by apply running_live].
  - by eapply wait_inv, E.
  - by eapply wait2_inv, E.
  - by eapply kill_inv, E.
  - by eapply growproc_inv, E.
  - eapply (param_inv pid (set_priority v)), E; [by intros; split_and!; [| |left]|done].
  - eapply (param_inv pid (set_tickets v)), E; [by intros; split_and!; [| |left]|done].
  - by eapply sleep_on_inv, E.
  - eapply inv_woke, HI. by eapply woke_wakeup.
  - by eapply updatestatistics_inv, E.
  - apply inv_change; [|done]. split_and!; try done. right. split; [by apply running_live|done].
  - apply inv_change; [|done]. split_and!; try done. right. by rewrite Hs.
Qed.


Lemma find_ext {A} (f g : A -> bool) l :
  (forall x, List.In x l -> f x = g x) -> List.find f l = List.find g l.
Proof.
  induction l as [|x l IH]; intros H; [done|]. simpl. rewrite (H x) by (by left).
  destruct (g x); [done|]. apply IH. intros y Hy. apply H. by right.
Qed.

(** [kill(0)] finds an unused slot, whose pid is 0, marks it as killed
    and returns 0; [allocproc] does not clear the mark, so the next process
    that is created in this slot starts out killed. *)
Theorem kill_zero_poisons i k :
  ptable_inv k -> find_unused k = Some i ->
  wp (kill 0) (fun r k1 => r = 0 /\ find_unused k1 = Some i /\
    wlp (allocproc end_ trampoline forkret pol) (fun o k2 =>
      forall np, o = Some np -> np = i /\ p_killed (procs k2 np) = 1) k1) k.
Proof.
  intros HI Hf. pose proof (find_unused_Some k i Hf) as [Hi Hun].
  assert (Hfp : find_pid 0 k = Some i).
  { unfold find_pid. rewrite <- Hf. unfold find_unused. apply find_ext. intros j Hj.
    assert (Hj' : (j < NPROC)%nat) by (apply in_table; by apply list_elem_of_In).
    destruct (bool_decide_reflect (p_state (procs k j) = UNUSED)) as [Hs|Hs].
    - apply Z.eqb_eq. by apply (pi_unused _ _ HI).
    - apply Z.eqb_neq. pose proof (pi_pid _ _ HI j Hj' Hs). lia. }
  unfold kill. wp_step. wp_step. rewrite Hfp. wp_step. apply wp_modify.
  unfold get. wp_step. wp_step. cbv beta. unfold put_proc at 1. simpl. rewrite upd_same. simpl.
  rewrite Hun, bool_decide_false by done. wp_step. wp_step. wp_step. split_and!; try done.
  - rewrite <- Hf. unfold find_unused. apply find_ext. intros j _. unfold put_proc. simpl.
    by upd_cases j i.
  - eapply wlp_mono; [apply allocproc_slot|]. intros o k2.
    assert (find_unused (put_proc i (set_killed 1) k) = Some i) as ->.
    { rewrite <- Hf. unfold find_unused. apply find_ext. intros j _. unfold put_proc. simpl.
      by upd_cases j i. }
    intros (p' & (Hp & _) & Ho) np ->. destruct Ho as (-> & _ & _ & _ & Hk). split; [done|].
    rewrite Hp. simpl. rewrite upd_same, Hk. unfold put_proc. simpl. by rewrite upd_same.
Qed.
End inv.

(** ** Witnesses: a table with the single process init *)

Definition blank_proc : proc :=
  Proc UNUSED NoChan 0 0 0 None 0 0 0 0 (Context_ 0 0 []) (fun _ => 0) 0 (repeat 0 16) 0 0 0 0 0 0.
Definition no_files : FileLayer unit :=
  {| filedup f := ret f; fileclose _ _ := ret tt; idup d := ret d; begin_op := ret tt;
     iput _ _ := ret tt; end_op _ := ret tt; namei _ _ := ret 1 |}.
Lemma no_files_ok : @FileLayerOk unit no_files.
Proof. constructor; intros; apply wlp_ret, woke_refl. Qed.

Definition init_table : nat -> proc :=
  upd (fun _ => blank_proc) O (set_pid 1 (set_state RUNNING blank_proc)).
Definition init_kern : kern unit :=
  Kern (KState (fun _ => 0) (fun _ => 0) (fun _ => 0) (fun _ => 0)) init_table 2 (Some O) 0
    (12345, 12345, 12345, 12345) tt.

Lemma init_table_inv : ptable_inv init_kern.
Proof.
  assert (Hother : forall i, i <> O -> procs init_kern i = blank_proc)
    by (intros i Hi; simpl; unfold init_table; by rewrite upd_other).
  constructor; try done.
  - intros i _. destruct (decide (i = O)) as [->|Hi]; [done|]. by rewrite Hother.
  - intros i _. destruct (decide (i = O)) as [->|Hi]; [done|]. by rewrite Hother.
  - intros i j _ _. destruct (decide (i = O)) as [->|Hi], (decide (j = O)) as [->|Hj];
      rewrite ?(Hother i), ?(Hother j) by done; done.
  - intros i j _. destruct (decide (i = O)) as [->|Hi]; [done|]. by rewrite Hother.
  - exists O. split_and!; [done|vm_compute; lia|done].
  - intros i _. destruct (decide (i = O)) as [->|Hi]; [done|]. by rewrite Hother.
Qed.


Lemma kill_zero_poisons_witness :
  wp (kill 0) (fun r k1 => r = 0 /\ p_killed (procs k1 1%nat) = 1) init_kern /\
  wp (kill 0) (fun r k1 => r = 0 /\ find_unused k1 = Some 1%nat) init_kern.
Proof.
  split; [vm_compute; split; reflexivity|].
  eapply wp_mono; [apply (@kill_zero_poisons unit 0 0 0 DEFAULT 1 init_kern init_table_inv); reflexivity|].
  intros r k1 (-> & Hf & _). split; [reflexivity|exact Hf].
Defined.
