(* ===== verification/Sched.v ===== *)
(** * kernel/proc.c: the scheduler loop and sched()

    One CPU's [scheduler()] with the process locks as they are taken and
    released in the code, for each scheduling algorithm that [SCHEDFLAG]
    selects.  [p->lock] of process [i] is the spin lock number [i] of Locks.v.
    Other CPUs take part only in that an [acquire] finds a lock taken; Smp.v
    has several CPUs. *)

From S2P Require Import Prelude Locks Riscv KString Kalloc Vm Proc ProcInv.

(** [runs] records the processes the CPU has switched to, oldest first. *)
Record sched_state (F : Type) := SchedState {
  sk : kern F;
  sm : machine;
  cproc : nat -> option nat;
  runs : list nat;
}.
Arguments SchedState {F}. Arguments sk {F}. Arguments sm {F}.
Arguments cproc {F}. Arguments runs {F}.

Section sched.
Context {F : Type}.
Abbreviation SS := (sched_state F).

Definition set_sk (x : kern F) (s : SS) : SS := SchedState x (sm s) (cproc s) (runs s).
Definition set_sm (x : machine) (s : SS) : SS := SchedState (sk s) x (cproc s) (runs s).
Definition set_cproc (x : nat -> option nat) (s : SS) : SS := SchedState (sk s) (sm s) x (runs s).
Definition set_runs (x : list nat) (s : SS) : SS := SchedState (sk s) (sm s) (cproc s) x.

(** The CPU that runs the loop, and [swtch]: what happens from the switch to
    a process until it switches back to the scheduler. *)
Context (c : nat) (swtch : nat -> M SS unit).

Definition acq (i : nat) : M SS unit := zoom sm set_sm (acquire c i).
Definition rel (i : nat) : M SS unit := zoom sm set_sm (release c i).
Definition pget (i : nat) : M SS proc := gets (fun s => procs (sk s) i).
Definition pchange (i : nat) (f : proc -> proc) : M SS unit := zoom sk set_sk (change i f).

Definition is_runnable (p : proc) : bool := bool_decide (p_state p = RUNNABLE).

(** What the loop does before and after [swtch]. *)
Definition dispatch (p : nat) : M SS unit :=
  modify (fun s => set_cproc (upd (cproc s) c (Some p)) s) ;;
  pchange p (set_state RUNNING) ;;
  modify (fun s => set_runs (runs s ++ [p]) s).
Definition undispatch : M SS unit := modify (fun s => set_cproc (upd (cproc s) c None) s).

(** The end of the loop body: run [p] if it is RUNNABLE, release its lock. *)
Definition run_and_release (p : nat) : M SS nat :=
  let! q := pget p in
  (when! is_runnable q do (dispatch p ;; swtch p ;; undispatch)) ;;
  rel p ;;
  ret p.

(** [release(&p->lock); continue;] *)
Definition skip (p : nat) : M SS nat := rel p ;; ret p.

(** PRIORITY: the search for [highP]. *)
Fixpoint find_high (l : list nat) (highP : nat) : M SS nat :=
  match l with
  | [] => ret highP
  | p1 :: l' =>
      acq p1 ;;
      let! q1 := pget p1 in
      let! h := pget highP in
      let highP := if is_runnable q1 && (p_priority q1 <? p_priority h) then p1 else highP in
      rel p1 ;;
      find_high l' highP
  end.

(** FCFS: [minP] is a local variable of the loop body. *)
Definition fcfs_choice (p : nat) (get : nat -> proc) : nat :=
  let minP : option nat := None in
  let minP :=
    if 1 <? p_pid (get p) then
      match minP with
      | Some m => if p_ctime (get p) <? p_ctime (get m) then Some p else minP
      | None => Some p
      end
    else minP in
  match minP with
  | Some m => if is_runnable (get m) then m else p
  | None => p
  end.

(** LOTTERY: [totalTickets] with its locks. *)
Fixpoint totalTickets (l : list nat) (total : Z) : M SS Z :=
  match l with
  | [] => ret total
  | p :: l' =>
      acq p ;;
      let! q := pget p in
      let total := if is_runnable q then i32 (total + p_tickets q) else total in
      rel p ;;
      totalTickets l' total
  end.

(** SML: one of the three cases of the switch in [findReadyProcess]. *)
Definition try_slot (index i : nat) (priority : Z) : M SS (option nat) :=
  let q := ((index + i) mod NPROC)%nat in
  acq q ;;
  let! p := pget q in
  let found := is_runnable p && (p_priority p =? priority) in
  rel q ;;
  ret (if found then Some q else None).

(** The cases from [priority] on; they fall through. *)
Fixpoint try_cases (cases : list nat) (i : nat) (priority : Z) : M SS (option nat) :=
  match cases with
  | [] => ret None
  | index :: cases' =>
      let! o := try_slot index i priority in
      match o with Some q => ret (Some q) | None => try_cases cases' i priority end
  end.

Fixpoint try_table (cases : list nat) (l : list nat) (priority : Z) : M SS (option nat) :=
  match l with
  | [] => ret None
  | i :: l' =>
      let! o := try_cases cases i priority in
      match o with Some q => ret (Some q) | None => try_table cases l' priority end
  end.

Definition findReadyProcess (index1 index2 index3 : nat) : M SS (option nat) :=
  let! o := try_table [index1; index2; index3] proc_table 1 in
  match o with
  | Some q => ret (Some q)
  | None =>
      let! o := try_table [index2; index3] proc_table 2 in
      match o with
      | Some q => ret (Some q)
      | None => try_table [index3] proc_table 3
      end
  end.

(** One iteration of the loop over the table; the result is the value of the
    loop variable at its end. *)
Definition sched_iter (pol : policy) (p : nat) : M SS nat :=
  acq p ;;
  let! q := pget p in
  match pol with
  | NONE => run_and_release p
  | DEFAULT => if negb (is_runnable q) then skip p else run_and_release p
  | PRIORITY =>
      if negb (is_runnable q) then skip p
      else
        let! highP := find_high proc_table p in
        run_and_release highP
  | FCFS =>
      if negb (is_runnable q) then skip p
      else
        let! m := gets (fun s => fcfs_choice p (procs (sk s))) in
        run_and_release m
  | LOTTERY =>
      if negb (is_runnable q) then skip p
      else
        let! totalT := totalTickets proc_table 0 in
        let! draw := if (0 <? totalT) || (-1 <=? 0) then zoom sk set_sk (random totalT) else ret (-1) in
        let draw := i32 (draw - p_tickets q) in
        if 0 <=? draw then skip p else run_and_release p
  | SML =>
      let! foundP := findReadyProcess 0 0 0 in
      match foundP with
      | Some p' => run_and_release p'
      | None => if negb (is_runnable q) then skip p else run_and_release p
      end
  end.

(** The loop over the table; [p++] continues from the loop variable. *)
Fixpoint sched_pass (pol : policy) (p : nat) (fuel : nat) : M SS unit :=
  match fuel with
  | O => out_of_fuel
  | S fuel' =>
      if (p <? NPROC)%nat then
        let! p' := sched_iter pol p in
        sched_pass pol (S p') fuel'
      else ret tt
  end.

(** One round of [for(;;)]. *)
Definition scheduler_round (pol : policy) (fuel : nat) : M SS unit :=
  zoom sm set_sm (modify (fun m => set_cpu c (intr_on (cpus m c)) m)) ;;
  sched_pass pol 0 fuel.

(** [sched()] of process [me] on this CPU: the checks, then the switch to the
    scheduler; [intena] is restored when the process runs again. *)
Definition sched_out (me : nat) : M SS bool :=
  let! m := gets sm in
  let! p := pget me in
  if negb (holding c (locks m me)) then panic "sched p->lock"
  else if negb (noff (cpus m c) =? 1) then panic "sched locks"
  else if bool_decide (p_state p = RUNNING) then panic "sched running"
  else if intr_get (cpus m c) then panic "sched interruptible"
  else ret (intena (cpus m c)).
Definition sched_in (saved : bool) : M SS unit :=
  zoom sm set_sm (modify (fun m => set_cpu c (Cpu (noff (cpus m c)) saved (sie (cpus m c))) m)).
Definition sched (me : nat) (to_scheduler : M SS unit) : M SS unit :=
  let! saved := sched_out me in
  to_scheduler ;;
  sched_in saved.

Definition yield (me : nat) (to_scheduler : M SS unit) : M SS unit :=
  acq me ;; pchange me (set_state RUNNABLE) ;; sched me to_scheduler ;; rel me.

(** ** Locks held by the CPU *)

(** The CPU holds exactly the process locks in [H], and nobody else holds
    one. *)
Record held (H : list nat) (s : SS) : Prop := {
  h_locks : forall l, locks (sm s) l =
    if decide (l ∈ H) then Spinlock true (Some c) else Spinlock false None;
  h_noff : noff (cpus (sm s) c) = Z.of_nat (length H);
  h_sie : H <> [] -> sie (cpus (sm s) c) = false;
}.
(** Only the locks differ. *)
Definition same_rest (s s' : SS) : Prop := sk s' = sk s /\ cproc s' = cproc s /\ runs s' = runs s.

Lemma acq_spec H s l :
  held H s -> l ∉ H -> Z.of_nat (length H) < 2 ^ 31 - 1 ->
  wp (acq l) (fun _ s' => held (l :: H) s' /\ same_rest s s') s.
Proof.
  intros [Hl Hn Hs] Hnot Hmax. unfold acq. wp_step. unfold acquire, push_off_m. do 4 wp_step.
  simpl. rewrite Hl, decide_False by done. simpl. do 3 wp_step. cbv beta.
  split; [|done]. constructor; simpl.
  - intros l'. upd_cases l' l; [by rewrite decide_True by (left)|].
    upd_cases l' l; [done|]. rewrite Hl. destruct (decide (l' ∈ H)), (decide (l' ∈ l :: H)); set_solver.
  - rewrite upd_same. unfold push_off. simpl. rewrite Hn.
    rewrite i32_id; destruct (Z.of_nat (length H) =? 0); simpl; lia.
  - intros _. rewrite upd_same. unfold push_off. simpl. by destruct (_ =? 0).
Qed.

Lemma acq_panic H s l : held H s -> l ∈ H -> acq l s = Panic "acquire".
Proof.
  intros [Hl _ _] Hin. unfold acq, zoom, acquire, push_off_m, bind, modify, gets. simpl.
  rewrite Hl, decide_True by done. unfold holding. simpl. by rewrite bool_decide_true.
Qed.

Lemma rel_spec H s l :
  held (l :: H) s -> l ∉ H -> Z.of_nat (length H) < 2 ^ 31 - 1 ->
  wp (rel l) (fun _ s' => held H s' /\ same_rest s s') s.
Proof.
  intros [Hl Hn Hs] Hnot Hmax. unfold rel. wp_step. unfold release. do 2 wp_step.
  rewrite Hl, decide_True by (left). unfold holding. simpl. rewrite bool_decide_true by done.
  simpl. do 4 wp_step. unfold pop_off_m, wp, pop_off, intr_get. simpl. rewrite !Hs by done.
  rewrite Hn. simpl length. rewrite (proj2 (Z.ltb_ge _ _)) by lia. cbv beta.
  split; [|done]. constructor; simpl.
  - intros l'. upd_cases l' l; [by rewrite decide_False|]. upd_cases l' l; [done|].
    rewrite Hl. destruct (decide (l' ∈ H)), (decide (l' ∈ l :: H)); set_solver.
  - rewrite upd_same. rewrite i32_id by lia. destruct (_ && _); simpl; lia.
  - intros HH. rewrite upd_same. rewrite i32_id by lia.
    rewrite (proj2 (Z.eqb_neq _ _)); [done|]. destruct H; [done|simpl; lia].
Qed.

Lemma rel_panic H s l : held H s -> l ∉ H -> rel l s = Panic "release".
Proof.
  intros [Hl _ _] Hin. unfold rel, zoom, release, bind, gets.
  rewrite Hl, decide_False by done. done.
Qed.

(** ** The searches that take a lock twice *)

Lemma find_high_panics p l : forall highP s,
  held [p] s -> p ∈ l -> find_high l highP s = Panic "acquire".
Proof.
  induction l as [|p1 l IH]; intros highP s Hs Hin; [by apply not_elem_of_nil in Hin|].
  cbn [find_high]. destruct (decide (p1 = p)) as [->|Hne].
  { apply bind_panic_eq. eapply acq_panic; [done|]. left. }
  apply elem_of_cons in Hin as [->|Hin]; [done|].
  destruct (proj1 (wp_returns _ _ _) (acq_spec [p] s p1 Hs ltac:(set_solver) ltac:(done)))
    as ([] & s1 & E1 & Hs1 & _).
  rewrite (bind_ret_eq _ _ _ _ _ E1). unfold pget. do 2 (erewrite bind_ret_eq by done).
  destruct (proj1 (wp_returns _ _ _) (rel_spec [p] s1 p1 Hs1 ltac:(set_solver) ltac:(done)))
    as ([] & s2 & E2 & Hs2 & _).
  rewrite (bind_ret_eq _ _ _ _ _ E2). by apply IH.
Qed.

Lemma totalTickets_panics p l : forall total s,
  held [p] s -> p ∈ l -> totalTickets l total s = Panic "acquire".
Proof.
  induction l as [|p1 l IH]; intros total s Hs Hin; [by apply not_elem_of_nil in Hin|].
  cbn [totalTickets]. destruct (decide (p1 = p)) as [->|Hne].
  { apply bind_panic_eq. eapply acq_panic; [done|]. left. }
  apply elem_of_cons in Hin as [->|Hin]; [done|].
  destruct (proj1 (wp_returns _ _ _) (acq_spec [p] s p1 Hs ltac:(set_solver) ltac:(done)))
    as ([] & s1 & E1 & Hs1 & _).
  rewrite (bind_ret_eq _ _ _ _ _ E1). unfold pget. erewrite bind_ret_eq by done.
  destruct (proj1 (wp_returns _ _ _) (rel_spec [p] s1 p1 Hs1 ltac:(set_solver) ltac:(done)))
    as ([] & s2 & E2 & Hs2 & _).
  rewrite (bind_ret_eq _ _ _ _ _ E2). by apply IH.
Qed.

(** The state after the [acquire] at the top of the loop body. *)
Lemma iter_acquired s p :
  held [] s -> exists s1, acq p s = Ret (tt, s1) /\ held [p] s1 /\ same_rest s s1.
Proof.
  intros Hs.
  destruct (proj1 (wp_returns _ _ _) (acq_spec [] s p Hs ltac:(set_solver) ltac:(done)))
    as ([] & s1 & E1 & Hs1 & Hr). eauto.
Qed.

(** With SCHEDFLAG=PRIORITY the scheduler panics as soon as it
    finds a RUNNABLE process: its search for the highest priority acquires the
    lock of that process a second time. *)
Theorem priority_panics s p :
  held [] s -> (p < NPROC)%nat -> p_state (procs (sk s) p) = RUNNABLE ->
  sched_iter PRIORITY p s = Panic "acquire".
Proof.
  intros Hs Hp Hr. unfold sched_iter. destruct (iter_acquired s p Hs) as (s1 & E1 & Hs1 & Hk & _).
  rewrite (bind_ret_eq _ _ _ _ _ E1). unfold pget. erewrite bind_ret_eq by done. cbv beta.
  rewrite Hk. unfold is_runnable. rewrite bool_decide_true by done. simpl negb. cbv iota.
  apply bind_panic_eq, (find_high_panics p); [done|]. by apply in_table.
Qed.

(** With SCHEDFLAG=LOTTERY the scheduler panics as soon as it finds
    a RUNNABLE process: [totalTickets] acquires the lock of that process a
    second time. *)
Theorem lottery_panics s p :
  held [] s -> (p < NPROC)%nat -> p_state (procs (sk s) p) = RUNNABLE ->
  sched_iter LOTTERY p s = Panic "acquire".
Proof.
  intros Hs Hp Hr. unfold sched_iter. destruct (iter_acquired s p Hs) as (s1 & E1 & Hs1 & Hk & _).
  rewrite (bind_ret_eq _ _ _ _ _ E1). unfold pget. erewrite bind_ret_eq by done. cbv beta.
  rewrite Hk. unfold is_runnable. rewrite bool_decide_true by done. simpl negb. cbv iota.
  apply bind_panic_eq, (totalTickets_panics p); [done|]. by apply in_table.
Qed.

(** With SCHEDFLAG=SML the very first round of the scheduler panics,
    whatever the process table holds: the loop has acquired the lock of
    process 0 when [findReadyProcess] acquires it again. *)
Theorem sml_panics s fuel :
  held [] s -> sched_pass SML 0 (S fuel) s = Panic "acquire".
Proof.
  intros Hs. cbn [sched_pass]. apply bind_panic_eq. unfold sched_iter.
  destruct (iter_acquired s 0 Hs) as (s1 & E1 & Hs1 & _).
  rewrite (bind_ret_eq _ _ _ _ _ E1). unfold pget. erewrite bind_ret_eq by done. cbv beta.
  apply bind_panic_eq. unfold findReadyProcess. apply bind_panic_eq.
  change proc_table with (0%nat :: seq 1 (NPROC - 1)). cbn [try_table].
  apply bind_panic_eq. cbn [try_cases]. apply bind_panic_eq. unfold try_slot.
  apply bind_panic_eq. eapply acq_panic; [done|]. by left.
Qed.

(** With SCHEDFLAG=FCFS every iteration of the scheduler does exactly
    what it does with SCHEDFLAG=DEFAULT: the minimum of the creation times is
    taken over a single process. *)
Theorem fcfs_is_round_robin p s : sched_iter FCFS p s = sched_iter DEFAULT p s.
Proof.
  assert (Hself : forall get, fcfs_choice p get = p).
  { intros get. unfold fcfs_choice. destruct (1 <? _); [|done]. by destruct (is_runnable _). }
  unfold sched_iter, bind. destruct (acq p s) as [[[] s1]| | |]; try done. unfold pget, gets.
  destruct (negb (is_runnable (procs (sk s1) p))); [done|]. by rewrite Hself.
Qed.

(** ** The round-robin scheduler *)

(** A process that gets the CPU switches back with its own lock held and
    nothing else, and leaves other RUNNABLE processes RUNNABLE. *)
Definition swtch_ok : Prop := forall s p,
  held [p] s -> cproc s c = Some p -> p_state (procs (sk s) p) = RUNNING ->
  wp (swtch p) (fun _ s' => held [p] s' /\ runs s' = runs s /\
    forall i, i <> p -> p_state (procs (sk s) i) = RUNNABLE ->
      p_state (procs (sk s') i) = RUNNABLE) s.

Definition stay_runnable (p : nat) (s s' : SS) : Prop :=
  forall i, i <> p -> p_state (procs (sk s) i) = RUNNABLE -> p_state (procs (sk s') i) = RUNNABLE.

Lemma run_and_release_runs s p :
  swtch_ok -> held [p] s -> p_state (procs (sk s) p) = RUNNABLE ->
  wp (run_and_release p) (fun p' s' => p' = p /\ held [] s' /\ runs s' = runs s ++ [p] /\
    stay_runnable p s s') s.
Proof.
  intros Hsw Hs Hr. unfold run_and_release, pget. do 2 wp_step. unfold is_runnable.
  rewrite bool_decide_true by done. unfold dispatch, undispatch, pchange, change.
  do 9 wp_step. cbv beta.
  match goal with |- wp (swtch p) _ ?x => set (s1 := x) end.
  assert (Hs1 : held [p] s1) by (by destruct Hs as [? ? ?]; constructor).
  eapply wp_mono; [apply Hsw; [done| |]|].
  - simpl. by rewrite upd_same.
  - simpl. by rewrite upd_same.
  - intros ? s2 (Hs2 & Hruns & Hstay). wp_step. cbv beta. wp_step.
    match goal with |- wp (rel p) _ ?x => set (s3 := x) end.
    assert (Hs3 : held [p] s3) by (by destruct Hs2 as [? ? ?]; constructor).
    eapply wp_mono; [apply (rel_spec [] s3 p Hs3); [set_solver|done]|].
    intros ? s4 (Hs4 & Hk & _ & Hru). wp_step. split_and!; try done.
    + rewrite Hru. unfold s3. simpl. by rewrite Hruns.
    + intros i Hi Hri. rewrite Hk. unfold s3. simpl. apply Hstay; [done|].
      unfold s1. simpl. by rewrite upd_other.
Qed.

Lemma default_iter s p :
  swtch_ok -> held [] s ->
  wp (sched_iter DEFAULT p) (fun p' s' => p' = p /\ held [] s' /\ stay_runnable p s s' /\
    runs s' = runs s ++ (if is_runnable (procs (sk s) p) then [p] else [])) s.
Proof.
  intros Hsw Hs. unfold sched_iter. wp_step.
  eapply wp_mono; [apply (acq_spec [] s p Hs); [set_solver|done]|].
  intros ? s1 (Hs1 & Hk & _ & Hru). unfold pget. do 2 wp_step. cbv beta. rewrite Hk.
  destruct (is_runnable (procs (sk s) p)) eqn:E; simpl negb; cbv iota.
  - unfold is_runnable in E. apply bool_decide_eq_true in E.
    eapply wp_mono; [apply run_and_release_runs; [done|done|by rewrite Hk]|].
    intros p' s2 (-> & Hs2 & Hru2 & Hst). split_and!; try done.
    + unfold stay_runnable in *. by rewrite Hk in Hst.
    + by rewrite Hru2, Hru.
  - unfold skip. wp_step. eapply wp_mono; [apply (rel_spec [] s1 p Hs1); [set_solver|done]|].
    intros ? s2 (Hs2 & Hk2 & _ & Hru2). wp_step. split_and!; try done.
    + intros i _. by rewrite Hk2, Hk.
    + by rewrite app_nil_r, Hru2, Hru.
Qed.

Lemma default_pass n : forall s p,
  swtch_ok -> held [] s -> (p + n = NPROC)%nat ->
  wp (sched_pass DEFAULT p (S n)) (fun _ s' => held [] s' /\ exists l, runs s' = runs s ++ l /\
    l `sublist_of` seq p n /\
    forall i, (p <= i < NPROC)%nat -> p_state (procs (sk s) i) = RUNNABLE -> i ∈ l) s.
Proof.
  induction n as [|n IH]; intros s p Hsw Hs Hp.
  - cbn [sched_pass]. rewrite (proj2 (Nat.ltb_ge _ _)) by lia. wp_step. split; [done|].
    exists []. rewrite app_nil_r. split_and!; try done. intros; lia.
  - change (sched_pass DEFAULT p (S (S n))) with
      (if (p <? NPROC)%nat then let! p' := sched_iter DEFAULT p in sched_pass DEFAULT (S p') (S n)
       else ret tt).
    rewrite (proj2 (Nat.ltb_lt _ _)) by lia. wp_step. eapply wp_mono; [by apply default_iter|].
    intros p' s1 (-> & Hs1 & Hst & Hru1). eapply wp_mono; [apply IH; [done|done|lia]|].
    intros ? s2 (Hs2 & l & Hru2 & Hsub & Hall). split; [done|].
    exists ((if is_runnable (procs (sk s) p) then [p] else []) ++ l). split_and!.
    + by rewrite Hru2, Hru1, app_assoc.
    + simpl. destruct (is_runnable _); simpl; [by apply sublist_skip|by apply sublist_cons].
    + intros i Hi Hr. destruct (decide (i = p)) as [->|Hne].
      * unfold is_runnable. rewrite bool_decide_true by done. left.
      * apply elem_of_app. right. apply Hall; [lia|]. by apply Hst.
Qed.

(** A round of the default scheduler on a single CPU, with all process locks
    free at its start and with processes that leave the others RUNNABLE: it
    never panics and ends with no lock held; it switches to processes in table
    order, to each at most once, and to every process that was RUNNABLE when the
    round began.  Smp.v has what holds with several CPUs. *)
Theorem round_robin_runs_all s :
  swtch_ok -> held [] s ->
  wp (scheduler_round DEFAULT (S NPROC)) (fun _ s' => held [] s' /\
    exists l, runs s' = runs s ++ l /\ l `sublist_of` proc_table /\
      forall i, (i < NPROC)%nat -> p_state (procs (sk s) i) = RUNNABLE -> i ∈ l) s.
Proof.
  intros Hsw Hs. unfold scheduler_round. wp_step. wp_step. wp_step. cbv beta.
  eapply wp_mono; [apply (default_pass NPROC); [done| |done]|].
  - destruct Hs as [Hl Hn Hi]. constructor; simpl; [done| |done]. by rewrite upd_same.
  - intros ? s' (Hs' & l & Hru & Hsub & Hall). split; [done|]. exists l. split_and!; try done.
    intros i Hi. apply Hall. lia.
Qed.

(** What a process finds when the scheduler has switched back to it: the
    scheduler holds its lock, and has made it RUNNING. *)
Definition resumes (me : nat) (to_scheduler : M SS unit) : Prop := forall s,
  held [me] s -> p_state (procs (sk s) me) = RUNNABLE ->
  wp to_scheduler (fun _ s' => held [me] s' /\ p_state (procs (sk s') me) = RUNNING) s.

(** [yield], called with no lock held, passes every check of
    [sched], hands the process over as RUNNABLE with only its lock held, and
    returns RUNNING with no lock held. *)
Theorem yield_correct me to_scheduler s :
  resumes me to_scheduler -> held [] s ->
  wp (yield me to_scheduler) (fun _ s' => held [] s' /\ p_state (procs (sk s') me) = RUNNING) s.
Proof.
  intros Hres Hs. unfold yield. wp_step.
  eapply wp_mono; [apply (acq_spec [] s me Hs); [set_solver|done]|].
  intros ? s1 (Hs1 & _). wp_step. unfold pchange, change. do 2 wp_step. cbv beta.
  match goal with |- wp _ _ ?x => set (s2 := x) end.
  assert (Hs2 : held [me] s2) by (by destruct Hs1 as [? ? ?]; constructor).
  assert (Hr : p_state (procs (sk s2) me) = RUNNABLE) by (simpl; by rewrite upd_same).
  wp_step. unfold sched, sched_out, sched_in, pget. do 5 wp_step. destruct Hs2 as [Hl Hn Hi] eqn:E. clear E.
  rewrite Hl, Hn, Hr, decide_True by (by left). unfold holding, intr_get. simpl locked. simpl lcpu.
  rewrite Hi by done. rewrite !bool_decide_true by done. simpl. do 2 wp_step.
  eapply wp_mono; [apply Hres; [exact (Build_held _ _ Hl Hn Hi)|exact Hr]|].
  intros ? s3 (Hs3 & Hrun). do 2 wp_step. cbv beta.
  match goal with |- wp _ _ ?x => set (s4 := x) end.
  assert (Hs4 : held [me] s4).
  { destruct Hs3 as [Hl3 Hn3 Hi3]. constructor; simpl; rewrite ?upd_same; try done. }
  eapply wp_mono; [apply (rel_spec [] s4 me Hs4); [set_solver|done]|].
  intros ? s5 (Hs5 & Hk & _). split; [done|]. by rewrite Hk.
Qed.
End sched.

(** [random] returns a number in [0, max), for every state of its
    four generators. *)
Theorem random_range {F} max (k : kern F) :
  0 < max -> wp (random max) (fun r _ => 0 <= r < max) k.
Proof.
  intros Hmax. unfold random. rewrite (proj2 (Z.leb_gt _ _)) by lia. do 2 wp_step.
  destruct (zs k) as [[[z1 z2] z3] z4]. do 3 wp_step. cbv beta.
  match goal with |- context [Z.rem ?x max] => pose proof (Z.rem_bound_abs x max ltac:(lia)) end.
  case_bool; lia.
Qed.

(** ** Witnesses *)

Lemma random_range_witness : wp (random 10) (fun r _ => 0 <= r < 10) init_kern.
Proof. apply (random_range 10 init_kern). lia. Defined.

(** Two RUNNABLE processes, all locks free; the process that runs yields. *)
Definition two_ready : sched_state unit :=
  SchedState
    (set_procs (upd (upd (procs init_kern) 0%nat (set_state RUNNABLE (procs init_kern 0%nat)))
       3%nat (set_state RUNNABLE (procs init_kern 3%nat))) init_kern)
    (Machine (fun _ => Cpu 0 false true) (fun _ => Spinlock false None)) (fun _ => None) [].
Definition gives_back (p : nat) : M (sched_state unit) unit := pchange p (set_state RUNNABLE).

Lemma two_ready_held : held 0 [] two_ready.
Proof. by constructor. Qed.

Lemma gives_back_ok : swtch_ok 0 gives_back.
Proof.
  intros s p Hs _ _. unfold gives_back, pchange, change. do 2 wp_step. cbv beta.
  split_and!; [by destruct Hs as [? ? ?]; constructor|done|].
  intros i Hi. simpl. by rewrite upd_other.
Qed.

Lemma priority_panics_witness :
  p_state (procs (sk two_ready) 3%nat) = RUNNABLE /\
  sched_iter 0 gives_back PRIORITY 3 two_ready = Panic "acquire".
Proof.
  split; [reflexivity|].
  apply (priority_panics 0 gives_back two_ready 3 two_ready_held); [vm_compute; lia|reflexivity].
Defined.

Lemma lottery_panics_witness :
  p_state (procs (sk two_ready) 3%nat) = RUNNABLE /\
  sched_iter 0 gives_back LOTTERY 3 two_ready = Panic "acquire".
Proof.
  split; [reflexivity|].
  apply (lottery_panics 0 gives_back two_ready 3 two_ready_held); [vm_compute; lia|reflexivity].
Defined.

Lemma sml_panics_witness : sched_pass 0 gives_back SML 0 65 two_ready = Panic "acquire".
Proof. exact (sml_panics 0 gives_back two_ready 64 two_ready_held). Defined.

Lemma round_robin_runs_all_witness :
  wp (scheduler_round 0 gives_back DEFAULT (S NPROC)) (fun _ s' => runs s' = [0%nat; 3%nat]) two_ready /\
  wp (scheduler_round 0 gives_back DEFAULT (S NPROC)) (fun _ s' => held 0 [] s') two_ready.
Proof.
  split; [vm_compute; reflexivity|].
  eapply wp_mono; [exact (round_robin_runs_all 0 gives_back two_ready gives_back_ok two_ready_held)|].
  intros ? s' [Hh _]. exact Hh.
Defined.

Lemma yield_correct_witness :
  wp (yield 0 3 (pchange 3 (set_state RUNNING)))
    (fun _ s' => held 0 [] s' /\ p_state (procs (sk s') 3%nat) = RUNNING) two_ready.
Proof.
  apply (yield_correct 0 gives_back 3 (pchange 3 (set_state RUNNING)) two_ready); [|exact two_ready_held].
  intros s Hs _. unfold pchange, change. do 2 wp_step. cbv beta.
  split; [by destruct Hs as [? ? ?]; constructor|]. reflexivity.
Defined.
