(* ===== verification/Smp.v ===== *)
(** * kernel/proc.c: the scheduler on several CPUs

    Any number of CPUs run [scheduler()] (with the default policy) and the
    processes, one critical section of a process lock after the other.  What a
    CPU does between an [acquire] and the next [release] or [swtch] is one
    step, with the operations of Sched.v; in between, the other CPUs move.  A
    process does what it likes as far as the code allows: it yields, sleeps or
    exits, and it takes the lock of any slot for [wakeup], [kill],
    [allocproc]/[fork], [wait] and the functions that leave the state alone;
    interrupt handlers on a CPU that is in its scheduler loop call [wakeup].
    The spin locks other than [p->lock] are left out: [sleep] starts where it
    has the process lock and has released the other one. *)

From stdpp Require Import relations.
From S2P Require Import Prelude Locks Riscv KString Kalloc Vm Proc ProcInv Sched.

(** Who runs on a CPU: the scheduler, about to look at slot [p], or a
    process. *)
Inductive who := Loop (p : nat) | Running (p : nat).

(** What is done under the lock of a slot. *)
Inductive job :=
| JLook                    (* killed(), setkilled(), chpr(), chtickets(), a slot that is passed over *)
| JWake (ch : channel)     (* wakeup() *)
| JKill (pid : Z)          (* kill() *)
| JAlloc (pid : Z)         (* allocproc() in fork(), up to the first release *)
| JReady                   (* the end of fork() *)
| JFree.                   (* freeproc() in wait() *)

Inductive pos :=
| At (w : who)                                (* no process lock is held *)
| Chosen (p : nat)                            (* scheduler(): p->lock is held, p->state not read *)
| Back (p : nat)                              (* scheduler(): swtch() has returned *)
| Busy (w : who) (q : nat) (j : job)          (* the lock of q is held *)
| Leaving (p : nat) (st : procstate) (ch : channel) (* yield(), sleep(), exit(): p holds its own lock *)
| Resumed (p : nat).                          (* the scheduler has just switched to p *)

(** Where a process goes on when it is switched to: in [forkret], or in
    [sched] with the saved [intena], called by [sleep] or not. *)
Inductive resume_point := Forkret | InSched (saved slept : bool).

(** [newp p] is the slot that the [fork] of [p] has allocated. *)
Record smp (F : Type) := Smp {
  ss : sched_state F;
  at_ : nat -> pos;
  newp : nat -> option nat;
  entries : nat -> resume_point;
}.
Arguments Smp {F}. Arguments ss {F}. Arguments at_ {F}. Arguments newp {F}. Arguments entries {F}.

(** What a CPU does next where it has a choice. *)
Inductive act :=
| Go
| Touch (q : nat) (j : job)
| Leave (st : procstate) (ch : channel)
| Intr (on : bool).                          (* intr_on(), intr_off(), a trap and its return *)

Section smp.
Context {F : Type}.
Abbreviation SS := (sched_state F).
Abbreviation SM := (smp F).

Definition set_ss (x : SS) (s : SM) : SM := Smp x (at_ s) (newp s) (entries s).
Definition set_at (c : nat) (x : pos) (s : SM) : SM := Smp (ss s) (upd (at_ s) c x) (newp s) (entries s).
Definition set_newp (p : nat) (x : option nat) (s : SM) : SM := Smp (ss s) (at_ s) (upd (newp s) p x) (entries s).
Definition set_entry (p : nat) (x : resume_point) (s : SM) : SM := Smp (ss s) (at_ s) (newp s) (upd (entries s) p x).

Definition on_ss {A} (m : M SS A) : M SM A := zoom ss set_ss m.
Definition goto (c : nat) (x : pos) : M SM unit := modify (set_at c x).

(** Whether the code has this critical section: [wakeup] skips the caller,
    [fork] allocates one slot at a time and makes that one RUNNABLE, and only
    [wakeup] is called by interrupt handlers. *)
Definition may_touch (s : SM) (w : who) (q : nat) (j : job) : bool :=
  (q <? NPROC)%nat &&
  match w, j with
  | Loop _, JWake _ => true
  | Loop _, _ => false
  | Running p, JWake _ => negb (p =? q)%nat
  | Running p, JAlloc _ => bool_decide (newp s p = None)
  | Running p, JReady => bool_decide (newp s p = Some q)
  | Running _, _ => true
  end.
(** A process leaves the CPU RUNNABLE, SLEEPING or ZOMBIE, and does not exit in
    the middle of [fork]. *)
Definition may_leave (s : SM) (p : nat) (st : procstate) : bool :=
  match st with
  | RUNNABLE | SLEEPING => true
  | ZOMBIE => bool_decide (newp s p = None)
  | _ => false
  end.

Definition pupdate (q : nat) (f : proc -> proc) : M SM unit := on_ss (pchange q f).

(** The body of a critical section, without the memory of the process that is
    allocated or freed. *)
Definition job_body (w : who) (q : nat) (j : job) : M SM unit :=
  let! x := on_ss (pget q) in
  match j with
  | JLook => ret tt
  | JWake ch =>
      when! bool_decide (p_state x = SLEEPING) && bool_decide (p_chan x = ch) do pupdate q (set_state RUNNABLE)
  | JKill pid =>
      when! p_pid x =? pid do
        (pupdate q (set_killed 1) ;;
         when! bool_decide (p_state x = SLEEPING) do pupdate q (set_state RUNNABLE))
  | JAlloc pid =>
      match w with
      | Running p => when! bool_decide (p_state x = UNUSED) do
          (pupdate q (set_pid pid) ;; pupdate q (set_state USED) ;; modify (set_newp p (Some q)) ;; modify (set_entry q Forkret))
      | Loop _ => ret tt
      end
  | JReady =>
      match w with
      | Running p => pupdate q (set_state RUNNABLE) ;; modify (set_newp p None)
      | Loop _ => ret tt
      end
  | JFree => when! bool_decide (p_state x = ZOMBIE) do pupdate q freed_proc
  end.

Definition is_sleeping (st : procstate) : bool := bool_decide (st = SLEEPING).

(** A step of CPU [c]; it is [Blocked] where it spins for a lock, and where
    the code has no such step. *)
Definition cpu_step (c : nat) (a : act) : M SM unit :=
  let! x := gets (fun s => at_ s c) in
  let! s := gets id in
  match x with
  | At w =>
      match a with
      | Go =>
          match w with
          | Loop p =>
              if (p <? NPROC)%nat then on_ss (acq c p) ;; goto c (Chosen p)
              else on_ss (zoom sm set_sm (modify (fun m => set_cpu c (intr_on (cpus m c)) m))) ;; goto c (At (Loop 0))
          | Running _ => blocked
          end
      | Touch q j => if may_touch s w q j then on_ss (acq c q) ;; goto c (Busy w q j) else blocked
      | Leave st ch =>
          match w with
          | Running p => if may_leave s p st then on_ss (acq c p) ;; goto c (Leaving p st ch) else blocked
          | Loop _ => blocked
          end
      | Intr on =>
          on_ss (zoom sm set_sm (modify (fun m => set_cpu c (Cpu (noff (cpus m c)) (intena (cpus m c)) on) m)))
      end
  | Chosen p =>
      let! q := on_ss (pget p) in
      if is_runnable q then on_ss (dispatch c p) ;; goto c (Resumed p)
      else on_ss (rel c p) ;; goto c (At (Loop (S p)))
  | Back p => on_ss (undispatch c) ;; on_ss (rel c p) ;; goto c (At (Loop (S p)))
  | Busy w q j => job_body w q j ;; on_ss (rel c q) ;; goto c (At w)
  | Leaving p st ch =>
      (when! is_sleeping st do pupdate p (set_chan ch)) ;;
      pupdate p (set_state st) ;;
      let! saved := on_ss (sched_out c p) in
      modify (set_entry p (InSched saved (is_sleeping st))) ;;
      goto c (Back p)
  | Resumed p =>
      match entries s p with
      | Forkret => ret tt
      | InSched saved slept =>
          on_ss (sched_in c saved) ;;
          when! slept do pupdate p (set_chan NoChan)
      end ;;
      on_ss (rel c p) ;; goto c (At (Running p))
  end.

Definition smp_step (s s' : SM) : Prop := exists c a, cpu_step c a s = Ret (tt, s').

(** ** The invariant *)

(** The lock that a CPU holds, and its [c->proc]. *)
Definition holds (x : pos) : option nat :=
  match x with
  | At _ => None
  | Chosen p | Back p | Leaving p _ _ | Resumed p => Some p
  | Busy _ q _ => Some q
  end.
Definition who_proc (w : who) : option nat := match w with Loop _ => None | Running p => Some p end.
Definition cur (x : pos) : option nat :=
  match x with
  | At w | Busy w _ _ => who_proc w
  | Chosen _ => None
  | Back p | Leaving p _ _ | Resumed p => Some p
  end.
Definition is_back (x : pos) : bool := match x with Back _ => true | _ => false end.

Definition st (s : SM) (p : nat) : procstate := p_state (procs (sk (ss s)) p).
Definition lock (s : SM) (l : nat) : spinlock := locks (sm (ss s)) l.
Definition cpu_of (s : SM) (c : nat) : cpu := cpus (sm (ss s)) c.

(** What the code relies on in a position. *)
Definition pos_ok (s : SM) (x : pos) : Prop :=
  match x with
  | Busy (Running p) q (JAlloc _) => newp s p = None
  | Busy (Running p) q JReady => newp s p = Some q
  | Leaving p st _ => may_leave s p st = true
  | _ => True
  end.

Record smp_inv (s : SM) : Prop := {
  i_lock : forall c l, holds (at_ s c) = Some l -> lock s l = Spinlock true (Some c);
  i_free : forall l, lock s l = Spinlock false None \/ exists c, holds (at_ s c) = Some l;
  i_noff : forall c, noff (cpu_of s c) = match holds (at_ s c) with Some _ => 1 | None => 0 end;
  i_sie : forall c, holds (at_ s c) <> None -> sie (cpu_of s c) = false;
  i_cproc : forall c, cproc (ss s) c = cur (at_ s c);
  i_excl : forall c c' p, cur (at_ s c) = Some p -> cur (at_ s c') = Some p -> c = c';
  i_state : forall c p, cur (at_ s c) = Some p -> (st s p = RUNNING <-> is_back (at_ s c) = false);
  i_running : forall p, st s p = RUNNING -> exists c, cur (at_ s c) = Some p;
  i_newp : forall p q, newp s p = Some q -> st s q = USED;
  i_newp_inj : forall p p' q, newp s p = Some q -> newp s p' = Some q -> p = p';
  i_pos : forall c, pos_ok s (at_ s c);
}.

(** ** Steps that may spin *)

Definition wbp {S A} (m : M S A) (Q : A -> S -> Prop) (s : S) : Prop :=
  match m s with Ret (a, s') => Q a s' | Blocked => True | Panic _ | OutOfFuel => False end.
Lemma wp_wbp {S A} (m : M S A) Q s : wp m Q s -> wbp m Q s.
Proof. unfold wp, wbp. by destruct (m s) as [[a s']| | |]. Qed.
Lemma wbp_bind {S A B} (m : M S A) (k : A -> M S B) Q s : wbp m (fun a => wbp (k a) Q) s -> wbp (bind m k) Q s.
Proof. unfold wbp, bind. by destruct (m s) as [[a s']| | |]. Qed.

(** [acquire] of a free lock, by a CPU that holds none. *)
Lemma acq_free c l s Q : noff (cpu_of s c) = 0 -> lock s l = Spinlock false None ->
  (forall m, locks m = upd (locks (sm (ss s))) l (Spinlock true (Some c)) ->
     (forall c', c' <> c -> cpus m c' = cpu_of s c') -> noff (cpus m c) = 1 -> sie (cpus m c) = false ->
     Q tt (set_ss (set_sm m (ss s)) s)) ->
  wp (on_ss (acq c l)) Q s.
Proof.
  intros Hn El HQ. unfold wp, on_ss, acq, zoom, acquire, push_off_m, bind, modify, gets. simpl.
  change (locks (sm (ss s)) l) with (lock s l). rewrite El. simpl. apply HQ; simpl; try done.
  - apply functional_extensionality. intros x. by upd_cases x l.
  - intros c' Hne. by rewrite upd_other.
  - rewrite upd_same. unfold push_off. simpl. fold (cpu_of s c). by rewrite Hn.
  - rewrite upd_same. unfold push_off. simpl. by destruct (_ =? 0).
Qed.
(** It spins when another CPU has the lock. *)
Lemma acq_smp c l s Q : smp_inv s -> holds (at_ s c) = None ->
  (lock s l = Spinlock false None -> wp (on_ss (acq c l)) Q s) -> wbp (on_ss (acq c l)) Q s.
Proof.
  intros HI Hc HQ. destruct (i_free s HI l) as [El|[c' Hc']]; [by apply wp_wbp, HQ|].
  unfold wbp, on_ss, acq, zoom, acquire, push_off_m, bind, modify, gets. simpl.
  change (locks (sm (ss s)) l) with (lock s l). rewrite (i_lock s HI c' l Hc'). unfold holding. simpl.
  rewrite bool_decide_false; [done|]. intros [= ->]. congruence.
Qed.

(** [release] of the lock that is held. *)
Lemma rel_smp c l s Q : lock s l = Spinlock true (Some c) -> noff (cpu_of s c) = 1 -> sie (cpu_of s c) = false ->
  (forall m, locks m = upd (locks (sm (ss s))) l (Spinlock false None) ->
     (forall c', c' <> c -> cpus m c' = cpu_of s c') -> noff (cpus m c) = 0 -> Q tt (set_ss (set_sm m (ss s)) s)) ->
  wp (on_ss (rel c l)) Q s.
Proof.
  intros El Hn Hs HQ. unfold wp, on_ss, rel, zoom, release, bind, modify, gets, pop_off_m, pop_off, intr_get. simpl.
  change (locks (sm (ss s)) l) with (lock s l). rewrite El. unfold holding. simpl. rewrite bool_decide_true by done. simpl.
  change (cpus (sm (ss s)) c) with (cpu_of s c). rewrite Hs, Hn. simpl. apply HQ; simpl.
  - apply functional_extensionality. intros x. by upd_cases x l.
  - intros c' Hne. by rewrite upd_other.
  - rewrite upd_same. by destruct (intena _).
Qed.

(** Is it the entry that changed? *)
Ltac at_case x y :=
  destruct (decide (x = y)) as [->|?]; [rewrite ?upd_same|rewrite ?(upd_other _ y _ x) by done].

(** The position of [c] after a step that changed only the locks. *)
Lemma inv_acquired c w x l s m : smp_inv s -> at_ s c = At w ->
  holds x = Some l -> cur x = who_proc w -> is_back x = false -> pos_ok s x ->
  locks m = upd (locks (sm (ss s))) l (Spinlock true (Some c)) ->
  (forall c', c' <> c -> cpus m c' = cpu_of s c') -> noff (cpus m c) = 1 -> sie (cpus m c) = false ->
  lock s l = Spinlock false None -> smp_inv (set_at c x (set_ss (set_sm m (ss s)) s)).
Proof.
  intros HI Hc Hx Hcur Hb Hp Hm Ho Hn Hs Hl.
  assert (Hno : forall c' l', holds (at_ s c') = Some l' -> l' <> l).
  { intros c' l' H ->. rewrite (i_lock s HI c' l H) in Hl. done. }
  assert (Ecur : forall c', cur (upd (at_ s) c x c') = cur (at_ s c')).
  { intros c'. upd_cases c' c; [by rewrite Hcur, Hc|done]. }
  assert (Eback : forall c', is_back (upd (at_ s) c x c') = is_back (at_ s c')).
  { intros c'. upd_cases c' c; [by rewrite Hb, Hc|done]. }
  constructor; simpl.
  - intros c' l'. unfold lock. simpl. rewrite Hm. upd_cases c' c; [rewrite Hx; intros [= ->]; by rewrite upd_same|].
    intros H. rewrite upd_other by (by eapply Hno). by apply (i_lock s HI).
  - intros l'. unfold lock. simpl. rewrite Hm. upd_cases l' l; [right; exists c; by rewrite upd_same|].
    destruct (i_free s HI l') as [Ef|[c' H]]; [by left|right]. exists c'. rewrite upd_other; [done|]. intros ->. by rewrite Hc in H.
  - intros c'. unfold cpu_of. simpl. upd_cases c' c; [by rewrite Hn, Hx|]. rewrite Ho by done. by apply (i_noff s HI).
  - intros c'. unfold cpu_of. simpl. upd_cases c' c; [done|]. rewrite Ho by done. by apply (i_sie s HI).
  - intros c'. rewrite Ecur. by apply (i_cproc s HI).
  - intros c1 c2 p. rewrite !Ecur. by apply (i_excl s HI).
  - intros c' p. rewrite Ecur, Eback. by apply (i_state s HI).
  - intros p H. destruct (i_running s HI p H) as [c' E]. exists c'. by rewrite Ecur.
  - apply (i_newp s HI).
  - apply (i_newp_inj s HI).
  - intros c'. upd_cases c' c; [done|]. by apply (i_pos s HI).
Qed.

Lemma inv_released c w x l s m : smp_inv (set_at c x s) -> holds x = Some l -> cur x = who_proc w -> is_back x = false ->
  locks m = upd (locks (sm (ss s))) l (Spinlock false None) ->
  (forall c', c' <> c -> cpus m c' = cpu_of s c') -> noff (cpus m c) = 0 ->
  smp_inv (set_at c (At w) (set_ss (set_sm m (ss s)) s)).
Proof.
  intros HI Hx Hcur Hb Hm Ho Hn. set (s1 := set_at c x s) in *.
  assert (Hc : at_ s1 c = x) by apply upd_same. assert (Hat : forall c', c' <> c -> at_ s1 c' = at_ s c') by (intros; by apply upd_other).
  assert (Hl : lock s l = Spinlock true (Some c)) by (apply (i_lock s1 HI); by rewrite Hc).
  assert (Hno : forall c', c' <> c -> holds (at_ s c') <> Some l).
  { intros c' Hne H. rewrite <-(Hat c' Hne) in H. apply (i_lock s1 HI) in H. unfold lock in *. simpl in H. congruence. }
  assert (Ecur : forall c', cur (upd (at_ s) c (At w) c') = cur (at_ s1 c')).
  { intros c'. at_case c' c; [by rewrite Hc, Hcur|by rewrite Hat]. }
  assert (Eback : forall c', is_back (upd (at_ s) c (At w) c') = is_back (at_ s1 c')).
  { intros c'. at_case c' c; [by rewrite Hc, Hb|by rewrite Hat]. }
  constructor; simpl.
  - intros c' l'. unfold lock. simpl. rewrite Hm. at_case c' c; [done|]. intros H.
    rewrite upd_other; [rewrite <-Hat in H by done; by apply (i_lock s1 HI)|]. intros ->. by apply (Hno c').
  - intros l'. unfold lock. simpl. rewrite Hm. at_case l' l; [by left|].
    destruct (i_free s1 HI l') as [Ef|[c' H]]; [by left|right]. exists c'. at_case c' c; [|by rewrite <-Hat].
    rewrite Hc in H. congruence.
  - intros c'. unfold cpu_of. simpl. at_case c' c; [done|]. rewrite Ho, <-Hat by done. by apply (i_noff s1 HI).
  - intros c'. unfold cpu_of. simpl. at_case c' c; [done|]. rewrite Ho, <-Hat by done. by apply (i_sie s1 HI).
  - intros c'. rewrite Ecur. by apply (i_cproc s1 HI).
  - intros c1 c2 p. rewrite !Ecur. by apply (i_excl s1 HI).
  - intros c' p. rewrite Ecur, Eback. by apply (i_state s1 HI).
  - intros p H. destruct (i_running s1 HI p H) as [c' E]. exists c'. by rewrite Ecur.
  - apply (i_newp s1 HI).
  - apply (i_newp_inj s1 HI).
  - intros c'. at_case c' c; [done|]. rewrite <-Hat by done. apply (i_pos s1 HI).
Qed.

(** The end of a critical section. *)
Lemma release_smp c w x l s : smp_inv (set_at c x s) -> holds x = Some l -> cur x = who_proc w -> is_back x = false ->
  wp (on_ss (rel c l) ;; goto c (At w)) (fun _ s' => smp_inv s' /\ at_ s' c = At w) s.
Proof.
  intros HI Hx Hcur Hb. assert (Hc : at_ (set_at c x s) c = x) by apply upd_same. wp_step.
  apply rel_smp.
  - apply (i_lock _ HI). by rewrite Hc.
  - pose proof (i_noff _ HI c) as E. by rewrite Hc, Hx in E.
  - apply (i_sie _ HI c). by rewrite Hc, Hx.
  - intros m Hm Ho Hn. apply wp_modify. split; [by eapply inv_released|]. apply upd_same.
Qed.

(** Changes that the invariant does not see. *)
Lemma inv_keep s s' : smp_inv s -> (forall l, lock s' l = lock s l) ->
  (forall c, noff (cpu_of s' c) = noff (cpu_of s c)) ->
  (forall c, holds (at_ s c) <> None -> sie (cpu_of s' c) = sie (cpu_of s c)) -> cproc (ss s') = cproc (ss s) ->
  at_ s' = at_ s -> newp s' = newp s -> (forall p, st s' p = st s p) -> smp_inv s'.
Proof.
  intros HI Hl Hn Hi Hc Ha Hp Hs. constructor; rewrite ?Ha, ?Hp, ?Hc.
  - intros c l. rewrite Hl. apply (i_lock s HI).
  - intros l. rewrite Hl. apply (i_free s HI).
  - intros c. rewrite Hn. apply (i_noff s HI).
  - intros c H. rewrite Hi by done. by apply (i_sie s HI).
  - apply (i_cproc s HI).
  - apply (i_excl s HI).
  - intros c p. rewrite Hs. apply (i_state s HI).
  - intros p. rewrite Hs. apply (i_running s HI).
  - intros p q. rewrite Hs. apply (i_newp s HI).
  - apply (i_newp_inj s HI).
  - intros c. pose proof (i_pos s HI c) as H. unfold pos_ok, may_leave in *. by rewrite Hp.
Qed.

(** A process whose lock is held and that is not RUNNING is on no other CPU. *)
Lemma not_on_cpu s c q : smp_inv s -> holds (at_ s c) = Some q -> is_back (at_ s c) = false -> st s q <> RUNNING ->
  forall c', cur (at_ s c') <> Some q.
Proof.
  intros HI Hh Hb Hn c' Hc. destruct (is_back (at_ s c')) eqn:E; [|by apply Hn, (i_state s HI c')].
  destruct (at_ s c') as [|?|p|? ? ?|? ? ?|?] eqn:Ea; try done. injection Hc as ->.
  assert (H' : holds (at_ s c') = Some q) by (by rewrite Ea). apply (i_lock s HI) in Hh, H'.
  assert (c = c') as -> by congruence. by rewrite Ea in Hb.
Qed.

(** The invariant of a state in which [c] holds the same lock as before. *)
Lemma inv_same_lock c x s s' : smp_inv s -> holds x = holds (at_ s c) -> sm (ss s') = sm (ss s) ->
  at_ s' = upd (at_ s) c x ->
  (forall c', cproc (ss s') c' = cur (at_ s' c')) ->
  (forall c1 c2 p, cur (at_ s' c1) = Some p -> cur (at_ s' c2) = Some p -> c1 = c2) ->
  (forall c' p, cur (at_ s' c') = Some p -> (st s' p = RUNNING <-> is_back (at_ s' c') = false)) ->
  (forall p, st s' p = RUNNING -> exists c', cur (at_ s' c') = Some p) ->
  (forall p q, newp s' p = Some q -> st s' q = USED) ->
  (forall p p' q, newp s' p = Some q -> newp s' p' = Some q -> p = p') ->
  (forall c', pos_ok s' (at_ s' c')) -> smp_inv s'.
Proof.
  intros HI Hx Hm Ha. intros. assert (Hh : forall c', holds (at_ s' c') = holds (at_ s c')).
  { intros c'. rewrite Ha. by at_case c' c. }
  constructor; try done; intros *; rewrite ?Hh; unfold lock, cpu_of; rewrite ?Hm.
  - apply (i_lock s HI).
  - destruct (i_free s HI l) as [?|[c' Hc']]; [by left|right]. exists c'. by rewrite Hh.
  - apply (i_noff s HI).
  - apply (i_sie s HI).
Qed.

(** The loop switches to a process. *)
Lemma inv_dispatch c p s k r : smp_inv s -> at_ s c = Chosen p -> st s p = RUNNABLE ->
  p_state (procs k p) = RUNNING -> (forall p', p' <> p -> p_state (procs k p') = st s p') ->
  smp_inv (Smp (SchedState k (sm (ss s)) (upd (cproc (ss s)) c (Some p)) r) (upd (at_ s) c (Resumed p)) (newp s) (entries s)).
Proof.
  intros HI Hc Hr Hp Ho. assert (Hoff : forall c', cur (at_ s c') <> Some p).
  { apply (not_on_cpu s c); try done; rewrite ?Hc; try done. congruence. }
  assert (Hu : forall p', newp s p' <> Some p) by (intros p' H; apply (i_newp s HI) in H; congruence).
  eapply (inv_same_lock c (Resumed p) s); simpl; try done; [by rewrite Hc|..]; unfold st; simpl.
  - intros c'. at_case c' c; [done|]. apply (i_cproc s HI).
  - intros c1 c2 p'. at_case c1 c; at_case c2 c; simpl; try done; [intros [= <-] H|intros H [= <-]|]; [by apply Hoff in H..|].
    apply (i_excl s HI).
  - intros c' p'. at_case c' c; simpl; [by intros [= <-]|]. intros H. rewrite Ho; [by apply (i_state s HI)|].
    intros ->. by apply Hoff in H.
  - intros p' H. destruct (decide (p' = p)) as [->|Hne]; [exists c; by rewrite upd_same|]. rewrite Ho in H by done.
    destruct (i_running s HI p' H) as [c' H']. exists c'. rewrite upd_other; [done|]. intros ->. by rewrite Hc in H'.
  - intros p' q H. rewrite Ho; [by eapply (i_newp s HI)|]. intros ->. by apply Hu in H.
  - apply (i_newp_inj s HI).
  - intros c'. at_case c' c; [done|]. apply (i_pos s HI).
Qed.

(** The loop is back from a process. *)
Lemma inv_undispatch c p s : smp_inv s -> at_ s c = Back p ->
  smp_inv (set_at c (Chosen p) (set_ss (set_cproc (upd (cproc (ss s)) c None) (ss s)) s)).
Proof.
  intros HI Hc. eapply (inv_same_lock c (Chosen p) s); simpl; try done; [by rewrite Hc|..]; unfold st; simpl.
  - intros c'. at_case c' c; [done|]. apply (i_cproc s HI).
  - intros c1 c2 p'. at_case c1 c; at_case c2 c; simpl; try done. apply (i_excl s HI).
  - intros c' p'. at_case c' c; simpl; [done|]. apply (i_state s HI).
  - intros p' H. destruct (i_running s HI p' H) as [c' H']. exists c'. rewrite upd_other; [done|]. intros ->.
    pose proof (i_state s HI c p' H') as [Hs _]. specialize (Hs H). by rewrite Hc in Hs.
  - apply (i_newp s HI).
  - apply (i_newp_inj s HI).
  - intros c'. at_case c' c; [done|]. apply (i_pos s HI).
Qed.

(** A process leaves the CPU. *)
Lemma inv_leave c p t ch s k en : smp_inv s -> at_ s c = Leaving p t ch ->
  p_state (procs k p) = t -> (forall p', p' <> p -> p_state (procs k p') = st s p') ->
  t <> RUNNING /\ smp_inv (Smp (set_sk k (ss s)) (upd (at_ s) c (Back p)) (newp s) en).
Proof.
  intros HI Hc Hp Ho. pose proof (i_pos s HI c) as Hml. rewrite Hc in Hml. simpl in Hml.
  assert (Ht : t <> RUNNING) by (by intros ->). split; [done|].
  assert (Hcur : cur (at_ s c) = Some p) by (by rewrite Hc).
  assert (Hrun : st s p = RUNNING) by (apply (i_state s HI c); by rewrite ?Hc).
  assert (Hoth : forall c', c' <> c -> cur (at_ s c') <> Some p) by (intros c' Hne H; by apply Hne, (i_excl s HI c' c p)).
  eapply (inv_same_lock c (Back p) s); simpl; try done; [by rewrite Hc|..]; unfold st; simpl.
  - intros c'. at_case c' c; [by rewrite (i_cproc s HI), Hc|]. apply (i_cproc s HI).
  - intros c1 c2 p'. at_case c1 c; at_case c2 c; simpl; try done; [intros [= <-] H|intros H [= <-]|]; [by apply Hoth in H..|].
    apply (i_excl s HI).
  - intros c' p'. at_case c' c; simpl; [intros [= <-]; by rewrite Hp|]. intros H. rewrite Ho; [by apply (i_state s HI)|].
    intros ->. by apply (Hoth c').
  - intros p' H. destruct (decide (p' = p)) as [->|Hne]; [congruence|]. rewrite Ho in H by done.
    destruct (i_running s HI p' H) as [c' H']. exists c'. rewrite upd_other; [done|]. intros ->. congruence.
  - intros p' q H. rewrite Ho; [by eapply (i_newp s HI)|]. intros ->. apply (i_newp s HI) in H. congruence.
  - apply (i_newp_inj s HI).
  - intros c'. at_case c' c; [done|]. apply (i_pos s HI).
Qed.

Lemma pos_ok_ext s s' x : (forall p, cur x = Some p -> newp s' p = newp s p) -> pos_ok s x -> pos_ok s' x.
Proof.
  intros H. destruct x as [w|p|p|[l|p] q []|p t ch|p]; simpl; try done; try (by rewrite H).
  unfold may_leave. by rewrite H.
Qed.

(** A critical section of a process or an interrupt handler. *)
Lemma inv_job c w q j s k np en : smp_inv s -> at_ s c = Busy w q j ->
  (forall p, p <> q -> p_state (procs k p) = st s p) ->
  p_state (procs k q) = st s q \/ st s q <> RUNNING /\ p_state (procs k q) <> RUNNING ->
  (forall p q', np p = Some q' -> p_state (procs k q') = USED) ->
  (forall p p' q', np p = Some q' -> np p' = Some q' -> p = p') ->
  (forall p, who_proc w <> Some p -> np p = newp s p) ->
  smp_inv (Smp (set_sk k (ss s)) (upd (at_ s) c (Busy w q JLook)) np en).
Proof.
  intros HI Hc Ho Hq Hu Hinj Hn.
  assert (Ecur : forall c', cur (upd (at_ s) c (Busy w q JLook) c') = cur (at_ s c')).
  { intros c'. at_case c' c; [by rewrite Hc|done]. }
  assert (Eback : forall c', is_back (upd (at_ s) c (Busy w q JLook) c') = is_back (at_ s c')).
  { intros c'. at_case c' c; [by rewrite Hc|done]. }
  assert (Hst : forall p, p_state (procs k p) = st s p \/ p = q /\ st s q <> RUNNING /\ p_state (procs k q) <> RUNNING).
  { intros p. destruct (decide (p = q)) as [->|]; [|left; by apply Ho]. destruct Hq; [by left|by right]. }
  eapply (inv_same_lock c (Busy w q JLook) s); simpl; try done; [by rewrite Hc|..].
  - intros c'. rewrite Ecur. apply (i_cproc s HI).
  - intros c1 c2 p. rewrite !Ecur. apply (i_excl s HI).
  - intros c' p. rewrite Ecur, Eback. intros H. unfold st. simpl.
    destruct (Hst p) as [->|(-> & Hs1 & _)]; [by apply (i_state s HI)|].
    exfalso. by apply (not_on_cpu s c q HI ltac:(by rewrite Hc) ltac:(by rewrite Hc) Hs1 c').
  - intros p. unfold st. simpl. intros H. destruct (Hst p) as [E|(-> & _ & Hs2)]; [|done]. rewrite E in H.
    destruct (i_running s HI p H) as [c' H']. exists c'. by rewrite Ecur.
  - intros c'. destruct (decide (c' = c)) as [->|Hne]; [rewrite upd_same; by destruct w|]. rewrite upd_other by done.
    eapply pos_ok_ext; [|by apply (i_pos s HI)]. intros p Hp. simpl. apply Hn. intros Hw.
    apply Hne, (i_excl s HI c' c p); [done|]. by rewrite Hc.
Qed.

(** The common case: the state of one slot changes, and [newp] does not. *)
Lemma inv_job_state c w q j s f : smp_inv s -> at_ s c = Busy w q j ->
  p_state (f (procs (sk (ss s)) q)) = st s q \/
    st s q <> RUNNING /\ st s q <> USED /\ p_state (f (procs (sk (ss s)) q)) <> RUNNING ->
  smp_inv (set_at c (Busy w q JLook) (set_ss (set_sk (put_proc q f (sk (ss s))) (ss s)) s)).
Proof.
  intros HI Hc Hf. apply (inv_job c w q j s); try done; simpl.
  - intros p Hne. by rewrite upd_other.
  - rewrite upd_same. destruct Hf as [?|(? & ? & ?)]; [by left|by right].
  - intros p q' H. destruct (decide (q' = q)) as [->|Hne]; [rewrite upd_same|rewrite upd_other by done; by eapply (i_newp s HI)].
    apply (i_newp s HI) in H. destruct Hf as [->|(? & ? & ?)]; [done|congruence].
  - apply (i_newp_inj s HI).
Qed.
Lemma inv_job_none c w q j s : smp_inv s -> at_ s c = Busy w q j -> smp_inv (set_at c (Busy w q JLook) s).
Proof.
  intros HI Hc. destruct s as [[k m cp r] a np en]. apply (inv_job c w q j _ k np en HI Hc); simpl; try done.
  - by left.
  - apply (i_newp _ HI).
  - apply (i_newp_inj _ HI).
Qed.

Lemma job_smp c w q j s : smp_inv s -> at_ s c = Busy w q j ->
  wp (job_body w q j) (fun _ s' => smp_inv (set_at c (Busy w q JLook) s')) s.
Proof.
  intros HI Hc. pose proof (inv_job_none c w q j s HI Hc) as Hnone.
  pose proof (i_pos s HI c) as Hpos. rewrite Hc in Hpos. unfold job_body, pupdate, pchange, pget, change, on_ss. do 3 wp_step.
  assert (Hx : p_state (procs (sk (ss s)) q) = st s q) by done. set (x := procs (sk (ss s)) q) in *.
  destruct j as [|ch|pid|pid| |]; cbn [negb].
  - by wp_step.
  - destruct (bool_decide (p_state x = SLEEPING)) eqn:Es; [|by wp_step]. apply bool_decide_eq_true in Es.
    destruct (bool_decide (p_chan x = ch)); cbn [andb]; [|by wp_step]. do 3 wp_step. apply (inv_job_state c w q (JWake ch) s _ HI Hc).
    right. rewrite <-Hx, Es. done.
  - destruct (p_pid x =? pid); [|by wp_step]. do 4 wp_step. cbv beta.
    destruct (bool_decide (p_state x = SLEEPING)) eqn:Es.
    + apply bool_decide_eq_true in Es. do 3 wp_step.
      pose proof (inv_job_state c w q (JKill pid) s (fun x => set_state RUNNABLE (set_killed 1 x)) HI Hc) as H.
      destruct s as [[k m cp r] a np en]. simpl in *. unfold put_proc in *. simpl in *. unfold set_at, set_ss, set_sk in *. simpl in *.
      rewrite upd_same, upd_upd. apply H. right. rewrite <-Hx, Es. done.
    + wp_step. apply (inv_job_state c w q (JKill pid) s _ HI Hc). by left.
  - destruct w as [l|p]; [by wp_step|]. destruct (bool_decide (p_state x = UNUSED)) eqn:Es; [|by wp_step].
    apply bool_decide_eq_true in Es. do 4 wp_step. cbv beta. do 4 wp_step. cbv beta. do 3 wp_step.
    pose proof (inv_job c (Running p) q (JAlloc pid) s (put_proc q (fun x => set_state USED (set_pid pid x)) (sk (ss s)))
      (upd (newp s) p (Some q)) (upd (entries s) q Forkret) HI Hc) as H.
    destruct s as [[k m cp r] a np en]. simpl in *. unfold put_proc in *. simpl in *. unfold set_at, set_newp, set_entry, set_ss, set_sk in *.
    simpl in *. rewrite upd_same, upd_upd. apply H.
    + intros p' Hne. by rewrite upd_other.
    + right. rewrite <-Hx, Es, upd_same. done.
    + intros p' q'. at_case p' p; [intros [= <-]; by rewrite upd_same|]. intros H'. apply (i_newp _ HI) in H'.
      rewrite upd_other; [done|]. intros ->. rewrite <-Hx in H'. congruence.
    + intros p1 p2 q'. assert (Hq : forall p', np p' <> Some q).
      { intros p' H'. apply (i_newp _ HI) in H'. rewrite <-Hx in H'. congruence. }
      at_case p1 p; at_case p2 p; try done; [intros [= <-] H'|intros H' [= <-]|]; [by apply Hq in H'..|]. apply (i_newp_inj _ HI).
    + intros p' Hne. rewrite upd_other; [done|]. congruence.
  - destruct w as [l|p]; [by wp_step|]. do 5 wp_step.
    pose proof (inv_job c (Running p) q JReady s (put_proc q (set_state RUNNABLE) (sk (ss s)))
      (upd (newp s) p None) (entries s) HI Hc) as H.
    pose proof (i_newp s HI p q Hpos) as Hus. apply H; simpl.
    + intros p' Hne. by rewrite upd_other.
    + right. by rewrite upd_same, Hus.
    + intros p' q'. at_case p' p; [done|]. intros H'. rewrite upd_other; [by eapply (i_newp s HI)|]. intros ->.
      by apply n, (i_newp_inj s HI p' p q).
    + intros p1 p2 q'. at_case p1 p; at_case p2 p; try done. apply (i_newp_inj s HI).
    + intros p' Hne. rewrite upd_other; [done|]. congruence.
  - destruct (bool_decide (p_state x = ZOMBIE)) eqn:Es; [|by wp_step]. apply bool_decide_eq_true in Es.
    do 3 wp_step. apply (inv_job_state c w q JFree s _ HI Hc). right. rewrite <-Hx, Es. done.
Qed.

(** The steps until a CPU holds no lock. *)
Definition lag (x : pos) : nat :=
  match x with At _ => 0 | Back _ | Busy _ _ _ | Resumed _ => 1 | Chosen _ | Leaving _ _ _ => 2 end.

Lemma set_at_at c x y (s : SM) : set_at c x (set_at c y s) = set_at c x s.
Proof. unfold set_at. simpl. by rewrite upd_upd. Qed.
Lemma set_at_same c x s : at_ s c = x -> set_at c x s = s.
Proof.
  intros <-. destruct s as [a b d e]. unfold set_at. simpl. f_equal. apply functional_extensionality. intros y. apply upd_id.
Qed.

Lemma set_ss_id (s : SM) : set_ss (ss s) s = s.
Proof. by destruct s. Qed.

(** The checks of [sched] pass. *)
Lemma sched_out_smp c p s Q : lock s p = Spinlock true (Some c) -> noff (cpu_of s c) = 1 -> sie (cpu_of s c) = false ->
  st s p <> RUNNING -> Q (intena (cpu_of s c)) s -> wp (on_ss (sched_out c p)) Q s.
Proof.
  intros Hl Hn Hs Hst HQ. unfold on_ss, sched_out, pget. do 5 wp_step.
  change (locks (sm (ss s)) p) with (lock s p). change (cpus (sm (ss s)) c) with (cpu_of s c).
  rewrite Hl, Hn. unfold holding, intr_get. rewrite Hs. cbn [locked lcpu andb]. rewrite bool_decide_true by done. cbn [negb Z.eqb Pos.eqb].
  rewrite bool_decide_false by done. wp_step. by rewrite set_ss_id.
Qed.

(** A process switches to the scheduler. *)
Lemma leaving_step c p t ch s : smp_inv s -> at_ s c = Leaving p t ch ->
  wp ((when! is_sleeping t do pupdate p (set_chan ch)) ;; pupdate p (set_state t) ;;
      let! saved := on_ss (sched_out c p) in
      modify (set_entry p (InSched saved (is_sleeping t))) ;; goto c (Back p))
    (fun _ s' => smp_inv s' /\ (lag (at_ s' c) < 2)%nat) s.
Proof.
  intros HI Hc.
  assert (Hlk : lock s p = Spinlock true (Some c)) by (apply (i_lock s HI); by rewrite Hc).
  assert (Hn : noff (cpu_of s c) = 1) by (rewrite (i_noff s HI), Hc; done).
  assert (Hsie : sie (cpu_of s c) = false) by (apply (i_sie s HI); by rewrite Hc).
  assert (Hgo : forall k0, (forall p', p' <> p -> procs k0 p' = procs (sk (ss s)) p') ->
    wp (pupdate p (set_state t) ;; let! saved := on_ss (sched_out c p) in
        modify (set_entry p (InSched saved (is_sleeping t))) ;; goto c (Back p))
      (fun _ s' => smp_inv s' /\ (lag (at_ s' c) < 2)%nat) (set_ss (set_sk k0 (ss s)) s)).
  { intros k0 Hk0. unfold pupdate, on_ss at 1, pchange, change. do 4 wp_step. cbv beta. wp_step.
    assert (Hlv : forall en, t <> RUNNING /\
      smp_inv (Smp (set_sk (put_proc p (set_state t) k0) (ss s)) (upd (at_ s) c (Back p)) (newp s) en)).
    { intros en. apply (inv_leave c p t ch); try done; simpl; [by rewrite upd_same|].
      intros p' Hne. rewrite upd_other by done. unfold st. by rewrite Hk0. }
    apply sched_out_smp; try done; [unfold st; simpl; rewrite upd_same; apply (Hlv (entries s))|]. unfold goto. do 3 wp_step. simpl.
    rewrite upd_same. split; [|simpl; lia]. apply Hlv. }
  wp_step. destruct (is_sleeping t).
  - unfold pupdate at 1, on_ss at 1, pchange, change. do 3 wp_step. cbv beta. apply Hgo. intros p' Hne. simpl. by rewrite upd_other.
  - wp_step. specialize (Hgo (sk (ss s)) ltac:(done)). by destruct s as [[] ? ? ?].
Qed.

(** A process goes on after [swtch]. *)
Lemma resumed_step c p s : smp_inv s -> at_ s c = Resumed p ->
  wp (match entries s p with
      | Forkret => ret tt
      | InSched saved slept => on_ss (sched_in c saved) ;; when! slept do pupdate p (set_chan NoChan)
      end ;;
      on_ss (rel c p) ;; goto c (At (Running p)))
    (fun _ s' => smp_inv s' /\ (lag (at_ s' c) < 1)%nat) s.
Proof.
  intros HI Hc. wp_step. eapply (wp_mono _ (fun _ s1 => smp_inv s1 /\ at_ s1 = at_ s)).
  - destruct (entries s p) as [|saved slept]; [by wp_step|].
    unfold sched_in, pupdate, on_ss, pchange, change. do 4 wp_step. cbv beta.
    assert (H : forall k, (forall p', p_state (procs k p') = st s p') ->
      smp_inv (set_ss (set_sk k (set_sm (set_cpu c (Cpu (noff (cpu_of s c)) saved (sie (cpu_of s c))) (sm (ss s))) (ss s))) s)).
    { intros k Hk. apply (inv_keep s); try done; intros c'; [|intros _]; unfold cpu_of; simpl; by at_case c' c. }
    destruct slept.
    + do 3 wp_step. cbv beta. split; [|done]. apply H. intros p'. simpl. by at_case p' p.
    + wp_step. split; [|done]. specialize (H (sk (ss s)) ltac:(done)). by destruct s as [[] ? ? ?].
  - intros [] s1 [H1 H2]. eapply wp_mono; [apply (release_smp c (Running p) (Resumed p) p s1); try done|].
    + rewrite set_at_same; [done|]. by rewrite H2.
    + intros [] s' [H3 ->]. split; [done|simpl; lia].
Qed.

(** A CPU that holds a lock goes on, and the lock is on its way to be released. *)
Lemma holder_step c a s : smp_inv s -> holds (at_ s c) <> None ->
  wp (cpu_step c a) (fun _ s' => smp_inv s' /\ (lag (at_ s' c) < lag (at_ s c))%nat) s.
Proof.
  intros HI Hh. unfold cpu_step. do 4 wp_step. unfold id.
  assert (Hrel : forall x w l, smp_inv (set_at c x s) -> holds x = Some l -> cur x = who_proc w -> is_back x = false ->
    (0 < lag (at_ s c))%nat ->
    wp (on_ss (rel c l) ;; goto c (At w)) (fun _ s' => smp_inv s' /\ (lag (at_ s' c) < lag (at_ s c))%nat) s).
  { intros x w l Hx Hl Hcur Hb Hlag. eapply wp_mono; [by apply (release_smp c w x l)|]. intros [] s' [H1 ->]. done. }
  destruct (at_ s c) as [w|p|p|w q j|p t ch|p] eqn:Hc; [done|..].
  - unfold on_ss at 1, pget. do 3 wp_step. rewrite set_ss_id. destruct (is_runnable _) eqn:Er.
    + apply bool_decide_eq_true in Er. unfold dispatch, on_ss, goto, pchange, change. do 9 wp_step. cbv beta. simpl.
      rewrite upd_same. split; [|simpl; lia]. apply (inv_dispatch c p s _ _ HI Hc); simpl; [done|by rewrite upd_same|].
      intros p' Hne. by rewrite upd_other.
    + apply (Hrel (Chosen p) (Loop (S p))); try done; [by rewrite set_at_same|simpl; lia].
  - wp_step. unfold undispatch, on_ss at 1. do 2 wp_step. cbv beta.
    eapply wp_mono; [apply (release_smp c (Loop (S p)) (Chosen p) p); try done; by apply (inv_undispatch c p)|].
    intros [] s' [H1 ->]. split; [done|simpl; lia].
  - wp_step. eapply wp_mono; [by apply (job_smp c w q j)|]. intros [] s1 H1.
    eapply wp_mono; [by apply (release_smp c w (Busy w q JLook) q)|]. intros [] s' [H2 ->]. split; [done|simpl; lia].
  - by apply leaving_step.
  - by apply resumed_step.
Qed.

(** A CPU that holds no lock goes on or spins. *)
Lemma take_lock c w x l s : smp_inv s -> at_ s c = At w -> lock s l = Spinlock false None ->
  holds x = Some l -> cur x = who_proc w -> is_back x = false -> pos_ok s x ->
  wp (on_ss (acq c l) ;; goto c x) (fun _ s' => smp_inv s' /\ at_ s' c = x /\ forall p, st s' p = st s p) s.
Proof.
  intros HI Hc Hl Hx Hcur Hb Hp. wp_step. apply acq_free; [by rewrite (i_noff s HI), Hc|done|].
  intros m Hm Ho Hn Hs. apply wp_modify. split_and!; [by apply (inv_acquired c w x l)|apply upd_same|done].
Qed.
Lemma take_or_spin c w x l s : smp_inv s -> at_ s c = At w ->
  holds x = Some l -> cur x = who_proc w -> is_back x = false -> pos_ok s x ->
  wbp (on_ss (acq c l) ;; goto c x) (fun _ => smp_inv) s.
Proof.
  intros HI Hc Hx Hcur Hb Hp. apply wbp_bind, acq_smp; [done|by rewrite Hc|]. intros Hl.
  pose proof (take_lock c w x l s HI Hc Hl Hx Hcur Hb Hp) as H. unfold wp, wbp, bind in *.
  destruct (on_ss (acq c l) s) as [[[] s1]| | |]; try done. by destruct (goto c x s1) as [[a s2]| | |]; [apply H|..].
Qed.

Lemma intr_smp c w s e b : smp_inv s -> at_ s c = At w ->
  smp_inv (set_ss (set_sm (set_cpu c (Cpu (noff (cpu_of s c)) e b) (sm (ss s))) (ss s)) s).
Proof.
  intros HI Hc. apply (inv_keep s); try done; intros c'; unfold cpu_of; simpl; at_case c' c; try done. by rewrite Hc.
Qed.

Lemma free_step c a w s : smp_inv s -> at_ s c = At w -> wbp (cpu_step c a) (fun _ => smp_inv) s.
Proof.
  intros HI Hc. unfold cpu_step. apply wbp_bind, wp_wbp, wp_gets. apply wbp_bind, wp_wbp, wp_gets. rewrite Hc. unfold id.
  destruct a as [|q j|t ch|b].
  - destruct w as [p|p]; [|done]. destruct (p <? NPROC)%nat; [by apply (take_or_spin c (Loop p))|].
    apply wp_wbp. unfold on_ss, goto. do 4 wp_step. cbv beta.
    pose proof (intr_smp c (Loop p) s (intena (cpu_of s c)) true HI Hc) as H.
    destruct s as [[k m cp r] at0 np en]. apply (inv_same_lock c (At (Loop 0)) _ _ H); simpl in *; try done;
      [by rewrite Hc|..]; [..|intros c'; at_case c' c; [done|apply (i_pos _ HI)]].
    + intros c'. at_case c' c; [rewrite (i_cproc _ HI); simpl; by rewrite Hc|apply (i_cproc _ HI)].
    + intros c1 c2 p'. at_case c1 c; at_case c2 c; try done. apply (i_excl _ HI).
    + intros c' p'. at_case c' c; [done|]. apply (i_state _ HI).
    + intros p' Hp. destruct (i_running _ HI p' Hp) as [c' H']. exists c'. simpl in *. rewrite upd_other; [done|].
      intros ->. by rewrite Hc in H'.
    + apply (i_newp _ HI).
    + apply (i_newp_inj _ HI).
  - destruct (may_touch s w q j) eqn:Em; [|done]. apply (take_or_spin c w); try done. unfold may_touch in Em.
    apply andb_prop in Em as [_ Em]. destruct w as [p|p], j; simpl; try done; by apply bool_decide_eq_true in Em.
  - destruct w as [p|p]; [done|]. destruct (may_leave s p t) eqn:Em; [|done]. by apply (take_or_spin c (Running p)).
  - apply wp_wbp. unfold on_ss. do 3 wp_step. cbv beta. by apply (intr_smp c w).
Qed.

Lemma cpu_step_safe c a s : smp_inv s -> wbp (cpu_step c a) (fun _ => smp_inv) s.
Proof.
  intros HI. destruct (holds (at_ s c)) as [l|] eqn:Hh.
  - apply wp_wbp. eapply wp_mono; [apply holder_step; [done|congruence]|]. by intros [] s' [H _].
  - destruct (at_ s c) as [w| | | | |] eqn:Hc; try done. by apply (free_step c a w).
Qed.

(** ** Reachable states *)

(** No CPU has looked at a slot yet. *)
Definition smp_init (s : SM) : Prop :=
  (forall c, at_ s c = At (Loop 0) /\ noff (cpu_of s c) = 0 /\ cproc (ss s) c = None) /\
  (forall p, lock s p = Spinlock false None /\ st s p <> RUNNING /\ newp s p = None).

Lemma init_smp_inv s : smp_init s -> smp_inv s.
Proof.
  intros [Hc Hp]. constructor.
  - intros c l. by rewrite (proj1 (Hc c)).
  - intros l. left. apply Hp.
  - intros c. rewrite (proj1 (Hc c)). apply Hc.
  - intros c. by rewrite (proj1 (Hc c)).
  - intros c. rewrite (proj1 (Hc c)). apply Hc.
  - intros c c' p. by rewrite (proj1 (Hc c)).
  - intros c p. by rewrite (proj1 (Hc c)).
  - intros p H. by apply Hp in H.
  - intros p q. by rewrite (proj2 (proj2 (Hp p))).
  - intros p p' q. by rewrite (proj2 (proj2 (Hp p))).
  - intros c. by rewrite (proj1 (Hc c)).
Qed.
Lemma reachable_smp_inv s0 s : smp_init s0 -> rtc smp_step s0 s -> smp_inv s.
Proof.
  intros H0 Hr. apply init_smp_inv in H0. induction Hr as [|s1 s2 s3 (c & a & E) _ IH]; [done|]. apply IH.
  pose proof (cpu_step_safe c a s1 H0) as H. unfold wbp in H. by rewrite E in H.
Qed.

(** A held lock is released within two steps of its holder. *)
Lemma lock_released c s : smp_inv s -> holds (at_ s c) <> None -> forall a a',
  exists s', cpu_step c a s = Ret (tt, s') /\
    (holds (at_ s' c) = None \/ exists s'', cpu_step c a' s' = Ret (tt, s'') /\ holds (at_ s'' c) = None).
Proof.
  intros HI Hh a a'. destruct (proj1 (wp_returns _ _ _) (holder_step c a s HI Hh)) as ([] & s1 & E1 & HI1 & Hl1).
  exists s1. split; [done|]. destruct (holds (at_ s1 c)) as [l|] eqn:Hh1; [right|by left].
  destruct (proj1 (wp_returns _ _ _) (holder_step c a' s1 HI1 ltac:(congruence))) as ([] & s2 & E2 & HI2 & Hl2).
  exists s2. split; [done|]. destruct (at_ s c), (at_ s1 c), (at_ s2 c); simpl in *; try done; lia.
Qed.

(** A CPU in its loop that finds the lock of a RUNNABLE process free runs it. *)
Lemma loop_runs c p s a : smp_inv s -> at_ s c = At (Loop p) -> (p < NPROC)%nat -> lock s p = Spinlock false None ->
  exists s1, cpu_step c Go s = Ret (tt, s1) /\ at_ s1 c = Chosen p /\
    exists s2, cpu_step c a s1 = Ret (tt, s2) /\
      if bool_decide (st s p = RUNNABLE) then cproc (ss s2) c = Some p /\ st s2 p = RUNNING
      else at_ s2 c = At (Loop (S p)).
Proof.
  intros HI Hc Hp Hl. pose proof (take_lock c (Loop p) (Chosen p) p s HI Hc Hl ltac:(done) ltac:(done) ltac:(done) ltac:(done)) as H.
  destruct (proj1 (wp_returns _ _ _) H) as ([] & s1 & E1 & HI1 & Hc1 & Hst). exists s1. split_and!; [|done|].
  - unfold cpu_step. erewrite bind_ret_eq by done. erewrite bind_ret_eq by done. rewrite Hc. by rewrite (proj2 (Nat.ltb_lt _ _)).
  - assert (Hw : wp (cpu_step c a) (fun _ s2 => if bool_decide (st s p = RUNNABLE)
      then cproc (ss s2) c = Some p /\ st s2 p = RUNNING else at_ s2 c = At (Loop (S p))) s1).
    2: { destruct (proj1 (wp_returns _ _ _) Hw) as ([] & s2 & E2 & H2). by exists s2. }
    unfold cpu_step. do 4 wp_step. rewrite Hc1. unfold on_ss at 1, pget. do 3 wp_step. rewrite set_ss_id.
    unfold is_runnable. change (p_state (procs (sk (ss s1)) p)) with (st s1 p). rewrite Hst.
    destruct (bool_decide (st s p = RUNNABLE)).
    + unfold dispatch, on_ss, goto, pchange, change. do 9 wp_step. unfold st. simpl. by rewrite !upd_same.
    + eapply wp_mono; [apply (release_smp c (Loop (S p)) (Chosen p) p s1); try done; by rewrite set_at_same|].
      by intros [] s' [_ H'].
Qed.

End smp.

(** ** Two CPUs and two processes *)

Definition smp0 : smp unit := Smp two_ready (fun _ => At (Loop 0)) (fun _ => None) (fun _ => Forkret).
Lemma smp0_init : smp_init smp0.
Proof.
  split; [done|]. intros p. split_and!; [done| |done]. unfold st. simpl.
  destruct (decide (p = 3%nat)) as [->|H3]; [by rewrite upd_same|]. rewrite upd_other by done.
  destruct (decide (p = 0%nat)) as [->|H0]; [by rewrite upd_same|]. rewrite upd_other by done.
  unfold init_table. by rewrite upd_other.
Qed.

(** The CPUs in turn, by a list of steps. *)
Fixpoint smp_run {F} (l : list (nat * act)) (s : smp F) : option (smp F) :=
  match l with
  | [] => Some s
  | (c, a) :: l => match cpu_step c a s with Ret (_, s') => smp_run l s' | _ => None end
  end.
Lemma smp_run_steps {F} l (s s' : smp F) : smp_run l s = Some s' -> rtc smp_step s s'.
Proof.
  revert s. induction l as [|[c a] l IH]; intros s; simpl; [by intros [= ->]|].
  destruct (cpu_step c a s) as [[[] s1]| | |] eqn:E; try done. intros H. eapply rtc_l; [by exists c, a|by apply IH].
Qed.

(** CPU 0 runs process 0, which yields; CPU 1 then runs it. *)
Definition smp_demo : list (nat * act) :=
  repeat (0%nat, Go) 3 ++ [(0%nat, Leave RUNNABLE NoChan)] ++ repeat (0%nat, Go) 2 ++ repeat (1%nat, Go) 3.
Definition smp_end : smp unit := match smp_run smp_demo smp0 with Some s => s | None => smp0 end.
Lemma smp_end_reached : rtc smp_step smp0 smp_end /\ cproc (ss smp_end) 1%nat = Some 0%nat /\ cproc (ss smp_end) 0%nat = None.
Proof.
  assert (H : fmap (fun s => (cproc (ss s) 1%nat, cproc (ss s) 0%nat)) (smp_run smp_demo smp0) = Some (Some 0%nat, None))
    by (vm_compute; reflexivity).
  unfold smp_end. revert H. pose proof (smp_run_steps smp_demo smp0) as Hr. destruct (smp_run smp_demo smp0) as [s|]; [|done].
  intros [= H1 H2]. split_and!; [by apply Hr|done|done].
Qed.
