(* ===== verification/Fault.v ===== *)
(** * kernel/trap.c: page faults of user programs

    The page-fault case of [usertrap]: lazy allocation of a page below [p->sz]
    and the copy of a copy-on-write page.  The theorems say that a fault never
    changes what the process sees, and what becomes of the pages. *)

From S2P Require Import Prelude Riscv KString Locks Kalloc Vm Uvm UserMem UvmProps Proc ProcInv.

(** ** The handler *)

Section handler.
Context (end_ : Z).

Definition lazy_perm : Z := Z.lor (Z.lor (Z.lor PTE_W PTE_X) PTE_R) PTE_U.

(** The result tells whether the process may go on; otherwise it is marked
    killed. *)
Definition lazy_fault (pagetable va : Z) : M kstate bool :=
  let! m := kalloc in
  if m =? 0 then ret false
  else
    memset_m m 0 PGSIZE ;;
    let! r := mappages pagetable (PGROUNDDOWN va) PGSIZE m lazy_perm in
    if negb (r =? 0) then kfree end_ m ;; ret false else ret true.

Definition cow_fault (pte : Z) : M kstate bool :=
  let! v := load pte in
  let pa := PTE2PA v in
  let! m := kalloc in
  if m =? 0 then ret false
  else
    modify (fun s => set_mem (memmove (mem s) m pa PGSIZE) s) ;;
    let! v := load pte in
    let flags := Z.lor (Z.land (PTE_FLAGS v) (Z.lnot PTE_COW)) PTE_W in
    store pte (Z.lor (Z.lor (PA2PTE m) flags) PTE_V) ;;
    drop_page end_ pa ;;
    ret true.

Definition handle_fault (pagetable va : Z) : M kstate bool :=
  let! pte := walk pagetable va false in
  if pte =? 0 then lazy_fault pagetable va
  else
    let! v := load pte in
    if bits v PTE_V && bits v PTE_COW then cow_fault pte
    else if negb (bits v PTE_V) then lazy_fault pagetable va
    else ret false.

Definition page_fault {F} (me : nat) (va : Z) : M (kern F) unit :=
  let! p := get me in
  if (p_sz p <=? va) || (va <? PGSIZE) then setkilled me
  else
    let! ok := liftk (handle_fault (p_pagetable p) va) in
    when! negb ok do setkilled me.
End handler.

(** ** Copy on write *)

Section faults.
Context (end_ : Z) `{PA : !PageAllocator end_} (Hend : KERNBASE <= end_ <= PHYSTOP).

(** A reference to a page outside the address space is dropped. *)
Lemma drop_outside s root T lo hi pa :
  uspace end_ s root T lo hi -> bad_pa end_ pa = false ->
  0 < refcount s (pa2index pa) < 256 ->
  (forall x, page pa x -> ~ pa_free s x /\ ~ pt_mem T x) -> ~ maps s T lo hi pa ->
  wp (drop_page end_ pa) (fun _ s' => uspace end_ s' root T lo hi /\
    same_bytes s T s' T lo hi (fun _ => false) /\
    refcount s' = upd (refcount s) (pa2index pa) (refcount s (pa2index pa) - 1) /\
    (forall x, pa_free s' x <-> pa_free s x \/ (refcount s (pa2index pa) = 1 /\ page pa x)) /\
    (forall x, ~ pa_free s' x -> mem s' x = mem s x)) s.
Proof.
  intros [HI Hwf Hok H0 Hhi] Hb Hr Hx Hm.
  eapply wp_mono; [apply drop_page_inv; try done; [lia|]; apply Hx, page_start|].
  intros ? s' (HI' & Hr' & Hfr & Hmem).
  assert (Hpt : forall x, pt_mem T x -> ~ pa_free s' x).
  { intros x Hpx [Hf|[_ Hp]]%Hfr; [|by apply Hx in Hp as [_ ?]].
    destruct Hpx as (n & q & Hn & Hq). by apply (wf_page _ _ _ _ Hwf _ _ Hn) in Hq. }
  assert (Hpte : forall va, pte_of s' T va = pte_of s T va)
    by (intros; apply pte_of_frame; auto).
  assert (Hother : forall pa', maps s T lo hi pa' -> refcount s' (pa2index pa') = refcount s (pa2index pa') /\
    forall x, page pa' x -> ~ pa_free s' x).
  { intros pa' Hpa'. destruct (sp_page _ _ _ _ _ Hok pa' Hpa') as (Hb' & _ & Hx').
    pose proof (bad_pa_range end_ Hend pa Hb) as (? & ? & ? & ?).
    pose proof (bad_pa_range end_ Hend pa' Hb') as (? & ? & ? & ?). split.
    - rewrite Hr', upd_other; [done|]. intros E. apply Hm.
      apply (pa2index_inj end_ Hend) in E; try done. by subst.
    - intros x Hpx [Hf|[_ Hp]]%Hfr; [by destruct (Hx' x Hpx)|]. apply Hm.
      by rewrite (page_disjoint pa pa' x). }
  split_and!; try done.
  - constructor; try done; [by eapply pt_wf_frame; eauto|].
    pose proof Hok as [Hl Hp Hi]. constructor.
    + intros va. rewrite Hpte. apply Hl.
    + intros pa' Hpa'. assert (Hpa : maps s T lo hi pa')
        by (destruct Hpa' as (va & ? & Hv); exists va; by rewrite Hpte in Hv).
      destruct (Hp pa' Hpa) as (? & ? & Hx'), (Hother pa' Hpa) as [-> Hnf].
      split_and!; try done; try lia. intros x Hpx. split; [by apply Hnf|by apply Hx'].
    + intros va va'. rewrite !Hpte. apply Hi.
  - intros va Hva _. rewrite Hpte. split; [done|]. intros Hv. unfold ubyte, upa, ldb. rewrite Hpte.
    f_equal. apply Hmem, (Hother (PTE2PA (pte_of s T va))); [by exists va|]. unfold page. lia.
Qed.

(** The entry after the copy: writable, not shared. *)
Definition broken_flags (v : Z) : Z := Z.lor (Z.land (PTE_FLAGS v) (Z.lnot PTE_COW)) PTE_W.

Lemma broken_flags_range v : 0 <= broken_flags v < 1024.
Proof.
  apply (lor_range _ _ 10); [done| |done]. unfold PTE_FLAGS.
  rewrite <- Z.land_assoc, (Z.land_comm 0x3FF), Z.land_assoc.
  change 0x3FF with (2 ^ 10 - 1). rewrite land_ones_mod by done. lia.
Qed.

Lemma broken_flags_W v : bits (Z.lor (broken_flags v) PTE_V) PTE_W = true.
Proof.
  unfold bits. apply negb_true_iff, Z.eqb_neq. intros E.
  apply (f_equal (fun w => Z.testbit w 2)) in E. unfold broken_flags in E.
  rewrite Z.land_spec, !Z.lor_spec in E. change (Z.testbit PTE_W 2) with true in E.
  rewrite orb_true_r in E. done.
Qed.

Lemma broken_flags_COW v : bits (Z.lor (broken_flags v) PTE_V) PTE_COW = false.
Proof.
  unfold bits, broken_flags. rewrite !Z.land_lor_distr_l, <- Z.land_assoc.
  change (Z.land (Z.lnot PTE_COW) PTE_COW) with 0. by rewrite Z.land_0_r.
Qed.

(** The shared page at [va] has been replaced by the private page [q]. *)
Record cow_broken (s : kstate) (root : Z) (T : ptree) (lo hi va q : Z) (s' : kstate) : Prop := {
  cb_space : uspace end_ s' root T lo hi;
  cb_same : forall va', lo <= va' < hi -> ucontent s' T va' = ucontent s T va';
  cb_pte : forall va', lo <= va' < hi -> pte_of s' T va' =
    if same_page va va' then leaf_pte q (broken_flags (pte_of s T va)) else pte_of s T va';
  cb_new : bad_pa end_ q = false /\ forall x, page q x -> pa_free s x;
  cb_ref : forall pa, bad_pa end_ pa = false -> refcount s' (pa2index pa) =
    if pa =? q then 1
    else if pa =? PTE2PA (pte_of s T va) then refcount s (pa2index pa) - 1
    else refcount s (pa2index pa);
  cb_free : forall x, pa_free s' x <-> pa_free s x /\ ~ page q x \/
    refcount s (pa2index (PTE2PA (pte_of s T va))) = 1 /\ page (PTE2PA (pte_of s T va)) x;
  cb_mem : forall x, ~ pa_free s x -> ~ pa_free s' x -> ~ pt_mem T x -> mem s' x = mem s x;
}.

(** From the state after [kalloc] on. *)
Section copy.
Context (s s1 : kstate) (root : Z) (T : ptree) (lo hi va q : Z).
Context (Hus : uspace end_ s root T lo hi) (Hva : lo <= va < hi)
  (Hv : valid (pte_of s T va) = true)
  (Hb : bad_pa end_ q = false) (HI1 : pa_inv s1)
  (Hfr : forall x, pa_free s x <-> pa_free s1 x \/ page q x)
  (Hnf : forall x, page q x -> ~ pa_free s1 x)
  (Hm : forall x, ~ pa_free s x -> mem s1 x = mem s x)
  (Hr : refcount s1 = upd (refcount s) (pa2index q) 1).

Abbreviation pa := (PTE2PA (pte_of s T va)).
Definition copied_page : kstate := set_mem (memmove (mem s1) q pa PGSIZE) s1.
Abbreviation v := (leaf_pte q (broken_flags (pte_of s T va))).

Lemma old_page : bad_pa end_ pa = false /\ 0 < refcount s (pa2index pa) < 256 /\
  forall x, page pa x -> ~ pa_free s x /\ ~ pt_mem T x.
Proof. apply (sp_page _ _ _ _ _ (us_ok _ _ _ _ _ _ Hus)). by exists va. Qed.

Lemma pa_not_q : pa <> q.
Proof.
  intros E. destruct old_page as (_ & _ & Hx). destruct (Hx q) as [Hn _].
  - rewrite E. apply page_start.
  - apply Hn, Hfr. right. apply page_start.
Qed.

Lemma copy_fill x : ~ page q x -> mem copied_page x = mem s1 x.
Proof. intros Hx. simpl. apply memmove_other; [done|]. unfold page in Hx. lia. Qed.

Lemma copy_allocated :
  pa_inv copied_page /\ pt_wf end_ copied_page root T /\ space_ok end_ copied_page T lo hi /\
  fresh end_ copied_page T lo hi q /\ pt_frame end_ s T copied_page T /\
  same_bytes s T copied_page T lo hi (fun _ => false).
Proof.
  destruct Hus as [HI Hwf Hok H0 Hhi].
  by apply (allocated end_ Hend s s1 root T lo hi q Hwf Hok Hb HI1 Hfr Hnf Hm Hr _ copy_fill).
Qed.

Lemma copy_pte va' : lo <= va' < hi -> pte_of copied_page T va' = pte_of s T va'.
Proof.
  intros Hva'. destruct copy_allocated as (_ & _ & _ & _ & _ & Hby). by apply Hby.
Qed.

Lemma copy_free x : pa_free copied_page x <-> pa_free s1 x.
Proof. destruct (alloc_inv end_ s1 q HI1 Hnf _ copy_fill) as [_ H]. apply H. Qed.

Lemma v_spec : valid v = true /\ PTE2PA v = q /\ PTE_FLAGS v <> PTE_V /\ 0 <= v < 2 ^ 64.
Proof.
  apply (bad_pa_range end_ Hend) in Hb as (? & ? & ? & ?).
  destruct (leaf_pte_spec q (broken_flags (pte_of s T va))) as (? & ? & E & ?);
    [lia|done|apply broken_flags_range|].
  split_and!; try done; try lia. rewrite E. intros E'.
  pose proof (broken_flags_W (pte_of s T va)) as HW. rewrite E' in HW. done.
Qed.

(** What the process sees after the store. *)
Lemma copy_stored : let s3 := set_pte copied_page T va v in
  uspace end_ s3 root T lo hi /\
  (forall va', lo <= va' < hi ->
     pte_of s3 T va' = (if same_page va va' then v else pte_of s T va') /\
     ucontent s3 T va' = ucontent s T va') /\
  (forall x, pa_free s3 x <-> pa_free s1 x) /\ ~ maps s3 T lo hi pa.
Proof.
  intros s3. destruct copy_allocated as (HI2 & Hwf2 & Hok2 & Hfresh & Hfrm & Hby).
  pose proof Hus as [_ _ Hok0 H0 Hhi]. destruct v_spec as (Hvv & Hvq & Hvf & Hvr).
  assert (HT : T (leaf va) <> None) by (by apply (valid_leaf s)).
  destruct (set_pte_wf end_ Hend copied_page root T va v) as (HI3 & Hfr3 & Hwf3); try done.
  assert (Hp3 : forall va', 0 <= va' < MAXVA ->
    pte_of s3 T va' = if same_page va va' then v else pte_of copied_page T va').
  { intros va' Hva'. destruct (same_page va va') eqn:E.
    - unfold same_page in E. bool_to_prop. rewrite (pte_of_page _ T va' va) by done.
      apply set_pte_same; [done|lia].
    - apply (set_pte_other end_ Hend copied_page root); try done; lia. }
  destruct (remapped end_ Hend copied_page s3 root T T lo hi q v (same_page va))
    as (Hok3 & Hby3 & Hnew); try done.
  { by apply (set_pte_frame end_ Hend _ root). }
  { apply same_page_trans. }
  split_and!.
  - by constructor.
  - intros va' Hva'. rewrite Hp3, copy_pte by lia. split; [done|]. unfold ucontent.
    destruct (same_page va va') eqn:E.
    + destruct (Hnew va' Hva' E) as [-> ->]. rewrite Hvv. unfold same_page in E. bool_to_prop.
      unfold ubyte, upa, ldb. rewrite !(pte_of_page s T va' va), Hv by done. simpl.
      apply (bad_pa_range end_ Hend) in Hb as (? & ? & ? & ?).
      rewrite memmove_inside by lia. unfold ldb. rewrite u8_u8. f_equal.
      replace (q + va' mod PGSIZE - q) with (va' mod PGSIZE) by lia.
      destruct old_page as (_ & _ & Hx). apply Hm, Hx. unfold page. lia.
    + destruct (Hby3 va' Hva' E) as [-> Hb3], (Hby va' Hva' eq_refl) as [E2 Hb2]. rewrite E2 in *.
      destruct (valid (pte_of s T va')) eqn:Ev; [|done]. by rewrite Hb3, Hb2.
  - intros x. unfold s3. by rewrite Hfr3, copy_free.
  - intros (va' & Hva' & Hv' & Hp'). rewrite Hp3, copy_pte in * by lia.
    destruct (same_page va va') eqn:E; [by apply pa_not_q; rewrite <- Hp'|].
    rewrite (sp_inj _ _ _ _ _ Hok0 va va') in E; done.
Qed.

Lemma copy_drop :
  wp (drop_page end_ pa) (fun _ s' => cow_broken s root T lo hi va q s') (set_pte copied_page T va v).
Proof.
  destruct copy_stored as (Hus3 & Hc3 & Hfr3 & Hnm), old_page as (Hbp & Hrp & Hxp).
  pose proof pa_not_q as Hpq. set (s3 := set_pte _ _ _ _) in *.
  assert (Hidx : forall p, bad_pa end_ p = false -> refcount s3 (pa2index p) =
    if p =? q then 1 else refcount s (pa2index p)).
  { intros p Hp. change (refcount s3) with (refcount s1). rewrite Hr. case_bool; [by subst; rewrite upd_same|].
    rewrite upd_other; [done|]. intros E. apply (pa2index_inj end_ Hend) in E; done. }
  assert (Hrp3 : refcount s3 (pa2index pa) = refcount s (pa2index pa)).
  { rewrite Hidx by done. by rewrite (proj2 (Z.eqb_neq _ _)). }
  eapply wp_mono; [apply (drop_outside s3 root T lo hi pa); try done; [by rewrite Hrp3|]|].
  { intros x Hx. destruct (Hxp x Hx) as [Hf ?]. split; [|done]. rewrite Hfr3. intros ?.
    apply Hf, Hfr. by left. }
  intros ? s' (Hus' & Hby & Hr' & Hfr' & Hmem'). rewrite Hrp3 in *.
  constructor; try done.
  - intros va' Hva'. destruct (Hc3 va' Hva') as [_ <-], (Hby va' Hva' eq_refl) as [E Hb'].
    unfold ucontent. rewrite E. destruct (valid (pte_of s3 T va')); auto.
  - intros va' Hva'. destruct (Hc3 va' Hva') as [<- _]. by apply Hby.
  - split; [done|]. intros x Hx. apply Hfr. by right.
  - intros p Hp. rewrite Hr'. destruct (Z.eqb_spec p q) as [->|Hne].
    + rewrite upd_other, Hidx by (try done; intros E; apply (pa2index_inj end_ Hend) in E; congruence).
      by rewrite Z.eqb_refl.
    + destruct (Z.eqb_spec p pa) as [->|Hne']; [by rewrite upd_same|].
      rewrite upd_other, Hidx by (try done; intros E; apply (pa2index_inj end_ Hend) in E; congruence).
      by rewrite (proj2 (Z.eqb_neq _ _)).
  - intros x. rewrite Hfr', Hfr3, Hfr. split; intros [Hx|Hx]; [left|by right|left|by right].
    + split; [by left|]. by intros ?%Hnf.
    + tauto.
  - intros x Hx Hx' Hpt. rewrite Hmem' by done. unfold s3.
    rewrite set_pte_mem by (try done; by apply (valid_leaf s)).
    rewrite copy_fill; [by apply Hm|]. intros Hq. apply Hx, Hfr. by right.
Qed.
End copy.

Lemma cow_fault_inv s root T lo hi va :
  uspace end_ s root T lo hi -> lo <= va < hi -> valid (pte_of s T va) = true ->
  wp (cow_fault end_ (pte_addr T va)) (fun ok s' =>
    if ok : bool then exists q, cow_broken s root T lo hi va q s'
    else s' = s /\ forall x, ~ pa_free s x) s.
Proof.
  intros Hus Hva Hv. assert (HT : T (leaf va) <> None) by (by apply (valid_leaf s)).
  pose proof Hus as [HI Hwf Hok H0 Hhi].
  unfold cow_fault, load. do 2 wp_step. rewrite load_pte_addr by done. wp_step.
  eapply wp_mono; [by apply pa_alloc|].
  intros q s1 [(-> & -> & Hno)|(Hb & HI1 & Hfr & Hnf & _ & Hm & Hr)]; cbv beta.
  { simpl. by wp_step. }
  pose proof (bad_pa_range end_ Hend q Hb) as (? & _ & _ & ?). case_bool; [lia|].
  do 4 wp_step. rewrite load_pte_addr by done.
  change (set_mem (memmove _ _ _ _) _) with (copied_page s s1 T va q).
  rewrite (copy_pte s s1 root T lo hi va q Hus Hb HI1 Hfr Hnf Hm Hr va Hva).
  unfold store. do 3 wp_step.
  eapply wp_mono; [exact (copy_drop s s1 root T lo hi va q Hus Hva Hv Hb HI1 Hfr Hnf Hm Hr)|].
  intros ? s2 Hcb. wp_step. by exists q.
Qed.

(** ** Lazy allocation *)

Lemma lazy_fault_inv s root T lo hi va :
  uspace end_ s root T lo hi -> lo mod PGSIZE = 0 -> lo <= va < hi ->
  valid (pte_of s T va) = false ->
  wp (lazy_fault end_ root va) (fun ok s' => exists T', uspace end_ s' root T' lo hi /\
    (forall va', lo <= va' < hi -> ucontent s' T' va' = ucontent s T va') /\
    (forall va', lo <= va' < hi -> same_page va va' = false -> pte_of s' T' va' = pte_of s T va') /\
    (avail s 3 -> ok = true) /\
    if ok : bool then exists q, bad_pa end_ q = false /\ pte_of s' T' va = leaf_pte q lazy_perm
    else forall x, ~ pa_free s' x) s.
Proof.
  intros Hus Hlo Hva Hv. unfold lazy_fault.
  pose proof (PGROUNDDOWN_spec va) as [Hal Hpg].
  assert (Hsp : forall a, same_page (PGROUNDDOWN va) a = same_page va a).
  { intros a. unfold same_page. f_equal. rewrite !PGROUNDDOWN_eq. lia. }
  assert (Hpte : pte_of s T (PGROUNDDOWN va) = pte_of s T va)
    by (apply pte_of_page; rewrite !PGROUNDDOWN_eq; lia).
  eapply lazy_map; try done.
  - assert (lo - lo mod PGSIZE <= va - va mod PGSIZE) by lia. lia.
  - by rewrite Hpte.
  - intros Hno Hav. wp_step. exists T. by split_and!.
  - intros m s' T' Hus' Hfr Hby Hno Hav. simpl negb. cbv iota. wp_step. apply wp_returns.
    eexists _, _. split; [apply kfree_held; [apply Hfr|by rewrite (fr_ref _ _ _ _ _ _ Hfr)]|].
    wp_step. exists T'. split_and!; try done; intros va' Hva'; [|by intros; apply Hby].
    unfold ucontent. destruct (Hby va' Hva' eq_refl) as [-> ?].
    destruct (valid (pte_of s T va')); auto.
  - intros m s' T' Hus' Hfrm Hb _ _ Hby Hnew Hav. simpl negb. cbv iota. wp_step. exists T'.
    split_and!; try done.
    + eapply (same_content s T s' T' lo hi (PGROUNDDOWN va)); [done| |by rewrite Hpte].
      intros va' Hva' E. by apply Hnew.
    + intros va' Hva' E. apply Hby; [done|]. by rewrite Hsp.
    + exists m. split; [done|]. apply Hnew; [done|]. rewrite Hsp. unfold same_page. apply Z.eqb_refl.
Qed.

(** ** Another address space while a page is copied *)

(** Two address spaces: their tables and pages are apart, and a page that both
    map has a reference for each. *)
Record apart (s : kstate) (T T2 : ptree) (hi hi2 : Z) : Prop := {
  ap_tables : forall x, pt_mem T x -> ~ pt_mem T2 x;
  ap_pages : forall pa x, maps s T 0 hi pa -> page pa x -> ~ pt_mem T2 x;
  ap_pages2 : forall pa x, maps s T2 0 hi2 pa -> page pa x -> ~ pt_mem T x;
  ap_shared : forall pa, maps s T 0 hi pa -> maps s T2 0 hi2 pa -> 2 <= refcount s (pa2index pa);
}.

Section other.
Context (s s' : kstate) (root root2 : Z) (T T2 : ptree) (hi hi2 va q : Z).
Context (Hus : uspace end_ s root T 0 hi) (Hus2 : uspace end_ s root2 T2 0 hi2)
  (Hap : apart s T T2 hi hi2) (Hva : 0 <= va < hi) (Hv : valid (pte_of s T va) = true)
  (Hcb : cow_broken s root T 0 hi va q s').

Abbreviation pa := (PTE2PA (pte_of s T va)).

Lemma va_maps : maps s T 0 hi pa.
Proof. by exists va. Qed.

(** A page that is neither free nor the copied one keeps its contents. *)
Lemma other_page p x :
  (forall y, page p y -> ~ pa_free s y /\ ~ pt_mem T y) -> page p x ->
  (page pa x -> refcount s (pa2index pa) <> 1) ->
  ~ pa_free s' x /\ mem s' x = mem s x.
Proof.
  intros Hp Hx Hne. destruct (Hp x Hx) as [Hf Ht].
  assert (Hf' : ~ pa_free s' x).
  { intros [[? _]|[? Hpx]]%(cb_free _ _ _ _ _ _ _ _ Hcb); [done|]. by apply Hne. }
  split; [done|]. by apply (cb_mem _ _ _ _ _ _ _ _ Hcb).
Qed.

Lemma other_table x : pt_mem T2 x -> ~ pa_free s' x /\ mem s' x = mem s x.
Proof.
  intros (n & p & Hn & Hx). destruct (us_wf _ _ _ _ _ _ Hus2) as [_ _ _ Hpg _ _].
  apply (other_page p); [|done|].
  - intros y Hy. split; [by apply (Hpg n p Hn)|]. intros Ht.
    apply (ap_tables _ _ _ _ _ Hap y Ht). by exists n, p.
  - intros Hpa. exfalso. apply (ap_pages _ _ _ _ _ Hap pa x va_maps Hpa). by exists n, p.
Qed.

Lemma other_pte va' : pte_of s' T2 va' = pte_of s T2 va'.
Proof. apply pte_of_frame. intros x Hx. by apply other_table. Qed.

Lemma other_maps p : maps s' T2 0 hi2 p <-> maps s T2 0 hi2 p.
Proof. unfold maps. by setoid_rewrite other_pte. Qed.

Lemma other_mapped p : maps s T2 0 hi2 p -> bad_pa end_ p = false /\
  0 < refcount s' (pa2index p) < 256 /\ p <> q /\
  forall x, page p x -> ~ pa_free s' x /\ mem s' x = mem s x.
Proof.
  intros Hp. destruct (sp_page _ _ _ _ _ (us_ok _ _ _ _ _ _ Hus2) p Hp) as (Hb & Hr & Hx).
  destruct (sp_page _ _ _ _ _ (us_ok _ _ _ _ _ _ Hus) pa va_maps) as (Hbp & _ & _).
  destruct (cb_new _ _ _ _ _ _ _ _ Hcb) as [Hbq Hq].
  assert (Hpq : p <> q).
  { intros ->. destruct (Hx q (page_start q)) as [Hnf _]. apply Hnf, Hq, page_start. }
  assert (Hsh : p = pa -> 2 <= refcount s (pa2index p)).
  { intros ->. apply (ap_shared _ _ _ _ _ Hap); [apply va_maps|done]. }
  split_and!; try done.
  - rewrite (cb_ref _ _ _ _ _ _ _ _ Hcb) by done. rewrite (proj2 (Z.eqb_neq _ _)) by done.
    case_bool; [|lia]. specialize (Hsh ltac:(done)). lia.
  - rewrite (cb_ref _ _ _ _ _ _ _ _ Hcb) by done. rewrite (proj2 (Z.eqb_neq _ _)) by done.
    case_bool; lia.
  - intros x Hpx. apply (other_page p); try done.
    + intros y Hy. split; [by apply Hx|]. by apply (ap_pages2 _ _ _ _ _ Hap p).
    + intros Hpax. assert (p = pa) as E; [|specialize (Hsh E); subst p; lia].
      apply (bad_pa_range end_ Hend) in Hb as (? & _), Hbp as (? & _). by eapply page_disjoint.
Qed.

Lemma other_space : uspace end_ s' root2 T2 0 hi2 /\
  forall va', 0 <= va' < hi2 -> ucontent s' T2 va' = ucontent s T2 va'.
Proof.
  pose proof Hus2 as [HI2 Hwf2 [Hl2 Hp2 Hi2] H02 Hhi2]. split.
  - constructor; try done; [apply Hcb| |].
    + eapply pt_wf_frame; [done| |]; intros x Hx; by apply other_table.
    + constructor.
      * intros va'. rewrite other_pte. apply Hl2.
      * intros p Hp%other_maps. destruct (other_mapped p Hp) as (? & ? & _ & Hx).
        split_and!; try done; try lia. intros x Hpx. split; [by apply Hx|]. by apply (Hp2 p Hp).
      * intros va1 va2. rewrite !other_pte. apply Hi2.
  - intros va' Hva'. unfold ucontent, ubyte, upa, ldb. rewrite other_pte.
    destruct (valid (pte_of s T2 va')) eqn:E; [|done]. f_equal.
    apply (other_mapped (PTE2PA (pte_of s T2 va'))); [by exists va'|]. unfold page. lia.
Qed.

Lemma broken_maps p : maps s' T 0 hi p -> p = q \/ maps s T 0 hi p.
Proof.
  intros (va' & Hva' & Hv' & <-). rewrite (cb_pte _ _ _ _ _ _ _ _ Hcb) in * by done.
  destruct (same_page va va'); [left|right; by exists va'].
  destruct (cb_new _ _ _ _ _ _ _ _ Hcb) as [Hbq _].
  apply (bad_pa_range end_ Hend) in Hbq as (? & ? & ? & ?).
  destruct (leaf_pte_spec q (broken_flags (pte_of s T va))) as (_ & E & _);
    [lia|done|apply broken_flags_range|exact E].
Qed.

Lemma other_apart : apart s' T T2 hi hi2.
Proof.
  destruct Hap as [Ht Hp Hp2 Hs]. destruct (cb_new _ _ _ _ _ _ _ _ Hcb) as [Hbq Hq]. constructor; try done.
  - intros p x [->|Hm]%broken_maps Hx; [|by eapply Hp].
    intros (n & p' & Hn & Hx'). apply (wf_page _ _ _ _ (us_wf _ _ _ _ _ _ Hus2) _ _ Hn) in Hx'. auto.
  - intros p x Hm%other_maps. by apply Hp2.
  - intros p Hm Hm2%other_maps. destruct (other_mapped p Hm2) as (Hb & _ & Hpq & _).
    rewrite (cb_ref _ _ _ _ _ _ _ _ Hcb) by done. rewrite (proj2 (Z.eqb_neq _ _)) by done.
    case_bool; [exfalso|by apply Hs; [apply broken_maps in Hm as [->|]|]]. subst p.
    destruct Hm as (va' & Hva' & Hv' & E). rewrite (cb_pte _ _ _ _ _ _ _ _ Hcb) in * by done.
    destruct (same_page va va') eqn:Esp.
    + apply (bad_pa_range end_ Hend) in Hbq as (? & ? & ? & ?).
      destruct (leaf_pte_spec q (broken_flags (pte_of s T va))) as (_ & E' & _);
        [lia|done|apply broken_flags_range|]. by rewrite E' in E.
    + rewrite (sp_inj _ _ _ _ _ (us_ok _ _ _ _ _ _ Hus) va va') in Esp; done.
Qed.

Lemma other_bundle : uspace end_ s' root2 T2 0 hi2 /\ apart s' T T2 hi hi2 /\
  (forall va', 0 <= va' < hi2 -> ucontent s' T2 va' = ucontent s T2 va') /\ ~ maps s' T2 0 hi2 q.
Proof using All.
  destruct other_space. split_and!; try done; [apply other_apart|].
  intros Hm%other_maps. by destruct (other_mapped q Hm) as (_ & _ & ? & _).
Qed.
End other.

(** ** Parent and child after fork *)

Section after_fork.
Context (s s' : kstate) (root root' : Z) (T T' T2 : ptree) (hi : Z).
Context (Hfk : fork_ready end_ s root T root' T' hi)
  (Hc : copied end_ s root T root' T' hi hi s' T2) (Hrf : refs_up end_ s T hi s').

(** Both page tables map the parent's pages. *)
Lemma forked_pte T3 va : T3 = T \/ T3 = T2 -> 0 <= va < hi ->
  valid (pte_of s' T3 va) = valid (pte_of s T va) /\
  (valid (pte_of s T va) = true ->
   PTE2PA (pte_of s' T3 va) = PTE2PA (pte_of s T va) /\ PTE_FLAGS (pte_of s' T3 va) <> PTE_V /\
   pte_of s' T3 va = cow (pte_of s T va)).
Proof.
  destruct Hfk as [_ [HI Hwf Hok H0 Hhi] Hwf' Hdis Hsep Hcnt Hnew]. intros HT3 Hva.
  destruct HT3 as [->| ->]; [rewrite (cp_old _ _ _ _ _ _ _ _ _ _ Hc) by lia|
    rewrite (cp_new _ _ _ _ _ _ _ _ _ _ Hc) by lia];
    rewrite (proj2 (Z.ltb_lt _ _)) by lia; rewrite ?Hnew by lia;
    destruct (valid (pte_of s T va)) eqn:E; cbn [andb]; try done;
    destruct (cow_spec end_ Hend s T T' hi Hok Hsep Hcnt va Hva E) as (? & ? & ? & _); done.
Qed.

Lemma forked_maps T3 pa : T3 = T \/ T3 = T2 -> maps s' T3 0 hi pa <-> maps s T 0 hi pa.
Proof.
  intros HT3. split; intros (va & Hva & Hv & Hp); exists va;
    destruct (forked_pte T3 va HT3 Hva) as [E H].
  - rewrite E in Hv. destruct (H Hv) as [<- _]. done.
  - destruct (H Hv) as [-> _]. rewrite E. done.
Qed.

Lemma forked_page T3 pa x : T3 = T \/ T3 = T2 -> maps s T 0 hi pa -> page pa x ->
  ~ pa_free s' x /\ ~ pt_mem T3 x.
Proof.
  destruct Hfk as [_ [HI Hwf Hok H0 Hhi] Hwf' Hdis Hsep Hcnt Hnew]. intros HT3 Hpa Hx.
  destruct (sp_page _ _ _ _ _ Hok pa Hpa) as (_ & _ & Hxx). destruct (Hxx x Hx) as [Hf Ht]. split.
  - intros ?. by apply Hf, (cp_free _ _ _ _ _ _ _ _ _ _ Hc).
  - destruct HT3 as [->| ->]; [done|].
    intros [?|?]%(copied_new_page end_ s root T root' T' hi hi s' T2 x Hc); [by eapply Hsep|done].
Qed.

Lemma forked_space T3 root3 : T3 = T /\ root3 = root \/ T3 = T2 /\ root3 = root' ->
  uspace end_ s' root3 T3 0 hi.
Proof.
  intros HT3. assert (HT : T3 = T \/ T3 = T2) by tauto.
  destruct Hfk as [_ [HI Hwf Hok H0 Hhi] Hwf' Hdis Hsep Hcnt Hnew]. constructor; try done.
  - apply Hc.
  - destruct HT3 as [[-> ->]|[-> ->]]; apply Hc.
  - constructor.
    + intros va Hva. destruct (forked_pte T3 va HT Hva) as [-> H]. intros Hv. by apply H.
    + intros pa Hp. apply forked_maps in Hp; [|done]. rewrite (cp_ref _ _ _ _ _ Hrf) by done.
      pose proof (Hcnt pa Hp). destruct (sp_page _ _ _ _ _ Hok pa Hp) as (Hb & ? & _).
      split_and!; try done; try lia. intros x Hx. by apply (forked_page T3 pa).
    + intros va va' Hva Hva'. destruct (forked_pte T3 va HT Hva) as [-> H], (forked_pte T3 va' HT Hva') as [-> H'].
      intros Hv Hv'. destruct (H Hv) as [-> _], (H' Hv') as [-> _]. by apply (sp_inj _ _ _ _ _ Hok).
Qed.

Lemma forked_content T3 va : T3 = T \/ T3 = T2 -> 0 <= va < hi ->
  ucontent s' T3 va = ucontent s T va.
Proof.
  intros HT Hva. pose proof Hfk as [_ [HI Hwf Hok H0 Hhi] Hwf' Hdis Hsep Hcnt Hnew].
  destruct (forked_pte T3 va HT Hva) as [E H]. unfold ucontent. rewrite E.
  destruct (valid (pte_of s T va)) eqn:Ev; [|done]. destruct (H eq_refl) as [E2 _].
  unfold ubyte, upa, ldb. rewrite E2. f_equal.
  destruct (sp_page _ _ _ _ _ Hok (PTE2PA (pte_of s T va))) as (_ & _ & Hx); [by exists va|].
  assert (Hp : page (PTE2PA (pte_of s T va)) (PTE2PA (pte_of s T va) + va mod PGSIZE))
    by (unfold page; lia).
  apply (cp_mem _ _ _ _ _ _ _ _ _ _ Hc); try by apply Hx. apply (Hsep (PTE2PA (pte_of s T va))); [by exists va|exact Hp].
Qed.

Lemma forked_apart : apart s' T T2 hi hi.
Proof.
  pose proof Hfk as [_ [HI Hwf Hok H0 Hhi] Hwf' Hdis Hsep Hcnt Hnew]. constructor.
  - intros x. apply (copied_dis end_ s root T root' T' Hwf Hdis hi hi s' T2 x Hc).
  - intros pa x Hp Hx. apply forked_maps in Hp; [|by left].
    apply (forked_page T2 pa x); [by right|done|done].
  - intros pa x Hp Hx. apply forked_maps in Hp; [|by right].
    apply (forked_page T pa x); [by left|done|done].
  - intros pa Hp _. apply forked_maps in Hp; [|by left]. rewrite (cp_ref _ _ _ _ _ Hrf) by done.
    destruct (sp_page _ _ _ _ _ Hok pa Hp) as (_ & ? & _). lia.
Qed.

Lemma forked :
  uspace end_ s' root T 0 hi /\ uspace end_ s' root' T2 0 hi /\ apart s' T T2 hi hi /\
  (forall va, 0 <= va < hi -> ucontent s' T va = ucontent s T va /\
     ucontent s' T2 va = ucontent s T va) /\
  (forall va, 0 <= va < hi -> valid (pte_of s T va) = true ->
     pte_of s' T va = cow (pte_of s T va) /\ pte_of s' T2 va = cow (pte_of s T va)).
Proof using All.
  split_and!; [apply forked_space; by left|apply forked_space; by right|apply forked_apart|..].
  - intros va Hva. split; apply forked_content; auto.
  - intros va Hva Hv. destruct (forked_pte T va) as [_ H1]; [by left|done|].
    destruct (forked_pte T2 va) as [_ H2]; [by right|done|].
    destruct (H1 Hv) as (_ & _ & ->), (H2 Hv) as (_ & _ & ->). done.
Qed.
End after_fork.

(** [handle_fault] is the lazy allocation or the copy. *)
Lemma handle_fault_eq s root T va :
  pt_wf end_ s root T -> 0 <= va < MAXVA ->
  handle_fault end_ root va s =
  (if valid (pte_of s T va) then
     if bits (pte_of s T va) PTE_COW then cow_fault end_ (pte_addr T va) else ret false
   else lazy_fault end_ root va) s.
Proof.
  intros Hwf Hva. unfold handle_fault. erewrite bind_ret_eq by (by apply (walk_spec end_)).
  destruct (T (leaf va)) as [p|] eqn:HT.
  - assert (HT' : T (leaf va) <> None) by congruence.
    rewrite (proj2 (Z.eqb_neq _ _)) by
      (intros E; apply (pte_addr_nonzero end_ Hend s root T va Hwf) in E; congruence).
    unfold load. erewrite bind_ret_eq by done. cbv beta. rewrite load_pte_addr by done.
    fold (valid (pte_of s T va)). by destruct (valid _), (bits _ PTE_COW).
  - rewrite (proj2 (pte_addr_nonzero end_ Hend s root T va Hwf)) by done.
    unfold pte_of. by rewrite HT.
Qed.

Lemma broken_writable s root T lo hi va q s' :
  cow_broken s root T lo hi va q s' -> lo <= va < hi ->
  valid (pte_of s' T va) = true /\ bits (pte_of s' T va) PTE_W = true /\
  bits (pte_of s' T va) PTE_COW = false /\ PTE2PA (pte_of s' T va) = q.
Proof.
  intros Hcb Hva. rewrite (cb_pte _ _ _ _ _ _ _ _ Hcb) by done.
  assert (same_page va va = true) as -> by (unfold same_page; apply Z.eqb_refl).
  destruct (cb_new _ _ _ _ _ _ _ _ Hcb) as [Hbq _].
  apply (bad_pa_range end_ Hend) in Hbq as (? & ? & ? & ?).
  pose proof (broken_flags_range (pte_of s T va)).
  destruct (leaf_pte_spec q (broken_flags (pte_of s T va))) as (E1 & E2 & _); [lia|done|done|].
  rewrite !bits_leaf by (done || lia). rewrite broken_flags_W, broken_flags_COW. done.
Qed.
End faults.

(** ** Properties *)

Section properties.
Context (end_ : Z) `{PA : !PageAllocator end_} (Hend : KERNBASE <= end_ <= PHYSTOP).

(** C31: copy-on-write isolates parent and child.  The parent forks
    ([uvmcopy] returns 0) and then stores to a page it has mapped, which faults.
    If the address is within the size of the process and not in page 0, the
    handler gives the parent a page of its own, mapped writable and not shared
    with the child; only if no page is free it kills the parent instead.  At an
    address in page 0 or beyond the size the parent is killed.  In every case
    neither process sees a byte of its memory change. *)
Theorem fork_write_isolated {F} (k : kern F) me T root' T' va :
  let p := procs k me in
  let root := p_pagetable p in
  let hi := npages (p_sz p) * PGSIZE in
  0 <= p_sz p -> fork_ready end_ (kst k) root T root' T' hi ->
  0 <= va < hi -> valid (pte_of (kst k) T va) = true ->
  avail (kst k) (2 * Z.to_nat (npages (p_sz p))) ->
  wp (let! r := liftk (uvmcopy end_ root root' (p_sz p)) in page_fault end_ me va ;; ret r)
    (fun r k' => r = 0 /\ exists T2,
      uspace end_ (kst k') root T 0 hi /\ uspace end_ (kst k') root' T2 0 hi /\
      (forall a, 0 <= a < hi ->
         ucontent (kst k') T a = ucontent (kst k) T a /\ ucontent (kst k') T2 a = ucontent (kst k) T a) /\
      let killed := procs k' = upd (procs k) me (set_killed 1 p) in
      if (PGSIZE <=? va) && (va <? p_sz p) then
        procs k' = procs k /\ valid (pte_of (kst k') T va) = true /\ bits (pte_of (kst k') T va) PTE_W = true /\
        refcount (kst k') (pa2index (PTE2PA (pte_of (kst k') T va))) = 1 /\
        ~ maps (kst k') T2 0 hi (PTE2PA (pte_of (kst k') T va))
        \/ killed /\ forall x, ~ pa_free (kst k') x
      else killed) k.
Proof.
  intros p root hi Hsz Hfk Hva Hv Hav. pose proof Hfk as [_ [HI Hwf Hok H0 Hhi] Hwf' Hdis Hsep Hcnt Hnew].
  unfold liftk at 1. do 2 wp_step. eapply wp_mono; [by apply (uvmcopy_inv end_ Hend (kst k) root T root' T' hi)|].
  replace (hi / PGSIZE) with (npages (p_sz p)) by (unfold hi; by rewrite Z.div_mul). intros r s1 (Hr & T2 & Hd). specialize (Hr Hav) as ->.
  destruct Hd as [(_ & Hc & Hrf)|[? _]]; [|done].
  destruct (forked end_ Hend (kst k) s1 root root' T T' T2 _ Hfk Hc Hrf) as (Hus & Hus2 & Hap & Hcon & Hcow).
  destruct (Hcow va Hva Hv) as [Hpte _].
  unfold page_fault, get, setkilled, change. do 3 wp_step. simpl procs. fold p.
  destruct ((p_sz p <=? va) || (va <? PGSIZE)) eqn:E.
  { replace ((PGSIZE <=? va) && (va <? p_sz p)) with false by blia. do 2 wp_step. split; [done|]. by exists T2. }
  replace ((PGSIZE <=? va) && (va <? p_sz p)) with true by blia.
  destruct (mapped_page end_ (kst k) T T' _ Hok Hsep Hcnt va Hva Hv) as (_ & Hb & _).
  apply (bad_pa_range end_ Hend) in Hb as (? & ? & ? & ?).
  destruct (cow_bits (pte_of (kst k) T va)) as (_ & HC & _); [lia|done|].
  assert (Hv1 : valid (pte_of s1 T va) = true).
  { rewrite Hpte. destruct (cow_spec end_ Hend (kst k) T T' _ Hok Hsep Hcnt va Hva Hv) as (E1 & _). exact E1. }
  unfold liftk. do 2 wp_step. unfold wp at 1. simpl kst. fold root.
  rewrite (handle_fault_eq end_ Hend s1 root T va) by (apply Hus || lia).
  rewrite Hv1, Hpte, HC. eapply wp_mono; [by apply (cow_fault_inv end_ Hend s1 root T 0 hi va)|].
  intros [] s2; cbv beta iota; simpl negb; cbv iota.
  - intros (q & Hcb). do 2 wp_step. split; [done|]. exists T2.
    destruct (other_bundle end_ Hend s1 s2 root root' T T2 _ _ va q Hus Hus2 Hap Hva Hv1 Hcb)
      as (Hus2' & Hap' & Hcon2 & Hnm).
    destruct (broken_writable end_ Hend s1 root T 0 _ va q s2 Hcb Hva) as (HV & HW & _ & Eq).
    destruct (cb_new _ _ _ _ _ _ _ _ _ Hcb) as [Hbq _]. simpl kst. simpl procs.
    split_and!; try done; [apply Hcb| |left; rewrite Eq; split_and!; try done].
    + intros a Ha. rewrite (cb_same _ _ _ _ _ _ _ _ _ Hcb), Hcon2 by done. by apply Hcon.
    + rewrite (cb_ref _ _ _ _ _ _ _ _ _ Hcb) by done. by rewrite Z.eqb_refl.
  - intros [-> Hno]. do 2 wp_step. split; [done|]. exists T2. split_and!; try done. by right.
Qed.

(** What the handler repairs. *)
Definition fixable (sz v va : Z) : bool :=
  (PGSIZE <=? va) && (va <? sz) && (negb (valid v) || bits v PTE_COW).

(** C32: page faults are transparent.  A fault never changes a byte that
    the process sees, nor the PTE of another page.  At an address of the
    process that is not allocated yet, or whose page is shared copy-on-write,
    the page is mapped writable afterwards and the process goes on, provided
    three pages are free; at any other address the process is killed. *)
Theorem page_fault_correct {F} (k : kern F) me T va :
  let p := procs k me in
  let hi := PGROUNDUP (p_sz p) in
  0 <= p_sz p <= MAXVA -> 0 <= va -> uspace end_ (kst k) (p_pagetable p) T 0 hi ->
  wp (page_fault end_ me va) (fun _ k' => exists T',
    uspace end_ (kst k') (p_pagetable p) T' 0 hi /\
    (forall a, 0 <= a < hi -> ucontent (kst k') T' a = ucontent (kst k) T a) /\
    (forall a, 0 <= a < hi -> same_page va a = false -> pte_of (kst k') T' a = pte_of (kst k) T a) /\
    if fixable (p_sz p) (pte_of (kst k) T va) va then
      (avail (kst k) 3 -> procs k' = procs k) /\
      (procs k' = procs k /\ valid (pte_of (kst k') T' va) = true /\
       bits (pte_of (kst k') T' va) PTE_W = true \/
       procs k' = upd (procs k) me (set_killed 1 p) /\ forall x, ~ pa_free (kst k') x)
    else procs k' = upd (procs k) me (set_killed 1 p)) k.
Proof.
  intros p hi Hsz Hva0 Hus. unfold page_fault, get, setkilled, change. do 2 wp_step. fold p.
  unfold fixable. destruct (PGROUNDUP_spec (p_sz p)) as [Hhi Hle]; [change MAXVA with (2 ^ 38) in *; lia|].
  fold hi in Hhi, Hle.
  assert (Hkill : wp (modify (put_proc me (set_killed 1))) (fun _ k' => exists T',
    uspace end_ (kst k') (p_pagetable p) T' 0 hi /\
    (forall a, 0 <= a < hi -> ucontent (kst k') T' a = ucontent (kst k) T a) /\
    (forall a, 0 <= a < hi -> same_page va a = false -> pte_of (kst k') T' a = pte_of (kst k) T a) /\
    procs k' = upd (procs k) me (set_killed 1 p)) k) by (wp_step; exists T; done).
  destruct ((p_sz p <=? va) || (va <? PGSIZE)) eqn:E.
  { replace ((PGSIZE <=? va) && (va <? p_sz p)) with false by blia. simpl. done. }
  replace ((PGSIZE <=? va) && (va <? p_sz p)) with true by blia. simpl.
  assert (Hva : 0 <= va < hi) by lia. pose proof Hus as [HI Hwf Hok H0 Hmax].
  unfold liftk. wp_step. wp_step. unfold wp at 1.
  rewrite (handle_fault_eq end_ Hend _ _ T va) by (done || lia).
  destruct (valid (pte_of (kst k) T va)) eqn:Hv; simpl.
  - destruct (bits (pte_of (kst k) T va) PTE_COW) eqn:HC.
    + eapply wp_mono; [by apply (cow_fault_inv end_ Hend _ (p_pagetable p) T 0 hi va)|].
      intros [] s2; cbv beta iota; simpl negb; cbv iota.
      * intros (q & Hcb). wp_step. exists T. destruct (broken_writable end_ Hend _ _ T 0 hi va q s2 Hcb Hva) as (HV & HW & _).
        split_and!; try done; [apply Hcb..| |by left].
        intros a Ha Hs. simpl. rewrite (cb_pte _ _ _ _ _ _ _ _ _ Hcb) by done. by rewrite Hs.
      * intros [-> Hno]. wp_step. exists T. split_and!; try done; [|by right].
        intros Hav. by apply avail_none in Hav.
    + exact Hkill.
  - eapply wp_mono; [by apply (lazy_fault_inv end_ Hend _ (p_pagetable p) T 0 hi va)|].
    intros ok s2 (T' & Hus' & Hcon & Hpte & Hav & Hok'). cbv beta. destruct ok; simpl negb; cbv iota; wp_step.
    + exists T'. destruct Hok' as (q & Hbq & Hq). apply (bad_pa_range end_ Hend) in Hbq as (? & ? & ? & ?).
      split_and!; try done. left. simpl. rewrite Hq. unfold valid. rewrite !bits_leaf by (done || lia). done.
    + exists T'. split_and!; try done; [|by right]. by intros ?%Hav.
Qed.
End properties.

(** ** The size of a process *)

Lemma growproc_grows end_ {F} (k : kern F) me n :
  0 < n < 2 ^ 31 -> 0 <= p_sz (procs k me) < 2 ^ 62 ->
  wp (growproc end_ me n) (fun r k' => r = 0 /\ kst k' = kst k /\
    p_sz (procs k' me) = p_sz (procs k me) + n) k.
Proof.
  intros Hn Hsz. unfold growproc, get. do 2 wp_step. rewrite (proj2 (Z.ltb_lt _ _)) by lia.
  unfold liftk, uvmalloc. rewrite u64_id by lia. rewrite (proj2 (Z.ltb_ge _ _)) by lia.
  do 3 wp_step. cbv beta. rewrite (proj2 (Z.eqb_neq _ _)) by lia. unfold change. do 3 wp_step.
  simpl. by rewrite upd_same.
Qed.

(** [sbrk] has no limit, and that brings the kernel down.  After 129
    calls of [growproc(INT_MAX)], which all succeed without allocating
    anything, the process is larger than MAXVA; its first access at MAXVA is a
    page fault for which the handler calls [walk], which panics. *)
Theorem oversized_process_panics end_ {F} (k : kern F) me :
  0 <= p_sz (procs k me) <= MAXVA ->
  wp (for_each (seq 0 129) (fun _ => growproc end_ me (2 ^ 31 - 1) ;; ret tt))
    (fun _ k' => kst k' = kst k /\ page_fault end_ me MAXVA k' = Panic "walk") k.
Proof.
  intros Hsz. change MAXVA with (2 ^ 38) in *.
  eapply wp_mono; [apply (wp_for_each _ (fun d r k' => kst k' = kst k /\
    p_sz (procs k' me) = p_sz (procs k me) + Z.of_nat (length d) * (2 ^ 31 - 1)))|].
  - split; [done|simpl; lia].
  - intros d x r k1 Hd [Hk Hp]. assert (Hlen : (length d < 129)%nat).
    { rewrite <- (length_seq 129 0), <- Hd, length_app. simpl. lia. }
    wp_step. eapply wp_mono; [apply growproc_grows; lia|].
    intros r' k2 (_ & Hk2 & Hp2). wp_step. split; [congruence|]. rewrite Hp2, Hp, length_app. simpl length. lia.
  - intros _ k' [Hk Hp]. rewrite length_seq in Hp. split; [done|]. unfold page_fault.
    erewrite bind_ret_eq by done. cbv beta.
    destruct ((p_sz (procs k' me) <=? 2 ^ 38) || (2 ^ 38 <? PGSIZE)) eqn:E; [lia|].
    apply bind_panic_eq. unfold liftk, zoom, handle_fault.
    rewrite (bind_panic_eq _ _ _ "walk"); [done|]. reflexivity.
Qed.

(** ** Witnesses *)

#[local] Instance boot_pa : PageAllocator boot_end := buddy_allocator boot_end boot_end_ok.

(** A process of two pages, with the second one mapped, stores to it after fork. *)
Lemma fork_write_isolated_witness : exists (k : kern unit) T root',
  valid (pte_of (kst k) T 5000) = true /\
  wp (let! r := liftk (uvmcopy boot_end (p_pagetable (procs k O)) root' 8192) in page_fault boot_end 0 5000 ;; ret r)
    (fun r k' => r = 0 /\ exists T2, ucontent (kst k') T2 5001 = ucontent (kst k) T 5001 /\
       (bits (pte_of (kst k') T 5000) PTE_W = true \/ p_killed (procs k' O) = 1)) k.
Proof.
  destruct (boot_fork_at user_rw 4096 8192 ltac:(done) ltac:(done) ltac:(done) ltac:(lia) ltac:(done))
    as (s & root & T & root' & m & Hf & Hp & Hm & Hal & Hav).
  set (p := set_sz 8192 (set_pagetable root blank_proc)).
  exists (set_kst s (set_procs (fun _ => p) init_kern)), T, root'.
  assert (Hv : valid (pte_of s T 5000) = true).
  { rewrite (pte_of_page s T 5000 4096) by reflexivity. rewrite Hp. unfold valid.
    rewrite bits_leaf by (done || lia). reflexivity. }
  split; [exact Hv|]. eapply wp_mono.
  - apply (fork_write_isolated boot_end boot_end_ok (set_kst s (set_procs (fun _ => p) init_kern)) 0 T root' (empty_tree root') 5000);
      [simpl; lia|exact Hf|simpl; unfold npages; lia|exact Hv|eapply avail_le; [exact Hav|vm_compute; lia]].
  - intros r k' (Hr & T2 & _ & _ & Hc & Hw). split; [exact Hr|]. exists T2. split.
    + apply Hc. simpl. unfold npages. lia.
    + destruct Hw as [(_ & _ & Hw & _)|[Hk _]]; [left; exact Hw|right]. rewrite Hk. reflexivity.
Defined.

Lemma page_fault_correct_witness : exists (k : kern unit) T,
  valid (pte_of (kst k) T 5000) = false /\
  wp (page_fault boot_end 0 5000) (fun _ k' => exists T',
    valid (pte_of (kst k') T' 5000) = true /\ ucontent (kst k') T' 5000 = 0) k.
Proof.
  destruct boot_table as (s & root & HI & Hwf & Hav).
  set (p := set_sz 8192 (set_pagetable root blank_proc)).
  exists (set_kst s (set_procs (fun _ => p) init_kern)), (empty_tree root).
  assert (Hus : uspace boot_end s root (empty_tree root) 0 8192).
  { constructor; try done. constructor; try done; by intros ? (? & ? & ? & _). }
  split; [reflexivity|]. eapply wp_mono.
  - apply (page_fault_correct boot_end boot_end_ok (set_kst s (set_procs (fun _ => p) init_kern)) 0
      (empty_tree root) 5000); [vm_compute; intuition congruence|lia|exact Hus].
  - intros _ k' (T' & _ & Hc & _ & H1 & [(_ & Hv & _)|(Hk & Hno)]); exists T'.
    + split; [exact Hv|]. rewrite Hc; [reflexivity|]. vm_compute. intuition congruence.
    + exfalso. rewrite H1 in Hk.
      * apply (f_equal (fun f => p_killed (f O))) in Hk. discriminate Hk.
      * eapply avail_le; [exact Hav|lia].
Defined.

Lemma oversized_process_panics_witness :
  wp (for_each (seq 0 129) (fun _ => growproc 0 0 (2 ^ 31 - 1) ;; ret tt))
    (fun _ k' => kst k' = kst init_kern /\ page_fault 0 0 MAXVA k' = Panic "walk") init_kern.
Proof. apply (oversized_process_panics 0 init_kern 0). vm_compute. intuition congruence. Defined.
