(* ===== verification/Fork.v ===== *)
(** * kernel/proc.c: fork

    [fork] from the allocation of the child to its first state: what the
    child's memory and registers hold, and that the parent and every other
    process are left alone. *)

From S2P Require Import Prelude Riscv KString Locks Kalloc Vm Uvm UserMem UvmProps Proc ProcInv Fault.

(** ** Changes elsewhere in memory *)

Section elsewhere.
Context (end_ : Z) `{PA : !PageAllocator end_} (Hend : KERNBASE <= end_ <= PHYSTOP).

(** Between [s] and [s'] pages may have been taken, but only these and [W]
    were written, and only their counts changed. *)
Record elsewhere (W : Z -> Prop) (s s' : kstate) : Prop := {
  ew_inv : pa_inv s';
  ew_free : forall x, pa_free s' x -> pa_free s x;
  ew_mem : forall x, ~ pa_free s x -> ~ W x -> mem s' x = mem s x;
  ew_ref : forall i, ~ pa_free s (KERNBASE + i * PGSIZE) -> refcount s' i = refcount s i;
}.
Abbreviation nowhere := (fun _ : Z => False).

Lemma elsewhere_refl W s : pa_inv s -> elsewhere W s s.
Proof. by constructor. Qed.

(** What was free at first does not count as written. *)
Lemma elsewhere_trans W W' s s1 s2 :
  (forall x, W' x -> pa_free s x \/ W x) ->
  elsewhere W s s1 -> elsewhere W' s1 s2 -> elsewhere W s s2.
Proof.
  intros HW [_ Hf Hm Hr] [HI Hf' Hm' Hr']. constructor; auto.
  - intros x Hx Hw. rewrite Hm', Hm; auto. intros [?|?]%HW; done.
  - intros i Hi. rewrite Hr', Hr; auto.
Qed.

Lemma pt_frame_elsewhere s T s' T' :
  pa_inv s' -> pt_frame end_ s T s' T' -> elsewhere (pt_mem T) s s'.
Proof. intros HI [_ _ Hf Hm Hr]. by constructor. Qed.

Lemma kalloc_elsewhere s s' q :
  pa_inv s' -> bad_pa end_ q = false -> (forall x, pa_free s x <-> pa_free s' x \/ page q x) ->
  (forall x, ~ pa_free s x -> mem s' x = mem s x) ->
  refcount s' = upd (refcount s) (pa2index q) 1 -> elsewhere nowhere s s'.
Proof.
  intros HI Hb Hfr Hm Hr. constructor; auto.
  - intros x Hx. apply Hfr. by left.
  - intros i Hi. rewrite Hr, upd_other; [done|]. intros ->. apply Hi, Hfr. right.
    pose proof (bad_pa_range end_ Hend q Hb) as (? & ? & ? & ?).
    rewrite pa2index_eq by lia. unfold page. lia.
Qed.

(** A write to memory that is not free. *)
Lemma write_elsewhere (W : Z -> Prop) s m :
  pa_inv s -> (forall x, W x -> ~ pa_free s x) -> (forall x, ~ W x -> m x = mem s x) ->
  elsewhere W s (set_mem m s) /\ forall x, pa_free (set_mem m s) x <-> pa_free s x.
Proof.
  intros HI HW Hm. destruct (pa_ext s (set_mem m s)) as [HI' Hfr]; try done.
  - intros x Hx. apply Hm. intros ?%HW. done.
  - intros. by apply (pa_refr s).
  - split; [|done]. constructor; auto. intros x. apply Hfr.
Qed.

(** A user address space does not notice. *)
Lemma uspace_elsewhere W s s' root T lo hi :
  uspace end_ s root T lo hi -> elsewhere W s s' -> (forall x, pt_mem T x -> ~ W x) ->
  (forall pa x, maps s T lo hi pa -> page pa x -> ~ W x) ->
  uspace end_ s' root T lo hi /\ (forall va, pte_of s' T va = pte_of s T va) /\
  (forall va, lo <= va < hi -> ucontent s' T va = ucontent s T va) /\
  (forall pa, maps s' T lo hi pa <-> maps s T lo hi pa) /\
  (forall pa, maps s T lo hi pa -> refcount s' (pa2index pa) = refcount s (pa2index pa)).
Proof.
  intros [HI Hwf Hok H0 Hhi] [HI' Hf Hm Hr] HT Hpg.
  assert (Ht : forall x, pt_mem T x -> ~ pa_free s x).
  { intros x (n & p & Hn & Hx). by apply (wf_page _ _ _ _ Hwf n p). }
  assert (Hpte : forall va, pte_of s' T va = pte_of s T va).
  { intros va. apply pte_of_frame. intros x Hx. apply Hm; auto. }
  assert (Hmaps : forall pa, maps s' T lo hi pa <-> maps s T lo hi pa)
    by (intros pa; unfold maps; by setoid_rewrite Hpte).
  assert (Hcnt : forall pa, maps s T lo hi pa -> refcount s' (pa2index pa) = refcount s (pa2index pa)).
  { intros pa Hpa. apply Hr. destruct (sp_page _ _ _ _ _ Hok pa Hpa) as (Hb & _ & Hx).
    apply (bad_pa_range end_ Hend) in Hb as (? & ? & ? & ?). rewrite pa2index_eq by lia.
    replace (KERNBASE + (pa - KERNBASE) / PGSIZE * PGSIZE) with pa by lia. apply Hx, page_start. }
  split_and!; try done.
  - constructor; try done.
    { eapply pt_wf_frame; [done| |]; intros x Hx; [apply Hm; auto|]. intros ?%Hf. by apply (Ht x). }
    destruct Hok as [Hl Hp Hi]. constructor.
    + intros va. rewrite Hpte. apply Hl.
    + intros pa Hpa%Hmaps. rewrite Hcnt by done. destruct (Hp pa Hpa) as (? & ? & Hx).
      split_and!; try done; try lia. intros x Hpx. destruct (Hx x Hpx). auto.
    + intros va va'. rewrite !Hpte. apply Hi.
  - intros va Hva. unfold ucontent, ubyte, upa, ldb. rewrite Hpte.
    destruct (valid (pte_of s T va)) eqn:E; [|done]. f_equal.
    assert (Hma : maps s T lo hi (PTE2PA (pte_of s T va))) by (by exists va).
    assert (Hpx : page (PTE2PA (pte_of s T va)) (PTE2PA (pte_of s T va) + va mod PGSIZE))
      by (unfold page; lia).
    apply Hm; [by apply (sp_page _ _ _ _ _ Hok _ Hma)|by eapply Hpg].
Qed.
End elsewhere.

(** ** The child's slot *)

Section child.
Context (end_ : Z) `{PA : !PageAllocator end_} (Hend : KERNBASE <= end_ <= PHYSTOP).
Context {F : Type} `{FL : FileLayer F} (trampoline forkret : Z) (pol : policy).
Context (Htr : 0 <= trampoline < PHYSTOP) (Htral : trampoline mod PGSIZE = 0).
Abbreviation K := (kern F).
Abbreviation nowhere := (fun _ : Z => False).

(** A page table with the trampoline and the trapframe [tf] and no user
    memory, made of pages that were free in [s]. *)
Record new_table (s : kstate) (tf pt : Z) (T : ptree) (s' : kstate) : Prop := {
  nt_wf : pt_wf end_ s' pt T;
  nt_rest : elsewhere end_ nowhere s s';
  nt_pages : forall x, pt_mem T x -> pa_free s x;
  nt_empty : forall va, 0 <= va < TRAPFRAME -> pte_of s' T va = 0;
  nt_tf : pte_of s' T TRAPFRAME = leaf_pte tf (Z.lor PTE_R PTE_W);
  nt_tramp : pte_of s' T TRAMPOLINE = leaf_pte trampoline (Z.lor PTE_R PTE_X);
}.

(** One page mapped in a table of new pages. *)
Lemma map_new s s1 root T va pa perm n :
  elsewhere end_ nowhere s s1 -> pt_wf end_ s1 root T -> (forall x, pt_mem T x -> pa_free s x) ->
  va mod PGSIZE = 0 -> 0 <= va < MAXVA -> pa mod PGSIZE = 0 -> 0 <= pa < PHYSTOP ->
  0 <= perm < 1024 -> pte_of s1 T va = 0 -> avail s1 (n + 2) ->
  wp (mappages root va PGSIZE pa perm) (fun r s2 => r = 0 /\ avail s2 n /\ exists T',
    elsewhere end_ nowhere s s2 /\ pt_wf end_ s2 root T' /\ (forall x, pt_mem T' x -> pa_free s x) /\
    forall va', 0 <= va' < MAXVA ->
      pte_of s2 T' va' = if same_page va va' then leaf_pte pa perm else pte_of s1 T va') s1.
Proof.
  intros Hew Hwf Hnew Hal Hva Hpal Hpa Hperm Hun Hav.
  eapply wp_mono; [apply (mappages_one end_ Hend s1 root T); try done; [apply Hew|by rewrite Hun]|].
  intros r s2 Hm. destruct (proj1 Hm n Hav) as [-> Hav2]. split_and!; try done.
  apply mapped_one in Hm as (T' & HI & Hwf' & Hf & Hpte); [|done]. exists T'. split_and!; try done.
  - eapply elsewhere_trans; [|done|by apply (pt_frame_elsewhere end_ s1 T s2 T')].
    intros x Hx. left. by apply Hnew.
  - intros x (p & q & [Hp|Hp]%(g_new _ _ _ _ _ Hf) & Hx).
    + apply Hnew. by exists p, q.
    + by apply (ew_free _ _ _ _ Hew), Hp.
Qed.

Lemma proc_pagetable_ok (k : K) i n :
  let tf := p_trapframe (procs k i) in
  pa_inv (kst k) -> bad_pa end_ tf = false -> avail (kst k) (n + 5) ->
  wp (proc_pagetable end_ trampoline i) (fun pt k' => exists s' T,
    k' = set_kst s' k /\ bad_pa end_ pt = false /\ new_table (kst k) tf pt T s' /\ avail s' n) k.
Proof.
  intros tf HI Hb Hav. replace (n + 5)%nat with (S (n + 2 + 2)) in Hav by lia. unfold proc_pagetable, get, liftk. do 2 wp_step. fold tf.
  apply (bad_pa_range end_ Hend) in Hb as (? & ? & ? & ?).
  wp_step. wp_step. eapply wp_mono; [by apply (uvmcreate_inv end_ Hend)|].
  intros pt s1 [(_ & _ & Hno)|(Hbp & HI1 & Hwf & Hfr & Hm & Hr)].
  { exfalso. by apply avail_none in Hav. }
  pose proof (bad_pa_range end_ Hend pt Hbp) as (? & ? & ? & ?). cbv beta.
  rewrite (proj2 (Z.eqb_neq pt 0)) by lia.
  assert (Hav1 : avail s1 ((n + 2) + 2)) by (by eapply avail_taken).
  pose proof (kalloc_elsewhere end_ Hend (kst k) s1 pt HI1 Hbp Hfr Hm Hr) as Hew1.
  assert (Hnew1 : forall x, pt_mem (empty_tree pt) x -> pa_free (kst k) x).
  { intros x (m & p & [-> ->]%empty_tree_eq & Hx). apply Hfr. by right. }
  wp_step. wp_step. eapply wp_mono; [eapply (map_new (kst k) s1 pt (empty_tree pt)); try done|].
  intros r s2 (-> & Hav2 & T2 & Hew2 & Hwf2 & Hnew2 & Hpte2). cbv beta. simpl.
  wp_step. wp_step. eapply wp_mono; [eapply (map_new (kst k) s2 pt T2); try done; [lia|]|].
  { by rewrite Hpte2 by done. }
  intros r s3 (-> & Hav3 & T3 & Hew3 & Hwf3 & Hnew3 & Hpte3). cbv beta. simpl.
  wp_step. exists s3, T3. split_and!; try done. constructor; try done.
  - intros va Hva. rewrite Hpte3, Hpte2 by lia.
    assert (same_page TRAPFRAME va = false /\ same_page TRAMPOLINE va = false) as [-> ->]; [|done].
    unfold same_page. rewrite !PGROUNDDOWN_eq. lia.
  - by rewrite Hpte3.
  - by rewrite Hpte3, Hpte2.
Qed.

(** A [change] of slot [i] when only that slot has changed so far. *)
Lemma wp_change_only i f (k k1 : K) p1 (Q : unit -> K -> Prop) :
  only i k k1 p1 ->
  (forall k2, only i k k2 (f p1) -> kst k2 = kst k1 /\ files k2 = files k1 -> Q tt k2) -> wp (change i f) Q k1.
Proof.
  intros H1 HQ. unfold change. apply wp_modify. apply HQ; [by apply only_change|done].
Qed.

Lemma init_sched_only i (k k1 : K) p1 :
  only i k k1 p1 ->
  wp (init_sched pol i) (fun _ k2 => exists p2, only i k k2 p2 /\ (kst k2 = kst k1 /\ files k2 = files k1) /\
    p_state p2 = p_state p1 /\ p_pid p2 = p_pid p1 /\ p_kstack p2 = p_kstack p1) k1.
Proof.
  intros H1. unfold init_sched. wp_step.
  assert (Hpr : wp (match pol with PRIORITY => change i (set_priority 10)
      | SML => change i (set_priority 2) | _ => ret tt end)
    (fun _ k2 => exists p2, only i k k2 p2 /\ (kst k2 = kst k1 /\ files k2 = files k1) /\
      p_state p2 = p_state p1 /\ p_pid p2 = p_pid p1 /\ p_kstack p2 = p_kstack p1) k1).
  { destruct pol; try (wp_step; by exists p1);
      (eapply wp_change_only; [done|]; intros k2 H2 E; eexists; split; [exact H2|done]). }
  eapply wp_mono; [exact Hpr|]. intros ? k2 (p2 & H2 & E2 & Hs & Hp & Hk). do 2 wp_step.
  do 4 (wp_step; eapply wp_change_only; [eassumption|]; intros ? ? ?).
  eapply wp_change_only; [eassumption|]. intros kf Hf Ef. eexists. split; [exact Hf|].
  split; [intuition congruence|]. done.
Qed.

(** What [allocproc] hands out. *)
Record new_child (k : K) (np : nat) (n : nat) (k' : K) (p' : proc) (s1 : kstate) (T : ptree) : Prop := {
  nc_only : only np (set_nextpid (i32 (nextpid k + 1)) k) k' p';
  nc_state : p_state p' = USED;
  nc_pid : p_pid p' = nextpid k;
  nc_context : p_context p' = Context_ forkret (u64 (p_kstack (procs k np) + PGSIZE)) (repeat 0 12);
  nc_rest : elsewhere end_ nowhere (kst k) s1;
  nc_tf : bad_pa end_ (p_trapframe p') = false;
  nc_tf_page : forall x, page (p_trapframe p') x -> pa_free (kst k) x /\ ~ pa_free s1 x;
  nc_pt : bad_pa end_ (p_pagetable p') = false;
  nc_table : new_table s1 (p_trapframe p') (p_pagetable p') T (kst k');
  nc_avail : avail (kst k') n;
  nc_files : files k' = files k;
}.

Lemma allocproc_ok (k : K) np n :
  find_unused k = Some np -> pa_inv (kst k) -> avail (kst k) (n + 6) ->
  wp (allocproc end_ trampoline forkret pol) (fun o k' => o = Some np /\
    exists p' s1 T, new_child k np n k' p' s1 T) k.
Proof.
  intros Hu HI Hav. replace (n + 6)%nat with (S (n + 5)) in Hav by lia.
  unfold allocproc. do 2 wp_step. rewrite Hu.
  wp_step. unfold allocpid. do 5 wp_step. set (k0 := set_nextpid _ k).
  wp_step. eapply wp_change_only; [apply only_refl|]. intros k1 Ho1 [E1 F1].
  wp_step. eapply wp_change_only; [exact Ho1|]. intros k2 Ho2 [E2 F2].
  wp_step. eapply wp_mono; [by eapply init_sched_only|].
  intros ? k3 (p3 & Ho3 & [E3 F3] & Hs3 & Hp3 & Hk3). cbv beta.
  assert (Ek : kst k3 = kst k) by (by rewrite E3, E2, E1).
  wp_step. unfold liftk. wp_step. rewrite Ek. eapply wp_mono; [by apply pa_alloc|].
  intros tf s1 [(_ & _ & Hno)|(Hb & HI1 & Hfr & Hnf & _ & Hm & Hr)].
  { exfalso. by apply avail_none in Hav. }
  pose proof (bad_pa_range end_ Hend tf Hb) as (? & ? & ? & ?). cbv beta.
  wp_step. eapply wp_change_only; [by apply only_kst|]. intros k4 Ho4 [E4 F4]. simpl in E4, F4.
  rewrite (proj2 (Z.eqb_neq tf 0)) by lia.
  assert (Hp4 : procs k4 np = set_trapframe tf p3)
    by (destruct Ho4 as (-> & _); by rewrite upd_same).
  wp_step. eapply wp_mono; [apply (proc_pagetable_ok k4 np n); rewrite ?Hp4, ?E4; simpl; try done|].
  { by eapply avail_taken. }
  rewrite Hp4, E4. intros pt k5 (s5 & T & -> & Hbp & Hnt & Hav5).
  pose proof (bad_pa_range end_ Hend pt Hbp) as (? & ? & ? & ?). cbv beta.
  wp_step. eapply wp_change_only; [apply only_kst; exact Ho4|]. intros k6 Ho6 [E6 F6]. simpl in F6.
  rewrite (proj2 (Z.eqb_neq pt 0)) by lia.
  wp_step. eapply wp_change_only; [exact Ho6|]. intros k7 Ho7 [E7 F7]. wp_step. split; [done|].
  eexists _, s1, T. constructor; try exact Ho7; try done.
  - simpl. by rewrite Hk3.
  - exact (kalloc_elsewhere end_ Hend (kst k) s1 tf HI1 Hb Hfr Hm Hr).
  - intros x Hx. split; [apply Hfr; by right|by apply Hnf].
  - simpl. by rewrite E7, E6.
  - by rewrite E7, E6.
  - by rewrite F7, F6, F4, F3, F2, F1.
Qed.
End child.

(** What [fork] relies on in the file layer: [file_live n] is a file that can be
    duplicated [n] times more, and nothing but the file layer's own state
    changes. *)
Class FileDup (F : Type) {FL : FileLayer F} := {
  file_live : nat -> F -> Z -> Prop;
  file_live_mono : forall n x f, file_live (S n) x f -> file_live n x f;
  filedup_ok : forall n f (k : kern F), file_live (S n) (files k) f ->
    wp (filedup f) (fun r k' => r = f /\ exists x, k' = set_files x k /\
      forall n g, file_live (S n) (files k) g -> file_live n x g) k;
  idup_ok : forall d (k : kern F),
    wp (idup d) (fun r k' => r = d /\ exists x, k' = set_files x k) k;
}.

(** ** fork *)

Section fork.
Context (end_ : Z) `{PA : !PageAllocator end_} (Hend : KERNBASE <= end_ <= PHYSTOP).
Context {F : Type} `{FL : FileLayer F} {FD : FileDup F} (trampoline forkret : Z) (pol : policy).
Abbreviation K := (kern F).
Abbreviation nowhere := (fun _ : Z => False).

(** The bytes of a trapframe after [*(np->trapframe) = *(p->trapframe)] and
    [np->trapframe->a0 = 0]. *)
Definition tf_copied (m m' : memory) (tf tf' : Z) : Prop :=
  (forall i, 0 <= i < tf_size -> ~ tf_a0 <= i < tf_a0 + 8 -> ldb m' (tf' + i) = ldb m (tf + i)) /\
  ld64 m' (tf' + tf_a0) = 0.

(** A process that can fork: its memory, and a trapframe page of its own. *)
Record parent_ok (s : kstate) (p : proc) (T : ptree) : Prop := {
  pk_space : uspace end_ s (p_pagetable p) T 0 (npages (p_sz p) * PGSIZE);
  pk_sz : 0 <= p_sz p <= TRAPFRAME;
  pk_count : forall pa, maps s T 0 (npages (p_sz p) * PGSIZE) pa -> refcount s (pa2index pa) < 255;
  pk_tf : forall x, page (p_trapframe p) x -> ~ pa_free s x /\ ~ pt_mem T x;
}.

(** The memory side of [fork], from the state [s4] that [allocproc] leaves to
    the copy of the trapframe. *)
Section memory.
Context (k k1 : K) (me np : nat) (n : nat) (c : proc) (s1 : kstate) (T T4 : ptree).
Context (Hok : parent_ok (kst k) (procs k me) T).
Context (Hnc : new_child end_ trampoline forkret k np n k1 c s1 T4).

Abbreviation p := (procs k me).
Abbreviation hi := (npages (p_sz p) * PGSIZE).
Abbreviation tf := (p_trapframe p).
Abbreviation tf' := (p_trapframe c).

Lemma child_elsewhere : elsewhere end_ nowhere (kst k) (kst k1).
Proof.
  eapply elsewhere_trans; [|apply Hnc|apply (nt_rest _ _ _ _ _ _ _ (nc_table _ _ _ _ _ _ _ _ _ _ Hnc))].
  done.
Qed.

Lemma hi_le : hi <= TRAPFRAME.
Proof. pose proof (pk_sz _ _ _ Hok). unfold npages. lia. Qed.

Lemma parent_there : uspace end_ (kst k1) (p_pagetable p) T 0 hi /\
  (forall va, pte_of (kst k1) T va = pte_of (kst k) T va) /\
  (forall va, 0 <= va < hi -> ucontent (kst k1) T va = ucontent (kst k) T va) /\
  (forall pa, maps (kst k1) T 0 hi pa <-> maps (kst k) T 0 hi pa) /\
  (forall pa, maps (kst k) T 0 hi pa ->
     refcount (kst k1) (pa2index pa) = refcount (kst k) (pa2index pa)).
Proof.
  apply (uspace_elsewhere end_ Hend nowhere); auto; [apply Hok|apply child_elsewhere].
Qed.

(** Memory that was not free when [fork] was called. *)
Lemma parent_table x : pt_mem T x -> ~ pa_free (kst k) x.
Proof.
  intros (m & q & Hm & Hx). by apply (wf_page _ _ _ _ (us_wf _ _ _ _ _ _ (pk_space _ _ _ Hok)) m q).
Qed.
Lemma parent_page pa x : maps (kst k) T 0 hi pa -> page pa x -> ~ pa_free (kst k) x.
Proof. intros Hm Hx. by apply (sp_page _ _ _ _ _ (us_ok _ _ _ _ _ _ (pk_space _ _ _ Hok)) pa). Qed.
(** Memory that [allocproc] took. *)
Lemma child_table x : pt_mem T4 x -> pa_free (kst k) x /\ pa_free s1 x.
Proof.
  intros Hx. assert (Hf : pa_free s1 x)
    by (by apply (nt_pages _ _ _ _ _ _ _ (nc_table _ _ _ _ _ _ _ _ _ _ Hnc))).
  split; [|done]. by apply (ew_free _ _ _ _ (nc_rest _ _ _ _ _ _ _ _ _ _ Hnc)).
Qed.

Lemma child_ready : fork_ready end_ (kst k1) (p_pagetable p) T (p_pagetable c) T4 hi.
Proof.
  destruct parent_there as (Hus & Hpte & _ & Hmaps & Hcnt).
  destruct (nc_table _ _ _ _ _ _ _ _ _ _ Hnc) as [Hwf _ _ Hemp _ _].
  constructor; try done.
  - intros x Hx%parent_table [? _]%child_table. done.
  - intros pa x Hm%Hmaps Hx [? _]%child_table. by apply (parent_page pa x).
  - intros pa Hm%Hmaps. rewrite Hcnt by done. by apply Hok.
  - intros va Hva. apply Hemp. pose proof hi_le. lia.
Qed.

(** The state after [uvmcopy], and a write to the child's trapframe page. *)
Context (s5 : kstate) (T2 : ptree).
Context (Hc : copied end_ (kst k1) (p_pagetable p) T (p_pagetable c) T4 hi hi s5 T2)
  (Hrf : refs_up end_ (kst k1) T hi s5).
Context (m : memory) (Hm : forall x, ~ page tf' x -> m x = mem s5 x).

Lemma tf'_apart x : page tf' x -> pa_free (kst k) x /\ ~ pa_free s5 x /\ ~ pt_mem T x /\ ~ pt_mem T2 x.
Proof.
  intros Hx. destruct (nc_tf_page _ _ _ _ _ _ _ _ _ _ Hnc x Hx) as [Hf Hn1].
  assert (Hn4 : ~ pa_free (kst k1) x).
  { intros Hf4. by apply Hn1, (ew_free _ _ _ _ (nt_rest _ _ _ _ _ _ _ (nc_table _ _ _ _ _ _ _ _ _ _ Hnc))). }
  split_and!; [done|..].
  - intros ?. by apply Hn4, (cp_free _ _ _ _ _ _ _ _ _ _ Hc).
  - by intros ?%parent_table.
  - intros [Ht|Ht]%(copied_new_page end_ _ _ _ _ _ _ _ _ _ x Hc); [|done].
    by destruct (child_table x Ht).
Qed.

Lemma tf'_write : elsewhere end_ (page tf') s5 (set_mem m s5).
Proof.
  apply (write_elsewhere end_ (page tf') s5 m); [apply Hc| |done]. intros x Hx. by apply tf'_apart.
Qed.

Lemma forked_memory : let s' := set_mem m s5 in
  uspace end_ s' (p_pagetable p) T 0 hi /\ uspace end_ s' (p_pagetable c) T2 0 hi /\
  (forall va, 0 <= va < hi -> ucontent s' T va = ucontent (kst k) T va /\
     ucontent s' T2 va = ucontent (kst k) T va) /\
  pte_of s' T2 TRAPFRAME = leaf_pte tf' (Z.lor PTE_R PTE_W) /\
  pte_of s' T2 TRAMPOLINE = leaf_pte trampoline (Z.lor PTE_R PTE_X).
Proof.
  intros s'. destruct parent_there as (_ & _ & Hcon0 & Hmaps & _).
  destruct (forked end_ Hend (kst k1) s5 (p_pagetable p) (p_pagetable c) T T4 T2 hi child_ready Hc Hrf)
    as (Hus & Hus2 & Hap & Hcon & Hcow).
  assert (Hpg : forall T3, T3 = T \/ T3 = T2 -> forall pa x, maps s5 T3 0 hi pa -> page pa x -> ~ page tf' x).
  { intros T3 HT3 pa x Hp Hx [Hf _]%tf'_apart.
    apply (forked_maps end_ Hend _ _ _ _ _ _ _ _ child_ready Hc T3 pa HT3), Hmaps in Hp.
    by apply (parent_page pa x). }
  destruct (uspace_elsewhere end_ Hend (page tf') s5 s' (p_pagetable p) T 0 hi Hus tf'_write)
    as (Hus' & _ & Hc1 & _); [intros x Ht Hx; by apply tf'_apart in Hx as (_ & _ & ? & _)|
    intros pa x; apply (Hpg T); by left|].
  destruct (uspace_elsewhere end_ Hend (page tf') s5 s' (p_pagetable c) T2 0 hi Hus2 tf'_write)
    as (Hus2' & Hpte2 & Hc2 & _); [intros x Ht Hx; by apply tf'_apart in Hx as (_ & _ & _ & ?)|
    intros pa x; apply (Hpg T2); by right|].
  pose proof hi_le as Hle. destruct (nc_table _ _ _ _ _ _ _ _ _ _ Hnc) as [_ _ _ _ Htf Htr].
  split_and!; try done.
  - intros va Hva. rewrite Hc1, Hc2 by done. destruct (Hcon va Hva) as [-> ->]. by rewrite Hcon0.
  - rewrite Hpte2, (cp_new _ _ _ _ _ _ _ _ _ _ Hc) by done. by rewrite (proj2 (Z.ltb_ge _ _)) by lia.
  - rewrite Hpte2, (cp_new _ _ _ _ _ _ _ _ _ _ Hc) by done. by rewrite (proj2 (Z.ltb_ge _ _)) by lia.
Qed.

Lemma parent_tf x : page tf x -> mem s5 x = mem (kst k) x.
Proof.
  intros Hx. destruct (pk_tf _ _ _ Hok x Hx) as [Hf Ht].
  assert (Hf4 : ~ pa_free (kst k1) x) by (intros ?; by apply Hf, (ew_free _ _ _ _ child_elsewhere)).
  rewrite (cp_mem _ _ _ _ _ _ _ _ _ _ Hc) by (try done; by intros [? _]%child_table).
  apply (ew_mem _ _ _ _ child_elsewhere); [done|tauto].
Qed.

Lemma memory_done :
  uspace end_ (set_mem m s5) (p_pagetable p) T 0 hi /\
  uspace end_ (set_mem m s5) (p_pagetable c) T2 0 hi /\
  (forall va, 0 <= va < hi -> ucontent (set_mem m s5) T va = ucontent (kst k) T va /\
     ucontent (set_mem m s5) T2 va = ucontent (kst k) T va) /\
  pte_of (set_mem m s5) T2 TRAPFRAME = leaf_pte tf' (Z.lor PTE_R PTE_W) /\
  (forall x, page tf x -> mem s5 x = mem (kst k) x).
Proof using All.
  destruct forked_memory as (? & ? & ? & ? & _). split_and!; auto using parent_tf.
Qed.
End memory.

(** The copy of the trapframe. *)
Lemma tf_written (m0 m : memory) tf tf' :
  tf' mod PGSIZE = 0 -> (forall x, page tf x -> m x = m0 x) ->
  let m' := st64 (memmove m tf' tf tf_size) (tf' + tf_a0) 0 in
  tf_copied m0 m' tf tf' /\ forall x, ~ page tf' x -> m' x = m x.
Proof.
  intros Hal Hm m'. unfold tf_copied, tf_size, tf_a0 in *. split; [split|].
  - intros i Hi Ha. unfold m', ldb at 1. rewrite st64_other by lia.
    rewrite memmove_inside by lia. replace (tf' + i - tf') with i by lia.
    rewrite u8_id by apply ldb_range. unfold ldb. rewrite Hm by (unfold page; lia). done.
  - unfold m'. by rewrite ld_st64_same.
  - intros x Hx. unfold m', page in *. rewrite st64_other by lia. apply memmove_other; lia.
Qed.

(** The loop over the open files. *)
Lemma dup_files np (p c : proc) (k0 k1 : K) :
  only np k0 k1 c -> (forall fd, (fd < NOFILE)%nat -> p_ofile p fd <> 0 -> file_live NOFILE (files k1) (p_ofile p fd)) ->
  wp (for_each (seq 0 NOFILE) (fun fd =>
        when! negb (p_ofile p fd =? 0) do
          let! f := filedup (p_ofile p fd) in
          change np (fun c => set_ofile (upd (p_ofile c) fd f) c)))
    (fun _ k2 => exists o, only np k0 k2 (set_ofile o c) /\ kst k2 = kst k1 /\
       forall fd, (fd < NOFILE)%nat -> p_ofile p fd <> 0 -> o fd = p_ofile p fd) k1.
Proof.
  intros H1 Hlive.
  eapply wp_mono; [apply (wp_for_each _ (fun d r k2 => exists o, only np k0 k2 (set_ofile o c) /\
    kst k2 = kst k1 /\ (forall fd, fd ∈ d -> p_ofile p fd <> 0 -> o fd = p_ofile p fd) /\
    forall fd, (fd < NOFILE)%nat -> p_ofile p fd <> 0 -> file_live (length r) (files k2) (p_ofile p fd)))|].
  - exists (p_ofile c). split_and!; try done; [by destruct c|]. by intros ? ?%not_elem_of_nil.
  - intros d fd r k2 Hd (o & Ho & Ek & Hdone & Hl). assert (Hfd : (fd < NOFILE)%nat).
    { assert (fd ∈ seq 0 NOFILE) as Hin by (rewrite <- Hd; apply elem_of_app; right; left).
      apply elem_of_seq in Hin. lia. }
    wp_step.
    + wp_step. eapply wp_mono; [apply (filedup_ok (length r)), Hl; [done|lia]|].
      intros f k3 (-> & x & -> & Hl'). unfold change. wp_step.
      exists (upd o fd (p_ofile p fd)). split_and!.
      * exact (only_change np (fun c => set_ofile (upd (p_ofile c) fd (p_ofile p fd)) c) k0 (set_files x k2) _ Ho).
      * done.
      * intros fd' [Hin| ->%list_elem_of_singleton]%elem_of_app Hne.
        -- upd_cases fd' fd; auto.
        -- by rewrite upd_same.
      * intros fd' Hfd' Hne. simpl. auto.
    + wp_step. exists o. split_and!; try done; [|auto using file_live_mono].
      intros fd' [Hin| ->%list_elem_of_singleton]%elem_of_app Hne; [auto|]. lia.
  - intros _ k2 (o & Ho & Ek & Hdone & _). exists o. split_and!; try done.
    intros fd Hfd. apply Hdone. apply elem_of_seq. lia.
Qed.

(** C30: [fork].  With a free slot and enough free pages, [fork] returns the
    next pid.  The child is RUNNABLE in that slot with this pid, the caller as
    its parent, the caller's size, directory, open files, priority and tickets;
    its memory is byte for byte the caller's, its trapframe is mapped and holds
    the caller's registers except that a0 is 0.  The caller's memory and every
    other slot are as before. *)
Theorem fork_correct (k : K) me np T :
  0 <= trampoline < PHYSTOP -> trampoline mod PGSIZE = 0 ->
  find_unused k = Some np -> p_state (procs k me) = RUNNING ->
  parent_ok (kst k) (procs k me) T ->
  avail (kst k) (2 * Z.to_nat (npages (p_sz (procs k me))) + 6) ->
  (forall fd, (fd < NOFILE)%nat -> p_ofile (procs k me) fd <> 0 ->
     file_live NOFILE (files k) (p_ofile (procs k me) fd)) ->
  wp (fork end_ trampoline forkret pol me) (fun r k' => r = nextpid k /\
    (forall i, i <> np -> procs k' i = procs k i) /\
    let p := procs k me in let c := procs k' np in let hi := npages (p_sz p) * PGSIZE in
    p_state c = RUNNABLE /\ p_pid c = nextpid k /\ p_parent c = Some me /\ p_sz c = p_sz p /\
    p_priority c = p_priority p /\ p_tickets c = p_tickets p /\ p_cwd c = p_cwd p /\
    (forall fd, (fd < NOFILE)%nat -> p_ofile p fd <> 0 -> p_ofile c fd = p_ofile p fd) /\
    tf_copied (mem (kst k)) (mem (kst k')) (p_trapframe p) (p_trapframe c) /\
    exists T', uspace end_ (kst k') (p_pagetable p) T 0 hi /\
      uspace end_ (kst k') (p_pagetable c) T' 0 hi /\
      pte_of (kst k') T' TRAPFRAME = leaf_pte (p_trapframe c) (Z.lor PTE_R PTE_W) /\
      forall va, 0 <= va < hi -> ucontent (kst k') T va = ucontent (kst k) T va /\
        ucontent (kst k') T' va = ucontent (kst k) T va) k.
Proof.
  intros Htr Htral Hu Hrun Hok Hav Hlive. unfold fork.
  assert (Hne : me <> np).
  { intros ->. apply find_some in Hu as [_ Hu]. apply bool_decide_eq_true in Hu. congruence. }
  wp_step. eapply wp_mono; [by apply (allocproc_ok end_ Hend trampoline forkret pol Htr Htral k np); [|apply Hok|]|].
  intros o k1 (-> & c & s1 & T4 & Hnc). unfold get. do 4 wp_step.
  pose proof (nc_only _ _ _ _ _ _ _ _ _ _ Hnc) as Ho1.
  assert (procs k1 me = procs k me /\ procs k1 np = c) as [-> ->].
  { destruct Ho1 as (-> & _). simpl. by rewrite upd_other, upd_same by done. }
  pose proof (child_ready k k1 me np _ c s1 T T4 Hok Hnc) as Hfk.
  pose proof Hfk as [_ [HI1 Hwf1 Hsp1 _ Hhi] Hwf' Hdis Hsep Hcnt Hnew].
  pose proof (pk_sz _ _ _ Hok) as Hsz. unfold liftk. do 2 wp_step.
  eapply wp_mono; [apply (uvmcopy_inv end_ Hend (kst k1) (p_pagetable (procs k me)) T (p_pagetable c) T4
    (npages (p_sz (procs k me)) * PGSIZE)); done || lia|].
  rewrite Z.div_mul by done. intros r s5 (Hr & T2 & Hd).
  specialize (Hr (nc_avail _ _ _ _ _ _ _ _ _ _ Hnc)) as ->. destruct Hd as [(_ & Hc & Hrf)|[? _]]; [|done].
  pose proof (bad_pa_range end_ Hend _ (nc_tf _ _ _ _ _ _ _ _ _ _ Hnc)) as (Htfal & _ & _ & _).
  cbv beta. rewrite Z.ltb_irrefl.
  wp_step. eapply wp_change_only; [apply only_kst, Ho1|]. intros k2 Ho2 [E2 F2]. simpl in E2, F2.
  wp_step. wp_step. wp_step. rewrite E2.
  wp_step. eapply wp_change_only; [apply only_kst, Ho2|]. intros k3 Ho3 [E3 F3]. simpl in E3, F3.
  wp_step. eapply wp_change_only; [exact Ho3|]. intros k4 Ho4 [E4 F4].
  wp_step. unfold store. wp_step. wp_step. rewrite E4, E3. simpl mem.
  destruct (tf_written (mem (kst k)) (mem s5) (p_trapframe (procs k me)) (p_trapframe c) Htfal) as [Htf Hw].
  { intros x. apply (parent_tf k k1 me np _ c s1 T T4 Hok Hnc s5 T2 Hc). }
  destruct (memory_done k k1 me np _ c s1 T T4 Hok Hnc s5 T2 Hc Hrf _ Hw) as (Hus & Hus2 & Hcon & Hpte & _).
  set (m := st64 _ _ _) in *. change (set_mem m _) with (set_mem m s5). cbv beta.
  wp_step. eapply wp_mono; [eapply dup_files; [apply only_kst, Ho4|]|].
  { intros fd Hfd Hnz. simpl. rewrite F4, F3, F2, (nc_files _ _ _ _ _ _ _ _ _ _ Hnc). auto. }
  intros ? k5 (o & Ho5 & E5 & Hof). simpl in E5.
  wp_step. eapply wp_mono; [apply idup_ok|]. intros d k6 (-> & x & ->).
  wp_step. eapply wp_change_only; [exact Ho5|]. intros k7 Ho7 [E7 _].
  wp_step. eapply wp_change_only; [exact Ho7|]. intros k8 Ho8 [E8 _].
  do 2 wp_step. wp_step. eapply wp_change_only; [exact Ho8|]. intros k9 Ho9 [E9 _].
  wp_step. eapply wp_change_only; [exact Ho9|]. intros k10 Ho10 [E10 _]. wp_step.
  assert (Ek : kst k10 = set_mem m s5) by (rewrite E10, E9, E8, E7; exact E5).
  destruct Ho10 as (Hp10 & _), Ho8 as (Hp8 & _). rewrite Ek, Hp10, Hp8. simpl. rewrite !upd_same. simpl.
  split_and!; try done; try apply Hnc.
  - intros i Hi. by rewrite upd_other.
  - by exists T2.
Qed.
End fork.

(** ** Witness *)

#[local] Instance boot_pa : PageAllocator boot_end := buddy_allocator boot_end boot_end_ok.
#[local] Instance no_files_layer : FileLayer unit := no_files.

Lemma no_files_dup : FileDup unit.
Proof.
  refine {| file_live _ _ _ := True |}.
  - done.
  - intros n f k _. simpl. apply wp_ret. split; [done|]. exists tt. by destruct k as [? ? ? ? ? ? []].
  - intros d k. simpl. apply wp_ret. split; [done|]. exists tt. by destruct k as [? ? ? ? ? ? []].
Qed.

(** Process 0 with one page of memory forks; the child sees the page. *)
Lemma fork_correct_witness : exists (k : kern unit) T,
  valid (pte_of (kst k) T 0) = true /\
  wp (fork boot_end KERNBASE 0 DEFAULT 0) (fun r k' => r = 2 /\
    p_state (procs k' 1%nat) = RUNNABLE /\ exists T', ucontent (kst k') T' 9 = ucontent (kst k) T 9) k.
Proof.
  destruct (boot_fork user_rw ltac:(done) ltac:(done))
    as (s & root & T & root' & m & [_ Hus _ _ _ Hcnt _] & Hp & Hm & Hal & Hav).
  set (p := set_trapframe KERNBASE (set_sz PGSIZE (set_pagetable root (procs init_kern O)))).
  exists (set_kst s (set_procs (upd (procs init_kern) O p) init_kern)), T. split.
  { simpl. rewrite Hp. unfold valid. rewrite bits_leaf by (done || lia). reflexivity. }
  assert (Hpk : parent_ok boot_end s p T).
  { constructor; [exact Hus|vm_compute; intuition congruence|exact Hcnt|].
    intros x Hx. unfold page in Hx. simpl in Hx. split.
    - intros Hf. apply (@pa_free_range boot_end boot_pa) in Hf; [|apply Hus]. unfold boot_end in Hf. lia.
    - intros (n & q & Hn & Hq). destruct (wf_page _ _ _ _ (us_wf _ _ _ _ _ _ Hus) n q Hn) as [Hb _].
      apply (bad_pa_range boot_end boot_end_ok) in Hb as (_ & Hb & _). unfold page, boot_end in *. lia. }
  eapply wp_mono.
  - apply (@fork_correct boot_end boot_pa boot_end_ok unit no_files_layer no_files_dup KERNBASE 0 DEFAULT
      (set_kst s (set_procs (upd (procs init_kern) O p) init_kern)) 0%nat 1%nat T);
      [vm_compute; intuition congruence|reflexivity|reflexivity|reflexivity|exact Hpk| |].
    + eapply avail_le; [exact Hav|vm_compute; lia].
    + intros fd _ Hne. exfalso. apply Hne. reflexivity.
  - intros r k' (Hr & _ & Hst & _ & _ & _ & _ & _ & _ & _ & _ & T' & _ & _ & _ & Hc).
    split; [exact Hr|]. split; [exact Hst|]. exists T'. apply Hc. simpl. unfold npages. lia.
Defined.
