(* ===== verification/Trap.v ===== *)
(** * kernel/trap.c: traps and interrupts

    [usertrap], [usertrapret], [kerneltrap], [clockintr] and [devintr].  The
    control registers a handler reads are its arguments, those it leaves for
    the return from the trap are its result.  The device drivers and the
    system-call dispatcher come as a class, which the files that model them
    instantiate. *)

From S2P Require Import Prelude Riscv KString Locks Kalloc Vm Uvm UserMem UvmProps Proc ProcInv Fault.

Definition SSTATUS_SPP : Z := Z.shiftl 1 8.
Definition SSTATUS_SPIE : Z := Z.shiftl 1 5.
Definition SSTATUS_SIE : Z := Z.shiftl 1 1.
Definition SATP_SV39 : Z := Z.shiftl 8 60.
Definition MAKE_SATP (pagetable : Z) : Z := Z.lor SATP_SV39 (Z.shiftr pagetable 12).
Definition UART0_IRQ : Z := 10.
Definition VIRTIO0_IRQ : Z := 1.

(** What the trap handlers call outside proc.c: [syscall()] (its result says
    whether the process is still there, or has exited) and the interrupt
    handlers of the two devices. *)
Class TrapCalls (F : Type) := {
  do_syscall : nat -> M (kern F) bool;
  uartintr : M (kern F) unit;
  virtio_disk_intr : M (kern F) unit;
}.

(** How [usertrap] ends: the process has exited, or goes back to user space,
    after giving up the CPU or at once. *)
Inductive trap_end := Exited | Yields | Returns.
#[export] Instance trap_end_eq_dec : EqDecision trap_end.
Proof. solve_decision. Defined.

(** The registers with which [usertrapret] enters [userret] in trampoline.S. *)
Record user_entry := UserEntry {
  ue_stvec : Z;
  ue_sstatus : Z;
  ue_sepc : Z;
  ue_satp : Z;
  ue_pc : Z;
}.

Section trap.
Context {F : Type} `{FL : FileLayer F} `{TC : TrapCalls F} (end_ : Z).
Abbreviation K := (kern F).

(** [cpu] is [cpuid()], [me] is [myproc()]. *)
Definition clockintr (cpu : nat) (me : option nat) : M K unit :=
  (when! (cpu =? 0)%nat do
     (modify (fun k => set_ticks (u32 (ticks k + 1)) k) ;; wakeup me TicksChan)) ;;
  updatestatistics.

(** [irq] is what [plic_claim()] reads. *)
Definition devintr (cpu : nat) (me : option nat) (scause irq : Z) : M K Z :=
  if scause =? 0x8000000000000009 then
    (if irq =? UART0_IRQ then uartintr
     else if irq =? VIRTIO0_IRQ then virtio_disk_intr
     else ret tt) ;;
    ret 1
  else if scause =? 0x8000000000000005 then clockintr cpu me ;; ret 2
  else ret 0.

(** The end of [usertrap]. *)
Definition trap_tail (me : nat) (which_dev : Z) : M K trap_end :=
  let! d := killed me in
  if negb (d =? 0) then exit me (-1) ;; ret Exited
  else if which_dev =? 2 then ret Yields
  else ret Returns.

Definition usertrap (cpu me : nat) (sstatus sepc scause stval irq : Z) : M K trap_end :=
  if bits sstatus SSTATUS_SPP then panic "usertrap: not from user mode"
  else
    let! p := get me in
    liftk (store (p_trapframe p + tf_epc) sepc) ;;
    if scause =? 8 then
      let! d := killed me in
      if negb (d =? 0) then exit me (-1) ;; ret Exited
      else
        let! epc := liftk (load (p_trapframe p + tf_epc)) in
        liftk (store (p_trapframe p + tf_epc) (u64 (epc + 4))) ;;
        let! there := do_syscall me in
        if negb there then ret Exited else trap_tail me 0
    else
      let! which_dev := devintr cpu (Some me) scause irq in
      (if negb (which_dev =? 0) then ret tt
       else if (scause =? 13) || (scause =? 15) then page_fault end_ me stval
       else setkilled me) ;;
      trap_tail me which_dev.

(** The addresses of [uservec] and [userret] in the trampoline page and of
    [usertrap] are fixed by the linker; [satp] and [tp] are read from the
    CPU. *)
Definition usertrapret (uservec userret trampoline usertrap_ : Z) (me : nat)
    (sstatus satp tp : Z) : M K user_entry :=
  let! p := get me in
  let tf := p_trapframe p in
  liftk (store (tf + tf_kernel_satp) satp) ;;
  liftk (store (tf + tf_kernel_sp) (u64 (p_kstack p + PGSIZE))) ;;
  liftk (store (tf + tf_kernel_trap) usertrap_) ;;
  liftk (store (tf + tf_kernel_hartid) tp) ;;
  let x := Z.land sstatus (Z.lnot SSTATUS_SIE) in
  let x := Z.land x (Z.lnot SSTATUS_SPP) in
  let x := Z.lor x SSTATUS_SPIE in
  let! epc := liftk (load (tf + tf_epc)) in
  ret (UserEntry (TRAMPOLINE + (uservec - trampoline)) x epc (MAKE_SATP (p_pagetable p))
         (TRAMPOLINE + (userret - trampoline))).

(** The result: whether the current process gives up the CPU, and the values
    that [sepc] and [sstatus] have in the end. *)
Definition kerneltrap (cpu : nat) (me : option nat) (sepc sstatus scause irq : Z)
    : M K (bool * (Z * Z)) :=
  if negb (bits sstatus SSTATUS_SPP) then panic "kerneltrap: not from supervisor mode"
  else if bits sstatus SSTATUS_SIE then panic "kerneltrap: interrupts enabled"
  else
    let! which_dev := devintr cpu me scause irq in
    if which_dev =? 0 then panic "kerneltrap"
    else ret ((which_dev =? 2) && bool_decide (is_Some me), (sepc, sstatus)).
End trap.

(** ** Clock ticks *)

(** One more tick in the state the process is in. *)
Definition counted (p : proc) : proc :=
  match p_state p with
  | SLEEPING => set_stime (i32 (p_stime p + 1)) p
  | RUNNABLE => set_retime (i32 (p_retime p + 1)) p
  | RUNNING => set_rutime (i32 (p_rutime p + 1)) p
  | _ => p
  end.

Lemma updatestatistics_spec {F} (k : kern F) :
  updatestatistics k = Ret (tt, set_procs (fun i =>
    if decide (i < NPROC)%nat then counted (procs k i) else procs k i) k).
Proof.
  unfold updatestatistics. apply (for_each_table _ (fun _ => counted)).
  intros i k'. unfold counted, bind, get, gets. simpl.
  destruct (p_state (procs k' i)) eqn:E; try (rewrite put_same; [done|by rewrite E]);
    unfold change, modify, put_proc; by rewrite E.
Qed.

Section clock.
Context {F : Type}.

Lemma clockintr_spec cpu me (k : kern F) :
  clockintr cpu me k = Ret (tt,
    set_procs (fun i => if decide (i < NPROC)%nat
      then counted (if (cpu =? 0)%nat then woken me TicksChan i (procs k i) else procs k i)
      else procs k i)
    (set_ticks (if (cpu =? 0)%nat then u32 (ticks k + 1) else ticks k) k)).
Proof.
  unfold clockintr. destruct (cpu =? 0)%nat.
  - unfold bind, modify. rewrite wakeup_spec, updatestatistics_spec. do 2 f_equal.
    destruct k. unfold set_procs, set_ticks. simpl. f_equal.
    apply functional_extensionality. intros i. by destruct (decide (i < NPROC)%nat).
  - unfold bind, ret. rewrite updatestatistics_spec. by destruct k.
Qed.

(** A clock interrupt charges every process one tick in exactly one of
    its three counters, the one of the state it is in once the sleepers on
    [ticks] have been woken.  It does so on every CPU, while [ticks] advances,
    modulo 2^32, and sleepers are woken on CPU 0 only. *)
Theorem clockintr_correct cpu me (k : kern F) :
  wp (clockintr cpu me) (fun _ k' =>
    ticks k' = (if (cpu =? 0)%nat then u32 (ticks k + 1) else ticks k) /\
    kst k' = kst k /\ nextpid k' = nextpid k /\
    forall i, (i < NPROC)%nat ->
      let q := procs k' i in let p := procs k i in
      p_state q = (if (cpu =? 0)%nat && bool_decide (Some i <> me) &&
                      bool_decide (p_state p = SLEEPING) && bool_decide (p_chan p = TicksChan)
                   then RUNNABLE else p_state p) /\
      p_stime q = (if bool_decide (p_state q = SLEEPING) then i32 (p_stime p + 1) else p_stime p) /\
      p_retime q = (if bool_decide (p_state q = RUNNABLE) then i32 (p_retime p + 1) else p_retime p) /\
      p_rutime q = (if bool_decide (p_state q = RUNNING) then i32 (p_rutime p + 1) else p_rutime p)) k.
Proof.
  unfold wp. rewrite clockintr_spec. split_and!; try done.
  intros i Hi. simpl. rewrite decide_True by done. unfold woken.
  destruct (cpu =? 0)%nat; simpl.
  - destruct (bool_decide (Some i <> me)); simpl.
    + destruct (p_state (procs k i)) eqn:E; simpl; unfold counted; rewrite ?E; simpl; rewrite ?E; try done.
      destruct (bool_decide (p_chan (procs k i) = TicksChan)); simpl; rewrite ?E; simpl; rewrite ?E; done.
    + unfold counted. destruct (p_state (procs k i)) eqn:E; simpl; rewrite ?E; done.
  - unfold counted. destruct (p_state (procs k i)) eqn:E; simpl; rewrite ?E; done.
Qed.
End clock.

(** ** Leaving the kernel *)

Section leave.
Context {F : Type} (uservec userret trampoline usertrap_ : Z).

Lemma sstatus_bits x b : 0 <= b ->
  Z.testbit (Z.lor (Z.land (Z.land x (Z.lnot SSTATUS_SIE)) (Z.lnot SSTATUS_SPP)) SSTATUS_SPIE) b =
  if b =? 1 then false else if b =? 5 then true else if b =? 8 then false else Z.testbit x b.
Proof.
  intros Hb. rewrite Z.lor_spec, !Z.land_spec, !Z.lnot_spec by done.
  unfold SSTATUS_SIE, SSTATUS_SPP, SSTATUS_SPIE. rewrite !Z.shiftl_1_l, !Z.pow2_bits_eqb by lia.
  rewrite !(Z.eqb_sym _ b).
  destruct (Z.eqb_spec b 1) as [->|]; [by rewrite andb_false_r|].
  destruct (Z.eqb_spec b 5) as [->|]; [by rewrite orb_true_r|].
  destruct (Z.eqb_spec b 8) as [->|]; [by rewrite andb_false_r|].
  simpl. by rewrite !andb_true_r, orb_false_r.
Qed.

(** [usertrapret] enters user mode with the saved program counter, the
    page table of the process and interrupts enabled, all other status bits
    unchanged; of the trapframe it writes only the four kernel words, so the
    user registers are restored as they were saved. *)
Theorem usertrapret_correct (k : kern F) me sstatus satp tp :
  let p := procs k me in let tf := p_trapframe p in
  0 <= satp < 2 ^ 64 -> 0 <= p_pagetable p < 2 ^ 56 ->
  wp (usertrapret uservec userret trampoline usertrap_ me sstatus satp tp) (fun e k' =>
    ue_sepc e = ld64 (mem (kst k)) (tf + tf_epc) /\
    (forall b, 0 <= b -> Z.testbit (ue_sstatus e) b =
       if b =? 1 then false else if b =? 5 then true else if b =? 8 then false
       else Z.testbit sstatus b) /\
    ue_satp e = 8 * 2 ^ 60 + p_pagetable p / PGSIZE /\
    procs k' = procs k /\
    ld64 (mem (kst k')) (tf + tf_kernel_satp) = satp /\
    ld64 (mem (kst k')) (tf + tf_kernel_sp) = u64 (p_kstack p + PGSIZE) /\
    (forall x, x < tf \/ tf + tf_epc <= x < tf + tf_epc + 8 \/ tf + tf_kernel_hartid + 8 <= x ->
       mem (kst k') x = mem (kst k) x)) k.
Proof.
  intros p tf Hs Hp. unfold usertrapret, get. do 2 wp_step. fold p. fold tf.
  unfold liftk, store, load, tf_epc, tf_kernel_satp, tf_kernel_sp, tf_kernel_trap, tf_kernel_hartid.
  do 4 (wp_step; wp_step; wp_step; cbv beta). wp_step. wp_step. wp_step. wp_step. simpl.
  split_and!; try done.
  - by rewrite !ld_st64_other by lia.
  - intros b Hb. by apply sstatus_bits.
  - unfold MAKE_SATP. rewrite Z.shiftr_div_pow2 by lia. change SATP_SV39 with (2 ^ 63).
    change (8 * 2 ^ 60) with (2 ^ 63). apply (lor_add_low _ _ 60); [done|done|].
    change (2 ^ 12) with PGSIZE. lia.
  - rewrite !ld_st64_other, ld_st64_same by lia. by apply u64_id.
  - rewrite !ld_st64_other, ld_st64_same by lia. apply u64_id, u64_range.
  - intros x Hx. by rewrite !st64_other by lia.
Qed.
End leave.

(** ** Killed processes and preemption *)

Section user.
Context {F : Type} `{FL : FileLayer F} `{TC : TrapCalls F} (end_ : Z).

Lemma trap_tail_killed me w (k : kern F) :
  wlp (trap_tail me w) (fun r k' => r <> Exited -> p_killed (procs k' me) = 0) k.
Proof.
  unfold trap_tail, killed. wlp_step. wlp_step. cbv beta.
  destruct (p_killed (procs k me) =? 0) eqn:E; simpl.
  - destruct (w =? 2); wlp_step; intros _; by apply Z.eqb_eq.
  - apply wlp_any. intros ? k'. by wlp_step.
Qed.

(** No trap, system call or interrupt lets a killed process back into
    user space: when [usertrap] does not end in [exit], the process is not
    marked killed. *)
Theorem killed_stays_out cpu me sstatus sepc scause stval irq (k : kern F) :
  wlp (usertrap end_ cpu me sstatus sepc scause stval irq)
    (fun r k' => r <> Exited -> p_killed (procs k' me) = 0) k.
Proof.
  unfold usertrap, get. wlp_step; [by wlp_step|]. wlp_step. wlp_step. apply wlp_any. intros ? k1. wlp_step.
  - unfold killed. wlp_step. wlp_step. wlp_step.
    + apply wlp_any. intros ? k2. by wlp_step.
    + apply wlp_any. intros epc k2.
      apply wlp_any. intros ? k3.
      apply wlp_any. intros there k4.
      destruct there; simpl; [apply trap_tail_killed|by wlp_step].
  - apply wlp_any. intros w k2.
    apply wlp_any. intros ? k3. apply trap_tail_killed.
Qed.

(** a timer interrupt in user mode is transparent.  For a process that
    has not been killed, [usertrap] saves the interrupted program counter,
    changes no other byte of memory and nothing of the process but its
    run-time counter, and gives up the CPU. *)
Theorem timer_trap_correct cpu me sstatus sepc stval irq (k : kern F) :
  (me < NPROC)%nat -> p_state (procs k me) = RUNNING -> p_killed (procs k me) = 0 ->
  bits sstatus SSTATUS_SPP = false -> 0 <= sepc < 2 ^ 64 ->
  wp (usertrap end_ cpu me sstatus sepc 0x8000000000000005 stval irq) (fun r k' =>
    r = Yields /\
    let p := procs k me in
    procs k' me = set_rutime (i32 (p_rutime p + 1)) p /\
    ld64 (mem (kst k')) (p_trapframe p + tf_epc) = sepc /\
    (forall x, x < p_trapframe p + tf_epc \/ p_trapframe p + tf_epc + 8 <= x ->
       mem (kst k') x = mem (kst k) x)) k.
Proof.
  intros Hme Hrun Hk Hspp Hpc. unfold usertrap. rewrite Hspp. unfold get. do 2 wp_step.
  unfold liftk, store. wp_step. wp_step. wp_step. cbv beta. change (0x8000000000000005 =? 8) with false. cbv iota.
  assert (Hme' : forall q, counted (if (cpu =? 0)%nat then woken (Some me) TicksChan me q else q) =
    counted q).
  { intros q. unfold woken. rewrite bool_decide_false by congruence. by destruct (cpu =? 0)%nat. }
  assert (Hcm : counted (procs k me) = set_rutime (i32 (p_rutime (procs k me) + 1)) (procs k me))
    by (unfold counted; by rewrite Hrun).
  wp_step. unfold devintr.
  change (0x8000000000000005 =? 0x8000000000000009) with false.
  change (0x8000000000000005 =? 0x8000000000000005) with true. cbv iota. wp_step. unfold wp at 1.
  rewrite clockintr_spec. simpl. wp_step. simpl. unfold trap_tail, killed.
  do 4 wp_step. simpl. rewrite decide_True, Hme', Hcm by done. simpl.
  rewrite Hk. simpl. wp_step. split_and!; try done.
  - simpl. by rewrite decide_True, Hme', Hcm by done.
  - simpl. by rewrite ld_st64_same, u64_id.
  - intros x Hx. simpl. apply st64_other. lia.
Qed.
End user.

(** ** Witnesses *)

#[local] Instance no_files_layer : FileLayer unit := no_files.
#[local] Instance no_calls : TrapCalls unit :=
  {| do_syscall _ := ret true; uartintr := ret tt; virtio_disk_intr := ret tt |}.

Lemma usertrapret_correct_witness :
  wp (usertrapret 0 0 0 0 0 0 0 0) (fun e k' => ue_satp e = 8 * 2 ^ 60) init_kern.
Proof.
  eapply wp_mono; [apply (usertrapret_correct 0 0 0 0 init_kern 0 0 0 0); vm_compute; intuition congruence|].
  intros e k' (_ & _ & He & _). rewrite He. reflexivity.
Defined.

Lemma timer_trap_correct_witness :
  wp (usertrap 0 0 0 0 0x1234 0x8000000000000005 0 0) (fun r k' => r = Yields /\
    p_rutime (procs k' 0%nat) = 1 /\ ld64 (mem (kst k')) tf_epc = 0x1234) init_kern.
Proof.
  eapply wp_mono; [apply (timer_trap_correct 0 0 0 0 0x1234 0 0 init_kern); vm_compute; intuition (congruence || lia)|].
  intros r k' (Hr & Hp & He & _). split; [exact Hr|]. split; [by rewrite Hp|exact He].
Defined.
