(* ===== verification/Asm.v ===== *)
(** * The assembly files: entry.S, swtch.S, trampoline.S and kernelvec.S

    The instructions of the files as lists, and the machine that runs them:
    registers, control registers and physical memory, reached through the page
    table that satp selects.  The machine may still use translations it has
    seen before satp was written or memory changed; until the next sfence.vma
    an access is defined only if all page tables it may use agree on it.  The
    accessed and dirty bits, which the machine sets itself, are left out. *)

From S2P Require Import Prelude Riscv Kalloc Vm UvmProps Proc ProcInv Fault Trap.

Inductive reg :=
| ra | sp | gp | tp | t0 | t1 | t2 | t3 | t4 | t5 | t6
| s0 | s1 | s2 | s3 | s4 | s5 | s6 | s7 | s8 | s9 | s10 | s11
| a0 | a1 | a2 | a3 | a4 | a5 | a6 | a7.
#[export] Instance reg_eq_dec : EqDecision reg.
Proof. solve_decision. Defined.

Inductive csr := satp | sscratch | sepc | sstatus | mhartid.
#[export] Instance csr_eq_dec : EqDecision csr.
Proof. solve_decision. Defined.

(** [call] is a call of a C function, [la] loads the address of a symbol. *)
Inductive instr :=
| sd (rs : reg) (off : Z) (base : reg)
| ld (rd : reg) (off : Z) (base : reg)
| li (rd : reg) (v : Z)
| la (rd : reg) (v : Z)
| addi (rd rs : reg) (v : Z)
| add (rd rs1 rs2 : reg)
| mul (rd rs1 rs2 : reg)
| csrw (c : csr) (rs : reg)
| csrr (rd : reg) (c : csr)
| sfence_vma
| call
| jr (rs : reg)
| sret.

(** [tlb] holds the values of satp whose page tables the machine may use. *)
Record hart := Hart {
  regs : reg -> Z;
  csrs : csr -> Z;
  tlb : list Z;
  mmem : memory;
}.
Definition set_reg (r : reg) (v : Z) (m : hart) : hart :=
  Hart (upd (regs m) r v) (csrs m) (tlb m) (mmem m).
Definition set_mmem (M : memory) (m : hart) : hart := Hart (regs m) (csrs m) (tlb m) M.

(** The page-table walk of the machine in supervisor mode, for an access that
    needs the permission [acc].  Pages larger than 4096 bytes are not used. *)
Fixpoint hw_walk (M : memory) (level : nat) (base acc va : Z) : option Z :=
  let pte := ld64 M (base + 8 * PX (Z.of_nat level) va) in
  if negb (bits pte PTE_V) then None
  else if bits pte PTE_R || bits pte PTE_X then
    match level with
    | O => if bits pte PTE_U || negb (bits pte acc) then None else Some (PTE2PA pte + va mod PGSIZE)
    | Datatypes.S _ => None
    end
  else
    match level with
    | O => None
    | Datatypes.S l => if bits pte PTE_W then None else hw_walk M l (PTE2PA pte) acc va
    end.
Definition translate (M : memory) (v acc va : Z) : option Z :=
  if Z.shiftr v 60 =? 0 then Some va
  else if negb (Z.shiftr v 60 =? 8) then None
  else if (0 <=? va) && (va <? MAXVA) then hw_walk M 2 (Z.shiftl (Z.land v (2 ^ 44 - 1)) 12) acc va
  else None.
Definition access (m : hart) (acc va : Z) : option Z :=
  match tlb m with
  | [] => None
  | v :: rest =>
      let r := translate (mmem m) v acc va in
      if forallb (fun v' => bool_decide (translate (mmem m) v' acc va = r)) rest then r else None
  end.

(** One instruction; [None] is a trap. *)
Definition exec_instr (i : instr) (m : hart) : option hart :=
  match i with
  | sd rs off base =>
      let a := u64 (regs m base + off) in
      if negb (a mod 8 =? 0) then None
      else match access m PTE_W a with
           | Some pa => Some (set_mmem (st64 (mmem m) pa (regs m rs)) m)
           | None => None
           end
  | ld rd off base =>
      let a := u64 (regs m base + off) in
      if negb (a mod 8 =? 0) then None
      else match access m PTE_R a with
           | Some pa => Some (set_reg rd (ld64 (mmem m) pa) m)
           | None => None
           end
  | li rd v | la rd v => Some (set_reg rd v m)
  | addi rd rs v => Some (set_reg rd (u64 (regs m rs + v)) m)
  | add rd rs1 rs2 => Some (set_reg rd (u64 (regs m rs1 + regs m rs2)) m)
  | mul rd rs1 rs2 => Some (set_reg rd (u64 (regs m rs1 * regs m rs2)) m)
  | csrw c rs =>
      let v := regs m rs in
      Some (Hart (regs m) (upd (csrs m) c v) (if decide (c = satp) then v :: tlb m else tlb m) (mmem m))
  | csrr rd c => Some (set_reg rd (csrs m c) m)
  | sfence_vma => Some (Hart (regs m) (csrs m) [csrs m satp] (mmem m))
  | call | jr _ | sret => None
  end.

(** How a piece of code ends: in a jump, or in a return from the trap to the
    address in sepc, in the mode that sstatus says. *)
Inductive ending := Jump (pc : Z) | Sret.

Section run.
(** The address of the page of the code, the page it is in, and the C
    function that the code calls. *)
Context (va pa : Z) (callee : hart -> option hart).

Fixpoint run (code : list instr) (m : hart) : option (ending * hart) :=
  match code with
  | [] => None
  | i :: rest =>
      if bool_decide (access m PTE_X va = Some pa) then
        match i with
        | jr rs => Some (Jump (regs m rs), m)
        | sret => Some (Sret, m)
        | call => match callee m with Some m' => run rest m' | None => None end
        | _ => match exec_instr i m with Some m' => run rest m' | None => None end
        end
      else None
  end.
End run.

(** ** The code *)

(** entry.S, up to the call of [start]. *)
Definition entry (stack0 : Z) : list instr :=
  [la sp stack0; li a0 (1024 * 4); csrr a1 mhartid; addi a1 a1 1; mul a0 a0 a1; add sp sp a0].

Definition swtch : list instr :=
  [sd ra 0 a0; sd sp 8 a0; sd s0 16 a0; sd s1 24 a0; sd s2 32 a0; sd s3 40 a0; sd s4 48 a0; sd s5 56 a0;
   sd s6 64 a0; sd s7 72 a0; sd s8 80 a0; sd s9 88 a0; sd s10 96 a0; sd s11 104 a0;
   ld ra 0 a1; ld sp 8 a1; ld s0 16 a1; ld s1 24 a1; ld s2 32 a1; ld s3 40 a1; ld s4 48 a1; ld s5 56 a1;
   ld s6 64 a1; ld s7 72 a1; ld s8 80 a1; ld s9 88 a1; ld s10 96 a1; ld s11 104 a1;
   jr ra].

Definition uservec : list instr :=
  [csrw sscratch a0; li a0 TRAPFRAME;
   sd ra 40 a0; sd sp 48 a0; sd gp 56 a0; sd tp 64 a0; sd t0 72 a0; sd t1 80 a0; sd t2 88 a0; sd s0 96 a0;
   sd s1 104 a0; sd a1 120 a0; sd a2 128 a0; sd a3 136 a0; sd a4 144 a0; sd a5 152 a0; sd a6 160 a0;
   sd a7 168 a0; sd s2 176 a0; sd s3 184 a0; sd s4 192 a0; sd s5 200 a0; sd s6 208 a0; sd s7 216 a0;
   sd s8 224 a0; sd s9 232 a0; sd s10 240 a0; sd s11 248 a0; sd t3 256 a0; sd t4 264 a0; sd t5 272 a0;
   sd t6 280 a0;
   csrr t0 sscratch; sd t0 112 a0;
   ld sp 8 a0; ld tp 32 a0; ld t0 16 a0; ld t1 0 a0;
   sfence_vma; csrw satp t1; sfence_vma;
   jr t0].

Definition userret : list instr :=
  [sfence_vma; csrw satp a0; sfence_vma;
   li a0 TRAPFRAME;
   ld ra 40 a0; ld sp 48 a0; ld gp 56 a0; ld tp 64 a0; ld t0 72 a0; ld t1 80 a0; ld t2 88 a0; ld s0 96 a0;
   ld s1 104 a0; ld a1 120 a0; ld a2 128 a0; ld a3 136 a0; ld a4 144 a0; ld a5 152 a0; ld a6 160 a0;
   ld a7 168 a0; ld s2 176 a0; ld s3 184 a0; ld s4 192 a0; ld s5 200 a0; ld s6 208 a0; ld s7 216 a0;
   ld s8 224 a0; ld s9 232 a0; ld s10 240 a0; ld s11 248 a0; ld t3 256 a0; ld t4 264 a0; ld t5 272 a0;
   ld t6 280 a0;
   ld a0 112 a0;
   sret].

Definition kernelvec : list instr :=
  [addi sp sp (-256);
   sd ra 0 sp; sd sp 8 sp; sd gp 16 sp; sd tp 24 sp; sd t0 32 sp; sd t1 40 sp; sd t2 48 sp; sd a0 72 sp;
   sd a1 80 sp; sd a2 88 sp; sd a3 96 sp; sd a4 104 sp; sd a5 112 sp; sd a6 120 sp; sd a7 128 sp;
   sd t3 216 sp; sd t4 224 sp; sd t5 232 sp; sd t6 240 sp;
   call;
   ld ra 0 sp; ld sp 8 sp; ld gp 16 sp; ld t0 32 sp; ld t1 40 sp; ld t2 48 sp; ld a0 72 sp;
   ld a1 80 sp; ld a2 88 sp; ld a3 96 sp; ld a4 104 sp; ld a5 112 sp; ld a6 120 sp; ld a7 128 sp;
   ld t3 216 sp; ld t4 224 sp; ld t5 232 sp; ld t6 240 sp;
   addi sp sp 256;
   sret].

(** ** Translation through a page table *)

(** What the machine needs of a page table of Vm.v. *)
Record hw_table (M : memory) (root : Z) (T : ptree) : Prop := {
  ht_root : T NRoot = Some root;
  ht_page : forall n p, T n = Some p -> 0 <= p < 2 ^ 56 /\ p mod PGSIZE = 0;
  ht_parent : forall i j p, T (N0 i j) = Some p -> exists q, T (N1 i) = Some q;
  ht_slot : forall n p j, inner n -> T n = Some p -> 0 <= j < 512 ->
    match T (child n j) with
    | Some q => ld64 M (p + 8 * j) = Z.lor (PA2PTE q) PTE_V
    | None => bits (ld64 M (p + 8 * j)) PTE_V = false
    end;
}.

Lemma hw_table_wf end_ `{PA : !PageAllocator end_} s root T :
  KERNBASE <= end_ <= PHYSTOP -> pt_wf end_ s root T -> hw_table (mem s) root T.
Proof.
  intros Hend [H1 _ _ H4 H5 H6]. constructor; [done| |done..]. intros n p Hn.
  destruct (H4 n p Hn) as [(? & ? & ? & ?)%(bad_pa_range end_ Hend) _].
  assert (PHYSTOP < 2 ^ 56) by done. lia.
Qed.

Lemma hw_table_frame M M' root T :
  hw_table M root T -> (forall x, pt_mem T x -> M' x = M x) -> hw_table M' root T.
Proof.
  intros [H1 H2 H2' H3] HM. constructor; [done..|]. intros n p j Hi Hn Hj.
  rewrite (ld64_ext M' M); [by apply H3|]. intros x Hx. apply HM. exists n, p.
  split; [done|]. by eapply slot_page.
Qed.

(** What an entry of the lowest level grants. *)
Definition granted (pte acc : Z) : bool :=
  bits pte PTE_V && (bits pte PTE_R || bits pte PTE_X) && negb (bits pte PTE_U) && bits pte acc.
Definition lookup_table (M : memory) (T : ptree) (acc va : Z) : option Z :=
  match T (leaf va) with
  | Some p => let pte := ld64 M (p + 8 * PX 0 va) in
              if granted pte acc then Some (PTE2PA pte + va mod PGSIZE) else None
  | None => None
  end.

Lemma table_pte_bits q b :
  0 <= q < 2 ^ 56 -> q mod PGSIZE = 0 -> 0 <= b < 10 ->
  bits (Z.lor (PA2PTE q) PTE_V) (Z.shiftl 1 b) = (b =? 0).
Proof.
  intros Hq Hal Hb. unfold bits. rewrite PA2PTE_eq by done. rewrite Z.land_comm, Z.land_lor_distr_r.
  assert (E : Z.land (Z.shiftl 1 b) (q / 2 ^ 12 * 2 ^ 10) = 0).
  { apply Z.bits_inj_0. intros i. rewrite Z.land_spec, Z.shiftl_1_l.
    destruct (Z.ltb_spec i 0); [by rewrite !Z.testbit_neg_r|]. rewrite Z.pow2_bits_eqb by lia.
    destruct (Z.eqb_spec b i) as [<-|]; [|done]. simpl. apply Z.mul_pow2_bits_low. lia. }
  rewrite E, Z.lor_0_l. change PTE_V with (2 ^ 0). rewrite Z.shiftl_1_l.
  destruct (Z.eqb_spec b 0) as [->|Hn]; [done|]. apply negb_false_iff, Z.eqb_eq, Z.bits_inj_0. intros i.
  rewrite Z.land_spec. destruct (Z.ltb_spec i 0); [by rewrite !Z.testbit_neg_r|].
  rewrite !Z.pow2_bits_eqb by lia. destruct (Z.eqb_spec b i), (Z.eqb_spec 0 i); try done. lia.
Qed.

Lemma hw_walk_inner M root T n p acc va l :
  hw_table M root T -> inner n -> T n = Some p ->
  hw_walk M (Datatypes.S l) p acc va =
  match T (child n (PX (Z.of_nat (Datatypes.S l)) va)) with Some q => hw_walk M l q acc va | None => None end.
Proof.
  intros Ht Hi Hn. pose proof (ht_slot _ _ _ Ht n p (PX (Z.of_nat (Datatypes.S l)) va) Hi Hn) as Hs.
  specialize (Hs ltac:(apply PX_range; lia)). cbn [hw_walk].
  destruct (T (child n _)) as [q|] eqn:E; [|by rewrite Hs]. rewrite Hs.
  destruct (ht_page _ _ _ Ht _ _ E) as [Hq Hal]. destruct (table_pte q Hq Hal) as (H1 & H2 & _).
  rewrite H1, H2. unfold PTE_R, PTE_X, PTE_W. by rewrite !table_pte_bits by done.
Qed.

Lemma hw_walk_0 M p acc va :
  hw_walk M 0 p acc va =
  let pte := ld64 M (p + 8 * PX 0 va) in if granted pte acc then Some (PTE2PA pte + va mod PGSIZE) else None.
Proof.
  cbn [hw_walk]. change (Z.of_nat 0) with 0. unfold granted.
  set (pte := ld64 _ _). destruct (bits pte PTE_V); [|done].
  destruct (bits pte PTE_R || bits pte PTE_X); [|done]. simpl. by destruct (bits pte PTE_U), (bits pte acc).
Qed.

Lemma make_satp_eq root : 0 <= root < 2 ^ 56 -> MAKE_SATP root = 8 * 2 ^ 60 + root / PGSIZE.
Proof.
  intros Hr. unfold MAKE_SATP. rewrite (Z.shiftr_div_pow2 root 12) by lia. change SATP_SV39 with (2 ^ 63).
  assert (Hd : 0 <= root / 2 ^ 12 < 2 ^ 60) by lia. by rewrite (lor_add_low _ _ 60) by done.
Qed.
Lemma make_satp root :
  0 <= root < 2 ^ 56 -> root mod PGSIZE = 0 ->
  Z.shiftr (MAKE_SATP root) 60 = 8 /\ Z.shiftl (Z.land (MAKE_SATP root) (2 ^ 44 - 1)) 12 = root.
Proof.
  intros Hr Hal. rewrite make_satp_eq by done. split.
  - rewrite Z.shiftr_div_pow2 by lia. unfold PGSIZE in *. lia.
  - change (2 ^ 44 - 1) with (Z.ones 44). rewrite Z.land_ones, Z.shiftl_mul_pow2 by lia. unfold PGSIZE in *. lia.
Qed.

(** The machine translates as the tree of the page table says. *)
Lemma translate_table M root T acc va :
  hw_table M root T -> 0 <= va < MAXVA -> translate M (MAKE_SATP root) acc va = lookup_table M T acc va.
Proof.
  intros Ht Hva. unfold translate. destruct (ht_page _ _ _ Ht _ _ (ht_root _ _ _ Ht)) as [Hr Hal].
  destruct (make_satp root Hr Hal) as [-> ->]. simpl negb. cbv iota.
  rewrite (proj2 (Z.leb_le 0 va)), (proj2 (Z.ltb_lt va MAXVA)) by lia. simpl andb. cbv iota.
  rewrite (hw_walk_inner M root T NRoot) by (done || apply Ht). simpl child. unfold lookup_table, leaf.
  change (Z.of_nat 2) with 2.
  destruct (T (N1 (PX 2 va))) as [q|] eqn:E1.
  - rewrite (hw_walk_inner M root T (N1 (PX 2 va))) by done. change (Z.of_nat 1) with 1. simpl child.
    destruct (T (N0 _ _)) as [q'|]; [apply hw_walk_0|done].
  - destruct (T (N0 _ _)) as [q'|] eqn:E2; [|done]. apply (ht_parent _ _ _ Ht) in E2 as [q E2]. congruence.
Qed.

(** ** Blocks of stores and loads *)

Definition saves (base : reg) (l : list (reg * Z)) : list instr := map (fun x => sd (fst x) (snd x) base) l.
Definition loads (base : reg) (l : list (reg * Z)) : list instr := map (fun x => ld (fst x) (snd x) base) l.

(** What they do to memory at [P] and to the registers. *)
Definition saved (P : Z) (R : reg -> Z) (l : list (reg * Z)) (M : memory) : memory :=
  fold_left (fun M x => st64 M (P + snd x) (R (fst x))) l M.
Definition loaded (P : Z) (M : memory) (l : list (reg * Z)) (R : reg -> Z) : reg -> Z :=
  fold_left (fun R x => upd R (fst x) (ld64 M (P + snd x))) l R.

(** Slots of [W] bytes, none used twice. *)
Definition slots (W : Z) (l : list (reg * Z)) : Prop :=
  Forall (fun x => 0 <= snd x /\ snd x + 8 <= W /\ snd x mod 8 = 0) l /\ NoDup (map snd l) /\ NoDup (map fst l).

Lemma slots_cons W x l : slots W (x :: l) ->
  (0 <= snd x /\ snd x + 8 <= W /\ snd x mod 8 = 0) /\ slots W l /\
  (snd x ∉ map snd l) /\ (fst x ∉ map fst l).
Proof.
  intros (H1 & H2 & H3). apply Forall_cons in H1 as [? ?]. simpl in H2, H3.
  apply NoDup_cons in H2 as [? ?]. apply NoDup_cons in H3 as [? ?]. unfold slots. tauto.
Qed.

Lemma slots_range W l r o : slots W l -> (r, o) ∈ l -> 0 <= o /\ o + 8 <= W /\ o mod 8 = 0.
Proof. intros [H _] Ho. rewrite Forall_forall in H. exact (H _ Ho). Qed.

Lemma saved_other P R W l M a : slots W l -> a < P \/ P + W <= a -> saved P R l M a = M a.
Proof.
  intros Hs Ha. revert M Hs. induction l as [|x l IH]; intros M Hs; [done|].
  apply slots_cons in Hs as ((? & ? & ?) & Hs & _). simpl. rewrite IH by done. apply st64_other. lia.
Qed.

Lemma saved_ext P R R' l M : (forall r, r ∈ map fst l -> R r = R' r) -> saved P R l M = saved P R' l M.
Proof.
  revert M. induction l as [|x l IH]; intros M H; [done|]. simpl. rewrite (H (fst x)) by by left.
  apply IH. intros r Hr. apply H. by right.
Qed.

Lemma saved_low P R l M d a : Forall (fun x => d <= snd x) l -> a < P + d -> saved P R l M a = M a.
Proof.
  intros Hl Ha. revert M. induction Hl as [|x l Hx _ IH]; intros M; [done|]. simpl. rewrite IH. apply st64_other. lia.
Qed.

Lemma saved_word_other P R W l M o : slots W l -> o mod 8 = 0 -> o ∉ map snd l ->
  ld64 (saved P R l M) (P + o) = ld64 M (P + o).
Proof.
  intros Hs Ho. revert M Hs. induction l as [|x l IH]; intros M Hs Hn; [done|].
  apply slots_cons in Hs as ((? & ? & ?) & Hs & _). simpl in *. apply not_elem_of_cons in Hn as [Hn Hn'].
  rewrite IH by done. apply ld_st64_other. lia.
Qed.

Lemma saved_word P R W l M r o : slots W l -> (r, o) ∈ l ->
  ld64 (saved P R l M) (P + o) = u64 (R r).
Proof.
  revert M. induction l as [|x l IH]; intros M Hs Hr; [by apply elem_of_nil in Hr|].
  apply slots_cons in Hs as ((? & ? & ?) & Hs & Hn & _). simpl.
  apply elem_of_cons in Hr as [<-|Hr]; [|by apply IH].
  rewrite (saved_word_other P R W) by done. apply ld_st64_same.
Qed.

Lemma loaded_other P M l R r : r ∉ map fst l -> loaded P M l R r = R r.
Proof.
  revert R. induction l as [|x l IH]; intros R Hn; [done|]. simpl in *. apply not_elem_of_cons in Hn as [Hn Hn'].
  unfold loaded in *. simpl. rewrite IH by done. by apply upd_other.
Qed.

Lemma loaded_word P M W l R r o : slots W l -> (r, o) ∈ l -> loaded P M l R r = ld64 M (P + o).
Proof.
  revert R. induction l as [|x l IH]; intros R Hs Hr; [by apply elem_of_nil in Hr|].
  apply slots_cons in Hs as (_ & Hs & _ & Hn). unfold loaded in *. simpl.
  apply elem_of_cons in Hr as [<-|Hr]; [|by apply IH]. simpl in *.
  fold (loaded P M l (upd R r (ld64 M (P + o)))). rewrite loaded_other by done. apply upd_same.
Qed.

Lemma access_one m v acc a : tlb m = [v] -> access m acc a = translate (mmem m) v acc a.
Proof. intros E. unfold access. rewrite E. reflexivity. Qed.
Lemma access_two m v v' acc a r :
  tlb m = [v; v'] -> translate (mmem m) v acc a = Some r -> translate (mmem m) v' acc a = Some r -> access m acc a = Some r.
Proof.
  intros E E1 E2. unfold access. rewrite E, E1. cbn [forallb]. by rewrite E2, bool_decide_true.
Qed.

Section blocks.
Context (va pa : Z) (callee : hart -> option hart).
Abbreviation run := (run va pa callee).

Lemma run_step i rest m m' :
  access m PTE_X va = Some pa -> exec_instr i m = Some m' -> run (i :: rest) m = run rest m'.
Proof. intros Hx E. simpl. rewrite bool_decide_true by done. destruct i; try done; by rewrite E. Qed.

Lemma run_jr r rest m : access m PTE_X va = Some pa -> run (jr r :: rest) m = Some (Jump (regs m r), m).
Proof. intros Hx. simpl. by rewrite bool_decide_true. Qed.
Lemma run_sret rest m : access m PTE_X va = Some pa -> run (sret :: rest) m = Some (Sret, m).
Proof. intros Hx. simpl. by rewrite bool_decide_true. Qed.
Lemma run_call rest m m' : access m PTE_X va = Some pa -> callee m = Some m' -> run (call :: rest) m = run rest m'.
Proof. intros Hx E. simpl. rewrite bool_decide_true by done. by rewrite E. Qed.

(** The machine runs the code, and reaches the [W] bytes at [B] in the memory
    at [P], whatever is stored there. *)
Definition window (m : hart) (B P W : Z) : Prop :=
  B mod 8 = 0 /\ 0 <= B /\ B + W <= 2 ^ 64 /\
  forall M, (forall x, x < P \/ P + W <= x -> M x = mmem m x) ->
    access (set_mmem M m) PTE_X va = Some pa /\
    forall o, 0 <= o < W -> access (set_mmem M m) PTE_W (B + o) = Some (P + o) /\
                            access (set_mmem M m) PTE_R (B + o) = Some (P + o).

Lemma set_mmem_same m : set_mmem (mmem m) m = m.
Proof. by destruct m. Qed.
Lemma set_mmem_twice M M' m : set_mmem M (set_mmem M' m) = set_mmem M m.
Proof. done. Qed.

Lemma window_store m B P W M :
  window m B P W -> (forall x, x < P \/ P + W <= x -> M x = mmem m x) -> window (set_mmem M m) B P W.
Proof.
  intros (H1 & H2 & H3 & H4) HM. split_and!; try done. intros M' HM'. rewrite set_mmem_twice. apply H4.
  intros x Hx. rewrite HM' by done. by apply HM.
Qed.
Lemma window_access m B P W : window m B P W ->
  access m PTE_X va = Some pa /\ forall o, 0 <= o < W -> access m PTE_W (B + o) = Some (P + o) /\ access m PTE_R (B + o) = Some (P + o).
Proof. intros (_ & _ & _ & H). rewrite <- (set_mmem_same m). by apply H. Qed.
Lemma window_regs m B P W R : window m B P W -> window (Hart R (csrs m) (tlb m) (mmem m)) B P W.
Proof. done. Qed.

Lemma run_saves base P W l rest m :
  window m (regs m base) P W -> slots W l ->
  run (saves base l ++ rest) m = run rest (set_mmem (saved P (regs m) l (mmem m)) m).
Proof.
  revert m. induction l as [|[r o] l IH]; intros m Hw Hs; [cbn; by rewrite set_mmem_same|].
  apply slots_cons in Hs as ((Ho1 & Ho2 & Ho3) & Hs & _). simpl in Ho1, Ho2, Ho3.
  pose proof Hw as (Hb & Hb0 & HbW & _). destruct (window_access _ _ _ _ Hw) as [Hx Ha].
  assert (HM : forall x, x < P \/ P + W <= x -> st64 (mmem m) (P + o) (regs m r) x = mmem m x)
    by (intros x Hx'; apply st64_other; lia).
  change (saves base ((r, o) :: l) ++ rest) with (sd r o base :: (saves base l ++ rest)).
  rewrite (run_step _ _ m (set_mmem (st64 (mmem m) (P + o) (regs m r)) m)); [|done|].
  - rewrite IH; [done|by apply window_store|done].
  - cbn [exec_instr]. rewrite u64_id by lia.
    rewrite (proj2 (Z.eqb_eq _ 0)) by lia. simpl negb. cbv iota. by rewrite (proj1 (Ha o ltac:(lia))).
Qed.

Lemma run_loads base P W l rest m :
  window m (regs m base) P W -> slots W l -> base ∉ map fst l ->
  run (loads base l ++ rest) m = run rest (Hart (loaded P (mmem m) l (regs m)) (csrs m) (tlb m) (mmem m)).
Proof.
  revert m. induction l as [|[r o] l IH]; intros m Hw Hs Hn; [by destruct m|].
  apply slots_cons in Hs as ((Ho1 & Ho2 & Ho3) & Hs & _). simpl in Ho1, Ho2, Ho3.
  pose proof Hw as (Hb & Hb0 & HbW & _). destruct (window_access _ _ _ _ Hw) as [Hx Ha].
  simpl in Hn. apply not_elem_of_cons in Hn as [Hn Hn'].
  change (loads base ((r, o) :: l) ++ rest) with (ld r o base :: (loads base l ++ rest)).
  rewrite (run_step _ _ m (set_reg r (ld64 (mmem m) (P + o)) m)); [|done|].
  - rewrite IH; [done| |done..]. simpl. by rewrite upd_other by done.
  - cbn [exec_instr]. rewrite u64_id by lia.
    rewrite (proj2 (Z.eqb_eq _ 0)) by lia. simpl negb. cbv iota. by rewrite (proj2 (Ha o ltac:(lia))).
Qed.
End blocks.

Lemma window_smaller va pa m B P W W' : window va pa m B P W -> W' <= W -> window va pa m B P W'.
Proof.
  intros (H1 & H2 & H3 & H4) HW. split_and!; try done; [lia|]. intros M HM.
  destruct (H4 M) as [Hx Ha]; [intros x Hx; apply HM; lia|]. split; [done|]. intros o Ho. apply Ha. lia.
Qed.

(** Kernel memory from [lo] to [hi], which the kernel's page table maps to
    itself. *)
Definition reaches (va pa : Z) (m : hart) (lo hi : Z) : Prop :=
  0 <= lo /\ hi <= 2 ^ 64 /\
  forall M, (forall x, x < lo \/ hi <= x -> M x = mmem m x) ->
    access (set_mmem M m) PTE_X va = Some pa /\
    forall a, lo <= a < hi -> access (set_mmem M m) PTE_W a = Some a /\ access (set_mmem M m) PTE_R a = Some a.

Lemma reaches_window va pa m lo hi a W :
  reaches va pa m lo hi -> lo <= a -> a + W <= hi -> a mod 8 = 0 -> window va pa m a a W.
Proof.
  intros (H0 & H1 & H2) Ha1 Ha2 Ha3. split_and!; [done|lia..|]. intros M HM.
  destruct (H2 M ltac:(intros x Hx; apply HM; lia)) as [Hx Hacc]. split; [done|]. intros o Ho. apply Hacc. lia.
Qed.
Lemma reaches_store va pa m lo hi M R :
  reaches va pa m lo hi -> (forall x, x < lo \/ hi <= x -> M x = mmem m x) ->
  reaches va pa (Hart R (csrs m) (tlb m) M) lo hi.
Proof.
  intros (H0 & H1 & H2) HM. split_and!; [done..|]. intros M' HM'.
  apply (H2 M'). intros x Hx. rewrite (HM' x Hx). simpl. by apply HM.
Qed.

Lemma reaches_fetch va pa m lo hi : reaches va pa m lo hi -> access m PTE_X va = Some pa.
Proof.
  intros (_ & _ & H). rewrite <- (set_mmem_same m). exact (proj1 (H (mmem m) (fun x _ => eq_refl))).
Qed.

Ltac slots := split_and!; [repeat (apply List.Forall_cons; [vm_compute; intuition congruence|]); apply List.Forall_nil|
  apply (bool_decide_unpack _); vm_compute; exact I..].

(** ** swtch *)

(** struct context of proc.h. *)
Definition context_slots : list (reg * Z) :=
  [(ra, 0); (sp, 8); (s0, 16); (s1, 24); (s2, 32); (s3, 40); (s4, 48); (s5, 56); (s6, 64); (s7, 72);
   (s8, 80); (s9, 88); (s10, 96); (s11, 104)].
Definition context_size : Z := 112.
Lemma context_slots_ok : slots context_size context_slots.
Proof. slots. Qed.

Section switch.
Context (va pa : Z) (callee : hart -> option hart) (lo hi : Z).

(** The machine at a call of [swtch(old, new)]: two contexts in kernel memory
    that do not overlap. *)
Definition switching (m : hart) (old new : Z) : Prop :=
  regs m a0 = old /\ regs m a1 = new /\ reaches va pa m lo hi /\
  lo <= old /\ old + context_size <= hi /\ lo <= new /\ new + context_size <= hi /\
  old mod 8 = 0 /\ new mod 8 = 0 /\ (old + context_size <= new \/ new + context_size <= old).

Lemma swtch_spec (m : hart) old new :
  switching m old new ->
  exists m', run va pa callee swtch m = Some (Jump (ld64 (mmem m) new), m') /\
    m' = Hart (loaded new (saved old (regs m) context_slots (mmem m)) context_slots (regs m)) (csrs m) (tlb m)
           (saved old (regs m) context_slots (mmem m)).
Proof.
  intros (E0 & E1 & Hr & H1 & H2 & H3 & H4 & H5 & H6 & H7). eexists. split; [|reflexivity].
  change swtch with (saves a0 context_slots ++ loads a1 context_slots ++ [jr ra]).
  set (M1 := saved old (regs m) context_slots (mmem m)).
  assert (HM1 : forall x, x < lo \/ hi <= x -> M1 x = mmem m x).
  { intros x Hx. apply (saved_other _ _ context_size); [apply context_slots_ok|lia]. }
  rewrite (run_saves va pa callee a0 old context_size); [|rewrite E0; by eapply reaches_window|apply context_slots_ok]. fold M1.
  pose proof (reaches_store va pa m lo hi M1 (regs m) Hr HM1) as Hr1.
  rewrite (run_loads va pa callee a1 new context_size);
    [|simpl; rewrite E1; by apply (reaches_window va pa _ lo hi)|apply context_slots_ok|by apply (bool_decide_unpack _)].
  pose proof (reaches_store va pa m lo hi M1 (loaded new M1 context_slots (regs m)) Hr HM1) as (_ & _ & Hr2).
  destruct (Hr2 M1 ltac:(done)) as [Hx _]. rewrite run_jr by exact Hx. f_equal. f_equal. f_equal. cbn [regs].
  rewrite (loaded_word new M1 context_size _ _ ra 0); [|apply context_slots_ok|by left].
  rewrite Z.add_0_r. apply ld64_ext. intros x Hx'. apply (saved_other _ _ context_size); [apply context_slots_ok|].
  unfold context_size in *. lia.
Qed.
(** C33: a context switch keeps the thread that gives up the CPU intact.
    [swtch] continues the other thread with the return address, stack pointer
    and saved registers of its context and changes no other register and no
    memory but the old context; and when some thread later switches back to
    that context, the first thread goes on after its call of [swtch] with the
    stack pointer and saved registers it had. *)
Theorem context_switch (m : hart) (old new : Z) :
  switching m old new -> (forall r, 0 <= regs m r < 2 ^ 64) ->
  exists m1, run va pa callee swtch m = Some (Jump (ld64 (mmem m) new), m1) /\
    (forall r o, (r, o) ∈ context_slots -> regs m1 r = ld64 (mmem m) (new + o)) /\
    (forall r, r ∉ map fst context_slots -> regs m1 r = regs m r) /\
    (forall x, x < old \/ old + context_size <= x -> mmem m1 x = mmem m x) /\
    csrs m1 = csrs m /\ tlb m1 = tlb m /\
    forall m2 other, switching m2 other old ->
      (forall x, old <= x < old + context_size -> mmem m2 x = mmem m1 x) ->
      exists m3, run va pa callee swtch m2 = Some (Jump (regs m ra), m3) /\
        forall r, r ∈ map fst context_slots -> regs m3 r = regs m r.
Proof.
  intros Hm Hreg. destruct (swtch_spec m old new Hm) as (m1 & E1 & ->). eexists. split; [exact E1|]. clear E1.
  pose proof context_slots_ok as Hok. destruct Hm as (_ & _ & _ & _ & _ & _ & _ & _ & _ & Hdis).
  pose proof (fun r o => slots_range context_size context_slots r o Hok) as Hslot.
  cbn [regs mmem]. split_and!.
  - intros r o Ho. rewrite (loaded_word new _ context_size _ _ r o) by done. apply ld64_ext. intros x Hx.
    apply (saved_other _ _ context_size); [done|]. specialize (Hslot r o Ho). lia.
  - intros r Hr. by apply loaded_other.
  - intros x Hx. by apply (saved_other _ _ context_size).
  - done.
  - done.
  - intros m2 other Hm2 Hsame. destruct (swtch_spec m2 other old Hm2) as (m3 & E3 & ->).
    destruct Hm2 as (_ & _ & _ & _ & _ & _ & _ & _ & _ & Hdis2).
    assert (Hword : forall r o, (r, o) ∈ context_slots -> ld64 (mmem m2) (old + o) = regs m r).
    { intros r o Ho. rewrite (ld64_ext _ (saved old (regs m) context_slots (mmem m)));
        [|intros x Hx; apply Hsame; specialize (Hslot r o Ho); lia].
      rewrite (saved_word _ _ context_size _ _ r) by done. by apply u64_id. }
    eexists. rewrite E3. split.
    + f_equal. f_equal. f_equal. rewrite <- (Z.add_0_r old). apply Hword. by left.
    + intros r Hr. apply list_elem_of_fmap in Hr as ([r' o] & -> & Ho). cbn [regs fst].
      rewrite (loaded_word old _ context_size _ _ r' o) by done. rewrite <- (Hword r' o Ho). apply ld64_ext.
      intros x Hx. apply (saved_other _ _ context_size); [done|]. specialize (Hslot r' o Ho). lia.
Qed.
End switch.

(** ** kernelvec *)

Definition pushed : list (reg * Z) :=
  [(ra, 0); (sp, 8); (gp, 16); (tp, 24); (t0, 32); (t1, 40); (t2, 48); (a0, 72); (a1, 80); (a2, 88);
   (a3, 96); (a4, 104); (a5, 112); (a6, 120); (a7, 128); (t3, 216); (t4, 224); (t5, 232); (t6, 240)].
Definition popped : list (reg * Z) :=
  [(gp, 16); (t0, 32); (t1, 40); (t2, 48); (a0, 72); (a1, 80); (a2, 88);
   (a3, 96); (a4, 104); (a5, 112); (a6, 120); (a7, 128); (t3, 216); (t4, 224); (t5, 232); (t6, 240)].
Lemma pushed_ok : slots 256 pushed.
Proof. slots. Qed.
Lemma popped_ok : slots 256 popped.
Proof. slots. Qed.

Definition callee_saved : list reg := [s0; s1; s2; s3; s4; s5; s6; s7; s8; s9; s10; s11].

Section kvec.
Context (va pa : Z) (callee : hart -> option hart) (lo hi : Z).

(** The calling convention of the C function that the code calls: it returns,
    with the stack pointer and the saved registers as they were, leaves the
    stack frame of its caller alone, and the kernel's page table stays. *)
Definition obeys_convention (m m' : hart) : Prop :=
  regs m' sp = regs m sp /\ (forall r, r ∈ callee_saved -> regs m' r = regs m r) /\
  (forall x, regs m sp <= x < regs m sp + 256 -> mmem m' x = mmem m x) /\ reaches va pa m' lo hi.

Lemma restored r : r <> tp -> r <> sp -> r ∈ callee_saved \/ (exists o, (r, o) ∈ (ra, 0) :: popped /\ (r, o) ∈ pushed).
Proof.
  intros H1 H2.
  assert (E : bool_decide (r ∈ callee_saved) ||
    existsb (fun x => bool_decide (fst x = r) && bool_decide (x ∈ pushed)) ((ra, 0) :: popped) = true)
    by (destruct r; done || by vm_compute).
  apply orb_true_iff in E as [E|E]; [left; by apply bool_decide_eq_true in E|right].
  apply existsb_exists in E as ([r' o] & Hin & [E1 E2]%andb_true_iff).
  apply bool_decide_eq_true in E1, E2. simpl in E1. subst r'. exists o. split; [|done]. by apply list_elem_of_In.
Qed.

(** The second half of [kernelvec], from a state in which the frame at [S]
    holds the registers [R]. *)
Lemma kernelvec_pops (m : hart) (S : Z) (R : reg -> Z) :
  reaches va pa m lo hi -> lo <= S -> S + 256 <= hi -> S mod 8 = 0 -> S + 256 < 2 ^ 64 -> regs m sp = S -> R sp = S ->
  (forall r o, (r, o) ∈ pushed -> ld64 (mmem m) (S + o) = R r) -> (forall r, r ∈ callee_saved -> regs m r = R r) ->
  exists m', run va pa callee (loads sp [(ra, 0)] ++ ld sp 8 sp :: (loads sp popped ++ [addi sp sp 256; sret])) m =
    Some (Sret, m') /\ regs m' sp = S + 256 /\ forall r, r <> tp -> r <> sp -> regs m' r = R r.
Proof.
  intros Hr H1 H2 H3 H4 Hsp HRsp Hword Hcs. pose proof popped_ok as Hpo.
  pose proof (proj1 Hr) as Hlo. assert (Hw : window va pa m S S 256) by by eapply reaches_window.
  pose proof (reaches_fetch _ _ _ _ _ Hr) as Hx.
  rewrite (run_loads va pa callee sp S 256 [(ra, 0)]); [|by rewrite Hsp|slots|by apply (bool_decide_unpack _)].
  set (R3 := loaded S (mmem m) [(ra, 0)] (regs m)).
  assert (E3 : R3 sp = S) by by (unfold R3; rewrite loaded_other by by apply (bool_decide_unpack _)).
  rewrite (run_step _ _ _ _ _ _ (Hart (upd R3 sp S) (csrs m) (tlb m) (mmem m))); [|exact Hx|].
  2: { cbn [exec_instr]. cbn [regs]. rewrite E3, u64_id, (proj2 (Z.eqb_eq _ 0)) by lia. simpl negb. cbv iota.
       destruct (window_access va pa _ _ _ _ Hw) as [_ Ha]. destruct (Ha 8 ltac:(lia)) as [_ Ha8].
       change (access (Hart R3 (csrs m) (tlb m) (mmem m))) with (access m). rewrite Ha8. cbn [mmem].
       rewrite (Hword sp 8) by (apply (bool_decide_unpack _); by vm_compute). by rewrite HRsp. }
  rewrite (run_loads va pa callee sp S 256 popped); [|exact Hw|done|by apply (bool_decide_unpack _)]. cbn [regs csrs tlb mmem].
  set (R4 := loaded S (mmem m) popped (upd R3 sp S)).
  assert (E4 : R4 sp = S) by by (unfold R4; rewrite loaded_other by by apply (bool_decide_unpack _)).
  rewrite (run_step _ _ _ _ _ _ (Hart (upd R4 sp (S + 256)) (csrs m) (tlb m) (mmem m))); [|exact Hx|].
  2: { cbn [exec_instr regs]. by rewrite E4, u64_id by lia. }
  rewrite run_sret by exact Hx. eexists. split; [reflexivity|]. cbn [regs]. split; [apply upd_same|]. intros r Htp Hne.
  rewrite upd_other by done. unfold R4. destruct (restored r Htp Hne) as [Hsave|(o & [[= -> ->]|Hin]%elem_of_cons & Hin')].
  - assert (Hn : (r ∉ map fst popped) /\ r <> ra).
    { apply list_elem_of_In in Hsave. simpl in Hsave.
      repeat (destruct Hsave as [<-|Hsave]; [split; [by apply (bool_decide_unpack _)|done]|]). done. }
    destruct Hn as [Hn1 Hn2]. rewrite loaded_other, upd_other by done. unfold R3.
    rewrite loaded_other by (simpl; by intros [?|?%elem_of_nil]%elem_of_cons). by apply Hcs.
  - rewrite loaded_other, upd_other by (done || by apply (bool_decide_unpack _)). unfold R3.
    rewrite (loaded_word S _ 256 _ _ ra 0); [by apply Hword|slots|by left].
  - rewrite (loaded_word S _ 256 _ _ r o) by done. by apply Hword.
Qed.

(** An interrupt in the kernel is transparent to the code it interrupts: all
    registers but tp, which names the CPU, are restored. *)
Theorem kernelvec_correct (m : hart) :
  let S := regs m sp - 256 in
  reaches va pa m lo hi -> lo <= S -> S + 256 <= hi -> S mod 8 = 0 -> (forall r, 0 <= regs m r < 2 ^ 64) ->
  (forall m1, reaches va pa m1 lo hi -> regs m1 sp = S -> exists m2, callee m1 = Some m2 /\ obeys_convention m1 m2) ->
  exists m', run va pa callee kernelvec m = Some (Sret, m') /\ forall r, r <> tp -> regs m' r = regs m r.
Proof.
  intros S Hr H1 H2 H3 Hreg Hc. pose proof pushed_ok as Hpu. pose proof Hr as (Hlo & Hhi & _).
  pose proof (Hreg sp) as Hsp64. assert (S + 256 = regs m sp) as HS by (unfold S; lia).
  change kernelvec with (addi sp sp (-256) :: (saves sp pushed ++ call :: loads sp [(ra, 0)] ++ ld sp 8 sp ::
    (loads sp popped ++ [addi sp sp 256; sret]))).
  rewrite (run_step _ _ _ _ _ m (set_reg sp S m) (reaches_fetch _ _ _ _ _ Hr)).
  2: { cbn [exec_instr]. unfold S. by rewrite u64_id by (fold S; lia). }
  set (m0 := set_reg sp S m). assert (Hr0 : reaches va pa m0 lo hi) by by apply reaches_store.
  rewrite (run_saves va pa callee sp S 256); [|by apply (reaches_window va pa m0 lo hi)|done].
  set (M1 := saved S (regs m0) pushed (mmem m0)). set (m1 := set_mmem M1 m0).
  assert (HM1 : forall x, x < lo \/ hi <= x -> M1 x = mmem m0 x) by (intros; apply (saved_other _ _ 256); [done|lia]).
  pose proof (reaches_store va pa m0 lo hi M1 (regs m0) Hr0 HM1) as Hr1.
  destruct (Hc m1 Hr1 eq_refl) as (m2 & E2 & Hsp & Hcs & Hst & Hr2). change (regs m1 sp) with S in Hsp, Hst.
  rewrite (run_call va pa callee _ m1 m2 (reaches_fetch _ _ _ _ _ Hr1) E2).
  destruct (kernelvec_pops m2 S (regs m0)) as (m' & E & Es & Er); try done; [lia| |].
  - intros r o Ho. pose proof (slots_range 256 pushed r o Hpu Ho).
    rewrite (ld64_ext _ M1) by (intros x ?; apply Hst; lia). unfold M1. rewrite (saved_word _ _ 256 _ _ r) by done.
    apply u64_id. unfold m0. simpl. unfold upd. case_decide; [lia|apply Hreg].
  - exists m'. split; [exact E|]. intros r Htp. destruct (decide (r = sp)) as [->|Hne]; [lia|].
    rewrite Er by done. unfold m0. simpl. by apply upd_other.
Qed.
End kvec.

(** ** trampoline.S *)

(** Where the registers are in struct trapframe of proc.h. *)
Definition frame_slots : list (reg * Z) :=
  [(ra, 40); (sp, 48); (gp, 56); (tp, 64); (t0, 72); (t1, 80); (t2, 88); (s0, 96); (s1, 104); (a1, 120);
   (a2, 128); (a3, 136); (a4, 144); (a5, 152); (a6, 160); (a7, 168); (s2, 176); (s3, 184); (s4, 192);
   (s5, 200); (s6, 208); (s7, 216); (s8, 224); (s9, 232); (s10, 240); (s11, 248); (t3, 256); (t4, 264);
   (t5, 272); (t6, 280)].
Definition slot (r : reg) : Z :=
  match r with
  | ra => 40 | sp => 48 | gp => 56 | tp => 64 | t0 => 72 | t1 => 80 | t2 => 88 | s0 => 96 | s1 => 104
  | a0 => 112 | a1 => 120 | a2 => 128 | a3 => 136 | a4 => 144 | a5 => 152 | a6 => 160 | a7 => 168
  | s2 => 176 | s3 => 184 | s4 => 192 | s5 => 200 | s6 => 208 | s7 => 216 | s8 => 224 | s9 => 232
  | s10 => 240 | s11 => 248 | t3 => 256 | t4 => 264 | t5 => 272 | t6 => 280
  end.
Lemma frame_slots_ok : slots 288 frame_slots.
Proof. slots. Qed.
Lemma frame_slots_low : Forall (fun x => 40 <= snd x) frame_slots.
Proof. apply (bool_decide_unpack _). by vm_compute. Qed.
Lemma slot_in r : r <> a0 -> (r, slot r) ∈ frame_slots.
Proof. intros Hr. destruct r; try done; apply (bool_decide_unpack _); by vm_compute. Qed.

Definition kernel_words : list (reg * Z) := [(sp, 8); (tp, 32); (t0, 16); (t1, 0)].
Lemma kernel_words_ok : slots 288 kernel_words.
Proof. slots. Qed.
Lemma a0_slot_ok : slots 288 [(t0, 112)].
Proof. slots. Qed.


Definition pte_in (M : memory) (T : ptree) (va : Z) : Z :=
  match T (leaf va) with Some p => ld64 M (p + 8 * PX 0 va) | None => 0 end.

Section spaces.
Context (trampoline : Z) (Htr : 0 <= trampoline < 2 ^ 56) (Htra : trampoline mod PGSIZE = 0).

(** A page table that maps the trampoline page, outside the trapframe; a user
    page table maps the trapframe too. *)
Record code_space (M : memory) (root tf : Z) (T : ptree) : Prop := {
  cs_table : hw_table M root T;
  cs_apart : forall x, page tf x -> ~ pt_mem T x;
  cs_code : pte_in M T TRAMPOLINE = leaf_pte trampoline (Z.lor PTE_R PTE_X);
}.
Record user_space (M : memory) (root tf : Z) (T : ptree) : Prop := {
  us_code : code_space M root tf T;
  us_frame : pte_in M T TRAPFRAME = leaf_pte tf (Z.lor PTE_R PTE_W);
}.

Lemma cs_range M root tf T : code_space M root tf T -> 0 <= root < 2 ^ 56.
Proof. intros [H _ _]. apply (ht_page _ _ _ H NRoot), H. Qed.
Lemma pte_in_frame M M' T va : (forall x, pt_mem T x -> M' x = M x) -> pte_in M' T va = pte_in M T va.
Proof.
  intros HM. unfold pte_in. destruct (T (leaf va)) as [p|] eqn:E; [|done].
  apply ld64_ext. intros x Hx. apply HM. exists (leaf va), p. split; [done|].
  eapply slot_page; [|done]. by apply PX_range.
Qed.
Lemma code_space_frame M M' root tf T :
  code_space M root tf T -> (forall x, pt_mem T x -> M' x = M x) -> code_space M' root tf T.
Proof.
  intros [H1 H2 H3] HM. constructor; [by eapply hw_table_frame|done|]. by rewrite (pte_in_frame M) by done.
Qed.
Lemma user_space_frame M M' root tf T :
  user_space M root tf T -> (forall x, pt_mem T x -> M' x = M x) -> user_space M' root tf T.
Proof.
  intros [H1 H2] HM. constructor; [by eapply code_space_frame|]. by rewrite (pte_in_frame M) by done.
Qed.
Lemma space_off_frame M M' root tf T :
  code_space M root tf T -> (forall x, x < tf \/ tf + PGSIZE <= x -> M' x = M x) -> forall x, pt_mem T x -> M' x = M x.
Proof using Type. clear Htr Htra. intros H HM x Hx. apply HM. destruct (decide (page tf x)) as [Hp|Hp]; [by destruct (cs_apart _ _ _ _ H x Hp)|]. unfold page in Hp. lia. Qed.

Lemma bits_flags v b : 0 <= b < 10 -> bits v (Z.shiftl 1 b) = bits (PTE_FLAGS v) (Z.shiftl 1 b).
Proof using Type. clear Htr Htra.
  intros Hb. unfold bits, PTE_FLAGS. rewrite <- Z.land_assoc. do 3 f_equal.
  change 0x3FF with (Z.ones 10). symmetry. rewrite Z.land_comm. apply Z.land_ones_low; [by apply Z.shiftl_nonneg|].
  rewrite Z.shiftl_1_l, Z.log2_pow2; lia.
Qed.
Lemma leaf_granted pa perm acc :
  0 <= pa < 2 ^ 56 -> pa mod PGSIZE = 0 -> 0 <= perm < 1024 -> 0 <= acc < 10 ->
  granted (leaf_pte pa perm) (Z.shiftl 1 acc) = granted (Z.lor perm PTE_V) (Z.shiftl 1 acc).
Proof using Type. clear Htr Htra.
  intros Hpa Hal Hp Ha. destruct (leaf_pte_spec pa perm Hpa Hal Hp) as (_ & _ & E & _).
  unfold granted. change PTE_V with (Z.shiftl 1 0) at 1 3. unfold PTE_R, PTE_X, PTE_U.
  by rewrite !(bits_flags (leaf_pte pa perm)), E by done.
Qed.
Lemma translate_leaf M root T va o pa perm acc :
  hw_table M root T -> 0 <= va -> va + PGSIZE <= MAXVA -> va mod PGSIZE = 0 -> 0 <= o < PGSIZE ->
  pte_in M T va = leaf_pte pa perm -> 0 <= pa < 2 ^ 56 -> pa mod PGSIZE = 0 -> 0 <= perm < 1024 -> 0 <= acc < 10 ->
  granted (Z.lor perm PTE_V) (Z.shiftl 1 acc) = true ->
  translate M (MAKE_SATP root) (Z.shiftl 1 acc) (va + o) = Some (pa + o).
Proof using Type. clear Htr Htra.
  intros Ht Hva Hvm Hal Ho Hpte Hpa Hpal Hp Ha Hg. rewrite (translate_table M root T) by (done || lia).
  unfold lookup_table, pte_in, leaf in *.
  assert (E : forall l, 0 <= l -> PX l (va + o) = PX l va).
  { intros l Hl. apply PX_page; [done|]. rewrite !PGROUNDDOWN_eq. unfold PGSIZE in *. lia. }
  rewrite !E by done. destruct (T (N0 _ _)) as [p|].
  - rewrite Hpte, leaf_granted, Hg by done. destruct (leaf_pte_spec pa perm Hpa Hpal Hp) as (_ & -> & _ & _).
    f_equal. unfold PGSIZE in *. lia.
  - exfalso. destruct (leaf_pte_spec pa perm Hpa Hpal Hp) as (Hv & _). by rewrite <- Hpte in Hv.
Qed.

Lemma code_translate M root tf T :
  code_space M root tf T -> translate M (MAKE_SATP root) PTE_X TRAMPOLINE = Some trampoline.
Proof using Htr Htra.
  intros [H1 _ H3]. rewrite <- (Z.add_0_r TRAMPOLINE), <- (Z.add_0_r trampoline).
  by apply (translate_leaf M root T TRAMPOLINE 0 trampoline (Z.lor PTE_R PTE_X) 3).
Qed.
Lemma frame_translate M root tf T o :
  user_space M root tf T -> 0 <= tf < 2 ^ 56 -> tf mod PGSIZE = 0 -> 0 <= o < PGSIZE ->
  translate M (MAKE_SATP root) PTE_W (TRAPFRAME + o) = Some (tf + o) /\
  translate M (MAKE_SATP root) PTE_R (TRAPFRAME + o) = Some (tf + o).
Proof using Type. clear Htr Htra.
  intros [[H1 _ _] H2] Htf Hal Ho. split.
  - by apply (translate_leaf M root T TRAPFRAME o tf (Z.lor PTE_R PTE_W) 2).
  - by apply (translate_leaf M root T TRAPFRAME o tf (Z.lor PTE_R PTE_W) 1).
Qed.

Context (callee : hart -> option hart) (tf : Z) (Htf : 0 <= tf < 2 ^ 56) (Htfa : tf mod PGSIZE = 0).
Abbreviation run := (run TRAMPOLINE trampoline callee).

Lemma frame_window m root T :
  user_space (mmem m) root tf T -> tlb m = [MAKE_SATP root] -> window TRAMPOLINE trampoline m TRAPFRAME tf PGSIZE.
Proof using All.
  intros Hu Ht. split; [reflexivity|]. split; [by vm_compute|]. split; [by vm_compute|]. intros M HM.
  assert (Hu' : user_space M root tf T) by (eapply user_space_frame; [done|eapply space_off_frame; [apply Hu|done]]).
  pose proof (fun acc a => access_one (set_mmem M m) _ acc a Ht) as E. change (mmem (set_mmem M m)) with M in E.
  rewrite E. split; [by eapply code_translate, Hu'|]. intros o Ho. rewrite !E. by apply (frame_translate M root tf T).
Qed.

(** The two page tables agree on the code while the machine may use either. *)
Lemma fetch_both m root T kroot KT v v' :
  code_space (mmem m) root tf T -> code_space (mmem m) kroot tf KT -> tlb m = [v; v'] ->
  (v = MAKE_SATP root \/ v = MAKE_SATP kroot) -> (v' = MAKE_SATP root \/ v' = MAKE_SATP kroot) ->
  access m PTE_X TRAMPOLINE = Some trampoline.
Proof using Htr Htra.
  intros Hu Hk Ht Hv Hv'. apply (access_two m v v' _ _ _ Ht);
    [destruct Hv as [->| ->]|destruct Hv' as [->| ->]]; by eapply code_translate.
Qed.
Lemma fetch_one m root T : code_space (mmem m) root tf T -> tlb m = [MAKE_SATP root] -> access m PTE_X TRAMPOLINE = Some trampoline.
Proof using Htr Htra. intros Hu Ht. rewrite (access_one m _ _ _ Ht). by eapply code_translate. Qed.

(** The machine changes from the page table [ra_] to [rb_]. *)
Lemma switch_satp m r rest ra_ A rb_ B :
  code_space (mmem m) ra_ tf A -> code_space (mmem m) rb_ tf B ->
  csrs m satp = MAKE_SATP ra_ -> tlb m = [MAKE_SATP ra_] -> regs m r = MAKE_SATP rb_ ->
  run (sfence_vma :: csrw satp r :: sfence_vma :: rest) m =
  run rest (Hart (regs m) (upd (csrs m) satp (MAKE_SATP rb_)) [MAKE_SATP rb_] (mmem m)).
Proof using Htr Htra.
  intros HA HB Hs Ht Hr.
  rewrite (run_step _ _ _ _ _ m (Hart (regs m) (csrs m) [MAKE_SATP ra_] (mmem m)));
    [|exact (fetch_one m ra_ A HA Ht)|cbn [exec_instr]; by rewrite Hs].
  set (C := upd (csrs m) satp (MAKE_SATP rb_)).
  rewrite (run_step _ _ _ _ _ _ (Hart (regs m) C [MAKE_SATP rb_; MAKE_SATP ra_] (mmem m)));
    [|exact (fetch_one (Hart (regs m) (csrs m) [MAKE_SATP ra_] (mmem m)) ra_ A HA eq_refl)|cbn [exec_instr regs csrs tlb mmem]; by rewrite Hr].
  rewrite (run_step _ _ _ _ _ _ (Hart (regs m) C [MAKE_SATP rb_] (mmem m))); [done| |].
  - eapply (fetch_both _ ra_ A rb_ B); [exact HA|exact HB|reflexivity|by right|by left].
  - cbn [exec_instr csrs regs mmem]. unfold C. by rewrite upd_same.
Qed.

(** The memory after [uservec]. *)
Definition frame_saved (R : reg -> Z) (M : memory) : memory :=
  saved tf (upd R t0 (R a0)) [(t0, 112)] (saved tf R frame_slots M).
Lemma frame_saved_other R M x : x < tf + 40 \/ tf + 288 <= x -> frame_saved R M x = M x.
Proof using Type. clear Htr Htra Htf Htfa.
  intros Hx. unfold frame_saved.
  assert (H : forall R l M, slots 288 l -> Forall (fun x => 40 <= snd x) l -> saved tf R l M x = M x).
  { intros R' l M' H1 H2. destruct Hx; [by apply (saved_low _ _ _ _ 40)|apply (saved_other _ _ 288); [done|lia]]. }
  rewrite H; [|apply a0_slot_ok|by repeat constructor]. apply H; [apply frame_slots_ok|apply frame_slots_low].
Qed.
Lemma frame_saved_word R M r : ld64 (frame_saved R M) (tf + slot r) = u64 (R r).
Proof using Type. clear Htr Htra Htf Htfa.
  unfold frame_saved. destruct (decide (r = a0)) as [->|Hr].
  - rewrite (saved_word _ _ 288 _ _ t0); [|apply a0_slot_ok|by left]. by rewrite upd_same.
  - pose proof (slot_in r Hr) as Hin. pose proof (slots_range 288 _ _ _ frame_slots_ok Hin) as (_ & _ & Hm).
    rewrite (saved_word_other _ _ 288); [|apply a0_slot_ok|done|].
    2: { simpl. intros [E|[]%elem_of_nil]%elem_of_cons. by destruct r. }
    apply (saved_word _ _ 288); [apply frame_slots_ok|done].
Qed.

Lemma uservec_spec m root T kroot KT :
  user_space (mmem m) root tf T -> code_space (mmem m) kroot tf KT ->
  csrs m satp = MAKE_SATP root -> tlb m = [MAKE_SATP root] -> ld64 (mmem m) (tf + tf_kernel_satp) = MAKE_SATP kroot ->
  exists m', run uservec m = Some (Jump (ld64 (mmem m) (tf + tf_kernel_trap)), m') /\
    mmem m' = frame_saved (regs m) (mmem m) /\ csrs m' = upd (upd (csrs m) sscratch (regs m a0)) satp (MAKE_SATP kroot) /\
    tlb m' = [MAKE_SATP kroot] /\ regs m' sp = ld64 (mmem m) (tf + tf_kernel_sp) /\
    regs m' tp = ld64 (mmem m) (tf + tf_kernel_hartid).
Proof using All.
  intros Hu Hk Hsatp Ht Hks. pose proof frame_slots_ok as Hok. pose proof kernel_words_ok as Hkw.
  change uservec with (csrw sscratch a0 :: li a0 TRAPFRAME :: (saves a0 frame_slots ++ csrr t0 sscratch ::
    (saves a0 [(t0, 112)] ++ (loads a0 kernel_words ++
      [sfence_vma; csrw satp t1; sfence_vma; jr t0])))).
  assert (Hx : forall m1, mmem m1 = mmem m -> tlb m1 = [MAKE_SATP root] -> access m1 PTE_X TRAMPOLINE = Some trampoline).
  { intros m1 E1 E2. eapply fetch_one; [|done]. rewrite E1. apply Hu. }
  set (R := regs m). set (C := upd (csrs m) sscratch (R a0)). set (R1 := upd R a0 TRAPFRAME).
  rewrite (run_step _ _ _ _ _ m (Hart R C [MAKE_SATP root] (mmem m))) by (by apply Hx || (cbn; by rewrite Ht)).
  rewrite (run_step _ _ _ _ _ _ (Hart R1 C [MAKE_SATP root] (mmem m))) by (by apply Hx || done).
  assert (Hw : forall M R, (forall x, x < tf \/ tf + PGSIZE <= x -> M x = mmem m x) ->
    window TRAMPOLINE trampoline (Hart R C [MAKE_SATP root] M) TRAPFRAME tf 288).
  { intros M R0 HM. eapply window_smaller; [eapply frame_window; [|done]|by vm_compute].
    eapply user_space_frame; [exact Hu|]. eapply space_off_frame; [apply Hu|done]. }
  rewrite (run_saves _ _ _ a0 tf 288) by (by apply Hw || done). cbn [regs mmem].
  rewrite (saved_ext tf R1 R) by (intros r Hr; apply upd_other; intros ->; revert Hr; by apply (bool_decide_unpack _)).
  set (M1 := saved tf R frame_slots (mmem m)). set (R2 := upd R1 t0 (R a0)).
  assert (HM1 : forall x, x < tf \/ tf + PGSIZE <= x -> M1 x = mmem m x).
  { intros x Hx'. apply (saved_other _ _ 288); [done|]. unfold PGSIZE in Hx'. lia. }
  rewrite (run_step _ _ _ _ _ _ (Hart R2 C [MAKE_SATP root] M1) (proj1 (window_access _ _ _ _ _ _ (Hw M1 R1 HM1)))) by (cbn; unfold R2, C; by rewrite upd_same).
  rewrite (run_saves _ _ _ a0 tf 288) by (by apply Hw || apply a0_slot_ok). cbn [regs mmem set_mmem csrs tlb].
  change (saved tf R2 [(t0, 112)] M1) with (frame_saved R (mmem m)). set (M2 := frame_saved R (mmem m)).
  assert (HM2 : forall x, x < tf + 40 \/ tf + 288 <= x -> M2 x = mmem m x) by apply frame_saved_other.
  assert (HM2' : forall x, x < tf \/ tf + PGSIZE <= x -> M2 x = mmem m x).
  { intros x Hx'. apply HM2. unfold PGSIZE in Hx'. lia. }
  rewrite (run_loads _ _ _ a0 tf 288) by (by apply Hw || done || by apply (bool_decide_unpack _)). cbn [regs mmem csrs tlb].
  set (R3 := loaded tf M2 kernel_words R2).
  assert (Hkword : forall r o, (r, o) ∈ kernel_words -> o + 8 <= 40 -> R3 r = ld64 (mmem m) (tf + o)).
  { intros r o Ho Ho'. unfold R3. rewrite (loaded_word _ _ 288 _ _ r o) by done. apply ld64_ext. intros x Hx'. apply HM2. lia. }
  assert (E0 : R3 t1 = MAKE_SATP kroot).
  { rewrite (Hkword t1 0); [exact Hks|apply (bool_decide_unpack _); by vm_compute|done]. }
  assert (Hu2 : user_space M2 root tf T) by (eapply user_space_frame, space_off_frame, HM2'; [exact Hu|apply Hu]).
  assert (Hk2 : code_space M2 kroot tf KT) by (eapply code_space_frame, space_off_frame, HM2'; [exact Hk|apply Hk]).
  assert (EC : C satp = MAKE_SATP root) by by (unfold C; rewrite upd_other).
  rewrite (switch_satp _ t1 _ root T kroot KT); [|apply Hu2|exact Hk2|exact EC|reflexivity|exact E0].
  rewrite run_jr by (eapply (fetch_one _ kroot); [exact Hk2|reflexivity]). eexists. split.
  { f_equal. f_equal. f_equal. apply Hkword; [apply (bool_decide_unpack _); by vm_compute|done]. }
  split_and!; try reflexivity; (apply Hkword; [apply (bool_decide_unpack _); by vm_compute|done]).
Qed.

Lemma userret_spec m root T kroot KT :
  user_space (mmem m) root tf T -> code_space (mmem m) kroot tf KT ->
  csrs m satp = MAKE_SATP kroot -> tlb m = [MAKE_SATP kroot] -> regs m a0 = MAKE_SATP root ->
  exists m', run userret m = Some (Sret, m') /\ (forall r, regs m' r = ld64 (mmem m) (tf + slot r)) /\
    csrs m' = upd (csrs m) satp (MAKE_SATP root) /\ tlb m' = [MAKE_SATP root] /\ mmem m' = mmem m.
Proof using All.
  intros Hu Hk Hsatp Ht Ha0. pose proof frame_slots_ok as Hok. pose proof (us_code _ _ _ _ Hu) as Hc.
  change userret with (sfence_vma :: csrw satp a0 :: sfence_vma :: (li a0 TRAPFRAME ::
    (loads a0 frame_slots ++ [ld a0 112 a0; sret]))).
  rewrite (switch_satp m a0 _ kroot KT root T) by done. set (C := upd (csrs m) satp (MAKE_SATP root)).
  assert (Hw : forall R, window TRAMPOLINE trampoline (Hart R C [MAKE_SATP root] (mmem m)) TRAPFRAME tf 288).
  { intros R. eapply window_smaller; [by eapply frame_window|by vm_compute]. }
  set (R1 := upd (regs m) a0 TRAPFRAME).
  rewrite (run_step _ _ _ _ _ _ (Hart R1 C [MAKE_SATP root] (mmem m)) (proj1 (window_access _ _ _ _ _ _ (Hw _)))) by reflexivity.
  rewrite (run_loads _ _ _ a0 tf 288) by (by apply Hw || done || by apply (bool_decide_unpack _)). cbn [regs csrs tlb mmem].
  set (R2 := loaded tf (mmem m) frame_slots R1).
  assert (E2 : R2 a0 = TRAPFRAME) by (unfold R2; rewrite loaded_other by (by apply (bool_decide_unpack _)); apply upd_same).
  destruct (window_access _ _ _ _ _ _ (Hw R2)) as [Hx Ha].
  rewrite (run_step _ _ _ _ _ _ (Hart (upd R2 a0 (ld64 (mmem m) (tf + 112))) C [MAKE_SATP root] (mmem m)) Hx).
  2: { cbn [exec_instr regs]. rewrite E2. change (u64 (TRAPFRAME + 112)) with (TRAPFRAME + 112).
       change ((TRAPFRAME + 112) mod 8 =? 0) with true. cbv iota. cbn [negb].
       by rewrite (proj2 (Ha 112 ltac:(lia))). }
  rewrite run_sret by exact (proj1 (window_access _ _ _ _ _ _ (Hw _))).
  eexists. split; [reflexivity|]. split_and!; try reflexivity. intros r. cbn [regs].
  destruct (decide (r = a0)) as [->|Hr]; [apply upd_same|]. rewrite upd_other by done. unfold R2.
  rewrite (loaded_word _ _ 288 _ _ r (slot r)); [done|done|by apply slot_in].
Qed.
End spaces.

(** ** A trap from user space and back *)

Section trap_path.
Context {F : Type} `{FL : FileLayer F} `{TC : TrapCalls F} (end_ : Z).
Context (trampoline uservec_ userret_ usertrap_ : Z) (callee : hart -> option hart).
Context (Htr : 0 <= trampoline < 2 ^ 56) (Htra : trampoline mod PGSIZE = 0).
Abbreviation run := (run TRAMPOLINE trampoline callee).

(** The process [me] in [k]: its page table, in the tree [T], maps the
    trampoline and the trapframe, and the kernel's page table [kroot], in the
    tree [KT], maps the trampoline too. *)
Record at_home (k : kern F) (me : nat) (T : ptree) (kroot : Z) (KT : ptree) : Prop := {
  ah_tf : 0 <= p_trapframe (procs k me) < 2 ^ 56;
  ah_tfa : p_trapframe (procs k me) mod PGSIZE = 0;
  ah_user : user_space trampoline (mem (kst k)) (p_pagetable (procs k me)) (p_trapframe (procs k me)) T;
  ah_kernel : code_space trampoline (mem (kst k)) kroot (p_trapframe (procs k me)) KT;
}.

(** The process runs again in [k3] after it was stopped in [k2]: other
    processes have run, but its page tables are still there and nobody has
    written to its saved registers. *)
Definition resumed (k2 k3 : kern F) (me : nat) (T : ptree) (kroot : Z) (KT : ptree) : Prop :=
  let tf := p_trapframe (procs k2 me) in
  p_trapframe (procs k3 me) = tf /\ p_pagetable (procs k3 me) = p_pagetable (procs k2 me) /\
  (forall x, tf + tf_epc <= x < tf + tf_epc + 8 \/ tf + 40 <= x < tf + tf_size -> mem (kst k3) x = mem (kst k2) x) /\
  at_home k3 me T kroot KT.

(** The machine enters [userret] after [usertrapret], which leaves [e]. *)
Definition entering (m : hart) (k : kern F) (e : user_entry) (kroot : Z) : Prop :=
  mmem m = mem (kst k) /\ regs m a0 = ue_satp e /\ csrs m sepc = ue_sepc e /\ csrs m sstatus = ue_sstatus e /\
  csrs m satp = MAKE_SATP kroot /\ tlb m = [MAKE_SATP kroot].

(** From [usertrapret] to user space: the process goes on with the registers
    and the program counter in its trapframe. *)
Lemma back_to_user (k : kern F) (me : nat) T kroot KT sst tp_ :
  at_home k me T kroot KT -> let p := procs k me in let tf := p_trapframe p in
  wp (usertrapret uservec_ userret_ trampoline usertrap_ me sst (MAKE_SATP kroot) tp_) (fun e k' =>
    forall m, entering m k' e kroot -> exists m', run userret m = Some (Sret, m') /\
      (forall r, regs m' r = ld64 (mem (kst k)) (tf + slot r)) /\
      csrs m' sepc = ld64 (mem (kst k)) (tf + tf_epc) /\ csrs m' satp = MAKE_SATP (p_pagetable p) /\
      tlb m' = [MAKE_SATP (p_pagetable p)] /\ bits (csrs m' sstatus) SSTATUS_SPP = false) k.
Proof using Htr Htra.
  intros [H1 H2 Hu Hk] p tf. fold p in H1, H2, Hu, Hk. fold tf in H1, H2, Hu, Hk.
  pose proof (us_code _ _ _ _ _ Hu) as Hc. pose proof (cs_range _ _ _ _ _ Hc) as Hroot.
  pose proof (cs_range _ _ _ _ _ Hk) as Hkr.
  eapply wp_mono; [apply usertrapret_correct; [|done]|].
  { rewrite make_satp_eq by done. unfold PGSIZE. lia. }
  cbv zeta. fold p. fold tf. intros e k' (Epc & Hst & Hsatp & Hp & _ & _ & HM) m (Em & Ea & Esepc & Esst & Es & Et).
  assert (HM' : forall x, x < tf \/ tf + PGSIZE <= x -> mem (kst k') x = mem (kst k) x).
  { intros x Hx. apply HM. unfold PGSIZE, tf_kernel_hartid in *. lia. }
  rewrite <- make_satp_eq in Hsatp by done.
  destruct (userret_spec trampoline Htr Htra callee tf H1 H2 m (p_pagetable p) T kroot KT) as (m' & E & Hr & Ec & Et' & _); try done.
  { rewrite Em. eapply user_space_frame, space_off_frame, HM'; [exact Hu|exact Hc]. }
  { rewrite Em. eapply code_space_frame, space_off_frame, HM'; [exact Hk|exact Hk]. }
  { by rewrite Ea. }
  exists m'. split; [done|]. rewrite Ec. split_and!; try done.
  - intros r. rewrite Hr, Em. apply ld64_ext. intros x Hx. apply HM. right. right. unfold tf_kernel_hartid.
    assert (40 <= slot r) by by destruct r. lia.
  - rewrite upd_other by done. by rewrite Esepc, Epc.
  - rewrite upd_other, Esst by done. unfold SSTATUS_SPP. rewrite bits_testbit by done. by rewrite Hst.
Qed.

(** C9: a timer interrupt is transparent to the user program it interrupts.
    From the trap, with any registers, [uservec] saves them and enters
    [usertrap] on the kernel's stack and page table; [usertrap] gives up the
    CPU; and when the process runs again, with its trapframe as it was,
    [usertrapret] and [userret] go back to user mode with every register, the
    program counter and the page table the program had. *)
Theorem timer_transparent (k : kern F) (me cpu : nat) (m : hart) T kroot KT (stval irq : Z) :
  let p := procs k me in let tf := p_trapframe p in
  (me < NPROC)%nat -> p_state p = RUNNING -> p_killed p = 0 -> at_home k me T kroot KT ->
  ld64 (mem (kst k)) (tf + tf_kernel_satp) = MAKE_SATP kroot ->
  mmem m = mem (kst k) -> csrs m satp = MAKE_SATP (p_pagetable p) -> tlb m = [MAKE_SATP (p_pagetable p)] ->
  bits (csrs m sstatus) SSTATUS_SPP = false -> 0 <= csrs m sepc < 2 ^ 64 -> (forall r, 0 <= regs m r < 2 ^ 64) ->
  exists m1, run uservec m = Some (Jump (ld64 (mem (kst k)) (tf + tf_kernel_trap)), m1) /\
    regs m1 sp = ld64 (mem (kst k)) (tf + tf_kernel_sp) /\ csrs m1 satp = MAKE_SATP kroot /\
    wp (usertrap end_ cpu me (csrs m1 sstatus) (csrs m1 sepc) 0x8000000000000005 stval irq) (fun r k2 =>
      r = Yields /\ forall k3 sst tp_, resumed k2 k3 me T kroot KT ->
        wp (usertrapret uservec_ userret_ trampoline usertrap_ me sst (MAKE_SATP kroot) tp_) (fun e k4 =>
          forall m4, entering m4 k4 e kroot -> exists m5, run userret m4 = Some (Sret, m5) /\
            (forall r, regs m5 r = regs m r) /\ csrs m5 sepc = csrs m sepc /\ csrs m5 satp = csrs m satp /\
            tlb m5 = tlb m /\ bits (csrs m5 sstatus) SSTATUS_SPP = false) k3)
      (set_kst (set_mem (mmem m1) (kst k)) k).
Proof using Htr Htra.
  intros p tf Hme Hrun Hkill [H1 H2 Hu Hk] Hks Em Es Et Hspp Hpc Hreg.
  fold p in H1, H2, Hu, Hk. fold tf in H1, H2, Hu, Hk.
  destruct (uservec_spec trampoline Htr Htra callee tf H1 H2 m (p_pagetable p) T kroot KT)
    as (m1 & E1 & EM1 & EC1 & _ & Esp & _); rewrite ?Em; try done.
  rewrite Em in E1, EM1, Esp. exists m1. rewrite EC1. split_and!; [done..|].
  eapply wp_mono; [apply timer_trap_correct; try done|]. cbv zeta.
  intros r k2 (-> & Hp2 & Hepc & HM2). split; [done|]. intros k3 sst tp_ (E3 & E3' & HM3 & Hh).
  change (procs (set_kst _ k) me) with p in *. rewrite Hp2 in E3, E3', HM3.
  change (p_trapframe (set_rutime _ p)) with tf in E3, HM3. change (p_pagetable (set_rutime _ p)) with (p_pagetable p) in E3'.
  pose proof (back_to_user k3 me T kroot KT sst tp_ Hh) as Hb. cbv zeta in Hb. rewrite E3, E3' in Hb.
  eapply wp_mono; [exact Hb|].
  intros e k4 H4 m4 Hm4. destruct (H4 m4 Hm4) as (m5 & E5 & Hr5 & Hpc5 & Hs5 & Ht5 & Hst5).
  exists m5. split_and!; try done; [| |congruence..].
  2: { rewrite !upd_other in Hepc by done. rewrite Hpc5, <- Hepc. apply ld64_ext. intros x Hx. apply HM3.
       change (p_trapframe p) with tf in Hx. unfold tf_epc in *. lia. }
  intros r. rewrite Hr5, <- (u64_id (regs m r)) by apply Hreg.
  rewrite <- (frame_saved_word tf (regs m) (mem (kst k)) r), <- EM1. apply ld64_ext. intros x Hx.
  assert (40 <= slot r /\ slot r + 8 <= tf_size) by (unfold tf_size; by destruct r).
  rewrite HM3 by lia. apply HM2. change (p_trapframe p) with tf. unfold tf_epc. lia.
Qed.
End trap_path.

(** ** Witnesses *)

(** A page table in the three pages at [b]. *)
Definition demo_table (b trampoline tf : Z) (M : memory) : memory :=
  st64 (st64 (st64 (st64 M (b + 8 * 255) (Z.lor (PA2PTE (b + PGSIZE)) PTE_V))
    (b + PGSIZE + 8 * 511) (Z.lor (PA2PTE (b + 2 * PGSIZE)) PTE_V))
    (b + 2 * PGSIZE + 8 * 511) (leaf_pte trampoline (Z.lor PTE_R PTE_X)))
    (b + 2 * PGSIZE + 8 * 510) (leaf_pte tf (Z.lor PTE_R PTE_W)).
Definition demo_tree (b : Z) : ptree := fun n =>
  if decide (n = NRoot) then Some b
  else if decide (n = N1 255) then Some (b + PGSIZE)
  else if decide (n = N0 255 511) then Some (b + 2 * PGSIZE) else None.

Lemma demo_tree_mem b x : pt_mem (demo_tree b) x -> b <= x < b + 3 * PGSIZE.
Proof.
  intros (n & p & Hn & Hx). unfold demo_tree, page, PGSIZE in *. repeat case_decide; simplify_eq; lia.
Qed.
Lemma demo_table_other b trampoline tf M x : x < b \/ b + 3 * PGSIZE <= x -> demo_table b trampoline tf M x = M x.
Proof. intros Hx. unfold demo_table, PGSIZE in *. by rewrite !st64_other by lia. Qed.

Section demo.
Context (b trampoline tf : Z) (M : memory).
Context (Hb : 0 <= b /\ b + 3 * PGSIZE <= 2 ^ 56) (Hal : b mod PGSIZE = 0).
Context (Htr : 0 <= trampoline < 2 ^ 56) (Htra : trampoline mod PGSIZE = 0).
Context (Htf : 0 <= tf < 2 ^ 56) (Htfa : tf mod PGSIZE = 0).
Context (Hdis : tf + PGSIZE <= b \/ b + 3 * PGSIZE <= tf).
Context (Hzero : forall x, b <= x < b + 3 * PGSIZE -> M x = 0).

Lemma demo_word a :
  b <= a -> a + 8 <= b + 3 * PGSIZE -> a mod 8 = 0 ->
  ld64 (demo_table b trampoline tf M) a =
      if decide (a = b + 8 * 255) then Z.lor (PA2PTE (b + PGSIZE)) PTE_V
      else if decide (a = b + PGSIZE + 8 * 511) then Z.lor (PA2PTE (b + 2 * PGSIZE)) PTE_V
      else if decide (a = b + 2 * PGSIZE + 8 * 511) then leaf_pte trampoline (Z.lor PTE_R PTE_X)
      else if decide (a = b + 2 * PGSIZE + 8 * 510) then leaf_pte tf (Z.lor PTE_R PTE_W) else 0.
Proof.
  intros Ha1 Ha2 Ha3. unfold demo_table.
  destruct (table_pte (b + PGSIZE)) as (_ & _ & ?); [unfold PGSIZE in *; lia..|].
  destruct (table_pte (b + 2 * PGSIZE)) as (_ & _ & ?); [unfold PGSIZE in *; lia..|].
  destruct (leaf_pte_spec trampoline (Z.lor PTE_R PTE_X)) as (_ & _ & _ & ?); [done..|].
  destruct (leaf_pte_spec tf (Z.lor PTE_R PTE_W)) as (_ & _ & _ & ?); [done..|].
  unfold PGSIZE in *. repeat case_decide; subst;
    rewrite ?ld_st64_other by lia; rewrite ?ld_st64_same; try (by apply u64_id).
  apply ld64_zero. intros x Hx. apply Hzero. lia.
Qed.

Lemma demo_space : user_space trampoline (demo_table b trampoline tf M) b tf (demo_tree b).
Proof using All.
  assert (Hleaf : forall va, PX 2 va = 255 -> PX 1 va = 511 ->
    pte_in (demo_table b trampoline tf M) (demo_tree b) va = ld64 (demo_table b trampoline tf M) (b + 2 * PGSIZE + 8 * PX 0 va)).
  { intros va E1 E2. unfold pte_in, leaf. by rewrite E1, E2. }
  constructor; [constructor|].
  - constructor.
    + done.
    + intros n p. unfold demo_tree, PGSIZE in *. repeat case_decide; intros [= <-]; lia.
    + intros i j p. unfold demo_tree. repeat case_decide; intros [= <-]; try done; simplify_eq; by eexists.
    + intros n p j Hi Hn Hj. unfold demo_tree in Hn.
      repeat case_decide; try done; subst n; try done; injection Hn as <-.
      * simpl. unfold demo_tree. rewrite demo_word by (unfold PGSIZE in *; lia). simpl.
        destruct (decide (j = 255)) as [->|Hne].
        -- by rewrite !decide_True by done.
        -- unfold PGSIZE in *. rewrite !decide_False by (done || congruence || lia). apply bits_0.
      * simpl. unfold demo_tree. rewrite demo_word by (unfold PGSIZE in *; lia).
        rewrite (decide_False (P := b + PGSIZE + 8 * j = b + 8 * 255)) by (unfold PGSIZE; lia).
        destruct (decide (j = 511)) as [->|Hne].
        -- rewrite (decide_True (P := b + PGSIZE + 8 * 511 = _)) by done. by rewrite !decide_False, decide_True by done.
        -- unfold PGSIZE in *. rewrite !decide_False by (done || congruence || lia). apply bits_0.
  - intros x Hx Hp. apply demo_tree_mem in Hp. unfold page in Hx. lia.
  - rewrite Hleaf by done. change (PX 0 TRAMPOLINE) with 511. rewrite demo_word by (unfold PGSIZE in *; lia).
    unfold PGSIZE in *. by rewrite !decide_False, decide_True by lia.
  - rewrite Hleaf by done. change (PX 0 TRAPFRAME) with 510. rewrite demo_word by (unfold PGSIZE in *; lia).
    unfold PGSIZE in *. by rewrite !decide_False, decide_True by lia.
Qed.
End demo.

(** A machine without address translation, as before kvminithart. *)
Definition bare_hart : hart :=
  Hart (fun r => match r with a0 => 0x1000 | a1 => 0x2000 | _ => 5 end) (fun _ => 0) [0] (fun _ => 0).
Lemma bare_reaches lo hi va R C M : 0 <= lo -> hi <= 2 ^ 64 -> reaches va va (Hart R C [0] M) lo hi.
Proof. intros H1 H2. split_and!; [done..|]. intros M' _. split; [reflexivity|]. intros a _. split; reflexivity. Qed.

Lemma context_switch_witness :
  exists m1, run 0 0 (fun _ => None) swtch bare_hart = Some (Jump 0, m1) /\ regs m1 sp = 0 /\
    exists m3, run 0 0 (fun _ => None) swtch (set_reg a0 0x2000 (set_reg a1 0x1000 m1)) = Some (Jump 5, m3) /\ regs m3 sp = 5.
Proof.
  destruct (context_switch 0 0 (fun _ => None) 0 0x10000 bare_hart 0x1000 0x2000) as (m1 & E1 & H1 & H2 & H3 & _ & Et & H4).
  - split; [reflexivity|]. split; [reflexivity|]. split; [by apply bare_reaches|]. unfold context_size. lia.
  - intros r. destruct r; vm_compute; intuition congruence.
  - exists m1. split; [exact E1|]. split; [rewrite (H1 sp 8) by (by right; left); reflexivity|].
    destruct (H4 (set_reg a0 0x2000 (set_reg a1 0x1000 m1)) 0x2000) as (m3 & E3 & H5).
    + split; [reflexivity|]. split; [reflexivity|]. split; [|unfold context_size; lia].
      unfold set_reg. cbn [regs csrs tlb mmem]. rewrite Et. by apply bare_reaches.
    + done.
    + exists m3. split; [exact E3|]. apply H5. by right; left.
Defined.

#[local] Instance demo_files : FileLayer unit := no_files.
#[local] Instance demo_calls : TrapCalls unit :=
  {| do_syscall _ := ret true; Trap.uartintr := ret tt; virtio_disk_intr := ret tt |}.

(** A process with the trapframe 0x87000000 and its page table after it, and
    the kernel's page table at 0x87010000. *)
Definition demo_tr : Z := 0x80007000.
Definition demo_tf : Z := 0x87000000.
Definition demo_user : Z := 0x87001000.
Definition demo_kernel : Z := 0x87010000.
Definition demo_mem0 : memory :=
  demo_table demo_user demo_tr demo_tf (demo_table demo_kernel demo_tr demo_tf (fun _ => 0)).
Definition demo_mem : memory := st64 demo_mem0 demo_tf (MAKE_SATP demo_kernel).
Definition demo_kern : kern unit :=
  set_kst (set_mem demo_mem (kst init_kern))
    (set_procs (fun i => set_trapframe demo_tf (set_pagetable demo_user (procs init_kern i))) init_kern).
Definition demo_hart : hart :=
  Hart (fun _ => 7) (fun c => if decide (c = satp) then MAKE_SATP demo_user else 0) [MAKE_SATP demo_user] demo_mem.

Lemma demo_at_home : at_home demo_tr demo_kern 0 (demo_tree demo_user) demo_kernel (demo_tree demo_kernel).
Proof.
  assert (Hm : forall x, x < demo_tf \/ demo_tf + 8 <= x -> demo_mem x = demo_mem0 x) by (intros; by apply st64_other).
  assert (Hd : forall b x, demo_tf + PGSIZE <= b -> pt_mem (demo_tree b) x -> demo_mem x = demo_mem0 x).
  { intros b x Hb Hx%demo_tree_mem. apply Hm. unfold PGSIZE in Hb. lia. }
  constructor; [done|done| |].
  - apply (user_space_frame _ demo_mem0); [|intros x; by apply Hd].
    apply demo_space; try done; [by left|].
    intros x Hx. apply demo_table_other. unfold demo_user, demo_kernel, PGSIZE in *. lia.
  - assert (Hk : user_space demo_tr (demo_table demo_kernel demo_tr demo_tf (fun _ => 0)) demo_kernel demo_tf (demo_tree demo_kernel))
      by (apply demo_space; try done; by left).
    eapply code_space_frame; [exact (us_code _ _ _ _ _ Hk)|]. intros x Hx. rewrite (Hd demo_kernel) by done.
    apply demo_table_other. apply demo_tree_mem in Hx. unfold demo_user, demo_kernel, PGSIZE in *. lia.
Qed.

Lemma timer_transparent_witness :
  exists m1, run TRAMPOLINE demo_tr (fun _ => None) uservec demo_hart = Some (Jump 0, m1) /\
    csrs m1 satp = MAKE_SATP demo_kernel /\
    wp (usertrap 0 0 0 (csrs m1 sstatus) (csrs m1 sepc) 0x8000000000000005 0 0) (fun r _ => r = Yields)
      (set_kst (set_mem (mmem m1) (kst demo_kern)) demo_kern).
Proof.
  destruct (timer_transparent 0 demo_tr 0 0 0 (fun _ => None) ltac:(done) ltac:(done) demo_kern 0 0 demo_hart
    (demo_tree demo_user) demo_kernel (demo_tree demo_kernel) 0 0) as (m1 & E1 & _ & E2 & Hw);
    [unfold NPROC; lia|reflexivity|reflexivity|exact demo_at_home| |reflexivity|reflexivity|reflexivity|reflexivity|
     vm_compute; intuition congruence|intros r; vm_compute; intuition congruence|].
  { change (ld64 demo_mem (demo_tf + 0) = MAKE_SATP demo_kernel). unfold demo_mem. rewrite Z.add_0_r, ld_st64_same. reflexivity. }
  exists m1. split; [|split; [exact E2|]].
  - rewrite E1. reflexivity.
  - eapply wp_mono; [exact Hw|]. intros r k2 [Hr _]. exact Hr.
Defined.

(** ** entry.S *)

Lemma entry_spec stack0 hart_id m :
  csrs m mhartid = hart_id -> 0 <= hart_id < 8 -> 0 <= stack0 -> stack0 + 8 * 4096 < 2 ^ 64 -> tlb m = [0] ->
  exists m', run 0 0 (fun _ => None) (entry stack0 ++ [jr ra]) m = Some (Jump (regs m ra), m') /\
    regs m' sp = stack0 + 4096 * (hart_id + 1).
Proof.
  intros Hh Hi H0 H1 Ht. unfold entry.
  assert (Hx : forall m1, tlb m1 = [0] -> access m1 PTE_X 0 = Some 0) by (intros m1 E; by rewrite (access_one _ 0)).
  eexists. cbn [app]. do 6 (erewrite run_step; [|apply Hx; exact Ht|reflexivity]). rewrite run_jr by (apply Hx; exact Ht).
  split; [reflexivity|].
  transitivity (u64 (stack0 + u64 (4096 * u64 (csrs m mhartid + 1)))); [reflexivity|].
  rewrite Hh, (u64_id (hart_id + 1)), (u64_id (4096 * _)), u64_id by lia. done.
Qed.
