(* ===== verification/Syscall.v ===== *)
(** * kernel/syscall.c and kernel/sysproc.c: system calls

    Fetching arguments, the dispatcher and the system calls on processes.  The
    calls on files come as a class, which Sysfile.v instantiates. *)

From S2P Require Import Prelude Bytes Riscv KString Locks Kalloc Vm Uvm UserMem UvmProps Proc ProcInv Fault.

(** The file system calls: process, system-call number. *)
Class FileCalls (F : Type) := { file_call : nat -> Z -> M (kern F) Z }.

Definition SYS_exit : Z := 2.

Section syscall.
Context {F : Type} `{FL : FileLayer F} `{FC : FileCalls F}.
Context (end_ trampoline forkret : Z) (pol : policy) (kernel_pagetable : Z).
Abbreviation K := (kern F).

(** ** Arguments (syscall.c) *)

Definition fetchaddr (me : nat) (addr : Z) : M K (Z * Z) :=
  let! p := get me in
  if (p_sz p <=? addr) || (p_sz p <? u64 (addr + 8)) then ret (-1, 0)
  else
    let! (r, bs) := liftk (copyin (p_pagetable p) addr 8) in
    if negb (r =? 0) then ret (-1, 0)
    else ret (0, ld64 (fun i => nth (Z.to_nat i) bs 0) 0).

(** The bytes that [copyinstr] left in the buffer, and their [strlen]. *)
Fixpoint bytes_strlen (bs : list Z) : Z :=
  match bs with
  | [] => 0
  | b :: bs' => if b =? 0 then 0 else 1 + bytes_strlen bs'
  end.

Definition fetchstr (me : nat) (addr max : Z) : M K (Z * list Z) :=
  let! p := get me in
  let! (r, bs) := liftk (copyinstr (p_pagetable p) addr max) in
  if r <? 0 then ret (-1, bs) else ret (bytes_strlen bs, bs).

Definition argraw (me : nat) (n : Z) : M K Z :=
  let! p := get me in
  if (0 <=? n) && (n <=? 5) then liftk (load (p_trapframe p + tf_a0 + 8 * n))
  else panic "argraw".

Definition argint (me : nat) (n : Z) : M K Z := let! v := argraw me n in ret (i32 v).
Definition argaddr (me : nat) (n : Z) : M K Z := argraw me n.
Definition argstr (me : nat) (n max : Z) : M K (Z * list Z) :=
  let! addr := argaddr me n in fetchstr me addr max.

(** ** sysproc.c *)

Definition sys_exit (me : nat) : M K unit := let! n := argint me 0 in exit me n.

Definition sys_getpid (me : nat) : M K Z := let! p := get me in ret (p_pid p).
Definition sys_fork (me : nat) : M K Z := fork end_ trampoline forkret pol me.
Definition sys_wait (me : nat) : M K Z := let! p := argaddr me 0 in wait end_ me p.

Definition sys_sbrk (me : nat) : M K Z :=
  let! n := argint me 0 in
  let! p := get me in
  let addr := p_sz p in
  let! r := growproc end_ me n in
  if r <? 0 then ret (-1) else ret addr.

(** The loop of [sys_sleep]; [Blocked] is the call of [sleep], after which the
    loop goes on with the same [ticks0]. *)
Definition sys_sleep_loop (me : nat) (n ticks0 : Z) : M K Z :=
  let! t := gets ticks in
  if u32 (t - ticks0) <? n then
    let! d := killed me in
    if negb (d =? 0) then ret (-1) else blocked
  else ret 0.
Definition sys_sleep (me : nat) : M K Z :=
  let! n := argint me 0 in
  let n := if n <? 0 then 0 else n in
  let! ticks0 := gets ticks in
  sys_sleep_loop me n ticks0.

Definition sys_kill (me : nat) : M K Z := let! pid := argint me 0 in kill pid.
Definition sys_uptime (me : nat) : M K Z := gets ticks.
Definition sys_chpr (me : nat) : M K Z :=
  let! pid := argint me 0 in let! pr := argint me 1 in chpr pid pr.

(** [yield]: other processes run, then the scheduler comes back. *)
Definition sys_yield (me : nat) : M K Z :=
  change me (set_state RUNNABLE) ;; change me (set_state RUNNING) ;; ret 0.
Definition sys_chtickets (me : nat) : M K Z :=
  let! pid := argint me 0 in let! tickets := argint me 1 in chtickets pid tickets.

Definition sys_getppid (me : nat) : M K Z :=
  let! p := get me in
  match p_parent p with
  | Some j => let! q := get j in ret (p_pid q)
  | None => panic "kerneltrap" (* the null pointer is dereferenced *)
  end.

(** A store of the kernel at a virtual address: it goes through the kernel's
    page table, and faults where that does not map the address for the
    supervisor to write. *)
Definition kernel_stb (a b : Z) : M K unit :=
  if MAXVA <=? a then panic "kerneltrap"
  else
    let! pte := liftk (walk kernel_pagetable a false) in
    let! v := liftk (load pte) in
    if (pte =? 0) || negb (bits v PTE_V && bits v PTE_W) || bits v PTE_U then panic "kerneltrap"
    else liftk (put_bytes (PTE2PA v + a mod PGSIZE) [b]).
Fixpoint kernel_store (a : Z) (bs : list Z) : M K unit :=
  match bs with
  | [] => ret tt
  | b :: bs' => kernel_stb a b ;; kernel_store (a + 1) bs'
  end.

(** The code of a process state. *)
Definition state_code (s : procstate) : Z :=
  match s with
  | UNUSED => 0 | USED => 1 | SLEEPING => 2 | RUNNABLE => 3 | RUNNING => 4 | ZOMBIE => 5
  end.

(** The loop of [sys_getptable]: slots are visited while there is room and
    they are in use; it does not stop at the end of the table. *)
Fixpoint getptable_loop (slots : list nat) (s lim : Z) : M K unit :=
  match slots with
  | [] => if s <? lim then panic "access to proc[NPROC]" else ret tt
  | i :: slots' =>
      let! p := get i in
      if (s <? lim) && bool_decide (p_state p <> UNUSED) then
        kernel_store s (int_bytes (state_code (p_state p))) ;;
        kernel_store (s + 4) (int_bytes (p_pid p)) ;;
        let! ppid := match p_parent p with
                     | Some j => let! q := get j in ret (p_pid q)
                     | None => panic "kerneltrap"
                     end in
        kernel_store (s + 8) (int_bytes ppid) ;;
        kernel_store (s + 12) (int_bytes (p_priority p)) ;;
        kernel_store (s + 16) (int_bytes (p_tickets p)) ;;
        kernel_store (s + 20) (int_bytes (p_ctime p)) ;;
        kernel_store (s + 24) (take 16 (p_name p)) ;;
        getptable_loop slots' (s + 40) lim
      else ret tt
  end.
Definition sys_getptable (me : nat) : M K Z :=
  let! size := argint me 0 in
  let! buf_addr := argaddr me 1 in
  getptable_loop proc_table buf_addr (u64 (buf_addr + size)) ;;
  ret 0.

Definition sys_wait2 (me : nat) : M K Z :=
  let! retime_addr := argaddr me 0 in
  let! rutime_addr := argaddr me 1 in
  let! stime_addr := argaddr me 2 in
  wait2 end_ me retime_addr rutime_addr stime_addr.

(** ** The dispatcher (syscall.c) *)

Definition proc_call (num : Z) : option (nat -> M K Z) :=
  match num with
  | 1 => Some sys_fork | 3 => Some sys_wait | 6 => Some sys_kill | 11 => Some sys_getpid
  | 12 => Some sys_sbrk | 13 => Some sys_sleep | 14 => Some sys_uptime
  | 22 => Some sys_getptable | 23 => Some sys_getppid | 24 => Some sys_chpr
  | 25 => Some sys_wait2 | 26 => Some sys_yield | 27 => Some sys_chtickets
  | _ => None
  end.

(** The result: whether the process is still there. *)
Definition syscall (me : nat) : M K bool :=
  let! p := get me in
  let! a7 := liftk (load (p_trapframe p + tf_a7)) in
  let num := i32 a7 in
  let set_a0 v := liftk (store (p_trapframe p + tf_a0) (u64 v)) in
  if (0 <? num) && (num <? 28) then
    if num =? SYS_exit then sys_exit me ;; ret false
    else
      let! r := match proc_call num with Some f => f me | None => file_call me num end in
      set_a0 r ;; ret true
  else set_a0 (-1) ;; ret true.
End syscall.

(** ** Properties *)

Section properties.
Context {F : Type}.

(** [sleep(n)].  When [d] clock ticks have passed since the call, also
    when the 32-bit counter has wrapped around, a process that has not been
    killed goes on if [d >= n] and sleeps again otherwise. *)
Theorem sys_sleep_correct me n t0 d (k : kern F) :
  0 <= n < 2 ^ 31 -> 0 <= t0 < 2 ^ 32 -> 0 <= d < 2 ^ 32 ->
  ticks k = u32 (t0 + d) -> p_killed (procs k me) = 0 ->
  sys_sleep_loop me n t0 k = if n <=? d then Ret (0, k) else Blocked.
Proof.
  intros Hn Ht Hd Htk Hk. unfold sys_sleep_loop. erewrite bind_ret_eq by done. cbv beta.
  rewrite Htk. assert (u32 (u32 (t0 + d) - t0) = d) as ->.
  { unfold u32. rewrite Zminus_mod_idemp_l. rewrite Z.mod_small; lia. }
  destruct (Z.ltb_spec d n), (Z.leb_spec n d); try lia; [|done].
  unfold killed. erewrite bind_ret_eq by done. cbv beta. by rewrite Hk.
Qed.

Lemma set_kst_id (k : kern F) : set_kst (kst k) k = k.
Proof. by destruct k. Qed.

Lemma argraw_spec me n (k : kern F) :
  0 <= n <= 5 ->
  argraw me n k = Ret (ld64 (mem (kst k)) (p_trapframe (procs k me) + tf_a0 + 8 * n), k).
Proof.
  intros Hn. unfold argraw, get. erewrite bind_ret_eq by done. cbv beta.
  rewrite (proj2 (Z.leb_le _ _)), (proj2 (Z.leb_le _ _)) by lia. cbn [andb].
  unfold liftk, zoom, load, gets. by rewrite set_kst_id.
Qed.
Lemma argint_spec me n (k : kern F) :
  0 <= n <= 5 ->
  argint me n k = Ret (i32 (ld64 (mem (kst k)) (p_trapframe (procs k me) + tf_a0 + 8 * n)), k).
Proof. intros. unfold argint. by erewrite bind_ret_eq by (by apply argraw_spec). Qed.

Lemma kernel_stb_faults end_ `{PA : !PageAllocator end_} kpt T (k : kern F) a b :
  KERNBASE <= end_ <= PHYSTOP -> pt_wf end_ (kst k) kpt T -> 0 <= a ->
  (a < MAXVA -> valid (pte_of (kst k) T a) = false) ->
  kernel_stb kpt a b k = Panic "kerneltrap".
Proof.
  intros Hend Hwf Ha Hun. unfold kernel_stb. destruct (Z.leb_spec MAXVA a); [done|].
  assert (E : liftk (walk kpt a false) k = Ret (pte_addr T a, k)).
  { unfold liftk, zoom. rewrite (walk_spec end_ Hend (kst k) kpt T a Hwf) by lia.
    by rewrite set_kst_id. }
  rewrite (bind_ret_eq _ _ _ _ _ E).
  assert (E2 : liftk (load (pte_addr T a)) k = Ret (ld64 (mem (kst k)) (pte_addr T a), k))
    by (unfold liftk, zoom, load, gets; by rewrite set_kst_id).
  rewrite (bind_ret_eq _ _ _ _ _ E2). destruct (T (leaf a)) as [p|] eqn:HT.
  - rewrite load_pte_addr by congruence. unfold valid in Hun. rewrite Hun by lia.
    cbn [andb negb orb]. by rewrite orb_true_r.
  - by rewrite (proj2 (pte_addr_nonzero end_ Hend (kst k) kpt T a Hwf)) by done.
Qed.

(** [getptable] brings the kernel down.  It stores to the address
    it is given as to kernel memory; when the kernel's page table does not map
    that address, as is the case for user memory, the first store is a page
    fault in the kernel. *)
Theorem getptable_panics end_ `{PA : !PageAllocator end_} kpt T me (k : kern F) tf buf :
  KERNBASE <= end_ <= PHYSTOP -> pt_wf end_ (kst k) kpt T ->
  p_trapframe (procs k me) = tf -> ld64 (mem (kst k)) (tf + tf_a1) = buf ->
  0 < i32 (ld64 (mem (kst k)) (tf + tf_a0)) -> buf + 2 ^ 31 < 2 ^ 64 ->
  (buf < MAXVA -> valid (pte_of (kst k) T buf) = false) ->
  p_state (procs k 0%nat) <> UNUSED ->
  sys_getptable kpt me k = Panic "kerneltrap".
Proof.
  intros Hend Hwf Htf Hbuf Hsz Hmax Hun Hst. unfold sys_getptable, argaddr.
  pose proof (ld64_range (mem (kst k)) (tf + tf_a1)) as Hr. rewrite Hbuf in Hr.
  assert (Hi : i32 (ld64 (mem (kst k)) (tf + tf_a0)) < 2 ^ 31) by (unfold i32; lia).
  erewrite bind_ret_eq by (by apply argint_spec). erewrite bind_ret_eq by (by apply argraw_spec).
  rewrite Htf. replace (tf + tf_a0 + 8 * 0) with (tf + tf_a0) by lia.
  replace (tf + tf_a0 + 8 * 1) with (tf + tf_a1) by (unfold tf_a0, tf_a1; lia). rewrite Hbuf.
  apply bind_panic_eq. change proc_table with (0%nat :: seq 1 63). cbn [getptable_loop].
  unfold get. erewrite bind_ret_eq by done. cbv beta. rewrite u64_id by lia.
  rewrite (proj2 (Z.ltb_lt _ _)) by lia. rewrite bool_decide_true by done. cbn [andb].
  apply bind_panic_eq. cbn [int_bytes le_bytes kernel_store].
  by apply bind_panic_eq, (kernel_stb_faults end_ kpt T); [| |lia|].
Qed.
End properties.

(** ** Witnesses *)

(** Sleeping for 5 ticks across the wrap-around of the counter. *)
Lemma sys_sleep_correct_witness :
  sys_sleep_loop 0 5 (2 ^ 32 - 2) (set_ticks 2 init_kern) = Blocked /\
  sys_sleep_loop 0 5 (2 ^ 32 - 2) (set_ticks 3 init_kern) = Ret (0, set_ticks 3 init_kern).
Proof.
  split; [rewrite (sys_sleep_correct 0 5 (2 ^ 32 - 2) 4)|rewrite (sys_sleep_correct 0 5 (2 ^ 32 - 2) 5)];
    first [reflexivity|lia].
Defined.

#[local] Instance boot_pa : PageAllocator boot_end := buddy_allocator boot_end boot_end_ok.

Lemma getptable_panics_witness : exists (k : kern unit) kpt,
  ld64 (mem (kst k)) (KERNBASE + tf_a1) = 0x3000 /\
  sys_getptable kpt 0 k = Panic "kerneltrap".
Proof.
  destruct boot_table as (s & root & HI & Hwf & _).
  set (m := st64 (st64 (mem s) (KERNBASE + tf_a0) 400) (KERNBASE + tf_a1) 0x3000).
  assert (Hm : forall x, pt_mem (empty_tree root) x -> m x = mem s x).
  { intros x (n & p & Hn & Hx). destruct (wf_page _ _ _ _ Hwf n p Hn) as [Hb _].
    apply (bad_pa_range boot_end boot_end_ok) in Hb as (_ & Hb & _).
    unfold m, tf_a0, tf_a1, page, boot_end in *. by rewrite !st64_other by lia. }
  assert (Hwf' : pt_wf boot_end (set_mem m s) root (empty_tree root)).
  { destruct Hwf as [Hr Hok Hinj Hpg Hpar Hsl]. constructor; try done.
    - intros n p Hn. destruct (Hpg n p Hn) as [Hb Hf]. split; [done|]. intros x Hx Hfx. apply (Hf x Hx).
      destruct (@pa_ext boot_end boot_pa s (set_mem m s) HI) as [_ E]; try done; [| |by apply E].
      + intros y Hy. apply (@pa_free_range boot_end boot_pa) in Hy; [|done].
        unfold m, tf_a0, tf_a1, boot_end in *. simpl. by rewrite !st64_other by lia.
      + intros. by apply (pa_refr s).
    - intros n p j Hi Hn Hj. specialize (Hsl n p j Hi Hn Hj).
      rewrite (ld64_ext (mem (set_mem m s)) (mem s)); [done|]. intros x Hx. apply Hm.
      exists n, p. split; [done|]. by eapply slot_page. }
  exists (set_kst (set_mem m s) (set_procs (upd (procs init_kern) O (set_trapframe KERNBASE (procs init_kern O))) init_kern)), root.
  assert (E1 : ld64 m (KERNBASE + tf_a1) = 0x3000) by (unfold m; by rewrite ld_st64_same).
  assert (E0 : ld64 m (KERNBASE + tf_a0) = 400)
    by (unfold m, tf_a0, tf_a1; rewrite ld_st64_other by lia; by rewrite ld_st64_same).
  split; [exact E1|].
  apply (getptable_panics boot_end root (empty_tree root) 0%nat
    (set_kst (set_mem m s) (set_procs (upd (procs init_kern) O (set_trapframe KERNBASE (procs init_kern O))) init_kern))
    KERNBASE 0x3000 boot_end_ok Hwf');
    [reflexivity|exact E1| |lia|reflexivity|discriminate].
  change (0 < i32 (ld64 m (KERNBASE + tf_a0))). rewrite E0. reflexivity.
Defined.
