(* ===== verification/Virtio.v ===== *)
(** * kernel/virtio_disk.c: the driver of the disk

    The driver shares memory with a device that acts at times of its own.  A
    caller of [virtio_disk_rw] and the interrupt handler are agents with a
    position in their code; what an agent does from one position to the next
    is one step, and steps of the agents and of the device interleave.  The
    steps are finer than the critical sections of [vdisk_lock]: the device
    also moves between them.  The device is the most general one that follows
    the virtio standard: once notified it takes requests when it likes, it
    serves them in any order, a sector at a time, and raises its interrupt some
    time later; it may also poll the ring without a notification, or not. *)

From S2P Require Import Prelude.

Definition NUM : Z := 8.
Definition VRING_DESC_F_NEXT : Z := 1.
Definition VRING_DESC_F_WRITE : Z := 2.
Definition VIRTIO_BLK_T_IN : Z := 0.
Definition VIRTIO_BLK_T_OUT : Z := 1.
(** Bytes of a block and of a sector. *)
Definition BLOCK : Z := 1024.
Definition SECTOR : Z := 512.

(** ** The state *)

(** What the address in a descriptor points to: [disk.ops[i]], the data of a
    buffer, or [disk.info[i].status]. *)
Inductive dma := DNull | DOps (i : Z) | DData (b : nat) | DStatus (i : Z).

Record virtq_desc := Desc {
  d_addr : dma;
  d_len : Z;
  d_flags : Z;
  d_next : Z;
}.
Record virtio_blk_req := Req {
  r_type : Z;
  r_reserved : Z;
  r_sector : Z;
}.

(** struct disk with its two rings; the lock is in [agents]. *)
Record vdisk := VDisk {
  vdesc : Z -> virtq_desc;
  avail_idx : Z;
  avail_ring : Z -> Z;
  ring_idx : Z;
  used_ring : Z -> Z;
  vfree : Z -> bool;
  used_idx : Z;
  info_b : Z -> option nat;
  info_status : Z -> Z;
  vops : Z -> virtio_blk_req;
}.

(** The fields of struct buf that the driver uses. *)
Record vbufs := VBufs {
  bflag : nat -> Z;
  bbytes : nat -> Z -> Z;
  bno : nat -> Z;
}.

(** The device: its bytes, how far it has read the available ring, the
    requests it works on with the number of sectors it has moved, and its
    registers. *)
Record device := Device {
  dbytes : Z -> Z;
  seen : Z;
  work : list (Z * Z);
  owes : bool;
  isr : Z;
  kicked : bool;
}.

(** Where a caller of [virtio_disk_rw(b, w)] is: before it has the lock; with
    the lock, about to allocate; asleep on [disk.free], or woken up; with its
    descriptors [idx], about to fill them in, to write the ring, to move its
    index, to notify the device, to look at [b->disk]; asleep on [b], or woken
    up; about to free the descriptors and return. *)
Inductive pc :=
| Idle
| Enter (b : nat) (w : bool)
| Alloc (b : nat) (w : bool)
| SleepFree (b : nat) (w : bool)
| WokenFree (b : nat) (w : bool)
| Fill (b : nat) (w : bool) (idx : list Z)
| Ring (b : nat) (w : bool) (idx : list Z)
| Bump (b : nat) (w : bool) (idx : list Z)
| Notify (b : nat) (w : bool) (idx : list Z)
| Wait (b : nat) (w : bool) (idx : list Z)
| SleepBuf (b : nat) (w : bool) (idx : list Z)
| WokenBuf (b : nat) (w : bool) (idx : list Z)
| Finish (b : nat) (w : bool) (idx : list Z).

(** Where the interrupt handler is. *)
Inductive ipc := IIdle | IEnter | IRead | IAck (st : Z) | ILoop.

Inductive agent := Caller (t : nat) | Handler.
Record agents := Agents {
  vdisk_lock : option agent;
  pcs : nat -> pc;
  hpc : ipc;
}.

Record vsys := VSys {
  dk : vdisk;
  bm : vbufs;
  dv : device;
  ag : agents;
}.

Definition on_dk (f : vdisk -> vdisk) (s : vsys) : vsys := VSys (f (dk s)) (bm s) (dv s) (ag s).
Definition on_bm (f : vbufs -> vbufs) (s : vsys) : vsys := VSys (dk s) (f (bm s)) (dv s) (ag s).
Definition on_dv (f : device -> device) (s : vsys) : vsys := VSys (dk s) (bm s) (f (dv s)) (ag s).
Definition on_ag (f : agents -> agents) (s : vsys) : vsys := VSys (dk s) (bm s) (dv s) (f (ag s)).

Definition set_desc (i : Z) (x : virtq_desc) (d : vdisk) : vdisk :=
  VDisk (upd (vdesc d) i x) (avail_idx d) (avail_ring d) (ring_idx d) (used_ring d) (vfree d) (used_idx d)
    (info_b d) (info_status d) (vops d).
Definition set_avail (idx : Z) (ring : Z -> Z) (d : vdisk) : vdisk :=
  VDisk (vdesc d) idx ring (ring_idx d) (used_ring d) (vfree d) (used_idx d) (info_b d) (info_status d) (vops d).
Definition set_used (idx : Z) (ring : Z -> Z) (d : vdisk) : vdisk :=
  VDisk (vdesc d) (avail_idx d) (avail_ring d) idx ring (vfree d) (used_idx d) (info_b d) (info_status d) (vops d).
Definition set_free (i : Z) (x : bool) (d : vdisk) : vdisk :=
  VDisk (vdesc d) (avail_idx d) (avail_ring d) (ring_idx d) (used_ring d) (upd (vfree d) i x) (used_idx d)
    (info_b d) (info_status d) (vops d).
Definition set_used_idx (x : Z) (d : vdisk) : vdisk :=
  VDisk (vdesc d) (avail_idx d) (avail_ring d) (ring_idx d) (used_ring d) (vfree d) x (info_b d) (info_status d)
    (vops d).
Definition set_info_b (i : Z) (x : option nat) (d : vdisk) : vdisk :=
  VDisk (vdesc d) (avail_idx d) (avail_ring d) (ring_idx d) (used_ring d) (vfree d) (used_idx d)
    (upd (info_b d) i x) (info_status d) (vops d).
Definition set_status (i : Z) (x : Z) (d : vdisk) : vdisk :=
  VDisk (vdesc d) (avail_idx d) (avail_ring d) (ring_idx d) (used_ring d) (vfree d) (used_idx d) (info_b d)
    (upd (info_status d) i x) (vops d).
Definition set_ops (i : Z) (x : virtio_blk_req) (d : vdisk) : vdisk :=
  VDisk (vdesc d) (avail_idx d) (avail_ring d) (ring_idx d) (used_ring d) (vfree d) (used_idx d) (info_b d)
    (info_status d) (upd (vops d) i x).

Definition set_bflag (b : nat) (x : Z) (m : vbufs) : vbufs := VBufs (upd (bflag m) b x) (bbytes m) (bno m).
Definition set_bbytes (b : nat) (x : Z -> Z) (m : vbufs) : vbufs := VBufs (bflag m) (upd (bbytes m) b x) (bno m).
Definition set_bno (b : nat) (x : Z) (m : vbufs) : vbufs := VBufs (bflag m) (bbytes m) (upd (bno m) b x).

Definition set_lock (x : option agent) (a : agents) : agents := Agents x (pcs a) (hpc a).
Definition set_pc (t : nat) (p : pc) (a : agents) : agents := Agents (vdisk_lock a) (upd (pcs a) t p) (hpc a).
Definition set_hpc (p : ipc) (a : agents) : agents := Agents (vdisk_lock a) (pcs a) p.

(** ** Locks and sleeping *)

Definition vacquire (me : agent) : M vsys unit :=
  let! l := gets (fun s => vdisk_lock (ag s)) in
  match l with
  | None => modify (on_ag (set_lock (Some me)))
  | Some _ => blocked
  end.
Definition vrelease : M vsys unit := modify (on_ag (set_lock None)).

(** The addresses that callers sleep on: [&disk.free[0]] and a buffer. *)
Inductive vchan := CFree | CBuf (b : nat).
Definition wake (c : vchan) (p : pc) : pc :=
  match c, p with
  | CFree, SleepFree b w => WokenFree b w
  | CBuf b', SleepBuf b w idx => if decide (b = b') then WokenBuf b w idx else p
  | _, _ => p
  end.
Definition vwakeup (c : vchan) : M vsys unit :=
  modify (on_ag (fun a => Agents (vdisk_lock a) (fun t => wake c (pcs a t)) (hpc a))).

(** ** Descriptors *)

Fixpoint alloc_desc_loop (left : nat) (i : Z) : M vsys Z :=
  match left with
  | O => ret (-1)
  | S left' =>
      let! f := gets (fun s => vfree (dk s) i) in
      if f then modify (on_dk (set_free i false)) ;; ret i else alloc_desc_loop left' (i + 1)
  end.
Definition alloc_desc : M vsys Z := alloc_desc_loop (Z.to_nat NUM) 0.

Definition free_desc (i : Z) : M vsys unit :=
  if i >=? NUM then panic "free_desc 1"
  else
    let! f := gets (fun s => vfree (dk s) i) in
    if f then panic "free_desc 2"
    else
      modify (on_dk (set_desc i (Desc DNull 0 0 0))) ;;
      modify (on_dk (set_free i true)) ;;
      vwakeup CFree.

(** A descriptor is freed once, so that the chain ends within [NUM] turns. *)
Fixpoint free_chain_loop (left : nat) (i : Z) : M vsys unit :=
  match left with
  | O => out_of_fuel
  | S left' =>
      let! d := gets (fun s => vdesc (dk s) i) in
      free_desc i ;;
      if Z.land (d_flags d) VRING_DESC_F_NEXT =? 0 then ret tt else free_chain_loop left' (d_next d)
  end.
Definition free_chain (i : Z) : M vsys unit := free_chain_loop (S (Z.to_nat NUM)) i.

(** The indices, or nothing where the code returns -1. *)
Fixpoint alloc3_loop (left : nat) (idx : list Z) : M vsys (option (list Z)) :=
  match left with
  | O => ret (Some idx)
  | S left' =>
      let! i := alloc_desc in
      if i <? 0 then for_each idx free_desc ;; ret None else alloc3_loop left' (idx ++ [i])
  end.
Definition alloc3_desc : M vsys (option (list Z)) := alloc3_loop 3 [].

(** ** virtio_disk_rw *)

Definition ix (idx : list Z) (k : nat) : Z := nth k idx 0.

(** The stores that make up the request, up to the record for the handler. *)
Definition fill_in (b : nat) (w : bool) (idx : list Z) : M vsys unit :=
  let! no := gets (fun s => bno (bm s) b) in
  let sector := u32 (no * (BLOCK / SECTOR)) in
  modify (on_dk (set_ops (ix idx 0) (Req (if w then VIRTIO_BLK_T_OUT else VIRTIO_BLK_T_IN) 0 sector))) ;;
  modify (on_dk (set_desc (ix idx 0) (Desc (DOps (ix idx 0)) 16 VRING_DESC_F_NEXT (ix idx 1)))) ;;
  modify (on_dk (set_desc (ix idx 1)
    (Desc (DData b) BLOCK (Z.lor (if w then 0 else VRING_DESC_F_WRITE) VRING_DESC_F_NEXT) (ix idx 2)))) ;;
  modify (on_dk (set_status (ix idx 0) 255)) ;;
  modify (on_dk (set_desc (ix idx 2) (Desc (DStatus (ix idx 0)) 1 VRING_DESC_F_WRITE 0))) ;;
  modify (on_bm (set_bflag b 1)) ;;
  modify (on_dk (set_info_b (ix idx 0) (Some b))).

Definition go (t : nat) (p : pc) : M vsys unit := modify (on_ag (set_pc t p)).

(** The step of caller [t] from where it is; the result says whether the call
    returns with it. *)
Definition virtio_disk_rw (t : nat) : M vsys bool :=
  let! p := gets (fun s => pcs (ag s) t) in
  match p with
  | Idle | SleepFree _ _ | SleepBuf _ _ _ => blocked
  | Enter b w | WokenFree b w => vacquire (Caller t) ;; go t (Alloc b w) ;; ret false
  | Alloc b w =>
      let! r := alloc3_desc in
      match r with
      | Some idx => go t (Fill b w idx) ;; ret false
      | None => vrelease ;; go t (SleepFree b w) ;; ret false
      end
  | Fill b w idx => fill_in b w idx ;; go t (Ring b w idx) ;; ret false
  | Ring b w idx =>
      modify (on_dk (fun d => set_avail (avail_idx d) (upd (avail_ring d) (avail_idx d mod NUM) (ix idx 0)) d)) ;;
      go t (Bump b w idx) ;; ret false
  | Bump b w idx =>
      modify (on_dk (fun d => set_avail (u16 (avail_idx d + 1)) (avail_ring d) d)) ;;
      go t (Notify b w idx) ;; ret false
  | Notify b w idx =>
      modify (on_dv (fun v => Device (dbytes v) (seen v) (work v) (owes v) (isr v) true)) ;;
      go t (Wait b w idx) ;; ret false
  | Wait b w idx =>
      let! x := gets (fun s => bflag (bm s) b) in
      if x =? 1 then vrelease ;; go t (SleepBuf b w idx) ;; ret false
      else go t (Finish b w idx) ;; ret false
  | WokenBuf b w idx => vacquire (Caller t) ;; go t (Wait b w idx) ;; ret false
  | Finish b w idx =>
      modify (on_dk (set_info_b (ix idx 0) None)) ;;
      free_chain (ix idx 0) ;;
      vrelease ;; go t Idle ;; ret true
  end.

(** ** virtio_disk_intr

    The step of the handler; the device's interrupt starts it. *)
Definition virtio_disk_intr : M vsys unit :=
  let! p := gets (fun s => hpc (ag s)) in
  let next p := modify (on_ag (set_hpc p)) in
  match p with
  | IIdle => let! i := gets (fun s => isr (dv s)) in if i =? 0 then blocked else next IEnter
  | IEnter => vacquire Handler ;; next IRead
  | IRead => let! i := gets (fun s => isr (dv s)) in next (IAck (Z.land i 3))
  | IAck st =>
      modify (on_dv (fun v => Device (dbytes v) (seen v) (work v) (owes v) (Z.ldiff (isr v) st) (kicked v))) ;;
      next ILoop
  | ILoop =>
      let! d := gets dk in
      if used_idx d =? ring_idx d then vrelease ;; next IIdle
      else
        let id := used_ring d (used_idx d mod NUM) in
        if negb (info_status d id =? 0) then panic "virtio_disk_intr status"
        else
          match info_b d id with
          | None => panic "null pointer"
          | Some b =>
              modify (on_bm (set_bflag b 0)) ;;
              vwakeup (CBuf b) ;;
              modify (on_dk (set_used_idx (u16 (used_idx d + 1))))
          end
  end.

(** ** The device

    The request that starts at descriptor [h]: its header, the buffer and the
    number of bytes, and where the status goes. *)
Definition request (d : vdisk) (h : Z) : option (virtio_blk_req * nat * Z * Z) :=
  let d0 := vdesc d h in
  let d1 := vdesc d (d_next d0) in
  let d2 := vdesc d (d_next d1) in
  match d_addr d0, d_addr d1, d_addr d2 with
  | DOps i, DData b, DStatus j =>
      if Z.testbit (d_flags d0) 0 && Z.testbit (d_flags d1) 0 && negb (Z.testbit (d_flags d2) 0) &&
         eqb (Z.testbit (d_flags d1) 1) (r_type (vops d i) =? VIRTIO_BLK_T_IN)
      then Some (vops d i, b, d_len d1, j) else None
  | _, _, _ => None
  end.

(** Sector [k] of a request moves between the buffer and the device. *)
Definition move_in (sector k : Z) (disk data : Z -> Z) : Z -> Z :=
  fun o => if (k * SECTOR <=? o) && (o <? (k + 1) * SECTOR) then disk (sector * SECTOR + o) else data o.
Definition move_out (sector k : Z) (data disk : Z -> Z) : Z -> Z :=
  fun x => let o := x - sector * SECTOR in
           if (k * SECTOR <=? o) && (o <? (k + 1) * SECTOR) then data o else disk x.

(** With [polls] the device may also look at the available ring without
    having been notified. *)
Inductive device_step (polls : bool) : vsys -> vsys -> Prop :=
| dev_take s :
    polls = true \/ kicked (dv s) = true -> seen (dv s) <> avail_idx (dk s) ->
    device_step polls s (on_dv (fun v => Device (dbytes v) (u16 (seen v + 1))
      (work v ++ [(avail_ring (dk s) (seen v mod NUM), 0)]) (owes v) (isr v) (kicked v)) s)
| dev_rest s :
    seen (dv s) = avail_idx (dk s) ->
    device_step polls s (on_dv (fun v => Device (dbytes v) (seen v) (work v) (owes v) (isr v) false) s)
| dev_read s w1 h k w2 r b len j :
    work (dv s) = w1 ++ (h, k) :: w2 -> request (dk s) h = Some (r, b, len, j) ->
    r_type r = VIRTIO_BLK_T_IN -> k * SECTOR < len ->
    device_step polls s (on_bm (fun m => set_bbytes b (move_in (r_sector r) k (dbytes (dv s)) (bbytes m b)) m)
      (on_dv (fun v => Device (dbytes v) (seen v) (w1 ++ (h, k + 1) :: w2) (owes v) (isr v) (kicked v)) s))
| dev_write s w1 h k w2 r b len j :
    work (dv s) = w1 ++ (h, k) :: w2 -> request (dk s) h = Some (r, b, len, j) ->
    r_type r = VIRTIO_BLK_T_OUT -> k * SECTOR < len ->
    device_step polls s (on_dv (fun v => Device (move_out (r_sector r) k (bbytes (bm s) b) (dbytes v)) (seen v)
      (w1 ++ (h, k + 1) :: w2) (owes v) (isr v) (kicked v)) s)
| dev_done s w1 h k w2 r b len j :
    work (dv s) = w1 ++ (h, k) :: w2 -> request (dk s) h = Some (r, b, len, j) -> len <= k * SECTOR ->
    device_step polls s
      (on_dk (fun d => set_status j 0 (set_used (u16 (ring_idx d + 1)) (upd (used_ring d) (ring_idx d mod NUM) h) d))
      (on_dv (fun v => Device (dbytes v) (seen v) (w1 ++ w2) true (isr v) (kicked v)) s))
| dev_interrupt s :
    owes (dv s) = true ->
    device_step polls s (on_dv (fun v => Device (dbytes v) (seen v) (work v) false (Z.lor (isr v) 1) (kicked v)) s).

(** ** The system

    The callers hold the sleep lock of their buffer, and two buffers in use
    are for different blocks; outside of the driver, the rest of the kernel
    changes a buffer as it likes. *)

Definition request_of (p : pc) : option (nat * bool) :=
  match p with
  | Idle => None
  | Enter b w | Alloc b w | SleepFree b w | WokenFree b w => Some (b, w)
  | Fill b w _ | Ring b w _ | Bump b w _ | Notify b w _ | Wait b w _ | SleepBuf b w _ | WokenBuf b w _
  | Finish b w _ => Some (b, w)
  end.

(** What the rest of the kernel sees. *)
Inductive event :=
| ECall (t b : nat) (w : bool)
| EReturn (t : nat)
| EChange (b : nat) (no : Z) (data : Z -> Z).

Inductive disk_step (polls : bool) : vsys -> option event -> vsys -> Prop :=
| step_call t b w s :
    pcs (ag s) t = Idle ->
    (forall t' b' w', request_of (pcs (ag s) t') = Some (b', w') -> b' <> b /\ bno (bm s) b' <> bno (bm s) b) ->
    disk_step polls s (Some (ECall t b w)) (on_ag (set_pc t (Enter b w)) s)
| step_change b no data s :
    (forall t w, request_of (pcs (ag s) t) <> Some (b, w)) -> 0 <= no < 2 ^ 31 ->
    disk_step polls s (Some (EChange b no data)) (on_bm (fun m => set_bno b no (set_bbytes b data m)) s)
| step_caller t s s' :
    virtio_disk_rw t s = Ret (false, s') -> disk_step polls s None s'
| step_return t s s' :
    virtio_disk_rw t s = Ret (true, s') -> disk_step polls s (Some (EReturn t)) s'
| step_handler s s' : virtio_disk_intr s = Ret (tt, s') -> disk_step polls s None s'
| step_device s s' : device_step polls s s' -> disk_step polls s None s'.

(** The state that [virtio_disk_init] leaves, on a disk with bytes [disk]. *)
Definition vinit (disk : Z -> Z) : vsys :=
  VSys (VDisk (fun _ => Desc DNull 0 0 0) 0 (fun _ => 0) 0 (fun _ => 0) (fun _ => true) 0 (fun _ => None)
          (fun _ => 0) (fun _ => Req 0 0 0))
       (VBufs (fun _ => 0) (fun _ _ => 0) (fun _ => 0))
       (Device disk 0 [] false 0 false)
       (Agents None (fun _ => Idle) IIdle).

(** A run and what it shows. *)
Definition shown (e : option event) : list event := match e with Some e => [e] | None => [] end.
Inductive disk_run (polls : bool) : vsys -> list event -> vsys -> Prop :=
| run_nil s : disk_run polls s [] s
| run_snoc s tr s1 e s2 : disk_run polls s tr s1 -> disk_step polls s1 e s2 -> disk_run polls s (tr ++ shown e) s2.
#[global] Arguments run_nil {polls}.
#[global] Arguments run_snoc {polls}.
#[global] Arguments dev_take {polls}.
#[global] Arguments dev_read {polls}.
#[global] Arguments dev_write {polls}.
#[global] Arguments dev_done {polls}.
#[global] Arguments dev_interrupt {polls}.
#[global] Arguments step_caller {polls}.

(** ** What a disk should be

    A block moves in one step, some time between the call and the return. *)

Inductive apc := AIdle | ACalled (b : nat) (w : bool) | ADone (b : nat) (w : bool).
Definition arequest_of (p : apc) : option (nat * bool) :=
  match p with AIdle => None | ACalled b w | ADone b w => Some (b, w) end.
Record asys := ASys {
  a_disk : Z -> Z;
  a_data : nat -> Z -> Z;
  a_no : nat -> Z;
  a_pcs : nat -> apc;
}.

Inductive atomic_step : asys -> option event -> asys -> Prop :=
| a_call t b w a :
    a_pcs a t = AIdle ->
    (forall t' b' w', arequest_of (a_pcs a t') = Some (b', w') -> b' <> b /\ a_no a b' <> a_no a b) ->
    atomic_step a (Some (ECall t b w)) (ASys (a_disk a) (a_data a) (a_no a) (upd (a_pcs a) t (ACalled b w)))
| a_change b no data a :
    (forall t w, arequest_of (a_pcs a t) <> Some (b, w)) -> 0 <= no < 2 ^ 31 ->
    atomic_step a (Some (EChange b no data)) (ASys (a_disk a) (upd (a_data a) b data) (upd (a_no a) b no) (a_pcs a))
| a_read t b a :
    a_pcs a t = ACalled b false ->
    atomic_step a None (ASys (a_disk a)
      (upd (a_data a) b (fun o => if (0 <=? o) && (o <? BLOCK) then a_disk a (a_no a b * BLOCK + o) else a_data a b o))
      (a_no a) (upd (a_pcs a) t (ADone b false)))
| a_write t b a :
    a_pcs a t = ACalled b true ->
    atomic_step a None (ASys
      (fun x => let o := x - a_no a b * BLOCK in if (0 <=? o) && (o <? BLOCK) then a_data a b o else a_disk a x)
      (a_data a) (a_no a) (upd (a_pcs a) t (ADone b true)))
| a_return t b w a :
    a_pcs a t = ADone b w ->
    atomic_step a (Some (EReturn t)) (ASys (a_disk a) (a_data a) (a_no a) (upd (a_pcs a) t AIdle)).

Inductive atomic_run : asys -> list event -> asys -> Prop :=
| arun_nil a : atomic_run a [] a
| arun_snoc a tr a1 e a2 : atomic_run a tr a1 -> atomic_step a1 e a2 -> atomic_run a (tr ++ shown e) a2.

Definition ainit (disk : Z -> Z) : asys := ASys disk (fun _ _ => 0) (fun _ => 0) (fun _ => AIdle).

(** The two agree wherever no call is under way. *)
Definition agree (s : vsys) (a : asys) : Prop :=
  (forall b, bno (bm s) b = a_no a b) /\
  (forall t, request_of (pcs (ag s) t) = arequest_of (a_pcs a t)) /\
  (forall b o, (forall t w, request_of (pcs (ag s) t) <> Some (b, w)) -> bbytes (bm s) b o = a_data a b o) /\
  (forall n o, 0 <= o < BLOCK ->
     (forall t b w, request_of (pcs (ag s) t) = Some (b, w) -> bno (bm s) b <> n) ->
     dbytes (dv s) (n * BLOCK + o) = a_disk a (n * BLOCK + o)).

(** ** virtio_disk_init *)

Definition VIRTIO_MMIO_MAGIC_VALUE : Z := 0x000.
Definition VIRTIO_MMIO_VERSION : Z := 0x004.
Definition VIRTIO_MMIO_DEVICE_ID : Z := 0x008.
Definition VIRTIO_MMIO_VENDOR_ID : Z := 0x00c.
Definition VIRTIO_MMIO_DEVICE_FEATURES : Z := 0x010.
Definition VIRTIO_MMIO_DRIVER_FEATURES : Z := 0x020.
Definition VIRTIO_MMIO_QUEUE_SEL : Z := 0x030.
Definition VIRTIO_MMIO_QUEUE_NUM_MAX : Z := 0x034.
Definition VIRTIO_MMIO_QUEUE_NUM : Z := 0x038.
Definition VIRTIO_MMIO_QUEUE_READY : Z := 0x044.
Definition VIRTIO_MMIO_STATUS : Z := 0x070.
Definition VIRTIO_MMIO_QUEUE_DESC_LOW : Z := 0x080.
Definition VIRTIO_MMIO_QUEUE_DESC_HIGH : Z := 0x084.
Definition VIRTIO_MMIO_DRIVER_DESC_LOW : Z := 0x090.
Definition VIRTIO_MMIO_DRIVER_DESC_HIGH : Z := 0x094.
Definition VIRTIO_MMIO_DEVICE_DESC_LOW : Z := 0x0a0.
Definition VIRTIO_MMIO_DEVICE_DESC_HIGH : Z := 0x0a4.
Definition VIRTIO_CONFIG_S_ACKNOWLEDGE : Z := 1.
Definition VIRTIO_CONFIG_S_DRIVER : Z := 2.
Definition VIRTIO_CONFIG_S_DRIVER_OK : Z := 4.
Definition VIRTIO_CONFIG_S_FEATURES_OK : Z := 8.
Definition VIRTIO_BLK_F_RO : Z := 5.
Definition VIRTIO_BLK_F_SCSI : Z := 7.
Definition VIRTIO_BLK_F_CONFIG_WCE : Z := 11.
Definition VIRTIO_BLK_F_MQ : Z := 12.
Definition VIRTIO_F_ANY_LAYOUT : Z := 27.
Definition VIRTIO_RING_F_INDIRECT_DESC : Z := 28.
Definition VIRTIO_RING_F_EVENT_IDX : Z := 29.

(** The registers of the device, and kalloc. *)
Class VirtioEnv (S : Type) := {
  mmio_read : Z -> M S Z;
  mmio_write : Z -> Z -> M S unit;
  page_alloc : M S Z;
}.

(** [features &= ~(1 << bit)], on a uint64. *)
Definition without (features bit : Z) : Z := u64 (Z.ldiff features (Z.shiftl 1 bit)).

Section init.
Context {S : Type} `{VE : VirtioEnv S}.
Definition env_io {A} (m : M S A) : M (vdisk * S) A := zoom snd (fun s x => (fst x, s)) m.
(** [*R(r)], a uint32, and stores to it. *)
Definition R (r : Z) : M (vdisk * S) Z := env_io (mmio_read r).
Definition R_set (r v : Z) : M (vdisk * S) unit := env_io (mmio_write r (u32 v)).

Definition virtio_disk_init : M (vdisk * S) unit :=
  let! magic := R VIRTIO_MMIO_MAGIC_VALUE in
  let! found := (if negb (magic =? 0x74726976) then ret false else
    let! version := R VIRTIO_MMIO_VERSION in
    if negb (version =? 2) then ret false else
    let! id := R VIRTIO_MMIO_DEVICE_ID in
    if negb (id =? 2) then ret false else
    let! vendor := R VIRTIO_MMIO_VENDOR_ID in
    ret (vendor =? 0x554d4551)) in
  if negb found then panic "could not find virtio disk" else
  R_set VIRTIO_MMIO_STATUS 0 ;;
  let status := VIRTIO_CONFIG_S_ACKNOWLEDGE in
  R_set VIRTIO_MMIO_STATUS status ;;
  let status := Z.lor status VIRTIO_CONFIG_S_DRIVER in
  R_set VIRTIO_MMIO_STATUS status ;;
  let! features := R VIRTIO_MMIO_DEVICE_FEATURES in
  let features := without features VIRTIO_BLK_F_RO in
  let features := without features VIRTIO_BLK_F_SCSI in
  let features := without features VIRTIO_BLK_F_CONFIG_WCE in
  let features := without features VIRTIO_BLK_F_MQ in
  let features := without features VIRTIO_F_ANY_LAYOUT in
  let features := without features VIRTIO_RING_F_EVENT_IDX in
  let features := without features VIRTIO_RING_F_INDIRECT_DESC in
  R_set VIRTIO_MMIO_DRIVER_FEATURES features ;;
  let status := Z.lor status VIRTIO_CONFIG_S_FEATURES_OK in
  R_set VIRTIO_MMIO_STATUS status ;;
  let! status := R VIRTIO_MMIO_STATUS in
  if Z.land status VIRTIO_CONFIG_S_FEATURES_OK =? 0 then panic "virtio disk FEATURES_OK unset" else
  R_set VIRTIO_MMIO_QUEUE_SEL 0 ;;
  let! ready := R VIRTIO_MMIO_QUEUE_READY in
  if negb (ready =? 0) then panic "virtio disk should not be ready" else
  let! max := R VIRTIO_MMIO_QUEUE_NUM_MAX in
  if max =? 0 then panic "virtio disk has no queue 0" else
  if max <? NUM then panic "virtio disk max queue too short" else
  let! desc := env_io page_alloc in
  let! avail := env_io page_alloc in
  let! used := env_io page_alloc in
  if (desc =? 0) || (avail =? 0) || (used =? 0) then panic "virtio disk kalloc" else
  modify (fun x => (VDisk (fun _ => Desc DNull 0 0 0) 0 (fun _ => 0) 0 (fun _ => 0) (vfree (fst x)) (used_idx (fst x))
                      (info_b (fst x)) (info_status (fst x)) (vops (fst x)), snd x)) ;;
  R_set VIRTIO_MMIO_QUEUE_NUM NUM ;;
  R_set VIRTIO_MMIO_QUEUE_DESC_LOW desc ;;
  R_set VIRTIO_MMIO_QUEUE_DESC_HIGH (Z.shiftr desc 32) ;;
  R_set VIRTIO_MMIO_DRIVER_DESC_LOW avail ;;
  R_set VIRTIO_MMIO_DRIVER_DESC_HIGH (Z.shiftr avail 32) ;;
  R_set VIRTIO_MMIO_DEVICE_DESC_LOW used ;;
  R_set VIRTIO_MMIO_DEVICE_DESC_HIGH (Z.shiftr used 32) ;;
  R_set VIRTIO_MMIO_QUEUE_READY 1 ;;
  for_each (seqZ 0 NUM) (fun i => modify (fun x => (set_free i true (fst x), snd x))) ;;
  let status := Z.lor status VIRTIO_CONFIG_S_DRIVER_OK in
  R_set VIRTIO_MMIO_STATUS status.
End init.
