(* ===== verification/VirtioInv.v ===== *)
(** * The disk driver: its invariant

    Who owns which descriptors, where every request is (in the available
    ring, with the device, in the used ring, or done), and who will wake up a
    sleeping caller; every step of a caller, of the handler and of the device
    preserves it. *)

From S2P Require Import Prelude Virtio.

(** ** Rings *)

(** The entries of [ring] from [lo] up to [hi] are [q], oldest first. *)
Record window (ring : Z -> Z) (lo hi : Z) (q : list Z) : Prop := {
  w_lo : 0 <= lo < 2 ^ 16;
  w_hi : hi = u16 (lo + Z.of_nat (length q));
  w_len : Z.of_nat (length q) <= NUM;
  w_at : forall k x, q !! k = Some x -> ring ((lo + Z.of_nat k) mod NUM) = x;
}.

Lemma window_nil ring lo : 0 <= lo < 2 ^ 16 -> window ring lo lo [].
Proof. intros. split; simpl; try done; unfold u16, NUM; lia. Qed.
Lemma window_empty ring lo hi q : window ring lo hi q -> (lo = hi <-> q = []).
Proof.
  intros [H1 H2 H3 _]. rewrite H2. unfold u16, NUM in *. destruct q; simpl in *; split; intros; try done; lia.
Qed.
Lemma window_slot ring lo hi q x :
  window ring lo hi q -> Z.of_nat (length q) < NUM -> window (upd ring (hi mod NUM) x) lo hi q.
Proof.
  intros [H1 H2 H3 H4] Hl. split; try done. intros k y Hk. pose proof (lookup_lt_Some _ _ _ Hk).
  rewrite upd_other; [by apply H4|]. rewrite H2. unfold u16, NUM in *. lia.
Qed.
Lemma window_bump ring lo hi q x :
  window ring lo hi q -> Z.of_nat (length q) < NUM -> ring (hi mod NUM) = x -> window ring lo (u16 (hi + 1)) (q ++ [x]).
Proof.
  intros [H1 H2 H3 H4] Hl Hx. split; rewrite ?length_app; simpl; try done; try lia.
  - rewrite H2. unfold u16. lia.
  - intros k y Hk. apply lookup_app_Some in Hk as [Hk|[Hge Hk]]; [by apply H4|].
    apply list_lookup_singleton_Some in Hk as [E <-]. rewrite <-Hx. f_equal. rewrite H2. unfold u16, NUM in *. lia.
Qed.
Lemma window_push ring lo hi q x :
  window ring lo hi q -> Z.of_nat (length q) < NUM -> window (upd ring (hi mod NUM) x) lo (u16 (hi + 1)) (q ++ [x]).
Proof. intros. apply window_bump; [by apply window_slot|done|apply upd_same]. Qed.
Lemma window_pop ring lo hi x q :
  window ring lo hi (x :: q) -> ring (lo mod NUM) = x /\ window ring (u16 (lo + 1)) hi q.
Proof.
  intros [H1 H2 H3 H4]. simpl length in *. split; [rewrite <-(H4 O x) by done; f_equal; f_equal; lia|].
  split.
  - unfold u16. lia.
  - rewrite H2. unfold u16. lia.
  - lia.
  - intros k y Hk. rewrite <-(H4 (S k) y) by done. f_equal. unfold u16, NUM. lia.
Qed.

(** ** Descriptors and requests *)

Definition in_range (i : Z) : Prop := 0 <= i < NUM.

Lemma nodup_range (l : list Z) : NoDup l -> (forall i, i ∈ l -> in_range i) -> Z.of_nat (length l) <= NUM.
Proof.
  intros Hn Hr. assert (length l <= length (seqZ 0 8))%nat as Hl.
  { apply submseteq_length, NoDup_submseteq; [done|]. intros i Hi. apply elem_of_seqZ.
    specialize (Hr i Hi). unfold in_range, NUM in Hr. lia. }
  rewrite length_seqZ in Hl. unfold NUM. lia.
Qed.

(** What matters of the position of a caller: no descriptors yet, its
    descriptors allocated, filled in, written to the ring, published, or its
    request known to be done. *)
Inductive view :=
| VIdle
| VCall (b : nat) (w : bool)
| VOwn (b : nat) (w : bool) (idx : list Z)
| VFmt (b : nat) (w : bool) (idx : list Z)
| VRing (b : nat) (w : bool) (idx : list Z)
| VPub (b : nat) (w : bool) (idx : list Z)
| VFin (b : nat) (w : bool) (idx : list Z).

Definition view_of (p : pc) : view :=
  match p with
  | Idle => VIdle
  | Enter b w | Alloc b w | SleepFree b w | WokenFree b w => VCall b w
  | Fill b w idx => VOwn b w idx
  | Ring b w idx => VFmt b w idx
  | Bump b w idx => VRing b w idx
  | Notify b w idx | Wait b w idx | SleepBuf b w idx | WokenBuf b w idx => VPub b w idx
  | Finish b w idx => VFin b w idx
  end.
Definition vreq (x : view) : option (nat * bool) :=
  match x with
  | VIdle => None
  | VCall b w | VOwn b w _ | VFmt b w _ | VRing b w _ | VPub b w _ | VFin b w _ => Some (b, w)
  end.
Definition vidx (x : view) : option (list Z) :=
  match x with
  | VIdle | VCall _ _ => None
  | VOwn _ _ idx | VFmt _ _ idx | VRing _ _ idx | VPub _ _ idx | VFin _ _ idx => Some idx
  end.
Definition vfmt (x : view) : option (nat * bool * list Z) :=
  match x with
  | VIdle | VCall _ _ | VOwn _ _ _ => None
  | VFmt b w idx | VRing b w idx | VPub b w idx | VFin b w idx => Some (b, w, idx)
  end.
(** In the part of the code that writes the available ring. *)
Definition vposting (x : view) : bool :=
  match x with VOwn _ _ _ | VFmt _ _ _ | VRing _ _ _ => true | _ => false end.

Lemma request_view p : request_of p = vreq (view_of p).
Proof. by destruct p. Qed.
Lemma fmt_idx x b w idx : vfmt x = Some (b, w, idx) -> vidx x = Some idx /\ vreq x = Some (b, w).
Proof. by destruct x; intros [= -> -> ->]. Qed.

Definition chain_wf (idx : list Z) : Prop :=
  exists i0 i1 i2, idx = [i0; i1; i2] /\ NoDup idx /\ forall i, i ∈ idx -> in_range i.

(** Which descriptors the callers own. *)
Record own (vw : nat -> view) (fr : Z -> bool) : Prop := {
  o_wf : forall t idx, vidx (vw t) = Some idx -> chain_wf idx;
  o_used : forall t idx i, vidx (vw t) = Some idx -> i ∈ idx -> fr i = false;
  o_disj : forall t t' idx idx' i, vidx (vw t) = Some idx -> vidx (vw t') = Some idx' -> i ∈ idx -> i ∈ idx' -> t = t';
  o_cover : forall i, in_range i -> fr i = false -> exists t idx, vidx (vw t) = Some idx /\ i ∈ idx;
}.

(** No two callers use a buffer or a block. *)
Definition excl (vw : nat -> view) (bn : nat -> Z) : Prop :=
  (forall b, 0 <= bn b < 2 ^ 31) /\
  forall t t' b w b' w', vreq (vw t) = Some (b, w) -> vreq (vw t') = Some (b', w') -> t <> t' ->
    b <> b' /\ bn b <> bn b'.

Record formatted (d : vdisk) (bn : nat -> Z) (b : nat) (w : bool) (idx : list Z) : Prop := {
  f_desc0 : vdesc d (ix idx 0) = Desc (DOps (ix idx 0)) 16 VRING_DESC_F_NEXT (ix idx 1);
  f_desc1 : vdesc d (ix idx 1) =
    Desc (DData b) BLOCK (Z.lor (if w then 0 else VRING_DESC_F_WRITE) VRING_DESC_F_NEXT) (ix idx 2);
  f_desc2 : vdesc d (ix idx 2) = Desc (DStatus (ix idx 0)) 1 VRING_DESC_F_WRITE 0;
  f_ops : vops d (ix idx 0) = Req (if w then VIRTIO_BLK_T_OUT else VIRTIO_BLK_T_IN) 0 (bn b * 2);
  f_info : info_b d (ix idx 0) = Some b;
}.

(** Where the requests are: [qa] in the available ring, [hs] with the device,
    [qu] in the used ring. *)
Record queues (vw : nat -> view) (d : vdisk) (bf : nat -> Z) (sn : Z) (hs qa qu : list Z) : Prop := {
  q_slot : forall t b w idx, vw t = VRing b w idx -> avail_ring d (avail_idx d mod NUM) = ix idx 0;
  q_avail : window (avail_ring d) sn (avail_idx d) qa;
  q_used : window (used_ring d) (used_idx d) (ring_idx d) qu;
  q_nodup : NoDup (qa ++ hs ++ qu);
  q_heads : forall h, h ∈ qa ++ hs ++ qu -> exists t b w idx, vw t = VPub b w idx /\ ix idx 0 = h /\ bf b = 1;
  q_pub : forall t b w idx, vw t = VPub b w idx -> bf b = 0 \/ (bf b = 1 /\ ix idx 0 ∈ qa ++ hs ++ qu);
  q_fin : forall t b w idx, vw t = VFin b w idx -> bf b = 0;
  q_armed : forall t b w idx, vw t = VFmt b w idx \/ vw t = VRing b w idx -> bf b = 1;
  q_status : forall h, h ∈ qu -> info_status d h = 0;
}.

Record data_inv (vw : nat -> view) (d : vdisk) (bf : nat -> Z) (bn : nat -> Z) (sn : Z) (hs qa qu : list Z) : Prop := {
  i_own : own vw (vfree d);
  i_excl : excl vw bn;
  i_fmt : forall t b w idx, vfmt (vw t) = Some (b, w, idx) -> formatted d bn b w idx;
  i_queues : queues vw d bf sn hs qa qu;
}.

(** ** Facts about the invariant *)

Lemma chain_ix idx : chain_wf idx ->
  idx = [ix idx 0; ix idx 1; ix idx 2] /\ in_range (ix idx 0) /\ in_range (ix idx 1) /\ in_range (ix idx 2) /\
  ix idx 0 <> ix idx 1 /\ ix idx 0 <> ix idx 2 /\ ix idx 1 <> ix idx 2.
Proof.
  intros (i0 & i1 & i2 & -> & Hn & Hr). unfold ix. cbn [nth].
  apply NoDup_cons in Hn as [H1 Hn]. apply NoDup_cons in Hn as [H2 _]. set_unfold.
  split_and!; try done; try apply Hr; auto; intros E; subst; naive_solver.
Qed.
Lemma chain_elem idx i : chain_wf idx -> i ∈ idx <-> i = ix idx 0 \/ i = ix idx 1 \/ i = ix idx 2.
Proof. intros (i0 & i1 & i2 & -> & _). unfold ix. cbn [nth]. set_solver. Qed.
Lemma chain_head idx : chain_wf idx -> ix idx 0 ∈ idx.
Proof. intros H. apply chain_elem; auto. Qed.

Lemma request_formatted d bn b w idx : formatted d bn b w idx ->
  request d (ix idx 0) = Some (Req (if w then VIRTIO_BLK_T_OUT else VIRTIO_BLK_T_IN) 0 (bn b * 2), b, BLOCK, ix idx 0).
Proof. intros [H0 H1 H2 H3 H4]. unfold request. rewrite H0. cbn. rewrite H1. cbn. rewrite H2. cbn. rewrite H3. by destruct w. Qed.

Lemma formatted_same d d' bn b w idx : vdesc d' = vdesc d -> vops d' = vops d -> info_b d' = info_b d ->
  formatted d bn b w idx -> formatted d' bn b w idx.
Proof. intros E1 E2 E3 [H0 H1 H2 H3 H4]. split; by rewrite ?E1, ?E2, ?E3. Qed.

Section facts.
Context {vw : nat -> view} {d : vdisk} {bf bn : nat -> Z} {sn : Z} {hs qa qu : list Z}.
Context (I : data_inv vw d bf bn sn hs qa qu).

Lemma inv_wf t idx : vidx (vw t) = Some idx -> chain_wf idx.
Proof using I. apply (o_wf _ _ (i_own _ _ _ _ _ _ _ _ I)). Qed.

(** The request in a queue: who posted it, and what the device reads. *)
Lemma inv_head h : h ∈ qa ++ hs ++ qu -> exists t b w idx,
  vw t = VPub b w idx /\ ix idx 0 = h /\ bf b = 1 /\ formatted d bn b w idx /\ chain_wf idx.
Proof using I.
  intros Hh. destruct (q_heads _ _ _ _ _ _ _ (i_queues _ _ _ _ _ _ _ _ I) h Hh) as (t & b & w & idx & E & E0 & Eb).
  exists t, b, w, idx. split_and!; try done.
  - apply (i_fmt _ _ _ _ _ _ _ _ I t). by rewrite E.
  - apply (inv_wf t). by rewrite E.
Qed.

(** A caller whose request is not published has no entry in the queues. *)
Lemma inv_fresh t idx : vidx (vw t) = Some idx -> (forall b w idx, vw t <> VPub b w idx) ->
  ix idx 0 ∉ qa ++ hs ++ qu.
Proof using I.
  intros Ei Hn Hin. destruct (inv_head _ Hin) as (t' & b' & w' & idx' & E & E0 & _ & _ & Hc').
  pose proof (inv_wf _ _ Ei) as Hc.
  assert (t = t') as ->.
  { apply (o_disj _ _ (i_own _ _ _ _ _ _ _ _ I) t t' idx idx' (ix idx 0)); [done|by rewrite E|by apply chain_head|].
    rewrite <-E0. by apply chain_head. }
  by apply Hn in E.
Qed.

Lemma inv_range h : h ∈ qa ++ hs ++ qu -> in_range h.
Proof using I. intros Hh. destruct (inv_head h Hh) as (t & b & w & idx & E & <- & _ & _ & Hc). by apply chain_ix in Hc as (_ & ? & _). Qed.

Lemma inv_len h : in_range h -> h ∉ qa ++ hs ++ qu -> Z.of_nat (length qa) < NUM /\ Z.of_nat (length qu) < NUM.
Proof using I.
  intros Hr Hn. pose proof (q_nodup _ _ _ _ _ _ _ (i_queues _ _ _ _ _ _ _ _ I)) as Hd.
  pose proof (nodup_range (h :: qa ++ hs ++ qu)) as Hl. rewrite NoDup_cons in Hl. simpl in Hl.
  rewrite !length_app in Hl. cut (Z.of_nat (S (length qa + (length hs + length qu))) <= NUM); [lia|].
  apply Hl; [done|]. intros i [->|Hi]%elem_of_cons; [done|]. by apply inv_range.
Qed.

(** Different callers own different descriptors. *)
Lemma inv_apart t t' idx idx' i j : vidx (vw t) = Some idx -> vidx (vw t') = Some idx' -> t <> t' ->
  i ∈ idx -> j ∈ idx' -> i <> j.
Proof using I. intros E E' Hne Hi Hj <-. apply Hne. by apply (o_disj _ _ (i_own _ _ _ _ _ _ _ _ I) t t' idx idx' i). Qed.
End facts.

(** ** What the transitions do to the invariant *)

(** Callers that own nothing before and after. *)
Lemma inv_unowned vw vw' d bf bn sn hs qa qu :
  data_inv vw d bf bn sn hs qa qu -> excl vw' bn ->
  (forall t, vw' t = vw t \/ (vidx (vw t) = None /\ vidx (vw' t) = None)) ->
  data_inv vw' d bf bn sn hs qa qu.
Proof.
  intros [[O1 O2 O3 O4] _ F [Q1 Q2 Q3 Q4 Q5 Q6 Q7 Q8 Q9]] Hx Hv.
  assert (Hi : forall t, vidx (vw' t) = vidx (vw t)) by (intros t; destruct (Hv t) as [->|[-> ->]]; done).
  assert (Hf : forall t x, vw' t = x -> vidx x <> None -> vw t = x).
  { intros t x E Hn. destruct (Hv t) as [<-|[_ E']]; [done|]. by rewrite E in E'. }
  split; [|done| |].
  - split.
    + intros t idx. rewrite Hi. apply O1.
    + intros t idx i. rewrite Hi. apply O2.
    + intros t t' idx idx' i. rewrite !Hi. apply O3.
    + intros i Hr Hfr. destruct (O4 i Hr Hfr) as (t & idx & E). exists t, idx. by rewrite Hi.
  - intros t b w idx E. apply (F t). destruct (Hv t) as [<-|[_ E']]; [done|].
    apply fmt_idx in E as [E _]. by rewrite E in E'.
  - split; try done.
    + intros t b w idx E. apply (Q1 t b w). by apply Hf.
    + intros h Hh. destruct (Q5 h Hh) as (t & b & w & idx & E & E'). exists t, b, w, idx. split; [|done].
      destruct (Hv t) as [->|[E1 _]]; [done|]. by rewrite E in E1.
    + intros t b w idx E. apply (Q6 t b w). by apply Hf.
    + intros t b w idx E. apply (Q7 t b w idx). by apply Hf.
    + intros t b w idx E. apply (Q8 t b w idx). destruct E; [left|right]; by apply Hf.
Qed.

Lemma excl_same vw vw' bn : excl vw bn -> (forall t, vreq (vw' t) = vreq (vw t)) -> excl vw' bn.
Proof. intros [H1 H2] Hv. split; [done|]. intros t t' b w b' w'. rewrite !Hv. apply H2. Qed.
Lemma excl_upd vw bn t x : excl vw bn -> vreq x = vreq (vw t) -> excl (upd vw t x) bn.
Proof. intros H E. apply (excl_same vw); [done|]. intros t'. upd_cases t' t; done. Qed.

Lemma own_upd vw fr t x : own vw fr -> vidx x = vidx (vw t) -> own (upd vw t x) fr.
Proof.
  intros [O1 O2 O3 O4] E. assert (Hi : forall t', vidx (upd vw t x t') = vidx (vw t')) by (intros t'; upd_cases t' t; done).
  split.
  - intros t' idx. rewrite Hi. apply O1.
  - intros t' idx i. rewrite Hi. apply O2.
  - intros t1 t2 idx idx' i. rewrite !Hi. apply O3.
  - intros i Hr Hf. destruct (O4 i Hr Hf) as (t' & idx & E'). exists t', idx. by rewrite Hi.
Qed.

(** The driver's own copies that the device and the other callers do not look
    at: descriptors that nobody owns. *)
Definition with_descs (ds : Z -> virtq_desc) (fr : Z -> bool) (d : vdisk) : vdisk :=
  VDisk ds (avail_idx d) (avail_ring d) (ring_idx d) (used_ring d) fr (used_idx d) (info_b d) (info_status d) (vops d).

Lemma inv_descs vw d bf bn sn hs qa qu ds fr :
  data_inv vw d bf bn sn hs qa qu -> own vw fr ->
  (forall t idx i, vidx (vw t) = Some idx -> i ∈ idx -> ds i = vdesc d i) ->
  data_inv vw (with_descs ds fr d) bf bn sn hs qa qu.
Proof.
  intros I Ho Hd. pose proof I as [_ Hx F [Q1 Q2 Q3 Q4 Q5 Q6 Q7 Q8 Q9]]. split; try done.
  intros t b w idx E. destruct (F _ _ _ _ E) as [F0 F1 F2 F3 F4]. apply fmt_idx in E as [E _].
  pose proof (inv_wf I _ _ E) as Hc.
  split; simpl; try done; rewrite (Hd _ _ _ E) by (apply (chain_elem _ _ Hc); auto); done.
Qed.

Definition free_of (fr : Z -> bool) (idx : list Z) (v : bool) : Z -> bool :=
  fun i => if bool_decide (i ∈ idx) then v else fr i.

Lemma inv_alloc vw d bf bn sn hs qa qu t b w idx :
  data_inv vw d bf bn sn hs qa qu -> vw t = VCall b w -> chain_wf idx -> (forall i, i ∈ idx -> vfree d i = true) ->
  data_inv (upd vw t (VOwn b w idx)) (with_descs (vdesc d) (free_of (vfree d) idx false) d) bf bn sn hs qa qu.
Proof.
  intros I Et Hc Hf. pose proof I as [[O1 O2 O3 O4] Hx F [Q1 Q2 Q3 Q4 Q5 Q6 Q7 Q8 Q9]].
  assert (Hn : forall t' idx' i, vidx (vw t') = Some idx' -> i ∈ idx' -> i ∉ idx).
  { intros t' idx' i E Hi Hi'. apply (O2 _ _ _ E) in Hi. by rewrite Hf in Hi. }
  split.
  - split; simpl; unfold free_of.
    + intros t' idx'. upd_cases t' t; [by intros [= <-]|apply O1].
    + intros t' idx' i. upd_cases t' t; [intros [= <-] Hi; by rewrite bool_decide_true|].
      intros E' Hi. rewrite bool_decide_false by by eapply Hn. by eapply O2.
    + intros t1 t2 idx1 idx2 i. upd_cases t1 t; upd_cases t2 t; [done|..].
      * intros [= <-] E2 H1 H2. by destruct (Hn _ _ _ E2 H2).
      * intros E1 [= <-] H1 H2. by destruct (Hn _ _ _ E1 H1).
      * apply O3.
    + intros i Hr. case_bool_decide as Hi.
      * intros _. exists t, idx. by rewrite upd_same.
      * intros E. destruct (O4 i Hr E) as (t' & idx' & E' & Hi'). exists t', idx'. split; [|done].
        upd_cases t' t; [by rewrite Et in E'|done].
  - apply excl_upd; [done|]. by rewrite Et.
  - intros t' b' w' idx'. upd_cases t' t; [done|]. intros E'. apply (formatted_same d); [done..|]. by apply F with t'.
  - split; simpl; try done.
    + intros t' b' w' idx'. upd_cases t' t; [done|apply Q1].
    + intros h Hh. destruct (Q5 h Hh) as (t' & b' & w' & idx' & E' & ?). exists t', b', w', idx'.
      rewrite upd_other; [done|]. intros ->. congruence.
    + intros t' b' w' idx'. upd_cases t' t; [done|apply Q6].
    + intros t' b' w' idx'. upd_cases t' t; [done|apply Q7].
    + intros t' b' w' idx'. upd_cases t' t; [by intros [|]|apply Q8].
Qed.

Definition filled (no : Z) (b : nat) (w : bool) (idx : list Z) (d : vdisk) : vdisk :=
  set_info_b (ix idx 0) (Some b)
  (set_desc (ix idx 2) (Desc (DStatus (ix idx 0)) 1 VRING_DESC_F_WRITE 0)
  (set_status (ix idx 0) 255
  (set_desc (ix idx 1) (Desc (DData b) BLOCK (Z.lor (if w then 0 else VRING_DESC_F_WRITE) VRING_DESC_F_NEXT) (ix idx 2))
  (set_desc (ix idx 0) (Desc (DOps (ix idx 0)) 16 VRING_DESC_F_NEXT (ix idx 1))
  (set_ops (ix idx 0) (Req (if w then VIRTIO_BLK_T_OUT else VIRTIO_BLK_T_IN) 0 (u32 (no * (BLOCK / SECTOR)))) d))))).

Lemma filled_formatted bn b w idx d : chain_wf idx -> 0 <= bn b < 2 ^ 31 -> formatted (filled (bn b) b w idx d) bn b w idx.
Proof.
  intros Hc Hb. apply chain_ix in Hc as (_ & _ & _ & _ & H01 & H02 & H12).
  split; simpl; upds; try done. f_equal. change (BLOCK / SECTOR) with 2. apply u32_id. lia.
Qed.
(** Filling in one chain leaves the others alone. *)
Lemma filled_other bn no b w idx d b' w' idx' : chain_wf idx -> chain_wf idx' -> (forall i, i ∈ idx' -> i ∉ idx) ->
  formatted d bn b' w' idx' -> formatted (filled no b w idx d) bn b' w' idx'.
Proof.
  intros Hc Hc' Hd [F0 F1 F2 F3 F4].
  assert (Hne : forall k k', (k < 3)%nat -> (k' < 3)%nat -> ix idx' k <> ix idx k').
  { intros k k' Hk Hk' E. apply (Hd (ix idx' k)); [apply (chain_elem _ _ Hc')|rewrite E; apply (chain_elem _ _ Hc)].
    - destruct k as [|[|[|]]]; auto; lia.
    - destruct k' as [|[|[|]]]; auto; lia. }
  split; simpl; rewrite ?upd_other by (apply Hne; lia); done.
Qed.

Lemma inv_fill vw d bf bn sn hs qa qu t b w idx :
  data_inv vw d bf bn sn hs qa qu -> vw t = VOwn b w idx ->
  data_inv (upd vw t (VFmt b w idx)) (filled (bn b) b w idx d) (upd bf b 1) bn sn hs qa qu.
Proof.
  intros I Et. pose proof I as [Ho Hx F [Q1 Q2 Q3 Q4 Q5 Q6 Q7 Q8 Q9]].
  assert (Ei : vidx (vw t) = Some idx) by by rewrite Et. pose proof (inv_wf I _ _ Ei) as Hc.
  assert (Hb : forall t' b' w', t' <> t -> vreq (vw t') = Some (b', w') -> b' <> b).
  { intros t' b' w' Hne E'. apply (proj2 Hx t' t b' w' b w); [done|by rewrite Et|done]. }
  split.
  - apply own_upd; [done|]. by rewrite Et.
  - apply excl_upd; [done|]. by rewrite Et.
  - intros t' b' w' idx'. upd_cases t' t.
    + intros [= <- <- <-]. apply filled_formatted; [done|apply Hx].
    + intros E'. pose proof (fmt_idx _ _ _ _ E') as [Ei' _].
      apply filled_other; [done|by eapply inv_wf| |by apply F with t'].
      intros i Hi Hi'. by apply (inv_apart I t' t idx' idx i i).
  - split; simpl; try done.
    + intros t' b' w' idx'. upd_cases t' t; [done|apply Q1].
    + intros h Hh. destruct (Q5 h Hh) as (t' & b' & w' & idx' & E' & E0 & Eb). exists t', b', w', idx'.
      rewrite upd_other by (intros ->; congruence). split_and!; try done. upd_cases b' b; done.
    + intros t' b' w' idx'. upd_cases t' t; [done|]. intros E'.
      rewrite upd_other by (apply (Hb t' b' w'); [done|by rewrite E']). by apply Q6 with t' w'.
    + intros t' b' w' idx'. upd_cases t' t; [done|]. intros E'.
      rewrite upd_other by (apply (Hb t' b' w'); [done|by rewrite E']). by apply Q7 with t' w' idx'.
    + intros t' b' w' idx'. upd_cases t' t; [intros [[= <- <- <-]|]; [by rewrite upd_same|done]|]. intros E'.
      rewrite upd_other by (apply (Hb t' b' w'); [done|by destruct E' as [->| ->]]). by apply Q8 with t' w' idx'.
    + intros h Hh. rewrite upd_other; [by apply Q9|]. intros ->. apply (inv_fresh I t idx); [done|by rewrite Et|].
      rewrite !elem_of_app. auto.
Qed.

Lemma inv_ring vw d bf bn sn hs qa qu t b w idx :
  data_inv vw d bf bn sn hs qa qu -> vw t = VFmt b w idx -> (forall t', vposting (vw t') = true -> t' = t) ->
  data_inv (upd vw t (VRing b w idx)) (set_avail (avail_idx d) (upd (avail_ring d) (avail_idx d mod NUM) (ix idx 0)) d)
    bf bn sn hs qa qu.
Proof.
  intros I Et Hp. pose proof I as [Ho Hx F [Q1 Q2 Q3 Q4 Q5 Q6 Q7 Q8 Q9]].
  assert (Ei : vidx (vw t) = Some idx) by by rewrite Et. pose proof (inv_wf I _ _ Ei) as Hc.
  split.
  - apply own_upd; [done|]. by rewrite Et.
  - apply excl_upd; [done|]. by rewrite Et.
  - intros t' b' w' idx' E'. apply (formatted_same d); [done..|]. apply (F t'). upd_cases t' t; [by rewrite Et|done].
  - split; simpl; try done.
    + intros t' b' w' idx'. upd_cases t' t; [by intros [= <- <- <-]|].
      intros E'. destruct E. apply Hp. by rewrite E'.
    + apply window_slot; [done|]. refine (proj1 (inv_len I (ix idx 0) _ (inv_fresh I t idx Ei _))); [|by rewrite Et].
      by apply chain_ix in Hc as (_ & ? & _).
    + intros h Hh. destruct (Q5 h Hh) as (t' & b' & w' & idx' & E' & ?). exists t', b', w', idx'.
      rewrite upd_other by (intros ->; congruence). done.
    + intros t' b' w' idx'. upd_cases t' t; [done|apply Q6].
    + intros t' b' w' idx'. upd_cases t' t; [done|apply Q7].
    + intros t' b' w' idx'. upd_cases t' t; [|apply Q8]. intros [|[= <- <- <-]]; [done|]. apply (Q8 t b w idx). auto.
Qed.

(** Publishing a request. *)
Lemma inv_bump vw d bf bn sn hs qa qu t b w idx :
  data_inv vw d bf bn sn hs qa qu -> vw t = VRing b w idx -> (forall t', vposting (vw t') = true -> t' = t) ->
  data_inv (upd vw t (VPub b w idx)) (set_avail (u16 (avail_idx d + 1)) (avail_ring d) d)
    bf bn sn hs (qa ++ [ix idx 0]) qu.
Proof.
  intros I Et Hp. pose proof I as [Ho Hx F [Q1 Q2 Q3 Q4 Q5 Q6 Q7 Q8 Q9]].
  assert (Ei : vidx (vw t) = Some idx) by by rewrite Et. pose proof (inv_wf I _ _ Ei) as Hc.
  assert (Hfr : ix idx 0 ∉ qa ++ hs ++ qu) by (eapply (inv_fresh I t idx); [done|by rewrite Et]).
  assert (Hq : (qa ++ [ix idx 0]) ++ hs ++ qu ≡ₚ ix idx 0 :: qa ++ hs ++ qu) by (rewrite <-app_assoc; symmetry; apply Permutation_middle).
  split.
  - apply own_upd; [done|]. by rewrite Et.
  - apply excl_upd; [done|]. by rewrite Et.
  - intros t' b' w' idx' E'. apply (formatted_same d); [done..|]. apply (F t'). upd_cases t' t; [by rewrite Et|done].
  - split; simpl; try done.
    + intros t' b' w' idx'. upd_cases t' t; [done|]. intros E'. destruct E. apply Hp. by rewrite E'.
    + apply window_bump; [done| |by apply (Q1 t b w)]. refine (proj1 (inv_len I (ix idx 0) _ Hfr)).
      by apply chain_ix in Hc as (_ & ? & _).
    + rewrite Hq. by apply NoDup_cons.
    + intros h. rewrite Hq, elem_of_cons. intros [->|Hh].
      * exists t, b, w, idx. rewrite upd_same. split_and!; [done..|]. apply (Q8 t b w idx). auto.
      * destruct (Q5 h Hh) as (t' & b' & w' & idx' & E' & ?). exists t', b', w', idx'.
        rewrite upd_other by (intros ->; congruence). done.
    + intros t' b' w' idx'. rewrite Hq, elem_of_cons. upd_cases t' t.
      * intros [= <- <- <-]. right. split; [|by left]. apply (Q8 t b w idx). auto.
      * intros E'. destruct (Q6 _ _ _ _ E') as [?|[? ?]]; auto.
    + intros t' b' w' idx'. upd_cases t' t; [done|apply Q7].
    + intros t' b' w' idx'. upd_cases t' t; [by intros [|]|apply Q8].
Qed.

Lemma inv_fin vw d bf bn sn hs qa qu t b w idx :
  data_inv vw d bf bn sn hs qa qu -> vw t = VPub b w idx -> bf b <> 1 ->
  data_inv (upd vw t (VFin b w idx)) d bf bn sn hs qa qu.
Proof.
  intros I Et Hb. pose proof I as [Ho Hx F [Q1 Q2 Q3 Q4 Q5 Q6 Q7 Q8 Q9]]. split.
  - apply own_upd; [done|]. by rewrite Et.
  - apply excl_upd; [done|]. by rewrite Et.
  - intros t' b' w' idx' E'. apply (F t'). upd_cases t' t; [by rewrite Et|done].
  - split; try done.
    + intros t' b' w' idx'. upd_cases t' t; [done|apply Q1].
    + intros h Hh. destruct (Q5 h Hh) as (t' & b' & w' & idx' & E' & ? & ?). exists t', b', w', idx'.
      rewrite upd_other by (intros ->; congruence). done.
    + intros t' b' w' idx'. upd_cases t' t; [done|apply Q6].
    + intros t' b' w' idx'. upd_cases t' t; [|apply Q7]. intros [= <- <- <-]. by destruct (Q6 _ _ _ _ Et) as [|[]].
    + intros t' b' w' idx'. upd_cases t' t; [by intros [|]|apply Q8].
Qed.

(** Giving the descriptors back. *)
Definition freed (idx : list Z) (d : vdisk) : vdisk :=
  with_descs (fun i => if bool_decide (i ∈ idx) then Desc DNull 0 0 0 else vdesc d i) (free_of (vfree d) idx true)
    (set_info_b (ix idx 0) None d).

Lemma inv_finish vw d bf bn sn hs qa qu t b w idx :
  data_inv vw d bf bn sn hs qa qu -> vw t = VFin b w idx ->
  data_inv (upd vw t VIdle) (freed idx d) bf bn sn hs qa qu.
Proof.
  intros I Et. pose proof I as [[O1 O2 O3 O4] Hx F [Q1 Q2 Q3 Q4 Q5 Q6 Q7 Q8 Q9]].
  assert (Ei : vidx (vw t) = Some idx) by by rewrite Et. pose proof (inv_wf I _ _ Ei) as Hc.
  assert (Hn : forall t' idx' i, t' <> t -> vidx (vw t') = Some idx' -> i ∈ idx' -> i ∉ idx).
  { intros t' idx' i Hne E Hi Hi'. by apply (inv_apart I t' t idx' idx i i). }
  split.
  - split; simpl; unfold free_of.
    + intros t' idx'. upd_cases t' t; [done|apply O1].
    + intros t' idx' i. upd_cases t' t; [done|]. intros E' Hi.
      rewrite bool_decide_false by by apply (Hn t' idx'). by eapply O2.
    + intros t1 t2 idx1 idx2 i. upd_cases t1 t; [done|]. upd_cases t2 t; [done|]. apply O3.
    + intros i Hr. case_bool_decide as Hi; [done|]. intros E. destruct (O4 i Hr E) as (t' & idx' & E' & Hi').
      exists t', idx'. split; [|done]. upd_cases t' t; [|done]. congruence.
  - split; [apply Hx|]. intros t1 t2 b1 w1 b2 w2. upd_cases t1 t; [done|]. upd_cases t2 t; [done|]. apply Hx.
  - intros t' b' w' idx'. upd_cases t' t; [done|]. intros E'. destruct (F _ _ _ _ E') as [F0 F1 F2 F3 F4].
    apply fmt_idx in E' as [E' _]. pose proof (inv_wf I _ _ E') as Hc'.
    pose proof (fun i H => Hn t' idx' i E E' (proj2 (chain_elem _ i Hc') H)) as Hne.
    split; simpl; rewrite ?bool_decide_false by (apply Hne; auto); try done. rewrite upd_other; [done|].
    intros Eq. apply (Hne (ix idx' 0)); [auto|]. rewrite Eq. by apply chain_head.
  - split; simpl; try done.
    + intros t' b' w' idx'. upd_cases t' t; [done|apply Q1].
    + intros h Hh. destruct (Q5 h Hh) as (t' & b' & w' & idx' & E' & ?). exists t', b', w', idx'.
      rewrite upd_other by (intros ->; congruence). done.
    + intros t' b' w' idx'. upd_cases t' t; [done|apply Q6].
    + intros t' b' w' idx'. upd_cases t' t; [done|apply Q7].
    + intros t' b' w' idx'. upd_cases t' t; [by intros [|]|apply Q8].
Qed.

(** The handler sees a finished request. *)
Lemma inv_consume vw d bf bn sn hs qa qu h b :
  data_inv vw d bf bn sn hs qa (h :: qu) -> info_b d h = Some b ->
  data_inv vw (set_used_idx (u16 (used_idx d + 1)) d) (upd bf b 0) bn sn hs qa qu.
Proof.
  intros I Eb. pose proof I as [Ho Hx F [Q1 Q2 Q3 Q4 Q5 Q6 Q7 Q8 Q9]].
  assert (Hq : qa ++ hs ++ h :: qu ≡ₚ h :: qa ++ hs ++ qu) by (rewrite !(app_assoc qa); symmetry; apply Permutation_middle).
  destruct (inv_head I h) as (t & b0 & w & idx & Et & E0 & _ & Hf & Hc); [rewrite Hq; by left|].
  rewrite <-E0, (f_info _ _ _ _ _ Hf) in Eb. injection Eb as ->.
  assert (Hb : forall t' b' w', t' <> t -> vreq (vw t') = Some (b', w') -> b' <> b).
  { intros t' b' w' Hne E'. apply (proj2 Hx t' t b' w' b w); [done|by rewrite Et|done]. }
  rewrite Hq, NoDup_cons in Q4. destruct Q4 as [Hn Q4]. split; try done.
  - intros t' b' w' idx' E'. apply (formatted_same d); [done..|]. by apply F with t'.
  - split; simpl; try done.
    + by apply window_pop in Q3 as [_ Q3].
    + intros h' Hh'. destruct (Q5 h') as (t' & b' & w' & idx' & E' & E0' & Eb'); [rewrite Hq; by right|].
      exists t', b', w', idx'. split_and!; try done. rewrite upd_other; [done|].
      apply (Hb t' b' w'); [|by rewrite E']. intros ->. apply Hn. congruence.
    + intros t' b' w' idx' E'. destruct (decide (t' = t)) as [->|Hne].
      { left. rewrite Et in E'. injection E' as <- <- <-. apply upd_same. }
      rewrite upd_other by (apply (Hb t' b' w'); [done|by rewrite E']).
      destruct (Q6 _ _ _ _ E') as [?|[? Hin]]; [by left|]. right. split; [done|].
      rewrite Hq in Hin. apply elem_of_cons in Hin as [Eh|]; [|done]. exfalso.
      assert (Ei' : vidx (vw t') = Some idx') by by rewrite E'.
      apply (inv_apart I t' t idx' idx (ix idx' 0) (ix idx 0)); try done; [by rewrite Et| | |congruence];
        apply chain_head; [by apply (inv_wf I t')|done].
    + intros t' b' w' idx' E'. destruct (decide (b' = b)) as [->|Hne]; [apply upd_same|].
      rewrite upd_other by done. by apply Q7 with t' w' idx'.
    + intros t' b' w' idx' E'. rewrite upd_other; [by apply Q8 with t' w' idx'|]. apply (Hb t' b' w').
      * intros ->. destruct E'; congruence.
      * by destruct E' as [->| ->].
    + intros h' Hh'. apply Q9. by right.
Qed.

(** The device takes a request. *)
Lemma inv_take vw d bf bn sn hs qa qu h :
  data_inv vw d bf bn sn hs (h :: qa) qu -> data_inv vw d bf bn (u16 (sn + 1)) (hs ++ [h]) qa qu.
Proof.
  intros [Ho Hx F [Q1 Q2 Q3 Q4 Q5 Q6 Q7 Q8 Q9]].
  assert (Hq : qa ++ (hs ++ [h]) ++ qu ≡ₚ (h :: qa) ++ hs ++ qu) by solve_Permutation.
  split; try done. split; try done.
  - by apply window_pop in Q2 as [_ Q2].
  - by rewrite Hq.
  - intros h'. rewrite Hq. apply Q5.
  - intros t b w idx. rewrite Hq. apply Q6.
Qed.

(** The device is done with a request. *)
Lemma inv_done vw d bf bn sn h1 h h2 qa qu :
  data_inv vw d bf bn sn (h1 ++ h :: h2) qa qu ->
  data_inv vw (set_status h 0 (set_used (u16 (ring_idx d + 1)) (upd (used_ring d) (ring_idx d mod NUM) h) d))
    bf bn sn (h1 ++ h2) qa (qu ++ [h]).
Proof.
  intros I. pose proof I as [Ho Hx F [Q1 Q2 Q3 Q4 Q5 Q6 Q7 Q8 Q9]].
  assert (Hq : qa ++ (h1 ++ h2) ++ qu ++ [h] ≡ₚ qa ++ (h1 ++ h :: h2) ++ qu) by solve_Permutation.
  split; try done.
  - intros t' b' w' idx' E'. apply (formatted_same d); [done..|]. by apply F with t'.
  - split; simpl; try done.
    + apply window_push; [done|]. pose proof (nodup_range (qa ++ (h1 ++ h :: h2) ++ qu) Q4 (fun i => inv_range I i)) as Hl.
      rewrite !length_app in Hl. simpl in Hl. lia.
    + by rewrite Hq.
    + intros h'. rewrite Hq. apply Q5.
    + intros t b w idx. rewrite Hq. apply Q6.
    + intros h' Hh'. upd_cases h' h; [done|]. apply Q9. apply elem_of_app in Hh' as [|Hh']; [done|].
      by apply list_elem_of_singleton in Hh'.
Qed.

(** ** Locking and waiting *)

Definition locked (p : pc) : bool :=
  match p with
  | Idle | Enter _ _ | SleepFree _ _ | WokenFree _ _ | SleepBuf _ _ _ | WokenBuf _ _ _ => false
  | Alloc _ _ | Fill _ _ _ | Ring _ _ _ | Bump _ _ _ | Notify _ _ _ | Wait _ _ _ | Finish _ _ _ => true
  end.
Definition hlocked (p : ipc) : bool := match p with IIdle | IEnter => false | IRead | IAck _ | ILoop => true end.

Definition lock_ok (a : agents) : Prop :=
  (forall t, locked (pcs a t) = true <-> vdisk_lock a = Some (Caller t)) /\
  (hlocked (hpc a) = true <-> vdisk_lock a = Some Handler).

Definition nfree (fr : Z -> bool) : nat := length (filter (fun i => fr i = true) (seqZ 0 8)).

(** Somebody will wake up every sleeper. *)
Record alive (a : agents) (d : vdisk) (bf : nat -> Z) (v : device) (qa qu : list Z) : Prop := {
  al_buf : forall t b w idx, pcs a t = SleepBuf b w idx -> bf b = 1;
  al_free : forall t b w, pcs a t = SleepFree b w -> (nfree (vfree d) < 3)%nat;
  al_irq : qu <> [] -> owes v = true \/ isr v <> 0 \/ hpc a <> IIdle;
  al_kick : qa <> [] -> kicked v = true \/ exists t b w idx, pcs a t = Notify b w idx;
}.

Definition views (a : agents) : nat -> view := fun t => view_of (pcs a t).
Record inv (s : vsys) (qa qu : list Z) : Prop := {
  iv_data : data_inv (views (ag s)) (dk s) (bflag (bm s)) (bno (bm s)) (seen (dv s)) (map fst (work (dv s))) qa qu;
  iv_lock : lock_ok (ag s);
  iv_alive : alive (ag s) (dk s) (bflag (bm s)) (dv s) qa qu;
}.

Lemma view_wake c p : view_of (wake c p) = view_of p.
Proof. destruct c, p; try done. simpl. by case_decide. Qed.
Lemma locked_wake c p : locked (wake c p) = locked p.
Proof. destruct c, p; try done. simpl. by case_decide. Qed.
Lemma views_upd a t p : views (set_pc t p a) = upd (views a) t (view_of p).
Proof. apply functional_extensionality. intros t'. unfold views. simpl. upd_cases t' t; done. Qed.
Lemma views_same a t p : view_of p = view_of (pcs a t) -> views (set_pc t p a) = views a.
Proof. intros E. rewrite views_upd, E. apply functional_extensionality. intros t'. apply (upd_id (views a)). Qed.

(** A caller in the critical section is the only one that posts. *)
Lemma posting_unique a t : lock_ok a -> locked (pcs a t) = true -> forall t', vposting (views a t') = true -> t' = t.
Proof.
  intros [H _] Hl t' Hp. assert (locked (pcs a t') = true) as Hl' by (revert Hp; unfold views; by destruct (pcs a t')).
  apply H in Hl, Hl'. congruence.
Qed.

Lemma nfree_le fr (l : list Z) : (forall i, in_range i -> fr i = true -> i ∈ l) -> (nfree fr <= length l)%nat.
Proof.
  intros Hl. apply submseteq_length, NoDup_submseteq; [apply NoDup_filter, NoDup_seqZ|].
  intros i [Hf Hi]%list_elem_of_filter. apply elem_of_seqZ in Hi. apply Hl; [unfold in_range, NUM; lia|done].
Qed.
(** With fewer than three free descriptors, some caller owns one. *)
Lemma nfree_owner vw fr : own vw fr -> (nfree fr < 3)%nat -> exists t idx, vidx (vw t) = Some idx.
Proof.
  intros Ho Hn. destruct (decide (Forall (fun i => fr i = true) (seqZ 0 8))) as [Hf|Hf].
  - assert (length (seqZ 0 8) <= nfree fr)%nat as Hl; [|rewrite length_seqZ in Hl; lia].
    apply submseteq_length, NoDup_submseteq; [apply NoDup_seqZ|]. intros i Hi. apply list_elem_of_filter.
    rewrite Forall_forall in Hf. auto.
  - apply not_Forall_Exists in Hf; [|apply _]. apply Exists_exists in Hf as (i & Hi & Hf). apply elem_of_seqZ in Hi.
    destruct (o_cover _ _ Ho i) as (t & idx & E & _); [unfold in_range, NUM; lia| |by exists t, idx].
    by apply not_true_is_false.
Qed.

(** ** The steps of the driver

    What the code of one step does, as a state. *)

Lemma alloc_desc_loop_spec left i s :
  (forall j, 0 <= j < i -> vfree (dk s) j = false) -> 0 <= i -> i + Z.of_nat left = NUM ->
  wp (alloc_desc_loop left i) (fun r s' =>
    (r = -1 /\ s' = s /\ forall j, in_range j -> vfree (dk s) j = false) \/
    (in_range r /\ vfree (dk s) r = true /\ s' = on_dk (set_free r false) s)) s.
Proof.
  revert i. induction left as [|left IH]; intros i Hj Hi Hl; simpl.
  - apply wp_ret. left. split_and!; try done. intros j Hr. apply Hj. unfold in_range, NUM in *. lia.
  - wp_steps.
    + right. split_and!; try done; unfold in_range; lia.
    + apply IH; try lia. intros j Hr. destruct (decide (j = i)) as [->|]; [done|]. apply Hj. lia.
Qed.
Lemma alloc_desc_spec s :
  wp alloc_desc (fun r s' =>
    (r = -1 /\ s' = s /\ forall j, in_range j -> vfree (dk s) j = false) \/
    (in_range r /\ vfree (dk s) r = true /\ s' = on_dk (set_free r false) s)) s.
Proof. apply alloc_desc_loop_spec; unfold NUM; lia. Qed.

Definition wakes (c : vchan) (a : agents) : agents := Agents (vdisk_lock a) (fun t => wake c (pcs a t)) (hpc a).
Definition woken : agents -> agents := wakes CFree.
Lemma free_desc_spec i s : in_range i -> vfree (dk s) i = false ->
  free_desc i s = Ret (tt, on_ag woken (on_dk (set_free i true) (on_dk (set_desc i (Desc DNull 0 0 0)) s))).
Proof.
  intros Hr Hf. unfold free_desc. rewrite Z.geb_leb, (proj2 (Z.leb_gt _ _)) by (unfold in_range in Hr; lia).
  unfold bind, gets. by rewrite Hf.
Qed.
Lemma woken_woken a : woken (woken a) = woken a.
Proof. unfold woken, wakes. simpl. f_equal. apply functional_extensionality. intros t. by destruct (pcs a t). Qed.

(** What [alloc3_desc] leaves when there are not three free descriptors. *)
Record gave_up (s s' : vsys) : Prop := {
  g_few : (nfree (vfree (dk s)) < 3)%nat;
  g_dk : exists ds, dk s' = with_descs ds (vfree (dk s)) (dk s) /\
    forall i, vfree (dk s) i = false -> ds i = vdesc (dk s) i;
  g_bm : bm s' = bm s;
  g_dv : dv s' = dv s;
  g_ag : (ag s' = ag s /\ forall i, in_range i -> vfree (dk s) i = false) \/ ag s' = woken (ag s);
}.

Lemma upd_free_back (fr : Z -> bool) (i : Z) : fr i = true -> upd (upd fr i false) i true = fr.
Proof. intros E. rewrite upd_upd, <-E. apply functional_extensionality. intros j. apply upd_id. Qed.

Lemma few_free (s : vsys) (idx : list Z) : (length idx < 3)%nat ->
  (forall j, in_range j -> free_of (vfree (dk s)) idx false j = false) -> (nfree (vfree (dk s)) < 3)%nat.
Proof.
  intros Hl Hj. eapply Nat.le_lt_trans; [apply (nfree_le _ idx)|done]. intros i Hr Hf.
  specialize (Hj i Hr). unfold free_of in Hj. case_bool_decide; [done|]. congruence.
Qed.

Lemma alloc3_desc_spec s :
  wp alloc3_desc (fun r s' =>
    match r with
    | Some idx => chain_wf idx /\ (forall i, i ∈ idx -> vfree (dk s) i = true) /\
        s' = on_dk (with_descs (vdesc (dk s)) (free_of (vfree (dk s)) idx false)) s
    | None => gave_up s s'
    end) s.
Proof.
  unfold alloc3_desc, alloc3_loop. apply wp_bind. eapply wp_mono; [apply alloc_desc_spec|]. cbv beta.
  intros i0 s0 [(-> & -> & Hn)|(R0 & F0 & ->)].
  { simpl. wp_steps. split; try done.
    - apply (few_free s []); [simpl; lia|]. done.
    - exists (vdesc (dk s)). by destruct (dk s).
    - by left. }
  rewrite (proj2 (Z.ltb_ge _ _)) by (unfold in_range in R0; lia). apply wp_bind.
  eapply wp_mono; [apply alloc_desc_spec|]. cbv beta. simpl. intros i1 s1 [(-> & -> & Hn)|(R1 & F1 & ->)].
  { simpl. apply wp_bind, wp_bind. unfold wp. rewrite free_desc_spec by (try done; simpl; by rewrite upd_same).
    wp_steps. split; simpl; try done.
    - apply (few_free s [i0]); [simpl; lia|]. intros j Hr. specialize (Hn j Hr). unfold free_of.
      case_bool_decide as Hi; [done|]. by rewrite upd_other in Hn by set_solver.
    - unfold set_free at 1. simpl. rewrite upd_free_back by done. eexists. split; [done|]. intros i Hi. apply upd_other. congruence.
    - by right. }
  upd_cases i1 i0; [done|].
  rewrite (proj2 (Z.ltb_ge _ _)) by (unfold in_range in R1; lia). apply wp_bind.
  eapply wp_mono; [apply alloc_desc_spec|]. cbv beta. simpl. intros i2 s2 [(-> & -> & Hn)|(R2 & F2 & ->)].
  { simpl. apply wp_bind, wp_bind. unfold wp at 1. rewrite free_desc_spec by (try done; simpl; by upds).
    apply wp_bind. unfold wp at 1. rewrite free_desc_spec by (try done; simpl; by upds).
    wp_steps. split; simpl; try done.
    - apply (few_free s [i0; i1]); [simpl; lia|]. intros j Hr. specialize (Hn j Hr). unfold free_of.
      case_bool_decide as Hi; [done|]. by rewrite !upd_other in Hn by set_solver.
    - eexists. split; [unfold set_free at 1, with_descs; simpl; f_equal|]; simpl.
      + apply functional_extensionality. intros j. unfold upd. repeat case_decide; congruence.
      + intros i Hi. by rewrite !upd_other by congruence.
    - right. apply woken_woken. }
  upd_cases i2 i1; [done|]. upd_cases i2 i0; [done|].
  rewrite (proj2 (Z.ltb_ge _ _)) by (unfold in_range in R2; lia). apply wp_ret. simpl. split_and!.
  - exists i0, i1, i2. split_and!; [done| |set_solver]. rewrite !NoDup_cons. split_and!; try set_solver. by apply NoDup_nil.
  - set_solver.
  - unfold on_dk, with_descs, set_free. simpl. f_equal. f_equal. apply functional_extensionality. intros j. unfold free_of.
    case_bool_decide as Hj; [|by rewrite !upd_other by set_solver].
    upd_cases j i2; [done|]. upd_cases j i1; [done|]. upd_cases j i0; [done|]. set_solver.
Qed.

Definition freed1 (i : Z) (s : vsys) : vsys :=
  VSys (with_descs (upd (vdesc (dk s)) i (Desc DNull 0 0 0)) (upd (vfree (dk s)) i true) (dk s)) (bm s) (dv s) (woken (ag s)).
Lemma free_chain_turn left i s : in_range i -> vfree (dk s) i = false ->
  free_chain_loop (S left) i s =
    if Z.land (d_flags (vdesc (dk s) i)) VRING_DESC_F_NEXT =? 0 then Ret (tt, freed1 i s)
    else free_chain_loop left (d_next (vdesc (dk s) i)) (freed1 i s).
Proof.
  intros Hr Hf. cbn [free_chain_loop]. unfold bind, gets. rewrite free_desc_spec by done. by case_match.
Qed.

#[local] Arguments free_chain_loop : simpl never.
#[local] Arguments freed1 : simpl never.
#[local] Arguments set_info_b : simpl never.
Lemma freed1_desc i j s : j <> i -> vdesc (dk (freed1 i s)) j = vdesc (dk s) j.
Proof. intros. simpl. by rewrite upd_other. Qed.
Lemma freed1_free i j s : j <> i -> vfree (dk (freed1 i s)) j = vfree (dk s) j.
Proof. intros. simpl. by rewrite upd_other. Qed.
Lemma freed1_thrice i j k s : freed1 k (freed1 j (freed1 i s)) =
  VSys (with_descs (upd (upd (upd (vdesc (dk s)) i (Desc DNull 0 0 0)) j (Desc DNull 0 0 0)) k (Desc DNull 0 0 0))
          (upd (upd (upd (vfree (dk s)) i true) j true) k true) (dk s)) (bm s) (dv s) (woken (ag s)).
Proof. unfold freed1. simpl. by rewrite !woken_woken. Qed.
Lemma free_chain_spec s bn b w idx : chain_wf idx -> formatted (dk s) bn b w idx ->
  (forall i, i ∈ idx -> vfree (dk s) i = false) ->
  (modify (on_dk (set_info_b (ix idx 0) None)) ;; free_chain (ix idx 0)) s = Ret (tt, on_ag woken (on_dk (freed idx) s)).
Proof.
  intros Hc [F0 F1 F2 _ _] Hf. pose proof (chain_elem idx) as He. pose proof (chain_ix _ Hc) as (Ei & R0 & R1 & R2 & N01 & N02 & N12).
  specialize (fun i => He i Hc).
  assert (vfree (dk s) (ix idx 0) = false /\ vfree (dk s) (ix idx 1) = false /\ vfree (dk s) (ix idx 2) = false) as (V0 & V1 & V2)
    by (split_and!; apply Hf, He; auto).
  unfold bind, modify, free_chain. change (Z.to_nat NUM) with 8%nat.
  set (s0 := on_dk (set_info_b (ix idx 0) None) s).
  assert (Ed : vdesc (dk s0) = vdesc (dk s)) by done. assert (Ef : vfree (dk s0) = vfree (dk s)) by done.
  rewrite free_chain_turn, Ed, F0 by (rewrite ?Ef; done). simpl.
  rewrite free_chain_turn by (rewrite ?freed1_free, ?Ef by done; done). rewrite freed1_desc, Ed, F1 by done. cbn [d_flags d_next].
  replace (Z.land (Z.lor (if w then 0 else VRING_DESC_F_WRITE) VRING_DESC_F_NEXT) VRING_DESC_F_NEXT =? 0) with false by by destruct w.
  rewrite free_chain_turn by (rewrite ?freed1_free, ?Ef by done; done). rewrite !freed1_desc, Ed, F2 by done. simpl.
  rewrite freed1_thrice. do 2 f_equal. rewrite Ed, Ef. unfold on_ag, on_dk, freed. simpl. f_equal. f_equal.
  all: apply functional_extensionality; intros j; unfold free_of, upd; case_bool_decide as Hj; rewrite He in Hj;
    repeat case_decide; first [done|exfalso; tauto].
Qed.

(** *** Callers *)

Inductive caller_step (s : vsys) (t : nat) : bool -> vsys -> Prop :=
| c_lock p :
    vdisk_lock (ag s) = None -> view_of p = view_of (pcs (ag s) t) -> locked p = true ->
    (forall b w idx, p <> Notify b w idx) ->
    caller_step s t false (on_ag (fun a => set_pc t p (set_lock (Some (Caller t)) a)) s)
| c_alloc b w idx :
    pcs (ag s) t = Alloc b w -> chain_wf idx -> (forall i, i ∈ idx -> vfree (dk s) i = true) ->
    caller_step s t false (on_ag (set_pc t (Fill b w idx))
      (on_dk (with_descs (vdesc (dk s)) (free_of (vfree (dk s)) idx false)) s))
| c_fail b w s1 :
    pcs (ag s) t = Alloc b w -> gave_up s s1 ->
    caller_step s t false (on_ag (fun a => set_pc t (SleepFree b w) (set_lock None a)) s1)
| c_fill b w idx :
    pcs (ag s) t = Fill b w idx ->
    caller_step s t false (on_ag (set_pc t (Ring b w idx))
      (on_bm (set_bflag b 1) (on_dk (filled (bno (bm s) b) b w idx) s)))
| c_ring b w idx :
    pcs (ag s) t = Ring b w idx ->
    caller_step s t false (on_ag (set_pc t (Bump b w idx))
      (on_dk (fun d => set_avail (avail_idx d) (upd (avail_ring d) (avail_idx d mod NUM) (ix idx 0)) d) s))
| c_bump b w idx :
    pcs (ag s) t = Bump b w idx ->
    caller_step s t false (on_ag (set_pc t (Notify b w idx))
      (on_dk (fun d => set_avail (u16 (avail_idx d + 1)) (avail_ring d) d) s))
| c_notify b w idx :
    pcs (ag s) t = Notify b w idx ->
    caller_step s t false (on_ag (set_pc t (Wait b w idx))
      (on_dv (fun v => Device (dbytes v) (seen v) (work v) (owes v) (isr v) true) s))
| c_sleep b w idx :
    pcs (ag s) t = Wait b w idx -> bflag (bm s) b = 1 ->
    caller_step s t false (on_ag (fun a => set_pc t (SleepBuf b w idx) (set_lock None a)) s)
| c_fin b w idx :
    pcs (ag s) t = Wait b w idx -> bflag (bm s) b <> 1 ->
    caller_step s t false (on_ag (set_pc t (Finish b w idx)) s)
| c_return b w idx :
    pcs (ag s) t = Finish b w idx ->
    caller_step s t true (on_ag (fun a => set_pc t Idle (set_lock None (woken a))) (on_dk (freed idx) s)).

(** A step that takes the lock, or waits for it. *)
Lemma vacquire_spec me s : vacquire me s = match vdisk_lock (ag s) with None => Ret (tt, on_ag (set_lock (Some me)) s) | Some _ => Blocked end.
Proof. unfold vacquire, bind, gets. by destruct (vdisk_lock (ag s)). Qed.

(** The code never panics, and does one of these steps. *)
Lemma caller_steps s qa qu t : inv s qa qu ->
  match virtio_disk_rw t s with Ret (r, s') => caller_step s t r s' | Blocked => True | _ => False end.
Proof.
  intros [Hd Hl _]. unfold virtio_disk_rw. unfold bind at 1, gets at 1.
  destruct (pcs (ag s) t) eqn:Et; try done.
  - unfold bind at 1. rewrite vacquire_spec. destruct (vdisk_lock (ag s)) eqn:El; [done|].
    refine (c_lock s t (Alloc b w) El _ _ _); by rewrite ?Et.
  - unfold bind at 1. pose proof (alloc3_desc_spec s) as Ha. unfold wp in Ha.
    destruct alloc3_desc as [[[idx|] s1]| | |]; try done.
    + destruct Ha as (Hc & Hf & ->). by apply (c_alloc s t b w idx).
    + by apply (c_fail s t b w s1).
  - unfold bind at 1. rewrite vacquire_spec. destruct (vdisk_lock (ag s)) eqn:El; [done|].
    refine (c_lock s t (Alloc b w) El _ _ _); by rewrite ?Et.
  - by apply (c_fill s t b w idx).
  - by apply (c_ring s t b w idx).
  - by apply (c_bump s t b w idx).
  - by apply (c_notify s t b w idx).
  - unfold bind at 1, gets at 1. destruct (bflag (bm s) b =? 1) eqn:Eb; bool_to_prop.
    + by apply (c_sleep s t b w idx).
    + by apply (c_fin s t b w idx).
  - unfold bind at 1. rewrite vacquire_spec. destruct (vdisk_lock (ag s)) eqn:El; [done|].
    refine (c_lock s t (Wait b w idx) El _ _ _); by rewrite ?Et.
  - assert (Ei : vidx (views (ag s) t) = Some idx) by (unfold views; by rewrite Et).
    rewrite <-bind_assoc. rewrite (bind_ret_eq _ _ _ _ _ (free_chain_spec s (bno (bm s)) b w idx (inv_wf Hd _ _ Ei)
      (i_fmt _ _ _ _ _ _ _ _ Hd t _ _ _ ltac:(unfold views; by rewrite Et))
      (fun i => o_used _ _ (i_own _ _ _ _ _ _ _ _ Hd) t idx i Ei))).
    by apply (c_return s t b w idx).
Qed.

Lemma lock_keep a t p : lock_ok a -> locked p = locked (pcs a t) -> lock_ok (set_pc t p a).
Proof. intros [H1 H2] E. split; [|done]. intros t'. simpl. rewrite <-H1. upd_cases t' t; by rewrite ?E. Qed.
Lemma lock_take a t p : lock_ok a -> vdisk_lock a = None -> locked p = true -> lock_ok (set_pc t p (set_lock (Some (Caller t)) a)).
Proof.
  intros [H1 H2] E Hp. split; simpl.
  - intros t'. upd_cases t' t; [done|]. split; [|naive_solver]. intros Hl%H1. congruence.
  - rewrite H2, E. naive_solver.
Qed.
Lemma lock_drop a t p : lock_ok a -> locked (pcs a t) = true -> locked p = false -> lock_ok (set_pc t p (set_lock None a)).
Proof.
  intros [H1 H2] Ht Hp. apply H1 in Ht as E. split; simpl.
  - intros t'. upd_cases t' t; [by rewrite Hp|]. split; [|done]. intros Hl%H1. congruence.
  - rewrite H2, E. naive_solver.
Qed.
Lemma lock_woken a c : lock_ok a -> lock_ok (wakes c a).
Proof. intros [H1 H2]. split; [|done]. intros t. simpl. by rewrite locked_wake. Qed.
Lemma views_woken a c : views (wakes c a) = views a.
Proof. apply functional_extensionality. intros t. apply view_wake. Qed.

Lemma nfree_mono fr fr' : (forall i, in_range i -> fr' i = true -> fr i = true) -> (nfree fr' <= nfree fr)%nat.
Proof.
  intros H. apply nfree_le. intros i Hr Hi. apply list_elem_of_filter. split; [by apply H|].
  apply elem_of_seqZ. unfold in_range, NUM in Hr. lia.
Qed.

(** A caller moves to [p]. *)
Lemma alive_pc a d bf v qa qu t p l : alive a d bf v qa qu ->
  (forall b w idx, p = SleepBuf b w idx -> bf b = 1) ->
  (forall b w, p = SleepFree b w -> (nfree (vfree d) < 3)%nat) ->
  (kicked v = true \/ forall b w idx, pcs a t <> Notify b w idx) ->
  alive (Agents l (upd (pcs a) t p) (hpc a)) d bf v qa qu.
Proof.
  intros [H1 H2 H3 H4] Hb Hf Hk. split; simpl; try done.
  - intros t' b w idx. upd_cases t' t; [apply Hb|apply H1].
  - intros t' b w. upd_cases t' t; [apply Hf|apply H2].
  - intros Hq. destruct Hk as [?|Hk]; [by left|]. destruct (H4 Hq) as [?|(t' & b & w & idx & E)]; [by left|]. right.
    exists t', b, w, idx. rewrite upd_other; [done|]. intros ->. by apply Hk in E.
Qed.
(** What it depends on of the rest. *)
Lemma alive_rest a d bf v qa qu d' bf' : alive a d bf v qa qu ->
  (nfree (vfree d') <= nfree (vfree d))%nat -> (forall b, bf b = 1 -> bf' b = 1) -> alive a d' bf' v qa qu.
Proof. intros [H1 H2 H3 H4] Hf Hb. split; try done; eauto with lia. intros t b w E. specialize (H2 _ _ _ E). lia. Qed.

Lemma alive_woken a d bf v qa qu : alive a d bf v qa qu -> alive (woken a) d bf v qa qu.
Proof.
  intros [H1 H2 H3 H4]. split; simpl; try done.
  - intros t b w idx E. apply (H1 t b w idx). by destruct (pcs a t).
  - intros t b w E. by destruct (pcs a t).
  - intros Hq. destruct (H4 Hq) as [?|(t & b & w & idx & E)]; [by left|]. right. exists t, b, w, idx. by rewrite E.
Qed.
(** After a wakeup nobody sleeps on the free descriptors. *)
Lemma alive_freed a d bf v qa qu d' : alive a d bf v qa qu -> alive (woken a) d' bf v qa qu.
Proof. intros H. apply alive_woken in H as [H1 H2 H3 H4]. split; try done. intros t b w. simpl. by destruct (pcs a t). Qed.

Lemma caller_inv s t r s' qa qu : inv s qa qu -> caller_step s t r s' -> exists qa', inv s' qa' qu.
Proof.
  intros [Hd Hl Ha] Hs. destruct Hs as [p El Ev Hp Hn|b w idx Et Hc Hf|b w s1 Et Hg|b w idx Et|b w idx Et|b w idx Et|b w idx Et|b w idx Et Hb|b w idx Et Hb|b w idx Et].
  all: try (pose proof (posting_unique (ag s) t Hl ltac:(by rewrite Et)) as Hpost).
  all: try (assert (Evt : views (ag s) t = view_of (pcs (ag s) t)) by done; rewrite Et in Evt; simpl in Evt).
  - exists qa. split; simpl.
    + change (views _) with (views (set_pc t p (ag s))). by rewrite views_same.
    + by apply lock_take.
    + apply (alive_pc (ag s)); [done|by intros b w idx ->|by intros b w ->|]. right. intros b w idx E.
      assert (locked (pcs (ag s) t) = true) as Hlt by by rewrite E. apply Hl in Hlt. congruence.
  - exists qa. split; simpl.
    + rewrite views_upd. by apply (inv_alloc _ _ _ _ _ _ _ _ t b w idx).
    + apply lock_keep; by rewrite ?Et.
    + apply (alive_pc (ag s)); try done; [|by right; rewrite Et]. eapply alive_rest; [done| |done].
      apply nfree_mono. simpl. unfold free_of. intros i _. by case_bool_decide.
  - exists qa. destruct Hg as [Hfew (ds & Edk & Hds) Ebm Edv Eag].
    assert (Hv : views (ag s1) = views (ag s)) by (destruct Eag as [[-> _]| ->]; [done|by apply views_woken]).
    assert (Hl1 : lock_ok (ag s1)) by (destruct Eag as [[-> _]| ->]; [done|by apply lock_woken]).
    assert (Et1 : pcs (ag s1) t = Alloc b w) by (destruct Eag as [[-> _]| ->]; simpl; by rewrite Et).
    split; simpl; rewrite ?Edk, ?Ebm, ?Edv.
    + change (views _) with (views (set_pc t (SleepFree b w) (ag s1))). rewrite views_same, Hv by by rewrite Et1.
      apply inv_descs; [done|apply Hd|]. intros t' idx i E Hi. apply Hds.
      by apply (o_used _ _ (i_own _ _ _ _ _ _ _ _ Hd) t' idx).
    + apply lock_drop; by rewrite ?Et1.
    + apply (alive_pc (ag s1)); [|done|done|by right; rewrite Et1].
      eapply (alive_rest _ (dk s)); [|done|done]. destruct Eag as [[-> _]| ->]; [done|by apply alive_woken].
  - exists qa. split; simpl.
    + rewrite views_upd. by apply inv_fill.
    + apply lock_keep; by rewrite ?Et.
    + apply (alive_pc (ag s)); try done; [|by right; rewrite Et]. eapply alive_rest; [done|done|].
      intros b' E. upd_cases b' b; done.
  - exists qa. split; simpl.
    + rewrite views_upd. by apply inv_ring.
    + apply lock_keep; by rewrite ?Et.
    + apply (alive_pc (ag s)); try done; [|by right; rewrite Et]. by eapply alive_rest.
  - exists (qa ++ [ix idx 0]). split; simpl.
    + rewrite views_upd. by apply (inv_bump _ _ _ _ _ _ _ _ t b w idx).
    + apply lock_keep; by rewrite ?Et.
    + destruct Ha as [H1 H2 H3 H4]. split; simpl; try done.
      * intros t' b' w' idx'. upd_cases t' t; [done|apply H1].
      * intros t' b' w'. upd_cases t' t; [done|apply H2].
      * intros _. right. exists t, b, w, idx. apply upd_same.
  - exists qa. split; simpl.
    + rewrite views_same; [done|by rewrite Et].
    + apply lock_keep; by rewrite ?Et.
    + apply (alive_pc (ag s)); try done; [|by left]. destruct Ha as [H1 H2 H3 H4]. split; try done. by left.
  - exists qa. split; simpl.
    + change (views _) with (views (set_pc t (SleepBuf b w idx) (ag s))). rewrite views_same; [done|by rewrite Et].
    + apply lock_drop; by rewrite ?Et.
    + apply (alive_pc (ag s)); try done; [by intros ? ? ? [= <- _ _]|by right; rewrite Et].
  - exists qa. split; simpl.
    + rewrite views_upd. by apply inv_fin.
    + apply lock_keep; by rewrite ?Et.
    + apply (alive_pc (ag s)); try done. by right; rewrite Et.
  - exists qa. split; simpl.
    + change (views _) with (views (set_pc t Idle (woken (ag s)))). rewrite views_upd.
      unfold woken. rewrite views_woken. by apply (inv_finish _ _ _ _ _ _ _ _ t b w idx).
    + apply lock_drop; [by apply lock_woken| |done]. simpl. by rewrite Et.
    + apply (alive_pc (woken (ag s))); try done; [by eapply alive_freed|]. right. simpl. by rewrite Et.
Qed.

(** *** The interrupt handler *)

(** A step of the handler; [qu] and [qu'] are the used ring before and after. *)
Inductive handler_step (s : vsys) (qu : list Z) : list Z -> vsys -> Prop :=
| h_start :
    hpc (ag s) = IIdle -> isr (dv s) <> 0 -> handler_step s qu qu (on_ag (set_hpc IEnter) s)
| h_lock :
    hpc (ag s) = IEnter -> vdisk_lock (ag s) = None ->
    handler_step s qu qu (on_ag (fun a => set_hpc IRead (set_lock (Some Handler) a)) s)
| h_read :
    hpc (ag s) = IRead -> handler_step s qu qu (on_ag (set_hpc (IAck (Z.land (isr (dv s)) 3))) s)
| h_ack st :
    hpc (ag s) = IAck st ->
    handler_step s qu qu (on_ag (set_hpc ILoop)
      (on_dv (fun v => Device (dbytes v) (seen v) (work v) (owes v) (Z.ldiff (isr v) st) (kicked v)) s))
| h_exit :
    hpc (ag s) = ILoop -> qu = [] -> handler_step s qu qu (on_ag (fun a => set_hpc IIdle (set_lock None a)) s)
| h_consume h b qu' :
    hpc (ag s) = ILoop -> qu = h :: qu' -> info_b (dk s) h = Some b ->
    handler_step s qu qu' (on_dk (set_used_idx (u16 (used_idx (dk s) + 1)))
      (on_ag (wakes (CBuf b)) (on_bm (set_bflag b 0) s))).

Lemma handler_steps s qa qu : inv s qa qu ->
  match virtio_disk_intr s with Ret (_, s') => exists qu', handler_step s qu qu' s' | Blocked => True | _ => False end.
Proof.
  intros [Hd _ _]. unfold virtio_disk_intr. unfold bind at 1, gets at 1. destruct (hpc (ag s)) eqn:Eh.
  - unfold bind, gets. destruct (isr (dv s) =? 0) eqn:Ei; bool_to_prop; [done|]. exists qu. by apply h_start.
  - unfold bind at 1. rewrite vacquire_spec. destruct (vdisk_lock (ag s)) eqn:El; [done|]. exists qu. by apply h_lock.
  - exists qu. by apply h_read.
  - exists qu. by apply (h_ack s qu st).
  - unfold bind at 1, gets at 1. pose proof (i_queues _ _ _ _ _ _ _ _ Hd) as [_ _ Q3 _ _ _ _ _ Q9].
    destruct (used_idx (dk s) =? ring_idx (dk s)) eqn:Ei; bool_to_prop.
    + exists qu. apply h_exit; [done|]. by apply (window_empty _ _ _ _ Q3).
    + destruct qu as [|h qu]; [by rewrite (proj2 (window_empty _ _ _ _ Q3)) in Ei|].
      destruct (window_pop _ _ _ _ _ Q3) as [-> _]. rewrite Q9 by by left. simpl.
      destruct (inv_head Hd h) as (t & b & w & idx & Et & <- & _ & Hf & Hc); [set_solver|].
      rewrite (f_info _ _ _ _ _ Hf). exists qu. apply (h_consume s _ (ix idx 0) b qu); try done. by apply Hf.
Qed.

Lemma alive_hpc a d bf v qa qu l p : alive a d bf v qa qu -> (p = IIdle -> qu = []) -> alive (Agents l (pcs a) p) d bf v qa qu.
Proof. intros [H1 H2 H3 H4] Hp. split; try done. simpl. intros Hq. right. right. auto. Qed.

Lemma handler_inv s s' qa qu qu' : inv s qa qu -> handler_step s qu qu' s' -> inv s' qa qu'.
Proof.
  intros [Hd Hl Ha] Hs. pose proof Hl as [L1 L2].
  destruct Hs as [Eh Ei|Eh El|Eh|st Eh|Eh Eq|h b qu' Eh Eq Eb]; rewrite Eh in L2; simpl in L2.
  - split; [done|split; done|]. by apply (alive_hpc (ag s)).
  - split; [done|split|].
    + simpl. intros t. rewrite L1, El. naive_solver.
    + done.
    + by apply (alive_hpc (ag s)).
  - split; [done|split; done|]. by apply (alive_hpc (ag s)).
  - split; [done|split; done|]. eapply (alive_hpc (ag s)); [|done]. destruct Ha as [H1 H2 H3 H4]. split; try done.
    intros _. right. right. by rewrite Eh.
  - split; [done|split|].
    + simpl. intros t. rewrite L1. assert (vdisk_lock (ag s) = Some Handler) as -> by by apply L2. naive_solver.
    + done.
    + by apply (alive_hpc (ag s)).
  - subst qu. split; simpl.
    + rewrite views_woken. by apply (inv_consume _ _ _ _ _ _ _ _ h).
    + by apply lock_woken.
    + destruct Ha as [H1 H2 H3 H4]. split; simpl.
      * intros t b' w idx E. assert (Et : pcs (ag s) t = SleepBuf b' w idx).
        { revert E. destruct (pcs (ag s) t); try done. simpl. by case_decide. }
        rewrite upd_other; [by apply (H1 t b' w idx)|]. intros ->. rewrite Et in E. simpl in E. by rewrite decide_True in E.
      * intros t b' w E. apply (H2 t b' w). revert E. destruct (pcs (ag s) t); try done. simpl. by case_decide.
      * intros _. right. right. by rewrite Eh.
      * intros Hq. destruct (H4 Hq) as [?|(t & b' & w & idx & E)]; [by left|]. right. exists t, b', w, idx. by rewrite E.
Qed.

(** *** The device *)

Lemma device_inv polls s s' qa qu : inv s qa qu -> device_step polls s s' -> exists qa' qu', inv s' qa' qu'.
Proof.
  intros [Hd Hl Ha] Hs. pose proof (i_queues _ _ _ _ _ _ _ _ Hd) as [_ Q2 _ _ _ _ _ _ _].
  destruct Hs as [s Hkick Hne|s E|s w1 h k w2 r b len j Ew Er Et Hk|s w1 h k w2 r b len j Ew Er Et Hk|s w1 h k w2 r b len j Ew Er Hk|s Eo].
  - destruct qa as [|h qa]; [by destruct Hne; apply (window_empty _ _ _ _ Q2)|].
    destruct (window_pop _ _ _ _ _ Q2) as [E _]. exists qa, qu. split; simpl; [|done|].
    + rewrite map_app, E. simpl. by apply inv_take.
    + destruct Ha as [H1 H2 H3 H4]. split; try done. intros _. by apply H4.
  - exists qa, qu. split; simpl; [done|done|]. destruct Ha as [H1 H2 H3 H4]. split; try done.
    intros Hq. by apply (window_empty _ _ _ _ Q2) in E.
  - exists qa, qu. split; simpl; [|done|].
    + rewrite Ew in Hd. revert Hd. by rewrite !map_app.
    + destruct Ha as [H1 H2 H3 H4]. by split.
  - exists qa, qu. split; simpl; [|done|].
    + rewrite Ew in Hd. revert Hd. by rewrite !map_app.
    + destruct Ha as [H1 H2 H3 H4]. by split.
  - exists qa, (qu ++ [h]). rewrite Ew, map_app in Hd. simpl in Hd.
    destruct (inv_head Hd h) as (t & b' & w & idx & _ & E0 & _ & Hf & _); [set_solver|].
    pose proof (request_formatted _ _ _ _ _ Hf) as Er'. rewrite E0, Er in Er'. injection Er' as -> -> -> ->.
    split; simpl; [|done|].
    + rewrite map_app. by apply inv_done.
    + destruct Ha as [H1 H2 H3 H4]. split; try done. by left.
  - exists qa, qu. split; simpl; [done|done|]. destruct Ha as [H1 H2 H3 H4]. split; try done.
    intros _. right. left. intros E. apply Z.lor_eq_0_iff in E. lia.
Qed.

(** *** The rest of the kernel *)

Lemma inv_blocks vw d bf bn bn' sn hs qa qu : data_inv vw d bf bn sn hs qa qu ->
  (forall b, 0 <= bn' b < 2 ^ 31) -> (forall t b w, vreq (vw t) = Some (b, w) -> bn' b = bn b) ->
  data_inv vw d bf bn' sn hs qa qu.
Proof.
  intros [Ho [_ Hx] F Q] Hr Hb. split; [done| | |done].
  - split; [done|]. intros t t' b w b' w' E E' Hne. rewrite (Hb t b w E), (Hb t' b' w' E'). by apply (Hx t t' b w b' w').
  - intros t b w idx E. destruct (F t b w idx E) as [F0 F1 F2 F3 F4]. apply fmt_idx in E as [_ E].
    split; try done. by rewrite (Hb t b w E).
Qed.

Lemma call_inv s t b w qa qu : inv s qa qu -> pcs (ag s) t = Idle ->
  (forall t' b' w', request_of (pcs (ag s) t') = Some (b', w') -> b' <> b /\ bno (bm s) b' <> bno (bm s) b) ->
  inv (on_ag (set_pc t (Enter b w)) s) qa qu.
Proof.
  intros [Hd Hl Ha] Et Hx. split; simpl.
  - rewrite views_upd. apply (inv_unowned (views (ag s))); [done| |].
    + split; [apply Hd|]. intros t1 t2 b1 w1 b2 w2. unfold views.
      upd_cases t1 t; upd_cases t2 t; try done.
      * intros [= <- <-] E2 _. rewrite <-request_view in E2. apply Hx in E2 as [? ?]. auto.
      * intros E1 [= <- <-] _. rewrite <-request_view in E1. by apply Hx in E1.
      * apply (i_excl _ _ _ _ _ _ _ _ Hd).
    + intros t'. upd_cases t' t; [|by left]. right. unfold views. by rewrite Et.
  - apply lock_keep; by rewrite ?Et.
  - apply (alive_pc (ag s)); try done. right. by rewrite Et.
Qed.

Lemma change_inv s b no data qa qu : inv s qa qu ->
  (forall t w, request_of (pcs (ag s) t) <> Some (b, w)) -> 0 <= no < 2 ^ 31 ->
  inv (on_bm (fun m => set_bno b no (set_bbytes b data m)) s) qa qu.
Proof.
  intros [Hd Hl Ha] Hx Hno. split; simpl; [|done..]. eapply inv_blocks; [done| |].
  - intros b'. upd_cases b' b; [done|]. apply Hd.
  - intros t b' w E. apply upd_other. intros ->. apply (Hx t w). by rewrite request_view.
Qed.

Lemma vinit_inv disk : inv (vinit disk) [] [].
Proof.
  split.
  - split; [split| | |split]; try done; try by apply (window_nil _ 0).
    + by apply NoDup_nil.
    + intros h Hh. by apply elem_of_nil in Hh.
    + by intros t b w idx [E|E].
  - by split.
  - by split.
Qed.

Lemma step_inv polls s e s' qa qu : inv s qa qu -> disk_step polls s e s' -> exists qa' qu', inv s' qa' qu'.
Proof.
  intros Hi Hs. destruct Hs as [t b w s Et Hx|b no data s Hx Hno|t s s' E|t s s' E|s s' E|s s' Hd].
  - exists qa, qu. by apply call_inv.
  - exists qa, qu. by apply change_inv.
  - pose proof (caller_steps s qa qu t Hi) as H. rewrite E in H. destruct (caller_inv _ _ _ _ _ _ Hi H) as [qa' ?]. by exists qa', qu.
  - pose proof (caller_steps s qa qu t Hi) as H. rewrite E in H. destruct (caller_inv _ _ _ _ _ _ Hi H) as [qa' ?]. by exists qa', qu.
  - pose proof (handler_steps s qa qu Hi) as H. rewrite E in H. destruct H as [qu' H]. exists qa, qu'.
    by apply (handler_inv s s' qa qu).
  - by apply (device_inv polls s s' qa qu).
Qed.

Lemma run_inv polls disk tr s : disk_run polls (vinit disk) tr s -> exists qa qu, inv s qa qu.
Proof.
  intros Hr. remember (vinit disk) as s0 eqn:E0. induction Hr as [s|s tr s1 e s2 Hr IH Hs].
  - subst. exists [], []. apply vinit_inv.
  - destruct (IH E0) as (qa & qu & Hi). by apply (step_inv polls s1 e s2 qa qu).
Qed.
