(* ===== verification/VirtioProps.v ===== *)
(** * The disk driver: theorems

    The driver and the device together behave as a disk that moves a block in
    one step; the driver never panics, and it cannot come to a standstill with
    a caller asleep. *)

From S2P Require Import Prelude Virtio VirtioInv.

(** ** Refinement *)

(** How far the request of a caller is: [Some k] when the device has moved
    [k] sectors of it, [None] when it is done. *)
Inductive at_phase (x : view) (bf : nat -> Z) (wk : list (Z * Z)) (qu : list Z) : option Z -> Prop :=
| ph_early :
    (forall b w idx, x <> VPub b w idx) -> (forall b w idx, x <> VFin b w idx) -> at_phase x bf wk qu (Some 0)
| ph_avail b w idx :
    x = VPub b w idx -> bf b = 1 -> ix idx 0 ∉ map fst wk -> ix idx 0 ∉ qu -> at_phase x bf wk qu (Some 0)
| ph_work b w idx k :
    x = VPub b w idx -> bf b = 1 -> (ix idx 0, k) ∈ wk -> 0 <= k -> at_phase x bf wk qu (Some k)
| ph_used b w idx :
    x = VPub b w idx -> bf b = 1 -> ix idx 0 ∈ qu -> at_phase x bf wk qu None
| ph_seen b w idx : x = VPub b w idx -> bf b = 0 -> at_phase x bf wk qu None
| ph_fin b w idx : x = VFin b w idx -> at_phase x bf wk qu None.

(** The buffer and the block of a request of which [k] sectors have moved. *)
Definition partial (db : Z -> Z) (bb : nat -> Z -> Z) (a : asys) (b : nat) (w : bool) (k : Z) : Prop :=
  let base := a_no a b * BLOCK in
  if w then
    (forall o, bb b o = a_data a b o) /\
    (forall o, 0 <= o < BLOCK -> db (base + o) = if o <? k * SECTOR then a_data a b o else a_disk a (base + o))
  else
    (forall o, 0 <= o < BLOCK -> db (base + o) = a_disk a (base + o)) /\
    (forall o, bb b o = if (0 <=? o) && (o <? BLOCK) && (o <? k * SECTOR) then a_disk a (base + o) else a_data a b o).

Definition called (p : option Z) (b : nat) (w : bool) : apc := match p with Some _ => ACalled b w | None => ADone b w end.

Record sim (s : vsys) (qu : list Z) (a : asys) : Prop := {
  s_no : forall b, bno (bm s) b = a_no a b;
  s_idle : forall t, vreq (views (ag s) t) = None -> a_pcs a t = AIdle;
  s_busy : forall t b w, vreq (views (ag s) t) = Some (b, w) -> exists p,
    at_phase (views (ag s) t) (bflag (bm s)) (work (dv s)) qu p /\ a_pcs a t = called p b w /\
    partial (dbytes (dv s)) (bbytes (bm s)) a b w (default 0 p);
  s_buf : forall b, (forall t w, vreq (views (ag s) t) <> Some (b, w)) -> forall o, bbytes (bm s) b o = a_data a b o;
  s_blk : forall n, (forall t b w, vreq (views (ag s) t) = Some (b, w) -> a_no a b <> n) ->
    forall o, 0 <= o < BLOCK -> dbytes (dv s) (n * BLOCK + o) = a_disk a (n * BLOCK + o);
}.

Lemma sim_agree s qu a : sim s qu a -> agree s a.
Proof.
  intros [H1 H2 H3 H4 H5]. split_and!; [done|..].
  - intros t. rewrite request_view. change (view_of _) with (views (ag s) t).
    destruct (vreq (views (ag s) t)) as [[b w]|] eqn:E; [|by rewrite H2].
    destruct (H3 t b w E) as ([k|] & _ & -> & _); done.
  - intros b o Hb. apply H4. intros t w. change (views (ag s) t) with (view_of (pcs (ag s) t)). rewrite <-request_view. apply Hb.
  - intros n o Ho Hn. apply H5; [|done]. intros t b w. change (views (ag s) t) with (view_of (pcs (ag s) t)).
    rewrite <-request_view, <-H1. apply Hn.
Qed.

(** Steps that move no data and finish no request. *)
Lemma sim_quiet s s' qu qu' a : sim s qu a ->
  bno (bm s') = bno (bm s) -> bbytes (bm s') = bbytes (bm s) -> dbytes (dv s') = dbytes (dv s) ->
  (forall t, vreq (views (ag s') t) = vreq (views (ag s) t)) ->
  (forall t p, vreq (views (ag s) t) <> None -> at_phase (views (ag s) t) (bflag (bm s)) (work (dv s)) qu p ->
     at_phase (views (ag s') t) (bflag (bm s')) (work (dv s')) qu' p) ->
  sim s' qu' a.
Proof.
  intros [H1 H2 H3 H4 H5] E1 E2 E3 Ev Hp. split; rewrite ?E1, ?E2, ?E3; try done.
  - intros t. rewrite Ev. apply H2.
  - intros t b w. rewrite Ev. intros E. destruct (H3 t b w E) as (p & ? & ? & ?). exists p. split; [|done].
    apply Hp; [congruence|done].
  - intros b Hb. apply H4. intros t w. rewrite <-Ev. apply Hb.
  - intros n Hn. apply H5. intros t b w. rewrite <-Ev. apply Hn.
Qed.
(** The phase of a caller that does not move. *)
Lemma phase_same x bf wk qu bf' p : at_phase x bf wk qu p -> (forall b w, vreq x = Some (b, w) -> bf' b = bf b) ->
  at_phase x bf' wk qu p.
Proof.
  intros Hp Hb. destruct Hp as [|b w idx ->|b w idx k ->|b w idx ->|b w idx ->|b w idx ->].
  - by apply ph_early.
  - eapply ph_avail; try done. by rewrite (Hb b w).
  - eapply ph_work; try done. by rewrite (Hb b w).
  - eapply ph_used; try done. by rewrite (Hb b w).
  - eapply ph_seen; try done. by rewrite (Hb b w).
  - by eapply ph_fin.
Qed.

(** A caller moves from one position to another of the same phase. *)
Lemma sim_caller s s' qu a t x : sim s qu a ->
  bno (bm s') = bno (bm s) -> bbytes (bm s') = bbytes (bm s) -> dv s' = dv s \/ (dbytes (dv s') = dbytes (dv s) /\ work (dv s') = work (dv s)) ->
  views (ag s') = upd (views (ag s)) t x -> vreq x = vreq (views (ag s) t) ->
  (forall t' b w, t' <> t -> vreq (views (ag s) t') = Some (b, w) -> bflag (bm s') b = bflag (bm s) b) ->
  (forall p, at_phase (views (ag s) t) (bflag (bm s)) (work (dv s)) qu p -> at_phase x (bflag (bm s')) (work (dv s)) qu p) ->
  sim s' qu a.
Proof.
  intros Hs E1 E2 E3 Ev Ex Hb Hp.
  assert (dbytes (dv s') = dbytes (dv s) /\ work (dv s') = work (dv s)) as [E4 E5] by by destruct E3 as [->|[]].
  apply (sim_quiet s s' qu qu a); try done.
  - intros t'. rewrite Ev. upd_cases t' t; done.
  - intros t' p _. rewrite Ev, E5. upd_cases t' t; [apply Hp|]. intros H. eapply phase_same; [done|].
    intros b w. by apply Hb.
Qed.

Lemma early_to x y bf bf' wk qu p : at_phase x bf wk qu p ->
  (forall b w idx, x <> VPub b w idx) -> (forall b w idx, x <> VFin b w idx) ->
  (forall b w idx, y <> VPub b w idx) -> (forall b w idx, y <> VFin b w idx) -> at_phase y bf' wk qu p.
Proof. intros Hp H1 H2 H3 H4. destruct Hp; try (exfalso; by eapply H1); [by apply ph_early|exfalso; by eapply H2]. Qed.

Lemma upd_view (vw : nat -> view) t x : vw t = x -> upd vw t x = vw.
Proof. intros <-. apply functional_extensionality. intros t'. apply upd_id. Qed.

Lemma caller_sim s t s' qa qu a : inv s qa qu -> sim s qu a -> caller_step s t false s' -> sim s' qu a.
Proof.
  intros [Hd Hl _] Hs Hc. remember false as r eqn:Er.
  destruct Hc as [p El Ev Hp Hn|b w idx Et Hc Hf|b w s1 Et Hg|b w idx Et|b w idx Et|b w idx Et|b w idx Et|b w idx Et Hb|b w idx Et Hb|b w idx Et];
    [..|done].
  all: try (assert (Evt : views (ag s) t = view_of (pcs (ag s) t)) by done; rewrite Et in Evt; simpl in Evt).
  - apply (sim_caller s _ qu a t (view_of p)); simpl; try done; auto.
    + apply (views_upd (set_lock _ (ag s))).
    + by rewrite Ev.
    + by rewrite Ev.
  - apply (sim_caller s _ qu a t (VOwn b w idx)); simpl; try done; auto.
    + apply views_upd.
    + by rewrite Evt.
    + rewrite Evt. intros p Hp. by eapply early_to.
  - destruct Hg as [_ _ Ebm Edv Eag]. apply (sim_caller s _ qu a t (VCall b w)); simpl; rewrite ?Ebm; auto.
    + transitivity (views (set_pc t (SleepFree b w) (ag s1))); [done|]. rewrite views_upd.
      destruct Eag as [[-> _]| ->]; [done|]. unfold woken. by rewrite views_woken.
    + by rewrite Evt.
    + by rewrite Evt.
  - apply (sim_caller s _ qu a t (VFmt b w idx)); simpl; auto.
    + apply views_upd.
    + by rewrite Evt.
    + intros t' b' w' Hne E'. apply upd_other.
      apply (proj2 (i_excl _ _ _ _ _ _ _ _ Hd) t' t b' w' b w); [done|by rewrite Evt|done].
    + rewrite Evt. intros p Hp. by eapply early_to.
  - apply (sim_caller s _ qu a t (VRing b w idx)); simpl; auto.
    + apply views_upd.
    + by rewrite Evt.
    + rewrite Evt. intros p Hp. by eapply early_to.
  - apply (sim_caller s _ qu a t (VPub b w idx)); simpl; auto.
    + apply views_upd.
    + by rewrite Evt.
    + rewrite Evt. intros p Hp.
      pose proof (inv_fresh Hd t idx ltac:(by rewrite Evt) ltac:(by rewrite Evt)) as Hfr.
      rewrite !elem_of_app in Hfr.
      destruct Hp; try done. eapply ph_avail; [done| |tauto|tauto].
      apply (q_armed _ _ _ _ _ _ _ (i_queues _ _ _ _ _ _ _ _ Hd) t b w idx). auto.
  - apply (sim_caller s _ qu a t (VPub b w idx)); simpl; auto.
    + apply views_upd.
    + by rewrite Evt.
    + by rewrite Evt.
  - apply (sim_caller s _ qu a t (VPub b w idx)); simpl; auto.
    + apply (views_upd (set_lock _ (ag s))).
    + by rewrite Evt.
    + by rewrite Evt.
  - apply (sim_caller s _ qu a t (VFin b w idx)); simpl; auto.
    + apply views_upd.
    + by rewrite Evt.
    + rewrite Evt. intros p Hp. destruct Hp as [H1 _|? ? ? [= <- <- <-]|? ? ? ? [= <- <- <-]|? ? ? [= <- <- <-]|? ? ? [= <- <- <-]|]; try done.
      * by destruct (H1 b w idx).
      * by eapply ph_fin.
Qed.

Lemma return_sim s t s' qa qu a : inv s qa qu -> sim s qu a -> caller_step s t true s' ->
  exists a', atomic_step a (Some (EReturn t)) a' /\ sim s' qu a'.
Proof.
  intros [Hd _ _] Hs Hc. remember true as r eqn:Er. destruct Hc as [| | | | | | | | |b w idx Et]; try done. clear Er.
  assert (Evt : views (ag s) t = VFin b w idx) by (unfold views; by rewrite Et).
  destruct Hs as [H1 H2 H3 H4 H5]. destruct (H3 t b w) as (p & Hp & Ea & Hpart); [by rewrite Evt|].
  assert (p = None) as -> by (rewrite Evt in Hp; destruct Hp as [_ Hx| | | | |]; try done; by destruct (Hx b w idx)).
  exists (ASys (a_disk a) (a_data a) (a_no a) (upd (a_pcs a) t AIdle)). split; [by apply (a_return t b w)|].
  assert (Ev : views (ag (on_ag (fun a => set_pc t Idle (set_lock None (woken a))) (on_dk (freed idx) s))) = upd (views (ag s)) t VIdle).
  { transitivity (views (set_pc t Idle (woken (ag s)))); [done|]. rewrite views_upd. unfold woken. by rewrite views_woken. }
  assert (Hoth : forall t' b' w', vreq (views (ag s) t') = Some (b', w') -> t' <> t -> b' <> b /\ a_no a b' <> a_no a b).
  { intros t' b' w' E' Hne. rewrite <-!H1. apply (proj2 (i_excl _ _ _ _ _ _ _ _ Hd) t' t b' w' b w); [done|by rewrite Evt|done]. }
  split; rewrite ?Ev; simpl; [done|..].
  - intros t'. upd_cases t' t; [done|apply H2].
  - intros t' b' w'. upd_cases t' t; [done|]. apply H3.
  - intros b' Hb'. destruct (decide (b' = b)) as [->|Hne].
    + intros o. unfold partial in Hpart. destruct w; destruct Hpart as [Hp1 Hp2]; [apply Hp1|]. rewrite Hp2.
      case_bool; [|done]. unfold SECTOR in *. simpl in *. lia.
    + apply H4. intros t' w' E'. apply (Hb' t' w'). upd_cases t' t; [|done]. rewrite Evt in E'. by injection E' as <- _.
  - intros n Hn o Ho. destruct (decide (n = a_no a b)) as [->|Hne].
    + unfold partial in Hpart. destruct w; destruct Hpart as [Hp1 Hp2]; [|by apply Hp1]. rewrite Hp2 by done.
      case_bool; [|done]. unfold SECTOR in *. simpl in *. lia.
    + apply H5; [|done]. intros t' b' w' E'. destruct (decide (t' = t)) as [->|Hne'].
      * rewrite Evt in E'. injection E' as <- _. auto.
      * apply (Hn t' b' w'). by rewrite upd_other.
Qed.

Lemma heads_apart {vw d bf bn sn hs qa qu} t t' b w idx b' w' idx' : data_inv vw d bf bn sn hs qa qu ->
  vw t = VPub b w idx -> vw t' = VPub b' w' idx' -> t <> t' -> ix idx 0 <> ix idx' 0.
Proof.
  intros I E E' Hne. assert (Ei : vidx (vw t) = Some idx) by by rewrite E. assert (Ei' : vidx (vw t') = Some idx') by by rewrite E'.
  apply (inv_apart I t t' idx idx'); try done; apply chain_head; eapply inv_wf; eauto.
Qed.

Lemma handler_sim s s' qa qu qu' a : inv s qa qu -> sim s qu a -> handler_step s qu qu' s' -> sim s' qu' a.
Proof.
  intros [Hd _ _] Hs Hh. destruct Hh as [Eh Ei|Eh El|Eh|st Eh|Eh Eq|h b qu' Eh Eq Eb].
  1-5: by apply (sim_quiet s _ qu qu a).
  subst qu. destruct (inv_head Hd h) as (t & b0 & w & idx & Et & E0 & Hb1 & Hf & Hc); [set_solver|].
  rewrite <-E0, (f_info _ _ _ _ _ Hf) in Eb. injection Eb as ->.
  apply (sim_quiet s _ (h :: qu') qu' a); try done; simpl.
  { intros t'. by rewrite views_woken. }
  intros t' p Hreq Hp. rewrite views_woken. destruct (decide (t' = t)) as [->|Hne].
  - assert (p = None) as ->.
    { rewrite Et in Hp. destruct Hp as [H1 _|? ? ? [= <- <- <-] _ _ Hn|? ? ? k [= <- <- <-] _ Hk _|? ? ? [= <- <- <-]|? ? ? [= <- <- <-]|]; try done.
      - by destruct (H1 b w idx).
      - destruct Hn. rewrite E0. by left.
      - exfalso. pose proof (q_nodup _ _ _ _ _ _ _ (i_queues _ _ _ _ _ _ _ _ Hd)) as Hnd.
        apply NoDup_app in Hnd as (_ & _ & Hnd). apply NoDup_app in Hnd as (_ & Hnd & _).
        apply (Hnd (ix idx 0)); [|rewrite E0; by left]. apply (list_elem_of_fmap_2 fst) in Hk. done. }
    eapply ph_seen; [done|]. apply upd_same.
  - assert (Hne' : forall b' w', vreq (views (ag s) t') = Some (b', w') -> upd (bflag (bm s)) b 0 b' = bflag (bm s) b').
    { intros b' w' E'. apply upd_other. apply (proj2 (i_excl _ _ _ _ _ _ _ _ Hd) t' t b' w' b w); [done|by rewrite Et|done]. }
    apply (phase_same _ (bflag (bm s))); [|done].
    destruct Hp as [|b' w' idx' Ev ? ? Hn|b' w' idx' k Ev|b' w' idx' Ev ? Hin|b' w' idx' Ev|b' w' idx' Ev].
    + by apply ph_early.
    + eapply ph_avail; try done. set_solver.
    + by eapply ph_work.
    + eapply ph_used; try done. apply elem_of_cons in Hin as [Eq|]; [|done].
      destruct (heads_apart t' t _ _ _ _ _ _ Hd Ev Et); [done|congruence].
    + by eapply ph_seen.
    + by eapply ph_fin.
Qed.

Lemma window_unique ring lo hi q q' : window ring lo hi q -> window ring lo hi q' -> q = q'.
Proof.
  intros [H1 H2 H3 H4] [_ H2' H3' H4']. assert (Hl : length q = length q').
  { rewrite H2 in H2'. unfold u16, NUM in *. lia. }
  apply list_eq. intros k. destruct (q !! k) as [x|] eqn:E, (q' !! k) as [y|] eqn:E'; try done.
  - f_equal. rewrite <-(H4 k x E). by apply H4'.
  - apply lookup_lt_Some in E. apply lookup_ge_None in E'. lia.
  - apply lookup_lt_Some in E'. apply lookup_ge_None in E. lia.
Qed.
(** The used ring determines its entries. *)
Lemma inv_used_same s s' qa qu qa' qu' : inv s qa qu -> inv s' qa' qu' -> dk s' = dk s -> qu' = qu.
Proof.
  intros [Hd _ _] [Hd' _ _] E. rewrite E in Hd'.
  exact (window_unique _ _ _ _ _ (q_used _ _ _ _ _ _ _ (i_queues _ _ _ _ _ _ _ _ Hd')) (q_used _ _ _ _ _ _ _ (i_queues _ _ _ _ _ _ _ _ Hd))).
Qed.

(** The caller whose request the device has. *)
Lemma at_work s qa qu a w1 h k w2 : inv s qa qu -> sim s qu a -> work (dv s) = w1 ++ (h, k) :: w2 ->
  exists t b w idx, views (ag s) t = VPub b w idx /\ ix idx 0 = h /\ bflag (bm s) b = 1 /\
    formatted (dk s) (bno (bm s)) b w idx /\
    at_phase (views (ag s) t) (bflag (bm s)) (work (dv s)) qu (Some k) /\ 0 <= k /\
    a_pcs a t = ACalled b w /\ partial (dbytes (dv s)) (bbytes (bm s)) a b w k.
Proof.
  intros [Hd _ _] Hs Ew. assert (Hin : h ∈ map fst (work (dv s))).
  { rewrite Ew, map_app. simpl. set_solver. }
  destruct (inv_head Hd h) as (t & b & w & idx & Et & E0 & Hb1 & Hf & Hc); [set_solver|].
  destruct (s_busy _ _ _ Hs t b w) as (p & Hp & Ea & Hpart); [by rewrite Et|].
  pose proof (q_nodup _ _ _ _ _ _ _ (i_queues _ _ _ _ _ _ _ _ Hd)) as Hnd.
  apply NoDup_app in Hnd as (_ & _ & Hnd). apply NoDup_app in Hnd as (Hnd & Hnd' & _).
  assert (p = Some k /\ 0 <= k) as [-> Hk0].
  { rewrite Et in Hp. destruct Hp as [H1 _|? ? ? [= <- <- <-] _ Hn _|? ? ? k' [= <- <- <-] _ Hk' ?|? ? ? [= <- <- <-] _ Hq|? ? ? [= <- <- <-]|].
    - by destruct (H1 b w idx).
    - by rewrite E0 in Hn.
    - rewrite E0 in Hk'. assert (k' = k) as ->; [|done]. rewrite Ew in Hk', Hnd. rewrite map_app in Hnd. simpl in Hnd.
      apply NoDup_app in Hnd as (_ & Hn1 & Hn2). apply NoDup_cons in Hn2 as [Hn2 _].
      apply elem_of_app in Hk' as [Hk'|[[= ->]|Hk']%elem_of_cons]; [|done|].
      + destruct (Hn1 h); [by apply (list_elem_of_fmap_2 fst) in Hk'|by left].
      + by apply (list_elem_of_fmap_2 fst) in Hk'.
    - destruct (Hnd' h); [done|]. by rewrite <-E0.
    - congruence.
    - done. }
  by exists t, b, w, idx.
Qed.

Lemma partial_ext db bb a db' bb' a' b w k : partial db bb a b w k -> a_no a' b = a_no a b ->
  (forall o, bb' b o = bb b o) -> (forall o, a_data a' b o = a_data a b o) ->
  (forall o, 0 <= o < BLOCK -> db' (a_no a b * BLOCK + o) = db (a_no a b * BLOCK + o)) ->
  (forall o, 0 <= o < BLOCK -> a_disk a' (a_no a b * BLOCK + o) = a_disk a (a_no a b * BLOCK + o)) ->
  partial db' bb' a' b w k.
Proof.
  intros Hp En Eb Ea Ed Ek. unfold partial in *. rewrite En. destruct w; destruct Hp as [H1 H2]; split.
  - intros o. by rewrite Eb, Ea.
  - intros o Ho. by rewrite Ed, Ea, Ek, H2 by done.
  - intros o Ho. by rewrite Ed, Ek, H1 by done.
  - intros o. rewrite Eb, Ea, H2. case_bool; [|done]. by rewrite Ek.
Qed.

(** [f] and [g] are the same outside of block [n]. *)
Definition same_outside (n : Z) (f g : Z -> Z) : Prop := forall x, ~ (n * BLOCK <= x < (n + 1) * BLOCK) -> f x = g x.
Lemma same_outside_block n m f g o : same_outside n f g -> m <> n -> 0 <= o < BLOCK -> f (m * BLOCK + o) = g (m * BLOCK + o).
Proof. intros H Hne Ho. apply H. unfold BLOCK in *. lia. Qed.

(** A step on the request of [t] alone. *)
Lemma sim_one s s' qa qu qu' a a' t b w idx p :
  inv s qa qu -> sim s qu a -> views (ag s) t = VPub b w idx ->
  views (ag s') = views (ag s) -> bflag (bm s') = bflag (bm s) -> bno (bm s') = bno (bm s) -> a_no a' = a_no a ->
  (forall b', b' <> b -> bbytes (bm s') b' = bbytes (bm s) b' /\ a_data a' b' = a_data a b') ->
  same_outside (a_no a b) (dbytes (dv s')) (dbytes (dv s)) -> same_outside (a_no a b) (a_disk a') (a_disk a) ->
  (forall t', t' <> t -> a_pcs a' t' = a_pcs a t') ->
  (forall t' p, t' <> t -> at_phase (views (ag s) t') (bflag (bm s)) (work (dv s)) qu p ->
     at_phase (views (ag s) t') (bflag (bm s)) (work (dv s')) qu' p) ->
  at_phase (views (ag s) t) (bflag (bm s)) (work (dv s')) qu' p -> a_pcs a' t = called p b w ->
  partial (dbytes (dv s')) (bbytes (bm s')) a' b w (default 0 p) ->
  sim s' qu' a'.
Proof.
  intros [Hd _ _] [H1 H2 H3 H4 H5] Et Ev Ef En Ena Hb Hdb Hdk Hpc Hph Hp Hpt Hpart.
  assert (Hoth : forall t' b' w', vreq (views (ag s) t') = Some (b', w') -> t' <> t -> b' <> b /\ a_no a b' <> a_no a b).
  { intros t' b' w' E' Hne. rewrite <-!H1. apply (proj2 (i_excl _ _ _ _ _ _ _ _ Hd) t' t b' w' b w); [done|by rewrite Et|done]. }
  split; rewrite ?Ev, ?Ef, ?En, ?Ena; try done.
  - intros t' E'. rewrite Hpc; [by apply H2|]. intros ->. by rewrite Et in E'.
  - intros t' b' w' E'. destruct (decide (t' = t)) as [->|Hne].
    { rewrite Et in E'. injection E' as <- <-. by exists p. }
    destruct (Hoth _ _ _ E' Hne) as [Hnb Hnn]. destruct (H3 t' b' w' E') as (p' & Hp' & Ea & Hpart').
    exists p'. rewrite Hpc by done. split_and!; [by apply Hph|done|].
    eapply partial_ext; [done|by rewrite Ena|..].
    + intros o. by rewrite (proj1 (Hb b' Hnb)).
    + intros o. by rewrite (proj2 (Hb b' Hnb)).
    + intros o Ho. by apply (same_outside_block (a_no a b)).
    + intros o Ho. by apply (same_outside_block (a_no a b)).
  - intros b' Hb' o. assert (b' <> b) as Hne by (intros ->; apply (Hb' t w); by rewrite Et).
    rewrite (proj1 (Hb b' Hne)), (proj2 (Hb b' Hne)). by apply H4.
  - intros n Hn o Ho. assert (n <> a_no a b) as Hne by (intros ->; apply (Hn t b w); [by rewrite Et|done]).
    rewrite (same_outside_block _ _ _ _ _ Hdb), (same_outside_block _ _ _ _ _ Hdk) by done. by apply H5.
Qed.

(** The other requests the device works on stay where they are. *)
Lemma phase_others s qa qu t b w idx w1 w1' w2 h k qu' : inv s qa qu ->
  views (ag s) t = VPub b w idx -> ix idx 0 = h -> work (dv s) = w1 ++ (h, k) :: w2 ->
  (forall x, x ∈ map fst w1' -> x = h) -> (forall x, x ∈ qu' -> x ∈ qu \/ x = h) -> (forall x, x ∈ qu -> x ∈ qu') ->
  forall t' p, t' <> t -> at_phase (views (ag s) t') (bflag (bm s)) (work (dv s)) qu p ->
    at_phase (views (ag s) t') (bflag (bm s)) (w1 ++ w1' ++ w2) qu' p.
Proof.
  intros [Hd _ _] Et Eh Ew Hw Hq Hq' t' p Hne Hp.
  destruct Hp as [|b' w' idx' Ev ? Hn Hn'|b' w' idx' k' Ev ? Hk|b' w' idx' Ev ? Hin|b' w' idx' Ev|b' w' idx' Ev].
  - by apply ph_early.
  - pose proof (heads_apart t' t _ _ _ _ _ _ Hd Ev Et Hne) as Hh. eapply ph_avail; try done.
    + rewrite !map_app, !elem_of_app. rewrite Ew, map_app, elem_of_app in Hn. simpl in Hn. rewrite elem_of_cons in Hn.
      intros [?|[Hx%Hw|?]]; [tauto|congruence|tauto].
    + intros [?|?]%Hq; [done|congruence].
  - pose proof (heads_apart t' t _ _ _ _ _ _ Hd Ev Et Hne) as Hh. eapply ph_work; try done.
    rewrite Ew, elem_of_app, elem_of_cons in Hk. rewrite !elem_of_app. destruct Hk as [?|[[= Ex _]|?]]; [tauto|congruence|tauto].
  - eapply ph_used; try done. auto.
  - by eapply ph_seen.
  - by eapply ph_fin.
Qed.

Lemma take_sim s h qu a v' : sim s qu a -> dbytes v' = dbytes (dv s) -> work v' = work (dv s) ++ [(h, 0)] ->
  sim (on_dv (fun _ => v') s) qu a.
Proof.
  intros Hs E1 E2. apply (sim_quiet s _ qu qu a); try done. simpl. rewrite E2. intros t p _ Hp.
  destruct Hp as [|b w idx Ev ? Hn Hn'|b w idx k Ev ? Hk|b w idx Ev|b w idx Ev|b w idx Ev].
  - by apply ph_early.
  - destruct (decide (ix idx 0 = h)) as [<-|Hne].
    + eapply ph_work; try done. set_solver.
    + eapply ph_avail; try done. rewrite map_app, elem_of_app. simpl. set_solver.
  - eapply ph_work; try done. set_solver.
  - by eapply ph_used.
  - by eapply ph_seen.
  - by eapply ph_fin.
Qed.

(** A sector more. *)
Lemma partial_read db bb a b k r : partial db bb a b false k -> r = a_no a b * 2 -> 0 <= k -> k * SECTOR < BLOCK ->
  partial db (upd bb b (move_in r k db (bb b))) a b false (k + 1).
Proof.
  intros [H1 H2] -> Hk Hk'. split; [done|]. intros o. rewrite upd_same. unfold move_in.
  case_bool; case_bool; bool_to_prop; try done.
  - replace (a_no a b * 2 * SECTOR) with (a_no a b * BLOCK) by (unfold SECTOR, BLOCK; lia). apply H1. lia.
  - exfalso. unfold SECTOR, BLOCK in *. lia.
  - rewrite H2. unfold SECTOR, BLOCK in *. by rewrite (proj2 (andb_true_iff _ _)) by lia.
  - rewrite H2. case_bool; [|done]. exfalso. unfold SECTOR, BLOCK in *. lia.
Qed.
Lemma partial_write db bb a b k r : partial db bb a b true k -> r = a_no a b * 2 -> 0 <= k -> k * SECTOR < BLOCK ->
  partial (move_out r k (bb b) db) bb a b true (k + 1) /\ same_outside (a_no a b) (move_out r k (bb b) db) db.
Proof.
  intros [H1 H2] -> Hk Hk'. unfold move_out. split.
  - split; [done|]. intros o Ho. cbv zeta.
    replace (a_no a b * BLOCK + o - a_no a b * 2 * SECTOR) with o by (unfold SECTOR, BLOCK; lia).
    case_bool; case_bool; bool_to_prop; try done; try apply H1.
    + exfalso. unfold SECTOR, BLOCK in *. lia.
    + rewrite H2 by done. by rewrite (proj2 (Z.ltb_lt _ _)) by (unfold SECTOR, BLOCK in *; lia).
    + rewrite H2 by done. case_bool; [|done]. exfalso. unfold SECTOR, BLOCK in *. lia.
  - intros x Hx. cbv zeta. case_bool; [|done]. exfalso. unfold SECTOR, BLOCK in *. lia.
Qed.

(** The last sector is there: the block has moved. *)
Definition read_done (a : asys) (t b : nat) : asys :=
  ASys (a_disk a)
    (upd (a_data a) b (fun o => if (0 <=? o) && (o <? BLOCK) then a_disk a (a_no a b * BLOCK + o) else a_data a b o))
    (a_no a) (upd (a_pcs a) t (ADone b false)).
Definition write_done (a : asys) (t b : nat) : asys :=
  ASys (fun x => let o := x - a_no a b * BLOCK in if (0 <=? o) && (o <? BLOCK) then a_data a b o else a_disk a x)
    (a_data a) (a_no a) (upd (a_pcs a) t (ADone b true)).

Lemma partial_read_done db bb a t b k : partial db bb a b false k -> BLOCK <= k * SECTOR ->
  partial db bb (read_done a t b) b false 0.
Proof.
  intros [H1 H2] Hk. split; [done|]. simpl. intros o. rewrite upd_same, H2.
  repeat case_bool; try done; exfalso; unfold SECTOR, BLOCK in *; lia.
Qed.
Lemma partial_write_done db bb a t b k : partial db bb a b true k -> BLOCK <= k * SECTOR ->
  partial db bb (write_done a t b) b true 0 /\ same_outside (a_no a b) (a_disk (write_done a t b)) (a_disk a).
Proof.
  intros [H1 H2] Hk. split.
  - split; [done|]. simpl. intros o Ho. rewrite H2 by done.
    replace (a_no a b * BLOCK + o - a_no a b * BLOCK) with o by lia.
    repeat case_bool; try done; exfalso; unfold SECTOR, BLOCK in *; lia.
  - intros x Hx. simpl. case_bool; [|done]. exfalso. unfold BLOCK in *. lia.
Qed.

(** What the device reads of a request. *)
Lemma request_at s qu a t b w idx h r b' len j : sim s qu a -> views (ag s) t = VPub b w idx ->
  formatted (dk s) (bno (bm s)) b w idx -> ix idx 0 = h -> request (dk s) h = Some (r, b', len, j) ->
  b' = b /\ len = BLOCK /\ j = h /\ r_type r = (if w then VIRTIO_BLK_T_OUT else VIRTIO_BLK_T_IN) /\ r_sector r = a_no a b * 2.
Proof.
  intros Hs Et Hf E0 Er. pose proof (request_formatted _ _ _ _ _ Hf) as Er'. rewrite E0, Er in Er'.
  injection Er' as -> -> -> ->. simpl. by rewrite (s_no _ _ _ Hs).
Qed.

Lemma device_sim polls s s' qa qu qa' qu' a : inv s qa qu -> sim s qu a -> device_step polls s s' -> inv s' qa' qu' ->
  exists a', (a' = a \/ atomic_step a None a') /\ sim s' qu' a'.
Proof.
  intros Hi Hs Hd Hi'. destruct Hd as [s Hne|s E|s w1 h k w2 r b0 len j Ew Er Ert Hk|s w1 h k w2 r b0 len j Ew Er Ert Hk|s w1 h k w2 r b0 len j Ew Er Hk|s Eo].
  - rewrite (inv_used_same _ _ _ _ _ _ Hi Hi') by done. exists a. split; [by left|]. by eapply (take_sim s).
  - rewrite (inv_used_same _ _ _ _ _ _ Hi Hi') by done. exists a. split; [by left|]. by apply (sim_quiet s _ qu qu a).
  - rewrite (inv_used_same _ _ _ _ _ _ Hi Hi') by done. exists a. split; [by left|].
    destruct (at_work _ _ _ _ _ _ _ _ Hi Hs Ew) as (t & b & w & idx & Et & E0 & Eb & Hf & Hp & Hk0 & Ea & Hpart).
    destruct (request_at _ _ _ _ _ _ _ _ _ _ _ _ Hs Et Hf E0 Er) as (-> & -> & -> & Ew' & Es). rewrite Ert in Ew'.
    destruct w; [done|].
    apply (sim_one s _ qa qu qu a a t b false idx (Some (k + 1))); try done.
    + intros b' Hb'. simpl. by rewrite upd_other.
    + apply (phase_others s qa qu t b false idx w1 [(h, k + 1)] w2 h k qu); try done; set_solver.
    + eapply ph_work; try done; [simpl; rewrite E0; set_solver|lia].
    + simpl. by apply partial_read.
  - rewrite (inv_used_same _ _ _ _ _ _ Hi Hi') by done. exists a. split; [by left|].
    destruct (at_work _ _ _ _ _ _ _ _ Hi Hs Ew) as (t & b & w & idx & Et & E0 & Eb & Hf & Hp & Hk0 & Ea & Hpart).
    destruct (request_at _ _ _ _ _ _ _ _ _ _ _ _ Hs Et Hf E0 Er) as (-> & -> & -> & Ew' & Es). rewrite Ert in Ew'.
    destruct w; [|done]. destruct (partial_write _ _ _ _ _ _ Hpart Es Hk0 Hk) as [Hpart' Hout].
    apply (sim_one s _ qa qu qu a a t b true idx (Some (k + 1))); try done.
    + apply (phase_others s qa qu t b true idx w1 [(h, k + 1)] w2 h k qu); try done; set_solver.
    + eapply ph_work; try done; [simpl; rewrite E0; set_solver|lia].
  - assert (Eq : qu' = qu ++ [h]).
    { destruct Hi as [Hd _ _], Hi' as [Hd' _ _]. rewrite Ew, map_app in Hd. apply inv_done in Hd.
      exact (window_unique _ _ _ _ _ (q_used _ _ _ _ _ _ _ (i_queues _ _ _ _ _ _ _ _ Hd'))
        (q_used _ _ _ _ _ _ _ (i_queues _ _ _ _ _ _ _ _ Hd))). }
    destruct (at_work _ _ _ _ _ _ _ _ Hi Hs Ew) as (t & b & w & idx & Et & E0 & Eb & Hf & Hp & Hk0 & Ea & Hpart).
    destruct (request_at _ _ _ _ _ _ _ _ _ _ _ _ Hs Et Hf E0 Er) as (-> & -> & -> & _ & _).
    assert (Hoth : forall t' p, t' <> t -> at_phase (views (ag s) t') (bflag (bm s)) (work (dv s)) qu p ->
      at_phase (views (ag s) t') (bflag (bm s)) (w1 ++ w2) qu' p).
    { subst qu'. apply (phase_others s qa qu t b w idx w1 [] w2 h k (qu ++ [h])); try done; set_solver. }
    assert (Hme : at_phase (views (ag s) t) (bflag (bm s)) (w1 ++ w2) qu' None).
    { eapply ph_used; [done|done|]. subst qu'. rewrite E0. set_solver. }
    destruct w.
    + exists (write_done a t b). split; [right; by apply a_write|].
      destruct (partial_write_done _ _ _ t _ _ Hpart Hk) as [Hpart' Hout].
      apply (sim_one s _ qa qu qu' a _ t b true idx None); try done; simpl; [|apply upd_same].
      intros t' Hne. by apply upd_other.
    + exists (read_done a t b). split; [right; by apply a_read|].
      apply (sim_one s _ qa qu qu' a _ t b false idx None); try done; simpl.
      * intros b' Hb'. by rewrite upd_other.
      * intros t' Hne. by apply upd_other.
      * apply upd_same.
      * by apply (partial_read_done _ _ _ t _ k).
  - rewrite (inv_used_same _ _ _ _ _ _ Hi Hi') by done. exists a. split; [by left|]. by apply (sim_quiet s _ qu qu a).
Qed.

Lemma call_sim s t b w qu a : sim s qu a -> pcs (ag s) t = Idle ->
  (forall t' b' w', request_of (pcs (ag s) t') = Some (b', w') -> b' <> b /\ bno (bm s) b' <> bno (bm s) b) ->
  exists a', atomic_step a (Some (ECall t b w)) a' /\ sim (on_ag (set_pc t (Enter b w)) s) qu a'.
Proof.
  intros Hs Et Hx. pose proof (sim_agree _ _ _ Hs) as (Hno & Hreq & Hbuf & Hblk). destruct Hs as [H1 H2 H3 H4 H5].
  assert (Hv : forall t' b' w', vreq (views (ag s) t') = Some (b', w') -> b' <> b /\ a_no a b' <> a_no a b).
  { intros t' b' w' E. rewrite <-!H1. apply (Hx t' b' w'). by rewrite request_view. }
  exists (ASys (a_disk a) (a_data a) (a_no a) (upd (a_pcs a) t (ACalled b w))). split.
  - apply a_call.
    + apply H2. unfold views. by rewrite Et.
    + intros t' b' w' E. rewrite <-Hreq, request_view in E. by apply (Hv t' b' w').
  - split; simpl; rewrite ?views_upd; simpl; try done.
    + intros t'. upd_cases t' t; [done|apply H2].
    + intros t' b' w'. upd_cases t' t; [|apply H3]. intros [= <- <-]. exists (Some 0). split_and!; [by apply ph_early|done|].
      assert (Hb : forall o, bbytes (bm s) b o = a_data a b o) by (intros o; apply H4; intros t' w' E; by apply Hv in E as [? _]).
      assert (Hd : forall o, 0 <= o < BLOCK -> dbytes (dv s) (a_no a b * BLOCK + o) = a_disk a (a_no a b * BLOCK + o)).
      { apply H5. intros t' b' w' E. by apply Hv in E as [_ ?]. }
      destruct w; split; simpl; try done.
      * intros o Ho. rewrite Hd by done. case_bool; [unfold SECTOR in *; lia|done].
      * intros o. rewrite Hb. case_bool; [unfold SECTOR in *; lia|done].
    + intros b' Hb'. apply H4. intros t' w' E. apply (Hb' t' w'). rewrite upd_other; [done|]. intros ->.
      unfold views in E. by rewrite Et in E.
    + intros n Hn. apply H5. intros t' b' w' E. apply (Hn t' b' w'). rewrite upd_other; [done|]. intros ->.
      unfold views in E. by rewrite Et in E.
Qed.

Lemma change_sim s b no data qu a : sim s qu a ->
  (forall t w, request_of (pcs (ag s) t) <> Some (b, w)) -> 0 <= no < 2 ^ 31 ->
  exists a', atomic_step a (Some (EChange b no data)) a' /\ sim (on_bm (fun m => set_bno b no (set_bbytes b data m)) s) qu a'.
Proof.
  intros Hs Hx Hno. pose proof (sim_agree _ _ _ Hs) as (_ & Hreq & _). destruct Hs as [H1 H2 H3 H4 H5].
  assert (Hv : forall t' b' w', vreq (views (ag s) t') = Some (b', w') -> b' <> b).
  { intros t' b' w' E ->. apply (Hx t' w'). by rewrite request_view. }
  eexists. split; [apply a_change; [|done]; intros t w; rewrite <-Hreq; apply Hx|]. split; simpl; try done.
  - intros b'. upd_cases b' b; done.
  - intros t b' w E. destruct (H3 t b' w E) as (p & ? & ? & Hpart). apply Hv in E. exists p. split_and!; [done..|].
    eapply partial_ext; try done; simpl; intros; by rewrite upd_other.
  - intros b' Hb' o. upd_cases b' b; [done|by apply H4].
  - intros n Hn. apply H5. intros t b' w E. specialize (Hn t b' w E). rewrite upd_other in Hn; [done|by apply Hv in E].
Qed.

Lemma step_sim polls s e s' qa qu a : inv s qa qu -> sim s qu a -> disk_step polls s e s' ->
  exists qa' qu' a', inv s' qa' qu' /\ sim s' qu' a' /\ ((e = None /\ a' = a) \/ atomic_step a e a').
Proof.
  intros Hi Hs Hst. destruct Hst as [t b w s Et Hx|b no data s Hx Hno|t s s' E|t s s' E|s s' E|s s' Hd].
  - destruct (call_sim s t b w qu a Hs Et Hx) as (a' & ? & ?). exists qa, qu, a'. split_and!; [by apply call_inv|done|by right].
  - destruct (change_sim s b no data qu a Hs Hx Hno) as (a' & ? & ?). exists qa, qu, a'.
    split_and!; [by apply change_inv|done|by right].
  - pose proof (caller_steps s qa qu t Hi) as H. rewrite E in H. destruct (caller_inv _ _ _ _ _ _ Hi H) as [qa' ?].
    exists qa', qu, a. split_and!; [done|by apply (caller_sim s t s' qa)|by left].
  - pose proof (caller_steps s qa qu t Hi) as H. rewrite E in H. destruct (caller_inv _ _ _ _ _ _ Hi H) as [qa' ?].
    destruct (return_sim s t s' qa qu a Hi Hs H) as (a' & ? & ?). exists qa', qu, a'. split_and!; [done..|by right].
  - pose proof (handler_steps s qa qu Hi) as H. rewrite E in H. destruct H as [qu' H]. exists qa, qu', a.
    split_and!; [by apply (handler_inv s s' qa qu)|by apply (handler_sim s s' qa qu)|by left].
  - destruct (device_inv polls s s' qa qu Hi Hd) as (qa' & qu' & Hi'). destruct (device_sim polls s s' qa qu qa' qu' a Hi Hs Hd Hi') as (a' & Ha & ?).
    exists qa', qu', a'. split_and!; [done..|]. destruct Ha as [->|?]; [by left|by right].
Qed.

(** C3: the driver with its interrupt handler and the device, in every
    interleaving, do what a disk does that moves a whole block in one step at
    some time between the call of virtio_disk_rw and its return: every
    sequence of calls, returns and changes of buffers that they can show is
    one of that disk, and afterwards the blocks and buffers that are not in
    use have the same contents. *)
Theorem virtio_refines polls disk tr s :
  disk_run polls (vinit disk) tr s -> exists a, atomic_run (ainit disk) tr a /\ agree s a.
Proof.
  intros Hr. cut (exists qa qu a, inv s qa qu /\ sim s qu a /\ atomic_run (ainit disk) tr a).
  { intros (qa & qu & a & _ & Hs & Ha). exists a. split; [done|by eapply sim_agree]. }
  remember (vinit disk) as s0 eqn:E0. induction Hr as [s|s tr s1 e s2 Hr IH Hst].
  - subst. exists [], [], (ainit disk). split_and!; [apply vinit_inv| |apply arun_nil]. by split.
  - destruct (IH E0) as (qa & qu & a & Hi & Hs & Ha).
    destruct (step_sim polls s1 e s2 qa qu a Hi Hs Hst) as (qa' & qu' & a' & Hi' & Hs' & Hat). exists qa', qu', a'.
    split_and!; [done..|]. destruct Hat as [[-> ->]|Hat]; [by rewrite app_nil_r|by eapply arun_snoc].
Qed.

(** Neither a caller nor the interrupt handler ever panics, and none of
    their loops runs on: descriptors are freed once, within the table, and a
    completed request has its status and its buffer. *)
Theorem virtio_never_panics polls disk tr s : disk_run polls (vinit disk) tr s ->
  (forall t, virtio_disk_rw t s = Blocked \/ exists r s', virtio_disk_rw t s = Ret (r, s')) /\
  (virtio_disk_intr s = Blocked \/ exists s', virtio_disk_intr s = Ret (tt, s')).
Proof.
  intros Hr. destruct (run_inv _ _ _ _ Hr) as (qa & qu & Hi). split.
  - intros t. pose proof (caller_steps s qa qu t Hi) as H. destruct (virtio_disk_rw t s) as [[r s']| | |]; try done; eauto.
  - pose proof (handler_steps s qa qu Hi) as H. destruct (virtio_disk_intr s) as [[[] s']| | |]; try done; eauto.
Qed.

(** ** Waiting *)

(** Nobody can do anything. *)
Definition standstill (polls : bool) (s : vsys) : Prop :=
  (forall t, virtio_disk_rw t s = Blocked) /\ virtio_disk_intr s = Blocked /\ (forall s', device_step polls s s' -> s' = s).

(** An agent in the critical section is not blocked. *)
Lemma locked_runs s t qa qu : inv s qa qu -> locked (pcs (ag s) t) = true -> virtio_disk_rw t s <> Blocked.
Proof.
  intros [Hd Hl _] Hlk. unfold virtio_disk_rw. unfold bind at 1, gets at 1.
  destruct (pcs (ag s) t) eqn:Et; try done.
  - unfold bind at 1. pose proof (alloc3_desc_spec s) as Ha. unfold wp in Ha.
    destruct alloc3_desc as [[[idx|] s1]| | |]; done.
  - unfold bind at 1, gets at 1. by destruct (bflag (bm s) b =? 1).
  - assert (Ei : vidx (views (ag s) t) = Some idx) by (unfold views; by rewrite Et).
    rewrite <-bind_assoc. rewrite (bind_ret_eq _ _ _ _ _ (free_chain_spec s (bno (bm s)) b w idx (inv_wf Hd _ _ Ei)
      (i_fmt _ _ _ _ _ _ _ _ Hd t _ _ _ ltac:(unfold views; by rewrite Et))
      (fun i => o_used _ _ (i_own _ _ _ _ _ _ _ _ Hd) t idx i Ei))). done.
Qed.
Lemma hlocked_runs s : hlocked (hpc (ag s)) = true -> virtio_disk_intr s <> Blocked.
Proof.
  intros Hl. unfold virtio_disk_intr. unfold bind at 1, gets at 1. destruct (hpc (ag s)); try done.
  unfold bind at 1, gets at 1. case_match; [done|]. case_match; [done|]. by destruct (info_b _ _).
Qed.

(** When nobody can do anything the lock is free and the handler is idle. *)
Lemma standstill_quiet polls s qa qu : inv s qa qu -> standstill polls s ->
  vdisk_lock (ag s) = None /\ hpc (ag s) = IIdle /\ isr (dv s) = 0.
Proof.
  intros Hi (Hc & Hh & _). pose proof Hi as [_ [L1 L2] _].
  assert (El : vdisk_lock (ag s) = None).
  { destruct (vdisk_lock (ag s)) as [[t|]|] eqn:El; [|exfalso..|done].
    - exfalso. apply (locked_runs s t qa qu Hi); [by apply L1|apply Hc].
    - apply (hlocked_runs s); [by apply L2|done]. }
  split; [done|]. unfold virtio_disk_intr in Hh. unfold bind at 1, gets at 1 in Hh.
  destruct (hpc (ag s)) eqn:Eh.
  - unfold bind, gets in Hh. destruct (isr (dv s) =? 0) eqn:E; bool_to_prop; done.
  - exfalso. unfold bind at 1 in Hh. by rewrite vacquire_spec, El in Hh.
  - exfalso. apply (hlocked_runs s); [by rewrite Eh|]. unfold virtio_disk_intr. unfold bind at 1, gets at 1. by rewrite Eh.
  - exfalso. apply (hlocked_runs s); [by rewrite Eh|]. unfold virtio_disk_intr. unfold bind at 1, gets at 1. by rewrite Eh.
  - exfalso. apply (hlocked_runs s); [by rewrite Eh|]. unfold virtio_disk_intr. unfold bind at 1, gets at 1. by rewrite Eh.
Qed.

(** The device is at rest only when every request is in the used ring. *)
Lemma device_rest polls s qa qu : inv s qa qu -> (forall t, virtio_disk_rw t s = Blocked) -> (forall s', device_step polls s s' -> s' = s) ->
  qa = [] /\ work (dv s) = [] /\ owes (dv s) = false.
Proof.
  intros Hi Hc Hr. pose proof Hi as [Hd _ Ha]. split_and!.
  - destruct (decide (seen (dv s) = avail_idx (dk s))) as [E|Hne].
    + by apply (window_empty _ _ _ _ (q_avail _ _ _ _ _ _ _ (i_queues _ _ _ _ _ _ _ _ Hd))).
    + assert (Hqa : qa <> []) by (intros ->; by apply Hne, (window_empty _ _ _ _ (q_avail _ _ _ _ _ _ _ (i_queues _ _ _ _ _ _ _ _ Hd)))).
      destruct (al_kick _ _ _ _ _ _ Ha Hqa) as [Hk|(t & b & w & idx & Et)].
      2: { exfalso. apply (locked_runs s t qa qu Hi); [by rewrite Et|apply Hc]. }
      apply (dev_take s (or_intror Hk)), Hr in Hne. apply (f_equal (fun s => length (work (dv s)))) in Hne. simpl in Hne.
      rewrite length_app in Hne. simpl in Hne. lia.
  - destruct (work (dv s)) as [|[h k] wk] eqn:Ew; [done|]. exfalso.
    destruct (inv_head Hd h) as (t & b & w & idx & Et & E0 & _ & Hf & _); [simpl; set_solver|].
    pose proof (request_formatted _ _ _ _ _ Hf) as Er. rewrite E0 in Er.
    assert (Hw : (h, k + 1) :: wk = (h, k) :: wk -> False) by (intros [= E]; lia).
    destruct (decide (BLOCK <= k * SECTOR)).
    + pose proof (Hr _ (dev_done s [] h k wk _ _ _ _ Ew Er ltac:(done))) as E.
      apply (f_equal (fun s => length (work (dv s)))) in E. rewrite Ew in E. simpl in E. lia.
    + destruct w.
      * pose proof (Hr _ (dev_write s [] h k wk _ _ _ _ Ew Er ltac:(done) ltac:(lia))) as E.
        apply (f_equal (fun s => work (dv s))) in E. rewrite Ew in E. auto.
      * pose proof (Hr _ (dev_read s [] h k wk _ _ _ _ Ew Er ltac:(done) ltac:(lia))) as E.
        apply (f_equal (fun s => work (dv s))) in E. rewrite Ew in E. auto.
  - destruct (owes (dv s)) eqn:Eo; [|done]. pose proof (Hr _ (dev_interrupt s Eo)) as E.
    apply (f_equal (fun s => owes (dv s))) in E. simpl in E. congruence.
Qed.

(** C13: no lost wakeup, no lost notification and no deadlock.  When no caller,
    not the handler and not the device can do anything more, every call has
    returned: none is left asleep waiting for descriptors or for its request.
    This holds for a device that looks at the ring only after it has been
    notified ([polls] false), and for one that also looks by itself. *)
Theorem virtio_no_deadlock polls disk tr s :
  disk_run polls (vinit disk) tr s -> standstill polls s -> forall t, pcs (ag s) t = Idle.
Proof.
  intros Hr Hst. destruct (run_inv _ _ _ _ Hr) as (qa & qu & Hi).
  destruct (standstill_quiet polls s qa qu Hi Hst) as (El & Eh & Ei). destruct Hst as (Hc & _ & Hdev).
  destruct (device_rest polls s qa qu Hi Hc Hdev) as (-> & Ew & Eo). pose proof Hi as [Hd _ [A1 A2 A3 _]].
  assert (qu = []) as ->.
  { destruct qu; [done|]. destruct (A3 ltac:(done)) as [?|[?|?]]; congruence. }
  assert (Hb : forall t b w idx, pcs (ag s) t <> SleepBuf b w idx).
  { intros t b w idx E. pose proof (A1 _ _ _ _ E) as Hf.
    destruct (q_pub _ _ _ _ _ _ _ (i_queues _ _ _ _ _ _ _ _ Hd) t b w idx) as [?|[_ Hin]]; [unfold views; by rewrite E|congruence|].
    rewrite Ew in Hin. by apply elem_of_nil in Hin. }
  assert (Hcases : forall t, pcs (ag s) t = Idle \/ exists b w, pcs (ag s) t = SleepFree b w).
  { intros t. specialize (Hc t). destruct (locked (pcs (ag s) t)) eqn:Elk.
    - exfalso. by apply (locked_runs s t [] []) in Elk.
    - unfold virtio_disk_rw in Hc. unfold bind at 1, gets at 1 in Hc. destruct (pcs (ag s) t) eqn:Et; try done; eauto.
      all: try (by destruct (Hb t b w idx)); unfold bind at 1 in Hc; by rewrite vacquire_spec, El in Hc. }
  intros t. destruct (Hcases t) as [?|(b & w & E)]; [done|]. exfalso.
  destruct (nfree_owner _ _ (i_own _ _ _ _ _ _ _ _ Hd) (A2 _ _ _ E)) as (t' & idx & E').
  unfold views in E'. destruct (Hcases t') as [E2|(b' & w' & E2)]; by rewrite E2 in E'.
Qed.

(** ** Starting the device *)

(** Registers that read [bt_regs], the stores to them, and the pages that
    kalloc has. *)
Record boot := Boot { bt_regs : Z -> Z; bt_log : list (Z * Z); bt_pages : list Z }.
#[global] Instance boot_env : VirtioEnv boot := {
  mmio_read r := gets (fun s => bt_regs s r);
  mmio_write r v := modify (fun s => Boot (bt_regs s) (bt_log s ++ [(r, v)]) (bt_pages s));
  page_alloc := fun s => match bt_pages s with
                         | [] => Ret (0, s)
                         | p :: ps => Ret (p, Boot (bt_regs s) (bt_log s) ps)
                         end;
}.

(** A disk that the driver accepts. *)
Definition good_device (regs : Z -> Z) : Prop :=
  regs VIRTIO_MMIO_MAGIC_VALUE = 0x74726976 /\ regs VIRTIO_MMIO_VERSION = 2 /\ regs VIRTIO_MMIO_DEVICE_ID = 2 /\
  regs VIRTIO_MMIO_VENDOR_ID = 0x554d4551 /\ Z.land (regs VIRTIO_MMIO_STATUS) VIRTIO_CONFIG_S_FEATURES_OK <> 0 /\
  regs VIRTIO_MMIO_QUEUE_READY = 0 /\ NUM <= regs VIRTIO_MMIO_QUEUE_NUM_MAX.

Lemma boot_read {A} r (k : Z -> M (vdisk * boot) A) Q d b : wp (k (bt_regs b r)) Q (d, b) -> wp (let! x := R r in k x) Q (d, b).
Proof. done. Qed.
Lemma boot_write {A} r v (k : M (vdisk * boot) A) Q d regs log pages :
  wp k Q (d, Boot regs (log ++ [(r, u32 v)]) pages) -> wp (R_set r v ;; k) Q (d, Boot regs log pages).
Proof. done. Qed.
Lemma boot_page {A} (k : Z -> M (vdisk * boot) A) Q d regs log p pages :
  wp (k p) Q (d, Boot regs log pages) -> wp (let! x := env_io page_alloc in k x) Q (d, Boot regs log (p :: pages)).
Proof. done. Qed.
Lemma wp_found (regs : Z -> Z) Q d log pages : good_device regs ->
  Q true (d, Boot regs log pages) ->
  wp (if negb (bt_regs (Boot regs log pages) VIRTIO_MMIO_MAGIC_VALUE =? 0x74726976) then ret false else
    let! version := R VIRTIO_MMIO_VERSION in
    if negb (version =? 2) then ret false else
    let! id := R VIRTIO_MMIO_DEVICE_ID in
    if negb (id =? 2) then ret false else
    let! vendor := R VIRTIO_MMIO_VENDOR_ID in
    ret (vendor =? 0x554d4551)) Q (d, Boot regs log pages).
Proof.
  intros (H1 & H2 & H3 & H4 & _) HQ. unfold bt_regs at 1. rewrite H1. cbn [negb Z.eqb Pos.eqb]. apply boot_read. unfold bt_regs at 1. rewrite H2.
  cbn [negb Z.eqb Pos.eqb]. apply boot_read. unfold bt_regs at 1. rewrite H3. cbn [negb Z.eqb Pos.eqb].
  apply boot_read. unfold bt_regs at 1. rewrite H4. by apply wp_ret.
Qed.
Lemma free_all (l : list Z) (d : vdisk) (b : boot) Q :
  Q tt (with_descs (vdesc d) (fun i => bool_decide (i ∈ l) || vfree d i) d, b) ->
  wp (for_each l (fun i => modify (fun x : vdisk * boot => (set_free i true (fst x), snd x)))) Q (d, b).
Proof.
  revert d. induction l as [|i l IH]; intros d HQ; cbn [for_each].
  - apply wp_ret. destruct d. exact HQ.
  - apply wp_bind, wp_modify, IH. cbn [fst snd].
    match goal with |- Q tt (?x, b) => match type of HQ with Q tt (?y, b) => assert (x = y) as ->; [|done] end end.
    unfold with_descs. simpl. f_equal. apply functional_extensionality. intros j. upd_cases j i.
    + rewrite orb_true_r, bool_decide_true by by left. done.
    + f_equal. apply bool_decide_ext. set_solver.
Qed.

Lemma virtio_disk_init_spec d regs log desc avail used pages :
  good_device regs -> desc <> 0 -> avail <> 0 -> used <> 0 ->
  wp virtio_disk_init (fun _ x =>
    (forall i, vdesc (fst x) i = Desc DNull 0 0 0) /\ avail_idx (fst x) = 0 /\ ring_idx (fst x) = 0 /\
    used_idx (fst x) = used_idx d /\ (forall i, in_range i -> vfree (fst x) i = true) /\
    bt_pages (snd x) = pages /\
    exists l, bt_log (snd x) = log ++ l /\
      (VIRTIO_MMIO_QUEUE_DESC_LOW, u32 desc) ∈ l /\ (VIRTIO_MMIO_QUEUE_DESC_HIGH, u32 (Z.shiftr desc 32)) ∈ l /\
      (VIRTIO_MMIO_DRIVER_DESC_LOW, u32 avail) ∈ l /\ (VIRTIO_MMIO_DRIVER_DESC_HIGH, u32 (Z.shiftr avail 32)) ∈ l /\
      (VIRTIO_MMIO_DEVICE_DESC_LOW, u32 used) ∈ l /\ (VIRTIO_MMIO_DEVICE_DESC_HIGH, u32 (Z.shiftr used 32)) ∈ l)
    (d, Boot regs log (desc :: avail :: used :: pages)).
Proof.
  intros Hg Hd Ha Hu. pose proof Hg as (_ & _ & _ & _ & H5 & H6 & H7). unfold virtio_disk_init.
  apply boot_read, wp_bind, wp_found; [done|]. cbn [negb]. cbv zeta.
  do 3 apply boot_write. apply boot_read. do 2 apply boot_write. apply boot_read. cbn [bt_regs].
  rewrite (proj2 (Z.eqb_neq _ _)) by done. apply boot_write, boot_read. cbn [bt_regs]. rewrite H6. cbn [negb Z.eqb].
  apply boot_read. cbn [bt_regs]. rewrite (proj2 (Z.eqb_neq _ _)), (proj2 (Z.ltb_ge _ _)) by (unfold NUM in *; lia).
  do 3 apply boot_page. rewrite !(proj2 (Z.eqb_neq _ 0)) by done. cbn [orb]. apply wp_bind, wp_modify. cbn [fst snd].
  do 8 apply boot_write. apply wp_bind, free_all. apply wp_zoom. apply wp_modify. simpl. split_and!; try done.
  - intros i Hi. rewrite bool_decide_true; [done|]. by apply elem_of_seqZ.
  - eexists. split; [by rewrite <-!app_assoc|]. set_solver.
Qed.

(** ** Waiting for descriptors *)

(** A caller that does not get three descriptors gives back those it got, and
    giving them back wakes up the other callers that wait, although there is
    nothing more for them than before.  With requests of three descriptors out
    of eight there are always some left over, so that two callers that wait
    wake up each other in turn. *)
Lemma waiters_wake s t t' b w b' w' s' i :
  pcs (ag s) t = Alloc b w -> virtio_disk_rw t s = Ret (false, s') -> pcs (ag s') t = SleepFree b w -> t' <> t ->
  in_range i -> vfree (dk s) i = true -> pcs (ag s) t' = SleepFree b' w' ->
  pcs (ag s') t' = WokenFree b' w' /\ vfree (dk s') = vfree (dk s).
Proof.
  intros Et E Es Hne Hr Hf Et'. unfold virtio_disk_rw in E. unfold bind at 1, gets at 1 in E. rewrite Et in E.
  unfold bind at 1 in E. pose proof (alloc3_desc_spec s) as Ha. unfold wp in Ha.
  destruct alloc3_desc as [[[idx|] s1]| | |]; try done; injection E as <-; simpl in *; [by rewrite upd_same in Es|].
  destruct Ha as [_ (ds & Edk & _) _ _ [[_ Hn]|Eag]]; [by rewrite Hn in Hf|].
  rewrite upd_other, Eag, Edk by done. simpl. by rewrite Et'.
Qed.

(** ** Examples *)

(** A run of the system by a list of moves, on the first request of the device. *)
Inductive move := MCall (t b : nat) (w : bool) | MCaller (t : nat) | MHandler | MTake | MRest | MWrite | MDone | MInterrupt.
Definition make_move (m : move) (s : vsys) : option (list event * vsys) :=
  match m with
  | MCall t b w => Some ([ECall t b w], on_ag (set_pc t (Enter b w)) s)
  | MCaller t => match virtio_disk_rw t s with
                 | Ret (r, s') => Some (if r then [EReturn t] else [], s')
                 | _ => None
                 end
  | MHandler => match virtio_disk_intr s with Ret (_, s') => Some ([], s') | _ => None end
  | MTake => if kicked (dv s) && negb (seen (dv s) =? avail_idx (dk s)) then
      Some ([], on_dv (fun v => Device (dbytes v) (u16 (seen v + 1))
        (work v ++ [(avail_ring (dk s) (seen v mod NUM), 0)]) (owes v) (isr v) (kicked v)) s) else None
  | MRest => if seen (dv s) =? avail_idx (dk s) then
      Some ([], on_dv (fun v => Device (dbytes v) (seen v) (work v) (owes v) (isr v) false) s) else None
  | MWrite => match work (dv s) with
      | (h, k) :: wk => match request (dk s) h with
          | Some (r, b, len, j) => if (r_type r =? VIRTIO_BLK_T_OUT) && (k * SECTOR <? len) then
              Some ([], on_dv (fun v => Device (move_out (r_sector r) k (bbytes (bm s) b) (dbytes v)) (seen v)
                ((h, k + 1) :: wk) (owes v) (isr v) (kicked v)) s) else None
          | None => None
          end
      | [] => None
      end
  | MDone => match work (dv s) with
      | (h, k) :: wk => match request (dk s) h with
          | Some (r, b, len, j) => if len <=? k * SECTOR then
              Some ([], on_dk (fun d => set_status j 0 (set_used (u16 (ring_idx d + 1)) (upd (used_ring d) (ring_idx d mod NUM) h) d))
                (on_dv (fun v => Device (dbytes v) (seen v) wk true (isr v) (kicked v)) s)) else None
          | None => None
          end
      | [] => None
      end
  | MInterrupt => if owes (dv s) then
      Some ([], on_dv (fun v => Device (dbytes v) (seen v) (work v) false (Z.lor (isr v) 1) (kicked v)) s) else None
  end.
Fixpoint make_moves (l : list move) (tr : list event) (s : vsys) : option (list event * vsys) :=
  match l with
  | [] => Some (tr, s)
  | m :: l => match make_move m s with Some (es, s') => make_moves l (tr ++ es) s' | None => None end
  end.

Definition not_call (m : move) : Prop := match m with MCall _ _ _ => False | _ => True end.
Lemma make_move_step polls m s es s' : not_call m -> make_move m s = Some (es, s') ->
  exists e, es = shown e /\ disk_step polls s e s'.
Proof.
  intros Hm E. destruct m; cbn [make_move] in E; [done|..].
  - destruct (virtio_disk_rw t s) as [[[] s1]| | |] eqn:Er; try done; injection E as <- <-.
    + exists (Some (EReturn t)). split; [done|]. by apply step_return.
    + exists None. split; [done|]. by apply (step_caller t).
  - destruct (virtio_disk_intr s) as [[[] s1]| | |] eqn:Er; try done. injection E as <- <-. exists None. split; [done|]. by apply step_handler.
  - destruct (kicked (dv s)) eqn:Ek; [|done]. destruct (Z.eqb_spec (seen (dv s)) (avail_idx (dk s))); [done|]. injection E as <- <-.
    exists None. split; [done|]. apply step_device, dev_take; [by right|done].
  - destruct (Z.eqb_spec (seen (dv s)) (avail_idx (dk s))); [|done]. injection E as <- <-.
    exists None. split; [done|]. by apply step_device, dev_rest.
  - destruct (work (dv s)) as [|[h k] wk] eqn:Ew; [done|]. destruct (request (dk s) h) as [[[[r b] len] j]|] eqn:Er; [|done].
    destruct ((r_type r =? VIRTIO_BLK_T_OUT) && (k * SECTOR <? len)) eqn:Eg; [|done]. injection E as <- <-. bool_to_prop.
    exists None. split; [done|]. by apply step_device, (dev_write s [] h k wk r b len j).
  - destruct (work (dv s)) as [|[h k] wk] eqn:Ew; [done|]. destruct (request (dk s) h) as [[[[r b] len] j]|] eqn:Er; [|done].
    destruct (len <=? k * SECTOR) eqn:Eg; [|done]. injection E as <- <-. bool_to_prop.
    exists None. split; [done|]. by apply step_device, (dev_done s [] h k wk r b len j).
  - destruct (owes (dv s)) eqn:Eo; [|done]. injection E as <- <-. exists None. split; [done|]. by apply step_device, dev_interrupt.
Qed.
Lemma make_moves_run polls l s0 tr s tr' s' : Forall not_call l -> disk_run polls s0 tr s ->
  make_moves l tr s = Some (tr', s') -> disk_run polls s0 tr' s'.
Proof.
  intros Hl. revert tr s. induction Hl as [|m l Hm Hl IH]; intros tr s Hr; cbn [make_moves]; [by intros [= <- <-]|].
  destruct (make_move m s) as [[es s1]|] eqn:E; [|done]. destruct (make_move_step polls m s es s1 Hm E) as (e & -> & Hst).
  apply IH. by eapply run_snoc.
Qed.

Definition demo_disk : Z -> Z := fun x => x mod 7.
Definition demo_called : vsys := on_ag (set_pc 1 (Enter 0 true)) (vinit demo_disk).
Lemma demo_call polls : disk_run polls (vinit demo_disk) [ECall 1 0 true] demo_called.
Proof. apply (run_snoc _ [] (vinit demo_disk) (Some (ECall 1 0 true))); [apply run_nil|]. by apply step_call. Qed.

(** Caller 1 has posted a write of buffer 0 and sleeps. *)
Definition demo_post : list move := repeat (MCaller 1) 7.
Definition state_after (l : list move) : vsys :=
  match make_moves l [ECall 1 0 true] demo_called with Some (_, s) => s | None => demo_called end.
Lemma state_after_run polls l tr : Forall not_call l -> fmap fst (make_moves l [ECall 1 0 true] demo_called) = Some tr ->
  disk_run polls (vinit demo_disk) tr (state_after l).
Proof.
  intros Hl. unfold state_after. destruct make_moves as [[tr' s']|] eqn:E; [|done]. intros [= <-].
  by apply (make_moves_run polls l _ [ECall 1 0 true] demo_called); [|apply demo_call|].
Qed.
Lemma demo_posted : exists s, disk_run false (vinit demo_disk) [ECall 1 0 true] s /\ pcs (ag s) 1%nat = SleepBuf 0 true [0; 1; 2].
Proof.
  exists (state_after demo_post). split; [|vm_compute; reflexivity].
  apply state_after_run; [repeat constructor|vm_compute; reflexivity].
Qed.

Lemma virtio_refines_witness : exists s a,
  pcs (ag s) 1%nat = SleepBuf 0 true [0; 1; 2] /\ atomic_run (ainit demo_disk) [ECall 1 0 true] a /\ agree s a.
Proof.
  destruct demo_posted as (s & Hr & Hp). destruct (virtio_refines false demo_disk [ECall 1 0 true] s Hr) as (a & Ha & Hag).
  exists s, a. split; [exact Hp|]. split; [exact Ha|exact Hag].
Defined.

(** The device serves the request, the handler completes it, and the call
    returns: the system has come to a standstill. *)
Definition demo_serve : list move :=
  demo_post ++ [MTake; MWrite; MWrite; MDone; MInterrupt; MRest] ++ repeat MHandler 6 ++ repeat (MCaller 1) 3.

Lemma standstill_done polls s : (forall t, pcs (ag s) t = Idle) -> hpc (ag s) = IIdle -> isr (dv s) = 0 ->
  seen (dv s) = avail_idx (dk s) -> kicked (dv s) = false -> work (dv s) = [] -> owes (dv s) = false -> standstill polls s.
Proof.
  intros Hp Hh Hi Hs Hk Hw Ho. split_and!.
  - intros t. unfold virtio_disk_rw. unfold bind at 1, gets at 1. by rewrite Hp.
  - unfold virtio_disk_intr. unfold bind at 1, gets at 1. rewrite Hh. unfold bind, gets. by rewrite Hi.
  - intros s' Hd. inversion Hd; subst; try done;
      try match goal with H : work (dv s) = _ ++ _ :: _ |- _ => rewrite Hw in H; by apply app_cons_not_nil in H end.
    + destruct s as [a b [d1 d2 d3 d4 d5 d6] c]. simpl in *. by subst.
    + congruence.
Qed.

Lemma virtio_no_deadlock_witness : exists s,
  disk_run false (vinit demo_disk) [ECall 1 0 true; EReturn 1] s /\ standstill false s /\ forall t, pcs (ag s) t = Idle.
Proof.
  assert (Hr : disk_run false (vinit demo_disk) [ECall 1 0 true; EReturn 1] (state_after demo_serve)).
  { apply state_after_run; [repeat constructor|vm_compute; reflexivity]. }
  assert (Hs : standstill false (state_after demo_serve)).
  { apply standstill_done; [intros [|[|t]]|..]; vm_compute; reflexivity. }
  exists (state_after demo_serve). split; [exact Hr|]. split; [exact Hs|].
  exact (virtio_no_deadlock false demo_disk [ECall 1 0 true; EReturn 1] (state_after demo_serve) Hr Hs).
Defined.
