(* ===== verification/Bio.v ===== *)
(** * kernel/bio.c: the buffer cache

    The cache of disk blocks: NBUF buffers on a doubly linked list in the order
    of their last use, with the pointers as the code changes them.  The disk
    is a map from block numbers to blocks of BSIZE bytes; [writes] records
    the writes it was sent, oldest first, for the theorems on crashes in
    Log.v.  A caller that finds a buffer locked waits ([Blocked]). *)

From S2P Require Import Prelude Locks.

Definition BSIZE : Z := 1024.
Definition NBUF : nat := 30.

Abbreviation block := (list Z).

(** struct buf; its list pointers are in [nxt] and [prv]. *)
Record buf := Buf {
  b_valid : bool;
  b_dev : Z;
  b_blockno : Z;
  b_lock : sleeplock;
  b_refcnt : Z;
  b_data : block;
}.

Definition bset_valid (v : bool) (b : buf) : buf :=
  Buf v (b_dev b) (b_blockno b) (b_lock b) (b_refcnt b) (b_data b).
Definition bset_lock (v : sleeplock) (b : buf) : buf :=
  Buf (b_valid b) (b_dev b) (b_blockno b) v (b_refcnt b) (b_data b).
Definition bset_refcnt (v : Z) (b : buf) : buf :=
  Buf (b_valid b) (b_dev b) (b_blockno b) (b_lock b) v (b_data b).
Definition bset_data (v : block) (b : buf) : buf :=
  Buf (b_valid b) (b_dev b) (b_blockno b) (b_lock b) (b_refcnt b) v.

(** A pointer of the list: to a buffer, or to [bcache.head]. *)
Definition bnode := option nat.

Record bstate := BState {
  bufs : nat -> buf;
  nxt : bnode -> bnode;
  prv : bnode -> bnode;
  disk : Z -> block;
  writes : list (Z * block);
}.

Definition set_bufs (x : nat -> buf) (s : bstate) : bstate :=
  BState x (nxt s) (prv s) (disk s) (writes s).
Definition set_buf (i : nat) (f : buf -> buf) (s : bstate) : bstate :=
  set_bufs (upd (bufs s) i (f (bufs s i))) s.
Definition set_nxt (a b : bnode) (s : bstate) : bstate :=
  BState (bufs s) (upd (nxt s) a b) (prv s) (disk s) (writes s).
Definition set_prv (a b : bnode) (s : bstate) : bstate :=
  BState (bufs s) (nxt s) (upd (prv s) a b) (disk s) (writes s).
(** The disk carries out a write. *)
Definition disk_write (b : Z) (d : block) (s : bstate) : bstate :=
  BState (bufs s) (nxt s) (prv s) (upd (disk s) b d) (writes s ++ [(b, d)]).

(** [b] becomes the first buffer of the list. *)
Definition link_front (b : nat) : M bstate unit :=
  let! h := gets (fun s => nxt s None) in
  modify (set_nxt (Some b) h) ;;
  modify (set_prv (Some b) None) ;;
  let! h := gets (fun s => nxt s None) in
  modify (set_prv h (Some b)) ;;
  modify (set_nxt None (Some b)).

Definition binit : M bstate unit :=
  modify (set_prv None None) ;;
  modify (set_nxt None None) ;;
  for_each (seq 0 NBUF) (fun b =>
    let! h := gets (fun s => nxt s None) in
    modify (set_nxt (Some b) h) ;;
    modify (set_prv (Some b) None) ;;
    modify (set_buf b (bset_lock initsleeplock)) ;;
    let! h := gets (fun s => nxt s None) in
    modify (set_prv h (Some b)) ;;
    modify (set_nxt None (Some b))).

(** The two loops of [bget]; they end at [bcache.head]. *)
Fixpoint scan (next : bnode -> bnode) (test : nat -> bool) (b : bnode) (fuel : nat)
    : outcome (option nat) :=
  match fuel with
  | O => OutOfFuel
  | S fuel' =>
      match b with
      | None => Ret None
      | Some i => if test i then Ret (Some i) else scan next test (next b) fuel'
      end
  end.
Definition scan_m (get : bstate -> outcome (option nat)) : M bstate (option nat) :=
  fun s => match get s with
           | Ret o => Ret (o, s)
           | Panic msg => Panic msg
           | Blocked => Blocked
           | OutOfFuel => OutOfFuel
           end.

Definition lock_buf (pid : Z) (i : nat) : M bstate unit :=
  fun s => match acquiresleep pid (b_lock (bufs s i)) with
           | Ret k => Ret (tt, set_buf i (bset_lock k) s)
           | Panic msg => Panic msg
           | Blocked => Blocked
           | OutOfFuel => OutOfFuel
           end.

Definition is_block (dev blockno : Z) (b : buf) : bool :=
  (b_dev b =? dev) && (b_blockno b =? blockno).

Definition bget (pid dev blockno : Z) : M bstate nat :=
  let! o := scan_m (fun s =>
    scan (nxt s) (fun i => is_block dev blockno (bufs s i)) (nxt s None) (S NBUF)) in
  match o with
  | Some i =>
      modify (set_buf i (fun b => bset_refcnt (u32 (b_refcnt b + 1)) b)) ;;
      lock_buf pid i ;; ret i
  | None =>
      let! o := scan_m (fun s =>
        scan (prv s) (fun i => b_refcnt (bufs s i) =? 0) (prv s None) (S NBUF)) in
      match o with
      | Some i =>
          modify (set_buf i (fun b => Buf false dev blockno (b_lock b) 1 (b_data b))) ;;
          lock_buf pid i ;; ret i
      | None => panic "bget: no buffers"
      end
  end.

(** The effect of [virtio_disk_rw(b, write)]; Virtio.v relates it to the
    driver. *)
Definition disk_rw (i : nat) (write : bool) : M bstate unit :=
  modify (fun s =>
    if write then disk_write (b_blockno (bufs s i)) (b_data (bufs s i)) s
    else set_buf i (bset_data (disk s (b_blockno (bufs s i)))) s).

Definition bread (pid dev blockno : Z) : M bstate nat :=
  let! i := bget pid dev blockno in
  let! b := gets (fun s => bufs s i) in
  (when! negb (b_valid b) do
     (disk_rw i false ;; modify (set_buf i (bset_valid true)))) ;;
  ret i.

Definition bwrite (pid : Z) (i : nat) : M bstate unit :=
  let! b := gets (fun s => bufs s i) in
  if negb (holdingsleep pid (b_lock b)) then panic "bwrite" else disk_rw i true.

Definition brelse (pid : Z) (i : nat) : M bstate unit :=
  let! b := gets (fun s => bufs s i) in
  if negb (holdingsleep pid (b_lock b)) then panic "brelse"
  else
    modify (set_buf i (fun b => bset_lock (releasesleep (b_lock b)) b)) ;;
    modify (set_buf i (fun b => bset_refcnt (u32 (b_refcnt b - 1)) b)) ;;
    let! b := gets (fun s => bufs s i) in
    when! b_refcnt b =? 0 do
      (modify (fun s => set_prv (nxt s (Some i)) (prv s (Some i)) s) ;;
       modify (fun s => set_nxt (prv s (Some i)) (nxt s (Some i)) s) ;;
       link_front i).

Definition bpin (i : nat) : M bstate unit :=
  modify (set_buf i (fun b => bset_refcnt (u32 (b_refcnt b + 1)) b)).
Definition bunpin (i : nat) : M bstate unit :=
  modify (set_buf i (fun b => bset_refcnt (u32 (b_refcnt b - 1)) b)).

(** A caller that holds the buffer changes its data. *)
Definition put_data (i : nat) (d : block) : M bstate unit := modify (set_buf i (bset_data d)).
Definition edit (i : nat) (f : block -> block) : M bstate unit :=
  modify (set_buf i (fun b => bset_data (f (b_data b)) b)).
Definition get_data (i : nat) : M bstate block := gets (fun s => b_data (bufs s i)).

(** ** The doubly linked list *)

(** Following [n] from [a] visits [l] and arrives at [z]; [p] goes back. *)
Fixpoint linked (n p : bnode -> bnode) (a : bnode) (l : list nat) (z : bnode) : Prop :=
  match l with
  | [] => n a = z /\ p z = a
  | x :: l' => n a = Some x /\ p (Some x) = a /\ linked n p (Some x) l' z
  end.

Lemma linked_app n p a l1 x l2 z :
  linked n p a (l1 ++ x :: l2) z <-> linked n p a l1 (Some x) /\ linked n p (Some x) l2 z.
Proof. revert a. induction l1 as [|y l1 IH]; intros a; simpl; [tauto|]. rewrite IH. tauto. Qed.

Lemma linked_join n p a l1 b l2 z :
  linked n p a l1 b ->
  match l2 with [] => b = z | y :: l2' => b = Some y /\ linked n p (Some y) l2' z end ->
  linked n p a (l1 ++ l2) z.
Proof.
  intros H1 H2. destruct l2 as [|y l2]; [by rewrite app_nil_r; subst|].
  destruct H2 as [-> H2]. by apply linked_app.
Qed.

Lemma linked_ext n p n' p' a l z :
  linked n p a l z -> n' a = n a -> p' z = p z ->
  (forall x, x ∈ l -> n' (Some x) = n (Some x) /\ p' (Some x) = p (Some x)) ->
  linked n' p' a l z.
Proof.
  revert a. induction l as [|x l IH]; intros a; simpl; [by intros [Hn Hp] -> ->|].
  intros (Hn & Hp & Hl) Ea Ez Hx. destruct (Hx x) as [E1 E2]; [left|].
  split_and!; [congruence..|]. apply IH; try done. intros y Hy. apply Hx. by right.
Qed.

Lemma linked_rev n p a l z : linked n p a l z -> linked p n z (rev l) a.
Proof.
  revert a. induction l as [|x l IH]; intros a; simpl; [tauto|].
  intros (Hn & Hp & Hl). apply linked_app. split; [by apply IH|done].
Qed.

(** The node before the end. *)
Lemma linked_last n p a l z :
  linked n p a l z -> l = [] /\ p z = a \/ exists x, x ∈ l /\ p z = Some x.
Proof.
  revert a. induction l as [|x l IH]; intros a; simpl; [by intros [_ ?]; left|].
  intros (_ & _ & Hl). right. destruct (IH _ Hl) as [[-> E]|(y & Hy & E)].
  - exists x. split; [left|done].
  - exists y. split; [by right|done].
Qed.

(** The same list with another end. *)
Lemma linked_retarget n p a l z w :
  linked n p a l z -> NoDup l -> (forall x, x ∈ l -> Some x <> a /\ Some x <> w) ->
  linked (upd n (p z) w) (upd p w (p z)) a l w.
Proof.
  revert a. induction l as [|x l IH]; intros a; simpl.
  { intros [_ ->] _ _. by rewrite !upd_same. }
  intros (Hn & Hp & Hl) [Hx Hnd]%NoDup_cons Hne. destruct (Hne x) as [Hxa Hxw]; [left|].
  split_and!.
  - rewrite upd_other; [done|]. intros E.
    destruct (linked_last _ _ _ _ _ Hl) as [[-> E']|(y & Hy & E')].
    + rewrite E' in E. congruence.
    + rewrite E' in E. destruct (Hne y) as [? _]; [by right|]. congruence.
  - by rewrite upd_other.
  - apply IH; try done. intros y Hy. split; [congruence|]. apply Hne. by right.
Qed.

(** Taking [x] out, as [brelse] does. *)
Lemma linked_unlink n p l1 x l2 :
  linked n p None (l1 ++ x :: l2) None -> NoDup (l1 ++ x :: l2) ->
  let p' := upd p (n (Some x)) (p (Some x)) in
  linked (upd n (p' (Some x)) (n (Some x))) p' None (l1 ++ l2) None.
Proof.
  intros [H1 H2]%linked_app Hnd p'. apply NoDup_app in Hnd as (Hnd1 & Hdis & Hnd2).
  apply NoDup_cons in Hnd2 as [Hx2 Hnd2].
  assert (Hself : n (Some x) <> Some x).
  { destruct l2 as [|y l2]; simpl in H2; [destruct H2; congruence|].
    destruct H2 as [-> _]. intros [= ->]. apply Hx2. left. }
  assert (p' (Some x) = p (Some x)) as -> by (unfold p'; by rewrite upd_other).
  assert (Hw : forall y, y ∈ l1 -> Some y <> n (Some x)).
  { intros y Hy E. destruct l2 as [|z l2]; simpl in H2; [destruct H2; congruence|].
    destruct H2 as [E' _]. rewrite E' in E. injection E as ->. apply (Hdis z Hy). right. left. }
  apply (linked_join _ _ _ _ (n (Some x))).
  - apply linked_retarget; try done. intros y Hy. split; [done|]. auto.
  - destruct l2 as [|y l2]; simpl in H2; [by destruct H2|]. destruct H2 as (Hn & Hp & H2).
    split; [done|]. apply NoDup_cons in Hnd2 as [Hy2 Hnd2].
    assert (Hlast : forall v, v ∈ y :: l2 -> p (Some x) <> Some v).
    { intros v Hv E. destruct (linked_last _ _ _ _ _ H1) as [[_ E']|(u & Hu & E')]; [congruence|].
      rewrite E' in E. injection E as ->. apply (Hdis v Hu). by right. }
    eapply linked_ext; [done|..].
    + rewrite upd_other; [done|]. intros E. by apply (Hlast y); [left|].
    + unfold p'. rewrite upd_other by congruence. done.
    + intros v Hv. split.
      * rewrite upd_other; [done|]. intros E. by apply (Hlast v); [right|].
      * unfold p'. rewrite upd_other; [done|]. rewrite Hn. intros [= ->]. done.
Qed.

(** Putting [x] in front. *)
Lemma linked_front n p l x :
  linked n p None l None -> NoDup l -> x ∉ l ->
  let h := n None in
  linked (upd (upd n (Some x) h) None (Some x)) (upd (upd p (Some x) None) h (Some x))
    None (x :: l) None.
Proof.
  intros Hl Hnd Hx h. simpl. rewrite upd_same.
  assert (Hh : h <> Some x).
  { unfold h. destruct l as [|y l]; simpl in Hl; [destruct Hl; congruence|].
    destruct Hl as [-> _]. intros [= ->]. apply Hx. left. }
  split_and!; [done|by rewrite upd_other, upd_same by done|].
  destruct l as [|y l]; simpl in Hl |- *.
  - destruct Hl as [Hn Hp]. rewrite upd_other, upd_same by done. split; [done|].
    unfold h. by rewrite Hn, upd_same.
  - destruct Hl as (Hn & Hp & Hl). unfold h. rewrite Hn, upd_other, upd_same, upd_same by done.
    split_and!; [done..|]. apply not_elem_of_cons in Hx as [Hxy Hx].
    eapply linked_ext; [done|..].
    + by rewrite !upd_other by congruence.
    + by rewrite !upd_other by congruence.
    + apply NoDup_cons in Hnd as [Hy _]. intros v Hv.
      split; rewrite !upd_other; try done; by intros [= ->].
Qed.

(** A scan visits the list in its order. *)
Lemma scan_find n p test a l fuel :
  linked n p a l None -> (length l < fuel)%nat ->
  scan n test (n a) fuel = Ret (List.find test l).
Proof.
  revert a fuel. induction l as [|x l IH]; intros a fuel Hl Hf; simpl in Hl, Hf.
  - destruct Hl as [-> _]. destruct fuel; [lia|done].
  - destruct Hl as (-> & _ & Hl). destruct fuel as [|fuel]; [lia|]. simpl.
    destruct (test x); [done|]. apply IH; [done|lia].
Qed.

Lemma linked_fun n p a l l' :
  linked n p a l None -> linked n p a l' None -> l = l'.
Proof.
  revert a l'. induction l as [|x l IH]; intros a [|y l']; simpl; try done.
  - intros [-> _] (? & _); congruence.
  - intros (-> & _) [? _]; congruence.
  - intros (-> & _ & H) (E & _ & H'). injection E as ->. f_equal. by apply (IH (Some y)).
Qed.

Lemma find_app_none {A} (f : A -> bool) (l l' : list A) :
  (forall x, In x l -> f x = false) -> List.find f (l ++ l') = List.find f l'.
Proof.
  induction l as [|x l IH]; simpl; [done|]. intros H. rewrite H by auto. apply IH. auto.
Qed.

Lemma filter_shorter {A} (P : A -> Prop) `{forall x, Decision (P x)} (l : list A) :
  (length (filter P l) < length l)%nat -> exists x, x ∈ l /\ ~ P x.
Proof.
  induction l as [|x l IH]; simpl; [lia|]. rewrite filter_cons. destruct (decide (P x)) as [Hx|Hx].
  - simpl. intros Hlt. destruct IH as (y & Hy & Hn); [lia|]. exists y. split; [by right|done].
  - intros _. exists x. split; [left|done].
Qed.

(** ** The cache invariant *)

Definition busy (s : bstate) : nat :=
  length (filter (fun i => b_refcnt (bufs s i) <> 0) (seq 0 NBUF)).

Section cache.
Context (dev : Z).

(** The buffer of a block, its contents as a reader sees them, and the number
    of references to its buffer. *)
Definition buf_of (s : bstate) (b : Z) : option nat :=
  List.find (fun i => is_block dev b (bufs s i)) (seq 0 NBUF).
Definition view (s : bstate) (b : Z) : block :=
  match buf_of s b with
  | Some i => if b_valid (bufs s i) then b_data (bufs s i) else disk s b
  | None => disk s b
  end.
Definition bref (s : bstate) (b : Z) : Z :=
  match buf_of s b with Some i => b_refcnt (bufs s i) | None => 0 end.
(** The process that holds the sleep lock of the buffer. *)
Definition holder (s : bstate) (b : Z) : option Z :=
  match buf_of s b with
  | Some i => if slocked (b_lock (bufs s i)) then Some (spid (b_lock (bufs s i))) else None
  | None => None
  end.

(** Buffers are fresh or hold a block of the device; no block has two
    buffers; a locked buffer is referenced and a referenced one valid; an
    unreferenced buffer that is valid agrees with the disk, so that reusing it
    loses nothing. *)
Record bufs_ok (s : bstate) : Prop := {
  bi_ref : forall i, (i < NBUF)%nat -> 0 <= b_refcnt (bufs s i) < 2 ^ 32;
  bi_dev : forall i, (i < NBUF)%nat -> b_dev (bufs s i) <> dev ->
    b_refcnt (bufs s i) = 0;
  bi_inj : forall i j, (i < NBUF)%nat -> (j < NBUF)%nat ->
    b_dev (bufs s i) = dev -> b_dev (bufs s j) = dev ->
    b_blockno (bufs s i) = b_blockno (bufs s j) -> i = j;
  bi_lock : forall i, (i < NBUF)%nat -> slocked (b_lock (bufs s i)) = true ->
    b_refcnt (bufs s i) <> 0;
  bi_clean : forall i, (i < NBUF)%nat -> b_dev (bufs s i) = dev -> b_valid (bufs s i) = true ->
    b_refcnt (bufs s i) = 0 -> b_data (bufs s i) = disk s (b_blockno (bufs s i));
  bi_valid : forall i, (i < NBUF)%nat -> b_refcnt (bufs s i) <> 0 -> b_valid (bufs s i) = true;
}.

Definition in_list (s : bstate) (l : list nat) : Prop :=
  linked (nxt s) (prv s) None l None /\ l ≡ₚ seq 0 NBUF.

Definition binv (s : bstate) : Prop := bufs_ok s /\ exists l, in_list s l.

Lemma in_list_elem s l i : in_list s l -> i ∈ l <-> (i < NBUF)%nat.
Proof. intros [_ ->]. rewrite elem_of_seq. lia. Qed.
Lemma in_list_NoDup s l : in_list s l -> NoDup l.
Proof. intros [_ ->]. apply NoDup_seq. Qed.
Lemma in_list_length s l : in_list s l -> length l = NBUF.
Proof. intros [_ ->]. apply length_seq. Qed.

Lemma is_block_true b x : is_block dev b x = true <-> b_dev x = dev /\ b_blockno x = b.
Proof. unfold is_block. blia. Qed.

(** The search of the list for a block finds the buffer of the block. *)
Lemma find_unique l s b : bufs_ok s -> (forall i, i ∈ l <-> (i < NBUF)%nat) ->
  List.find (fun i => is_block dev b (bufs s i)) l = buf_of s b.
Proof.
  intros Hok Hl. unfold buf_of.
  destruct (List.find _ l) as [i|] eqn:E1, (List.find _ (seq 0 NBUF)) as [j|] eqn:E2; try done.
  - apply List.find_some in E1 as [Hi Ti], E2 as [Hj Tj].
    apply list_elem_of_In, Hl in Hi. apply List.in_seq in Hj.
    apply is_block_true in Ti as [? ?], Tj as [? ?]. f_equal.
    apply (bi_inj _ Hok); try done; try lia; congruence.
  - apply List.find_some in E1 as [Hi Ti]. apply list_elem_of_In, Hl in Hi.
    rewrite (List.find_none _ _ E2 i) in Ti; [done|]. apply List.in_seq. lia.
  - apply List.find_some in E2 as [Hj Tj]. apply List.in_seq in Hj.
    rewrite (List.find_none _ _ E1 j) in Tj; [done|]. apply list_elem_of_In, Hl. lia.
Qed.

Lemma buf_of_Some s b i : bufs_ok s ->
  buf_of s b = Some i <-> (i < NBUF)%nat /\ b_dev (bufs s i) = dev /\ b_blockno (bufs s i) = b.
Proof.
  intros Hok. unfold buf_of. split.
  - intros [Hi Ti]%List.find_some. apply List.in_seq in Hi. apply is_block_true in Ti. lia.
  - intros (Hi & Hd & Hb). destruct (List.find _ _) as [j|] eqn:E.
    + apply List.find_some in E as [Hj Tj]. apply List.in_seq in Hj.
      apply is_block_true in Tj as [? ?]. f_equal. apply (bi_inj _ Hok); try done; lia || congruence.
    + assert (is_block dev b (bufs s i) = true) as T by (by apply is_block_true).
      rewrite (List.find_none _ _ E i) in T; [done|]. apply List.in_seq. lia.
Qed.

Lemma buf_of_None s b : buf_of s b = None <->
  forall i, (i < NBUF)%nat -> b_dev (bufs s i) = dev -> b_blockno (bufs s i) <> b.
Proof.
  unfold buf_of. split.
  - intros E i Hi Hd Hb. assert (is_block dev b (bufs s i) = true) as T by (by apply is_block_true).
    rewrite (List.find_none _ _ E i) in T; [done|]. apply List.in_seq. lia.
  - intros H. destruct (List.find _ _) as [j|] eqn:E; [|done].
    apply List.find_some in E as [Hj Tj]. apply List.in_seq in Hj.
    apply is_block_true in Tj as [? ?]. exfalso. eapply H; [|done..]. lia.
Qed.

(** With fewer than NBUF referenced buffers there is a free one. *)
Lemma busy_free s : (busy s < NBUF)%nat ->
  exists i, (i < NBUF)%nat /\ b_refcnt (bufs s i) = 0.
Proof.
  unfold busy. intros Hb. destruct (filter_shorter (fun i => b_refcnt (bufs s i) <> 0) (seq 0 NBUF))
    as (i & Hi & E); [by rewrite length_seq|].
  apply elem_of_seq in Hi. exists i. split; [lia|]. by apply dec_stable.
Qed.

Lemma free_busy s i : (i < NBUF)%nat -> b_refcnt (bufs s i) = 0 -> (busy s < NBUF)%nat.
Proof.
  intros Hi Hz. unfold busy. rewrite <-(length_seq NBUF 0) at 2.
  apply (length_filter_lt _ _ i); [apply elem_of_seq; lia|]. intros H. by apply H.
Qed.

(** ** What the operations do to the buffers *)

Definition locked_by (pid : Z) : sleeplock := Sleeplock true pid.

(** The state after [bread] returned buffer [i] for block [b]. *)
Definition fetched (pid b : Z) (i : nat) (s : bstate) : bstate :=
  set_buf i (fun _ => Buf true dev b (locked_by pid) (bref s b + 1) (view s b)) s.

(** The buffer [bread] picks. *)
Definition picked (s : bstate) (b : Z) (i : nat) : Prop :=
  buf_of s b = Some i \/
  buf_of s b = None /\ (i < NBUF)%nat /\ b_refcnt (bufs s i) = 0.

Lemma set_buf_twice i f g s : set_buf i f (set_buf i g s) = set_buf i (fun b => f (g b)) s.
Proof. destruct s. unfold set_buf, set_bufs. simpl. by rewrite upd_same, upd_upd. Qed.
Lemma set_buf_ext i f g s : f (bufs s i) = g (bufs s i) -> set_buf i f s = set_buf i g s.
Proof. unfold set_buf. by intros ->. Qed.
Lemma bufs_set_buf i f s j : bufs (set_buf i f s) j = if decide (j = i) then f (bufs s i) else bufs s j.
Proof. unfold set_buf. simpl. unfold upd. by destruct (decide (j = i)). Qed.

Lemma wp_scan_m (get : bstate -> outcome (option nat)) o Q s :
  get s = Ret o -> Q o s -> wp (scan_m get) Q s.
Proof. unfold wp, scan_m. by intros ->. Qed.

Lemma wp_lock_buf pid i (Q : unit -> bstate -> Prop) s :
  slocked (b_lock (bufs s i)) = false ->
  Q tt (set_buf i (bset_lock (locked_by pid)) s) -> wp (lock_buf pid i) Q s.
Proof. unfold wp, lock_buf, acquiresleep. by intros ->. Qed.

Lemma find_free_rev s l : in_list s l -> (busy s < NBUF)%nat ->
  exists i, List.find (fun i => b_refcnt (bufs s i) =? 0) (rev l) = Some i /\
    (i < NBUF)%nat /\ b_refcnt (bufs s i) = 0.
Proof.
  intros Hl (i & Hi & E)%busy_free. destruct (List.find _ (rev l)) as [j|] eqn:F.
  - exists j. apply List.find_some in F as [Hj Tj]. split; [done|]. split; [|lia].
    apply (in_list_elem _ _ _ Hl). apply list_elem_of_In. by apply List.in_rev.
  - exfalso. eapply List.find_none with (x := i) in F; [lia|]. apply -> List.in_rev.
    apply list_elem_of_In. by apply (in_list_elem _ _ _ Hl).
Qed.

Lemma bget_spec pid b l s :
  bufs_ok s -> in_list s l -> holder s b = None -> bref s b < 2 ^ 32 - 1 ->
  (buf_of s b = None -> (busy s < NBUF)%nat) ->
  wp (bget pid dev b) (fun i s' => picked s b i /\
    (buf_of s b = None -> List.find (fun i => b_refcnt (bufs s i) =? 0) (rev l) = Some i) /\
    s' = set_buf i (fun x => Buf (bool_decide (buf_of s b <> None) && b_valid x) dev b
                               (locked_by pid) (bref s b + 1) (b_data x)) s) s.
Proof.
  intros Hok Hl Hlk Hr Hfree. unfold bget.
  pose proof (in_list_length _ _ Hl) as Hlen.
  apply wp_bind. eapply wp_scan_m.
  { eapply scan_find; [apply Hl|lia]. }
  rewrite (find_unique l) by (done || intros i; by apply (in_list_elem s l)).
  unfold picked. destruct (buf_of s b) as [i|] eqn:E.
  - pose proof (proj1 (buf_of_Some _ _ _ Hok) E) as (Hi & Hd & Hb).
    unfold holder, bref in *. rewrite E in *. pose proof (bi_ref _ Hok i Hi) as Hri.
    wp_steps. apply wp_lock_buf.
    { rewrite bufs_set_buf, decide_True by done. simpl. by destruct (slocked _). }
    wp_steps.
    split_and!; [by left|done|]. rewrite set_buf_twice. apply set_buf_ext. simpl.
    by rewrite u32_id, <-Hd, <-Hb by lia.
  - destruct (find_free_rev s l Hl) as (i & Hf & Hi & Hz); [auto|].
    apply wp_bind. eapply wp_scan_m.
    { eapply scan_find; [apply linked_rev, Hl|]. rewrite length_rev. lia. }
    rewrite Hf. wp_steps. apply wp_lock_buf.
    { rewrite bufs_set_buf, decide_True by done. simpl.
      destruct (slocked _) eqn:L; [|done]. by apply (bi_lock _ Hok) in L. }
    wp_steps. split_and!; [by right|done|]. rewrite set_buf_twice. apply set_buf_ext. simpl.
    unfold bref. by rewrite E.
Qed.

Lemma bread_spec pid b s :
  binv s -> holder s b = None -> bref s b < 2 ^ 32 - 1 ->
  (buf_of s b = None -> (busy s < NBUF)%nat) ->
  wp (bread pid dev b) (fun i s' => picked s b i /\ s' = fetched pid b i s) s.
Proof.
  intros [Hok (l & Hl)] Hlk Hr Hfree. unfold bread. apply wp_bind.
  eapply wp_mono; [by apply (bget_spec pid b l)|]. intros i s' (Hp & _ & ->). simpl.
  assert (Hv : view s b = if bool_decide (buf_of s b <> None) && b_valid (bufs s i)
                          then b_data (bufs s i) else disk s b).
  { unfold view. destruct Hp as [->|[-> _]]; [|done]. by rewrite bool_decide_true. }
  apply wp_bind, wp_gets. rewrite bufs_set_buf, decide_True by done. simpl.
  destruct (bool_decide _ && _) eqn:V; simpl; wp_steps; (split; [done|]).
  - apply set_buf_ext. by rewrite Hv, V.
  - unfold disk_rw. rewrite bufs_set_buf, decide_True by done. simpl.
    rewrite !set_buf_twice. apply set_buf_ext. simpl. by rewrite Hv.
Qed.

(** ** Preservation *)

Lemma picked_lt s b i : bufs_ok s -> picked s b i -> (i < NBUF)%nat.
Proof. intros Hok [E|(_ & Hi & _)]; [|done]. by apply buf_of_Some in E as [? _]. Qed.

(** A buffer other than the one of [b] that [bread] picks has another block. *)
Lemma picked_block s b i j : bufs_ok s -> picked s b i -> (j < NBUF)%nat -> j <> i ->
  b_dev (bufs s j) = dev -> b_blockno (bufs s j) <> b.
Proof.
  intros Hok [E|(E & _)] Hj Hji Hd Hb.
  - apply buf_of_Some in E as (Hi & Hd' & Hb'); [|done]. apply Hji, (bi_inj _ Hok); try done. congruence.
  - by apply (proj1 (buf_of_None s b) E j).
Qed.

Lemma fetched_ok pid b i s : bufs_ok s -> picked s b i -> bref s b < 2 ^ 32 - 1 ->
  bufs_ok (fetched pid b i s).
Proof.
  intros Hok Hp Hr. pose proof (picked_lt _ _ _ Hok Hp) as Hi.
  assert (0 <= bref s b).
  { unfold bref. destruct (buf_of s b) as [j|] eqn:E; [|done].
    apply buf_of_Some in E as [Hj _]; [|done]. apply (bi_ref _ Hok j Hj). }
  split; unfold fetched; intros j; intros; rewrite ?bufs_set_buf in *; simpl.
  - destruct (decide (j = i)); simpl; [lia|]. by apply (bi_ref _ Hok).
  - destruct (decide (j = i)); simpl in *; [done|]. by apply (bi_dev _ Hok).
  - destruct (decide (j = i)), (decide (j0 = i)); simpl in *; try congruence.
    + exfalso. by eapply (picked_block s b i j0).
    + exfalso. by eapply (picked_block s b i j).
    + by apply (bi_inj _ Hok).
  - destruct (decide (j = i)); simpl in *; [lia|]. by apply (bi_lock _ Hok).
  - destruct (decide (j = i)); simpl in *; [lia|]. by apply (bi_clean _ Hok).
  - destruct (decide (j = i)); simpl in *; [done|]. by apply (bi_valid _ Hok).
Qed.

(** Nothing changes for the blocks other than [b]; the buffers that are
    referenced stay where they are. *)
Definition rest_same (b : Z) (s s' : bstate) : Prop :=
  forall x, x <> b ->
    view s' x = view s x /\ bref s' x = bref s x /\ holder s' x = holder s x /\
    (bref s x <> 0 -> buf_of s' x = buf_of s x).

Lemma fetched_buf_of pid b i s : bufs_ok s -> picked s b i -> bref s b < 2 ^ 32 - 1 ->
  buf_of (fetched pid b i s) b = Some i.
Proof.
  intros Hok Hp Hr. apply buf_of_Some; [by apply fetched_ok|].
  unfold fetched. rewrite bufs_set_buf, decide_True by done.
  split; [by eapply picked_lt|done].
Qed.

Lemma fetched_rest pid b i s : bufs_ok s -> picked s b i -> bref s b < 2 ^ 32 - 1 ->
  rest_same b s (fetched pid b i s).
Proof.
  intros Hok Hp Hr x Hx. pose proof (fetched_ok pid b i s Hok Hp Hr) as Hok'.
  destruct (buf_of s x) as [j|] eqn:E.
  - pose proof (proj1 (buf_of_Some _ _ _ Hok) E) as (Hj & Hd & Hb).
    destruct (decide (j = i)) as [->|Hji].
    + (* the buffer of [x] is reused *)
      destruct Hp as [E'|(E' & Hi & Hz)];
        [apply buf_of_Some in E' as (_ & _ & E'); [congruence|done]|].
      assert (buf_of (fetched pid b i s) x = None) as E2.
      { apply buf_of_None. intros k Hk. unfold fetched. rewrite bufs_set_buf.
        destruct (decide (k = i)) as [->|Hki]; simpl; [congruence|].
        intros Hd' Hb'. apply Hki, (bi_inj _ Hok); try done; congruence. }
      unfold view, bref, holder. rewrite E, E2. simpl. rewrite Hz.
      split_and!; try done.
      * destruct (b_valid _) eqn:V; [|done]. by rewrite (bi_clean _ Hok), Hb.
      * destruct (slocked _) eqn:L; [|done]. by apply (bi_lock _ Hok) in L.
    + assert (buf_of (fetched pid b i s) x = Some j) as E2.
      { apply buf_of_Some; [done|]. unfold fetched. by rewrite bufs_set_buf, decide_False. }
      unfold view, bref, holder. rewrite E, E2. unfold fetched.
      by rewrite bufs_set_buf, decide_False.
  - assert (buf_of (fetched pid b i s) x = None) as E2.
    { apply buf_of_None. intros k Hk. unfold fetched. rewrite bufs_set_buf.
      destruct (decide (k = i)); simpl; [congruence|]. by apply (buf_of_None s x). }
    unfold view, bref, holder. by rewrite E, E2.
Qed.

(** What a caller sees of an operation on block [b]. *)
Record bchange (b : Z) (s s' : bstate) (d : block) (n : Z) (h : option Z) : Prop := {
  bc_inv : binv s';
  bc_rest : rest_same b s s';
  bc_view : view s' b = d;
  bc_ref : bref s' b = n;
  bc_holder : holder s' b = h;
}.

Lemma bread_ok pid b s :
  binv s -> holder s b = None -> bref s b < 2 ^ 32 - 1 ->
  (bref s b = 0 -> (busy s < NBUF)%nat) ->
  wp (bread pid dev b) (fun i s' =>
    buf_of s' b = Some i /\ disk s' = disk s /\ writes s' = writes s /\
    bchange b s s' (view s b) (bref s b + 1) (Some pid)) s.
Proof.
  intros Hinv Hh Hr Hf. destruct Hinv as [Hok Hl].
  eapply wp_mono; [apply bread_spec|].
  1-3: done.
  { intros E. apply Hf. unfold bref. by rewrite E. }
  intros i s' [Hp ->]. pose proof (fetched_buf_of pid b i s Hok Hp Hr) as E.
  split_and!; [done..|]. split.
  - split; [by apply fetched_ok|done].
  - by apply fetched_rest.
  - unfold view at 1. rewrite E. unfold fetched. by rewrite bufs_set_buf, decide_True.
  - unfold bref at 1. rewrite E. unfold fetched. by rewrite bufs_set_buf, decide_True.
  - unfold holder. rewrite E. unfold fetched. by rewrite bufs_set_buf, decide_True.
Qed.

(** Changing the buffer of a block in place. *)
Section touch.
Context (b : Z) (i : nat) (s : bstate) (x : buf).
Hypothesis Hok : bufs_ok s.
Hypothesis Hi : buf_of s b = Some i.
Hypothesis Hdev : b_dev x = dev.
Hypothesis Hblk : b_blockno x = b.
Abbreviation s' := (set_buf i (fun _ => x) s).

Lemma touch_lt : (i < NBUF)%nat.
Proof using Hok Hi. by apply buf_of_Some in Hi as [? _]. Qed.

Lemma touch_buf_of y : buf_of s' y = buf_of s y.
Proof using All.
  unfold buf_of. apply buf_of_Some in Hi as (_ & Hd & Hb); [|done].
  assert (Hx : is_block dev y x = is_block dev y (bufs s i))
    by (unfold is_block; by rewrite Hdev, Hblk, Hd, Hb).
  induction (seq 0 NBUF) as [|j l IH]; simpl; [done|].
  assert (is_block dev y (upd (bufs s) i x j) = is_block dev y (bufs s j)) as ->
    by (by upd_cases j i).
  destruct (is_block dev y (bufs s j)); [done|]. apply IH.
Qed.

Lemma touch_rest : rest_same b s s'.
Proof using All.
  intros y Hy. rewrite touch_buf_of. unfold view, bref, holder. rewrite touch_buf_of.
  destruct (buf_of s y) as [j|] eqn:E; [|done].
  rewrite bufs_set_buf, decide_False; [done|]. intros ->.
  apply buf_of_Some in E as (_ & _ & E); [|done]. apply buf_of_Some in Hi as (_ & _ & ?); [|done].
  congruence.
Qed.

Lemma touch_ok :
  0 <= b_refcnt x < 2 ^ 32 ->
  (slocked (b_lock x) = true -> b_refcnt x <> 0) ->
  (b_valid x = true -> b_refcnt x = 0 -> b_data x = disk s b) ->
  (b_refcnt x <> 0 -> b_valid x = true) ->
  bufs_ok s'.
Proof using All.
  intros H1 H2 H3 H4. pose proof (proj1 (buf_of_Some _ _ _ Hok) Hi) as (_ & Hd & Hb).
  split; intros j; intros; rewrite ?bufs_set_buf in *.
  - destruct (decide (j = i)); [done|]. by apply (bi_ref _ Hok).
  - destruct (decide (j = i)); [congruence|]. by apply (bi_dev _ Hok).
  - destruct (decide (j = i)), (decide (j0 = i)); subst; try done.
    + apply (bi_inj _ Hok); try done; congruence.
    + apply (bi_inj _ Hok); try done; congruence.
    + by apply (bi_inj _ Hok).
  - destruct (decide (j = i)); [auto|]. by apply (bi_lock _ Hok).
  - destruct (decide (j = i)); [rewrite Hblk; auto|]. by apply (bi_clean _ Hok).
  - destruct (decide (j = i)); [auto|]. by apply (bi_valid _ Hok).
Qed.

Lemma touch_view : b_valid x = true -> view s' b = b_data x.
Proof using All. intros V. unfold view. by rewrite touch_buf_of, Hi, bufs_set_buf, decide_True, V. Qed.
Lemma touch_ref : bref s' b = b_refcnt x.
Proof using All. unfold bref. by rewrite touch_buf_of, Hi, bufs_set_buf, decide_True. Qed.
Lemma touch_holder : holder s' b = if slocked (b_lock x) then Some (spid (b_lock x)) else None.
Proof using All. unfold holder. by rewrite touch_buf_of, Hi, bufs_set_buf, decide_True. Qed.
End touch.

(** A buffer someone holds or has pinned, with the values a caller sees. *)
Lemma buf_facts s b i : bufs_ok s -> buf_of s b = Some i -> bref s b <> 0 ->
  bufs s i = Buf true dev b (b_lock (bufs s i)) (bref s b) (view s b) /\ 0 < bref s b < 2 ^ 32.
Proof.
  intros Hok E Hr. pose proof (proj1 (buf_of_Some _ _ _ Hok) E) as (Hi & Hd & Hb).
  unfold bref, view in *. rewrite E in *.
  pose proof (bi_valid _ Hok i Hi Hr) as V. pose proof (bi_ref _ Hok i Hi). rewrite V.
  split; [|lia]. by destruct (bufs s i); simpl in *; subst.
Qed.

Lemma holder_lock s b i pid : buf_of s b = Some i -> holder s b = Some pid ->
  b_lock (bufs s i) = locked_by pid.
Proof.
  unfold holder. intros ->. destruct (bufs s i) as [? ? ? [[] p] ? ?]; simpl; [|done]. by intros [= ->].
Qed.
Lemma holder_ref s b pid : bufs_ok s -> holder s b = Some pid -> bref s b <> 0.
Proof.
  unfold holder, bref. intros Hok. destruct (buf_of s b) as [i|] eqn:E; [|done].
  apply buf_of_Some in E as [Hi _]; [|done].
  destruct (slocked _) eqn:L; [|done]. intros _. by apply (bi_lock _ Hok).
Qed.

Lemma touch_change s b i x :
  binv s -> buf_of s b = Some i -> b_dev x = dev -> b_blockno x = b -> b_valid x = true ->
  0 <= b_refcnt x < 2 ^ 32 ->
  (b_refcnt x = 0 -> slocked (b_lock x) = false /\ b_data x = disk s b) ->
  bchange b s (set_buf i (fun _ => x) s) (b_data x) (b_refcnt x)
    (if slocked (b_lock x) then Some (spid (b_lock x)) else None).
Proof.
  intros [Hok Hl] E Hd Hb V Hr Hz. split.
  - split; [|done]. apply (touch_ok b); try done.
    + intros L N. destruct (Hz N). congruence.
    + intros _ N. by destruct (Hz N).
  - by apply touch_rest.
  - by apply touch_view.
  - by apply touch_ref.
  - by apply touch_holder.
Qed.

Lemma put_data_ok pid b i d s :
  binv s -> buf_of s b = Some i -> holder s b = Some pid ->
  wp (put_data i d) (fun _ s' => (forall y, buf_of s' y = buf_of s y) /\
    disk s' = disk s /\ writes s' = writes s /\
    bchange b s s' d (bref s b) (Some pid)) s.
Proof.
  intros Hinv E Hh. pose proof (holder_ref _ _ _ (proj1 Hinv) Hh) as Hr.
  destruct (buf_facts _ _ _ (proj1 Hinv) E Hr) as [Hf Hr'].
  pose proof (holder_lock _ _ _ _ E Hh) as Hk.
  apply wp_modify. rewrite (set_buf_ext _ _ (fun _ => Buf true dev b (locked_by pid) (bref s b) d))
    by (rewrite Hf, Hk; done).
  split_and!; [intros y; apply (touch_buf_of b); try done; apply Hinv|done..|].
  apply (touch_change s b i (Buf true dev b (locked_by pid) (bref s b) d)); try done; simpl; lia.
Qed.

Lemma repin_ok b i n s :
  binv s -> buf_of s b = Some i -> bref s b <> 0 -> 0 <= n < 2 ^ 32 ->
  (n = 0 -> holder s b = None /\ view s b = disk s b) ->
  let s' := set_buf i (bset_refcnt n) s in
  (forall y, buf_of s' y = buf_of s y) /\ disk s' = disk s /\ writes s' = writes s /\
  bchange b s s' (view s b) n (holder s b).
Proof.
  intros Hinv E Hr Hn Hz s'. destruct (buf_facts _ _ _ (proj1 Hinv) E Hr) as [Hf Hr'].
  set (x := Buf true dev b (b_lock (bufs s i)) n (view s b)).
  assert (s' = set_buf i (fun _ => x) s) as ->
    by (unfold s', x; apply set_buf_ext; rewrite Hf; done).
  split_and!; [intros y; apply (touch_buf_of b); try done; apply Hinv|done..|].
  assert (holder s b = if slocked (b_lock x) then Some (spid (b_lock x)) else None) as Eh
    by (unfold holder; by rewrite E).
  rewrite Eh. apply (touch_change s b i x); try done.
  simpl. intros N. destruct (Hz N) as [H1 H2]. split; [|done].
  revert H1. rewrite Eh. simpl. by destruct (slocked _).
Qed.

Lemma bpin_ok b i s :
  binv s -> buf_of s b = Some i -> bref s b <> 0 -> bref s b < 2 ^ 32 - 1 ->
  wp (bpin i) (fun _ s' => (forall y, buf_of s' y = buf_of s y) /\
    disk s' = disk s /\ writes s' = writes s /\
    bchange b s s' (view s b) (bref s b + 1) (holder s b)) s.
Proof.
  intros Hinv E Hr Hr'. destruct (buf_facts _ _ _ (proj1 Hinv) E Hr) as [Hf Hr''].
  apply wp_modify. rewrite (set_buf_ext _ _ (bset_refcnt (bref s b + 1))).
  - apply repin_ok; try done; lia.
  - rewrite Hf. simpl. by rewrite u32_id by lia.
Qed.

Lemma bunpin_ok b i s :
  binv s -> buf_of s b = Some i -> bref s b <> 0 ->
  (bref s b = 1 -> holder s b = None /\ view s b = disk s b) ->
  wp (bunpin i) (fun _ s' => (forall y, buf_of s' y = buf_of s y) /\
    disk s' = disk s /\ writes s' = writes s /\
    bchange b s s' (view s b) (bref s b - 1) (holder s b)) s.
Proof.
  intros Hinv E Hr Hz. destruct (buf_facts _ _ _ (proj1 Hinv) E Hr) as [Hf Hr''].
  apply wp_modify. rewrite (set_buf_ext _ _ (bset_refcnt (bref s b - 1))).
  - apply repin_ok; try done; try lia. intros ?. apply Hz. lia.
  - rewrite Hf. simpl. by rewrite u32_id by lia.
Qed.

(** [bwrite] sends the contents of the buffer to the disk. *)
Lemma bwrite_ok pid b i s :
  binv s -> buf_of s b = Some i -> holder s b = Some pid ->
  wp (bwrite pid i) (fun _ s' => s' = disk_write b (view s b) s /\ binv s' /\
    (forall y, view s' y = view s y)) s.
Proof.
  intros [Hok Hl] E Hh. pose proof (holder_ref _ _ _ Hok Hh) as Hr.
  destruct (buf_facts _ _ _ Hok E Hr) as [Hf Hr'].
  pose proof (proj1 (buf_of_Some _ _ _ Hok) E) as (Hi & Hd & Hb).
  unfold bwrite. apply wp_bind, wp_gets. rewrite (holder_lock _ _ _ _ E Hh).
  unfold holdingsleep. simpl. rewrite Z.eqb_refl. simpl. apply wp_modify.
  assert (b_data (bufs s i) = view s b) as Ed by (by rewrite Hf).
  rewrite Hb, Ed. split; [done|]. split.
  - split; [|done]. split; intros j; intros; try by apply Hok.
    simpl in *. destruct (decide (j = i)) as [->|Hji].
    { exfalso. apply Hr. unfold bref. by rewrite E. }
    rewrite upd_other; [by apply (bi_clean _ Hok)|]. intros Eb.
    apply Hji, (bi_inj _ Hok); try done; congruence.
  - intros y. unfold view. simpl. change (buf_of (disk_write b _ s) y) with (buf_of s y).
    destruct (buf_of s y) as [j|] eqn:Ey.
    + destruct (b_valid (bufs s j)) eqn:V; [done|]. rewrite upd_other; [done|].
      intros ->. rewrite E in Ey. injection Ey as <-. rewrite Hf in V. done.
    + rewrite upd_other; [done|]. intros ->. congruence.
Qed.

(** The list after [brelse] has moved a buffer to its front. *)
Lemma wp_link_front i l s :
  linked (nxt s) (prv s) None l None -> NoDup l -> i ∉ l ->
  wp (link_front i) (fun _ s' => bufs s' = bufs s /\ disk s' = disk s /\ writes s' = writes s /\
    linked (nxt s') (prv s') None (i :: l) None) s.
Proof.
  intros Hl Hnd Hi. unfold link_front. wp_steps. simpl. rewrite (upd_other (nxt s) (Some i) _ None) by done.
  do 3 (split; [done|]). apply (linked_front _ _ _ _ Hl Hnd Hi).
Qed.

Lemma wp_to_front i l1 l2 s :
  in_list s (l1 ++ i :: l2) ->
  wp (modify (fun s => set_prv (nxt s (Some i)) (prv s (Some i)) s) ;;
      modify (fun s => set_nxt (prv s (Some i)) (nxt s (Some i)) s) ;;
      link_front i)
    (fun _ s' => bufs s' = bufs s /\ disk s' = disk s /\ writes s' = writes s /\
       in_list s' (i :: l1 ++ l2)) s.
Proof.
  intros Hin. pose proof (in_list_NoDup _ _ Hin) as Hnd. destruct Hin as [Hl Hp].
  pose proof (linked_unlink _ _ _ _ _ Hl Hnd) as Hu. cbv zeta in Hu.
  rewrite <-Permutation_middle in Hnd. apply NoDup_cons in Hnd as [Hi Hnd].
  wp_steps. eapply wp_mono; [by apply (wp_link_front i (l1 ++ l2))|].
  intros _ s' (-> & -> & -> & Hl'). split_and!; [done..|]. split; [done|].
  by rewrite <-Hp, Permutation_middle.
Qed.

(** [brelse] of the last reference makes the buffer the most recently used. *)
Lemma brelse_spec pid b i l1 l2 s :
  bufs_ok s -> in_list s (l1 ++ i :: l2) -> buf_of s b = Some i -> holder s b = Some pid ->
  wp (brelse pid i) (fun _ s' => disk s' = disk s /\ writes s' = writes s /\
    bufs s' = bufs (set_buf i (fun _ =>
      Buf true dev b (Sleeplock false 0) (bref s b - 1) (view s b)) s) /\
    in_list s' (if bref s b =? 1 then i :: l1 ++ l2 else l1 ++ i :: l2)) s.
Proof.
  intros Hok Hl E Hh. pose proof (holder_ref _ _ _ Hok Hh) as Hr.
  destruct (buf_facts _ _ _ Hok E Hr) as [Hf Hr']. pose proof (holder_lock _ _ _ _ E Hh) as Hk.
  unfold brelse. apply wp_bind, wp_gets. rewrite Hk. unfold holdingsleep. simpl.
  rewrite Z.eqb_refl. simpl. do 2 apply wp_bind, wp_modify.
  rewrite set_buf_twice.
  rewrite (set_buf_ext _ _ (fun _ => Buf true dev b (Sleeplock false 0) (bref s b - 1) (view s b)))
    by (rewrite Hf; unfold bset_refcnt, bset_lock; simpl; by rewrite u32_id by lia).
  apply wp_bind, wp_gets. rewrite bufs_set_buf, decide_True by done. simpl.
  replace (bref s b - 1 =? 0) with (bref s b =? 1) by lia. destruct (bref s b =? 1).
  - eapply wp_mono; [by apply (wp_to_front i l1 l2)|]. intros _ s' (-> & -> & -> & Hl'). done.
  - by apply wp_ret.
Qed.

Lemma same_bufs_change b s s1 s' d n h :
  bufs s' = bufs s1 -> disk s' = disk s1 -> (exists l, in_list s' l) ->
  bchange b s s1 d n h -> bchange b s s' d n h /\ forall y, buf_of s' y = buf_of s1 y.
Proof.
  intros Eb Ed Hl [H1 H2 H3 H4 H5].
  assert (Ey : forall y, buf_of s' y = buf_of s1 y) by (intros; unfold buf_of; by rewrite Eb).
  assert (Ev : forall y, view s' y = view s1 y)
    by (intros y; unfold view; by rewrite Ey, Eb, Ed).
  assert (Er : forall y, bref s' y = bref s1 y) by (intros y; unfold bref; by rewrite Ey, Eb).
  assert (Eh : forall y, holder s' y = holder s1 y) by (intros y; unfold holder; by rewrite Ey, Eb).
  split; [|done]. split; rewrite ?Ev, ?Er, ?Eh; try done.
  - split; [|done]. destruct H1 as [Hok _]. split; rewrite ?Eb, ?Ed; apply Hok.
  - intros y Hy. rewrite Ev, Er, Eh, Ey. by apply H2.
Qed.

Lemma brelse_ok pid b i s :
  binv s -> buf_of s b = Some i -> holder s b = Some pid ->
  (bref s b = 1 -> view s b = disk s b) ->
  wp (brelse pid i) (fun _ s' => (forall y, buf_of s' y = buf_of s y) /\
    disk s' = disk s /\ writes s' = writes s /\
    bchange b s s' (view s b) (bref s b - 1) None) s.
Proof.
  intros Hinv E Hh Hz. pose proof Hinv as [Hok (l & Hl)].
  pose proof (holder_ref _ _ _ Hok Hh) as Hr. destruct (buf_facts _ _ _ Hok E Hr) as [_ Hr'].
  destruct (list_elem_of_split l i) as (l1 & l2 & ->).
  { apply (in_list_elem _ _ _ Hl). by apply buf_of_Some in E as [? _]. }
  eapply wp_mono; [by apply (brelse_spec pid b i l1 l2)|].
  intros _ s' (Ed & Ew & Eb & Hl').
  destruct (same_bufs_change b s _ s' (view s b) (bref s b - 1) None Eb Ed) as [Hc Hy]; [eauto|..].
  - apply (touch_change s b i (Buf true dev b (Sleeplock false 0) (bref s b - 1) (view s b)));
      try done; simpl; try lia. intros ?. split; [done|]. apply Hz. lia.
  - split_and!; [|done..]. intros y. rewrite Hy. by apply (touch_buf_of b).
Qed.

(** If only the blocks of [L] are referenced, at most [length L] buffers are. *)
Lemma busy_bound s (L : list Z) :
  bufs_ok s -> (forall b, bref s b <> 0 -> b ∈ L) -> (busy s <= length L)%nat.
Proof.
  intros Hok HL. unfold busy. set (P := fun i => b_refcnt (bufs s i) <> 0).
  assert (HP : forall i, i ∈ filter P (seq 0 NBUF) -> (i < NBUF)%nat /\ P i /\ b_dev (bufs s i) = dev).
  { intros i [HPi Hi]%list_elem_of_filter. apply elem_of_seq in Hi.
    assert (i < NBUF)%nat by lia. split_and!; [done..|]. destruct (decide (b_dev (bufs s i) = dev)); [done|].
    exfalso. apply HPi. by apply (bi_dev _ Hok). }
  rewrite <-(length_map (fun i => b_blockno (bufs s i))). apply submseteq_length, NoDup_submseteq.
  - apply NoDup_fmap_2_strong; [|apply NoDup_filter, NoDup_seq].
    intros i j Hi Hj Eb. destruct (HP i Hi) as (? & _ & ?), (HP j Hj) as (? & _ & ?).
    by apply (bi_inj _ Hok).
  - intros y Hy. apply list_elem_of_fmap in Hy as (i & -> & Hi). destruct (HP i Hi) as (Hlt & HPi & Hd).
    apply HL. unfold bref. by rewrite (proj2 (buf_of_Some s _ i Hok)).
Qed.
End cache.

(** ** Specifications for callers

    The cache as a caller sees it: the buffers [A] of the blocks in use, the
    contents [V], reference counts [R] and lock holders [H] of all blocks, the
    disk [D] and the writes [W] it was sent. *)

Section specs.
Context (dev : Z).

Record bst (A : Z -> option nat) (V : Z -> block) (R : Z -> Z) (H : Z -> option Z)
    (D : Z -> block) (W : list (Z * block)) (s : bstate) : Prop := {
  bs_inv : binv dev s;
  bs_buf : forall y, R y <> 0 -> buf_of dev s y = A y;
  bs_view : view dev s = V;
  bs_ref : bref dev s = R;
  bs_holder : holder dev s = H;
  bs_disk : disk s = D;
  bs_writes : writes s = W;
}.

Lemma bchange_fn b s s' d n h : bchange dev b s s' d n h ->
  view dev s' = upd (view dev s) b d /\ bref dev s' = upd (bref dev s) b n /\
  holder dev s' = upd (holder dev s) b h.
Proof.
  intros [_ Hrest Hv Hr Hh].
  split_and!; apply functional_extensionality; intros y; upd_cases y b; try done;
    by apply Hrest.
Qed.

Lemma upd_self {A} (f : Z -> A) b v : f b = v -> upd f b v = f.
Proof. intros <-. apply functional_extensionality. intros. apply upd_id. Qed.

Lemma bst_change b A V R H D W A' s s' d n h D' W' :
  bst A V R H D W s -> bchange dev b s s' d n h ->
  disk s' = D' -> writes s' = W' ->
  (n <> 0 -> buf_of dev s' b = A' b) -> (forall y, y <> b -> A' y = A y) ->
  bst A' (upd V b d) (upd R b n) (upd H b h) D' W' s'.
Proof.
  intros [I0 B0 <- <- <- _ _] Hc Hd Hw Hb HA. destruct (bchange_fn _ _ _ _ _ _ Hc) as (EV & ER & EH).
  destruct Hc as [I1 Hrest _ _ _]. split; try done. intros y. upd_cases y b; [done|].
  intros Hr. rewrite (proj2 (proj2 (proj2 (Hrest y ltac:(done))))) by done.
  by rewrite B0, HA.
Qed.

Lemma bst_known A V R H D W s b i pid :
  bst A V R H D W s -> H b = Some pid -> A b = Some i ->
  buf_of dev s b = Some i /\ holder dev s b = Some pid /\ R b <> 0 /\ R b = bref dev s b.
Proof.
  intros [[Hok Hl] B <- <- <- _ _] Hh HA. pose proof (holder_ref _ _ _ _ Hok Hh) as Hr.
  by rewrite B, HA.
Qed.

Lemma unused_facts s b : bufs_ok dev s -> bref dev s b = 0 ->
  holder dev s b = None /\ view dev s b = disk s b.
Proof.
  intros Hok Hr. split.
  - destruct (holder dev s b) eqn:E; [|done]. by apply holder_ref in E.
  - unfold view, bref in *. destruct (buf_of dev s b) as [i|] eqn:E; [|done].
    apply buf_of_Some in E as (Hi & Hd & <-); [|done].
    destruct (b_valid _) eqn:V; [|done]. by apply (bi_clean _ _ Hok).
Qed.

(** A block nobody uses is on the disk as a reader sees it. *)
Lemma bst_clean A V R H D W s y : bst A V R H D W s -> R y = 0 -> V y = D y.
Proof. intros [[Hok _] _ <- <- _ <- _] Hr. by apply unused_facts. Qed.

Lemma bread_tr pid b (L : list Z) A V R H D W s :
  bst A V R H D W s -> H b = None -> R b < 2 ^ 32 - 1 ->
  (R b = 0 -> (forall y, R y <> 0 -> y ∈ L) /\ (length L < NBUF)%nat) ->
  wp (bread pid dev b) (fun i s' =>
    bst (upd A b (Some i)) V (upd R b (R b + 1)) (upd H b (Some pid)) D W s') s.
Proof.
  intros Hs Hh Hr Hf. pose proof Hs as [I0 B0 EV ER EH ED EW].
  eapply wp_mono; [apply bread_ok; [done|by rewrite EH|by rewrite ER|]|].
  - rewrite ER. intros Hz. destruct (Hf Hz) as [HL Hlen].
    pose proof (busy_bound dev s L (proj1 I0)) as Hb. rewrite ER in Hb. specialize (Hb HL). lia.
  - intros i s' (Hi & Hd & Hw & Hc).
    eapply (bst_change b _ _ _ _ _ _ (upd A b (Some i)) _ _ _ _ _ D W) in Hc; try done; try congruence.
    + rewrite (upd_self V) in Hc by congruence. by rewrite ER in Hc.
    + by rewrite upd_same.
    + intros y Hy. by rewrite upd_other.
Qed.

Lemma put_data_tr pid b i d A V R H D W s :
  bst A V R H D W s -> H b = Some pid -> A b = Some i ->
  wp (put_data i d) (fun _ s' => bst A (upd V b d) R H D W s') s.
Proof.
  intros Hs Hh HA. destruct (bst_known _ _ _ _ _ _ _ _ _ _ Hs Hh HA) as (Eb & Eh & Hr & ER).
  pose proof Hs as [I0 B0 EV ER' EH ED EW].
  eapply wp_mono; [by apply (put_data_ok dev pid b)|]. intros _ s' (Hi & Hd & Hw & Hc).
  eapply (bst_change b _ _ _ _ _ _ A _ _ _ _ _ D W) in Hc; try done; try congruence.
  rewrite (upd_self R), (upd_self H) in Hc by congruence. done.
Qed.

Lemma edit_tr pid b i f A V R H D W s :
  bst A V R H D W s -> H b = Some pid -> A b = Some i ->
  wp (edit i f) (fun _ s' => bst A (upd V b (f (V b))) R H D W s') s.
Proof.
  intros Hs Hh HA. destruct (bst_known _ _ _ _ _ _ _ _ _ _ Hs Hh HA) as (Eb & Eh & Hr & _).
  pose proof (put_data_tr pid b i (f (V b)) A V R H D W s Hs Hh HA) as Hp.
  destruct Hs as [I0 B0 <- ER _ _ _].
  destruct (buf_facts dev s b i (proj1 I0) Eb) as [Hf _]; [congruence|].
  unfold edit. apply wp_modify. rewrite (set_buf_ext _ _ (bset_data (f (view dev s b)))); [done|].
  by rewrite Hf.
Qed.

Lemma bst_ext A V R H D W V' R' H' s :
  bst A V R H D W s -> (forall y, V y = V' y) -> (forall y, R y = R' y) -> (forall y, H y = H' y) ->
  bst A V' R' H' D W s.
Proof.
  intros Hs EV ER EH. by rewrite <-(functional_extensionality _ _ EV),
    <-(functional_extensionality _ _ ER), <-(functional_extensionality _ _ EH).
Qed.

Lemma bwrite_tr pid b i A V R H D W s :
  bst A V R H D W s -> H b = Some pid -> A b = Some i ->
  wp (bwrite pid i) (fun _ s' => bst A V R H (upd D b (V b)) (W ++ [(b, V b)]) s') s.
Proof.
  intros Hs Hh HA. destruct (bst_known _ _ _ _ _ _ _ _ _ _ Hs Hh HA) as (Eb & Eh & Hr & ER).
  pose proof Hs as [I0 B0 EV ER' EH ED EW].
  eapply wp_mono; [by apply (bwrite_ok dev pid b)|]. intros _ s' (-> & I1 & Hv).
  split; try done; simpl; try congruence.
  apply functional_extensionality. intros y. by rewrite Hv, EV.
Qed.

Lemma brelse_tr pid b i A V R H D W s :
  bst A V R H D W s -> H b = Some pid -> A b = Some i -> (R b = 1 -> V b = D b) ->
  wp (brelse pid i) (fun _ s' => bst A V (upd R b (R b - 1)) (upd H b None) D W s') s.
Proof.
  intros Hs Hh HA Hz. destruct (bst_known _ _ _ _ _ _ _ _ _ _ Hs Hh HA) as (Eb & Eh & Hr & ER).
  pose proof Hs as [I0 B0 EV ER' EH ED EW].
  eapply wp_mono; [apply (brelse_ok dev pid b); try done; subst; auto|]. intros _ s' (Hi & Hd & Hw & Hc).
  eapply (bst_change b _ _ _ _ _ _ A _ _ _ _ _ D W) in Hc; try done; try congruence.
  rewrite (upd_self V) in Hc by congruence. by rewrite ER.
Qed.

Lemma bpin_tr b i A V R H D W s :
  bst A V R H D W s -> A b = Some i -> R b <> 0 -> R b < 2 ^ 32 - 1 ->
  wp (bpin i) (fun _ s' => bst A V (upd R b (R b + 1)) H D W s') s.
Proof.
  intros Hs HA Hr Hr'. pose proof Hs as [I0 B0 EV ER' EH ED EW].
  assert (Eb : buf_of dev s b = Some i) by (by rewrite B0).
  eapply wp_mono; [apply (bpin_ok dev b); try done; by rewrite ER'|]. intros _ s' (Hi & Hd & Hw & Hc).
  eapply (bst_change b _ _ _ _ _ _ A _ _ _ _ _ D W) in Hc; try done; try congruence.
  rewrite (upd_self V), (upd_self H) in Hc by congruence. by rewrite ER' in Hc.
Qed.

Lemma bunpin_tr b i A V R H D W s :
  bst A V R H D W s -> A b = Some i -> R b <> 0 ->
  (R b = 1 -> H b = None /\ V b = D b) ->
  wp (bunpin i) (fun _ s' => bst A V (upd R b (R b - 1)) H D W s') s.
Proof.
  intros Hs HA Hr Hz. pose proof Hs as [I0 B0 EV ER' EH ED EW].
  assert (Eb : buf_of dev s b = Some i) by (by rewrite B0).
  eapply wp_mono; [apply (bunpin_ok dev b); try done; by subst|].
  intros _ s' (Hi & Hd & Hw & Hc).
  eapply (bst_change b _ _ _ _ _ _ A _ _ _ _ _ D W) in Hc; try done; try congruence.
  rewrite (upd_self V), (upd_self H) in Hc by congruence. by rewrite ER' in Hc.
Qed.

Lemma get_data_tr b i A V R H D W s :
  bst A V R H D W s -> A b = Some i -> R b <> 0 -> b_data (bufs s i) = V b.
Proof.
  intros [I0 B0 <- <- _ _ _] HA Hr.
  destruct (buf_facts dev s b i (proj1 I0)) as [-> _]; [by rewrite B0|done|done].
Qed.
End specs.

(** ** Initialisation *)

(** The buffers as the loader leaves them, in zeroed memory. *)
Definition bss_buf : buf := Buf false 0 0 (Sleeplock false 0) 0 (repeat 0 (Z.to_nat BSIZE)).

Lemma binit_ok dev s :
  dev <> 0 -> (forall i, (i < NBUF)%nat -> bufs s i = bss_buf) ->
  wp binit (fun _ s' => bufs_ok dev s' /\ in_list s' (rev (seq 0 NBUF)) /\
    disk s' = disk s /\ writes s' = writes s /\
    forall i, (i < NBUF)%nat -> bufs s' i = bss_buf) s.
Proof.
  intros Hdev Hb. unfold binit. wp_steps.
  eapply wp_mono; [apply (wp_for_each _ (fun (dn rest : list nat) (s' : bstate) =>
    linked (nxt s') (prv s') None (rev dn) None /\ disk s' = disk s /\ writes s' = writes s /\
    forall i, (i < NBUF)%nat -> bufs s' i = bss_buf))|].
  - by split_and!.
  - intros dn x rest s' Es (Hl & Hd & Hw & Hb').
    assert (NoDup (dn ++ x :: rest)) as Hnd by (rewrite Es; apply NoDup_seq).
    assert (x ∈ seq 0 NBUF) as Hx by (rewrite <-Es; set_solver). apply elem_of_seq in Hx.
    apply NoDup_app in Hnd as (Hnd & Hdis & _).
    wp_steps. simpl. rewrite (upd_other (nxt s') (Some x) _ None) by done.
    split; [|split_and!; [done..|]].
    + rewrite rev_app_distr. apply linked_front; [done|..].
      * by rewrite <-Permutation_rev.
      * rewrite <-Permutation_rev. intros Hin. apply (Hdis x Hin). left.
    + intros i Hi. upd_cases i x; [by rewrite Hb'|by apply Hb'].
  - intros _ s' (Hl & Hd & Hw & Hb'). split_and!; try done.
    + split; intros i; intros; rewrite ?Hb' in * by done; simpl in *; try done; congruence.
    + split; [done|]. by rewrite <-Permutation_rev.
Qed.

(** ** The cache is transparent *)

(** A client reads a block, or changes one and writes it through. *)
Inductive bop := BRead (b : Z) | BWrite (b : Z) (d : block).

Definition run_op (dev pid : Z) (op : bop) : M bstate block :=
  match op with
  | BRead b =>
      let! i := bread pid dev b in
      let! d := get_data i in
      brelse pid i ;; ret d
  | BWrite b d =>
      let! i := bread pid dev b in
      put_data i d ;; bwrite pid i ;; brelse pid i ;; ret d
  end.
Fixpoint run_ops (dev : Z) (ops : list (Z * bop)) : M bstate (list block) :=
  match ops with
  | [] => ret []
  | (pid, op) :: ops' =>
      let! d := run_op dev pid op in
      let! ds := run_ops dev ops' in
      ret (d :: ds)
  end.

(** The same operations on a bare disk. *)
Fixpoint disk_ops (d : Z -> block) (ops : list (Z * bop)) : list block * (Z -> block) :=
  match ops with
  | [] => ([], d)
  | (_, BRead b) :: ops' => let (ds, d') := disk_ops d ops' in (d b :: ds, d')
  | (_, BWrite b x) :: ops' => let (ds, d') := disk_ops (upd d b x) ops' in (x :: ds, d')
  end.

(** No block is in use. *)
Definition idle (dev : Z) (s : bstate) : Prop := binv dev s /\ forall b, bref dev s b = 0.

Section transparent.
Context (dev : Z).

Lemma idle_busy s : idle dev s -> busy s = O.
Proof.
  intros [[Hok _] Hr]. pose proof (busy_bound dev s [] Hok) as H. simpl in H.
  assert (busy s <= 0)%nat; [|lia]. apply H. intros b Hb. by destruct (Hb (Hr b)).
Qed.

Lemma bread_idle pid b s : idle dev s ->
  wp (bread pid dev b) (fun i s' => buf_of dev s' b = Some i /\ disk s' = disk s /\
    bchange dev b s s' (disk s b) 1 (Some pid)) s.
Proof.
  intros Hidle. pose proof Hidle as [Hinv Hr].
  destruct (unused_facts dev s b (proj1 Hinv) (Hr b)) as [Hh Hv].
  eapply wp_mono; [apply bread_ok; [done..|rewrite Hr; lia|]|].
  { intros _. rewrite idle_busy by done. unfold NBUF. lia. }
  intros i s' (E & Hd & _ & Hc). rewrite Hr, Hv in Hc. done.
Qed.

Lemma idle_back b s s' d : idle dev s -> bchange dev b s s' d 0 None -> idle dev s'.
Proof.
  intros [_ Hr] [H1 H2 _ H4 _]. split; [done|]. intros y.
  destruct (decide (y = b)) as [->|Hy]; [done|]. by destruct (H2 y Hy) as (_ & -> & _).
Qed.

Lemma rest_same_trans b s1 s2 s3 :
  rest_same dev b s1 s2 -> rest_same dev b s2 s3 -> rest_same dev b s1 s3.
Proof.
  intros H1 H2 y Hy. destruct (H1 y Hy) as (V1 & R1 & L1 & B1), (H2 y Hy) as (V2 & R2 & L2 & B2).
  split_and!; [congruence..|]. intros Hn. rewrite B2, B1; [done..|congruence].
Qed.

Lemma run_read pid b s : idle dev s ->
  wp (run_op dev pid (BRead b)) (fun d s' => d = disk s b /\ idle dev s' /\ disk s' = disk s) s.
Proof.
  intros Hidle. unfold run_op. apply wp_bind. eapply wp_mono; [by apply bread_idle|].
  intros i s1 (E & Hd & [I1 R1 V1 N1 L1]). apply wp_bind, wp_gets, wp_bind.
  destruct (buf_facts dev s1 b i (proj1 I1) E) as [Hf _]; [lia|].
  eapply wp_mono; [apply (brelse_ok dev pid b); try done; congruence|].
  intros _ s2 (_ & Hd2 & _ & [I2 R2 V2 N2 L2]). apply wp_ret. split_and!.
  - rewrite Hf. simpl. congruence.
  - apply (idle_back b s s2 (view dev s1 b)); [done|].
    split; [done|by eapply rest_same_trans|done|lia|done].
  - congruence.
Qed.

Lemma run_write pid b d s : idle dev s ->
  wp (run_op dev pid (BWrite b d)) (fun d' s' => d' = d /\ idle dev s' /\ disk s' = upd (disk s) b d) s.
Proof.
  intros Hidle. unfold run_op. apply wp_bind. eapply wp_mono; [by apply bread_idle|].
  intros i s1 (E & Hd & [I1 R1 V1 N1 L1]). apply wp_bind.
  eapply wp_mono; [by apply (put_data_ok dev pid b)|].
  intros _ s2 (E2 & Hd2 & _ & [I2 R2 V2 N2 L2]). apply wp_bind.
  eapply wp_mono; [apply (bwrite_ok dev pid b); [done| |done]; by rewrite E2|].
  intros _ s3 (-> & I3 & V3). rewrite V2. set (s3 := disk_write b d s2) in *.
  apply wp_bind. rewrite V2 in I3, V3.
  assert (E3 : buf_of dev s3 b = Some i) by (change (buf_of dev s2 b = Some i); by rewrite E2).
  eapply wp_mono; [apply (brelse_ok dev pid b); [done..|]|].
  { intros _. rewrite V3, V2. simpl. by rewrite upd_same. }
  intros _ s4 (_ & Hd4 & _ & [I4 R4 V4 N4 L4]). apply wp_ret. split_and!; [done|..].
  - apply (idle_back b s s4 d); [done|]. split; [done| |by rewrite V4, V3| |done].
    + eapply rest_same_trans; [done|]. eapply rest_same_trans; [done|].
      eapply rest_same_trans; [|done]. intros y Hy. rewrite V3. done.
    + change (bref dev s3 b) with (bref dev s2 b) in N4. lia.
  - rewrite Hd4. simpl. by rewrite Hd2, Hd.
Qed.

Lemma run_ops_transparent ops s : idle dev s ->
  wp (run_ops dev ops) (fun ds s' => idle dev s' /\ (ds, disk s') = disk_ops (disk s) ops) s.
Proof.
  revert s. induction ops as [|[pid [b|b d]] ops IH]; intros s Hidle; simpl.
  - by apply wp_ret.
  - apply wp_bind. eapply wp_mono; [by apply run_read|]. intros d s1 (-> & I1 & Hd).
    apply wp_bind. eapply wp_mono; [by apply IH|]. intros ds s2 [I2 E]. apply wp_ret.
    split; [done|]. by rewrite <-Hd, <-E.
  - apply wp_bind. eapply wp_mono; [by apply run_write|]. intros d' s1 (-> & I1 & Hd).
    apply wp_bind. eapply wp_mono; [by apply IH|]. intros ds s2 [I2 E]. apply wp_ret.
    split; [done|]. by rewrite <-Hd, <-E.
Qed.
End transparent.

(** C12: after [binit], processes that read blocks and write them through the
    buffer cache get exactly what they would get from the bare disk, in
    whatever order they work and however often buffers are reused, and leave
    the disk as those operations do; no call panics or waits. *)
Theorem bcache_transparent (dev : Z) (ops : list (Z * bop)) (s : bstate) :
  dev <> 0 -> (forall i, (i < NBUF)%nat -> bufs s i = bss_buf) ->
  wp (binit ;; run_ops dev ops)
    (fun ds s' => idle dev s' /\ (ds, disk s') = disk_ops (disk s) ops) s.
Proof.
  intros Hdev Hb. apply wp_bind. eapply wp_mono; [by apply (binit_ok dev)|].
  intros _ s1 (Hok & Hl & <- & _ & Hb1). apply run_ops_transparent. split; [by split; eauto|].
  intros b. unfold bref. destruct (buf_of dev s1 b) as [i|] eqn:E; [|done].
  apply buf_of_Some in E as [Hi _]; [|done]. by rewrite Hb1.
Qed.

Definition boot_bstate : bstate :=
  BState (fun _ => bss_buf) (fun _ => None) (fun _ => None) (fun b => repeat b 4) [].
Lemma bcache_transparent_witness :
  exists ds s', (binit ;; run_ops 1 [(3, BRead 7); (4, BWrite 7 [1; 2]); (3, BRead 7)]) boot_bstate
    = Ret (ds, s') /\ ds = [[7; 7; 7; 7]; [1; 2]; [1; 2]].
Proof.
  destruct (proj1 (wp_returns _ _ _) (bcache_transparent 1
    [(3, BRead 7); (4, BWrite 7 [1; 2]); (3, BRead 7)] boot_bstate ltac:(lia) ltac:(done)))
    as (ds & s' & E & _ & Eq).
  exists ds, s'. split; [exact E|]. by injection Eq.
Defined.

(** the list of buffers is in the order of their last use: when block
    [b] is not cached, [bread] reuses the unreferenced buffer nearest the end
    of the list, and [brelse] of the last reference moves a buffer to the
    front; a buffer with other references keeps its place. *)
Theorem lru_order (dev pid b : Z) (i : nat) (l1 l2 : list nat) (s : bstate) :
  bufs_ok dev s -> in_list s (l1 ++ i :: l2) ->
  (buf_of dev s b = None -> b_refcnt (bufs s i) = 0 ->
   (forall j, j ∈ l2 -> b_refcnt (bufs s j) <> 0) ->
   wp (bread pid dev b) (fun k s' => k = i /\ in_list s' (l1 ++ i :: l2)) s) /\
  (buf_of dev s b = Some i -> holder dev s b = Some pid ->
   wp (brelse pid i) (fun _ s' =>
     in_list s' (if bref dev s b =? 1 then i :: l1 ++ l2 else l1 ++ i :: l2)) s).
Proof.
  intros Hok Hl. split.
  - intros E Hi Hb. assert (Hf : List.find (fun i => b_refcnt (bufs s i) =? 0) (rev (l1 ++ i :: l2)) = Some i).
    { rewrite rev_app_distr. simpl. rewrite <-app_assoc. rewrite find_app_none.
      - simpl. by rewrite (proj2 (Z.eqb_eq _ _) Hi).
      - intros j Hj%List.in_rev. apply Z.eqb_neq, Hb. by apply list_elem_of_In. }
    unfold bread. apply wp_bind.
    eapply wp_mono; [apply (bget_spec dev pid b (l1 ++ i :: l2)); try done|].
    + unfold holder. by rewrite E.
    + unfold bref. rewrite E. lia.
    + intros _. apply (free_busy s i); [|done]. apply (in_list_elem _ _ _ Hl). set_solver.
    + intros k s' (_ & Hk & ->). rewrite (Hk E) in Hf. injection Hf as ->.
      apply wp_bind, wp_gets, wp_bind. apply wp_if; intros _; by wp_steps.
  - intros E Hh. eapply wp_mono; [by apply (brelse_spec dev pid b)|]. by intros _ s' (_ & _ & _ & H).
Qed.

Lemma lru_order_witness :
  exists s, binit boot_bstate = Ret (tt, s) /\
    wp (bread 3 1 7) (fun k s' => k = 0%nat /\ in_list s' (rev (seq 1 29) ++ [0%nat])) s.
Proof.
  destruct (proj1 (wp_returns _ _ _) (binit_ok 1 boot_bstate ltac:(lia) ltac:(done)))
    as ([] & s & E & Hok & Hl & _ & _ & Hb).
  exists s. split; [exact E|]. change (rev (seq 0 NBUF)) with (rev (seq 1 29) ++ [0%nat]) in Hl.
  destruct (lru_order 1 3 7 0 (rev (seq 1 29)) [] s Hok Hl) as [H _]. apply H.
  - apply buf_of_None. intros j Hj. by rewrite Hb.
  - rewrite Hb; [done|unfold NBUF; lia].
  - intros j Hj. by apply not_elem_of_nil in Hj.
Defined.
