(* ===== verification/Log.v ===== *)
(** * kernel/log.c: the redo log

    Transactions over the buffer cache of Bio.v.  The header block on disk is
    the array of bytes the code overlays with [struct logheader]; a crash
    keeps a prefix of the block writes sent to the disk and loses the memory.
    log.lock makes [begin_op], [log_write] and the two halves of [end_op]
    atomic; [commit] runs with [committing] set and every caller of
    [begin_op] waiting. *)

From S2P Require Import Prelude Bytes Locks Bio.

Definition MAXOPBLOCKS : Z := 10.
Definition LOGSIZE : Z := MAXOPBLOCKS * 3.

(** struct log with its logheader. *)
Record log := Log {
  l_start : Z;
  l_size : Z;
  l_outstanding : Z;
  l_committing : bool;
  l_dev : Z;
  l_n : Z;
  l_block : nat -> Z;
}.

Definition lset_n (v : Z) (l : log) : log :=
  Log (l_start l) (l_size l) (l_outstanding l) (l_committing l) (l_dev l) v (l_block l).
Definition lset_block (i : nat) (v : Z) (l : log) : log :=
  Log (l_start l) (l_size l) (l_outstanding l) (l_committing l) (l_dev l) (l_n l)
    (upd (l_block l) i v).
Definition lset_outstanding (v : Z) (l : log) : log :=
  Log (l_start l) (l_size l) v (l_committing l) (l_dev l) (l_n l) (l_block l).
Definition lset_committing (v : bool) (l : log) : log :=
  Log (l_start l) (l_size l) (l_outstanding l) v (l_dev l) (l_n l) (l_block l).

Record lstate := LState { bc : bstate; lg : log }.
Definition set_bc (b : bstate) (s : lstate) : lstate := LState b (lg s).
Definition set_lg (f : log -> log) (s : lstate) : lstate := LState (bc s) (f (lg s)).

Definition bio {A} (m : M bstate A) : M lstate A := zoom bc set_bc m.

Section log.
Context (pid : Z).

Definition install_trans (recovering : bool) : M lstate unit :=
  let! n := gets (fun s => l_n (lg s)) in
  for_each (seq 0 (Z.to_nat n)) (fun tail =>
    let! l := gets lg in
    bio (let! lbuf := bread pid (l_dev l) (l_start l + Z.of_nat tail + 1) in
         let! dbuf := bread pid (l_dev l) (l_block l tail) in
         let! d := get_data lbuf in
         put_data dbuf d ;;
         bwrite pid dbuf ;;
         (when! negb recovering do bunpin dbuf) ;;
         brelse pid lbuf ;;
         brelse pid dbuf)).

(** Fields of the logheader that lies in a block.  The block numbers are
    declared int and used as uint, by [bread] and in the comparison with
    [b->blockno]; they are kept as unsigned here. *)
Definition head_n (d : block) : Z := i32 (get32 d 0).
Definition head_block (d : block) (i : nat) : Z := get32 d (4 + 4 * i).

Definition read_head : M lstate unit :=
  let! l := gets lg in
  let! b := bio (bread pid (l_dev l) (l_start l)) in
  let! d := bio (get_data b) in
  modify (set_lg (lset_n (head_n d))) ;;
  for_each (seq 0 (Z.to_nat (head_n d))) (fun i =>
    modify (set_lg (lset_block i (head_block d i)))) ;;
  bio (brelse pid b).

Definition write_head : M lstate unit :=
  let! l := gets lg in
  bio (let! b := bread pid (l_dev l) (l_start l) in
       edit b (fun d => put32 d 0 (u32 (l_n l))) ;;
       for_each (seq 0 (Z.to_nat (l_n l))) (fun i =>
         edit b (fun d => put32 d (4 + 4 * i) (l_block l i))) ;;
       bwrite pid b ;;
       brelse pid b).

Definition recover_from_log : M lstate unit :=
  read_head ;;
  install_trans true ;;
  modify (set_lg (lset_n 0)) ;;
  write_head.

(** [initlog]; the size of the header is fixed and below BSIZE.  The log lies
    in zeroed memory. *)
Definition initlog (dev start size : Z) : M lstate unit :=
  if BSIZE <=? 4 + 4 * LOGSIZE then panic "initlog: too big logheader"
  else
    modify (set_lg (fun l => Log start size (l_outstanding l) (l_committing l) dev (l_n l) (l_block l))) ;;
    recover_from_log.

Definition begin_op : M lstate unit :=
  let! l := gets lg in
  if l_committing l then blocked
  else if LOGSIZE <? l_n l + (l_outstanding l + 1) * MAXOPBLOCKS then blocked
  else modify (set_lg (lset_outstanding (l_outstanding l + 1))).

Definition write_log : M lstate unit :=
  let! n := gets (fun s => l_n (lg s)) in
  for_each (seq 0 (Z.to_nat n)) (fun tail =>
    let! l := gets lg in
    bio (let! to := bread pid (l_dev l) (l_start l + Z.of_nat tail + 1) in
         let! from := bread pid (l_dev l) (l_block l tail) in
         let! d := get_data from in
         put_data to d ;;
         bwrite pid to ;;
         brelse pid from ;;
         brelse pid to)).

Definition commit : M lstate unit :=
  let! n := gets (fun s => l_n (lg s)) in
  when! 0 <? n do
    (write_log ;;
     write_head ;;
     install_trans false ;;
     modify (set_lg (lset_n 0)) ;;
     write_head).

Definition end_op : M lstate unit :=
  modify (set_lg (fun l => lset_outstanding (l_outstanding l - 1) l)) ;;
  let! l := gets lg in
  if l_committing l then panic "log.committing"
  else if l_outstanding l =? 0 then
    modify (set_lg (lset_committing true)) ;;
    commit ;;
    modify (set_lg (lset_committing false))
  else ret tt.

(** The index at which the search of [log_write] stops. *)
Fixpoint find_block (blocks : nat -> Z) (b : Z) (i n : nat) : nat :=
  match n with
  | O => i
  | S n' => if blocks i =? b then i else find_block blocks b (S i) n'
  end.

Definition log_write (i : nat) : M lstate unit :=
  let! l := gets lg in
  if (LOGSIZE <=? l_n l) || (l_size l - 1 <=? l_n l) then panic "too big a transaction"
  else if l_outstanding l <? 1 then panic "log_write outside of trans"
  else
    let! b := gets (fun s => b_blockno (bufs (bc s) i)) in
    let k := find_block (l_block l) b 0 (Z.to_nat (l_n l)) in
    modify (set_lg (lset_block k b)) ;;
    when! Z.of_nat k =? l_n l do
      (bio (bpin i) ;;
       modify (set_lg (fun l => lset_n (l_n l + 1) l))).
End log.

(** ** Writes to the disk *)

Definition apply_writes (w : list (Z * block)) (f : Z -> block) : Z -> block :=
  foldl (fun f x => upd f x.1 x.2) f w.

Lemma apply_app w1 w2 f : apply_writes (w1 ++ w2) f = apply_writes w2 (apply_writes w1 f).
Proof. apply foldl_app. Qed.

Lemma apply_cons x d w f : apply_writes ((x, d) :: w) f = apply_writes w (upd f x d).
Proof. done. Qed.

Lemma apply_one x d f : apply_writes [(x, d)] f x = d.
Proof. apply upd_same. Qed.

Lemma apply_other w f b : b ∉ w.*1 -> apply_writes w f b = f b.
Proof.
  revert f. induction w as [|[x d] w IH]; intros f; [done|].
  intros [Hx Hw]%not_elem_of_cons. by rewrite apply_cons, IH, upd_other.
Qed.

(** What a block that is written ends up with does not depend on what was
    there before. *)
Lemma apply_indep w f g b : b ∈ w.*1 -> apply_writes w f b = apply_writes w g b.
Proof.
  revert f g. induction w as [|[x d] w IH]; intros f g; [by intros ?%not_elem_of_nil|].
  rewrite !apply_cons. destruct (decide (b ∈ w.*1)) as [Hb|Hb]; [auto|].
  intros [->|?]%elem_of_cons; [|done]. by rewrite !apply_other, !upd_same.
Qed.

Lemma apply_in w f b d : NoDup w.*1 -> (b, d) ∈ w -> apply_writes w f b = d.
Proof.
  revert f. induction w as [|[x e] w IH]; intros f; [by intros _ ?%not_elem_of_nil|].
  rewrite apply_cons. intros [Hx Hnd]%NoDup_cons [E|Hin]%elem_of_cons.
  - injection E as -> ->. by rewrite apply_other, upd_same.
  - by apply IH.
Qed.

(** ** The cache between operations

    Nobody holds a buffer; exactly the buffers of the blocks of [P] are
    pinned, each once. *)

Definition pins (P : list Z) (y : Z) : Z := if decide (y ∈ P) then 1 else 0.
Definition quiet (dev : Z) (P : list Z) (V D : Z -> block) (W : list (Z * block)) (s : bstate) : Prop :=
  exists A, bst dev A V (pins P) (fun _ => None) D W s.

Lemma pins_in P y : y ∈ P -> pins P y = 1.
Proof. intros. unfold pins. by rewrite decide_True. Qed.
Lemma pins_out P y : y ∉ P -> pins P y = 0.
Proof. intros. unfold pins. by rewrite decide_False. Qed.
Lemma pins_room P y : pins P y <> 0 -> y ∈ P.
Proof. unfold pins. by case_decide. Qed.

Section steps.
Context (pid dev : Z).

(** One round of [write_log]: the cached [src] goes to [dst] on the disk. *)
Lemma copy_out (P : list Z) V D W src dst s :
  quiet dev P V D W s -> (length P < NBUF)%nat -> src ∈ P -> dst ∉ P ->
  wp (let! to := bread pid dev dst in
      let! from := bread pid dev src in
      let! d := get_data from in
      put_data to d ;; bwrite pid to ;; brelse pid from ;; brelse pid to)
    (fun _ s' => quiet dev P (upd V dst (V src)) (upd D dst (V src)) (W ++ [(dst, V src)]) s') s.
Proof.
  intros (A & Hs) Hlen Hsrc Hdst. assert (Hne : src <> dst) by congruence.
  pose proof (pins_in _ _ Hsrc) as Psrc. pose proof (pins_out _ _ Hdst) as Pdst.
  wp_call (bread_tr dev pid dst P _ _ _ _ _ _ _ Hs); [split; [apply pins_room|done]|].
  intros to s1 H1. wp_call (bread_tr dev pid src [] _ _ _ _ _ _ _ H1).
  intros from s2 H2. apply wp_bind, wp_gets.
  rewrite (get_data_tr dev src from _ _ _ _ _ _ _ H2) by (upds; done || lia).
  wp_call (put_data_tr dev pid dst to (V src) _ _ _ _ _ _ _ H2).
  intros _ s3 H3. wp_call (bwrite_tr dev pid dst to _ _ _ _ _ _ _ H3).
  intros _ s4 H4. rewrite upd_same in H4. wp_call (brelse_tr dev pid src from _ _ _ _ _ _ _ H4).
  intros _ s5 H5. wp_call (brelse_tr dev pid dst to _ _ _ _ _ _ _ H5).
  intros _ s6 H6. eexists. eapply bst_ext; [exact H6|done|..]; intros y; simpl;
    upd_cases y dst; try (upd_cases y src); upds; done || lia.
Qed.

(** One round of [install_trans] at a commit: [dst], pinned, gets the logged
    block and is unpinned. *)
Lemma install_pinned (P : list Z) V D W src dst s :
  quiet dev (dst :: P) V D W s -> (S (length P) < NBUF)%nat -> src ∉ dst :: P -> dst ∉ P ->
  wp (let! lbuf := bread pid dev src in
      let! dbuf := bread pid dev dst in
      let! d := get_data lbuf in
      put_data dbuf d ;; bwrite pid dbuf ;; bunpin dbuf ;; brelse pid lbuf ;; brelse pid dbuf)
    (fun _ s' => quiet dev P (upd V dst (V src)) (upd D dst (V src)) (W ++ [(dst, V src)]) s') s.
Proof.
  intros (A & Hs) Hlen Hsrc Hdst. assert (Hne : src <> dst) by (intros ->; apply Hsrc; left).
  assert (Psrc : pins (dst :: P) src = 0) by (by apply pins_out).
  assert (Pdst : pins (dst :: P) dst = 1) by (apply pins_in; left).
  assert (HV : V src = D src) by (by apply (bst_clean _ _ _ _ _ _ _ _ _ Hs)).
  wp_call (bread_tr dev pid src (dst :: P) _ _ _ _ _ _ _ Hs); [split; [apply pins_room|done]|].
  intros lbuf s1 H1. wp_call (bread_tr dev pid dst [] _ _ _ _ _ _ _ H1).
  intros dbuf s2 H2. apply wp_bind, wp_gets.
  rewrite (get_data_tr dev src lbuf _ _ _ _ _ _ _ H2) by (upds; done || lia).
  wp_call (put_data_tr dev pid dst dbuf (V src) _ _ _ _ _ _ _ H2).
  intros _ s3 H3. wp_call (bwrite_tr dev pid dst dbuf _ _ _ _ _ _ _ H3).
  intros _ s4 H4. rewrite upd_same in H4. wp_call (bunpin_tr dev dst dbuf _ _ _ _ _ _ _ H4).
  intros _ s5 H5. wp_call (brelse_tr dev pid src lbuf _ _ _ _ _ _ _ H5).
  intros _ s6 H6. wp_call (brelse_tr dev pid dst dbuf _ _ _ _ _ _ _ H6).
  intros _ s7 H7. eexists. eapply bst_ext; [exact H7|done|..]; intros y; simpl.
  - upd_cases y dst; [upds; rewrite Pdst, pins_out by done; lia|].
    upd_cases y src; upds; [rewrite Psrc, pins_out; [lia|]; intros ?; apply Hsrc; by right|].
    unfold pins. do 2 case_decide; set_solver.
  - upd_cases y dst; try (upd_cases y src); upds; done.
Qed.

(** The same at recovery, with nothing pinned. *)
Lemma install_fresh V D W src dst s :
  quiet dev [] V D W s -> src <> dst ->
  wp (let! lbuf := bread pid dev src in
      let! dbuf := bread pid dev dst in
      let! d := get_data lbuf in
      put_data dbuf d ;; bwrite pid dbuf ;; brelse pid lbuf ;; brelse pid dbuf)
    (fun _ s' => quiet dev [] (upd V dst (V src)) (upd D dst (V src)) (W ++ [(dst, V src)]) s') s.
Proof.
  intros (A & Hs) Hne. assert (Hp : forall y, pins [] y = 0) by (intros; by apply pins_out, not_elem_of_nil).
  pose proof (Hp src) as Psrc. pose proof (Hp dst) as Pdst.
  assert (HV : V src = D src) by (by apply (bst_clean _ _ _ _ _ _ _ _ _ Hs)).
  wp_call (bread_tr dev pid src [] _ _ _ _ _ _ _ Hs); [split; [apply pins_room|simpl; unfold NBUF; lia]|].
  intros lbuf s1 H1. wp_call (bread_tr dev pid dst [src] _ _ _ _ _ _ _ H1).
  { intros _. split; [|simpl; unfold NBUF; lia]. intros y. upd_cases y src; [set_solver|]. by rewrite Hp. }
  intros dbuf s2 H2. apply wp_bind, wp_gets.
  rewrite (get_data_tr dev src lbuf _ _ _ _ _ _ _ H2) by (upds; done || lia).
  wp_call (put_data_tr dev pid dst dbuf (V src) _ _ _ _ _ _ _ H2).
  intros _ s3 H3. wp_call (bwrite_tr dev pid dst dbuf _ _ _ _ _ _ _ H3).
  intros _ s4 H4. rewrite upd_same in H4. wp_call (brelse_tr dev pid src lbuf _ _ _ _ _ _ _ H4).
  intros _ s6 H6. wp_call (brelse_tr dev pid dst dbuf _ _ _ _ _ _ _ H6).
  intros _ s7 H7. eexists. eapply bst_ext; [exact H7|done|..]; intros y; simpl;
    upd_cases y dst; try (upd_cases y src); upds; rewrite ?Hp; done || lia.
Qed.

(** Reading a block without changing it. *)
Lemma read_block (P : list Z) V D W b s :
  quiet dev P V D W s -> (length P < NBUF)%nat -> b ∉ P ->
  wp (let! i := bread pid dev b in
      let! d := get_data i in
      brelse pid i ;; ret d)
    (fun d s' => d = V b /\ quiet dev P V D W s') s.
Proof.
  intros (A & Hs) Hlen Hb. pose proof (pins_out _ _ Hb) as Pb.
  pose proof (bst_clean _ _ _ _ _ _ _ _ _ Hs Pb) as HV.
  wp_call (bread_tr dev pid b P _ _ _ _ _ _ _ Hs); [split; [apply pins_room|done]|].
  intros i s1 H1. apply wp_bind, wp_gets.
  rewrite (get_data_tr dev b i _ _ _ _ _ _ _ H1) by (upds; done || lia).
  wp_call (brelse_tr dev pid b i _ _ _ _ _ _ _ H1).
  intros _ s2 H2. apply wp_ret. split; [done|]. eexists.
  eapply bst_ext; [exact H2|done|..]; intros y; simpl; upd_cases y b; upds; done || lia.
Qed.

(** Changing a block step by step and writing it. *)
Lemma edit_block (P : list Z) V D W b (fs : list (block -> block)) s :
  quiet dev P V D W s -> (length P < NBUF)%nat -> b ∉ P ->
  let d := foldl (fun d f => f d) (V b) fs in
  wp (let! i := bread pid dev b in
      for_each fs (edit i) ;; bwrite pid i ;; brelse pid i)
    (fun _ s' => quiet dev P (upd V b d) (upd D b d) (W ++ [(b, d)]) s') s.
Proof.
  intros (A & Hs) Hlen Hb d. pose proof (pins_out _ _ Hb) as Pb.
  wp_call (bread_tr dev pid b P _ _ _ _ _ _ _ Hs); [split; [apply pins_room|done]|].
  intros i s1 H1. apply wp_bind. eapply wp_mono.
  { apply (wp_for_each _ (fun dn _ s' => bst dev (upd A b (Some i)) (upd V b (foldl (fun d f => f d) (V b) dn))
      (upd (pins P) b (pins P b + 1)) (upd (fun _ => None) b (Some pid)) D W s')).
    - simpl. by rewrite (upd_self V).
    - intros dn f rest s' _ H'. wp_call (edit_tr dev pid b i f _ _ _ _ _ _ _ H').
      intros _ s'' H''. rewrite upd_same, upd_upd in H''. by rewrite foldl_app. }
  cbv beta. fold d. intros _ s2 H2. wp_call (bwrite_tr dev pid b i _ _ _ _ _ _ _ H2).
  intros _ s3 H3. rewrite upd_same in H3. wp_call (brelse_tr dev pid b i _ _ _ _ _ _ _ H3).
  intros _ s4 H4. eexists. eapply bst_ext; [exact H4|done|..]; intros y; simpl; upd_cases y b; upds; done || lia.
Qed.
End steps.

(** ** The loops *)

Lemma bind_ext {S A B} (m : M S A) (k k' : A -> M S B) :
  (forall a, k a = k' a) -> bind m k = bind m k'.
Proof. intros H. f_equal. by apply functional_extensionality. Qed.
Lemma for_each_map {S A B} (g : A -> B) (l : list A) (f : B -> M S unit) :
  for_each (map g l) f = for_each l (fun x => f (g x)).
Proof. induction l as [|x l IH]; simpl; [done|]. by rewrite IH. Qed.

Lemma wp_bio {A} (m : M bstate A) (Q : A -> lstate -> Prop) s :
  wp m (fun a t => Q a (LState t (lg s))) (bc s) -> wp (bio m) Q s.
Proof. intros H. by apply (wp_zoom bc set_bc). Qed.

Definition indices (l : log) : list nat := seq 0 (Z.to_nat (l_n l)).
Definition log_blocks (l : log) : list Z := map (l_block l) (indices l).

(** Block [b] is in the log region of the disk. *)
Definition in_log (l : log) (b : Z) : Prop := l_start l <= b < l_start l + l_size l.

(** The transaction fits the log and the cache, and is about blocks outside
    the log. *)
Record log_fits (l : log) : Prop := {
  lf_n : 0 <= l_n l < l_size l;
  lf_bufs : l_n l < Z.of_nat NBUF;
  lf_home : forall b, b ∈ log_blocks l -> ~ in_log l b;
}.

(** The writes of [write_log] and of [install_trans], from contents [V]. *)
Definition log_writes (l : log) (V : Z -> block) (ks : list nat) : list (Z * block) :=
  map (fun k => (l_start l + Z.of_nat k + 1, V (l_block l k))) ks.
Definition home_writes (l : log) (V : Z -> block) (ks : list nat) : list (Z * block) :=
  map (fun k => (l_block l k, V (l_start l + Z.of_nat k + 1))) ks.

Lemma log_writes_fst l V ks : (log_writes l V ks).*1 = map (fun k => l_start l + Z.of_nat k + 1) ks.
Proof. unfold log_writes. by rewrite <-list_fmap_compose. Qed.
Lemma home_writes_fst l V ks : (home_writes l V ks).*1 = map (l_block l) ks.
Proof. unfold home_writes. by rewrite <-list_fmap_compose. Qed.

Section loops.
Context (pid : Z) (l : log).
Hypothesis Hfits : log_fits l.
Abbreviation all := (indices l).

Lemma length_log_blocks : (length (log_blocks l) < NBUF)%nat.
Proof using Hfits. unfold log_blocks, indices. rewrite length_map, length_seq. destruct Hfits. lia. Qed.

Lemma log_index dn k rest : dn ++ k :: rest = all ->
  l_block l k ∈ log_blocks l /\ in_log l (l_start l + Z.of_nat k + 1) /\
  forall j, j ∈ dn -> in_log l (l_start l + Z.of_nat j + 1) /\ l_block l j ∈ log_blocks l.
Proof using Hfits.
  intros E. assert (Hall : forall j, j ∈ all -> in_log l (l_start l + Z.of_nat j + 1) /\ l_block l j ∈ log_blocks l).
  { intros j Hj. split; [|by apply list_elem_of_fmap_2]. apply elem_of_seq in Hj.
    unfold in_log. destruct Hfits. lia. }
  destruct (Hall k) as [H1 H2]; [rewrite <-E; set_solver|].
  split_and!; try done. intros j Hj. apply Hall. rewrite <-E. set_solver.
Qed.

Lemma log_not_home b : in_log l b -> b ∉ log_blocks l.
Proof using Hfits. intros Hb Hin. by apply (lf_home _ Hfits b). Qed.

Lemma write_log_spec V D W s :
  lg s = l -> quiet (l_dev l) (log_blocks l) V D W (bc s) ->
  wp (write_log pid) (fun _ s' => lg s' = l /\
    quiet (l_dev l) (log_blocks l) (apply_writes (log_writes l V all) V)
      (apply_writes (log_writes l V all) D) (W ++ log_writes l V all) (bc s')) s.
Proof using Hfits.
  intros El Hq. unfold write_log. apply wp_bind, wp_gets. rewrite El. fold (indices l).
  apply (wp_for_each _ (fun dn _ s' => lg s' = l /\
    quiet (l_dev l) (log_blocks l) (apply_writes (log_writes l V dn) V)
      (apply_writes (log_writes l V dn) D) (W ++ log_writes l V dn) (bc s'))).
  { split; [done|]. simpl. by rewrite app_nil_r. }
  intros dn k rest s' E [El' Hq']. destruct (log_index _ _ _ E) as (Hk & Hlk & Hdn).
  apply wp_bind, wp_gets. rewrite El'. apply wp_bio.
  wp_last (copy_out pid (l_dev l) _ _ _ _ (l_block l k) (l_start l + Z.of_nat k + 1) _ Hq').
  { apply length_log_blocks. }
  { by apply log_not_home. }
  intros _ s'' Hq''. split; [done|]. simpl. rewrite (apply_other _ _ (l_block l k)) in Hq''.
  - unfold log_writes. by rewrite map_app, !apply_app, app_assoc.
  - rewrite log_writes_fst. intros (j & Ej & Hj)%list_elem_of_fmap. destruct (Hdn j Hj) as [Hlj _].
    apply (lf_home _ Hfits (l_block l k) Hk). congruence.
Qed.

Definition unless (b : bool) (P : list Z) : list Z := if b then [] else P.

Lemma install_trans_spec recovering V D W s :
  lg s = l -> (recovering = false -> NoDup (log_blocks l)) ->
  quiet (l_dev l) (unless recovering (log_blocks l)) V D W (bc s) ->
  wp (install_trans pid recovering) (fun _ s' => lg s' = l /\
    quiet (l_dev l) [] (apply_writes (home_writes l V all) V)
      (apply_writes (home_writes l V all) D) (W ++ home_writes l V all) (bc s')) s.
Proof using Hfits.
  intros El Hnd Hq. unfold install_trans. apply wp_bind, wp_gets. rewrite El. fold (indices l).
  eapply wp_mono; [apply (wp_for_each _ (fun dn rest s' => lg s' = l /\
    quiet (l_dev l) (unless recovering (map (l_block l) rest)) (apply_writes (home_writes l V dn) V)
      (apply_writes (home_writes l V dn) D) (W ++ home_writes l V dn) (bc s')))|].
  { split; [done|]. simpl. by rewrite app_nil_r. }
  2: { intros _ s' [El' Hq']. split; [done|]. by destruct recovering. }
  intros dn k rest s' E [El' Hq']. destruct (log_index _ _ _ E) as (Hk & Hlk & Hdn).
  assert (Hsrc : apply_writes (home_writes l V dn) V (l_start l + Z.of_nat k + 1) = V (l_start l + Z.of_nat k + 1)).
  { apply apply_other. rewrite home_writes_fst. intros (j & Ej & Hj)%list_elem_of_fmap.
    destruct (Hdn j Hj) as [_ Hlj]. rewrite <-Ej in Hlj. by apply (log_not_home _ Hlk). }
  assert (Hne : l_start l + Z.of_nat k + 1 ∉ log_blocks l) by (by apply log_not_home).
  assert (Hsub : log_blocks l = map (l_block l) dn ++ l_block l k :: map (l_block l) rest)
    by (unfold log_blocks; by rewrite <-E, map_app).
  apply wp_bind, wp_gets. rewrite El'. apply wp_bio. destruct recovering; simpl negb; cbv iota.
  - wp_last (install_fresh pid (l_dev l) _ _ _ (l_start l + Z.of_nat k + 1) (l_block l k) _ Hq').
    { intros Ee. apply Hne. by rewrite Ee. }
    intros _ s'' Hq''. rewrite Hsrc in Hq''. split; [done|]. simpl.
    unfold home_writes. by rewrite map_app, !apply_app, app_assoc.
  - pose proof length_log_blocks as Hlen. specialize (Hnd eq_refl). rewrite Hsub in Hne, Hnd, Hlen.
    apply NoDup_app in Hnd as (_ & _ & [Hd _]%NoDup_cons). rewrite length_app in Hlen. simpl in Hlen.
    change (unless false (map (l_block l) (k :: rest)))
      with (l_block l k :: map (l_block l) rest) in Hq'.
    wp_last (install_pinned pid (l_dev l) _ _ _ _ (l_start l + Z.of_nat k + 1) (l_block l k) _ Hq').
    { intros Hin. apply Hne. set_solver. }
    intros _ s'' Hq''. rewrite Hsrc in Hq''. split; [done|]. simpl.
    unfold home_writes. by rewrite map_app, !apply_app, app_assoc.
Qed.

(** The header block as [write_head] leaves it. *)
Definition head_edits : list (block -> block) :=
  (fun d => put32 d 0 (u32 (l_n l))) :: map (fun i d => put32 d (4 + 4 * i) (l_block l i)) all.
Definition head_image (d : block) : block := foldl (fun d f => f d) d head_edits.

Lemma write_head_spec P V D W s :
  lg s = l -> quiet (l_dev l) P V D W (bc s) -> (length P < NBUF)%nat -> l_start l ∉ P ->
  wp (write_head pid) (fun _ s' => lg s' = l /\
    quiet (l_dev l) P (apply_writes [(l_start l, head_image (V (l_start l)))] V)
      (apply_writes [(l_start l, head_image (V (l_start l)))] D)
      (W ++ [(l_start l, head_image (V (l_start l)))]) (bc s')) s.
Proof using Type.
  intros El Hq Hlen HP. unfold write_head. apply wp_bind, wp_gets. rewrite El. apply wp_bio.
  pose proof (edit_block pid (l_dev l) P V D W (l_start l) head_edits (bc s) Hq Hlen HP) as H.
  erewrite (bind_ext _ _ (fun b => for_each head_edits (edit b) ;; bwrite pid b ;; brelse pid b)).
  - eapply wp_mono; [exact H|]. intros [] s' Hq'. by split.
  - intros b. unfold head_edits. cbn [for_each]. by rewrite for_each_map, bind_assoc.
Qed.
End loops.

(** *** What the header says *)

Section head.
Context (l : log).
Hypothesis Hn : 0 <= l_n l < 2 ^ 31.
Hypothesis Hb : forall k, (k < Z.to_nat (l_n l))%nat -> 0 <= l_block l k < 2 ^ 32.
Context (d : block).
Hypothesis Hd : (4 + 4 * Z.to_nat (l_n l) <= length d)%nat.

Definition head_upto (m : nat) : block :=
  foldl (fun d f => f d) (put32 d 0 (u32 (l_n l)))
    (map (fun i d => put32 d (4 + 4 * i) (l_block l i)) (seq 0 m)).

Lemma head_upto_S m : head_upto (S m) = put32 (head_upto m) (4 + 4 * m) (l_block l m).
Proof using Type. unfold head_upto. by rewrite seq_S, map_app, foldl_app. Qed.

Lemma head_upto_spec m : (m <= Z.to_nat (l_n l))%nat ->
  length (head_upto m) = length d /\ get32 (head_upto m) 0 = l_n l /\
  forall k, (k < m)%nat -> get32 (head_upto m) (4 + 4 * k) = l_block l k.
Proof using All.
  induction m as [|m IH]; intros Hm.
  - split_and!; [apply length_put32| |lia]. unfold head_upto. simpl.
    rewrite u32_id, get32_put32 by lia. done.
  - destruct IH as (Hl & H0 & Hk); [lia|]. rewrite head_upto_S. split_and!.
    + by rewrite length_put32.
    + by rewrite get32_put32_other by lia.
    + intros k Hkm. destruct (decide (k = m)) as [->|].
      * rewrite get32_put32; [done|rewrite Hl; lia|apply Hb; lia].
      * rewrite get32_put32_other by lia. apply Hk. lia.
Qed.

Lemma head_image_n : head_n (head_image l d) = l_n l.
Proof using All.
  unfold head_n. change (head_image l d) with (head_upto (Z.to_nat (l_n l))).
  destruct (head_upto_spec (Z.to_nat (l_n l))) as (_ & -> & _); [done|]. apply i32_id. lia.
Qed.
Lemma head_image_block k : (k < Z.to_nat (l_n l))%nat -> head_block (head_image l d) k = l_block l k.
Proof using All.
  unfold head_block. change (head_image l d) with (head_upto (Z.to_nat (l_n l))).
  destruct (head_upto_spec (Z.to_nat (l_n l))) as (_ & _ & H); [done|]. apply H.
Qed.
Lemma length_head_image : length (head_image l d) = length d.
Proof using All.
  change (head_image l d) with (head_upto (Z.to_nat (l_n l))).
  by destruct (head_upto_spec (Z.to_nat (l_n l))).
Qed.
End head.

(** ** Commit *)

(** Everything [commit] sends to the disk, in order. *)
Definition commit_writes (l : log) (V : Z -> block) : list (Z * block) :=
  log_writes l V (indices l) ++
  [(l_start l, head_image l (V (l_start l)))] ++
  map (fun k => (l_block l k, V (l_block l k))) (indices l) ++
  [(l_start l, put32 (head_image l (V (l_start l))) 0 0)].

Lemma head_image_0 l d : head_image (lset_n 0 l) d = put32 d 0 0.
Proof. done. Qed.

Lemma log_fits_0 l : log_fits l -> log_fits (lset_n 0 l).
Proof.
  intros [H1 H2 H3]. split; simpl; [lia|unfold NBUF; lia|].
  intros b Hb. by apply not_elem_of_nil in Hb.
Qed.

Lemma start_in_log l : log_fits l -> in_log l (l_start l).
Proof. intros [H _ _]. unfold in_log. lia. Qed.

Section commit.
Context (l : log) (V : Z -> block).
Hypothesis Hfits : log_fits l.
Abbreviation start := (l_start l).
Abbreviation head1 := (head_image l (V start)).
Abbreviation home := (map (fun k => (l_block l k, V (l_block l k))) (indices l)).

Lemma log_writes_start : start ∉ (log_writes l V (indices l)).*1.
Proof using Type. rewrite log_writes_fst. intros (k & E & _)%list_elem_of_fmap. lia. Qed.

Lemma log_writes_NoDup : NoDup (log_writes l V (indices l)).*1.
Proof using Type.
  rewrite log_writes_fst. apply NoDup_fmap_2; [intros i j; lia|apply NoDup_seq].
Qed.

Lemma logged_block f k : k ∈ indices l ->
  apply_writes (log_writes l V (indices l)) f (start + Z.of_nat k + 1) = V (l_block l k).
Proof using Type.
  intros Hk. apply apply_in; [apply log_writes_NoDup|].
  apply (list_elem_of_fmap_2 (fun k => (start + Z.of_nat k + 1, V (l_block l k)))). done.
Qed.

Lemma home_writes_eq f (Hf : forall k, k ∈ indices l -> f (start + Z.of_nat k + 1) = V (l_block l k)) :
  home_writes l f (indices l) = home.
Proof using Type.
  unfold home_writes. apply list_fmap_ext. intros i k Hk%list_elem_of_lookup_2. by rewrite Hf.
Qed.

Lemma home_not_log b : in_log l b -> b ∉ home.*1.
Proof using Hfits.
  intros Hb. rewrite <-list_fmap_compose. by apply (log_not_home l Hfits).
Qed.

Lemma commit_spec pid D W s :
  lg s = l -> NoDup (log_blocks l) -> quiet (l_dev l) (log_blocks l) V D W (bc s) ->
  let w := if 0 <? l_n l then commit_writes l V else [] in
  wp (commit pid) (fun _ s' => lg s' = lset_n 0 l /\
    quiet (l_dev l) [] (apply_writes w V) (apply_writes w D) (W ++ w) (bc s')) s.
Proof using Hfits.
  intros El Hnd Hq w. unfold commit. apply wp_bind, wp_gets. rewrite El. unfold w.
  destruct (Z.ltb_spec 0 (l_n l)) as [Hn|Hn].
  2: { apply wp_ret. assert (l_n l = 0) as En by (destruct Hfits; lia). split.
    - rewrite El. destruct l; simpl in *; by subst.
    - unfold log_blocks, indices in Hq. rewrite En in Hq. by rewrite app_nil_r. }
  pose proof (length_log_blocks l Hfits) as Hlen. pose proof (start_in_log l Hfits) as Hs.
  pose proof (log_not_home l Hfits start Hs) as HsP.
  wp_call (write_log_spec pid l Hfits V D W s El Hq). intros _ s1 [E1 Q1].
  wp_call (write_head_spec pid l _ _ _ _ s1 E1 Q1 Hlen HsP). intros _ s2 [E2 Q2].
  rewrite (apply_other _ V start log_writes_start) in Q2.
  wp_call (install_trans_spec pid l Hfits false _ _ _ s2 E2 (fun _ => Hnd) Q2). intros _ s3 [E3 Q3].
  rewrite home_writes_eq in Q3.
  2: { intros k Hk. rewrite apply_other by (simpl; intros [E|E]%elem_of_cons; [lia|by apply not_elem_of_nil in E]).
    by apply logged_block. }
  assert (E3' : lg (set_lg (lset_n 0) s3) = lset_n 0 l) by (simpl; by rewrite E3).
  apply wp_bind, wp_modify. wp_last (write_head_spec pid (lset_n 0 l) [] _ _ _ _ E3' Q3).
  { simpl. unfold NBUF. lia. }
  { apply not_elem_of_nil. }
  intros _ s4 [E4 Q4]. split; [done|]. revert Q4. rewrite head_image_0. cbn [l_start lset_n l_dev].
  rewrite (apply_other home) by (by apply home_not_log).
  rewrite apply_one. unfold commit_writes.
  rewrite !apply_app, <-!app_assoc. done.
Qed.
End commit.

(** ** Recovery *)

(** Everything [recover_from_log] sends to disk [D]. *)
Definition recover_writes (start : Z) (D : Z -> block) : list (Z * block) :=
  map (fun k => (head_block (D start) k, D (start + Z.of_nat k + 1)))
    (seq 0 (Z.to_nat (head_n (D start)))) ++
  [(start, put32 (D start) 0 0)].

(** The log on disk is one that [write_head] wrote. *)
Record disk_log (start size : Z) (D : Z -> block) : Prop := {
  dl_n : 0 <= head_n (D start) < size;
  dl_bufs : head_n (D start) < Z.of_nat NBUF;
  dl_home : forall k, (k < Z.to_nat (head_n (D start)))%nat ->
    ~ start <= head_block (D start) k < start + size;
}.

(** The log in memory after [read_head] of a header [d]. *)
Definition parse_blocks (l : log) (d : block) (ks : list nat) : log :=
  foldl (fun l i => lset_block i (head_block d i) l) (lset_n (head_n d) l) ks.
Definition parsed (l : log) (d : block) : log := parse_blocks l d (seq 0 (Z.to_nat (head_n d))).

Lemma parse_blocks_fields l d ks :
  let l' := parse_blocks l d ks in
  l_start l' = l_start l /\ l_size l' = l_size l /\ l_outstanding l' = l_outstanding l /\
  l_committing l' = l_committing l /\ l_dev l' = l_dev l /\ l_n l' = head_n d /\
  forall k, k ∈ ks -> l_block l' k = head_block d k.
Proof.
  induction ks as [|k ks IH] using rev_ind; simpl.
  - split_and!; try done. intros k Hk. by apply not_elem_of_nil in Hk.
  - unfold parse_blocks in *. rewrite foldl_app. simpl.
    destruct IH as (H1 & H2 & H3 & H4 & H5 & H6 & H7). split_and!; try done.
    intros j Hj. upd_cases j k; [done|]. apply H7. set_solver.
Qed.

Lemma read_head_spec pid l V D W s :
  lg s = l -> quiet (l_dev l) [] V D W (bc s) ->
  wp (read_head pid) (fun _ s' => lg s' = parsed l (V (l_start l)) /\
    quiet (l_dev l) [] V D W (bc s')) s.
Proof.
  intros El (A & Hs). unfold read_head. apply wp_bind, wp_gets. rewrite El.
  assert (Hp : forall y, pins [] y = 0) by (intros; by apply pins_out, not_elem_of_nil).
  pose proof (Hp (l_start l)) as P0. pose proof (bst_clean _ _ _ _ _ _ _ _ _ Hs P0) as HV.
  apply wp_bind, wp_bio.
  wp_last (bread_tr (l_dev l) pid (l_start l) [] _ _ _ _ _ _ _ Hs);
    [split; [apply pins_room|simpl; unfold NBUF; lia]|].
  intros b s1 H1. apply wp_bind, wp_bio, wp_gets. cbn [bc].
  rewrite (get_data_tr _ (l_start l) b _ _ _ _ _ _ _ H1) by (upds; done || lia).
  apply wp_bind, wp_modify, wp_bind.
  eapply wp_mono; [apply (wp_for_each _ (fun dn _ s' =>
    bc s' = s1 /\ lg s' = parse_blocks l (V (l_start l)) dn))|].
  { split; [done|]. simpl. by rewrite El. }
  { intros dn k rest s' _ [Eb Eg]. apply wp_modify. split; [done|].
    simpl. rewrite Eg. unfold parse_blocks. by rewrite foldl_app. }
  intros _ s2 [Eb Eg]. apply wp_bio. rewrite Eb.
  wp_last (brelse_tr (l_dev l) pid (l_start l) b _ _ _ _ _ _ _ H1).
  intros _ s3 H3. split; [done|]. eexists.
  eapply bst_ext; [exact H3|done|..]; intros y; simpl; upd_cases y (l_start l); upds; done || lia.
Qed.

Lemma recover_spec pid l D W s :
  lg s = l -> disk_log (l_start l) (l_size l) D -> quiet (l_dev l) [] D D W (bc s) ->
  let w := recover_writes (l_start l) D in
  wp (recover_from_log pid) (fun _ s' => lg s' = lset_n 0 (parsed l (D (l_start l))) /\
    quiet (l_dev l) [] (apply_writes w D) (apply_writes w D) (W ++ w) (bc s')) s.
Proof.
  intros El Hd Hq w. unfold recover_from_log.
  wp_call (read_head_spec pid l D D W s El Hq). intros _ s1 [E1 Q1].
  set (l1 := parsed l (D (l_start l))) in *.
  pose proof (parse_blocks_fields l (D (l_start l)) (seq 0 (Z.to_nat (head_n (D (l_start l))))))
    as (F1 & F2 & _ & _ & F5 & F6 & F7).
  fold l1 in F1, F2, F5, F6, F7. fold (parsed l (D (l_start l))) in F1, F2, F5, F6, F7. fold l1 in F1, F2, F5, F6, F7.
  assert (Hfits : log_fits l1).
  { split.
    - rewrite F6, F2. apply Hd.
    - rewrite F6. apply Hd.
    - intros b (k & -> & Hk)%list_elem_of_fmap. unfold indices in Hk. rewrite F6 in Hk.
      rewrite F7 by done. unfold in_log. rewrite F1, F2. apply Hd. apply elem_of_seq in Hk. lia. }
  rewrite <-F5 in Q1.
  wp_call (install_trans_spec pid l1 Hfits true D D W s1 E1 ltac:(done) Q1). intros _ s2 [E2 Q2].
  assert (E2' : lg (set_lg (lset_n 0) s2) = lset_n 0 l1) by (simpl; by rewrite E2).
  apply wp_bind, wp_modify. wp_last (write_head_spec pid (lset_n 0 l1) [] _ _ _ _ E2' Q2).
  { simpl. unfold NBUF. lia. }
  { apply not_elem_of_nil. }
  intros _ s3 [E3 Q3]. split; [done|]. revert Q3. rewrite head_image_0. cbn [l_start lset_n l_dev].
  rewrite (apply_other _ D (l_start l1)).
  2: { rewrite home_writes_fst. apply (log_not_home l1 Hfits). by apply start_in_log. }
  rewrite F1, F5. unfold w, recover_writes. rewrite !apply_app, <-app_assoc.
  replace (home_writes l1 D (indices l1)) with
    (map (fun k => (head_block (D (l_start l)) k, D (l_start l + Z.of_nat k + 1)))
       (seq 0 (Z.to_nat (head_n (D (l_start l)))))); [done|].
  unfold home_writes, indices. rewrite F6, F1. apply list_fmap_ext.
  intros i k Hk%list_elem_of_lookup_2. by rewrite F7.
Qed.

(** ** Transactions

    The state inside a transaction of process [pid]: it holds the buffers
    [Hl] (block and buffer), has changed the blocks [X] without logging them
    yet, and blocks that are neither logged nor in [X] agree with the disk. *)

Definition held (pid : Z) (Hl : list (Z * nat)) (y : Z) : option Z :=
  if decide (y ∈ Hl.*1) then Some pid else None.

Record txn (pid : Z) (l : log) (Hl : list (Z * nat)) (X : list Z) (V D : Z -> block)
    (W : list (Z * block)) (s : lstate) : Prop := {
  tx_log : lg s = l;
  tx_bst : exists A, (forall b i, (b, i) ∈ Hl -> A b = Some i) /\
    bst (l_dev l) A V (fun y => pins (log_blocks l) y + pins Hl.*1 y) (held pid Hl) D W (bc s);
  tx_held : NoDup Hl.*1;
  tx_nodup : NoDup (log_blocks l);
  tx_n : 0 <= l_n l;
  tx_clean : forall b, b ∉ X -> b ∉ log_blocks l -> V b = D b;
}.

Lemma pins_range P y : 0 <= pins P y <= 1.
Proof. unfold pins. case_decide; lia. Qed.
Lemma pins_cons b P y : b ∉ P -> pins (b :: P) y = pins P y + (if decide (y = b) then 1 else 0).
Proof.
  intros Hb. unfold pins. destruct (decide (y = b)) as [->|Hy].
  - rewrite decide_True by left. by rewrite decide_False.
  - assert (y ∈ b :: P <-> y ∈ P) as Hiff by set_solver. by rewrite (decide_ext _ _ _ _ Hiff), Z.add_0_r.
Qed.
Lemma pins_snoc b P y : b ∉ P -> pins (P ++ [b]) y = pins P y + (if decide (y = b) then 1 else 0).
Proof.
  intros Hb. rewrite <-pins_cons by done. unfold pins.
  assert (y ∈ P ++ [b] <-> y ∈ b :: P) as Hiff by set_solver. by rewrite (decide_ext _ _ _ _ Hiff).
Qed.
Lemma pins_held_cons b i (Hl : list (Z * nat)) y : b ∉ Hl.*1 ->
  pins ((b, i) :: Hl).*1 y = pins Hl.*1 y + (if decide (y = b) then 1 else 0).
Proof. apply pins_cons. Qed.
Lemma held_cons pid b i Hl y :
  held pid ((b, i) :: Hl) y = if decide (y = b) then Some pid else held pid Hl y.
Proof.
  unfold held. change ((b, i) :: Hl).*1 with (b :: Hl.*1). destruct (decide (y = b)) as [->|Hy].
  - by rewrite decide_True by left.
  - assert (y ∈ b :: Hl.*1 <-> y ∈ Hl.*1) as Hiff by set_solver. by rewrite (decide_ext _ _ _ _ Hiff).
Qed.
Lemma held_fst (Hl : list (Z * nat)) b i : (b, i) ∈ Hl -> b ∈ Hl.*1.
Proof. intros H. by apply (list_elem_of_fmap_2 fst) in H. Qed.
Lemma held_in pid Hl b i : (b, i) ∈ Hl -> held pid Hl b = Some pid.
Proof. intros H. unfold held. rewrite decide_True; [done|]. by apply (held_fst _ _ i). Qed.

Lemma txn_bread pid l Hl X V D W b s :
  txn pid l Hl X V D W s -> b ∉ Hl.*1 -> (length (log_blocks l) + length Hl < NBUF)%nat ->
  wp (bio (bread pid (l_dev l) b)) (fun i s' => txn pid l ((b, i) :: Hl) X V D W s') s.
Proof.
  intros [El (A & HA & Hs) Hh Hnd Hn Hc] Hb Hlen. apply wp_bio.
  wp_last (bread_tr (l_dev l) pid b (log_blocks l ++ Hl.*1) _ _ _ _ _ _ _ Hs).
  { unfold held. by rewrite decide_False. }
  { pose proof (pins_range (log_blocks l) b). pose proof (pins_range Hl.*1 b). lia. }
  { intros _. split; [|rewrite length_app, length_fmap; done]. intros y Hy. apply elem_of_app.
    pose proof (pins_range (log_blocks l) y). pose proof (pins_range Hl.*1 y).
    destruct (decide (pins (log_blocks l) y = 0)); [right|left]; apply pins_room; lia. }
  intros i s' Hs'. split; try done; [|by apply NoDup_cons].
  exists (upd A b (Some i)). split.
  - intros b' i' [E|Hin]%elem_of_cons; [injection E as -> ->; by rewrite upd_same|].
    rewrite upd_other; [by apply HA|]. intros ->. apply Hb. by apply (held_fst _ _ i').
  - eapply bst_ext; [exact Hs'|done|..]; intros y; cbv beta.
    + rewrite pins_held_cons by done. upd_cases y b; lia.
    + rewrite held_cons. by upd_cases y b.
Qed.

Lemma txn_data pid l Hl X V D W b i s :
  txn pid l Hl X V D W s -> (b, i) ∈ Hl -> b_data (bufs (bc s) i) = V b.
Proof.
  intros [El (A & HA & Hs) Hh Hnd Hn Hc] Hb. apply (get_data_tr _ _ _ _ _ _ _ _ _ _ Hs); [by apply HA|].
  simpl. rewrite (pins_in Hl.*1) by (by apply (held_fst _ _ i)).
  pose proof (pins_range (log_blocks l) b). lia.
Qed.

Lemma txn_edit pid l Hl X V D W b i f s :
  txn pid l Hl X V D W s -> (b, i) ∈ Hl ->
  wp (bio (edit i f)) (fun _ s' => txn pid l Hl (b :: X) (upd V b (f (V b))) D W s') s.
Proof.
  intros [El (A & HA & Hs) Hh Hnd Hn Hc] Hb. apply wp_bio.
  wp_last (edit_tr (l_dev l) pid b i f _ _ _ _ _ _ _ Hs); [by eapply held_in|by apply HA|].
  intros _ s' Hs'. split; try done; [by exists A|].
  intros y [Hy HX]%not_elem_of_cons Hl'. rewrite upd_other by done. by apply Hc.
Qed.

Lemma txn_brelse pid l Hl X V D W b i s :
  txn pid l ((b, i) :: Hl) X V D W s -> (b ∉ X \/ b ∈ log_blocks l) ->
  wp (bio (brelse pid i)) (fun _ s' => txn pid l Hl X V D W s') s.
Proof.
  intros [El (A & HA & Hs) Hh Hnd Hn Hc] Hb. apply wp_bio. simpl in Hh. apply NoDup_cons in Hh as [Hbl Hh].
  wp_last (brelse_tr (l_dev l) pid b i _ _ _ _ _ _ _ Hs).
  { apply (held_in pid _ b i). left. }
  { apply HA. left. }
  { rewrite (pins_in ((b, i) :: Hl).*1) by left. intros Hz. destruct Hb as [Hx|Hin].
    - apply Hc; [done|]. intros Hin. rewrite pins_in in Hz by done. lia.
    - rewrite pins_in in Hz by done. lia. }
  intros _ s' Hs'. split; try done. exists A. split; [intros; apply HA; by right|].
  eapply bst_ext; [exact Hs'|done|..]; intros y; cbv beta.
  - upd_cases y b; rewrite pins_held_cons by done; [rewrite decide_True by done|rewrite decide_False by done]; lia.
  - upd_cases y b; [unfold held; by rewrite decide_False|]. by rewrite held_cons, decide_False.
Qed.

(** *** [log_write] *)

(** The log after [log_write] of block [b]. *)
Definition logged (l : log) (b : Z) : log :=
  if decide (b ∈ log_blocks l) then l
  else lset_n (l_n l + 1) (lset_block (Z.to_nat (l_n l)) b l).

Lemma find_block_spec f b i n :
  let k := find_block f b i n in
  (i <= k <= i + n)%nat /\ ((k < i + n)%nat -> f k = b) /\
  (b ∉ map f (seq i n) -> k = (i + n)%nat) /\ (b ∈ map f (seq i n) -> (k < i + n)%nat).
Proof.
  revert i. induction n as [|n IH]; intros i; cbn [find_block seq map].
  - split_and!; try lia; intros Hin. by apply not_elem_of_nil in Hin.
  - destruct (Z.eqb_spec (f i) b) as [E|E].
    + split_and!; try lia. intros Hin. exfalso. apply Hin. rewrite E. left.
    + destruct (IH (S i)) as (H1 & H2 & H3 & H4). split_and!; try lia.
      * intros Hn. rewrite H3; [lia|]. intros Hin. apply Hn. by right.
      * intros [->|Hin]%elem_of_cons; [done|]. specialize (H4 Hin). lia.
Qed.

Lemma logged_blocks l b : 0 <= l_n l ->
  log_blocks (logged l b) = if decide (b ∈ log_blocks l) then log_blocks l else log_blocks l ++ [b].
Proof.
  intros Hn. unfold logged. destruct (decide (b ∈ log_blocks l)); [done|].
  unfold log_blocks, indices. cbn [l_n lset_n l_block lset_block].
  rewrite Z2Nat.inj_add by lia. change (Z.to_nat 1) with 1%nat. rewrite Nat.add_1_r, seq_S, map_app.
  simpl. rewrite upd_same. f_equal. apply map_ext_in. intros k Hk%List.in_seq. by rewrite upd_other by lia.
Qed.

Lemma logged_fields l b :
  l_start (logged l b) = l_start l /\ l_size (logged l b) = l_size l /\
  l_outstanding (logged l b) = l_outstanding l /\ l_committing (logged l b) = l_committing l /\
  l_dev (logged l b) = l_dev l /\ l_n l <= l_n (logged l b) <= l_n l + 1.
Proof. unfold logged. destruct (decide _); simpl; split_and!; try done; lia. Qed.

Lemma bst_blockno dev A V R H D W s b i :
  bst dev A V R H D W s -> A b = Some i -> R b <> 0 -> b_blockno (bufs s i) = b.
Proof.
  intros [[Hok _] B _ _ _ _ _] HA Hr. assert (E : buf_of dev s b = Some i) by (by rewrite B).
  by apply buf_of_Some in E as (_ & _ & ?).
Qed.

Lemma txn_log_write pid l Hl X X' V D W b i s :
  txn pid l Hl X V D W s -> (b, i) ∈ Hl ->
  l_n l < LOGSIZE -> l_n l < l_size l - 1 -> 1 <= l_outstanding l ->
  (forall y, y ∈ X -> y = b \/ y ∈ X') ->
  wp (log_write i) (fun _ s' => txn pid (logged l b) Hl X' V D W s') s.
Proof.
  intros [El (A & HA & Hs) Hh Hnd Hn Hc] Hb H1 H2 H3 HX. unfold log_write.
  apply wp_bind, wp_gets. rewrite El.
  rewrite (proj2 (orb_false_iff _ _)) by (split; lia).
  rewrite (proj2 (Z.ltb_ge _ _)) by lia. apply wp_bind, wp_gets.
  pose proof (pins_in Hl.*1 b (held_fst _ _ _ Hb)) as Pb.
  pose proof (pins_range (log_blocks l) b) as Pl.
  rewrite (bst_blockno _ _ _ _ _ _ _ _ b i Hs (HA _ _ Hb)) by (cbv beta; lia).
  cbv zeta. destruct (find_block_spec (l_block l) b 0 (Z.to_nat (l_n l))) as (F1 & F2 & F3 & F4).
  set (k := find_block (l_block l) b 0 (Z.to_nat (l_n l))) in *.
  fold (indices l) in F3, F4. fold (log_blocks l) in F3, F4.
  apply wp_bind, wp_modify. simpl in F1, F2, F3, F4.
  assert (Hcl : forall y, y ∉ X' -> y ∉ log_blocks (logged l b) -> V y = D y).
  { intros y Hy Hyl. rewrite logged_blocks in Hyl by done. destruct (decide (b ∈ log_blocks l)).
    - apply Hc; [|done]. intros Hin. destruct (HX _ Hin) as [->|]; done.
    - apply Hc; [|set_solver]. intros Hin. destruct (HX _ Hin) as [->|]; set_solver. }
  destruct (decide (b ∈ log_blocks l)) as [Hin|Hout].
  - specialize (F4 Hin). rewrite (proj2 (Z.eqb_neq _ _)) by lia. apply wp_ret.
    assert (El' : lset_block k b (lg s) = logged l b).
    { unfold logged. rewrite decide_True by done. rewrite El. destruct l; unfold lset_block; simpl in *.
      f_equal. apply functional_extensionality. intros j. upd_cases j k; [|done]. by rewrite F2. }
    rewrite logged_blocks, decide_True in Hcl by done.
    split; try done; unfold logged; rewrite decide_True by done; try done.
    by exists A.
  - rewrite F3 by done. rewrite Z2Nat.id by lia. rewrite Z.eqb_refl.
    apply wp_bind, wp_bio.
    wp_last (bpin_tr (l_dev l) b i _ _ _ _ _ _ _ Hs); [by apply HA|].
    intros _ s' Hs'. apply wp_modify. pose proof (logged_blocks l b Hn) as Eb. rewrite decide_False in Eb by done.
    pose proof (logged_fields l b) as (_ & _ & _ & _ & Ed & En).
    split; try done.
    + simpl. rewrite El. unfold logged. by rewrite decide_False.
    + exists A. split; [done|]. rewrite Ed. eapply bst_ext; [exact Hs'|done|..]; [|done].
      intros y. rewrite Eb, pins_snoc by done. by upd_cases y b; lia.
    + rewrite Eb. apply NoDup_app. split_and!; [done|set_solver|apply NoDup_singleton].
    + lia.
Qed.
