(* ===== verification/LogCrash.v ===== *)
(** * Crash safety of the log

    A crash stops the machine between two block writes: the disk has a prefix
    of the writes it was sent and memory is lost; the next boot runs
    [initlog].  The theorems follow a transaction from [begin_op] through
    [commit] and any number of crashes, also crashes during recovery. *)

From stdpp Require Import relations.
From S2P Require Import Prelude Bytes Locks Bio Log.

(** ** Crashes *)

Lemma apply_ind (P : block -> Prop) w f b :
  P (f b) -> (forall d, (b, d) ∈ w -> P d) -> P (apply_writes w f b).
Proof.
  revert f. induction w as [|[x d] w IH]; intros f Hf Hw; [done|]. rewrite apply_cons. apply IH.
  - upd_cases b x; [|done]. apply Hw. left.
  - intros d' Hd'. apply Hw. by right.
Qed.

(** The places where [a ++ [x] ++ c ++ [y]] can be cut. *)
Lemma cut_cases {A} (a c w1 w2 : list A) (x y : A) :
  a ++ [x] ++ c ++ [y] = w1 ++ w2 ->
  (exists r, a = w1 ++ r /\ w2 <> []) \/
  (exists c1 c2, c = c1 ++ c2 /\ w1 = a ++ [x] ++ c1 /\ w2 <> []) \/
  (w1 = a ++ [x] ++ c ++ [y] /\ w2 = []).
Proof.
  intros [(k & -> & ->)|(k & -> & E)]%app_eq_inv.
  { left. exists k. split; [done|]. by destruct k. }
  destruct k as [|z k].
  { left. exists []. rewrite !app_nil_r. split; [done|]. simpl in E. by subst. }
  right. injection E as <- E. apply app_eq_inv in E as [(c2 & -> & ->)|(k' & -> & E)].
  { left. exists k, c2. split_and!; [done..|]. by destruct c2. }
  destruct k' as [|z [|]]; simpl in E; [|injection E as <- <-|done].
  - left. exists c, []. rewrite !app_nil_r. subst. done.
  - by right.
Qed.

(** The disk after recovery. *)
Definition recovered (start : Z) (D : Z -> block) : Z -> block :=
  apply_writes (recover_writes start D) D.

Lemma head_n_cleared d : (4 <= length d)%nat -> head_n (put32 d 0 0) = 0.
Proof. intros. unfold head_n. rewrite get32_put32 by lia. done. Qed.

Lemma recovered_empty start D b : head_n (D start) = 0 -> b <> start -> recovered start D b = D b.
Proof.
  intros E Hb. unfold recovered, recover_writes. rewrite E. simpl.
  by apply upd_other.
Qed.

Lemma disk_log_empty start size D : head_n (D start) = 0 -> 0 < size -> disk_log start size D.
Proof. intros E Hs. split; rewrite E; [lia|unfold NBUF; lia|simpl; lia]. Qed.

Section crash.
Context (l : log) (V D : Z -> block).
Hypothesis Hfits : log_fits l.
Hypothesis Hnd : NoDup (log_blocks l).
Hypothesis Hrange : forall k, (k < Z.to_nat (l_n l))%nat -> 0 <= l_block l k < 2 ^ 32.
Hypothesis Hlen : (4 + 4 * Z.to_nat (l_n l) <= length (D (l_start l)))%nat.
Hypothesis Hempty : head_n (D (l_start l)) = 0.
Hypothesis Hclean : forall b, b ∉ log_blocks l -> V b = D b.
Abbreviation start := (l_start l).
Abbreviation head1 := (head_image l (D start)).
Abbreviation home := (map (fun k => (l_block l k, V (l_block l k))) (indices l)).
Abbreviation lw := (log_writes l V (indices l)).

Definition all_old (D' : Z -> block) : Prop := forall b, ~ in_log l b -> D' b = D b.
Definition all_new (D' : Z -> block) : Prop := forall b, ~ in_log l b -> D' b = V b.

Lemma lw_in_log b : b ∈ lw.*1 -> in_log l b /\ b <> start.
Proof using All.
  rewrite log_writes_fst. intros (k & -> & Hk)%list_elem_of_fmap. apply elem_of_seq in Hk.
  pose proof (lf_n l Hfits). unfold in_log. lia.
Qed.

Lemma home_fst : home.*1 = log_blocks l.
Proof using Type. by rewrite <-list_fmap_compose. Qed.

(** A crash while the log is written: the header still says it is empty. *)
Lemma crash_logging w1 w2 : lw = w1 ++ w2 ->
  let D1 := apply_writes w1 D in
  disk_log start (l_size l) D1 /\ all_old (recovered start D1).
Proof using All.
  intros E D1. assert (Hw : forall b, b ∈ w1.*1 -> in_log l b /\ b <> start).
  { intros b Hb. apply lw_in_log. rewrite E, fmap_app. set_solver. }
  assert (Hs : D1 start = D start).
  { apply apply_other. intros Hin. by destruct (Hw _ Hin). }
  split.
  - apply disk_log_empty; [by rewrite Hs|]. pose proof (lf_n l Hfits). lia.
  - intros b Hb. rewrite recovered_empty; [|by rewrite Hs|].
    + apply apply_other. intros Hin. by destruct (Hw _ Hin).
    + intros ->. apply Hb. by apply start_in_log.
Qed.

(** The home blocks once every logged block has been written to its place. *)
Lemma home_installed f :
  (forall b, ~ in_log l b -> b ∉ log_blocks l -> f b = D b) -> all_new (apply_writes home f).
Proof using All.
  intros Hf b Hb. destruct (decide (b ∈ log_blocks l)) as [Hin|Hout].
  - pose proof Hin as (k & -> & Hk)%list_elem_of_fmap. apply apply_in; [by rewrite home_fst|].
    by apply (list_elem_of_fmap_2 (fun k => (l_block l k, V (l_block l k)))).
  - rewrite apply_other by (by rewrite home_fst). rewrite Hclean by done. by apply Hf.
Qed.

Lemma logged_home y : ~ in_log l y ->
  apply_writes [(start, head1)] (apply_writes lw D) y = D y.
Proof using All.
  intros Hy. rewrite (apply_other [_]).
  - apply apply_other. intros Hin. by destruct (lw_in_log _ Hin).
  - simpl. intros [->|?%not_elem_of_nil]%elem_of_cons; [|done]. by apply Hy, start_in_log.
Qed.

Lemma home_out b : in_log l b -> b ∉ home.*1.
Proof using All. intros Hb. rewrite home_fst. by apply (log_not_home l Hfits). Qed.

(** A crash after the header was written, during the installation. *)
Lemma crash_installing h1 h2 : home = h1 ++ h2 ->
  let D1 := apply_writes (lw ++ [(start, head1)] ++ h1) D in
  disk_log start (l_size l) D1 /\ all_new (recovered start D1).
Proof using All.
  intros E D1. pose proof (lf_n l Hfits) as Hn. pose proof (lf_bufs l Hfits) as Hb.
  assert (Hn31 : 0 <= l_n l < 2 ^ 31) by (unfold NBUF in Hb; lia).
  assert (Hout : forall b, in_log l b -> b ∉ h1.*1).
  { intros b Hlb Hin. apply (home_out b Hlb). rewrite E, fmap_app. set_solver. }
  assert (Hs : D1 start = head1).
  { unfold D1. rewrite !apply_app, (apply_other h1) by (apply Hout; by apply start_in_log).
    apply apply_one. }
  assert (Hlog : forall k, k ∈ indices l -> D1 (start + Z.of_nat k + 1) = V (l_block l k)).
  { intros k Hk. pose proof Hk as Hk'%elem_of_seq. unfold D1.
    rewrite !apply_app, (apply_other h1) by (apply Hout; unfold in_log; lia).
    rewrite apply_cons, apply_other by (simpl; apply not_elem_of_nil).
    rewrite upd_other by lia. by apply logged_block. }
  assert (Hd1 : head_n (D1 start) = l_n l) by (rewrite Hs; by apply head_image_n).
  assert (Hd2 : forall k, k ∈ indices l -> head_block (D1 start) k = l_block l k).
  { intros k Hk%elem_of_seq. rewrite Hs. apply head_image_block; try done. lia. }
  split.
  - split; rewrite ?Hd1; [done..|]. intros k Hk. assert (Hk' : k ∈ indices l) by (apply elem_of_seq; lia).
    rewrite Hd2 by done. apply (lf_home l Hfits). by apply list_elem_of_fmap_2.
  - intros b Hb'. unfold recovered, recover_writes. rewrite Hd1. fold (indices l).
    assert (Hw : map (fun k => (head_block (D1 start) k, D1 (start + Z.of_nat k + 1))) (indices l) = home).
    { apply list_fmap_ext. intros i k Hk%list_elem_of_lookup_2. by rewrite Hd2, Hlog. }
    rewrite Hw, apply_app, apply_cons. simpl. rewrite upd_other.
    + apply home_installed; [|done]. intros y Hy Hyl. unfold D1.
      rewrite !apply_app, (apply_other h1).
      * by apply logged_home.
      * intros Hin. apply Hyl. rewrite <-home_fst, E, fmap_app. set_solver.
    + intros ->. apply Hb'. by apply start_in_log.
Qed.

(** A crash after the log was cleared. *)
Lemma crash_cleared :
  let D1 := apply_writes (lw ++ [(start, head1)] ++ home ++ [(start, put32 head1 0 0)]) D in
  disk_log start (l_size l) D1 /\ all_new (recovered start D1).
Proof using All.
  intros D1. pose proof (lf_n l Hfits) as Hn. pose proof (lf_bufs l Hfits) as Hb.
  assert (Hn31 : 0 <= l_n l < 2 ^ 31) by (unfold NBUF in Hb; lia).
  assert (Hs : D1 start = put32 head1 0 0).
  { unfold D1. rewrite !apply_app. apply apply_one. }
  assert (Hz : head_n (D1 start) = 0).
  { rewrite Hs. apply head_n_cleared. rewrite length_head_image by done. lia. }
  split; [apply disk_log_empty; [done|lia]|].
  intros b Hb'. assert (b <> start) by (intros ->; by apply Hb', start_in_log).
  rewrite recovered_empty by done. unfold D1. rewrite !apply_app.
  rewrite (apply_other [_]) by (simpl; intros [->|?%not_elem_of_nil]%elem_of_cons; done).
  apply home_installed; [|done]. intros y Hy _. by apply logged_home.
Qed.

(** Wherever the writes of a commit stop, recovery finds a log it can use, and
    gives the home blocks from before or from after the transaction. *)
Lemma crash_commit w1 w2 : commit_writes l V = w1 ++ w2 ->
  let D1 := apply_writes w1 D in
  disk_log start (l_size l) D1 /\
  (all_old (recovered start D1) \/ all_new (recovered start D1)) /\
  (w2 = [] -> all_new (recovered start D1)).
Proof using All.
  assert (Hv : V start = D start) by (apply Hclean, (log_not_home l Hfits); by apply start_in_log).
  intros E D1. unfold commit_writes in E. rewrite Hv in E.
  assert (Hcut : (exists r, lw = w1 ++ r /\ w2 <> []) \/
    (exists h1 h2, home = h1 ++ h2 /\ w1 = lw ++ [(start, head1)] ++ h1 /\ w2 <> []) \/
    (w1 = lw ++ [(start, head1)] ++ home ++ [(start, put32 head1 0 0)] /\ w2 = [])).
  { by apply cut_cases. }
  destruct Hcut as [(r & Er & Hr)|[(h1 & h2 & Eh & -> & Hr)|(-> & ->)]].
  - destruct (crash_logging w1 r Er). split_and!; [done|by left|done].
  - destruct (crash_installing h1 h2 Eh). split_and!; [done|by right|done].
  - destruct crash_cleared. split_and!; [done|by right|done].
Qed.

(** The header keeps its size. *)
Lemma crash_head_length w1 w2 : commit_writes l V = w1 ++ w2 ->
  length (apply_writes w1 D start) = length (D start).
Proof using All.
  intros E. apply (apply_ind (fun d => length d = length (D start))); [done|].
  intros d Hd. assert (Hin : (start, d) ∈ commit_writes l V) by (rewrite E; set_solver).
  assert (Hv : V start = D start) by (apply Hclean, (log_not_home l Hfits); by apply start_in_log).
  pose proof (lf_n l Hfits) as Hn. pose proof (lf_bufs l Hfits) as Hb. unfold NBUF in Hb.
  assert (Hh : length head1 = length (D start)) by (apply length_head_image; done || lia).
  unfold commit_writes in Hin. rewrite Hv, !elem_of_app, !list_elem_of_singleton in Hin.
  destruct Hin as [Hin|[Hin|[Hin|Hin]]].
  - apply (list_elem_of_fmap_2 fst), lw_in_log in Hin as [_ ?]. done.
  - by injection Hin as ->.
  - apply (list_elem_of_fmap_2 fst) in Hin. exfalso. revert Hin. apply home_out. by apply start_in_log.
  - injection Hin as ->. by rewrite length_put32.
Qed.
End crash.

Lemma cut_last {A} (a w1 w2 : list A) (y : A) :
  a ++ [y] = w1 ++ w2 -> (exists r, a = w1 ++ r) \/ w1 = a ++ [y].
Proof.
  intros [(r & -> & _)|(k & -> & E)]%app_eq_inv; [by left; exists r|].
  destruct k as [|z [|]]; simpl in E; [|injection E as <- _|done].
  - left. exists []. by rewrite !app_nil_r.
  - by right.
Qed.

Section recovery_crash.
Context (start size : Z) (D : Z -> block).
Hypothesis Hd : disk_log start size D.
Hypothesis Hlen : (4 <= length (D start))%nat.
Abbreviation copies := (map (fun k => (head_block (D start) k, D (start + Z.of_nat k + 1)))
  (seq 0 (Z.to_nat (head_n (D start))))).

(** What recovery gives does not change when it is interrupted. *)
Definition same_recovery (D1 : Z -> block) : Prop :=
  disk_log start size D1 /\ length (D1 start) = length (D start) /\
  forall b, ~ start <= b < start + size -> recovered start D1 b = recovered start D b.

Lemma copies_out b : start <= b < start + size -> b ∉ copies.*1.
Proof using All.
  intros Hb Hin. rewrite <-list_fmap_compose in Hin.
  apply list_elem_of_fmap in Hin as (k & -> & Hk%elem_of_seq). simpl in Hb.
  revert Hb. apply Hd. lia.
Qed.

Lemma crash_copying w1 r : copies = w1 ++ r -> same_recovery (apply_writes w1 D).
Proof using All.
  intros Eh. set (D1 := apply_writes w1 D). pose proof (dl_n _ _ _ Hd) as Hn.
  assert (Hsame : forall b, start <= b < start + size -> D1 b = D b).
  { intros b Hb. apply apply_other. intros Hin. apply (copies_out b Hb).
    rewrite Eh, fmap_app. set_solver. }
  assert (Hs : D1 start = D start) by (apply Hsame; lia).
  assert (Hrw : recover_writes start D1 = recover_writes start D).
  { unfold recover_writes. rewrite Hs. f_equal. apply list_fmap_ext.
    intros i k Hk%list_elem_of_lookup_2. apply elem_of_seq in Hk.
    rewrite (Hsame (start + Z.of_nat k + 1)) by lia. done. }
  split_and!; [|by rewrite Hs|].
  - destruct Hd as [H1 H2 H3]. by split; rewrite Hs.
  - intros b Hb. unfold recovered. rewrite Hrw.
    destruct (decide (b ∈ (recover_writes start D).*1)) as [Hin|Hout]; [by apply apply_indep|].
    rewrite !apply_other by done. apply apply_other. intros Hin. apply Hout.
    unfold recover_writes. rewrite Eh, !fmap_app. set_solver.
Qed.

Lemma crash_done : same_recovery (recovered start D).
Proof using All.
  pose proof (dl_n _ _ _ Hd) as Hn.
  assert (Hs : recovered start D start = put32 (D start) 0 0).
  { unfold recovered, recover_writes. rewrite apply_app. apply apply_one. }
  assert (Hz : head_n (recovered start D start) = 0) by (rewrite Hs; by apply head_n_cleared).
  split_and!.
  - apply disk_log_empty; [done|lia].
  - by rewrite Hs, length_put32.
  - intros b Hb. apply recovered_empty; [done|]. intros ->. lia.
Qed.

Lemma crash_recovery w1 w2 :
  recover_writes start D = w1 ++ w2 -> same_recovery (apply_writes w1 D).
Proof using All.
  intros [(r & E)| ->]%cut_last; [by apply (crash_copying w1 r)|]. apply crash_done.
Qed.
End recovery_crash.

(** *** Running recovery from boot *)

Lemma idle_quiet dev s : idle dev s -> quiet dev [] (disk s) (disk s) (writes s) s.
Proof.
  intros [Hinv Hr]. exists (fun _ => None).
  assert (Hu : forall b, holder dev s b = None /\ view dev s b = disk s b)
    by (intros b; apply unused_facts; [apply Hinv|apply Hr]).
  assert (Hp : forall y, pins [] y = 0) by (intros; by apply pins_out, not_elem_of_nil).
  split; try done.
  - apply functional_extensionality. intros b. apply Hu.
  - apply functional_extensionality. intros b. by rewrite Hr, Hp.
  - apply functional_extensionality. intros b. apply Hu.
Qed.

(** Memory at boot: zeroed, apart from the disk. *)
Definition boot_lstate (D : Z -> block) : lstate :=
  LState (BState (fun _ => bss_buf) (fun _ => None) (fun _ => None) D [])
    (Log 0 0 0 false 0 0 (fun _ => 0)).

Definition boot_log (pid dev start size : Z) : M lstate unit :=
  bio binit ;; initlog pid dev start size.

Lemma binit_quiet dev D : dev <> 0 ->
  wp (bio binit) (fun _ s => lg s = lg (boot_lstate D) /\ quiet dev [] D D [] (bc s)) (boot_lstate D).
Proof.
  intros Hdev. apply wp_bio. eapply wp_mono; [apply (binit_ok dev); done|]. intros _ b (Hok & Hl & Ed & Ew & Hb).
  assert (Hidle : idle dev b).
  { split; [by split; eauto|]. intros y. unfold bref. destruct (buf_of dev b y) as [i|] eqn:E; [|done].
    apply buf_of_Some in E as [Hi _]; [|done]. by rewrite Hb. }
  pose proof (idle_quiet dev b Hidle) as Hq. rewrite Ed, Ew in Hq. done.
Qed.

Lemma initlog_spec pid dev start size D W s :
  lg s = Log 0 0 0 false 0 0 (fun _ => 0) -> quiet dev [] D D W (bc s) -> disk_log start size D ->
  wp (initlog pid dev start size) (fun _ s =>
    quiet dev [] (recovered start D) (recovered start D) (W ++ recover_writes start D) (bc s) /\
    l_start (lg s) = start /\ l_size (lg s) = size /\ l_dev (lg s) = dev /\ l_n (lg s) = 0 /\
    l_outstanding (lg s) = 0 /\ l_committing (lg s) = false) s.
Proof.
  intros El Hq Hd. unfold initlog. simpl (BSIZE <=? _). cbv iota. apply wp_bind, wp_modify. unfold set_lg. rewrite El.
  wp_last (recover_spec pid (Log start size 0 false dev 0 (fun _ => 0)) D W
    (LState (bc s) (Log start size 0 false dev 0 (fun _ => 0))) eq_refl Hd Hq).
  intros _ s' [El' Hq']. simpl in El', Hq'. fold (recovered start D) in Hq'.
  pose proof (parse_blocks_fields (Log start size 0 false dev 0 (fun _ => 0)) (D start)
    (seq 0 (Z.to_nat (head_n (D start))))) as (F1 & F2 & F3 & F4 & F5 & _).
  by rewrite El'.
Qed.

Lemma boot_log_spec pid dev start size D :
  dev <> 0 -> disk_log start size D ->
  wp (boot_log pid dev start size) (fun _ s =>
    disk (bc s) = recovered start D /\ writes (bc s) = recover_writes start D /\
    quiet dev [] (recovered start D) (recovered start D) (recover_writes start D) (bc s) /\
    l_start (lg s) = start /\ l_size (lg s) = size /\ l_dev (lg s) = dev /\ l_n (lg s) = 0 /\
    l_outstanding (lg s) = 0 /\ l_committing (lg s) = false)
    (boot_lstate D).
Proof.
  intros Hdev Hd. unfold boot_log. wp_call (binit_quiet dev D Hdev). intros _ s [El Hq].
  wp_last (initlog_spec pid dev start size D [] s El Hq Hd). intros _ s' (Hq' & H). simpl in Hq'.
  pose proof Hq' as [A Hs]. destruct Hs as [_ _ _ _ _ HD HW]. done.
Qed.

(** ** Whole transactions *)

(** Nothing is going on: the log is empty and the cache agrees with disk [D]. *)
Record committed (dev start size : Z) (D : Z -> block) (s : lstate) : Prop := {
  cm_dev : l_dev (lg s) = dev;
  cm_start : l_start (lg s) = start;
  cm_size : l_size (lg s) = size;
  cm_n : l_n (lg s) = 0;
  cm_out : l_outstanding (lg s) = 0;
  cm_com : l_committing (lg s) = false;
  cm_quiet : quiet dev [] D D (writes (bc s)) (bc s);
  cm_head : head_n (D start) = 0;
  cm_len : length (D start) = Z.to_nat BSIZE;
}.

(** The typical use the comment of [log_write] gives. *)
Definition update (pid dev : Z) (u : Z * (block -> block)) : M lstate unit :=
  let! i := bio (bread pid dev u.1) in
  bio (edit i u.2) ;;
  log_write i ;;
  bio (brelse pid i).
Definition transaction (pid dev : Z) (us : list (Z * (block -> block))) : M lstate unit :=
  begin_op ;; for_each us (update pid dev) ;; end_op pid.

Definition updated (us : list (Z * (block -> block))) (D : Z -> block) : Z -> block :=
  foldl (fun D u => upd D u.1 (u.2 (D u.1))) D us.

Definition logged_all (l : log) (bs : list Z) : log := foldl logged l bs.

Lemma logged_all_facts l bs : l_n l = 0 ->
  let l' := logged_all l bs in
  l_start l' = l_start l /\ l_size l' = l_size l /\ l_outstanding l' = l_outstanding l /\
  l_committing l' = l_committing l /\ l_dev l' = l_dev l /\
  0 <= l_n l' <= Z.of_nat (length bs) /\ (forall b, b ∈ log_blocks l' <-> b ∈ bs).
Proof.
  intros Hn. induction bs as [|b bs IH] using rev_ind; simpl.
  - split_and!; try done; [lia..|]. unfold log_blocks, indices. by rewrite Hn.
  - unfold logged_all in *. rewrite foldl_app, length_app. simpl.
    destruct IH as (F1 & F2 & F3 & F4 & F5 & F6 & F7).
    destruct (logged_fields (foldl logged l bs) b) as (G1 & G2 & G3 & G4 & G5 & G6).
    split_and!; try congruence; try lia. intros y. rewrite logged_blocks by lia.
    rewrite elem_of_app, list_elem_of_singleton. destruct (decide _) as [Hin|Hout].
    + apply F7 in Hin. rewrite F7. naive_solver.
    + by rewrite elem_of_app, list_elem_of_singleton, F7.
Qed.

Lemma logged_all_NoDup l bs : l_n l = 0 -> NoDup (log_blocks (logged_all l bs)).
Proof.
  intros Hn. induction bs as [|b bs IH] using rev_ind.
  - unfold log_blocks, indices. simpl. rewrite Hn. apply NoDup_nil_2.
  - destruct (logged_all_facts l bs Hn) as (_ & _ & _ & _ & _ & Hn' & _).
    unfold logged_all in *. rewrite foldl_app. simpl. rewrite logged_blocks by lia.
    destruct (decide _); [done|]. apply NoDup_app. split_and!; [done|set_solver|apply NoDup_singleton].
Qed.

Lemma txn_quiet pid l V D W s :
  txn pid l [] [] V D W s -> quiet (l_dev l) (log_blocks l) V D W (bc s).
Proof.
  intros [_ (A & _ & Hs) _ _ _ _]. exists A. eapply bst_ext; [exact Hs|done|..]; intros y; [|done].
  unfold pins at 2. rewrite decide_False by apply not_elem_of_nil. lia.
Qed.

(** One update, as long as the log and the cache have room. *)
Lemma update_ok pid l V D W u s :
  txn pid l [] [] V D W s -> l_n l < LOGSIZE - 1 -> l_n l < l_size l - 1 -> 1 <= l_outstanding l ->
  wp (update pid (l_dev l) u) (fun _ s' =>
    txn pid (logged l u.1) [] [] (upd V u.1 (u.2 (V u.1))) D W s') s.
Proof.
  intros Ht Hn Hs Ho. pose proof (tx_n _ _ _ _ _ _ _ _ Ht) as Hn0. unfold LOGSIZE, MAXOPBLOCKS in *.
  unfold update. wp_call (txn_bread pid l _ _ _ _ _ u.1 s Ht).
  { apply not_elem_of_nil. }
  { unfold log_blocks, indices, NBUF. rewrite length_map, length_seq. simpl. lia. }
  intros i s2 H2. wp_call (txn_edit pid l _ _ _ _ _ u.1 i u.2 s2 H2); [left|].
  intros _ s3 H3. wp_call (txn_log_write pid l _ _ [] _ _ _ u.1 i s3 H3);
    [left|unfold LOGSIZE, MAXOPBLOCKS; lia|set_solver|].
  intros _ s4 H4.
  wp_last (txn_brelse pid (logged l u.1) _ _ _ _ _ u.1 i s4 H4); [left; apply not_elem_of_nil|].
  done.
Qed.

(** ** The end of the only operation *)

(** A log that [end_op] can commit: the cache has contents [V] and the disk
    [D], which has an empty log. *)
Record closing (dev start size : Z) (D V : Z -> block) (l : log) : Prop := {
  cl_start : l_start l = start;
  cl_size : l_size l = size;
  cl_out : l_outstanding l = 1;
  cl_com : l_committing l = false;
  cl_dev : l_dev l = dev;
  cl_fits : log_fits l;
  cl_nodup : NoDup (log_blocks l);
  cl_range : forall b, b ∈ log_blocks l -> 0 <= b < 2 ^ 32;
  cl_head : head_n (D start) = 0;
  cl_len : length (D start) = Z.to_nat BSIZE;
  cl_clean : forall b, b ∉ log_blocks l -> V b = D b;
}.

Section closing.
Context (pid dev start size : Z) (D V : Z -> block) (l : log).
Hypothesis Hcl : closing dev start size D V l.

Definition txn_writes : list (Z * block) := if 0 <? l_n l then commit_writes l V else [].

Lemma end_ok W s :
  txn pid l [] [] V D W s ->
  wp (end_op pid) (fun _ s' => lg s' = lset_outstanding 0 (lset_n 0 l) /\
    quiet dev [] (apply_writes txn_writes V) (apply_writes txn_writes D) (W ++ txn_writes) (bc s')) s.
Proof using Hcl.
  intros Ht. pose proof (txn_quiet _ _ _ _ _ _ Ht) as Hq. destruct Hcl as [F1 F2 F3 F4 F5 Hf _ _ _ _ _].
  set (l3 := lset_committing true (lset_outstanding 0 l)).
  assert (Hfits : log_fits l3) by (destruct Hf; by split).
  unfold end_op. apply wp_bind, wp_modify, wp_bind, wp_gets. simpl (lg _).
  rewrite (tx_log _ _ _ _ _ _ _ _ Ht). cbn [l_committing lset_outstanding l_outstanding].
  rewrite F4, F3. simpl (1 - 1 =? 0). cbv iota. apply wp_bind, wp_modify.
  wp_call (commit_spec l3 V Hfits pid D W
    (set_lg (lset_committing true) (set_lg (fun l => lset_outstanding (l_outstanding l - 1) l) s))).
  { simpl. rewrite (tx_log _ _ _ _ _ _ _ _ Ht), F3. done. }
  { apply Ht. }
  intros _ s3 [E3 Q3]. apply wp_modify. split.
  - simpl. rewrite E3. unfold l3. destruct l; simpl in *. by subst.
  - change (l_dev l3) with (l_dev l) in Q3. rewrite F5 in Q3. exact Q3.
Qed.

(** *** Crashes *)

Definition is_home (b : Z) : Prop := ~ start <= b < start + size.

Lemma closing_range k : (k < Z.to_nat (l_n l))%nat -> 0 <= l_block l k < 2 ^ 32.
Proof using Hcl.
  intros Hk. apply (cl_range _ _ _ _ _ _ Hcl). apply list_elem_of_fmap_2, elem_of_seq. lia.
Qed.

Lemma closing_size : 0 < size /\ (4 + 4 * Z.to_nat (l_n l) <= length (D start))%nat.
Proof using Hcl.
  destruct (cl_fits _ _ _ _ _ _ Hcl) as [H1 H2 _]. rewrite (cl_len _ _ _ _ _ _ Hcl).
  pose proof (cl_size _ _ _ _ _ _ Hcl). unfold NBUF, BSIZE in *. lia.
Qed.

(** At any point of its writes, recovery finds the blocks from before the
    transaction or all its updates; after all its writes, the updates. *)
Lemma txn_cut w1 w2 : txn_writes = w1 ++ w2 ->
  let D1 := apply_writes w1 D in
  disk_log start size D1 /\ length (D1 start) = length (D start) /\
  ((forall b, is_home b -> recovered start D1 b = D b) \/
   (forall b, is_home b -> recovered start D1 b = V b)) /\
  (w2 = [] -> forall b, is_home b -> recovered start D1 b = V b).
Proof using Hcl.
  destruct closing_size as [Hsz Hl']. pose proof Hcl as [F1 F2 F3 F4 F5 Hf Hnd _ Hhd Hl Hclean].
  unfold txn_writes. destruct (Z.ltb_spec 0 (l_n l)) as [Hn|Hn]; intros E.
  - rewrite <-F1 in Hhd, Hl'.
    pose proof (crash_commit l V D Hf Hnd closing_range Hl' Hhd Hclean w1 w2 E) as Hc.
    pose proof (crash_head_length l V D Hf Hnd closing_range Hl' Hhd Hclean w1 w2 E) as Hc'.
    unfold all_old, all_new, in_log in Hc. rewrite F1, F2 in Hc. rewrite F1 in Hc'. simpl.
    destruct Hc as (C1 & C2 & C3). split_and!; try done.
  - symmetry in E. apply app_eq_nil in E as [-> ->]. simpl.
    assert (HV : forall b, V b = D b).
    { intros b. apply Hclean. unfold log_blocks, indices. replace (l_n l) with 0 by (destruct Hf; lia). apply not_elem_of_nil. }
    assert (Hr : forall b, is_home b -> recovered start D b = D b).
    { intros b Hb. apply recovered_empty; [done|]. intros ->. unfold is_home in Hb. lia. }
    split_and!; [by apply disk_log_empty|done|by left|]. intros _ b Hb. by rewrite HV, Hr.
Qed.

Lemma txn_cleared : head_n (apply_writes txn_writes D start) = 0.
Proof using Hcl.
  destruct closing_size as [Hsz Hl']. pose proof Hcl as [F1 F2 F3 F4 F5 Hf Hnd _ Hhd Hl Hclean].
  unfold txn_writes. destruct (Z.ltb_spec 0 (l_n l)) as [Hn|Hn]; [|done].
  assert (V start = D start) as Hv.
  { apply Hclean. rewrite <-F1. apply (log_not_home _ Hf). by apply start_in_log. }
  unfold commit_writes. rewrite !apply_app, F1, apply_one. apply head_n_cleared. rewrite Hv.
  rewrite length_head_image; [lia|destruct Hf; unfold NBUF in *; lia|apply closing_range|lia].
Qed.

(** The disk once [end_op] has returned. *)
Lemma txn_done b : is_home b -> apply_writes txn_writes D b = V b.
Proof using Hcl.
  intros Hb. destruct (txn_cut txn_writes []) as (_ & _ & _ & H); [by rewrite app_nil_r|].
  rewrite <-H by done. symmetry. apply recovered_empty; [apply txn_cleared|].
  intros ->. destruct closing_size. unfold is_home in *. lia.
Qed.
End closing.

Section transaction.
Context (pid dev start size : Z) (D : Z -> block) (us : list (Z * (block -> block))) (s : lstate).
Hypothesis Hcm : committed dev start size D s.
Hypothesis Hlen : Z.of_nat (length us) <= MAXOPBLOCKS.
Hypothesis Hsize : MAXOPBLOCKS + 1 < size.
Hypothesis Hus : forall u, u ∈ us -> 0 <= u.1 < 2 ^ 32 /\ ~ start <= u.1 < start + size.

Definition log1 : log := lset_outstanding 1 (lg s).

Lemma begin_ok : wp begin_op (fun _ s' => txn pid log1 [] [] D D (writes (bc s)) s') s.
Proof using All.
  destruct Hcm as [Hd Hs Hz Hn Ho Hc (A & Hq) _ _]. unfold begin_op. apply wp_bind, wp_gets.
  rewrite Hc, Ho, Hn. simpl (LOGSIZE <? _). cbv iota. apply wp_modify.
  split; simpl; try done.
  - exists A. split; [intros b i Hin; by apply not_elem_of_nil in Hin|]. rewrite Hd.
    eapply bst_ext; [exact Hq|done|..]; intros y; [|done].
    unfold log_blocks, indices. simpl. rewrite Hn. done.
  - apply NoDup_nil_2.
  - unfold log_blocks, indices. simpl. rewrite Hn. apply NoDup_nil_2.
  - lia.
Qed.

Lemma log1_n : l_n log1 = 0.
Proof using Hcm. apply Hcm. Qed.

Lemma updates_ok s1 :
  txn pid log1 [] [] D D (writes (bc s)) s1 ->
  wp (for_each us (update pid dev)) (fun _ s' =>
    txn pid (logged_all log1 us.*1) [] [] (updated us D) D (writes (bc s)) s') s1.
Proof using All.
  intros H1. apply (wp_for_each _ (fun dn _ s' =>
    txn pid (logged_all log1 dn.*1) [] [] (updated dn D) D (writes (bc s)) s')); [done|].
  intros dn u rest s' E Ht.
  destruct (logged_all_facts log1 dn.*1 log1_n) as (F1 & F2 & F3 & F4 & F5 & F6 & F7).
  set (l := logged_all log1 dn.*1) in *. change (l_size log1) with (l_size (lg s)) in F2.
  change (l_dev log1) with (l_dev (lg s)) in F5. change (l_outstanding log1) with 1 in F3.
  rewrite (cm_size _ _ _ _ _ Hcm) in F2. rewrite (cm_dev _ _ _ _ _ Hcm) in F5.
  assert (Hl : Z.of_nat (length dn) < MAXOPBLOCKS).
  { rewrite <-E, length_app in Hlen. simpl in Hlen. lia. }
  rewrite length_fmap in F6. unfold MAXOPBLOCKS in *.
  rewrite <-F5. wp_last (update_ok pid l _ _ _ u s' Ht); [unfold LOGSIZE, MAXOPBLOCKS; lia|].
  intros _ s5 H5. unfold updated, logged_all in *. rewrite fmap_app, !foldl_app. done.
Qed.

(** *** The log when [end_op] is called *)

Abbreviation log2 := (logged_all log1 us.*1).
Abbreviation V2 := (updated us D).

Lemma log2_facts :
  l_start log2 = start /\ l_size log2 = size /\ l_outstanding log2 = 1 /\ l_committing log2 = false /\
  l_dev log2 = dev /\ 0 <= l_n log2 <= MAXOPBLOCKS /\ forall b, b ∈ log_blocks log2 <-> b ∈ us.*1.
Proof using All.
  destruct (logged_all_facts log1 us.*1 log1_n) as (F1 & F2 & F3 & F4 & F5 & F6 & F7).
  destruct Hcm as [Hd Hs Hz Hn Ho Hc _ _ _]. rewrite length_fmap in F6.
  split_and!; try (etrans; [eassumption|done]); try done; lia.
Qed.

Lemma updated_other b : b ∉ us.*1 -> V2 b = D b.
Proof using Type.
  clear. revert D. induction us as [|[x f] us' IH]; intros D'; [done|].
  intros [Hx Hb]%not_elem_of_cons. unfold updated in *. simpl. rewrite IH by done. by rewrite upd_other.
Qed.

Lemma log2_closing : closing dev start size D V2 log2.
Proof using All.
  destruct log2_facts as (F1 & F2 & F3 & F4 & F5 & F6 & F7). unfold MAXOPBLOCKS in *.
  assert (Hb : forall b, b ∈ log_blocks log2 -> 0 <= b < 2 ^ 32 /\ ~ start <= b < start + size).
  { intros b Hb. apply F7 in Hb as ([b' f] & -> & Hu)%list_elem_of_fmap. by destruct (Hus _ Hu). }
  split; try done.
  - split; [lia|unfold NBUF; lia|]. intros b Hin. unfold in_log. rewrite F1, F2. by apply Hb.
  - apply logged_all_NoDup, log1_n.
  - intros b Hin. by apply Hb.
  - apply Hcm.
  - apply Hcm.
  - intros b Hni. apply updated_other. by rewrite <-F7.
Qed.
End transaction.

(** ** The theorems *)

(** Boot, with a crash at some point of the writes recovery makes. *)
Definition crash_step (pid dev start size : Z) (D D' : Z -> block) : Prop :=
  exists s w1 w2, boot_log pid dev start size (boot_lstate D) = Ret (tt, s) /\
    writes (bc s) = w1 ++ w2 /\ D' = apply_writes w1 D.

Lemma crash_steps pid dev start size D D1 D2 :
  dev <> 0 -> (4 <= length (D start))%nat -> same_recovery start size D D1 ->
  rtc (crash_step pid dev start size) D1 D2 -> same_recovery start size D D2.
Proof.
  intros Hdev Hlen0 Hsame Hr. revert Hsame. induction Hr as [|D1 D1' D2 (s & w1 & w2 & Hb & Hw & ->) _ IH]; [done|].
  intros (Hd & Hlen & Heq). apply IH.
  destruct (proj1 (wp_returns _ _ _) (boot_log_spec pid dev start size D1 Hdev Hd))
    as ([] & s' & Hb' & _ & Hw' & _). rewrite Hb in Hb'. injection Hb' as ->.
  rewrite Hw in Hw'. destruct (crash_recovery start size D1 Hd ltac:(by rewrite Hlen) w1 w2) as (H1 & H2 & H3); [done|].
  split_and!; [done|congruence|]. intros b Hb'. by rewrite H3, Heq.
Qed.

(** A boot after crashes that change nothing about recovery. *)
Lemma boot_after pid dev start size D D2 :
  dev <> 0 -> length (D start) = Z.to_nat BSIZE -> same_recovery start size D D2 ->
  exists t, boot_log pid dev start size (boot_lstate D2) = Ret (tt, t) /\
    committed dev start size (disk (bc t)) t /\
    forall b, ~ start <= b < start + size -> disk (bc t) b = recovered start D b.
Proof.
  intros Hdev Hlen (Hd & Hl & Heq). rewrite Hlen in Hl.
  destruct (proj1 (wp_returns _ _ _) (boot_log_spec pid dev start size D2 Hdev Hd))
    as ([] & t & Hb & Hdk & Hw & Hq & H1 & H2 & H3 & H4 & H5 & H6).
  exists t. split; [done|]. rewrite Hdk. split; [|done].
  assert (Hs : recovered start D2 start = put32 (D2 start) 0 0).
  { unfold recovered, recover_writes. rewrite apply_app. apply apply_one. }
  split; [done|done|done|done|done|done|by rewrite Hw|..].
  - rewrite Hs. apply head_n_cleared. rewrite Hl. unfold BSIZE. lia.
  - by rewrite Hs, length_put32.
Qed.

Lemma quiet_facts dev V D W s : quiet dev [] V D W s -> V = D /\ disk s = D /\ writes s = W.
Proof.
  intros (A & Hs). split; [|by destruct Hs]. apply functional_extensionality. intros y.
  by apply (bst_clean _ _ _ _ _ _ _ _ _ Hs).
Qed.

(** *** The size of the blocks *)

Definition sized (D : Z -> block) : Prop := forall b, length (D b) = Z.to_nat BSIZE.
Definition sized_writes (w : list (Z * block)) : Prop := Forall (fun x => length x.2 = Z.to_nat BSIZE) w.

Lemma sized_apply w D : sized D -> sized_writes w -> sized (apply_writes w D).
Proof. intros HD Hw b. apply apply_ind; [apply HD|]. intros d Hd. by eapply Forall_forall in Hd; [|exact Hw]. Qed.

Lemma length_edits (l : list (block -> block)) d :
  (forall f x, f ∈ l -> length (f x) = length x) -> length (foldl (fun d f => f d) d l) = length d.
Proof.
  revert d. induction l as [|f l IH]; intros d Hl; [done|]. simpl. rewrite IH; [apply Hl; left|].
  intros g x Hg. apply Hl. by right.
Qed.

Lemma recover_sized start D : sized D -> sized_writes (recover_writes start D).
Proof.
  intros HD. apply Forall_app. split.
  - apply List.Forall_map, Forall_forall. intros k _. apply HD.
  - constructor; [|done]. simpl. rewrite length_put32. apply HD.
Qed.

Lemma commit_sized l V : sized V -> sized_writes (commit_writes l V).
Proof.
  intros HV. assert (Hh : length (head_image l (V (l_start l))) = Z.to_nat BSIZE).
  { unfold head_image. rewrite length_edits; [apply HV|]. intros f x Hf. unfold head_edits in Hf.
    apply elem_of_cons in Hf as [->|Hf]; [apply length_put32|].
    apply list_elem_of_fmap in Hf as (k & -> & _). apply length_put32. }
  repeat (apply Forall_app; split).
  - apply List.Forall_map, Forall_forall. intros k _. apply HV.
  - by constructor.
  - apply List.Forall_map, Forall_forall. intros k _. apply HV.
  - constructor; [|done]. simpl. by rewrite length_put32.
Qed.

Lemma sized_prefix w1 w2 : sized_writes (w1 ++ w2) -> sized_writes w1.
Proof. intros H. by apply Forall_app in H as [H _]. Qed.

Lemma crash_steps_sized pid dev start size D D1 D2 :
  dev <> 0 -> (4 <= length (D start))%nat -> same_recovery start size D D1 ->
  rtc (crash_step pid dev start size) D1 D2 -> sized D1 -> sized D2.
Proof.
  intros Hdev Hlen0 Hsame Hr. revert Hsame.
  induction Hr as [|D1 D1' D2 Hstep _ IH]; [done|]. intros Hsame Hsz.
  assert (Hsame' : same_recovery start size D D1').
  { apply (crash_steps pid dev start size D D1); try done. by apply rtc_once. }
  apply IH; [done|]. destruct Hstep as (s & w1 & w2 & Hb & Hw & ->), Hsame as (Hd & _ & _).
  destruct (proj1 (wp_returns _ _ _) (boot_log_spec pid dev start size D1 Hdev Hd))
    as ([] & s' & Hb' & _ & Hw' & _). rewrite Hb in Hb'. injection Hb' as ->.
  apply sized_apply; [done|]. apply (sized_prefix w1 w2). rewrite <-Hw, Hw'. by apply recover_sized.
Qed.

(** A transaction from disk [D] to contents [V] has made the writes [w]: the
    log is empty and the disk is [V] outside the log; and after a crash at any
    point of the writes, and more crashes during recovery, the boot that
    completes finds [D] or [V] there. *)
Definition all_or_nothing (pid dev start size : Z) (D V : Z -> block) (w : list (Z * block)) (s' : lstate) : Prop :=
  committed dev start size (disk (bc s')) s' /\ disk (bc s') = apply_writes w D /\
  (forall b, ~ start <= b < start + size -> disk (bc s') b = V b) /\
  (sized D -> sized V -> sized (disk (bc s'))) /\
  forall w1 w2 D2, w = w1 ++ w2 ->
    rtc (crash_step pid dev start size) (apply_writes w1 D) D2 ->
    exists t, boot_log pid dev start size (boot_lstate D2) = Ret (tt, t) /\
      committed dev start size (disk (bc t)) t /\
      (sized D -> sized V -> sized (disk (bc t))) /\
      ((forall b, ~ start <= b < start + size -> disk (bc t) b = D b) \/
       (forall b, ~ start <= b < start + size -> disk (bc t) b = V b)).

Lemma txn_sized V l : sized V -> sized_writes (txn_writes V l).
Proof. intros HV. unfold txn_writes. destruct (0 <? l_n l); [by apply commit_sized|constructor]. Qed.

Lemma end_atomic pid dev start size D V l W s :
  dev <> 0 -> closing dev start size D V l -> txn pid l [] [] V D W s ->
  wp (end_op pid) (fun _ s' => exists w, writes (bc s') = W ++ w /\
    all_or_nothing pid dev start size D V w s') s.
Proof.
  intros Hdev Hcl Ht. eapply wp_mono; [by apply (end_ok pid dev start size D V l Hcl W s)|].
  intros [] s' [Hlg Hq]. destruct (quiet_facts _ _ _ _ _ Hq) as (EV & ED & EW). rewrite EV in Hq.
  pose proof (cl_len _ _ _ _ _ _ Hcl) as Hlen. exists (txn_writes V l). split; [done|]. split_and!.
  - rewrite ED. split; rewrite ?Hlg; [apply Hcl|apply Hcl|apply Hcl|done|done|apply Hcl|by rewrite EW|..].
    + by apply (txn_cleared dev start size).
    + destruct (txn_cut dev start size D V l Hcl (txn_writes V l) []) as (_ & -> & _); [by rewrite app_nil_r|done].
  - exact ED.
  - rewrite ED. intros b Hb. by apply (txn_done dev start size).
  - rewrite ED. intros HD HV. by apply sized_apply; [|apply txn_sized].
  - intros w1 w2 D2 Ew Hr. destruct (txn_cut dev start size D V l Hcl w1 w2 Ew) as (C1 & C2 & C3 & _).
    rewrite Hlen in C2.
    assert (Hsame : same_recovery start size (apply_writes w1 D) D2).
    { apply (crash_steps pid dev start size _ (apply_writes w1 D)); try done. rewrite C2. unfold BSIZE. lia. }
    destruct (boot_after pid dev start size _ D2 Hdev C2 Hsame) as (t & Ht' & Hct & Hb).
    exists t. split_and!; [done..| |].
    + intros HD HV. destruct Hsame as (Hd2 & Hl2 & _).
      destruct (proj1 (wp_returns _ _ _) (boot_log_spec pid dev start size D2 Hdev Hd2))
        as ([] & t' & Hb' & Hdk & _). rewrite Ht' in Hb'. injection Hb' as ->. rewrite Hdk.
      assert (Hs2 : sized D2).
      { apply (crash_steps_sized pid dev start size (apply_writes w1 D) (apply_writes w1 D)); [exact Hdev| | |exact Hr|].
        - rewrite C2. unfold BSIZE. lia.
        - by split_and!.
        - apply sized_apply; [done|]. apply (sized_prefix w1 w2). rewrite <-Ew. by apply txn_sized. }
      by apply sized_apply; [|apply recover_sized].
    + destruct C3 as [C3|C3]; [left|right]; intros b Hh; rewrite Hb by done; by apply C3.
Qed.

(** C1: a transaction of at most MAXOPBLOCKS updates returns, with its updates
    on the disk and the log empty again; and when the machine crashes at any
    point of the writes it makes, and then again and again during recovery,
    the boot that completes finds, outside the log, either the disk from
    before the transaction or all its updates, and is ready for the next
    transaction. *)
Theorem transaction_atomic (pid dev start size : Z) (D : Z -> block)
    (us : list (Z * (block -> block))) (s : lstate) :
  dev <> 0 -> committed dev start size D s ->
  Z.of_nat (length us) <= MAXOPBLOCKS -> MAXOPBLOCKS + 1 < size ->
  (forall u, u ∈ us -> 0 <= u.1 < 2 ^ 32 /\ ~ start <= u.1 < start + size) ->
  exists s' w,
    transaction pid dev us s = Ret (tt, s') /\ writes (bc s') = writes (bc s) ++ w /\
    committed dev start size (disk (bc s')) s' /\
    (forall b, ~ start <= b < start + size -> disk (bc s') b = updated us D b) /\
    forall w1 w2 D2, w = w1 ++ w2 ->
      rtc (crash_step pid dev start size) (apply_writes w1 D) D2 ->
      exists t, boot_log pid dev start size (boot_lstate D2) = Ret (tt, t) /\
        committed dev start size (disk (bc t)) t /\
        ((forall b, ~ start <= b < start + size -> disk (bc t) b = D b) \/
         (forall b, ~ start <= b < start + size -> disk (bc t) b = updated us D b)).
Proof.
  intros Hdev Hcm Hlen Hsize Hus.
  assert (Hrun : wp (transaction pid dev us) (fun _ s' => exists w, writes (bc s') = writes (bc s) ++ w /\
    all_or_nothing pid dev start size D (updated us D) w s') s).
  { unfold transaction. wp_call (begin_ok pid dev start size D us s Hcm Hlen Hsize Hus).
    intros _ s1 H1. wp_call (updates_ok pid dev start size D us s Hcm Hlen Hsize Hus s1 H1).
    intros _ s2 H2. by eapply end_atomic; [done|eapply log2_closing|]. }
  destruct (proj1 (wp_returns _ _ _) Hrun) as ([] & s' & Hret & w & Hw & Hc & _ & Hd & _ & Hcr).
  exists s', w. split_and!; try done. intros w1 w2 D2 Ew Hr.
  destruct (Hcr w1 w2 D2 Ew Hr) as (t & Ht & Hct & _ & Hb). exists t. exact (conj Ht (conj Hct Hb)).
Qed.

(** An empty file system with its log at blocks 2 to 31. *)
Definition empty_disk : Z -> block := fun _ => repeat 0 (Z.to_nat BSIZE).

Lemma empty_head : head_n (empty_disk 2) = 0.
Proof. by vm_compute. Qed.

Lemma empty_boot : exists s, boot_log 1 1 2 LOGSIZE (boot_lstate empty_disk) = Ret (tt, s) /\
  committed 1 2 LOGSIZE (disk (bc s)) s /\
  forall b, ~ 2 <= b < 2 + LOGSIZE -> disk (bc s) b = empty_disk b.
Proof.
  destruct (boot_after 1 1 2 LOGSIZE empty_disk empty_disk) as (t & Ht & Hc & Hd).
  - lia.
  - apply repeat_length.
  - split; [|split; [reflexivity|intros; reflexivity]].
    apply disk_log_empty; [apply empty_head|unfold LOGSIZE, MAXOPBLOCKS; lia].
  - exists t. split; [exact Ht|]. split; [exact Hc|]. intros b Hb. rewrite Hd by exact Hb.
    apply recovered_empty; [apply empty_head|]. unfold LOGSIZE, MAXOPBLOCKS in Hb. lia.
Qed.

Lemma transaction_atomic_witness :
  exists s s', boot_log 1 1 2 LOGSIZE (boot_lstate empty_disk) = Ret (tt, s) /\
    transaction 5 1 [(40, fun d => put32 d 0 7)] s = Ret (tt, s') /\
    get32 (disk (bc s') 40) 0 = 7.
Proof.
  destruct empty_boot as (s & Hs & Hc & He). exists s.
  destruct (transaction_atomic 5 1 2 LOGSIZE (disk (bc s)) [(40, fun d => put32 d 0 7)] s)
    as (s' & w & Ht & _ & _ & Hd & _).
  - lia.
  - exact Hc.
  - simpl. unfold MAXOPBLOCKS. lia.
  - unfold LOGSIZE, MAXOPBLOCKS. lia.
  - intros u Hu. apply list_elem_of_singleton in Hu. subst u. cbn [fst].
    unfold LOGSIZE, MAXOPBLOCKS. lia.
  - exists s'. split; [exact Hs|]. split; [exact Ht|]. rewrite Hd by (unfold LOGSIZE, MAXOPBLOCKS; lia).
    unfold updated. cbn [foldl fst snd]. rewrite upd_same. apply get32_put32; [|lia].
    rewrite He by (unfold LOGSIZE, MAXOPBLOCKS; lia). unfold empty_disk. rewrite repeat_length. unfold BSIZE. lia.
Defined.

(** ** The reservation of [begin_op] *)

(** Updates by several processes. *)
Definition updates (dev : Z) (us : list (Z * (Z * (block -> block)))) : M lstate unit :=
  for_each us (fun x => update x.1 dev x.2).

Lemma txn_pid pid pid' l V D W s : txn pid l [] [] V D W s -> txn pid' l [] [] V D W s.
Proof. by intros [H1 H2 H3 H4 H5 H6]. Qed.

Lemma for_each_app {S A} (l1 l2 : list A) (f : A -> M S unit) s :
  for_each (l1 ++ l2) f s = (for_each l1 f ;; for_each l2 f) s.
Proof.
  revert s. induction l1 as [|x l1 IH]; intros s; simpl; [done|].
  unfold bind in *. destruct (f x s) as [[[] s']| | |]; [|done..]. apply IH.
Qed.

Lemma wp_panic {S A B} (m : M S A) (k : A -> M S B) (Q : A -> S -> Prop) msg s :
  wp m Q s -> (forall a s', Q a s' -> k a s' = Panic msg) -> bind m k s = Panic msg.
Proof. unfold wp, bind. destruct (m s) as [[a s']| | |]; [|done..]. auto. Qed.

Lemma updates_run l V D W us s :
  txn 0 l [] [] V D W s -> l_n l = 0 -> 1 <= l_outstanding l ->
  Z.of_nat (length us) < LOGSIZE -> Z.of_nat (length us) < l_size l ->
  wp (updates (l_dev l) us) (fun _ s' => exists V',
    txn 0 (logged_all l us.*2.*1) [] [] V' D W s') s.
Proof.
  intros Ht Hn Ho H1 H2. apply (wp_for_each _ (fun dn _ s' => exists V',
    txn 0 (logged_all l dn.*2.*1) [] [] V' D W s')); [by exists V|].
  intros dn [pid u] rest s' E (V' & Ht').
  destruct (logged_all_facts l dn.*2.*1 Hn) as (F1 & F2 & F3 & F4 & F5 & F6 & F7).
  rewrite !length_fmap in F6. rewrite <-E, length_app in H1, H2. simpl in H1, H2. cbn [fst snd].
  rewrite <-F5. wp_last (update_ok pid _ V' D W u s' (txn_pid _ pid _ _ _ _ _ Ht')).
  intros _ s'' H. exists (upd V' u.1 (u.2 (V' u.1))). apply (txn_pid pid).
  rewrite !fmap_app. unfold logged_all. by rewrite foldl_app.
Qed.

Lemma logged_all_n l bs : l_n l = 0 -> NoDup bs -> l_n (logged_all l bs) = Z.of_nat (length bs).
Proof.
  intros Hn Hnd. destruct (logged_all_facts l bs Hn) as (_ & _ & _ & _ & _ & F6 & F7).
  pose proof (logged_all_NoDup l bs Hn) as Hnd'.
  assert (Hp : log_blocks (logged_all l bs) ≡ₚ bs) by (by apply NoDup_Permutation).
  apply Permutation_length in Hp. unfold log_blocks, indices in Hp. rewrite length_map, length_seq in Hp. lia.
Qed.

Lemma update_full pid l V D W u s :
  txn pid l [] [] V D W s -> l_n l = LOGSIZE - 1 -> l_size l = LOGSIZE ->
  update pid (l_dev l) u s = Panic "too big a transaction".
Proof.
  intros Ht Hn Hs. unfold update. eapply wp_panic; [apply (txn_bread pid l _ _ _ _ _ u.1 s Ht)|].
  { apply not_elem_of_nil. }
  { unfold log_blocks, indices, NBUF. rewrite length_map, length_seq. simpl.
    unfold LOGSIZE, MAXOPBLOCKS in *. lia. }
  cbv beta. intros i s2 H2. eapply wp_panic; [apply (txn_edit pid l _ _ _ _ _ u.1 i u.2 s2 H2); left|].
  cbv beta. intros _ s3 H3. apply bind_panic_eq. unfold log_write, bind, gets.
  rewrite (tx_log _ _ _ _ _ _ _ _ H3), Hn, Hs. by rewrite orb_comm.
Qed.

(** C18: [begin_op] lets three operations run at once, reserving MAXOPBLOCKS
    blocks of the log for each, but on a disk whose log has the LOGSIZE blocks
    that mkfs gives it, [log_write] takes one block less: when the three write
    ten different blocks each, the kernel panics. *)
Theorem reserved_log_overflows (dev start : Z) (D : Z -> block)
    (us : list (Z * (Z * (block -> block)))) (s : lstate) :
  committed dev start LOGSIZE D s ->
  length us = Z.to_nat (3 * MAXOPBLOCKS) -> NoDup us.*2.*1 ->
  (begin_op ;; begin_op ;; begin_op ;; updates dev us) s = Panic "too big a transaction".
Proof.
  intros Hcm Hlen Hnd. pose proof Hcm as [Hd Hst Hz Hn Ho Hc (A & Hq) _ _].
  set (l := lset_outstanding 3 (lg s)). set (s3 := LState (bc s) l).
  assert (Hrun : (begin_op ;; begin_op ;; begin_op ;; updates dev us) s = updates dev us s3).
  { unfold begin_op, bind, gets, modify, set_lg. rewrite Hc, Hn, Ho. simpl. rewrite Hc, Hn. simpl.
    by rewrite Hc, Hn. }
  rewrite Hrun. assert (Ht : txn 0 l [] [] D D (writes (bc s)) s3).
  { split; try done; simpl; try (apply NoDup_nil_2).
    - exists A. split; [intros b i Hin; by apply not_elem_of_nil in Hin|]. rewrite Hd.
      eapply bst_ext; [exact Hq|done|..]; intros y; [|done].
      unfold log_blocks, indices. simpl. by rewrite Hn.
    - unfold log_blocks, indices. simpl. rewrite Hn. apply NoDup_nil_2.
    - lia. }
  destruct us as [|u us] using rev_ind; [done|]. clear IHus.
  rewrite length_app in Hlen. simpl in Hlen. rewrite !fmap_app in Hnd. apply NoDup_app in Hnd as (Hnd & _ & _).
  unfold updates. rewrite for_each_app. rewrite <-Hd.
  eapply wp_panic; [apply (updates_run l D D (writes (bc s)) us s3 Ht)|].
  - done.
  - simpl. lia.
  - unfold LOGSIZE, MAXOPBLOCKS in *. lia.
  - simpl. rewrite Hz. unfold LOGSIZE, MAXOPBLOCKS in *. lia.
  - intros _ s4 (V' & H4). destruct u as [pid u]. simpl. apply bind_panic_eq.
    destruct (logged_all_facts l us.*2.*1 Hn) as (F1 & F2 & F3 & F4 & F5 & F6 & F7).
    change (l_dev (lg s)) with (l_dev l). rewrite <-F5.
    eapply update_full; [apply (txn_pid 0 pid), H4| |by rewrite F2].
    rewrite logged_all_n by done. rewrite !length_fmap. unfold LOGSIZE, MAXOPBLOCKS in *. lia.
Qed.

Definition thirty_updates : list (Z * (Z * (block -> block))) :=
  map (fun k => (Z.of_nat k / 10, (40 + Z.of_nat k, fun d => put32 d 0 7))) (seq 0 30).

Lemma reserved_log_overflows_witness :
  exists s, boot_log 1 1 2 LOGSIZE (boot_lstate empty_disk) = Ret (tt, s) /\
    (begin_op ;; begin_op ;; begin_op ;; updates 1 thirty_updates) s = Panic "too big a transaction".
Proof.
  destruct empty_boot as (s & Hs & Hc & _). exists s. split; [exact Hs|].
  apply (reserved_log_overflows 1 2 (disk (bc s)) thirty_updates s Hc).
  - reflexivity.
  - apply (bool_decide_unpack _). vm_compute. exact I.
Defined.
