(* ===== verification/Pipe.v ===== *)
(** * kernel/pipe.c: pipes

    The ring buffer of a pipe and its two loops.  [pi->lock] is held except
    while a caller sleeps, so a call is a sequence of atomic segments: a
    segment ends when the call returns or sleeps, and a caller that wakes up
    goes on with a new segment ([pipewrite] from the index it has reached,
    [piperead] from the test of its first loop). *)

From S2P Require Import Prelude.

Definition PIPESIZE : Z := 512.

(** struct pipe. *)
Record pipe := Pipe {
  p_data : Z -> Z;
  p_nread : Z;
  p_nwrite : Z;
  p_readopen : bool;
  p_writeopen : bool;
}.

Definition set_readopen (b : bool) (p : pipe) : pipe :=
  Pipe (p_data p) (p_nread p) (p_nwrite p) b (p_writeopen p).
Definition set_writeopen (b : bool) (p : pipe) : pipe :=
  Pipe (p_data p) (p_nread p) (p_nwrite p) (p_readopen p) b.
(** [pi->data[pi->nwrite++ % PIPESIZE] = ch] *)
Definition push (ch : Z) (p : pipe) : pipe :=
  Pipe (upd (p_data p) (p_nwrite p mod PIPESIZE) ch) (p_nread p) (u32 (p_nwrite p + 1))
    (p_readopen p) (p_writeopen p).
(** [pi->nread++] *)
Definition bump_nread (p : pipe) : pipe :=
  Pipe (p_data p) (u32 (p_nread p + 1)) (p_nwrite p) (p_readopen p) (p_writeopen p).

(** What pipealloc stores in the page it got. *)
Definition pipe_init (page : Z -> Z) : pipe := Pipe page 0 0 true true.

Definition pipe_empty (p : pipe) : bool := p_nread p =? p_nwrite p.
Definition pipe_full (p : pipe) : bool := p_nwrite p =? u32 (p_nread p + PIPESIZE).

(** The addresses processes sleep on. *)
Inductive pchan := Pnread | Pnwrite.

(** What the loops use of the rest of the kernel, for the calling process:
    one byte from and to its memory, its killed flag, and wakeup. *)
Class PipeEnv (S : Type) := {
  copyin1 : Z -> M S (option Z);
  copyout1 : Z -> Z -> M S bool;
  killed1 : M S bool;
  wakeup1 : pchan -> M S unit;
}.

Section pipe.
Context {S : Type} `{E : PipeEnv S}.
Abbreviation PS := (pipe * S)%type.

Definition env {A} (m : M S A) : M PS A := zoom snd (fun s x => (fst x, s)) m.
Definition getp : M PS pipe := gets fst.
Definition modp (f : pipe -> pipe) : M PS unit := modify (fun x => (f (fst x), snd x)).

(** How a segment of [pipewrite] ends: a return value, or asleep on nwrite
    with [i] bytes written. *)
Inductive wend := WRet (r : Z) | WSleep (i : Z).
Inductive rend := RRet (r : Z) | RSleep.

(** One turn of the loop writes a byte or ends the segment. *)
Fixpoint write_loop (addr n : Z) (left : nat) (i : Z) : M PS wend :=
  if negb (i <? n) then env (wakeup1 Pnread) ;; ret (WRet i)
  else
    match left with
    | O => out_of_fuel
    | Datatypes.S left' =>
        let! p := getp in
        let! stop := (if negb (p_readopen p) then ret true else env killed1) in
        if stop then ret (WRet (-1))
        else if pipe_full p then env (wakeup1 Pnread) ;; ret (WSleep i)
        else
          let! c := env (copyin1 (u64 (addr + i))) in
          match c with
          | None => env (wakeup1 Pnread) ;; ret (WRet i)
          | Some ch => modp (push ch) ;; write_loop addr n left' (i + 1)
          end
    end.

Definition pipewrite (addr n i : Z) : M PS wend := write_loop addr n (Z.to_nat (n - i)) i.

Fixpoint read_loop (addr n : Z) (left : nat) (i : Z) : M PS Z :=
  match left with
  | O => ret i
  | Datatypes.S left' =>
      let! p := getp in
      if pipe_empty p then ret i
      else
        modp bump_nread ;;
        let! ok := env (copyout1 (u64 (addr + i)) (p_data p (p_nread p mod PIPESIZE))) in
        if negb ok then ret i else read_loop addr n left' (i + 1)
  end.

Definition piperead (addr n : Z) : M PS rend :=
  let! p := getp in
  if pipe_empty p && p_writeopen p then
    let! k := env killed1 in
    if k then ret (RRet (-1)) else ret RSleep
  else
    let! i := read_loop addr n (Z.to_nat n) 0 in
    env (wakeup1 Pnwrite) ;;
    ret (RRet i).

(** [pipeclose]; the result says whether the pipe is given back to kfree. *)
Definition pipeclose (writable : bool) : M PS bool :=
  (if writable then modp (set_writeopen false) ;; env (wakeup1 Pnread)
   else modp (set_readopen false) ;; env (wakeup1 Pnwrite)) ;;
  let! p := getp in
  ret (negb (p_readopen p) && negb (p_writeopen p)).
End pipe.

(** ** The ring buffer as a queue *)

(** The pipe holds the bytes [q], oldest first. *)
Record holds (p : pipe) (q : list Z) : Prop := {
  h_len : Z.of_nat (length q) <= PIPESIZE;
  h_nread : 0 <= p_nread p < 2 ^ 32;
  h_nwrite : p_nwrite p = u32 (p_nread p + Z.of_nat (length q));
  h_data : forall k c, q !! k = Some c -> p_data p ((p_nread p + Z.of_nat k) mod PIPESIZE) = c;
}.

Lemma u32_mod_pipesize x : u32 x mod PIPESIZE = x mod PIPESIZE.
Proof. unfold u32, PIPESIZE. lia. Qed.

Lemma holds_empty p q : holds p q -> pipe_empty p = true <-> q = [].
Proof.
  intros [H1 H2 H3 _]. unfold pipe_empty. rewrite H3, Z.eqb_eq. unfold PIPESIZE, u32 in *. split.
  - intros E. destruct q as [|c q]; [done|]. simpl in *. lia.
  - intros ->. simpl. rewrite Z.add_0_r, Z.mod_small by lia. done.
Qed.

Lemma holds_full p q : holds p q -> pipe_full p = true <-> Z.of_nat (length q) = PIPESIZE.
Proof.
  intros [H1 H2 H3 _]. unfold pipe_full. rewrite H3, Z.eqb_eq. unfold PIPESIZE, u32 in *. lia.
Qed.

Lemma holds_push ch p q : holds p q -> pipe_full p = false -> holds (push ch p) (q ++ [ch]).
Proof.
  intros Hh Hf. assert (Hl : Z.of_nat (length q) <> PIPESIZE).
  { intros E. by rewrite (proj2 (holds_full p q Hh) E) in Hf. }
  destruct Hh as [H1 H2 H3 H4]. split; simpl; rewrite ?length_app; simpl.
  - lia.
  - done.
  - rewrite H3. unfold u32. lia.
  - intros k c Hk. rewrite H3, u32_mod_pipesize. apply lookup_app_Some in Hk as [Hk|[Hge Hk]].
    + rewrite upd_other; [by apply H4|]. apply lookup_lt_Some in Hk. unfold PIPESIZE in *. lia.
    + apply list_lookup_singleton_Some in Hk as [E ->].
      replace (Z.of_nat k) with (Z.of_nat (length q)) by lia. apply upd_same.
Qed.

Lemma holds_head p c q : holds p (c :: q) ->
  p_data p (p_nread p mod PIPESIZE) = c /\ holds (bump_nread p) q.
Proof.
  intros [H1 H2 H3 H4]. simpl in H1. split.
  - rewrite <-(H4 0%nat c) by done. by rewrite Z.add_0_r.
  - split; simpl.
    + lia.
    + apply u32_range.
    + rewrite H3. simpl. unfold u32. lia.
    + intros k x Hk. rewrite <-(H4 (S k) x) by done. f_equal. unfold u32, PIPESIZE. lia.
Qed.

Lemma holds_init page : holds (pipe_init page) [].
Proof. split; simpl; try done; unfold PIPESIZE; lia. Qed.

(** Opening and closing do not touch the bytes. *)
Lemma holds_readopen b p q : holds p q -> holds (set_readopen b p) q.
Proof. by intros [H1 H2 H3 H4]. Qed.
Lemma holds_writeopen b p q : holds p q -> holds (set_writeopen b p) q.
Proof. by intros [H1 H2 H3 H4]. Qed.

(** ** What the segments do *)

(** What the pipe relies on: the bytes of the caller's memory ([None] where
    copyin fails) are what copyin returns and what copyout changes; a copyout
    that returns changes no other byte, and it succeeds where the memory can be
    written; the killed flag can change at any time. *)
Class PipeEnvOk (S : Type) {E : PipeEnv S} := {
  umem : S -> Z -> option Z;
  can_write : S -> Z -> Prop;
  copyin1_ok : forall a s, copyin1 a s = Ret (umem s a, s);
  copyout1_ok : forall a c s, can_write s a ->
    wp (copyout1 a c) (fun ok s' => ok = true /\ umem s' a = Some c /\
      (forall b v, b <> a -> umem s b = Some v -> umem s' b = Some v) /\
      (forall b, can_write s b -> can_write s' b)) s;
  copyout1_frame : forall a c s, wlp (copyout1 a c) (fun ok s' => (ok = true -> umem s' a = Some c) /\
    forall b v, b <> a -> umem s b = Some v -> umem s' b = Some v) s;
  killed1_ok : forall s, wp killed1 (fun _ s' => umem s' = umem s) s;
  wakeup1_ok : forall c s, wp (wakeup1 c) (fun _ s' => umem s' = umem s) s;
}.

Section specs.
Context {S : Type} {E : PipeEnv S} {EO : PipeEnvOk S}.

Lemma wp_env {A} (m : M S A) (Q : A -> pipe * S -> Prop) p s :
  wp m (fun a s' => Q a (p, s')) s -> wp (env m) Q (p, s).
Proof. apply (wp_zoom snd (fun s x => (fst x, s)) m Q (p, s)). Qed.

(** The bytes at [a] of the caller's memory. *)
Definition user_bytes (s : S) (a : Z) (bs : list Z) : Prop :=
  forall k c, bs !! k = Some c -> umem s (u64 (a + Z.of_nat k)) = Some c.

Lemma user_bytes_nil s a : user_bytes s a [].
Proof. by intros k c. Qed.

Lemma wp_wake_ret {A} c (r : A) (Q : A -> pipe * S -> Prop) p s :
  (forall s', umem s' = umem s -> Q r (p, s')) -> wp (env (wakeup1 c) ;; ret r) Q (p, s).
Proof using EO.
  intros HQ. apply wp_bind, wp_env. eapply wp_mono; [apply wakeup1_ok|]. intros [] s' Hs'.
  by apply wp_ret, HQ.
Qed.

(** The test at the top of the loop of [pipewrite]. *)
Lemma wp_stop p s :
  wp (if negb (p_readopen p) then ret true else env killed1) (fun b x =>
    exists s', x = (p, s') /\ umem s' = umem s /\ (b = false -> p_readopen p = true)) (p, s).
Proof using EO.
  destruct (p_readopen p) eqn:Er; simpl; [|by apply wp_ret; exists s].
  apply wp_env. eapply wp_mono; [apply killed1_ok|]. intros b s' Hs'. by exists s'.
Qed.

(** A segment of [pipewrite] appends bytes of the caller's memory, in order.
    It returns the number of bytes written, or -1; it sleeps only when the pipe
    is full and open for reading. *)
Lemma write_loop_spec addr n left i p s q :
  holds p q -> 0 <= i <= n -> left = Z.to_nat (n - i) ->
  wp (write_loop addr n left i) (fun r x => exists bs,
    holds (fst x) (q ++ bs) /\ user_bytes s (addr + i) bs /\ p_nread (fst x) = p_nread p /\
    p_readopen (fst x) = p_readopen p /\ p_writeopen (fst x) = p_writeopen p /\
    match r with
    | WRet r => r = -1 \/ (r = i + Z.of_nat (length bs) /\ (r = n \/ umem s (u64 (addr + r)) = None))
    | WSleep j => j = i + Z.of_nat (length bs) /\ j < n /\
        Z.of_nat (length (q ++ bs)) = PIPESIZE /\ p_readopen p = true
    end) (p, s).
Proof using EO.
  revert i p s q. induction left as [|left IH]; intros i p s q Hh Hi Hl; simpl.
  - rewrite (proj2 (Z.ltb_ge i n)) by lia. apply wp_wake_ret. intros s' _. exists []. rewrite app_nil_r.
    split_and!; try done. right. split; [simpl; lia|]. left. lia.
  - rewrite (proj2 (Z.ltb_lt i n)) by lia. simpl. apply wp_bind, wp_gets, wp_bind.
    eapply wp_mono; [apply wp_stop|]. cbv beta. intros stop x (s1 & -> & Em & Hro). destruct stop.
    { apply wp_ret. exists []. rewrite app_nil_r. split_and!; try done. by left. }
    specialize (Hro eq_refl). simpl. destruct (pipe_full p) eqn:Ef.
    { apply wp_wake_ret. intros s' _. exists []. rewrite app_nil_r. split_and!; try done; try (simpl; lia).
      by apply (holds_full p). }
    apply wp_bind, wp_env. unfold wp. rewrite copyin1_ok, Em.
    destruct (umem s (u64 (addr + i))) as [ch|] eqn:Ec.
    2: { apply wp_wake_ret. intros s' _. exists []. rewrite app_nil_r. split_and!; try done.
      right. split; [simpl; lia|]. by right. }
    apply wp_bind, wp_modify. simpl.
    eapply wp_mono; [apply (IH (i + 1) (push ch p) s1 (q ++ [ch])); [by apply holds_push|lia|lia]|].
    intros r x (bs & H1 & H2 & Hnr & H3 & H4 & H5). exists (ch :: bs). rewrite <-app_assoc in H1, H5.
    unfold user_bytes in H2. rewrite Em in H2, H5. split_and!; try done.
    + intros [|k] c Hk; simpl in Hk; [injection Hk as <-; by rewrite Z.add_0_r|].
      replace (addr + i + Z.of_nat (Datatypes.S k)) with (addr + (i + 1) + Z.of_nat k) by lia. by apply H2.
    + replace (i + Z.of_nat (length (ch :: bs))) with (i + 1 + Z.of_nat (length bs)) by (simpl length; lia).
      done.
Qed.

(** [piperead] takes bytes off the front of the queue, in order, into the
    caller's memory. *)
Lemma read_loop_spec addr n left i p s q :
  holds p q -> 0 <= i <= n -> n < 2 ^ 31 -> left = Z.to_nat (n - i) ->
  (forall k, i <= k < n -> can_write s (u64 (addr + k))) ->
  wp (read_loop addr n left i) (fun r x => exists bs rest,
    q = bs ++ rest /\ holds (fst x) rest /\ user_bytes (snd x) (addr + i) bs /\
    r = i + Z.of_nat (length bs) /\ (r = n \/ rest = []) /\
    p_readopen (fst x) = p_readopen p /\ p_writeopen (fst x) = p_writeopen p /\
    forall b v, (forall k, i <= k < n -> b <> u64 (addr + k)) -> umem s b = Some v -> umem (snd x) b = Some v)
    (p, s).
Proof using EO.
  revert i p s q. induction left as [|left IH]; intros i p s q Hh Hi Hn Hl Hw; simpl.
  { apply wp_ret. exists [], q. simpl. split_and!; try done; [lia|left; lia]. }
  apply wp_bind, wp_gets. simpl. destruct (pipe_empty p) eqn:Ee.
  { apply wp_ret. exists [], q. simpl. split_and!; try done; [lia|right]. by apply (holds_empty p). }
  destruct q as [|c q]; [by rewrite (proj2 (holds_empty p [] Hh)) in Ee|].
  destruct (holds_head _ _ _ Hh) as [Hc Hh']. apply wp_bind, wp_modify. simpl. rewrite Hc.
  apply wp_bind, wp_env. eapply wp_mono; [apply copyout1_ok, Hw; lia|].
  cbv beta. intros ok s1 (-> & Ha & Hb & Hcw). simpl.
  eapply wp_mono; [apply (IH (i + 1) (bump_nread p) s1 q); try done; try lia; intros; apply Hcw, Hw; lia|].
  intros r x (bs & rest & -> & H1 & H2 & -> & H3 & H4 & H5 & H6). exists (c :: bs), rest.
  split_and!; try done; [|simpl length; lia|].
  - intros [|k] c' Hk; simpl in Hk.
    + injection Hk as <-. rewrite Z.add_0_r. apply H6; [|done]. intros k Hk. unfold u64. lia.
    + replace (addr + i + Z.of_nat (Datatypes.S k)) with (addr + (i + 1) + Z.of_nat k) by lia. by apply H2.
  - intros b v Hne Hv. apply H6; [intros k Hk; apply Hne; lia|]. apply Hb; [apply Hne; lia|done].
Qed.

(** The same for any memory: the byte of a copy that fails is gone. *)
Lemma read_loop_takes addr n left i p s q :
  holds p q -> 0 <= i <= n -> n < 2 ^ 31 -> left = Z.to_nat (n - i) ->
  wlp (read_loop addr n left i) (fun r x => exists bs lost rest,
    q = bs ++ lost ++ rest /\ holds (fst x) rest /\ user_bytes (snd x) (addr + i) bs /\
    r = i + Z.of_nat (length bs) /\ (length lost <= 1)%nat /\
    p_nread (fst x) = u32 (p_nread p + Z.of_nat (length (bs ++ lost))) /\
    forall b v, (forall k, i <= k < n -> b <> u64 (addr + k)) -> umem s b = Some v -> umem (snd x) b = Some v)
    (p, s).
Proof using EO.
  assert (Hnr : forall p q, holds p q -> p_nread p = u32 (p_nread p + Z.of_nat (length ([] ++ [] : list Z)))).
  { intros p0 q0 [_ H _ _]. simpl. by rewrite Z.add_0_r, u32_id. }
  revert i p s q. induction left as [|left IH]; intros i p s q Hh Hi Hn Hl; simpl.
  { apply wlp_ret. exists [], [], q. split_and!; try done; [simpl; lia|simpl; lia|by eapply Hnr]. }
  apply wlp_bind, wlp_gets. simpl. destruct (pipe_empty p) eqn:Ee.
  { apply wlp_ret. exists [], [], q. split_and!; try done; [simpl; lia|simpl; lia|by eapply Hnr]. }
  destruct q as [|c q]; [by rewrite (proj2 (holds_empty p [] Hh)) in Ee|].
  destruct (holds_head _ _ _ Hh) as [Hc Hh']. apply wlp_bind, wlp_modify. simpl. rewrite Hc.
  apply wlp_bind, wlp_zoom. simpl. eapply wlp_mono; [apply copyout1_frame|].
  cbv beta. intros ok s1 (Ha & Hb). destruct ok; simpl.
  2: { apply wlp_ret. exists [], [c], q. split_and!; try done; [simpl; lia|].
       intros b v Hne Hv. apply Hb; [apply Hne; lia|done]. }
  eapply wlp_mono; [apply (IH (i + 1) (bump_nread p) s1 q); (done || lia)|].
  intros r x (bs & lost & rest & -> & H1 & H2 & -> & H3 & H4 & H6). exists (c :: bs), lost, rest.
  split_and!; try done; [|simpl length; lia| |].
  - intros [|k] c' Hk; simpl in Hk.
    + injection Hk as <-. rewrite Z.add_0_r. apply H6; [|by apply Ha]. intros k Hk. unfold u64. lia.
    + replace (addr + i + Z.of_nat (Datatypes.S k)) with (addr + (i + 1) + Z.of_nat k) by lia. by apply H2.
  - rewrite H4. simpl. unfold u32. lia.
  - intros b v Hne Hv. apply H6; [intros k Hk; apply Hne; lia|]. apply Hb; [apply Hne; lia|done].
Qed.
Lemma piperead_takes addr n p s q r p' s' :
  holds p q -> 0 <= n < 2 ^ 31 -> piperead addr n (p, s) = Ret (RRet r, (p', s')) ->
  exists bs lost rest, q = bs ++ lost ++ rest /\ holds p' rest /\ user_bytes s' addr bs /\
    Z.max 0 r = Z.of_nat (length bs) /\ (length lost <= 1)%nat /\
    u32 (p_nread p' - p_nread p) = Z.of_nat (length (bs ++ lost)).
Proof using EO.
  intros Hh Hn. unfold piperead. unfold bind at 1, getp, gets. cbn [fst].
  assert (Hcount : forall t, Z.of_nat (length t) <= PIPESIZE -> u32 (u32 (p_nread p + Z.of_nat (length (t : list Z))) - p_nread p) = Z.of_nat (length t)).
  { intros t Ht. destruct Hh as [_ H _ _]. unfold u32, PIPESIZE in *. lia. }
  destruct (pipe_empty p && p_writeopen p) eqn:Ee.
  - unfold bind, env, zoom. cbn [snd]. pose proof (killed1_ok s) as Hk. unfold wp in Hk.
    destruct (killed1 s) as [[[] s1]| | |]; try done. intros [= <- <- <-]. exists [], [], q. simpl.
    split_and!; try done; [lia|by rewrite Z.sub_diag].
  - unfold bind at 1. destruct (read_loop addr n (Z.to_nat n) 0 (p, s)) as [[i [p1 s1]]| | |] eqn:Er; try done.
    pose proof (read_loop_takes addr n (Z.to_nat n) 0 p s q Hh ltac:(lia) ltac:(lia) ltac:(f_equal; lia) _ _ Er)
      as (bs & lost & rest & -> & H1 & H2 & -> & H3 & H4 & _). simpl in *.
    unfold bind, env, zoom. cbn [snd fst]. pose proof (wakeup1_ok Pnwrite s1) as Hk. unfold wp in Hk.
    destruct (wakeup1 Pnwrite s1) as [[[] s2]| | |]; try done. intros [= <- <- <-]. exists bs, lost, rest.
    split_and!; try done; [|lia|].
    + intros k c Hk'. rewrite Hk, <-(Z.add_0_r addr). by apply H2.
    + rewrite H4. apply Hcount. destruct Hh as [Hl _ _ _]. rewrite !length_app in *. lia.
Qed.

Lemma piperead_spec addr n p s q :
  holds p q -> 0 <= n < 2 ^ 31 -> (forall k, 0 <= k < n -> can_write s (u64 (addr + k))) ->
  wp (piperead addr n) (fun r x =>
    p_readopen (fst x) = p_readopen p /\ p_writeopen (fst x) = p_writeopen p /\
    match r with
    | RSleep => q = [] /\ holds (fst x) q /\ p_writeopen p = true
    | RRet r => exists bs rest, q = bs ++ rest /\ holds (fst x) rest /\ user_bytes (snd x) addr bs /\
        ((r = -1 /\ bs = []) \/
         (r = Z.of_nat (length bs) /\ (r = n \/ rest = []) /\ (q = [] -> p_writeopen p = false)))
    end) (p, s).
Proof using EO.
  intros Hh Hn Hw. unfold piperead. apply wp_bind, wp_gets. simpl.
  destruct (pipe_empty p && p_writeopen p) eqn:Ee.
  - apply andb_true_iff in Ee as [Ee Ew]. apply (holds_empty p q Hh) in Ee as ->.
    apply wp_bind, wp_env. eapply wp_mono; [apply killed1_ok|]. intros k s' _.
    destruct k; apply wp_ret; split_and!; try done. exists [], []. split_and!; try done. by left.
  - apply wp_bind. eapply wp_mono; [apply (read_loop_spec addr n _ 0 p s q); try done; try lia|].
    intros r [p' s1] (bs & rest & -> & H1 & H2 & -> & H3 & H4 & H5 & _). simpl in *.
    apply wp_wake_ret. intros s2 Em. simpl. split_and!; try done. exists bs, rest.
    split_and!; try done.
    + intros k c Hk. rewrite Em, <-(Z.add_0_r addr). by apply H2.
    + right. split_and!; try done. intros Eq. apply app_eq_nil in Eq as [-> ->].
      rewrite (proj2 (holds_empty p [] Hh)) in Ee by done. done.
Qed.

(** The last [pipeclose] gives the pipe back. *)
Lemma pipeclose_spec b p s q :
  holds p q ->
  wp (pipeclose b) (fun r x => holds (fst x) q /\
    p_readopen (fst x) = b && p_readopen p /\ p_writeopen (fst x) = negb b && p_writeopen p /\
    r = negb (p_readopen (fst x)) && negb (p_writeopen (fst x))) (p, s).
Proof using EO.
  intros Hh. unfold pipeclose. apply wp_bind. destruct b; apply wp_bind, wp_modify, wp_env;
    (eapply wp_mono; [apply wakeup1_ok|]); intros [] s' _; apply wp_bind, wp_gets, wp_ret; simpl;
    split_and!; try done; [by apply holds_writeopen|by apply holds_readopen].
Qed.

(** ** Runs

    Any interleaving of segments of any processes: between two segments the
    rest of the kernel, and the caller, can be anything.  [w] are the bytes
    writers have passed, [d] the bytes readers have received, in order, and
    [k] the number of reads that took a byte off the pipe which they did not
    deliver. *)

Inductive pipe_run (page : Z -> Z) : pipe -> list Z -> list Z -> nat -> Prop :=
| run_alloc : pipe_run page (pipe_init page) [] [] 0
| run_write p w d k addr n i s r p' s' bs :
    pipe_run page p w d k -> 0 <= i <= n -> n < 2 ^ 31 ->
    pipewrite addr n i (p, s) = Ret (r, (p', s')) ->
    user_bytes s (addr + i) bs -> Z.of_nat (length bs) = u32 (p_nwrite p' - p_nwrite p) ->
    pipe_run page p' (w ++ bs) d k
| run_read p w d k addr n s r p' s' bs k' :
    pipe_run page p w d k -> 0 <= n < 2 ^ 31 ->
    piperead addr n (p, s) = Ret (RRet r, (p', s')) ->
    user_bytes s' addr bs -> Z.of_nat (length bs) = Z.max 0 r ->
    k' = (if u32 (p_nread p' - p_nread p) =? Z.max 0 r then k else Datatypes.S k) ->
    pipe_run page p' w (d ++ bs) k'
| run_read_sleeps p w d k addr n s p' s' :
    pipe_run page p w d k -> 0 <= n < 2 ^ 31 ->
    piperead addr n (p, s) = Ret (RSleep, (p', s')) ->
    pipe_run page p' w d k
| run_close p w d k b s r p' s' :
    pipe_run page p w d k -> pipeclose b (p, s) = Ret (r, (p', s')) ->
    pipe_run page p' w d k.

Lemma user_bytes_det s a bs bs' :
  user_bytes s a bs -> user_bytes s a bs' -> length bs = length bs' -> bs = bs'.
Proof using Type.
  intros H1 H2 Hl. apply list_eq_same_length with (n := length bs); [done..|].
  intros k x y _ Hx Hy. apply H1 in Hx. apply H2 in Hy. congruence.
Qed.

(** What a segment of [pipewrite] wrote can be told from the counters. *)
Lemma pushed_count p p' q bs : holds p q -> holds p' (q ++ bs) -> p_nread p' = p_nread p ->
  u32 (p_nwrite p' - p_nwrite p) = Z.of_nat (length bs).
Proof using Type.
  intros [H1 H2 H3 _] [H1' H2' H3' _] Enr. rewrite H3, H3', Enr. rewrite length_app in *.
  unfold u32, PIPESIZE in *. lia.
Qed.

Lemma sublist_full (l l' : list Z) : l `sublist_of` l' -> (length l' <= length l)%nat -> l = l'.
Proof.
  induction 1 as [|x l l' _ IH|x l l' H _]; simpl; intros Hl; [done|f_equal; apply IH; lia|].
  apply sublist_length in H. lia.
Qed.

(** A [piperead] that goes to sleep has changed nothing. *)
Lemma piperead_sleeps addr n p s p' s' : piperead addr n (p, s) = Ret (RSleep, (p', s')) -> p' = p.
Proof using EO.
  unfold piperead. unfold bind at 1, getp, gets. cbn [fst]. destruct (pipe_empty p && p_writeopen p).
  - unfold bind, env, zoom. cbn [snd]. pose proof (killed1_ok s) as Hk. unfold wp in Hk.
    destruct (killed1 s) as [[[] s1]| | |]; try done. by intros [= <- _].
  - unfold bind. destruct (read_loop _ _ _ _ _) as [[i x]| | |]; try done. unfold env, zoom.
    by destruct (wakeup1 Pnwrite _) as [[]| | |].
Qed.

End specs.

(** ** Sleeping and waking

    A kernel around the pipe, reduced to what the pipe sees of it: the memory
    of the caller, whether some process sleeps on nread or on nwrite, and after
    how many tests of the killed flag the caller is killed. *)

Record around := Around {
  t_mem : Z -> option Z;
  t_writable : Z -> bool;
  t_rsleep : bool;
  t_wsleep : bool;
  t_dies : option nat;
}.

Definition wake (c : pchan) (s : around) : around :=
  match c with
  | Pnread => Around (t_mem s) (t_writable s) false (t_wsleep s) (t_dies s)
  | Pnwrite => Around (t_mem s) (t_writable s) (t_rsleep s) false (t_dies s)
  end.
Definition asleep (c : pchan) (s : around) : around :=
  match c with
  | Pnread => Around (t_mem s) (t_writable s) true (t_wsleep s) (t_dies s)
  | Pnwrite => Around (t_mem s) (t_writable s) (t_rsleep s) true (t_dies s)
  end.

#[export] Instance around_env : PipeEnv around := {|
  copyin1 a := gets (fun s => t_mem s a);
  copyout1 a c := fun s =>
    if t_writable s a then
      Ret (true, Around (upd (t_mem s) a (Some c)) (t_writable s) (t_rsleep s) (t_wsleep s) (t_dies s))
    else Ret (false, s);
  killed1 := fun s =>
    match t_dies s with
    | None => Ret (false, s)
    | Some O => Ret (true, s)
    | Some (S n) => Ret (false, Around (t_mem s) (t_writable s) (t_rsleep s) (t_wsleep s) (Some n))
    end;
  wakeup1 c := modify (wake c);
|}.

#[export] Program Instance around_env_ok : PipeEnvOk around := {|
  umem := t_mem;
  can_write s a := t_writable s a = true;
|}.
Next Obligation. done. Qed.
Next Obligation.
  intros a c s Hw. unfold wp. simpl. rewrite Hw. simpl. split_and!; try done; [apply upd_same|].
  intros b v Hb. by rewrite upd_other.
Qed.
Next Obligation.
  intros a c s ok s' E. simpl in E. destruct (t_writable s a); injection E as <- <-; simpl; [|done].
  split; [intros _; apply upd_same|]. intros b v Hb. by rewrite upd_other.
Qed.
Next Obligation. intros s. unfold wp. simpl. by destruct (t_dies s) as [[|n]|]. Qed.
Next Obligation. by intros [] s. Qed.

(** A segment, after which the caller sleeps if the code calls sleep(). *)
Inductive segment := SegWrite (addr n i : Z) | SegRead (addr n : Z) | SegClose (writable : bool).

Definition run_segment (g : segment) : M (pipe * around) unit :=
  match g with
  | SegWrite addr n i =>
      let! r := pipewrite addr n i in
      match r with WSleep _ => env (modify (asleep Pnwrite)) | WRet _ => ret tt end
  | SegRead addr n =>
      let! r := piperead addr n in
      match r with RSleep => env (modify (asleep Pnread)) | RRet _ => ret tt end
  | SegClose b => pipeclose b ;; ret tt
  end.

(** No process sleeps for something that is already there. *)
Definition readers_ok (x : pipe * around) : Prop :=
  t_rsleep (snd x) = true -> pipe_empty (fst x) = true /\ p_writeopen (fst x) = true.
Definition writers_ok (x : pipe * around) : Prop :=
  t_wsleep (snd x) = true -> pipe_full (fst x) = true /\ p_readopen (fst x) = true.
Definition no_stuck (x : pipe * around) : Prop := readers_ok x /\ writers_ok x.

(** The caller is killed in the course of the segment, not before. *)
Definition killed_midway (s s' : around) : Prop := t_dies s <> Some O /\ t_dies s' = Some O.

(** A writer that runs to its end, or to a full pipe, has woken the readers. *)
Lemma write_loop_wakes addr n left i p s :
  p_readopen p = true -> left = Z.to_nat (n - i) ->
  wp (write_loop addr n left i) (fun r x =>
    t_wsleep (snd x) = t_wsleep s /\ (t_rsleep (snd x) = false \/ t_dies (snd x) = Some O) /\
    p_readopen (fst x) = true /\ (pipe_full p = true -> fst x = p) /\
    match r with WSleep _ => pipe_full (fst x) = true /\ t_rsleep (snd x) = false | WRet _ => True end) (p, s).
Proof.
  revert i p s. induction left as [|left IH]; intros i p s Hr Hl; simpl.
  { rewrite (proj2 (Z.ltb_ge i n)) by lia. simpl. wp_steps. split_and!; try done. by left. }
  destruct (Z.ltb_spec i n) as [Hi|Hi]; simpl; [|wp_steps; split_and!; try done; by left].
  apply wp_bind, wp_gets, wp_bind. simpl. rewrite Hr. simpl. apply wp_env. unfold wp at 1. simpl.
  assert (Hgo : forall s1, t_wsleep s1 = t_wsleep s -> wp (if pipe_full p then env (wakeup1 Pnread) ;; ret (WSleep i) else
      let! c := env (copyin1 (u64 (addr + i))) in
      match c with
      | None => env (wakeup1 Pnread) ;; ret (WRet i)
      | Some ch => modp (push ch) ;; write_loop addr n left (i + 1)
      end) (fun r x => t_wsleep (snd x) = t_wsleep s /\ (t_rsleep (snd x) = false \/ t_dies (snd x) = Some O) /\
    p_readopen (fst x) = true /\ (pipe_full p = true -> fst x = p) /\
    match r with WSleep _ => pipe_full (fst x) = true /\ t_rsleep (snd x) = false | WRet _ => True end) (p, s1)).
  { intros s1 E1. destruct (pipe_full p) eqn:Ef; [wp_steps; split_and!; try done; by left|].
    apply wp_bind, wp_env, wp_gets. destruct (t_mem s1 _) as [ch|]; [|wp_steps; split_and!; try done; by left].
    apply wp_bind, wp_modify. simpl. eapply wp_mono; [apply (IH (i + 1) (push ch p) s1 Hr); lia|].
    intros r x (H1 & H2 & H3 & _ & H5). split_and!; try done. congruence. }
  destruct (t_dies s) as [[|m]|] eqn:Ed; [wp_steps; split_and!; try done; by right|by apply Hgo..].
Qed.

Lemma no_stuck_wake c p s : no_stuck (p, s) -> no_stuck (p, wake c s).
Proof. intros [H1 H2]. by destruct c; split. Qed.

(** A writer that is stopped at once changes nothing. *)
Lemma write_loop_stops addr n left i p s :
  t_dies s = Some O \/ p_readopen p = false -> left = Z.to_nat (n - i) ->
  wp (write_loop addr n left i) (fun r x => x = (p, s) \/ x = (p, wake Pnread s)) (p, s).
Proof.
  intros Hs Hl. destruct left as [|left]; simpl.
  { rewrite (proj2 (Z.ltb_ge i n)) by lia. simpl. wp_steps. by right. }
  destruct (Z.ltb_spec i n) as [Hi|Hi]; simpl; [|wp_steps; by right].
  apply wp_bind, wp_gets, wp_bind. simpl. destruct (p_readopen p) eqn:Er; simpl; [|by left].
  destruct Hs as [Hs|]; [|done]. apply wp_env. unfold wp at 1. simpl. rewrite Hs. by left.
Qed.

Lemma write_stop_ret addr n left i p s r x :
  t_dies s = Some O \/ p_readopen p = false -> left = Z.to_nat (n - i) ->
  write_loop addr n left i (p, s) = Ret (r, x) -> exists v, r = WRet v.
Proof.
  intros Hs Hl. destruct left as [|left]; simpl.
  { rewrite (proj2 (Z.ltb_ge i n)) by lia. intros [= <- _]. eauto. }
  destruct (Z.ltb_spec i n) as [Hi|Hi]; simpl; [|intros [= <- _]; eauto].
  unfold bind, getp, gets. simpl. destruct (p_readopen p) eqn:Er; simpl; [|intros [= <- _]; eauto].
  destruct Hs as [Hs|]; [|done]. unfold env, zoom. simpl. rewrite Hs. intros [= <- _]; eauto.
Qed.

Lemma read_loop_keeps addr n left i p s :
  wp (read_loop addr n left i) (fun r x => t_rsleep (snd x) = t_rsleep s /\
    p_readopen (fst x) = p_readopen p /\ p_writeopen (fst x) = p_writeopen p /\
    (pipe_empty p = true -> fst x = p)) (p, s).
Proof.
  revert i p s. induction left as [|left IH]; intros i p s; simpl; [by wp_steps|].
  apply wp_bind, wp_gets. simpl. destruct (pipe_empty p) eqn:Ee; [by wp_steps|].
  apply wp_bind, wp_modify, wp_bind, wp_env. unfold wp at 1. simpl. destruct (t_writable s _); simpl.
  - eapply wp_mono; [apply IH|]. intros r x (H1 & H2 & H3 & _). by split_and!.
  - by wp_steps.
Qed.

(** C11: no wakeup is lost: if no process sleeps in vain before a segment (a
    reader sleeps only while the pipe is empty and open for writing, a writer
    only while it is full and open for reading), none does after it, with one
    exception: a writer that is killed in the middle of its segment returns
    without waking the readers. *)
Theorem pipe_no_lost_wakeup (g : segment) (p : pipe) (s : around) :
  no_stuck (p, s) ->
  wp (run_segment g) (fun _ x => writers_ok x /\
    (readers_ok x \/ exists addr n i, g = SegWrite addr n i /\ killed_midway s (snd x))) (p, s).
Proof.
  intros Hns. destruct g as [addr n i|addr n|b]; unfold run_segment.
  - destruct (decide (t_dies s <> Some O /\ p_readopen p = true)) as [[Hd Hr]|Hno].
    + apply wp_bind. eapply wp_mono; [by apply (write_loop_wakes addr n _ i p s Hr)|].
      intros r [p' s'] (H1 & H2 & H3 & H4 & H5). simpl in *. destruct Hns as [_ Hw].
      assert (Hw' : t_wsleep s' = true -> pipe_full p' = true /\ p_readopen p' = true).
      { rewrite H1. intros Ew. destruct (Hw Ew) as [Hf _]. by rewrite (H4 Hf). }
      destruct r as [r|j]; [apply wp_ret|apply wp_env, wp_modify].
      * split; [done|]. destruct H2 as [H2|H2]; [left|right]; [intros E; simpl in E; congruence|]. by exists addr, n, i.
      * destruct H5 as [H5 H6]. split; [by intros _|left]. intros E. simpl in E. congruence.
    + assert (Hs : t_dies s = Some O \/ p_readopen p = false).
      { destruct (decide (t_dies s = Some O)); [by left|right]. destruct (p_readopen p); [|done]. by destruct Hno. }
      destruct (proj1 (wp_returns _ _ _) (write_loop_stops addr n _ i p s Hs eq_refl)) as (r & x & Ex & Hx).
      destruct (write_stop_ret _ _ _ _ _ _ _ _ Hs eq_refl Ex) as [v ->].
      apply wp_returns. exists tt, x. split; [unfold pipewrite, bind; by rewrite Ex|].
      assert (H : no_stuck x) by (destruct Hx as [->| ->]; [done|by apply no_stuck_wake]).
      split; [apply H|left; apply H].
  - apply wp_bind. unfold piperead. apply wp_bind, wp_gets. simpl. destruct Hns as [Hrd Hwr].
    destruct (pipe_empty p && p_writeopen p) eqn:Ee.
    + apply andb_true_iff in Ee as [Ee Ew]. apply wp_bind, wp_env. unfold wp at 1. simpl.
      destruct (t_dies s) as [[|m]|]; simpl; wp_steps; (split; [done|left]); try done; by intros _.
    + apply wp_bind. eapply wp_mono; [apply read_loop_keeps|].
      intros r [p' s'] (H1 & H2 & H3 & H4). simpl in *. wp_steps. split; [done|left].
      intros Hr. simpl in *. rewrite H1 in Hr. destruct (Hrd Hr) as [He Hw]. simpl in *. by rewrite He, Hw in Ee.
  - apply wp_bind. unfold pipeclose. destruct Hns as [H1 H2].
    destruct b; wp_steps; (split; [|left]); intros Hx; simpl in *; try done; by auto.
Qed.

Definition quiet_around : around := Around (fun a => Some (a mod 256)) (fun _ => true) false false None.

(** Three bytes are written; a read gets two of them, and one that cannot be
    copied out loses the last. *)
Lemma example_run : exists p, pipe_run (fun _ => 0) p [7; 8; 9] [7; 8] 1.
Proof.
  set (bad := Around (fun a => Some (a mod 256)) (fun _ => false) false false None).
  eexists. eapply (run_read (fun _ => 0) _ [7; 8; 9] [7; 8] 0 100 2 bad 0 _ _ [] 1).
  - eapply (run_read (fun _ => 0) _ [7; 8; 9] [] 0 100 2 quiet_around 2 _ _ [7; 8] 0).
    + eapply (run_write (fun _ => 0) _ [] [] 0 7 3 0 quiet_around (WRet 3) _ _ [7; 8; 9]).
      * apply run_alloc.
      * lia.
      * lia.
      * vm_compute. reflexivity.
      * intros [|[|[|k]]] c E; simpl in E; try discriminate; injection E as <-; vm_compute; reflexivity.
      * vm_compute. reflexivity.
    + lia.
    + vm_compute. reflexivity.
    + intros [|[|k]] c E; simpl in E; try discriminate; injection E as <-; vm_compute; reflexivity.
    + reflexivity.
    + vm_compute. reflexivity.
  - lia.
  - vm_compute. reflexivity.
  - intros k c E. discriminate E.
  - reflexivity.
  - vm_compute. reflexivity.
Qed.


Lemma pipe_no_lost_wakeup_witness :
  no_stuck (pipe_init (fun _ => 0), asleep Pnread quiet_around) /\
  wp (run_segment (SegWrite 7 3 0)) (fun _ x => writers_ok x /\ readers_ok x) (pipe_init (fun _ => 0), asleep Pnread quiet_around).
Proof.
  assert (H : no_stuck (pipe_init (fun _ => 0), asleep Pnread quiet_around)) by (split; done).
  split; [exact H|]. assert (Ed : wp (run_segment (SegWrite 7 3 0)) (fun _ x => t_dies (snd x) = None)
    (pipe_init (fun _ => 0), asleep Pnread quiet_around)) by (vm_compute; reflexivity).
  pose proof (pipe_no_lost_wakeup (SegWrite 7 3 0) (pipe_init (fun _ => 0)) (asleep Pnread quiet_around) H) as Hw.
  unfold wp in *. destruct (run_segment _ _) as [[u x]| | |]; try done.
  destruct Hw as [Hw [Hr|(? & ? & ? & _ & _ & Hk)]]; [split; [exact Hw|exact Hr]|congruence].
Defined.

(** The exception occurs: a writer that is killed after its first byte
    returns without waking the reader that sleeps on the pipe. *)
Example killed_writer_strands_reader :
  exists p' s',
    let s := Around (fun _ => Some 1) (fun _ => true) true false (Some 1%nat) in
    no_stuck (pipe_init (fun _ => 0), s) /\
    run_segment (SegWrite 0 2 0) (pipe_init (fun _ => 0), s) = Ret (tt, (p', s')) /\
    t_rsleep s' = true /\ pipe_empty p' = false.
Proof. eexists _, _. split; [by split|]. split; [reflexivity|]. done. Qed.

(** When copyout fails [piperead] has already taken the byte off the queue:
    it returns 0, as at end of file, and the byte is lost. *)
Theorem piperead_loses_byte (addr n c : Z) (q : list Z) (p : pipe) (s : around) :
  holds p (c :: q) -> 0 < n -> t_writable s (u64 addr) = false ->
  wp (piperead addr n) (fun r x => r = RRet 0 /\ holds (fst x) q /\ t_mem (snd x) = t_mem s) (p, s).
Proof.
  intros Hh Hn Hw. destruct (holds_head _ _ _ Hh) as [_ Hh'].
  unfold piperead. apply wp_bind, wp_gets. cbn [fst].
  destruct (pipe_empty p) eqn:Ee; [by apply (holds_empty p _ Hh) in Ee|]. cbn [andb].
  destruct (Z.to_nat n) as [|left] eqn:El; [lia|]. apply wp_bind. cbn [read_loop].
  apply wp_bind, wp_gets. cbn [fst]. rewrite Ee. apply wp_bind, wp_modify, wp_bind, wp_env.
  rewrite Z.add_0_r. unfold wp at 1. simpl. rewrite Hw. simpl. by wp_steps.
Qed.

Lemma piperead_loses_byte_witness :
  exists p, holds p [7] /\
    wp (piperead 100 5) (fun r x => r = RRet 0 /\ holds (fst x) [])
      (p, Around (fun _ => None) (fun _ => false) false false None).
Proof.
  exists (push 7 (pipe_init (fun _ => 0))).
  assert (H : holds (push 7 (pipe_init (fun _ => 0))) [7]).
  { apply (holds_push 7 _ []); [apply holds_init|reflexivity]. }
  split; [exact H|]. eapply wp_mono.
  - apply (piperead_loses_byte 100 5 7 [] _ _ H); [lia|reflexivity].
  - intros r x (H1 & H2 & _). split; [exact H1|exact H2].
Defined.
