(* ===== verification/Fs.v ===== *)
(** * kernel/fs.c: the file system

    Blocks, inodes, file contents, directories and path names, on the log of
    Log.v.  The on-disk structures are bytes of the blocks the code overlays
    them on; the inode table is an array of NINODE entries, an inode pointer
    the index of its entry.  itable.lock makes [iget], [idup] and the parts of
    [iput] outside its truncation atomic. *)

From S2P Require Import Prelude Bytes Locks Bio Log.

Definition ROOTINO : Z := 1.
Definition ROOTDEV : Z := 1.
Definition FSMAGIC : Z := 0x10203040.
Definition NDIRECT : nat := 12.
Definition NINDIRECT : nat := 256.
Definition MAXFILE : Z := Z.of_nat NDIRECT + Z.of_nat NINDIRECT.
Definition DINODE_SIZE : nat := 64.
Definition IPB : Z := BSIZE / Z.of_nat DINODE_SIZE.
Definition BPB : Z := BSIZE * 8.
Definition DIRSIZ : nat := 14.
Definition DIRENT_SIZE : Z := 16.
Definition NINODE : nat := 50.
Definition T_DIR : Z := 1.
Definition T_FILE : Z := 2.
Definition T_DEVICE : Z := 3.

Record superblock := Superblock {
  sb_magic : Z;
  sb_size : Z;
  sb_nblocks : Z;
  sb_ninodes : Z;
  sb_nlog : Z;
  sb_logstart : Z;
  sb_inodestart : Z;
  sb_bmapstart : Z;
}.

Definition IBLOCK (i : Z) (sb : superblock) : Z := u32 (i / IPB + sb_inodestart sb).
Definition BBLOCK (b : Z) (sb : superblock) : Z := u32 (b / BPB + sb_bmapstart sb).

(** ** Blocks *)

Section blocks.
Context (pid : Z).

(** The superblock as [memmove] copies it out of block 1. *)
Definition decode_sb (d : block) : superblock :=
  Superblock (get32 d 0) (get32 d 4) (get32 d 8) (get32 d 12) (get32 d 16) (get32 d 20)
    (get32 d 24) (get32 d 28).

Definition readsb (dev : Z) : M lstate superblock :=
  let! bp := bio (bread pid dev 1) in
  let! d := bio (get_data bp) in
  bio (brelse pid bp) ;;
  ret (decode_sb d).

Definition fsinit (dev : Z) : M lstate superblock :=
  let! sb := readsb dev in
  if negb (sb_magic sb =? FSMAGIC) then panic "invalid file system"
  else initlog pid dev (sb_logstart sb) (sb_nlog sb) ;; ret sb.

Definition bzero (dev bno : Z) : M lstate unit :=
  let! bp := bio (bread pid dev bno) in
  bio (edit bp (fun _ => repeat 0 (Z.to_nat BSIZE))) ;;
  log_write bp ;;
  bio (brelse pid bp).

(** Bit [bi] of a bitmap block. *)
Definition bit_mask (bi : Z) : Z := Z.shiftl 1 (bi mod 8).
Definition byte_of (d : block) (bi : Z) : Z := nth (Z.to_nat (bi / 8)) d 0.
Definition bit_free (d : block) (bi : Z) : bool := Z.land (byte_of d bi) (bit_mask bi) =? 0.
Definition bit_set (bi : Z) (d : block) : block :=
  <[Z.to_nat (bi / 8) := u8 (Z.lor (byte_of d bi) (bit_mask bi))]> d.
Definition bit_reset (bi : Z) (d : block) : block :=
  <[Z.to_nat (bi / 8) := u8 (Z.land (byte_of d bi) (Z.lnot (bit_mask bi)))]> d.

(** The inner loop of [balloc]: the first free bit. *)
Fixpoint find_free (d : block) (left : nat) (bi : Z) : option Z :=
  match left with
  | O => None
  | S left' => if bit_free d bi then Some bi else find_free d left' (bi + 1)
  end.

(** The outer loop, over the blocks of the bitmap. *)
Fixpoint balloc_loop (sb : superblock) (dev : Z) (left : nat) (b : Z) : M lstate Z :=
  if negb (b <? sb_size sb) then ret 0
  else
    match left with
    | O => out_of_fuel
    | S left' =>
        let! bp := bio (bread pid dev (BBLOCK b sb)) in
        let! d := bio (get_data bp) in
        match find_free d (Z.to_nat (Z.min BPB (sb_size sb - b))) 0 with
        | Some bi =>
            bio (edit bp (bit_set bi)) ;;
            log_write bp ;;
            bio (brelse pid bp) ;;
            bzero dev (b + bi) ;;
            ret (b + bi)
        | None =>
            bio (brelse pid bp) ;;
            balloc_loop sb dev left' (b + BPB)
        end
    end.
Definition balloc (sb : superblock) (dev : Z) : M lstate Z :=
  balloc_loop sb dev (S (Z.to_nat (sb_size sb))) 0.

Definition bfree (sb : superblock) (dev b : Z) : M lstate unit :=
  let! bp := bio (bread pid dev (BBLOCK b sb)) in
  let! d := bio (get_data bp) in
  let bi := b mod BPB in
  if bit_free d bi then panic "freeing free block"
  else
    bio (edit bp (bit_reset bi)) ;;
    log_write bp ;;
    bio (brelse pid bp).
End blocks.

(** ** Inodes *)

Definition i16 (x : Z) : Z := (x + 2 ^ 15) mod 2 ^ 16 - 2 ^ 15.

(** struct dinode; also the copy of it in struct inode. *)
Record dinode := Dinode {
  d_type : Z;
  d_major : Z;
  d_minor : Z;
  d_nlink : Z;
  d_size : Z;
  d_addrs : list Z;
}.

Definition dset_type (v : Z) (x : dinode) : dinode :=
  Dinode v (d_major x) (d_minor x) (d_nlink x) (d_size x) (d_addrs x).
Definition dset_size (v : Z) (x : dinode) : dinode :=
  Dinode (d_type x) (d_major x) (d_minor x) (d_nlink x) v (d_addrs x).
Definition dset_addr (k : nat) (v : Z) (x : dinode) : dinode :=
  Dinode (d_type x) (d_major x) (d_minor x) (d_nlink x) (d_size x) (<[k := v]> (d_addrs x)).

(** The dinode at byte [o] of a block. *)
Definition decode_dinode (d : block) (o : nat) : dinode :=
  Dinode (i16 (get16 d o)) (i16 (get16 d (o + 2))) (i16 (get16 d (o + 4))) (i16 (get16 d (o + 6)))
    (get32 d (o + 8)) (map (fun k => get32 d (o + 12 + 4 * k)) (seq 0 (NDIRECT + 1))).
Definition addrs_bytes (addrs : list Z) : list Z := flat_map (le_bytes 4) addrs.
Definition encode_dinode (x : dinode) (o : nat) (d : block) : block :=
  let d := put16 d o (d_type x) in
  let d := put16 d (o + 2) (d_major x) in
  let d := put16 d (o + 4) (d_minor x) in
  let d := put16 d (o + 6) (d_nlink x) in
  let d := put32 d (o + 8) (d_size x) in
  put d (o + 12) (addrs_bytes (d_addrs x)).

(** Where inode [inum] is in its block. *)
Definition dinode_off (inum : Z) : nat := (Z.to_nat (inum mod IPB) * DINODE_SIZE)%nat.

(** struct inode. *)
Record inode := Inode {
  i_dev : Z;
  i_inum : Z;
  i_ref : Z;
  i_lock : sleeplock;
  i_valid : bool;
  i_d : dinode;
}.

Definition iset_ref (v : Z) (x : inode) : inode :=
  Inode (i_dev x) (i_inum x) v (i_lock x) (i_valid x) (i_d x).
Definition iset_lock (v : sleeplock) (x : inode) : inode :=
  Inode (i_dev x) (i_inum x) (i_ref x) v (i_valid x) (i_d x).
Definition iset_valid (v : bool) (x : inode) : inode :=
  Inode (i_dev x) (i_inum x) (i_ref x) (i_lock x) v (i_d x).
Definition iset_d (f : dinode -> dinode) (x : inode) : inode :=
  Inode (i_dev x) (i_inum x) (i_ref x) (i_lock x) (i_valid x) (f (i_d x)).

(** The memory of the calling process, for either_copyout and either_copyin
    with a user address: the status, and the bytes copied in. *)
Class CopyEnv (E : Type) := {
  ucopyout : Z -> list Z -> M E Z;
  ucopyin : Z -> Z -> M E (Z * list Z);
}.

Record fstate (E : Type) := FState {
  fl : lstate;
  fsb : superblock;
  itable : nat -> inode;
  fenv : E;
}.
Arguments FState {E}.
Arguments fl {E}.
Arguments fsb {E}.
Arguments itable {E}.
Arguments fenv {E}.

Section inodes.
Context {E : Type} `{CE : CopyEnv E} (pid : Z).
Abbreviation F := (fstate E).

Definition set_fl (x : lstate) (s : F) : F := FState x (fsb s) (itable s) (fenv s).
Definition set_fenv (x : E) (s : F) : F := FState (fl s) (fsb s) (itable s) x.
Definition set_inode (ip : nat) (f : inode -> inode) (s : F) : F :=
  FState (fl s) (fsb s) (upd (itable s) ip (f (itable s ip))) (fenv s).

(** Runs code on the log and cache, and on the caller's memory. *)
Definition lift {A} (m : M lstate A) : M F A := zoom fl set_fl m.
Definition lenv {A} (m : M E A) : M F A := zoom fenv set_fenv m.
Definition get_inode (ip : nat) : M F inode := gets (fun s => itable s ip).
Definition change_inode (ip : nat) (f : inode -> inode) : M F unit := modify (set_inode ip f).

Definition iinit : M F unit :=
  for_each (seq 0 NINODE) (fun i => change_inode i (iset_lock initsleeplock)).

(** The loop of [iget]: an entry for the inode, or the first free one. *)
Fixpoint iget_scan (t : nat -> inode) (dev inum : Z) (l : list nat) (empty : option nat)
    : nat + option nat :=
  match l with
  | [] => inr empty
  | ip :: l' =>
      if (0 <? i_ref (t ip)) && (i_dev (t ip) =? dev) && (i_inum (t ip) =? inum) then inl ip
      else iget_scan t dev inum l'
             (match empty with
              | Some _ => empty
              | None => if i_ref (t ip) =? 0 then Some ip else None
              end)
  end.

Definition iget (dev inum : Z) : M F nat :=
  let! r := gets (fun s => iget_scan (itable s) dev inum (seq 0 NINODE) None) in
  match r with
  | inl ip => change_inode ip (fun x => iset_ref (i32 (i_ref x + 1)) x) ;; ret ip
  | inr (Some ip) =>
      change_inode ip (fun x => Inode dev inum 1 (i_lock x) false (i_d x)) ;; ret ip
  | inr None => panic "iget: no inodes"
  end.

Definition idup (ip : nat) : M F nat :=
  change_inode ip (fun x => iset_ref (i32 (i_ref x + 1)) x) ;; ret ip.

(** The loop of [ialloc] on disk; 0 when there is no free inode. *)
Fixpoint ialloc_loop (sb : superblock) (dev type : Z) (left : nat) (inum : Z) : M lstate Z :=
  if negb (inum <? sb_ninodes sb) then ret 0
  else
    match left with
    | O => out_of_fuel
    | S left' =>
        let! bp := bio (bread pid dev (IBLOCK inum sb)) in
        let! d := bio (get_data bp) in
        if i16 (get16 d (dinode_off inum)) =? 0 then
          bio (edit bp (fun d => put d (dinode_off inum) (repeat 0 DINODE_SIZE))) ;;
          bio (edit bp (fun d => put16 d (dinode_off inum) type)) ;;
          log_write bp ;;
          bio (brelse pid bp) ;;
          ret inum
        else
          bio (brelse pid bp) ;;
          ialloc_loop sb dev type left' (inum + 1)
    end.

Definition ialloc (dev type : Z) : M F (option nat) :=
  let! sb := gets fsb in
  let! inum := lift (ialloc_loop sb dev type (Z.to_nat (sb_ninodes sb)) 1) in
  if inum =? 0 then ret None
  else let! ip := iget dev inum in ret (Some ip).

Definition iupdate (ip : nat) : M F unit :=
  let! sb := gets fsb in
  let! x := get_inode ip in
  lift (let! bp := bio (bread pid (i_dev x) (IBLOCK (i_inum x) sb)) in
        bio (edit bp (encode_dinode (i_d x) (dinode_off (i_inum x)))) ;;
        log_write bp ;;
        bio (brelse pid bp)).

Definition ilock_acquire (ip : nat) : M F unit :=
  fun s => match acquiresleep pid (i_lock (itable s ip)) with
           | Ret k => Ret (tt, set_inode ip (iset_lock k) s)
           | Panic msg => Panic msg
           | Blocked => Blocked
           | OutOfFuel => OutOfFuel
           end.

Definition ilock (ip : nat) : M F unit :=
  let! x := get_inode ip in
  if i_ref x <? 1 then panic "ilock"
  else
    ilock_acquire ip ;;
    let! x := get_inode ip in
    when! negb (i_valid x) do
      (let! sb := gets fsb in
       let! d := lift (let! bp := bio (bread pid (i_dev x) (IBLOCK (i_inum x) sb)) in
                       let! d := bio (get_data bp) in
                       bio (brelse pid bp) ;;
                       ret d) in
       change_inode ip (iset_d (fun _ => decode_dinode d (dinode_off (i_inum x)))) ;;
       change_inode ip (iset_valid true) ;;
       let! x := get_inode ip in
       when! d_type (i_d x) =? 0 do panic "ilock: no type").

Definition iunlock (ip : nat) : M F unit :=
  let! x := get_inode ip in
  if negb (holdingsleep pid (i_lock x)) || (i_ref x <? 1) then panic "iunlock"
  else change_inode ip (fun x => iset_lock (releasesleep (i_lock x)) x).

(** *** Contents *)

Definition baddr (x : inode) (k : nat) : Z := nth k (d_addrs (i_d x)) 0.

(** [ip->addrs[k]], allocated if it is 0; 0 when the disk is full. *)
Definition alloc_addr (ip k : nat) : M F Z :=
  let! x := get_inode ip in
  if baddr x k =? 0 then
    let! sb := gets fsb in
    let! addr := lift (balloc pid sb (i_dev x)) in
    if addr =? 0 then ret 0
    else change_inode ip (iset_d (dset_addr k addr)) ;; ret addr
  else ret (baddr x k).

Definition bmap (ip : nat) (bn : Z) : M F Z :=
  if bn <? Z.of_nat NDIRECT then alloc_addr ip (Z.to_nat bn)
  else
    let bn := bn - Z.of_nat NDIRECT in
    if bn <? Z.of_nat NINDIRECT then
      let! ind := alloc_addr ip NDIRECT in
      if ind =? 0 then ret 0
      else
        let! x := get_inode ip in
        let! sb := gets fsb in
        lift (let! bp := bio (bread pid (i_dev x) ind) in
              let! d := bio (get_data bp) in
              let addr := get32 d (4 * Z.to_nat bn) in
              let! addr := (if addr =? 0 then
                let! addr := balloc pid sb (i_dev x) in
                (when! negb (addr =? 0) do
                   (bio (edit bp (fun d => put32 d (4 * Z.to_nat bn) addr)) ;;
                    log_write bp)) ;;
                ret addr
               else ret addr) in
              bio (brelse pid bp) ;;
              ret addr)
    else panic "bmap: out of range".

Definition itrunc (ip : nat) : M F unit :=
  for_each (seq 0 NDIRECT) (fun i =>
    let! x := get_inode ip in
    when! negb (baddr x i =? 0) do
      (let! sb := gets fsb in
       lift (bfree pid sb (i_dev x) (baddr x i)) ;;
       change_inode ip (iset_d (dset_addr i 0)))) ;;
  (let! x := get_inode ip in
   when! negb (baddr x NDIRECT =? 0) do
     (let! sb := gets fsb in
      lift (let! bp := bio (bread pid (i_dev x) (baddr x NDIRECT)) in
            for_each (seq 0 NINDIRECT) (fun j =>
              let! d := bio (get_data bp) in
              when! negb (get32 d (4 * j) =? 0) do bfree pid sb (i_dev x) (get32 d (4 * j))) ;;
            bio (brelse pid bp) ;;
            bfree pid sb (i_dev x) (baddr x NDIRECT)) ;;
      change_inode ip (iset_d (dset_addr NDIRECT 0)))) ;;
  change_inode ip (iset_d (dset_size 0)) ;;
  iupdate ip.

Definition iput (ip : nat) : M F unit :=
  let! x := get_inode ip in
  (when! (i_ref x =? 1) && i_valid x && (d_nlink (i_d x) =? 0) do
     (ilock_acquire ip ;;
      itrunc ip ;;
      change_inode ip (iset_d (dset_type 0)) ;;
      iupdate ip ;;
      change_inode ip (iset_valid false) ;;
      change_inode ip (fun x => iset_lock (releasesleep (i_lock x)) x))) ;;
  change_inode ip (fun x => iset_ref (i32 (i_ref x - 1)) x).

Definition iunlockput (ip : nat) : M F unit := iunlock ip ;; iput ip.

(** struct stat. *)
Record stat := Stat { st_dev : Z; st_ino : Z; st_type : Z; st_nlink : Z; st_size : Z }.
Definition stati (ip : nat) : M F stat :=
  let! x := get_inode ip in
  ret (Stat (i_dev x) (i_inum x) (d_type (i_d x)) (d_nlink (i_d x)) (d_size (i_d x))).

(** [either_copyout]: to user address [dst], or to a kernel buffer. *)
Definition either_copyout (user_dst : bool) (dst : Z) (bs : list Z) : M F Z :=
  if user_dst then lenv (ucopyout dst bs) else ret 0.

(** The loop of [readi]: the result, and the bytes copied, which are the
    contents of the kernel buffer when [user_dst] is false. *)
Fixpoint readi_loop (ip : nat) (user_dst : bool) (dst off n tot : Z) (acc : list Z) (left : nat)
    : M F (Z * list Z) :=
  if negb (tot <? n) then ret (tot, acc)
  else
    match left with
    | O => out_of_fuel
    | S left' =>
        let! addr := bmap ip (off / BSIZE) in
        if addr =? 0 then ret (tot, acc)
        else
          let! x := get_inode ip in
          let m := Z.min (n - tot) (BSIZE - off mod BSIZE) in
          let! bp := lift (bio (bread pid (i_dev x) addr)) in
          let! d := lift (bio (get_data bp)) in
          let bs := slice d (Z.to_nat (off mod BSIZE)) (Z.to_nat m) in
          let! r := either_copyout user_dst dst bs in
          lift (bio (brelse pid bp)) ;;
          if r =? -1 then ret (-1, acc)
          else readi_loop ip user_dst (u64 (dst + m)) (off + m) n (tot + m) (acc ++ bs) left'
    end.

Definition readi (ip : nat) (user_dst : bool) (dst off n : Z) : M F (Z * list Z) :=
  let! x := get_inode ip in
  let size := d_size (i_d x) in
  if (size <? off) || (u32 (off + n) <? off) then ret (0, [])
  else
    let n := if size <? u32 (off + n) then size - off else n in
    readi_loop ip user_dst dst off n 0 [] (Z.to_nat n).

(** Where [writei] copies from: a user address or a kernel buffer. *)
Inductive source := SUser (a : Z) | SKernel (bs : list Z).
Definition src_advance (src : source) (m : Z) : source :=
  match src with
  | SUser a => SUser (u64 (a + m))
  | SKernel bs => SKernel (drop (Z.to_nat m) bs)
  end.
Definition either_copyin (src : source) (m : Z) : M F (Z * list Z) :=
  match src with
  | SUser a => lenv (ucopyin a m)
  | SKernel bs => ret (0, take (Z.to_nat m) bs)
  end.

(** The loop of [writei]: the number of bytes written and the offset reached.
    The bytes that were copied before either_copyin fails are in the buffer. *)
Fixpoint writei_loop (ip : nat) (src : source) (off n tot : Z) (left : nat) : M F (Z * Z) :=
  if negb (tot <? n) then ret (tot, off)
  else
    match left with
    | O => out_of_fuel
    | S left' =>
        let! addr := bmap ip (off / BSIZE) in
        if addr =? 0 then ret (tot, off)
        else
          let! x := get_inode ip in
          let m := Z.min (n - tot) (BSIZE - off mod BSIZE) in
          let! bp := lift (bio (bread pid (i_dev x) addr)) in
          let! rbs := either_copyin src m in
          let (r, bs) := rbs : Z * list Z in
          lift (bio (edit bp (fun d => put d (Z.to_nat (off mod BSIZE)) bs))) ;;
          if r =? -1 then lift (bio (brelse pid bp)) ;; ret (tot, off)
          else
            lift (log_write bp) ;;
            lift (bio (brelse pid bp)) ;;
            writei_loop ip (src_advance src m) (off + m) n (tot + m) left'
    end.

Definition writei (ip : nat) (src : source) (off n : Z) : M F Z :=
  let! x := get_inode ip in
  if (d_size (i_d x) <? off) || (u32 (off + n) <? off) then ret (-1)
  else if MAXFILE * BSIZE <? u32 (off + n) then ret (-1)
  else
    let! to := writei_loop ip src off n 0 (Z.to_nat n) in
    let (tot, off) := to : Z * Z in
    let! x := get_inode ip in
    (when! d_size (i_d x) <? off do change_inode ip (iset_d (dset_size off))) ;;
    iupdate ip ;;
    ret tot.

(** ** Directories *)

(** [strncmp] and [strncpy] on names: arrays of DIRSIZ bytes or shorter
    strings, the byte after whose end is 0. *)
Fixpoint namecmp_loop (n : nat) (s t : list Z) : Z :=
  match n with
  | O => 0
  | S n' =>
      let p := hd 0 s in
      let q := hd 0 t in
      if negb (p =? 0) && (p =? q) then namecmp_loop n' (tl s) (tl t) else p - q
  end.
Definition namecmp (s t : list Z) : Z := namecmp_loop DIRSIZ s t.
Fixpoint name_str (n : nat) (s : list Z) : list Z :=
  match n, s with
  | S n', c :: s' => if c =? 0 then [] else c :: name_str n' s'
  | _, _ => []
  end.
Definition name_field (s : list Z) : list Z :=
  let w := name_str DIRSIZ s in w ++ repeat 0 (DIRSIZ - length w).

(** struct dirent as bytes. *)
Definition de_inum (de : list Z) : Z := get16 de 0.
Definition de_name (de : list Z) : list Z := slice de 2 DIRSIZ.
Definition dirent_bytes (inum : Z) (name : list Z) : list Z := le_bytes 2 (u16 inum) ++ name_field name.

(** The loop of [dirlookup]: the inode number and the offset of the entry. *)
Fixpoint dirlookup_loop (dp : nat) (name : list Z) (off : Z) (left : nat) : M F (option (Z * Z)) :=
  let! x := get_inode dp in
  if negb (off <? d_size (i_d x)) then ret None
  else
    match left with
    | O => out_of_fuel
    | S left' =>
        let! rd := readi dp false 0 off DIRENT_SIZE in
        let (r, de) := rd : Z * list Z in
        if negb (r =? DIRENT_SIZE) then panic "dirlookup read"
        else if negb (de_inum de =? 0) && (namecmp name (de_name de) =? 0) then
          ret (Some (de_inum de, off))
        else dirlookup_loop dp name (off + DIRENT_SIZE) left'
    end.

(** [dirlookup]; the inode with the offset stored in *poff. *)
Definition dirlookup (dp : nat) (name : list Z) : M F (option (nat * Z)) :=
  let! x := get_inode dp in
  if negb (d_type (i_d x) =? T_DIR) then panic "dirlookup not DIR"
  else
    let! o := dirlookup_loop dp name 0 (S (Z.to_nat (d_size (i_d x)))) in
    match o with
    | Some (inum, off) =>
        let! x := get_inode dp in
        let! ip := iget (i_dev x) inum in
        ret (Some (ip, off))
    | None => ret None
    end.

(** The second loop of [dirlink]: the offset of a free entry, or the size. *)
Fixpoint dirlink_loop (dp : nat) (off : Z) (left : nat) : M F Z :=
  let! x := get_inode dp in
  if negb (off <? d_size (i_d x)) then ret off
  else
    match left with
    | O => out_of_fuel
    | S left' =>
        let! rd := readi dp false 0 off DIRENT_SIZE in
        let (r, de) := rd : Z * list Z in
        if negb (r =? DIRENT_SIZE) then panic "dirlink read"
        else if de_inum de =? 0 then ret off
        else dirlink_loop dp (off + DIRENT_SIZE) left'
    end.

Definition dirlink (dp : nat) (name : list Z) (inum : Z) : M F Z :=
  let! o := dirlookup dp name in
  match o with
  | Some (ip, _) => iput ip ;; ret (-1)
  | None =>
      let! x := get_inode dp in
      let! off := dirlink_loop dp 0 (S (Z.to_nat (d_size (i_d x)))) in
      let! r := writei dp (SKernel (dirent_bytes inum name)) off DIRENT_SIZE in
      if negb (r =? DIRENT_SIZE) then ret (-1) else ret 0
  end.

(** ** Path names, as the bytes before the terminating 0 *)

Definition SLASH : Z := 47.
Fixpoint skip_slashes (path : list Z) : list Z :=
  match path with
  | c :: path' => if c =? SLASH then skip_slashes path' else path
  | [] => []
  end.
(** The bytes up to the next slash, and the rest. *)
Fixpoint split_elem (path : list Z) : list Z * list Z :=
  match path with
  | c :: path' =>
      if c =? SLASH then ([], path)
      else let (w, rest) := split_elem path' in (c :: w, rest)
  | [] => ([], [])
  end.

(** [skipelem]: the rest of the path and the name, which is cut at DIRSIZ. *)
Definition skipelem (path : list Z) : option (list Z * list Z) :=
  match skip_slashes path with
  | [] => None
  | path' => let (w, rest) := split_elem path' in Some (skip_slashes rest, take DIRSIZ w)
  end.

(** The loop of [namex]; [name] is what the last call of skipelem stored. *)
Fixpoint namex_loop (nameiparent : bool) (path name : list Z) (ip : nat) (left : nat)
    : M F (option nat * list Z) :=
  match skipelem path with
  | None => if nameiparent then iput ip ;; ret (None, name) else ret (Some ip, name)
  | Some (path', name') =>
      match left with
      | O => out_of_fuel
      | S left' =>
          ilock ip ;;
          let! x := get_inode ip in
          if negb (d_type (i_d x) =? T_DIR) then iunlockput ip ;; ret (None, name')
          else if nameiparent && bool_decide (path' = []) then iunlock ip ;; ret (Some ip, name')
          else
            let! next := dirlookup ip name' in
            match next with
            | None => iunlockput ip ;; ret (None, name')
            | Some (next, _) => iunlockput ip ;; namex_loop nameiparent path' name' next left'
            end
      end
  end.

(** [namex], with the current directory [cwd] of the process. *)
Definition namex (cwd : nat) (path : list Z) (nameiparent : bool) : M F (option nat * list Z) :=
  let! ip := (if hd 0 path =? SLASH then iget ROOTDEV ROOTINO else idup cwd) in
  namex_loop nameiparent path [] ip (length path).

Definition namei (cwd : nat) (path : list Z) : M F (option nat) :=
  let! r := namex cwd path false in ret (fst r).
Definition nameiparent (cwd : nat) (path : list Z) : M F (option nat * list Z) := namex cwd path true.
End inodes.
