(* ===== verification/FsBlocks.v ===== *)
(** * The block allocator of fs.c

    Transactions as the code above the log sees them, and [bzero], [balloc]
    and [bfree] as operations on the free-block bitmap. *)

From S2P Require Import Prelude Bytes Locks Bio Log Fs.

(** ** Inside a transaction

    The process holds the buffers [Hl]; readers see the contents [V]; [X] are
    changed blocks that are not logged yet; the blocks of [L] are in the log,
    and it takes [k] more.  The bounds leave three buffers for blocks that are
    held.  With no room and no logged block the process need not be in a
    transaction: that is how files are read. *)

(** What stays the same during a transaction: where the log is, how many
    operations are under way, the disk and the writes it has seen. *)
Record tctx := TCtx {
  c_start : Z;
  c_size : Z;
  c_out : Z;
  c_disk : Z -> block;
  c_writes : list (Z * block);
}.

(** Blocks that may be logged: the log comes first on the disk. *)
Definition loggable (cx : tctx) (b : Z) : Prop := 0 <= b < 2 ^ 32 /\ c_start cx + c_size cx <= b.

Definition lst (pid dev : Z) (cx : tctx) (Hl : list (Z * nat)) (X : list Z) (V : Z -> block)
    (L : list Z) (k : Z) (s : lstate) : Prop :=
  exists l, txn pid l Hl X V (c_disk cx) (c_writes cx) s /\
    (l_dev l = dev /\ l_start l = c_start cx /\ l_size l = c_size cx /\ l_committing l = false) /\
    l_outstanding l = c_out cx /\ (1 <= c_out cx \/ (L = [] /\ k = 0 /\ l_n l = 0)) /\
    0 <= k /\ l_n l + k <= LOGSIZE - 4 /\ l_n l + k < l_size l - 1 /\
    (forall b, b ∈ L -> b ∈ log_blocks l) /\ forall b, b ∈ log_blocks l -> loggable cx b.

(** The room that is left after [b] is logged. *)
Definition room (b : Z) (L : list Z) (k : Z) : Z := if decide (b ∈ L) then k else k - 1.

Section lst.
Context (pid dev : Z) (cx : tctx).

Lemma lst_bread Hl X V L k b s :
  lst pid dev cx Hl X V L k s -> b ∉ Hl.*1 -> (length Hl <= 2)%nat ->
  wp (bio (bread pid dev b)) (fun i s' => lst pid dev cx ((b, i) :: Hl) X V L k s') s.
Proof.
  intros (l & Ht & Hd & Hrest) Hb Hlen. pose proof (tx_n _ _ _ _ _ _ _ _ Ht). pose proof Hd as [<- _].
  wp_last (txn_bread pid l Hl X V _ _ b s Ht).
  { unfold log_blocks, indices, NBUF. rewrite length_map, length_seq. unfold LOGSIZE, MAXOPBLOCKS in *. lia. }
  intros i s' Ht'. by exists l.
Qed.

Lemma lst_data Hl X V L k b i s (Q : block -> lstate -> Prop) :
  lst pid dev cx Hl X V L k s -> (b, i) ∈ Hl -> Q (V b) s -> wp (bio (get_data i)) Q s.
Proof.
  intros (l & Ht & _) Hb HQ. apply wp_bio, wp_gets.
  rewrite (txn_data _ _ _ _ _ _ _ _ _ _ Ht Hb). by destruct s.
Qed.

Lemma lst_edit Hl X V L k b i f s :
  lst pid dev cx Hl X V L k s -> (b, i) ∈ Hl ->
  wp (bio (edit i f)) (fun _ s' => lst pid dev cx Hl (b :: X) (upd V b (f (V b))) L k s') s.
Proof.
  intros (l & Ht & H) Hb. wp_last (txn_edit pid l Hl X V _ _ b i f s Ht).
  intros _ s' Ht'. by exists l.
Qed.

Lemma lst_log_write Hl X X' V L k b i s :
  lst pid dev cx Hl X V L k s -> (b, i) ∈ Hl -> (b ∉ L -> 1 <= k) -> loggable cx b ->
  (forall y, y ∈ X -> y = b \/ y ∈ X') ->
  wp (log_write i) (fun _ s' => lst pid dev cx Hl X' V (b :: L) (room b L k) s') s.
Proof.
  intros (l & Ht & Hd & Ho & Ho' & Hk & H1 & H2 & HL & Hlb) Hb Hk1 Hlo HX. unfold LOGSIZE, MAXOPBLOCKS in *.
  assert (Ho1 : 1 <= c_out cx).
  { destruct Ho' as [|(-> & -> & _)]; [done|]. exfalso. apply (Z.nle_succ_diag_l 0), Hk1, not_elem_of_nil. }
  wp_last (txn_log_write pid l Hl X X' V _ _ b i s Ht); [unfold LOGSIZE, MAXOPBLOCKS; lia|].
  intros _ s' Ht'. exists (logged l b). unfold LOGSIZE, MAXOPBLOCKS.
  pose proof (tx_n _ _ _ _ _ _ _ _ Ht) as Hn.
  destruct (logged_fields l b) as (F1 & F2 & F3 & F4 & F5 & F6).
  assert (Hroom : 0 <= room b L k /\ l_n (logged l b) + room b L k <= l_n l + k).
  { unfold room. destruct (decide (b ∈ L)) as [Hin|Hout].
    - split; [done|]. unfold logged. rewrite decide_True by auto. lia.
    - specialize (Hk1 Hout). lia. }
  assert (Hin : forall y, y ∈ log_blocks (logged l b) <-> y = b \/ y ∈ log_blocks l).
  { intros y. rewrite logged_blocks by done. destruct (decide (b ∈ log_blocks l)); set_solver. }
  rewrite F1, F2, F3, F4, F5. split_and!; try done; try lia; try apply Hd.
  - intros y Hy. apply Hin. apply elem_of_cons in Hy as [->|Hy]; [by left|right; by apply HL].
  - intros y Hy. apply Hin in Hy as [->|Hy]; [done|by apply Hlb].
Qed.

Lemma lst_brelse Hl X V L k b i s :
  lst pid dev cx ((b, i) :: Hl) X V L k s -> b ∉ X ->
  wp (bio (brelse pid i)) (fun _ s' => lst pid dev cx Hl X V L k s') s.
Proof.
  intros (l & Ht & H) Hb. wp_last (txn_brelse pid l Hl X V _ _ b i s Ht); [by left|].
  intros _ s' Ht'. by exists l.
Qed.

(** *** The two patterns of the code *)

Lemma lst_read_block Hl V L k b s :
  lst pid dev cx Hl [] V L k s -> b ∉ Hl.*1 -> (length Hl <= 2)%nat ->
  wp (let! bp := bio (bread pid dev b) in
      let! d := bio (get_data bp) in
      bio (brelse pid bp) ;; ret d)
    (fun d s' => d = V b /\ lst pid dev cx Hl [] V L k s') s.
Proof.
  intros Hs Hb Hlen. wp_call (lst_bread _ _ _ _ _ b s Hs). intros i s1 H1. apply wp_bind.
  eapply lst_data; [exact H1|left|]. wp_call (lst_brelse _ _ _ _ _ _ _ s1 H1); [apply not_elem_of_nil|].
  intros _ s2 H2. by apply wp_ret.
Qed.

Lemma lst_edit_block Hl V L k b f s :
  lst pid dev cx Hl [] V L k s -> b ∉ Hl.*1 -> (length Hl <= 2)%nat -> (b ∉ L -> 1 <= k) -> loggable cx b ->
  wp (let! bp := bio (bread pid dev b) in
      bio (edit bp f) ;; log_write bp ;; bio (brelse pid bp))
    (fun _ s' => lst pid dev cx Hl [] (upd V b (f (V b))) (b :: L) (room b L k) s') s.
Proof.
  intros Hs Hb Hlen Hk Hlo. wp_call (lst_bread _ _ _ _ _ b s Hs). intros i s1 H1.
  wp_call (lst_edit _ _ _ _ _ b i f s1 H1); [left|]. intros _ s2 H2.
  wp_call (lst_log_write _ _ [] _ _ _ b i s2 H2); [left|set_solver|]. intros _ s3 H3.
  wp_last (lst_brelse _ _ _ _ _ b i s3 H3); [apply not_elem_of_nil|]. done.
Qed.

Definition zero_block : block := repeat 0 (Z.to_nat BSIZE).

Lemma bzero_spec Hl V L k b s :
  lst pid dev cx Hl [] V L k s -> b ∉ Hl.*1 -> (length Hl <= 2)%nat -> (b ∉ L -> 1 <= k) -> loggable cx b ->
  wp (bzero pid dev b) (fun _ s' => lst pid dev cx Hl [] (upd V b zero_block) (b :: L) (room b L k) s') s.
Proof. intros. by apply (lst_edit_block Hl V L k b (fun _ => zero_block)). Qed.
End lst.

(** ** The bitmap *)

Lemma land_pow2 x k : 0 <= k -> (Z.land x (Z.shiftl 1 k) =? 0) = negb (Z.testbit x k).
Proof.
  intros Hk. rewrite Z.shiftl_1_l. destruct (Z.testbit x k) eqn:Ek; simpl.
  - apply Z.eqb_neq. intros E. assert (Z.testbit (Z.land x (2 ^ k)) k = false) as H by (by rewrite E, Z.bits_0).
    by rewrite Z.land_spec, Ek, Z.pow2_bits_true in H.
  - apply Z.eqb_eq, Z.bits_inj'. intros j Hj. rewrite Z.land_spec, Z.pow2_bits_eqb, Z.bits_0 by done.
    destruct (Z.eqb_spec k j) as [->|]; [by rewrite Ek|by rewrite andb_false_r].
Qed.

Lemma bit_free_testbit d bi : bit_free d bi = negb (Z.testbit (byte_of d bi) (bi mod 8)).
Proof. unfold bit_free, bit_mask. apply land_pow2. lia. Qed.

Lemma u8_testbit x j : 0 <= j < 8 -> Z.testbit (u8 x) j = Z.testbit x j.
Proof. intros. unfold u8. by rewrite Z.mod_pow2_bits_low by lia. Qed.

Lemma byte_of_insert d bi bj v :
  0 <= bi < 8 * Z.of_nat (length d) -> 0 <= bj ->
  byte_of (<[Z.to_nat (bi / 8) := v]> d) bj = if bi / 8 =? bj / 8 then v else byte_of d bj.
Proof.
  intros Hi Hj. unfold byte_of. rewrite !nth_lookup. destruct (Z.eqb_spec (bi / 8) (bj / 8)) as [E|E].
  - rewrite <-E, list_lookup_insert_eq; [done|]. lia.
  - by rewrite list_lookup_insert_ne by lia.
Qed.

Lemma bit_free_set d bi bj :
  0 <= bi < 8 * Z.of_nat (length d) -> 0 <= bj ->
  bit_free (bit_set bi d) bj = negb (bi =? bj) && bit_free d bj.
Proof.
  intros Hi Hj. rewrite !bit_free_testbit. unfold bit_set. rewrite byte_of_insert by done.
  destruct (Z.eqb_spec (bi / 8) (bj / 8)) as [E|E].
  - rewrite u8_testbit, Z.lor_spec by lia. unfold bit_mask. rewrite Z.shiftl_1_l, Z.pow2_bits_eqb by lia.
    rewrite negb_orb, andb_comm. f_equal.
    + f_equal. lia.
    + unfold byte_of. by rewrite E.
  - by rewrite (proj2 (Z.eqb_neq bi bj)) by lia.
Qed.

Lemma bit_free_reset d bi bj :
  0 <= bi < 8 * Z.of_nat (length d) -> 0 <= bj ->
  bit_free (bit_reset bi d) bj = (bi =? bj) || bit_free d bj.
Proof.
  intros Hi Hj. rewrite !bit_free_testbit. unfold bit_reset. rewrite byte_of_insert by done.
  destruct (Z.eqb_spec (bi / 8) (bj / 8)) as [E|E].
  - rewrite u8_testbit, Z.land_spec, Z.lnot_spec by lia. unfold bit_mask.
    rewrite Z.shiftl_1_l, Z.pow2_bits_eqb by lia.
    rewrite negb_andb, negb_involutive, orb_comm. f_equal.
    + lia.
    + unfold byte_of. by rewrite E.
  - by rewrite (proj2 (Z.eqb_neq bi bj)) by lia.
Qed.

Lemma length_bit_set bi d : length (bit_set bi d) = length d.
Proof. apply length_insert. Qed.
Lemma length_bit_reset bi d : length (bit_reset bi d) = length d.
Proof. apply length_insert. Qed.

(** Block [b] is marked in use. *)
Definition used (sb : superblock) (V : Z -> block) (b : Z) : bool :=
  negb (bit_free (V (BBLOCK b sb)) (b mod BPB)).

(** The layout mkfs gives a disk: boot block, superblock, log, inodes, bitmap,
    data. *)
Definition data_start (sb : superblock) : Z := sb_bmapstart sb + sb_size sb / BPB + 1.
Record sb_ok (sb : superblock) : Prop := {
  sbo_log : 2 <= sb_logstart sb;
  sbo_inodes : sb_logstart sb + sb_nlog sb <= sb_inodestart sb;
  sbo_nlog : 0 <= sb_nlog sb;
  sbo_bmap : sb_inodestart sb + sb_ninodes sb / IPB + 1 <= sb_bmapstart sb;
  sbo_ninodes : 0 <= sb_ninodes sb;
  sbo_data : data_start sb <= sb_size sb;
  sbo_size : sb_size sb < 2 ^ 31;
}.

(** Every block has its size, and the blocks before the data are in use. *)
Record blocks_ok (sb : superblock) (V : Z -> block) : Prop := {
  bo_len : forall b, length (V b) = Z.to_nat BSIZE;
  bo_meta : forall b, 0 <= b < data_start sb -> used sb V b = true;
}.

Section bitmap.
Context (sb : superblock) (Hsb : sb_ok sb).

Lemma BBLOCK_range b : 0 <= b < sb_size sb ->
  BBLOCK b sb = b / BPB + sb_bmapstart sb /\ sb_bmapstart sb <= BBLOCK b sb < data_start sb.
Proof using Hsb.
  intros Hb. destruct Hsb as [H1 H2 H3 H4 H5 H6 H7]. unfold BBLOCK, data_start in *.
  change BPB with 8192 in *. change IPB with 16 in *. rewrite u32_id by lia. lia.
Qed.

(** Bits of different blocks are different bits. *)
Lemma same_bit b b' : 0 <= b < sb_size sb -> 0 <= b' < sb_size sb ->
  BBLOCK b sb = BBLOCK b' sb -> b mod BPB = b' mod BPB -> b = b'.
Proof using Hsb.
  intros Hb Hb'. destruct (BBLOCK_range b Hb) as [-> _], (BBLOCK_range b' Hb') as [-> _].
  change BPB with 8192. lia.
Qed.

(** Marking block [b] used, or free. *)
Definition mark (b : Z) (V : Z -> block) : Z -> block :=
  upd V (BBLOCK b sb) (bit_set (b mod BPB) (V (BBLOCK b sb))).
Definition unmark (b : Z) (V : Z -> block) : Z -> block :=
  upd V (BBLOCK b sb) (bit_reset (b mod BPB) (V (BBLOCK b sb))).

Lemma mod_BPB_range V b : blocks_ok sb V -> 0 <= b mod BPB < 8 * Z.of_nat (length (V (BBLOCK b sb))).
Proof using Type. intros Hv. rewrite (bo_len _ _ Hv). change BPB with 8192. change (Z.to_nat BSIZE) with (Z.to_nat 1024). lia. Qed.

Lemma used_mark V b b' : blocks_ok sb V -> 0 <= b < sb_size sb -> 0 <= b' < sb_size sb ->
  used sb (mark b V) b' = (b =? b') || used sb V b'.
Proof using Hsb.
  intros Hv Hb Hb'. unfold used, mark. destruct (decide (BBLOCK b' sb = BBLOCK b sb)) as [E|E].
  - rewrite E, upd_same, bit_free_set by (try apply mod_BPB_range; done || (change BPB with 8192; lia)).
    rewrite negb_andb, negb_involutive. f_equal. destruct (Z.eqb_spec b b') as [->|Hne]; [lia|].
    apply Z.eqb_neq. intros Em. apply Hne. by apply same_bit.
  - rewrite upd_other by done. destruct (Z.eqb_spec b b') as [->|]; [done|done].
Qed.

Lemma used_unmark V b b' : blocks_ok sb V -> 0 <= b < sb_size sb -> 0 <= b' < sb_size sb ->
  used sb (unmark b V) b' = negb (b =? b') && used sb V b'.
Proof using Hsb.
  intros Hv Hb Hb'. unfold used, unmark. destruct (decide (BBLOCK b' sb = BBLOCK b sb)) as [E|E].
  - rewrite E, upd_same, bit_free_reset by (try apply mod_BPB_range; done || (change BPB with 8192; lia)).
    rewrite negb_orb. f_equal. f_equal. destruct (Z.eqb_spec b b') as [->|Hne]; [lia|].
    apply Z.eqb_neq. intros Em. apply Hne. by apply same_bit.
  - rewrite upd_other by done. destruct (Z.eqb_spec b b') as [->|]; [done|done].
Qed.

(** The data of a block is no part of the bitmap. *)
Lemma used_data V b d b' : data_start sb <= b -> 0 <= b' < sb_size sb ->
  used sb (upd V b d) b' = used sb V b'.
Proof using Hsb.
  intros Hb Hb'. unfold used. rewrite upd_other; [done|]. destruct (BBLOCK_range b' Hb') as [_ H]. lia.
Qed.

Lemma find_free_spec d left bi :
  match find_free d left bi with
  | Some c => bi <= c < bi + Z.of_nat left /\ bit_free d c = true /\
      forall j, bi <= j < c -> bit_free d j = false
  | None => forall j, bi <= j < bi + Z.of_nat left -> bit_free d j = false
  end.
Proof using Type.
  revert bi. induction left as [|left IH]; intros bi; simpl; [intros; lia|].
  destruct (bit_free d bi) eqn:E; [split_and!; try done; lia|].
  specialize (IH (bi + 1)). destruct (find_free d left (bi + 1)) as [c|].
  - destruct IH as (H1 & H2 & H3). split_and!; try done; try lia. intros j Hj.
    destruct (decide (j = bi)) as [->|]; [done|]. apply H3. lia.
  - intros j Hj. destruct (decide (j = bi)) as [->|]; [done|]. apply IH. lia.
Qed.

(** The room after [balloc] has logged the bitmap block and block [r]. *)
Definition alloc_room (r : Z) (L : list Z) (k : Z) : Z :=
  room r (BBLOCK r sb :: L) (room (BBLOCK r sb) L k).

(** The room it needs. *)
Definition alloc_cost (r : Z) (L : list Z) : Z := if decide (BBLOCK r sb ∈ L) then 1 else 2.

(** The contents after [balloc] has returned [r]. *)
Definition allocated (r : Z) (V : Z -> block) : Z -> block := upd (mark r V) r zero_block.

(** The buffers that callers of [balloc] and [bfree] hold are of data blocks
    in use. *)
Definition held_data (Hl : list (Z * nat)) (V : Z -> block) : Prop :=
  forall b, b ∈ Hl.*1 -> data_start sb <= b < sb_size sb /\ used sb V b = true.

Lemma BBLOCK_not_held Hl V b : held_data Hl V -> 0 <= b < sb_size sb -> BBLOCK b sb ∉ Hl.*1.
Proof using Hsb.
  intros Hh Hb Hin. destruct (Hh _ Hin) as [H _]. destruct (BBLOCK_range b Hb). lia.
Qed.

Lemma data_start_pos : 0 < data_start sb.
Proof using Hsb.
  destruct Hsb as [H1 H2 H3 H4 H5 H6 H7]. unfold data_start in *.
  change BPB with 8192 in *. change IPB with 16 in *. lia.
Qed.

Lemma bitmap_before_data : sb_bmapstart sb < data_start sb.
Proof using Hsb.
  pose proof data_start_pos. pose proof (sbo_data _ Hsb). unfold data_start in *. change BPB with 8192 in *. lia.
Qed.

(** The log lies before the inodes. *)
Definition log_first (cx : tctx) : Prop := c_start cx + c_size cx <= sb_inodestart sb.

Lemma inodes_first : sb_inodestart sb <= sb_bmapstart sb /\ 0 <= sb_inodestart sb.
Proof using Hsb. destruct Hsb as [H1 H2 H3 H4 H5 H6 H7]. change IPB with 16 in *. lia. Qed.

Lemma data_loggable cx b : log_first cx -> data_start sb <= b < sb_size sb -> loggable cx b.
Proof using Hsb.
  unfold log_first, loggable. intros Hc Hb. pose proof bitmap_before_data. pose proof inodes_first.
  pose proof (sbo_size _ Hsb). lia.
Qed.

Lemma bitmap_loggable cx b : log_first cx -> 0 <= b < sb_size sb -> loggable cx (BBLOCK b sb).
Proof using Hsb.
  unfold log_first, loggable. intros Hc Hb. destruct (BBLOCK_range b Hb) as [_ H]. pose proof inodes_first.
  pose proof (sbo_size _ Hsb). pose proof (sbo_data _ Hsb). lia.
Qed.

Lemma balloc_loop_spec pid dev cx left b Hl V L k s :
  lst pid dev cx Hl [] V L k s -> log_first cx -> blocks_ok sb V -> held_data Hl V -> (length Hl <= 2)%nat ->
  (forall b, 0 <= b < sb_size sb -> alloc_cost b L <= k) ->
  b mod BPB = 0 -> 0 <= b -> (Z.to_nat (sb_size sb - b) < left)%nat ->
  (forall b', 0 <= b' < sb_size sb -> b' < b -> used sb V b' = true) ->
  wp (balloc_loop pid sb dev left b) (fun r s' =>
    (r = 0 /\ lst pid dev cx Hl [] V L k s' /\ forall b', 0 <= b' < sb_size sb -> used sb V b' = true) \/
    (data_start sb <= r < sb_size sb /\ used sb V r = false /\
     lst pid dev cx Hl [] (allocated r V) (r :: BBLOCK r sb :: L) (alloc_room r L k) s')) s.
Proof using Hsb.
  intros Hs Hc Hv Hh Hlen Hk Hm Hb Hleft Hall. revert b s Hs Hm Hb Hleft Hall.
  induction left as [|left IH]; intros b s Hs Hm Hb Hleft Hall; [lia|]. cbn [balloc_loop].
  destruct (Z.ltb_spec b (sb_size sb)) as [Hbs|Hbs]; cbn [negb].
  2: { apply wp_ret. left. split_and!; try done. intros b' Hb'. apply Hall; lia. }
  pose proof (BBLOCK_not_held Hl V b Hh ltac:(lia)) as HB.
  wp_call (lst_bread pid dev cx Hl [] V L k (BBLOCK b sb) s Hs). intros i s1 H1. apply wp_bind.
  eapply lst_data; [exact H1|left|].
  pose proof (find_free_spec (V (BBLOCK b sb)) (Z.to_nat (Z.min BPB (sb_size sb - b))) 0) as Hf.
  assert (Hbit : forall j, 0 <= j < Z.min BPB (sb_size sb - b) ->
    BBLOCK (b + j) sb = BBLOCK b sb /\ (b + j) mod BPB = j).
  { intros j Hj. destruct (BBLOCK_range b ltac:(lia)) as [-> _], (BBLOCK_range (b + j) ltac:(lia)) as [-> _].
    change BPB with 8192 in *. lia. }
  destruct (find_free _ _ 0) as [bi|].
  - destruct Hf as (Hbi & Hfree & _). destruct (Hbit bi ltac:(lia)) as [EB EM].
    assert (Hnu : used sb V (b + bi) = false) by (unfold used; by rewrite EB, EM, Hfree).
    assert (Hds : data_start sb <= b + bi).
    { destruct (Z.le_gt_cases (data_start sb) (b + bi)) as [|Hlt]; [done|].
      rewrite (bo_meta _ _ Hv) in Hnu by lia. done. }
    wp_call (lst_edit pid dev cx _ _ _ _ _ (BBLOCK b sb) i (bit_set bi) s1 H1); [left|]. intros _ s2 H2.
    pose proof (bitmap_loggable cx b Hc ltac:(lia)) as Hlb.
    pose proof (Hk (b + bi) ltac:(lia)) as Hac. unfold alloc_cost in Hac. rewrite EB in Hac.
    wp_call (lst_log_write pid dev cx _ _ [] _ _ _ (BBLOCK b sb) i s2 H2);
      [left|by case_decide; intros; lia || done|set_solver|]. intros _ s3 H3.
    wp_call (lst_brelse pid dev cx _ _ _ _ _ (BBLOCK b sb) i s3 H3); [apply not_elem_of_nil|]. intros _ s4 H4.
    wp_call (bzero_spec pid dev cx Hl _ _ _ (b + bi) s4 H4).
    { intros Hin. destruct (Hh _ Hin) as [_ Hu]. congruence. }
    { intros _. unfold room. destruct (decide (BBLOCK b sb ∈ L)); lia. }
    { apply data_loggable; [done|lia]. }
    intros _ s5 H5. apply wp_ret. right. split_and!; try done; [lia|].
    unfold allocated, mark, alloc_room. by rewrite EB, EM.
  - wp_call (lst_brelse pid dev cx _ _ _ _ _ (BBLOCK b sb) i s1 H1); [apply not_elem_of_nil|]. intros _ s2 H2.
    apply IH; try done.
    + change BPB with 8192 in *. lia.
    + change BPB with 8192. lia.
    + change BPB with 8192. lia.
    + intros b' Hb' Hlt. destruct (Z.le_gt_cases b b') as [Hge|]; [|by apply Hall].
      destruct (Hbit (b' - b) ltac:(lia)) as [EB EM]. unfold used.
      replace (b + (b' - b)) with b' in EB, EM by lia. rewrite EB, EM, Hf by lia. done.
Qed.

Lemma balloc_spec pid dev cx Hl V L k s :
  lst pid dev cx Hl [] V L k s -> log_first cx -> blocks_ok sb V -> held_data Hl V -> (length Hl <= 2)%nat ->
  (forall b, 0 <= b < sb_size sb -> alloc_cost b L <= k) ->
  wp (balloc pid sb dev) (fun r s' =>
    (r = 0 /\ lst pid dev cx Hl [] V L k s' /\ forall b', 0 <= b' < sb_size sb -> used sb V b' = true) \/
    (data_start sb <= r < sb_size sb /\ used sb V r = false /\
     lst pid dev cx Hl [] (allocated r V) (r :: BBLOCK r sb :: L) (alloc_room r L k) s')) s.
Proof using Hsb.
  intros Hs Hc Hv Hh Hlen Hk. apply balloc_loop_spec; try done; [lia|]. intros. lia.
Qed.

(** [bfree] of a block in use. *)
Lemma bfree_spec pid dev cx Hl V L k b s :
  lst pid dev cx Hl [] V L k s -> log_first cx -> blocks_ok sb V -> held_data Hl V -> (length Hl <= 2)%nat -> (BBLOCK b sb ∉ L -> 1 <= k) ->
  0 <= b < sb_size sb -> used sb V b = true ->
  wp (bfree pid sb dev b) (fun _ s' => lst pid dev cx Hl [] (unmark b V) (BBLOCK b sb :: L) (room (BBLOCK b sb) L k) s') s.
Proof using Hsb.
  intros Hs Hc Hv Hh Hlen Hk Hb Hu. pose proof (bitmap_loggable cx b Hc Hb). unfold bfree. pose proof (BBLOCK_not_held Hl V b Hh ltac:(lia)) as HB.
  wp_call (lst_bread pid dev cx Hl [] V L k (BBLOCK b sb) s Hs). intros i s1 H1. apply wp_bind.
  eapply lst_data; [exact H1|left|]. cbv zeta. unfold used in Hu. apply negb_true_iff in Hu. rewrite Hu.
  wp_call (lst_edit pid dev cx _ _ _ _ _ (BBLOCK b sb) i (bit_reset (b mod BPB)) s1 H1); [left|]. intros _ s2 H2.
  wp_call (lst_log_write pid dev cx _ _ [] _ _ _ (BBLOCK b sb) i s2 H2); [left|set_solver|]. intros _ s3 H3.
  wp_last (lst_brelse pid dev cx _ _ _ _ _ (BBLOCK b sb) i s3 H3); [apply not_elem_of_nil|]. done.
Qed.

(** [bfree] of a free block panics. *)
Lemma bfree_panics pid dev cx Hl V L k b s :
  lst pid dev cx Hl [] V L k s -> held_data Hl V -> (length Hl <= 2)%nat ->
  0 <= b < sb_size sb -> used sb V b = false ->
  bfree pid sb dev b s = Panic "freeing free block".
Proof using Hsb.
  intros Hs Hh Hlen Hb Hu. pose proof (BBLOCK_not_held Hl V b Hh ltac:(lia)) as HB. unfold bfree.
  destruct (proj1 (wp_returns _ _ _) (lst_bread pid dev cx Hl [] V L k (BBLOCK b sb) s Hs HB Hlen))
    as (i & s1 & E1 & H1). rewrite (bind_ret_eq _ _ _ _ _ E1).
  destruct (proj1 (wp_returns _ _ _) (lst_data pid dev cx _ _ _ _ _ (BBLOCK b sb) i s1
    (fun d s' => d = V (BBLOCK b sb) /\ s' = s1) H1 ltac:(left) ltac:(done))) as (d & s2 & E2 & -> & ->).
  rewrite (bind_ret_eq _ _ _ _ _ E2). unfold used in Hu. apply negb_false_iff in Hu. cbv zeta. by rewrite Hu.
Qed.
End bitmap.
