(* ===== verification/FsInode.v ===== *)
(** * Inodes on disk and in memory

    The dinode layout, [iupdate] and [ilock], the inode table with its
    reference counts, and the block maps of files. *)

From S2P Require Import Prelude Bytes Locks Bio Log Fs FsBlocks.

(** ** The bytes of a dinode *)

Definition short (x : Z) : Prop := - 2 ^ 15 <= x < 2 ^ 15.
Definition uint (x : Z) : Prop := 0 <= x < 2 ^ 32.

(** The fields have the values of their C types. *)
Record dinode_ok (x : dinode) : Prop := {
  do_type : short (d_type x);
  do_major : short (d_major x);
  do_minor : short (d_minor x);
  do_nlink : short (d_nlink x);
  do_size : uint (d_size x);
  do_addrs : length (d_addrs x) = (NDIRECT + 1)%nat;
  do_addr : Forall uint (d_addrs x);
}.

Lemma i16_short x : short x -> i16 (x mod 2 ^ 16) = x.
Proof. unfold short, i16. lia. Qed.

Lemma get16_put_same d off v :
  (off + 2 <= length d)%nat -> get16 (put d off (le_bytes 2 v)) off = v mod 2 ^ 16.
Proof.
  intros H. unfold get16. rewrite <-(length_le_bytes 2 v) at 2.
  rewrite slice_put_same by (rewrite length_le_bytes; lia). by rewrite le_val_bytes.
Qed.

Lemma length_addrs_bytes l : length (addrs_bytes l) = (4 * length l)%nat.
Proof.
  induction l as [|a l IH]; [done|]. unfold addrs_bytes in *. cbn [flat_map].
  rewrite length_app, length_le_bytes, IH. simpl. lia.
Qed.

Lemma get32_addrs d o l k : (o + 4 * length l <= length d)%nat -> Forall uint l -> (k < length l)%nat ->
  get32 (put d o (addrs_bytes l)) (o + 4 * k) = nth k l 0.
Proof.
  revert d o k. induction l as [|a l IH]; intros d o k Hlen Hu Hk; simpl in Hlen, Hk; [lia|].
  apply Forall_cons in Hu as [Ha Hu]. unfold addrs_bytes, put. cbn [flat_map].
  rewrite list_inserts_app_l, length_le_bytes. fold (addrs_bytes l).
  fold (put d o (le_bytes 4 a)). fold (put32 d o a). fold (put (put32 d o a) (4 + o) (addrs_bytes l)).
  destruct k as [|k].
  - rewrite Nat.mul_0_r, Nat.add_0_r, get32_put_other by (left; lia).
    apply get32_put32; [lia|done].
  - replace (o + 4 * S k)%nat with (4 + o + 4 * k)%nat by lia. cbn [nth].
    apply IH; [|done|lia]. rewrite length_put32. lia.
Qed.

Lemma length_encode x o d : length (encode_dinode x o d) = length d.
Proof. unfold encode_dinode. by autorewrite with bytes. Qed.

Lemma get_addrs d o l : (o + 4 * length l <= length d)%nat -> Forall uint l ->
  map (fun k => get32 (put d o (addrs_bytes l)) (o + 4 * k)) (seq 0 (length l)) = l.
Proof.
  intros Hlen Hu. apply list_eq. intros k. rewrite list_lookup_fmap.
  destruct (decide (k < length l)%nat) as [Hk|Hk].
  - rewrite lookup_seq_lt by done. cbn -[get32 Nat.mul addrs_bytes]. rewrite get32_addrs by done.
    rewrite nth_lookup. destruct (lookup_lt_is_Some_2 l k Hk) as [v ->]. done.
  - rewrite lookup_seq_ge by lia. simpl. symmetry. apply lookup_ge_None_2. lia.
Qed.

(** Writing a dinode and reading it back; the other dinodes of the block stay. *)
Lemma decode_encode x o d : dinode_ok x -> (o + 64 <= length d)%nat ->
  decode_dinode (encode_dinode x o d) o = x.
Proof.
  intros [H1 H2 H3 H4 H5 H6 H7] Hlen. unfold NDIRECT in H6.
  assert (Ha : length (addrs_bytes (d_addrs x)) = 52%nat) by (rewrite length_addrs_bytes, H6; lia).
  unfold decode_dinode, encode_dinode. cbv zeta. unfold NDIRECT.
  rewrite <-H6, get_addrs by (autorewrite with bytes; done || lia).
  destruct x as [ty ma mi nl sz ad]; simpl in H1, H2, H3, H4, H5 |- *.
  rewrite get32_put_other by (left; lia). rewrite get32_put32 by (autorewrite with bytes; done || lia).
  unfold put32, put16. f_equal;
    rewrite ?get16_put_other by (autorewrite with bytes; lia);
    rewrite get16_put_same by (autorewrite with bytes; lia); by apply i16_short.
Qed.

Lemma decode_encode_other x o o' d : length (d_addrs x) = (NDIRECT + 1)%nat ->
  (o' + 64 <= o \/ o + 64 <= o')%nat ->
  decode_dinode (encode_dinode x o d) o' = decode_dinode d o'.
Proof.
  intros H6 Ho. unfold NDIRECT in H6.
  assert (Ha : length (addrs_bytes (d_addrs x)) = 52%nat) by (rewrite length_addrs_bytes, H6; lia).
  unfold decode_dinode, encode_dinode. cbv zeta.
  assert (E16 : forall f, (f + 2 <= 64)%nat -> get16 (encode_dinode x o d) (o' + f) = get16 d (o' + f)).
  { intros f Hf. unfold encode_dinode, put32, put16. cbv zeta.
    rewrite !get16_put_other by (autorewrite with bytes; lia). done. }
  assert (E32 : forall f, (f + 4 <= 64)%nat -> get32 (encode_dinode x o d) (o' + f) = get32 d (o' + f)).
  { intros f Hf. unfold encode_dinode, put32, put16. cbv zeta.
    rewrite !get32_put_other by (autorewrite with bytes; lia). done. }
  unfold encode_dinode in E16, E32. cbv zeta in E16, E32.
  pose proof (E16 0%nat ltac:(lia)) as E0. rewrite Nat.add_0_r in E0.
  rewrite E0, !E16, E32 by lia. f_equal. apply map_ext_in. intros k Hk%List.in_seq. unfold NDIRECT in Hk.
  rewrite <-!Nat.add_assoc. apply E32. lia.
Qed.

(** ** Inodes on disk *)

Section ondisk.
Context (sb : superblock) (Hsb : sb_ok sb).

Definition inum_ok (inum : Z) : Prop := 0 <= inum < sb_ninodes sb.

(** The dinode of an inode, and the contents with another one. *)
Definition dino (V : Z -> block) (inum : Z) : dinode :=
  decode_dinode (V (IBLOCK inum sb)) (dinode_off inum).
Definition put_dino (x : dinode) (inum : Z) (V : Z -> block) : Z -> block :=
  upd V (IBLOCK inum sb) (encode_dinode x (dinode_off inum) (V (IBLOCK inum sb))).

Lemma IBLOCK_range inum : inum_ok inum ->
  IBLOCK inum sb = inum / IPB + sb_inodestart sb /\
  sb_inodestart sb <= IBLOCK inum sb < sb_bmapstart sb.
Proof using Hsb.
  unfold inum_ok. intros Hi. destruct Hsb as [H1 H2 H3 H4 H5 H6 H7]. unfold IBLOCK, data_start in *.
  change BPB with 8192 in *. change IPB with 16 in *. rewrite u32_id by lia. lia.
Qed.

Lemma inode_loggable cx inum : log_first sb cx -> inum_ok inum -> loggable cx (IBLOCK inum sb).
Proof using Hsb.
  unfold log_first, loggable. intros Hc Hi. destruct (IBLOCK_range inum Hi) as [_ H].
  pose proof (bitmap_before_data sb Hsb). pose proof (sbo_size _ Hsb). pose proof (sbo_data _ Hsb).
  pose proof (inodes_first sb Hsb). lia.
Qed.

Lemma dinode_off_range inum : (dinode_off inum + 64 <= 1024)%nat.
Proof using Type. unfold dinode_off, DINODE_SIZE. change IPB with 16. lia. Qed.

Lemma dinode_off_far inum inum' : inum_ok inum -> inum_ok inum' -> inum <> inum' ->
  IBLOCK inum sb = IBLOCK inum' sb ->
  (dinode_off inum' + 64 <= dinode_off inum \/ dinode_off inum + 64 <= dinode_off inum')%nat.
Proof using Hsb.
  intros Hi Hi' Hne. destruct (IBLOCK_range inum Hi) as [-> _], (IBLOCK_range inum' Hi') as [-> _].
  unfold inum_ok in *. unfold dinode_off, DINODE_SIZE. change IPB with 16. lia.
Qed.

Lemma dino_put x V inum inum' : blocks_ok sb V -> inum_ok inum -> inum_ok inum' -> dinode_ok x ->
  dino (put_dino x inum V) inum' = if decide (inum' = inum) then x else dino V inum'.
Proof using Hsb.
  intros Hv Hi Hi' Hx. unfold dino, put_dino. pose proof (dinode_off_range inum).
  destruct (decide (inum' = inum)) as [->|Hne].
  - rewrite upd_same. apply decode_encode; [done|]. rewrite (bo_len _ _ Hv). change (Z.to_nat BSIZE) with 1024%nat. lia.
  - destruct (decide (IBLOCK inum' sb = IBLOCK inum sb)) as [E|E].
    + rewrite E, upd_same. apply decode_encode_other; [apply Hx|]. by apply dinode_off_far.
    + by rewrite upd_other.
Qed.

Lemma put_dino_data x inum V b : inum_ok inum -> sb_bmapstart sb <= b -> put_dino x inum V b = V b.
Proof using Hsb. intros Hi Hb. unfold put_dino. rewrite upd_other; [done|]. destruct (IBLOCK_range inum Hi). lia. Qed.

Lemma used_put_dino x inum V b : inum_ok inum -> 0 <= b < sb_size sb ->
  used sb (put_dino x inum V) b = used sb V b.
Proof using Hsb.
  intros Hi Hb. unfold used. rewrite put_dino_data; [done|done|]. by apply BBLOCK_range.
Qed.

Lemma blocks_ok_put_dino x inum V : inum_ok inum -> blocks_ok sb V -> blocks_ok sb (put_dino x inum V).
Proof using Hsb.
  intros Hi [H1 H2]. split.
  - intros b. unfold put_dino. upd_cases b (IBLOCK inum sb); [by rewrite length_encode|done].
  - intros b Hb. rewrite used_put_dino; [by apply H2|done|]. pose proof (sbo_data _ Hsb). lia.
Qed.
End ondisk.

(** ** The operations on inodes *)

Section inode.
Context {E : Type} `{CE : CopyEnv E} (pid dev : Z) (cx : tctx) (sb : superblock) (Hsb : sb_ok sb).

(** The file system inside a transaction: the buffers held and changed,
    contents [V], inode table [T], and the room of the log. *)
Record fsh (Hl : list (Z * nat)) (X : list Z) (V : Z -> block) (L : list Z) (k : Z) (T : nat -> inode) (e : E) (s : fstate E) : Prop := {
  fx_sb : fsb s = sb;
  fx_log : log_first sb cx;
  fx_l : lst pid dev cx Hl X V L k (fl s);
  fx_t : itable s = T;
  fx_e : fenv s = e;
}.
Abbreviation fsx := (fsh [] []).

Lemma wp_lift {A} (m : M lstate A) (Q : A -> fstate E -> Prop) s :
  wp m (fun a x => Q a (set_fl x s)) (fl s) -> wp (lift m) Q s.
Proof using Type. apply wp_zoom. Qed.

Lemma fsx_change Hl X V L k T e ip f s :
  fsh Hl X V L k T e s -> fsh Hl X V L k (upd T ip (f (T ip))) e (set_inode ip f s).
Proof using Type. intros [H1 Hc H2 H3 H4]. split; simpl; try done. by rewrite H3. Qed.

Lemma wp_change_inode Hl X V L k T e ip f (Q : unit -> fstate E -> Prop) s :
  fsh Hl X V L k T e s -> (forall s', fsh Hl X V L k (upd T ip (f (T ip))) e s' -> Q tt s') ->
  wp (change_inode ip f) Q s.
Proof using Type. intros Hs HQ. apply wp_modify, HQ. by apply fsx_change. Qed.

Lemma wp_get_inode Hl X V L k T e ip (Q : inode -> fstate E -> Prop) s :
  fsh Hl X V L k T e s -> Q (T ip) s -> wp (get_inode ip) Q s.
Proof using Type. intros [H1 Hc H2 H3 H4] HQ. apply wp_gets. by rewrite H3. Qed.

Lemma wp_get_sb Hl X V L k T e (Q : superblock -> fstate E -> Prop) s :
  fsh Hl X V L k T e s -> Q sb s -> wp (gets fsb) Q s.
Proof using Type. intros [H1 Hc H2 H3 H4] HQ. apply wp_gets. by rewrite H1. Qed.

(** An operation on blocks. *)
Lemma wp_lift_fsh {A} (m : M lstate A) Hl X V L k T e (Q : A -> fstate E -> Prop) s :
  fsh Hl X V L k T e s ->
  wp m (fun a x => exists Hl' X' V' L' k', lst pid dev cx Hl' X' V' L' k' x /\
    forall s', fsh Hl' X' V' L' k' T e s' -> Q a s') (fl s) ->
  wp (lift m) Q s.
Proof using Type.
  intros [H1 Hc H2 H3 H4] Hm. apply wp_lift. eapply wp_mono; [exact Hm|].
  intros a x (Hl' & X' & V' & L' & k' & Hx & HQ). apply HQ. by split.
Qed.

Lemma wp_lift_fsx {A} (m : M lstate A) V L k T e (Q : A -> fstate E -> Prop) s :
  fsx V L k T e s ->
  wp m (fun a x => exists V' L' k', lst pid dev cx [] [] V' L' k' x /\
    forall s', fsx V' L' k' T e s' -> Q a s') (fl s) ->
  wp (lift m) Q s.
Proof using Type.
  intros Hs Hm. eapply wp_lift_fsh; [exact Hs|]. eapply wp_mono; [exact Hm|].
  intros a x (V' & L' & k' & H). by exists [], [], V', L', k'.
Qed.

Lemma iupdate_spec V L k T e ip s :
  fsx V L k T e s -> i_dev (T ip) = dev -> inum_ok sb (i_inum (T ip)) -> (IBLOCK (i_inum (T ip)) sb ∉ L -> 1 <= k) ->
  wp (iupdate pid ip) (fun _ s' =>
    fsx (put_dino sb (i_d (T ip)) (i_inum (T ip)) V) (IBLOCK (i_inum (T ip)) sb :: L)
      (room (IBLOCK (i_inum (T ip)) sb) L k) T e s') s.
Proof using Hsb.
  intros Hs Hd Hi Hk. unfold iupdate. apply wp_bind. eapply wp_get_sb; [exact Hs|].
  apply wp_bind. eapply wp_get_inode; [exact Hs|]. rewrite Hd. eapply wp_lift_fsx; [exact Hs|].
  eapply wp_mono; [apply (lst_edit_block pid dev cx [] V L k (IBLOCK (i_inum (T ip)) sb)); try done|].
  - apply Hs.
  - apply not_elem_of_nil.
  - simpl. lia.
  - apply inode_loggable; [done|apply Hs|done].
  - intros [] x Hx. eauto.
Qed.

(** *** Locking *)

(** The entry after [ilock]. *)
Definition locked_inode (V : Z -> block) (x : inode) : inode :=
  Inode (i_dev x) (i_inum x) (i_ref x) (locked_by pid) true
    (if i_valid x then i_d x else dino sb V (i_inum x)).

Lemma ilock_spec V L k T e ip s :
  fsx V L k T e s -> i_dev (T ip) = dev -> 1 <= i_ref (T ip) -> slocked (i_lock (T ip)) = false ->
  (i_valid (T ip) = false -> d_type (dino sb V (i_inum (T ip))) <> 0) ->
  wp (ilock pid ip) (fun _ s' => fsx V L k (upd T ip (locked_inode V (T ip))) e s') s.
Proof using Type.
  intros Hs Hd Hr Hk Hty. unfold ilock. apply wp_bind. eapply wp_get_inode; [exact Hs|].
  rewrite (proj2 (Z.ltb_ge _ _)) by lia. apply wp_bind.
  assert (Ha : wp (ilock_acquire pid ip) (fun _ s' =>
    fsx V L k (upd T ip (iset_lock (locked_by pid) (T ip))) e s') s).
  { unfold wp, ilock_acquire, acquiresleep. rewrite (fx_t _ _ _ _ _ _ _ _ Hs), Hk. by apply fsx_change. }
  eapply wp_mono; [exact Ha|]. intros [] s1 H1. apply wp_bind. eapply wp_get_inode; [exact H1|].
  rewrite upd_same. cbn [iset_lock i_valid i_dev i_inum]. destruct (i_valid (T ip)) eqn:Ev; cbn [negb].
  { apply wp_ret. unfold iset_lock in H1. unfold locked_inode. by rewrite Ev in *. }
  apply wp_bind. eapply wp_get_sb; [exact H1|]. apply wp_bind. rewrite Hd.
  eapply wp_lift_fsx; [exact H1|].
  eapply wp_mono; [apply (lst_read_block pid dev cx [] V L k (IBLOCK (i_inum (T ip)) sb))|].
  { apply H1. }
  { apply not_elem_of_nil. }
  { simpl. lia. }
  intros d x [-> Hx]. exists V, L, k. split; [done|]. clear s1 H1 x Hx. intros s2 H2.
  apply wp_bind. eapply wp_change_inode; [exact H2|]. intros s3 H3.
  apply wp_bind. eapply wp_change_inode; [exact H3|]. intros s4 H4.
  rewrite !upd_same, !upd_upd in H4. apply wp_bind. eapply wp_get_inode; [exact H4|]. rewrite upd_same.
  cbn [iset_valid iset_d i_d]. fold (dino sb V (i_inum (T ip))).
  rewrite (proj2 (Z.eqb_neq _ _)) by (by apply Hty). apply wp_ret.
  unfold locked_inode. rewrite Ev. exact H4.
Qed.

Lemma iunlock_spec V L k T e ip s :
  fsx V L k T e s -> i_lock (T ip) = locked_by pid -> 1 <= i_ref (T ip) ->
  wp (iunlock pid ip) (fun _ s' =>
    fsx V L k (upd T ip (iset_lock (Sleeplock false 0) (T ip))) e s') s.
Proof using Type.
  intros Hs Hk Hr. unfold iunlock. apply wp_bind. eapply wp_get_inode; [exact Hs|].
  rewrite Hk. unfold holdingsleep, locked_by. cbn [slocked spid]. rewrite Z.eqb_refl. cbn [andb negb orb].
  rewrite (proj2 (Z.ltb_ge _ _)) by lia. eapply wp_change_inode; [exact Hs|]. done.
Qed.

(** *** The inode table *)

Definition matches (T : nat -> inode) (d inum : Z) (ip : nat) : bool :=
  (0 <? i_ref (T ip)) && (i_dev (T ip) =? d) && (i_inum (T ip) =? inum).

Lemma iget_scan_eq T d inum l empty :
  iget_scan T d inum l empty =
  match List.find (matches T d inum) l with
  | Some ip => inl ip
  | None => inr (match empty with
                 | Some _ => empty
                 | None => List.find (fun ip => i_ref (T ip) =? 0) l
                 end)
  end.
Proof using Type.
  revert empty. induction l as [|ip l IH]; intros empty; simpl; [by destruct empty|].
  fold (matches T d inum ip). destruct (matches T d inum ip); [done|]. rewrite IH.
  destruct (List.find (matches T d inum) l); [done|]. destruct empty; [done|].
  by destruct (i_ref (T ip) =? 0).
Qed.

(** An inode has at most one entry in use. *)
Definition table_ok (T : nat -> inode) : Prop :=
  forall i j, (i < NINODE)%nat -> (j < NINODE)%nat -> 0 < i_ref (T i) -> 0 < i_ref (T j) ->
    i_dev (T i) = i_dev (T j) -> i_inum (T i) = i_inum (T j) -> i = j.

Lemma iget_new V L k T e inum s :
  fsx V L k T e s ->
  (forall i, (i < NINODE)%nat -> 0 < i_ref (T i) -> i_dev (T i) = dev -> i_inum (T i) <> inum) ->
  (exists i, (i < NINODE)%nat /\ i_ref (T i) = 0) ->
  wp (iget dev inum) (fun ip s' => (ip < NINODE)%nat /\ i_ref (T ip) = 0 /\
    fsx V L k (upd T ip (Inode dev inum 1 (i_lock (T ip)) false (i_d (T ip)))) e s') s.
Proof using Type.
  intros Hs Hno (i0 & Hi0 & Hz0). unfold iget. apply wp_bind, wp_gets. rewrite (fx_t _ _ _ _ _ _ _ _ Hs), iget_scan_eq.
  destruct (List.find (matches T dev inum) _) as [ip|] eqn:Ef.
  { apply List.find_some in Ef as [Hin Hm]. apply List.in_seq in Hin. unfold matches in Hm.
    exfalso. apply (Hno ip); lia. }
  destruct (List.find (fun ip => i_ref (T ip) =? 0) (seq 0 NINODE)) as [ip|] eqn:Ez.
  - apply List.find_some in Ez as [Hin Hm]. apply List.in_seq in Hin.
    apply wp_bind. eapply wp_change_inode; [exact Hs|]. intros s' Hs'. apply wp_ret. split_and!; [lia|lia|done].
  - exfalso. assert (Hc : (i_ref (T i0) =? 0) = false) by (eapply (List.find_none _ _ Ez), List.in_seq; lia). lia.
Qed.

Lemma iget_old V L k T e inum ip s :
  fsx V L k T e s -> table_ok T -> (ip < NINODE)%nat -> 0 < i_ref (T ip) < 2 ^ 31 - 1 ->
  i_dev (T ip) = dev -> i_inum (T ip) = inum ->
  wp (iget dev inum) (fun ip' s' => ip' = ip /\
    fsx V L k (upd T ip (iset_ref (i_ref (T ip) + 1) (T ip))) e s') s.
Proof using Type.
  intros Hs Hok Hip Hr Hd Hi. unfold iget. apply wp_bind, wp_gets. rewrite (fx_t _ _ _ _ _ _ _ _ Hs), iget_scan_eq.
  destruct (List.find (matches T dev inum) _) as [jp|] eqn:Ef.
  - apply List.find_some in Ef as [Hin Hm]. apply List.in_seq in Hin. unfold matches in Hm.
    assert (jp = ip) as -> by (apply Hok; lia). apply wp_bind. eapply wp_change_inode; [exact Hs|].
    intros s' Hs'. apply wp_ret. split; [done|]. by rewrite i32_id in Hs' by lia.
  - exfalso. assert (Hc : matches T dev inum ip = false) by (eapply (List.find_none _ _ Ef), List.in_seq; lia).
    unfold matches in Hc. lia.
Qed.

(** The entry [iget] returns, with a reference more. *)
Definition gotten (T : nat -> inode) (inum : Z) (ip : nat) (x : inode) : Prop :=
  (ip < NINODE)%nat /\ i_dev x = dev /\ i_inum x = inum /\ i_ref x = i_ref (T ip) + 1 /\
  i_lock x = i_lock (T ip) /\
  ((i_ref (T ip) = 0 /\ i_valid x = false /\
    forall j, (j < NINODE)%nat -> 0 < i_ref (T j) -> i_dev (T j) = dev -> i_inum (T j) <> inum) \/
   (0 < i_ref (T ip) /\ i_dev (T ip) = dev /\ i_inum (T ip) = inum /\ i_valid x = i_valid (T ip) /\
    i_d x = i_d (T ip))).

Lemma iget_spec V L k T e inum s :
  fsx V L k T e s -> table_ok T -> (forall j, (j < NINODE)%nat -> 0 <= i_ref (T j) < 2 ^ 31 - 1) ->
  (exists j, (j < NINODE)%nat /\ i_ref (T j) = 0) ->
  wp (iget dev inum) (fun ip s' => exists x, gotten T inum ip x /\ fsx V L k (upd T ip x) e s') s.
Proof using Type.
  intros Hs Hok Hr Hfree. destruct (List.find (matches T dev inum) (seq 0 NINODE)) as [ip|] eqn:Ef.
  - apply List.find_some in Ef as [Hin Hm]. apply List.in_seq in Hin. unfold matches in Hm.
    eapply wp_mono; [apply (iget_old V L k T e inum ip s Hs Hok); [lia|specialize (Hr ip); lia|lia|lia]|].
    intros ip' s' [-> Hs']. eexists. split; [|exact Hs']. unfold gotten. cbn [iset_ref i_dev i_inum i_ref i_lock i_valid i_d].
    split_and!; try done; try lia. right. split_and!; try done; lia.
  - assert (Hno : forall j, (j < NINODE)%nat -> 0 < i_ref (T j) -> i_dev (T j) = dev -> i_inum (T j) <> inum).
    { intros j Hj Hrj Hdj Hij. assert (Hc : matches T dev inum j = false) by (eapply (List.find_none _ _ Ef), List.in_seq; lia).
      unfold matches in Hc. lia. }
    eapply wp_mono; [by apply (iget_new V L k T e inum s Hs)|]. intros ip s' (Hip & Hz & Hs').
    eexists. split; [|exact Hs']. unfold gotten. cbn [i_dev i_inum i_ref i_lock i_valid i_d].
    split_and!; try done; try lia. left. by split_and!.
Qed.

(** [iput] of a reference that is not the last, or of an inode that still has
    links. *)
Lemma iput_spec V L k T e ip s :
  fsx V L k T e s -> 1 <= i_ref (T ip) < 2 ^ 31 ->
  (i_ref (T ip) = 1 -> i_valid (T ip) = true -> d_nlink (i_d (T ip)) <> 0) ->
  wp (iput pid ip) (fun _ s' => fsx V L k (upd T ip (iset_ref (i_ref (T ip) - 1) (T ip))) e s') s.
Proof using Type.
  intros Hs Hr Hl. unfold iput. apply wp_bind. eapply wp_get_inode; [exact Hs|].
  assert (Hg : (i_ref (T ip) =? 1) && i_valid (T ip) && (d_nlink (i_d (T ip)) =? 0) = false).
  { destruct (i_valid (T ip)); [|by rewrite andb_false_r].
    destruct (Z.eqb_spec (i_ref (T ip)) 1); [|done]. simpl. apply Z.eqb_neq. by apply Hl. }
  rewrite Hg. apply wp_bind, wp_ret. eapply wp_change_inode; [exact Hs|]. intros s' Hs'.
  by rewrite i32_id in Hs' by lia.
Qed.
End inode.
