(* ===== verification/FsFile.v ===== *)
(** * The block maps of files

    The block map of an inode, and [bmap] as an operation that extends it. *)

From S2P Require Import Prelude Bytes Locks Bio Log Fs FsBlocks FsInode.

(** ** Block maps

    The addresses a file holds: slots 0 to 11 are the direct blocks, slot 12
    the indirect block, slot 13 + j the entry j of the indirect block. *)

Definition NSLOT : nat := NDIRECT + 1 + NINDIRECT.
Definition slot (d : dinode) (V : Z -> block) (i : nat) : Z :=
  if (i <=? NDIRECT)%nat then nth i (d_addrs d) 0
  else if nth NDIRECT (d_addrs d) 0 =? 0 then 0
  else get32 (V (nth NDIRECT (d_addrs d) 0)) (4 * (i - 13)).
Definition data_slot (bn : Z) : nat :=
  if bn <? Z.of_nat NDIRECT then Z.to_nat bn else (Z.to_nat bn + 1)%nat.

Lemma data_slot_range bn : 0 <= bn < MAXFILE -> (data_slot bn < NSLOT)%nat /\ data_slot bn <> NDIRECT.
Proof.
  unfold data_slot, MAXFILE, NSLOT, NDIRECT, NINDIRECT. intros H.
  destruct (Z.ltb_spec bn (Z.of_nat 12)); lia.
Qed.

Lemma data_slot_inj bn bn' : 0 <= bn -> 0 <= bn' -> data_slot bn = data_slot bn' -> bn = bn'.
Proof.
  unfold data_slot, NDIRECT. intros H H'.
  destruct (Z.ltb_spec bn (Z.of_nat 12)), (Z.ltb_spec bn' (Z.of_nat 12)); lia.
Qed.

Lemma le_val_zero l : Forall (fun v => v = 0) l -> le_val l = 0.
Proof. induction 1 as [|v l Hv _ IH]; [done|]. simpl. lia. Qed.

Lemma zero_block_zero : Forall (fun v => v = 0) zero_block.
Proof. apply List.Forall_forall. intros v Hv. by apply List.repeat_spec in Hv. Qed.

Lemma get32_zero o : get32 zero_block o = 0.
Proof. apply le_val_zero. unfold slice. apply Forall_take, Forall_drop, zero_block_zero. Qed.

Lemma length_zero_block : length zero_block = Z.to_nat BSIZE.
Proof. apply List.repeat_length. Qed.

Section files.
Context (sb : superblock) (Hsb : sb_ok sb).

(** The blocks of a file are different data blocks in use. *)
Record file_ok (d : dinode) (V : Z -> block) : Prop := {
  fo_data : forall i, (i < NSLOT)%nat -> slot d V i <> 0 ->
    data_start sb <= slot d V i < sb_size sb /\ used sb V (slot d V i) = true;
  fo_inj : forall i j, (i < NSLOT)%nat -> (j < NSLOT)%nat -> slot d V i <> 0 ->
    slot d V i = slot d V j -> i = j;
}.

(** The file [d] in contents [V] becomes [d'] in [V'] by allocating blocks. *)
Record extends (d : dinode) (V : Z -> block) (d' : dinode) (V' : Z -> block) : Prop := {
  ex_blocks : blocks_ok sb V';
  ex_dinode : dinode_ok d';
  ex_file : file_ok d' V';
  ex_fields : d' = Dinode (d_type d) (d_major d) (d_minor d) (d_nlink d) (d_size d) (d_addrs d');
  ex_slot : forall i, (i < NSLOT)%nat -> slot d V i <> 0 -> slot d' V' i = slot d V i;
  ex_new : forall i, (i < NSLOT)%nat -> slot d V i = 0 -> slot d' V' i <> 0 ->
    used sb V (slot d' V' i) = false /\ (i <> NDIRECT -> V' (slot d' V' i) = zero_block);
  ex_used : forall b, 0 <= b < sb_size sb -> used sb V b = true -> used sb V' b = true;
  ex_meta : forall b, b < sb_bmapstart sb -> V' b = V b;
  ex_frame : forall b, data_start sb <= b < sb_size sb -> used sb V b = true ->
    b <> slot d V NDIRECT -> V' b = V b;
}.

Lemma extends_refl d V : blocks_ok sb V -> dinode_ok d -> file_ok d V -> extends d V d V.
Proof using Type. intros Hv Hd Hf. split; try done. by destruct d. Qed.

Lemma extends_trans d V d' V' d'' V'' :
  extends d V d' V' -> extends d' V' d'' V'' -> extends d V d'' V''.
Proof using Hsb.
  intros [A1 A2 A3 A4 A5 A6 A7 A8 A9] [B1 B2 B3 B4 B5 B6 B7 B8 B9]. pose proof (data_start_pos sb Hsb).
  assert (Hind : forall b, data_start sb <= b < sb_size sb -> used sb V b = true ->
    b <> slot d V NDIRECT -> b <> slot d' V' NDIRECT).
  { intros b Hb Hu Hne ->. destruct (decide (slot d V NDIRECT = 0)) as [E|E].
    - destruct (A6 NDIRECT) as [Hf _]; [unfold NSLOT; lia|done|lia|congruence].
    - rewrite A5 in Hne by (done || unfold NSLOT; lia). done. }
  split; try done.
  - rewrite A4 in B4. simpl in B4. exact B4.
  - intros i Hi Hz. rewrite B5; [by apply A5|done|by rewrite A5].
  - intros i Hi Hz Hn. destruct (decide (slot d' V' i = 0)) as [E|E].
    + destruct (B6 i Hi E Hn) as [Hu Hz']. split; [|done].
      destruct (used sb V (slot d'' V'' i)) eqn:Eu; [|done]. destruct (fo_data _ _ B3 i Hi Hn) as [Hr _].
      rewrite A7 in Hu by (done || lia). done.
    + rewrite (B5 i Hi E) in *. destruct (A6 i Hi Hz E) as [Hu Hz']. split; [done|]. intros Hne.
      destruct (fo_data _ _ A3 i Hi E) as [Hr Hu']. rewrite B9; [by apply Hz'|done|done|].
      intros Hc. apply Hne. eapply (fo_inj _ _ A3); [done|unfold NSLOT; lia|done|done].
  - intros b Hb Hu. by apply B7, A7.
  - intros b Hb. by rewrite B8, A8.
  - intros b Hb Hu Hne. rewrite B9; [by apply A9|done|by apply A7; [lia|]|by apply Hind].
Qed.

(** A block [r] allocated for slot [j]. *)
Lemma grown_extends d V d' V' j r :
  blocks_ok sb V -> file_ok d V -> (j < NSLOT)%nat -> slot d V j = 0 ->
  data_start sb <= r < sb_size sb -> used sb V r = false ->
  dinode_ok d' -> blocks_ok sb V' ->
  d' = Dinode (d_type d) (d_major d) (d_minor d) (d_nlink d) (d_size d) (d_addrs d') ->
  (forall i, (i < NSLOT)%nat -> slot d' V' i = if decide (i = j) then r else slot d V i) ->
  (forall b, 0 <= b < sb_size sb -> used sb V' b = (r =? b) || used sb V b) ->
  V' r = zero_block ->
  (forall b, b < sb_bmapstart sb -> V' b = V b) ->
  (forall b, data_start sb <= b < sb_size sb -> b <> r -> b <> slot d V NDIRECT -> V' b = V b) ->
  extends d V d' V'.
Proof using Hsb.
  intros Hv [F1 F2] Hj Hz Hr Hu Hd' Hv' Hm Hs Hus Hzero Hlow Hfr. pose proof (data_start_pos sb Hsb).
  split; try done.
  - split.
    + intros i Hi. rewrite Hs by done. case_decide as E.
      * intros _. split; [done|]. rewrite Hus by lia. by rewrite Z.eqb_refl.
      * intros Hn. destruct (F1 i Hi Hn) as [Hrg Hui]. split; [done|]. rewrite Hus, Hui by lia. apply orb_true_r.
    + intros i i' Hi Hi'. rewrite !Hs by done. repeat case_decide; try congruence.
      * intros _ E. rewrite E in Hu. destruct (F1 i' Hi') as [_ Hc]; [lia|congruence].
      * intros Hn E. rewrite <-E in Hu. destruct (F1 i Hi) as [_ Hc]; [lia|congruence].
      * by apply F2.
  - intros i Hi Hn. rewrite Hs by done. case_decide; [congruence|done].
  - intros i Hi Hz' . rewrite Hs by done. case_decide; [done|congruence].
  - intros b Hb Hub. rewrite Hus, Hub by done. apply orb_true_r.
  - intros b Hb Hub Hne. apply Hfr; [done| |done]. congruence.
Qed.

(** *** What [balloc] does to the contents *)

Lemma allocated_other r V b : 0 <= r < sb_size sb -> b <> r ->
  b < sb_bmapstart sb \/ data_start sb <= b -> allocated sb r V b = V b.
Proof using Hsb.
  intros Hr Hne Hb. unfold allocated, mark. rewrite upd_other by done. rewrite upd_other; [done|].
  destruct (BBLOCK_range sb Hsb r Hr). lia.
Qed.

Lemma allocated_self r V : allocated sb r V r = zero_block.
Proof using Type. apply upd_same. Qed.

Lemma used_allocated r V b : blocks_ok sb V -> data_start sb <= r < sb_size sb -> 0 <= b < sb_size sb ->
  used sb (allocated sb r V) b = (r =? b) || used sb V b.
Proof using Hsb.
  intros Hv Hr Hb. pose proof (data_start_pos sb Hsb). unfold allocated.
  rewrite used_data by (done || lia). apply used_mark; try done. lia.
Qed.

Lemma blocks_ok_upd V b d : blocks_ok sb V -> data_start sb <= b -> length d = Z.to_nat BSIZE ->
  blocks_ok sb (upd V b d).
Proof using Hsb.
  intros [H1 H2] Hb Hd. split.
  - intros b'. upd_cases b' b; done.
  - intros b' Hb'. rewrite used_data; [by apply H2|done|done|]. pose proof (sbo_data _ Hsb). lia.
Qed.

Lemma blocks_ok_allocated r V : blocks_ok sb V -> data_start sb <= r < sb_size sb ->
  blocks_ok sb (allocated sb r V).
Proof using Hsb.
  intros Hv Hr. apply blocks_ok_upd; [|lia|apply length_zero_block].
  pose proof (data_start_pos sb Hsb). destruct Hv as [H1 H2]. split.
  - intros b. unfold mark. upd_cases b (BBLOCK r sb); [by rewrite length_bit_set|done].
  - intros b Hb. rewrite used_mark by (try done; lia). rewrite H2 by done. apply orb_true_r.
Qed.

Lemma slot_low d V i : (i <= NDIRECT)%nat -> slot d V i = nth i (d_addrs d) 0.
Proof using Type. intros Hi. unfold slot. by rewrite (proj2 (Nat.leb_le _ _)). Qed.
Lemma slot_high d V i : (NDIRECT < i)%nat -> slot d V NDIRECT <> 0 ->
  slot d V i = get32 (V (slot d V NDIRECT)) (4 * (i - 13)).
Proof using Type.
  intros Hi. rewrite (slot_low d V NDIRECT) by done. intros Hn. unfold slot.
  rewrite (proj2 (Nat.leb_gt _ _)) by done. by rewrite (proj2 (Z.eqb_neq _ _)).
Qed.
Lemma slot_none d V i : (NDIRECT < i)%nat -> slot d V NDIRECT = 0 -> slot d V i = 0.
Proof using Type.
  intros Hi. rewrite (slot_low d V NDIRECT) by done. intros Hn. unfold slot.
  rewrite (proj2 (Nat.leb_gt _ _)) by done. by rewrite Hn.
Qed.

Lemma dinode_ok_addr d j r : dinode_ok d -> uint r -> dinode_ok (dset_addr j r d).
Proof using Type.
  intros [H1 H2 H3 H4 H5 H6 H7] Hr. split; simpl; try done; [by rewrite length_insert|by apply Forall_insert].
Qed.

Lemma slot_dset_addr d V V' j r i : dinode_ok d -> (i <= NDIRECT)%nat -> (j <= NDIRECT)%nat ->
  slot (dset_addr j r d) V' i = if decide (i = j) then r else slot d V i.
Proof using Type.
  intros Hd Hi Hj. rewrite !slot_low by done. simpl. rewrite !nth_lookup. case_decide as E.
  - subst i. rewrite list_lookup_insert_eq; [done|]. rewrite (do_addrs _ Hd). lia.
  - by rewrite list_lookup_insert_ne.
Qed.

(** [addrs[j]] set to a new block. *)
Lemma slot_grow_addr d V j r i :
  dinode_ok d -> file_ok d V -> (j <= NDIRECT)%nat -> slot d V j = 0 ->
  data_start sb <= r < sb_size sb -> used sb V r = false ->
  slot (dset_addr j r d) (allocated sb r V) i = if decide (i = j) then r else slot d V i.
Proof using Hsb.
  intros Hd Hf Hj Hz Hr Hu. pose proof (data_start_pos sb Hsb).
  destruct (decide (i <= NDIRECT)%nat) as [Hle|Hgt]; [by apply slot_dset_addr|].
  rewrite decide_False by lia.
  pose proof (slot_dset_addr d V (allocated sb r V) j r NDIRECT Hd ltac:(done) Hj) as H12.
  destruct (decide (NDIRECT = j)) as [<-|Hne].
  - rewrite slot_high, H12, allocated_self, get32_zero by lia. symmetry. apply slot_none; [lia|done].
  - destruct (decide (slot d V NDIRECT = 0)) as [E|E].
    + rewrite (slot_none d) by (done || lia). apply slot_none; [lia|congruence].
    + rewrite (slot_high d), slot_high, H12 by (congruence || lia).
      destruct (fo_data _ _ Hf NDIRECT ltac:(unfold NSLOT; lia) E) as [Hir Hiu].
      rewrite allocated_other; [done|lia|congruence|lia].
Qed.

Lemma grow_addr d V j r :
  blocks_ok sb V -> dinode_ok d -> file_ok d V -> (j <= NDIRECT)%nat -> slot d V j = 0 ->
  data_start sb <= r < sb_size sb -> used sb V r = false ->
  extends d V (dset_addr j r d) (allocated sb r V).
Proof using Hsb.
  intros Hv Hd Hf Hj Hz Hr Hu. pose proof (data_start_pos sb Hsb). pose proof (sbo_size _ Hsb).
  apply (grown_extends d V _ _ j r); try done.
  - unfold NSLOT. lia.
  - apply dinode_ok_addr; [done|]. unfold uint. lia.
  - by apply blocks_ok_allocated.
  - intros i _. by apply slot_grow_addr.
  - intros b Hb. by apply used_allocated.
  - apply allocated_self.
  - intros b Hb. apply allocated_other; [lia| |by left].
    pose proof (BBLOCK_range sb Hsb r ltac:(lia)). lia.
  - intros b Hb Hne _. apply allocated_other; [lia|done|lia].
Qed.

(** The entry of slot [j] of the indirect block set to a new block. *)
Definition entry_set (d : dinode) (V : Z -> block) (j : nat) (r : Z) : Z -> block :=
  let ind := slot d V NDIRECT in
  upd (allocated sb r V) ind (put32 (allocated sb r V ind) (4 * (j - 13)) r).

Lemma slot_grow_entry d V j r i :
  blocks_ok sb V -> file_ok d V -> (NDIRECT < j < NSLOT)%nat -> (i < NSLOT)%nat -> slot d V NDIRECT <> 0 ->
  data_start sb <= r < sb_size sb -> used sb V r = false ->
  slot d (entry_set d V j r) i = if decide (i = j) then r else slot d V i.
Proof using Hsb.
  intros Hv Hf Hj Hi Hn Hr Hu. pose proof (data_start_pos sb Hsb). pose proof (sbo_size _ Hsb).
  destruct (fo_data _ _ Hf NDIRECT ltac:(unfold NSLOT; lia) Hn) as [Hir Hiu].
  assert (Hlen : length (V (slot d V NDIRECT)) = 1024%nat) by apply Hv.
  unfold NSLOT, NDIRECT, NINDIRECT in Hj, Hi.
  destruct (decide (i <= NDIRECT)%nat) as [Hle|Hgt].
  { rewrite decide_False by (unfold NDIRECT in *; lia). by rewrite !slot_low. }
  unfold NDIRECT in Hgt. unfold entry_set. cbv zeta. set (W := upd _ _ _).
  assert (H12 : slot d W NDIRECT = slot d V NDIRECT) by (by rewrite !slot_low).
  rewrite slot_high, H12; [|unfold NDIRECT; lia|congruence]. unfold W. rewrite upd_same.
  rewrite (allocated_other r V) by (congruence || lia). case_decide as E.
  - subst i. apply get32_put32; lia.
  - rewrite get32_put32_other by lia. symmetry. apply slot_high; [unfold NDIRECT; lia|done].
Qed.

Lemma grow_entry d V j r :
  blocks_ok sb V -> dinode_ok d -> file_ok d V -> (NDIRECT < j < NSLOT)%nat ->
  slot d V NDIRECT <> 0 -> slot d V j = 0 ->
  data_start sb <= r < sb_size sb -> used sb V r = false ->
  extends d V d (entry_set d V j r).
Proof using Hsb.
  intros Hv Hd Hf Hj Hn Hz Hr Hu. pose proof (data_start_pos sb Hsb). pose proof (sbo_size _ Hsb).
  destruct (fo_data _ _ Hf NDIRECT ltac:(unfold NSLOT; lia) Hn) as [Hir Hiu].
  unfold NSLOT, NDIRECT, NINDIRECT in Hj.
  assert (Hne : slot d V NDIRECT <> r) by congruence.
  unfold entry_set. cbv zeta. apply (grown_extends d V _ _ j r); try done.
  - unfold NSLOT, NDIRECT, NINDIRECT. lia.
  - apply blocks_ok_upd; [by apply blocks_ok_allocated|lia|].
    rewrite length_put32. by apply blocks_ok_allocated.
  - by destruct d.
  - intros i Hi. apply slot_grow_entry; try done.
  - intros b Hb. rewrite used_data by (done || lia). by apply used_allocated.
  - rewrite upd_other by congruence. apply allocated_self.
  - intros b Hb. pose proof (BBLOCK_range sb Hsb r ltac:(lia)). rewrite upd_other by lia.
    apply allocated_other; [lia|lia|by left].
  - intros b Hb Hb' Hb''. rewrite upd_other by done. apply allocated_other; [lia|done|lia].
Qed.
End files.

(** ** [bmap] *)

Section bmap.
Context {E : Type} `{CE : CopyEnv E} (pid dev : Z) (cx : tctx) (sb : superblock) (Hsb : sb_ok sb).
Abbreviation fsx := (fsh pid dev cx sb [] []).
Abbreviation extends := (extends sb).

Definition with_d (d : dinode) (x : inode) : inode := iset_d (fun _ => d) x.

Lemma upd_with_d (T : nat -> inode) ip : upd T ip (with_d (i_d (T ip)) (T ip)) = T.
Proof using Type.
  apply functional_extensionality. intros jp. upd_cases jp ip; [|done]. by destruct (T ip).
Qed.

(** A block that is mapped. *)
Lemma bmap_read V L k T (e : E) ip bn s :
  fsx V L k T e s -> i_dev (T ip) = dev -> 0 <= bn < MAXFILE ->
  slot (i_d (T ip)) V (data_slot bn) <> 0 ->
  wp (bmap pid ip bn) (fun r s' => r = slot (i_d (T ip)) V (data_slot bn) /\ fsx V L k T e s') s.
Proof using Type.
  unfold MAXFILE. intros Hs Hd Hbn Hn. unfold bmap, data_slot, alloc_addr in *.
  destruct (Z.ltb_spec bn (Z.of_nat NDIRECT)) as [Hlt|Hge].
  { apply wp_bind. eapply wp_get_inode; [exact Hs|]. rewrite slot_low in Hn by (unfold NDIRECT in *; lia).
    unfold baddr. rewrite (proj2 (Z.eqb_neq _ _)) by done. apply wp_ret.
    rewrite slot_low by (unfold NDIRECT in *; lia). done. }
  cbv zeta. rewrite (proj2 (Z.ltb_lt _ _)) by lia.
  assert (Hi : slot (i_d (T ip)) V NDIRECT <> 0).
  { intros Hz. apply Hn. apply slot_none; [lia|done]. }
  rewrite slot_high in Hn by (done || lia). rewrite slot_high by (done || lia).
  rewrite slot_low in * by done. apply wp_bind, wp_bind. eapply wp_get_inode; [exact Hs|].
  unfold baddr. rewrite (proj2 (Z.eqb_neq _ _)) by done. apply wp_ret. rewrite (proj2 (Z.eqb_neq _ _)) by done.
  apply wp_bind. eapply wp_get_inode; [exact Hs|]. apply wp_bind. eapply wp_get_sb; [exact Hs|].
  rewrite Hd. eapply wp_lift_fsx; [exact Hs|]. set (ind := nth NDIRECT _ _) in *.
  wp_call (lst_bread pid dev cx [] [] V L k ind (fl s) (fx_l _ _ _ _ _ _ _ _ _ _ _ _ Hs)); [apply not_elem_of_nil|simpl; lia|].
  intros i s1 H1. apply wp_bind. eapply lst_data; [exact H1|left|]. cbv zeta.
  replace (4 * Z.to_nat (bn - Z.of_nat NDIRECT))%nat with (4 * (Z.to_nat bn + 1 - 13))%nat by (unfold NDIRECT in *; lia).
  rewrite (proj2 (Z.eqb_neq _ _)) by done. apply wp_bind, wp_ret.
  wp_call (lst_brelse pid dev cx _ _ _ _ _ _ _ s1 H1); [apply not_elem_of_nil|]. intros _ s2 H2.
  apply wp_ret. exists V, L, k. eauto.
Qed.

(** *** Allocation

    The disk has one bitmap block, as a disk of FSSIZE blocks has.  The log
    room an allocation takes is counted by the blocks that are not logged yet:
    the bitmap block, the indirect block and the data block. *)

Context (Hone : sb_size sb <= BPB).
Abbreviation bm := (sb_bmapstart sb).

Definition cost (b : Z) (L : list Z) : Z := if decide (b ∈ L) then 0 else 1.
Definition indcost (d : dinode) (L : list Z) : Z :=
  if decide (nth NDIRECT (d_addrs d) 0 <> 0 /\ nth NDIRECT (d_addrs d) 0 ∈ L) then 0 else 1.
Definition full (V : Z -> block) : Prop := forall b, 0 <= b < sb_size sb -> used sb V b = true.

Lemma BBLOCK_one b : 0 <= b < sb_size sb -> BBLOCK b sb = bm.
Proof using Hsb Hone.
  intros Hb. destruct (BBLOCK_range sb Hsb b Hb) as [-> _]. change BPB with 8192 in *. lia.
Qed.

Lemma room_cost b L k : room b L k = k - cost b L.
Proof using Type. unfold room, cost. case_decide; lia. Qed.

Lemma cost_range b L : 0 <= cost b L <= 1.
Proof using Type. unfold cost. case_decide; lia. Qed.
Lemma cost_in b L : b ∈ L -> cost b L = 0.
Proof using Type. intros. unfold cost. by rewrite decide_True. Qed.
Lemma cost_mono b L L' : (forall y, y ∈ L -> y ∈ L') -> cost b L' <= cost b L.
Proof using Type. intros HL. unfold cost. repeat case_decide; try lia. naive_solver. Qed.
Lemma indcost_range d L : 0 <= indcost d L <= 1.
Proof using Type. unfold indcost. case_decide; lia. Qed.
Lemma indcost_mono d d' L L' : (forall y, y ∈ L -> y ∈ L') ->
  nth NDIRECT (d_addrs d') 0 = nth NDIRECT (d_addrs d) 0 -> indcost d' L' <= indcost d L.
Proof using Type. intros HL E12. unfold indcost. rewrite E12. repeat case_decide; try lia. naive_solver. Qed.

Lemma balloc_one Hl V L k s :
  lst pid dev cx Hl [] V L k s -> log_first sb cx -> blocks_ok sb V -> held_data sb Hl V -> (length Hl <= 2)%nat ->
  cost bm L + 1 <= k ->
  wp (balloc pid sb dev) (fun r s' =>
    (r = 0 /\ lst pid dev cx Hl [] V L k s' /\ full V) \/
    (data_start sb <= r < sb_size sb /\ used sb V r = false /\ exists L' k',
     lst pid dev cx Hl [] (allocated sb r V) L' k' s' /\ (forall y, y ∈ L -> y ∈ L') /\
     bm ∈ L' /\ r ∈ L' /\ k - cost bm L - 1 <= k')) s.
Proof using Hsb Hone.
  intros Hs Hc Hv Hh Hlen Hk. eapply wp_mono; [apply (balloc_spec sb Hsb pid dev cx Hl V L k s); try done|].
  { intros b Hb. unfold alloc_cost. rewrite BBLOCK_one by done. unfold cost in Hk. case_decide; lia. }
  intros r s' [?|(Hr & Hu & Hx)]; [by left|]. right. split_and!; [lia|lia|done|].
  pose proof (data_start_pos sb Hsb). rewrite BBLOCK_one in Hx by lia.
  exists (r :: bm :: L), (alloc_room sb r L k). split_and!; [done|set_solver|set_solver|set_solver|].
  unfold alloc_room. rewrite BBLOCK_one, !room_cost by lia. pose proof (cost_range r (bm :: L)). lia.
Qed.

Lemma alloc_addr_one V L k T (e : E) ip j s :
  let d := i_d (T ip) in
  fsx V L k T e s -> i_dev (T ip) = dev -> blocks_ok sb V -> dinode_ok d -> file_ok sb d V ->
  (j <= NDIRECT)%nat -> cost bm L + 1 <= k ->
  wp (alloc_addr pid ip j) (fun r s' => exists V' L' k' d',
    fsx V' L' k' (upd T ip (with_d d' (T ip))) e s' /\ extends d V d' V' /\
    (forall y, y ∈ L -> y ∈ L') /\ r = slot d' V' j /\
    ((V' = V /\ L' = L /\ k' = k /\ d' = d /\ (r = 0 -> full V)) \/
     (slot d V j = 0 /\ r <> 0 /\ (forall i, (i <= NDIRECT)%nat -> i <> j -> slot d' V' i = slot d V i) /\
      bm ∈ L' /\ r ∈ L' /\ k - cost bm L - 1 <= k'))) s.
Proof using Hsb Hone.
  intros d Hs Hd Hv Hok Hf Hj Hk. unfold alloc_addr. apply wp_bind. eapply wp_get_inode; [exact Hs|].
  unfold baddr. fold d. rewrite <-(slot_low d V j) by done.
  pose proof (extends_refl sb d V Hv Hok Hf) as Hrefl.
  destruct (Z.eqb_spec (slot d V j) 0) as [Hz|Hn].
  2: { apply wp_ret. exists V, L, k, d. unfold d. rewrite upd_with_d. split_and!; try done. by left. }
  apply wp_bind. eapply wp_get_sb; [exact Hs|]. apply wp_bind. rewrite Hd. eapply wp_lift_fsx; [exact Hs|].
  eapply wp_mono; [apply (balloc_one [] V L k); try done; try apply Hs|].
  { intros b Hb. by apply not_elem_of_nil in Hb. }
  { simpl. lia. }
  pose proof (data_start_pos sb Hsb).
  intros r x [(-> & Hx & Hfull)|(Hr & Hu & L' & k' & Hx & HL & Hbm & Hrl & Hk')].
  - exists V, L, k. split; [done|]. intros s' Hs'. simpl. apply wp_ret.
    exists V, L, k, d. unfold d. rewrite upd_with_d. split_and!; try done. by left.
  - exists (allocated sb r V), L', k'. split; [done|]. intros s1 H1. rewrite (proj2 (Z.eqb_neq _ _)) by lia.
    apply wp_bind. eapply wp_change_inode; [exact H1|]. intros s2 H2. apply wp_ret.
    pose proof (grow_addr sb Hsb d V j r Hv Hok Hf Hj Hz Hr Hu) as Hg.
    exists (allocated sb r V), L', k', (dset_addr j r d). split_and!; try done.
    + rewrite (slot_dset_addr d V) by done. by rewrite decide_True.
    + right. split_and!; try done; [lia|]. intros i Hi Hne.
      rewrite (slot_dset_addr d V) by done. by rewrite decide_False.
Qed.

(** The entry of slot [j], once the indirect block is there. *)
Lemma bmap_entry V L k T (e : E) d j s :
  fsx V L k T e s -> blocks_ok sb V -> dinode_ok d -> file_ok sb d V ->
  slot d V NDIRECT <> 0 -> (NDIRECT < j < NSLOT)%nat -> cost bm L + indcost d L + 1 <= k ->
  wp (lift (let! bp := bio (bread pid dev (slot d V NDIRECT)) in
            let! dat := bio (get_data bp) in
            let addr := get32 dat (4 * (j - 13)) in
            let! addr := (if addr =? 0 then
              let! addr := balloc pid sb dev in
              (when! negb (addr =? 0) do
                 (bio (edit bp (fun d => put32 d (4 * (j - 13)) addr)) ;;
                  log_write bp)) ;;
              ret addr
             else ret addr) in
            bio (brelse pid bp) ;;
            ret addr))
    (fun r s' => exists V' L' k', fsx V' L' k' T e s' /\ extends d V d V' /\
      (forall y, y ∈ L -> y ∈ L') /\ r = slot d V' j /\ (r = 0 -> full V') /\
      k - (cost bm L + indcost d L + 1) <= k' - (cost bm L' + indcost d L' + cost r L')) s.
Proof using Hsb Hone.
  intros Hs Hv Hok Hf Hn Hj Hk. eapply wp_lift_fsx; [exact Hs|]. set (ind := slot d V NDIRECT) in *.
  pose proof (extends_refl sb d V Hv Hok Hf) as Hrefl. pose proof (indcost_range d L) as Hir.
  assert (Hslot : get32 (V ind) (4 * (j - 13)) = slot d V j) by (symmetry; apply slot_high; [lia|done]).
  destruct (fo_data sb _ _ Hf NDIRECT ltac:(unfold NSLOT; lia) Hn) as [Hird Hiu]. fold ind in Hird, Hiu.
  wp_call (lst_bread pid dev cx [] [] V L k ind (fl s) (fx_l _ _ _ _ _ _ _ _ _ _ _ _ Hs)); [apply not_elem_of_nil|simpl; lia|].
  intros i s1 H1. apply wp_bind. eapply lst_data; [exact H1|left|]. cbv zeta. rewrite Hslot.
  destruct (Z.eqb_spec (slot d V j) 0) as [Hz|Hnz].
  2: { apply wp_bind, wp_ret. wp_call (lst_brelse pid dev cx _ _ _ _ _ _ _ s1 H1); [apply not_elem_of_nil|].
       intros _ s2 H2. apply wp_ret. exists V, L, k. split; [done|]. intros s' Hs'. exists V, L, k.
       pose proof (cost_range (slot d V j) L). split_and!; try done. lia. }
  apply wp_bind, wp_bind. eapply wp_mono; [apply (balloc_one [(ind, i)] V L k); try done; try apply Hs|].
  { intros b Hb. simpl in Hb. apply list_elem_of_singleton in Hb as ->. done. }
  { simpl. lia. }
  { lia. }
  pose proof (data_start_pos sb Hsb).
  intros r s2 [(-> & H2 & Hfull)|(Hr & Hu & L' & k' & H2 & HL & Hbm & Hrl & Hk')].
  - simpl. apply wp_bind, wp_ret, wp_ret. wp_call (lst_brelse pid dev cx _ _ _ _ _ _ _ s2 H2); [apply not_elem_of_nil|].
    intros _ s3 H3. apply wp_ret. exists V, L, k. split; [done|]. intros s' Hs'. exists V, L, k.
    pose proof (cost_range 0 L). split_and!; try done. lia.
  - rewrite (proj2 (Z.eqb_neq _ _)) by lia. cbn [negb].
    assert (Hic : ind ∉ L' -> indcost d L = 1).
    { intros Hni. unfold indcost. rewrite decide_False; [done|]. intros [_ Hin]. apply Hni, HL.
      unfold ind. by rewrite slot_low. }
    apply wp_bind, wp_bind. wp_last (lst_edit pid dev cx _ _ _ _ _ ind i (fun d => put32 d (4 * (j - 13)) r) s2 H2); [left|].
    intros _ s3 H3. wp_last (lst_log_write pid dev cx _ _ [] _ _ _ ind i s3 H3); [left| |set_solver|].
    { apply (data_loggable sb Hsb); [apply Hs|done]. }
    intros _ s4 H4. apply wp_ret. wp_call (lst_brelse pid dev cx _ _ _ _ _ _ _ s4 H4); [apply not_elem_of_nil|].
    intros _ s5 H5. apply wp_ret. exists (entry_set sb d V j r), (ind :: L'), (room ind L' k').
    split; [done|]. intros s' Hs'. exists (entry_set sb d V j r), (ind :: L'), (room ind L' k').
    assert (Hg : extends d V d (entry_set sb d V j r)) by (apply grow_entry; done).
    split_and!; try done; try lia; [set_solver| |].
    + assert (H12 : slot d (entry_set sb d V j r) NDIRECT = ind) by (unfold ind; by rewrite !slot_low).
      rewrite slot_high, H12 by (congruence || lia). unfold entry_set. fold ind. cbv zeta. rewrite upd_same. unfold NSLOT, NDIRECT, NINDIRECT in Hj. rewrite get32_put32; [done| |].
      * rewrite (bo_len _ _ (blocks_ok_allocated sb Hsb r V Hv Hr)). change (Z.to_nat BSIZE) with 1024%nat. lia.
      * pose proof (sbo_size _ Hsb). lia.
    + rewrite room_cost, (cost_in bm (ind :: L')), (cost_in r (ind :: L')) by (right; done).
      replace (indcost d (ind :: L')) with 0.
      * assert (cost ind L' <= indcost d L); [|lia]. unfold cost. case_decide; [lia|]. by rewrite Hic.
      * unfold indcost. rewrite decide_True; [done|]. unfold ind. rewrite slot_low in * by done. split; [done|left].
Qed.

(** [bmap] maps the block, or the disk is full. *)
Lemma bmap_spec V L k T (e : E) ip bn s :
  let d := i_d (T ip) in
  fsx V L k T e s -> i_dev (T ip) = dev -> blocks_ok sb V -> dinode_ok d -> file_ok sb d V ->
  0 <= bn < MAXFILE -> cost bm L + indcost d L + 1 <= k ->
  wp (bmap pid ip bn) (fun r s' => exists V' L' k' d',
    fsx V' L' k' (upd T ip (with_d d' (T ip))) e s' /\ extends d V d' V' /\
    (forall y, y ∈ L -> y ∈ L') /\ r = slot d' V' (data_slot bn) /\ (r = 0 -> full V') /\
    k - (cost bm L + indcost d L + 1) <= k' - (cost bm L' + indcost d' L' + cost r L')) s.
Proof using Hsb Hone.
  intros d Hs Hd Hv Hok Hf Hbn Hk. pose proof (indcost_range d L) as Hir. pose proof (cost_range bm L) as Hbr.
  unfold bmap, data_slot, MAXFILE in *. destruct (Z.ltb_spec bn (Z.of_nat NDIRECT)) as [Hlt|Hge].
  { assert (Hj : (Z.to_nat bn < NDIRECT)%nat) by lia.
    eapply wp_mono; [apply (alloc_addr_one V L k T e ip (Z.to_nat bn) s); try done; lia|].
    intros r s' (V' & L' & k' & d' & Hs' & Hx & HL & Hr & Hcase). exists V', L', k', d'.
    split_and!; try done.
    - intros ->. destruct Hcase as [(-> & _ & _ & _ & Hfu)|(_ & Hn & _)]; [by apply Hfu|done].
    - pose proof (cost_range r L') as Hcr. destruct Hcase as [(-> & -> & -> & -> & Hfu)|(_ & Hn & Hi & Hbm & Hrl & Hk')].
      + unfold d. lia.
      + rewrite (cost_in bm L'), (cost_in r L') by done. pose proof (indcost_mono d d' L L' HL) as Him.
        rewrite <-!(slot_low d V), <-(slot_low d' V') in Him by done. specialize (Him (Hi NDIRECT ltac:(done) ltac:(lia))). lia. }
  cbv zeta. rewrite (proj2 (Z.ltb_lt _ _)) by lia. apply wp_bind.
  eapply wp_mono; [apply (alloc_addr_one V L k T e ip NDIRECT s); try done; lia|].
  intros r s1 (V1 & L1 & k1 & d1 & H1 & Hx1 & HL1 & Hr & Hcase).
  assert (Hcost : r <> 0 -> k - (cost bm L + indcost d L + 1) <= k1 - (cost bm L1 + indcost d1 L1 + 1)).
  { intros Hn. destruct Hcase as [(-> & -> & -> & -> & Hfu)|(Hz & _ & Hi & Hbm & Hrl & Hk')]; [unfold d; lia|].
    rewrite (cost_in bm L1) by done. rewrite slot_low in Hr, Hz by done.
    replace (indcost d L) with 1 by (unfold indcost; rewrite decide_False; [done|naive_solver]).
    replace (indcost d1 L1) with 0 by (unfold indcost; rewrite <-Hr; by rewrite decide_True). lia. }
  destruct (Z.eqb_spec r 0) as [Hz|Hn].
  { apply wp_ret. destruct Hcase as [(-> & -> & -> & -> & Hfu)|(_ & Hn & _)]; [|done].
    exists V, L, k, d. split_and!; try done.
    - symmetry. apply slot_none; [lia|]. rewrite Hr in Hz. exact Hz.
    - intros _. by apply Hfu.
    - pose proof (cost_range 0 L). lia. }
  specialize (Hcost Hn). apply wp_bind. eapply wp_get_inode; [exact H1|]. rewrite upd_same.
  apply wp_bind. eapply wp_get_sb; [exact H1|]. cbn [with_d iset_d i_dev]. rewrite Hd, Hr.
  replace (4 * Z.to_nat (bn - Z.of_nat NDIRECT))%nat with (4 * (Z.to_nat bn + 1 - 13))%nat by (unfold NDIRECT in *; lia).
  eapply wp_mono.
  { apply (bmap_entry V1 L1 k1 (upd T ip (with_d d1 (T ip))) e d1 (Z.to_nat bn + 1) s1);
      [done|apply Hx1|apply Hx1|apply Hx1|congruence|unfold NSLOT, NDIRECT, NINDIRECT in *; lia|lia]. }
  intros r2 s2 (V2 & L2 & k2 & H2 & Hx2 & HL2 & Hr2 & Hfu & Hk2). exists V2, L2, k2, d1.
  split_and!; try done; [by eapply extends_trans|auto|lia].
Qed.
End bmap.
