(* ===== verification/FsData.v ===== *)
(** * Reading and writing files

    The bytes of a file through its block map; [readi], [writei] and the
    operations of fs.c that are built on them. *)

From S2P Require Import Prelude Bytes Locks Bio Log Fs FsBlocks FsInode FsFile.

(** ** The bytes of a file *)

Definition fblock (d : dinode) (V : Z -> block) (bn : Z) : block := V (slot d V (data_slot bn)).
Definition fbyte (d : dinode) (V : Z -> block) (o : Z) : Z :=
  nth (Z.to_nat (o mod BSIZE)) (fblock d V (o / BSIZE)) 0.
Definition fbytes (d : dinode) (V : Z -> block) (off : Z) (n : nat) : list Z := bytes_at (fbyte d V) off n.
Definition mapped (d : dinode) (V : Z -> block) (o : Z) : Prop :=
  slot d V (data_slot (o / BSIZE)) <> 0.

Lemma length_fbytes d V off n : length (fbytes d V off n) = n.
Proof. apply length_bytes_at. Qed.

Lemma lookup_fbytes d V off n i : (i < n)%nat -> fbytes d V off n !! i = Some (fbyte d V (off + Z.of_nat i)).
Proof. apply lookup_bytes_at. Qed.

Lemma fbytes_app d V off n m :
  fbytes d V off (n + m) = fbytes d V off n ++ fbytes d V (off + Z.of_nat n) m.
Proof. apply bytes_at_app. Qed.

Lemma fbytes_slice d V off m : 0 <= off -> length (fblock d V (off / BSIZE)) = Z.to_nat BSIZE ->
  (Z.to_nat (off mod BSIZE) + m <= Z.to_nat BSIZE)%nat ->
  slice (fblock d V (off / BSIZE)) (Z.to_nat (off mod BSIZE)) m = fbytes d V off m.
Proof.
  intros Ho Hl Hm. apply list_eq. intros i. destruct (decide (i < m)%nat) as [Hi|Hi].
  - rewrite lookup_slice, lookup_fbytes by done. unfold fbyte. unfold BSIZE in *.
    replace ((off + Z.of_nat i) / 1024) with (off / 1024) by lia.
    replace (Z.to_nat ((off + Z.of_nat i) mod 1024)) with (Z.to_nat (off mod 1024) + i)%nat by lia.
    rewrite nth_lookup. destruct (lookup_lt_is_Some_2 (fblock d V (off / 1024)) (Z.to_nat (off mod 1024) + i)) as [v Hv].
    { rewrite Hl. lia. }
    by rewrite Hv.
  - rewrite !lookup_ge_None_2; [done| |]; rewrite ?length_fbytes, ?length_slice; lia.
Qed.

(** ** The memory of the caller *)

(** What either_copyout and either_copyin rely on: the bytes of a range that
    can be written, or read, are all copied.  Which ranges these are does not
    change in the course of a call, and a copy out that fails returns -1: calls
    with a page of the caller that is mapped without being writable, on which
    [copyout] of Vm.v panics, are outside of this interface. *)
Class CopyOk (E : Type) {CE : CopyEnv E} := {
  store : Z -> list Z -> E -> E;
  load : Z -> nat -> E -> list Z;
  writable : Z -> Z -> Prop;
  readable : Z -> Z -> Prop;
  ucopyout_ok : forall a bs e, wp (ucopyout a bs) (fun r e' =>
    (r = 0 /\ e' = store a bs e) \/ (r = -1 /\ ~ writable a (Z.of_nat (length bs)))) e;
  ucopyin_ok : forall a m e, 0 <= m -> readable a m -> ucopyin a m e = Ret ((0, load a (Z.to_nat m) e), e);
  store_nil : forall a e, store a [] e = e;
  store_app : forall a bs bs' e, store a (bs ++ bs') e = store (a + Z.of_nat (length bs)) bs' (store a bs e);
  length_load : forall a m e, length (load a m e) = m;
  load_app : forall a m m' e, load a (m + m') e = load a m e ++ load (a + Z.of_nat m) m' e;
  readable_sub : forall a m a' m', readable a m -> a <= a' -> 0 <= m' -> a' + m' <= a + m -> readable a' m';
}.

(** ** [readi] *)

Section readi.
Context {E : Type} `{CO : CopyOk E} (pid dev : Z) (cx : tctx) (sb : superblock) (Hsb : sb_ok sb).
Abbreviation fsx := (fsh pid dev cx sb [] []).

Definition copied (user : bool) (dst : Z) (bs : list Z) (e : E) : E := if user then store dst bs e else e.

(** Some part of the destination cannot be written. *)
Definition unwritable (user : bool) (dst n : Z) : Prop :=
  user = true /\ exists a m, dst <= a /\ 0 <= m /\ a + m <= dst + n /\ ~ writable a m.

Lemma unwritable_sub user dst n dst' n' :
  unwritable user dst' n' -> dst <= dst' -> dst' + n' <= dst + n -> unwritable user dst n.
Proof using Type. intros (-> & a & m & H) H1 H2. split; [done|]. exists a, m. intuition lia. Qed.

Lemma either_copyout_ok Hl X V L k T e user dst bs (P : Z -> fstate E -> Prop) s :
  fsh pid dev cx sb Hl X V L k T e s ->
  (forall s', fsh pid dev cx sb Hl X V L k T (copied user dst bs e) s' -> P 0 s') ->
  (forall s' e', fsh pid dev cx sb Hl X V L k T e' s' -> unwritable user dst (Z.of_nat (length bs)) -> P (-1) s') ->
  wp (either_copyout user dst bs) P s.
Proof using Type.
  intros Hs H0 H1. unfold either_copyout. destruct user; [|by apply wp_ret, H0].
  apply wp_zoom. destruct Hs as [A1 Ac A2 A3 A4]. rewrite A4. eapply wp_mono; [apply ucopyout_ok|].
  intros r e' [[-> ->]|[-> Hw]].
  - apply H0. by split.
  - apply (H1 _ e'); [by split|]. split; [done|]. exists dst, (Z.of_nat (length bs)). split_and!; try lia. done.
Qed.

Lemma release_ok b i V L k T e (Q : unit -> fstate E -> Prop) s :
  fsh pid dev cx sb [(b, i)] [] V L k T e s -> (forall s', fsx V L k T e s' -> Q tt s') ->
  wp (lift (bio (brelse pid i))) Q s.
Proof using Type.
  intros Hs HQ. eapply wp_lift_fsh; [exact Hs|].
  wp_last (lst_brelse pid dev cx _ _ _ _ _ _ _ (fl s) (fx_l _ _ _ _ _ _ _ _ _ _ _ _ Hs)); [apply not_elem_of_nil|].
  intros [] x Hx. eexists _, _, _, _, _. split; [exact Hx|]. done.
Qed.

Lemma hold_ok b V L k T e (Q : nat -> fstate E -> Prop) s :
  fsx V L k T e s -> (forall i s', fsh pid dev cx sb [(b, i)] [] V L k T e s' -> Q i s') ->
  wp (lift (bio (bread pid dev b))) Q s.
Proof using Type.
  intros Hs HQ. eapply wp_lift_fsh; [exact Hs|].
  wp_last (lst_bread pid dev cx [] [] V L k b (fl s) (fx_l _ _ _ _ _ _ _ _ _ _ _ _ Hs));
    [apply not_elem_of_nil|simpl; lia|].
  intros i x Hx. eexists _, _, _, _, _. split; [exact Hx|]. apply HQ.
Qed.

Lemma held_ok b i V L k T e (Q : block -> fstate E -> Prop) s :
  fsh pid dev cx sb [(b, i)] [] V L k T e s ->
  (forall s', fsh pid dev cx sb [(b, i)] [] V L k T e s' -> Q (V b) s') ->
  wp (lift (bio (get_data i))) Q s.
Proof using Type.
  intros Hs HQ. eapply wp_lift_fsh; [exact Hs|]. eapply lst_data; [apply Hs|left|].
  eexists _, _, _, _, _. split; [apply Hs|]. done.
Qed.

Lemma readi_loop_done V L k T e user dst off n tot acc d s :
  fsx V L k T e s -> tot = n ->
  ((tot, acc) = (n, acc ++ fbytes d V off (Z.to_nat (n - tot))) /\
   fsx V L k T (copied user dst (fbytes d V off (Z.to_nat (n - tot))) e) s).
Proof using Type.
  intros Hs ->. rewrite Z.sub_diag. unfold copied, fbytes, bytes_at. simpl. rewrite store_nil, app_nil_r. by destruct user.
Qed.

Lemma readi_loop_spec left V L k T e ip user dst off n tot acc s :
  let d := i_d (T ip) in
  fsx V L k T e s -> i_dev (T ip) = dev -> blocks_ok sb V ->
  0 <= dst -> dst + (n - tot) < 2 ^ 64 -> 0 <= off -> tot <= n -> off + (n - tot) <= MAXFILE * BSIZE ->
  (forall o, off <= o < off + (n - tot) -> mapped d V o) -> n - tot <= Z.of_nat left ->
  wp (readi_loop pid ip user dst off n tot acc left) (fun r s' =>
    (r = (n, acc ++ fbytes d V off (Z.to_nat (n - tot))) /\
     fsx V L k T (copied user dst (fbytes d V off (Z.to_nat (n - tot))) e) s') \/
    (fst r = -1 /\ unwritable user dst (n - tot) /\ exists e', fsx V L k T e' s')) s.
Proof using Type.
  intros d. revert e dst off tot acc s. induction left as [|left IH];
    intros e dst off tot acc s Hs Hd Hv Hdst Hw Hoff Htot Hmax Hmap Hleft; cbn [readi_loop].
  { rewrite (proj2 (Z.ltb_ge _ _)) by lia. apply wp_ret. left. apply readi_loop_done; [done|lia]. }
  destruct (Z.ltb_spec tot n) as [Hlt|Hge]; cbn [negb].
  2: { apply wp_ret. left. apply readi_loop_done; [done|lia]. }
  unfold BSIZE in *. set (m := Z.min (n - tot) (1024 - off mod 1024)).
  assert (Hm : 0 < m <= n - tot /\ m <= 1024 - off mod 1024) by lia.
  specialize (Hmap off ltac:(lia)) as Hn. unfold mapped in Hn.
  apply wp_bind. eapply wp_mono; [apply (bmap_read pid dev cx sb V L k T e ip (off / 1024) s); try done; lia|].
  intros r s1 [-> H1]. rewrite (proj2 (Z.eqb_neq _ _)) by done.
  apply wp_bind. eapply wp_get_inode; [exact H1|]. cbv zeta. rewrite Hd.
  apply wp_bind. eapply hold_ok; [exact H1|]. intros i s2 H2.
  apply wp_bind. eapply held_ok; [exact H2|]. clear s2 H2. intros s2 H2. fold m d. fold d in H2.
  assert (Hsl : slice (V (slot d V (data_slot (off / 1024)))) (Z.to_nat (off mod 1024)) (Z.to_nat m) =
    fbytes d V off (Z.to_nat m)).
  { apply fbytes_slice; [done|apply Hv|]. unfold BSIZE. lia. }
  rewrite Hsl. apply wp_bind.
  eapply either_copyout_ok; [exact H2| |].
  - intros s3 H3. apply wp_bind. eapply release_ok; [exact H3|]. intros s4 H4. simpl.
    rewrite (u64_id (dst + m)) by lia.
    eapply wp_mono; [apply IH; try done; try lia|].
    { intros o Ho. apply Hmap. lia. }
    intros r s5 [(-> & H5)|(E1 & Hu & H5)].
    + left. replace (Z.to_nat (n - tot)) with (Z.to_nat m + Z.to_nat (n - (tot + m)))%nat by lia.
      rewrite fbytes_app, app_assoc. replace (off + Z.of_nat (Z.to_nat m)) with (off + m) by lia.
      split; [done|]. unfold copied in *. destruct user; [|done]. rewrite store_app, length_fbytes.
      by replace (dst + Z.of_nat (Z.to_nat m)) with (dst + m) by lia.
    + right. split_and!; [done| |done]. eapply unwritable_sub; [exact Hu|lia|lia].
  - intros s3 e' H3 Hu. apply wp_bind. eapply release_ok; [exact H3|]. intros s4 H4. simpl.
    apply wp_ret. right. rewrite length_fbytes in Hu. split_and!; [done| |by exists e'].
    eapply unwritable_sub; [exact Hu|lia|lia].
Qed.

(** Every block up to the size is mapped. *)
Record content_ok (d : dinode) (V : Z -> block) : Prop := {
  ct_size : 0 <= d_size d <= MAXFILE * BSIZE;
  ct_mapped : forall o, 0 <= o < d_size d -> mapped d V o;
}.

(** The number of bytes [readi] transfers. *)
Definition nread (size off n : Z) : Z :=
  if (size <? off) || (2 ^ 32 <=? off + n) then 0 else Z.min n (size - off).

Lemma readi_spec V L k T e ip user dst off n s :
  let d := i_d (T ip) in
  let m := nread (d_size d) off n in
  fsx V L k T e s -> i_dev (T ip) = dev -> blocks_ok sb V -> content_ok d V ->
  uint off -> uint n -> 0 <= dst -> dst + n < 2 ^ 64 ->
  wp (readi pid ip user dst off n) (fun r s' =>
    (r = (m, fbytes d V off (Z.to_nat m)) /\
     fsx V L k T (copied user dst (fbytes d V off (Z.to_nat m)) e) s') \/
    (fst r = -1 /\ unwritable user dst n /\ exists e', fsx V L k T e' s')) s.
Proof using Type.
  intros d m Hs Hd Hv [C1 C2] Ho Hn Hdst Hw. unfold uint in *. unfold readi.
  apply wp_bind. eapply wp_get_inode; [exact Hs|]. cbv zeta. fold d.
  assert (Hnil : fsx V L k T (copied user dst [] e) s) by (unfold copied; rewrite store_nil; by destruct user).
  destruct ((d_size d <? off) || (u32 (off + n) <? off)) eqn:Eg.
  { apply wp_ret. left. assert (m = 0) as ->; [|by split]. unfold m, nread, u32 in *.
    rewrite (proj2 (orb_true_iff _ _)); [done|]. apply orb_true_iff in Eg as [Eg|Eg]; [by left|right]. lia. }
  apply orb_false_iff in Eg as [E1 E2].
  assert (Hnw : off + n < 2 ^ 32) by (unfold u32 in E2; lia). rewrite !(u32_id (off + n)) by lia.
  assert (Em : m = Z.min n (d_size d - off)).
  { unfold m, nread. rewrite E1. simpl. by rewrite (proj2 (Z.leb_gt _ _)). }
  replace (if d_size d <? off + n then d_size d - off else n) with m
    by (rewrite Em; destruct (Z.ltb_spec (d_size d) (off + n)); lia).
  eapply wp_mono; [apply (readi_loop_spec (Z.to_nat m) V L k T e ip user dst off m 0 []); try done; try lia|].
  { intros o Hor. apply C2. lia. }
  rewrite Z.sub_0_r. fold d. intros r s' [(-> & Hs')|(Er & Hu & Hs')]; [by left|right].
  split_and!; [done| |done]. eapply unwritable_sub; [exact Hu|lia|lia].
Qed.
End readi.

(** ** What writing does to a file *)

Section wrote.
Context (sb : superblock) (Hsb : sb_ok sb).

(** The file [d] in [V] becomes [d'] in [V'] with the bytes [bs] at [off]; all
    other bytes that were mapped, and all blocks of other files, are as they
    were. *)
Record wrote (d : dinode) (V : Z -> block) (d' : dinode) (V' : Z -> block) (off : Z) (bs : list Z) : Prop := {
  wr_blocks : blocks_ok sb V';
  wr_dinode : dinode_ok d';
  wr_file : file_ok sb d' V';
  wr_fields : d' = Dinode (d_type d) (d_major d) (d_minor d) (d_nlink d) (d_size d) (d_addrs d');
  wr_slot : forall i, (i < NSLOT)%nat -> slot d V i <> 0 -> slot d' V' i = slot d V i;
  wr_new : forall i, (i < NSLOT)%nat -> slot d V i = 0 -> slot d' V' i <> 0 ->
    used sb V (slot d' V' i) = false;
  wr_used : forall b, 0 <= b < sb_size sb -> used sb V b = true -> used sb V' b = true;
  wr_meta : forall b, b < sb_bmapstart sb -> V' b = V b;
  wr_frame : forall b, data_start sb <= b < sb_size sb -> used sb V b = true ->
    (forall i, (i < NSLOT)%nat -> slot d V i <> b) -> V' b = V b;
  wr_mapped : forall i, (i < length bs)%nat -> mapped d' V' (off + Z.of_nat i);
  wr_in : forall i, (i < length bs)%nat -> fbyte d' V' (off + Z.of_nat i) = nth i bs 0;
  wr_out : forall o, 0 <= o < MAXFILE * BSIZE -> mapped d V o ->
    ~ (off <= o < off + Z.of_nat (length bs)) -> fbyte d' V' o = fbyte d V o;
}.

Lemma block_no o : 0 <= o < MAXFILE * BSIZE -> 0 <= o / BSIZE < MAXFILE.
Proof using Type. unfold BSIZE. lia. Qed.

Lemma wrote_mapped d V d' V' off bs o : wrote d V d' V' off bs -> 0 <= o < MAXFILE * BSIZE ->
  mapped d V o -> mapped d' V' o.
Proof using Type.
  intros Hw Ho Hm. unfold mapped in *. rewrite (wr_slot _ _ _ _ _ _ Hw); [done| |done].
  by apply data_slot_range, block_no.
Qed.

(** Allocation writes nothing. *)
Lemma wrote_extends d V d' V' off : blocks_ok sb V -> file_ok sb d V ->
  extends sb d V d' V' -> wrote d V d' V' off [].
Proof using Type.
  intros Hv Hf [A1 A2 A3 A4 A5 A6 A7 A8 A9]. split; try done; simpl; try (intros; lia).
  - intros i Hi Hz Hn. by apply A6.
  - intros b Hb Hu Hni. apply A9; [done|done|]. intros ->. apply (Hni NDIRECT); [unfold NSLOT; lia|done].
  - intros o Ho Hm _. unfold mapped in Hm. destruct (data_slot_range _ (block_no o Ho)) as [Hs Hs'].
    unfold fbyte, fblock. rewrite A5 by done. destruct (fo_data sb _ _ Hf _ Hs Hm) as [Hr Hu].
    rewrite A9; [done|done|done|]. intros Ec. apply Hs'. eapply (fo_inj sb _ _ Hf); [done|unfold NSLOT; lia|done|done].
Qed.

(** The bytes [bs] put into a mapped block. *)
Lemma wrote_block d V off bs :
  let b := slot d V (data_slot (off / BSIZE)) in
  blocks_ok sb V -> dinode_ok d -> file_ok sb d V -> 0 <= off < MAXFILE * BSIZE -> mapped d V off ->
  off mod BSIZE + Z.of_nat (length bs) <= BSIZE ->
  wrote d V d (upd V b (put (V b) (Z.to_nat (off mod BSIZE)) bs)) off bs.
Proof using Hsb.
  intros b Hv Hd Hf Ho Hm Hlen. unfold mapped in Hm. fold b in Hm.
  destruct (data_slot_range _ (block_no off Ho)) as [Hs Hs'].
  destruct (fo_data sb _ _ Hf _ Hs Hm) as [Hr Hu]. fold b in Hr, Hu.
  assert (Hib : slot d V NDIRECT <> b).
  { intros Ec. apply Hs'. symmetry. eapply (fo_inj sb _ _ Hf); [unfold NSLOT; lia|done|congruence|done]. }
  set (V' := upd V b _).
  assert (Hsl : forall i, slot d V' i = slot d V i).
  { intros i. unfold slot. destruct (_ <=? _)%nat; [done|]. destruct (_ =? 0); [done|].
    unfold V'. rewrite upd_other; [done|]. by rewrite slot_low in Hib. }
  assert (Hlb : length (V b) = Z.to_nat BSIZE) by apply Hv.
  assert (Hby : forall o, 0 <= o < MAXFILE * BSIZE -> mapped d V o -> fbyte d V' o =
    if decide (off <= o < off + Z.of_nat (length bs)) then nth (Z.to_nat (o - off)) bs 0 else fbyte d V o).
  { intros o Hor Hmo. unfold mapped in Hmo. unfold fbyte, fblock. rewrite Hsl.
    destruct (decide (o / BSIZE = off / BSIZE)) as [E|E].
    - rewrite E. fold b. unfold V'. rewrite upd_same, nth_put by (rewrite Hlb; unfold BSIZE in *; lia).
      unfold BSIZE in *. repeat case_decide; try lia; f_equal; lia.
    - unfold V'. rewrite upd_other, decide_False; [done| |]; unfold BSIZE in *; [lia|].
      intros Ec. apply E. apply data_slot_inj; [lia|lia|].
      eapply (fo_inj sb _ _ Hf); [by apply data_slot_range, block_no|done|done|done]. }
  split; try done.
  - apply blocks_ok_upd; [done|done|lia|]. by rewrite length_put.
  - split.
    + intros i Hi. rewrite Hsl. intros Hn. destruct (fo_data sb _ _ Hf i Hi Hn) as [Hri Hui].
      split; [done|]. unfold V'. pose proof (data_start_pos sb Hsb). by rewrite used_data by (done || lia).
    + intros i j Hi Hj. rewrite !Hsl. by apply (fo_inj sb _ _ Hf).
  - by destruct d.
  - intros i Hi Hz. by rewrite Hsl, Hz.
  - intros b' Hb' Hu'. unfold V'. by rewrite used_data by (done || lia).
  - intros b' Hb'. unfold V'. rewrite upd_other; [done|]. pose proof (bitmap_before_data sb Hsb). lia.
  - intros b' Hb' Hu' Hni. unfold V'. rewrite upd_other; [done|]. intros ->. by apply (Hni _ Hs).
  - intros i Hi. unfold mapped. rewrite Hsl. unfold BSIZE in *.
    by replace ((off + Z.of_nat i) / 1024) with (off / 1024) by lia.
  - intros i Hi. rewrite Hby.
    + rewrite decide_True by lia. f_equal. lia.
    + unfold MAXFILE, BSIZE in *. lia.
    + unfold mapped, BSIZE in *. by replace ((off + Z.of_nat i) / 1024) with (off / 1024) by lia.
  - intros o Hor Hmo Hni. rewrite Hby by done. by rewrite decide_False.
Qed.

(** Two writes in a row. *)
Lemma wrote_trans d V d' V' d'' V'' off bs bs' :
  0 <= off -> off + Z.of_nat (length bs) <= MAXFILE * BSIZE ->
  wrote d V d' V' off bs -> wrote d' V' d'' V'' (off + Z.of_nat (length bs)) bs' ->
  wrote d V d'' V'' off (bs ++ bs').
Proof using Hsb.
  intros Hoff Hmax A B. pose proof A as [A1 A2 A3 A4 A5 A6 A7 A8 A9 A10 A11 A12].
  pose proof (data_start_pos sb Hsb).
  destruct B as [B1 B2 B3 B4 B5 B6 B7 B8 B9 B10 B11 B12]. split; try done.
  - rewrite A4 in B4. exact B4.
  - intros i Hi Hn. rewrite B5; [by apply A5|done|by rewrite A5].
  - intros i Hi Hz Hn. destruct (decide (slot d' V' i = 0)) as [E|E].
    + destruct (used sb V (slot d'' V'' i)) eqn:Eu; [|done]. destruct (fo_data sb _ _ B3 i Hi Hn) as [Hr _].
      rewrite <-(B6 i Hi E Hn). symmetry. apply A7; [lia|done].
    + rewrite (B5 i Hi E) in *. by apply A6.
  - intros b Hb Hu. by apply B7, A7.
  - intros b Hb. by rewrite B8, A8.
  - intros b Hb Hu Hni. rewrite B9; [by apply A9|done|by apply A7; [lia|]|]. intros i Hi Ec.
    destruct (decide (slot d V i = 0)) as [E|E].
    + rewrite <-Ec in Hu. rewrite A6 in Hu by (done || lia). done.
    + rewrite A5 in Ec by done. by apply (Hni i).
  - intros i Hi. rewrite length_app in Hi. destruct (decide (i < length bs)%nat) as [Hl|Hl].
    + apply (wrote_mapped d' V' d'' V'' (off + Z.of_nat (length bs)) bs'); [done|lia|by apply A10].
    + replace (off + Z.of_nat i) with (off + Z.of_nat (length bs) + Z.of_nat (i - length bs)) by lia.
      apply B10. lia.
  - intros i Hi. rewrite length_app in Hi. destruct (decide (i < length bs)%nat) as [Hl|Hl].
    + rewrite app_nth1 by done. rewrite B12, A11 by (done || lia || by apply A10). done.
    + rewrite app_nth2 by lia.
      replace (off + Z.of_nat i) with (off + Z.of_nat (length bs) + Z.of_nat (i - length bs)) by lia.
      apply B11. lia.
  - intros o Ho Hm Hni. rewrite length_app in Hni. rewrite B12; [apply A12; [done|done|lia]|done| |lia].
    by apply (wrote_mapped d V d' V' off bs).
Qed.

(** The same, with the size and the inode on disk brought up to date: what a
    call of [writei] does to inode [inum]. *)
Record file_updated (inum : Z) (d : dinode) (V : Z -> block) (d' : dinode) (V' : Z -> block) (off : Z)
    (bs : list Z) : Prop := {
  up_blocks : blocks_ok sb V';
  up_dinode : dinode_ok d';
  up_file : file_ok sb d' V';
  up_content : content_ok d' V';
  up_disk : dino sb V' inum = d';
  up_fields : d' = Dinode (d_type d) (d_major d) (d_minor d) (d_nlink d)
    (Z.max (d_size d) (off + Z.of_nat (length bs))) (d_addrs d');
  up_in : fbytes d' V' off (length bs) = bs;
  up_out : forall o, 0 <= o < d_size d -> ~ (off <= o < off + Z.of_nat (length bs)) ->
    fbyte d' V' o = fbyte d V o;
  up_slot : forall i, (i < NSLOT)%nat -> slot d V i <> 0 -> slot d' V' i = slot d V i;
  up_new : forall i, (i < NSLOT)%nat -> slot d V i = 0 -> slot d' V' i <> 0 ->
    used sb V (slot d' V' i) = false;
  up_inodes : forall inum', inum_ok sb inum' -> inum' <> inum -> dino sb V' inum' = dino sb V inum';
  up_used : forall b, 0 <= b < sb_size sb -> used sb V b = true -> used sb V' b = true;
  up_frame : forall b, data_start sb <= b < sb_size sb -> used sb V b = true ->
    (forall i, (i < NSLOT)%nat -> slot d V i <> b) -> V' b = V b;
}.

(** The blocks of a file do not depend on the inode blocks. *)
Lemma slot_put_dino x inum V d v i : inum_ok sb inum -> file_ok sb d V ->
  slot (dset_size v d) (put_dino sb x inum V) i = slot d V i.
Proof using Hsb.
  intros Hi Hf. unfold slot. cbn [dset_size d_addrs]. destruct (_ <=? _)%nat; [done|].
  destruct (Z.eqb_spec (nth NDIRECT (d_addrs d) 0) 0) as [|Hn]; [done|]. f_equal. apply put_dino_data; [done|done|].
  rewrite <-(slot_low d V) in * by done. destruct (fo_data sb _ _ Hf NDIRECT ltac:(unfold NSLOT; lia) Hn).
  pose proof (bitmap_before_data sb Hsb). lia.
Qed.

Lemma fbyte_put_dino x inum V d v o : inum_ok sb inum -> file_ok sb d V -> 0 <= o < MAXFILE * BSIZE ->
  mapped d V o -> fbyte (dset_size v d) (put_dino sb x inum V) o = fbyte d V o.
Proof using Hsb.
  intros Hi Hf Ho Hm. unfold fbyte, fblock. rewrite slot_put_dino by done. f_equal.
  apply put_dino_data; [done|done|]. unfold mapped in Hm.
  destruct (fo_data sb _ _ Hf _ (proj1 (data_slot_range _ (block_no o Ho))) Hm).
  pose proof (bitmap_before_data sb Hsb). lia.
Qed.

Lemma wrote_updated inum d V d1 V1 off bs :
  let d' := dset_size (Z.max (d_size d) (off + Z.of_nat (length bs))) d1 in
  inum_ok sb inum -> content_ok d V -> 0 <= off <= d_size d -> off + Z.of_nat (length bs) <= MAXFILE * BSIZE ->
  wrote d V d1 V1 off bs -> file_updated inum d V d' (put_dino sb d' inum V1) off bs.
Proof using Hsb.
  intros d' Hi [C1 C2] Hoff Hmax Hw. pose proof Hw as [A1 A2 A3 A4 A5 A6 A7 A8 A9 A10 A11 A12].
  assert (Hdk : dinode_ok d').
  { destruct A2. split; try done. unfold uint. simpl. unfold MAXFILE, BSIZE, NDIRECT, NINDIRECT in *. lia. }
  assert (Hmp : forall o, 0 <= o < Z.max (d_size d) (off + Z.of_nat (length bs)) -> mapped d1 V1 o).
  { intros o Ho. destruct (decide (o < d_size d)) as [Hlt|Hge].
    - apply (wrote_mapped d V d1 V1 off bs); [done|lia|by apply C2; lia].
    - replace o with (off + Z.of_nat (Z.to_nat (o - off))) by lia. apply A10. lia. }
  assert (Hsl : forall i, slot d' (put_dino sb d' inum V1) i = slot d1 V1 i) by (intros; by apply slot_put_dino).
  pose proof (sbo_data _ Hsb). pose proof (data_start_pos sb Hsb). pose proof (bitmap_before_data sb Hsb).
  split; try done.
  - by apply blocks_ok_put_dino.
  - split.
    + intros i Hlt. rewrite Hsl. intros Hn. destruct (fo_data sb _ _ A3 i Hlt Hn). rewrite used_put_dino by (done || lia). done.
    + intros i j Hlt Hlt'. rewrite !Hsl. by apply A3.
  - split; [simpl; lia|]. intros o Ho. unfold mapped. rewrite Hsl. by apply Hmp.
  - rewrite dino_put by done. by rewrite decide_True.
  - unfold d'. rewrite A4. done.
  - apply list_eq. intros i. destruct (decide (i < length bs)%nat) as [Hl|Hl].
    + rewrite lookup_fbytes by done. unfold d'. rewrite fbyte_put_dino by (done || lia || apply Hmp; lia).
      rewrite A11, nth_lookup by done. by destruct (lookup_lt_is_Some_2 bs i Hl) as [v ->].
    + rewrite !lookup_ge_None_2; [done|lia|]. rewrite length_fbytes. lia.
  - intros o Ho Hni. unfold d'. rewrite fbyte_put_dino by (done || lia || apply Hmp; lia).
    apply A12; [lia|apply C2; lia|done].
  - intros i Hlt Hn. rewrite Hsl. by apply A5.
  - intros i Hlt Hz. rewrite Hsl. by apply A6.
  - intros inum' Hi' Hne. rewrite dino_put by done. rewrite decide_False by done.
    unfold dino. rewrite A8; [done|]. apply IBLOCK_range; done.
  - intros b Hb Hu. rewrite used_put_dino by done. by apply A7.
  - intros b Hb Hu Hni. rewrite put_dino_data by (done || lia). by apply A9.
Qed.

Lemma updated_refl inum d V off : blocks_ok sb V -> dinode_ok d -> file_ok sb d V -> content_ok d V ->
  dino sb V inum = d -> 0 <= off <= d_size d -> file_updated inum d V d V off [].
Proof using Type.
  intros. split; try done.
  - simpl. rewrite Z.add_0_r, Z.max_l by lia. by destruct d.
Qed.

(** Two writes in a row. *)
Lemma updated_trans inum d V d' V' d'' V'' off bs bs' :
  0 <= off -> file_updated inum d V d' V' off bs ->
  file_updated inum d' V' d'' V'' (off + Z.of_nat (length bs)) bs' ->
  file_updated inum d V d'' V'' off (bs ++ bs').
Proof using Hsb.
  intros Hoff [A1 A2 A3 A4 A5 A6 A7 A8 A9 A10 A11 A12 A13] [B1 B2 B3 B4 B5 B6 B7 B8 B9 B10 B11 B12 B13].
  pose proof (data_start_pos sb Hsb).
  assert (Hsz : d_size d' = Z.max (d_size d) (off + Z.of_nat (length bs))) by (by rewrite A6).
  split; try done.
  - rewrite A6 in B6. simpl in B6. rewrite B6 at 1. f_equal. rewrite length_app. lia.
  - rewrite length_app, fbytes_app, B7. f_equal. rewrite <-A7. unfold fbytes.
    rewrite length_bytes_at. apply bytes_at_ext. intros i Hi. apply B8; lia.
  - intros o Ho Hni. rewrite length_app in Hni. rewrite B8; [apply A8; lia|lia|lia].
  - intros i Hi Hn. rewrite B9; [by apply A9|done|by rewrite A9].
  - intros i Hi Hz Hn. destruct (decide (slot d' V' i = 0)) as [E0|E0].
    + destruct (used sb V (slot d'' V'' i)) eqn:Eu; [|done]. destruct (fo_data sb _ _ B3 i Hi Hn) as [Hr _].
      rewrite <-(B10 i Hi E0 Hn). symmetry. apply A12; [lia|done].
    + rewrite (B9 i Hi E0) in *. by apply A10.
  - intros inum' Hi Hne. rewrite B11, A11 by done. done.
  - intros b Hb Hu. by apply B12, A12.
  - intros b Hb Hu Hni. rewrite B13; [by apply A13|done|by apply A12; [lia|]|]. intros i Hi Ec.
    destruct (decide (slot d V i = 0)) as [E0|E0].
    + rewrite <-Ec in Hu. rewrite A10 in Hu by (done || lia). done.
    + rewrite A9 in Ec by done. by apply (Hni i).
Qed.
End wrote.

(** ** [writei] *)

Section writei.
Context {E : Type} `{CO : CopyOk E} (pid dev : Z) (cx : tctx) (sb : superblock) (Hsb : sb_ok sb).
Context (Hone : sb_size sb <= BPB).
Abbreviation fsx := (fsh pid dev cx sb [] []).
Abbreviation bm := (sb_bmapstart sb).

(** The bytes at the source, all of which can be read. *)
Definition src_bytes (e : E) (src : source) (n : nat) : list Z :=
  match src with SUser a => load a n e | SKernel bs => take n bs end.
Definition src_ok (src : source) (n : Z) : Prop :=
  match src with
  | SUser a => 0 <= a /\ a + n < 2 ^ 64 /\ readable a n
  | SKernel bs => n <= Z.of_nat (length bs)
  end.

Lemma length_src_bytes e src n : 0 <= n -> src_ok src n -> length (src_bytes e src (Z.to_nat n)) = Z.to_nat n.
Proof using Type.
  intros Hn. destruct src; simpl; intros Hok; [apply length_load|]. rewrite length_take. lia.
Qed.

Lemma src_ok_le src m n : 0 <= m <= n -> src_ok src n -> src_ok src m.
Proof using Type.
  intros Hm. destruct src; simpl; [|lia]. intros (H1 & H2 & H3). split_and!; [lia|lia|].
  eapply readable_sub; [exact H3|lia|lia|lia].
Qed.

Lemma src_advance_ok src m n : 0 <= m <= n -> src_ok src n -> src_ok (src_advance src m) (n - m).
Proof using Type.
  intros Hm. destruct src; simpl.
  - intros (H1 & H2 & H3). rewrite u64_id by lia. split_and!; [lia|lia|].
    eapply readable_sub; [exact H3|lia|lia|lia].
  - rewrite length_drop. lia.
Qed.

Lemma src_bytes_split e src m n : 0 <= m <= n -> src_ok src n ->
  src_bytes e src (Z.to_nat n) =
  src_bytes e src (Z.to_nat m) ++ src_bytes e (src_advance src m) (Z.to_nat (n - m)).
Proof using Type.
  intros Hm. replace (Z.to_nat n) with (Z.to_nat m + Z.to_nat (n - m))%nat by lia. destruct src; simpl.
  - intros (H1 & H2 & H3). rewrite u64_id by lia. rewrite load_app. by rewrite Z2Nat.id by lia.
  - intros _. symmetry. apply take_take_drop.
Qed.

Lemma either_copyin_ok Hl X V L k T e src m n (Q : Z * list Z -> fstate E -> Prop) s :
  fsh pid dev cx sb Hl X V L k T e s -> 0 <= m <= n -> src_ok src n ->
  (forall s', fsh pid dev cx sb Hl X V L k T e s' -> Q (0, src_bytes e src (Z.to_nat m)) s') ->
  wp (either_copyin src m) Q s.
Proof using Type.
  intros Hs Hm Hok HQ. destruct src as [a|bs]; simpl in *.
  - destruct Hok as (H1 & H2 & H3). apply wp_zoom. unfold wp. rewrite ucopyin_ok; [|lia|].
    + rewrite (fx_e _ _ _ _ _ _ _ _ _ _ _ _ Hs). apply HQ. destruct Hs as [A1 Ac A2 A3 A4]. by split.
    + eapply readable_sub; [exact H3|lia|lia|lia].
  - by apply wp_ret, HQ.
Qed.

(** The edit of a held block that is then logged and released. *)
Lemma edit_held_ok b i f V L k T e (Q : unit -> fstate E -> Prop) s :
  fsh pid dev cx sb [(b, i)] [] V L k T e s ->
  (forall s', fsh pid dev cx sb [(b, i)] [b] (upd V b (f (V b))) L k T e s' -> Q tt s') ->
  wp (lift (bio (edit i f))) Q s.
Proof using Type.
  intros Hs HQ. eapply wp_lift_fsh; [exact Hs|].
  wp_last (lst_edit pid dev cx _ _ _ _ _ b i f (fl s) (fx_l _ _ _ _ _ _ _ _ _ _ _ _ Hs)); [left|].
  intros [] x Hx. eexists _, _, _, _, _. split; [exact Hx|]. done.
Qed.

Lemma log_held_ok b i V L k T e (Q : unit -> fstate E -> Prop) s :
  fsh pid dev cx sb [(b, i)] [b] V L k T e s -> cost b L <= k -> loggable cx b ->
  (forall s', fsh pid dev cx sb [(b, i)] [] V (b :: L) (k - cost b L) T e s' -> Q tt s') ->
  wp (lift (log_write i)) Q s.
Proof using Type.
  clear Hsb Hone. intros Hs Hk Hlo HQ. eapply wp_lift_fsh; [exact Hs|].
  wp_last (lst_log_write pid dev cx _ _ [] _ _ _ b i (fl s) (fx_l _ _ _ _ _ _ _ _ _ _ _ _ Hs));
    [left| |set_solver|].
  { intros Hb. unfold cost in Hk. by rewrite decide_False in Hk. }
  intros [] x Hx. rewrite room_cost in Hx. eexists _, _, _, _, _. split; [exact Hx|]. done.
Qed.

(** The number of blocks that [n] bytes at [off] are in. *)
Definition nblocks (off n : Z) : Z := if n <=? 0 then 0 else (off + n - 1) / BSIZE - off / BSIZE + 1.

Lemma nblocks_step off n m : 0 <= off -> 0 < n -> m = Z.min n (BSIZE - off mod BSIZE) ->
  nblocks off n = 1 + nblocks (off + m) (n - m) /\ 0 <= nblocks (off + m) (n - m).
Proof using Type.
  intros Ho Hn ->. unfold nblocks, BSIZE. rewrite (proj2 (Z.leb_gt _ _)) by lia.
  destruct (Z.leb_spec (n - Z.min n (1024 - off mod 1024)) 0); lia.
Qed.


Lemma nblocks_nonneg off n : 0 <= off -> 0 <= nblocks off n.
Proof using Type. intros Ho. unfold nblocks, BSIZE. destruct (Z.leb_spec n 0); lia. Qed.

(** What [writei_loop] leaves: [m] bytes written, and all of them unless the
    disk is full at the start of a block.  [potential] is what the bitmap and
    the indirect block may still cost. *)
Definition potential (d : dinode) (L : list Z) : Z := cost bm L + indcost d L.

Lemma potential_range d L : 0 <= potential d L <= 2.
Proof using Type. clear Hsb Hone. unfold potential. pose proof (cost_range bm L). pose proof (indcost_range d L). lia. Qed.

Lemma potential_mono d d' L L' : (forall y, y ∈ L -> y ∈ L') ->
  nth NDIRECT (d_addrs d') 0 = nth NDIRECT (d_addrs d) 0 -> potential d' L' <= potential d L.
Proof using Type.
  clear Hsb Hone. intros HL Ha. unfold potential. pose proof (cost_mono bm L L' HL). pose proof (indcost_mono d d' L L' HL Ha). lia.
Qed.

Definition loop_post (V : Z -> block) (L : list Z) (k : Z) (T : nat -> inode) (e : E) (ip : nat)
    (src : source) (off n tot : Z) (r : Z * Z) (s' : fstate E) : Prop :=
  exists V' L' k' d' m,
    0 <= m <= n - tot /\ r = (tot + m, off + m) /\ fsx V' L' k' (upd T ip (with_d d' (T ip))) e s' /\
    wrote sb (i_d (T ip)) V d' V' off (src_bytes e src (Z.to_nat m)) /\
    (m < n - tot -> full sb V' /\ ~ mapped (i_d (T ip)) V (off + m) /\ (m = 0 \/ (off + m) mod BSIZE = 0)) /\ (forall y, y ∈ L -> y ∈ L') /\
    k - (potential (i_d (T ip)) L + nblocks off (n - tot)) <= k' - potential d' L'.

Lemma loop_stop V L k T e ip src off n tot V' L' k' d' s' :
  blocks_ok sb V -> file_ok sb (i_d (T ip)) V -> extends sb (i_d (T ip)) V d' V' ->
  fsx V' L' k' (upd T ip (with_d d' (T ip))) e s' -> tot <= n -> (tot < n -> full sb V' /\ ~ mapped (i_d (T ip)) V off) ->
  (forall y, y ∈ L -> y ∈ L') ->
  k - (potential (i_d (T ip)) L + nblocks off (n - tot)) <= k' - potential d' L' ->
  loop_post V L k T e ip src off n tot (tot, off) s'.
Proof using Type.
  intros Hv Hf Hx Hs Hn Hfull HL Hk. exists V', L', k', d', 0. rewrite !Z.add_0_r. split_and!; try done; try lia.
  - replace (src_bytes e src (Z.to_nat 0)) with (@nil Z); [by apply wrote_extends|].
    destruct src; [|done]. simpl. symmetry. apply nil_length_inv, length_load.
  - intros. destruct Hfull; [lia|]. split_and!; [done|done|by left].
Qed.

Lemma loop_step V L k T e ip src off n tot m V1 L1 k1 d1 r s' :
  let T1 := upd T ip (with_d d1 (T ip)) in
  wrote sb (i_d (T ip)) V d1 V1 off (src_bytes e src (Z.to_nat m)) ->
  0 <= off -> 0 <= m <= n - tot -> (m < n - tot -> (off + m) mod BSIZE = 0) ->
  off + (n - tot) <= MAXFILE * BSIZE -> src_ok src (n - tot) -> (forall y, y ∈ L -> y ∈ L1) ->
  k - (potential (i_d (T ip)) L + nblocks off (n - tot)) <=
    k1 - (potential d1 L1 + nblocks (off + m) (n - (tot + m))) ->
  loop_post V1 L1 k1 T1 e ip (src_advance src m) (off + m) n (tot + m) r s' ->
  loop_post V L k T e ip src off n tot r s'.
Proof using Hsb.
  intros T1 Hw Ho Hm Hal Hmax Hsrc HL Hk (V' & L' & k' & d' & m' & Hm' & -> & Hs & Hw' & Hfull & HL' & Hk').
  unfold T1 in *. rewrite !upd_same in *. rewrite upd_upd in Hs. cbn [with_d iset_d i_d] in *.
  pose proof (length_src_bytes e src m ltac:(lia) (src_ok_le _ _ _ Hm Hsrc)) as Hlen.
  exists V', L', k', d', (m + m'). split_and!; try done; try lia.
  - f_equal; lia.
  - rewrite (src_bytes_split e src m) by first [lia|apply (src_ok_le src _ (n - tot)); [lia|done]].
    replace (m + m' - m) with m' by lia. eapply wrote_trans; [done|done| |exact Hw|].
    + rewrite Hlen. lia.
    + by rewrite Hlen, Z2Nat.id by lia.
  - intros Hlt. destruct Hfull as (Hf & Hun & Ha); [lia|]. rewrite Z.add_assoc. split_and!; [done| |right].
    + intros Hmap. apply Hun. apply (wrote_mapped sb _ V d1 V1 _ _ _ Hw); [lia|done].
    + destruct Ha as [->|]; [|done]. rewrite Z.add_0_r. apply Hal. lia.
  - auto.
Qed.

Lemma writei_loop_spec left V L k T e ip src off n tot s :
  let d := i_d (T ip) in
  fsx V L k T e s -> i_dev (T ip) = dev -> blocks_ok sb V -> dinode_ok d -> file_ok sb d V ->
  0 <= off -> tot <= n -> off + (n - tot) <= MAXFILE * BSIZE -> src_ok src (n - tot) ->
  potential d L + nblocks off (n - tot) <= k -> n - tot <= Z.of_nat left ->
  wp (writei_loop pid ip src off n tot left) (loop_post V L k T e ip src off n tot) s.
Proof using Hsb Hone.
  revert V L k T src off tot s. induction left as [|left IH];
    intros V L k T src off tot s d Hs Hd Hv Hok Hf Hoff Htot Hmax Hsrc Hk Hleft; unfold potential in Hk; cbn [writei_loop];
    pose proof (cost_range bm L) as C1; pose proof (indcost_range d L) as C2;
    pose proof (nblocks_nonneg off (n - tot) Hoff) as C3.
  { rewrite (proj2 (Z.ltb_ge _ _)) by lia. apply wp_ret.
    eapply loop_stop; [done|done|by apply extends_refl|by rewrite upd_with_d|lia|lia|done|fold d; unfold potential; lia]. }
  destruct (Z.ltb_spec tot n) as [Hlt|Hge]; cbn [negb].
  2: { apply wp_ret. eapply loop_stop; [done|done|by apply extends_refl|by rewrite upd_with_d|lia|lia|done|fold d; unfold potential; lia]. }
  assert (Hob : 0 <= off / BSIZE < MAXFILE) by (apply block_no; unfold BSIZE in *; lia).
  pose proof (nblocks_step off (n - tot) _ Hoff ltac:(lia) eq_refl) as [Hnb Hnb'].
  set (m := Z.min (n - tot) (BSIZE - off mod BSIZE)) in *.
  assert (Hm : 0 < m <= n - tot /\ m <= BSIZE - off mod BSIZE) by (unfold m, BSIZE in *; lia).
  apply wp_bind. eapply wp_mono; [apply (bmap_spec pid dev cx sb Hsb Hone V L k T e ip (off / BSIZE) s); try done; fold d; lia|].
  fold d. intros b s1 (V1 & L1 & k1 & d1 & H1 & Hx & HL & Eb & Hfull & Hk1). pose proof (cost_range b L1) as Hcb.
  pose proof (cost_range bm L1) as C4. pose proof (indcost_range d1 L1) as C5.
  destruct (Z.eqb_spec b 0) as [Hz|Hn].
  { apply wp_ret. eapply loop_stop; [done|done|exact Hx|exact H1|lia| |done|fold d; unfold potential; lia].
    intros _. split; [by apply Hfull|]. unfold mapped. fold d. intros Hmap.
    apply (ex_slot _ _ _ _ _ Hx) in Hmap as Es; [|by apply data_slot_range]. congruence. }
  apply wp_bind. eapply wp_get_inode; [exact H1|]. rewrite upd_same. cbv zeta. cbn [with_d iset_d i_dev]. rewrite Hd. fold m.
  apply wp_bind. eapply hold_ok; [exact H1|]. clear s1 H1. intros i s1 H1.
  apply wp_bind. eapply either_copyin_ok; [exact H1| |exact Hsrc|]; [lia|]. clear s1 H1. intros s1 H1.
  apply wp_bind. eapply edit_held_ok; [exact H1|]. clear s1 H1. intros s1 H1. simpl.
  apply wp_bind. eapply log_held_ok; [exact H1|lia| |].
  { apply (data_loggable sb Hsb); [apply H1|]. rewrite Eb. apply (ex_file sb _ _ _ _ Hx); [|congruence].
    by apply data_slot_range. } clear s1 H1. intros s1 H1.
  apply wp_bind. eapply release_ok; [exact H1|]. clear s1 H1. intros s1 H1.
  pose proof (length_src_bytes e src m ltac:(lia) (src_ok_le src m (n - tot) ltac:(lia) Hsrc)) as Hlen.
  set (V2 := upd V1 b _) in H1.
  assert (Hw : wrote sb d1 V1 d1 V2 off (src_bytes e src (Z.to_nat m))).
  { unfold V2. rewrite Eb. apply wrote_block; try apply Hx; try done; [lia|unfold mapped; congruence|rewrite Hlen; lia]. }
  pose proof (cost_mono bm L1 (b :: L1) ltac:(set_solver)) as C6.
  pose proof (indcost_mono d1 d1 L1 (b :: L1) ltac:(set_solver) eq_refl) as C7.
  eapply wp_mono.
  { apply (IH V2 (b :: L1) (k1 - cost b L1) (upd T ip (with_d d1 (T ip)))); rewrite ?upd_same; cbn [with_d iset_d i_d i_dev]; try exact H1;
      try apply Hw; try done; try lia.
    - replace (n - (tot + m)) with (n - tot - m) by lia. apply src_advance_ok; [lia|done].
    - unfold potential. replace (n - (tot + m)) with (n - tot - m) by lia. lia. }
  intros r s2. apply (loop_step V L k T e ip src off n tot m V2 (b :: L1) (k1 - cost b L1) d1); try done; try lia.
  - eapply (wrote_trans sb Hsb d V d1 V1 d1 V2 off []); [done|simpl; lia|by apply wrote_extends|].
    simpl. by rewrite Z.add_0_r.
  - unfold m, BSIZE. lia.
  - set_solver.
  - unfold potential. fold d. replace (n - (tot + m)) with (n - tot - m) by lia. lia.
Qed.

Definition inode_cost (inum : Z) (L : list Z) : Z := cost (IBLOCK inum sb) L.

Lemma writei_spec V L k T e ip src off n s :
  let d := i_d (T ip) in
  fsx V L k T e s -> i_dev (T ip) = dev -> inum_ok sb (i_inum (T ip)) ->
  blocks_ok sb V -> dinode_ok d -> file_ok sb d V -> content_ok d V ->
  0 <= off <= d_size d -> 0 <= n -> off + n <= MAXFILE * BSIZE -> src_ok src n ->
  potential d L + nblocks off n + inode_cost (i_inum (T ip)) L <= k ->
  wp (writei pid ip src off n) (fun m s' => exists V' L' k' d',
    0 <= m <= n /\ fsx V' L' k' (upd T ip (with_d d' (T ip))) e s' /\
    file_updated sb (i_inum (T ip)) d V d' V' off (src_bytes e src (Z.to_nat m)) /\
    (m < n -> full sb V' /\ ~ mapped d V (off + m) /\ (m = 0 \/ (off + m) mod BSIZE = 0)) /\
    (forall y, y ∈ L -> y ∈ L') /\ IBLOCK (i_inum (T ip)) sb ∈ L' /\
    k - (potential d L + nblocks off n + inode_cost (i_inum (T ip)) L) <= k' - potential d' L') s.
Proof using Hsb Hone.
  intros d Hs Hd Hi Hv Hok Hf [C1 C2] Hoff Hn Hmax Hsrc Hk. unfold writei.
  assert (Hsm : off + n < 2 ^ 32) by (unfold MAXFILE, BSIZE, NDIRECT, NINDIRECT in *; lia).
  apply wp_bind. eapply wp_get_inode; [exact Hs|]. fold d. rewrite u32_id by lia.
  rewrite !(proj2 (Z.ltb_ge _ _)) by lia. cbn [orb]. apply wp_bind.
  eapply wp_mono; [apply (writei_loop_spec (Z.to_nat n) V L k T e ip src off n 0 s); try done; rewrite ?Z.sub_0_r; fold d; try lia; try done; unfold inode_cost in Hk; pose proof (cost_range (IBLOCK (i_inum (T ip)) sb) L); lia|].
  intros r s1 (V1 & L1 & k1 & d1 & m & Hm & -> & H1 & Hw & Hfull & HL & Hk1).
  rewrite Z.sub_0_r in *. fold d in Hw, Hk1.
  pose proof (length_src_bytes e src m ltac:(lia) (src_ok_le src m n ltac:(lia) Hsrc)) as Hlen.
  assert (Hu := wrote_updated sb Hsb (i_inum (T ip)) d V d1 V1 off _ Hi ltac:(by split) Hoff ltac:(rewrite Hlen; lia) Hw).
  cbv zeta in Hu. rewrite Hlen, Z2Nat.id in Hu by lia. set (d' := dset_size _ d1) in Hu.
  apply wp_bind. eapply wp_get_inode; [exact H1|]. rewrite upd_same. cbn [with_d iset_d i_d].
  assert (Hsz : d_size d1 = d_size d) by (by rewrite (wr_fields sb _ _ _ _ _ _ Hw)). rewrite Hsz.
  apply wp_bind. apply (wp_mono _ (fun _ => fsx V1 L1 k1 (upd T ip (with_d d' (T ip))) e)).
  { destruct (Z.ltb_spec (d_size d) (off + m)) as [Hlt|Hge].
    - eapply wp_change_inode; [exact H1|]. intros s2. rewrite upd_same, upd_upd.
      unfold d'. by rewrite Z.max_r by lia.
    - apply wp_ret. replace d' with d1; [done|]. unfold d'. rewrite Z.max_l, <-Hsz by lia. by destruct d1. }
  intros _ s2 H2. apply wp_bind. set (ib := IBLOCK (i_inum (T ip)) sb).
  assert (Hic : cost ib L1 <= inode_cost (i_inum (T ip)) L) by (by apply cost_mono).
  pose proof (potential_mono d1 d' L1 (ib :: L1) ltac:(set_solver) eq_refl) as Hpot.
  pose proof (potential_range d1 L1) as Hp0.
  eapply wp_mono; [apply (iupdate_spec pid dev cx sb Hsb V1 L1 k1 _ e ip s2 H2); rewrite upd_same; try done|].
  { cbn [with_d iset_d i_inum]. intros Hnot. unfold cost at 1 in Hic. rewrite decide_False in Hic by done. lia. }
  rewrite upd_same. cbn [with_d iset_d i_d i_inum]. intros _ s3 H3. apply wp_ret.
  eexists _, _, _, d'. split_and!; try exact H3; try done; try lia.
  - intros Hlt. destruct Hfull as (Hu' & Hun & Ha); [lia|]. split; [|done]. intros b Hb. rewrite used_put_dino by done. by apply Hu'.
  - set_solver.
  - set_solver.
  - rewrite room_cost. unfold inode_cost in *. fold ib in Hic, Hk |- *. lia.
Qed.

(** The calls [writei] refuses. *)
Lemma writei_refuses V L k T e ip src off n s :
  let d := i_d (T ip) in
  fsx V L k T e s -> uint off -> uint n ->
  d_size d < off \/ MAXFILE * BSIZE < off + n ->
  wp (writei pid ip src off n) (fun m s' => m = -1 /\ fsx V L k T e s') s.
Proof using Type.
  intros d Hs Ho Hn Hbad. unfold uint in *. unfold writei. apply wp_bind. eapply wp_get_inode; [exact Hs|]. fold d.
  destruct ((d_size d <? off) || (u32 (off + n) <? off)) eqn:Eg; [by apply wp_ret|].
  apply orb_false_iff in Eg as [E1 E2]. unfold u32 in *.
  rewrite (proj2 (Z.ltb_lt _ _)); [by apply wp_ret|]. lia.
Qed.
End writei.
