(* ===== verification/FsTrunc.v ===== *)
(** * Truncation

    [itrunc] gives back exactly the blocks of the file, and [iput] of the last
    reference to an inode without links frees the inode too. *)

From S2P Require Import Prelude Bytes Locks Bio Log Fs FsBlocks FsInode FsFile FsData.

(** ** Blocks given back *)

Section freed.
Context (sb : superblock) (Hsb : sb_ok sb).

(** [bfree] of the blocks of a list that are not 0, in order. *)
Fixpoint freed (l : list Z) (V : Z -> block) : Z -> block :=
  match l with
  | [] => V
  | b :: l' => freed l' (if b =? 0 then V else unmark sb b V)
  end.

Lemma freed_app l l' V : freed (l ++ l') V = freed l' (freed l V).
Proof using Type. revert V. induction l as [|b l IH]; intros V; simpl; [done|]. apply IH. Qed.

Definition data_block (b : Z) : Prop := b <> 0 -> data_start sb <= b < sb_size sb.

Lemma unmark_other b V b' : data_start sb <= b < sb_size sb ->
  b' < sb_bmapstart sb \/ data_start sb <= b' -> unmark sb b V b' = V b'.
Proof using Hsb.
  intros Hb Hb'. unfold unmark. rewrite upd_other; [done|]. pose proof (data_start_pos sb Hsb).
  destruct (BBLOCK_range sb Hsb b ltac:(lia)). lia.
Qed.

Lemma blocks_ok_unmark b V : blocks_ok sb V -> data_start sb <= b < sb_size sb -> blocks_ok sb (unmark sb b V).
Proof using Hsb.
  intros Hv Hb. pose proof (data_start_pos sb Hsb). split.
  - intros b'. unfold unmark. upd_cases b' (BBLOCK b sb); [rewrite length_bit_reset|]; apply Hv.
  - intros b' Hb'. rewrite used_unmark by (done || lia). rewrite (bo_meta _ _ Hv) by done.
    by rewrite (proj2 (Z.eqb_neq _ _)) by lia.
Qed.

Lemma freed_other l V b : Forall data_block l -> b < sb_bmapstart sb \/ data_start sb <= b -> freed l V b = V b.
Proof using Hsb.
  intros Hl Hb. revert V. induction Hl as [|c l Hc _ IH]; intros V; simpl; [done|]. rewrite IH.
  destruct (Z.eqb_spec c 0); [done|]. by apply unmark_other; [apply Hc|].
Qed.

Lemma blocks_ok_freed l V : Forall data_block l -> blocks_ok sb V -> blocks_ok sb (freed l V).
Proof using Hsb.
  intros Hl. revert V. induction Hl as [|c l Hc _ IH]; intros V Hv; simpl; [done|]. apply IH.
  destruct (Z.eqb_spec c 0); [done|]. by apply blocks_ok_unmark; [|apply Hc].
Qed.

Lemma used_freed l V b : Forall data_block l -> blocks_ok sb V -> data_start sb <= b < sb_size sb ->
  used sb (freed l V) b = used sb V b && negb (bool_decide (b ∈ l)).
Proof using Hsb.
  intros Hl Hv Hb. pose proof (data_start_pos sb Hsb). revert V Hv.
  induction Hl as [|c l Hc _ IH]; intros V Hv; cbn [freed].
  { rewrite bool_decide_false by apply not_elem_of_nil. by rewrite andb_true_r. }
  rewrite IH by (destruct (Z.eqb_spec c 0); [done|by apply blocks_ok_unmark; [|apply Hc]]).
  rewrite (bool_decide_ext (b ∈ c :: l) (b = c \/ b ∈ l)) by apply elem_of_cons.
  rewrite bool_decide_or, negb_orb, andb_assoc. f_equal.
  destruct (Z.eqb_spec c 0) as [->|Hn].
  - rewrite bool_decide_false by lia. by rewrite andb_true_r.
  - rewrite used_unmark by (done || lia || (specialize (Hc Hn); lia)). rewrite andb_comm. do 2 f_equal.
    destruct (Z.eqb_spec c b) as [->|]; [by rewrite bool_decide_true|by rewrite bool_decide_false by congruence].
Qed.
End freed.

(** ** [itrunc] *)

Lemma seq_middle a x b n : a ++ x :: b = seq 0 n -> x = length a /\ a = seq 0 (length a) /\ (length a < n)%nat.
Proof.
  intros E. assert (Hn : n = (length a + S (length b))%nat).
  { rewrite <-(length_seq n 0), <-E, length_app. simpl. lia. }
  rewrite Hn, seq_app in E. apply app_inj_1 in E as [E1 E2]; [|by rewrite length_seq].
  simpl in E2. injection E2 as E2 _. split_and!; [lia|done|lia].
Qed.

Section trunc.
Context {E : Type} `{CE : CopyEnv E} (pid dev : Z) (cx : tctx) (sb : superblock) (Hsb : sb_ok sb).
Context (Hone : sb_size sb <= BPB).
Abbreviation fsx := (fsh pid dev cx sb [] []).
Abbreviation bm := (sb_bmapstart sb).

(** The log took the bitmap block at most. *)
Definition paid (L : list Z) (k : Z) (L' : list Z) (k' : Z) : Prop :=
  (forall y, y ∈ L -> y ∈ L') /\ k - cost bm L <= k' - cost bm L'.

Lemma paid_trans L k L' k' L'' k'' : paid L k L' k' -> paid L' k' L'' k'' -> paid L k L'' k''.
Proof using Type. intros [H1 H2] [H3 H4]. split; [auto|lia]. Qed.

Lemma bfree_one Hl V L k b s :
  lst pid dev cx Hl [] V L k s -> log_first sb cx -> blocks_ok sb V -> held_data sb Hl V -> (length Hl <= 2)%nat ->
  data_start sb <= b < sb_size sb -> used sb V b = true -> cost bm L <= k ->
  wp (bfree pid sb dev b) (fun _ s' => exists L' k', paid L k L' k' /\
    lst pid dev cx Hl [] (unmark sb b V) L' k' s') s.
Proof using Hsb Hone.
  intros Hs Hc Hv Hh Hlen Hb Hu Hk. pose proof (data_start_pos sb Hsb).
  eapply wp_mono; [apply (bfree_spec sb Hsb pid dev cx Hl V L k b s Hs Hc Hv Hh Hlen); [|lia|done]|].
  { intros Hni. rewrite BBLOCK_one in Hni by (done || lia). unfold cost in Hk. by rewrite decide_False in Hk. }
  intros [] s' Hs'. rewrite BBLOCK_one, room_cost in Hs' by (done || lia).
  exists (bm :: L), (k - cost bm L). split; [|done]. split; [set_solver|].
  rewrite (cost_in bm (bm :: L)) by left. lia.
Qed.

Section one.
Context (V : Z -> block) (d : dinode).
Context (Hv : blocks_ok sb V) (Hd : dinode_ok d) (Hf : file_ok sb d V).

Lemma slots_data l : Forall (fun i => (i < NSLOT)%nat) l -> Forall (data_block sb) (map (slot d V) l).
Proof using Hf.
  intros Hl. apply List.Forall_map. eapply Forall_impl; [exact Hl|]. intros i Hi Hn. by apply Hf.
Qed.

(** A slot that is not among those freed is still in use. *)
Lemma slot_in_use l i : Forall (fun i => (i < NSLOT)%nat) l -> (i < NSLOT)%nat -> i ∉ l -> slot d V i <> 0 ->
  used sb (freed sb (map (slot d V) l) V) (slot d V i) = true.
Proof using Hsb Hv Hf.
  intros Hl Hi Hni Hn. destruct (fo_data sb _ _ Hf i Hi Hn) as [Hr Hu].
  rewrite used_freed, Hu; [|done|by apply slots_data|done|done]. rewrite bool_decide_false; [done|].
  intros (j & Hj & Hjl)%list_elem_of_fmap. apply Hni. rewrite (fo_inj sb _ _ Hf i j); try done.
  by eapply Forall_forall in Hl.
Qed.

(** The inode with the first [n] addresses cleared. *)
Definition clear_addrs (n : nat) : dinode :=
  Dinode (d_type d) (d_major d) (d_minor d) (d_nlink d) (d_size d) (repeat 0 n ++ drop n (d_addrs d)).

Lemma clear_addrs_nth n i : (n <= i)%nat -> nth i (d_addrs (clear_addrs n)) 0 = nth i (d_addrs d) 0.
Proof using Type.
  intros Hi. simpl. rewrite app_nth2 by (rewrite List.repeat_length; lia). rewrite List.repeat_length.
  rewrite !nth_lookup, lookup_drop. do 2 f_equal. lia.
Qed.

Lemma clear_addrs_S n : (n < 13)%nat -> dset_addr n 0 (clear_addrs n) = clear_addrs (S n).
Proof using Hd.
  intros Hn. unfold clear_addrs, dset_addr. cbn [d_type d_major d_minor d_nlink d_size d_addrs]. f_equal.
  pose proof (do_addrs _ Hd) as Hl. unfold NDIRECT in Hl.
  rewrite insert_app_r_alt by (rewrite List.repeat_length; lia). rewrite List.repeat_length, Nat.sub_diag.
  destruct (lookup_lt_is_Some_2 (d_addrs d) n) as [a Ha]; [lia|]. rewrite (drop_S _ _ _ Ha).
  replace (<[0%nat := 0]> (a :: drop (S n) (d_addrs d))) with ([0] ++ drop (S n) (d_addrs d)) by done.
  rewrite app_assoc, <-List.repeat_cons. done.
Qed.

Lemma clear_addrs_zero n : (n < 13)%nat -> nth n (d_addrs d) 0 = 0 -> clear_addrs n = clear_addrs (S n).
Proof using Hd.
  intros Hn Hz. rewrite <-clear_addrs_S by done. rewrite <-(clear_addrs_nth n n) in Hz by lia.
  unfold dset_addr. destruct (clear_addrs n) as [ty ma mi nl sz ad] eqn:Ec. simpl in *. f_equal.
  rewrite nth_lookup in Hz. symmetry. apply list_insert_id'. intros Hlt.
  destruct (lookup_lt_is_Some_2 ad n Hlt) as [v Hv']. rewrite Hv' in Hz |- *. by simpl in Hz; subst.
Qed.

Abbreviation freed_slots l := (freed sb (map (slot d V) l) V).

Lemma blocks_ok_slots l : Forall (fun i => (i < NSLOT)%nat) l -> blocks_ok sb (freed_slots l).
Proof using Hsb Hv Hf. intros Hl. apply blocks_ok_freed; [done|by apply slots_data|done]. Qed.

Lemma freed_slots_snoc l i : freed_slots (l ++ [i]) =
  if slot d V i =? 0 then freed_slots l else unmark sb (slot d V i) (freed_slots l).
Proof using Type. by rewrite map_app, freed_app. Qed.

Lemma seq_slots n m : (n + m <= NSLOT)%nat -> Forall (fun i => (i < NSLOT)%nat) (seq n m).
Proof using Type. intros Hn. apply Forall_forall. intros i Hi%elem_of_seq. lia. Qed.

Lemma trunc_direct L k T (e : E) ip s :
  fsx V L k T e s -> i_dev (T ip) = dev -> i_d (T ip) = d -> cost bm L <= k ->
  wp (for_each (seq 0 NDIRECT) (fun i =>
        let! x := get_inode ip in
        when! negb (baddr x i =? 0) do
          (let! sb := gets fsb in
           lift (bfree pid sb (i_dev x) (baddr x i)) ;;
           change_inode ip (iset_d (dset_addr i 0)))))
    (fun _ s' => exists L' k', paid L k L' k' /\
       fsx (freed_slots (seq 0 NDIRECT)) L' k' (upd T ip (with_d (clear_addrs NDIRECT) (T ip))) e s') s.
Proof using Hsb Hone Hv Hd Hf.
  intros Hs Hdev Ed Hk.
  eapply wp_mono; [apply (wp_for_each _ (fun dn _ s' => exists L' k', paid L k L' k' /\
    fsx (freed_slots dn) L' k' (upd T ip (with_d (clear_addrs (length dn)) (T ip))) e s'))|].
  { exists L, k. split; [by split|]. simpl. replace (clear_addrs 0) with (i_d (T ip)); [by rewrite upd_with_d|].
    rewrite Ed. unfold clear_addrs. by destruct d. }
  2: { intros [] s' H. by rewrite length_seq in H. }
  intros dn i r s1 Ei (L1 & k1 & [HL1 Hk1] & H1). apply seq_middle in Ei as (Ei & Edn & Hi).
  rewrite <-Ei in *. assert (Hil : (i <= NDIRECT)%nat) by lia.
  assert (Hln : Forall (fun i => (i < NSLOT)%nat) dn) by (rewrite Edn; apply seq_slots; unfold NSLOT; lia).
  rewrite length_app, <-Ei, Nat.add_1_r, freed_slots_snoc.
  apply wp_bind. eapply wp_get_inode; [exact H1|]. rewrite upd_same. unfold baddr. cbn [with_d iset_d i_d i_dev].
  rewrite clear_addrs_nth, <-(slot_low d V i) by lia. rewrite Hdev.
  destruct (Z.eqb_spec (slot d V i) 0) as [Hz|Hn]; cbn [negb].
  { apply wp_ret. exists L1, k1. split; [by split|]. rewrite <-clear_addrs_zero; [done|unfold NDIRECT in *; lia|].
    by rewrite <-(slot_low d V i). }
  destruct (fo_data sb _ _ Hf i ltac:(unfold NSLOT; lia) Hn) as [Hr _].
  apply wp_bind. eapply wp_get_sb; [exact H1|]. apply wp_bind. eapply wp_lift_fsx; [exact H1|].
  eapply wp_mono; [apply (bfree_one [] (freed_slots dn) L1 k1); try apply H1; try done|].
  { by apply blocks_ok_slots. }
  { intros b Hb. by apply not_elem_of_nil in Hb. }
  { simpl. lia. }
  { apply slot_in_use; [done|unfold NSLOT; lia| |done]. rewrite Edn. intros Hin%elem_of_seq. lia. }
  { lia. }
  intros _ x (L2 & k2 & Hp & Hx). exists (unmark sb (slot d V i) (freed_slots dn)), L2, k2. split; [done|].
  intros s2 H2. eapply wp_change_inode; [exact H2|]. intros s3 H3. exists L2, k2.
  split; [eapply paid_trans; [by split|exact Hp]|]. rewrite upd_same, upd_upd in H3.
  rewrite <-clear_addrs_S by (unfold NDIRECT in *; lia). exact H3.
Qed.

Lemma trunc_indirect L k i s :
  let ind := slot d V NDIRECT in
  let l0 := seq 0 NDIRECT in
  lst pid dev cx [(ind, i)] [] (freed_slots l0) L k s -> log_first sb cx -> ind <> 0 -> cost bm L <= k ->
  wp (for_each (seq 0 NINDIRECT) (fun j =>
        let! x := bio (get_data i) in
        when! negb (get32 x (4 * j) =? 0) do bfree pid sb dev (get32 x (4 * j))))
    (fun _ s' => exists L' k', paid L k L' k' /\
       lst pid dev cx [(ind, i)] [] (freed_slots (l0 ++ seq (NDIRECT + 1) NINDIRECT)) L' k' s') s.
Proof using Hsb Hone Hv Hd Hf.
  intros ind l0 Hs Hc Hn Hk.
  eapply wp_mono; [apply (wp_for_each _ (fun dn _ s' => exists L' k', paid L k L' k' /\
    lst pid dev cx [(ind, i)] [] (freed_slots (l0 ++ seq (NDIRECT + 1) (length dn))) L' k' s'))|].
  { exists L, k. split; [by split|]. change (seq (NDIRECT + 1) (length [])) with (@nil nat). by rewrite app_nil_r. }
  2: { intros [] s' H. by rewrite length_seq in H. }
  intros dn j r s1 Ej (L1 & k1 & [HL1 Hk1] & H1). apply seq_middle in Ej as (Ej & Edn & Hj).
  set (l := l0 ++ seq (NDIRECT + 1) (length dn)) in *.
  assert (Hl : Forall (fun i => (i < NSLOT)%nat) l).
  { apply Forall_app. split; apply seq_slots; unfold NSLOT; lia. }
  assert (Hni : forall y, (NDIRECT + 1 + j <= y)%nat \/ y = NDIRECT -> y ∉ l).
  { intros y Hy Hin. apply elem_of_app in Hin as [Hin|Hin]; apply elem_of_seq in Hin; lia. }
  destruct (fo_data sb _ _ Hf NDIRECT ltac:(unfold NSLOT; lia) Hn) as [Hir _]. fold ind in Hir.
  replace (length (dn ++ [j])) with (S (length dn)) by (rewrite length_app; simpl; lia). rewrite seq_S, app_assoc. fold l. rewrite freed_slots_snoc, <-Ej.
  apply wp_bind. eapply lst_data; [exact H1|left|]. rewrite freed_other by (done || (by apply slots_data) || lia).
  replace (4 * j)%nat with (4 * (NDIRECT + 1 + j - 13))%nat by (unfold NDIRECT; lia).
  unfold ind. rewrite <-(slot_high d V) by (done || lia).
  destruct (Z.eqb_spec (slot d V (NDIRECT + 1 + j)) 0) as [Hz|Hnz]; cbn [negb].
  { apply wp_ret. exists L1, k1. by split. }
  destruct (fo_data sb _ _ Hf (NDIRECT + 1 + j) ltac:(unfold NSLOT; lia) Hnz) as [Hr _].
  eapply wp_mono; [apply (bfree_one [(ind, i)] (freed_slots l) L1 k1); try exact H1; try done|].
  { by apply blocks_ok_slots. }
  { intros b Hb. simpl in Hb. apply list_elem_of_singleton in Hb as ->. split; [done|].
    apply slot_in_use; [done|unfold NSLOT; lia| |done]. apply Hni. by right. }
  { simpl. lia. }
  { apply slot_in_use; [done|unfold NSLOT; lia| |done]. apply Hni. left. lia. }
  { lia. }
  intros _ x (L2 & k2 & Hp & Hx). exists L2, k2. split; [|done]. eapply paid_trans; [by split|exact Hp].
Qed.

(** The inode without contents. *)
Definition emptied : dinode :=
  Dinode (d_type d) (d_major d) (d_minor d) (d_nlink d) 0 (repeat 0 (NDIRECT + 1)).

Lemma emptied_ok : dinode_ok emptied.
Proof using Hd. destruct Hd. split; try done. repeat (constructor; [by compute|]). constructor. Qed.

(** The contents once the blocks of inode [inum] are free and its dinode is
    [x]. *)
Record truncated (inum : Z) (x : dinode) (V' : Z -> block) : Prop := {
  tr_blocks : blocks_ok sb V';
  tr_disk : dino sb V' inum = x;
  tr_used : forall b, data_start sb <= b < sb_size sb ->
    used sb V' b = used sb V b && negb (bool_decide (b ∈ map (slot d V) (seq 0 NSLOT)));
  tr_data : forall b, data_start sb <= b -> V' b = V b;
  tr_inodes : forall inum', inum_ok sb inum' -> inum' <> inum -> dino sb V' inum' = dino sb V inum';
}.

Lemma freed_truncated inum l : inum_ok sb inum -> Forall (fun i => (i < NSLOT)%nat) l ->
  (forall i, (i < NSLOT)%nat -> slot d V i <> 0 -> i ∈ l) ->
  truncated inum emptied (put_dino sb emptied inum (freed_slots l)).
Proof using Hsb Hv Hd Hf.
  intros Hi Hl Hall. pose proof (data_start_pos sb Hsb). pose proof (bitmap_before_data sb Hsb).
  pose proof (blocks_ok_slots l Hl) as Hb. pose proof (slots_data l Hl) as Hsd. split.
  - by apply blocks_ok_put_dino.
  - rewrite dino_put by (done || apply emptied_ok). by rewrite decide_True.
  - intros b Hr. rewrite used_put_dino, used_freed by (done || lia). do 2 f_equal. apply bool_decide_ext.
    split; intros (i & -> & Hin)%list_elem_of_fmap.
    + apply list_elem_of_fmap. exists i. split; [done|]. apply elem_of_seq.
      eapply Forall_forall in Hl; [|exact Hin]. lia.
    + apply list_elem_of_fmap. exists i. split; [done|]. apply elem_of_seq in Hin. apply Hall; lia.
  - intros b Hb'. rewrite put_dino_data by (done || lia). apply freed_other; [done|done|by right].
  - intros inum' Hi' Hne. rewrite dino_put by (done || apply emptied_ok). rewrite decide_False by done.
    unfold dino. rewrite freed_other; [done|done|done|left]. by apply IBLOCK_range.
Qed.

Lemma itrunc_finish L k T (e : E) ip l s :
  fsx (freed_slots l) L k T e s -> i_dev (T ip) = dev -> inum_ok sb (i_inum (T ip)) ->
  (forall i, (i < NSLOT)%nat -> slot d V i <> 0 -> i ∈ l) -> Forall (fun i => (i < NSLOT)%nat) l ->
  dset_size 0 (i_d (T ip)) = emptied -> 1 <= k ->
  wp (change_inode ip (iset_d (dset_size 0)) ;; iupdate pid ip) (fun _ s' => exists V' L' k',
    fsx V' L' k' (upd T ip (with_d emptied (T ip))) e s' /\ truncated (i_inum (T ip)) emptied V' /\
    (forall y, y ∈ L -> y ∈ L') /\ IBLOCK (i_inum (T ip)) sb ∈ L' /\ k - 1 <= k') s.
Proof using Hsb Hone Hv Hd Hf.
  intros Hs Hdev Hi Hall Hl Ed Hk. apply wp_bind. eapply wp_change_inode; [exact Hs|]. intros s1 H1.
  replace (iset_d (dset_size 0) (T ip)) with (with_d emptied (T ip)) in H1 by (by rewrite <-Ed).
  eapply wp_mono; [apply (iupdate_spec pid dev cx sb Hsb _ _ _ _ e ip s1 H1); rewrite upd_same; done|].
  rewrite upd_same. cbn [with_d iset_d i_d i_inum]. intros _ s2 H2. eexists _, _, _. split; [exact H2|].
  split_and!; [by apply freed_truncated|set_solver|set_solver|].
  rewrite room_cost. pose proof (cost_range (IBLOCK (i_inum (T ip)) sb) L). lia.
Qed.

Lemma clear_all n : (13 <= n)%nat \/ (n = 12%nat /\ nth 12 (d_addrs d) 0 = 0) -> (n <= 13)%nat ->
  dset_size 0 (clear_addrs n) = emptied.
Proof using Hd.
  intros Hn Hle. assert (E13 : clear_addrs n = clear_addrs 13).
  { destruct Hn as [Hn|[-> Hz]]; [by replace n with 13%nat by lia|by apply clear_addrs_zero; [lia|]]. }
  rewrite E13. unfold clear_addrs, emptied, dset_size. cbn [d_type d_major d_minor d_nlink d_addrs]. f_equal.
  rewrite drop_ge; [by rewrite app_nil_r|]. rewrite (do_addrs _ Hd). unfold NDIRECT. lia.
Qed.

(** The blocks in the order [itrunc] frees them. *)
Definition free_order : list nat := seq 0 NDIRECT ++ seq (NDIRECT + 1) NINDIRECT ++ [NDIRECT].

Lemma free_order_slots : Forall (fun i => (i < NSLOT)%nat) free_order.
Proof using Type.
  repeat (apply Forall_app; split); [by apply seq_slots; unfold NSLOT; lia..|].
  constructor; [unfold NSLOT; lia|done].
Qed.

Lemma free_order_all i : (i < NSLOT)%nat -> i ∈ free_order.
Proof using Type.
  unfold NSLOT, free_order. intros Hi. rewrite !elem_of_app, !elem_of_seq, list_elem_of_singleton. lia.
Qed.

Lemma trunc_indirect_block L k s :
  let ind := slot d V NDIRECT in
  lst pid dev cx [] [] (freed_slots (seq 0 NDIRECT)) L k s -> log_first sb cx -> ind <> 0 -> cost bm L <= k ->
  wp (let! bp := bio (bread pid dev ind) in
      for_each (seq 0 NINDIRECT) (fun j =>
        let! x := bio (get_data bp) in
        when! negb (get32 x (4 * j) =? 0) do bfree pid sb dev (get32 x (4 * j))) ;;
      bio (brelse pid bp) ;;
      bfree pid sb dev ind)
    (fun _ s' => exists L' k', paid L k L' k' /\ lst pid dev cx [] [] (freed_slots free_order) L' k' s') s.
Proof using Hsb Hone Hv Hd Hf.
  intros ind Hs Hc Hn Hk. destruct (fo_data sb _ _ Hf NDIRECT ltac:(unfold NSLOT; lia) Hn) as [Hir _].
  set (l := seq 0 NDIRECT ++ seq (NDIRECT + 1) NINDIRECT).
  assert (Hl : Forall (fun i => (i < NSLOT)%nat) l).
  { apply Forall_app. split; apply seq_slots; unfold NSLOT; lia. }
  assert (H12 : NDIRECT ∉ l).
  { intros Hin. apply elem_of_app in Hin as [Hin|Hin]; apply elem_of_seq in Hin; lia. }
  wp_call (lst_bread pid dev cx [] [] _ L k ind s Hs); [apply not_elem_of_nil|simpl; lia|].
  intros i s1 H1. apply wp_bind. eapply wp_mono; [by apply (trunc_indirect L k i s1 H1 Hc Hn)|].
  intros [] s2 (L2 & k2 & [HL2 Hk2] & H2). fold ind in H2. fold l in H2.
  wp_call (lst_brelse pid dev cx _ _ _ _ _ _ _ s2 H2); [apply not_elem_of_nil|]. intros _ s3 H3.
  eapply wp_mono; [apply (bfree_one [] (freed_slots l) L2 k2 ind s3 H3); try done|].
  { by apply blocks_ok_slots. }
  { intros b Hb. by apply not_elem_of_nil in Hb. }
  { simpl. lia. }
  { apply slot_in_use; [done|unfold NSLOT; lia|done|done]. }
  { lia. }
  intros _ s4 (L3 & k3 & Hp & H4). exists L3, k3. split; [eapply paid_trans; [by split|exact Hp]|].
  unfold free_order. rewrite app_assoc. fold l. rewrite freed_slots_snoc. fold ind.
  by rewrite (proj2 (Z.eqb_neq _ _)).
Qed.

Lemma itrunc_spec L k T (e : E) ip s :
  fsx V L k T e s -> i_dev (T ip) = dev -> inum_ok sb (i_inum (T ip)) -> i_d (T ip) = d ->
  cost bm L + 1 <= k ->
  wp (itrunc pid ip) (fun _ s' => exists V' L' k',
    fsx V' L' k' (upd T ip (with_d emptied (T ip))) e s' /\ truncated (i_inum (T ip)) emptied V' /\
    (forall y, y ∈ L -> y ∈ L') /\ IBLOCK (i_inum (T ip)) sb ∈ L' /\ k - cost bm L - 1 <= k') s.
Proof using Hsb Hone Hv Hd Hf.
  intros Hs Hdev Hi Ed Hk. unfold itrunc. pose proof (cost_range bm L) as C0.
  wp_call (trunc_direct L k T e ip s Hs Hdev Ed). intros _ s1 (L1 & k1 & Hp1 & H1).
  pose proof (cost_range bm L1) as C1. destruct Hp1 as [HL1 Hk1].
  apply wp_bind, wp_bind. eapply wp_get_inode; [exact H1|]. rewrite upd_same. unfold baddr. cbn [with_d iset_d i_d i_dev].
  rewrite clear_addrs_nth, <-(slot_low d V NDIRECT) by lia.
  destruct (Z.eqb_spec (slot d V NDIRECT) 0) as [Hz|Hn]; cbn [negb].
  { apply wp_ret. eapply wp_mono; [eapply (itrunc_finish L1 k1 _ e ip (seq 0 NDIRECT) s1 H1); rewrite ?upd_same;
      cbn [with_d iset_d i_d i_inum i_dev]; try done|].
    - intros i Hlt Hni. apply elem_of_seq. destruct (decide (i < NDIRECT)%nat) as [|Hge]; [lia|]. exfalso. apply Hni.
      destruct (decide (i = NDIRECT)) as [->|]; [done|]. apply slot_none; [lia|done].
    - apply seq_slots. unfold NSLOT. lia.
    - apply clear_all; [|unfold NDIRECT; lia]. right. by rewrite slot_low in Hz.
    - lia.
    - rewrite upd_same, upd_upd. cbn [with_d iset_d i_inum]. intros _ s2 (V' & L' & k' & H2 & Ht & HL & HI & Hk').
      exists V', L', k'. split_and!; [done|done|auto|done|lia]. }
  apply wp_bind. eapply wp_get_sb; [exact H1|]. apply wp_bind. rewrite Hdev. eapply wp_lift_fsx; [exact H1|].
  eapply wp_mono; [apply (trunc_indirect_block L1 k1 (fl s1)); [apply H1|apply H1|done|lia]|].
  intros [] x (L3 & k3 & [HL3 Hk3] & Hx). pose proof (cost_range bm L3) as C3.
  exists (freed_slots free_order), L3, k3. split; [done|]. intros s2 H2.
  eapply wp_change_inode; [exact H2|]. rewrite upd_same, upd_upd. intros s3 H3.
  eapply wp_mono; [eapply (itrunc_finish L3 k3 _ e ip free_order s3 H3); rewrite ?upd_same;
      cbn [with_d iset_d i_d i_inum i_dev]; try done|].
  - intros j Hlt _. by apply free_order_all.
  - apply free_order_slots.
  - rewrite clear_addrs_S by (unfold NDIRECT; lia). apply clear_all; unfold NDIRECT; lia.
  - lia.
  - rewrite upd_same, upd_upd. cbn [with_d iset_d i_inum]. intros _ s4 (V' & L' & k' & H4 & Ht & HL & HI & Hk').
    exists V', L', k'. split_and!; [done|done|auto|done|lia].
Qed.

Lemma truncated_put inum x y V' : inum_ok sb inum -> dinode_ok y -> truncated inum x V' ->
  truncated inum y (put_dino sb y inum V').
Proof using Hsb.
  intros Hi Hy [T1 T2 T3 T4 T5]. pose proof (data_start_pos sb Hsb). pose proof (bitmap_before_data sb Hsb). split.
  - by apply blocks_ok_put_dino.
  - rewrite dino_put by done. by rewrite decide_True.
  - intros b Hb. rewrite used_put_dino by (done || lia). by apply T3.
  - intros b Hb. rewrite put_dino_data by (done || lia). by apply T4.
  - intros inum' Hi' Hne. rewrite dino_put by done. rewrite decide_False by done. by apply T5.
Qed.

(** [iput] of the last reference to an inode that has no links. *)
Lemma iput_last_spec L k T (e : E) ip s :
  fsx V L k T e s -> i_dev (T ip) = dev -> inum_ok sb (i_inum (T ip)) -> i_d (T ip) = d ->
  i_ref (T ip) = 1 -> i_valid (T ip) = true -> d_nlink d = 0 -> slocked (i_lock (T ip)) = false ->
  cost bm L + 1 <= k ->
  wp (iput pid ip) (fun _ s' => exists V' L' k',
    fsx V' L' k' (upd T ip (Inode dev (i_inum (T ip)) 0 (Sleeplock false 0) false (dset_type 0 emptied))) e s' /\
    truncated (i_inum (T ip)) (dset_type 0 emptied) V' /\ k - cost bm L - 1 <= k') s.
Proof using Hsb Hone Hv Hd Hf.
  intros Hs Hdev Hi Ed Hr Hval Hnl Hlk Hk. unfold iput. apply wp_bind. eapply wp_get_inode; [exact Hs|].
  rewrite Hr, Hval, Ed, Hnl. cbn [Z.eqb andb]. apply wp_bind, wp_bind.
  assert (Ha : wp (ilock_acquire pid ip) (fun _ s' =>
    fsx V L k (upd T ip (iset_lock (locked_by pid) (T ip))) e s') s).
  { unfold wp, ilock_acquire, acquiresleep. rewrite (fx_t _ _ _ _ _ _ _ _ _ _ _ _ Hs), Hlk. by apply fsx_change. }
  eapply wp_mono; [exact Ha|]. intros [] s1 H1. apply wp_bind.
  eapply wp_mono; [apply (itrunc_spec L k _ e ip s1 H1); rewrite ?upd_same; done|].
  rewrite upd_same, upd_upd. cbn [with_d iset_d iset_lock i_inum]. intros _ s2 (V2 & L2 & k2 & H2 & Ht & HL2 & HI & Hk2).
  apply wp_bind. eapply wp_change_inode; [exact H2|]. rewrite upd_same, upd_upd. intros s3 H3. apply wp_bind.
  eapply wp_mono; [apply (iupdate_spec pid dev cx sb Hsb _ _ _ _ e ip s3 H3); rewrite upd_same; done|].
  rewrite upd_same. cbn [iset_d i_inum i_d]. intros [] s4 H4. rewrite room_cost, cost_in in H4 by done.
  apply wp_bind. eapply wp_change_inode; [exact H4|]. rewrite upd_same, upd_upd. intros s5 H5.
  eapply wp_change_inode; [exact H5|]. rewrite upd_same, upd_upd. intros s6 H6.
  eapply wp_change_inode; [exact H6|]. rewrite upd_same, upd_upd. intros s7 H7.
  eexists _, _, _. split; [|split; [apply (truncated_put _ emptied); [done| |exact Ht]|]].
  - unfold iset_ref, iset_lock, iset_valid, iset_d in H7. cbn [i_ref i_dev i_inum i_lock i_valid i_d] in H7.
    rewrite Hr, Hdev in H7. exact H7.
  - destruct emptied_ok. split; try done.
  - lia.
Qed.
End one.
End trunc.
