(* ===== verification/FsDir.v ===== *)
(** * Directories and path names

    A directory as a finite map from names to inode numbers: [dirlookup] reads
    it and [dirlink] adds to it.  A path name as the list of its elements. *)

From S2P Require Import Prelude Bytes Locks Bio Log Fs FsBlocks FsInode FsFile FsData.

(** ** Names *)

Lemma namecmp_loop_eq n s t : namecmp_loop n s t = 0 <-> name_str n s = name_str n t.
Proof.
  revert s t. induction n as [|n IH]; intros s t; [done|].
  destruct s as [|p s], t as [|q t]; cbn [namecmp_loop name_str hd tl].
  - done.
  - destruct (Z.eqb_spec q 0) as [->|Hq]; [done|]. cbn [Z.eqb negb andb]. split; [lia|done].
  - destruct (Z.eqb_spec p 0) as [->|Hp]; cbn [negb andb].
    + done.
    + split; [lia|done].
  - destruct (Z.eqb_spec p 0) as [->|Hp]; cbn [negb andb].
    + destruct (Z.eqb_spec q 0) as [->|Hq]; [done|]. split; [lia|done].
    + destruct (Z.eqb_spec p q) as [->|Hpq].
      * rewrite (proj2 (Z.eqb_neq q 0)) by done. rewrite IH. split; [by intros ->|]. intros H. by injection H.
      * split; [lia|]. destruct (q =? 0); [done|]. intros H. injection H as -> _. done.
Qed.

(** [namecmp] compares what the two arrays hold before a 0 or DIRSIZ bytes. *)
Lemma namecmp_eq s t : namecmp s t = 0 <-> name_str DIRSIZ s = name_str DIRSIZ t.
Proof. apply namecmp_loop_eq. Qed.

Lemma name_str_app_zero n s k : Forall (fun c => c <> 0) s -> (length s <= n)%nat ->
  name_str n (s ++ repeat 0 k) = s.
Proof.
  revert n. induction s as [|c s IH]; intros n Hs Hl.
  - destruct n, k; done.
  - apply Forall_cons in Hs as [Hc Hs]. destruct n as [|n]; [simpl in Hl; lia|]. simpl.
    rewrite (proj2 (Z.eqb_neq c 0)) by done. f_equal. apply IH; [done|simpl in Hl; lia].
Qed.

Lemma name_str_nonzero n s : Forall (fun c => c <> 0) (name_str n s).
Proof.
  revert s. induction n as [|n IH]; intros [|c s]; simpl; try done.
  destruct (Z.eqb_spec c 0); [done|]. by constructor.
Qed.

Lemma length_name_str n s : (length (name_str n s) <= n)%nat.
Proof.
  revert s. induction n as [|n IH]; intros [|c s]; simpl; try lia.
  destruct (c =? 0); simpl; [lia|]. specialize (IH s). lia.
Qed.

(** What [strncpy] stores reads back as the name. *)
Lemma name_field_str s : name_str DIRSIZ (name_field s) = name_str DIRSIZ s.
Proof. unfold name_field. apply name_str_app_zero; [apply name_str_nonzero|apply length_name_str]. Qed.

Lemma length_name_field s : length (name_field s) = DIRSIZ.
Proof.
  unfold name_field. rewrite length_app, List.repeat_length. pose proof (length_name_str DIRSIZ s). lia.
Qed.

(** ** Searches *)

Lemma find_none_iff {A} (f : A -> bool) l : List.find f l = None <-> forall x, x ∈ l -> f x = false.
Proof.
  split; [intros H x Hx; eapply List.find_none; [exact H|by apply list_elem_of_In]|].
  intros H. destruct (List.find f l) as [x|] eqn:Ef; [|done]. apply List.find_some in Ef as [Hin Hf].
  apply list_elem_of_In in Hin. rewrite H in Hf by done. done.
Qed.

Lemma find_only (f : nat -> bool) n i : (i < n)%nat -> f i = true ->
  (forall j, (j < n)%nat -> j <> i -> f j = false) -> List.find f (seq 0 n) = Some i.
Proof.
  intros Hi Hf Hno. destruct (List.find f (seq 0 n)) as [j|] eqn:Ef.
  - apply List.find_some in Ef as [Hin Hj]. apply List.in_seq in Hin. destruct (decide (j = i)) as [->|Hne]; [done|].
    rewrite Hno in Hj by (done || lia). done.
  - rewrite find_none_iff in Ef. rewrite Ef in Hf; [done|]. apply elem_of_seq. lia.
Qed.

Lemma find_grow (f g : nat -> bool) n m : (n <= m)%nat ->
  (forall j, (j < n)%nat -> f j = g j) -> (forall j, (n <= j < m)%nat -> g j = false) ->
  List.find g (seq 0 m) = List.find f (seq 0 n).
Proof.
  intros Hn Hfg Hg. replace m with (n + (m - n))%nat by lia. rewrite seq_app. simpl.
  assert (Hlow : forall k a, (a + k <= n)%nat -> List.find f (seq a k) = List.find g (seq a k)).
  { induction k as [|k IH]; intros a Hk; simpl; [done|]. rewrite Hfg by lia. destruct (g a); [done|]. apply IH. lia. }
  rewrite Hlow by lia. assert (Hhigh : List.find g (seq n (m - n)) = None).
  { apply find_none_iff. intros j Hj%elem_of_seq. apply Hg. lia. }
  clear -Hhigh. induction (seq 0 n) as [|a l IH]; simpl; [done|]. destruct (g a); [done|]. apply IH.
Qed.

(** ** Entries *)

Definition dirent (d : dinode) (V : Z -> block) (i : nat) : list Z :=
  fbytes d V (DIRENT_SIZE * Z.of_nat i) (Z.to_nat DIRENT_SIZE).
Definition ndirents (d : dinode) : nat := Z.to_nat (d_size d / DIRENT_SIZE).
Definition dir_match (d : dinode) (V : Z -> block) (name : list Z) (i : nat) : bool :=
  negb (de_inum (dirent d V i) =? 0) && (namecmp name (de_name (dirent d V i)) =? 0).
Definition dir_index (d : dinode) (V : Z -> block) (name : list Z) : option nat :=
  List.find (dir_match d V name) (seq 0 (ndirents d)).

(** The map a directory is. *)
Definition dir_lookup (d : dinode) (V : Z -> block) (name : list Z) : option Z :=
  option_map (fun i => de_inum (dirent d V i)) (dir_index d V name).

Record dir_ok (d : dinode) (V : Z -> block) : Prop := {
  dk_type : d_type d = T_DIR;
  dk_size : d_size d mod DIRENT_SIZE = 0;
  dk_content : content_ok d V;
}.

Lemma dirent_bytes_inum inum name : 0 <= inum < 2 ^ 16 -> de_inum (dirent_bytes inum name) = inum.
Proof.
  intros Hi. unfold de_inum, get16, dirent_bytes, slice. rewrite drop_0, take_app_le by (by rewrite length_le_bytes).
  rewrite take_ge by (by rewrite length_le_bytes). unfold u16. rewrite Z.mod_small by done. by apply le_val_id.
Qed.

Lemma dirent_bytes_name inum name : de_name (dirent_bytes inum name) = name_field name.
Proof.
  unfold de_name, dirent_bytes, slice. rewrite drop_app_length' by (by rewrite length_le_bytes).
  apply take_ge. by rewrite length_name_field.
Qed.

Lemma length_dirent_bytes inum name : length (dirent_bytes inum name) = 16%nat.
Proof. unfold dirent_bytes. by rewrite length_app, length_le_bytes, length_name_field. Qed.

(** *** Adding an entry *)

Section added.
Context (sb : superblock).
Context (inum_dp : Z) (d : dinode) (V : Z -> block) (d' : dinode) (V' : Z -> block) (i : nat) (inum : Z) (name : list Z).
Context (Hdk : dir_ok d V) (Hi : (i <= ndirents d)%nat).
Context (Hfree : (i < ndirents d)%nat -> de_inum (dirent d V i) = 0).
Context (Hup : file_updated sb inum_dp d V d' V' (DIRENT_SIZE * Z.of_nat i) (dirent_bytes inum name)).

Lemma added_size : d_size d' = Z.max (d_size d) (DIRENT_SIZE * Z.of_nat (S i)).
Proof using All.
  rewrite (up_fields _ _ _ _ _ _ _ _ Hup), length_dirent_bytes. unfold DIRENT_SIZE. cbn [d_size]. lia.
Qed.

Lemma added_ndirents : ndirents d' = Nat.max (ndirents d) (S i).
Proof using All.
  unfold ndirents. rewrite added_size. pose proof (dk_size _ _ Hdk). unfold DIRENT_SIZE in *.
  pose proof (ct_size _ _ (dk_content _ _ Hdk)). lia.
Qed.

Lemma added_dir_ok : dir_ok d' V'.
Proof using All.
  split; [|rewrite added_size; pose proof (dk_size _ _ Hdk); unfold DIRENT_SIZE in *; lia|apply Hup].
  rewrite (up_fields _ _ _ _ _ _ _ _ Hup). apply Hdk.
Qed.

Lemma added_dirent j : (j < ndirents d \/ j = i)%nat ->
  dirent d' V' j = if decide (j = i) then dirent_bytes inum name else dirent d V j.
Proof using All.
  intros Hj. unfold dirent. case_decide as E.
  - subst j. pose proof (up_in _ _ _ _ _ _ _ _ Hup) as H. by rewrite length_dirent_bytes in H.
  - apply bytes_at_ext. intros o Ho. apply (up_out _ _ _ _ _ _ _ _ Hup);
      rewrite ?length_dirent_bytes; unfold ndirents, DIRENT_SIZE in *; lia.
Qed.

Lemma added_lookup name' : 0 < inum < 2 ^ 16 -> dir_index d V name = None ->
  dir_lookup d' V' name' =
  if decide (name_str DIRSIZ name' = name_str DIRSIZ name) then Some inum else dir_lookup d V name'.
Proof using All.
  intros Hinum Hno. unfold dir_lookup, dir_index in *. rewrite added_ndirents. rewrite find_none_iff in Hno.
  assert (Hm : forall j, (j < Nat.max (ndirents d) (S i))%nat -> dir_match d' V' name' j =
    if decide (j = i) then bool_decide (name_str DIRSIZ name' = name_str DIRSIZ name) else dir_match d V name' j).
  { intros j Hj. unfold dir_match at 1. rewrite added_dirent by lia. case_decide as E; [|done].
    rewrite dirent_bytes_inum, dirent_bytes_name by lia. rewrite (proj2 (Z.eqb_neq inum 0)) by lia. cbn [negb andb].
    rewrite <-(name_field_str name). case_bool_decide as Hb; [by apply Z.eqb_eq, namecmp_eq|].
    apply Z.eqb_neq. intros Hc. by apply Hb, namecmp_eq. }
  case_decide as Hn.
  - rewrite (find_only _ _ i); [|lia|by rewrite Hm, decide_True, bool_decide_true by (done || lia)|].
    { cbn [option_map]. rewrite added_dirent by lia. rewrite decide_True by done. by rewrite dirent_bytes_inum by lia. }
    intros j Hj Hne. rewrite Hm, decide_False by done. rewrite <-(Hno j) by (apply elem_of_seq; lia).
    unfold dir_match. f_equal. apply eq_true_iff_eq. rewrite !Z.eqb_eq, !namecmp_eq. by rewrite Hn.
  - assert (Hi' : (i < ndirents d)%nat -> dir_match d V name' i = false).
    { intros Hlt. unfold dir_match. by rewrite Hfree. }
    rewrite (find_grow (dir_match d V name') _ (ndirents d)); [|lia| |].
    + destruct (List.find (dir_match d V name') (seq 0 (ndirents d))) as [j|] eqn:Ef; [|done]. cbn [option_map]. f_equal.
      apply List.find_some in Ef as [Hin Hj]. apply List.in_seq in Hin.
      rewrite added_dirent by lia. rewrite decide_False; [done|]. intros ->. rewrite Hi' in Hj by lia. done.
    + intros j Hj. rewrite Hm by lia. case_decide as E; [|done]. subst j. rewrite Hi' by done. by rewrite bool_decide_false.
    + intros j Hj. rewrite Hm by lia. rewrite decide_True by lia. by rewrite bool_decide_false.
Qed.
End added.

Section dirs.
Context {E : Type} `{CO : CopyOk E} (pid dev : Z) (cx : tctx) (sb : superblock) (Hsb : sb_ok sb).
Abbreviation fsx := (fsh pid dev cx sb [] []).

(** The entry [readi] gives the loops. *)
Lemma read_dirent V L k T (e : E) dp i s :
  let d := i_d (T dp) in
  fsx V L k T e s -> i_dev (T dp) = dev -> blocks_ok sb V -> dir_ok d V -> (i < ndirents d)%nat ->
  wp (readi pid dp false 0 (DIRENT_SIZE * Z.of_nat i) DIRENT_SIZE) (fun r s' =>
    r = (DIRENT_SIZE, dirent d V i) /\ fsx V L k T e s') s.
Proof using CO.
  intros d Hs Hd Hv [D1 D2 D3] Hi. pose proof (ct_size _ _ D3) as Hsz.
  unfold ndirents, DIRENT_SIZE, MAXFILE, BSIZE, NDIRECT, NINDIRECT in *.
  eapply wp_mono; [apply (readi_spec pid dev cx sb V L k T e dp false 0 (16 * Z.of_nat i) 16 s); try done; unfold uint; fold d; lia|].
  fold d. assert (Hn : nread (d_size d) (16 * Z.of_nat i) 16 = 16).
  { unfold nread. rewrite (proj2 (orb_false_iff _ _)) by lia. lia. }
  rewrite Hn. intros r s' [[-> Hs']|(_ & [Hc _] & _)]; [|done]. split; [done|exact Hs'].
Qed.

Lemma dirlookup_loop_spec left V L k T (e : E) dp name i s :
  let d := i_d (T dp) in
  fsx V L k T e s -> i_dev (T dp) = dev -> blocks_ok sb V -> dir_ok d V ->
  (i <= ndirents d)%nat -> (ndirents d - i <= left)%nat ->
  wp (dirlookup_loop pid dp name (DIRENT_SIZE * Z.of_nat i) left) (fun r s' =>
    r = option_map (fun j => (de_inum (dirent d V j), DIRENT_SIZE * Z.of_nat j))
          (List.find (dir_match d V name) (seq i (ndirents d - i))) /\ fsx V L k T e s') s.
Proof using CO.
  intros d. revert i s. induction left as [|left IH]; intros i s Hs Hd Hv Hdk Hi Hleft;
    pose proof (dk_size _ _ Hdk) as Hm; pose proof (ct_size _ _ (dk_content _ _ Hdk)) as Hsz;
    cbn [dirlookup_loop]; apply wp_bind; (eapply wp_get_inode; [exact Hs|]); fold d.
  { replace (ndirents d - i)%nat with 0%nat by lia. rewrite (proj2 (Z.ltb_ge _ _)); [by apply wp_ret|].
    unfold ndirents, DIRENT_SIZE in *. lia. }
  destruct (Z.ltb_spec (DIRENT_SIZE * Z.of_nat i) (d_size d)) as [Hlt|Hge]; cbn [negb].
  2: { apply wp_ret. replace (ndirents d - i)%nat with 0%nat; [done|]. unfold ndirents, DIRENT_SIZE in *. lia. }
  assert (Hil : (i < ndirents d)%nat) by (unfold ndirents, DIRENT_SIZE in *; lia).
  apply wp_bind. eapply wp_mono; [by apply (read_dirent V L k T e dp i s)|]. intros r s1 [-> H1]. fold d.
  rewrite Z.eqb_refl. cbn [negb]. replace (ndirents d - i)%nat with (S (ndirents d - S i)) by lia.
  cbn [seq List.find]. fold (dir_match d V name i). destruct (dir_match d V name i); [by apply wp_ret|].
  replace (DIRENT_SIZE * Z.of_nat i + DIRENT_SIZE) with (DIRENT_SIZE * Z.of_nat (S i)) by lia.
  apply IH; try done; lia.
Qed.

Lemma dirlookup_spec V L k T (e : E) dp name s :
  let d := i_d (T dp) in
  fsx V L k T e s -> i_dev (T dp) = dev -> blocks_ok sb V -> dir_ok d V ->
  table_ok T -> (forall j, (j < NINODE)%nat -> 0 <= i_ref (T j) < 2 ^ 31 - 1) ->
  (exists j, (j < NINODE)%nat /\ i_ref (T j) = 0) ->
  wp (dirlookup pid dp name) (fun r s' =>
    match dir_index d V name with
    | None => r = None /\ fsx V L k T e s'
    | Some j => exists ip x, r = Some (ip, DIRENT_SIZE * Z.of_nat j) /\
        gotten dev T (de_inum (dirent d V j)) ip x /\ fsx V L k (upd T ip x) e s'
    end) s.
Proof using CO.
  intros d Hs Hd Hv Hdk Hok Hr Hfree. unfold dirlookup. apply wp_bind. eapply wp_get_inode; [exact Hs|]. fold d.
  pose proof (ct_size _ _ (dk_content _ _ Hdk)) as Hsz.
  rewrite (dk_type _ _ Hdk). cbn [Z.eqb negb T_DIR Pos.eqb]. apply wp_bind.
  change 0 with (DIRENT_SIZE * Z.of_nat 0) at 1.
  eapply wp_mono; [apply (dirlookup_loop_spec (S (Z.to_nat (d_size d))) V L k T e dp name 0 s); try done; fold d|].
  { lia. }
  { unfold ndirents, DIRENT_SIZE. lia. }
  fold d. rewrite Nat.sub_0_r. fold (dir_index d V name). intros r s1 [-> H1].
  destruct (dir_index d V name) as [j|]; cbn [option_map]; [|by apply wp_ret].
  apply wp_bind. eapply wp_get_inode; [exact H1|]. rewrite Hd. apply wp_bind.
  eapply wp_mono; [by apply (iget_spec pid dev cx sb V L k T e (de_inum (dirent d V j)) s1)|].
  intros ip s2 (x & Hx & H2). apply wp_ret. by exists ip, x.
Qed.

Lemma dirlink_loop_spec left V L k T (e : E) dp i s :
  let d := i_d (T dp) in
  fsx V L k T e s -> i_dev (T dp) = dev -> blocks_ok sb V -> dir_ok d V ->
  (i <= ndirents d)%nat -> (ndirents d - i <= left)%nat ->
  wp (dirlink_loop pid dp (DIRENT_SIZE * Z.of_nat i) left) (fun r s' => exists j,
    r = DIRENT_SIZE * Z.of_nat j /\ (j <= ndirents d)%nat /\
    ((j < ndirents d)%nat -> de_inum (dirent d V j) = 0) /\ fsx V L k T e s') s.
Proof using CO.
  intros d. revert i s. induction left as [|left IH]; intros i s Hs Hd Hv Hdk Hi Hleft;
    pose proof (dk_size _ _ Hdk) as Hm; pose proof (ct_size _ _ (dk_content _ _ Hdk)) as Hsz;
    cbn [dirlink_loop]; apply wp_bind; (eapply wp_get_inode; [exact Hs|]); fold d.
  { rewrite (proj2 (Z.ltb_ge _ _)) by (unfold ndirents, DIRENT_SIZE in *; lia). apply wp_ret.
    exists i. split_and!; try done. lia. }
  destruct (Z.ltb_spec (DIRENT_SIZE * Z.of_nat i) (d_size d)) as [Hlt|Hge]; cbn [negb].
  2: { apply wp_ret. exists i. split_and!; try done. unfold ndirents, DIRENT_SIZE in *. lia. }
  assert (Hil : (i < ndirents d)%nat) by (unfold ndirents, DIRENT_SIZE in *; lia).
  apply wp_bind. eapply wp_mono; [by apply (read_dirent V L k T e dp i s)|]. intros r s1 [-> H1]. fold d.
  rewrite Z.eqb_refl. cbn [negb]. destruct (Z.eqb_spec (de_inum (dirent d V i)) 0) as [Hz|Hn].
  { apply wp_ret. exists i. by split_and!. }
  replace (DIRENT_SIZE * Z.of_nat i + DIRENT_SIZE) with (DIRENT_SIZE * Z.of_nat (S i)) by lia.
  apply IH; try done; lia.
Qed.

Context (Hone : sb_size sb <= BPB).

(** What [dirlink] does to a directory without the name: the entry in a hole
    or at the end, or nothing when the directory or the disk is full. *)
Definition linked (V : Z -> block) (d : dinode) (dnum : Z) (name : list Z) (inum : Z)
    (V' : Z -> block) (d' : dinode) (r : Z) : Prop :=
  (r = -1 /\ V' = V /\ d' = d /\ MAXFILE * BSIZE < d_size d + DIRENT_SIZE) \/
  (r = -1 /\ full sb V' /\ exists off, 0 <= off <= d_size d /\ file_updated sb dnum d V d' V' off []) \/
  (r = 0 /\ exists i, (i <= ndirents d)%nat /\ ((i < ndirents d)%nat -> de_inum (dirent d V i) = 0) /\
     file_updated sb dnum d V d' V' (DIRENT_SIZE * Z.of_nat i) (dirent_bytes inum name)).

Lemma write_dirent V L k T (e : E) dp name inum i s :
  let d := i_d (T dp) in
  let ic := inode_cost sb (i_inum (T dp)) L in
  fsx V L k T e s -> i_dev (T dp) = dev -> inum_ok sb (i_inum (T dp)) ->
  blocks_ok sb V -> dinode_ok d -> file_ok sb d V -> dir_ok d V ->
  (i <= ndirents d)%nat -> ((i < ndirents d)%nat -> de_inum (dirent d V i) = 0) ->
  potential sb d L + 1 + ic <= k ->
  wp (let! n := writei pid dp (SKernel (dirent_bytes inum name)) (DIRENT_SIZE * Z.of_nat i) DIRENT_SIZE in
      if negb (n =? DIRENT_SIZE) then ret (-1) else ret 0) (fun r s' => exists V' L' k' d',
    fsx V' L' k' (upd T dp (with_d d' (T dp))) e s' /\ linked V d (i_inum (T dp)) name inum V' d' r /\
    (forall y, y ∈ L -> y ∈ L') /\ (r = 0 -> IBLOCK (i_inum (T dp)) sb ∈ L') /\
    k - (potential sb d L + 1 + ic) <= k' - potential sb d' L') s.
Proof using CO Hsb Hone.
  intros d ic Hs Hd Hi Hv Hok Hf Hdk Hil Hfr Hk. unfold ic in *. apply wp_bind.
  pose proof (ct_size _ _ (dk_content _ _ Hdk)) as Hsz. pose proof (dk_size _ _ Hdk) as Hm.
  pose proof (cost_range (IBLOCK (i_inum (T dp)) sb) L) as Hc. fold (inode_cost sb (i_inum (T dp)) L) in Hc.
  assert (Hio : 0 <= DIRENT_SIZE * Z.of_nat i <= d_size d) by (unfold ndirents, DIRENT_SIZE in *; lia).
  assert (Hnb : nblocks (DIRENT_SIZE * Z.of_nat i) DIRENT_SIZE = 1) by (unfold nblocks, DIRENT_SIZE, BSIZE; simpl; lia).
  destruct (Z.le_gt_cases (DIRENT_SIZE * Z.of_nat i + DIRENT_SIZE) (MAXFILE * BSIZE)) as [Hfit|Hbig].
  2: { eapply wp_mono; [apply (writei_refuses pid dev cx sb V L k T e dp _ (DIRENT_SIZE * Z.of_nat i) DIRENT_SIZE s Hs)|].
       - unfold uint, MAXFILE, BSIZE, NDIRECT, NINDIRECT in *. lia.
       - unfold uint, DIRENT_SIZE. lia.
       - by right.
       - intros m s1 [-> H1]. apply wp_ret. exists V, L, k, d. unfold d. rewrite upd_with_d. fold d.
         split_and!; try done; [|lia]. left. split_and!; try done. lia. }
  eapply wp_mono.
  { apply (writei_spec pid dev cx sb Hsb Hone V L k T e dp (SKernel (dirent_bytes inum name)) (DIRENT_SIZE * Z.of_nat i) DIRENT_SIZE s);
      try done; fold d; rewrite ?Hnb; try apply Hdk; try lia. unfold src_ok. rewrite length_dirent_bytes. done. }
  fold d. rewrite Hnb. intros m s3 (V' & L' & k' & d' & Hmr & H3 & Hup & Hfull & HL & HI & Hk').
  destruct (Z.eqb_spec m DIRENT_SIZE) as [->|Hne]; cbn [negb]; apply wp_ret; exists V', L', k', d'; split_and!; try done.
  - right. right. split; [done|]. exists i. split_and!; [done|done|].
    cbn [src_bytes] in Hup. by rewrite take_ge in Hup by (by rewrite length_dirent_bytes).
  - right. left. destruct Hfull as (Hu & _ & Ha); [lia|]. assert (m = 0) as -> by (unfold DIRENT_SIZE, BSIZE in *; lia).
    split_and!; try done. eexists. split; [|exact Hup]. lia.
Qed.

Lemma dirlink_new V L k T (e : E) dp name inum s :
  let d := i_d (T dp) in
  let ic := inode_cost sb (i_inum (T dp)) L in
  fsx V L k T e s -> i_dev (T dp) = dev -> inum_ok sb (i_inum (T dp)) ->
  blocks_ok sb V -> dinode_ok d -> file_ok sb d V -> dir_ok d V ->
  table_ok T -> (forall j, (j < NINODE)%nat -> 0 <= i_ref (T j) < 2 ^ 31 - 1) ->
  (exists j, (j < NINODE)%nat /\ i_ref (T j) = 0) ->
  dir_lookup d V name = None -> potential sb d L + 1 + ic <= k ->
  wp (dirlink pid dp name inum) (fun r s' => exists V' L' k' d',
    fsx V' L' k' (upd T dp (with_d d' (T dp))) e s' /\ linked V d (i_inum (T dp)) name inum V' d' r /\
    (forall y, y ∈ L -> y ∈ L') /\ (r = 0 -> IBLOCK (i_inum (T dp)) sb ∈ L') /\
    k - (potential sb d L + 1 + ic) <= k' - potential sb d' L') s.
Proof using CO Hsb Hone.
  intros d ic Hs Hd Hi Hv Hok Hf Hdk Ht Hr Hfree Hno Hk. unfold dirlink.
  assert (Hix : dir_index d V name = None).
  { unfold dir_lookup in Hno. by destruct (dir_index d V name). }
  apply wp_bind. eapply wp_mono; [by apply (dirlookup_spec V L k T e dp name s)|]. fold d. rewrite Hix. intros r s1 [-> H1].
  apply wp_bind. eapply wp_get_inode; [exact H1|]. fold d. apply wp_bind.
  pose proof (ct_size _ _ (dk_content _ _ Hdk)) as Hsz. pose proof (dk_size _ _ Hdk) as Hm.
  change 0 with (DIRENT_SIZE * Z.of_nat 0) at 1.
  eapply wp_mono; [apply (dirlink_loop_spec (S (Z.to_nat (d_size d))) V L k T e dp 0 s1); try done; fold d|].
  { lia. }
  { unfold ndirents, DIRENT_SIZE. lia. }
  fold d. intros off s2 (i & -> & Hil & Hfr & H2). by apply write_dirent.
Qed.

Lemma dirlink_spec V L k T (e : E) dp name inum s :
  let d := i_d (T dp) in
  fsx V L k T e s -> i_dev (T dp) = dev -> inum_ok sb (i_inum (T dp)) ->
  blocks_ok sb V -> dinode_ok d -> file_ok sb d V -> dir_ok d V ->
  table_ok T -> (forall j, (j < NINODE)%nat -> 0 <= i_ref (T j) < 2 ^ 31 - 1) ->
  (exists j, (j < NINODE)%nat /\ i_ref (T j) = 0) ->
  0 < inum < 2 ^ 16 -> d_size d + DIRENT_SIZE <= MAXFILE * BSIZE -> dir_lookup d V name = None ->
  cost (sb_bmapstart sb) L + indcost d L + 2 <= k ->
  wp (dirlink pid dp name inum) (fun r s' => exists V' L' k' d',
    fsx V' L' k' (upd T dp (with_d d' (T dp))) e s' /\
    ((r = -1 /\ full sb V') \/
     (r = 0 /\ dir_ok d' V' /\ blocks_ok sb V' /\ dino sb V' (i_inum (T dp)) = d' /\
      (forall inum', inum_ok sb inum' -> inum' <> i_inum (T dp) -> dino sb V' inum' = dino sb V inum') /\
      forall name', dir_lookup d' V' name' =
        if decide (name_str DIRSIZ name' = name_str DIRSIZ name) then Some inum else dir_lookup d V name'))) s.
Proof using CO Hsb Hone.
  intros d Hs Hd Hi Hv Hok Hf Hdk Ht Hr Hfree Hinum Hmax Hno Hk.
  pose proof (cost_range (IBLOCK (i_inum (T dp)) sb) L) as Hc.
  eapply wp_mono; [apply (dirlink_new V L k T e dp name inum s); try done; unfold inode_cost, potential; fold d; lia|].
  fold d. intros r s1 (V' & L' & k' & d' & H1 & Hl & _). exists V', L', k', d'. split; [done|].
  destruct Hl as [(_ & _ & _ & Hbig)|[(-> & Hfull & _)|(-> & i & Hil & Hfr & Hup)]]; [lia|by left|right].
  split; [done|]. split_and!; [by eapply added_dir_ok|apply Hup|apply Hup|intros; by apply (up_inodes _ _ _ _ _ _ _ _ Hup)|].
  intros name'. eapply added_lookup; try done. unfold dir_lookup in Hno. by destruct (dir_index d V name).
Qed.
End dirs.
