(* ===== verification/FsPath.v ===== *)
(** * Path names

    [skipelem] walks through the elements of a path, and [namex] through the
    directories they name. *)

From S2P Require Import Prelude Bytes Locks Bio Log Fs FsBlocks FsInode FsFile FsData FsDir.

(** ** The elements of a path *)

(** The strings between the slashes. *)
Fixpoint split_path (path : list Z) : list (list Z) :=
  match path with
  | [] => [[]]
  | c :: path' =>
      if c =? SLASH then [] :: split_path path'
      else match split_path path' with
           | w :: ws => (c :: w) :: ws
           | [] => [[c]]
           end
  end.

(** The elements: those that are not empty, cut at DIRSIZ. *)
Definition elements (path : list Z) : list (list Z) :=
  map (take DIRSIZ) (filter (fun w => w <> []) (split_path path)).

Lemma elements_skip path : elements (skip_slashes path) = elements path.
Proof.
  induction path as [|c path IH]; [done|]. simpl. destruct (Z.eqb_spec c SLASH) as [->|]; [|done].
  rewrite IH. done.
Qed.

Lemma skip_slashes_head path : skip_slashes path = [] \/
  exists c path', skip_slashes path = c :: path' /\ c <> SLASH.
Proof.
  induction path as [|c path IH]; [by left|]. simpl. destruct (Z.eqb_spec c SLASH); [done|]. right. by exists c, path.
Qed.

Lemma length_skip_slashes path : (length (skip_slashes path) <= length path)%nat.
Proof. induction path as [|c path IH]; [done|]. simpl. destruct (c =? SLASH); simpl; lia. Qed.

Lemma split_elem_spec path : let (w, rest) := split_elem path in
  split_path path = w :: match rest with [] => [] | _ :: r => split_path r end /\
  (rest = [] \/ hd 0 rest = SLASH) /\ length path = (length w + length rest)%nat.
Proof.
  induction path as [|c path IH]; simpl; [naive_solver|].
  destruct (Z.eqb_spec c SLASH) as [->|Hne]; simpl; [naive_solver|].
  destruct (split_elem path) as [w rest]. destruct IH as (E & H & Hl). rewrite E. simpl. split_and!; [done|done|lia].
Qed.

(** [skipelem] gives the first element and leaves the others. *)
Lemma skipelem_spec path :
  match skipelem path with
  | None => elements path = []
  | Some (rest, name) => elements path = name :: elements rest /\ (length rest < length path)%nat /\
      (rest = [] <-> elements rest = [])
  end.
Proof.
  unfold skipelem. rewrite <-elements_skip. pose proof (length_skip_slashes path) as Hlen.
  destruct (skip_slashes_head path) as [->|(c & p & E & Hc)]; [done|]. rewrite E in *.
  pose proof (split_elem_spec (c :: p)) as Hs. destruct (split_elem (c :: p)) as [w rest] eqn:Es.
  destruct Hs as (E1 & E2 & E3). simpl in Es. rewrite (proj2 (Z.eqb_neq c SLASH)) in Es by done.
  assert (Hw : w <> []) by (destruct (split_elem p); by injection Es as <- _).
  assert (Hr : elements rest = elements (match rest with [] => [] | _ :: r => r end)).
  { destruct rest as [|x r]; [done|]. destruct E2 as [|E2]; [done|]. simpl in E2. subst x. done. }
  split_and!.
  - unfold elements at 1. rewrite E1. rewrite filter_cons_True by done. simpl. f_equal.
    rewrite elements_skip, Hr. destruct rest as [|x r]; done.
  - pose proof (length_skip_slashes rest). destruct w; [done|]. simpl in *. lia.
  - split; [by intros ->|]. destruct (skip_slashes_head rest) as [->|(c' & p' & -> & Hc')]; [done|].
    unfold elements. simpl. rewrite (proj2 (Z.eqb_neq c' SLASH)) by done.
    destruct (split_path p') as [|w' ws]; by rewrite filter_cons_True.
Qed.

Lemma elements_nil : elements [] = [].
Proof. done. Qed.

(** ** The tree and the inode table *)

Section tree.
Context (dev : Z) (sb : superblock).

Definition live (V : Z -> block) (inum : Z) : Prop := inum_ok sb inum /\ d_type (dino sb V inum) <> 0.

(** Inodes in use have links, directories are well formed, and their entries
    name inodes in use. *)
Record tree_ok (V : Z -> block) : Prop := {
  tk_nlink : forall inum, live V inum -> d_nlink (dino sb V inum) <> 0;
  tk_dir : forall inum, live V inum -> d_type (dino sb V inum) = T_DIR -> dir_ok (dino sb V inum) V;
  tk_entry : forall inum name inum', live V inum -> d_type (dino sb V inum) = T_DIR ->
    dir_lookup (dino sb V inum) V name = Some inum' -> live V inum';
}.

Definition opened (T : nat -> inode) (inum : Z) : Prop :=
  exists j, (j < NINODE)%nat /\ 0 < i_ref (T j) /\ i_inum (T j) = inum.

(** What a walk relies on: an inode without links is one that is open. *)
Record walk_ok (V : Z -> block) (T0 : nat -> inode) : Prop := {
  wk_nlink : forall inum, live V inum -> d_nlink (dino sb V inum) = 0 -> opened T0 inum;
  wk_dir : forall inum, live V inum -> d_type (dino sb V inum) = T_DIR -> dir_ok (dino sb V inum) V;
  wk_entry : forall inum name inum', live V inum -> d_type (dino sb V inum) = T_DIR ->
    dir_lookup (dino sb V inum) V name = Some inum' -> live V inum';
}.

Lemma tree_walk V T0 : tree_ok V -> walk_ok V T0.
Proof using Type. intros [N D X]. split; [|done|done]. intros inum Hl Hz. by destruct (N inum Hl). Qed.

(** Where a list of elements leads. *)
Fixpoint walk_path (V : Z -> block) (inum : Z) (l : list (list Z)) : option Z :=
  match l with
  | [] => Some inum
  | w :: l' =>
      if d_type (dino sb V inum) =? T_DIR then
        match dir_lookup (dino sb V inum) V w with
        | Some inum' => walk_path V inum' l'
        | None => None
        end
      else None
  end.

(** The directory that is to hold the last element. *)
Definition walk_parent (V : Z -> block) (inum : Z) (l : list (list Z)) : option Z :=
  match l with
  | [] => None
  | _ => match walk_path V inum (removelast l) with
         | Some p => if d_type (dino sb V p) =? T_DIR then Some p else None
         | None => None
         end
  end.

(** The table [T] of a process that has the references [c] besides those of
    [T0] and holds the locks of the inodes [H]. *)
Record tab (pid : Z) (V : Z -> block) (T0 : nat -> inode) (c : nat -> Z) (H : list nat) (T : nat -> inode) : Prop := {
  tb_ref : forall j, (j < NINODE)%nat -> i_ref (T j) = i_ref (T0 j) + c j;
  tb_same : forall j, (j < NINODE)%nat -> 0 < i_ref (T0 j) -> i_inum (T j) = i_inum (T0 j);
  tb_ok : table_ok T;
  tb_entry : forall j, (j < NINODE)%nat -> 0 < i_ref (T j) ->
    i_dev (T j) = dev /\ live V (i_inum (T j)) /\
    (i_valid (T j) = true -> i_d (T j) = dino sb V (i_inum (T j)));
  tb_lock : forall j, (j < NINODE)%nat ->
    if decide (j ∈ H) then i_lock (T j) = locked_by pid /\ i_valid (T j) = true /\ 0 < i_ref (T j)
    else slocked (i_lock (T j)) = false;
}.

Definition none : nat -> Z := fun _ => 0.
Definition plus (c : nat -> Z) (ip : nat) : nat -> Z := fun j => c j + if decide (j = ip) then 1 else 0.

(** A table with room for [n] more references. *)
Record spare (n : nat) (T0 : nat -> inode) : Prop := {
  sp_ref : forall j, (j < NINODE)%nat -> 0 <= i_ref (T0 j) < 2 ^ 31 - 1 - Z.of_nat n;
  sp_free : exists l, NoDup l /\ length l = n /\ forall j, j ∈ l -> (j < NINODE)%nat /\ i_ref (T0 j) = 0;
}.

Lemma table_ok_upd T ip x :
  table_ok T -> (ip < NINODE)%nat ->
  (forall j, (j < NINODE)%nat -> j <> ip -> 0 < i_ref (T j) -> 0 < i_ref x ->
    i_dev (T j) = i_dev x -> i_inum (T j) <> i_inum x) -> table_ok (upd T ip x).
Proof using Type.
  intros Hok Hip Hx i j Hi Hj. upd_cases i ip; upd_cases j ip; try done.
  - intros H1 H2 H3 H4. exfalso. by apply (Hx j).
  - intros H1 H2 H3 H4. exfalso. by apply (Hx i).
  - by apply Hok.
Qed.

(** A change of entry [ip] that keeps its identity. *)
Lemma tab_upd pid V T0 c H c' H' T ip x :
  tab pid V T0 c H T -> (ip < NINODE)%nat -> 0 < i_ref (T ip) ->
  i_dev x = i_dev (T ip) -> i_inum x = i_inum (T ip) ->
  i_ref x = i_ref (T0 ip) + c' ip -> (forall j, j <> ip -> c' j = c j) ->
  (i_valid x = true -> i_d x = dino sb V (i_inum x)) ->
  (if decide (ip ∈ H') then i_lock x = locked_by pid /\ i_valid x = true /\ 0 < i_ref x
   else slocked (i_lock x) = false) ->
  (forall j, j <> ip -> (j ∈ H' <-> j ∈ H)) ->
  tab pid V T0 c' H' (upd T ip x).
Proof using Type.
  intros [R1 R2 R3 R4 R5] Hip Hr Hdx Hix Hrx Hc Hvx Hlx Hh. split.
  - intros j Hj. upd_cases j ip; [done|]. rewrite Hc by done. by apply R1.
  - intros j Hj Hrj. upd_cases j ip; [rewrite Hix|]; by apply R2.
  - apply table_ok_upd; [done|done|]. intros j Hj Hne H1 H2 H3 H4. apply Hne. apply R3; try done; congruence.
  - intros j Hj. upd_cases j ip; [|by apply R4]. intros _. rewrite Hdx, Hix in *. destruct (R4 ip Hj Hr) as (D1 & D2 & _). done.
  - intros j Hj. destruct (decide (j = ip)) as [->|Hne]; [by rewrite upd_same|]. rewrite upd_other by done.
    specialize (R5 j Hj). by rewrite (decide_ext _ _ _ _ (Hh j Hne)).
Qed.

Lemma tab_ext pid V T0 c c' H H' T : (forall j, c j = c' j) -> (forall j, j ∈ H <-> j ∈ H') ->
  tab pid V T0 c H T -> tab pid V T0 c' H' T.
Proof using Type.
  intros Hc HH [R1 R2 R3 R4 R5]. split; try done; intros j Hj; [rewrite <-Hc; by apply R1|].
  specialize (R5 j Hj). by rewrite (decide_ext _ _ _ _ (HH j)) in R5.
Qed.

Lemma tab_held pid V T0 c H ip T : tab pid V T0 c H T -> ip ∈ H -> (ip < NINODE)%nat ->
  0 < i_ref (T ip) /\ i_lock (T ip) = locked_by pid /\ i_valid (T ip) = true /\ i_d (T ip) = dino sb V (i_inum (T ip)).
Proof using Type.
  intros Ht Hin Hip. pose proof (tb_lock _ _ _ _ _ _ Ht ip Hip) as Hl. rewrite decide_True in Hl by done.
  destruct Hl as (H1 & H2 & H3). split_and!; try done. by apply (tb_entry _ _ _ _ _ _ Ht).
Qed.

Lemma tab_unheld pid V T0 c H ip T : tab pid V T0 c H T -> ip ∉ H -> (ip < NINODE)%nat -> slocked (i_lock (T ip)) = false.
Proof using Type.
  intros Ht Hin Hip. pose proof (tb_lock _ _ _ _ _ _ Ht ip Hip) as Hl. by rewrite decide_False in Hl by done.
Qed.

(** The reference counts stay in range. *)
Definition small (c : nat -> Z) : Prop := forall j, 0 <= c j <= 2.

Lemma small_none : small none.
Proof using Type. intros j. unfold none. lia. Qed.
Lemma small_one ip : small (plus none ip).
Proof using Type. intros j. unfold plus, none. case_decide; lia. Qed.
Lemma small_two ip jp : small (plus (plus none ip) jp).
Proof using Type. intros j. unfold plus, none. repeat case_decide; lia. Qed.

Lemma plus_same c ip : plus c ip ip = c ip + 1.
Proof using Type. unfold plus. by rewrite decide_True. Qed.
Lemma plus_other c ip j : j <> ip -> plus c ip j = c j.
Proof using Type. intros. unfold plus. rewrite decide_False by done. lia. Qed.

Lemma spare_mono n m T0 : (m <= n)%nat -> spare n T0 -> spare m T0.
Proof using Type.
  intros Hm [R (l & N & Hl & F)]. split; [intros j Hj; specialize (R j Hj); lia|].
  exists (take m l). split_and!.
  - rewrite <-(take_drop m l) in N. by apply NoDup_app in N as [N _].
  - rewrite length_take. lia.
  - intros j Hj. apply F. rewrite <-(take_drop m l). set_solver.
Qed.

Lemma tab_range pid V n T0 c H T j : spare n T0 -> (2 <= n)%nat -> tab pid V T0 c H T -> small c ->
  (j < NINODE)%nat -> 0 <= i_ref (T j) < 2 ^ 31 - 1.
Proof using Type.
  intros Hsp Hn Ht Hc Hj. rewrite (tb_ref _ _ _ _ _ _ Ht j Hj). pose proof (sp_ref _ _ Hsp j Hj). specialize (Hc j). lia.
Qed.

Lemma tab_live pid V T0 c H T j : tab pid V T0 c H T -> (j < NINODE)%nat -> 0 < i_ref (T j) -> live V (i_inum (T j)).
Proof using Type. intros Ht Hj Hr. by apply (tb_entry _ _ _ _ _ _ Ht). Qed.

(** A walk that has taken fewer references than there are entries to spare
    finds a free entry. *)
Lemma tab_free pid V n T0 c H T l : spare n T0 -> tab pid V T0 c H T -> (forall j, j ∉ l -> c j = 0) ->
  (length l < n)%nat -> exists j, (j < NINODE)%nat /\ i_ref (T j) = 0.
Proof using Type.
  intros Hsp Ht Hc Hl. destruct (sp_free _ _ Hsp) as (fl & N & Hfl & F).
  destruct (decide (Exists (fun j => j ∉ l) fl)) as [He|He].
  - apply Exists_exists in He as (j & Hj & Hn). exists j. destruct (F j Hj) as [Hj1 Hj2]. split; [done|].
    rewrite (tb_ref _ _ _ _ _ _ Ht j Hj1), Hj2, Hc by done. lia.
  - exfalso. assert (Hin : fl ⊆ l).
    { intros j Hj. destruct (decide (j ∈ l)) as [|Hn]; [done|]. destruct He. apply Exists_exists. eauto. }
    apply NoDup_submseteq in Hin; [|done]. apply submseteq_length in Hin. lia.
Qed.

(** The table after [iget]. *)
Lemma tab_gotten pid V n T0 c H T inum ip x :
  spare n T0 -> tab pid V T0 c H T -> live V inum -> small c -> gotten dev T inum ip x ->
  tab pid V T0 (plus c ip) H (upd T ip x).
Proof using Type.
  intros Hsp Ht Hlv Hc (Hip & G1 & G2 & G3 & G4 & G5). pose proof Ht as [R1 R2 R3 R4 R5].
  pose proof (sp_ref _ _ Hsp ip Hip) as Hr0. pose proof (Hc ip) as Hcip. pose proof (R1 ip Hip) as Hr1.
  pose proof (plus_other c ip) as Hpl. pose proof (plus_same c ip) as Hpi.
  destruct G5 as [(Hz & Hval & Hno)|(Hp & Hd & Hi & Hval & Hdd)].
  - split.
    + intros j Hj. upd_cases j ip; [lia|]. rewrite Hpl by done. by apply R1.
    + intros j Hj Hrj. upd_cases j ip; [lia|by apply R2].
    + apply table_ok_upd; [done|done|]. intros j Hj Hne H1 H2 H3 H4. apply (Hno j); congruence || done.
    + intros j Hj. upd_cases j ip; [|by apply R4]. intros _. split_and!; [done|done|congruence].
    + intros j Hj. upd_cases j ip; [|by apply R5]. rewrite G4. specialize (R5 ip Hj).
      case_decide; [lia|done].
  - eapply tab_upd; [exact Ht|done|done|congruence|congruence|lia|done| | |done].
    + rewrite Hval, Hdd, G2, <-Hi. by apply R4.
    + rewrite G4, Hval, G3. specialize (R5 ip Hip). case_decide; [intuition lia|done].
Qed.

(** An inode that was open and that this process also has is open twice. *)
Lemma tab_opened pid V T0 c H T ip : tab pid V T0 (plus c ip) H T -> small c -> (ip < NINODE)%nat ->
  0 < i_ref (T ip) -> opened T0 (i_inum (T ip)) -> 0 < i_ref (T0 ip) /\ 2 <= i_ref (T ip).
Proof using Type.
  intros Ht Hc Hip Hr (j & Hj & Hrj & Ej). pose proof (tb_ref _ _ _ _ _ _ Ht j Hj) as Hr1. pose proof (Hc j) as Hcj.
  assert (Hpj : c j <= plus c ip j) by (unfold plus; case_decide; lia).
  assert (j = ip) as ->.
  { destruct (tb_entry _ _ _ _ _ _ Ht ip Hip Hr) as (D1 & _). apply (tb_ok _ _ _ _ _ _ Ht); try done; [lia| |].
    - rewrite D1. by apply (tb_entry _ _ _ _ _ _ Ht); [|lia].
    - rewrite <-Ej. by apply (tb_same _ _ _ _ _ _ Ht). }
  rewrite plus_same in Hr1. lia.
Qed.

Lemma tab_linked pid V T0 c H T ip : walk_ok V T0 -> tab pid V T0 (plus c ip) H T -> small c -> (ip < NINODE)%nat ->
  i_ref (T ip) = 1 -> i_valid (T ip) = true -> d_nlink (i_d (T ip)) <> 0.
Proof using Type.
  intros Hw Ht Hc Hip Hr Hval Hz. destruct (tb_entry _ _ _ _ _ _ Ht ip Hip ltac:(lia)) as (D1 & D2 & D3).
  rewrite D3 in Hz by done. pose proof (tab_opened _ _ _ _ _ _ _ Ht Hc Hip ltac:(lia) (wk_nlink _ _ Hw _ D2 Hz)). lia.
Qed.
End tree.

(** ** The operations on the inodes of a walk *)

Section walk.
Context {E : Type} `{CO : CopyOk E} (pid dev : Z) (cx : tctx) (sb : superblock).
Context (V : Z -> block) (T0 : nat -> inode).
Abbreviation fsx := (fsh pid dev cx sb [] []).
Abbreviation tab := (tab dev sb pid V T0).

Lemma tab_ilock L k T (e : E) c H ip s :
  fsx V L k T e s -> tab c H T -> ip ∉ H -> (ip < NINODE)%nat -> 0 < i_ref (T ip) ->
  wp (ilock pid ip) (fun _ s' => exists T', fsx V L k T' e s' /\ tab c (ip :: H) T' /\
    i_d (T' ip) = dino sb V (i_inum (T ip)) /\ forall j, i_inum (T' j) = i_inum (T j)) s.
Proof using Type.
  intros Hs Ht Hn Hip Hr. destruct (tb_entry _ _ _ _ _ _ _ _ Ht ip Hip Hr) as (D1 & [D2 D3] & D4).
  pose proof (tab_unheld _ _ _ _ _ _ _ _ _ Ht Hn Hip) as Hl.
  eapply wp_mono; [apply (ilock_spec pid dev cx sb V L k T e ip s Hs); [done|lia|done|done]|].
  intros [] s' Hs'. eexists. split; [exact Hs'|].
  assert (Ed : (if i_valid (T ip) then i_d (T ip) else dino sb V (i_inum (T ip))) = dino sb V (i_inum (T ip))).
  { destruct (i_valid (T ip)); [by apply D4|done]. }
  split_and!.
  - eapply tab_upd; [exact Ht|done|done|done|done|by apply Ht|done|by intros _| |].
    + rewrite decide_True by left. done.
    + intros j Hne. rewrite elem_of_cons. naive_solver.
  - rewrite upd_same. exact Ed.
  - intros j. upd_cases j ip; done.
Qed.

Lemma tab_iunlock L k T (e : E) c H ip s :
  fsx V L k T e s -> tab c (ip :: H) T -> ip ∉ H -> (ip < NINODE)%nat ->
  wp (iunlock pid ip) (fun _ s' => exists T', fsx V L k T' e s' /\ tab c H T' /\
    forall j, i_inum (T' j) = i_inum (T j) /\ i_valid (T' j) = i_valid (T j) /\ i_d (T' j) = i_d (T j)) s.
Proof using Type.
  intros Hs Ht Hn Hip. destruct (tab_held _ _ _ _ _ _ _ ip _ Ht ltac:(left) Hip) as (Hr & Hl & Hv & Hd).
  eapply wp_mono; [apply (iunlock_spec pid dev cx sb V L k T e ip s Hs); [apply Hl|lia]|].
  intros [] s' Hs'. eexists. split; [exact Hs'|]. split.
  - eapply tab_upd; [exact Ht|done|done|done|done|by apply Ht|done|by intros _| |].
    + by rewrite decide_False.
    + intros j Hne. rewrite elem_of_cons. naive_solver.
  - intros j. upd_cases j ip; done.
Qed.

(** [iput] of an inode that stays. *)
Lemma tab_iput_keep L k T (e : E) c H ip s :
  fsx V L k T e s -> tab (plus c ip) H T -> ip ∉ H -> (ip < NINODE)%nat -> 1 <= i_ref (T ip) < 2 ^ 31 ->
  (i_ref (T ip) = 1 -> i_valid (T ip) = true -> d_nlink (i_d (T ip)) <> 0) ->
  wp (iput pid ip) (fun _ s' => exists T', fsx V L k T' e s' /\ tab c H T' /\
    forall j, i_inum (T' j) = i_inum (T j)) s.
Proof using Type.
  intros Hs Ht Hn Hip Hr Hkeep. pose proof (tb_ref _ _ _ _ _ _ _ _ Ht ip Hip) as Hrt. rewrite plus_same in Hrt.
  eapply wp_mono; [apply (iput_spec pid dev cx sb V L k T e ip s Hs); [lia|done]|].
  intros [] s' Hs'. eexists. split; [exact Hs'|]. split.
  - eapply tab_upd; [exact Ht|done|lia|done|done| | |by apply (tb_entry _ _ _ _ _ _ _ _ Ht); [|lia]| |done].
    + cbn [iset_ref i_ref]. lia.
    + intros j Hne. by rewrite plus_other.
    + rewrite decide_False by done. by apply (tab_unheld _ _ _ _ _ _ _ _ _ Ht).
  - intros j. upd_cases j ip; done.
Qed.
End walk.

(** ** [namex] *)

Section namex.
Context {E : Type} `{CO : CopyOk E} (pid dev : Z) (cx : tctx) (sb : superblock).
Context (V : Z -> block) (Hv : blocks_ok sb V).
Context (T0 : nat -> inode) (Hsp : spare 2 T0) (Htree : walk_ok sb V T0).
Abbreviation fsx := (fsh pid dev cx sb [] []).
Abbreviation tab := (tab dev sb pid V T0).

Lemma tab_iput L k T (e : E) c ip s :
  fsx V L k T e s -> tab (plus c ip) [] T -> small c -> (ip < NINODE)%nat ->
  wp (iput pid ip) (fun _ s' => exists T', fsx V L k T' e s' /\ tab c [] T' /\
    forall j, i_inum (T' j) = i_inum (T j)) s.
Proof using Hsp Htree.
  clear Hv. intros Hs Ht Hc Hip. pose proof (tb_ref _ _ _ _ _ _ _ _ Ht ip Hip) as Hr. rewrite plus_same in Hr.
  pose proof (sp_ref _ _ Hsp ip Hip). pose proof (Hc ip).
  apply (tab_iput_keep pid dev cx sb V T0 L k T e c [] ip s); try done; [set_solver|lia|].
  intros Hr1 Hval. by eapply tab_linked.
Qed.

Lemma tab_plus_pos c H ip T : tab (plus c ip) H T -> small c -> (ip < NINODE)%nat -> 0 < i_ref (T ip).
Proof using Hsp.
  intros Ht Hc Hip. rewrite (tb_ref _ _ _ _ _ _ _ _ Ht ip Hip), plus_same.
  pose proof (sp_ref _ _ Hsp ip Hip). specialize (Hc ip). lia.
Qed.

Lemma tab_iunlockput L k T (e : E) c ip s :
  fsx V L k T e s -> tab (plus c ip) [ip] T -> small c -> (ip < NINODE)%nat ->
  wp (iunlockput pid ip) (fun _ s' => exists T', fsx V L k T' e s' /\ tab c [] T' /\
    forall j, i_inum (T' j) = i_inum (T j)) s.
Proof using Hsp Htree.
  clear Hv. intros Hs Ht Hc Hip. unfold iunlockput. apply wp_bind.
  eapply wp_mono; [apply (tab_iunlock pid dev cx sb V T0 L k T e (plus c ip) [] ip s); try done; set_solver|].
  intros [] s1 (T1 & H1 & Ht1 & E1). eapply wp_mono; [by apply (tab_iput L k T1 e c ip s1)|].
  intros [] s2 (T2 & H2 & Ht2 & E2). exists T2. split_and!; try done. intros j. rewrite E2. apply E1.
Qed.

(** The element [name] of the directory that is locked. *)
Lemma tab_dirlookup L k T (e : E) ip name s :
  let inum := i_inum (T ip) in
  let d := dino sb V inum in
  fsx V L k T e s -> tab (plus none ip) [ip] T -> (ip < NINODE)%nat -> d_type d = T_DIR ->
  wp (dirlookup pid ip name) (fun r s' =>
    match dir_index d V name with
    | None => r = None /\ fsx V L k T e s'
    | Some j => exists next T', r = Some (next, DIRENT_SIZE * Z.of_nat j) /\ (next < NINODE)%nat /\ fsx V L k T' e s' /\
        tab (plus (plus none next) ip) [ip] T' /\ i_inum (T' next) = de_inum (dirent d V j) /\ i_inum (T' ip) = inum
    end) s.
Proof using CO Hv Htree Hsp.
  intros inum d Hs Ht Hip Hty. destruct (tab_held _ _ _ _ _ _ _ ip _ Ht ltac:(left) Hip) as (Hr & _ & _ & Ed).
  fold inum d in Ed. pose proof (tab_live _ _ _ _ _ _ _ _ _ Ht Hip Hr) as Hlv. fold inum in Hlv.
  assert (Hdev : i_dev (T ip) = dev) by (by apply (tb_entry _ _ _ _ _ _ _ _ Ht)).
  eapply wp_mono; [apply (dirlookup_spec pid dev cx sb V L k T e ip name s Hs Hdev Hv)|].
  { rewrite Ed. by apply (wk_dir _ _ _ Htree). }
  { apply Ht. }
  { intros j Hj. by eapply tab_range; [exact Hsp| |exact Ht|apply small_one|]. }
  { eapply (tab_free _ _ _ _ _ _ _ _ _ [ip] Hsp Ht); [|simpl; lia]. intros j Hj. rewrite plus_other by set_solver. done. }
  rewrite Ed. pose proof (wk_entry _ _ _ Htree inum name) as Hen. fold d in Hen. unfold dir_lookup in Hen.
  destruct (dir_index d V name) as [j|]; cbn [option_map] in *; [|done].
  intros r s' (next & x & -> & Hg & Hs'). exists next, (upd T next x).
  pose proof Hg as (Hnext & _ & Hin & _ & _ & Hg5). split_and!; try done.
  - eapply tab_ext; [| |eapply tab_gotten; [exact Hsp|exact Ht|by apply Hen|apply small_one|exact Hg]]; [|done].
    intros y. unfold plus, none. lia.
  - by rewrite upd_same.
  - unfold inum. upd_cases ip next; [|done]. destruct Hg5 as [(Hz & _)|(_ & _ & Hi & _)]; [lia|congruence].
Qed.

(** The result of a walk: the inode with the one reference that is the
    caller's, or nothing and no reference. *)
Definition found (L : list Z) (k : Z) (e : E) (np : bool) (l : list (list Z)) (tgt : option Z)
    (r : option nat * list Z) (s' : fstate E) : Prop :=
  exists T', fsx V L k T' e s' /\
  match tgt with
  | Some inum => exists jp, fst r = Some jp /\ (jp < NINODE)%nat /\ tab (plus none jp) [] T' /\
      i_inum (T' jp) = inum /\ (np = true -> snd r = List.last l [])
  | None => fst r = None /\ tab none [] T'
  end.

Definition target (np : bool) (inum : Z) (l : list (list Z)) : option Z :=
  if np then walk_parent sb V inum l else walk_path sb V inum l.

Lemma target_step np inum w l : (np = true -> l <> []) -> d_type (dino sb V inum) = T_DIR ->
  target np inum (w :: l) =
  match dir_lookup (dino sb V inum) V w with Some inum' => target np inum' l | None => None end.
Proof using Type.
  intros Hl Hty. unfold target, walk_parent. destruct np; [|by cbn [walk_path]; rewrite Hty].
  destruct l as [|w' l]; [by specialize (Hl eq_refl)|]. change (removelast (w :: w' :: l)) with (w :: removelast (w' :: l)).
  cbn [walk_path]. rewrite Hty. cbn [Z.eqb T_DIR Pos.eqb]. by destruct (dir_lookup (dino sb V inum) V w).
Qed.

Lemma target_not_dir np inum w l : d_type (dino sb V inum) <> T_DIR -> target np inum (w :: l) = None.
Proof using Type.
  intros Hty. unfold target, walk_parent. destruct np; [|by cbn [walk_path]; rewrite (proj2 (Z.eqb_neq _ _))].
  destruct l as [|w' l]; [cbn [removelast walk_path]; by rewrite (proj2 (Z.eqb_neq _ _))|].
  change (removelast (w :: w' :: l)) with (w :: removelast (w' :: l)). cbn [walk_path]. by rewrite (proj2 (Z.eqb_neq _ _)).
Qed.

Lemma namex_loop_spec left L k T (e : E) np path name ip s :
  fsx V L k T e s -> tab (plus none ip) [] T -> (ip < NINODE)%nat -> (length path <= left)%nat ->
  wp (namex_loop pid np path name ip left)
    (found L k e np (elements path) (target np (i_inum (T ip)) (elements path))) s.
Proof using CO Hv Htree Hsp.
  revert T path name ip s. induction left as [|left IH]; intros T path name ip s Hs Ht Hip Hlen;
    cbn [namex_loop]; pose proof (skipelem_spec path) as Hsk;
    (destruct (skipelem path) as [[path' w]|];
     [destruct Hsk as (El & Hl' & Hnil)|rewrite Hsk; destruct np;
      [apply wp_bind; (eapply wp_mono; [by apply (tab_iput L k T e none ip s); [| |apply small_none|]|]);
       intros [] s1 (T1 & H1 & Ht1 & _); apply wp_ret; by exists T1
      |apply wp_ret; exists T; split; [done|]; by exists ip]]); [lia|].
  rewrite El. set (inum := i_inum (T ip)).
  apply wp_bind. eapply wp_mono; [apply (tab_ilock pid dev cx sb V T0 L k T e (plus none ip) [] ip s Hs Ht); [set_solver|done|];
    by eapply tab_plus_pos; [|apply small_none|]|].
  intros [] s1 (T1 & H1 & Ht1 & Ed & Ei). specialize (Ei ip) as Eip. fold inum in Ed, Eip.
  apply wp_bind. eapply wp_get_inode; [exact H1|]. rewrite Ed.
  destruct (Z.eqb_spec (d_type (dino sb V inum)) T_DIR) as [Hty|Hty]; cbn [negb].
  2: { apply wp_bind. eapply wp_mono; [by apply (tab_iunlockput L k T1 e none ip s1); [| |apply small_none|]|].
       intros [] s2 (T2 & H2 & Ht2 & _). apply wp_ret. exists T2. by rewrite target_not_dir. }
  destruct (np && bool_decide (path' = [])) eqn:Enp.
  { apply andb_true_iff in Enp as [-> Hp%bool_decide_eq_true]. rewrite (proj1 Hnil Hp).
    apply wp_bind. eapply wp_mono; [apply (tab_iunlock pid dev cx sb V T0 L k T1 e (plus none ip) [] ip s1); try done; set_solver|].
    intros [] s2 (T2 & H2 & Ht2 & E2). apply wp_ret. exists T2. split; [done|].
    unfold target, walk_parent. cbn [removelast walk_path]. rewrite Hty. cbn [Z.eqb T_DIR Pos.eqb].
    exists ip. split_and!; try done. by rewrite (proj1 (E2 ip)). }
  assert (Hnl : np = true -> elements path' <> []).
  { intros -> Hc. apply Hnil in Hc. by rewrite bool_decide_true in Enp. }
  rewrite (target_step np inum w) by done. apply wp_bind. unfold dir_lookup.
  rewrite <-Eip in Ed, Hty |- *. eapply wp_mono; [by apply (tab_dirlookup L k T1 e ip w s1)|].
  destruct (dir_index (dino sb V (i_inum (T1 ip))) V w) as [j|]; cbn [option_map].
  - intros r s2 (next & T2 & -> & Hnext & H2 & Ht2 & E2 & _).
    apply wp_bind. eapply wp_mono; [by apply (tab_iunlockput L k T2 e (plus none next) ip s2); [| |apply small_one|]|].
    intros [] s3 (T3 & H3 & Ht3 & E3). rewrite <-E2, <-(E3 next).
    eapply wp_mono; [apply (IH T3 path' w next s3 H3 Ht3 Hnext); lia|].
    intros r s4 (T4 & H4 & Hr). exists T4. split; [done|].
    destruct (target np (i_inum (T3 next)) (elements path')); [|done].
    destruct Hr as (jp & R1 & R2 & R3 & R4 & R5). exists jp. split_and!; try done.
    intros Hn. rewrite R5 by done. specialize (Hnl Hn). by destruct (elements path').
  - intros r s2 [-> H2]. apply wp_bind.
    eapply wp_mono; [by apply (tab_iunlockput L k T1 e none ip s2); [| |apply small_none|]|].
    intros [] s3 (T3 & H3 & Ht3 & _). apply wp_ret. by exists T3.
Qed.
End namex.

Section start.
Context {E : Type} `{CO : CopyOk E} (pid : Z) (cx : tctx) (sb : superblock).
Context (V : Z -> block) (Hv : blocks_ok sb V).
Context (T0 : nat -> inode) (Hsp : spare 2 T0) (Htree : walk_ok sb V T0).
Abbreviation fsx := (fsh pid ROOTDEV cx sb [] []).
Abbreviation tab := (tab ROOTDEV sb pid V T0).

(** [namex] from the root or from the current directory. *)
Lemma namex_spec L k (e : E) cwd path np s :
  let start := if hd 0 path =? SLASH then ROOTINO else i_inum (T0 cwd) in
  fsx V L k T0 e s -> tab none [] T0 -> live sb V ROOTINO -> (cwd < NINODE)%nat -> 0 < i_ref (T0 cwd) ->
  wp (namex pid cwd path np) (found pid ROOTDEV cx sb V T0 L k e np (elements path) (target sb V np start (elements path))) s.
Proof using CO Hv Htree Hsp.
  intros start Hs Ht Hroot Hcwd Href. unfold namex, start. apply wp_bind. destruct (hd 0 path =? SLASH).
  - eapply wp_mono; [apply (iget_spec pid ROOTDEV cx sb V L k T0 e ROOTINO s Hs); [apply Ht| |]|].
    + intros j Hj. by eapply tab_range; [exact Hsp| |exact Ht|apply small_none|].
    + eapply (tab_free _ _ _ _ _ _ _ _ _ [] Hsp Ht); [done|simpl; lia].
    + intros ip s1 (x & Hx & H1). pose proof Hx as (Hip & _ & Hin & _).
      replace ROOTINO with (i_inum (upd T0 ip x ip)) by (by rewrite upd_same).
      apply namex_loop_spec; try done. by eapply tab_gotten; [..|apply small_none|].
  - pose proof (sp_ref _ _ Hsp cwd Hcwd) as Hr. unfold idup. apply wp_bind.
    eapply wp_change_inode; [exact Hs|]. intros s1 H1. rewrite i32_id in H1 by lia. apply wp_ret.
    set (y := iset_ref (i_ref (T0 cwd) + 1) (T0 cwd)) in H1.
    replace (i_inum (T0 cwd)) with (i_inum (upd T0 cwd y cwd)) by (by rewrite upd_same).
    apply namex_loop_spec; try done. eapply tab_upd; [exact Ht|done|done|done|done| | | | |done].
    + by rewrite plus_same.
    + intros j Hne. by rewrite plus_other.
    + by apply (tb_entry _ _ _ _ _ _ _ _ Ht).
    + rewrite decide_False by set_solver. by apply (tab_unheld _ _ _ _ _ _ _ _ _ Ht); [set_solver|].
Qed.
End start.
