(* ===== verification/FsOps.v ===== *)
(** * File-system operations as transactions

    The bracket of begin_op and end_op that file.c and sysfile.c put around
    their calls of fs.c: what the operation did to the contents is what the
    disk has afterwards, and what a boot finds after a crash is the disk from
    before the operation or the disk from after it. *)

From stdpp Require Import relations.
From S2P Require Import Prelude Bytes Locks Bio Log LogCrash Fs FsBlocks FsInode FsFile FsData.

(** ** Contents that agree outside the log *)

Section agree.
Context (sb : superblock) (Hsb : sb_ok sb).

Definition agree (V V' : Z -> block) : Prop := forall b, sb_inodestart sb <= b -> V' b = V b.

Lemma agree_refl V : agree V V.
Proof using Type. done. Qed.

Lemma agree_home V V' :
  (forall b, ~ sb_logstart sb <= b < sb_logstart sb + sb_nlog sb -> V' b = V b) -> agree V V'.
Proof using Hsb. intros H b Hb. apply H. pose proof (sbo_inodes _ Hsb). lia. Qed.

Lemma used_agree V V' b : agree V V' -> 0 <= b < sb_size sb -> used sb V' b = used sb V b.
Proof using Hsb.
  intros Ha Hb. unfold used. rewrite Ha; [done|]. destruct (BBLOCK_range sb Hsb b Hb). pose proof (inodes_first sb Hsb). lia.
Qed.

Lemma dino_agree V V' inum : agree V V' -> inum_ok sb inum -> dino sb V' inum = dino sb V inum.
Proof using Hsb. intros Ha Hi. unfold dino. rewrite Ha; [done|]. by apply IBLOCK_range. Qed.

Lemma blocks_ok_agree V V' : agree V V' -> sized V' -> blocks_ok sb V -> blocks_ok sb V'.
Proof using Hsb.
  intros Ha Hs [H1 H2]. split; [exact Hs|]. intros b Hb. rewrite (used_agree V); [by apply H2|done|].
  pose proof (sbo_data _ Hsb). lia.
Qed.

Lemma data_agree V V' b : agree V V' -> data_start sb <= b -> V' b = V b.
Proof using Hsb. intros Ha Hb. apply Ha. pose proof (inodes_first sb Hsb). pose proof (bitmap_before_data sb Hsb). lia. Qed.

Lemma slot_agree d V V' i : agree V V' -> file_ok sb d V -> slot d V' i = slot d V i.
Proof using Hsb.
  intros Ha Hf. unfold slot. destruct (i <=? NDIRECT)%nat; [done|].
  destruct (Z.eqb_spec (nth NDIRECT (d_addrs d) 0) 0) as [|Hn]; [done|]. rewrite (data_agree V); [done|done|].
  rewrite <-(slot_low d V) in * by done. apply (fo_data sb _ _ Hf NDIRECT); [unfold NSLOT; lia|done].
Qed.

Lemma file_ok_agree d V V' : agree V V' -> file_ok sb d V -> file_ok sb d V'.
Proof using Hsb.
  intros Ha Hf. pose proof (data_start_pos sb Hsb). split.
  - intros i Hi. rewrite (slot_agree d V) by done. intros Hn. destruct (fo_data sb _ _ Hf i Hi Hn).
    split; [done|]. rewrite (used_agree V) by (done || lia). done.
  - intros i j Hi Hj. rewrite (slot_agree d V V' i), (slot_agree d V V' j) by done. by apply (fo_inj sb _ _ Hf).
Qed.

Lemma fbyte_agree d V V' o : agree V V' -> file_ok sb d V -> 0 <= o < MAXFILE * BSIZE -> mapped d V o ->
  fbyte d V' o = fbyte d V o.
Proof using Hsb.
  intros Ha Hf Ho Hm. unfold fbyte, fblock. rewrite (slot_agree d V) by done. f_equal. apply data_agree; [done|].
  apply (fo_data sb _ _ Hf); [by apply data_slot_range, block_no|done].
Qed.

Lemma content_ok_agree d V V' : agree V V' -> file_ok sb d V -> content_ok d V -> content_ok d V'.
Proof using Hsb.
  intros Ha Hf [C1 C2]. split; [done|]. intros o Ho. unfold mapped. rewrite (slot_agree d V) by done. by apply C2.
Qed.

Lemma fbytes_agree d V V' off n : agree V V' -> file_ok sb d V -> content_ok d V ->
  0 <= off -> off + Z.of_nat n <= d_size d -> fbytes d V' off n = fbytes d V off n.
Proof using Hsb.
  intros Ha Hf [C1 C2] Ho Hn. apply bytes_at_ext. intros i Hi.
  apply fbyte_agree; [done|done|lia|apply C2; lia].
Qed.

Lemma file_updated_agree inum d V d' V' V'' off bs :
  inum_ok sb inum -> 0 <= off -> agree V' V'' -> sized V'' ->
  file_updated sb inum d V d' V' off bs -> file_updated sb inum d V d' V'' off bs.
Proof using Hsb.
  intros Hi Hoff Ha Hs Hu. pose proof Hu as [U1 U2 U3 U4 U5 U6 U7 U8 U9 U10 U11 U12 U13]. pose proof (ct_size _ _ U4) as Hsz.
  assert (Hd : d_size d' = Z.max (d_size d) (off + Z.of_nat (length bs))) by (by rewrite U6).
  split; try done.
  - by apply (blocks_ok_agree V').
  - by apply (file_ok_agree _ V').
  - by apply (content_ok_agree _ V').
  - by rewrite (dino_agree V').
  - rewrite (fbytes_agree _ V') by (done || lia). done.
  - intros o Ho Hni. rewrite (fbyte_agree _ V'); [by apply U8|done|done|lia|]. apply U4. lia.
  - intros i Hlt Hn. rewrite (slot_agree _ V') by done. by apply U9.
  - intros i Hlt Hz. rewrite (slot_agree _ V') by done. by apply U10.
  - intros inum' Hi' Hne. rewrite (dino_agree V') by done. by apply U11.
  - intros b Hb Hu'. rewrite (used_agree V') by done. by apply U12.
  - intros b Hb Hu' Hni. rewrite (data_agree V') by (done || lia). by apply U13.
Qed.
End agree.

(** ** The bracket *)

Section ops.
Context {E : Type} `{CE : CopyEnv E} (pid dev : Z) (sb : superblock) (Hsb : sb_ok sb).
Context (Hdev : dev <> 0) (Hlog : MAXOPBLOCKS + 1 < sb_nlog sb).

(** [begin_op(); ... end_op();] *)
Definition fs_op {A} (m : M (fstate E) A) : M (fstate E) A :=
  lift begin_op ;; let! a := m in lift (end_op pid) ;; ret a.

(** No operation is under way: disk [D], inode table [T]. *)
Record fidle (D : Z -> block) (T : nat -> inode) (e : E) (s : fstate E) : Prop := {
  fi_sb : fsb s = sb;
  fi_com : committed dev (sb_logstart sb) (sb_nlog sb) D (fl s);
  fi_t : itable s = T;
  fi_e : fenv s = e;
}.

Definition ctx_of (D : Z -> block) (W : list (Z * block)) : tctx :=
  TCtx (sb_logstart sb) (sb_nlog sb) 1 D W.

Definition fdisk (s : fstate E) : Z -> block := disk (bc (fl s)).
Definition fwrites (s : fstate E) : list (Z * block) := writes (bc (fl s)).

Lemma fs_begin D T e s (Q : unit -> fstate E -> Prop) :
  fidle D T e s ->
  (forall s', fsh pid dev (ctx_of D (fwrites s)) sb [] [] D [] MAXOPBLOCKS T e s' -> Q tt s') ->
  wp (lift begin_op) Q s.
Proof using Hsb Hlog.
  intros [F1 F2 F3 F4] HQ. apply wp_lift. unfold MAXOPBLOCKS in *.
  eapply wp_mono; [apply (begin_ok pid dev (sb_logstart sb) (sb_nlog sb) D [] (fl s) F2)|].
  { simpl. unfold MAXOPBLOCKS. lia. }
  { unfold MAXOPBLOCKS. lia. }
  { intros u Hu. by apply not_elem_of_nil in Hu. }
  intros [] x Hx. apply HQ. destruct F2 as [C1 C2 C3 C4 C5 C6 C7 C8 C9]. split; try done.
  - unfold log_first. simpl. apply Hsb.
  - exists (log1 (fl s)). simpl. unfold LOGSIZE, MAXOPBLOCKS. rewrite C4, C3.
    assert (Hnil : log_blocks (log1 (fl s)) = []) by (unfold log_blocks, indices; simpl; by rewrite C4).
    rewrite Hnil. split_and!; try done; try lia. intros b Hb. by apply not_elem_of_nil in Hb.
Qed.

(** The contents [V] are on the disk, and no crash leaves anything but [D] and
    [V] outside the log. *)
Definition op_done (D V : Z -> block) (T : nat -> inode) (e : E) (w : list (Z * block)) (s : fstate E) : Prop :=
  fidle (fdisk s) T e s /\ fdisk s = apply_writes w D /\ agree sb V (fdisk s) /\ (sized D -> sized V -> sized (fdisk s)) /\
  forall w1 w2 D2, w = w1 ++ w2 ->
    rtc (crash_step pid dev (sb_logstart sb) (sb_nlog sb)) (apply_writes w1 D) D2 ->
    exists t, boot_log pid dev (sb_logstart sb) (sb_nlog sb) (boot_lstate D2) = Ret (tt, t) /\
      committed dev (sb_logstart sb) (sb_nlog sb) (disk (bc t)) t /\
      (sized D -> sized V -> sized (disk (bc t))) /\
      (agree sb D (disk (bc t)) \/ agree sb V (disk (bc t))).

Lemma fs_end D W V L k T e s (Q : unit -> fstate E -> Prop) :
  head_n (D (sb_logstart sb)) = 0 -> length (D (sb_logstart sb)) = Z.to_nat BSIZE ->
  fsh pid dev (ctx_of D W) sb [] [] V L k T e s ->
  (forall w s', fwrites s' = W ++ w -> op_done D V T e w s' -> Q tt s') ->
  wp (lift (end_op pid)) Q s.
Proof using Hsb Hdev.
  intros Hhd Hlen [F1 F2 F3 F4 F5] HQ. apply wp_lift.
  destruct F3 as (l & Ht & (L1 & L2 & L3 & L4) & L5 & _ & K1 & K2 & K3 & _ & L6). simpl in L2, L3, L5, Ht.
  pose proof (tx_n _ _ _ _ _ _ _ _ Ht) as Hn. unfold LOGSIZE, MAXOPBLOCKS in K2.
  assert (Hcl : closing dev (sb_logstart sb) (sb_nlog sb) D V l).
  { split; try done.
    - split; [lia|unfold NBUF; lia|]. intros b Hb. destruct (L6 b Hb) as [_ H]. simpl in H. unfold in_log. lia.
    - apply Ht.
    - intros b Hb. by destruct (L6 b Hb).
    - intros b Hb. apply (tx_clean _ _ _ _ _ _ _ _ Ht); [apply not_elem_of_nil|done]. }
  eapply wp_mono; [by apply (end_atomic pid dev (sb_logstart sb) (sb_nlog sb) D V l W (fl s))|].
  intros [] x (w & Hw & A1 & A0 & A2 & A3 & A4). apply (HQ w); [done|]. unfold op_done, fdisk. simpl. split_and!.
  - by split.
  - exact A0.
  - by apply agree_home.
  - exact A3.
  - intros w1 w2 D2 Ew Hr. destruct (A4 w1 w2 D2 Ew Hr) as (t & T1 & T2 & T3 & T4). exists t.
    split; [exact T1|]. split; [exact T2|]. split; [exact T3|].
    destruct T4 as [T4|T4]; [left|right]; by apply agree_home.
Qed.

(** An operation as a whole. *)
Lemma fs_op_spec {A} (m : M (fstate E) A) (P : A -> (Z -> block) -> (nat -> inode) -> E -> Prop) D T e s :
  fidle D T e s ->
  (forall s1, fsh pid dev (ctx_of D (fwrites s)) sb [] [] D [] MAXOPBLOCKS T e s1 ->
    wp m (fun a s2 => exists V L k T' e', fsh pid dev (ctx_of D (fwrites s)) sb [] [] V L k T' e' s2 /\
      P a V T' e') s1) ->
  wp (fs_op m) (fun a s' => exists V T' e' w, P a V T' e' /\ fwrites s' = fwrites s ++ w /\
    op_done D V T' e' w s') s.
Proof using Hsb Hdev Hlog.
  intros Hi Hm. unfold fs_op. apply wp_bind. eapply fs_begin; [exact Hi|]. intros s1 H1.
  apply wp_bind. eapply wp_mono; [by apply Hm|]. intros a s2 (V & L & k & T' & e' & H2 & HP).
  apply wp_bind. eapply (fs_end D); [apply Hi|apply Hi|exact H2|]. intros w s3 Hw H3. apply wp_ret.
  by exists V, T', e', w.
Qed.

(** A crash when no operation is under way. *)
Lemma idle_crash D D2 s T e :
  fidle D T e s -> sized D -> rtc (crash_step pid dev (sb_logstart sb) (sb_nlog sb)) D D2 ->
  exists t, boot_log pid dev (sb_logstart sb) (sb_nlog sb) (boot_lstate D2) = Ret (tt, t) /\
    committed dev (sb_logstart sb) (sb_nlog sb) (disk (bc t)) t /\ sized (disk (bc t)) /\
    agree sb D (disk (bc t)).
Proof using Hsb Hdev Hlog.
  intros Hi HD Hr. pose proof (fi_com _ _ _ _ Hi) as Hc. pose proof (cm_head _ _ _ _ _ Hc) as Hh.
  assert (Hl : (4 <= length (D (sb_logstart sb)))%nat) by (rewrite HD; unfold BSIZE; lia).
  assert (Hn : 0 < sb_nlog sb) by (unfold MAXOPBLOCKS in *; lia).
  assert (H0 : same_recovery (sb_logstart sb) (sb_nlog sb) D D).
  { split_and!; [by apply disk_log_empty|reflexivity|intros; reflexivity]. }
  pose proof (crash_steps pid dev _ _ D D D2 Hdev Hl H0 Hr) as Hs2.
  pose proof (crash_steps_sized pid dev _ _ D D D2 Hdev Hl H0 Hr HD) as Hz2.
  destruct (boot_after pid dev _ _ D D2 Hdev (cm_len _ _ _ _ _ Hc) Hs2) as (t & T1 & T2 & T3).
  exists t. split; [exact T1|]. split; [exact T2|]. split.
  - destruct Hs2 as (Hd2 & _ & _).
    destruct (proj1 (wp_returns _ _ _) (boot_log_spec pid dev (sb_logstart sb) (sb_nlog sb) D2 Hdev Hd2))
      as ([] & t' & Hb' & Hdk & _). rewrite T1 in Hb'. injection Hb' as ->. rewrite Hdk.
    apply sized_apply; [exact Hz2|by apply recover_sized].
  - apply agree_home; [done|]. intros b Hb. rewrite T3 by exact Hb. apply recovered_empty; [done|]. intros ->. lia.
Qed.

(** Operations that only read run without a transaction. *)
Definition read_ctx (D : Z -> block) (W : list (Z * block)) : tctx :=
  TCtx (sb_logstart sb) (sb_nlog sb) 0 D W.

Lemma fs_read D T e s : fidle D T e s ->
  fsh pid dev (read_ctx D (fwrites s)) sb [] [] D [] 0 T e s.
Proof using Hsb Hlog.
  intros [F1 F2 F3 F4]. destruct F2 as [C1 C2 C3 C4 C5 C6 (A & Hq) C8 C9]. unfold MAXOPBLOCKS in *. split; try done.
  - unfold log_first. simpl. apply Hsb.
  - assert (Hnil : log_blocks (lg (fl s)) = []) by (unfold log_blocks, indices; by rewrite C4).
    exists (lg (fl s)). unfold LOGSIZE, MAXOPBLOCKS. simpl. rewrite C4, C3. split_and!; try done; try lia.
    + split; try done.
      * exists A. rewrite Hnil, C1. split; [intros b i Hin; by apply not_elem_of_nil in Hin|].
        eapply bst_ext; [exact Hq|done|..]; intros y; done.
      * constructor.
      * rewrite Hnil. constructor.
      * lia.
    + by right.
    + rewrite Hnil. intros b Hb. by apply not_elem_of_nil in Hb.
    + rewrite Hnil. intros b Hb. by apply not_elem_of_nil in Hb.
Qed.

Lemma fs_read_done D W T e s :
  head_n (D (sb_logstart sb)) = 0 -> length (D (sb_logstart sb)) = Z.to_nat BSIZE ->
  fsh pid dev (read_ctx D W) sb [] [] D [] 0 T e s -> fidle D T e s /\ fwrites s = W /\ fdisk s = D.
Proof using Type.
  intros Hhd Hlen [F1 F2 F3 F4 F5].
  destruct F3 as (l & Ht & (L1 & L2 & L3 & L4) & L5 & L6 & _). simpl in L2, L3, L5, Ht.
  destruct L6 as [L6|(_ & _ & L6)]; [simpl in L6; lia|].
  pose proof (txn_quiet _ _ _ _ _ _ Ht) as Hq. rewrite L1 in Hq. pose proof (tx_log _ _ _ _ _ _ _ _ Ht) as Hl.
  assert (Hnil : log_blocks l = []) by (unfold log_blocks, indices; by rewrite L6). rewrite Hnil in Hq.
  destruct (quiet_facts _ _ _ _ _ Hq) as (_ & E1 & E2). split_and!; [|done|done].
  split; try done. rewrite <-E2 in Hq. split; rewrite ?Hl; done.
Qed.
End ops.
