(* ===== verification/FsAbs.v ===== *)
(** * A volume as a map of inodes

    What a volume holds, without its blocks: for every inode number a node
    with the type, the link count and the contents.  The changes of the
    operations of fs.c to the blocks ([file_updated], [put_dino],
    [truncated], the cleared dinode of [ialloc]) are changes of one node, and
    they keep the volume well formed: every inode in use has blocks of its own
    for all of its contents. *)

From S2P Require Import Prelude Bytes Locks Bio Log Fs FsBlocks FsInode FsFile FsData FsTrunc FsDir FsPath FsOps.

Record node := Node {
  n_type : Z;
  n_major : Z;
  n_minor : Z;
  n_nlink : Z;
  n_data : list Z;
}.

Definition node_of (d : dinode) (V : Z -> block) : node :=
  Node (d_type d) (d_major d) (d_minor d) (d_nlink d) (fbytes d V 0 (Z.to_nat (d_size d))).

Definition set_nlink (v : Z) (x : node) : node := Node (n_type x) (n_major x) (n_minor x) v (n_data x).
Definition set_data (bs : list Z) (x : node) : node := Node (n_type x) (n_major x) (n_minor x) (n_nlink x) bs.

(** [bs] written at [off], which is at most the length. *)
Definition splice (off : nat) (bs l : list Z) : list Z := take off l ++ bs ++ drop (off + length bs) l.

Lemma splice_nil off l : splice off [] l = l.
Proof. unfold splice. cbn [length app]. by rewrite Nat.add_0_r, take_drop. Qed.

Lemma length_splice off bs l : (off <= length l)%nat -> length (splice off bs l) = Nat.max (length l) (off + length bs).
Proof. intros. unfold splice. rewrite !length_app, length_take, length_drop. lia. Qed.

Lemma lookup_splice off bs l i : (off <= length l)%nat ->
  splice off bs l !! i = if decide (off <= i < off + length bs)%nat then bs !! (i - off)%nat else l !! i.
Proof.
  intros Ho. unfold splice. case_decide as Hi.
  - rewrite lookup_app_r, length_take by (rewrite length_take; lia). rewrite lookup_app_l by lia. f_equal. lia.
  - destruct (decide (i < off)%nat) as [Hlt|Hge].
    + by rewrite lookup_app_l, lookup_take_lt by (rewrite ?length_take; lia).
    + rewrite lookup_app_r, length_take by (rewrite length_take; lia). rewrite lookup_app_r by lia.
      rewrite lookup_drop. f_equal. lia.
Qed.

Section volume.
Context (sb : superblock) (Hsb : sb_ok sb).

Definition abs (V : Z -> block) (inum : Z) : option node :=
  let d := dino sb V inum in
  if (0 <=? inum) && (inum <? sb_ninodes sb) && negb (d_type d =? 0) then Some (node_of d V) else None.

Lemma abs_live V inum : live sb V inum -> abs V inum = Some (node_of (dino sb V inum) V).
Proof using Type. intros [Hi Ht]. unfold abs, inum_ok in *. by rewrite !(proj2 (Z.leb_le _ _)), !(proj2 (Z.ltb_lt _ _)), (proj2 (Z.eqb_neq _ _)) by lia. Qed.

Lemma abs_dead V inum : ~ live sb V inum -> abs V inum = None.
Proof using Type.
  intros Hn. unfold abs. destruct ((0 <=? inum) && (inum <? sb_ninodes sb) && negb (d_type (dino sb V inum) =? 0)) eqn:Eb; [|done].
  destruct Hn. unfold live, inum_ok. lia.
Qed.

Lemma live_dec V inum : live sb V inum \/ ~ live sb V inum.
Proof using Type. unfold live, inum_ok. lia. Qed.

Lemma abs_Some V inum x : abs V inum = Some x -> live sb V inum /\ x = node_of (dino sb V inum) V.
Proof using Type.
  intros H. destruct (live_dec V inum) as [Hl|Hl]; [|by rewrite abs_dead in H]. rewrite abs_live in H by done.
  split; [done|congruence].
Qed.

(** Every inode in use has its own blocks, for all of its contents. *)
Record vol_ok (V : Z -> block) : Prop := {
  vo_blocks : blocks_ok sb V;
  vo_dinode : forall inum, live sb V inum -> dinode_ok (dino sb V inum);
  vo_file : forall inum, live sb V inum -> file_ok sb (dino sb V inum) V;
  vo_content : forall inum, live sb V inum -> content_ok (dino sb V inum) V;
  vo_disjoint : forall a b i j, live sb V a -> live sb V b -> a <> b -> (i < NSLOT)%nat -> (j < NSLOT)%nat ->
    slot (dino sb V a) V i <> 0 -> slot (dino sb V a) V i <> slot (dino sb V b) V j;
}.

(** The blocks of [d] are the same in [V'] and in use. *)
Definition kept (d : dinode) (V V' : Z -> block) : Prop :=
  forall i, (i < NSLOT)%nat -> slot d V i <> 0 -> V' (slot d V i) = V (slot d V i) /\ used sb V' (slot d V i) = true.

Lemma slot_kept d V V' i : kept d V V' -> slot d V' i = slot d V i.
Proof using Type.
  intros Hk. unfold slot. destruct (i <=? NDIRECT)%nat; [done|].
  destruct (Z.eqb_spec (nth NDIRECT (d_addrs d) 0) 0) as [|Hn]; [done|].
  rewrite <-(slot_low d V) in * by done. by rewrite (proj1 (Hk NDIRECT ltac:(unfold NSLOT; lia) Hn)).
Qed.

Lemma file_ok_kept d V V' : kept d V V' -> file_ok sb d V -> file_ok sb d V'.
Proof using Type.
  intros Hk [F1 F2]. split.
  - intros i Hi. rewrite (slot_kept d V) by done. intros Hn. split; [by apply F1|by apply Hk].
  - intros i j Hi Hj. rewrite (slot_kept d V V' i), (slot_kept d V V' j) by done. by apply F2.
Qed.

Lemma content_ok_kept d V V' : kept d V V' -> content_ok d V -> content_ok d V'.
Proof using Type. intros Hk [C1 C2]. split; [done|]. intros o Ho. unfold mapped. rewrite (slot_kept d V) by done. by apply C2. Qed.

Lemma fbyte_kept d V V' o : kept d V V' -> 0 <= o < MAXFILE * BSIZE -> mapped d V o -> fbyte d V' o = fbyte d V o.
Proof using Type.
  intros Hk Ho Hm. unfold fbyte, fblock. rewrite (slot_kept d V) by done. f_equal. apply Hk; [|done].
  by apply data_slot_range, block_no.
Qed.

Lemma node_kept d V V' : kept d V V' -> content_ok d V -> node_of d V' = node_of d V.
Proof using Type.
  intros Hk [C1 C2]. unfold node_of. f_equal. apply bytes_at_ext. intros i Hi. apply fbyte_kept; [done|lia|apply C2; lia].
Qed.

(** A change of the inode [inum] alone. *)
Lemma vol_step V V' inum :
  vol_ok V -> blocks_ok sb V' ->
  (forall b, inum_ok sb b -> b <> inum -> dino sb V' b = dino sb V b) ->
  (forall b, live sb V b -> b <> inum -> kept (dino sb V b) V V') ->
  (live sb V' inum -> dinode_ok (dino sb V' inum) /\ file_ok sb (dino sb V' inum) V' /\ content_ok (dino sb V' inum) V' /\
    forall i, (i < NSLOT)%nat -> slot (dino sb V' inum) V' i <> 0 ->
      used sb V (slot (dino sb V' inum) V' i) = false \/
      live sb V inum /\ exists j, (j < NSLOT)%nat /\ slot (dino sb V inum) V j = slot (dino sb V' inum) V' i) ->
  vol_ok V' /\ abs V' = upd (abs V) inum (abs V' inum).
Proof using Type.
  intros [B1 B2 B3 B4 B5] Hv Hd Hk Hown.
  assert (Hlv : forall b, b <> inum -> live sb V' b <-> live sb V b).
  { intros b Hne. unfold live. split; intros [Hb Ht]; (split; [done|]); [rewrite <-Hd|rewrite Hd]; done. }
  assert (Hoth : forall b i, live sb V b -> b <> inum -> slot (dino sb V' b) V' i = slot (dino sb V b) V i).
  { intros b i Hl Hne. rewrite Hd by (done || apply Hl). by apply slot_kept, Hk. }
  split; [split|].
  - done.
  - intros b Hl. destruct (decide (b = inum)) as [->|Hne]; [by apply Hown|]. apply Hlv in Hl; [|done].
    rewrite Hd by (done || apply Hl). by apply B2.
  - intros b Hl. destruct (decide (b = inum)) as [->|Hne]; [by apply Hown|]. apply Hlv in Hl; [|done].
    rewrite Hd by (done || apply Hl). apply (file_ok_kept _ V); auto.
  - intros b Hl. destruct (decide (b = inum)) as [->|Hne]; [by apply Hown|]. apply Hlv in Hl; [|done].
    rewrite Hd by (done || apply Hl). apply (content_ok_kept _ V); auto.
  - intros a b i j Ha Hb Hab Hi Hj.
    assert (Hcross : forall b i j, live sb V' inum -> live sb V b -> b <> inum -> (i < NSLOT)%nat -> (j < NSLOT)%nat ->
      slot (dino sb V' inum) V' i <> 0 -> slot (dino sb V' inum) V' i <> slot (dino sb V b) V j).
    { clear a b i j Ha Hb Hab Hi Hj. intros b i j Hl Hb Hne Hi Hj Hn He. destruct (Hown Hl) as (_ & _ & _ & Hnew).
      destruct (Hnew i Hi Hn) as [Hu|(Hl' & j' & Hj' & Ej)].
      - rewrite He in Hu, Hn. destruct (fo_data sb _ _ (B3 b Hb) j Hj Hn) as [_ Hu']. congruence.
      - apply (B5 inum b j' j); try done; congruence. }
    destruct (decide (a = inum)) as [->|Ha']; [|destruct (decide (b = inum)) as [->|Hb']].
    + rewrite Hlv in Hb by done. rewrite (Hoth b) by done. by apply Hcross.
    + rewrite Hlv in Ha by done. rewrite (Hoth a) by done. intros Hn He. rewrite He in Hn. by apply (Hcross a j i).
    + rewrite Hlv in Ha, Hb by done. rewrite !Hoth by done. by apply B5.
  - apply functional_extensionality. intros b. destruct (decide (b = inum)) as [->|Hne]; [by rewrite upd_same|].
    rewrite upd_other by done. destruct (live_dec V b) as [Hl|Hl].
    + rewrite !abs_live by (done || by apply Hlv). rewrite Hd by (done || apply Hl). f_equal. apply node_kept; auto.
    + rewrite !abs_dead; [done|done|]. by rewrite Hlv.
Qed.

(** ** The changes of fs.c *)

(** A write into a file. *)
Lemma updated_data V inum d' V' off bs :
  let d := dino sb V inum in
  0 <= off <= d_size d -> file_updated sb inum d V d' V' off bs ->
  fbytes d' V' 0 (Z.to_nat (d_size d')) = splice (Z.to_nat off) bs (fbytes d V 0 (Z.to_nat (d_size d))).
Proof using Type.
  intros d Ho Hu. pose proof Hu as [U1 U2 U3 U4 U5 U6 U7 U8 U9 U10 U11 U12 U13].
  assert (Hsz : d_size d' = Z.max (d_size d) (off + Z.of_nat (length bs))) by (by rewrite U6).
  apply list_eq. intros i. rewrite lookup_splice by (rewrite length_fbytes; lia).
  destruct (decide (i < Z.to_nat (d_size d'))%nat) as [Hi|Hi].
  2: { rewrite lookup_ge_None_2 by (rewrite length_fbytes; lia). rewrite decide_False by lia.
       symmetry. apply lookup_ge_None_2. rewrite length_fbytes. lia. }
  rewrite lookup_fbytes by done. case_decide as Hin.
  - apply (f_equal (lookup (i - Z.to_nat off)%nat)) in U7. rewrite lookup_fbytes in U7 by lia. rewrite <-U7.
    do 2 f_equal. lia.
  - rewrite lookup_fbytes by lia. f_equal. rewrite !Z.add_0_l. apply U8; lia.
Qed.

Lemma updated_vol V inum d' V' off bs :
  let d := dino sb V inum in
  vol_ok V -> live sb V inum -> 0 <= off <= d_size d -> file_updated sb inum d V d' V' off bs ->
  vol_ok V' /\ live sb V' inum /\
  abs V' = upd (abs V) inum (Some (set_data (splice (Z.to_nat off) bs (n_data (node_of d V))) (node_of d V))).
Proof using Hsb.
  intros d Hok Hl Ho Hu. pose proof Hu as [U1 U2 U3 U4 U5 U6 U7 U8 U9 U10 U11 U12 U13].
  pose proof (data_start_pos sb Hsb) as Hpos.
  assert (Hl' : live sb V' inum).
  { split; [apply Hl|]. rewrite U5, U6. apply Hl. }
  destruct (vol_step V V' inum Hok U1 U11) as [H1 H2].
  - intros b Hb Hne i Hi Hn. destruct (fo_data sb _ _ (vo_file _ Hok b Hb) i Hi Hn) as [D1 D2]. split.
    + apply U13; [done|done|]. intros j Hj Ej. apply (vo_disjoint _ Hok b inum i j); done.
    + apply U12; [lia|done].
  - intros _. rewrite U5. split_and!; try done. intros i Hi Hn.
    destruct (decide (slot d V i = 0)) as [Hz|Hz]; [left; by apply U10|right]. split; [done|].
    exists i. split; [done|]. symmetry. by apply U9.
  - split_and!; [done|done|]. rewrite H2, abs_live by done. do 2 f_equal. rewrite U5. unfold node_of, set_data.
    cbn [n_type n_major n_minor n_nlink n_data]. rewrite (updated_data V inum d' V' off bs) by done. by rewrite U6.
Qed.

Lemma kept_data V V' d : file_ok sb d V -> (forall b, data_start sb <= b -> V' b = V b) ->
  (forall b, data_start sb <= b < sb_size sb -> used sb V b = true -> used sb V' b = true) -> kept d V V'.
Proof using Type. intros Hf Hd Hu i Hi Hn. destruct (fo_data sb _ _ Hf i Hi Hn). split; [apply Hd; lia|by apply Hu]. Qed.

(** A dinode that is written with the blocks it has. *)
Lemma put_vol V inum x :
  let d := dino sb V inum in
  vol_ok V -> live sb V inum -> dinode_ok x -> d_size x = d_size d -> d_addrs x = d_addrs d -> d_type x <> 0 ->
  vol_ok (put_dino sb x inum V) /\ live sb (put_dino sb x inum V) inum /\
  dino sb (put_dino sb x inum V) inum = x /\
  abs (put_dino sb x inum V) =
    upd (abs V) inum (Some (Node (d_type x) (d_major x) (d_minor x) (d_nlink x) (n_data (node_of d V)))).
Proof using Hsb.
  intros d Hok Hl Hx Hsz Ha Hty. pose proof (vo_blocks _ Hok) as Hv. pose proof (bitmap_before_data sb Hsb) as Hbd.
  pose proof (data_start_pos sb Hsb) as Hpos. set (V' := put_dino sb x inum V). pose proof (proj1 Hl) as Hi.
  assert (Edi : dino sb V' inum = x) by (unfold V'; rewrite dino_put by done; by rewrite decide_True).
  assert (Hl' : live sb V' inum) by (split; [done|by rewrite Edi]).
  assert (Hdat : forall b, data_start sb <= b -> V' b = V b) by (intros; apply put_dino_data; [done|done|lia]).
  assert (Hus : forall b, data_start sb <= b < sb_size sb -> used sb V b = true -> used sb V' b = true).
  { intros b Hb. unfold V'. rewrite used_put_dino by (done || lia). done. }
  assert (Hk : kept d V V') by (apply kept_data; [by apply vo_file|done|done]).
  assert (Hs : forall i, slot x V' i = slot d V i).
  { intros i. rewrite <-(slot_kept d V V') by done. unfold slot. by rewrite Ha. }
  assert (Hf : forall o, fbyte x V' o = fbyte d V' o) by (intros; unfold fbyte, fblock, slot; by rewrite Ha).
  destruct (vol_step V V' inum Hok) as [H1 H2].
  - by apply blocks_ok_put_dino.
  - intros b Hb Hne. unfold V'. rewrite dino_put by done. by rewrite decide_False.
  - intros b Hb Hne. apply kept_data; [by apply vo_file|done|done].
  - intros _. rewrite Edi. destruct (vo_file _ Hok _ Hl) as [F1 F2]. destruct (vo_content _ Hok _ Hl) as [C1 C2]. split_and!; [done| | |].
    + split; [intros i Hi'|intros i j Hi' Hj']; rewrite ?Hs; [|by apply F2]. intros Hn. split; [by apply F1|].
      apply Hus; by apply F1.
    + split; [by rewrite Hsz|]. intros o. rewrite Hsz. unfold mapped. rewrite Hs. apply C2.
    + intros i Hi' _. right. split; [done|]. exists i. by rewrite Hs.
  - split_and!; try done. rewrite H2, abs_live by done. do 2 f_equal. rewrite Edi. unfold node_of. cbn [n_data]. f_equal.
    rewrite Hsz. apply bytes_at_ext. intros i Hi'. rewrite Hf. destruct (vo_content _ Hok _ Hl) as [C1 C2]. fold d in C1, C2.
    apply fbyte_kept; [done|lia|apply C2; fold d; lia].
Qed.

(** An inode that is freed with its blocks. *)
Lemma truncated_vol V inum x V' :
  vol_ok V -> live sb V inum -> truncated sb V (dino sb V inum) inum x V' -> d_type x = 0 ->
  vol_ok V' /\ abs V' = upd (abs V) inum None.
Proof using Hsb.
  intros Hok Hl [R1 R2 R3 R4 R5] Hx.
  assert (Hn' : ~ live sb V' inum) by (intros [_ Ht]; by rewrite R2 in Ht).
  destruct (vol_step V V' inum Hok R1 R5) as [H1 H2].
  - intros b Hb Hne i Hi Hn. destruct (fo_data sb _ _ (vo_file _ Hok b Hb) i Hi Hn) as [D1 D2].
    split; [apply R4; apply D1|]. rewrite R3, D2 by done. apply negb_true_iff, bool_decide_eq_false.
    intros Hin. apply list_elem_of_In, in_map_iff in Hin as (j & Ej & Hj). apply in_seq in Hj.
    by apply (vo_disjoint _ Hok b inum i j Hb Hl Hne Hi ltac:(lia) Hn).
  - done.
  - split; [done|]. by rewrite H2, abs_dead.
Qed.

(** A dinode that [ialloc] takes. *)
Definition fresh_dinode (type : Z) : dinode := Dinode type 0 0 0 0 (repeat 0 (NDIRECT + 1)).

Lemma slot_cleared type V i : slot (fresh_dinode type) V i = 0.
Proof using Type.
  assert (Hz : forall j, nth j (repeat 0 (NDIRECT + 1)) 0 = 0) by (intros; apply nth_repeat).
  unfold slot, fresh_dinode. cbn [d_addrs]. rewrite !Hz. by destruct (i <=? NDIRECT)%nat.
Qed.

Lemma fresh_vol V inum type V' :
  vol_ok V -> ~ live sb V inum -> inum_ok sb inum -> short type -> type <> 0 -> blocks_ok sb V' ->
  (forall b, inum_ok sb b -> b <> inum -> dino sb V' b = dino sb V b) -> dino sb V' inum = fresh_dinode type ->
  (forall b, b <> IBLOCK inum sb -> V' b = V b) ->
  vol_ok V' /\ live sb V' inum /\ abs V' = upd (abs V) inum (Some (Node type 0 0 0 [])).
Proof using Hsb.
  intros Hok Hn Hi Hty Hnz Hv Hoth Edi Hblk. pose proof (IBLOCK_range sb Hsb inum Hi) as [_ Hib].
  pose proof (bitmap_before_data sb Hsb) as Hbd. pose proof (data_start_pos sb Hsb) as Hpos.
  assert (Hl' : live sb V' inum) by (split; [done|by rewrite Edi]).
  destruct (vol_step V V' inum Hok Hv Hoth) as [H1 H2].
  - intros b Hb _. apply kept_data; [by apply vo_file|intros; apply Hblk; lia|].
    intros b' Hb'. unfold used. rewrite Hblk; [done|]. pose proof (BBLOCK_range sb Hsb b' ltac:(lia)). lia.
  - intros _. rewrite Edi. split_and!.
    + split; cbn [fresh_dinode d_type d_major d_minor d_nlink d_size d_addrs]; try done; unfold short, uint; try lia.
      apply List.Forall_forall. intros a Ha. apply List.repeat_spec in Ha. lia.
    + split; intros i *; rewrite slot_cleared; done.
    + split; [cbn [d_size fresh_dinode]; unfold MAXFILE, BSIZE, NDIRECT, NINDIRECT; lia|]. cbn [d_size fresh_dinode]. lia.
    + intros i _. by rewrite slot_cleared.
  - split_and!; [done|done|]. rewrite H2, abs_live by done. by rewrite Edi.
Qed.
End volume.
