(* ===== verification/FsFrame.v ===== *)
(** * What the file system leaves alone

    The operations of fs.c and the bodies of the system calls on it change the
    rest of the kernel only through the copies to and from user memory: a
    frame lemma for each of them, for any relation [R] on states that holds
    whenever the rest of the kernel stays the same. *)

From S2P Require Import Prelude Bytes Locks Bio Log Fs.

Section frame.
Context {E : Type} `{CE : CopyEnv E} (pid : Z) (R : fstate E -> fstate E -> Prop) `{PR : !PreOrder R}.
Context (Hsame : forall s s', fenv s' = fenv s -> R s s').

Lemma moves_lift {A} (m : M lstate A) : moves R (lift m).
Proof using Hsame. apply (moves_zoom R (fun _ _ => True)); [intros; by apply Hsame|]. by intros s a s'. Qed.
Lemma moves_get_inode ip : moves R (get_inode ip).
Proof using PR. by apply moves_gets. Qed.
Lemma moves_change_inode ip f : moves R (change_inode ip f).
Proof using Hsame. apply moves_modify. intros s. by apply Hsame. Qed.
Lemma moves_ilock_acquire ip : moves R (ilock_acquire pid ip).
Proof using Hsame. intros s a s'. unfold ilock_acquire. destruct (acquiresleep _ _); try done. intros [= _ <-]. by apply Hsame. Qed.

#[local] Hint Resolve moves_lift moves_get_inode moves_change_inode moves_ilock_acquire : moves.

Lemma moves_iget dev inum : moves R (iget dev inum).
Proof using PR Hsame. unfold iget. moves. Qed.
Lemma moves_idup ip : moves R (idup ip).
Proof using PR Hsame. unfold idup. moves. Qed.
Lemma moves_iupdate ip : moves R (iupdate pid ip).
Proof using PR Hsame. unfold iupdate. moves. Qed.
Lemma moves_ilock ip : moves R (ilock pid ip).
Proof using PR Hsame. unfold ilock. moves. Qed.
Lemma moves_iunlock ip : moves R (iunlock pid ip).
Proof using PR Hsame. unfold iunlock. moves. Qed.
#[local] Hint Resolve moves_iget moves_idup moves_iupdate moves_ilock moves_iunlock : moves.

Lemma moves_ialloc dev type : moves R (ialloc pid dev type).
Proof using PR Hsame. unfold ialloc. moves. Qed.
Lemma moves_alloc_addr ip k : moves R (alloc_addr pid ip k).
Proof using PR Hsame. unfold alloc_addr. moves. Qed.
#[local] Hint Resolve moves_ialloc moves_alloc_addr : moves.
Lemma moves_bmap ip bn : moves R (bmap pid ip bn).
Proof using PR Hsame. unfold bmap. moves. Qed.
Lemma moves_itrunc ip : moves R (itrunc pid ip).
Proof using PR Hsame. unfold itrunc. moves. Qed.
#[local] Hint Resolve moves_bmap moves_itrunc : moves.
Lemma moves_iput ip : moves R (iput pid ip).
Proof using PR Hsame. unfold iput. moves. Qed.
#[local] Hint Resolve moves_iput : moves.
Lemma moves_iunlockput ip : moves R (iunlockput pid ip).
Proof using PR Hsame. unfold iunlockput. moves. Qed.
Lemma moves_stati ip : moves R (stati ip).
Proof using PR Hsame. unfold stati. moves. Qed.
#[local] Hint Resolve moves_iunlockput moves_stati : moves.

(** Reads into and writes from the kernel's own buffers. *)
Lemma moves_readi_kernel ip dst off n : moves R (readi pid ip false dst off n).
Proof using PR Hsame.
  assert (Hl : forall left dst off n tot acc, moves R (readi_loop pid ip false dst off n tot acc left)).
  { induction left as [|left IH]; intros; simpl; moves. }
  unfold readi. moves.
Qed.
Lemma moves_writei_kernel ip bs off n : moves R (writei pid ip (SKernel bs) off n).
Proof using PR Hsame.
  assert (Hl : forall left bs off n tot, moves R (writei_loop pid ip (SKernel bs) off n tot left)).
  { induction left as [|left IH]; intros; simpl; moves. }
  unfold writei. moves.
Qed.
#[local] Hint Resolve moves_readi_kernel moves_writei_kernel : moves.

Lemma moves_dirlookup dp name : moves R (dirlookup pid dp name).
Proof using PR Hsame.
  assert (Hl : forall left off, moves R (dirlookup_loop pid dp name off left)).
  { induction left as [|left IH]; intros; simpl; moves. }
  unfold dirlookup. moves.
Qed.
#[local] Hint Resolve moves_dirlookup : moves.
Lemma moves_dirlink dp name inum : moves R (dirlink pid dp name inum).
Proof using PR Hsame.
  assert (Hl : forall left off, moves R (dirlink_loop pid dp off left)).
  { induction left as [|left IH]; intros; simpl; moves. }
  unfold dirlink. moves.
Qed.
Lemma moves_namex cwd path parent : moves R (namex pid cwd path parent).
Proof using PR Hsame.
  assert (Hl : forall left path name ip, moves R (namex_loop pid parent path name ip left)).
  { induction left as [|left IH]; intros; simpl; moves. }
  unfold namex. moves.
Qed.
#[local] Hint Resolve moves_dirlink moves_namex : moves.
Lemma moves_namei cwd path : moves R (namei pid cwd path).
Proof using PR Hsame. unfold namei. moves. Qed.
Lemma moves_nameiparent cwd path : moves R (nameiparent pid cwd path).
Proof using PR Hsame. unfold nameiparent. moves. Qed.

(** Reads and writes of user memory, where the copies stay within [R]. *)
Context (Hout : forall a bs, moves R (lenv (ucopyout a bs))) (Hin : forall a n, moves R (lenv (ucopyin a n))).
#[local] Hint Resolve Hout Hin : moves.
Lemma moves_readi ip u dst off n : moves R (readi pid ip u dst off n).
Proof using PR Hsame Hout.
  destruct u; [|apply moves_readi_kernel].
  assert (Hl : forall left dst off n tot acc, moves R (readi_loop pid ip true dst off n tot acc left)).
  { induction left as [|left IH]; intros; simpl; moves. }
  unfold readi. moves.
Qed.
Lemma moves_writei ip src off n : moves R (writei pid ip src off n).
Proof using PR Hsame Hin.
  assert (Hl : forall left src off n tot, moves R (writei_loop pid ip src off n tot left)).
  { induction left as [|left IH]; intros; simpl; unfold either_copyin; moves. }
  unfold writei. moves.
Qed.
End frame.

(** The frame lemmas, for goals [moves R m] with a hypothesis that [R] holds
    when the rest of the kernel stays the same. *)
#[export] Hint Resolve moves_lift moves_get_inode moves_change_inode moves_iget moves_idup moves_iupdate moves_ilock
  moves_iunlock moves_ialloc moves_itrunc moves_iput moves_iunlockput moves_stati moves_readi_kernel
  moves_writei_kernel moves_dirlookup moves_dirlink moves_namei moves_nameiparent : moves.
