(* ===== verification/File.v ===== *)
(** * kernel/file.c: open files

    The table of open files over the file system, the pipes and the devices.
    ftable.lock makes [filealloc], [filedup] and the first part of [fileclose]
    atomic. *)

From stdpp Require Import relations.
From S2P Require Import Prelude Bytes Locks Bio Log LogCrash Fs FsBlocks FsInode FsFile FsData FsOps.

Definition NFILE : nat := 100.
Definition NDEV : Z := 10.

Inductive ftype := FD_NONE | FD_PIPE | FD_INODE | FD_DEVICE.

(** struct file. *)
Record file := File {
  f_type : ftype;
  f_ref : Z;
  f_readable : bool;
  f_writable : bool;
  f_pipe : Z;
  f_ip : nat;
  f_off : Z;
  f_major : Z;
}.

Definition fset_type (v : ftype) (x : file) : file :=
  File v (f_ref x) (f_readable x) (f_writable x) (f_pipe x) (f_ip x) (f_off x) (f_major x).
Definition fset_ref (v : Z) (x : file) : file :=
  File (f_type x) v (f_readable x) (f_writable x) (f_pipe x) (f_ip x) (f_off x) (f_major x).
Definition fset_off (v : Z) (x : file) : file :=
  File (f_type x) (f_ref x) (f_readable x) (f_writable x) (f_pipe x) (f_ip x) v (f_major x).

(** The pipes of pipe.c and the device switch, as calls of the process whose
    environment is [E]: a call on a pipe returns when it has stopped
    sleeping. *)
Class DevEnv (E : Type) := {
  pipe_close : Z -> bool -> M E unit;
  pipe_read : Z -> Z -> Z -> M E Z;
  pipe_write : Z -> Z -> Z -> M E Z;
  dev_read : Z -> option (Z -> Z -> M E Z);
  dev_write : Z -> option (Z -> Z -> M E Z);
}.

Record fsys (E : Type) := FSys {
  ffs : fstate E;
  ftable : nat -> file;
}.
Arguments FSys {E}.
Arguments ffs {E}.
Arguments ftable {E}.

Section file.
Context {E : Type} `{CE : CopyEnv E} `{DE : DevEnv E} (pid : Z).
Abbreviation S := (fsys E).

Definition set_ffs (x : fstate E) (s : S) : S := FSys x (ftable s).
Definition set_file (f : nat) (g : file -> file) (s : S) : S :=
  FSys (ffs s) (upd (ftable s) f (g (ftable s f))).

Definition fsdo {A} (m : M (fstate E) A) : M S A := zoom ffs set_ffs m.
Definition get_file (f : nat) : M S file := gets (fun s => ftable s f).
Definition change_file (f : nat) (g : file -> file) : M S unit := modify (set_file f g).

Definition filealloc : M S (option nat) :=
  let! o := gets (fun s => List.find (fun f => f_ref (ftable s f) =? 0) (seq 0 NFILE)) in
  match o with
  | Some f => change_file f (fset_ref 1) ;; ret (Some f)
  | None => ret None
  end.

Definition filedup (f : nat) : M S nat :=
  let! x := get_file f in
  if f_ref x <? 1 then panic "filedup"
  else change_file f (fun x => fset_ref (i32 (f_ref x + 1)) x) ;; ret f.

Definition fileclose (f : nat) : M S unit :=
  let! x := get_file f in
  if f_ref x <? 1 then panic "fileclose"
  else
    change_file f (fun x => fset_ref (i32 (f_ref x - 1)) x) ;;
    let! ff := get_file f in
    if 0 <? f_ref ff then ret tt
    else
      change_file f (fset_ref 0) ;;
      change_file f (fset_type FD_NONE) ;;
      match f_type ff with
      | FD_PIPE => fsdo (lenv (pipe_close (f_pipe ff) (f_writable ff)))
      | FD_INODE | FD_DEVICE =>
          fsdo (lift begin_op) ;;
          fsdo (iput pid (f_ip ff)) ;;
          fsdo (lift (end_op pid))
      | FD_NONE => ret tt
      end.

(** The bytes of a struct stat; [pad] is what the stack holds where the
    structure has a gap. *)
Definition stat_bytes (pad : list Z) (st : stat) : list Z :=
  le_bytes 4 (u32 (st_dev st)) ++ le_bytes 4 (st_ino st) ++ le_bytes 2 (u16 (st_type st)) ++
  le_bytes 2 (u16 (st_nlink st)) ++ pad ++ le_bytes 8 (st_size st).

Definition filestat (pad : list Z) (f : nat) (addr : Z) : M S Z :=
  let! x := get_file f in
  match f_type x with
  | FD_INODE | FD_DEVICE =>
      fsdo (ilock pid (f_ip x)) ;;
      let! st := fsdo (stati (f_ip x)) in
      fsdo (iunlock pid (f_ip x)) ;;
      let! r := fsdo (lenv (ucopyout addr (stat_bytes pad st))) in
      if r <? 0 then ret (-1) else ret 0
  | _ => ret (-1)
  end.

Definition fileread (f : nat) (addr n : Z) : M S Z :=
  let! x := get_file f in
  if negb (f_readable x) then ret (-1)
  else
    match f_type x with
    | FD_PIPE => fsdo (lenv (pipe_read (f_pipe x) addr n))
    | FD_DEVICE =>
        if (f_major x <? 0) || (NDEV <=? f_major x) then ret (-1)
        else match dev_read (f_major x) with
             | None => ret (-1)
             | Some read => fsdo (lenv (read addr n))
             end
    | FD_INODE =>
        fsdo (ilock pid (f_ip x)) ;;
        let! rd := fsdo (readi pid (f_ip x) true addr (f_off x) (u32 n)) in
        let r := i32 (fst rd) in
        (when! 0 <? r do change_file f (fun x => fset_off (u32 (f_off x + r)) x)) ;;
        fsdo (iunlock pid (f_ip x)) ;;
        ret r
    | FD_NONE => panic "fileread"
    end.

(** The most one transaction of [filewrite] writes. *)
Definition max_write : Z := (MAXOPBLOCKS - 1 - 1 - 2) / 2 * BSIZE.

(** One transaction of it. *)
Definition write_chunk (f : nat) (addr n1 : Z) : M S Z :=
  fsdo (lift begin_op) ;;
  let! x := get_file f in
  fsdo (ilock pid (f_ip x)) ;;
  let! r := fsdo (writei pid (f_ip x) (SUser addr) (f_off x) n1) in
  (when! 0 <? r do change_file f (fun x => fset_off (u32 (f_off x + r)) x)) ;;
  fsdo (iunlock pid (f_ip x)) ;;
  fsdo (lift (end_op pid)) ;;
  ret r.

(** The loop of [filewrite]: the value of i it ends with. *)
Fixpoint filewrite_loop (f : nat) (addr n i : Z) (left : nat) : M S Z :=
  if negb (i <? n) then ret i
  else
    match left with
    | O => out_of_fuel
    | Datatypes.S left' =>
        let n1 := if max_write <? n - i then max_write else n - i in
        let! r := write_chunk f (u64 (addr + i)) n1 in
        if negb (r =? n1) then ret i else filewrite_loop f addr n (i + r) left'
    end.

Definition filewrite (f : nat) (addr n : Z) : M S Z :=
  let! x := get_file f in
  if negb (f_writable x) then ret (-1)
  else
    match f_type x with
    | FD_PIPE => fsdo (lenv (pipe_write (f_pipe x) addr n))
    | FD_DEVICE =>
        if (f_major x <? 0) || (NDEV <=? f_major x) then ret (-1)
        else match dev_write (f_major x) with
             | None => ret (-1)
             | Some write => fsdo (lenv (write addr n))
             end
    | FD_INODE =>
        let! i := filewrite_loop f addr n 0 (Z.to_nat n) in
        ret (if i =? n then n else -1)
    | FD_NONE => panic "filewrite"
    end.
End file.

(** ** Reading and writing inodes through open files *)

Section specs.
Context {E : Type} `{CO : CopyOk E} `{DE : !DevEnv E} (pid dev : Z) (sb : superblock) (Hsb : sb_ok sb).
Context (Hdev : dev <> 0) (Hlog : MAXOPBLOCKS + 1 < sb_nlog sb) (Hone : sb_size sb <= BPB).

Lemma wp_fsdo {A} (m : M (fstate E) A) (Q : A -> fsys E -> Prop) s :
  wp m (fun a x => Q a (FSys x (ftable s))) (ffs s) -> wp (fsdo m) Q s.
Proof using Type. apply (wp_zoom ffs set_ffs m Q s). Qed.

(** Inode [inum] is in use on disk [D], with contents. *)
Record file_good (D : Z -> block) (inum : Z) (d : dinode) : Prop := {
  fg_blocks : blocks_ok sb D;
  fg_inum : inum_ok sb inum;
  fg_disk : dino sb D inum = d;
  fg_dinode : dinode_ok d;
  fg_type : d_type d <> 0;
  fg_file : file_ok sb d D;
  fg_content : content_ok d D;
}.

(** Its entry in the inode table, not locked. *)
Record entry_idle (x : inode) (inum : Z) (d : dinode) : Prop := {
  ei_dev : i_dev x = dev;
  ei_inum : i_inum x = inum;
  ei_ref : 1 <= i_ref x;
  ei_lock : slocked (i_lock x) = false;
  ei_d : i_valid x = true -> i_d x = d;
}.

(** What a boot finds after a crash during the writes [w] to disk [D]. *)
Definition crash_leaves (D : Z -> block) (w : list (Z * block)) (P : (Z -> block) -> Prop) : Prop :=
  forall w1 w2 D2, w = w1 ++ w2 ->
    rtc (crash_step pid dev (sb_logstart sb) (sb_nlog sb)) (apply_writes w1 D) D2 ->
    exists t, boot_log pid dev (sb_logstart sb) (sb_nlog sb) (boot_lstate D2) = Ret (tt, t) /\
      committed dev (sb_logstart sb) (sb_nlog sb) (disk (bc t)) t /\ P (disk (bc t)).

Lemma crash_leaves_app D w w' (P P' : (Z -> block) -> Prop) :
  crash_leaves D w P -> crash_leaves (apply_writes w D) w' P' -> (forall D', P' D' -> P D') ->
  crash_leaves D (w ++ w') P.
Proof using Type.
  intros H H' HP w1 w2 D2 Ew Hr. apply app_eq_inv in Ew as [(k & -> & ->)|(k & -> & ->)].
  - by apply (H w1 k D2).
  - rewrite apply_app in Hr. destruct (H' k w2 D2 eq_refl Hr) as (t & T1 & T2 & T3). exists t. auto.
Qed.

(** The file at the end of a chunk: [filewrite] commits every [max_write] bytes,
    and at the end, with [fin] bytes written. *)
Definition chunk_end (fin m : Z) : Prop := m = fin \/ 0 <= m <= fin /\ m mod max_write = 0.
Definition chunks_written (inum : Z) (d : dinode) (D : Z -> block) (off a fin : Z) (e : E) (D' : Z -> block) : Prop :=
  exists m d', chunk_end fin m /\ file_updated sb inum d D d' D' off (load a (Z.to_nat m) e).

(** The file and the table after [m] more bytes. *)
Record wrote_bytes (D : Z -> block) (T : nat -> inode) (e : E) (f ip : nat) (inum : Z) (d : dinode) (x : file)
    (a n m : Z) (s s' : fsys E) : Prop := {
  wb_range : 0 <= m <= n;
  wb_full : m < n -> full sb (fdisk (ffs s'));
  wb_file : exists d' y, file_updated sb inum d D d' (fdisk (ffs s')) (f_off x) (load a (Z.to_nat m) e) /\
    entry_idle y inum d' /\ fidle dev sb (fdisk (ffs s')) (upd T ip y) e (ffs s');
  wb_table : ftable s' = upd (ftable s) f (fset_off (f_off x + m) x);
  wb_crash : exists w, fwrites (ffs s') = fwrites (ffs s) ++ w /\ fdisk (ffs s') = apply_writes w D /\
    crash_leaves D w (chunks_written inum d D (f_off x) a m e);
}.

Lemma nblocks_max off n : 0 <= off -> n <= max_write -> nblocks off n <= 4.
Proof using Type.
  unfold nblocks. change max_write with 3072. unfold BSIZE. intros Ho Hn. destruct (Z.leb_spec n 0); lia.
Qed.

(** The transaction has room for the bitmap block, the indirect block, the
    data blocks and the inode. *)
Lemma chunk_fits d off n : 0 <= off -> n <= max_write ->
  cost (sb_bmapstart sb) [] + indcost d [] + nblocks off n + 1 <= MAXOPBLOCKS.
Proof using Type.
  intros Ho Hn. pose proof (nblocks_max off n Ho Hn). pose proof (cost_range (sb_bmapstart sb) []).
  pose proof (indcost_range d []). unfold MAXOPBLOCKS. lia.
Qed.

(** [f->off += r] for a transfer of [m] bytes. *)
Lemma wp_advance f m (s : fsys E) :
  0 <= m -> 0 <= f_off (ftable s f) -> (0 < m -> f_off (ftable s f) + m < 2 ^ 32) ->
  wp (when! 0 <? m do change_file f (fun x => fset_off (u32 (f_off x + m)) x))
    (fun _ s' => s' = FSys (ffs s) (upd (ftable s) f (fset_off (f_off (ftable s f) + m) (ftable s f)))) s.
Proof using Type.
  intros Hm Ho Hw. destruct (Z.ltb_spec 0 m) as [Hpos|Hz].
  - apply wp_modify. unfold set_file. rewrite u32_id by lia. done.
  - apply wp_ret. destruct s as [x g]. cbn [ffs ftable] in *. f_equal. apply functional_extensionality. intros j.
    upd_cases j f; [|done]. replace m with 0 by lia. rewrite Z.add_0_r. by destruct (g f).
Qed.

Lemma write_chunk_spec D T e f inum d x a n1 s :
  ftable s f = x -> fidle dev sb D T e (ffs s) -> file_good D inum d -> entry_idle (T (f_ip x)) inum d ->
  0 <= f_off x <= d_size d -> 0 <= n1 <= max_write -> f_off x + n1 <= MAXFILE * BSIZE -> src_ok (SUser a) n1 ->
  wp (write_chunk pid f a n1) (fun m s' => wrote_bytes D T e f (f_ip x) inum d x a n1 m s s') s.
Proof using CO Hsb Hdev Hlog Hone.
  intros Hx Hi [G1 G2 G3 G4 G5 G6 G7] [I1 I2 I3 I4 I5] Hoff Hn Hmax Hsrc. set (ip := f_ip x) in *.
  assert (Hsm : f_off x + n1 < 2 ^ 32) by (unfold MAXFILE, BSIZE, NDIRECT, NINDIRECT in *; lia).
  unfold write_chunk. apply wp_bind, wp_fsdo. eapply fs_begin; [done|done|exact Hi|]. intros s1 H1.
  apply wp_bind, wp_gets. cbn [ftable]. rewrite Hx. fold ip. apply wp_bind, wp_fsdo. cbn [ffs ftable].
  eapply wp_mono; [apply (ilock_spec pid dev _ sb _ _ _ _ _ ip s1 H1); [done|lia|done|]|].
  { intros _. rewrite I2, G3. done. }
  intros [] s2 H2. unfold locked_inode in H2. rewrite I2, G3 in H2.
  assert (Ed : (if i_valid (T ip) then i_d (T ip) else d) = d) by (destruct (i_valid (T ip)); auto).
  rewrite Ed in H2. set (y1 := Inode _ _ _ _ _ _) in H2.
  apply wp_bind, wp_fsdo. cbn [ffs ftable].
  eapply wp_mono; [apply (writei_spec pid dev _ sb Hsb Hone _ _ _ _ _ ip (SUser a) (f_off x) n1 s2 H2);
    rewrite ?upd_same; unfold y1; cbn [i_dev i_inum i_d]; try done; try lia; apply chunk_fits; lia|].
  rewrite upd_same. intros m s3 (V & L & k & d' & Hm & H3 & Hup & Hfull & _). rewrite upd_upd in H3.
  assert (Hfl : m < n1 -> full sb V) by (intros; by apply Hfull). clear Hfull. rename Hfl into Hfull.
  change (i_inum y1) with inum in Hup. change (i_d y1) with d in Hup.
  apply wp_bind. eapply wp_mono; [apply wp_advance; cbn [ftable]; rewrite ?Hx; lia|]. cbn [ffs ftable]. rewrite Hx.
  intros [] s4 ->. apply wp_bind, wp_fsdo. cbn [ffs ftable].
  eapply wp_mono; [apply (iunlock_spec pid dev _ sb _ _ _ _ _ ip s3 H3); rewrite upd_same; unfold y1;
    cbn [with_d iset_d i_lock i_ref]; [done|lia]|].
  rewrite upd_same, upd_upd. intros [] s5 H5. apply wp_bind, wp_fsdo. cbn [ffs ftable].
  eapply (fs_end pid dev sb Hsb Hdev D); [apply Hi|apply Hi|exact H5|].
  intros w s6 Hw (F1 & F2 & F3 & F4 & F5). apply wp_ret.
  assert (SD : sized D) by exact (bo_len _ _ G1).
  assert (SV : sized V) by exact (bo_len _ _ (up_blocks _ _ _ _ _ _ _ _ Hup)).
  specialize (F4 SD SV).
  split; cbn [ffs ftable]; try done.
  - intros Hlt b Hb. rewrite (used_agree sb Hsb V) by done. by apply Hfull.
  - eexists d', _. split; [|split; [|exact F1]].
    + apply (file_updated_agree sb Hsb _ _ _ _ V); [exact G2|lia|exact F3|exact F4|exact Hup].
    + split; unfold y1; cbn [iset_lock with_d iset_d i_dev i_inum i_ref i_lock i_valid i_d]; done || lia.
  - exists w. split_and!; [done|done|]. intros w1 w2 D2 Ew Hr.
    destruct (F5 w1 w2 D2 Ew Hr) as (t & T1 & T2 & T3 & T4). exists t. split; [done|]. split; [done|].
    specialize (T3 SD SV).
    destruct T4 as [T4|T4].
    + exists 0, d. split; [right; split; [lia|done]|]. replace (load a (Z.to_nat 0) e) with (@nil Z)
        by (symmetry; apply nil_length_inv, length_load).
      apply (file_updated_agree sb Hsb _ _ _ _ D); [exact G2|lia|exact T4|exact T3|]. by apply updated_refl.
    + exists m, d'. split; [by left|]. apply (file_updated_agree sb Hsb _ _ _ _ V); [exact G2|lia|exact T4|exact T3|exact Hup].
Qed.

Lemma updated_good inum d D d' D' off bs :
  file_good D inum d -> file_updated sb inum d D d' D' off bs -> file_good D' inum d'.
Proof using Type.
  intros [G1 G2 G3 G4 G5 G6 G7] [U1 U2 U3 U4 U5 U6 U7 U8 U9 U10 U11 U12 U13]. split; try done. rewrite U6. done.
Qed.

(** A chunk that was written, then more. *)
Lemma wrote_bytes_trans D T e f ip inum d x a n1 n2 m2 s s1 s2 d1 y1 :
  let D1 := fdisk (ffs s1) in
  file_updated sb inum d D d1 D1 (f_off x) (load a (Z.to_nat n1) e) ->
  wrote_bytes D T e f ip inum d x a n1 n1 s s1 ->
  0 <= f_off x -> 0 <= n2 -> 0 <= n1 -> n1 = max_write \/ n2 = 0 ->
  wrote_bytes D1 (upd T ip y1) e f ip inum d1 (fset_off (f_off x + n1) x) (a + n1) n2 m2 s1 s2 ->
  wrote_bytes D T e f ip inum d x a (n1 + n2) (n1 + m2) s s2.
Proof using CO Hsb.
  intros D1 Hu [A1 A2 _ A4 (w1 & A5 & A6 & A7)] Hoff Hn2 Hn1 Hchunk
    [B1 B2 (d2 & y2 & B3 & B3' & B3'') B4 (w2 & B5 & B6 & B7)].
  assert (Hjoin : forall m d' D', 0 <= m ->
    file_updated sb inum d1 D1 d' D' (f_off x + n1) (load (a + n1) (Z.to_nat m) e) ->
    file_updated sb inum d D d' D' (f_off x) (load a (Z.to_nat (n1 + m)) e)).
  { intros m d' D' Hm Hu'. rewrite Z2Nat.inj_add, load_app, Z2Nat.id by lia.
    eapply updated_trans; [done|done|exact Hu|]. rewrite length_load, Z2Nat.id by lia. exact Hu'. }
  split.
  - lia.
  - intros Hlt. apply B2. lia.
  - exists d2, y2. rewrite upd_upd in B3''. split_and!; [|done|done]. apply Hjoin; [lia|exact B3].
  - rewrite B4, A4, upd_upd. f_equal. unfold fset_off. simpl. f_equal. lia.
  - exists (w1 ++ w2). split_and!.
    + by rewrite B5, A5, app_assoc.
    + rewrite B6. unfold D1. rewrite A6. symmetry. apply apply_app.
    + apply (crash_leaves_app D w1 w2 _ (chunks_written inum d1 D1 (f_off x + n1) (a + n1) m2 e)).
      * intros c1 c2 D2 Ec Hr. destruct (A7 c1 c2 D2 Ec Hr) as (t & T1 & T2 & m & d' & Hm & Hu').
        exists t. split_and!; [done|done|]. exists m, d'. split; [|done].
        destruct Hm as [->|[Hm1 Hm2]]; [|right; split; [lia|done]].
        destruct Hchunk as [->| ->]; [right; split; [lia|done]|left; lia].
      * rewrite <-A6. exact B7.
      * intros D' (m & d' & Hm & Hu'). exists (n1 + m), d'.
        assert (0 <= m) by (destruct Hm as [->|[]]; lia). split; [|by apply Hjoin].
        destruct Hm as [->|[Hm1 Hm2]]; [by left|]. destruct Hchunk as [->| ->]; [right|left; lia].
        split; [lia|]. change max_write with 3072 in *. lia.
Qed.

Lemma wrote_nothing D T e f inum d x a n s :
  ftable s f = x -> fidle dev sb D T e (ffs s) -> D = fdisk (ffs s) -> file_good D inum d ->
  entry_idle (T (f_ip x)) inum d -> 0 <= f_off x <= d_size d -> n = 0 ->
  wrote_bytes D T e f (f_ip x) inum d x a n 0 s s.
Proof using CO Hsb Hdev Hlog.
  intros Hx Hi HD Hg He Hoff ->. pose proof Hg as [G1 G2 G3 G4 G5 G6 G7].
  assert (Enil : load a (Z.to_nat 0) e = []) by (apply nil_length_inv, length_load).
  split.
  - lia.
  - lia.
  - rewrite <-HD. exists d, (T (f_ip x)). rewrite Enil. split_and!; [by apply updated_refl|done|].
    replace (upd T (f_ip x) (T (f_ip x))) with T; [done|]. apply functional_extensionality. intros j. by rewrite upd_id.
  - rewrite Z.add_0_r. apply functional_extensionality. intros j. upd_cases j f; [|done]. by destruct (ftable s f).
  - exists []. split_and!; [by rewrite app_nil_r|done|]. intros w1 w2 D2 Ew Hr.
    symmetry in Ew. apply app_eq_nil in Ew as [-> ->].
    destruct (idle_crash pid dev sb Hsb Hdev Hlog D D2 (ffs s) T e Hi (bo_len _ _ G1) Hr) as (t & T1 & T2 & T3 & T4).
    exists t. split_and!; [done|done|]. exists 0, d. split; [by left|]. rewrite Enil.
    apply (file_updated_agree sb Hsb _ _ _ _ D); [exact G2|lia|exact T4|exact T3|]. by apply updated_refl.
Qed.

Lemma filewrite_loop_spec left D T e f inum d x addr n i s :
  ftable s f = x -> fidle dev sb D T e (ffs s) -> D = fdisk (ffs s) -> file_good D inum d ->
  entry_idle (T (f_ip x)) inum d ->
  0 <= f_off x <= d_size d -> 0 <= i <= n -> f_off x + (n - i) <= MAXFILE * BSIZE ->
  0 <= addr -> addr + n < 2 ^ 64 -> readable (addr + i) (n - i) -> n - i <= Z.of_nat left ->
  wp (filewrite_loop pid f addr n i left) (fun r s' => exists m,
    wrote_bytes D T e f (f_ip x) inum d x (addr + i) (n - i) m s s' /\ (r = n <-> m = n - i)) s.
Proof using CO Hsb Hdev Hlog Hone.
  revert D T d x i s. induction left as [|left IH]; intros D T d x i s Hx Hi HD Hg He Hoff Hin Hmax Ha Hw Hrd Hleft;
    cbn [filewrite_loop].
  { rewrite (proj2 (Z.ltb_ge _ _)) by lia. apply wp_ret. exists 0. split; [apply wrote_nothing; try done; lia|lia]. }
  destruct (Z.ltb_spec i n) as [Hlt|Hge]; cbn [negb].
  2: { apply wp_ret. exists 0. split; [apply wrote_nothing; try done; lia|lia]. }
  set (n1 := if max_write <? n - i then max_write else n - i).
  assert (Hn1 : 0 < n1 <= max_write /\ n1 <= n - i).
  { unfold n1. change max_write with 3072. destruct (Z.ltb_spec 3072 (n - i)); lia. }
  rewrite u64_id by lia. apply wp_bind.
  eapply wp_mono; [apply (write_chunk_spec D T e f inum d x (addr + i) n1 s); try done; try lia|].
  { split_and!; [lia|lia|]. eapply readable_sub; [exact Hrd|lia|lia|lia]. }
  intros m s1 Hw1. pose proof (wb_range _ _ _ _ _ _ _ _ _ _ _ _ _ Hw1) as Hm.
  destruct (Z.eqb_spec m n1) as [->|Hne]; cbn [negb].
  - destruct (wb_file _ _ _ _ _ _ _ _ _ _ _ _ _ Hw1) as (d1 & y1 & U1 & U2 & U3).
    assert (Hsz : d_size d1 = Z.max (d_size d) (f_off x + n1)).
    { rewrite (up_fields _ _ _ _ _ _ _ _ U1), length_load, Z2Nat.id by lia. done. }
    eapply wp_mono.
    { apply (IH (fdisk (ffs s1)) (upd T (f_ip x) y1) d1 (fset_off (f_off x + n1) x) (i + n1) s1); try done;
        cbn [fset_off f_off f_ip]; try lia.
      - rewrite (wb_table _ _ _ _ _ _ _ _ _ _ _ _ _ Hw1). by rewrite upd_same.
      - by eapply updated_good.
      - by rewrite upd_same.
      - eapply readable_sub; [exact Hrd|lia|lia|lia]. }
    cbn [fset_off f_ip]. intros r s2 (m2 & Hw2 & Hr). exists (n1 + m2). split; [|lia].
    replace (n - i) with (n1 + (n - (i + n1))) by lia.
    eapply wrote_bytes_trans; [exact U1|exact Hw1|lia|lia|lia| |].
    { unfold n1. destruct (Z.ltb_spec max_write (n - i)); [by left|right; lia]. }
    replace (addr + i + n1) with (addr + (i + n1)) by lia. exact Hw2.
  - apply wp_ret. exists m. split; [|lia]. destruct Hw1 as [W1 W2 W3 W4 W5].
    split; try done; [lia|intros _; apply W2; lia].
Qed.

Lemma nread_range size off n : 0 <= size -> 0 <= off -> 0 <= n -> 0 <= nread size off n <= n /\
  (0 < nread size off n -> off + nread size off n <= size).
Proof using Type.
  intros Hs Ho Hn. unfold nread. destruct (Z.ltb_spec size off), (Z.leb_spec (2 ^ 32) (off + n)); cbn [orb]; lia.
Qed.

Lemma fileread_spec D T e f inum d x addr n s :
  let m := nread (d_size d) (f_off x) n in
  ftable s f = x -> f_type x = FD_INODE -> f_readable x = true ->
  fidle dev sb D T e (ffs s) -> file_good D inum d -> entry_idle (T (f_ip x)) inum d ->
  uint (f_off x) -> 0 <= n < 2 ^ 31 -> 0 <= addr -> addr + n < 2 ^ 64 ->
  wp (fileread pid f addr n) (fun r s' => exists y, entry_idle y inum d /\
    fwrites (ffs s') = fwrites (ffs s) /\ fdisk (ffs s') = D /\
    ((r = m /\ ftable s' = upd (ftable s) f (fset_off (f_off x + m) x) /\
      fidle dev sb D (upd T (f_ip x) y) (store addr (fbytes d D (f_off x) (Z.to_nat m)) e) (ffs s')) \/
     (r = -1 /\ unwritable true addr n /\ ftable s' = ftable s /\
      exists e', fidle dev sb D (upd T (f_ip x) y) e' (ffs s')))) s.
Proof using CO Hsb Hlog.
  intros m Hx Hty Hrd Hi [G1 G2 G3 G4 G5 G6 G7] [I1 I2 I3 I4 I5] Ho Hn Ha Hw. unfold uint in Ho.
  set (ip := f_ip x) in *. pose proof (ct_size _ _ G7) as Hsz.
  destruct (nread_range (d_size d) (f_off x) n) as [Hm Hm']; [lia..|]. fold m in Hm, Hm'.
  assert (Hbig : MAXFILE * BSIZE < 2 ^ 31) by done.
  unfold fileread. apply wp_bind, wp_gets. rewrite Hx, Hrd, Hty. cbn [negb]. fold ip.
  apply wp_bind, wp_fsdo. eapply wp_mono; [apply (ilock_spec pid dev _ sb _ _ _ _ _ ip (ffs s) (fs_read pid dev sb Hsb Hlog D T e (ffs s) Hi)); [done|lia|done|]|].
  { intros _. rewrite I2, G3. done. }
  intros [] s2 H2. unfold locked_inode in H2. rewrite I2, G3 in H2.
  assert (Ed : (if i_valid (T ip) then i_d (T ip) else d) = d) by (destruct (i_valid (T ip)); auto).
  rewrite Ed in H2. set (y1 := Inode _ _ _ _ _ _) in H2. rewrite u32_id by lia.
  apply wp_bind, wp_fsdo. cbn [ffs ftable].
  eapply wp_mono; [apply (readi_spec pid dev _ sb _ _ _ _ _ ip true addr (f_off x) n s2 H2);
    rewrite ?upd_same; unfold y1; cbn [i_dev i_d]; try done; unfold uint; lia|].
  rewrite upd_same. change (i_d y1) with d. fold m. intros rd s3 Hrd3.
  set (y := Inode (i_dev (T ip)) inum (i_ref (T ip)) (Sleeplock false 0) true d).
  assert (Hunlock : forall e' s4 g r (Q : Z -> fsys E -> Prop), fsh pid dev (read_ctx sb D (fwrites (ffs s))) sb [] [] D [] 0 (upd T ip y1) e' s4 ->
    (forall s5, fidle dev sb D (upd T ip y) e' s5 -> fwrites s5 = fwrites (ffs s) -> fdisk s5 = D -> Q r (FSys s5 g)) ->
    wp (fsdo (iunlock pid ip) ;; ret r) Q (FSys s4 g)).
  { intros e' s4 g r Q H4 HQ. apply wp_bind, wp_fsdo. cbn [ffs ftable].
    eapply wp_mono; [apply (iunlock_spec pid dev _ sb _ _ _ _ _ ip s4 H4); rewrite upd_same; unfold y1; cbn [i_lock i_ref]; [done|lia]|].
    rewrite upd_same, upd_upd. intros [] s5 H5. apply wp_ret.
    destruct (fs_read_done pid dev sb D _ _ _ s5 (cm_head _ _ _ _ _ (fi_com _ _ _ _ _ _ Hi)) (cm_len _ _ _ _ _ (fi_com _ _ _ _ _ _ Hi)) H5)
      as (J1 & J2 & J3). by apply HQ. }
  assert (Hy : entry_idle y inum d) by (split; unfold y; cbn [i_dev i_inum i_ref i_lock i_valid i_d]; done || lia).
  cbv zeta. destruct Hrd3 as [[-> H3]|(Er & Hu & e' & H3)].
  - cbn [fst]. rewrite i32_id by lia. apply wp_bind.
    eapply wp_mono; [apply wp_advance; cbn [ftable]; rewrite ?Hx; lia|]. cbn [ffs ftable]. rewrite Hx.
    intros [] s4 ->. eapply Hunlock; [exact H3|]. intros s5 J1 J2 J3. exists y. cbn [ffs ftable].
    split_and!; try done. left. by split_and!.
  - rewrite Er. change (i32 (-1)) with (-1). cbn [Z.ltb Z.compare]. apply wp_bind, wp_ret.
    eapply Hunlock; [exact H3|]. intros s5 J1 J2 J3. exists y. cbn [ffs ftable].
    split_and!; try done. right. split_and!; try done. by exists e'.
Qed.
End specs.
