(* ===== verification/FsDemo.v ===== *)
(** * A small file system

    A disk of 100 blocks with a root directory and one file, booted, and the
    memory of a process: the concrete state the examples of the file-system
    theorems run in. *)

From S2P Require Import Prelude Bytes Locks Bio Log LogCrash Fs FsBlocks FsInode FsFile FsData FsDir FsPath FsOps.

(** ** The memory of a process: the first 64 KiB *)

Definition umem : Type := Z -> Z.
Definition umem_limit : Z := 65536.
Definition umem_ok (a n : Z) : bool := (0 <=? a) && (0 <=? n) && (a + n <=? umem_limit).
Definition umem_store (a : Z) (bs : list Z) (e : umem) : umem :=
  fun j => if (a <=? j) && (j <? a + Z.of_nat (length bs)) then nth (Z.to_nat (j - a)) bs 0 else e j.
Definition umem_load (a : Z) (n : nat) (e : umem) : list Z := bytes_at e a n.

#[export] Instance umem_env : CopyEnv umem := {
  ucopyout := fun a bs e =>
    if umem_ok a (Z.of_nat (length bs)) then Ret (0, umem_store a bs e) else Ret (-1, e);
  ucopyin := fun a n e => if umem_ok a n then Ret ((0, umem_load a (Z.to_nat n) e), e) else Ret ((-1, []), e);
}.

Lemma umem_store_app a bs bs' e :
  umem_store a (bs ++ bs') e = umem_store (a + Z.of_nat (length bs)) bs' (umem_store a bs e).
Proof.
  apply functional_extensionality. intros j. unfold umem_store. rewrite length_app.
  destruct (Z.leb_spec a j), (Z.ltb_spec j (a + Z.of_nat (length bs + length bs'))),
    (Z.leb_spec (a + Z.of_nat (length bs)) j), (Z.ltb_spec j (a + Z.of_nat (length bs) + Z.of_nat (length bs'))),
    (Z.ltb_spec j (a + Z.of_nat (length bs))); cbn [andb]; try lia; try done.
  - rewrite app_nth2 by lia. f_equal. lia.
  - by rewrite app_nth1 by lia.
Qed.

#[export] Instance umem_copy_ok : CopyOk umem.
Proof.
  refine {|
    store := umem_store;
    load := umem_load;
    writable := fun a n => umem_ok a n = true;
    readable := fun a n => umem_ok a n = true;
  |}.
  - intros a bs e. unfold wp. cbn [ucopyout umem_env]. destruct (umem_ok a (Z.of_nat (length bs))); [by left|by right].
  - intros a m e _ H. cbn [ucopyin umem_env]. by rewrite H.
  - intros a e. apply functional_extensionality. intros j. unfold umem_store. cbn [length].
    destruct (Z.leb_spec a j), (Z.ltb_spec j (a + Z.of_nat 0)); cbn [andb]; try lia; done.
  - apply umem_store_app.
  - intros a m e. apply length_bytes_at.
  - intros a m m' e. apply bytes_at_app.
  - unfold umem_ok. intros. lia.
Defined.

(** ** The disk *)

Definition sb0 : superblock := Superblock FSMAGIC 100 65 16 30 2 32 34.
Definition root_dinode : dinode := Dinode T_DIR 0 0 1 48 (35 :: repeat 0 12).
Definition file_dinode : dinode := Dinode T_FILE 0 0 1 5 (36 :: repeat 0 12).
Definition DOT : list Z := [46].
Definition NAME_F : list Z := [102].
Definition root_block : block :=
  put zero_block 0 (dirent_bytes 1 DOT ++ dirent_bytes 1 (DOT ++ DOT) ++ dirent_bytes 2 NAME_F).
Definition disk0 (b : Z) : block :=
  if b =? 32 then encode_dinode file_dinode 128 (encode_dinode root_dinode 64 zero_block)
  else if b =? 34 then put zero_block 0 [255; 255; 255; 255; 31]
  else if b =? 35 then root_block
  else if b =? 36 then put zero_block 0 [104; 101; 108; 108; 111]
  else zero_block.

Lemma sb0_ok : sb_ok sb0.
Proof. split; vm_compute; congruence. Qed.

Lemma sized0 : sized disk0.
Proof.
  intros b. unfold disk0. destruct (b =? 32); [by rewrite !length_encode, length_zero_block|].
  destruct (b =? 34); [by rewrite length_put, length_zero_block|].
  destruct (b =? 35); [unfold root_block; by rewrite length_put, length_zero_block|].
  destruct (b =? 36); [by rewrite length_put, length_zero_block|]. apply length_zero_block.
Qed.

Lemma used0 : forallb (fun b => Bool.eqb (used sb0 disk0 (Z.of_nat b)) (b <? 37)%nat) (seq 0 100) = true.
Proof. by vm_compute. Qed.

Lemma used0_eq b : 0 <= b < 100 -> used sb0 disk0 b = (b <? 37).
Proof.
  intros Hb. pose proof used0 as H. rewrite forallb_forall in H. specialize (H (Z.to_nat b)).
  rewrite Z2Nat.id in H by lia. assert (Hin : In (Z.to_nat b) (seq 0 100)) by (apply List.in_seq; lia).
  apply H, eqb_prop in Hin. rewrite Hin. apply eq_true_iff_eq. rewrite Nat.ltb_lt, Z.ltb_lt. lia.
Qed.

Lemma blocks_ok0 : blocks_ok sb0 disk0.
Proof.
  split; [exact sized0|]. change (data_start sb0) with 35. intros b Hb. rewrite used0_eq by lia. lia.
Qed.

(** ** The inodes *)

Lemma dino_root : dino sb0 disk0 1 = root_dinode.
Proof. by vm_compute. Qed.
Lemma dino_file : dino sb0 disk0 2 = file_dinode.
Proof. by vm_compute. Qed.

Lemma dinos0 : forallb (fun i => (d_type (dino sb0 disk0 (Z.of_nat i)) =? 0) || (i =? 1)%nat || (i =? 2)%nat) (seq 0 16) = true.
Proof. by vm_compute. Qed.

Lemma live0 inum : live sb0 disk0 inum <-> inum = 1 \/ inum = 2.
Proof.
  split.
  - intros [Hi Hty]. unfold inum_ok in Hi. change (sb_ninodes sb0) with 16 in Hi.
    pose proof dinos0 as H. rewrite forallb_forall in H. specialize (H (Z.to_nat inum)).
    rewrite Z2Nat.id in H by lia. assert (Hin : In (Z.to_nat inum) (seq 0 16)) by (apply List.in_seq; lia).
    apply H in Hin. lia.
  - intros [-> | ->]; (split; [unfold inum_ok; change (sb_ninodes sb0) with 16; lia|]).
    + by rewrite dino_root.
    + by rewrite dino_file.
Qed.

(** A file of one block. *)
Lemma slot_one ty ma mi nl sz a V i :
  slot (Dinode ty ma mi nl sz (a :: repeat 0 12)) V i = if (i =? 0)%nat then a else 0.
Proof.
  unfold slot, NDIRECT. cbn [d_addrs]. destruct (Nat.leb_spec i 12).
  - do 13 (destruct i as [|i]; [done|]). lia.
  - destruct (Nat.eqb_spec i 0); [lia|]. done.
Qed.

Lemma one_block_ok ty ma mi nl sz a : 35 <= a < 37 -> 0 <= sz <= 1024 ->
  file_ok sb0 (Dinode ty ma mi nl sz (a :: repeat 0 12)) disk0 /\
  content_ok (Dinode ty ma mi nl sz (a :: repeat 0 12)) disk0.
Proof.
  intros Ha Hsz. split; split.
  - intros i Hi. rewrite slot_one. destruct (i =? 0)%nat; [|done]. intros _.
    change (data_start sb0) with 35. change (sb_size sb0) with 100. split; [lia|]. rewrite used0_eq by lia. lia.
  - intros i j _ _. rewrite !slot_one. destruct (Nat.eqb_spec i 0), (Nat.eqb_spec j 0); lia.
  - change (MAXFILE * BSIZE) with 274432. cbn [d_size]. lia.
  - cbn [d_size]. intros o Ho. unfold mapped. rewrite slot_one.
    replace (o / BSIZE) with 0 by (unfold BSIZE; lia). change (data_slot 0 =? 0)%nat with true. cbv iota. lia.
Qed.

Lemma dir_ok0 : dir_ok root_dinode disk0.
Proof. split; [done|done|]. by apply (one_block_ok T_DIR 0 0 1 48 35). Qed.

Lemma entries0 : map (fun j => de_inum (dirent root_dinode disk0 j)) (seq 0 (ndirents root_dinode)) = [1; 1; 2].
Proof. by vm_compute. Qed.

Lemma entry0 name inum : dir_lookup root_dinode disk0 name = Some inum -> inum = 1 \/ inum = 2.
Proof.
  unfold dir_lookup, dir_index. destruct (List.find _ _) as [j|] eqn:Ef; [|done]. intros Hs. injection Hs as <-.
  apply List.find_some in Ef as [Hin _]. pose proof entries0 as He.
  apply (List.in_map (fun j => de_inum (dirent root_dinode disk0 j))) in Hin. rewrite He in Hin.
  cbn [In] in Hin. intuition lia.
Qed.

Lemma tree_ok0 : tree_ok sb0 disk0.
Proof.
  split.
  - intros inum [-> | ->]%live0; [by rewrite dino_root|by rewrite dino_file].
  - intros inum [-> | ->]%live0; [rewrite dino_root; intros _; apply dir_ok0|by rewrite dino_file].
  - intros inum name inum' [-> | ->]%live0; [rewrite dino_root|by rewrite dino_file].
    intros _ H. apply live0. by apply (entry0 name).
Qed.

(** ** The booted system *)

(** The table has the root, as a current directory, and the file, which is
    open. *)
Definition table0 (i : nat) : inode :=
  match i with
  | O => Inode ROOTDEV 1 1 initsleeplock false root_dinode
  | 1%nat => Inode ROOTDEV 2 1 initsleeplock false file_dinode
  | _ => Inode 0 0 0 initsleeplock false root_dinode
  end.

Lemma recovered0 : recovered 2 disk0 = disk0.
Proof.
  assert (Hw : recover_writes 2 disk0 = [(2, zero_block)]) by (by vm_compute).
  unfold recovered. rewrite Hw. apply functional_extensionality. intros b. unfold apply_writes. cbn [foldl fst snd].
  upd_cases b 2; done.
Qed.

Lemma boot0 : exists x, boot_log 1 ROOTDEV 2 30 (boot_lstate disk0) = Ret (tt, x) /\
  forall T (e : umem), fidle ROOTDEV sb0 disk0 T e (FState x sb0 T e).
Proof.
  assert (Hh : head_n (disk0 2) = 0) by (by vm_compute).
  assert (Hs : same_recovery 2 30 disk0 disk0).
  { split_and!; [by apply disk_log_empty|reflexivity|intros; reflexivity]. }
  destruct (boot_after 1 ROOTDEV 2 30 disk0 disk0 ltac:(done) (sized0 2) Hs) as (x & Hx & Hc & _).
  destruct Hs as (Hd & _). exists x. split; [exact Hx|]. intros T e.
  destruct (proj1 (wp_returns _ _ _) (boot_log_spec 1 ROOTDEV 2 30 disk0 ltac:(done) Hd)) as ([] & x' & Hx' & Hdk & _).
  rewrite Hx in Hx'. injection Hx' as ->. rewrite Hdk, recovered0 in Hc. by split.
Qed.

(** In a transaction. *)
Lemma begin0 : exists x W, boot_log 1 ROOTDEV 2 30 (boot_lstate disk0) = Ret (tt, x) /\
  forall T (e : umem), exists s, lift begin_op (FState x sb0 T e) = Ret (tt, s) /\
    fsh 1 ROOTDEV (ctx_of sb0 disk0 W) sb0 [] [] disk0 [] MAXOPBLOCKS T e s.
Proof.
  destruct boot0 as (x & Hx & Hi). exists x, (writes (bc x)). split; [exact Hx|]. intros T e.
  pose proof (fs_begin 1 ROOTDEV sb0 sb0_ok ltac:(vm_compute; reflexivity) disk0 T e _ (fun _ s' =>
    fsh 1 ROOTDEV (ctx_of sb0 disk0 (writes (bc x))) sb0 [] [] disk0 [] MAXOPBLOCKS T e s') (Hi T e)
    (fun s' Hs => Hs)) as H.
  destruct (proj1 (wp_returns _ _ _) H) as ([] & s & H1 & H2). exists s. split; [exact H1|exact H2].
Qed.
