(* ===== verification/FsProps.v ===== *)
(** * The theorems about the file system

    What callers of file.c and fs.c can rely on, each with an example on the
    small file system of FsDemo.v. *)

From stdpp Require Import relations.
From S2P Require Import Prelude Bytes Locks Bio Log LogCrash Fs FsBlocks FsInode FsFile FsData FsTrunc FsDir FsPath FsOps File FsDemo.

Lemma fidle_disk {E} `{CE : CopyEnv E} dev sb D T (e : E) s : fidle dev sb D T e s -> fdisk s = D.
Proof. intros [_ F _ _]. by destruct (quiet_facts _ _ _ _ _ (cm_quiet _ _ _ _ _ F)) as (_ & H & _). Qed.

(** ** Files *)

(** C4: writing [n] bytes from user memory that can be read to an open file
    returns.  It returns [n] with all the bytes in the file at its offset, the
    size and the inode on disk up to date, the offset advanced, and all other
    bytes of the file and all other files as they were; or it returns -1, having
    written a prefix, because the disk is full.  The log never overflows, and
    when the machine crashes at any point of the writes to disk, and again
    during recovery, the boot that completes finds the file as it was at the
    end of one of the chunks of [max_write] bytes, or of the last one, and
    everything else intact.  A failing copy from the user is not covered. *)
Theorem filewrite_correct {E} `{CO : CopyOk E} `{DE : !DevEnv E} (pid dev : Z) (sb : superblock)
    (D : Z -> block) (T : nat -> inode) (e : E) (f : nat) (inum : Z) (d : dinode) (x : file)
    (addr n : Z) (s : fsys E) :
  sb_ok sb -> dev <> 0 -> MAXOPBLOCKS + 1 < sb_nlog sb -> sb_size sb <= BPB ->
  ftable s f = x -> f_type x = FD_INODE -> f_writable x = true ->
  fidle dev sb D T e (ffs s) -> file_good sb D inum d -> entry_idle dev (T (f_ip x)) inum d ->
  0 <= f_off x <= d_size d -> 0 <= n -> f_off x + n <= MAXFILE * BSIZE ->
  0 <= addr -> addr + n < 2 ^ 64 -> readable addr n ->
  exists r s' m, filewrite pid f addr n s = Ret (r, s') /\
    wrote_bytes pid dev sb D T e f (f_ip x) inum d x addr n m s s' /\
    ((r = n /\ m = n) \/ (r = -1 /\ m < n)).
Proof.
  intros Hsb Hdev Hlog Hone Hx Hty Hwr Hi Hg He Hoff Hn Hmax Ha Hw Hrd.
  assert (H : wp (filewrite pid f addr n) (fun r s' => exists m,
    wrote_bytes pid dev sb D T e f (f_ip x) inum d x addr n m s s' /\ ((r = n /\ m = n) \/ (r = -1 /\ m < n))) s).
  { unfold filewrite. apply wp_bind, wp_gets. rewrite Hx, Hwr, Hty. cbn [negb]. apply wp_bind.
    eapply wp_mono; [apply (filewrite_loop_spec pid dev sb Hsb Hdev Hlog Hone (Z.to_nat n) D T e f inum d x addr n 0 s);
      rewrite ?Z.add_0_r, ?Z.sub_0_r; try done; try lia; symmetry; by apply (fidle_disk dev sb D T e)|].
    rewrite Z.add_0_r, Z.sub_0_r. intros i s' (m & Hwb & Hr). apply wp_ret. exists m. split; [done|].
    pose proof (wb_range _ _ _ _ _ _ _ _ _ _ _ _ _ _ _ _ Hwb). destruct (Z.eqb_spec i n); lia. }
  destruct (proj1 (wp_returns _ _ _) H) as (r & s' & Hret & m & H1 & H2). by exists r, s', m.
Qed.

(** A device switch without devices, and pipes nobody opens. *)
#[export] Instance umem_dev : DevEnv umem := {
  pipe_close := fun _ _ => ret tt;
  pipe_read := fun _ _ _ => ret (-1);
  pipe_write := fun _ _ _ => ret (-1);
  dev_read := fun _ => None;
  dev_write := fun _ => None;
}.

(** The file of the small file system is open for writing as file 0 and for
    reading as file 1, both at offset 3. *)
Definition ftable0 (f : nat) : file :=
  match f with
  | O => File FD_INODE 1 false true 0 1 3 0
  | 1%nat => File FD_INODE 1 true false 0 1 3 0
  | _ => File FD_NONE 0 false false 0 0 0 0
  end.

(** The memory of the process: byte [a] at address [a]. *)
Definition umem0 : umem := fun a => a mod 256.

Lemma file_good0 : file_good sb0 disk0 2 file_dinode.
Proof.
  destruct (one_block_ok T_FILE 0 0 1 5 36 ltac:(lia) ltac:(lia)) as [H1 H2].
  split; [exact blocks_ok0|done|exact dino_file| |done|exact H1|exact H2].
  split; try done. repeat (constructor; [done|]). constructor.
Qed.

Lemma entry_idle0 : entry_idle ROOTDEV (table0 1) 2 file_dinode.
Proof. by split. Qed.

Lemma filewrite_correct_witness :
  exists x r s', boot_log 1 ROOTDEV 2 30 (boot_lstate disk0) = Ret (tt, x) /\
    filewrite 1 0 100 5000 (FSys (FState x sb0 table0 umem0) ftable0) = Ret (r, s').
Proof.
  destruct boot0 as (x & Hx & Hi). exists x.
  destruct (filewrite_correct 1 ROOTDEV sb0 disk0 table0 umem0 0 2 file_dinode (ftable0 0) 100 5000
    (FSys (FState x sb0 table0 umem0) ftable0)) as (r & s' & m & Hr & _).
  - exact sb0_ok.
  - done.
  - done.
  - done.
  - reflexivity.
  - reflexivity.
  - reflexivity.
  - apply Hi.
  - exact file_good0.
  - exact entry_idle0.
  - cbn [ftable0 f_off d_size file_dinode]. lia.
  - lia.
  - vm_compute. congruence.
  - lia.
  - lia.
  - vm_compute. reflexivity.
  - exists r, s'. split; [exact Hx|exact Hr].
Defined.

(** C5: what was written to a file is what is read from it: after a write of
    [n] bytes through one open file has returned [n], a read of [n] bytes
    through another open file of the same inode, at the offset where the write
    began, returns [n] and puts the same bytes into the memory of the reader;
    and reading changes nothing on disk. *)
Theorem write_read_roundtrip {E} `{CO : CopyOk E} `{DE : !DevEnv E} (pid dev : Z) (sb : superblock)
    (D : Z -> block) (T : nat -> inode) (e : E) (f g : nat) (inum : Z) (d : dinode) (x y : file)
    (addr raddr n : Z) (s : fsys E) :
  sb_ok sb -> dev <> 0 -> MAXOPBLOCKS + 1 < sb_nlog sb -> sb_size sb <= BPB ->
  ftable s f = x -> f_type x = FD_INODE -> f_writable x = true ->
  f <> g -> ftable s g = y -> f_type y = FD_INODE -> f_readable y = true -> f_ip y = f_ip x -> f_off y = f_off x ->
  fidle dev sb D T e (ffs s) -> file_good sb D inum d -> entry_idle dev (T (f_ip x)) inum d ->
  0 <= f_off x <= d_size d -> 0 <= n -> f_off x + n <= MAXFILE * BSIZE ->
  0 <= addr -> addr + n < 2 ^ 64 -> readable addr n ->
  0 <= raddr -> raddr + n < 2 ^ 64 ->
  (forall a m, raddr <= a -> 0 <= m -> a + m <= raddr + n -> writable a m) ->
  exists r s1, filewrite pid f addr n s = Ret (r, s1) /\
    (r = n -> exists s2, fileread pid g raddr n s1 = Ret (n, s2) /\
      fenv (ffs s2) = store raddr (load addr (Z.to_nat n) e) e /\
      fdisk (ffs s2) = fdisk (ffs s1) /\ fwrites (ffs s2) = fwrites (ffs s1)).
Proof.
  intros Hsb Hdev Hlog Hone Hx Hty Hwr Hfg Hy Hyt Hyr Hip Hyo Hi Hg He Hoff Hn Hmax Ha Hw Hrd Hra Hrw Hwt.
  assert (Hsm : MAXFILE * BSIZE < 2 ^ 31) by done.
  assert (H : wp (filewrite_loop pid f addr n 0 (Z.to_nat n)) (fun r s' => exists m,
    wrote_bytes pid dev sb D T e f (f_ip x) inum d x addr n m s s' /\ (r = n <-> m = n)) s).
  { pose proof (filewrite_loop_spec pid dev sb Hsb Hdev Hlog Hone (Z.to_nat n) D T e f inum d x addr n 0 s) as Hl.
    rewrite Z.add_0_r, Z.sub_0_r in Hl. apply Hl; try done; try lia. symmetry. by apply (fidle_disk dev sb D T e). }
  destruct (proj1 (wp_returns _ _ _) H) as (i & s1 & Hret & m & Hwb & Hi1).
  exists (if i =? n then n else -1), s1. split.
  { unfold filewrite. unfold bind at 1, get_file, gets. rewrite Hx, Hwr, Hty. cbn [negb]. by rewrite (bind_ret_eq _ _ _ _ _ Hret). }
  intros Hr. assert (Em : m = n) by (destruct (Z.eqb_spec i n); [by apply Hi1|lia]). subst m.
  destruct Hwb as [W1 W2 (d' & z & W3 & W3' & W3'') W4 _].
  set (bs := load addr (Z.to_nat n) e) in *. assert (Hlb : length bs = Z.to_nat n) by apply length_load.
  assert (Hsz : d_size d' = Z.max (d_size d) (f_off x + n)).
  { rewrite (up_fields _ _ _ _ _ _ _ _ W3), Hlb, Z2Nat.id by lia. done. }
  assert (Hnr : nread (d_size d') (f_off x) n = n).
  { unfold nread. rewrite (proj2 (orb_false_iff _ _)) by lia. lia. }
  assert (Hrd' : wp (fileread pid g raddr n) (fun r s' => r = n /\ fenv (ffs s') = store raddr bs e /\
    fdisk (ffs s') = fdisk (ffs s1) /\ fwrites (ffs s') = fwrites (ffs s1)) s1).
  { eapply wp_mono; [apply (fileread_spec pid dev sb Hsb Hlog (fdisk (ffs s1)) (upd T (f_ip x) z) e g inum d' y raddr n s1);
      rewrite ?Hip, ?upd_same; try done; try lia|].
    - rewrite W4, upd_other by done. done.
    - by apply (updated_good sb inum d D d' (fdisk (ffs s1)) (f_off x) bs).
    - unfold uint. lia.
    - rewrite Hyo, Hnr. intros r s' (y' & _ & E1 & E2 & [(-> & _ & F)|(_ & Hu & _)]).
      + rewrite (fi_e _ _ _ _ _ _ F). pose proof (up_in _ _ _ _ _ _ _ _ W3) as Hin. rewrite Hlb in Hin. rewrite Hin. done.
      + destruct Hu as (_ & a & k & U1 & U2 & U3 & U4). by destruct U4; apply Hwt. }
  destruct (proj1 (wp_returns _ _ _) Hrd') as (r & s2 & Hr2 & -> & H1 & H2 & H3). by exists s2.
Qed.

Lemma write_read_roundtrip_witness :
  exists x r s1, boot_log 1 ROOTDEV 2 30 (boot_lstate disk0) = Ret (tt, x) /\
    filewrite 1 0 100 2000 (FSys (FState x sb0 table0 umem0) ftable0) = Ret (r, s1) /\
    (r = 2000 -> exists s2, fileread 1 1 5000 2000 s1 = Ret (2000, s2) /\
      fenv (ffs s2) 5007 = umem0 107).
Proof.
  destruct boot0 as (x & Hx & Hi). exists x.
  destruct (write_read_roundtrip 1 ROOTDEV sb0 disk0 table0 umem0 0 1 2 file_dinode (ftable0 0) (ftable0 1) 100 5000 2000
    (FSys (FState x sb0 table0 umem0) ftable0)) as (r & s1 & Hr & Hrd).
  - exact sb0_ok.
  - done.
  - done.
  - done.
  - reflexivity.
  - reflexivity.
  - reflexivity.
  - lia.
  - reflexivity.
  - reflexivity.
  - reflexivity.
  - reflexivity.
  - reflexivity.
  - apply Hi.
  - exact file_good0.
  - exact entry_idle0.
  - cbn [ftable0 f_off d_size file_dinode]. lia.
  - lia.
  - vm_compute. congruence.
  - lia.
  - lia.
  - vm_compute. reflexivity.
  - lia.
  - lia.
  - intros a m H1 H2 H3. cbn [writable umem_copy_ok]. unfold umem_ok, umem_limit. lia.
  - exists r, s1. split; [exact Hx|]. split; [exact Hr|]. intros E. destruct (Hrd E) as (s2 & H1 & H2 & _).
    exists s2. split; [exact H1|]. rewrite H2. vm_compute. reflexivity.
Defined.

(** ** Path names *)

(** C6: [namex] returns for every path: it follows the elements of the path,
    the strings between its slashes cut at DIRSIZ bytes, from the root or from
    the current directory, through the directories as maps from names to inode
    numbers.  It returns the inode they lead to (for nameiparent the directory
    that is to hold the last element, with that element), with one reference
    more, which is the caller's; or nothing, when an element is missing or is
    not in a directory, and then every reference count is what it was. *)
Theorem namex_correct {E} `{CO : CopyOk E} (pid : Z) (cx : tctx) (sb : superblock) (V : Z -> block) (T : nat -> inode)
    (L : list Z) (k : Z) (e : E) (cwd : nat) (path : list Z) (np : bool) (s : fstate E) :
  let start := if hd 0 path =? SLASH then ROOTINO else i_inum (T cwd) in
  fsh pid ROOTDEV cx sb [] [] V L k T e s -> blocks_ok sb V -> tree_ok sb V -> spare 2 T ->
  tab ROOTDEV sb pid V T none [] T -> live sb V ROOTINO -> (cwd < NINODE)%nat -> 0 < i_ref (T cwd) ->
  exists r s', namex pid cwd path np s = Ret (r, s') /\
    found pid ROOTDEV cx sb V T L k e np (elements path) (target sb V np start (elements path)) r s'.
Proof.
  intros start Hs Hv Htree Hsp Ht Hroot Hcwd Href.
  pose proof (namex_spec pid cx sb V Hv T Hsp (tree_walk sb V T Htree) L k e cwd path np s Hs Ht Hroot Hcwd Href) as H.
  destruct (proj1 (wp_returns _ _ _) H) as (r & s' & H1 & H2). by exists r, s'.
Qed.

Lemma spare0 n : (n <= 8)%nat -> spare n table0.
Proof.
  intros Hn. apply (spare_mono 8); [done|]. split.
  - intros j _. destruct j as [|[|j]]; cbn; lia.
  - exists (seq 2 8). split_and!; [apply NoDup_seq|done|]. intros j Hj. apply elem_of_seq in Hj.
    unfold NINODE. split; [lia|]. by destruct j as [|[|j]]; [lia|lia|].
Qed.

Lemma table_ok0 : table_ok table0.
Proof. intros i j _ _. destruct i as [|[|i]], j as [|[|j]]; cbn; lia. Qed.

Lemma tab0 pid : tab ROOTDEV sb0 pid disk0 table0 none [] table0.
Proof.
  split.
  - intros j _. unfold none. lia.
  - done.
  - exact table_ok0.
  - intros j _ Hr. destruct j as [|[|j]]; cbn [table0 i_dev i_inum i_valid i_ref] in *; [| |lia];
      (split_and!; [done|apply live0; lia|done]).
  - intros j _. rewrite decide_False by set_solver. by destruct j as [|[|j]].
Qed.

Lemma walk0 : target sb0 disk0 false 1 (elements [SLASH; 102]) = Some 2 /\
  target sb0 disk0 false 1 (elements [102; SLASH; 46]) = None.
Proof. by vm_compute. Qed.

(** "/f" is inode 2. *)
Lemma namex_correct_witness :
  exists x r s' jp, boot_log 1 ROOTDEV 2 30 (boot_lstate disk0) = Ret (tt, x) /\
    namex 1 0 [SLASH; 102] false (FState x sb0 table0 umem0) = Ret (r, s') /\
    fst r = Some jp /\ i_inum (itable s' jp) = 2 /\ i_ref (itable s' jp) = i_ref (table0 jp) + 1.
Proof.
  destruct boot0 as (x & Hx & Hi). exists x.
  destruct (namex_correct 1 (read_ctx sb0 disk0 (fwrites (FState x sb0 table0 umem0))) sb0 disk0 table0 [] 0 umem0 0
    [SLASH; 102] false (FState x sb0 table0 umem0)) as (r & s' & Hr & T' & Hs' & Hf).
  - apply fs_read; [exact sb0_ok|vm_compute; reflexivity|apply Hi].
  - exact blocks_ok0.
  - exact tree_ok0.
  - apply spare0. lia.
  - apply tab0.
  - apply live0. left. reflexivity.
  - unfold NINODE. lia.
  - cbn [table0 i_ref]. lia.
  - change (hd 0 [SLASH; 102] =? SLASH) with true in Hf. cbv iota in Hf. change ROOTINO with 1 in Hf.
    rewrite (proj1 walk0) in Hf. destruct Hf as (jp & H1 & H2 & H3 & H4 & _). exists r, s', jp.
    split; [exact Hx|]. split; [exact Hr|]. split; [exact H1|]. rewrite (fx_t _ _ _ _ _ _ _ _ _ _ _ _ Hs').
    split; [exact H4|]. rewrite (tb_ref _ _ _ _ _ _ _ _ H3 jp H2). unfold plus, none. rewrite decide_True by reflexivity. reflexivity.
Defined.

(** ** Directories *)

(** C7: a directory is a map from names to inode numbers that [dirlink] adds
    to and [dirlookup] reads.  Linking a new name returns: 0 unless the disk
    is full, and then a lookup of any name afterwards returns the new inode
    number for the new name (two names being the same when they agree in their
    first DIRSIZ bytes), and for every other name what it would have returned
    before; the dinodes of other inodes are unchanged. *)
Theorem dirlink_correct {E} `{CO : CopyOk E} (pid dev : Z) (cx : tctx) (sb : superblock) (V : Z -> block) (T : nat -> inode)
    (L : list Z) (k : Z) (e : E) (dp : nat) (name : list Z) (inum : Z) (s : fstate E) :
  let d := i_d (T dp) in
  sb_ok sb -> sb_size sb <= BPB -> fsh pid dev cx sb [] [] V L k T e s ->
  i_dev (T dp) = dev -> inum_ok sb (i_inum (T dp)) ->
  blocks_ok sb V -> dinode_ok d -> file_ok sb d V -> dir_ok d V ->
  table_ok T -> (forall j, (j < NINODE)%nat -> 0 <= i_ref (T j) < 2 ^ 31 - 1) ->
  (exists j, (j < NINODE)%nat /\ i_ref (T j) = 0) ->
  0 < inum < 2 ^ 16 -> d_size d + DIRENT_SIZE <= MAXFILE * BSIZE -> dir_lookup d V name = None ->
  cost (sb_bmapstart sb) L + indcost d L + 2 <= k ->
  exists r s', dirlink pid dp name inum s = Ret (r, s') /\ exists V' L' k' T',
    fsh pid dev cx sb [] [] V' L' k' T' e s' /\
    ((r = -1 /\ full sb V') \/
     (r = 0 /\
      (forall inum', inum_ok sb inum' -> inum' <> i_inum (T dp) -> dino sb V' inum' = dino sb V inum') /\
      forall name', exists o s'', dirlookup pid dp name' s' = Ret (o, s'') /\
        match (if decide (name_str DIRSIZ name' = name_str DIRSIZ name) then Some inum else dir_lookup d V name') with
        | Some inum' => exists ip off, o = Some (ip, off) /\ i_inum (itable s'' ip) = inum'
        | None => o = None
        end)).
Proof.
  intros d Hsb Hone Hs Hd Hi Hv Hok Hf Hdk Ht Hr Hfree Hin Hmax Hno Hk.
  destruct (proj1 (wp_returns _ _ _) (dirlink_spec pid dev cx sb Hsb Hone V L k T e dp name inum s Hs Hd Hi Hv Hok Hf Hdk Ht Hr
    Hfree Hin Hmax Hno Hk)) as (r & s' & Hret & V' & L' & k' & d' & H1 & Hcase). fold d in Hcase.
  exists r, s'. split; [done|]. eexists V', L', k', _. split; [exact H1|]. destruct Hcase as [Hc|(-> & Hdk' & Hv' & _ & Hino & Hlk)]; [by left|right].
  split_and!; [done|done|]. intros name'. set (T' := upd T dp (with_d d' (T dp))) in H1.
  assert (Hsame : forall j, i_ref (T' j) = i_ref (T j) /\ i_dev (T' j) = i_dev (T j) /\ i_inum (T' j) = i_inum (T j)).
  { intros j. unfold T'. by upd_cases j dp. }
  assert (Hdp : i_d (T' dp) = d') by (unfold T'; by rewrite upd_same).
  pose proof (dirlookup_spec pid dev cx sb V' L' k' T' e dp name' s' H1) as Hds. rewrite Hdp in Hds.
  assert (Hlook : wp (dirlookup pid dp name') (fun o s'' => match dir_lookup d' V' name' with
    | Some inum' => exists ip off, o = Some (ip, off) /\ i_inum (itable s'' ip) = inum'
    | None => o = None end) s').
  { eapply wp_mono; [apply Hds; try done|].
    - by rewrite (proj1 (proj2 (Hsame dp))).
    - intros i j. destruct (Hsame i) as (-> & -> & ->), (Hsame j) as (-> & -> & ->). apply Ht.
    - intros j. rewrite (proj1 (Hsame j)). apply Hr.
    - destruct Hfree as (j & Hj & Hz). exists j. by rewrite (proj1 (Hsame j)).
    - intros o s''. unfold dir_lookup. destruct (dir_index d' V' name') as [j|]; cbn [option_map]; [|by intros [-> _]].
      intros (ip & y & -> & (_ & _ & Hy & _) & Hs''). exists ip, (DIRENT_SIZE * Z.of_nat j). split; [done|].
      rewrite (fx_t _ _ _ _ _ _ _ _ _ _ _ _ Hs''), upd_same. done. }
  rewrite Hlk in Hlook. destruct (proj1 (wp_returns _ _ _) Hlook) as (o & s'' & Ho & Hres). by exists o, s''.
Qed.

Lemma no_g0 : dir_lookup root_dinode disk0 [103] = None.
Proof. by vm_compute. Qed.

Lemma small_dinode_ok ty nl sz a : 0 <= ty < 2 ^ 15 -> 0 <= nl < 2 ^ 15 -> 0 <= sz < 2 ^ 32 -> 0 <= a < 2 ^ 32 ->
  dinode_ok (Dinode ty 0 0 nl sz (a :: repeat 0 12)).
Proof. intros. split; cbn [d_type d_major d_minor d_nlink d_size d_addrs];
    unfold short, uint; try lia; [reflexivity|]. repeat (constructor; [unfold uint; lia|]). constructor. Qed.

(** Linking "g" to inode 2 in the root, which then has both "f" and "g". *)
Lemma dirlink_correct_witness :
  exists s r s', dirlink 1 0 [103] 2 s = Ret (r, s') /\ (r = 0 -> exists o s'', dirlookup 1 0 [103] s' = Ret (o, s'') /\
    exists ip off, o = Some (ip, off) /\ i_inum (itable s'' ip) = 2).
Proof.
  destruct begin0 as (x & W & _ & Hb). destruct (Hb table0 umem0) as (s & _ & Hs). exists s.
  destruct (dirlink_correct 1 ROOTDEV (ctx_of sb0 disk0 W) sb0 disk0 table0 [] MAXOPBLOCKS umem0 0 [103] 2 s)
    as (r & s' & Hr & V' & L' & k' & T' & Hs' & Hc).
  - exact sb0_ok.
  - vm_compute. congruence.
  - exact Hs.
  - reflexivity.
  - vm_compute. split; congruence.
  - exact blocks_ok0.
  - exact (small_dinode_ok T_DIR 1 48 35 ltac:(unfold T_DIR; lia) ltac:(lia) ltac:(lia) ltac:(lia)).
  - apply (one_block_ok T_DIR 0 0 1 48 35); lia.
  - exact dir_ok0.
  - exact table_ok0.
  - intros j _. destruct j as [|[|j]]; cbn; lia.
  - exists 2%nat. split; [unfold NINODE; lia|reflexivity].
  - lia.
  - vm_compute. congruence.
  - exact no_g0.
  - vm_compute. congruence.
  - exists r, s'. split; [exact Hr|]. intros ->. destruct Hc as [[Hc _]|(_ & _ & Hl)]; [lia|].
    destruct (Hl [103]) as (o & s'' & Ho & H). rewrite decide_True in H by reflexivity. exists o, s''. split; [exact Ho|exact H].
Defined.

(** ** Freeing *)

(** C8: dropping the last reference to a file that no directory names frees
    it, and nothing else.  [iput] returns; on the disk as the transaction
    leaves it the dinode is free, of the data blocks exactly those of the file
    (its direct blocks, its indirect block and the blocks that lists) have
    become free in the bitmap, no data block's contents and no other dinode
    has changed; and the table's entry is free and unlocked. *)
Theorem iput_frees {E} `{CE : CopyEnv E} (pid dev : Z) (cx : tctx) (sb : superblock) (V : Z -> block) (T : nat -> inode)
    (L : list Z) (k : Z) (e : E) (ip : nat) (s : fstate E) :
  let d := i_d (T ip) in
  let inum := i_inum (T ip) in
  sb_ok sb -> sb_size sb <= BPB -> fsh pid dev cx sb [] [] V L k T e s ->
  i_dev (T ip) = dev -> inum_ok sb inum -> blocks_ok sb V -> dinode_ok d -> file_ok sb d V ->
  i_ref (T ip) = 1 -> i_valid (T ip) = true -> d_nlink d = 0 -> slocked (i_lock (T ip)) = false ->
  cost (sb_bmapstart sb) L + 1 <= k ->
  exists s', iput pid ip s = Ret (tt, s') /\ exists V' L' k' T',
    fsh pid dev cx sb [] [] V' L' k' T' e s' /\
    blocks_ok sb V' /\ d_type (dino sb V' inum) = 0 /\
    (forall b, data_start sb <= b < sb_size sb ->
      (used sb V' b = true <-> used sb V b = true /\ forall i, (i < NSLOT)%nat -> slot d V i <> b)) /\
    (forall b, data_start sb <= b -> V' b = V b) /\
    (forall inum', inum_ok sb inum' -> inum' <> inum -> dino sb V' inum' = dino sb V inum') /\
    i_ref (T' ip) = 0 /\ slocked (i_lock (T' ip)) = false /\ forall j, j <> ip -> T' j = T j.
Proof.
  intros d inum Hsb Hone Hs Hd Hi Hv Hok Hf Hr Hval Hnl Hlk Hk.
  destruct (proj1 (wp_returns _ _ _) (iput_last_spec pid dev cx sb Hsb Hone V d Hv Hok Hf L k T e ip s Hs Hd Hi eq_refl Hr Hval Hnl
    Hlk Hk)) as ([] & s' & Hret & V' & L' & k' & H1 & [T1 T2 T3 T4 T5] & _).
  exists s'. split; [done|]. eexists V', L', k', _. split; [exact H1|]. fold inum in T2, T5. rewrite T2, !upd_same.
  split_and!; try done.
  - intros b Hb. rewrite T3 by done. rewrite andb_true_iff, negb_true_iff, bool_decide_eq_false.
    apply and_iff_compat_l. rewrite list_elem_of_fmap. split.
    + intros Hn i Hlt <-. apply Hn. exists i. split; [done|]. apply elem_of_seq. lia.
    + intros Hn (i & -> & Hin). apply elem_of_seq in Hin. apply (Hn i); [lia|done].
  - intros j Hj. by rewrite upd_other.
Qed.

(** The file, unlinked and still open: closing it frees block 36. *)
Definition unlinked0 : nat -> inode :=
  upd table0 1%nat (Inode ROOTDEV 2 1 initsleeplock true (Dinode T_FILE 0 0 0 5 (36 :: repeat 0 12))).

Lemma iput_frees_witness :
  exists s s' V' L' k' T' cx, iput 1 1 s = Ret (tt, s') /\ fsh 1 ROOTDEV cx sb0 [] [] V' L' k' T' umem0 s' /\
    used sb0 disk0 36 = true /\ used sb0 V' 36 = false /\ used sb0 V' 35 = true.
Proof.
  destruct begin0 as (x & W & _ & Hb). destruct (Hb unlinked0 umem0) as (s & _ & Hs). exists s.
  destruct (one_block_ok T_FILE 0 0 0 5 36) as [Hf _]; [lia|lia|].
  destruct (iput_frees 1 ROOTDEV (ctx_of sb0 disk0 W) sb0 disk0 unlinked0 [] MAXOPBLOCKS umem0 1 s)
    as (s' & Hr & V' & L' & k' & T' & Hs' & _ & _ & Hu & _).
  - exact sb0_ok.
  - vm_compute. congruence.
  - exact Hs.
  - reflexivity.
  - vm_compute. split; congruence.
  - exact blocks_ok0.
  - exact (small_dinode_ok T_FILE 0 5 36 ltac:(unfold T_FILE; lia) ltac:(lia) ltac:(lia) ltac:(lia)).
  - exact Hf.
  - reflexivity.
  - reflexivity.
  - reflexivity.
  - reflexivity.
  - vm_compute. congruence.
  - exists s', V', L', k', T', (ctx_of sb0 disk0 W). split; [exact Hr|]. split; [exact Hs'|].
    assert (H35 : data_start sb0 <= 35 < sb_size sb0) by (vm_compute; split; congruence).
    assert (H36 : data_start sb0 <= 36 < sb_size sb0) by (vm_compute; split; congruence).
    split; [by rewrite used0_eq|]. split.
    + destruct (used sb0 V' 36) eqn:Eu; [|reflexivity]. exfalso. apply (Hu 36 H36) in Eu as [_ Hn]. apply (Hn 0%nat); [unfold NSLOT; lia|reflexivity].
    + apply (Hu 35 H35). split; [by rewrite used0_eq|]. intros i _. cbn [unlinked0].
      change (i_d (unlinked0 1)) with (Dinode T_FILE 0 0 0 5 (36 :: repeat 0 12)). rewrite slot_one. destruct (i =? 0)%nat; lia.
Defined.
