(* ===== verification/Mkfs.v ===== *)
(** * mkfs/mkfs.c: making a file system

    The program that writes the disk image the kernel boots from, on an image
    of blocks.  The host is an argument: whether open(2) creates the image, and
    for each name the chunks that read(2) returns, or nothing if it cannot be
    opened.  An assertion that fails and a host call that fails end the program
    ([Panic]); the host is little-endian. *)

From S2P Require Import Prelude Bytes Bio Log Fs FsBlocks.

Definition NINODES : Z := 200.
Definition FSSIZE : Z := 2000.
Definition nbitmap : Z := FSSIZE / BPB + 1.
Definition ninodeblocks : Z := NINODES / IPB + 1.
Definition nlog : Z := LOGSIZE.
Definition nmeta : Z := 2 + nlog + ninodeblocks + nbitmap.

(** The image with its number of blocks, freeinode and freeblock. *)
Record mkfs := Mkfs {
  img : Z -> block;
  img_size : Z;
  freeinode : Z;
  freeblock : Z;
}.
Definition set_img (V : Z -> block) (size : Z) (s : mkfs) : mkfs := Mkfs V size (freeinode s) (freeblock s).
Definition assert (b : bool) : M mkfs unit := if b then ret tt else panic "assert".
Definition die {A} (msg : string) : M mkfs A := panic msg.

(** The number whose bytes in memory are those of [x] in riscv byte order. *)
Definition xshort (x : Z) : Z := le_val [u8 x; u8 (Z.shiftr x 8)].
Definition xint (x : Z) : Z := le_val [u8 x; u8 (Z.shiftr x 8); u8 (Z.shiftr x 16); u8 (Z.shiftr x 24)].

Definition sb : superblock :=
  Superblock FSMAGIC (xint FSSIZE) (xint (FSSIZE - nmeta)) (xint NINODES) (xint nlog) (xint 2)
    (xint (2 + nlog)) (xint (2 + nlog + ninodeblocks)).
Definition sb_bytes : list Z :=
  flat_map (le_bytes 4) [sb_magic sb; sb_size sb; sb_nblocks sb; sb_ninodes sb; sb_nlog sb; sb_logstart sb;
                         sb_inodestart sb; sb_bmapstart sb].

(** lseek to a byte offset of type uint, then a read or a write of one block;
    a read past the end of the image returns nothing. *)
Definition sector (sec : Z) : Z := u32 (sec * BSIZE) / BSIZE.
Definition wsect (sec : Z) (buf : block) : M mkfs unit :=
  let b := sector sec in
  modify (fun s => set_img (upd (img s) b buf) (Z.max (img_size s) (b + 1)) s).
Definition rsect (sec : Z) : M mkfs block :=
  let b := sector sec in
  let! n := gets img_size in
  if b <? n then gets (fun s => img s b) else die "read".

Definition winode (inum : Z) (ip : dinode) : M mkfs unit :=
  let bn := IBLOCK inum sb in
  let! buf := rsect bn in
  wsect bn (encode_dinode ip (dinode_off inum) buf).
Definition rinode (inum : Z) : M mkfs dinode :=
  let! buf := rsect (IBLOCK inum sb) in
  ret (decode_dinode buf (dinode_off inum)).

Definition mk_ialloc (type : Z) : M mkfs Z :=
  let! inum := gets freeinode in
  modify (fun s => Mkfs (img s) (img_size s) (u32 (freeinode s + 1)) (freeblock s)) ;;
  winode inum (Dinode (xshort type) 0 0 (xshort 1) (xint 0) (repeat 0 (NDIRECT + 1))) ;;
  ret inum.

(** The bitmap with the first [n] bits set. *)
Fixpoint bitmap (n : nat) : block :=
  match n with O => zero_block | S n' => bit_set (Z.of_nat n') (bitmap n') end.
Definition mk_balloc (used : Z) : M mkfs unit :=
  assert (used <? BPB) ;;
  wsect (sb_bmapstart sb) (bitmap (Z.to_nat used)).

(** [freeblock++] *)
Definition next_block : M mkfs Z :=
  let! b := gets freeblock in
  modify (fun s => Mkfs (img s) (img_size s) (freeinode s) (u32 (b + 1))) ;;
  ret b.

(** The block for block [fbn] of the file: the inode, with a new block where
    there was none, and the number of the block. *)
Definition append_block (din : dinode) (fbn : Z) : M mkfs (dinode * Z) :=
  if fbn <? Z.of_nat NDIRECT then
    let k := Z.to_nat fbn in
    let! din := (if xint (nth k (d_addrs din) 0) =? 0
                 then let! b := next_block in ret (dset_addr k (xint b) din) else ret din) in
    ret (din, xint (nth k (d_addrs din) 0))
  else
    let! din := (if xint (nth NDIRECT (d_addrs din) 0) =? 0
                 then let! b := next_block in ret (dset_addr NDIRECT (xint b) din) else ret din) in
    let ind := xint (nth NDIRECT (d_addrs din) 0) in
    let k := (4 * (Z.to_nat fbn - NDIRECT))%nat in
    let! indirect := rsect ind in
    let! indirect := (if get32 indirect k =? 0
                      then
                        let! b := next_block in
                        let indirect := put32 indirect k (xint b) in
                        wsect ind indirect ;;
                        ret indirect
                      else ret indirect) in
    ret (din, xint (get32 indirect k)).

(** The loop of [iappend] over the bytes [p] left; the offset reached. *)
Fixpoint append_loop (fuel : nat) (din : dinode) (off : Z) (p : list Z) : M mkfs (dinode * Z) :=
  match p, fuel with
  | [], _ => ret (din, off)
  | _, O => out_of_fuel
  | _, S fuel' =>
      let fbn := off / BSIZE in
      assert (fbn <? MAXFILE) ;;
      let! (din, x) := append_block din fbn in
      let n1 := Z.min (Z.of_nat (length p)) ((fbn + 1) * BSIZE - off) in
      let! buf := rsect x in
      wsect x (put buf (Z.to_nat (off - fbn * BSIZE)) (take (Z.to_nat n1) p)) ;;
      append_loop fuel' din (off + n1) (drop (Z.to_nat n1) p)
  end.
Definition iappend (inum : Z) (xp : list Z) : M mkfs unit :=
  let! din := rinode inum in
  let off := xint (d_size din) in
  let! (din, off) := append_loop (length xp) din off xp in
  winode inum (dset_size (xint off) din).

(** The name in the file system: without a leading user/ and a leading _. *)
Definition USER : list Z := [117; 115; 101; 114; 47].
Definition UNDERSCORE : Z := 95.
Definition strip_user (arg : list Z) : list Z :=
  if decide (take 5 arg = USER) then drop 5 arg else arg.
Definition strip_underscore (name : list Z) : list Z :=
  match name with c :: rest => if c =? UNDERSCORE then rest else name | [] => name end.

Section main.
Context (creates : list Z -> bool) (host : list Z -> option (list (list Z))).

Definition add_file (rootino : Z) (arg : list Z) : M mkfs unit :=
  let shortname := strip_user arg in
  assert (negb (existsb (Z.eqb SLASH) shortname)) ;;
  match host arg with
  | None => die "open"
  | Some chunks =>
      let shortname := strip_underscore shortname in
      assert (length shortname <=? DIRSIZ)%nat ;;
      let! inum := mk_ialloc T_FILE in
      iappend rootino (dirent_bytes (xshort inum) shortname) ;;
      for_each chunks (iappend inum)
  end.

(** [argv] are the arguments after the name of the program. *)
Definition mkfs_main (argv : list (list Z)) : M mkfs unit :=
  match argv with
  | [] => die "Usage: mkfs fs.img files..."
  | image :: args =>
      if negb (creates image) then die "open" else
      modify (fun s => Mkfs (img s) (img_size s) (freeinode s) nmeta) ;;
      for_each (seqZ 0 FSSIZE) (fun i => wsect i zero_block) ;;
      wsect 1 (put zero_block 0 sb_bytes) ;;
      let! rootino := mk_ialloc T_DIR in
      assert (rootino =? ROOTINO) ;;
      iappend rootino (dirent_bytes (xshort rootino) [46]) ;;
      iappend rootino (dirent_bytes (xshort rootino) [46; 46]) ;;
      for_each args (add_file rootino) ;;
      let! din := rinode rootino in
      let off := xint (d_size din) in
      let off := u32 ((off / BSIZE + 1) * BSIZE) in
      winode rootino (dset_size (xint off) din) ;;
      let! used := gets freeblock in
      mk_balloc (i32 used)
  end.
End main.

(** An empty image and the initial values of the variables. *)
Definition mkfs_init : mkfs := Mkfs (fun _ => zero_block) 0 1 0.
