(* ===== verification/MkfsInv.v ===== *)
(** * The image under construction

    mkfs keeps the number of blocks it has used in [freeblock] and writes the
    bitmap at the end.  The view of a state is the image with the bitmap that
    would be written now; on it, [next_block] is the kernel's allocation of a
    block, and the representation of files of FsFile and FsData applies. *)

From S2P Require Import Prelude Bytes Bio Log Fs FsBlocks FsInode FsFile FsData Mkfs.

(** ** The layout *)

Lemma sb_eq : sb = Superblock FSMAGIC 2000 1954 200 30 2 32 45.
Proof. reflexivity. Qed.
Lemma data_start_eq : data_start sb = 46.
Proof. reflexivity. Qed.
Lemma mk_sb_ok : sb_ok sb.
Proof. by split. Qed.
Lemma sb_size_eq : sb_size sb = 2000.
Proof. reflexivity. Qed.
Lemma bmapstart_eq : sb_bmapstart sb = 45.
Proof. reflexivity. Qed.
Lemma inodestart_eq : sb_inodestart sb = 32.
Proof. reflexivity. Qed.
Lemma mk_BBLOCK b : 0 <= b < 2000 -> BBLOCK b sb = 45.
Proof. intros Hb. unfold BBLOCK. rewrite bmapstart_eq. change BPB with 8192. rewrite u32_id by lia. lia. Qed.

Lemma xint_id x : 0 <= x < 2 ^ 32 -> xint x = x.
Proof. intros Hx. unfold xint, u8. cbn [le_val]. rewrite !Z.shiftr_div_pow2 by done. lia. Qed.
Lemma xshort_id x : 0 <= x < 2 ^ 16 -> xshort x = x.
Proof. intros Hx. unfold xshort, u8. cbn [le_val]. rewrite !Z.shiftr_div_pow2 by done. lia. Qed.
Lemma sector_id b : 0 <= b < 2 ^ 22 -> sector b = b.
Proof. intros Hb. unfold sector. rewrite u32_id by (unfold BSIZE; lia). unfold BSIZE. lia. Qed.

(** ** The bitmap *)

Lemma length_bitmap n : length (bitmap n) = Z.to_nat BSIZE.
Proof. induction n as [|n IH]; [apply length_zero_block|]. cbn [bitmap]. by rewrite length_bit_set. Qed.

Lemma bit_free_zero bi : bit_free zero_block bi = true.
Proof.
  rewrite bit_free_testbit. unfold byte_of. rewrite nth_lookup.
  destruct (zero_block !! Z.to_nat (bi / 8)) as [v|] eqn:E; cbn [default]; [|by rewrite Z.bits_0].
  pose proof zero_block_zero as Hz. rewrite Forall_lookup in Hz. rewrite (Hz _ _ E). by rewrite Z.bits_0.
Qed.

Lemma bit_free_bitmap n bi : Z.of_nat n <= 8192 -> 0 <= bi -> bit_free (bitmap n) bi = negb (bi <? Z.of_nat n).
Proof.
  intros Hn Hbi. induction n as [|n IH]; cbn [bitmap].
  - rewrite bit_free_zero. by rewrite (proj2 (Z.ltb_ge _ _)) by lia.
  - rewrite bit_free_set by (rewrite ?length_bitmap; unfold BSIZE; lia). rewrite IH by lia. lia.
Qed.

(** ** The view *)

Definition view (s : mkfs) : Z -> block := upd (img s) (sb_bmapstart sb) (bitmap (Z.to_nat (freeblock s))).

(** View [V], with the next free block [fb] and the next free inode [fi]. *)
Record mkat (V : Z -> block) (fb fi : Z) (s : mkfs) : Prop := {
  mk_size : img_size s = FSSIZE;
  mk_len : forall b, length (img s b) = Z.to_nat BSIZE;
  mk_view : view s = V;
  mk_fb : freeblock s = fb;
  mk_fi : freeinode s = fi;
  mk_range : nmeta <= fb <= FSSIZE;
  mk_zero : forall b, fb <= b -> V b = zero_block;
}.

Lemma nmeta_eq : nmeta = 46.
Proof. reflexivity. Qed.

Lemma mkat_range V fb fi s : mkat V fb fi s -> 46 <= fb <= 2000.
Proof. intros H. apply H. Qed.

Lemma mkat_fb V fb fb' fi s : mkat V fb fi s -> fb = fb' -> mkat V fb' fi s.
Proof. by intros H <-. Qed.

Lemma mkat_img V fb fi s b : mkat V fb fi s -> b <> 45 -> img s b = V b.
Proof. intros H Hb. rewrite <-(mk_view _ _ _ _ H). unfold view. by rewrite upd_other. Qed.

Lemma mkat_used V fb fi s b : mkat V fb fi s -> 0 <= b < sb_size sb -> used sb V b = (b <? fb).
Proof.
  intros H Hb. rewrite sb_size_eq in Hb. pose proof (mkat_range _ _ _ _ H) as Hr.
  unfold used. rewrite mk_BBLOCK by done. rewrite <-(mk_view _ _ _ _ H). unfold view.
  rewrite bmapstart_eq, upd_same, (mk_fb _ _ _ _ H). change BPB with 8192.
  rewrite Z.mod_small by lia. rewrite bit_free_bitmap by lia. lia.
Qed.

Lemma mkat_blocks V fb fi s : mkat V fb fi s -> blocks_ok sb V.
Proof.
  intros H. split.
  - intros b. rewrite <-(mk_view _ _ _ _ H). unfold view. upd_cases b (sb_bmapstart sb); [apply length_bitmap|apply H].
  - intros b Hb. rewrite data_start_eq in Hb. pose proof (mkat_range _ _ _ _ H).
    rewrite (mkat_used _ _ _ _ _ H) by (rewrite sb_size_eq; lia). lia.
Qed.

Lemma mkat_unused V fb fi s : mkat V fb fi s -> fb < FSSIZE -> used sb V fb = false.
Proof.
  intros H Hb. pose proof (mkat_range _ _ _ _ H). unfold FSSIZE in Hb.
  rewrite (mkat_used _ _ _ _ _ H) by (rewrite sb_size_eq; lia). lia.
Qed.

(** ** The operations on the view *)

Lemma wp_rsect V fb fi b (Q : block -> mkfs -> Prop) s :
  mkat V fb fi s -> 0 <= b < 2000 -> b <> 45 -> Q (V b) s -> wp (rsect b) Q s.
Proof.
  intros H Hb Hb' HQ. unfold rsect. rewrite sector_id by lia. wp_steps; rewrite (mk_size _ _ _ _ H) in *.
  - by rewrite (mkat_img _ _ _ _ _ H Hb').
  - unfold FSSIZE in *. lia.
Qed.

Lemma wp_wsect V fb fi b buf (Q : unit -> mkfs -> Prop) s :
  mkat V fb fi s -> 0 <= b < fb -> b <> 45 -> length buf = Z.to_nat BSIZE ->
  (forall s', mkat (upd V b buf) fb fi s' -> Q tt s') -> wp (wsect b buf) Q s.
Proof.
  intros H Hb Hb' Hl HQ. pose proof (mkat_range _ _ _ _ H). unfold wsect. rewrite sector_id by lia.
  apply wp_modify, HQ. destruct H as [H1 H2 H3 H4 H5 H6 H7]. unfold FSSIZE in *. split; unfold set_img; cbn [img img_size freeblock freeinode]; try done.
  - rewrite H1. unfold FSSIZE. lia.
  - intros b'. upd_cases b' b; done.
  - rewrite <-H3. unfold view. cbn [img freeblock]. rewrite bmapstart_eq. apply functional_extensionality. intros b'.
    upd_cases b' 45; [by rewrite upd_other by lia; rewrite upd_same|]. upd_cases b' b; [done|by rewrite upd_other].
  - intros b' Hb''. rewrite upd_other by lia. by apply H7.
Qed.

Lemma wp_next_block V fb fi (Q : Z -> mkfs -> Prop) s :
  mkat V fb fi s -> fb < FSSIZE ->
  (forall s', mkat (allocated sb fb V) (fb + 1) fi s' -> Q fb s') -> wp next_block Q s.
Proof.
  intros H Hb HQ. pose proof (mkat_range _ _ _ _ H) as Hr. unfold FSSIZE in Hb.
  unfold next_block. wp_steps. rewrite (mk_fb _ _ _ _ H). apply HQ. rewrite u32_id by lia.
  destruct H as [H1 H2 H3 H4 H5 H6 H7]. split; unfold set_img; cbn [img img_size freeblock freeinode]; try done.
  - rewrite <-H3. unfold view, allocated, mark. cbn [img freeblock]. rewrite mk_BBLOCK by lia. rewrite H4.
    apply functional_extensionality. intros b. rewrite bmapstart_eq.
    destruct (decide (b = 45)) as [->|Hb'].
    + rewrite upd_same, upd_other by lia. rewrite !upd_same.
      replace (Z.to_nat (fb + 1)) with (S (Z.to_nat fb)) by lia. cbn [bitmap]. f_equal.
      change BPB with 8192. lia.
    + destruct (decide (b = fb)) as [->|Hne]; [|by rewrite !upd_other by done].
      rewrite upd_same, upd_other by done. rewrite <-(H7 fb) by lia. rewrite <-H3. unfold view.
      by rewrite upd_other by (rewrite bmapstart_eq; lia).
  - unfold nmeta, FSSIZE in *. lia.
  - intros b Hb'. rewrite (allocated_other sb mk_sb_ok); [apply H7; lia|rewrite sb_size_eq; lia|lia|].
    rewrite data_start_eq. lia.
Qed.

Lemma mk_IBLOCK inum : inum_ok sb inum -> 32 <= IBLOCK inum sb < 45.
Proof. intros Hi. apply (IBLOCK_range sb mk_sb_ok inum Hi). Qed.

Lemma wp_rinode V fb fi inum (Q : dinode -> mkfs -> Prop) s :
  mkat V fb fi s -> inum_ok sb inum -> Q (dino sb V inum) s -> wp (rinode inum) Q s.
Proof.
  intros H Hi HQ. pose proof (mk_IBLOCK inum Hi). unfold rinode. apply wp_bind.
  eapply wp_rsect; [exact H|lia|lia|]. by apply wp_ret.
Qed.

Lemma wp_winode V fb fi inum x (Q : unit -> mkfs -> Prop) s :
  mkat V fb fi s -> inum_ok sb inum -> (forall s', mkat (put_dino sb x inum V) fb fi s' -> Q tt s') ->
  wp (winode inum x) Q s.
Proof.
  intros H Hi HQ. pose proof (mk_IBLOCK inum Hi). pose proof (mkat_range _ _ _ _ H). unfold winode. apply wp_bind.
  eapply wp_rsect; [exact H|lia|lia|]. eapply wp_wsect; [exact H|lia|lia| |done].
  rewrite length_encode. by apply (mkat_blocks _ _ _ _ H).
Qed.

(** ** Growing a file *)

(** The blocks a file of [size] bytes takes. *)
Definition nblk (size : Z) : Z :=
  let n := (size + BSIZE - 1) / BSIZE in n + if Z.of_nat NDIRECT <? n then 1 else 0.

(** Exactly the blocks below [e] are mapped, and the bytes from [t] on are 0. *)
Record grown (e t : Z) (d : dinode) (V : Z -> block) : Prop := {
  gr_map : forall bn, 0 <= bn < MAXFILE -> (slot d V (data_slot bn) <> 0 <-> bn * BSIZE < e);
  gr_ind : slot d V NDIRECT <> 0 <-> Z.of_nat NDIRECT * BSIZE < e;
  gr_tail : forall o, t <= o < MAXFILE * BSIZE -> mapped d V o -> fbyte d V o = 0;
}.

(** The blocks from [fb] to [fb'] are blocks of the file. *)
Definition covers (d : dinode) (V : Z -> block) (fb fb' : Z) : Prop :=
  forall b, fb <= b < fb' -> exists i, (i < NSLOT)%nat /\ slot d V i = b.

Lemma covers_trans d V fb fb1 d' V' fb' : 0 < fb ->
  (forall i, (i < NSLOT)%nat -> slot d V i <> 0 -> slot d' V' i = slot d V i) ->
  covers d V fb fb1 -> covers d' V' fb1 fb' -> covers d' V' fb fb'.
Proof.
  intros Hfb Hs H1 H2 b Hb. destruct (decide (b < fb1)) as [Hlt|Hge]; [|apply H2; lia].
  destruct (H1 b ltac:(lia)) as (i & Hi & E). exists i. split; [done|]. by rewrite Hs by (done || lia).
Qed.

Lemma covers_nil d V fb : covers d V fb fb.
Proof. intros b Hb. lia. Qed.

(** The slots of [d] in [V] become those of [d'] in [V'], with a block in slot
    [j]; the next free block becomes [fb']. *)
Record got_slot (d : dinode) (V : Z -> block) (fb : Z) (j : nat) (d' : dinode) (V' : Z -> block) (fb' : Z) : Prop := {
  gs_ext : extends sb d V d' V';
  gs_slot : slot d' V' j <> 0;
  gs_rest : forall i, (i < NSLOT)%nat -> i <> j -> slot d' V' i = slot d V i;
  gs_fb : fb' = fb + if slot d V j =? 0 then 1 else 0;
  gs_cover : covers d' V' fb fb';
}.

Section grow.
Context (V : Z -> block) (fb fi : Z) (d : dinode) (s : mkfs).
Context (H : mkat V fb fi s) (Hd : dinode_ok d) (Hf : file_ok sb d V).

Lemma slot_uint i : (i <= NDIRECT)%nat -> xint (nth i (d_addrs d) 0) = slot d V i.
Proof using Hd.
  intros Hi. rewrite slot_low by done. apply xint_id.
  destruct (lookup_lt_is_Some_2 (d_addrs d) i) as [v Hv]; [rewrite (do_addrs _ Hd); lia|].
  rewrite nth_lookup, Hv. pose proof (do_addr _ Hd) as Ha. rewrite Forall_lookup in Ha. apply (Ha _ _ Hv).
Qed.

Lemma got_old j : slot d V j <> 0 -> got_slot d V fb j d V fb.
Proof using All.
  intros Hn. split; try done.
  - apply extends_refl; [by apply (mkat_blocks _ _ _ _ H)|done|done].
  - rewrite (proj2 (Z.eqb_neq _ _)) by done. lia.
  - apply covers_nil.
Qed.

Lemma grow_addr_spec j : (j <= NDIRECT)%nat -> (slot d V j = 0 -> fb < FSSIZE) ->
  wp (if xint (nth j (d_addrs d) 0) =? 0
      then let! b := next_block in ret (dset_addr j (xint b) d) else ret d)
    (fun d' s' => exists V' fb', mkat V' fb' fi s' /\ got_slot d V fb j d' V' fb') s.
Proof using All.
  intros Hj Hroom. rewrite slot_uint by done. pose proof (mkat_range _ _ _ _ H).
  destruct (Z.eqb_spec (slot d V j) 0) as [Hz|Hn]; [|apply wp_ret; exists V, fb; split; [done|by apply got_old]].
  specialize (Hroom Hz). apply wp_bind. eapply wp_next_block; [exact H|done|]. intros s' H'. apply wp_ret.
  rewrite xint_id by lia. exists (allocated sb fb V), (fb + 1). split; [done|].
  pose proof (mkat_unused _ _ _ _ H Hroom). unfold FSSIZE in Hroom.
  assert (Hr : data_start sb <= fb < sb_size sb) by (rewrite data_start_eq, sb_size_eq; lia).
  pose proof (fun i => slot_grow_addr sb mk_sb_ok d V j fb i Hd Hf Hj Hz Hr ltac:(done)) as Hs. split.
  - apply (grow_addr sb mk_sb_ok); try done. by apply (mkat_blocks _ _ _ _ H).
  - rewrite Hs, decide_True by done. lia.
  - intros i Hi Hne. by rewrite Hs, decide_False.
  - rewrite Hz. done.
  - intros b Hb. exists j. split; [unfold NSLOT; lia|]. rewrite Hs, decide_True by done. lia.
Qed.

Lemma grow_entry_spec j : let k := (4 * (j - 13))%nat in
  (NDIRECT < j < NSLOT)%nat -> slot d V NDIRECT <> 0 -> (slot d V j = 0 -> fb < FSSIZE) ->
  wp (let! indirect := rsect (slot d V NDIRECT) in
      let! indirect := (if get32 indirect k =? 0
                        then
                          let! b := next_block in
                          let indirect := put32 indirect k (xint b) in
                          wsect (slot d V NDIRECT) indirect ;;
                          ret indirect
                        else ret indirect) in
      ret (d, xint (get32 indirect k)))
    (fun '(d', x) s' => exists V' fb', mkat V' fb' fi s' /\ d' = d /\ got_slot d V fb j d V' fb' /\ x = slot d V' j) s.
Proof using All.
  intros k Hj Hn Hroom. pose proof (mkat_range _ _ _ _ H) as Hfb. pose proof (mkat_blocks _ _ _ _ H) as Hv.
  destruct (fo_data sb _ _ Hf NDIRECT ltac:(unfold NSLOT; lia) Hn) as [Hir Hiu].
  rewrite data_start_eq, sb_size_eq in Hir. rewrite (mkat_used _ _ _ _ _ H) in Hiu by (rewrite sb_size_eq; lia).
  apply Z.ltb_lt in Hiu.
  apply wp_bind. eapply wp_rsect; [exact H|lia|lia|].
  assert (Hk : get32 (V (slot d V NDIRECT)) k = slot d V j) by (symmetry; apply slot_high; [lia|done]).
  rewrite Hk. apply wp_bind. destruct (Z.eqb_spec (slot d V j) 0) as [Hz|Hnz].
  - specialize (Hroom Hz). apply wp_bind. eapply wp_next_block; [exact H|done|]. intros s1 H1. apply wp_bind.
    pose proof (mkat_unused _ _ _ _ H Hroom) as Hun. pose proof Hroom as Hroom'. unfold FSSIZE in Hroom'.
    assert (Hr : data_start sb <= fb < sb_size sb) by (rewrite data_start_eq, sb_size_eq; lia).
    rewrite xint_id by lia.
    assert (Hal : allocated sb fb V (slot d V NDIRECT) = V (slot d V NDIRECT)).
    { apply (allocated_other sb mk_sb_ok); [rewrite sb_size_eq; lia|lia|rewrite data_start_eq; lia]. }
    assert (Hl : length (V (slot d V NDIRECT)) = 1024%nat) by apply Hv.
    eapply wp_wsect; [exact H1|lia|lia|by rewrite length_put32, Hl|]. intros s2 H2. apply wp_ret, wp_ret.
    exists (entry_set sb d V j fb), (fb + 1). unfold entry_set. cbv zeta. rewrite Hal. fold k.
    split_and!; [done|done| |].
    + pose proof (fun i Hi => slot_grow_entry sb mk_sb_ok d V j fb i Hv Hf Hj Hi Hn Hr Hun) as Hs.
      pose proof (grow_entry sb mk_sb_ok d V j fb Hv Hd Hf Hj Hn Hz Hr Hun) as He.
      unfold entry_set in Hs, He. cbv zeta in Hs, He. rewrite Hal in Hs, He. fold k in Hs, He. split; [done|..].
      * rewrite Hs, decide_True by (done || lia). lia.
      * intros i Hi Hne. by rewrite Hs, decide_False.
      * by rewrite Hz.
      * intros b Hb. exists j. split; [lia|]. rewrite Hs, decide_True by (done || lia). lia.
    + pose proof (slot_grow_entry sb mk_sb_ok d V j fb j Hv Hf Hj ltac:(lia) Hn Hr Hun) as Hs.
      unfold entry_set in Hs. cbv zeta in Hs. rewrite Hal in Hs. fold k in Hs. rewrite Hs, decide_True by done.
      unfold k, NSLOT, NDIRECT, NINDIRECT in *. rewrite get32_put32 by lia. apply xint_id. lia.
  - apply wp_ret, wp_ret. exists V, fb. rewrite Hk. split_and!; [done|done|by apply got_old|]. apply xint_id.
    destruct (fo_data sb _ _ Hf j ltac:(lia) Hnz) as [Hjr _]. rewrite data_start_eq, sb_size_eq in Hjr. lia.
Qed.
End grow.

Lemma nblk_step off : 0 <= off ->
  nblk (off + 1) - nblk off =
  (if off mod BSIZE =? 0 then 1 else 0) + (if off =? Z.of_nat NDIRECT * BSIZE then 1 else 0).
Proof.
  intros Ho. unfold nblk, BSIZE, NDIRECT. cbv zeta.
  destruct (Z.eqb_spec (off mod 1024) 0), (Z.eqb_spec off (Z.of_nat 12 * 1024)),
    (Z.ltb_spec (Z.of_nat 12) ((off + 1 + 1024 - 1) / 1024)), (Z.ltb_spec (Z.of_nat 12) ((off + 1024 - 1) / 1024)); lia.
Qed.

Lemma nth_zero_block i : nth i zero_block 0 = 0.
Proof.
  rewrite nth_lookup. destruct (zero_block !! i) as [v|] eqn:E; [|done].
  pose proof zero_block_zero as Hz. rewrite Forall_lookup in Hz. apply (Hz _ _ E).
Qed.

Section append.
Context (V : Z -> block) (d : dinode) (off : Z).
Context (Hv : blocks_ok sb V) (Hf : file_ok sb d V) (Hg : grown off off d V) (Ho : 0 <= off < MAXFILE * BSIZE).
Abbreviation q := (off / BSIZE).

Lemma q_slot : (data_slot q < NSLOT)%nat /\ data_slot q <> NDIRECT.
Proof using Ho. apply data_slot_range. by apply block_no. Qed.

Lemma q_zero : slot d V (data_slot q) = 0 <-> off mod BSIZE = 0.
Proof using Hg Ho.
  pose proof (gr_map _ _ _ _ Hg q (block_no off Ho)) as Hm. unfold BSIZE in *. lia.
Qed.

Lemma ind_zero : Z.of_nat NDIRECT <= q -> slot d V NDIRECT = 0 <-> off = Z.of_nat NDIRECT * BSIZE.
Proof using Hg Ho.
  intros Hq. pose proof (gr_ind _ _ _ _ Hg) as Hm. unfold BSIZE, NDIRECT in *. lia.
Qed.

Lemma grown_step d' V' : extends sb d V d' V' -> slot d' V' (data_slot q) <> 0 ->
  (q < Z.of_nat NDIRECT -> slot d' V' NDIRECT = slot d V NDIRECT) ->
  (Z.of_nat NDIRECT <= q -> slot d' V' NDIRECT <> 0) ->
  (forall i, (i < NSLOT)%nat -> i <> data_slot q -> i <> NDIRECT -> slot d' V' i = slot d V i) ->
  grown (off + 1) off d' V'.
Proof using All.
  intros He Hq Hlow Hhigh Hs. pose proof (block_no off Ho) as Hb. split.
  - intros bn Hbn. destruct (decide (bn = q)) as [->|Hne]; [unfold BSIZE in *; intuition lia|].
    destruct (data_slot_range bn Hbn) as [H1 H2].
    rewrite Hs; [|done|intros E; apply Hne; apply data_slot_inj; lia || done|done].
    rewrite (gr_map _ _ _ _ Hg bn Hbn). unfold BSIZE in *. lia.
  - pose proof (gr_ind _ _ _ _ Hg) as Hi. unfold BSIZE, NDIRECT in *.
    destruct (decide (off / 1024 < Z.of_nat 12)) as [Hlt|Hge].
    + rewrite Hlow by done. lia.
    + specialize (Hhigh ltac:(lia)). lia.
  - intros o Hr Hm. destruct (decide (slot d V (data_slot (o / BSIZE)) = 0)) as [E|E].
    + destruct (data_slot_range _ (block_no o ltac:(lia))) as [H1 H2].
      destruct (ex_new _ _ _ _ _ He _ H1 E Hm) as [_ Hz]. unfold fbyte, fblock. rewrite Hz by done. apply nth_zero_block.
    + rewrite (wr_out _ _ _ _ _ _ _ (wrote_extends sb d V d' V' 0 Hv Hf He)); [|lia|exact E|simpl; lia].
      by apply (gr_tail _ _ _ _ Hg).
Qed.
End append.

Lemma append_block_spec V fb fi d off s :
  mkat V fb fi s -> dinode_ok d -> file_ok sb d V -> grown off off d V -> 0 <= off < MAXFILE * BSIZE ->
  fb + (nblk (off + 1) - nblk off) <= FSSIZE ->
  wp (append_block d (off / BSIZE)) (fun '(d', x) s' => exists V',
    mkat V' (fb + (nblk (off + 1) - nblk off)) fi s' /\ extends sb d V d' V' /\ grown (off + 1) off d' V' /\
    x = slot d' V' (data_slot (off / BSIZE)) /\ covers d' V' fb (fb + (nblk (off + 1) - nblk off))) s.
Proof.
  intros H Hd Hf Hg Ho Hroom. pose proof (mkat_blocks _ _ _ _ H) as Hv. rewrite nblk_step in * by lia.
  destruct (q_slot off Ho) as [Hq1 Hq2]. pose proof (q_zero V d off Hg Ho) as Hqz. pose proof (ind_zero V d off Hg Ho) as Hiz.
  unfold append_block. cbv zeta.
  destruct (Z.ltb_spec (off / BSIZE) (Z.of_nat NDIRECT)) as [Hlt|Hge].
  - assert (Eq : data_slot (off / BSIZE) = Z.to_nat (off / BSIZE)) by (unfold data_slot; by rewrite (proj2 (Z.ltb_lt _ _))).
    rewrite Eq in *. assert (E12 : (off =? Z.of_nat NDIRECT * BSIZE) = false) by (unfold BSIZE in *; lia). rewrite E12 in *.
    apply wp_bind. eapply wp_mono; [apply (grow_addr_spec V fb fi d s H Hd Hf); [lia|]|].
    { intros Hz. rewrite (proj2 (Z.eqb_eq _ _)) in Hroom by tauto. lia. }
    intros d' s' (V' & fb' & H' & [G1 G2 G3 G4 G5]). apply wp_ret. exists V'.
    rewrite (slot_uint V' d') by (try apply G1; lia).
    match goal with |- mkat _ ?b _ _ /\ _ => replace b with fb' end.
    2: { rewrite G4. destruct (Z.eqb_spec (off mod BSIZE) 0), (Z.eqb_spec (slot d V (Z.to_nat (off / BSIZE))) 0); tauto || lia. }
    split_and!; [done|done| |done|done].
    + apply (grown_step V d off Hv Hf Hg Ho); rewrite ?Eq; try done; [|lia|].
      * intros _. apply G3; [unfold NSLOT; lia|done].
      * intros i Hi Hne _. by apply G3.
  - assert (Eq : data_slot (off / BSIZE) = (Z.to_nat (off / BSIZE) + 1)%nat) by (unfold data_slot; by rewrite (proj2 (Z.ltb_ge _ _))).
    apply wp_bind. eapply wp_mono; [apply (grow_addr_spec V fb fi d s H Hd Hf); [lia|]|].
    { intros Hz. destruct (Z.eqb_spec off (Z.of_nat NDIRECT * BSIZE)), (Z.eqb_spec (off mod BSIZE) 0); tauto || lia. }
    intros d1 s1 (V1 & fb1 & H1 & [G1 G2 G3 G4 G5]). rewrite (slot_uint V1 d1) by (try apply G1; lia).
    replace (4 * (Z.to_nat (off / BSIZE) - NDIRECT))%nat with (4 * (data_slot (off / BSIZE) - 13))%nat by (unfold NDIRECT; lia).
    assert (Hsl : slot d1 V1 (data_slot (off / BSIZE)) = slot d V (data_slot (off / BSIZE))) by (by apply G3).
    eapply wp_mono; [apply (grow_entry_spec V1 fb1 fi d1 s1 H1); try apply G1; try done; [unfold NDIRECT in *; lia|]|].
    { rewrite Hsl, G4. intros Hz. rewrite (proj2 (Z.eqb_eq (off mod BSIZE) 0)) in Hroom by tauto.
      destruct (Z.eqb_spec off (Z.of_nat NDIRECT * BSIZE)), (Z.eqb_spec (slot d V NDIRECT) 0); try tauto; lia. }
    intros [d2 x] s2 (V2 & fb2 & H2 & -> & [K1 K2 K3 K4 K5] & ->). exists V2.
    assert (He : extends sb d V d1 V2) by (by apply (extends_trans sb mk_sb_ok d V d1 V1)).
    match goal with |- mkat _ ?b _ _ /\ _ => replace b with fb2 end.
    2: { rewrite K4, Hsl, G4. destruct (Z.eqb_spec off (Z.of_nat NDIRECT * BSIZE)), (Z.eqb_spec (slot d V NDIRECT) 0),
        (Z.eqb_spec (off mod BSIZE) 0), (Z.eqb_spec (slot d V (data_slot (off / BSIZE))) 0); tauto || lia. }
    split_and!; [done|done| |done|].
    + apply (grown_step V d off Hv Hf Hg Ho); try done.
      * lia.
      * intros i Hi Hne Hne'. rewrite K3 by done. by apply G3.
    + pose proof (mkat_range _ _ _ _ H). apply (covers_trans d1 V1 fb fb1); [lia|by apply K1|done|done].
Qed.

(** ** Appending *)

Lemma nblk_mono a b : 0 <= a <= b -> nblk a <= nblk b.
Proof.
  intros Hab. unfold nblk, BSIZE, NDIRECT. cbv zeta.
  destruct (Z.ltb_spec (Z.of_nat 12) ((a + 1024 - 1) / 1024)), (Z.ltb_spec (Z.of_nat 12) ((b + 1024 - 1) / 1024)); lia.
Qed.
Lemma nblk_same off m : 0 <= off -> 0 < m <= BSIZE - off mod BSIZE -> nblk (off + m) = nblk (off + 1).
Proof.
  intros Ho Hm. unfold nblk, BSIZE in *. cbv zeta.
  by replace ((off + m + 1024 - 1) / 1024) with ((off + 1 + 1024 - 1) / 1024) by lia.
Qed.

(** The slots depend on the indirect block only. *)
Lemma slot_frame d V V' i :
  (slot d V NDIRECT <> 0 -> V' (slot d V NDIRECT) = V (slot d V NDIRECT)) -> slot d V' i = slot d V i.
Proof.
  rewrite slot_low by done. intros HV. unfold slot. destruct (_ <=? _)%nat; [done|].
  destruct (Z.eqb_spec (nth NDIRECT (d_addrs d) 0) 0); [done|]. by rewrite HV.
Qed.

(** The bytes [bs], put into the last block. *)
Lemma grown_put V d off bs : let b := slot d V (data_slot (off / BSIZE)) in
  blocks_ok sb V -> dinode_ok d -> file_ok sb d V -> grown (off + 1) off d V -> 0 <= off < MAXFILE * BSIZE ->
  (0 < length bs)%nat -> off mod BSIZE + Z.of_nat (length bs) <= BSIZE ->
  let V' := upd V b (put (V b) (Z.to_nat (off mod BSIZE)) bs) in
  wrote sb d V d V' off bs /\ grown (off + Z.of_nat (length bs)) (off + Z.of_nat (length bs)) d V'.
Proof.
  intros b Hv Hd Hf Hg Ho Hl Hbs V'. destruct (q_slot off Ho) as [Hq1 Hq2].
  assert (Hm : mapped d V off) by (apply (gr_map _ _ _ _ Hg (off / BSIZE) (block_no off Ho)); unfold BSIZE; lia).
  pose proof (wrote_block sb mk_sb_ok d V off bs Hv Hd Hf Ho Hm Hbs) as Hw. cbv zeta in Hw. fold b in Hw. fold V' in Hw.
  assert (Hs : forall i, slot d V' i = slot d V i).
  { intros i. apply slot_frame. intros Hn. unfold V'. rewrite upd_other; [done|]. intros E. apply Hq2. symmetry.
    eapply (fo_inj sb _ _ Hf); [unfold NSLOT; lia|done|done|done]. }
  split; [done|]. split.
  - intros bn Hbn. rewrite Hs, (gr_map _ _ _ _ Hg bn Hbn). unfold BSIZE in *. lia.
  - rewrite Hs, (gr_ind _ _ _ _ Hg). unfold BSIZE, NDIRECT in *. lia.
  - intros o Hor Hmo. unfold mapped in Hmo. rewrite Hs in Hmo.
    rewrite (wr_out _ _ _ _ _ _ _ Hw); [|lia|exact Hmo|lia]. apply (gr_tail _ _ _ _ Hg); [lia|exact Hmo].
Qed.

Definition len (bs : list Z) : Z := Z.of_nat (length bs).

Lemma append_loop_spec fuel V fb fi d off p s :
  mkat V fb fi s -> dinode_ok d -> file_ok sb d V -> grown off off d V -> 0 <= off ->
  off + len p <= MAXFILE * BSIZE -> (length p <= fuel)%nat -> fb + (nblk (off + len p) - nblk off) <= FSSIZE ->
  wp (append_loop fuel d off p) (fun '(d', off') s' => off' = off + len p /\ exists V',
    mkat V' (fb + (nblk (off + len p) - nblk off)) fi s' /\ wrote sb d V d' V' off p /\ grown off' off' d' V' /\
    covers d' V' fb (fb + (nblk (off + len p) - nblk off))) s.
Proof.
  unfold len. revert V fb d off p s. induction fuel as [|fuel IH]; intros V fb d off p s H Hd Hf Hg Ho Hmax Hfuel Hroom.
  all: pose proof (mkat_blocks _ _ _ _ H) as Hv; destruct p as [|c p].
  1, 3: apply wp_ret; cbn [length]; rewrite !Z.add_0_r, Z.sub_diag, Z.add_0_r; split; [done|]; exists V;
    split_and!; [done| |done|apply covers_nil]; apply wrote_extends; [done|done|by apply extends_refl].
  1: simpl in Hfuel; lia.
  cbn [append_loop]. set (p' := c :: p) in *. set (m := Z.min (Z.of_nat (length p')) ((off / BSIZE + 1) * BSIZE - off)).
  assert (Hlp : (0 < length p')%nat) by (simpl; lia).
  assert (Hm : 0 < m /\ m <= Z.of_nat (length p') /\ m <= BSIZE - off mod BSIZE) by (unfold m, BSIZE; lia).
  assert (Hq : off - off / BSIZE * BSIZE = off mod BSIZE) by (unfold BSIZE; lia).
  pose proof (block_no off ltac:(lia)) as Hb. unfold assert. rewrite (proj2 (Z.ltb_lt _ _)) by lia.
  apply wp_bind, wp_ret, wp_bind. pose proof (nblk_same off m Ho ltac:(lia)) as Hsame.
  pose proof (nblk_mono (off + m) (off + Z.of_nat (length p')) ltac:(lia)) as Hmono.
  eapply wp_mono; [apply (append_block_spec V fb fi d off s H Hd Hf Hg); lia|].
  intros [d1 x] s1 (V1 & H1 & He & Hg1 & -> & Hcv). rewrite Hq. pose proof (mkat_blocks _ _ _ _ H1) as Hv1.
  pose proof He as [_ Hd1 Hf1 _ _ _ _ _ _].
  set (b := slot d1 V1 (data_slot (off / BSIZE))) in *. destruct (q_slot off ltac:(lia)) as [Hq1 Hq2].
  assert (Hn : b <> 0) by (apply (gr_map _ _ _ _ Hg1 _ Hb); unfold BSIZE; lia).
  destruct (fo_data sb _ _ Hf1 _ Hq1 Hn) as [Hr Hu]. fold b in Hr, Hu. rewrite data_start_eq, sb_size_eq in Hr.
  rewrite (mkat_used _ _ _ _ _ H1) in Hu by (rewrite sb_size_eq; lia). apply Z.ltb_lt in Hu.
  apply wp_bind. eapply wp_rsect; [exact H1|lia|lia|]. apply wp_bind.
  assert (Hlt : length (take (Z.to_nat m) p') = Z.to_nat m) by (rewrite length_take; lia).
  destruct (grown_put V1 d1 off (take (Z.to_nat m) p') Hv1 Hd1 Hf1 Hg1 ltac:(lia) ltac:(lia) ltac:(lia)) as [Hw Hg2].
  fold b in Hw, Hg2. eapply wp_wsect; [exact H1|lia|lia|rewrite length_put; apply Hv1|]. intros s2 H2.
  set (V2 := upd V1 b _) in *. rewrite Hlt, Z2Nat.id in Hg2 by lia. clearbody V2.
  assert (Hl2 : Z.of_nat (length (drop (Z.to_nat m) p')) = Z.of_nat (length p') - m) by (rewrite length_drop; lia).
  eapply wp_mono; [apply (IH V2 _ d1 (off + m) (drop (Z.to_nat m) p') s2 H2); try apply Hw; try done; rewrite ?Hl2; try lia|].
  { replace (off + m + (Z.of_nat (length p') - m)) with (off + Z.of_nat (length p')) by lia. lia. }
  intros [d' off'] s' (-> & V' & H' & Hw' & Hg' & Hcv'). rewrite Hl2 in *.
  replace (off + m + (Z.of_nat (length p') - m)) with (off + Z.of_nat (length p')) in * by lia.
  split; [done|]. exists V'. 
  match goal with |- mkat _ ?b _ _ /\ _ => replace b with
    (fb + (nblk (off + 1) - nblk off) + (nblk (off + Z.of_nat (length p')) - nblk (off + m))) by lia end.
  split_and!; [done| |done|].
  2: { pose proof (mkat_range _ _ _ _ H).
       apply (covers_trans d1 V1 fb (fb + (nblk (off + 1) - nblk off))); [lia| |done|done].
       intros i Hi Hnz. pose proof (wr_slot _ _ _ _ _ _ _ Hw i Hi Hnz) as E. rewrite <-E.
       apply (wr_slot _ _ _ _ _ _ _ Hw' i Hi). by rewrite E. }
  rewrite <-(take_drop (Z.to_nat m) p'). apply (wrote_trans sb mk_sb_ok _ _ d1 V2); [done|lia| |by rewrite Hlt, Z2Nat.id by lia].
  change (take (Z.to_nat m) p') with ([] ++ take (Z.to_nat m) p').
  apply (wrote_trans sb mk_sb_ok _ _ d1 V1); [done|simpl; lia|by apply wrote_extends|]. simpl. by rewrite Z.add_0_r.
Qed.

Lemma grown_put_dino e t d V x inum v : inum_ok sb inum -> file_ok sb d V -> grown e t d V -> 0 <= t ->
  grown e t (dset_size v d) (put_dino sb x inum V).
Proof.
  intros Hi Hf [G1 G2 G3] Ht.
  assert (Hs : forall i, slot (dset_size v d) (put_dino sb x inum V) i = slot d V i)
    by (intros; by apply (slot_put_dino sb mk_sb_ok)).
  split.
  - intros bn. rewrite Hs. apply G1.
  - by rewrite Hs.
  - intros o Ho Hm. unfold mapped in Hm. rewrite Hs in Hm.
    rewrite (fbyte_put_dino sb mk_sb_ok) by (done || lia). by apply G3.
Qed.

Lemma iappend_spec V fb fi inum p s : let d := dino sb V inum in let off := d_size d in
  mkat V fb fi s -> inum_ok sb inum -> dinode_ok d -> file_ok sb d V -> content_ok d V -> grown off off d V ->
  off + len p <= MAXFILE * BSIZE -> fb + (nblk (off + len p) - nblk off) <= FSSIZE ->
  wp (iappend inum p) (fun _ s' => exists d' V', mkat V' (fb + (nblk (off + len p) - nblk off)) fi s' /\
    file_updated sb inum d V d' V' off p /\ grown (off + len p) (off + len p) d' V' /\
    (forall b, b < sb_inodestart sb -> V' b = V b) /\ covers d' V' fb (fb + (nblk (off + len p) - nblk off))) s.
Proof.
  intros d off H Hi Hd Hf Hc Hg Hmax Hroom. unfold iappend. apply wp_bind.
  eapply wp_rinode; [exact H|done|]. fold d. rewrite xint_id by apply Hd. fold off.
  pose proof (ct_size _ _ Hc) as Hsz. fold off in Hsz. apply wp_bind.
  eapply wp_mono; [apply (append_loop_spec _ V fb fi d off p s H Hd Hf Hg); done || lia|].
  intros [d1 off'] s1 (-> & V1 & H1 & Hw & Hg1 & Hcv). unfold len in *. rewrite xint_id by (unfold MAXFILE, BSIZE, NDIRECT, NINDIRECT in *; lia).
  eapply wp_winode; [exact H1|done|]. intros s2 H2.
  pose proof (wrote_updated sb mk_sb_ok inum d V d1 V1 off p Hi Hc ltac:(lia) Hmax Hw) as Hup. cbv zeta in Hup. fold off in Hup.
  rewrite Z.max_r in Hup by lia. eexists _, _. split_and!; [exact H2|exact Hup| | |].
  - apply grown_put_dino; [done|apply Hw|done|lia].
  - intros b Hb. pose proof (mk_IBLOCK inum Hi). rewrite inodestart_eq in Hb. unfold put_dino. rewrite upd_other by lia.
    apply (wr_meta _ _ _ _ _ _ _ Hw). rewrite bmapstart_eq. lia.
  - intros b Hb. destruct (Hcv b Hb) as (i & Hlt & E). exists i. split; [done|].
    rewrite (slot_put_dino sb mk_sb_ok); [done|done|apply Hw].
Qed.
