(* ===== verification/MkfsVol.v ===== *)
(** * mkfs: the files of the image

    What the image holds, as a list of files with their types and bytes, and
    the operations of mkfs.c as operations on that list. *)

From S2P Require Import Prelude Bytes Bio Log Fs FsBlocks FsInode FsFile FsData FsDir Mkfs MkfsInv.

(** ** A volume of files *)

(** Inode [inum] is a file of type [ty], with one link and the bytes [bs], in
    exactly the blocks these take. *)
Record holds (V : Z -> block) (inum ty : Z) (bs : list Z) : Prop := {
  ho_inode : dinode_ok (dino sb V inum);
  ho_fields : dino sb V inum = Dinode ty 0 0 1 (len bs) (d_addrs (dino sb V inum));
  ho_file : file_ok sb (dino sb V inum) V;
  ho_grown : grown (len bs) (len bs) (dino sb V inum) V;
  ho_max : len bs <= MAXFILE * BSIZE;
  ho_bytes : fbytes (dino sb V inum) V 0 (length bs) = bs;
}.

Lemma holds_content V inum ty bs : holds V inum ty bs -> content_ok (dino sb V inum) V.
Proof.
  intros [H1 H2 H3 H4 H5 H6]. assert (Hz : d_size (dino sb V inum) = len bs) by (by rewrite H2).
  split; rewrite Hz; [unfold len in *; lia|]. intros o Ho. apply (gr_map _ _ _ _ H4); [apply block_no|]; unfold BSIZE in *; lia.
Qed.

(** Files whose inode and blocks stay keep what they hold. *)
Lemma same_slots V V' inum ty bs i : holds V inum ty bs -> dino sb V' inum = dino sb V inum ->
  (forall i, (i < NSLOT)%nat -> slot (dino sb V inum) V i <> 0 -> V' (slot (dino sb V inum) V i) = V (slot (dino sb V inum) V i)) ->
  slot (dino sb V' inum) V' i = slot (dino sb V inum) V i.
Proof.
  intros Hh Ed HV. rewrite Ed. apply slot_frame. intros Hn. apply HV; [unfold NSLOT; lia|done].
Qed.

Lemma holds_frame V V' inum ty bs : holds V inum ty bs -> dino sb V' inum = dino sb V inum ->
  (forall i, (i < NSLOT)%nat -> slot (dino sb V inum) V i <> 0 -> V' (slot (dino sb V inum) V i) = V (slot (dino sb V inum) V i)) ->
  (forall b, 0 <= b < sb_size sb -> used sb V b = true -> used sb V' b = true) ->
  holds V' inum ty bs.
Proof.
  intros Hh Ed HV Hu. pose proof (fun i => same_slots V V' inum ty bs i Hh Ed HV) as Hs. rewrite Ed in Hs.
  pose proof (holds_content _ _ _ _ Hh) as Hc. destruct Hh as [H1 H2 H3 [G1 G2 G3] H5 H6]. set (d := dino sb V inum) in *.
  assert (Hby : forall o, 0 <= o < MAXFILE * BSIZE -> mapped d V o -> fbyte d V' o = fbyte d V o).
  { intros o Ho Hm. unfold fbyte, fblock. rewrite Hs, HV; [done| |exact Hm]. by apply data_slot_range, block_no. }
  split; rewrite ?Ed; fold d; try done.
  - split.
    + intros i Hi. rewrite Hs. intros Hn. destruct (fo_data sb _ _ H3 i Hi Hn) as [Hr Hus]. split; [done|].
      apply Hu; [|done]. rewrite data_start_eq in Hr. lia.
    + intros i j Hi Hj. rewrite !Hs. by apply (fo_inj sb _ _ H3).
  - split.
    + intros bn. rewrite Hs. apply G1.
    + by rewrite Hs.
    + intros o Ho Hm. unfold mapped in Hm. rewrite Hs in Hm. unfold len in *. rewrite Hby by (done || lia). by apply G3.
  - rewrite <-H6 at 2. apply bytes_at_ext. intros i Hi. assert (Hz : d_size d = len bs) by (by rewrite H2). unfold len in *.
    apply Hby; [lia|]. apply (ct_mapped _ _ Hc). rewrite Hz. lia.
Qed.

Definition sb_block : block := put zero_block 0 sb_bytes.

(** The inodes from 1 on hold the files [l], which share no blocks; the other
    inodes are free.  The boot block and the log are empty. *)
Record volume (V : Z -> block) (l : list (Z * list Z)) : Prop := {
  vo_files : forall k ty bs, l !! k = Some (ty, bs) -> holds V (1 + Z.of_nat k) ty bs;
  vo_apart : forall k k' i j, (k < length l)%nat -> (k' < length l)%nat -> k <> k' -> (i < NSLOT)%nat -> (j < NSLOT)%nat ->
    slot (dino sb V (1 + Z.of_nat k)) V i <> 0 ->
    slot (dino sb V (1 + Z.of_nat k)) V i <> slot (dino sb V (1 + Z.of_nat k')) V j;
  vo_free : forall inum, inum_ok sb inum -> inum < 1 \/ 1 + Z.of_nat (length l) <= inum -> d_type (dino sb V inum) = 0;
  vo_low : forall b, b < 32 -> V b = if decide (b = 1) then sb_block else zero_block;
}.

Lemma inum_ok_index k : Z.of_nat k < 199 -> inum_ok sb (1 + Z.of_nat k).
Proof. intros Hk. change (inum_ok sb (1 + Z.of_nat k)) with (0 <= 1 + Z.of_nat k < 200). lia. Qed.

Lemma lookup_file {A} (l : list A) k : (k < length l)%nat -> exists x, l !! k = Some x.
Proof. apply lookup_lt_is_Some_2. Qed.

(** *** Appending to a file *)

Section volume_append.
Context (V V' : Z -> block) (l : list (Z * list Z)) (k : nat) (ty : Z) (bs p : list Z) (d' : dinode).
Context (Hvol : volume V l) (Hn : Z.of_nat (length l) <= 199) (Hk : l !! k = Some (ty, bs)).
Abbreviation inum := (1 + Z.of_nat k).
Context (Hup : file_updated sb inum (dino sb V inum) V d' V' (len bs) p).
Context (Hg : grown (len bs + len p) (len bs + len p) d' V').
Context (Hlow : forall b, b < 32 -> V' b = V b) (Hmax : len bs + len p <= MAXFILE * BSIZE).

Lemma append_holds : holds V' inum ty (bs ++ p).
Proof using All.
  destruct (vo_files _ _ Hvol _ _ _ Hk) as [H1 H2 H3 H4 H5 H6].
  assert (Hl : len (bs ++ p) = len bs + len p) by (unfold len; rewrite length_app; lia).
  assert (Hz : d_size (dino sb V inum) = len bs) by (by rewrite H2).
  destruct Hup as [U1 U2 U3 U4 U5 U6 U7 U8 U9 U10 U11 U12 U13].
  split; rewrite ?U5, ?Hl; try done.
  - rewrite U6 at 1. rewrite H2. cbn [d_type d_major d_minor d_nlink d_size d_addrs]. f_equal.
    fold (len p). unfold len. lia.
  - rewrite length_app, fbytes_app. f_equal; [|rewrite Z.add_0_l; exact U7]. rewrite <-H6 at 2.
    apply bytes_at_ext. intros i Hi. unfold len in *. apply U8; lia.
Qed.

Lemma other_inode j : (j < length l)%nat -> j <> k -> dino sb V' (1 + Z.of_nat j) = dino sb V (1 + Z.of_nat j).
Proof using All.
  intros Hj Hne. apply (up_inodes _ _ _ _ _ _ _ _ Hup); [apply inum_ok_index; lia|lia].
Qed.

Lemma other_blocks j i : (j < length l)%nat -> j <> k -> (i < NSLOT)%nat ->
  slot (dino sb V (1 + Z.of_nat j)) V i <> 0 ->
  V' (slot (dino sb V (1 + Z.of_nat j)) V i) = V (slot (dino sb V (1 + Z.of_nat j)) V i).
Proof using All.
  intros Hj Hne Hi Hs. destruct (lookup_file l j Hj) as [[ty' bs'] El].
  destruct (fo_data sb _ _ (ho_file _ _ _ _ (vo_files _ _ Hvol _ _ _ El)) i Hi Hs) as [Hr Hu].
  apply (up_frame _ _ _ _ _ _ _ _ Hup); [done|done|]. intros i' Hi' E. symmetry in E. revert E.
  apply lookup_lt_Some in Hk. by apply (vo_apart _ _ Hvol).
Qed.

Lemma other_slots j i : (j < length l)%nat -> j <> k ->
  slot (dino sb V' (1 + Z.of_nat j)) V' i = slot (dino sb V (1 + Z.of_nat j)) V i.
Proof using All.
  intros Hj Hne. destruct (lookup_file l j Hj) as [[ty' bs'] El].
  apply (same_slots _ _ _ ty' bs'); [by apply (vo_files _ _ Hvol)|by apply other_inode|]. intros. by apply other_blocks.
Qed.

(** A block of the file that grew is not one of another file. *)
Lemma grown_apart j i i' : (j < length l)%nat -> j <> k -> (i < NSLOT)%nat -> (i' < NSLOT)%nat ->
  slot d' V' i <> 0 -> slot d' V' i <> slot (dino sb V (1 + Z.of_nat j)) V i'.
Proof using All.
  intros Hj Hne Hi Hi' Hs E. apply lookup_lt_Some in Hk as Hk'.
  destruct (decide (slot (dino sb V inum) V i = 0)) as [Hz|Hz].
  - pose proof (up_new _ _ _ _ _ _ _ _ Hup i Hi Hz Hs) as Hu. destruct (lookup_file l j Hj) as [[ty' bs'] El].
    destruct (fo_data sb _ _ (ho_file _ _ _ _ (vo_files _ _ Hvol _ _ _ El)) i' Hi') as [_ Hu']; congruence.
  - rewrite (up_slot _ _ _ _ _ _ _ _ Hup) in E by done. revert E. by apply (vo_apart _ _ Hvol).
Qed.

Lemma volume_append : volume V' (<[k := (ty, bs ++ p)]> l).
Proof using All.
  pose proof (up_disk _ _ _ _ _ _ _ _ Hup) as Hd'. apply lookup_lt_Some in Hk as Hk'. split; rewrite ?length_insert.
  - intros j ty' bs' Hj. apply list_lookup_insert_Some in Hj as [(<- & E & _)|[Hne Hj]].
    + injection E as <- <-. apply append_holds.
    + apply lookup_lt_Some in Hj as Hj'. apply (holds_frame V); [by apply (vo_files _ _ Hvol)|by apply other_inode| |].
      * intros. by apply other_blocks.
      * apply Hup.
  - intros j j' i i' Hj Hj' Hne Hi Hi'. destruct (decide (j = k)) as [->|Hjk].
    + rewrite Hd', other_slots by congruence. intros Hs. by apply grown_apart.
    + rewrite other_slots by done. destruct (decide (j' = k)) as [->|Hjk'].
      * rewrite Hd'. intros Hs E. symmetry in E. assert (slot d' V' i' <> 0) by congruence. revert E. by apply grown_apart.
      * rewrite other_slots by done. by apply (vo_apart _ _ Hvol).
  - intros i Hi Hfree. rewrite (up_inodes _ _ _ _ _ _ _ _ Hup) by (done || lia). by apply (vo_free _ _ Hvol).
  - intros b Hb. rewrite Hlow by done. by apply (vo_low _ _ Hvol).
Qed.
End volume_append.

(** *** A new inode *)

Definition fresh (ty : Z) : dinode := Dinode ty 0 0 1 0 (repeat 0 (NDIRECT + 1)).

Lemma slot_fresh ty V i : slot (fresh ty) V i = 0.
Proof.
  unfold slot. cbn [fresh d_addrs]. destruct (Nat.leb_spec i NDIRECT) as [Hi|]; [|done].
  unfold NDIRECT in Hi. do 13 (destruct i as [|i]; [done|]). lia.
Qed.

Lemma fresh_ok ty : short ty -> dinode_ok (fresh ty).
Proof. intros Hty. split; try done; unfold short, uint; cbn; try lia. repeat constructor; done. Qed.

Lemma holds_put_other V inum inum' ty bs x : blocks_ok sb V -> holds V inum ty bs ->
  inum_ok sb inum -> inum_ok sb inum' -> inum <> inum' -> dinode_ok x ->
  holds (put_dino sb x inum' V) inum ty bs /\
  forall i, slot (dino sb (put_dino sb x inum' V) inum) (put_dino sb x inum' V) i = slot (dino sb V inum) V i.
Proof.
  intros Hv Hh Hi Hi' Hne Hx.
  assert (Ed : dino sb (put_dino sb x inum' V) inum = dino sb V inum)
    by (rewrite (dino_put sb mk_sb_ok) by done; by rewrite decide_False).
  assert (HV : forall i, (i < NSLOT)%nat -> slot (dino sb V inum) V i <> 0 ->
    put_dino sb x inum' V (slot (dino sb V inum) V i) = V (slot (dino sb V inum) V i)).
  { intros i Hs Hn. destruct (fo_data sb _ _ (ho_file _ _ _ _ Hh) i Hs Hn) as [Hr _]. rewrite data_start_eq in Hr.
    apply (put_dino_data sb mk_sb_ok); [done|]. rewrite bmapstart_eq. lia. }
  split; [apply (holds_frame V); try done|intros i; by apply (same_slots _ _ _ ty bs)].
  intros b Hb Hu. by rewrite (used_put_dino sb mk_sb_ok).
Qed.

Section volume_alloc.
Context (V : Z -> block) (l : list (Z * list Z)) (ty : Z).
Context (Hv : blocks_ok sb V) (Hvol : volume V l) (Hn : Z.of_nat (length l) < 199) (Hty : short ty).
Abbreviation new := (1 + Z.of_nat (length l)).
Abbreviation V' := (put_dino sb (fresh ty) new V).

Lemma dino_new : dino sb V' new = fresh ty.
Proof using All.
  rewrite (dino_put sb mk_sb_ok); [by rewrite decide_True|done|by apply inum_ok_index..|by apply fresh_ok].
Qed.

Lemma old_holds j ty' bs' : l !! j = Some (ty', bs') -> holds V' (1 + Z.of_nat j) ty' bs' /\
  forall i, slot (dino sb V' (1 + Z.of_nat j)) V' i = slot (dino sb V (1 + Z.of_nat j)) V i.
Proof using All.
  intros El. apply lookup_lt_Some in El as Hj. apply holds_put_other; [done|by apply (vo_files _ _ Hvol)|..].
  1, 2: apply inum_ok_index; lia.
  - lia.
  - by apply fresh_ok.
Qed.

Lemma new_holds : holds V' new ty [].
Proof using All.
  split; rewrite ?dino_new; try done.
  - by apply fresh_ok.
  - split; intros i; rewrite ?slot_fresh; done.
  - split.
    + intros bn Hbn. rewrite slot_fresh. unfold len, BSIZE. simpl. lia.
    + rewrite slot_fresh. done.
    + intros o _ Hm. unfold mapped in Hm. by rewrite slot_fresh in Hm.
Qed.

Lemma volume_alloc : volume V' (l ++ [(ty, [])]).
Proof using All.
  assert (Hsl : forall j i, (j < S (length l))%nat -> slot (dino sb V' (1 + Z.of_nat j)) V' i =
    if decide (j = length l) then 0 else slot (dino sb V (1 + Z.of_nat j)) V i).
  { intros j i Hj. case_decide as E; [rewrite E, dino_new; apply slot_fresh|].
    destruct (lookup_file l j ltac:(lia)) as [[ty' bs'] El]. by apply (old_holds j ty' bs'). }
  split; rewrite ?length_app; cbn [length].
  - intros j ty' bs' [Hj|[Hj1 Hj2]]%lookup_app_Some; [by apply old_holds|].
    apply list_lookup_singleton_Some in Hj2 as [Hj2 E]. injection E as <- <-.
    replace j with (length l) by lia. apply new_holds.
  - intros j j' i i' Hj Hj' Hne Hi Hi'. rewrite !Hsl by lia. repeat case_decide; try done. apply (vo_apart _ _ Hvol); lia.
  - intros i Hi Hfree. rewrite (dino_put sb mk_sb_ok); [|done|by apply inum_ok_index|done|by apply fresh_ok].
    rewrite decide_False by lia. apply (vo_free _ _ Hvol); [done|lia].
  - intros b Hb. pose proof (mk_IBLOCK new ltac:(by apply inum_ok_index)). unfold put_dino. rewrite upd_other by lia.
    by apply (vo_low _ _ Hvol).
Qed.
End volume_alloc.

(** ** The operations on the list of files *)

(** The blocks that the files take. *)
Fixpoint blocks (l : list (Z * list Z)) : Z :=
  match l with [] => 0 | x :: l' => nblk (len x.2) + blocks l' end.

(** Every block below [fb] is one of a file. *)
Definition covered (V : Z -> block) (l : list (Z * list Z)) (fb : Z) : Prop :=
  forall b, nmeta <= b < fb -> exists k i, (k < length l)%nat /\ (i < NSLOT)%nat /\
    slot (dino sb V (1 + Z.of_nat k)) V i = b.

Record built (l : list (Z * list Z)) (s : mkfs) : Prop := {
  bu_count : Z.of_nat (length l) <= 199;
  bu_at : mkat (view s) (nmeta + blocks l) (1 + Z.of_nat (length l)) s;
  bu_volume : volume (view s) l;
  bu_covered : covered (view s) l (nmeta + blocks l);
}.

Lemma blocks_app l l' : blocks (l ++ l') = blocks l + blocks l'.
Proof. induction l as [|x l IH]; simpl; [done|]. rewrite IH. lia. Qed.

Lemma blocks_insert l k ty ty' bs bs' : l !! k = Some (ty, bs) ->
  blocks (<[k := (ty', bs')]> l) = blocks l + (nblk (len bs') - nblk (len bs)).
Proof.
  revert k. induction l as [|x l IH]; intros [|k] E; try done; cbn [blocks insert list_insert].
  - injection E as ->. simpl. lia.
  - rewrite IH by done. lia.
Qed.

Lemma built_append l k ty bs p s : built l s -> l !! k = Some (ty, bs) ->
  len (bs ++ p) <= MAXFILE * BSIZE -> nmeta + blocks (<[k := (ty, bs ++ p)]> l) <= FSSIZE ->
  wp (iappend (1 + Z.of_nat k) p) (fun _ s' => built (<[k := (ty, bs ++ p)]> l) s') s.
Proof.
  intros [B1 B2 B3 B4] Hk Hmax Hroom. apply lookup_lt_Some in Hk as Hk'.
  pose proof (vo_files _ _ B3 _ _ _ Hk) as Hh. set (V := view s) in *.
  assert (Hz : d_size (dino sb V (1 + Z.of_nat k)) = len bs) by (by rewrite (ho_fields _ _ _ _ Hh)).
  assert (Hl : len (bs ++ p) = len bs + len p) by (unfold len; rewrite length_app; lia).
  rewrite (blocks_insert l k ty ty bs) in * by done. rewrite Hl in *.
  eapply wp_mono; [apply (iappend_spec V _ _ _ p s B2); rewrite ?Hz; try apply Hh; try done; try lia|].
  { apply inum_ok_index. lia. }
  { by apply (holds_content _ _ ty bs). }
  rewrite Hz. intros _ s' (d' & V' & H' & Hup & Hg & Hlow & Hcv).
  assert (Ev : view s' = V') by apply (mk_view _ _ _ _ H'). split; rewrite ?Ev, ?length_insert; try done.
  - apply (mkat_fb _ _ _ _ _ H'). rewrite (blocks_insert l k ty ty bs) by done. rewrite Hl. lia.
  - apply (volume_append V V' l k ty bs p d'); try done.
  - rewrite (blocks_insert l k ty ty bs) by done. rewrite Hl. intros b Hb. rewrite length_insert.
    destruct (decide (b < nmeta + blocks l)) as [Hlt|Hge].
    + destruct (B4 b ltac:(lia)) as (j & i & Hj & Hi & E). exists j, i. split_and!; [done|done|].
      destruct (decide (j = k)) as [->|Hne]; [|by rewrite (other_slots V V' l k ty bs p d' B3 B1 Hk Hup Hg Hlow Hmax)].
      rewrite (up_disk _ _ _ _ _ _ _ _ Hup), (up_slot _ _ _ _ _ _ _ _ Hup); [done|done|]. rewrite nmeta_eq in Hb. lia.
    + destruct (Hcv b ltac:(lia)) as (i & Hi & E). exists k, i. by rewrite (up_disk _ _ _ _ _ _ _ _ Hup).
Qed.

Lemma wp_mk_ialloc V fb fi ty (Q : Z -> mkfs -> Prop) s : mkat V fb fi s -> inum_ok sb fi -> 0 <= ty < 2 ^ 15 ->
  (forall s', mkat (put_dino sb (fresh ty) fi V) fb (fi + 1) s' -> Q fi s') -> wp (mk_ialloc ty) Q s.
Proof.
  intros H Hi Hty HQ. unfold mk_ialloc. do 2 (apply wp_bind; wp_step). apply wp_bind. rewrite (mk_fi _ _ _ _ H).
  rewrite xshort_id by lia. assert (Hr : 0 <= fi < 200) by exact Hi. rewrite u32_id by lia.
  eapply (wp_winode V fb (fi + 1)); [|done|intros s' H'; by apply wp_ret, HQ].
  by destruct H as [H1 H2 H3 H4 H5 H6 H7]; split.
Qed.

Lemma built_alloc l ty s : built l s -> Z.of_nat (length l) < 199 -> 0 <= ty < 2 ^ 15 ->
  wp (mk_ialloc ty) (fun r s' => r = 1 + Z.of_nat (length l) /\ built (l ++ [(ty, [])]) s') s.
Proof.
  intros [B1 B2 B3 B4] Hn Hty. pose proof (mkat_blocks _ _ _ _ B2) as Hv.
  assert (Hs : short ty) by (unfold short; lia).
  eapply wp_mk_ialloc; [exact B2|by apply inum_ok_index|done|]. intros s' H'. split; [done|].
  assert (Ev : view s' = put_dino sb (fresh ty) (1 + Z.of_nat (length l)) (view s)) by apply (mk_view _ _ _ _ H').
  split; rewrite ?Ev, ?length_app, ?blocks_app; cbn [length blocks]; [lia| | |].
  - change (nblk (len (ty, []).2)) with 0. rewrite Z.add_0_r, Nat2Z.inj_add, Z.add_assoc. exact H'.
  - by apply volume_alloc.
  - change (nblk (len (ty, []).2)) with 0. rewrite !Z.add_0_r. intros b Hb. destruct (B4 b Hb) as (j & i & Hj & Hi & E).
    exists j, i. rewrite length_app. split_and!; [lia|done|]. destruct (lookup_file l j Hj) as [[ty' bs'] El].
    by rewrite (proj2 (old_holds _ l ty Hv B3 Hn Hs j ty' bs' El)).
Qed.

(** ** The start of main *)

Lemma get16_zero o : get16 zero_block o = 0.
Proof. apply le_val_zero. unfold slice. apply Forall_take, Forall_drop, zero_block_zero. Qed.

Lemma seqZ_middle d x r n : d ++ x :: r = seqZ 0 n -> x = Z.of_nat (length d) /\ x < n.
Proof.
  intros E. assert (Hx : seqZ 0 n !! length d = Some x) by (rewrite <-E; by apply list_lookup_middle).
  apply lookup_seqZ in Hx as [-> Hlt]. lia.
Qed.

Lemma sb_block_ok : length sb_block = Z.to_nat BSIZE /\ decode_sb sb_block = sb.
Proof. split; [apply length_put|by vm_compute]. Qed.

(** An image of zero blocks. *)
Definition blank (n : Z) (s : mkfs) : Prop :=
  freeinode s = 1 /\ freeblock s = nmeta /\ img_size s = n /\ forall b, img s b = zero_block.

Lemma zero_image s : blank 0 s -> wp (for_each (seqZ 0 FSSIZE) (fun i => wsect i zero_block)) (fun _ => blank FSSIZE) s.
Proof.
  intros Hs. eapply wp_mono; [apply (wp_for_each _ (fun d _ => blank (Z.of_nat (length d)))); [done|]|].
  - intros d x r s' [-> Hx]%seqZ_middle (A1 & A2 & A3 & A4). unfold FSSIZE in Hx. unfold wsect. rewrite sector_id by lia.
    apply wp_modify. unfold blank. cbn [set_img freeinode freeblock img_size img]. rewrite A3, length_app.
    split_and!; [done|done|cbn [length]; lia|]. intros b. by upd_cases b (Z.of_nat (length d)).
  - intros ? s1 H1. cbv beta in H1. by rewrite length_seqZ in H1.
Qed.

Lemma built_init s : blank FSSIZE s -> wp (wsect 1 (put zero_block 0 sb_bytes)) (fun _ s' => built [] s') s.
Proof.
  intros (A1 & A2 & A3 & A4). fold sb_block. unfold wsect. rewrite sector_id by done. apply wp_modify.
  unfold set_img. set (s2 := Mkfs _ _ _ _).
  assert (Hv : forall b, b <> 45 -> view s2 b = if decide (b = 1) then sb_block else zero_block).
  { intros b Hb. unfold view. rewrite upd_other by done. cbn [s2 img]. destruct (decide (b = 1)) as [->|Hne]; [apply upd_same|].
    by rewrite upd_other. }
  split.
  - done.
  - split; try done.
    + cbn [s2 img_size]. by rewrite A3.
    + intros b. cbn [s2 img]. upd_cases b 1; [apply sb_block_ok|by rewrite A4].
    + intros b Hb. change (nmeta + blocks []) with 46 in Hb. rewrite Hv by lia. by rewrite decide_False by lia.
  - split; try done.
    + intros k k' i j Hk. simpl in Hk. lia.
    + intros inum Hi _. pose proof (mk_IBLOCK inum Hi). unfold dino. rewrite Hv by lia. rewrite decide_False by lia.
      cbn [decode_dinode d_type]. by rewrite get16_zero.
    + intros b Hb. apply Hv. lia.
  - intros b Hb. change (nmeta + blocks []) with nmeta in Hb. lia.
Qed.

(** ** The files of the volume *)

Definition short_name (arg : list Z) : list Z := strip_underscore (strip_user arg).

(** The entries of the root directory. *)
Fixpoint file_entries (inum : Z) (args : list (list Z)) : list (Z * list Z) :=
  match args with [] => [] | a :: args' => (inum, short_name a) :: file_entries (inum + 1) args' end.
Definition root_entries (args : list (list Z)) : list (Z * list Z) :=
  (ROOTINO, [46]) :: (ROOTINO, [46; 46]) :: file_entries 2 args.
Definition entries_bytes (es : list (Z * list Z)) : list Z := concat (map (fun e => dirent_bytes e.1 e.2) es).

Lemma length_entries_bytes es : length (entries_bytes es) = (16 * length es)%nat.
Proof.
  induction es as [|e es IH]; [done|]. unfold entries_bytes in *. cbn [map concat length].
  rewrite length_app, length_dirent_bytes, IH. lia.
Qed.
Lemma length_file_entries inum args : length (file_entries inum args) = length args.
Proof. revert inum. induction args as [|a args IH]; intros inum; [done|]. simpl. by rewrite IH. Qed.
Lemma file_entries_snoc inum args a :
  file_entries inum (args ++ [a]) = file_entries inum args ++ [(inum + Z.of_nat (length args), short_name a)].
Proof.
  revert inum. induction args as [|x args IH]; intros inum; cbn [app file_entries length].
  - by rewrite Z.add_0_r.
  - rewrite IH. cbn [app]. do 4 f_equal. lia.
Qed.
Lemma entries_bytes_snoc args a : entries_bytes (root_entries (args ++ [a])) =
  entries_bytes (root_entries args) ++ dirent_bytes (2 + Z.of_nat (length args)) (short_name a).
Proof.
  unfold entries_bytes, root_entries. rewrite file_entries_snoc. cbn [map concat]. rewrite map_app, concat_app.
  cbn [map concat]. by rewrite app_nil_r, !app_assoc.
Qed.
Lemma length_root args : length (entries_bytes (root_entries args)) = (16 * (2 + length args))%nat.
Proof. rewrite length_entries_bytes. unfold root_entries. cbn [length]. by rewrite length_file_entries. Qed.

Lemma nblk_nonneg n : 0 <= n -> 0 <= nblk n.
Proof. intros Hn. change 0 with (nblk 0). by apply nblk_mono. Qed.
Lemma blocks_nonneg l : 0 <= blocks l.
Proof.
  induction l as [|x l IH]; [done|]. simpl. pose proof (nblk_nonneg (len x.2) ltac:(unfold len; lia)). lia.
Qed.

Section main_spec.
Context (host : list Z -> option (list (list Z))).

(** The bytes of a host file, and the files of the image. *)
Definition file_bytes (arg : list Z) : list Z := match host arg with Some chunks => concat chunks | None => [] end.
Definition volume_of (args : list (list Z)) : list (Z * list Z) :=
  (T_DIR, entries_bytes (root_entries args)) :: map (fun a => (T_FILE, file_bytes a)) args.

(** What mkfs requires of its arguments: the files can be opened, their names
    fit an entry, and they fit the image. *)
Record mkfs_input (args : list (list Z)) : Prop := {
  in_open : forall a, a ∈ args -> host a <> None;
  in_slash : forall a, a ∈ args -> existsb (Z.eqb SLASH) (strip_user a) = false;
  in_name : forall a, a ∈ args -> (length (short_name a) <= DIRSIZ)%nat;
  in_size : forall a, a ∈ args -> len (file_bytes a) <= MAXFILE * BSIZE;
  in_count : Z.of_nat (length args) <= 198;
  in_room : nmeta + blocks (volume_of args) <= FSSIZE;
}.

(** While file [a] is copied, [pre] are its bytes so far. *)
Definition copying (d : list (list Z)) (a pre : list Z) : list (Z * list Z) :=
  (T_DIR, entries_bytes (root_entries (d ++ [a]))) :: map (fun a => (T_FILE, file_bytes a)) d ++ [(T_FILE, pre)].

Lemma copying_done d a : copying d a (file_bytes a) = volume_of (d ++ [a]).
Proof using Type. unfold copying, volume_of. by rewrite map_app. Qed.

Lemma copying_room args d a r pre : mkfs_input args -> d ++ a :: r = args -> (length pre <= length (file_bytes a))%nat ->
  nmeta + blocks (copying d a pre) <= FSSIZE.
Proof using Type.
  intros Hin <- Hpre. pose proof (in_room _ Hin) as Hr. unfold copying, volume_of in *. cbn [blocks snd] in *.
  rewrite map_app, !blocks_app in *. cbn [map blocks snd] in *. unfold len in *. rewrite !length_root, !length_app in *.
  cbn [length] in *. pose proof (blocks_nonneg (map (fun a => (T_FILE, file_bytes a)) r)).
  pose proof (nblk_mono (Z.of_nat (length pre)) (Z.of_nat (length (file_bytes a))) ltac:(lia)).
  pose proof (nblk_mono (Z.of_nat (16 * (2 + (length d + 1)))) (Z.of_nat (16 * (2 + (length d + S (length r))))) ltac:(lia)).
  lia.
Qed.

Lemma copying_last d a pre : copying d a pre !! S (length d) = Some (T_FILE, pre).
Proof using Type.
  transitivity ((map (fun a => (T_FILE, file_bytes a)) d ++ [(T_FILE, pre)]) !! length d); [done|].
  rewrite lookup_app_r by (by rewrite length_map). by rewrite length_map, Nat.sub_diag.
Qed.
Lemma copying_insert d a pre pre' : <[S (length d) := (T_FILE, pre')]> (copying d a pre) = copying d a pre'.
Proof using Type.
  unfold copying. transitivity ((T_DIR, entries_bytes (root_entries (d ++ [a]))) ::
    <[length d := (T_FILE, pre')]> (map (fun a => (T_FILE, file_bytes a)) d ++ [(T_FILE, pre)])); [done|].
  f_equal. rewrite insert_app_r_alt by (by rewrite length_map). by rewrite length_map, Nat.sub_diag.
Qed.

Lemma copy_chunks args d a r chunks s : mkfs_input args -> d ++ a :: r = args -> file_bytes a = concat chunks ->
  built (copying d a []) s ->
  wp (for_each chunks (iappend (2 + Z.of_nat (length d)))) (fun _ s' => built (volume_of (d ++ [a])) s') s.
Proof using Type.
  intros Hin E Ec Hs. rewrite <-copying_done, Ec.
  apply (wp_for_each _ (fun dn _ s => built (copying d a (concat dn)) s)); [done|].
  intros dn c rest s1 Edn H1. rewrite concat_app. cbn [concat]. rewrite app_nil_r.
  assert (Hpre : (length (concat dn ++ c) <= length (file_bytes a))%nat).
  { rewrite Ec, <-Edn, concat_app. cbn [concat]. rewrite !length_app. lia. }
  replace (2 + Z.of_nat (length d)) with (1 + Z.of_nat (S (length d))) by lia. rewrite <-(copying_insert d a (concat dn)).
  assert (Ha : a ∈ args) by (rewrite <-E; set_solver).
  apply (built_append _ (S (length d)) T_FILE (concat dn)); [done|apply copying_last| |].
  - pose proof (in_size _ Hin a Ha). unfold len in *. lia.
  - rewrite copying_insert. by eapply copying_room.
Qed.

Lemma add_file_spec args d a r s : mkfs_input args -> d ++ a :: r = args -> built (volume_of d) s ->
  wp (add_file host ROOTINO a) (fun _ s' => built (volume_of (d ++ [a])) s') s.
Proof using Type.
  intros Hin E Hs. assert (Ha : a ∈ args) by (rewrite <-E; set_solver).
  assert (Hd : (length d < length args)%nat) by (rewrite <-E, length_app; simpl; lia).
  pose proof (in_count _ Hin) as Hc. unfold add_file. cbv zeta. rewrite (in_slash _ Hin a Ha). cbn [negb]. unfold assert at 1.
  apply wp_bind, wp_ret. pose proof (in_open _ Hin a Ha) as Ho. destruct (host a) as [chunks|] eqn:Eh; [|done].
  assert (Ec : file_bytes a = concat chunks) by (unfold file_bytes; by rewrite Eh).
  unfold assert. rewrite (proj2 (Nat.leb_le _ _)) by (by apply (in_name _ Hin)). apply wp_bind, wp_ret, wp_bind.
  assert (Hl : length (volume_of d) = S (length d)) by (unfold volume_of; cbn [length]; by rewrite length_map).
  eapply wp_mono; [apply (built_alloc (volume_of d)); [done|lia|done]|]. intros inum s1 (-> & H1). rewrite Hl.
  replace (1 + Z.of_nat (S (length d))) with (2 + Z.of_nat (length d)) by lia. rewrite xshort_id by lia. apply wp_bind.
  change ROOTINO with (1 + Z.of_nat 0).
  assert (Ev : copying d a [] = <[0%nat := (T_DIR, entries_bytes (root_entries d) ++
    dirent_bytes (2 + Z.of_nat (length d)) (short_name a))]> (volume_of d ++ [(T_FILE, [])])).
  { unfold copying. by rewrite entries_bytes_snoc. }
  fold (short_name a). eapply wp_mono; [apply (built_append _ 0 T_DIR (entries_bytes (root_entries d)) _ s1 H1); [done| |]|].
  - rewrite <-entries_bytes_snoc. unfold len. rewrite length_root, length_app. cbn [length].
    unfold MAXFILE, BSIZE, NDIRECT, NINDIRECT. lia.
  - rewrite <-Ev. eapply copying_room; [done|done|simpl; lia].
  - intros ? s2 H2. cbv beta in H2. rewrite <-Ev in H2. by apply (copy_chunks args d a r).
Qed.
End main_spec.

(** ** The end of main *)

Definition round_up (n : Z) : Z := (n / BSIZE + 1) * BSIZE.
Definition padded (bs : list Z) : list Z := bs ++ repeat 0 (Z.to_nat (round_up (len bs) - len bs)).

Lemma len_padded bs : len (padded bs) = round_up (len bs).
Proof. unfold padded, len. rewrite length_app, repeat_length. unfold round_up, BSIZE. lia. Qed.

Lemma lookup_zeros n i : (i < n)%nat -> repeat 0 n !! i = Some 0.
Proof. revert i. induction n as [|n IH]; intros [|i] Hi; simpl; try lia; [done|]. apply IH. lia. Qed.

(** The size of a file rounded up within its last block. *)
Lemma holds_pad V inum ty bs : let d := dino sb V inum in
  blocks_ok sb V -> inum_ok sb inum -> holds V inum ty bs -> len bs mod BSIZE <> 0 ->
  holds (put_dino sb (dset_size (round_up (len bs)) d) inum V) inum ty (padded bs).
Proof.
  intros d Hv Hi Hh Hne. pose proof (holds_content _ _ _ _ Hh) as Hc.
  destruct Hh as [H1 H2 H3 [G1 G2 G3] H5 H6]. fold d in H1, H2, H3, G1, G2, G3, H6, Hc.
  set (R := round_up (len bs)). assert (HR : len bs <= R <= MAXFILE * BSIZE /\ R = (len bs / 1024 + 1) * 1024).
  { unfold R, round_up, MAXFILE, BSIZE, NDIRECT, NINDIRECT in *. lia. }
  assert (Hl0 : 0 <= len bs) by (unfold len; lia).
  assert (Hmap : forall o, 0 <= o < R -> mapped d V o).
  { intros o Ho. apply G1; [apply block_no; lia|]. unfold BSIZE in *. lia. }
  assert (Hx : dinode_ok (dset_size R d)).
  { destruct H1. split; try done. unfold uint. simpl. unfold MAXFILE, BSIZE, NDIRECT, NINDIRECT in *. lia. }
  set (V2 := put_dino sb (dset_size R d) inum V).
  assert (Ed : dino sb V2 inum = dset_size R d) by (unfold V2; rewrite (dino_put sb mk_sb_ok) by done; by rewrite decide_True).
  assert (Hs : forall i, slot (dset_size R d) V2 i = slot d V i) by (intros; by apply (slot_put_dino sb mk_sb_ok)).
  assert (Hby : forall o, 0 <= o < MAXFILE * BSIZE -> mapped d V o -> fbyte (dset_size R d) V2 o = fbyte d V o)
    by (intros; by apply (fbyte_put_dino sb mk_sb_ok)).
  split; rewrite ?Ed, ?len_padded; fold R; try done; try lia.
  - rewrite H2. done.
  - split.
    + intros i Hlt. rewrite Hs. intros Hn. destruct (fo_data sb _ _ H3 i Hlt Hn) as [Hr Hu].
      rewrite data_start_eq in Hr. unfold V2. by rewrite (used_put_dino sb mk_sb_ok) by (done || lia).
    + intros i j Hlt Hlt'. rewrite !Hs. by apply (fo_inj sb _ _ H3).
  - split.
    + intros bn Hbn. rewrite Hs, (G1 bn Hbn). unfold BSIZE in *. lia.
    + rewrite Hs, G2. unfold BSIZE, NDIRECT in *. lia.
    + intros o Ho Hm. unfold mapped in Hm. rewrite Hs in Hm. rewrite Hby by (done || lia). apply G3; [lia|done].
  - unfold padded. rewrite length_app, repeat_length, fbytes_app. f_equal.
    + rewrite <-H6 at 2. apply bytes_at_ext. unfold len in *. intros i Hlt. apply Hby; [lia|apply Hmap; lia].
    + apply list_eq. intros i. fold R. destruct (decide (i < Z.to_nat (R - len bs))%nat) as [Hlt|Hge].
      * rewrite lookup_fbytes by done. fold (len bs). rewrite Hby by (try apply Hmap; lia).
        rewrite G3 by (try apply Hmap; lia). by rewrite lookup_zeros.
      * rewrite !lookup_ge_None_2; [done|rewrite repeat_length; lia|rewrite length_fbytes; lia].
Qed.

Section pad.
Context (V : Z -> block) (ty : Z) (bs : list Z) (l : list (Z * list Z)).
Context (Hv : blocks_ok sb V) (Hvol : volume V ((ty, bs) :: l)) (Hn : Z.of_nat (length l) < 199) (Hne : len bs mod BSIZE <> 0).
Abbreviation d := (dino sb V 1).
Abbreviation V2 := (put_dino sb (dset_size (round_up (len bs)) d) 1 V).

Lemma first_holds : holds V 1 ty bs.
Proof using Hvol. by apply (vo_files _ _ Hvol 0). Qed.

Lemma padded_ok : dinode_ok (dset_size (round_up (len bs)) d).
Proof using All.
  pose proof (holds_pad V 1 ty bs Hv ltac:(done) first_holds Hne) as [H1 H2 _ _ _ _].
  rewrite (ho_fields _ _ _ _ first_holds). pose proof (ho_max _ _ _ _ first_holds). destruct (ho_inode _ _ _ _ first_holds).
  rewrite (ho_fields _ _ _ _ first_holds) in do_type, do_nlink. split; [done..| |done|done].
  unfold uint, round_up, len, MAXFILE, BSIZE, NDIRECT, NINDIRECT in *. cbn [dset_size d_size]. lia.
Qed.

Lemma pad_slots j i : (j < S (length l))%nat -> slot (dino sb V2 (1 + Z.of_nat j)) V2 i = slot (dino sb V (1 + Z.of_nat j)) V i.
Proof using All.
  intros Hj. destruct j as [|j].
  - change (1 + Z.of_nat 0) with 1. rewrite (dino_put sb mk_sb_ok); [|done|done|done|by apply padded_ok]. rewrite decide_True by done.
    apply (slot_put_dino sb mk_sb_ok); [done|apply first_holds].
  - destruct (lookup_file ((ty, bs) :: l) (S j) Hj) as [[ty' bs'] El]. apply (holds_put_other V _ 1 ty' bs');
      [done|by apply (vo_files _ _ Hvol)|apply inum_ok_index; lia|done|lia|by apply padded_ok].
Qed.

Lemma volume_pad : volume V2 ((ty, padded bs) :: l).
Proof using All.
  split.
  - intros [|j] ty' bs' El.
    + injection El as <- <-. apply holds_pad; [done|done|apply first_holds|done].
    + apply lookup_lt_Some in El as Hj. cbn [length] in Hj. apply (holds_put_other V _ 1 ty' bs');
        [done|by apply (vo_files _ _ Hvol)|apply inum_ok_index; lia|done|lia|by apply padded_ok].
  - intros j j' i i' Hj Hj'. rewrite !pad_slots by done. by apply (vo_apart _ _ Hvol).
  - intros i Hi Hfree. rewrite (dino_put sb mk_sb_ok); [|done|done|done|by apply padded_ok].
    rewrite decide_False by (cbn [length] in Hfree; lia). by apply (vo_free _ _ Hvol).
  - intros b Hb. pose proof (mk_IBLOCK 1 ltac:(done)). unfold put_dino. rewrite upd_other by lia. by apply (vo_low _ _ Hvol).
Qed.
End pad.

(** The image when mkfs is done. *)
Record image (l : list (Z * list Z)) (V : Z -> block) : Prop := {
  im_count : Z.of_nat (length l) <= 199;
  im_blocks : blocks_ok sb V;
  im_volume : volume V l;
  im_used : forall b, 0 <= b < sb_size sb -> used sb V b = (b <? nmeta + blocks l);
  im_covered : covered V l (nmeta + blocks l);
}.

Lemma nblk_padded bs : len bs mod BSIZE <> 0 -> nblk (len (padded bs)) = nblk (len bs).
Proof.
  intros Hne. rewrite len_padded. unfold nblk, round_up, BSIZE in *. cbv zeta.
  by replace (((len bs / 1024 + 1) * 1024 + 1024 - 1) / 1024) with ((len bs + 1024 - 1) / 1024) by lia.
Qed.

(** main after the files have been copied. *)
Definition finish : M mkfs unit :=
  let! din := rinode ROOTINO in
  let off := xint (d_size din) in
  let off := u32 ((off / BSIZE + 1) * BSIZE) in
  winode ROOTINO (dset_size (xint off) din) ;;
  let! used := gets freeblock in
  mk_balloc (i32 used).

Lemma finish_view ty bs l s : built ((ty, bs) :: l) s ->
  let V := put_dino sb (dset_size (round_up (len bs)) (dino sb (view s) 1)) 1 (view s) in
  wp finish (fun _ s' => img s' = V /\ exists fi s1, mkat V (nmeta + blocks ((ty, bs) :: l)) fi s1) s.
Proof.
  intros [B1 B2 B3 B4] V. pose proof (mkat_range _ _ _ _ B2) as Hr.
  pose proof (first_holds _ _ _ _ B3) as Hh. pose proof (ho_max _ _ _ _ Hh) as Hmax. apply wp_bind.
  eapply wp_rinode; [exact B2|done|]. cbv zeta. change (dino sb (view s) ROOTINO) with (dino sb (view s) 1).
  assert (Hz : d_size (dino sb (view s) 1) = len bs) by (by rewrite (ho_fields _ _ _ _ Hh)).
  assert (Hb : 0 <= len bs < 2 ^ 31 /\ 0 <= round_up (len bs) < 2 ^ 31)
    by (unfold round_up, len, MAXFILE, BSIZE, NDIRECT, NINDIRECT in *; lia).
  rewrite Hz, (xint_id (len bs)) by lia. fold (round_up (len bs)). rewrite u32_id, xint_id by lia. apply wp_bind.
  eapply wp_winode; [exact B2|done|]. intros s1 H1. apply wp_bind, wp_gets. rewrite (mk_fb _ _ _ _ H1).
  replace (i32 _) with (nmeta + blocks ((ty, bs) :: l)) by (unfold i32; lia).
  unfold mk_balloc, assert. rewrite (proj2 (Z.ltb_lt _ _)) by (change BPB with 8192; lia). apply wp_bind, wp_ret.
  unfold wsect. rewrite sector_id by done. apply wp_modify. cbn [set_img img]. split; [|by eexists _, s1].
  transitivity (view s1); [|exact (mk_view _ _ _ _ H1)]. unfold view. by rewrite (mk_fb _ _ _ _ H1).
Qed.

Lemma finish_spec ty bs l s : built ((ty, bs) :: l) s -> len bs mod BSIZE <> 0 ->
  wp finish (fun _ s' => image ((ty, padded bs) :: l) (img s')) s.
Proof.
  intros Hs Hne. eapply wp_mono; [by apply (finish_view ty bs l)|]. intros [] s' (E & fi & s1 & H1). cbv beta. rewrite E.
  destruct Hs as [B1 B2 B3 B4]. cbn [length] in B1. pose proof (mkat_blocks _ _ _ _ B2) as Hv.
  assert (Eb : blocks ((ty, padded bs) :: l) = blocks ((ty, bs) :: l)) by (cbn [blocks snd]; by rewrite nblk_padded).
  split; rewrite ?Eb.
  - cbn [length]. lia.
  - by apply (mkat_blocks _ _ _ _ H1).
  - apply volume_pad; try done. lia.
  - intros b Hbr. by apply (mkat_used _ _ _ _ _ H1).
  - intros b Hbr. destruct (B4 b Hbr) as (j & i & Hj & Hi & Es). exists j, i. split_and!; [done|done|].
    rewrite (pad_slots (view s) ty bs l); try done. lia.
Qed.

(** If the file ends at the end of a block, no block is mapped for the bytes
    that rounding adds to its size. *)
Lemma finish_hole ty bs l s : built ((ty, bs) :: l) s -> len bs mod BSIZE = 0 -> len bs < MAXFILE * BSIZE ->
  wp finish (fun _ s' => let d := dino sb (img s') 1 in d_size d = len bs + BSIZE /\ ~ mapped d (img s') (len bs)) s.
Proof.
  intros Hs He Hlt. eapply wp_mono; [by apply (finish_view ty bs l)|]. intros [] s' (E & _). cbv beta zeta. rewrite E.
  destruct Hs as [B1 B2 B3 B4]. pose proof (first_holds _ _ _ _ B3) as Hh. assert (H0 : 0 <= len bs) by (unfold len; lia).
  assert (Hx : dinode_ok (dset_size (round_up (len bs)) (dino sb (view s) 1))).
  { destruct (ho_inode _ _ _ _ Hh). split; [done..| |done|done]. cbn [dset_size d_size].
    unfold uint, round_up, MAXFILE, BSIZE, NDIRECT, NINDIRECT in *. lia. }
  rewrite (dino_put sb mk_sb_ok); [|by apply (mkat_blocks _ _ _ _ B2)|done|done|done]. rewrite decide_True by done.
  split; [cbn [dset_size d_size]; unfold round_up, BSIZE in *; lia|]. unfold mapped.
  rewrite (slot_put_dino sb mk_sb_ok); [|done|apply Hh]. intros Hm.
  apply (gr_map _ _ _ _ (ho_grown _ _ _ _ Hh)) in Hm; [unfold BSIZE in *; lia|]. apply block_no. lia.
Qed.
