(* ===== verification/MkfsProps.v ===== *)
(** * mkfs: the theorems

    The image that mkfs.c writes is a well-formed file system (the types of
    its inodes and directories, its bitmap); the kernel boots from it, and
    finds the given files in its root directory. *)

From S2P Require Import Prelude Bytes Locks Bio Log LogCrash Fs FsBlocks FsInode FsFile FsData FsDir FsPath FsOps Mkfs MkfsInv MkfsVol.

(** ** Directories *)

(** The first entry with a name. *)
Definition lookup_entry (es : list (Z * list Z)) (name : list Z) : option Z :=
  option_map fst (List.find (fun e => bool_decide (name_str DIRSIZ name = name_str DIRSIZ e.2)) es).

Lemma find_seq {A B} (g : A -> bool) (h : A -> B) (f : nat -> bool) (h' : nat -> B) (l : list A) n k :
  (length l <= n)%nat ->
  (forall i, (i < n)%nat -> match l !! i with Some x => f (k + i)%nat = g x /\ h' (k + i)%nat = h x | None => f (k + i)%nat = false end) ->
  option_map h' (List.find f (seq k n)) = option_map h (List.find g l).
Proof.
  revert n k. induction l as [|x l IH]; intros n k Hn Hf.
  - assert (Hnone : List.find f (seq k n) = None); [|by rewrite Hnone].
    apply find_none_iff. intros i Hi%elem_of_seq. replace i with (k + (i - k))%nat by lia. apply (Hf (i - k)%nat). lia.
  - destruct n as [|n]; [simpl in Hn; lia|]. cbn [seq List.find]. destruct (Hf 0%nat ltac:(lia)) as [E1 E2].
    rewrite Nat.add_0_r in E1, E2. rewrite E1. destruct (g x); [simpl; by rewrite E2|]. apply IH; [simpl in Hn; lia|].
    intros i Hi. specialize (Hf (S i) ltac:(lia)). cbn [lookup list_lookup] in Hf.
    by replace (S k + i)%nat with (k + S i)%nat by lia.
Qed.

Section directory.
Context (V : Z -> block) (inum : Z) (es : list (Z * list Z)) (pad : nat).
Context (Hh : holds V inum T_DIR (entries_bytes es ++ repeat 0 (16 * pad))).
Context (Hes : Forall (fun e => 0 < e.1 < 2 ^ 16) es).
Abbreviation d := (dino sb V inum).

Lemma dir_size : d_size d = 16 * (Z.of_nat (length es) + Z.of_nat pad).
Proof using Hh.
  rewrite (ho_fields _ _ _ _ Hh). cbn [d_size]. unfold len.
  rewrite length_app, length_entries_bytes, repeat_length. lia.
Qed.

Lemma dirent_slice i : (i < length es + pad)%nat ->
  dirent d V i = slice (entries_bytes es ++ repeat 0 (16 * pad)) (16 * i) 16.
Proof using Hh.
  intros Hi. unfold dirent. rewrite <-(ho_bytes _ _ _ _ Hh). apply list_eq. intros j.
  destruct (decide (j < 16)%nat) as [Hj|Hj].
  - rewrite lookup_slice by done. rewrite length_app, length_entries_bytes, repeat_length.
    rewrite !lookup_fbytes by (unfold DIRENT_SIZE; lia). f_equal. f_equal. unfold DIRENT_SIZE. lia.
  - rewrite !lookup_ge_None_2; [done| |rewrite length_fbytes; unfold DIRENT_SIZE; lia]. unfold slice. rewrite length_take. lia.
Qed.

Lemma slice_entry l r i e : l !! i = Some e -> slice (entries_bytes l ++ r) (16 * i) 16 = dirent_bytes e.1 e.2.
Proof using Type.
  clear. intros El. unfold slice. revert i El. induction l as [|x l IH]; intros i El; [done|]. unfold entries_bytes in *.
  cbn [map concat]. rewrite <-app_assoc. destruct i as [|i].
  - injection El as ->. rewrite Nat.mul_0_r, drop_0. apply take_app_length'. by rewrite length_dirent_bytes.
  - replace (16 * S i)%nat with (length (dirent_bytes x.1 x.2) + 16 * i)%nat by (rewrite length_dirent_bytes; lia).
    rewrite drop_app_add. by apply IH.
Qed.

Lemma dirent_es i : (i < length es + pad)%nat ->
  match es !! i with Some e => dirent d V i = dirent_bytes e.1 e.2 | None => de_inum (dirent d V i) = 0 end.
Proof using Hh.
  intros Hi. rewrite dirent_slice by done. destruct (es !! i) as [e|] eqn:Ee; [by apply slice_entry|].
  apply lookup_ge_None in Ee. unfold slice. rewrite drop_app_ge by (rewrite length_entries_bytes; lia).
  unfold de_inum, get16. apply le_val_zero. unfold slice. apply Forall_take, Forall_drop, Forall_take, Forall_drop.
  apply List.Forall_forall. intros v Hv. by apply List.repeat_spec in Hv.
Qed.

Lemma dir_match_es name i : (i < length es + pad)%nat ->
  match es !! i with
  | Some e => dir_match d V name i = bool_decide (name_str DIRSIZ name = name_str DIRSIZ e.2) /\
      de_inum (dirent d V i) = e.1
  | None => dir_match d V name i = false
  end.
Proof using Hh Hes.
  intros Hi. pose proof (dirent_es i Hi) as Hd. unfold dir_match. destruct (es !! i) as [e|] eqn:Ee; [|by rewrite Hd].
  assert (He : 0 < e.1 < 2 ^ 16) by (rewrite Forall_lookup in Hes; apply (Hes _ _ Ee)).
  rewrite Hd, dirent_bytes_inum, dirent_bytes_name by lia. split; [|done].
  rewrite (proj2 (Z.eqb_neq e.1 0)) by lia. cbn [negb andb]. rewrite <-(name_field_str e.2).
  case_bool_decide as Hb; [by apply Z.eqb_eq, namecmp_eq|]. apply Z.eqb_neq. intros Hc. by apply Hb, namecmp_eq.
Qed.

Lemma directory_ok : dir_ok d V.
Proof using Hh.
  split; [by rewrite (ho_fields _ _ _ _ Hh)|rewrite dir_size; unfold DIRENT_SIZE; lia|by apply (holds_content _ _ _ _ Hh)].
Qed.

Lemma directory_lookup name : dir_lookup d V name = lookup_entry es name.
Proof using Hh Hes.
  unfold dir_lookup, lookup_entry, dir_index.
  assert (Hn : ndirents d = (length es + pad)%nat) by (unfold ndirents; rewrite dir_size; unfold DIRENT_SIZE; lia).
  apply (find_seq _ fst _ (fun i => de_inum (dirent d V i)) es _ 0); rewrite Hn; [lia|].
  intros i Hi. cbn [Nat.add]. by apply dir_match_es.
Qed.
End directory.

(** ** The kernel's start on an image *)

Lemma readsb_spec pid dev D W s : quiet dev [] D D W (bc s) ->
  wp (readsb pid dev) (fun r s' => r = decode_sb (D 1) /\ lg s' = lg s /\ quiet dev [] D D W (bc s')) s.
Proof.
  intros (A & Hs). unfold readsb. assert (Hp : forall y, pins [] y = 0) by (intros; by apply pins_out, not_elem_of_nil).
  apply wp_bind, wp_bio.
  wp_last (bread_tr dev pid 1 [] _ _ _ _ _ _ _ Hs); [split; [apply pins_room|simpl; unfold NBUF; lia]|].
  intros b s1 H1. apply wp_bind, wp_bio, wp_gets. cbn [bc set_bc].
  rewrite (get_data_tr _ 1 b _ _ _ _ _ _ _ H1) by (upds; done || lia). apply wp_bind, wp_bio.
  wp_last (brelse_tr dev pid 1 b _ _ _ _ _ _ _ H1). intros _ s2 H2. apply wp_ret.
  split; [done|]. split; [done|]. eexists.
  eapply bst_ext; [exact H2|done|..]; intros y; simpl; upd_cases y 1; upds; done || lia.
Qed.

(** [binit] and [fsinit], on a disk with an empty log. *)
Lemma fsinit_spec pid dev D : let sb := decode_sb (D 1) in
  dev <> 0 -> sb_magic sb = FSMAGIC -> 0 < sb_nlog sb -> D (sb_logstart sb) = zero_block ->
  wp (bio binit ;; fsinit pid dev) (fun r s => r = sb /\ committed dev (sb_logstart sb) (sb_nlog sb) D s) (boot_lstate D).
Proof.
  intros sb Hdev Hm Hn Hz. wp_call (binit_quiet dev D Hdev). intros _ s [El Hq]. unfold fsinit.
  wp_call (readsb_spec pid dev D [] s Hq). intros r s1 (-> & El1 & Hq1). fold sb. rewrite Hm, Z.eqb_refl. cbn [negb].
  assert (Hh : head_n (D (sb_logstart sb)) = 0) by (rewrite Hz; by vm_compute).
  assert (Er : recovered (sb_logstart sb) D = D).
  { apply functional_extensionality. intros b. destruct (decide (b = sb_logstart sb)) as [->|Hne]; [|by apply recovered_empty].
    unfold recovered, recover_writes. rewrite Hh, apply_app, apply_one. cbn [Z.to_nat seq map apply_writes foldl]. by rewrite Hz. }
  wp_call (initlog_spec pid dev (sb_logstart sb) (sb_nlog sb) D [] s1); [by rewrite El1, El|by apply disk_log_empty|].
  intros _ s2 (Hq2 & H1 & H2 & H3 & H4 & H5 & H6). apply wp_ret. split; [done|]. rewrite Er in Hq2.
  split; try done; [|by rewrite Hz]. destruct (quiet_facts _ _ _ _ _ Hq2) as (_ & _ & EW). by rewrite EW.
Qed.

(** ** The whole program *)

(** A root directory whose last block is not full. *)
Definition root_open (args : list (list Z)) : Prop := (2 + Z.of_nat (length args)) mod 64 <> 0.

Section main.
Context (creates : list Z -> bool) (host : list Z -> option (list (list Z))).

Definition image_of (args : list (list Z)) : list (Z * list Z) :=
  (T_DIR, padded (entries_bytes (root_entries args))) :: map (fun a => (T_FILE, file_bytes host a)) args.

Lemma main_files name args (Q : unit -> mkfs -> Prop) : creates name = true -> mkfs_input host args ->
  (forall s, built (volume_of host args) s -> wp finish Q s) ->
  wp (mkfs_main creates host (name :: args)) Q mkfs_init.
Proof using Type.
  intros Hc Hin HQ. unfold mkfs_main. rewrite Hc. cbn [negb]. apply wp_bind, wp_modify.
  wp_call (zero_image (Mkfs (img mkfs_init) (img_size mkfs_init) (freeinode mkfs_init) nmeta)). intros _ s1 H1.
  wp_call (built_init s1 H1). intros _ s2 H2.
  wp_call (built_alloc [] T_DIR s2 H2). intros r s3 (-> & H3). cbn [app length] in H3. unfold assert at 1.
  change (1 + Z.of_nat (length []) =? ROOTINO) with true. cbv iota. apply wp_bind, wp_ret.
  change (xshort (1 + Z.of_nat (length []))) with 1. change (1 + Z.of_nat (length [])) with (1 + Z.of_nat 0).
  wp_call (built_append _ 0 T_DIR [] (dirent_bytes 1 [46]) s3 H3). intros _ s4 H4.
  wp_call (built_append _ 0 T_DIR (dirent_bytes 1 [46]) (dirent_bytes 1 [46; 46]) s4 H4). intros _ s5 H5.
  apply wp_bind. eapply wp_mono; [apply (wp_for_each _ (fun d _ s => built (volume_of host d) s)); [exact H5|]|].
  { intros d a r s Ed Hs. by apply (add_file_spec host args d a r s). }
  intros ? s6 H6. by apply HQ.
Qed.

Lemma main_image name args : creates name = true -> mkfs_input host args -> root_open args ->
  wp (mkfs_main creates host (name :: args)) (fun _ s => image (image_of args) (img s)) mkfs_init.
Proof using Type.
  intros Hc Hin Hro. apply main_files; [done|done|]. intros s Hs. apply (finish_spec T_DIR _ _ s Hs).
  unfold len. rewrite length_root. unfold root_open in Hro. unfold BSIZE. lia.
Qed.

(** With 62 files (or 126, 190) the entries fill their blocks, and the root
    directory has a size with a block that is not mapped. *)
Lemma mkfs_root_hole name args : creates name = true -> mkfs_input host args -> ~ root_open args ->
  wp (mkfs_main creates host (name :: args)) (fun _ s => ~ content_ok (dino sb (img s) ROOTINO) (img s)) mkfs_init.
Proof using Type.
  intros Hc Hin Hro. pose proof (in_count _ _ Hin). apply main_files; [done|done|]. intros s Hs.
  eapply wp_mono; [apply (finish_hole T_DIR _ _ s Hs); unfold len; rewrite length_root|].
  - unfold root_open in Hro. unfold BSIZE. lia.
  - unfold MAXFILE, BSIZE, NDIRECT, NINDIRECT. lia.
  - intros [] s' [Hz Hm] [_ Hc2]. apply Hm, Hc2. change ROOTINO with 1. rewrite Hz. unfold len, BSIZE. lia.
Qed.
End main.

Lemma file_entries_range inum args e : e ∈ file_entries inum args -> inum <= e.1 < inum + Z.of_nat (length args).
Proof.
  revert inum. induction args as [|a args IH]; intros inum; cbn [file_entries length].
  - intros He. by apply not_elem_of_nil in He.
  - intros [->|He]%elem_of_cons; [simpl; lia|]. apply IH in He. lia.
Qed.
Lemma root_entries_range args e : e ∈ root_entries args -> 1 <= e.1 <= 1 + Z.of_nat (length args).
Proof.
  unfold root_entries, ROOTINO. intros [->|[->|He]%elem_of_cons]%elem_of_cons; [simpl; lia..|].
  apply file_entries_range in He. lia.
Qed.

Section made.
Context (host : list Z -> option (list (list Z))) (args : list (list Z)) (V : Z -> block).
Context (Hcount : Z.of_nat (length args) <= 198) (Him : image (image_of host args) V).

Lemma length_image : length (image_of host args) = S (length args).
Proof using Type. unfold image_of. cbn [length]. by rewrite length_map. Qed.

Lemma made_root : exists pad, holds V 1 T_DIR (entries_bytes (root_entries args) ++ repeat 0 (16 * pad)).
Proof using All.
  exists (Z.to_nat ((round_up (len (entries_bytes (root_entries args))) - len (entries_bytes (root_entries args))) / 16)).
  pose proof (vo_files _ _ (im_volume _ _ Him) 0 _ _ eq_refl) as H. unfold padded in H.
  replace (16 * Z.to_nat _)%nat with (Z.to_nat (round_up (len (entries_bytes (root_entries args))) -
    len (entries_bytes (root_entries args)))); [exact H|].
  unfold len. rewrite length_root. unfold round_up, BSIZE. lia.
Qed.

Lemma made_file k a : args !! k = Some a -> holds V (2 + Z.of_nat k) T_FILE (file_bytes host a).
Proof using Him.
  intros Ha. replace (2 + Z.of_nat k) with (1 + Z.of_nat (S k)) by lia. apply (vo_files _ _ (im_volume _ _ Him)).
  change (map (fun a => (T_FILE, file_bytes host a)) args !! k = Some (T_FILE, file_bytes host a)).
  by rewrite list_lookup_fmap, Ha.
Qed.

Lemma made_type inum : inum_ok sb inum -> d_type (dino sb V inum) =
  if inum =? 1 then T_DIR else if (2 <=? inum) && (inum <=? 1 + Z.of_nat (length args)) then T_FILE else 0.
Proof using All.
  intros Hi. destruct (Z.eqb_spec inum 1) as [->|Hne].
  { destruct made_root as [pad H]. by rewrite (ho_fields _ _ _ _ H). }
  destruct ((2 <=? inum) && (inum <=? 1 + Z.of_nat (length args))) eqn:E.
  - destruct (lookup_file args (Z.to_nat (inum - 2)) ltac:(lia)) as [a Ha]. pose proof (made_file _ _ Ha) as H.
    replace (2 + Z.of_nat (Z.to_nat (inum - 2))) with inum in H by lia. by rewrite (ho_fields _ _ _ _ H).
  - apply (vo_free _ _ (im_volume _ _ Him)); [done|]. rewrite length_image. change (0 <= inum < 200) in Hi. lia.
Qed.

Lemma made_live inum : live sb V inum <-> 1 <= inum <= 1 + Z.of_nat (length args).
Proof using All.
  unfold live. split.
  - intros [Hi Ht]. rewrite made_type in Ht by done. destruct (Z.eqb_spec inum 1); [lia|].
    destruct ((2 <=? inum) && (inum <=? 1 + Z.of_nat (length args))) eqn:E; [lia|done].
  - intros Hr. assert (Hi : inum_ok sb inum) by (change (0 <= inum < 200); lia). split; [done|]. rewrite made_type by done.
    destruct (Z.eqb_spec inum 1); [done|]. by replace ((2 <=? inum) && (inum <=? 1 + Z.of_nat (length args))) with true by lia.
Qed.

Lemma made_holds inum : live sb V inum -> exists ty bs, holds V inum ty bs.
Proof using All.
  intros Hl%made_live. destruct (decide (inum = 1)) as [->|Hne]; [destruct made_root as [pad H]; eauto|].
  destruct (lookup_file args (Z.to_nat (inum - 2)) ltac:(lia)) as [a Ha]. pose proof (made_file _ _ Ha) as H.
  replace (2 + Z.of_nat (Z.to_nat (inum - 2))) with inum in H by lia. eauto.
Qed.

Lemma made_lookup name : dir_lookup (dino sb V 1) V name = lookup_entry (root_entries args) name.
Proof using All.
  destruct made_root as [pad H]. apply (directory_lookup V 1 _ pad H). apply Forall_forall. intros e He.
  apply root_entries_range in He. lia.
Qed.

Lemma made_dir inum : live sb V inum -> d_type (dino sb V inum) = T_DIR -> inum = 1.
Proof using All.
  intros Hl Ht. rewrite made_type in Ht by apply Hl. destruct (Z.eqb_spec inum 1) as [->|]; [done|].
  by destruct ((2 <=? inum) && (inum <=? 1 + Z.of_nat (length args))).
Qed.

Lemma made_tree : tree_ok sb V.
Proof using All.
  split.
  - intros inum (ty & bs & H)%made_holds. by rewrite (ho_fields _ _ _ _ H).
  - intros inum Hl Ht. rewrite (made_dir inum Hl Ht). destruct made_root as [pad H]. by apply (directory_ok V 1 _ pad H).
  - intros inum name inum' Hl Ht. rewrite (made_dir inum Hl Ht), made_lookup. unfold lookup_entry.
    destruct (List.find _ _) as [e|] eqn:Ef; [|done]. intros [= <-]. apply List.find_some in Ef as [Hin _].
    apply made_live. apply root_entries_range. by apply list_elem_of_In.
Qed.

Lemma made_apart inum inum' i j : live sb V inum -> live sb V inum' -> inum <> inum' -> (i < NSLOT)%nat -> (j < NSLOT)%nat ->
  slot (dino sb V inum) V i <> 0 -> slot (dino sb V inum) V i <> slot (dino sb V inum') V j.
Proof using All.
  intros H1%made_live H2%made_live Hne Hi Hj.
  pose proof (vo_apart _ _ (im_volume _ _ Him) (Z.to_nat (inum - 1)) (Z.to_nat (inum' - 1)) i j) as H.
  rewrite length_image in H. rewrite !Z2Nat.id in H by lia.
  replace (1 + (inum - 1)) with inum in H by lia. replace (1 + (inum' - 1)) with inum' in H by lia. apply H; done || lia.
Qed.

(** The blocks in use are those of the files. *)
Lemma made_used b : data_start sb <= b < sb_size sb ->
  used sb V b = true <-> exists inum i, live sb V inum /\ (i < NSLOT)%nat /\ slot (dino sb V inum) V i = b.
Proof using All.
  intros Hb. rewrite data_start_eq in Hb. split.
  - rewrite (im_used _ _ Him) by lia. intros Hu%Z.ltb_lt. destruct (im_covered _ _ Him b) as (k & i & Hk & Hi & E).
    { rewrite nmeta_eq in *. lia. }
    rewrite length_image in Hk. exists (1 + Z.of_nat k), i. split_and!; [apply made_live; lia|done|done].
  - intros (inum & i & Hl & Hi & E). destruct (made_holds _ Hl) as (ty & bs & H).
    destruct (fo_data sb _ _ (ho_file _ _ _ _ H) i Hi) as [_ Hu]; [lia|]. by rewrite E in Hu.
Qed.
End made.

(** C14: given at most 198 files that can be opened, with names that fit, and
    that fit the disk, mkfs returns.  If the number of the files plus the two
    entries . and .. is not a multiple of 64, the image is a well-formed file
    system: the superblock is that of the layout, every inode in use has fields
    of their types and is a file or directory with distinct data blocks for all
    of its bytes, no block belongs to two files, the bitmap marks exactly the
    blocks of the files and the metadata, and every directory entry names an
    inode in use.  If it is a multiple of 64, which fills the last block of the
    root directory, the size of the root directory goes one block further than
    its data. *)
Theorem mkfs_types creates host name args : creates name = true -> mkfs_input host args ->
  (root_open args -> wp (mkfs_main creates host (name :: args)) (fun _ s => let V := img s in
    decode_sb (V 1) = sb /\ sb_ok sb /\ blocks_ok sb V /\ tree_ok sb V /\ live sb V ROOTINO /\
    (forall inum, live sb V inum -> dinode_ok (dino sb V inum) /\ file_ok sb (dino sb V inum) V /\ content_ok (dino sb V inum) V) /\
    (forall inum inum' i j, live sb V inum -> live sb V inum' -> inum <> inum' -> (i < NSLOT)%nat -> (j < NSLOT)%nat ->
      slot (dino sb V inum) V i <> 0 -> slot (dino sb V inum) V i <> slot (dino sb V inum') V j) /\
    (forall b, data_start sb <= b < sb_size sb ->
      used sb V b = true <-> exists inum i, live sb V inum /\ (i < NSLOT)%nat /\ slot (dino sb V inum) V i = b)) mkfs_init) /\
  (~ root_open args ->
   wp (mkfs_main creates host (name :: args)) (fun _ s => ~ content_ok (dino sb (img s) ROOTINO) (img s)) mkfs_init).
Proof.
  intros Hc Hin. split; [|by apply mkfs_root_hole]. intros Hro. pose proof (in_count _ _ Hin) as Hn.
  eapply wp_mono; [by apply (main_image creates host name args)|]. intros [] s Him. cbv beta zeta in *.
  split_and!.
  - rewrite (vo_low _ _ (im_volume _ _ Him)) by done. apply sb_block_ok.
  - apply mk_sb_ok.
  - apply Him.
  - by apply (made_tree host args).
  - apply (made_live host args _ Hn Him). unfold ROOTINO. lia.
  - intros inum Hl. destruct (made_holds host args _ Hn Him inum Hl) as (ty & bs & H).
    split_and!; [apply H|apply H|by apply (holds_content _ _ ty bs)].
  - by apply (made_apart host args).
  - by apply (made_used host args).
Qed.

(** C15: from the image that mkfs makes of such files, their number plus 2 not a
    multiple of 64, the kernel boots: binit
    and fsinit return its superblock and leave the file system idle on the
    contents of the image; a lookup in the root directory finds ., .. and each
    file under its name without a leading user/ and _, the first one if two
    have the same name, and nothing else; and inode 2 + k is a file with one
    link and the bytes of the k-th argument. *)
Theorem mkfs_correct creates host name args : creates name = true -> mkfs_input host args -> root_open args ->
  wp (mkfs_main creates host (name :: args)) (fun _ s => let V := img s in
    (forall pid, exists x, (bio binit ;; fsinit pid ROOTDEV)%K (boot_lstate V) = Ret (sb, x) /\
      forall E T (e : E), fidle ROOTDEV sb V T e (FState x sb T e)) /\
    (forall w, walk_path sb V ROOTINO [w] = lookup_entry (root_entries args) w) /\
    (forall k a, args !! k = Some a -> let d := dino sb V (2 + Z.of_nat k) in
      d_type d = T_FILE /\ d_nlink d = 1 /\ d_size d = len (file_bytes host a) /\
      fbytes d V 0 (length (file_bytes host a)) = file_bytes host a)) mkfs_init.
Proof.
  intros Hc Hin Hro. pose proof (in_count _ _ Hin) as Hn.
  eapply wp_mono; [by apply (main_image creates host name args)|]. intros [] s Him. cbv beta zeta in *.
  pose proof (im_volume _ _ Him) as Hv. split_and!.
  - intros pid. assert (Hsb : decode_sb (img s 1) = sb) by (rewrite (vo_low _ _ Hv) by done; apply sb_block_ok).
    pose proof (fsinit_spec pid ROOTDEV (img s)) as H. cbv zeta in H. rewrite Hsb in H.
    destruct (proj1 (wp_returns _ _ _) (H ltac:(done) ltac:(done) ltac:(done) (vo_low _ _ Hv 2 ltac:(done))))
      as (r & x & Hx & -> & Hcm). exists x. split; [done|]. intros E T e. by split.
  - intros w. unfold walk_path. change ROOTINO with 1. rewrite (made_type host args _ Hn Him) by done. cbn [Z.eqb].
    rewrite (made_lookup host args _ Hn Him). by destruct (lookup_entry _ _).
  - intros k a Ha. pose proof (made_file host args _ Him k a Ha) as H. rewrite (ho_fields _ _ _ _ H) at 1 2 3.
    split_and!; try done. apply H.
Qed.

(** *** Two files *)

Definition demo_cat : list Z := [117; 115; 101; 114; 47; 95; 99; 97; 116].
Definition demo_readme : list Z := [82; 69; 65; 68; 77; 69].
Definition demo_host (a : list Z) : option (list (list Z)) :=
  if decide (a = demo_cat) then Some [repeat 7 1024; repeat 8 76]
  else if decide (a = demo_readme) then Some [[120; 118; 54]] else None.

Lemma demo_input : mkfs_input demo_host [demo_cat; demo_readme].
Proof.
  split; try (by vm_compute).
  all: intros a [->|[->|Ha]%elem_of_cons]%elem_of_cons; [..|by apply not_elem_of_nil in Ha].
  all: vm_compute; try done; lia.
Qed.

Lemma mkfs_types_witness : exists s, mkfs_main (fun _ => true) demo_host [[102]; demo_cat; demo_readme] mkfs_init = Ret (tt, s) /\
  tree_ok sb (img s) /\ blocks_ok sb (img s).
Proof.
  pose proof (proj1 (mkfs_types (fun _ => true) demo_host [102] [demo_cat; demo_readme] eq_refl demo_input) ltac:(vm_compute; discriminate)) as H.
  destruct (proj1 (wp_returns _ _ _) H) as ([] & s & Hs & _ & _ & Hb & Ht & _). exists s. split; [exact Hs|]. split; [exact Ht|exact Hb].
Defined.

Lemma mkfs_correct_witness : exists s, mkfs_main (fun _ => true) demo_host [[102]; demo_cat; demo_readme] mkfs_init = Ret (tt, s) /\
  walk_path sb (img s) ROOTINO [[99; 97; 116]] = Some 2 /\ walk_path sb (img s) ROOTINO [[99; 97]] = None /\
  fbytes (dino sb (img s) 3) (img s) 0 3 = [120; 118; 54].
Proof.
  pose proof (mkfs_correct (fun _ => true) demo_host [102] [demo_cat; demo_readme] eq_refl demo_input ltac:(vm_compute; discriminate)) as H.
  destruct (proj1 (wp_returns _ _ _) H) as ([] & s & Hs & _ & Hw & Hf). exists s. split; [exact Hs|].
  rewrite !Hw. split; [vm_compute; reflexivity|]. split; [vm_compute; reflexivity|]. exact (proj2 (proj2 (proj2 (Hf 1%nat _ eq_refl)))).
Defined.

(** mk_ialloc does not compare freeinode with NINODES: inode 208 is in the
    bitmap's block, which [mk_balloc] overwrites. *)
Lemma inode_in_bitmap : IBLOCK 208 sb = sb_bmapstart sb.
Proof. reflexivity. Qed.
