(* ===== verification/Format.v ===== *)
(** * Formatted output, the part that kernel/printf.c and user/printf.c share

    The numerals of a number, and the loop over the format string.  A result
    of [None] is undefined behaviour: a store past the end of a buffer, or a
    missing argument. *)

From S2P Require Import Prelude.

Definition i64 (x : Z) : Z := (x + 2 ^ 63) mod 2 ^ 64 - 2 ^ 63.

Lemma i64_id x : - 2 ^ 63 <= x < 2 ^ 63 -> i64 x = x.
Proof. unfold i64. lia. Qed.

Definition char (s : string) : Z := match s with String c _ => Z.of_nat (Ascii.nat_of_ascii c) | EmptyString => 0 end.
Definition PERCENT : Z := 37.
Definition MINUS : Z := 45.

(** [buf[i++] = c] in a buffer of 16 bytes of which [i] are used. *)
Definition push_char (c : Z) (buf : list Z) : option (list Z) :=
  if (length buf <? 16)%nat then Some (buf ++ [c]) else None.

(** The loop [do { buf[i++] = digits[x % base]; } while((x /= base) != 0)]. *)
Fixpoint digits_loop (digits : Z -> Z) (base x : Z) (buf : list Z) (left : nat) : option (list Z) :=
  match left with
  | O => None
  | S left' =>
      match push_char (digits (x mod base)) buf with
      | None => None
      | Some buf =>
          let x := x / base in
          if x =? 0 then Some buf else digits_loop digits base x buf left'
      end
  end.

(** The body of both functions printint, for the magnitude [x]; 64 turns of
    the loop are enough for 64 bits. *)
Definition print_number (digits : Z -> Z) (x base : Z) (neg : bool) : option (list Z) :=
  match digits_loop digits base x [] 64 with
  | None => None
  | Some buf =>
      match (if neg then push_char MINUS buf else Some buf) with
      | None => None
      | Some buf => Some (rev buf)
      end
  end.

(** printptr: 0x and the 16 hexadecimal digits, from the top. *)
Fixpoint nibbles (digits : Z -> Z) (x : Z) (left : nat) : list Z :=
  match left with
  | O => []
  | S left' => digits (Z.shiftr x 60) :: nibbles digits (u64 (Z.shiftl x 4)) left'
  end.
Definition print_pointer (digits : Z -> Z) (x : Z) : list Z := 48 :: 120 :: nibbles digits x 16.

(** The arguments after the format: words, and pointers to strings. *)
Inductive varg := VWord (x : Z) | VStr (s : option (list Z)).

Inductive conv := CInt (long : bool) (base : Z) (sign : bool) | CPtr | CStr | CPercent | CUnknown.

(** The chain of tests on the three characters after a percent sign: what to
    print, and how many more of them are used. *)
Definition directive (c0 c1 c2 : Z) : conv * nat :=
  if c0 =? char "d" then (CInt false 10 true, 0%nat)
  else if (c0 =? char "l") && (c1 =? char "d") then (CInt true 10 true, 1%nat)
  else if (c0 =? char "l") && (c1 =? char "l") && (c2 =? char "d") then (CInt true 10 true, 2%nat)
  else if c0 =? char "u" then (CInt false 10 false, 0%nat)
  else if (c0 =? char "l") && (c1 =? char "u") then (CInt true 10 false, 1%nat)
  else if (c0 =? char "l") && (c1 =? char "l") && (c2 =? char "u") then (CInt true 10 false, 2%nat)
  else if c0 =? char "x" then (CInt false 16 false, 0%nat)
  else if (c0 =? char "l") && (c1 =? char "x") then (CInt true 16 false, 1%nat)
  else if (c0 =? char "l") && (c1 =? char "l") && (c2 =? char "x") then (CInt true 16 false, 2%nat)
  else if c0 =? char "p" then (CPtr, 0%nat)
  else if c0 =? char "s" then (CStr, 0%nat)
  else if c0 =? PERCENT then (CPercent, 0%nat)
  else (CUnknown, 0%nat).

Definition NULLSTR : list Z := [40; 110; 117; 108; 108; 41].

Section format.
Context (print_int : bool -> Z -> bool -> Z -> option (list Z)) (print_ptr : Z -> list Z).

(** What one directive prints, and the arguments that are left. *)
Definition convert (d : conv) (c0 : Z) (ap : list varg) : option (list Z * list varg) :=
  match d, ap with
  | CInt long base sign, VWord x :: ap' =>
      match print_int long base sign x with Some out => Some (out, ap') | None => None end
  | CPtr, VWord x :: ap' => Some (print_ptr x, ap')
  | CStr, VStr s :: ap' => Some (match s with Some s => s | None => NULLSTR end, ap')
  | CPercent, _ => Some ([PERCENT], ap)
  | CUnknown, _ => Some ([PERCENT; c0], ap)
  | _, _ => None
  end.

(** The loop over the format string, which ends at its 0. *)
Fixpoint format (fmt : list Z) (ap : list varg) (left : nat) : option (list Z) :=
  match left with
  | O => None
  | S left' =>
      match fmt with
      | [] => Some []
      | cx :: fmt1 =>
          if negb (cx =? PERCENT) then
            match format fmt1 ap left' with Some out => Some (cx :: out) | None => None end
          else
            match fmt1 with
            | [] => Some []
            | c0 :: fmt2 =>
                let (d, extra) := directive c0 (nth 0 fmt2 0) (nth 1 fmt2 0) in
                match convert d c0 ap with
                | None => None
                | Some (out, ap') =>
                    match format (drop extra fmt2) ap' left' with
                    | Some out' => Some (out ++ out')
                    | None => None
                    end
                end
            end
      end
  end.
End format.

(** ** Numerals *)

(** The value of a numeral, least significant digit first. *)
Fixpoint digits_val (base : Z) (ds : list Z) : Z :=
  match ds with
  | [] => 0
  | d :: ds' => d + base * digits_val base ds'
  end.

(** The digits of [x], least significant first, without leading zeros. *)
Record numeral (base x : Z) (ds : list Z) : Prop := {
  nu_range : Forall (fun d => 0 <= d < base) ds;
  nu_val : digits_val base ds = x;
  nu_some : ds <> [];
  nu_lead : (1 < length ds)%nat -> last ds <> Some 0;
}.

Lemma digits_val_range base ds : 1 <= base -> Forall (fun d => 0 <= d < base) ds ->
  0 <= digits_val base ds < base ^ Z.of_nat (length ds).
Proof.
  intros Hb. induction 1 as [|d ds Hd _ IH]; simpl digits_val; [simpl; lia|].
  cbn [length]. rewrite Nat2Z.inj_succ, Z.pow_succ_r by lia. nia.
Qed.

Lemma digits_val_lead base ds : 1 < base -> Forall (fun d => 0 <= d < base) ds -> ds <> [] -> last ds <> Some 0 ->
  base ^ (Z.of_nat (length ds) - 1) <= digits_val base ds.
Proof.
  intros Hb. induction 1 as [|d ds Hd Hds IH]; [done|]. intros _ Hl. destruct ds as [|d' ds].
  - simpl in *. assert (d <> 0) by congruence. lia.
  - specialize (IH ltac:(done) Hl). set (ds1 := d' :: ds) in *. change (digits_val base (d :: ds1)) with (d + base * digits_val base ds1).
    assert (E : Z.of_nat (length (d :: ds1)) - 1 = Z.succ (Z.of_nat (length ds1) - 1)) by (simpl; lia).
    rewrite E, Z.pow_succ_r by (unfold ds1; simpl; lia). nia.
Qed.

(** The number of digits is determined by the size of the number. *)
Lemma numeral_length base x ds k : 1 < base -> numeral base x ds -> (0 < k)%nat ->
  (length ds <= k)%nat <-> x < base ^ Z.of_nat k.
Proof.
  intros Hb [H1 H2 H3 H4] Hk. pose proof (digits_val_range base ds ltac:(lia) H1) as Hr. rewrite H2 in Hr. split.
  - intros Hle. eapply Z.lt_le_trans; [apply Hr|]. apply Z.pow_le_mono_r; lia.
  - intros Hlt. destruct (decide (length ds <= k)%nat) as [|Hgt]; [done|exfalso].
    pose proof (digits_val_lead base ds Hb H1 H3 (H4 ltac:(lia))) as Hlead. rewrite H2 in Hlead.
    assert (base ^ Z.of_nat k <= base ^ (Z.of_nat (length ds) - 1)) by (apply Z.pow_le_mono_r; lia). lia.
Qed.

Lemma numeral_step base x ds : 1 < base -> 0 <= x -> x / base <> 0 -> numeral base (x / base) ds ->
  numeral base x (x mod base :: ds).
Proof.
  intros Hb Hx Hne [H1 H2 H3 H4]. split.
  - constructor; [apply Z.mod_pos_bound; lia|done].
  - simpl. rewrite H2. pose proof (Z.div_mod x base). lia.
  - done.
  - intros _. destruct ds as [|d [|d' ds]]; [done| |apply H4; simpl; lia]. simpl in H2 |- *. intros E. injection E as ->. lia.
Qed.

Lemma numeral_one base x : 0 <= x < base -> numeral base x [x].
Proof. intros Hx. split; [by apply Forall_singleton|simpl; lia|done|simpl; lia]. Qed.

Lemma digits_loop_spec digits base n x buf left :
  1 < base -> 0 <= x < base ^ Z.of_nat (S n) -> (n < left)%nat ->
  exists ds, numeral base x ds /\
    digits_loop digits base x buf left =
      if (length buf + length ds <=? 16)%nat then Some (buf ++ map digits ds) else None.
Proof.
  intros Hb. revert x buf left. induction n as [|n IH]; intros x buf [|left] Hx Hl; try lia; cbn [digits_loop].
  - change (Z.of_nat 1) with 1 in Hx. rewrite Z.pow_1_r in Hx. exists [x]. split.
    + by apply numeral_one.
    + rewrite Z.mod_small, Z.div_small by lia. unfold push_char. simpl.
      destruct (Nat.ltb_spec (length buf) 16), (Nat.leb_spec (length buf + 1) 16); try lia; done.
  - destruct (Z.eqb_spec (x / base) 0) as [Hz|Hn].
    + apply Z.div_small_iff in Hz as Hx'; [|lia]. assert (0 <= x < base) by lia. exists [x]. split.
      * by apply numeral_one.
      * rewrite Z.mod_small by lia. unfold push_char. simpl.
        destruct (Nat.ltb_spec (length buf) 16), (Nat.leb_spec (length buf + 1) 16); try lia; done.
    + assert (Hq : 0 <= x / base < base ^ Z.of_nat (S n)).
      { split; [apply Z.div_pos; lia|]. apply Z.div_lt_upper_bound; [lia|].
        replace (Z.of_nat (S (S n))) with (Z.succ (Z.of_nat (S n))) in Hx by lia.
        rewrite Z.pow_succ_r in Hx by lia. lia. }
      destruct (IH (x / base) (buf ++ [digits (x mod base)]) left Hq ltac:(lia)) as (ds & Hds & E).
      exists (x mod base :: ds). split; [by apply numeral_step; [|lia| |]|].
      assert (0 < length ds)%nat by (destruct Hds as [_ _ Hs _]; destruct ds; [done|simpl; lia]).
      unfold push_char. cbn [length map]. destruct (Nat.ltb_spec (length buf) 16).
      * rewrite E, length_app, <-app_assoc. cbn [length app].
        by replace (length buf + 1 + length ds)%nat with (length buf + S (length ds))%nat by lia.
      * destruct (Nat.leb_spec (length buf + S (length ds)) 16); [lia|done].
Qed.

(** What both functions printint print: the numeral, most significant digit
    first, after a minus sign if the number is negative, when the buffer of 16
    bytes is large enough for it. *)
Lemma print_number_spec digits x base neg :
  2 <= base -> 0 <= x < 2 ^ 64 ->
  exists ds, numeral base x ds /\
    print_number digits x base neg =
      if x <? base ^ (if neg then 15 else 16)
      then Some ((if neg then [MINUS] else []) ++ rev (map digits ds)) else None.
Proof.
  intros Hb Hx. assert (Hx' : 0 <= x < base ^ Z.of_nat 64).
  { split; [lia|]. eapply Z.lt_le_trans; [apply Hx|]. apply Z.pow_le_mono_l. lia. }
  destruct (digits_loop_spec digits base 63 x [] 64 ltac:(lia) Hx' ltac:(lia)) as (ds & Hds & E).
  exists ds. split; [done|]. unfold print_number. rewrite E. cbn [length Nat.add app].
  pose proof (numeral_length base x ds 16 ltac:(lia) Hds ltac:(lia)) as H16.
  pose proof (numeral_length base x ds 15 ltac:(lia) Hds ltac:(lia)) as H15.
  change (Z.of_nat 16) with 16 in H16. change (Z.of_nat 15) with 15 in H15.
  destruct (Nat.leb_spec (length ds) 16) as [Hle|Hgt].
  - destruct neg; [|by rewrite (proj2 (Z.ltb_lt _ _)) by tauto]. unfold push_char. rewrite length_map.
    destruct (Nat.ltb_spec (length ds) 16).
    + rewrite (proj2 (Z.ltb_lt _ _)) by (apply H15; lia). by rewrite rev_app_distr.
    + rewrite (proj2 (Z.ltb_ge _ _)); [done|]. apply Z.nlt_ge. rewrite <-H15. lia.
  - rewrite (proj2 (Z.ltb_ge _ _)); [done|]. destruct neg; apply Z.nlt_ge; rewrite <-?H15, <-?H16; lia.
Qed.

(** ** Formats as sequences of pieces *)

Inductive radix := Dec | Uns | Hex.
Inductive piece := Lit (c : Z) | Num (long : bool) (r : radix) (x : Z) | Ptr (x : Z) | Str (s : option (list Z)) | Pct.

Definition letter (r : radix) : Z := match r with Dec => char "d" | Uns => char "u" | Hex => char "x" end.
Definition radix_base (r : radix) : Z := match r with Hex => 16 | _ => 10 end.
Definition radix_sign (r : radix) : bool := match r with Dec => true | _ => false end.

(** The text of a piece in the format, and its argument. *)
Definition spell (p : piece) : list Z :=
  match p with
  | Lit c => [c]
  | Num long r _ => PERCENT :: (if long then [char "l"] else []) ++ [letter r]
  | Ptr _ => [PERCENT; char "p"]
  | Str _ => [PERCENT; char "s"]
  | Pct => [PERCENT; PERCENT]
  end.
Definition argument (p : piece) : list varg :=
  match p with Num _ _ x | Ptr x => [VWord x] | Str s => [VStr s] | _ => [] end.

Section pieces.
Context (print_int : bool -> Z -> bool -> Z -> option (list Z)) (print_ptr : Z -> list Z).

(** What a piece prints. *)
Definition show (p : piece) : option (list Z) :=
  match p with
  | Lit c => Some [c]
  | Num long r x => print_int long (radix_base r) (radix_sign r) x
  | Ptr x => Some (print_ptr x)
  | Str s => Some (match s with Some s => s | None => NULLSTR end)
  | Pct => Some [PERCENT]
  end.
Fixpoint show_all (ps : list piece) : option (list Z) :=
  match ps with
  | [] => Some []
  | p :: ps' => match show p, show_all ps' with Some a, Some b => Some (a ++ b) | _, _ => None end
  end.

Lemma directive_num (long : bool) r fmt :
  exists c0 rest, (if long then [char "l"] else []) ++ letter r :: fmt = c0 :: rest /\
    directive c0 (nth 0 rest 0) (nth 1 rest 0) = (CInt long (radix_base r) (radix_sign r), if long then 1%nat else 0%nat) /\
    drop (if long then 1%nat else 0%nat) rest = fmt.
Proof. destruct long; [exists (char "l"), (letter r :: fmt)|exists (letter r), fmt]; by destruct r. Qed.

Lemma format_pieces ps left :
  Forall (fun p => match p with Lit c => c <> PERCENT | _ => True end) ps -> (length (concat (map spell ps)) < left)%nat ->
  format print_int print_ptr (concat (map spell ps)) (concat (map argument ps)) left = show_all ps.
Proof.
  intros Hl. revert left. induction Hl as [|p ps Hp Hps IH]; intros [|left] Hlen; try (simpl in Hlen; lia); [done|].
  set (fmt := concat (map spell ps)) in *. set (ap := concat (map argument ps)) in *.
  destruct p as [c|long r x|x|s|]; cbn [map concat spell argument app length] in Hlen |- *; fold fmt in Hlen |- *; fold ap.
  - cbn [format show_all show]. rewrite (proj2 (Z.eqb_neq _ _) Hp). cbn [negb]. rewrite IH by lia.
    by destruct (show_all ps).
  - cbn [format show_all show]. rewrite Z.eqb_refl. cbn [negb].
    rewrite <-app_assoc. cbn [app]. destruct (directive_num long r fmt) as (c0 & rest & -> & -> & Hd). cbn [convert app].
    destruct (print_int long (radix_base r) (radix_sign r) x); [|done]. rewrite Hd, IH; [by destruct (show_all ps)|].
    rewrite !length_app in Hlen. lia.
  - cbn [format show_all show]. rewrite Z.eqb_refl. cbn [negb]. change (directive (char "p") _ _) with (CPtr, 0%nat).
    cbn [convert drop app]. rewrite IH by lia. by destruct (show_all ps).
  - cbn [format show_all show]. rewrite Z.eqb_refl. cbn [negb]. change (directive (char "s") _ _) with (CStr, 0%nat).
    cbn [convert drop app]. rewrite IH by lia. by destruct (show_all ps).
  - cbn [format show_all show]. rewrite Z.eqb_refl. cbn [negb]. change (directive PERCENT _ _) with (CPercent, 0%nat).
    cbn [convert drop app]. rewrite IH by lia. by destruct (show_all ps).
Qed.
End pieces.
