(* ===== verification/Printf.v ===== *)
(** * kernel/printf.c: formatted output on the console

    The bytes that printf hands to consputc.  pr.lock, which keeps the output
    of concurrent calls apart, is not part of the model. *)

From S2P Require Import Prelude Format.

(** The table digits[]: 0 to 9 and a to f. *)
Definition digits (d : Z) : Z := if d <? 10 then 48 + d else 87 + d.

Definition printint (xx base : Z) (sign : bool) : option (list Z) :=
  let neg := sign && (xx <? 0) in
  print_number digits (if neg then u64 (- xx) else u64 xx) base neg.

Definition printptr (x : Z) : list Z := print_pointer digits x.

(** An int argument is widened to long long, a long one is taken as it is. *)
Definition print_arg (long : bool) (base : Z) (sign : bool) (x : Z) : option (list Z) :=
  printint (if long then i64 x else i32 x) base sign.

Definition printf (fmt : list Z) (ap : list varg) : option (list Z) :=
  format print_arg printptr fmt ap (S (length fmt)).

(** ** Correctness *)

(** The number a digit of the table stands for. *)
Definition digit_val (c : Z) : Z := if c <? 97 then c - 48 else c - 87.

(** The value of a printed numeral. *)
Fixpoint parse_digits (base acc : Z) (s : list Z) : Z :=
  match s with
  | [] => acc
  | c :: s' => parse_digits base (acc * base + digit_val c) s'
  end.
Definition parse (base : Z) (s : list Z) : Z :=
  match s with
  | c :: s' => if c =? MINUS then - parse_digits base 0 s' else parse_digits base 0 s
  | [] => 0
  end.

Lemma digit_val_digits d : 0 <= d < 16 -> digit_val (digits d) = d.
Proof. unfold digit_val, digits. intros H. destruct (Z.ltb_spec d 10); case_bool; lia. Qed.

Lemma parse_digits_app base acc s s' : parse_digits base acc (s ++ s') = parse_digits base (parse_digits base acc s) s'.
Proof. revert acc. induction s as [|c s IH]; intros acc; [done|]. apply IH. Qed.

Lemma parse_digits_rev base ds : base <= 16 -> Forall (fun d => 0 <= d < base) ds ->
  parse_digits base 0 (rev (map digits ds)) = digits_val base ds.
Proof.
  intros Hb. induction 1 as [|d ds Hd _ IH]; [done|]. cbn [map rev]. rewrite parse_digits_app, IH. simpl.
  rewrite digit_val_digits by lia. lia.
Qed.

Lemma parse_numeral base x ds : base <= 16 -> numeral base x ds -> parse base (rev (map digits ds)) = x.
Proof.
  intros Hb [H1 H2 H3 _]. pose proof (parse_digits_rev base ds Hb H1) as Hp. rewrite H2 in Hp.
  assert (Hm : Forall (fun c => c <> MINUS) (rev (map digits ds))).
  { apply Forall_rev, List.Forall_map. eapply Forall_impl; [exact H1|]. intros d Hd. cbv beta in Hd. unfold digits, MINUS.
    destruct (Z.ltb_spec d 10); lia. }
  unfold parse. destruct (rev (map digits ds)) as [|c s]; [done|]. apply Forall_cons in Hm as [Hm _].
  by rewrite (proj2 (Z.eqb_neq _ _) Hm).
Qed.

(** C36: numbers.  For a 64-bit number printed in base 10 or 16, as signed or
    unsigned, the text that printint prints reads back as that number.  The
    buffer of printint has room for exactly 16 characters: a number with more
    digits, or with 16 digits and a sign, is stored past its end, and only such
    a number. *)
Theorem printint_correct (xx base : Z) (sign : bool) :
  - 2 ^ 63 <= xx < 2 ^ 63 -> base = 10 \/ base = 16 ->
  let v := if sign then xx else u64 xx in
  match printint xx base sign with
  | Some s => parse base s = v /\ (length s <= 16)%nat
  | None => v <= - base ^ 15 \/ base ^ 16 <= v
  end.
Proof.
  intros Hx Hb v. unfold printint. set (neg := sign && (xx <? 0)).
  set (x := if neg then u64 (- xx) else u64 xx).
  assert (Hxr : 0 <= x < 2 ^ 64) by (unfold x; destruct neg; apply u64_range).
  assert (Hv : v = if neg then - x else x).
  { unfold v, x, neg, u64. destruct sign, (Z.ltb_spec xx 0); simpl; lia. }
  destruct (print_number_spec digits x base neg ltac:(lia) Hxr) as (ds & Hds & ->).
  pose proof (parse_numeral base x ds ltac:(lia) Hds) as Hp.
  pose proof (fun k H => numeral_length base x ds k ltac:(lia) Hds H) as Hlen.
  destruct (Z.ltb_spec x (base ^ (if neg then 15 else 16))) as [Hlt|Hge].
  - destruct neg.
    + apply (Hlen 15%nat ltac:(lia)) in Hlt. simpl. rewrite length_rev, length_map. split; [|lia].
      assert (parse_digits base 0 (rev (map digits ds)) = x) by (rewrite parse_digits_rev; [apply Hds|lia|apply Hds]). lia.
    + apply (Hlen 16%nat ltac:(lia)) in Hlt. rewrite app_nil_l, length_rev, length_map. split; [lia|lia].
  - destruct neg; [left|right]; lia.
Qed.

Lemma printint_correct_witness : printint (-255) 16 true = Some [MINUS; 102; 102] /\ parse 16 [MINUS; 102; 102] = -255.
Proof.
  assert (E : printint (-255) 16 true = Some [MINUS; 102; 102]) by (vm_compute; reflexivity).
  pose proof (printint_correct (-255) 16 true ltac:(lia) (or_intror eq_refl)) as H. cbv zeta in H. rewrite E in H.
  split; [exact E|exact (proj1 H)].
Defined.

(** Formats.  Printing a format that is put together from literal
    characters and the directives d, u, x (with or without an l), p, s and the
    doubled percent sign prints the pieces one after the other, each with its
    own argument. *)
Theorem printf_pieces (ps : list piece) :
  Forall (fun p => match p with Lit c => c <> PERCENT | _ => True end) ps ->
  printf (concat (map spell ps)) (concat (map argument ps)) = show_all print_arg printptr ps.
Proof. intros Hp. apply format_pieces; [done|lia]. Qed.

Lemma printf_pieces_witness :
  printf [112; PERCENT; 100; PERCENT; 108; 120; PERCENT; 115] [VWord (2 ^ 32 - 1); VWord 255; VStr None] =
  Some ([112; MINUS; 49; 102; 102] ++ NULLSTR).
Proof.
  change [112; PERCENT; 100; PERCENT; 108; 120; PERCENT; 115] with
    (concat (map spell [Lit 112; Num false Dec (2 ^ 32 - 1); Num true Hex 255; Str None])).
  change [VWord (2 ^ 32 - 1); VWord 255; VStr None] with
    (concat (map argument [Lit 112; Num false Dec (2 ^ 32 - 1); Num true Hex 255; Str None])).
  rewrite printf_pieces; [reflexivity|].
  apply List.Forall_cons; [discriminate|]. repeat (apply List.Forall_cons; [exact I|]). apply List.Forall_nil.
Defined.

(** An unsigned int is widened as a signed one: the largest one has 20 digits,
    which do not fit into the buffer. *)
Lemma printf_u_overflows : printf [PERCENT; 117] [VWord (2 ^ 32 - 1)] = None.
Proof. reflexivity. Qed.
