(* ===== verification/UPrintf.v ===== *)
(** * user/printf.c: formatted output of user programs

    The bytes written to the file descriptor, one call of write each. *)

From S2P Require Import Prelude Format.

(** The table digits[]: 0 to 9 and A to F. *)
Definition digits (d : Z) : Z := if d <? 10 then 48 + d else 55 + d.

(** The numbers are 32 bits wide. *)
Definition printint (xx base : Z) (sgn : bool) : option (list Z) :=
  let neg := sgn && (xx <? 0) in
  print_number digits (if neg then u32 (- xx) else u32 xx) base neg.

Definition printptr (x : Z) : list Z := print_pointer digits x.

(** The argument, of 32 or 64 bits, is converted to the int parameter. *)
Definition print_arg (long : bool) (base : Z) (sgn : bool) (x : Z) : option (list Z) := printint (i32 x) base sgn.

Definition vprintf (fmt : list Z) (ap : list varg) : option (list Z) :=
  format print_arg printptr fmt ap (S (length fmt)).

(** [atoi] of user/ulib.c. *)
Fixpoint atoi_loop (s : list Z) (n : Z) : Z :=
  match s with
  | c :: s' => if (48 <=? c) && (c <=? 57) then atoi_loop s' (i32 (n * 10 + c - 48)) else n
  | [] => n
  end.
Definition atoi (s : list Z) : Z := atoi_loop s 0.

(** ** Correctness *)

Lemma digits_val_tail d ds : Forall (fun d => 0 <= d < 10) (d :: ds) -> 0 <= digits_val 10 ds <= digits_val 10 (d :: ds).
Proof.
  intros H. apply Forall_cons in H as [Hd H]. pose proof (digits_val_range 10 ds ltac:(lia) H). simpl. lia.
Qed.

Lemma atoi_digits ds rest : Forall (fun d => 0 <= d < 10) ds -> digits_val 10 ds < 2 ^ 31 ->
  atoi_loop (rev (map digits ds) ++ rest) 0 = atoi_loop rest (digits_val 10 ds).
Proof.
  revert rest. induction ds as [|d ds IH]; intros rest Hds Hv; [done|]. pose proof (digits_val_tail d ds Hds) as Ht.
  cbn [map rev]. rewrite <-app_assoc. apply Forall_cons in Hds as [Hd Hds]. cbn [app]. rewrite IH by (done || lia).
  cbn [atoi_loop]. unfold digits. rewrite (proj2 (Z.ltb_lt d 10)) by lia.
  rewrite (proj2 (Z.leb_le 48 (48 + d))), (proj2 (Z.leb_le (48 + d) 57)) by lia. cbn [andb].
  rewrite i32_id; [f_equal; simpl; lia|]. simpl in Hv. lia.
Qed.

(** Printing and reading numbers.  Printing an int in base 10 never
    overflows the buffer, and [atoi] of the text, whatever follows it that is
    not a digit, is the number again when it is not negative. *)
Theorem printint_atoi (xx : Z) (rest : list Z) :
  - 2 ^ 31 <= xx < 2 ^ 31 -> (forall c, hd_error rest = Some c -> c < 48 \/ 57 < c) ->
  exists s, printint xx 10 true = Some s /\ (0 <= xx -> atoi (s ++ rest) = xx) /\
    (xx < 0 -> exists s', s = MINUS :: s' /\ (xx <> - 2 ^ 31 -> atoi (s' ++ rest) = - xx)).
Proof.
  intros Hx Hrest. unfold printint. cbn [andb]. set (x := if xx <? 0 then u32 (- xx) else u32 xx).
  assert (Hv : x = Z.abs xx) by (unfold x, u32; destruct (Z.ltb_spec xx 0); lia).
  destruct (print_number_spec digits x 10 (xx <? 0) ltac:(lia) ltac:(lia)) as (ds & [H1 H2 _ _] & ->).
  rewrite (proj2 (Z.ltb_lt _ _)) by (destruct (xx <? 0); simpl; lia).
  assert (Ha : x < 2 ^ 31 -> atoi (rev (map digits ds) ++ rest) = x).
  { intros Hlt. unfold atoi. rewrite atoi_digits by (done || lia). rewrite H2. destruct rest as [|c rest]; [done|].
    specialize (Hrest c eq_refl). cbn [atoi_loop]. destruct (Z.leb_spec 48 c), (Z.leb_spec c 57); (done || lia). }
  destruct (Z.ltb_spec xx 0).
  - eexists. split; [done|]. split; [lia|]. intros _. eexists. split; [done|]. intros Hm. rewrite Ha; lia.
  - eexists. split; [done|]. split; [|lia]. intros _. rewrite app_nil_l, Ha; lia.
Qed.

Lemma printint_atoi_witness : exists s, printint 2024 10 true = Some s /\ atoi (s ++ [32; 55]) = 2024.
Proof.
  destruct (printint_atoi 2024 [32; 55]) as (s & H1 & H2 & _).
  - lia.
  - intros c E. injection E as <-. lia.
  - exists s. split; [exact H1|apply H2; lia].
Defined.

(** A long argument is cut to 32 bits. *)
Lemma vprintf_long : vprintf [PERCENT; 108; 117] [VWord (2 ^ 32 + 7)] = Some [55].
Proof. reflexivity. Qed.
