(* ===== verification/Umalloc.v ===== *)
(** * user/umalloc.c: the allocator of user programs

    The free list of Kernighan and Ritchie: a circular list of the free
    blocks in the order of their addresses, through headers of 16 bytes at
    the start of the blocks.  The list begins with [base], a block of size 0
    that lies below the heap. *)

From stdpp Require Import sorting.
From S2P Require Import Prelude.

(** sizeof(Header): the unit in which sizes are counted. *)
Definition HDR : Z := 16.

(** The fields of the headers, by address; the static variable freep; the
    program break. *)
Record uheap := Uheap {
  hptr : Z -> Z;
  hsize : Z -> Z;
  freep : Z;
  brk : Z;
}.

Definition set_ptr (p v : Z) (h : uheap) : uheap := Uheap (upd (hptr h) p v) (hsize h) (freep h) (brk h).
Definition set_size (p v : Z) (h : uheap) : uheap := Uheap (hptr h) (upd (hsize h) p v) (freep h) (brk h).
Definition set_freep (p : Z) (h : uheap) : uheap := Uheap (hptr h) (hsize h) p (brk h).
Definition set_brk (b : Z) (h : uheap) : uheap := Uheap (hptr h) (hsize h) (freep h) b.

Section umalloc.
(** The address of [base], and whether the kernel grants a change of the
    break. *)
Context (base : Z) (grants : Z -> Z -> bool).

(** The system call: the old break, or -1. *)
Definition sbrk (n : Z) : M uheap Z :=
  let! b := gets brk in
  if grants b n then modify (set_brk (b + n)) ;; ret b else ret (-1).

(** The search loop of [free], and the block it ends with. *)
Fixpoint free_loop (bp p : Z) (left : nat) : M uheap Z :=
  let! next := gets (fun h => hptr h p) in
  if (p <? bp) && (bp <? next) then ret p
  else if (next <=? p) && ((p <? bp) || (bp <? next)) then ret p
  else
    match left with
    | O => out_of_fuel
    | S left' => free_loop bp next left'
    end.

(** Joins [bp] to the block after [p], or links it to that block. *)
Definition join_upper (p bp : Z) : M uheap unit :=
  let! next := gets (fun h => hptr h p) in
  let! bsize := gets (fun h => hsize h bp) in
  if bp + HDR * bsize =? next then
    let! nsize := gets (fun h => hsize h next) in
    modify (set_size bp (u32 (bsize + nsize))) ;;
    let! nnext := gets (fun h => hptr h next) in
    modify (set_ptr bp nnext)
  else modify (set_ptr bp next).

(** Joins [p] to [bp], or links it to [bp]. *)
Definition join_lower (p bp : Z) : M uheap unit :=
  let! psize := gets (fun h => hsize h p) in
  if p + HDR * psize =? bp then
    let! bsize := gets (fun h => hsize h bp) in
    modify (set_size p (u32 (psize + bsize))) ;;
    let! bnext := gets (fun h => hptr h bp) in
    modify (set_ptr p bnext)
  else modify (set_ptr p bp).

Definition free (ap : Z) (fuel : nat) : M uheap unit :=
  let bp := ap - HDR in
  let! p := gets freep in
  let! p := free_loop bp p fuel in
  join_upper p bp ;;
  join_lower p bp ;;
  modify (set_freep p).

Definition morecore (nu : Z) (fuel : nat) : M uheap Z :=
  let nu := if nu <? 4096 then 4096 else nu in
  let! p := sbrk (i32 (nu * HDR)) in
  if p =? -1 then ret 0
  else
    modify (set_size p nu) ;;
    free (p + HDR) fuel ;;
    gets freep.

(** The body of the loop of [malloc] for a block [p] that is large enough:
    all of it, or its upper part. *)
Definition take_block (nunits prevp p : Z) : M uheap Z :=
  let! psize := gets (fun h => hsize h p) in
  if psize =? nunits then
    let! next := gets (fun h => hptr h p) in
    modify (set_ptr prevp next) ;;
    modify (set_freep prevp) ;;
    ret (p + HDR)
  else
    modify (set_size p (u32 (psize - nunits))) ;;
    let! psize := gets (fun h => hsize h p) in
    let p := p + HDR * psize in
    modify (set_size p nunits) ;;
    modify (set_freep prevp) ;;
    ret (p + HDR).

(** The loop of [malloc], from block [p] with [prevp] before it. *)
Fixpoint malloc_loop (nunits prevp p : Z) (fuel left : nat) : M uheap Z :=
  let! psize := gets (fun h => hsize h p) in
  if nunits <=? psize then take_block nunits prevp p
  else
    match left with
    | O => out_of_fuel
    | S left' =>
        let! fp := gets freep in
        if p =? fp then
          let! p := morecore nunits fuel in
          if p =? 0 then ret 0
          else
            let! next := gets (fun h => hptr h p) in
            malloc_loop nunits p next fuel left'
        else
          let! next := gets (fun h => hptr h p) in
          malloc_loop nunits p next fuel left'
    end.

Definition units (nbytes : Z) : Z := u32 ((nbytes + HDR - 1) / HDR + 1).

Definition malloc (nbytes : Z) (fuel : nat) : M uheap Z :=
  let nunits := units nbytes in
  let! fp := gets freep in
  (when! fp =? 0 do
     (modify (set_ptr base base) ;; modify (set_freep base) ;; modify (set_size base 0))) ;;
  let! prevp := gets freep in
  let! p := gets (fun h => hptr h prevp) in
  malloc_loop nunits prevp p fuel fuel.
End umalloc.

(** ** The free list *)

(** Blocks, as address and number of units, in the order of the list. *)
Abbreviation block := (Z * Z)%type.
Definition bend (b : block) : Z := fst b + HDR * snd b.

Definition first (l : list block) (stop : Z) : Z := match l with [] => stop | b :: _ => fst b end.

(** The headers of the blocks [l] hold their sizes and link each block to the
    next, the last one to [stop]. *)
Fixpoint chain (h : uheap) (l : list block) (stop : Z) : Prop :=
  match l with
  | [] => True
  | b :: l' => hsize h (fst b) = snd b /\ hptr h (fst b) = first l' stop /\ chain h l' stop
  end.

(** Ascending addresses, with a gap between the blocks. *)
Definition before (b c : block) : Prop := bend b < fst c.
Abbreviation ascending := (StronglySorted before).

Lemma first_app l1 l2 stop : first (l1 ++ l2) stop = first l1 (first l2 stop).
Proof. by destruct l1. Qed.

Lemma chain_app h l1 l2 stop : chain h (l1 ++ l2) stop <-> chain h l1 (first l2 stop) /\ chain h l2 stop.
Proof. induction l1 as [|b l1 IH]; simpl; [tauto|]. rewrite IH, first_app. tauto. Qed.

Lemma chain_frame h h' l stop :
  (forall b, b ∈ l -> hptr h' (fst b) = hptr h (fst b) /\ hsize h' (fst b) = hsize h (fst b)) ->
  chain h l stop -> chain h' l stop.
Proof.
  induction l as [|b l IH]; [done|]. intros Hf (H1 & H2 & H3). destruct (Hf b ltac:(left)) as [E1 E2].
  simpl. rewrite E1, E2. split_and!; [done|done|]. apply IH; [|done]. intros c Hc. apply Hf. by right.
Qed.

Lemma chain_size h l stop b : chain h l stop -> b ∈ l -> hsize h (fst b) = snd b.
Proof.
  induction l as [|c l IH]; [by intros _ ?%elem_of_nil|]. intros (H1 & _ & H3) [->|Hb]%elem_of_cons; [done|by apply IH].
Qed.

Lemma before_lt b c : 0 <= snd b -> before b c -> fst b < fst c.
Proof. unfold before, bend, HDR. lia. Qed.

(** The list is well formed: the blocks of [l], of which the first is
    [base]. *)
Record free_list (base : Z) (h : uheap) (l : list block) : Prop := {
  fl_chain : chain h l base;
  fl_asc : ascending l;
  fl_sizes : Forall (fun b => 0 <= snd b) l;
  fl_base : exists r, l = (base, 0) :: r /\ Forall (fun b => 0 < snd b) r;
  fl_freep : exists b, b ∈ l /\ freep h = fst b;
}.

Section search.
Context (base : Z).

(** The search of [free] goes up to the last block below [bp]. *)
Lemma free_loop_up h bp b r left :
  chain h (b :: r) base -> ascending (b :: r) -> Forall (fun b => 0 <= snd b) (b :: r) ->
  base <= fst b -> fst b < bp -> Forall (fun c => fst c <> bp) r -> (length r <= left)%nat ->
  exists r1 q r2, b :: r = r1 ++ q :: r2 /\ fst q < bp /\ Forall (fun c => bp < fst c) r2 /\
    free_loop bp (fst b) left h = Ret (fst q, h).
Proof.
  revert b left. induction r as [|c r IH]; intros b left (_ & Hn & Hc) Ha Hs Hb Hlt Hne Hl; simpl in Hn.
  - exists [], b, []. split_and!; [done|done|done|].
    assert (E : (base <=? fst b) && ((fst b <? bp) || (bp <? base)) = true) by lia.
    destruct left; cbn [free_loop]; unfold bind, gets; rewrite Hn, E; by destruct ((fst b <? bp) && (bp <? base)).
  - apply StronglySorted_inv in Ha as [Ha Hba]. apply Forall_cons in Hba as [Hbc Hba].
    apply Forall_cons in Hs as [Hs0 Hs]. apply Forall_cons in Hne as [Hne0 Hne]. pose proof (before_lt b c Hs0 Hbc) as Hbc'.
    destruct (Z.ltb_spec bp (fst c)) as [Hbp|Hbp].
    + exists [], b, (c :: r). split_and!; [done|done| |].
      * constructor; [done|]. apply StronglySorted_inv in Ha as [_ Hca]. apply Forall_cons in Hs as [Hsc _].
        eapply Forall_impl; [exact Hca|]. intros d Hd. pose proof (before_lt c d Hsc Hd). lia.
      * assert (E : (fst b <? bp) && (bp <? fst c) = true) by lia.
        destruct left; cbn [free_loop]; unfold bind, gets; rewrite Hn, E; done.
    + destruct left as [|left]; [simpl in Hl; lia|].
      destruct (IH c left Hc Ha Hs ltac:(lia) ltac:(lia) Hne ltac:(simpl in Hl; lia)) as (r1 & q & r2 & E & Hq & Hr2 & Hrun).
      exists (b :: r1), q, r2. split_and!; [by rewrite E|done|done|].
      cbn [free_loop]. unfold bind, gets. rewrite Hn.
      assert (E1 : (fst b <? bp) && (bp <? fst c) = false) by lia.
      assert (E2 : (fst c <=? fst b) && ((fst b <? bp) || (bp <? fst c)) = false) by lia. by rewrite E1, E2.
Qed.

(** Above [bp] it goes to the end of the list and starts again at [base]. *)
Lemma free_loop_wrap h bp b r left :
  chain h (b :: r) base -> ascending (b :: r) -> Forall (fun b => 0 <= snd b) (b :: r) ->
  base < bp -> bp < fst b -> (length r < left)%nat ->
  free_loop bp (fst b) left h = free_loop bp base (left - S (length r)) h.
Proof.
  revert b left. induction r as [|c r IH]; intros b left (_ & Hn & Hc) Ha Hs Hb Hlt Hl; simpl in Hn;
    (destruct left as [|left]; [lia|]); cbn [free_loop length]; unfold bind at 1, gets at 1; rewrite Hn.
  - assert (E1 : (fst b <? bp) && (bp <? base) = false) by lia.
    assert (E2 : (base <=? fst b) && ((fst b <? bp) || (bp <? base)) = false) by lia. rewrite E1, E2.
    by rewrite Nat.sub_succ, Nat.sub_0_r.
  - apply StronglySorted_inv in Ha as [Ha Hba]. apply Forall_cons in Hba as [Hbc Hba].
    apply Forall_cons in Hs as [Hs0 Hs]. pose proof (before_lt b c Hs0 Hbc) as Hbc'.
    assert (E1 : (fst b <? bp) && (bp <? fst c) = false) by lia.
    assert (E2 : (fst c <=? fst b) && ((fst b <? bp) || (bp <? fst c)) = false) by lia. rewrite E1, E2.
    rewrite IH; (done || (simpl in Hl; lia)).
Qed.

Lemma free_loop_spec h l bp left :
  free_list base h l -> base < bp -> Forall (fun c => fst c <> bp) l -> (2 * length l <= left)%nat ->
  exists r1 q r2, l = r1 ++ q :: r2 /\ fst q < bp /\ Forall (fun c => bp < fst c) r2 /\
    free_loop bp (freep h) left h = Ret (fst q, h).
Proof.
  intros [H1 H2 H3 (r & E & _) (b & Hb & ->)] Hbp Hne Hl.
  apply list_elem_of_split in Hb as (l1 & l2 & El).
  assert (Hsub : chain h (b :: l2) base /\ ascending (b :: l2) /\ Forall (fun b => 0 <= snd b) (b :: l2) /\ Forall (fun c => fst c <> bp) l2).
  { rewrite El in H1, H2, H3, Hne. apply chain_app in H1 as [_ H1]. apply StronglySorted_app_1_r in H2.
    apply Forall_app in H3 as [_ H3]. apply Forall_app in Hne as [_ Hne]. apply Forall_cons in Hne as [_ Hne]. done. }
  destruct Hsub as (S1 & S2 & S3 & S4). assert (Elen : length l = (length l1 + S (length l2))%nat) by (rewrite El, length_app; done).
  assert (Hbase : base <= fst b).
  { destruct l1 as [|c l1]; rewrite E in El; injection El as <-; [simpl; lia|]. rewrite E, H in H2.
    apply StronglySorted_inv in H2 as [_ Hf]. eapply Forall_forall in Hf; [|apply elem_of_app; right; left].
    unfold before, bend, HDR in Hf. simpl in Hf. lia. }
  assert (Hbb : fst b <> bp).
  { rewrite El in Hne. apply Forall_app in Hne as [_ Hne]. by apply Forall_cons in Hne as [Hne _]. }
  destruct (Z.lt_total (fst b) bp) as [Hlt|[?|Hgt]]; [|done|].
  - destruct (free_loop_up h bp b l2 left S1 S2 S3 Hbase Hlt S4 ltac:(lia)) as (r1 & q & r2 & Eq & Hq & Hr2 & Hrun).
    exists (l1 ++ r1), q, r2. split_and!; [by rewrite El, Eq, app_assoc|done|done|done].
  - rewrite (free_loop_wrap h bp b l2 left) by (done || lia). rewrite E in H1, H2, H3, Hne, Elen, Hl.
    apply Forall_cons in Hne as [_ Hne]. rewrite E.
    apply (free_loop_up h bp (base, 0) r); try done; simpl in Elen, Hl |- *; lia.
Qed.
End search.

(** ** Freeing *)

(** The addresses in the blocks of a list. *)
Definition inside (b : block) (x : Z) : Prop := fst b <= x < bend b.
Definition covered (l : list block) (x : Z) : Prop := exists b, b ∈ l /\ inside b x.

Lemma covered_nil x : covered [] x <-> False.
Proof. split; [|done]. by intros (b & ?%elem_of_nil & _). Qed.
Lemma covered_cons b l x : covered (b :: l) x <-> inside b x \/ covered l x.
Proof.
  unfold covered. split.
  - intros (c & [->|Hc]%elem_of_cons & Hx); [by left|right; eauto].
  - intros [Hx|(c & Hc & Hx)]; [exists b; split; [left|done]|exists c; split; [by right|done]].
Qed.
Lemma covered_app l1 l2 x : covered (l1 ++ l2) x <-> covered l1 x \/ covered l2 x.
Proof. induction l1 as [|b l1 IH]; simpl; [rewrite covered_nil; tauto|]. rewrite !covered_cons, IH. tauto. Qed.

Section freeing.
Context (base : Z).

Lemma join_upper_spec h p bp s r2 top :
  hptr h p = first r2 base -> hsize h bp = s -> 0 < s -> base < bp -> chain h r2 base -> ascending r2 ->
  Forall (fun c => 0 < snd c /\ bp + HDR * s <= fst c /\ bend c <= top) r2 -> bp + HDR * s <= top -> top - base < 2 ^ 36 ->
  wp (join_upper p bp) (fun _ h' => exists s' rest,
    hsize h' bp = s' /\ hptr h' bp = first rest base /\ chain h' rest base /\
    ascending ((bp, s') :: rest) /\ Forall (fun c => 0 < snd c /\ bend c <= top) ((bp, s') :: rest) /\
    (forall x, covered ((bp, s') :: rest) x <-> covered ((bp, s) :: r2) x) /\
    (forall b, b ∈ rest -> b ∈ r2) /\ s <= s' /\ (length rest <= length r2)%nat /\ freep h' = freep h /\ brk h' = brk h /\
    forall a, a <> bp -> hptr h' a = hptr h a /\ hsize h' a = hsize h a) h.
Proof.
  intros Hp Hs Hs0 Hb Hc Ha Hr Htop Hbound. unfold join_upper. do 2 (apply wp_bind, wp_gets). rewrite Hp, Hs.
  destruct (Z.eqb_spec (bp + HDR * s) (first r2 base)) as [E|E].
  - destruct r2 as [|[ca cn] r2]; [simpl in E; unfold HDR in E; lia|]. simpl in E. destruct Hc as (Hc1 & Hc2 & Hc3).
    simpl in Hc1, Hc2. apply Forall_cons in Hr as [(Hcn & _ & Hct) Hr]. unfold bend in Hct. simpl in Hcn, Hct.
    apply StronglySorted_inv in Ha as [Ha Hca]. cbn [first fst].
    do 3 (first [apply wp_bind, wp_gets|apply wp_bind, wp_modify]). apply wp_modify. cbn [hptr hsize set_size set_ptr].
    assert (Hne : ca <> bp) by (unfold HDR in E; lia).
    rewrite Hc1, Hc2. exists (s + cn), r2. rewrite !upd_same, (u32_id (s + cn)) by (unfold HDR in *; lia).
    assert (Hnin : forall b, b ∈ r2 -> fst b <> bp).
    { intros b Hbr. eapply Forall_forall in Hr; [|exact Hbr]. destruct Hr as (_ & Hr & _). unfold HDR in *. lia. }
    split_and!; try done.
    + apply (chain_frame h); [|done]. intros b Hbr. simpl. by rewrite !upd_other by auto.
    + constructor; [done|]. eapply Forall_impl; [exact Hca|]. intros d Hd. unfold before, bend in *. simpl in *. lia.
    + constructor; [unfold bend; simpl; lia|]. eapply Forall_impl; [exact Hr|]. simpl. tauto.
    + intros x. rewrite !covered_cons. unfold inside, bend. simpl. unfold HDR in *. split; intros [H|H]; try tauto; try lia.
      destruct H; [|tauto]. left. lia.
    + intros b Hbr. by right.
    + lia.
    + simpl. lia.
    + intros a Hane. by rewrite !upd_other.
  - apply wp_modify. cbn [hptr hsize set_ptr freep brk]. exists s, r2. rewrite upd_same.
    assert (Hnin : forall b, b ∈ r2 -> fst b <> bp).
    { intros b Hbr. eapply Forall_forall in Hr; [|exact Hbr]. destruct Hr as (_ & Hr & _). unfold HDR in *. lia. }
    split_and!; try done.
    + apply (chain_frame h); [|done]. intros b Hbr. simpl. by rewrite upd_other by auto.
    + constructor; [done|]. destruct r2 as [|c r2]; [done|]. simpl in E. apply Forall_cons in Hr as [(Hcn & Hc0 & _) _].
      apply StronglySorted_inv in Ha as [_ Hca]. assert (Hbc : before (bp, s) c) by (unfold before, bend; simpl; lia).
      constructor; [done|]. eapply Forall_impl; [exact Hca|]. intros d Hd. unfold before, bend, HDR in *. simpl in *. lia.
    + constructor; [unfold bend; simpl; lia|]. eapply Forall_impl; [exact Hr|]. simpl. tauto.
    + intros a Hane. by rewrite upd_other.
Qed.
Lemma join_lower_spec h q bp s rest top :
  hsize h (fst q) = snd q -> 0 <= snd q -> fst q < bp -> bend q <= bp -> base <= fst q ->
  hsize h bp = s -> hptr h bp = first rest base -> chain h rest base ->
  ascending ((bp, s) :: rest) -> Forall (fun c => 0 < snd c /\ bend c <= top) ((bp, s) :: rest) -> top - base < 2 ^ 36 ->
  wp (join_lower (fst q) bp) (fun _ h' => exists q' tail,
    fst q' = fst q /\ (snd q = 0 -> q' = q) /\ snd q <= snd q' /\ chain h' (q' :: tail) base /\
    ascending (q' :: tail) /\ bend q' <= top /\ Forall (fun c => 0 < snd c /\ bend c <= top) tail /\
    (forall x, covered (q' :: tail) x <-> covered (q :: (bp, s) :: rest) x) /\
    (forall b, b ∈ tail -> b ∈ (bp, s) :: rest) /\ (exists b, b ∈ q' :: tail /\ inside b bp /\ s <= snd b) /\
    (length tail <= S (length rest))%nat /\ freep h' = freep h /\ brk h' = brk h /\
    forall a, a <> fst q -> hptr h' a = hptr h a /\ hsize h' a = hsize h a) h.
Proof.
  intros Hq Hq0 Hlt Hqb Hbase Hs Hp Hc Ha Hr Hbound. destruct q as [qa qn]. unfold bend in Hqb. simpl in Hq, Hq0, Hlt, Hqb, Hbase |- *.
  unfold join_lower. apply wp_bind, wp_gets. rewrite Hq. pose proof Ha as Ha'. pose proof Hr as Hr'.
  apply StronglySorted_inv in Ha as [Ha Hb]. apply Forall_cons in Hr as [[Hs0 Hst] Hr]. unfold bend in Hst. simpl in Hs0, Hst.
  assert (Hfr : forall h', (forall a, a <> qa -> hptr h' a = hptr h a /\ hsize h' a = hsize h a) -> chain h' rest base).
  { intros h' Hf. apply (chain_frame h); [|done]. intros b Hbr. apply Hf. eapply Forall_forall in Hb; [|exact Hbr].
    unfold before, bend, HDR in Hb. simpl in Hb. lia. }
  destruct (Z.eqb_spec (qa + HDR * qn) bp) as [E|E].
  - do 3 (first [apply wp_bind, wp_gets|apply wp_bind, wp_modify]). apply wp_modify.
    cbn [hptr hsize set_size set_ptr freep brk]. rewrite Hs, Hp. exists (qa, qn + s), rest.
    rewrite (u32_id (qn + s)) by (unfold HDR in *; lia).
    assert (Hf : forall a, a <> qa -> upd (hptr h) qa (first rest base) a = hptr h a /\ upd (hsize h) qa (qn + s) a = hsize h a).
    { intros a Hne. by rewrite !upd_other. }
    split_and!; try done; simpl; rewrite ?upd_same; try done; try lia; try (by apply Hfr).
    + constructor; [done|]. eapply Forall_impl; [exact Hb|]. intros d Hd. unfold before, bend in *. simpl in *. lia.
    + unfold bend. simpl. lia.
    + intros x. rewrite !covered_cons. unfold inside, bend. simpl. unfold HDR in *. split; intros H; [|intuition lia].
      destruct H as [H|H]; [|tauto]. destruct (Z.lt_ge_cases x bp); [left|right; left]; lia.
    + intros b Hbr. by right.
    + exists (qa, qn + s). split_and!; [left| |simpl; lia]. unfold inside, bend. simpl. unfold HDR in *. lia.
  - apply wp_modify. cbn [hptr hsize set_ptr freep brk]. exists (qa, qn), ((bp, s) :: rest).
    assert (Hf : forall a, a <> qa -> upd (hptr h) qa bp a = hptr h a /\ hsize h a = hsize h a) by (intros a Hne; by rewrite upd_other).
    split_and!; try done; simpl; rewrite ?upd_same; try done; try lia; try (by apply Hfr).
    + split_and!; [done|by destruct (Hf bp ltac:(lia)) as [-> _]|by apply Hfr].
    + constructor; [done|]. assert (Hqp : before (qa, qn) (bp, s)) by (unfold before, bend; simpl; lia).
      constructor; [done|]. eapply Forall_impl; [exact Hb|]. intros d Hd. unfold before, bend, HDR in *. simpl in *. lia.
    + unfold bend. simpl. unfold HDR in *. lia.
    + exists (bp, s). split_and!; [right; left| |simpl; lia]. unfold inside, bend. simpl. unfold HDR in *. lia.
Qed.

(** What lies around the place of a new block in the list. *)
Lemma split_facts h l r1 q r2 bp s :
  free_list base h l -> l = r1 ++ q :: r2 -> fst q < bp -> Forall (fun c => bp < fst c) r2 ->
  Forall (fun c => bend c <= bp \/ bp + HDR * s <= fst c) l -> 0 < s ->
  hptr h (fst q) = first r2 base /\ hsize h (fst q) = snd q /\ 0 <= snd q /\ base <= fst q /\ bend q <= bp /\
  chain h r1 (fst q) /\ chain h r2 base /\ ascending r2 /\
  Forall (fun c => 0 < snd c /\ bp + HDR * s <= fst c) r2 /\
  (forall b, b ∈ r1 -> bend b < fst q /\ 0 <= snd b).
Proof.
  intros [H1 H2 H3 (r & E & Hr) _] -> Hq Hr2 Hd Hs. apply chain_app in H1 as [H1 (Hq1 & Hq2 & Hc2)].
  apply StronglySorted_app in H2 as (Ha & Ha1 & Ha2). apply StronglySorted_inv in Ha2 as [Ha2 _].
  apply Forall_app in H3 as [Hs1 Hs2]. apply Forall_cons in Hs2 as [Hs0 Hs2].
  apply Forall_app in Hd as [_ Hd]. apply Forall_cons in Hd as [Hdq Hd2].
  assert (Hpos : Forall (fun b => 0 < snd b) r2).
  { destruct r1 as [|c r1]; injection E as -> <-; [done|]. apply Forall_app in Hr as [_ Hr]. by apply Forall_cons in Hr as [_ ?]. }
  assert (Hbq : base <= fst q).
  { destruct r1 as [|c r1]; injection E as -> _; [simpl; lia|]. assert (Hb : before (base, 0) q) by (apply Ha; [left|left]).
    unfold before, bend, HDR in Hb. simpl in Hb. lia. }
  split_and!; try done.
  - destruct Hdq as [?|Hdq]; [done|]. unfold HDR in *. lia.
  - apply Forall_forall. intros c Hc. eapply Forall_forall in Hr2, Hd2, Hpos; try exact Hc. split; [done|].
    destruct Hd2 as [Hd2|]; [|done]. unfold bend, HDR in *. lia.
  - intros b Hb. split; [apply Ha; [done|left]|]. by eapply Forall_forall in Hs1.
Qed.

(** The list with a new end behind [r1]. *)
Lemma relink h h' l r1 q r2 q' tail :
  free_list base h l -> l = r1 ++ q :: r2 -> fst q' = fst q -> (snd q = 0 -> q' = q) -> snd q <= snd q' ->
  chain h' (q' :: tail) base -> ascending (q' :: tail) -> Forall (fun b => 0 < snd b) tail ->
  Forall (fun b => fst q < fst b) tail ->
  (forall b, b ∈ r1 -> hptr h' (fst b) = hptr h (fst b) /\ hsize h' (fst b) = hsize h (fst b)) ->
  freep h' = fst q -> free_list base h' (r1 ++ q' :: tail).
Proof.
  intros [H1 H2 H3 (r & E & Hr) _] -> Hq Hq0 Hqs Hc Ha Hp Ht Hf Hfp. apply chain_app in H1 as [H1 _].
  apply StronglySorted_app in H2 as (Ha0 & Ha1 & _). apply Forall_app in H3 as [Hs1 Hs2]. apply Forall_cons in Hs2 as [Hs0 _].
  split.
  - apply chain_app. split; [|done]. simpl. rewrite Hq. by apply (chain_frame h).
  - apply StronglySorted_app. split_and!; [|done|done]. intros b c Hb Hc'. pose proof (Ha0 b q Hb ltac:(left)) as Hbq.
    unfold before in *. apply elem_of_cons in Hc' as [->|Hc']; [by rewrite Hq|].
    eapply Forall_forall in Ht; [|exact Hc']. lia.
  - apply Forall_app. split; [done|]. constructor; [lia|]. eapply Forall_impl; [exact Hp|]. simpl. lia.
  - destruct r1 as [|c r1]; injection E as -> <-.
    + exists tail. split; [|done]. by rewrite Hq0.
    + exists (r1 ++ q' :: tail). split; [done|]. apply Forall_app in Hr as [Hr1 Hr2]. apply Forall_cons in Hr2 as [Hq' _].
      apply Forall_app. split; [done|]. constructor; [lia|done].
  - exists q'. split; [apply elem_of_app; right; left|congruence].
Qed.

(** [free] of a block that overlaps no free block puts exactly the addresses
    of the block on the free list. *)
Lemma free_spec h l bp s top fuel :
  free_list base h l -> hsize h bp = s -> 0 < s -> base < bp ->
  Forall (fun c => bend c <= bp \/ bp + HDR * s <= fst c) l -> Forall (fun c => bend c <= top) l ->
  bp + HDR * s <= top -> top - base < 2 ^ 36 -> (2 * length l <= fuel)%nat ->
  wp (free (bp + HDR) fuel) (fun _ h' => exists l',
    free_list base h' l' /\ Forall (fun c => bend c <= top) l' /\
    (forall x, covered l' x <-> covered l x \/ bp <= x < bp + HDR * s) /\
    (forall b, b ∈ l' -> fst b = bp \/ exists c, c ∈ l /\ fst c = fst b) /\
    (exists b, b ∈ l' /\ inside b bp /\ s <= snd b) /\ (length l' <= S (length l))%nat /\ brk h' = brk h /\
    forall a, a <> bp -> (forall c, c ∈ l -> fst c <> a) -> hsize h' a = hsize h a) h.
Proof.
  intros Hl Hs Hs0 Hb Hd Htop Hbt Hbound Hfuel.
  assert (Hne : Forall (fun c => fst c <> bp) l).
  { pose proof (fl_sizes _ _ _ Hl) as Hsz. apply Forall_forall. intros c Hc. eapply Forall_forall in Hd, Hsz; try exact Hc.
    pose proof Hl as [_ _ _ (r & E & Hr) _]. rewrite E in Hc. apply elem_of_cons in Hc as [->|Hc]; [simpl; lia|].
    eapply Forall_forall in Hr; [|exact Hc]. unfold bend, HDR in *. lia. }
  destruct (free_loop_spec base h l bp fuel Hl Hb Hne Hfuel) as (r1 & q & r2 & El & Hq & Hr2 & Hrun).
  destruct (split_facts h l r1 q r2 bp s Hl El Hq Hr2 Hd Hs0) as (Q1 & Q2 & Q3 & Q4 & Q5 & C1 & C2 & A2 & D2 & B1).
  assert (Hrtop : Forall (fun c => 0 < snd c /\ bp + HDR * s <= fst c /\ bend c <= top) r2).
  { apply Forall_forall. intros c Hc. eapply Forall_forall in D2; [|exact Hc]. rewrite El in Htop.
    apply Forall_app in Htop as [_ Htop]. apply Forall_cons in Htop as [_ Htop]. eapply Forall_forall in Htop; [|exact Hc]. tauto. }
  unfold free. replace (bp + HDR - HDR) with bp by lia. apply wp_bind, wp_gets, wp_bind. unfold wp at 1. rewrite Hrun.
  apply wp_bind. eapply wp_mono; [by apply (join_upper_spec h (fst q) bp s r2 top)|].
  intros [] h1 (s1 & rest & S1 & S2 & S3 & S4 & S5 & S6 & S7 & Sle & Slen & S8 & S9 & S10). apply wp_bind.
  eapply wp_mono.
  { apply (join_lower_spec h1 q bp s1 rest top); try done. rewrite (proj2 (S10 (fst q) ltac:(lia))). done. }
  intros [] h2 (q' & tail & L1 & L2 & L3 & L4 & L5 & L6 & L7 & L8 & L9 & (b0 & Hb0 & Hin0 & Hle0) & Llen & L10 & L11 & L12).
  apply wp_modify. exists (r1 ++ q' :: tail). cbn [brk hsize set_freep].
  assert (Htail : forall b, b ∈ tail -> fst q < fst b).
  { intros b [->|Hb']%L9%elem_of_cons; [simpl; lia|]. apply S7 in Hb'. eapply Forall_forall in Hr2; [|exact Hb']. lia. }
  assert (Hr1 : forall b, b ∈ r1 -> fst b <> bp /\ fst b <> fst q).
  { intros b Hb'. destruct (B1 b Hb'). unfold bend, HDR in *. lia. }
  split_and!.
  - apply (relink h _ l r1 q r2); try done.
    + by apply (chain_frame h2).
    + eapply Forall_impl; [exact L7|]. simpl. tauto.
    + by apply Forall_forall.
    + intros b Hb'. destruct (Hr1 b Hb') as [N1 N2]. simpl. destruct (L12 _ N2) as [-> ->]. by apply S10.
  - apply Forall_app. rewrite El in Htop. apply Forall_app in Htop as [Htop _]. split; [done|].
    constructor; [done|]. eapply Forall_impl; [exact L7|]. simpl. tauto.
  - intros x. rewrite El, !covered_app, L8, (covered_cons q), S6, !covered_cons.
    change (inside (bp, s) x) with (bp <= x < bp + HDR * s). tauto.
  - intros b [Hb'|[->|Hb']%elem_of_cons]%elem_of_app.
    + right. exists b. split; [|done]. rewrite El. apply elem_of_app. by left.
    + right. exists q. split; [|done]. rewrite El. apply elem_of_app. right. left.
    + apply L9, elem_of_cons in Hb' as [->|Hb']; [by left|]. right. exists b. split; [|done]. apply S7 in Hb'.
      rewrite El. apply elem_of_app. right. by right.
  - exists b0. split_and!; [apply elem_of_app; by right|done|lia].
  - rewrite El, !length_app. simpl. lia.
  - congruence.
  - intros a Ha Hc. assert (Haq : a <> fst q).
    { intros ->. apply (Hc q); [|done]. rewrite El. apply elem_of_app. right. left. }
    by rewrite (proj2 (L12 a Haq)), (proj2 (S10 a Ha)).
Qed.
End freeing.

(** ** Allocating *)

Section allocating.
Context (base : Z).

Lemma covered_others m1 b m2 x : ascending (m1 ++ b :: m2) -> inside b x -> ~ covered (m1 ++ m2) x.
Proof.
  intros (Ha0 & _ & Ha)%StronglySorted_app Hx. apply StronglySorted_inv in Ha as [_ Hb].
  intros (c & [Hc|Hc]%elem_of_app & Hcx); unfold inside in *.
  - pose proof (Ha0 c b Hc ltac:(left)) as H. unfold before in H. lia.
  - eapply Forall_forall in Hb; [|exact Hc]. unfold before in Hb. lia.
Qed.

(** Two neighbours of the list. *)
Lemma pair_facts h l a1 q b a2 :
  free_list base h l -> l = a1 ++ q :: b :: a2 ->
  hsize h (fst q) = snd q /\ hsize h (fst b) = snd b /\ hptr h (fst b) = first a2 base /\ chain h a2 base /\
  0 <= snd q /\ 0 < snd b /\ Forall (fun c => 0 < snd c) a2 /\ before q b /\ ascending a2 /\
  Forall (fun c => bend b < fst c) a2 /\ (forall c, c ∈ a1 -> fst c < fst q) /\
  (forall x, inside b x -> ~ covered (a1 ++ q :: a2) x) /\
  (forall x, covered l x <-> covered (a1 ++ q :: a2) x \/ inside b x).
Proof.
  intros [H1 H2 H3 (r & E & Hr) _] El. rewrite El in H1, H2, H3.
  assert (Hcov : forall x, inside b x -> ~ covered (a1 ++ q :: a2) x).
  { intros x. replace (a1 ++ q :: a2) with ((a1 ++ [q]) ++ a2) by (by rewrite <-app_assoc). apply covered_others.
    by rewrite <-app_assoc. }
  apply chain_app in H1 as [_ (Hq1 & Hq2 & Hb1 & Hb2 & Hc2)].
  apply StronglySorted_app in H2 as (Ha0 & _ & Ha). apply StronglySorted_inv in Ha as [Ha Hq].
  apply Forall_cons in Hq as [Hqb Hqa]. apply StronglySorted_inv in Ha as [Ha Hba].
  apply Forall_app in H3 as [Hs1 H3]. apply Forall_cons in H3 as [Hq0 H3].
  assert (Hpos : Forall (fun c => 0 < snd c) (b :: a2)).
  { rewrite El in E. destruct a1 as [|c a1]; injection E as -> <-; [done|]. apply Forall_app in Hr as [_ Hr].
    by apply Forall_cons in Hr as [_ ?]. }
  apply Forall_cons in Hpos as [Hb0 Hpos]. split_and!; try done.
  - intros c Hc. apply before_lt; [by eapply Forall_forall in Hs1|]. apply Ha0; [done|left].
  - intros x. rewrite El, !covered_app, !covered_cons. tauto.
Qed.

Lemma take_all h l a1 q b a2 :
  free_list base h l -> l = a1 ++ q :: b :: a2 ->
  free_list base (set_freep (fst q) (set_ptr (fst q) (hptr h (fst b)) h)) (a1 ++ q :: a2).
Proof.
  intros Hl El. destruct (pair_facts h l a1 q b a2 Hl El) as (P1 & P2 & P3 & P4 & P5 & P6 & P7 & P8 & P9 & P10 & P11 & _).
  assert (Hqa : Forall (fun c => bend q < fst c) a2).
  { eapply Forall_impl; [exact P10|]. intros c Hc. unfold before, bend, HDR in *. lia. }
  assert (Hqc : Forall (fun c => fst q < fst c) a2).
  { eapply Forall_impl; [exact Hqa|]. intros c Hc. unfold bend, HDR in *. lia. }
  apply (relink base h _ l a1 q (b :: a2)); try done.
  - simpl. rewrite upd_same. split_and!; [done|done|]. apply (chain_frame h); [|done]. intros c Hc. simpl.
    rewrite upd_other; [done|]. eapply Forall_forall in Hqc; [|exact Hc]. lia.
  - by constructor.
  - intros c Hc. simpl. rewrite upd_other; [done|]. apply P11 in Hc. lia.
Qed.

Lemma take_part h l a1 q b a2 nunits p :
  free_list base h l -> l = a1 ++ q :: b :: a2 -> 0 < nunits < snd b -> p = fst b + HDR * (snd b - nunits) ->
  free_list base (set_freep (fst q) (set_size p nunits (set_size (fst b) (snd b - nunits) h)))
    (a1 ++ q :: (fst b, snd b - nunits) :: a2).
Proof.
  intros Hl El Hn Hp. destruct (pair_facts h l a1 q b a2 Hl El) as (P1 & P2 & P3 & P4 & P5 & P6 & P7 & P8 & P9 & P10 & P11 & _).
  destruct b as [ba bn]. unfold before, bend in *. simpl in *.
  assert (Hpb : ba < p < ba + HDR * bn) by (unfold HDR in *; lia).
  assert (Hqb : fst q < ba) by (unfold HDR in *; lia).
  apply (relink base h _ l a1 q ((ba, bn) :: a2)); try done.
  - pose proof Hl as [Hch _ _ _ _]. rewrite El in Hch. apply chain_app in Hch as [_ (_ & Hq2 & _)]. simpl in Hq2.
    simpl. rewrite (upd_other _ p _ (fst q)), (upd_other _ ba _ (fst q)), (upd_other _ p _ ba), upd_same by lia.
    split_and!; try done. apply (chain_frame h); [|done]. intros c Hc. simpl.
    eapply Forall_forall in P10; [|exact Hc]. by rewrite !upd_other by lia.
  - constructor; [constructor; [done|]|constructor; [unfold before, bend; simpl; lia|]];
      (eapply Forall_impl; [exact P10|]); intros c Hc; unfold before, bend, HDR in *; simpl in *; lia.
  - constructor; [simpl; lia|done].
  - constructor; [done|]. eapply Forall_impl; [exact P10|]. intros c Hc. simpl in *. unfold HDR in *. lia.
  - intros c Hc. simpl. apply P11 in Hc. by rewrite !upd_other by lia.
Qed.

Lemma take_block_spec h l a1 q b a2 nunits :
  free_list base h l -> l = a1 ++ q :: b :: a2 -> 0 < nunits <= snd b -> snd b < 2 ^ 32 ->
  wp (take_block nunits (fst q) (fst b)) (fun r h' => exists l',
    free_list base h' l' /\ r = bend b - HDR * nunits + HDR /\ hsize h' (r - HDR) = nunits /\
    (forall x, covered l' x <-> covered l x /\ ~ (r - HDR <= x < bend b)) /\
    (forall c, c ∈ l' -> exists d, d ∈ l /\ fst d = fst c /\ snd c <= snd d) /\ (length l' <= length l)%nat /\
    brk h' = brk h /\
    forall a, a <> r - HDR -> (forall c, c ∈ l -> fst c <> a) -> hsize h' a = hsize h a) h.
Proof.
  intros Hl El Hn Hb32. destruct (pair_facts h l a1 q b a2 Hl El) as (_ & P2 & _ & _ & _ & _ & _ & _ & _ & _ & _ & P12 & P13).
  assert (Hmem : forall c, c ∈ a1 ++ q :: a2 -> exists d, d ∈ l /\ fst d = fst c /\ snd c <= snd d).
  { intros c Hc. exists c. split_and!; [|done|lia]. rewrite El. rewrite elem_of_app, !elem_of_cons in *. tauto. }
  assert (Hb : b ∈ l) by (rewrite El, elem_of_app, !elem_of_cons; tauto).
  unfold take_block. apply wp_bind, wp_gets. rewrite P2. destruct (Z.eqb_spec (snd b) nunits) as [E|Hne].
  - apply wp_bind, wp_gets, wp_bind, wp_modify, wp_bind, wp_modify, wp_ret. exists (a1 ++ q :: a2).
    cbn [hsize brk set_ptr set_freep]. assert (Er : fst b + HDR - HDR = fst b) by lia. split_and!; try done.
    + by apply (take_all h l a1 q b a2).
    + unfold bend. rewrite E. lia.
    + rewrite Er. congruence.
    + intros x. rewrite P13, Er. specialize (P12 x). unfold inside in *. tauto.
    + rewrite El, !length_app. simpl. lia.
  - rewrite u32_id by lia. apply wp_bind, wp_modify, wp_bind, wp_gets, wp_bind, wp_modify, wp_bind, wp_modify, wp_ret.
    cbn [hsize set_size]. rewrite upd_same. exists (a1 ++ q :: (fst b, snd b - nunits) :: a2).
    cbn [hsize brk set_freep set_size]. set (p := fst b + HDR * (snd b - nunits)).
    assert (Er : p + HDR - HDR = p) by lia. split_and!.
    + apply (take_part h l); (done || lia).
    + unfold p, bend. lia.
    + by rewrite Er, upd_same.
    + intros x. rewrite P13, Er. specialize (P12 x). rewrite !covered_app, !covered_cons in *.
      assert (Hx : inside (fst b, snd b - nunits) x <-> inside b x /\ ~ (p <= x < bend b)).
      { unfold inside, bend, p. simpl. unfold HDR. lia. }
      assert (Hpb : p <= x < bend b -> inside b x) by (unfold inside, p, HDR; lia). tauto.
    + intros c Hc. rewrite elem_of_app, !elem_of_cons in Hc. destruct Hc as [Hc|[->|[->|Hc]]].
      1, 2, 4: apply Hmem; rewrite elem_of_app, elem_of_cons; tauto.
      exists b. simpl. split_and!; [done|done|lia].
    + rewrite El, !length_app. simpl. lia.
    + done.
    + intros a Ha Hc. rewrite !upd_other; [done| |lia]. intros ->. by apply (Hc b).
Qed.
(** ** The rounds of [malloc] *)

Context (grants : Z -> Z -> bool).

Definition last_addr (prev : Z) (r : list block) : Z := match last r with Some c => fst c | None => prev end.

Lemma last_addr_cons prev c r : last_addr prev (c :: r) = last_addr (fst c) r.
Proof. unfold last_addr. rewrite last_cons. by destruct (last r). Qed.

(** Up to the first block that is large enough. *)
Lemma ring_found h stop nunits prev r1 b r2 fuel left :
  chain h (r1 ++ b :: r2) stop -> Forall (fun c => snd c < nunits /\ fst c <> freep h) r1 -> nunits <= snd b ->
  (length r1 <= left)%nat ->
  malloc_loop grants nunits prev (first (r1 ++ b :: r2) stop) fuel left h = take_block nunits (last_addr prev r1) (fst b) h.
Proof.
  revert prev left. induction r1 as [|c r1 IH]; intros prev left Hc Hr Hb Hl; simpl in Hc |- *.
  - destruct Hc as (Hs & _). destruct left; cbn [malloc_loop]; unfold bind at 1, gets at 1; rewrite Hs;
      by rewrite (proj2 (Z.leb_le _ _)) by done.
  - destruct Hc as (Hs & Hp & Hc). apply Forall_cons in Hr as [[Hr1 Hr2] Hr]. destruct left as [|left]; [simpl in Hl; lia|].
    cbn [malloc_loop]. unfold bind at 1, gets at 1. rewrite Hs, (proj2 (Z.leb_gt _ _)) by done.
    unfold bind at 1, gets at 1. rewrite (proj2 (Z.eqb_neq _ _)) by done. unfold bind at 1, gets at 1. rewrite Hp.
    rewrite last_addr_cons. apply IH; (done || (simpl in Hl; lia)).
Qed.

(** Once around without success. *)
Lemma walk_around h stop nunits prev r1 f fuel left :
  chain h (r1 ++ [f]) stop -> Forall (fun c => snd c < nunits /\ fst c <> freep h) r1 -> snd f < nunits ->
  fst f = freep h -> (length r1 < left)%nat ->
  malloc_loop grants nunits prev (first (r1 ++ [f]) stop) fuel left h =
  (let! p := morecore grants nunits fuel in
   if p =? 0 then ret 0
   else let! next := gets (fun h => hptr h p) in
        malloc_loop grants nunits p next fuel (left - S (length r1))) h.
Proof.
  revert prev left. induction r1 as [|c r1 IH]; intros prev left Hc Hr Hf Hfp Hl; simpl in Hc |- *;
    (destruct left as [|left]; [lia|]).
  - destruct Hc as (Hs & _). cbn [malloc_loop]. unfold bind at 1, gets at 1. rewrite Hs, (proj2 (Z.leb_gt _ _)) by done.
    unfold bind at 1, gets at 1. rewrite Hfp, Z.eqb_refl. by rewrite Nat.sub_succ, Nat.sub_0_r.
  - destruct Hc as (Hs & Hp & Hc). apply Forall_cons in Hr as [[Hr1 Hr2] Hr].
    cbn [malloc_loop]. unfold bind at 1, gets at 1. rewrite Hs, (proj2 (Z.leb_gt _ _)) by done.
    unfold bind at 1, gets at 1. rewrite (proj2 (Z.eqb_neq _ _)) by done. unfold bind at 1, gets at 1. rewrite Hp.
    rewrite IH; [reflexivity|done|done|done|done|simpl in Hl; lia].
Qed.
Lemma first_fit nunits (l : list block) :
  Forall (fun c => snd c < nunits) l \/
  exists r1 b r2, l = r1 ++ b :: r2 /\ Forall (fun c => snd c < nunits) r1 /\ nunits <= snd b.
Proof.
  induction l as [|c l IH]; [by left|]. destruct (Z.lt_ge_cases (snd c) nunits) as [Hc|Hc].
  - destruct IH as [IH|(r1 & b & r2 & -> & H1 & H2)]; [left; by constructor|right].
    exists (c :: r1), b, r2. split_and!; [done|by constructor|done].
  - right. exists [], c, l. by split_and!.
Qed.

Lemma last_addr_snoc prev r q : last_addr prev (r ++ [q]) = fst q.
Proof. unfold last_addr. by rewrite last_snoc. Qed.

(** The blocks from the one after freep, around to freep. *)
Lemma rotation h l : free_list base h l -> exists k1 f k2,
  l = k1 ++ f :: k2 /\ freep h = fst f /\ first (k1 ++ [f]) base = base /\ (exists r, k1 ++ [f] = (base, 0) :: r) /\
  hptr h (fst f) = first k2 base /\ chain h (k2 ++ k1 ++ [f]) (first k2 base) /\
  Forall (fun c => fst c <> freep h) (k2 ++ k1).
Proof.
  intros [H1 H2 H3 (r & E & _) (f & (k1 & k2 & El)%list_elem_of_split & Hf)]. exists k1, f, k2.
  assert (Hb : exists r', k1 ++ [f] = (base, 0) :: r').
  { rewrite E in El. destruct k1 as [|c k1]; injection El as <- _; [by exists []|by exists (k1 ++ [f])]. }
  rewrite El in H1, H2, H3. apply StronglySorted_app in H2 as (Ha0 & _ & Ha). apply StronglySorted_inv in Ha as [_ Ha].
  apply Forall_app in H3 as [Hs1 Hs2]. apply Forall_cons in Hs2 as [Hsf _].
  apply chain_app in H1 as [H1 (Hf1 & Hf2 & Hc2)].
  assert (Hfb : first (k1 ++ [f]) base = base) by (by destruct Hb as [r' ->]).
  split_and!; try done.
  - apply chain_app. rewrite first_app. split.
    + destruct Hb as [r' Er]. assert (Efirst : first k1 (first [f] (first k2 base)) = base).
      { rewrite <-first_app, Er. done. } by rewrite Efirst.
    + apply chain_app. split; [done|]. simpl. done.
  - rewrite Hf. apply Forall_app. split; apply Forall_forall; intros c Hc.
    + eapply Forall_forall in Ha; [|exact Hc]. pose proof (before_lt f c Hsf Ha). lia.
    + pose proof (Ha0 c f Hc ltac:(left)) as Hcf. eapply Forall_forall in Hs1; [|exact Hc].
      pose proof (before_lt c f Hs1 Hcf). lia.
Qed.

(** The block found is not the first of the list. *)
Lemma found_pair k1 f k2 r1 (b : block) r2 :
  k2 ++ k1 ++ [f] = r1 ++ b :: r2 -> (exists r, k1 ++ [f] = (base, 0) :: r) -> 0 < snd b ->
  exists a1 q a2, k1 ++ f :: k2 = a1 ++ q :: b :: a2 /\ last_addr (fst f) r1 = fst q /\ forall c, c ∈ r1 -> c ∈ k2 ++ k1.
Proof.
  intros E (rb & Hb) Hs. apply app_eq_inv in E as [(k & -> & E)|(k & -> & E)].
  - destruct k as [|b' k]; [rewrite app_nil_l, Hb in E; injection E as Eb _; subst b; simpl in Hs; lia|]. injection E as <- _.
    destruct (exists_last (l := f :: r1)) as (m & q & Em); [done|]. exists (k1 ++ m), q, k. split_and!.
    + change (k1 ++ f :: r1 ++ b :: k) with (k1 ++ (f :: r1) ++ b :: k). rewrite Em, <-!app_assoc. done.
    + rewrite <-last_addr_cons with (prev := 0), Em. apply last_addr_snoc.
    + intros c Hc. rewrite !elem_of_app. tauto.
  - destruct k as [|b' k]; [rewrite app_nil_l, Hb in E; injection E as Eb _; subst b; simpl in Hs; lia|].
    destruct (exists_last (l := b' :: k)) as (m & q & Em); [done|]. rewrite Em in E |- *. exists m, q, (r2 ++ k2). split_and!.
    + replace (k1 ++ f :: k2) with ((k1 ++ [f]) ++ k2) by (by rewrite <-app_assoc). rewrite E, <-!app_assoc. done.
    + rewrite app_assoc. apply last_addr_snoc.
    + intros c Hc. rewrite !elem_of_app in *. destruct Hc as [Hc|Hc]; [tauto|]. right.
      assert (Hm : c ∈ m ++ [q]) by (by rewrite elem_of_app). destruct (exists_last (l := b :: r2)) as (m2 & z & Ez); [done|].
      rewrite Ez, app_assoc in E. apply app_inj_2 in E as [-> _]; [|done]. rewrite elem_of_app. by left.
Qed.

Lemma round_spec h l nunits fuel left :
  free_list base h l -> 0 < nunits -> (length l <= left)%nat ->
  (exists a1 q b a2, l = a1 ++ q :: b :: a2 /\ nunits <= snd b /\
    malloc_loop grants nunits (freep h) (hptr h (freep h)) fuel left h = take_block nunits (fst q) (fst b) h) \/
  (Forall (fun c => snd c < nunits) l /\
    malloc_loop grants nunits (freep h) (hptr h (freep h)) fuel left h =
    (let! p := morecore grants nunits fuel in
     if p =? 0 then ret 0
     else let! next := gets (fun h => hptr h p) in
          malloc_loop grants nunits p next fuel (left - length l)) h).
Proof.
  intros Hl Hn Hleft. destruct (rotation h l Hl) as (k1 & f & k2 & El & Hf & Hfb & (rb & Hb) & Hp & Hc & Hne).
  assert (Hlen : length l = S (length (k2 ++ k1))) by (rewrite El, !length_app; simpl; lia).
  rewrite Hf, Hp. assert (Hfirst : first k2 base = first (k2 ++ k1 ++ [f]) (first k2 base)).
  { rewrite first_app. by rewrite Hb. }
  destruct (first_fit nunits (k2 ++ k1 ++ [f])) as [Hall|(r1 & b & r2 & Er & Hr1 & Hb2)].
  - right. assert (Hall' : Forall (fun c => snd c < nunits) l).
    { rewrite El. rewrite !Forall_app, Forall_singleton in Hall. apply Forall_app. rewrite Forall_cons. tauto. }
    split; [done|]. rewrite Hfirst at 1. rewrite app_assoc in Hc, Hall |- *. apply Forall_app in Hall as [Hall Hf2].
    apply Forall_cons in Hf2 as [Hf2 _]. rewrite (walk_around h (first k2 base)); [by rewrite Hlen|done| |done|by rewrite Hf|lia].
    apply Forall_forall. intros c Hcin. eapply Forall_forall in Hall, Hne; try exact Hcin. done.
  - left. apply found_pair in Er as Hpair; [|by exists rb|lia]. destruct Hpair as (a1 & q & a2 & Epair & Hq & Hsub).
    exists a1, q, b, a2. split_and!; [by rewrite El|done|]. rewrite Er in Hc, Hfirst. rewrite Hfirst, (ring_found h (first k2 base)); try done.
    + by rewrite Hq.
    + apply Forall_forall. intros c Hcin. split; [by eapply Forall_forall in Hr1|]. eapply Forall_forall in Hne; [done|by apply Hsub].
    + pose proof (f_equal length Er) as E. rewrite !length_app in E. rewrite length_app in Hlen. simpl in E. lia.
Qed.
End allocating.

(** ** The heap

    The blocks that the program holds and the free blocks make up the memory
    between the first program break and the current one. *)

Record heap_inv (base start : Z) (h : uheap) (live l : list block) : Prop := {
  hi_list : free_list base h l;
  hi_base : 0 < base < start;
  hi_brk : start <= brk h /\ brk h - base < 2 ^ 36;
  hi_live : Forall (fun b => 0 < snd b /\ hsize h (fst b) = snd b) live;
  hi_sep : ForallOrdPairs (fun b c => forall x, inside b x -> ~ inside c x) live;
  hi_apart : forall b x, b ∈ live -> inside b x -> ~ covered l x;
  hi_part : forall x, start <= x < brk h <-> covered l x \/ covered live x;
}.

Section heap.
Context (base start : Z).

Lemma inside_first b : 0 < snd b -> inside b (fst b).
Proof. unfold inside, bend, HDR. lia. Qed.
Lemma inside_last b : 0 < snd b -> inside b (bend b - 1).
Proof. unfold inside, bend, HDR. lia. Qed.

(** The blocks of the free list other than [base] have addresses. *)
Lemma list_pos h l c : free_list base h l -> c ∈ l -> c = (base, 0) \/ 0 < snd c.
Proof.
  intros [_ _ _ (r & -> & Hr) _] [->|Hc]%elem_of_cons; [by left|right]. by eapply Forall_forall in Hr.
Qed.

Lemma list_below h live l : heap_inv base start h live l -> Forall (fun c => bend c <= brk h) l.
Proof.
  intros [H1 H2 H3 _ _ _ H7]. apply Forall_forall. intros c Hc.
  destruct (list_pos h l c H1 Hc) as [->|Hp]; [unfold bend; simpl; lia|].
  pose proof (inside_last c Hp) as Hl. assert (Hr : start <= bend c - 1 < brk h) by (apply H7; left; by exists c). lia.
Qed.

(** The header of a live block is no header of the free list. *)
Lemma live_header h live l b : heap_inv base start h live l -> b ∈ live ->
  start <= fst b /\ ~ covered l (fst b) /\ forall c, c ∈ l -> fst c <> fst b.
Proof.
  intros [H1 H2 H3 H4 _ H6 H7] Hb. eapply Forall_forall in H4; [|exact Hb]. destruct H4 as [Hp _].
  pose proof (inside_first b Hp) as Hf. assert (Hr : start <= fst b < brk h) by (apply H7; right; by exists b).
  pose proof (H6 b (fst b) Hb Hf) as Hn. split_and!; [lia|done|]. intros c Hc E.
  destruct (list_pos h l c H1 Hc) as [->|Hpc]; [simpl in E; lia|]. apply Hn. exists c. split; [done|].
  rewrite <-E. by apply inside_first.
Qed.

Lemma alloc_found h live l a1 q b a2 nunits :
  heap_inv base start h live l -> l = a1 ++ q :: b :: a2 -> 0 < nunits <= snd b ->
  wp (take_block nunits (fst q) (fst b)) (fun r h' => r <> 0 /\ exists l',
    heap_inv base start h' ((r - HDR, nunits) :: live) l' /\ brk h' = brk h) h.
Proof.
  intros Hh El Hn. pose proof Hh as [H1 H2 H3 H4 H5 H6 H7]. assert (Hb : b ∈ l) by (rewrite El, elem_of_app, !elem_of_cons; tauto).
  assert (Hbb : bend b <= brk h) by (pose proof (list_below _ _ _ Hh) as Hbel; by eapply Forall_forall in Hbel).
  assert (Hbs : start <= fst b).
  { assert (start <= fst b < brk h); [|lia]. apply H7. left. exists b. split; [done|]. apply inside_first. lia. }
  eapply wp_mono; [apply (take_block_spec base h l a1 q b a2 nunits H1 El Hn)|].
  { unfold bend, HDR in *. lia. }
  intros r h' (l' & L1 & -> & L3 & L4 & L5 & L6 & L7 & L8). set (p := bend b - HDR * nunits) in *.
  replace (p + HDR - HDR) with p in * by lia.
  assert (Hpb : fst b <= p) by (unfold p, bend, HDR in *; lia). assert (Epb : bend (p, nunits) = bend b) by (unfold p, bend; simpl; lia).
  assert (Hnew : forall x, inside (p, nunits) x <-> p <= x < bend b) by (intros x; unfold inside; rewrite Epb; done).
  assert (Hcov : forall x, p <= x < bend b -> covered l x) by (intros x Hx; exists b; split; [done|unfold inside; lia]).
  split; [unfold HDR in *; lia|]. exists l'. split; [|done]. split.
  - done.
  - done.
  - lia.
  - constructor; [simpl; split; [lia|done]|]. apply Forall_forall. intros c Hc. destruct (live_header _ _ _ _ Hh Hc) as (_ & N1 & N2).
    eapply Forall_forall in H4; [|exact Hc]. rewrite L8; [done| |done]. intros E. apply N1. rewrite E. apply Hcov.
    unfold p, bend, HDR in *. lia.
  - constructor; [|done]. apply List.Forall_forall. intros c Hc%list_elem_of_In x Hx Hcx. apply (H6 c x Hc Hcx), Hcov, Hnew, Hx.
  - intros c x [->|Hc]%elem_of_cons Hx Hcl; apply L4 in Hcl as [Hcl1 Hcl2]; [by apply Hcl2, Hnew|]. by apply (H6 c x).
  - intros x. rewrite L7, H7, covered_cons, Hnew, L4. specialize (Hcov x).
    destruct (Z.le_gt_cases p x), (Z.lt_ge_cases x (bend b)); intuition lia.
Qed.
Lemma interval_apart c bp s : 0 < s -> 0 < snd c -> (forall x, bp <= x < bp + HDR * s -> ~ inside c x) ->
  bend c <= bp \/ bp + HDR * s <= fst c.
Proof.
  intros Hs Hc Ha. destruct (Z.le_gt_cases (bend c) bp), (Z.le_gt_cases (bp + HDR * s) (fst c)); try lia. exfalso.
  apply (Ha (Z.max bp (fst c))); unfold inside, bend, HDR in *; lia.
Qed.

(** A block that is neither free nor live is put on the free list. *)
Lemma reclaim h live l bp s fuel :
  free_list base h l -> 0 < base < start -> start <= bp -> bp + HDR * s <= brk h -> brk h - base < 2 ^ 36 ->
  hsize h bp = s -> 0 < s -> (forall x, bp <= x < bp + HDR * s -> ~ covered l x) -> Forall (fun c => bend c <= brk h) l ->
  Forall (fun b => 0 < snd b /\ hsize h (fst b) = snd b) live ->
  ForallOrdPairs (fun b c => forall x, inside b x -> ~ inside c x) live ->
  (forall b x, b ∈ live -> inside b x -> ~ covered l x /\ ~ (bp <= x < bp + HDR * s)) ->
  (forall x, start <= x < brk h <-> covered l x \/ bp <= x < bp + HDR * s \/ covered live x) ->
  (2 * length l <= fuel)%nat ->
  wp (free (bp + HDR) fuel) (fun _ h' => exists l', heap_inv base start h' live l' /\
    (exists b, b ∈ l' /\ s <= snd b) /\ (length l' <= S (length l))%nat /\ brk h' = brk h) h.
Proof.
  intros Hl Hbase Hbp Hend Hbound Hs Hs0 Hcov Hbelow Hlive Hsep Hap Hpart Hfuel.
  assert (Hd : Forall (fun c => bend c <= bp \/ bp + HDR * s <= fst c) l).
  { apply Forall_forall. intros c Hc. destruct (list_pos h l c Hl Hc) as [->|Hp]; [left; unfold bend; simpl; lia|].
    apply interval_apart; [done|done|]. intros x Hx Hin. apply (Hcov x Hx). by exists c. }
  eapply wp_mono; [apply (free_spec base h l bp s (brk h) fuel); (done || lia)|].
  intros [] h' (l' & L1 & L2 & L3 & L4 & (b0 & Hb0 & _ & Hle) & L6 & L7 & L8). exists l'.
  split_and!; [|by exists b0|done|done]. split; try done.
  - rewrite L7. unfold HDR in *. lia.
  - apply Forall_forall. intros b Hb. eapply Forall_forall in Hlive; [|exact Hb]. destruct Hlive as [Hp Hsz].
    pose proof (inside_first b Hp) as Hf. destruct (Hap b (fst b) Hb Hf) as [N1 N2]. split; [done|]. rewrite L8; [done| |].
    + intros E. apply N2. unfold HDR. lia.
    + intros c Hc E. destruct (list_pos h l c Hl Hc) as [->|Hpc].
      * simpl in E. assert (start <= fst b < brk h) by (apply Hpart; right; right; by exists b). lia.
      * apply N1. exists c. split; [done|]. rewrite <-E. by apply inside_first.
  - intros b x Hb Hx Hc. apply L3 in Hc. destruct (Hap b x Hb Hx). tauto.
  - intros x. rewrite L7, Hpart, L3. tauto.
Qed.

(** [free] of a live block. *)
Lemma heap_free h m1 b m2 l fuel :
  heap_inv base start h (m1 ++ b :: m2) l -> (2 * length l <= fuel)%nat ->
  wp (free (fst b + HDR) fuel) (fun _ h' => exists l', heap_inv base start h' (m1 ++ m2) l' /\ brk h' = brk h) h.
Proof.
  intros Hh Hfuel. pose proof Hh as [H1 H2 H3 H4 H5 H6 H7]. assert (Hb : b ∈ m1 ++ b :: m2) by (rewrite elem_of_app, elem_of_cons; tauto).
  pose proof (list_below _ _ _ Hh) as Hbel. pose proof H4 as H4'. apply Forall_app in H4 as [H41 H42]. apply Forall_cons in H42 as [[Hp Hs] H42].
  assert (Hin : forall x, inside b x <-> fst b <= x < fst b + HDR * snd b) by done.
  assert (Hrange : start <= fst b /\ bend b <= brk h).
  { pose proof (inside_first b Hp). pose proof (inside_last b Hp).
    assert (start <= fst b < brk h) by (apply H7; right; by exists b).
    assert (start <= bend b - 1 < brk h) by (apply H7; right; by exists b). lia. }
  assert (Hother : ForallOrdPairs (fun b c => forall x, inside b x -> ~ inside c x) (m1 ++ m2) /\
    forall c x, c ∈ m1 ++ m2 -> inside c x -> ~ inside b x).
  { clear - H5. induction m1 as [|d m1 IH]; simpl in H5 |- *; inversion H5 as [|? ? Hf Hr]; subst.
    - split; [done|]. intros c x Hc Hx Hbx. eapply List.Forall_forall in Hf; [|apply list_elem_of_In; exact Hc]. by apply (Hf x).
    - destruct (IH Hr) as [IH1 IH2]. rewrite List.Forall_app in Hf. destruct Hf as [Hf1 Hf2]. apply List.Forall_cons_iff in Hf2 as [Hfb Hf2]. split.
      + constructor; [apply List.Forall_app; done|done].
      + intros c x [->|Hc]%elem_of_cons; [apply Hfb|by apply IH2]. }
  destruct Hother as [O1 O2]. eapply wp_mono.
  { apply (reclaim h (m1 ++ m2) l (fst b) (snd b) fuel); try done; try lia.
    - unfold bend in Hrange. lia.
    - intros x Hx. by apply (H6 b x Hb).
    - apply Forall_app. done.
    - intros c x Hc Hx. split; [|by apply (O2 c)]. apply (H6 c x); [|done]. rewrite elem_of_app, elem_of_cons in *. tauto.
    - intros x. rewrite H7, !covered_app, covered_cons, Hin. tauto. }
  intros [] h' (l' & Hh' & _ & _ & E). by exists l'.
Qed.

(** The states of the allocator: before its first use, and with a free
    list. *)
Definition heap_ok (h : uheap) (live : list block) : Prop :=
  (freep h = 0 /\ live = [] /\ brk h = start /\ 0 < base < start /\ start - base < 2 ^ 36) \/
  exists l, heap_inv base start h live l.

Lemma heap_init h : freep h = 0 -> brk h = start -> 0 < base < start -> start - base < 2 ^ 36 ->
  heap_inv base start (set_size base 0 (set_freep base (set_ptr base base h))) [] [(base, 0)].
Proof.
  intros Hf Hb Hbase Hbound. assert (Hc : forall x, covered [(base, 0)] x <-> False).
  { intros x. rewrite covered_cons, covered_nil. unfold inside, bend. simpl. lia. }
  split; try done.
  - split.
    + simpl. by rewrite !upd_same.
    + repeat constructor.
    + by apply Forall_singleton.
    + by exists [].
    + exists (base, 0). split; [left|done].
  - simpl. lia.
  - constructor.
  - intros b x Hb'%elem_of_nil. done.
  - intros x. rewrite Hc, covered_nil. simpl. lia.
Qed.

Context (grants : Z -> Z -> bool).

Lemma morecore_spec h live l nunits fuel :
  heap_inv base start h live l -> 0 < nunits -> nunits * HDR < 2 ^ 31 ->
  brk h + Z.max 4096 nunits * HDR - base < 2 ^ 36 -> (2 * length l <= fuel)%nat ->
  let n := Z.max 4096 nunits * HDR in
  wp (morecore grants nunits fuel) (fun p h' =>
    (p = 0 /\ grants (brk h) n = false /\ h' = h) \/
    (p = freep h' /\ p <> 0 /\ brk h' = brk h + n /\ exists l', heap_inv base start h' live l' /\
      (exists b, b ∈ l' /\ nunits <= snd b) /\ (length l' <= S (length l))%nat)) h.
Proof.
  intros Hh Hn Hn31 Hg Hfuel n. pose proof Hh as [H1 H2 H3 H4 H5 H6 H7]. unfold morecore.
  set (nu := if nunits <? 4096 then 4096 else nunits).
  assert (Hnu : nu = Z.max 4096 nunits) by (unfold nu; destruct (Z.ltb_spec nunits 4096); lia).
  rewrite Hnu. fold n. rewrite (i32_id n) by (unfold n, HDR in *; lia).
  apply wp_bind. unfold sbrk. apply wp_bind, wp_gets. destruct (grants (brk h) n) eqn:Eg.
  2: { apply wp_ret. rewrite Z.eqb_refl. apply wp_ret. by left. }
  apply wp_bind, wp_modify, wp_ret. rewrite (proj2 (Z.eqb_neq _ _)) by lia. apply wp_bind, wp_modify.
  set (h1 := set_size (brk h) (Z.max 4096 nunits) (set_brk (brk h + n) h)).
  pose proof (list_below _ _ _ Hh) as Hbel. fold n in Hg.
  assert (Hold : forall x, covered l x \/ covered live x -> x < brk h) by (intros x Hx%H7; lia).
  assert (Hlb : forall c, c ∈ l -> fst c <> brk h).
  { intros c Hc. destruct (list_pos h l c H1 Hc) as [->|Hp]; [simpl; lia|]. pose proof (inside_first c Hp).
    pose proof (Hold (fst c) ltac:(left; by exists c)). lia. }
  assert (Hlv : forall b, b ∈ live -> 0 < snd b /\ hsize h (fst b) = snd b /\ fst b < brk h).
  { intros b Hb. eapply Forall_forall in H4; [|exact Hb]. destruct H4 as [Hp Hs]. pose proof (inside_first b Hp).
    split_and!; [done|done|]. apply Hold. right. by exists b. }
  apply wp_bind. eapply wp_mono.
  { apply (reclaim h1 live l (brk h) (Z.max 4096 nunits) fuel); try done; cbn [brk hsize h1 set_size set_brk]; try lia.
    - destruct H1 as [F1 F2 F3 F4 F5]. split; try done. apply (chain_frame h); [|done]. intros c Hc. simpl.
      by rewrite upd_other by auto.
    - apply upd_same.
    - intros x Hx Hc. pose proof (Hold x ltac:(by left)). lia.
    - eapply Forall_impl; [exact Hbel|]. intros c Hc. simpl in *. unfold n, HDR. lia.
    - apply Forall_forall. intros b Hb. destruct (Hlv b Hb) as (? & ? & ?). rewrite upd_other by lia. done.
    - intros b x Hb Hx. split; [by apply (H6 b)|]. assert (x < brk h) by (apply Hold; right; by exists b). lia.
    - intros x. specialize (H7 x). specialize (Hold x). unfold n in *. unfold HDR in *.
      destruct (Z.lt_ge_cases x (brk h)); intuition lia. }
  intros [] h' (l' & L1 & (b & Hb & Hle) & L3 & L4). apply wp_gets. right.
  pose proof (hi_list _ _ _ _ _ L1) as Hl'. pose proof (fl_freep _ _ _ Hl') as (f & Hf & Ef).
  split_and!; [done| |by rewrite L4|exists l'; split_and!; [done|exists b; split; [done|lia]|done]].
  rewrite Ef. destruct (list_pos h' l' f Hl' Hf) as [->|Hp]; [simpl; lia|]. pose proof (inside_first f Hp).
  assert (start <= fst f < brk h') by (apply (hi_part _ _ _ _ _ L1); left; by exists f). lia.
Qed.

Lemma wp_same {S A} (m m' : M S A) (Q : A -> S -> Prop) s : m s = m' s -> wp m' Q s -> wp m Q s.
Proof. unfold wp. by intros ->. Qed.

(** What [malloc] does once the free list exists. *)
Lemma malloc_round h live l nunits fuel :
  heap_inv base start h live l -> 0 < nunits -> nunits * HDR < 2 ^ 31 ->
  brk h + Z.max 4096 nunits * HDR - base < 2 ^ 36 -> (3 * length l + 2 <= fuel)%nat ->
  wp (malloc_loop grants nunits (freep h) (hptr h (freep h)) fuel fuel) (fun r h' =>
    (r = 0 /\ grants (brk h) (Z.max 4096 nunits * HDR) = false /\ heap_ok h' live) \/
    (r <> 0 /\ heap_ok h' ((r - HDR, nunits) :: live))) h.
Proof.
  intros Hh Hn Hn31 Hg Hfuel. pose proof (hi_list _ _ _ _ _ Hh) as Hl.
  destruct (round_spec base grants h l nunits fuel fuel Hl Hn ltac:(lia)) as [(a1 & q & b & a2 & El & Hb & E)|[Hall E]].
  - apply (wp_same _ _ _ _ E).
    eapply wp_mono; [by apply (alloc_found h live l a1 q b a2 nunits)|]. intros r h' (Hr & l' & Hh' & _). right.
    split; [done|right; by exists l'].
  - apply (wp_same _ _ _ _ E). apply wp_bind. eapply wp_mono; [apply (morecore_spec h live l nunits fuel); (done || lia)|].
    intros p h' [(-> & Hno & ->)|(-> & Hp & _ & l' & Hh' & (b & Hb & Hle) & Hlen)].
    { apply wp_ret. left. split_and!; [done|done|right; by exists l]. }
    rewrite (proj2 (Z.eqb_neq _ _)) by done. apply wp_bind, wp_gets. pose proof (hi_list _ _ _ _ _ Hh') as Hl'.
    destruct (round_spec base grants h' l' nunits fuel (fuel - length l) Hl' Hn ltac:(lia)) as [(a1 & q & c & a2 & El & Hc & E')|[Hall' _]].
    + apply (wp_same _ _ _ _ E'). eapply wp_mono; [by apply (alloc_found h' live l' a1 q c a2 nunits)|].
      intros r h2 (Hr & l2 & Hh2 & _). right. split; [done|right; by exists l2].
    + exfalso. eapply Forall_forall in Hall'; [|exact Hb]. lia.
Qed.
End heap.

(** ** The fuel does not matter *)

Section mono.
Lemma bind_inv {S A B} (m : M S A) (k : A -> M S B) s x :
  bind m k s = Ret x -> exists a s', m s = Ret (a, s') /\ k a s' = Ret x.
Proof. unfold bind. destruct (m s) as [[a s']| | |]; intros H; try done. by exists a, s'. Qed.

Lemma free_loop_mono bp p left left' h x : free_loop bp p left h = Ret x -> (left <= left')%nat -> free_loop bp p left' h = Ret x.
Proof.
  revert p left'. induction left as [|left IH]; intros p [|left'] H Hl; try lia; [done| |];
    cbn [free_loop] in *; unfold bind, gets in *; destruct (_ && _); try done; destruct (_ && _); try done. apply IH; (done || lia).
Qed.

Lemma free_mono ap fuel fuel' h x : free ap fuel h = Ret x -> (fuel <= fuel')%nat -> free ap fuel' h = Ret x.
Proof.
  unfold free. intros (p & h1 & H1 & (p' & h2 & H2 & H3)%bind_inv)%bind_inv Hl.
  rewrite (bind_ret_eq _ _ _ _ _ H1), (bind_ret_eq _ _ _ _ _ (free_loop_mono _ _ _ _ _ _ H2 Hl)). done.
Qed.

Context (grants : Z -> Z -> bool).

Lemma morecore_mono nu fuel fuel' h x : morecore grants nu fuel h = Ret x -> (fuel <= fuel')%nat -> morecore grants nu fuel' h = Ret x.
Proof.
  unfold morecore. intros (p & h1 & H1 & H2)%bind_inv Hl. rewrite (bind_ret_eq _ _ _ _ _ H1).
  destruct (p =? -1); [done|]. apply bind_inv in H2 as ([] & h2 & H2 & ([] & h3 & H3 & H4)%bind_inv).
  by rewrite (bind_ret_eq _ _ _ _ _ H2), (bind_ret_eq _ _ _ _ _ (free_mono _ _ _ _ _ H3 Hl)).
Qed.

Lemma malloc_loop_mono nunits prevp p fuel fuel' left left' h x :
  malloc_loop grants nunits prevp p fuel left h = Ret x -> (fuel <= fuel')%nat -> (left <= left')%nat ->
  malloc_loop grants nunits prevp p fuel' left' h = Ret x.
Proof.
  revert prevp p left' h. induction left as [|left IH]; intros prevp p [|left'] h H Hf Hl; try lia;
    cbn [malloc_loop] in *; unfold bind at 1, gets at 1 in H; unfold bind at 1, gets at 1; destruct (_ <=? _); try done.
  unfold bind at 1, gets at 1 in H. unfold bind at 1, gets at 1. destruct (p =? freep h).
  - apply bind_inv in H as (q & h1 & H1 & H2). rewrite (bind_ret_eq _ _ _ _ _ (morecore_mono _ _ _ _ _ H1 Hf)).
    destruct (q =? 0); [done|]. apply bind_inv in H2 as (next & h2 & H2 & H3). rewrite (bind_ret_eq _ _ _ _ _ H2).
    apply IH; (done || lia).
  - apply bind_inv in H as (next & h2 & H2 & H3). rewrite (bind_ret_eq _ _ _ _ _ H2). apply IH; (done || lia).
Qed.

Lemma malloc_mono base nbytes fuel fuel' h x :
  malloc base grants nbytes fuel h = Ret x -> (fuel <= fuel')%nat -> malloc base grants nbytes fuel' h = Ret x.
Proof.
  unfold malloc. intros (fp & h1 & H1 & ([] & h2 & H2 & (q & h3 & H3 & (p & h4 & H4 & H5)%bind_inv)%bind_inv)%bind_inv)%bind_inv Hl.
  rewrite (bind_ret_eq _ _ _ _ _ H1), (bind_ret_eq _ _ _ _ _ H2), (bind_ret_eq _ _ _ _ _ H3), (bind_ret_eq _ _ _ _ _ H4).
  by apply (malloc_loop_mono _ _ _ fuel fuel' fuel).
Qed.
End mono.

(** ** Programs that use the allocator *)

Lemma units_range nbytes : 0 <= nbytes < 2 ^ 31 - 32 ->
  0 < units nbytes /\ units nbytes * HDR < 2 ^ 31 /\ nbytes + HDR <= units nbytes * HDR.
Proof. intros H. unfold units, HDR. rewrite u32_id by lia. lia. Qed.

Section programs.
Context (base : Z) (grants : Z -> Z -> bool) (start : Z).

(** The break stays within the 2 ^ 32 units that a uint can count. *)
Definition room (h : uheap) (nbytes : Z) : Prop := brk h + Z.max 4096 (units nbytes) * HDR - base < 2 ^ 36.

Lemma malloc_spec nbytes h live :
  heap_ok base start h live -> 0 <= nbytes < 2 ^ 31 - 32 -> room h nbytes ->
  exists N, forall fuel, (N <= fuel)%nat ->
  wp (malloc base grants nbytes fuel) (fun r h' =>
    (r = 0 /\ grants (brk h) (Z.max 4096 (units nbytes) * HDR) = false /\ heap_ok base start h' live) \/
    (r <> 0 /\ heap_ok base start h' ((r - HDR, units nbytes) :: live))) h.
Proof.
  intros Hh Hn Hg. destruct (units_range nbytes Hn) as (U1 & U2 & _).
  destruct Hh as [(Hf & -> & Hb & Hbase & Hbound)|(l & Hh)].
  - exists 5%nat. intros fuel Hfuel. unfold malloc. apply wp_bind, wp_gets. rewrite Hf. cbn [Z.eqb].
    apply wp_bind, wp_bind, wp_modify, wp_bind, wp_modify, wp_modify, wp_bind, wp_gets, wp_bind, wp_gets.
    pose proof (heap_init base start h Hf Hb Hbase Hbound) as Hi.
    eapply wp_mono; [by apply (malloc_round base start grants _ [] [(base, 0)] (units nbytes) fuel Hi)|]. done.
  - exists (3 * length l + 2)%nat. intros fuel Hfuel. unfold malloc. apply wp_bind, wp_gets.
    assert (Hfp : freep h <> 0).
    { pose proof (hi_list _ _ _ _ _ Hh) as Hl. destruct (fl_freep _ _ _ Hl) as (f & Hfl & ->).
      pose proof (hi_base _ _ _ _ _ Hh). destruct (list_pos base h l f Hl Hfl) as [->|Hp]; [simpl; lia|].
      assert (start <= fst f < brk h); [|lia]. apply (hi_part _ _ _ _ _ Hh). left. exists f. split; [done|by apply inside_first]. }
    rewrite (proj2 (Z.eqb_neq _ _) Hfp). apply wp_bind, wp_ret, wp_bind, wp_gets, wp_bind, wp_gets.
    by apply (malloc_round base start grants h live l).
Qed.

(** The states a program can reach: it allocates, frees blocks it holds, and
    stores into the blocks it holds behind their headers.  Its requests are less
    than 2 ^ 31 - 32 bytes each, and its heap stays below 2 ^ 36 bytes. *)
Inductive reach : uheap -> list block -> Prop :=
| reach_start h : freep h = 0 -> brk h = start -> reach h []
| reach_malloc h live nbytes fuel r h' :
    reach h live -> 0 <= nbytes < 2 ^ 31 - 32 -> room h nbytes -> malloc base grants nbytes fuel h = Ret (r, h') ->
    reach h' (if r =? 0 then live else (r - HDR, units nbytes) :: live)
| reach_free h m1 b m2 fuel h' :
    reach h (m1 ++ b :: m2) -> free (fst b + HDR) fuel h = Ret (tt, h') -> reach h' (m1 ++ m2)
| reach_write h live h' :
    reach h live -> freep h' = freep h -> brk h' = brk h ->
    (forall a, (forall b x, b ∈ live -> fst b + HDR <= x < bend b -> ~ (a <= x < a + HDR)) ->
       hptr h' a = hptr h a /\ hsize h' a = hsize h a) ->
    reach h' live.

Lemma write_ok h live h' :
  base + HDR <= start -> heap_ok base start h live -> freep h' = freep h -> brk h' = brk h ->
  (forall a, (forall b x, b ∈ live -> fst b + HDR <= x < bend b -> ~ (a <= x < a + HDR)) ->
     hptr h' a = hptr h a /\ hsize h' a = hsize h a) ->
  heap_ok base start h' live.
Proof.
  intros Hbs [(Hf & Hn & Hb & Hrest)|(l & Hh)] Ef Eb Hw; [left; by rewrite Ef, Eb|]. right. exists l.
  pose proof Hh as [[F1 F2 F3 F4 F5] H2 H3 H4 H5 H6 H7].
  assert (Hlist : forall c, c ∈ l -> hptr h' (fst c) = hptr h (fst c) /\ hsize h' (fst c) = hsize h (fst c)).
  { intros c Hc. apply Hw. intros b x Hb Hx Hax. assert (Hin : inside b x) by (unfold inside, HDR in *; lia).
    destruct (list_pos base h l c (hi_list _ _ _ _ _ Hh) Hc) as [->|Hp].
    - simpl in Hax. assert (start <= x < brk h) by (apply H7; right; by exists b). lia.
    - apply (H6 b x Hb Hin). exists c. split; [done|]. unfold inside, bend, HDR in *. lia. }
  split; try done.
  - split; try done; [by apply (chain_frame h)|by rewrite Ef].
  - by rewrite Eb.
  - apply Forall_forall. intros b Hb. pose proof H4 as H4'. eapply Forall_forall in H4; [|exact Hb]. destruct H4 as [Hp Hs].
    split; [done|]. rewrite <-Hs. apply Hw. intros c x Hc Hx Hax.
    assert (Hcx : inside c x) by (unfold inside, HDR in *; lia). assert (Hbx : inside b x) by (unfold inside, bend, HDR in *; lia).
    destruct (decide (b = c)) as [->|Hne]; [lia|].
    destruct (ForallOrdPairs_In H5 b c) as [?|[Hd|Hd]]; [by apply list_elem_of_In..|done|by apply (Hd x)|by apply (Hd x)].
  - by rewrite Eb.
Qed.

Lemma reach_ok h live :
  0 < base -> base + HDR <= start -> start - base < 2 ^ 36 -> reach h live -> heap_ok base start h live.
Proof.
  intros Hb Hbs Hbound. induction 1 as [h Hf Hk|h live nbytes fuel r h' _ IH Hn Hg Hm|h m1 b m2 fuel h' _ IH Hfree|h live h' _ IH Ef Eb Hw].
  - left. unfold HDR in Hbs. split_and!; (done || lia).
  - destruct (malloc_spec nbytes h live IH Hn Hg) as (N & HN). specialize (HN (N + fuel)%nat ltac:(lia)).
    unfold wp in HN. rewrite (malloc_mono _ _ _ _ (N + fuel)%nat _ _ Hm ltac:(lia)) in HN.
    destruct HN as [(-> & _ & Hh)|[Hr Hh]]; [done|by rewrite (proj2 (Z.eqb_neq _ _) Hr)].
  - destruct IH as [(_ & E & _)|(l & Hh)]; [by destruct m1|]. right.
    pose proof (heap_free base start h m1 b m2 l (2 * length l + fuel)%nat Hh ltac:(lia)) as HN.
    unfold wp in HN. rewrite (free_mono _ _ (2 * length l + fuel)%nat _ _ Hfree ltac:(lia)) in HN.
    destruct HN as (l' & Hh' & _). by exists l'.
  - by apply (write_ok h live h').
Qed.
End programs.

(** ** Properties *)

(** C34: the allocator is safe.  Whatever sequence of allocations, releases and
    stores into its blocks a program does, with requests of less than 2 ^ 31 - 32
    bytes and a heap below 2 ^ 36 bytes, the blocks it holds do not overlap and
    lie between the first and the current program break, and every byte there is
    in exactly one block, held or free: nothing is lost.  The free blocks are in
    the order of their addresses and no two of them touch. *)
Theorem malloc_safe (base start : Z) (grants : Z -> Z -> bool) (h : uheap) (live : list block) :
  0 < base -> base + HDR <= start -> start - base < 2 ^ 36 -> reach base grants start h live ->
  ForallOrdPairs (fun b c => forall x, inside b x -> ~ inside c x) live /\
  exists l, StronglySorted before l /\ (freep h <> 0 -> chain h l base) /\
    forall x, (start <= x < brk h <-> covered live x \/ covered l x) /\ ~ (covered live x /\ covered l x).
Proof.
  intros Hb Hbs Hbound Hr. destruct (reach_ok base grants start h live Hb Hbs Hbound Hr) as [(Hf & -> & Hk & _)|(l & [[F1 F2 _ _ _] H2 H3 H4 H5 H6 H7])].
  - split; [constructor|]. exists []. split_and!; [constructor|done|]. intros x. rewrite covered_nil. lia.
  - split; [done|]. exists l. split_and!; [done|done|]. intros x. split; [rewrite H7; tauto|].
    intros [(b & Hbl & Hx) Hc]. by apply (H6 b x).
Qed.

(** C35: the allocator answers.  In every such state, for a request of less than
    2 ^ 31 - 32 bytes with which the heap stays below 2 ^ 36 bytes, [malloc]
    returns when its loops get enough turns: 0 only if the kernel refuses to
    move the break, and otherwise the address of a block of which at least
    [nbytes] bytes, and the header before them, are in none of the blocks the
    program holds; and [free] of a block that the program holds returns. *)
Theorem malloc_returns (base start : Z) (grants : Z -> Z -> bool) (h : uheap) (live : list block) :
  0 < base -> base + HDR <= start -> start - base < 2 ^ 36 -> reach base grants start h live ->
  (forall nbytes, 0 <= nbytes < 2 ^ 31 - 32 -> room base h nbytes -> exists N, forall fuel, (N <= fuel)%nat ->
    exists r h', malloc base grants nbytes fuel h = Ret (r, h') /\
      (r = 0 /\ grants (brk h) (Z.max 4096 (units nbytes) * HDR) = false \/
       start <= r - HDR /\ r + nbytes <= brk h' /\
       forall x, r - HDR <= x < r + nbytes -> ~ covered live x)) /\
  (forall b, b ∈ live -> exists N, forall fuel, (N <= fuel)%nat -> exists h', free (fst b + HDR) fuel h = Ret (tt, h')).
Proof.
  intros Hb Hbs Hbound Hr. pose proof (reach_ok base grants start h live Hb Hbs Hbound Hr) as Hok. split.
  - intros nbytes Hn Hg. destruct (malloc_spec base grants start nbytes h live Hok Hn Hg) as (N & HN).
    destruct (units_range nbytes Hn) as (_ & _ & U3). exists N.
    intros fuel Hf. destruct (proj1 (wp_returns _ _ _) (HN fuel Hf)) as (r & h' & E & HQ). exists r, h'. split; [done|].
    destruct HQ as [(-> & Hno & _)|[Hr0 [(_ & ? & _)|(l & [_ _ _ H4 H5 _ H7])]]]; [by left|done|right].
    assert (Hin : forall x, r - HDR <= x < r + nbytes -> inside (r - HDR, units nbytes) x).
    { intros x Hx. unfold inside, bend. simpl. lia. }
    assert (Hpart : forall x, r - HDR <= x < r + nbytes -> start <= x < brk h').
    { intros x Hx. apply H7. right. exists (r - HDR, units nbytes). split; [left|auto]. }
    split_and!; [apply Hpart; unfold HDR; lia| |].
    + assert (r + nbytes - 1 < brk h') by (apply Hpart; unfold HDR; lia). lia.
    + intros x Hx (b & Hbl & Hbx). inversion H5 as [|? ? Hf5 _]; subst.
      eapply List.Forall_forall in Hf5; [|apply list_elem_of_In; exact Hbl]. apply (Hf5 x); auto.
  - intros b (m1 & m2 & ->)%list_elem_of_split. destruct Hok as [(_ & E & _)|(l & Hh)]; [by destruct m1|].
    exists (2 * length l)%nat. intros fuel Hf.
    destruct (proj1 (wp_returns _ _ _) (heap_free base start h m1 b m2 l fuel Hh Hf)) as ([] & h' & E & _). by exists h'.
Qed.

(** An allocation of 100 bytes from a fresh heap. *)
Definition fresh0 : uheap := Uheap (fun _ => 0) (fun _ => 0) 0 4096.
Definition grants0 (b n : Z) : bool := b + n <? 2 ^ 30.

Lemma reach0 : exists h, reach 16 grants0 4096 h [(69504, 8)].
Proof.
  assert (E : match malloc 16 grants0 100 10 fresh0 with Ret (r, _) => r | _ => 0 end = 69520) by (vm_compute; reflexivity).
  destruct (malloc 16 grants0 100 10 fresh0) as [[r h1]| | |] eqn:Em; try discriminate E. subst r. exists h1.
  exact (reach_malloc 16 grants0 4096 fresh0 [] 100 10 69520 h1 (reach_start _ _ _ fresh0 eq_refl eq_refl) ltac:(lia) eq_refl Em).
Qed.

Lemma malloc_safe_witness : exists h l, reach 16 grants0 4096 h [(69504, 8)] /\
  forall x, (4096 <= x < brk h <-> covered [(69504, 8)] x \/ covered l x) /\ ~ (covered [(69504, 8)] x /\ covered l x).
Proof.
  destruct reach0 as [h Hr]. destruct (malloc_safe 16 4096 grants0 h [(69504, 8)]) as [_ (l & _ & _ & H)].
  - lia.
  - unfold HDR. lia.
  - lia.
  - exact Hr.
  - exists h, l. split; [exact Hr|exact H].
Defined.

Lemma malloc_returns_witness : exists h N, reach 16 grants0 4096 h [(69504, 8)] /\
  forall fuel, (N <= fuel)%nat -> exists h', free 69520 fuel h = Ret (tt, h').
Proof.
  destruct reach0 as [h Hr]. destruct (malloc_returns 16 4096 grants0 h [(69504, 8)]) as [_ H].
  - lia.
  - unfold HDR. lia.
  - lia.
  - exact Hr.
  - destruct (H (69504, 8)) as [N HN]; [left|]. exists h, N. split; [exact Hr|exact HN].
Defined.

(** The size in bytes is converted to the int argument of sbrk: a request of
    2 GiB moves the break down. *)
Lemma malloc_huge_shrinks : exists h', malloc 16 (fun _ _ => true) (2 ^ 31 + 2 ^ 30) 10 fresh0 = Ret (4112, h') /\ brk h' < 4096.
Proof. eexists. split; [vm_compute; reflexivity|vm_compute; reflexivity]. Qed.
