(* ===== verification/Grep.v ===== *)
(** * user/grep.c: the pattern matcher and the line filter

    Patterns and lines are C strings: the bytes before the terminating 0. *)

From S2P Require Import Prelude.

Definition NL : Z := 10.
Definition DOLLAR : Z := 36.
Definition STAR : Z := 42.
Definition DOT : Z := 46.
Definition CARET : Z := 94.

(** [strchr] (user/ulib.c): the bytes before the first [c] and those after
    it. *)
Fixpoint strchr (s : list Z) (c : Z) : option (list Z * list Z) :=
  match s with
  | [] => None
  | x :: s' =>
      if x =? 0 then None
      else if x =? c then Some ([], s')
      else match strchr s' c with Some (l, r) => Some (x :: l, r) | None => None end
  end.

(** ** The matcher *)

(** [matchstar], for the rest of the pattern that [here] matches. *)
Fixpoint matchstar (here : list Z -> bool) (c : Z) (text : list Z) : bool :=
  here text ||
  match text with
  | [] => false
  | t :: text' => ((t =? c) || (c =? DOT)) && matchstar here c text'
  end.

Fixpoint matchhere (re text : list Z) : bool :=
  match re with
  | [] => true
  | c :: re1 =>
      match re1 with
      | s :: re2 =>
          if s =? STAR then matchstar (matchhere re2) c text
          else match text with
               | t :: text' => ((c =? DOT) || (c =? t)) && matchhere re1 text'
               | [] => false
               end
      | [] =>
          if c =? DOLLAR then match text with [] => true | _ => false end
          else match text with
               | t :: text' => ((c =? DOT) || (c =? t)) && matchhere re1 text'
               | [] => false
               end
      end
  end.

(** The loop of [match] without an anchor. *)
Fixpoint match_loop (re text : list Z) : bool :=
  matchhere re text ||
  match text with
  | [] => false
  | _ :: text' => match_loop re text'
  end.

Definition match_ (re text : list Z) : bool :=
  match re with
  | c :: re' => if c =? CARET then matchhere re' text else match_loop re text
  | [] => match_loop re text
  end.

(** ** The filter *)

Definition BUFSIZE : Z := 1024.

(** What [read] finds: the sequence of pieces that arrive.  A piece that does
    not fit is delivered in parts, an empty one is an end of file. *)
Definition read (cap : nat) (inp : list (list Z)) : list Z * list (list Z) :=
  match inp with
  | [] => ([], [])
  | c :: inp' => if (length c <=? cap)%nat then (c, inp') else (take cap c, drop cap c :: inp')
  end.

(** The inner loop, on the bytes from [p] to the end of the buffer: the lines
    written, and the bytes that are left. *)
Fixpoint scan_lines (pattern p : list Z) (left : nat) : list (list Z) * list Z :=
  match left with
  | O => ([], p)
  | S left' =>
      match strchr p NL with
      | None => ([], p)
      | Some (line, rest) =>
          let (out, p') := scan_lines pattern rest left' in
          (if match_ pattern line then (line ++ [NL]) :: out else out, p')
      end
  end.

(** The outer loop, with the first [m] bytes of the buffer; the result is the
    sequence of calls of [write]. *)
Fixpoint grep_loop (pattern buf : list Z) (inp : list (list Z)) (left : nat) : option (list (list Z)) :=
  match left with
  | O => None
  | S left' =>
      let (bs, inp') := read (Z.to_nat (BUFSIZE - Z.of_nat (length buf) - 1)) inp in
      match bs with
      | [] => Some []
      | _ =>
          let buf := buf ++ bs in
          let (out, buf') := scan_lines pattern buf (length buf) in
          match grep_loop pattern buf' inp' left' with
          | None => None
          | Some out' => Some (out ++ out')
          end
      end
  end.

Definition grep (pattern : list Z) (inp : list (list Z)) : option (list (list Z)) :=
  grep_loop pattern [] inp (S (length (concat inp))).

(** ** The language of a pattern *)

(** The characters an atom stands for. *)
Inductive atom := AnyChar | Char (c : Z).
Inductive item := One (a : atom) | Many (a : atom).

Definition atom_of (c : Z) : atom := if c =? DOT then AnyChar else Char c.
Definition sat (a : atom) (t : Z) : Prop := match a with AnyChar => True | Char c => t = c end.

(** The words of a sequence of items. *)
Inductive word : list item -> list Z -> Prop :=
| word_nil : word [] []
| word_one a r t w : sat a t -> word r w -> word (One a :: r) (t :: w)
| word_stop a r w : word r w -> word (Many a :: r) w
| word_more a r t w : sat a t -> word (Many a :: r) w -> word (Many a :: r) (t :: w).

(** The items of a pattern without its anchor at the start, and whether it is
    anchored at the end. *)
Fixpoint items (re : list Z) : list item * bool :=
  match re with
  | [] => ([], false)
  | c :: re1 =>
      match re1 with
      | s :: re2 =>
          if s =? STAR then let (r, e) := items re2 in (Many (atom_of c) :: r, e)
          else let (r, e) := items re1 in (One (atom_of c) :: r, e)
      | [] => if c =? DOLLAR then ([], true) else ([One (atom_of c)], false)
      end
  end.

(** The pattern matches at the start of the text. *)
Definition hits (re text : list Z) : Prop :=
  exists w post, text = w ++ post /\ word (fst (items re)) w /\ (snd (items re) = true -> post = []).

(** The pattern matches somewhere, at the start if it begins with a caret. *)
Definition occurs (re text : list Z) : Prop :=
  match re with
  | c :: re' => if c =? CARET then hits re' text else exists pre mid, text = pre ++ mid /\ hits re mid
  | [] => True
  end.

(** ** The matcher decides the language *)

Lemma sat_spec c t : sat (atom_of c) t <-> ((t =? c) || (c =? DOT)) = true.
Proof. unfold atom_of, sat. destruct (Z.eqb_spec c DOT); [rewrite orb_true_r; tauto|]. rewrite orb_false_r. lia. Qed.

Lemma matchstar_spec here c text :
  matchstar here c text = true <->
  exists w post, text = w ++ post /\ Forall (sat (atom_of c)) w /\ here post = true.
Proof.
  induction text as [|t text IH]; simpl; rewrite orb_true_iff.
  - split.
    + intros [H|H]; [|done]. by exists [], [].
    + intros (w & post & E & _ & H). symmetry in E. apply app_eq_nil in E as [_ ->]. by left.
  - rewrite andb_true_iff, <-sat_spec, IH. split.
    + intros [H|(Hs & w & post & -> & Hw & Hp)]; [by exists [], (t :: text)|].
      exists (t :: w), post. split_and!; [done|by constructor|done].
    + intros (w & post & E & Hw & Hp). destruct w as [|t' w]; [left; by rewrite E|]. right.
      injection E as <- ->. inversion_clear Hw. split; [done|]. by exists w, post.
Qed.

Lemma word_many a r w : word (Many a :: r) w <-> exists w1 w2, w = w1 ++ w2 /\ Forall (sat a) w1 /\ word r w2.
Proof.
  split.
  - intros H. remember (Many a :: r) as l eqn:El. revert a r El.
    induction H as [|a' r' t w Hs Hw IH|a' r' w Hw IH|a' r' t w Hs Hw IH]; intros a r [= -> ->] || intros a r [=].
    + exists [], w. by split_and!.
    + destruct (IH a r eq_refl) as (w1 & w2 & -> & H1 & H2). exists (t :: w1), w2. by split_and!; [|constructor|].
  - intros (w1 & w2 & -> & H1 & H2). induction H1 as [|t w1 Hs _ IH]; simpl; [by apply word_stop|by apply word_more].
Qed.

Lemma word_one_inv a r w : word (One a :: r) w <-> exists t w', w = t :: w' /\ sat a t /\ word r w'.
Proof.
  split.
  - inversion_clear 1. eauto.
  - intros (t & w' & -> & ? & ?). by constructor.
Qed.

Lemma hits_one c re text : word (fst (items (c :: re))) = word (One (atom_of c) :: fst (items re)) ->
  snd (items (c :: re)) = snd (items re) ->
  hits (c :: re) text <-> exists t text', text = t :: text' /\ sat (atom_of c) t /\ hits re text'.
Proof.
  intros H1 H2. unfold hits. rewrite H1, H2. split.
  - intros (w & post & -> & Hw & He). apply word_one_inv in Hw as (t & w' & -> & Hs & Hw). by eauto 10.
  - intros (t & text' & -> & Hs & w & post & -> & Hw & He). exists (t :: w), post.
    split_and!; [done|by constructor|done].
Qed.

Lemma one_test c text (b : list Z -> bool) :
  match text with t :: text' => ((c =? DOT) || (c =? t)) && b text' | [] => false end = true <->
  exists t text', text = t :: text' /\ sat (atom_of c) t /\ b text' = true.
Proof.
  destruct text as [|t text]; [split; [done|by intros (? & ? & ? & _)]|].
  rewrite andb_true_iff, orb_comm, (Z.eqb_sym c t), <-sat_spec. split; [by eauto 10|]. by intros (? & ? & [= <- <-] & ?).
Qed.

Lemma matchhere_spec re text : matchhere re text = true <-> hits re text.
Proof.
  revert text. induction re as [re IH] using (induction_ltof1 _ (@length Z)). unfold ltof in IH. intros text.
  destruct re as [|c [|s re]].
  - split; [|done]. intros _. exists [], text. split_and!; [done|constructor|done].
  - cbn [matchhere]. destruct (Z.eqb_spec c DOLLAR) as [->|Hc].
    + unfold hits. cbn [items]. rewrite Z.eqb_refl. cbn [fst snd]. split.
      * destruct text; [|done]. intros _. exists [], []. by split_and!; [|constructor|].
      * intros (w & post & -> & Hw & He). inversion Hw; subst. by rewrite He.
    + rewrite (one_test c text (fun _ => true)), hits_one; cbn [items]; rewrite ?(proj2 (Z.eqb_neq _ _) Hc); [|done..].
      split; intros (t & text' & -> & Hs & _); exists t, text'; split_and!; try done.
      exists [], text'. split_and!; [done|constructor|done].
  - cbn [matchhere]. destruct (Z.eqb_spec s STAR) as [->|Hs].
    + rewrite matchstar_spec. unfold hits. cbn [items]. rewrite Z.eqb_refl.
      pose proof (IH re) as IHr. unfold hits in IHr. destruct (items re) as [r e]. cbn [fst snd] in *. split.
      * intros (w & post & -> & Hw & Hp). apply IHr in Hp as (w2 & post' & -> & H2 & He); [|simpl; lia].
        exists (w ++ w2), post'. split_and!; [by rewrite app_assoc|apply word_many; eauto|done].
      * intros (w & post & -> & Hw & He). apply word_many in Hw as (w1 & w2 & -> & H1 & H2).
        exists w1, (w2 ++ post). split_and!; [by rewrite <-app_assoc|done|]. apply IHr; [simpl; lia|eauto].
    + rewrite (one_test c text (matchhere (s :: re))), hits_one.
      2, 3: cbn [items]; rewrite (proj2 (Z.eqb_neq _ _) Hs); by destruct (match re with [] => _ | _ => _ end).
      split; intros (t & text' & -> & Ha & H); exists t, text'; (split_and!; [done|done|]); apply IH; simpl; auto with lia.
Qed.

Lemma match_loop_spec re text : match_loop re text = true <-> exists pre mid, text = pre ++ mid /\ hits re mid.
Proof.
  induction text as [|t text IH]; simpl; rewrite orb_true_iff, matchhere_spec.
  - split; [intros [H|H]; [|done]; by exists [], []|]. intros (pre & mid & E & H). symmetry in E.
    apply app_eq_nil in E as [_ ->]. by left.
  - rewrite IH. split.
    + intros [H|(pre & mid & -> & H)]; [by exists [], (t :: text)|by exists (t :: pre), mid].
    + intros ([|t' pre] & mid & E & H); [left; by rewrite E|right]. injection E as <- ->. eauto.
Qed.

(** C37: the matcher decides the language of the pattern.  [match] accepts a
    line exactly when some part of the line, which starts at its beginning if
    the pattern begins with a caret and ends at its end if the pattern ends
    with a dollar sign, is a word of the pattern, where a dot stands for any
    character and a star for any number of the character before it. *)
Theorem match_correct (re text : list Z) : match_ re text = true <-> occurs re text.
Proof.
  destruct re as [|c re]; simpl.
  - split; [done|]. intros _. apply match_loop_spec. exists [], text. split; [done|]. by apply matchhere_spec.
  - destruct (c =? CARET); [apply matchhere_spec|apply match_loop_spec].
Qed.

(** ** The filter prints the lines that match *)

(** The complete lines of a text, and the rest. *)
Fixpoint split_lines (text : list Z) : list (list Z) * list Z :=
  match text with
  | [] => ([], [])
  | t :: text' =>
      let (ls, tl) := split_lines text' in
      if t =? NL then ([] :: ls, tl)
      else match ls with
           | [] => ([], t :: tl)
           | l :: ls' => ((t :: l) :: ls', tl)
           end
  end.
Definition lines (text : list Z) : list (list Z) := fst (split_lines text).

Definition matching (pattern : list Z) (ls : list (list Z)) : list (list Z) :=
  map (fun l => l ++ [NL]) (List.filter (match_ pattern) ls).

Abbreviation nonzero := (Forall (fun t => t <> 0)).

Lemma strchr_lines p : nonzero p ->
  match strchr p NL with
  | None => split_lines p = ([], p)
  | Some (l, r) => p = l ++ NL :: r /\ split_lines p = (l :: fst (split_lines r), snd (split_lines r))
  end.
Proof.
  induction 1 as [|t p Ht Hp IH]; [done|]. cbn [strchr split_lines]. rewrite (proj2 (Z.eqb_neq _ _) Ht).
  destruct (Z.eqb_spec t NL) as [->|Hn]; [by destruct (split_lines p)|].
  destruct (strchr p NL) as [[l r]|]; [destruct IH as [-> ->]|rewrite IH]; done.
Qed.

Lemma split_lines_app a b :
  split_lines (a ++ b) =
  (fst (split_lines a) ++ fst (split_lines (snd (split_lines a) ++ b)), snd (split_lines (snd (split_lines a) ++ b))).
Proof.
  induction a as [|t a IH]; simpl; [by destruct (split_lines b)|]. rewrite IH.
  destruct (split_lines a) as [ls tl]; cbn [fst snd]. destruct (Z.eqb_spec t NL) as [->|Hn]; [done|].
  destruct ls as [|l ls]; [|done]. cbn [fst snd app]. simpl. rewrite (proj2 (Z.eqb_neq _ _) Hn).
  by destruct (split_lines (tl ++ b)) as [[|l ls] tl'].
Qed.

Lemma scan_lines_spec pattern p left : nonzero p -> (length p <= left)%nat ->
  scan_lines pattern p left = (matching pattern (lines p), snd (split_lines p)).
Proof.
  unfold lines. revert p. induction left as [|left IH]; intros p Hp Hl; cbn [scan_lines].
  - by destruct p; [|simpl in Hl; lia].
  - pose proof (strchr_lines p Hp) as Hs. destruct (strchr p NL) as [[l r]|]; [|by rewrite Hs].
    destruct Hs as [-> ->]. apply Forall_app in Hp as [_ Hp]. apply Forall_cons in Hp as [_ Hp].
    rewrite IH; [|done|rewrite length_app in Hl; simpl in Hl; lia]. cbn [fst snd]. unfold matching. simpl.
    by destruct (match_ pattern l).
Qed.

(** What is left after the last complete line. *)
Lemma tail_lines p : split_lines (snd (split_lines p)) = ([], snd (split_lines p)).
Proof.
  induction p as [|t p IH]; [done|]. cbn [split_lines]. destruct (split_lines p) as [ls tl]. cbn [fst snd] in IH |- *.
  destruct (Z.eqb_spec t NL) as [->|Hn]; [done|]. destruct ls as [|l ls]; [|done]. cbn [snd split_lines].
  rewrite IH. by rewrite (proj2 (Z.eqb_neq _ _) Hn).
Qed.

Lemma no_lines p tl : split_lines p = ([], tl) -> tl = p.
Proof.
  revert tl. induction p as [|t p IH]; intros tl; cbn [split_lines]; [by intros [= <-]|].
  destruct (split_lines p) as [ls tl']. destruct (t =? NL); [done|]. destruct ls; [|done]. intros [= <-].
  by rewrite (IH tl').
Qed.

Lemma tail_suffix p : exists q, p = q ++ snd (split_lines p).
Proof.
  induction p as [|t p (q & IH)]; [by exists []|]. cbn [split_lines]. destruct (split_lines p) as [ls tl] eqn:Ep. cbn [snd] in IH.
  destruct (t =? NL); [exists (t :: q); simpl; by rewrite IH|].
  destruct ls as [|l ls]; [apply no_lines in Ep as ->; by exists []|exists (t :: q); simpl; by rewrite IH].
Qed.

(** The first line of a text that starts with an incomplete one. *)
Lemma first_line buf rest l ls : split_lines buf = ([], buf) -> lines (buf ++ rest) = l :: ls -> exists l', l = buf ++ l'.
Proof.
  unfold lines. revert l. induction buf as [|t buf IH]; intros l Hb E; [by exists l|].
  cbn [split_lines] in Hb. destruct (Z.eqb_spec t NL) as [->|Hn]; [by destruct (split_lines buf)|].
  destruct (split_lines buf) as [[|l1 ls1] tl] eqn:Eb; [|done]. injection Hb as ->.
  simpl in E. destruct (split_lines (buf ++ rest)) as [[|l2 ls2] tl2] eqn:Er; rewrite (proj2 (Z.eqb_neq _ _) Hn) in E; [done|].
  injection E as <- <-. destruct (IH l2 eq_refl) as (l' & ->); [done|]. by exists l'.
Qed.

Lemma read_spec cap inp : (0 < cap)%nat -> Forall (fun c => c <> []) inp ->
  let (bs, inp') := read cap inp in
  concat inp = bs ++ concat inp' /\ (length bs <= cap)%nat /\ (bs = [] -> inp = []) /\ Forall (fun c => c <> []) inp'.
Proof.
  intros Hc Hi. destruct inp as [|c inp]; simpl; [split_and!; [done|lia|done|done]|].
  apply Forall_cons in Hi as [Hn Hi]. destruct (Nat.leb_spec (length c) cap).
  - split_and!; [done|lia| |done]. intros ->. done.
  - split_and!; [simpl; by rewrite app_assoc, take_drop|rewrite length_take; lia| |].
    + intros E%(f_equal length). rewrite length_take in E. simpl in E. lia.
    + constructor; [|done]. intros E%(f_equal length). rewrite length_drop in E. simpl in E. lia.
Qed.

Lemma grep_loop_spec pattern left buf inp :
  (length (concat inp) < left)%nat -> split_lines buf = ([], buf) -> (length buf <= 1023)%nat ->
  nonzero (buf ++ concat inp) -> Forall (fun c => c <> []) inp ->
  Forall (fun l => (length l <= 1022)%nat) (lines (buf ++ concat inp)) ->
  grep_loop pattern buf inp left = Some (matching pattern (lines (buf ++ concat inp))).
Proof.
  revert buf inp. induction left as [|left IH]; intros buf inp Hl Hb Hlen Hz Hi Hls; [lia|]. cbn [grep_loop].
  set (cap := Z.to_nat _). destruct (decide (cap = 0%nat)) as [E0|Hcap].
  - rewrite E0. assert (Hbl : length buf = 1023%nat) by (unfold cap, BUFSIZE in E0; lia).
    assert (Hr : fst (read 0 inp) = []).
    { destruct inp as [|[|x c] inp]; [done|by apply Forall_cons in Hi as [[] _]|done]. }
    destruct (read 0 inp) as [bs inp']. simpl in Hr. subst bs.
    destruct (lines (buf ++ concat inp)) as [|l ls] eqn:El; [done|]. exfalso.
    destruct (first_line buf (concat inp) l ls Hb El) as (l' & ->). apply Forall_cons in Hls as [Hls _].
    rewrite length_app in Hls. lia.
  - pose proof (read_spec cap inp ltac:(lia) Hi) as Hr. destruct (read cap inp) as [bs inp'].
    destruct Hr as (Ec & Hbs & Hnil & Hi'). destruct bs as [|b bs].
    { rewrite (Hnil eq_refl). simpl. rewrite app_nil_r. unfold lines. by rewrite Hb. }
    rewrite Ec, app_assoc in Hz, Hls |- *. set (buf1 := buf ++ b :: bs) in *.
    assert (Hz1 : nonzero buf1) by (by apply Forall_app in Hz as [? _]).
    rewrite scan_lines_spec by done. unfold lines in Hls |- *. rewrite split_lines_app in Hls |- *. cbn [fst] in Hls |- *.
    apply Forall_app in Hls as [_ Hls]. destruct (tail_suffix buf1) as (q & Eq).
    rewrite IH.
    + unfold matching, lines. rewrite List.filter_app, map_app. done.
    + rewrite Ec in Hl. simpl in Hl. rewrite length_app in Hl. lia.
    + apply tail_lines.
    + pose proof (f_equal length Eq) as El. unfold buf1, cap, BUFSIZE in *. rewrite !length_app in El. simpl in *. lia.
    + rewrite Eq, <-app_assoc in Hz. by apply Forall_app in Hz as [_ ?].
    + done.
    + done.
Qed.

(** The filter.  However the input arrives in pieces, [grep] ends and has
    written exactly the complete lines of the input that the pattern matches,
    in their order, if the input has no 0 byte and no line is longer than the
    buffer can hold. *)
Theorem grep_correct (pattern : list Z) (inp : list (list Z)) :
  nonzero (concat inp) -> Forall (fun c => c <> []) inp ->
  Forall (fun l => (length l <= 1022)%nat) (lines (concat inp)) ->
  grep pattern inp = Some (matching pattern (lines (concat inp))).
Proof. intros Hz Hi Hl. apply (grep_loop_spec pattern _ [] inp); (done || simpl; lia). Qed.

(** Two lines that arrive in three pieces, the second of which matches a.*c *)
Lemma grep_correct_witness :
  grep [97; DOT; STAR; 99] [[98; 99]; [NL; 97]; [120; 99; NL; 97; 99]] = Some [[97; 120; 99; NL]].
Proof.
  rewrite grep_correct.
  - vm_compute. reflexivity.
  - simpl. repeat (apply List.Forall_cons; [unfold NL; lia|]). apply List.Forall_nil.
  - repeat (apply List.Forall_cons; [discriminate|]). apply List.Forall_nil.
  - vm_compute. repeat (apply List.Forall_cons; [unfold NL; lia|]). apply List.Forall_nil.
Defined.

(** A line longer than the buffer ends the search: the lines behind it are
    not looked at. *)
Lemma grep_long_line (pattern buf rest : list Z) :
  nonzero buf -> split_lines buf = ([], buf) -> length buf = 1023%nat -> grep pattern [buf ++ rest] = Some [].
Proof.
  intros Hz Hb Hl. unfold grep. cbn [grep_loop]. change (Z.to_nat _) with 1023%nat at 1.
  assert (Hr : read 1023 [buf ++ rest] = (buf, if (length rest =? 0)%nat then [] else [rest])).
  { unfold read. rewrite length_app, Hl. destruct (Nat.leb_spec (1023 + length rest) 1023).
    - destruct rest; [|simpl in *; lia]. by rewrite app_nil_r.
    - rewrite take_app_length', drop_app_length' by done. destruct rest; [simpl in *; lia|done]. }
  rewrite Hr. destruct buf as [|b buf]; [done|]. rewrite app_nil_l. set (w := b :: buf) in *.
  rewrite scan_lines_spec by done. unfold lines. rewrite Hb. cbn [fst snd matching].
  assert (Hf : exists f, length (concat [w ++ rest]) = S f) by (simpl; eauto). destruct Hf as [f ->]. cbn [grep_loop].
  rewrite Hl. change (Z.to_nat _) with 0%nat.
  by destruct rest.
Qed.
