(* ===== verification/Uart.v ===== *)
(** * kernel/uart.c: the serial port

    The transmit ring of the driver, over the registers of the device.  The
    device and the processes that wait for it are the environment; what its
    status register reads is up to the device.  [uart_tx_lock] makes
    [uartputc], up to a sleep, and the calls of [uartstart] atomic. *)

From S2P Require Import Prelude.

(** The registers, and the bits of two of them. *)
Definition RHR : Z := 0.
Definition THR : Z := 0.
Definition IER : Z := 1.
Definition IER_RX_ENABLE : Z := Z.shiftl 1 0.
Definition IER_TX_ENABLE : Z := Z.shiftl 1 1.
Definition FCR : Z := 2.
Definition FCR_FIFO_ENABLE : Z := Z.shiftl 1 0.
Definition FCR_FIFO_CLEAR : Z := Z.shiftl 3 1.
Definition ISR : Z := 2.
Definition LCR : Z := 3.
Definition LCR_EIGHT_BITS : Z := Z.shiftl 3 0.
Definition LCR_BAUD_LATCH : Z := Z.shiftl 1 7.
Definition LSR : Z := 5.
Definition LSR_RX_READY : Z := Z.shiftl 1 0.
Definition LSR_TX_IDLE : Z := Z.shiftl 1 5.
Definition UART_TX_BUF_SIZE : Z := 32.

(** uart_tx_buf, uart_tx_w and uart_tx_r. *)
Record uart := Uart {
  tx_buf : Z -> Z;
  tx_w : Z;
  tx_r : Z;
}.

(** ReadReg and WriteReg of the device, wakeup(&uart_tx_r), and the flag
    panicked. *)
Class UartEnv (S : Type) := {
  read_reg : Z -> M S Z;
  write_reg : Z -> Z -> M S unit;
  tx_wakeup : M S unit;
  panicked : M S bool;
}.

Section uart.
Context {S : Type} `{UE : UartEnv S}.
Abbreviation US := (uart * S)%type.

Definition dev {A} (m : M S A) : M US A := zoom snd (fun s x => (fst x, s)) m.
Definition getu : M US uart := gets fst.
Definition modu (f : uart -> uart) : M US unit := modify (fun x => (f (fst x), snd x)).

Definition uartinit : M US unit :=
  for_each [(IER, 0); (LCR, LCR_BAUD_LATCH); (0, 3); (1, 0); (LCR, LCR_EIGHT_BITS);
            (FCR, Z.lor FCR_FIFO_ENABLE FCR_FIFO_CLEAR); (IER, Z.lor IER_TX_ENABLE IER_RX_ENABLE)]
    (fun rv => dev (write_reg (fst rv) (snd rv))).

Definition tx_idle (lsr : Z) : bool := negb (Z.land lsr LSR_TX_IDLE =? 0).
Definition tx_empty (u : uart) : bool := tx_w u =? tx_r u.
Definition tx_full (u : uart) : bool := tx_w u =? u64 (tx_r u + UART_TX_BUF_SIZE).

(** [uart_tx_buf[uart_tx_w % UART_TX_BUF_SIZE] = c; uart_tx_w += 1] *)
Definition tx_push (c : Z) (u : uart) : uart :=
  Uart (upd (tx_buf u) (tx_w u mod UART_TX_BUF_SIZE) (u8 c)) (u64 (tx_w u + 1)) (tx_r u).
(** [uart_tx_r += 1] *)
Definition tx_pop (u : uart) : uart := Uart (tx_buf u) (tx_w u) (u64 (tx_r u + 1)).

(** The loop of [uartstart]: each turn sends a byte of the ring. *)
Fixpoint uartstart_loop (left : nat) : M US unit :=
  let! u := getu in
  if tx_empty u then let! _ := dev (read_reg ISR) in ret tt
  else
    match left with
    | O => out_of_fuel
    | Datatypes.S left' =>
        let! lsr := dev (read_reg LSR) in
        if negb (tx_idle lsr) then ret tt
        else
          modu tx_pop ;;
          dev tx_wakeup ;;
          dev (write_reg THR (tx_buf u (tx_r u mod UART_TX_BUF_SIZE))) ;;
          uartstart_loop left'
    end.
Definition uartstart : M US unit := uartstart_loop (Z.to_nat UART_TX_BUF_SIZE).

(** The loop of [uartputc] and what follows it; the result says whether the
    call is done or sleeps until there is room, to start here again. *)
Definition putc_loop (c : Z) : M US bool :=
  let! u := getu in
  if tx_full u then ret false
  else modu (tx_push c) ;; uartstart ;; ret true.
(** After a panic it spins. *)
Definition uartputc (c : Z) : M US bool :=
  let! p := dev panicked in
  if p then blocked else putc_loop c.

(** [uartputc_sync] reads the status at most [spin] times. *)
Fixpoint wait_idle (spin : nat) : M US unit :=
  let! lsr := dev (read_reg LSR) in
  if tx_idle lsr then ret tt
  else match spin with O => out_of_fuel | Datatypes.S spin' => wait_idle spin' end.
Definition uartputc_sync (spin : nat) (c : Z) : M US unit :=
  let! p := dev panicked in
  if p then blocked else wait_idle spin ;; dev (write_reg THR (u8 c)).

Definition uartgetc : M US Z :=
  let! lsr := dev (read_reg LSR) in
  if negb (Z.land lsr LSR_RX_READY =? 0) then dev (read_reg RHR) else ret (-1).

(** The loop of [uartintr] over at most [left] characters that wait, with
    [consoleintr] of console.c. *)
Fixpoint receive_loop (consoleintr : Z -> M US unit) (left : nat) : M US unit :=
  match left with
  | O => out_of_fuel
  | Datatypes.S left' =>
      let! c := uartgetc in
      if c =? -1 then ret tt else consoleintr c ;; receive_loop consoleintr left'
  end.
Definition uartintr (consoleintr : Z -> M US unit) (left : nat) : M US unit :=
  receive_loop consoleintr left ;; uartstart.
End uart.

(** ** The ring as a queue *)

Record tx_holds (u : uart) (q : list Z) : Prop := {
  th_len : Z.of_nat (length q) <= UART_TX_BUF_SIZE;
  th_r : 0 <= tx_r u < 2 ^ 64;
  th_w : tx_w u = u64 (tx_r u + Z.of_nat (length q));
  th_data : forall k c, q !! k = Some c -> tx_buf u ((tx_r u + Z.of_nat k) mod UART_TX_BUF_SIZE) = c;
}.

Lemma u64_mod_tx x : u64 x mod UART_TX_BUF_SIZE = x mod UART_TX_BUF_SIZE.
Proof. unfold u64, UART_TX_BUF_SIZE. lia. Qed.

Lemma holds_tx_empty u q : tx_holds u q -> tx_empty u = true <-> q = [].
Proof.
  intros [H1 H2 H3 _]. unfold tx_empty. rewrite H3, Z.eqb_eq. unfold UART_TX_BUF_SIZE, u64 in *. split.
  - intros E. destruct q as [|c q]; [done|]. simpl in *. lia.
  - intros ->. simpl. rewrite Z.add_0_r, Z.mod_small by lia. done.
Qed.

Lemma holds_tx_full u q : tx_holds u q -> tx_full u = true <-> Z.of_nat (length q) = UART_TX_BUF_SIZE.
Proof. intros [H1 H2 H3 _]. unfold tx_full. rewrite H3, Z.eqb_eq. unfold UART_TX_BUF_SIZE, u64 in *. lia. Qed.

Lemma holds_tx_push c u q : tx_holds u q -> tx_full u = false -> tx_holds (tx_push c u) (q ++ [u8 c]).
Proof.
  intros Hh Hf. assert (Hl : Z.of_nat (length q) <> UART_TX_BUF_SIZE).
  { intros E. by rewrite (proj2 (holds_tx_full u q Hh) E) in Hf. }
  destruct Hh as [H1 H2 H3 H4]. split; simpl; rewrite ?length_app; simpl.
  - lia.
  - done.
  - rewrite H3. unfold u64. lia.
  - intros k x Hk. rewrite H3, u64_mod_tx. apply lookup_app_Some in Hk as [Hk|[Hge Hk]].
    + rewrite upd_other; [by apply H4|]. apply lookup_lt_Some in Hk. unfold UART_TX_BUF_SIZE in *. lia.
    + apply list_lookup_singleton_Some in Hk as [E ->].
      replace (Z.of_nat k) with (Z.of_nat (length q)) by lia. apply upd_same.
Qed.

Lemma holds_tx_pop u c q : tx_holds u (c :: q) ->
  tx_buf u (tx_r u mod UART_TX_BUF_SIZE) = c /\ tx_holds (tx_pop u) q.
Proof.
  intros [H1 H2 H3 H4]. simpl in H1. split.
  - rewrite <-(H4 0%nat c) by done. by rewrite Z.add_0_r.
  - split; simpl.
    + lia.
    + apply u64_range.
    + rewrite H3. simpl. unfold u64. lia.
    + intros k x Hk. rewrite <-(H4 (Datatypes.S k) x) by done. f_equal. unfold u64, UART_TX_BUF_SIZE. lia.
Qed.

(** ** What the port sends *)

(** What the driver relies on: a register can be read and written, and [sent]
    is the bytes written to THR.  What the reads return is left open. *)
Class UartEnvOk (S : Type) {UE : UartEnv S} := {
  sent : S -> list Z;
  woken : S -> bool;
  read_reg_ok : forall r s, wp (read_reg r) (fun _ s' => sent s' = sent s /\ woken s' = woken s) s;
  write_thr_ok : forall c s, wp (write_reg THR c) (fun _ s' => sent s' = sent s ++ [c] /\ woken s' = woken s) s;
  tx_wakeup_ok : forall s, wp tx_wakeup (fun _ s' => sent s' = sent s /\ woken s' = true) s;
  panicked_ok : forall s, wp panicked (fun _ s' => sent s' = sent s /\ woken s' = woken s) s;
}.

(** [merged a b c]: the list [c] is made of [a] and [b], each in order. *)
Inductive merged : list Z -> list Z -> list Z -> Prop :=
| merged_nil : merged [] [] []
| merged_left a b c x : merged a b c -> merged (a ++ [x]) b (c ++ [x])
| merged_right a b c x : merged a b c -> merged a (b ++ [x]) (c ++ [x]).

Lemma merged_app_left d a b c : merged a b c -> merged (a ++ d) b (c ++ d).
Proof.
  intros Hm. induction d as [|x d IH] using rev_ind; [by rewrite !app_nil_r|].
  rewrite !app_assoc. by apply merged_left.
Qed.

Section sends.
Context {S : Type} {UE : UartEnv S} {UO : UartEnvOk S}.
Implicit Types (u : uart) (s : S).

Lemma wp_dev {A} (m : M S A) (Q : A -> uart * S -> Prop) u s :
  wp m (fun a s' => Q a (u, s')) s -> wp (dev m) Q (u, s).
Proof. apply (wp_zoom snd (fun s x => (fst x, s)) m Q (u, s)). Qed.

(** [uartstart] sends a prefix of the queue, and wakes up whoever waits for
    room when it sends anything. *)
Lemma uartstart_loop_spec left u s q : tx_holds u q -> (length q <= left)%nat ->
  wp (uartstart_loop left) (fun _ x => exists out rest, q = out ++ rest /\ tx_holds (fst x) rest /\
    sent (snd x) = sent s ++ out /\ (woken s = true \/ out <> [] -> woken (snd x) = true)) (u, s).
Proof using UO.
  revert u s q. induction left as [|left IH]; intros u s q Hh Hl; simpl.
  all: apply wp_bind, wp_gets; simpl; destruct (tx_empty u) eqn:Ee.
  1, 3: apply wp_bind, wp_dev; eapply wp_mono; [apply read_reg_ok|]; intros ? s' [E1 E2];
    apply wp_ret; exists [], q; simpl; rewrite E1, E2, app_nil_r; split_and!; try done; by intros [?|?].
  - destruct q as [|c q]; [|simpl in Hl; lia]. by rewrite (proj2 (holds_tx_empty u [] Hh)) in Ee.
  - destruct q as [|c q]; [by rewrite (proj2 (holds_tx_empty u [] Hh)) in Ee|].
    apply wp_bind, wp_dev. eapply wp_mono; [apply read_reg_ok|]. intros lsr s1 [E1 E2].
    destruct (tx_idle lsr); simpl.
    2: { apply wp_ret. exists [], (c :: q). simpl. rewrite E1, E2, app_nil_r. split_and!; try done. by intros [?|?]. }
    destruct (holds_tx_pop u c q Hh) as [Hc Hp]. apply wp_bind, wp_modify. simpl. rewrite Hc.
    apply wp_bind, wp_dev. eapply wp_mono; [apply tx_wakeup_ok|]. intros [] s2 [E3 E4].
    apply wp_bind, wp_dev. eapply wp_mono; [apply write_thr_ok|]. intros [] s3 [E5 E6].
    eapply wp_mono; [apply (IH (tx_pop u) s3 q Hp); simpl in Hl; lia|].
    intros [] x (out & rest & -> & H1 & H2 & H3). exists (c :: out), rest. split_and!; try done.
    + by rewrite H2, E5, E3, E1, <-app_assoc.
    + intros _. apply H3. left. congruence.
Qed.

Lemma uartstart_spec u s q : tx_holds u q ->
  wp uartstart (fun _ x => exists out rest, q = out ++ rest /\ tx_holds (fst x) rest /\
    sent (snd x) = sent s ++ out /\ (woken s = true \/ out <> [] -> woken (snd x) = true)) (u, s).
Proof using UO.
  intros Hh. apply uartstart_loop_spec; [done|]. destruct Hh. unfold UART_TX_BUF_SIZE in *. lia.
Qed.

Lemma putc_loop_spec c u s q : tx_holds u q ->
  wp (putc_loop c) (fun b x =>
    (b = false /\ x = (u, s) /\ Z.of_nat (length q) = UART_TX_BUF_SIZE) \/
    (b = true /\ exists out rest, q ++ [u8 c] = out ++ rest /\ tx_holds (fst x) rest /\
      sent (snd x) = sent s ++ out)) (u, s).
Proof using UO.
  intros Hh. unfold putc_loop. apply wp_bind, wp_gets. simpl. destruct (tx_full u) eqn:Ef.
  - apply wp_ret. left. split_and!; [done..|]. by apply (holds_tx_full u).
  - apply wp_bind, wp_modify, wp_bind. simpl.
    eapply wp_mono; [apply uartstart_spec, (holds_tx_push c u q Hh Ef)|].
    intros [] x (out & rest & H1 & H2 & H3 & _). apply wp_ret. right. split; [done|]. by exists out, rest.
Qed.

(** Any sequence of calls of the driver; between them the rest of the machine
    can do anything but write to THR.  [acc] is the bytes that [uartputc] has
    accepted, [ech] those of [uartputc_sync]. *)
Inductive uart_run : uart * S -> list Z -> list Z -> Prop :=
| ur_init s b : sent s = [] -> uart_run (Uart b 0 0, s) [] []
| ur_putc c d x acc ech x' : uart_run x acc ech -> uartputc c x = Ret (d, x') ->
    uart_run x' (if d then acc ++ [u8 c] else acc) ech
| ur_resume c d x acc ech x' : uart_run x acc ech -> putc_loop c x = Ret (d, x') ->
    uart_run x' (if d then acc ++ [u8 c] else acc) ech
| ur_sync spin c x acc ech x' : uart_run x acc ech -> uartputc_sync spin c x = Ret (tt, x') ->
    uart_run x' acc (ech ++ [u8 c])
| ur_start x acc ech x' : uart_run x acc ech -> uartstart x = Ret (tt, x') -> uart_run x' acc ech
| ur_other u s s' acc ech : uart_run (u, s) acc ech -> sent s' = sent s -> uart_run (u, s') acc ech.

Definition uart_inv (x : uart * S) (acc ech : list Z) : Prop :=
  exists out q, acc = out ++ q /\ tx_holds (fst x) q /\ merged out ech (sent (snd x)).

Lemma putc_inv c d x x' acc ech : uart_inv x acc ech -> putc_loop c x = Ret (d, x') ->
  uart_inv x' (if d then acc ++ [u8 c] else acc) ech.
Proof using UO.
  destruct x as [u s]. intros (out & q & -> & Hh & Hm) E.
  pose proof (wp_wlp _ _ _ (putc_loop_spec c u s q Hh) d x' E) as [(-> & -> & _)|(-> & o & r & E1 & H2 & E3)].
  - by exists out, q.
  - exists (out ++ o), r. rewrite <-!app_assoc, E1. split_and!; try done. rewrite E3. by apply merged_app_left.
Qed.

(** Running the environment does not touch the ring. *)
Lemma dev_inv {A} (m : M S A) (P : S -> S -> Prop) x a x' :
  (forall s, wlp m (fun _ s' => P s s') s) -> dev m x = Ret (a, x') -> fst x' = fst x /\ P (snd x) (snd x').
Proof.
  intros Hm. unfold dev, zoom. destruct (m (snd x)) as [[a1 t]| | |] eqn:E; try done. intros [= <- <-].
  split; [done|]. exact (Hm _ _ _ E).
Qed.

Lemma wait_idle_inv spin x x' : wait_idle spin x = Ret (tt, x') -> fst x' = fst x /\ sent (snd x') = sent (snd x).
Proof using UO.
  revert x. induction spin as [|spin IH]; intros x; simpl; unfold bind.
  all: destruct (dev (read_reg LSR) x) as [[lsr x1]| | |] eqn:E; try done.
  all: apply (dev_inv _ (fun s s' => sent s' = sent s)) in E as [E1 E2];
    [|intros s; eapply wlp_mono; [apply wp_wlp, read_reg_ok|]; by intros ? ? [? _]].
  all: destruct (tx_idle lsr); try done.
  1, 2: intros [= <-]; done.
  intros E. apply IH in E as [E3 E4]. by rewrite E3, E4.
Qed.

Lemma sync_inv spin c x x' acc ech : uart_inv x acc ech -> uartputc_sync spin c x = Ret (tt, x') ->
  uart_inv x' acc (ech ++ [u8 c]).
Proof using UO.
  intros (out & q & -> & Hh & Hm). unfold uartputc_sync, bind.
  destruct (dev panicked x) as [[p x1]| | |] eqn:E; try done.
  apply (dev_inv _ (fun s s' => sent s' = sent s)) in E as [E1 E2];
    [|intros s; eapply wlp_mono; [apply wp_wlp, panicked_ok|]; by intros ? ? [? _]].
  destruct p; [done|]. destruct (wait_idle spin x1) as [[[] x2]| | |] eqn:E; try done.
  apply wait_idle_inv in E as [E3 E4]. intros E.
  apply (dev_inv _ (fun s s' => sent s' = sent s ++ [u8 c])) in E as [E5 E6];
    [|intros s; eapply wlp_mono; [apply wp_wlp, write_thr_ok|]; by intros ? ? [? _]].
  exists out, q. split_and!; [done|by rewrite E5, E3, E1|]. rewrite E6, E4, E2. by apply merged_right.
Qed.

Lemma uart_run_inv x acc ech : uart_run x acc ech -> uart_inv x acc ech.
Proof using UO.
  induction 1 as [s b Hs|c d x acc ech x' _ IH E|c d x acc ech x' _ IH E|spin c x acc ech x' _ IH E
    |[u s] acc ech x' _ (out & q & -> & Hh & Hm) E|u s s' acc ech _ (out & q & -> & Hh & Hm) E].
  - exists [], []. simpl. rewrite Hs. split_and!; [done|by split|apply merged_nil].
  - revert E. unfold uartputc, bind. destruct (dev panicked x) as [[p x1]| | |] eqn:Ep; try done.
    destruct p; [done|]. intros E.
    apply (dev_inv _ (fun s s' => sent s' = sent s)) in Ep as [E1 E2];
      [|intros s; eapply wlp_mono; [apply wp_wlp, panicked_ok|]; by intros ? ? [? _]].
    apply (putc_inv c d x1); [|done]. destruct IH as (out & q & -> & Hh & Hm). exists out, q. by rewrite E1, E2.
  - by apply (putc_inv c d x).
  - by apply (sync_inv spin c x).
  - pose proof (wp_wlp _ _ _ (uartstart_spec u s q Hh) tt x' E) as (o & r & -> & H2 & H3 & _).
    exists (out ++ o), r. rewrite <-app_assoc. split_and!; try done. rewrite H3. by apply merged_app_left.
  - exists out, q. simpl. by rewrite E.
Qed.

(** C39: in every run of the driver the port has sent the bytes of [uartputc],
    in order, up to those still in the ring, merged with the bytes of
    [uartputc_sync]; and [uartstart] always returns, having sent a prefix of
    the ring and woken up the processes that wait for room if it sent
    anything. *)
Theorem uart_sends (x : uart * S) (acc ech : list Z) :
  uart_run x acc ech ->
  exists out q, acc = out ++ q /\ Z.of_nat (length q) <= UART_TX_BUF_SIZE /\ merged out ech (sent (snd x)) /\
    wp uartstart (fun _ x' => exists o rest, q = o ++ rest /\ sent (snd x') = sent (snd x) ++ o /\
      (o <> [] -> woken (snd x') = true)) x.
Proof using UO.
  intros Hr. apply uart_run_inv in Hr as (out & q & -> & Hh & Hm). exists out, q. split_and!; try done; [apply Hh|].
  destruct x as [u s]. eapply wp_mono; [by apply uartstart_spec|]. intros [] x' (o & r & E1 & _ & E3 & E4).
  exists o, r. split_and!; try done. intros Ho. apply E4. by right.
Qed.
End sends.

(** A port that takes one byte and is busy until it is told that it is idle
    again: idle, bytes sent, woken. *)
Record port := Port { idle : bool; out : list Z; wk : bool }.
#[export] Instance port_env : UartEnv port := {|
  read_reg r := gets (fun p => if (r =? LSR) && idle p then LSR_TX_IDLE else 0);
  write_reg r c := modify (fun p => if r =? THR then Port false (out p ++ [c]) (wk p) else p);
  tx_wakeup := modify (fun p => Port (idle p) (out p) true);
  panicked := ret false;
|}.
#[export, refine] Instance port_ok : UartEnvOk port := {| sent := out; woken := wk |}.
Proof. all: done. Defined.

(** Three calls: the first byte goes out, the second waits, the third is
    echoed once the port is idle. *)
Lemma uart_sends_witness : exists x, uart_run x [97; 98] [99] /\ out (snd x) = [97; 99] /\
  exists o q, [97; 98] = o ++ q /\ merged o [99] (out (snd x)).
Proof.
  set (after := fun A (m : M (uart * port) A) x => match m x with Ret (_, y) => y | _ => x end).
  set (x0 := (Uart (fun _ => 0) 0 0, Port true [] false)).
  set (x1 := after _ (uartputc 97) x0). set (x2 := after _ (uartputc 98) x1).
  set (x3 := (fst x2, Port true [97] true)). set (x4 := after _ (uartputc_sync 0 99) x3).
  assert (H1 : uart_run x1 [97] []).
  { apply (ur_putc 97 true x0 [] [] x1); [apply ur_init; reflexivity|vm_compute; reflexivity]. }
  assert (H2 : uart_run x2 [97; 98] []).
  { apply (ur_putc 98 true x1 [97] [] x2); [exact H1|vm_compute; reflexivity]. }
  assert (H3 : uart_run x3 [97; 98] []).
  { apply (ur_other (fst x2) (snd x2)); [rewrite <-surjective_pairing; exact H2|vm_compute; reflexivity]. }
  assert (H4 : uart_run x4 [97; 98] [99]).
  { apply (ur_sync 0 99 x3 [97; 98] [] x4); [exact H3|vm_compute; reflexivity]. }
  exists x4. split; [exact H4|]. split; [vm_compute; reflexivity|].
  destruct (uart_sends x4 [97; 98] [99] H4) as (o & q & E & _ & E' & _). exists o, q. split; [exact E|exact E'].
Defined.
