(* ===== verification/Console.v ===== *)
(** * kernel/console.c: the console

    The line discipline of the console over the serial port.  [cons.lock]
    makes [consoleintr] atomic, and [consoleread] up to a sleep; a caller that
    wakes up goes on with a new segment.  Both callers of the device switch
    pass user addresses, which the copies here stand for. *)

From S2P Require Import Prelude Pipe Uart.

Definition BACKSPACE : Z := 256.
Definition CTRL (x : Z) : Z := x - 64.
Definition C_D : Z := CTRL 68.
Definition C_H : Z := CTRL 72.
Definition C_P : Z := CTRL 80.
Definition C_U : Z := CTRL 85.
Definition DEL : Z := 127.
Definition CR : Z := 13.
Definition NL : Z := 10.
Definition INPUT_BUF_SIZE : Z := 128.

(** struct cons. *)
Record cons := Cons {
  c_buf : Z -> Z;
  c_r : Z;
  c_w : Z;
  c_e : Z;
}.
Definition set_c_r (r : Z) (c : cons) : cons := Cons (c_buf c) r (c_w c) (c_e c).
Definition set_c_e (e : Z) (c : cons) : cons := Cons (c_buf c) (c_r c) (c_w c) e.

(** wakeup(&cons.r) and procdump(). *)
Class ConsEnv (S : Type) := {
  cons_wakeup : M S unit;
  procdump1 : M S unit;
}.

Section console.
Context {S : Type} `{PE : PipeEnv S} `{UE : UartEnv S} `{CE : ConsEnv S}.
Abbreviation CS := (cons * (uart * S))%type.

(** The serial port is given [spin] readings of its status to become idle. *)
Variable spin : nat.

Definition serial {A} (m : M (uart * S) A) : M CS A := zoom snd (fun s x => (fst x, s)) m.
Definition getc : M CS cons := gets fst.
Definition modc (f : cons -> cons) : M CS unit := modify (fun x => (f (fst x), snd x)).

Definition consputc (c : Z) : M CS unit :=
  if c =? BACKSPACE then
    serial (uartputc_sync spin 8) ;; serial (uartputc_sync spin 32) ;; serial (uartputc_sync spin 8)
  else serial (uartputc_sync spin c).

Definition at_w (c : cons) : bool := c_e c =? c_w c.
(** [cons.buf[(cons.e-1) % INPUT_BUF_SIZE]] *)
Definition last_char (c : cons) : Z := c_buf c (u32 (c_e c - 1) mod INPUT_BUF_SIZE).
Definition erase (c : cons) : cons := set_c_e (u32 (c_e c - 1)) c.
(** [cons.buf[cons.e++ % INPUT_BUF_SIZE] = c] *)
Definition store_char (ch : Z) (c : cons) : cons :=
  Cons (upd (c_buf c) (c_e c mod INPUT_BUF_SIZE) (u8 ch)) (c_r c) (c_w c) (u32 (c_e c + 1)).
(** [cons.w = cons.e] *)
Definition commit_line (c : cons) : cons := Cons (c_buf c) (c_r c) (c_e c) (c_e c).

(** The loop of Control-U over at most [left] characters. *)
Fixpoint kill_line (left : nat) : M CS unit :=
  let! c := getc in
  if at_w c || (last_char c =? NL) then ret tt
  else
    match left with
    | O => out_of_fuel
    | Datatypes.S left' => modc erase ;; consputc BACKSPACE ;; kill_line left'
    end.

Definition consoleintr (c : Z) : M CS unit :=
  if c =? C_P then serial (dev procdump1)
  else if c =? C_U then kill_line (Z.to_nat INPUT_BUF_SIZE)
  else if (c =? C_H) || (c =? DEL) then
    let! s := getc in
    if at_w s then ret tt else modc erase ;; consputc BACKSPACE
  else
    let! s := getc in
    if negb (c =? 0) && (u32 (c_e s - c_r s) <? INPUT_BUF_SIZE) then
      let ch := if c =? CR then NL else c in
      consputc ch ;;
      modc (store_char ch) ;;
      let! s := getc in
      if (ch =? NL) || (ch =? C_D) || (u32 (c_e s - c_r s) =? INPUT_BUF_SIZE) then
        modc commit_line ;; serial (dev cons_wakeup)
      else ret tt
    else ret tt.

(** How a segment of [consoleread] ends: a return value, or asleep with [n]
    bytes still wanted at [dst]. *)
Inductive cend := CRet (r : Z) | CSleep (dst n : Z).

(** The loop of [consoleread], from the test of its condition. *)
Fixpoint read_chars (target dst n : Z) (left : nat) : M CS cend :=
  if negb (0 <? n) then ret (CRet (i32 (target - n)))
  else
    match left with
    | O => out_of_fuel
    | Datatypes.S left' =>
        let! s := getc in
        if c_r s =? c_w s then
          let! k := serial (dev killed1) in
          if k then ret (CRet (-1)) else ret (CSleep dst n)
        else
          let c := c_buf s (c_r s mod INPUT_BUF_SIZE) in
          modc (set_c_r (u32 (c_r s + 1))) ;;
          if c =? C_D then
            (when! u32 n <? target do modc (fun s => set_c_r (u32 (c_r s - 1)) s)) ;;
            ret (CRet (i32 (target - n)))
          else
            let! ok := serial (dev (copyout1 dst c)) in
            if negb ok then ret (CRet (i32 (target - n)))
            else if c =? NL then ret (CRet (i32 (target - (n - 1))))
            else read_chars target (u64 (dst + 1)) (n - 1) left'
    end.

(** A segment: the first one of a call has [n = target]. *)
Definition consoleread (target dst n : Z) : M CS cend := read_chars target dst n (Z.to_nat n).

(** [consolewrite] from index [i]; [pending] is the byte with which the call
    fell asleep in [uartputc]. *)
Inductive cwend := CWRet (i : Z) | CWSleep (i c : Z).
Fixpoint write_chars (src n i : Z) (left : nat) : M CS cwend :=
  if negb (i <? n) then ret (CWRet i)
  else
    match left with
    | O => out_of_fuel
    | Datatypes.S left' =>
        let! c := serial (dev (copyin1 (u64 (src + i)))) in
        match c with
        | None => ret (CWRet i)
        | Some c =>
            let! d := serial (uartputc c) in
            if d then write_chars src n (i + 1) left' else ret (CWSleep i c)
        end
    end.
Definition consolewrite (src n i : Z) (pending : option Z) : M CS cwend :=
  match pending with
  | None => write_chars src n i (Z.to_nat (n - i))
  | Some c =>
      let! d := serial (putc_loop c) in
      if d then write_chars src n (i + 1) (Z.to_nat (n - (i + 1))) else ret (CWSleep i c)
  end.

(** What the device switch entry of the console is connected to is in the
    file layer; the rest of [consoleinit] sets up the port. *)
Definition consoleinit : M CS unit := serial uartinit.
End console.

(** ** The line discipline as two lists: the characters that a read can take,
    and the line that is being edited *)

Record ldisc := Ldisc { ready : list Z; editing : list Z }.

Definition ERASE : list Z := [8; 32; 8].

(** A typed character: the new state and what goes to the screen, where [dump]
    is the list of the processes that Control-P asks for. *)
Definition l_type (dump : list Z) (c : Z) (l : ldisc) : ldisc * list Z :=
  if c =? C_P then (l, dump)
  else if c =? C_U then (Ldisc (ready l) [], concat (map (fun _ => ERASE) (editing l)))
  else if (c =? C_H) || (c =? DEL) then
    match editing l with
    | [] => (l, [])
    | _ :: _ => (Ldisc (ready l) (removelast (editing l)), ERASE)
    end
  else if (c =? 0) || (INPUT_BUF_SIZE <=? Z.of_nat (length (ready l ++ editing l))) then (l, [])
  else
    let ch := if c =? CR then NL else c in
    let e := editing l ++ [ch] in
    if (ch =? NL) || (ch =? C_D) || (Z.of_nat (length (ready l ++ e)) =? INPUT_BUF_SIZE)
    then (Ldisc (ready l ++ e) [], [ch]) else (Ldisc (ready l) e, [ch]).

(** A read of [n] characters, of which [some] says whether some have been read
    before: the characters it takes, what is left, and whether it is done. *)
Fixpoint l_read (some : bool) (n : nat) (r : list Z) : list Z * list Z * bool :=
  match n with
  | O => ([], r, true)
  | Datatypes.S n' =>
      match r with
      | [] => ([], [], false)
      | c :: r' =>
          if c =? C_D then ([], if some then r else r', true)
          else if c =? NL then ([c], r', true)
          else let '(bs, rest, d) := l_read true n' r' in (c :: bs, rest, d)
      end
  end.

(** The ring holds the characters [r], then those of the line [e]. *)
Record cons_ring (c : cons) (r e : list Z) : Prop := {
  cr_len : Z.of_nat (length (r ++ e)) <= INPUT_BUF_SIZE;
  cr_r : 0 <= c_r c < 2 ^ 32;
  cr_w : c_w c = u32 (c_r c + Z.of_nat (length r));
  cr_e : c_e c = u32 (c_r c + Z.of_nat (length (r ++ e)));
  cr_data : forall k ch, (r ++ e) !! k = Some ch -> c_buf c ((c_r c + Z.of_nat k) mod INPUT_BUF_SIZE) = ch;
}.
Definition cons_rep (c : cons) (l : ldisc) : Prop := cons_ring c (ready l) (editing l) /\ NL ∉ editing l.

Lemma u32_mod_input x : u32 x mod INPUT_BUF_SIZE = x mod INPUT_BUF_SIZE.
Proof. unfold u32, INPUT_BUF_SIZE. lia. Qed.

Ltac ring_lia := unfold u32, INPUT_BUF_SIZE in *; lia.

Lemma ring_at_w c r e : cons_ring c r e -> at_w c = true <-> e = [].
Proof.
  intros [H1 H2 H3 H4 _]. unfold at_w. rewrite Z.eqb_eq, H3, H4. rewrite length_app in *. split.
  - intros E. destruct e as [|x e]; [done|]. simpl in *. ring_lia.
  - intros ->. simpl. by rewrite Nat.add_0_r.
Qed.
Lemma ring_empty c r e : cons_ring c r e -> (c_r c =? c_w c) = true <-> r = [].
Proof.
  intros [H1 H2 H3 _ _]. rewrite Z.eqb_eq, H3. rewrite length_app in *. split.
  - intros E. destruct r as [|x r]; [done|]. simpl in *. ring_lia.
  - intros ->. simpl. rewrite Z.add_0_r. symmetry. by apply u32_id.
Qed.
Lemma ring_count c r e : cons_ring c r e -> u32 (c_e c - c_r c) = Z.of_nat (length (r ++ e)).
Proof. intros [H1 H2 _ H4 _]. rewrite H4. ring_lia. Qed.

Lemma ring_erase c r e x : cons_ring c r (e ++ [x]) -> last_char c = x /\ cons_ring (erase c) r e.
Proof.
  intros [H1 H2 H3 H4 H5]. rewrite app_assoc in *. rewrite length_app in *. simpl in *. split.
  - unfold last_char. rewrite u32_mod_input, H4.
    rewrite <-(H5 (length (r ++ e)) x) by (rewrite lookup_app_r, Nat.sub_diag by lia; done).
    f_equal. ring_lia.
  - split; simpl; try done; try lia.
    + rewrite H4. ring_lia.
    + intros k ch Hk. apply H5. by apply lookup_app_l_Some.
Qed.

Lemma ring_store c r e ch : 0 <= ch < 256 -> cons_ring c r e -> Z.of_nat (length (r ++ e)) < INPUT_BUF_SIZE ->
  cons_ring (store_char ch c) r (e ++ [ch]).
Proof.
  intros Hc [H1 H2 H3 H4 H5] Hl. split; simpl; rewrite ?app_assoc, ?length_app; simpl; try done.
  - rewrite length_app in *. lia.
  - rewrite H4, length_app. ring_lia.
  - intros k x Hk. rewrite H4, u32_mod_input, u8_id by done. apply lookup_app_Some in Hk as [Hk|[Hge Hk]].
    + rewrite upd_other; [by apply H5|]. apply lookup_lt_Some in Hk. ring_lia.
    + apply list_lookup_singleton_Some in Hk as [E ->].
      replace (Z.of_nat k) with (Z.of_nat (length (r ++ e))) by lia. apply upd_same.
Qed.

Lemma ring_commit c r e : cons_ring c r e -> cons_ring (commit_line c) (r ++ e) [].
Proof. intros [H1 H2 H3 H4 H5]. by split; simpl; rewrite ?app_nil_r. Qed.

Lemma ring_take c x r e : cons_ring c (x :: r) e ->
  c_buf c (c_r c mod INPUT_BUF_SIZE) = x /\ cons_ring (set_c_r (u32 (c_r c + 1)) c) r e.
Proof.
  intros [H1 H2 H3 H4 H5]. simpl in *. split.
  - rewrite <-(H5 0%nat x) by done. by rewrite Z.add_0_r.
  - split; simpl.
    + lia.
    + apply u32_range.
    + rewrite H3. ring_lia.
    + rewrite H4. ring_lia.
    + intros k ch Hk. rewrite <-(H5 (Datatypes.S k) ch) by done. f_equal. ring_lia.
Qed.

(** [cons.r--] after [cons.r++]. *)
Lemma untake c : 0 <= c_r c < 2 ^ 32 ->
  set_c_r (u32 (c_r (set_c_r (u32 (c_r c + 1)) c) - 1)) (set_c_r (u32 (c_r c + 1)) c) = c.
Proof. destruct c as [b r w e]. simpl. intros. unfold set_c_r. simpl. f_equal. ring_lia. Qed.

(** ** The handlers refine the line discipline *)

(** What the console relies on, besides what the port and the copies promise:
    the port becomes idle within [spin] readings of its status, the kernel has
    not panicked, a wakeup sends nothing, and [procdump] sends a list of the
    processes, [listing] ([procdump_sends] of Devices.v says which one). *)
Class ConsEnvOk (S : Type) (spin : nat) {PE : PipeEnv S} {UE : UartEnv S} {CE : ConsEnv S}
    {PO : PipeEnvOk S} {UO : UartEnvOk S} := {
  port_drains : forall u s, wp (wait_idle spin) (fun _ _ => True) (u, s);
  never_panicked : forall s, wp panicked (fun b _ => b = false) s;
  cons_wakeup_ok : forall s, wp cons_wakeup (fun _ s' => sent s' = sent s) s;
  listing : S -> list Z;
  procdump1_ok : forall s, wp procdump1 (fun _ s' => sent s' = sent s ++ listing s) s;
}.

Lemma wp_both {S A} (m : M S A) (Q R : A -> S -> Prop) s : wp m Q s -> wlp m R s -> wp m (fun a s' => Q a s' /\ R a s') s.
Proof. unfold wp, wlp. destruct (m s) as [[a s']| | |]; try done. intros HQ HR. split; [done|]. by apply HR. Qed.

Section refines.
Context {S : Type} {spin : nat} `{CO : ConsEnvOk S spin}.
Implicit Types (c : cons) (u : uart) (s : S).

Lemma wp_serial {A} (m : M (uart * S) A) (Q : A -> cons * (uart * S) -> Prop) c x :
  wp m (fun a x' => Q a (c, x')) x -> wp (serial m) Q (c, x).
Proof. apply (wp_zoom snd (fun t x => (fst x, t)) m Q (c, x)). Qed.

Lemma uartputc_sync_ok ch u s : wp (uartputc_sync spin ch) (fun _ x => fst x = u /\ sent (snd x) = sent s ++ [u8 ch]) (u, s).
Proof using CO.
  unfold uartputc_sync. apply wp_bind, wp_dev.
  eapply wp_mono; [apply (wp_both _ _ (fun _ s' => sent s' = sent s) _ (never_panicked s))|].
  { eapply wlp_mono; [apply wp_wlp, panicked_ok|]. by intros ? ? [? _]. }
  cbv beta. intros b s1 [-> E1]. apply wp_bind.
  eapply wp_mono; [apply (wp_both _ _ (fun _ x => fst x = u /\ sent (snd x) = sent s1) _ (port_drains u s1))|].
  { intros [] x E. by apply wait_idle_inv in E. }
  cbv beta. intros [] [u2 s2] [_ [E E2]]. simpl in E, E2. subst u2. apply wp_dev. eapply wp_mono; [apply write_thr_ok|].
  intros [] s3 [E3 _]. simpl in *. split; [done|]. by rewrite E3, E2, E1.
Qed.

(** [consputc] sends its character, or erases one on the screen. *)
Lemma consputc_ok ch c u s : 0 <= ch <= BACKSPACE ->
  wp (consputc spin ch) (fun _ x => fst x = c /\ fst (snd x) = u /\
    sent (snd (snd x)) = sent s ++ (if ch =? BACKSPACE then ERASE else [ch])) (c, (u, s)).
Proof using CO.
  intros Hc. unfold consputc. destruct (ch =? BACKSPACE) eqn:Eb.
  - apply wp_bind, wp_serial. eapply wp_mono; [apply uartputc_sync_ok|]. intros [] [u1 s1] [E1 E2]. simpl in *. subst u1.
    apply wp_bind, wp_serial. eapply wp_mono; [apply uartputc_sync_ok|]. intros [] [u1 s2] [E1 E3]. simpl in *. subst u1.
    apply wp_serial. eapply wp_mono; [apply uartputc_sync_ok|]. intros [] [u1 s3] [E1 E4]. simpl in *. subst u1.
    split_and!; try done. by rewrite E4, E3, E2, <-!app_assoc.
  - apply wp_serial. eapply wp_mono; [apply uartputc_sync_ok|]. intros [] [u1 s1] [E1 E2]. simpl in *.
    rewrite u8_id in E2; [done|]. unfold BACKSPACE in *. blia.
Qed.

Lemma erase_all_snoc (e : list Z) x :
  concat (map (fun _ => ERASE) (e ++ [x])) = ERASE ++ concat (map (fun _ => ERASE) e).
Proof. induction e as [|y e IH]; [done|]. exact (f_equal (app ERASE) IH). Qed.

Lemma kill_line_spec left c u s r e : cons_ring c r e -> NL ∉ e -> (length e <= left)%nat ->
  wp (kill_line spin left) (fun _ x => cons_ring (fst x) r [] /\ fst (snd x) = u /\
    sent (snd (snd x)) = sent s ++ concat (map (fun _ => ERASE) e)) (c, (u, s)).
Proof using CO.
  revert left c s. induction e as [|x e IH] using rev_ind; intros left c s Hr Hn Hl.
  - destruct left; simpl; apply wp_bind, wp_gets; simpl; rewrite (proj2 (ring_at_w c r [] Hr)) by done; simpl;
      apply wp_ret; simpl; by rewrite app_nil_r.
  - rewrite length_app in Hl. simpl in Hl. destruct left as [|left]; [lia|]. simpl. apply wp_bind, wp_gets. simpl.
    destruct (ring_erase c r e x Hr) as [Hx He]. destruct (at_w c) eqn:Ew.
    { apply (ring_at_w c r _ Hr) in Ew. by apply app_eq_nil in Ew as [_ ?]. }
    rewrite Hx. assert ((x =? NL) = false) as -> by (apply Z.eqb_neq; set_solver). simpl.
    apply wp_bind, wp_modify, wp_bind. simpl. eapply wp_mono; [apply (consputc_ok BACKSPACE); done|].
    intros [] [c1 [u1 s1]] (E1 & E2 & E3). simpl in *. subst c1 u1.
    eapply wp_mono; [apply (IH left (erase c) s1 He); [set_solver|lia]|].
    intros [] x' (H1 & H2 & H3). split_and!; try done. by rewrite H3, E3, erase_all_snoc, <-app_assoc.
Qed.

(** [l_type], as the handler computes it. *)
Lemma consoleintr_spec ch c u s l : 0 <= ch < 256 -> cons_rep c l ->
  wp (consoleintr spin ch) (fun _ x => cons_rep (fst x) (fst (l_type (listing s) ch l)) /\ fst (snd x) = u /\
    sent (snd (snd x)) = sent s ++ snd (l_type (listing s) ch l)) (c, (u, s)).
Proof using CO.
  intros Hc [Hr Hn]. unfold consoleintr, l_type. destruct (ch =? C_P).
  { apply wp_serial, wp_dev. eapply wp_mono; [apply procdump1_ok|]. intros [] s' E. done. }
  destruct (ch =? C_U).
  { eapply wp_mono; [apply (kill_line_spec _ c u s _ _ Hr Hn)|].
    { destruct Hr as [Hl _ _ _ _]. rewrite length_app in Hl. unfold INPUT_BUF_SIZE in *. lia. }
    intros [] x (H1 & H2 & H3). split_and!; try done. split; [done|]. set_solver. }
  destruct ((ch =? C_H) || (ch =? DEL)).
  { apply wp_bind, wp_gets. simpl. destruct l as [r e]. simpl in *. destruct e as [|y e] using rev_ind.
    - rewrite (proj2 (ring_at_w c r [] Hr)) by done. apply wp_ret. simpl. by rewrite app_nil_r.
    - clear IHe. destruct (ring_erase c r e y Hr) as [_ He]. destruct (at_w c) eqn:Ew.
      { apply (ring_at_w c r _ Hr) in Ew. by apply app_eq_nil in Ew as [_ ?]. }
      apply wp_bind, wp_modify. simpl. eapply wp_mono; [apply (consputc_ok BACKSPACE); done|].
      intros [] [c1 [u1 s1]] (E1 & E2 & E3). simpl in *. subst c1 u1.
      assert (match e ++ [y] with [] => (Ldisc r (e ++ [y]), []) | _ :: _ => (Ldisc r (removelast (e ++ [y])), ERASE) end
        = (Ldisc r e, ERASE)) as ->. { rewrite removelast_last. by destruct e. }
      split_and!; try done. split; [done|]. simpl. set_solver. }
  apply wp_bind, wp_gets. simpl. rewrite (ring_count c _ _ Hr).
  destruct (ch =? 0) eqn:E0; simpl; [apply wp_ret; simpl; by rewrite app_nil_r|].
  rewrite Z.ltb_antisym. destruct (INPUT_BUF_SIZE <=? Z.of_nat (length (ready l ++ editing l))) eqn:El; simpl.
  { apply wp_ret. simpl. by rewrite app_nil_r. }
  set (k := if ch =? CR then NL else ch). assert (Hk : 0 <= k < 256) by (subst k; destruct (ch =? CR); unfold NL; lia).
  apply wp_bind. eapply wp_mono; [apply (consputc_ok k); unfold BACKSPACE; lia|].
  intros [] [c1 [u1 s1]] (E1 & E2 & E3). simpl in *. subst c1 u1.
  assert ((k =? BACKSPACE) = false) as Eb by (unfold BACKSPACE; lia). rewrite Eb in E3.
  assert (Hs : cons_ring (store_char k c) (ready l) (editing l ++ [k])) by (apply ring_store; [done|done|blia]).
  apply wp_bind, wp_modify, wp_bind, wp_gets. cbn [fst snd]. rewrite (ring_count _ _ _ Hs).
  destruct ((k =? NL) || (k =? C_D) || (Z.of_nat (length (ready l ++ editing l ++ [k])) =? INPUT_BUF_SIZE)) eqn:Ec.
  - apply wp_bind, wp_modify, wp_serial, wp_dev. eapply wp_mono; [apply cons_wakeup_ok|]. intros [] s' E. simpl in *.
    split_and!; try done; [|congruence]. split; [by apply ring_commit|]. set_solver.
  - apply wp_ret. split_and!; try done. split; [done|]. simpl. apply orb_false_iff in Ec as [Ec _].
    apply orb_false_iff in Ec as [Ec _]. apply Z.eqb_neq in Ec. set_solver.
Qed.

(** The part of the state a read sees: the characters and the caller's
    memory. *)
Definition read_done (target dst n : Z) (e : list Z) (s : S) (out : list Z * list Z * bool)
    (res : cend) (x : cons * (uart * S)) : Prop :=
  let '(bs, rest, d) := out in
  let m := Z.of_nat (length bs) in
  cons_ring (fst x) rest e /\ user_bytes (snd (snd x)) dst bs /\ m <= n /\
  (forall b v, (forall k, 0 <= k < n -> b <> u64 (dst + k)) -> umem s b = Some v -> umem (snd (snd x)) b = Some v) /\
  if (d : bool) then res = CRet (target - n + m) else res = CRet (-1) \/ res = CSleep (u64 (dst + m)) (n - m).

Lemma read_done_cons target dst n e s s1 ch bs rest d res x :
  0 <= dst < 2 ^ 64 -> n < 2 ^ 31 -> umem s1 dst = Some ch ->
  (forall b v, b <> dst -> umem s b = Some v -> umem s1 b = Some v) ->
  read_done target (u64 (dst + 1)) (n - 1) e s1 (bs, rest, d) res x ->
  read_done target dst n e s (ch :: bs, rest, d) res x.
Proof.
  intros Hd Hn Ha Hb (H1 & H2 & H3 & H4 & H5).
  assert (Eu : forall k, u64 (u64 (dst + 1) + k) = u64 (dst + (k + 1))) by (intros k; unfold u64; lia).
  split_and!; [done| |simpl length; lia| |].
  - intros [|k] v Hk; simpl in Hk.
    + injection Hk as <-. rewrite Z.add_0_r, u64_id by done. apply H4; [|done].
      intros k Hk. rewrite Eu. unfold u64. lia.
    + apply H2 in Hk. rewrite Eu in Hk. by replace (Z.of_nat (Datatypes.S k)) with (Z.of_nat k + 1) by lia.
  - intros b v Hne Hv. apply H4; [intros k Hk; rewrite Eu; apply Hne; lia|]. destruct (decide (n <= 0)).
    + simpl in H3. lia.
    + apply Hb; [|done]. specialize (Hne 0). rewrite Z.add_0_r, u64_id in Hne by done. apply Hne. lia.
  - destruct d; [rewrite H5; f_equal; simpl length; lia|]. destruct H5 as [->| ->]; [by left|right].
    rewrite Eu. f_equal; [f_equal|]; simpl length; lia.
Qed.

Lemma read_chars_spec left target dst n c u s r e : cons_ring c r e -> 0 <= n <= target -> target < 2 ^ 31 ->
  left = Z.to_nat n -> 0 <= dst < 2 ^ 64 -> (forall k, 0 <= k < n -> can_write s (u64 (dst + k))) ->
  wp (read_chars target dst n left) (read_done target dst n e s (l_read (n <? target) left r)) (c, (u, s)).
Proof using CO.
  revert dst n c s r. induction left as [|left IH]; intros dst n c s r Hr Hn Ht Hl Hd Hw; simpl.
  { assert (n = 0) as -> by lia. apply wp_ret. unfold read_done. simpl. rewrite i32_id by lia. split_and!; try done.
    by rewrite Z.add_0_r. }
  rewrite (proj2 (Z.ltb_lt 0 n)) by lia. simpl. apply wp_bind, wp_gets. cbn [fst snd]. destruct r as [|ch r].
  { rewrite (proj2 (ring_empty c [] e Hr)) by done. apply wp_bind, wp_serial, wp_dev.
    eapply wp_mono; [apply killed1_ok|]. intros k s' Em. destruct k; apply wp_ret; unfold read_done; simpl; rewrite Em;
      split_and!; try done; try lia; [by left|right]. rewrite Z.sub_0_r, Z.add_0_r, u64_id by lia. done. }
  destruct (c_r c =? c_w c) eqn:Ee; [by apply (ring_empty c _ e Hr) in Ee|].
  destruct (ring_take c ch r e Hr) as [Hc Ht']. rewrite Hc. apply wp_bind, wp_modify. cbn [fst snd].
  destruct (ch =? C_D).
  { apply wp_bind. rewrite u32_id by lia. destruct (n <? target) eqn:En.
    - apply wp_modify, wp_ret. unfold read_done. cbn [fst snd length]. rewrite (untake c) by apply Hr.
      rewrite i32_id by lia. split_and!; try done; [lia|f_equal; lia].
    - apply wp_ret, wp_ret. unfold read_done. simpl. rewrite i32_id by lia. split_and!; try done; [lia|f_equal; lia]. }
  apply wp_bind, wp_serial, wp_dev. assert (Hw0 : can_write s dst).
  { specialize (Hw 0). rewrite Z.add_0_r, u64_id in Hw by done. apply Hw. lia. }
  eapply wp_mono; [apply copyout1_ok, Hw0|]. cbv beta. intros ok s1 (-> & Ha & Hb & Hcw). simpl.
  destruct (ch =? NL).
  { apply wp_ret. unfold read_done. simpl. rewrite i32_id by lia. split_and!; try done.
    - intros [|k] v Hk; simpl in Hk; [|done]. injection Hk as <-. by rewrite Z.add_0_r, u64_id.
    - lia.
    - intros b v Hne Hv. apply Hb; [|done]. specialize (Hne 0). rewrite Z.add_0_r, u64_id in Hne by done. apply Hne. lia.
    - f_equal. lia. }
  assert (E1 : (n - 1 <? target) = true) by lia.
  specialize (IH (u64 (dst + 1)) (n - 1) (set_c_r (u32 (c_r c + 1)) c) s1 r Ht').
  rewrite E1 in IH. destruct (l_read true left r) as [[bs rest] d]. eapply wp_mono.
  { apply IH; try done; try lia; [apply u64_range|]. intros k Hk. apply Hcw.
    replace (u64 (u64 (dst + 1) + k)) with (u64 (dst + (k + 1))) by (unfold u64; lia). apply Hw. lia. }
  intros res x. apply read_done_cons; try done. lia.
Qed.

Lemma consoleread_spec target dst n c u s l : cons_rep c l -> 0 <= n <= target -> target < 2 ^ 31 ->
  0 <= dst < 2 ^ 64 -> (forall k, 0 <= k < n -> can_write s (u64 (dst + k))) ->
  wp (consoleread target dst n)
    (read_done target dst n (editing l) s (l_read (n <? target) (Z.to_nat n) (ready l))) (c, (u, s)).
Proof using CO. intros [Hr _] Hn Ht Hd Hw. by apply read_chars_spec. Qed.

(** Typing the characters [t]; what is listed does not matter for the state. *)
Lemma l_type_dump d d' ch l : fst (l_type d ch l) = fst (l_type d' ch l).
Proof. unfold l_type. by destruct (ch =? C_P). Qed.
Definition l_types (t : list Z) (l : ldisc) : ldisc := fold_left (fun l ch => fst (l_type [] ch l)) t l.

Lemma type_all t c u s l : Forall (fun ch => 0 <= ch < 256) t -> cons_rep c l ->
  wp (for_each t (consoleintr spin)) (fun _ x => cons_rep (fst x) (l_types t l)) (c, (u, s)).
Proof using CO.
  intros Ht. revert c u s l. induction Ht as [|ch t Hch Ht IH]; intros c u s l Hr; simpl; [by apply wp_ret|].
  apply wp_bind. eapply wp_mono; [by apply consoleintr_spec|]. intros [] [c1 [u1 s1]] (H1 & _ & _).
  apply IH. by rewrite (l_type_dump [] (listing s)).
Qed.
End refines.

(** *** What a line is *)

(** The line editor: the effect of a character that does not end the line. *)
Definition edit (e : list Z) (ch : Z) : list Z :=
  if ch =? C_P then e
  else if ch =? C_U then []
  else if (ch =? C_H) || (ch =? DEL) then removelast e
  else e ++ [ch].
Definition edited (t : list Z) : list Z := fold_left edit t [].
Definition in_line (ch : Z) : Prop := 0 < ch < 256 /\ ch <> NL /\ ch <> CR /\ ch <> C_D.

Lemma removelast_Forall (P : Z -> Prop) e : Forall P e -> Forall P (removelast e).
Proof. induction 1 as [|x [|y e] Hx He IH]; [constructor|constructor|]. simpl in *. by constructor. Qed.
Lemma removelast_length (e : list Z) : (length (removelast e) <= length e)%nat.
Proof. induction e as [|x [|y e] IH]; simpl in *; lia. Qed.

Lemma edit_line e ch : in_line ch -> Forall in_line e -> Forall in_line (edit e ch) /\ (length (edit e ch) <= S (length e))%nat.
Proof.
  intros Hc He. unfold edit. repeat case_bool; split; try (by eauto); try (simpl; lia).
  - by apply removelast_Forall.
  - pose proof (removelast_length e). lia.
  - apply Forall_app. split; [done|]. by apply Forall_singleton.
  - rewrite length_app. simpl. lia.
Qed.

Lemma l_type_edit e ch : in_line ch -> Z.of_nat (length e) < INPUT_BUF_SIZE - 1 ->
  fst (l_type [] ch (Ldisc [] e)) = Ldisc [] (edit e ch).
Proof.
  intros (H0 & Hn & Hr & Hd) Hl. unfold l_type, edit. simpl. destruct (ch =? C_P); [done|].
  destruct (ch =? C_U); [done|]. destruct ((ch =? C_H) || (ch =? DEL)); [by destruct e|].
  rewrite (proj2 (Z.eqb_neq ch 0)), (proj2 (Z.eqb_neq ch CR)) by lia. simpl.
  rewrite (proj2 (Z.eqb_neq ch NL)), (proj2 (Z.eqb_neq ch C_D)) by done. rewrite length_app. simpl.
  rewrite (proj2 (Z.leb_gt _ _)) by lia. by rewrite (proj2 (Z.eqb_neq _ _)) by lia.
Qed.

Lemma l_types_edit t e : Forall in_line t -> Forall in_line e ->
  Z.of_nat (length e + length t) < INPUT_BUF_SIZE ->
  l_types t (Ldisc [] e) = Ldisc [] (fold_left edit t e) /\ Forall in_line (fold_left edit t e) /\
  (length (fold_left edit t e) <= length e + length t)%nat.
Proof.
  intros Ht. revert e. induction Ht as [|ch t Hc Ht IH]; intros e He Hl; simpl; [split_and!; [done|done|lia]|].
  simpl in Hl. destruct (edit_line e ch Hc He) as [H1 H2].
  unfold l_types. simpl. rewrite l_type_edit by (done || lia).
  destruct (IH (edit e ch) H1) as (E & H3 & H4); [lia|]. split_and!; [done|done|lia].
Qed.

Lemma l_read_line e some n rest : Forall in_line e -> (length e < n)%nat ->
  l_read some n (e ++ NL :: rest) = (e ++ [NL], rest, true).
Proof.
  intros He. revert some n. induction He as [|ch e (_ & Hn & _ & Hd) He IH]; intros some n Hl;
    (destruct n as [|n]; [simpl in Hl; lia|]); simpl; [done|].
  rewrite (proj2 (Z.eqb_neq ch C_D)), (proj2 (Z.eqb_neq ch NL)) by done. by rewrite IH by (simpl in Hl; lia).
Qed.

Section line.
Context {S : Type} {spin : nat} `{CO : ConsEnvOk S spin}.

(** C38: the handlers of the console refine the line discipline: from a state
    that stands for [l], a typed character leaves a state that stands for what
    [l_type] makes of [l] and sends to the screen what [l_type] says: the echo,
    or for Control-P the list of the processes.  A read into memory that can be
    written gets the characters that [l_read] takes, and returns or sleeps as
    [l_read] says (or returns -1 to a killed process). *)
Theorem console_refines (c : cons) (u : uart) (s : S) (l : ldisc) :
  cons_rep c l ->
  (forall ch, 0 <= ch < 256 ->
     wp (consoleintr spin ch) (fun _ x => cons_rep (fst x) (fst (l_type (listing s) ch l)) /\
       sent (snd (snd x)) = sent s ++ snd (l_type (listing s) ch l)) (c, (u, s))) /\
  (forall target dst n, 0 <= n <= target -> target < 2 ^ 31 -> 0 <= dst < 2 ^ 64 ->
     (forall k, 0 <= k < n -> can_write s (u64 (dst + k))) ->
     wp (consoleread target dst n) (fun res x =>
       let '(bs, rest, done) := l_read (n <? target) (Z.to_nat n) (ready l) in
       let m := Z.of_nat (length bs) in
       cons_rep (fst x) (Ldisc rest (editing l)) /\ user_bytes (snd (snd x)) dst bs /\ m <= n /\
       if (done : bool) then res = CRet (target - n + m) else res = CRet (-1) \/ res = CSleep (u64 (dst + m)) (n - m))
       (c, (u, s))).
Proof using CO.
  intros Hr. split.
  - intros ch Hc. eapply wp_mono; [by apply consoleintr_spec|]. intros [] x (H1 & _ & H3). done.
  - intros target dst n Hn Ht Hd Hw. eapply wp_mono; [by apply consoleread_spec|]. intros res x.
    unfold read_done. destruct (l_read _ _ _) as [[bs rest] d]. intros (H1 & H2 & H3 & _ & H5).
    split_and!; try done. by split; [|apply Hr].
Qed.

(** A line typed at an idle console, with whatever erasing and killing, is
    what the next read gets: the characters the editor has left and the
    newline. *)
Theorem console_line (c : cons) (u : uart) (s : S) (t : list Z) (dst n : Z) :
  cons_rep c (Ldisc [] []) -> Forall in_line t -> Z.of_nat (length t) < INPUT_BUF_SIZE - 1 ->
  Z.of_nat (length t) < n < 2 ^ 31 -> 0 <= dst < 2 ^ 64 -> (forall s' k, 0 <= k < n -> can_write s' (u64 (dst + k))) ->
  wp (for_each (t ++ [CR]) (consoleintr spin) ;; consoleread n dst n) (fun res x =>
    res = CRet (Z.of_nat (length (edited t)) + 1) /\ user_bytes (snd (snd x)) dst (edited t ++ [NL]) /\
    cons_rep (fst x) (Ldisc [] [])) (c, (u, s)).
Proof using CO.
  intros Hr Ht Hl Hn Hd Hw. apply wp_bind. eapply wp_mono.
  { apply (type_all (t ++ [CR]) c u s (Ldisc [] [])); [|done]. apply Forall_app. split; [|by repeat constructor].
    eapply Forall_impl; [done|]. unfold in_line. lia. }
  intros [] [c1 [u1 s1]] H1. destruct (l_types_edit t [] Ht) as (E & He & Hlen); [constructor|simpl; lia|].
  assert (E1 : l_types (t ++ [CR]) (Ldisc [] []) = Ldisc (edited t ++ [NL]) []).
  { unfold l_types. rewrite fold_left_app. fold (l_types t (Ldisc [] [])). rewrite E. simpl. unfold l_type. simpl.
    fold (edited t). rewrite (proj2 (Z.leb_gt _ _)); [done|]. unfold edited. simpl in Hlen. lia. }
  rewrite E1 in H1. simpl in H1. eapply wp_mono; [apply (consoleread_spec n dst n c1 u1 s1 _ H1); try done; try lia; by apply Hw|].
  intros res x. simpl. rewrite l_read_line; [|done|simpl in Hlen; unfold edited; lia].
  unfold read_done. rewrite length_app. simpl. intros (H2 & H3 & _ & _ & ->). split_and!; try done.
  - f_equal. lia.
  - by split; [|set_solver].
Qed.
End line.

(** *** A console whose port is always idle *)

Record desk := Desk { d_mem : Z -> option Z; d_out : list Z; d_woken : bool }.
#[local] Instance desk_copies : PipeEnv desk := {|
  copyin1 a := gets (fun s => d_mem s a);
  copyout1 a c := modify (fun s => Desk (upd (d_mem s) a (Some c)) (d_out s) (d_woken s)) ;; ret true;
  killed1 := ret false;
  wakeup1 _ := ret tt;
|}.
#[local] Instance desk_uart : UartEnv desk := {|
  read_reg r := ret (if r =? LSR then LSR_TX_IDLE else 0);
  write_reg r c := modify (fun s => if r =? THR then Desk (d_mem s) (d_out s ++ [c]) (d_woken s) else s);
  tx_wakeup := modify (fun s => Desk (d_mem s) (d_out s) true);
  panicked := ret false;
|}.
#[local] Instance desk_cons : ConsEnv desk := {| cons_wakeup := ret tt; procdump1 := modify (fun s => Desk (d_mem s) (d_out s ++ [NL]) (d_woken s)) |}.
#[local, refine] Instance desk_copies_ok : PipeEnvOk desk := {| umem := d_mem; can_write _ _ := True |}.
Proof.
  - done.
  - intros a c s _. apply wp_bind, wp_modify, wp_ret. simpl. split_and!; [done|apply upd_same| |done].
    intros b v Hb Hv. by rewrite upd_other.
  - intros a c s ok s' E. unfold bind, modify, ret in E. injection E as <- <-. simpl.
    split; [intros _; apply upd_same|]. intros b v Hb Hv. by rewrite upd_other.
  - done.
  - done.
Defined.
#[local, refine] Instance desk_uart_ok : UartEnvOk desk := {| sent := d_out; woken := d_woken |}.
Proof. all: done. Defined.
#[local, refine] Instance desk_ok : ConsEnvOk desk 0 := {| listing _ := [NL] |}.
Proof. all: done. Defined.

Definition cons0 : cons := Cons (fun _ => 0) 0 0 0.
Definition desk0 : desk := Desk (fun _ => Some 0) [] false.
Lemma cons0_rep : cons_rep cons0 (Ldisc [] []).
Proof. split; [|set_solver]. by split. Qed.

Lemma console_refines_witness : cons_rep cons0 (Ldisc [] []) /\
  wp (consoleintr 0 97) (fun _ x => cons_rep (fst x) (Ldisc [] [97]) /\ d_out (snd (snd x)) = [97])
    (cons0, (Uart (fun _ => 0) 0 0, desk0)) /\
  wp (consoleintr 0 C_P) (fun _ x => cons_rep (fst x) (Ldisc [] []) /\ d_out (snd (snd x)) = [NL])
    (cons0, (Uart (fun _ => 0) 0 0, desk0)).
Proof.
  split; [exact cons0_rep|].
  destruct (console_refines cons0 (Uart (fun _ => 0) 0 0) desk0 (Ldisc [] []) cons0_rep) as [H _].
  assert (E : l_type [NL] 97 (Ldisc [] []) = (Ldisc [] [97], [97])) by reflexivity.
  split; (eapply wp_mono; [apply H; split; [discriminate|reflexivity]|]); cbv beta; simpl listing.
  - rewrite E. intros _ x Hx. exact Hx.
  - intros _ x Hx. exact Hx.
Defined.

(** "ab", Control-H, "c", Return. *)
Lemma console_line_witness :
  edited [97; 98; 8; 99] = [97; 99] /\
  wp (for_each ([97; 98; 8; 99] ++ [CR]) (consoleintr 0) ;; consoleread 100 4096 100) (fun res x =>
    res = CRet 3 /\ user_bytes (snd (snd x)) 4096 [97; 99; NL] /\ cons_rep (fst x) (Ldisc [] []))
    (cons0, (Uart (fun _ => 0) 0 0, desk0)).
Proof.
  assert (E : edited [97; 98; 8; 99] = [97; 99]) by reflexivity. split; [exact E|].
  eapply wp_mono.
  - apply (console_line cons0 (Uart (fun _ => 0) 0 0) desk0 [97; 98; 8; 99] 4096 100).
    + exact cons0_rep.
    + repeat (apply List.Forall_cons; [unfold in_line, NL, CR, C_D, CTRL; lia|]). apply List.Forall_nil.
    + vm_compute. reflexivity.
    + split; vm_compute; reflexivity.
    + split; [vm_compute; congruence|vm_compute; reflexivity].
    + intros s' k _. exact I.
  - cbv beta. rewrite E. intros res x (H1 & H2 & H3). split; [exact H1|]. split; [exact H2|exact H3].
Defined.

(** A character taken for a caller whose memory cannot be written is gone. *)
Lemma consoleread_loses_byte {S : Type} `{PE : PipeEnv S} `{UE : UartEnv S} (c : cons) (u : uart) (s s' : S) (ch : Z) (r e : list Z) (dst n : Z) :
  cons_ring c (ch :: r) e -> ch <> C_D -> 0 < n < 2 ^ 31 -> copyout1 dst ch s = Ret (false, s') ->
  exists c', consoleread n dst n (c, (u, s)) = Ret (CRet 0, (c', (u, s'))) /\ cons_ring c' r e.
Proof.
  intros Hr Hd Hn E. destruct (ring_take c ch r e Hr) as [Hc Ht]. exists (set_c_r (u32 (c_r c + 1)) c). split; [|done].
  unfold consoleread. destruct (Z.to_nat n) as [|k] eqn:En; [lia|]. simpl. rewrite (proj2 (Z.ltb_lt 0 n)) by lia. simpl.
  unfold bind, getc, gets. simpl. destruct (c_r c =? c_w c) eqn:Ee; [by apply (ring_empty c _ e Hr) in Ee|].
  rewrite Hc. rewrite (proj2 (Z.eqb_neq ch C_D)) by done. unfold modc, modify, serial, dev, zoom. simpl. rewrite E. simpl.
  by rewrite Z.sub_diag.
Qed.
