(* ===== verification/Devices.v ===== *)
(** * The pipes, the console and the serial port inside the kernel

    The environments that Pipe.v, Uart.v and Console.v ask for, given by the
    processes and the memory of Proc.v, and the calls through which the file
    layer reaches them (devsw of file.c, the pipe cases of file.c), for the
    process [me].  What a process that sleeps has done before is not in the
    result: a call that would sleep has the outcome [Blocked]. *)

From S2P Require Import Prelude Bytes Riscv KString Kalloc Vm Proc Pipe Fs File Format Printf Uart Console.

(** The registers of the serial port. *)
Class PortEnv (D : Type) := {
  reg_read : Z -> M D Z;
  reg_write : Z -> Z -> M D unit;
}.

(** The pipes, by the address of their page, the console, the transmit ring
    and the port. *)
Record devs (D : Type) := Devs {
  pipes : Z -> pipe;
  d_cons : cons;
  d_uart : uart;
  d_port : D;
}.
Arguments Devs {D}. Arguments pipes {D}. Arguments d_cons {D}. Arguments d_uart {D}. Arguments d_port {D}.

Definition CONSOLE : Z := 1.

Section devices.
Context {D : Type} `{PD : PortEnv D}.
Abbreviation K := (kern (devs D)).

Definition set_pipe (pi : Z) (p : pipe) (d : devs D) : devs D :=
  Devs (upd (pipes d) pi p) (d_cons d) (d_uart d) (d_port d).
Definition set_cons (c : cons) (d : devs D) : devs D := Devs (pipes d) c (d_uart d) (d_port d).
Definition set_uart (u : uart) (d : devs D) : devs D := Devs (pipes d) (d_cons d) u (d_port d).
Definition set_port (x : D) (d : devs D) : devs D := Devs (pipes d) (d_cons d) (d_uart d) x.
Definition set_devs (f : devs D -> devs D) (k : K) : K := set_files (f (files k)) k.

(** Code on the port, on the ring, on a pipe and on the console. *)
Definition ondev {A} (m : M D A) : M K A :=
  zoom (fun k : K => d_port (files k)) (fun x => set_devs (set_port x)) m.
Definition onuart {A} (m : M (uart * K) A) : M K A :=
  zoom (fun k : K => (d_uart (files k), k)) (fun x _ => set_devs (set_uart (fst x)) (snd x)) m.
Definition onpipe {A} (pi : Z) (m : M (pipe * K) A) : M K A :=
  zoom (fun k : K => (pipes (files k) pi, k)) (fun x _ => set_devs (set_pipe pi (fst x)) (snd x)) m.
Definition oncons {A} (m : M (cons * (uart * K)) A) : M (uart * K) A :=
  zoom (fun x : uart * K => (d_cons (files (snd x)), x))
    (fun y _ => (fst (snd y), set_devs (set_cons (fst y)) (snd (snd y)))) m.

(** The serial port seen by the driver; [me] is the process that runs, if
    any.  A panic ends every run of the model. *)
Definition uart_env (me : option nat) : UartEnv K := {|
  read_reg r := ondev (reg_read r);
  write_reg r c := ondev (reg_write r c);
  tx_wakeup := wakeup me UartChan;
  panicked := ret false;
|}.

Section current.
(** The process that runs, the readings of the status register that
    [uartputc_sync] is given, and the end of the kernel image. *)
Context (end_ : Z) (me : option nat) (spin : nat).

(** printf to the console, one character at a time. *)
Definition kputs (bs : list Z) : M K unit :=
  for_each bs (fun c => onuart (@uartputc_sync K (uart_env me) spin c)).
Definition kprintf (fmt : list Z) (ap : list varg) : M K unit :=
  match printf fmt ap with
  | Some bs => kputs bs
  | None => panic "kernel stack overwritten"
  end.

Definition state_name (s : procstate) : list Z :=
  chars match s with
        | UNUSED => "unused" | USED => "used" | SLEEPING => "sleep " | RUNNABLE => "runble"
        | RUNNING => "run   " | ZOMBIE => "zombie"
        end.
Definition procdump : M K unit :=
  kprintf [NL] [] ;;
  for_each proc_table (fun i =>
    let! p := get i in
    if bool_decide (p_state p = UNUSED) then ret tt
    else
      kprintf (chars "%d %s %s")
        [VWord (p_pid p); VStr (Some (state_name (p_state p))); VStr (Some (take_str 16 (p_name p)))] ;;
      kprintf [NL] []).

Definition cons_env : ConsEnv K := {| cons_wakeup := wakeup me ConsChan; procdump1 := procdump |}.

(** The interrupt handler of the port, for at most [left] characters. *)
Definition kuartintr (left : nat) : M K unit :=
  onuart (@uartintr K (uart_env me) (fun c => oncons (@consoleintr K (uart_env me) cons_env spin c)) left).
End current.

Section calls.
Context (end_ : Z) (me : nat).

(** The memory of the process, its killed flag and its wakeups. *)
Definition pipe_env (pi : Z) : PipeEnv K := {|
  copyin1 a := let! p := get me in
    let! (r, bs) := liftk (copyin (p_pagetable p) a 1) in
    ret (if r =? -1 then None else head bs);
  copyout1 a c := let! p := get me in
    let! r := liftk (copyout end_ (p_pagetable p) a [c]) in
    ret (negb (r =? -1));
  killed1 := let! d := killed me in ret (negb (d =? 0));
  wakeup1 c := wakeup (Some me) (match c with Pnread => PipeRead pi | Pnwrite => PipeWrite pi end);
|}.

Definition kpipeclose (pi : Z) (writable : bool) : M K unit :=
  let! last := onpipe pi (@pipeclose K (pipe_env pi) writable) in
  when! last do liftk (kfree end_ pi).
Definition kpiperead (pi addr n : Z) : M K Z :=
  let! r := onpipe pi (@piperead K (pipe_env pi) addr n) in
  match r with RRet r => ret r | RSleep => blocked end.
Definition kpipewrite (pi addr n : Z) : M K Z :=
  let! r := onpipe pi (@pipewrite K (pipe_env pi) addr n 0) in
  match r with WRet r => ret r | WSleep _ => blocked end.

Definition kconsoleread (addr n : Z) : M K Z :=
  let! r := onuart (oncons (@consoleread K (pipe_env 0) (u32 n) addr n)) in
  match r with CRet r => ret r | CSleep _ _ => blocked end.
Definition kconsolewrite (addr n : Z) : M K Z :=
  let! r := onuart (oncons (@consolewrite K (pipe_env 0) (uart_env (Some me)) addr n 0 None)) in
  match r with CWRet r => ret r | CWSleep _ _ => blocked end.

(** Pipes, and devsw after consoleinit. *)
Definition dev_env : DevEnv K := {|
  pipe_close := kpipeclose;
  pipe_read := kpiperead;
  pipe_write := kpipewrite;
  dev_read major := if major =? CONSOLE then Some kconsoleread else None;
  dev_write major := if major =? CONSOLE then Some kconsolewrite else None;
|}.

(** either_copyout and either_copyin for the file system. *)
Definition copy_env : CopyEnv K := {|
  ucopyout a bs := Proc.either_copyout end_ me true a bs;
  ucopyin a n := Proc.either_copyin me true a n;
|}.
End calls.
End devices.

(** ** What procdump prints

    Control-P at the console prints a line for every slot in use, and nothing
    else changes; the console relies on this. *)

Section listing.
Context {D : Type} `{PD : PortEnv D} (me : option nat) (spin : nat).
Abbreviation K := (kern (devs D)).
(** [psent]: the bytes that the port has been given; it becomes idle within
    [spin] readings of its status. *)
Context (psent : D -> list Z)
  (Hread : forall r x, wlp (reg_read r) (fun _ x' => psent x' = psent x) x)
  (Hwrite : forall c x, wp (reg_write THR c) (fun _ x' => psent x' = psent x ++ [c]) x)
  (Hidle : forall u (k : K), wp (@wait_idle K (uart_env me) spin) (fun _ _ => True) (u, k)).

(** The state after the port has been given [bs]. *)
Definition printed (bs : list Z) (k k' : K) : Prop :=
  exists x, k' = set_devs (set_port x) k /\ psent x = psent (d_port (files k)) ++ bs.

(** One line: the pid, the state and the name. *)
Definition proc_line (p : proc) : list Z :=
  default [] (printint (i32 (p_pid p)) 10 true) ++ 32 :: state_name (p_state p) ++ 32 :: take_str 16 (p_name p) ++ [NL].
Definition proc_listing (procs : nat -> proc) : list Z :=
  NL :: concat (map (fun i => if bool_decide (p_state (procs i) = UNUSED) then [] else proc_line (procs i)) proc_table).

Lemma printint_int x : exists bs, printint (i32 x) 10 true = Some bs.
Proof.
  unfold printint. cbv zeta. cbn [andb]. pose proof (i32_range x) as Hx. destruct (Z.ltb_spec (i32 x) 0).
  - destruct (print_number_spec digits (u64 (- i32 x)) 10 true) as (ds & _ & ->); [lia|apply u64_range|].
    rewrite u64_id by lia. rewrite (proj2 (Z.ltb_lt _ _)) by lia. eauto.
  - destruct (print_number_spec digits (u64 (i32 x)) 10 false) as (ds & _ & ->); [lia|apply u64_range|].
    rewrite u64_id by lia. rewrite (proj2 (Z.ltb_lt _ _)) by lia. eauto.
Qed.
Lemma printf_line pid st name : exists bs, printint (i32 pid) 10 true = Some bs /\
  printf (chars "%d %s %s") [VWord pid; VStr (Some st); VStr (Some name)] = Some (bs ++ 32 :: st ++ 32 :: name).
Proof.
  destruct (printint_int pid) as [bs E]. exists bs. split; [done|].
  change (chars "%d %s %s") with (concat (map spell [Num false Dec pid; Lit 32; Str (Some st); Lit 32; Str (Some name)])).
  unfold printf. change [VWord pid; VStr (Some st); VStr (Some name)] with
    (concat (map argument [Num false Dec pid; Lit 32; Str (Some st); Lit 32; Str (Some name)])).
  rewrite format_pieces; [|by repeat constructor|simpl; lia]. simpl. unfold print_arg. rewrite E. by rewrite app_nil_r.
Qed.

Lemma printed_nil k : printed [] k k.
Proof. exists (d_port (files k)). split; [by destruct k as [? ? ? ? ? ? []]|by rewrite app_nil_r]. Qed.
Lemma printed_app a b k1 k2 k3 : printed a k1 k2 -> printed b k2 k3 -> printed (a ++ b) k1 k3.
Proof. intros (x & -> & E) (y & -> & E'). exists y. split; [done|]. simpl in E'. by rewrite E', E, app_assoc. Qed.
Lemma printed_procs a k k' : printed a k k' -> procs k' = procs k.
Proof. by intros (x & -> & _). Qed.

Lemma read_printed u k : wlp (dev (@read_reg K (uart_env me) LSR)) (fun _ x => fst x = u /\ printed [] k (snd x)) (u, k).
Proof using Hread.
  apply wlp_zoom. simpl. apply wlp_zoom. eapply wlp_mono; [apply Hread|].
  intros v x E. split; [done|]. exists x. by rewrite app_nil_r.
Qed.
Lemma wait_printed n u k : wlp (@wait_idle K (uart_env me) n) (fun _ x => fst x = u /\ printed [] k (snd x)) (u, k).
Proof using Hread.
  revert k. induction n as [|n IH]; intros k; cbn [wait_idle]; apply wlp_bind;
    (eapply wlp_mono; [apply read_printed|]); intros lsr [u1 k1] [E Hp]; simpl in E, Hp; subst u1;
    destruct (tx_idle lsr); try (by apply wlp_ret); [done|].
  eapply wlp_mono; [apply IH|]. intros [] x [E1 E2]. split; [done|]. by eapply (printed_app [] []).
Qed.

Lemma putc_printed c k : wp (onuart (@uartputc_sync K (uart_env me) spin c)) (fun _ k' => printed [u8 c] k k') k.
Proof using Hread Hwrite Hidle.
  apply wp_zoom. unfold uartputc_sync. apply wp_bind, wp_zoom. simpl. apply wp_ret. apply wp_bind. simpl.
  eapply wp_mono; [apply (wp_both _ _ _ _ (Hidle _ k) (wait_printed spin _ k))|]. cbv beta.
  intros [] [u1 k1] [_ [E Hp]]. simpl in E, Hp. subst u1. apply wp_zoom. simpl. apply wp_zoom.
  eapply wp_mono; [apply Hwrite|]. intros [] x E. simpl. destruct Hp as (y & -> & Ey). simpl in E.
  exists x. split; [by destruct k as [? ? ? ? ? ? []]|]. by rewrite E, Ey, app_nil_r.
Qed.
Lemma kputs_printed bs k : wp (kputs me spin bs) (fun _ k' => printed (map u8 bs) k k') k.
Proof using Hread Hwrite Hidle.
  unfold kputs. revert k. induction bs as [|c bs IH]; intros k; cbn [for_each map]; [apply wp_ret, printed_nil|].
  apply wp_bind. eapply wp_mono; [apply putc_printed|]. intros [] k1 H1.
  eapply wp_mono; [apply IH|]. intros [] k2 H2. by eapply (printed_app [u8 c]).
Qed.

(** [procdump] prints the lines of the slots in use. *)
Lemma procdump_sends k : wp (procdump me spin) (fun _ k' => printed (map u8 (proc_listing (procs k))) k k') k.
Proof using Hread Hwrite Hidle.
  unfold procdump, proc_listing. apply wp_bind. eapply wp_mono; [apply (kputs_printed [NL])|]. intros [] k1 H1.
  assert (Hl : forall l k2, procs k2 = procs k -> wp (for_each l (fun i =>
      let! p := get i in
      if bool_decide (p_state p = UNUSED) then ret tt
      else kprintf me spin (chars "%d %s %s")
             [VWord (p_pid p); VStr (Some (state_name (p_state p))); VStr (Some (take_str 16 (p_name p)))] ;;
           kprintf me spin [NL] []))
    (fun _ k' => printed (map u8 (concat (map (fun i => if bool_decide (p_state (procs k i) = UNUSED) then []
       else proc_line (procs k i)) l))) k2 k') k2).
  2: { eapply wp_mono; [apply Hl; by eapply printed_procs|]. intros [] k2 H2. by eapply (printed_app (map u8 [NL])). }
  intros l. induction l as [|i l IH]; intros k2 Ek; cbn [for_each map concat]; [apply wp_ret, printed_nil|].
  apply wp_bind, wp_bind, wp_gets. rewrite Ek, map_app. destruct (bool_decide _); [by apply wp_ret, IH|].
  destruct (printf_line (p_pid (procs k i)) (state_name (p_state (procs k i))) (take_str 16 (p_name (procs k i)))) as (bs & Eb & Ep).
  apply wp_bind. unfold kprintf at 1. rewrite Ep. eapply wp_mono; [apply kputs_printed|]. intros [] k3 H3.
  eapply wp_mono; [apply (kputs_printed [NL])|]. intros [] k4 H4. pose proof (printed_app _ _ _ _ _ H3 H4) as H34.
  eapply wp_mono; [apply IH; rewrite (printed_procs _ _ _ H34); done|]. intros [] k5 H5. eapply printed_app; [|exact H5].
  unfold proc_line. rewrite Eb. cbn [default]. rewrite <-map_app in H34.
  by rewrite <-app_assoc, <-app_comm_cons, <-app_assoc, <-app_comm_cons in H34.
Qed.
End listing.
