(* ===== verification/Exec.v ===== *)
(** * kernel/exec.c: running a program

    [exec] over the file system and the memory of the kernel, for the process
    [me] with process id [pid].  The state is that of the file layer, whose
    environment is the rest of the kernel. *)

From S2P Require Import Prelude Bytes Riscv KString Locks Kalloc Vm Proc Bio Log Fs File Uart Devices.

Definition MAXARG : nat := 32.
Definition USERSTACK : Z := 1.
Definition ELF_MAGIC : Z := 0x464C457F.
Definition ELF_PROG_LOAD : Z := 1.

(** struct elfhdr and struct proghdr as bytes: the fields that are used. *)
Definition get64 (d : list Z) (off : nat) : Z := le_val (slice d off 8).
Definition ELFHDR_SIZE : Z := 64.
Definition elf_magic (d : list Z) : Z := get32 d 0.
Definition elf_entry (d : list Z) : Z := get64 d 24.
Definition elf_phoff (d : list Z) : Z := get64 d 32.
Definition elf_phnum (d : list Z) : Z := get16 d 56.
Definition PROGHDR_SIZE : Z := 56.
Definition ph_type (d : list Z) : Z := get32 d 0.
Definition ph_flags (d : list Z) : Z := get32 d 4.
Definition ph_off (d : list Z) : Z := get64 d 8.
Definition ph_vaddr (d : list Z) : Z := get64 d 16.
Definition ph_filesz (d : list Z) : Z := get64 d 32.
Definition ph_memsz (d : list Z) : Z := get64 d 40.

Definition flags2perm (flags : Z) : Z :=
  let perm := if negb (Z.land flags 1 =? 0) then PTE_X else 0 in
  if negb (Z.land flags 2 =? 0) then Z.lor perm PTE_W else perm.

Section exec.
Context {D : Type} (end_ trampoline : Z) (me : nat) (pid : Z).
Abbreviation K := (kern (devs D)).
Abbreviation S := (fsys K).

#[local] Instance exec_copy : CopyEnv K := copy_env end_ me.

(** Code of the rest of the kernel, and on its memory. *)
Definition kdo {A} (m : M K A) : M S A := fsdo (lenv m).
Definition memdo {A} (m : M kstate A) : M S A := kdo (liftk m).
Definition myproc : M S proc := kdo (get me).

(** An inode pointer of struct proc. *)
Definition inode_of (z : Z) : nat := Z.to_nat (z - 1).
Definition inode_ptr (ip : nat) : Z := Z.of_nat ip + 1.

(** begin_op, end_op and path lookup from the current directory. *)
Definition f_begin_op : M S unit := fsdo (lift begin_op).
Definition f_end_op : M S unit := fsdo (lift (end_op pid)).
Definition f_namei (path : list Z) : M S (option nat) :=
  let! p := myproc in fsdo (namei pid (inode_of (p_cwd p)) path).

(** The page at [va + i] for [loadseg]: mapped now if it was not. *)
Definition seg_page (pagetable va : Z) : M S Z :=
  let! pa := memdo (walkaddr pagetable va) in
  if negb (pa =? 0) then ret pa
  else
    let! m := memdo kalloc in
    if m =? 0 then ret 0
    else
      memdo (memset_m m 0 PGSIZE) ;;
      let! r := memdo (mappages pagetable va PGSIZE m (Z.lor (Z.lor (Z.lor PTE_W PTE_X) PTE_R) PTE_U)) in
      if negb (r =? 0) then memdo (kfree end_ m) ;; ret 0 else ret m.

Fixpoint loadseg_loop (pagetable va : Z) (ip : nat) (offset sz i : Z) (left : nat) : M S Z :=
  if negb (i <? sz) then ret 0
  else
    match left with
    | O => out_of_fuel
    | Datatypes.S left' =>
        let! pa := seg_page pagetable (u64 (va + i)) in
        if pa =? 0 then ret (-1)
        else
          let n := if sz - i <? PGSIZE then sz - i else PGSIZE in
          let! rd := fsdo (readi pid ip false pa (u32 (offset + i)) n) in
          memdo (put_bytes pa (snd rd)) ;;
          if negb (fst rd =? n) then ret (-1)
          else loadseg_loop pagetable va ip offset sz (u32 (i + PGSIZE)) left'
    end.
Definition loadseg (pagetable va : Z) (ip : nat) (offset sz : Z) : M S Z :=
  loadseg_loop pagetable va ip offset sz 0 (Datatypes.S (Z.to_nat (sz / PGSIZE))).

(** The loop over the program headers: whether all went well, and the value
    of [sz]. *)
Fixpoint load_segments (pagetable : Z) (ip : nat) (off sz : Z) (left : nat) : M S (bool * Z) :=
  match left with
  | O => ret (true, sz)
  | Datatypes.S left' =>
      let! rd := fsdo (readi pid ip false 0 (u32 off) PROGHDR_SIZE) in
      if negb (fst rd =? PROGHDR_SIZE) then ret (false, sz)
      else
        let ph := snd rd in
        if negb (ph_type ph =? ELF_PROG_LOAD) then
          load_segments pagetable ip (i32 (off + PROGHDR_SIZE)) sz left'
        else if ph_memsz ph <? ph_filesz ph then ret (false, sz)
        else if u64 (ph_vaddr ph + ph_memsz ph) <? ph_vaddr ph then ret (false, sz)
        else if negb (ph_vaddr ph mod PGSIZE =? 0) then ret (false, sz)
        else
          let! sz1 := memdo (uvmalloc pagetable sz (u64 (ph_vaddr ph + ph_memsz ph)) (flags2perm (i32 (ph_flags ph)))) in
          if sz1 =? 0 then ret (false, sz)
          else
            let! r := loadseg pagetable (ph_vaddr ph) ip (u32 (ph_off ph)) (u32 (ph_filesz ph)) in
            if r <? 0 then ret (false, sz1)
            else load_segments pagetable ip (i32 (off + PROGHDR_SIZE)) sz1 left'
  end.

(** The loop that pushes the argument strings: the stack pointer and the
    addresses pushed, or [None]. *)
Fixpoint push_args (pagetable stackbase : Z) (argv : list (list Z)) (sp : Z) (ustack : list Z) : M S (option (Z * list Z)) :=
  match argv with
  | [] => ret (Some (sp, ustack))
  | arg :: argv' =>
      if (MAXARG <=? length ustack)%nat then ret None
      else
        let sp := u64 (sp - (Z.of_nat (length arg) + 1)) in
        let sp := u64 (sp - sp mod 16) in
        if sp <? stackbase then ret None
        else
          let! r := memdo (copyout end_ pagetable sp (arg ++ [0])) in
          if r <? 0 then ret None else push_args pagetable stackbase argv' sp (ustack ++ [sp])
  end.

(** The user stack: the stack pointer and argc, or [None]. *)
Definition exec_stack (pagetable sz : Z) (argv : list (list Z)) : M S (option (Z * Z)) :=
  memdo (uvmclear pagetable (u64 (sz - (USERSTACK + 1) * PGSIZE))) ;;
  let stackbase := u64 (sz - USERSTACK * PGSIZE) in
  let! o := push_args pagetable stackbase argv sz [] in
  match o with
  | None => ret None
  | Some (sp, ustack) =>
      let argc := Z.of_nat (length ustack) in
      let sp := u64 (sp - (argc + 1) * 8) in
      let sp := u64 (sp - sp mod 16) in
      if sp <? stackbase then ret None
      else
        let! r := memdo (copyout end_ pagetable sp (flat_map (le_bytes 8) (ustack ++ [0]))) in
        if r <? 0 then ret None else ret (Some (sp, argc))
  end.

(** What follows the last slash. *)
Fixpoint last_elem (last path : list Z) : list Z :=
  match path with
  | [] => last
  | c :: path' => if c =? SLASH then last_elem path' path' else last_elem last path'
  end.

(** The part of [exec] that replaces the image of the process. *)
Definition exec_commit (path : list Z) (pagetable sz entry sp : Z) : M S unit :=
  let! p := myproc in
  memdo (store (p_trapframe p + tf_a1) sp) ;;
  kdo (change me (fun p => set_name (safestrcpy_list (p_name p) (last_elem path path) 16) p)) ;;
  kdo (change me (set_pagetable pagetable)) ;;
  kdo (change me (set_sz sz)) ;;
  memdo (store (p_trapframe p + tf_epc) entry) ;;
  memdo (store (p_trapframe p + tf_sp) sp) ;;
  kdo (proc_freepagetable end_ (p_pagetable p) (p_sz p)).

(** From the label [bad], with and without the inode. *)
Definition bad_image (pagetable sz : Z) : M S Z := kdo (proc_freepagetable end_ pagetable sz) ;; ret (-1).
Definition bad_inode (ip : nat) : M S Z := fsdo (iunlockput pid ip) ;; f_end_op ;; ret (-1).

(** After the program has been read. *)
Definition exec_image (path : list Z) (argv : list (list Z)) (pagetable sz entry : Z) : M S Z :=
  let sz := PGROUNDUP sz in
  let! sz1 := memdo (uvmalloc pagetable sz (u64 (sz + (USERSTACK + 1) * PGSIZE)) PTE_W) in
  if sz1 =? 0 then bad_image pagetable sz
  else
    let! o := exec_stack pagetable sz1 argv in
    match o with
    | None => bad_image pagetable sz1
    | Some (sp, argc) => exec_commit path pagetable sz1 entry sp ;; ret argc
    end.

Definition exec (path : list Z) (argv : list (list Z)) : M S Z :=
  f_begin_op ;;
  let! o := f_namei path in
  match o with
  | None => f_end_op ;; ret (-1)
  | Some ip =>
      fsdo (ilock pid ip) ;;
      let! rd := fsdo (readi pid ip false 0 0 ELFHDR_SIZE) in
      let elf := snd rd in
      if negb (fst rd =? ELFHDR_SIZE) then bad_inode ip
      else if negb (elf_magic elf =? ELF_MAGIC) then bad_inode ip
      else
        let! pagetable := kdo (proc_pagetable end_ trampoline me) in
        if pagetable =? 0 then bad_inode ip
        else
          let! (ok, sz) := load_segments pagetable ip (i32 (elf_phoff elf)) 0 (Z.to_nat (elf_phnum elf)) in
          if negb ok then
            kdo (proc_freepagetable end_ pagetable sz) ;; bad_inode ip
          else
            fsdo (iunlockput pid ip) ;;
            f_end_op ;;
            exec_image path argv pagetable sz (elf_entry elf)
  end.
End exec.
