(* ===== verification/Sysfile.v ===== *)
(** * kernel/sysfile.c: the system calls on files

    Every handler, for the process [me] with process id [pid], over the file
    layer whose environment is the rest of the kernel; and [pipealloc] of
    pipe.c.  A pointer to an open file or to an inode in struct proc is the
    index in its table plus one, 0 is the null pointer. *)

From S2P Require Import Prelude Bytes Riscv KString Locks Kalloc Vm Proc Syscall Bio Log Fs File Pipe Uart Devices Exec.

Definition MAXPATH : Z := 128.
Definition O_RDONLY : Z := 0x000.
Definition O_WRONLY : Z := 0x001.
Definition O_RDWR : Z := 0x002.
Definition O_CREATE : Z := 0x200.
Definition O_TRUNC : Z := 0x400.

(** Fields of struct file and of an inode. *)
Definition fset_rw (r w : bool) (x : file) : file :=
  File (f_type x) (f_ref x) r w (f_pipe x) (f_ip x) (f_off x) (f_major x).
Definition fset_pipe (v : Z) (x : file) : file :=
  File (f_type x) (f_ref x) (f_readable x) (f_writable x) v (f_ip x) (f_off x) (f_major x).
Definition fset_ip (v : nat) (x : file) : file :=
  File (f_type x) (f_ref x) (f_readable x) (f_writable x) (f_pipe x) v (f_off x) (f_major x).
Definition fset_major (v : Z) (x : file) : file :=
  File (f_type x) (f_ref x) (f_readable x) (f_writable x) (f_pipe x) (f_ip x) (f_off x) v.
Definition dset_nlink (v : Z) (x : dinode) : dinode :=
  Dinode (d_type x) (d_major x) (d_minor x) v (d_size x) (d_addrs x).
Definition dset_dev (major minor : Z) (x : dinode) : dinode :=
  Dinode (d_type x) major minor (d_nlink x) (d_size x) (d_addrs x).

(** ** The parts on the file system *)

Section inodes.
Context {E : Type} `{CE : CopyEnv E} (pid : Z).
Abbreviation F := (fstate E).

(** [ip->nlink += k] and [iupdate]. *)
Definition add_nlink (ip : nat) (k : Z) : M F unit :=
  change_inode ip (iset_d (fun d => dset_nlink (i16 (d_nlink d + k)) d)) ;; iupdate pid ip.

(** The loop of [isdirempty]. *)
Fixpoint isdirempty_loop (dp : nat) (off : Z) (left : nat) : M F bool :=
  let! x := get_inode dp in
  if negb (off <? d_size (i_d x)) then ret true
  else
    match left with
    | O => out_of_fuel
    | S left' =>
        let! rd := readi pid dp false 0 off DIRENT_SIZE in
        if negb (fst rd =? DIRENT_SIZE) then panic "isdirempty: readi"
        else if negb (de_inum (snd rd) =? 0) then ret false
        else isdirempty_loop dp (off + DIRENT_SIZE) left'
    end.
Definition isdirempty (dp : nat) : M F bool :=
  let! x := get_inode dp in
  isdirempty_loop dp (2 * DIRENT_SIZE) (S (Z.to_nat (d_size (i_d x)))).

(** The part of [sys_link] after its arguments, without begin_op and end_op. *)
Definition link_inode (cwd : nat) (old new : list Z) : M F Z :=
  let! o := namei pid cwd old in
  match o with
  | None => ret (-1)
  | Some ip =>
      ilock pid ip ;;
      let! x := get_inode ip in
      if d_type (i_d x) =? T_DIR then iunlockput pid ip ;; ret (-1)
      else
        add_nlink ip 1 ;;
        iunlock pid ip ;;
        let bad := ilock pid ip ;; add_nlink ip (-1) ;; iunlockput pid ip ;; ret (-1) in
        let! (o, name) := nameiparent pid cwd new in
        match o with
        | None => bad
        | Some dp =>
            ilock pid dp ;;
            let! x := get_inode ip in
            let! y := get_inode dp in
            let! r := (if negb (i_dev y =? i_dev x) then ret (-1) else dirlink pid dp name (i_inum x)) in
            if r <? 0 then iunlockput pid dp ;; bad
            else iunlockput pid dp ;; iput pid ip ;; ret 0
        end
  end.

Definition DOT : list Z := [46].
Definition DOTDOT : list Z := [46; 46].

(** The part of [sys_unlink] after its argument. *)
Definition unlink_inode (cwd : nat) (path : list Z) : M F Z :=
  let! (o, name) := nameiparent pid cwd path in
  match o with
  | None => ret (-1)
  | Some dp =>
      ilock pid dp ;;
      let bad := iunlockput pid dp ;; ret (-1) in
      if (namecmp name DOT =? 0) || (namecmp name DOTDOT =? 0) then bad
      else
        let! o := dirlookup pid dp name in
        match o with
        | None => bad
        | Some (ip, off) =>
            ilock pid ip ;;
            let! x := get_inode ip in
            if d_nlink (i_d x) <? 1 then panic "unlink: nlink < 1"
            else
              let! full := (if d_type (i_d x) =? T_DIR then let! e := isdirempty ip in ret (negb e) else ret false) in
              if full then iunlockput pid ip ;; bad
              else
                let! r := writei pid dp (SKernel (repeat 0 (Z.to_nat DIRENT_SIZE))) off DIRENT_SIZE in
                if negb (r =? DIRENT_SIZE) then panic "unlink: writei"
                else
                  (when! d_type (i_d x) =? T_DIR do add_nlink dp (-1)) ;;
                  iunlockput pid dp ;;
                  add_nlink ip (-1) ;;
                  iunlockput pid ip ;;
                  ret 0
        end
  end.

(** [create]: the inode, locked, or [None]. *)
Definition create (cwd : nat) (path : list Z) (type major minor : Z) : M F (option nat) :=
  let! (o, name) := nameiparent pid cwd path in
  match o with
  | None => ret None
  | Some dp =>
      ilock pid dp ;;
      let! o := dirlookup pid dp name in
      match o with
      | Some (ip, _) =>
          iunlockput pid dp ;;
          ilock pid ip ;;
          let! x := get_inode ip in
          if (type =? T_FILE) && ((d_type (i_d x) =? T_FILE) || (d_type (i_d x) =? T_DEVICE)) then ret (Some ip)
          else iunlockput pid ip ;; ret None
      | None =>
          let! y := get_inode dp in
          let! o := ialloc pid (i_dev y) type in
          match o with
          | None => iunlockput pid dp ;; ret None
          | Some ip =>
              ilock pid ip ;;
              change_inode ip (iset_d (dset_dev major minor)) ;;
              change_inode ip (iset_d (dset_nlink 1)) ;;
              iupdate pid ip ;;
              let! x := get_inode ip in
              let fail := change_inode ip (iset_d (dset_nlink 0)) ;; iupdate pid ip ;;
                iunlockput pid ip ;; iunlockput pid dp ;; ret None in
              let! dots := (if type =? T_DIR then
                  let! r := dirlink pid ip DOT (i_inum x) in
                  if r <? 0 then ret false
                  else let! r := dirlink pid ip DOTDOT (i_inum y) in ret (negb (r <? 0))
                else ret true) in
              if negb dots then fail
              else
                let! r := dirlink pid dp name (i_inum x) in
                if r <? 0 then fail
                else
                  (when! type =? T_DIR do add_nlink dp 1) ;;
                  iunlockput pid dp ;;
                  ret (Some ip)
          end
      end
  end.
End inodes.

(** ** The handlers *)

Section handlers.
Context {D : Type} `{PD : PortEnv D} (end_ trampoline : Z) (me : nat) (pid : Z).
Abbreviation K := (kern (devs D)).
Abbreviation S := (fsys K).

#[local] Instance sys_copy : CopyEnv K := copy_env end_ me.
#[local] Instance sys_dev : DevEnv K := dev_env end_ me.

Definition file_of (z : Z) : nat := Z.to_nat (z - 1).
Definition file_ptr (f : nat) : Z := Z.of_nat f + 1.
Definition set_fd (fd : nat) (v : Z) : M S unit := kdo (change me (fun p => set_ofile (upd (p_ofile p) fd v) p)).

Definition f_argint (n : Z) : M S Z := kdo (argint me n).
Definition f_argaddr (n : Z) : M S Z := kdo (argaddr me n).
(** The string argument, up to its NUL, if it could be fetched. *)
Definition f_argstr (n : Z) : M S (option (list Z)) :=
  let! (r, bs) := kdo (argstr me n MAXPATH) in
  ret (if r <? 0 then None else Some (take_str (length bs) bs)).

Definition argfd (n : Z) : M S (option (nat * nat)) :=
  let! fd := f_argint n in
  if (fd <? 0) || (Z.of_nat NOFILE <=? fd) then ret None
  else
    let! p := myproc me in
    let v := p_ofile p (Z.to_nat fd) in
    ret (if v =? 0 then None else Some (Z.to_nat fd, file_of v)).

Definition fdalloc (f : nat) : M S Z :=
  let! p := myproc me in
  match List.find (fun fd => p_ofile p fd =? 0) (seq 0 NOFILE) with
  | Some fd => set_fd fd (file_ptr f) ;; ret (Z.of_nat fd)
  | None => ret (-1)
  end.

Definition sys_dup : M S Z :=
  let! o := argfd 0 in
  match o with
  | None => ret (-1)
  | Some (_, f) =>
      let! fd := fdalloc f in
      if fd <? 0 then ret (-1) else File.filedup f ;; ret fd
  end.

Definition sys_read : M S Z :=
  let! p := f_argaddr 1 in
  let! n := f_argint 2 in
  let! o := argfd 0 in
  match o with None => ret (-1) | Some (_, f) => fileread pid f p n end.

Definition sys_write : M S Z :=
  let! p := f_argaddr 1 in
  let! n := f_argint 2 in
  let! o := argfd 0 in
  match o with None => ret (-1) | Some (_, f) => filewrite pid f p n end.

Definition sys_close : M S Z :=
  let! o := argfd 0 in
  match o with
  | None => ret (-1)
  | Some (fd, f) => set_fd fd 0 ;; File.fileclose pid f ;; ret 0
  end.

Definition sys_fstat (pad : list Z) : M S Z :=
  let! st := f_argaddr 1 in
  let! o := argfd 0 in
  match o with None => ret (-1) | Some (_, f) => filestat pid pad f st end.

(** A body on the file system inside a transaction. *)
Definition in_op {A} (m : M (fstate K) A) : M S A :=
  f_begin_op ;; let! r := fsdo m in f_end_op pid ;; ret r.
Definition my_cwd : M S nat := let! p := myproc me in ret (inode_of (p_cwd p)).

Definition sys_link : M S Z :=
  let! old := f_argstr 0 in
  match old with
  | None => ret (-1)
  | Some old =>
      let! new := f_argstr 1 in
      match new with
      | None => ret (-1)
      | Some new => let! cwd := my_cwd in in_op (link_inode pid cwd old new)
      end
  end.

Definition sys_unlink : M S Z :=
  let! path := f_argstr 0 in
  match path with
  | None => ret (-1)
  | Some path => let! cwd := my_cwd in in_op (unlink_inode pid cwd path)
  end.

(** [sys_open] from the locked inode on. *)
Definition open_inode (ip : nat) (omode : Z) : M S Z :=
  let bad := fsdo (iunlockput pid ip) ;; f_end_op pid ;; ret (-1) in
  let! x := fsdo (get_inode ip) in
  let type := d_type (i_d x) in
  let major := d_major (i_d x) in
  if (type =? T_DEVICE) && ((major <? 0) || (NDEV <=? major)) then bad
  else
    let! o := filealloc in
    match o with
    | None => bad
    | Some f =>
        let! fd := fdalloc f in
        if fd <? 0 then File.fileclose pid f ;; bad
        else
          (if type =? T_DEVICE then change_file f (fset_type FD_DEVICE) ;; change_file f (fset_major major)
           else change_file f (fset_type FD_INODE) ;; change_file f (fset_off 0)) ;;
          change_file f (fset_ip ip) ;;
          let wronly := negb (Z.land omode O_WRONLY =? 0) in
          change_file f (fset_rw (negb wronly) (wronly || negb (Z.land omode O_RDWR =? 0))) ;;
          (when! negb (Z.land omode O_TRUNC =? 0) && (type =? T_FILE) do fsdo (itrunc pid ip)) ;;
          fsdo (iunlock pid ip) ;;
          f_end_op pid ;;
          ret fd
    end.

Definition sys_open : M S Z :=
  let! omode := f_argint 1 in
  let! path := f_argstr 0 in
  match path with
  | None => ret (-1)
  | Some path =>
      f_begin_op ;;
      let! cwd := my_cwd in
      if negb (Z.land omode O_CREATE =? 0) then
        let! o := fsdo (create pid cwd path T_FILE 0 0) in
        match o with
        | None => f_end_op pid ;; ret (-1)
        | Some ip => open_inode ip omode
        end
      else
        let! o := fsdo (namei pid cwd path) in
        match o with
        | None => f_end_op pid ;; ret (-1)
        | Some ip =>
            fsdo (ilock pid ip) ;;
            let! x := fsdo (get_inode ip) in
            if (d_type (i_d x) =? T_DIR) && negb (omode =? O_RDONLY) then
              fsdo (iunlockput pid ip) ;; f_end_op pid ;; ret (-1)
            else open_inode ip omode
        end
  end.

(** [sys_mkdir] and [sys_mknod] after their arguments. *)
Definition make_inode (path : option (list Z)) (type major minor : Z) : M S Z :=
  let! cwd := my_cwd in
  let! o := (match path with None => ret None | Some path => fsdo (create pid cwd path type major minor) end) in
  match o with
  | None => f_end_op pid ;; ret (-1)
  | Some ip => fsdo (iunlockput pid ip) ;; f_end_op pid ;; ret 0
  end.

Definition sys_mkdir : M S Z :=
  f_begin_op ;;
  let! path := f_argstr 0 in
  make_inode path T_DIR 0 0.

Definition sys_mknod : M S Z :=
  f_begin_op ;;
  let! major := f_argint 1 in
  let! minor := f_argint 2 in
  let! path := f_argstr 0 in
  make_inode path T_DEVICE (i16 major) (i16 minor).

Definition sys_chdir : M S Z :=
  f_begin_op ;;
  let! path := f_argstr 0 in
  let! cwd := my_cwd in
  let! o := (match path with None => ret None | Some path => fsdo (namei pid cwd path) end) in
  match o with
  | None => f_end_op pid ;; ret (-1)
  | Some ip =>
      fsdo (ilock pid ip) ;;
      let! x := fsdo (get_inode ip) in
      if negb (d_type (i_d x) =? T_DIR) then fsdo (iunlockput pid ip) ;; f_end_op pid ;; ret (-1)
      else
        fsdo (iunlock pid ip) ;;
        fsdo (iput pid cwd) ;;
        f_end_op pid ;;
        kdo (change me (set_cwd (inode_ptr ip))) ;;
        ret 0
  end.

(** The loop of [sys_exec] that copies the arguments in: whether all of them
    came, the strings, and the pages they are in. *)
Fixpoint fetch_args (uargv : Z) (i : nat) (argv : list (list Z)) (pages : list Z) (left : nat)
    : M S (bool * list (list Z) * list Z) :=
  match left with
  | O => ret (false, argv, pages)
  | Datatypes.S left' =>
      let! (r, uarg) := kdo (fetchaddr me (u64 (uargv + 8 * Z.of_nat i))) in
      if r <? 0 then ret (false, argv, pages)
      else if uarg =? 0 then ret (true, argv, pages)
      else
        let! pg := memdo kalloc in
        if pg =? 0 then ret (false, argv, pages)
        else
          let! (r, bs) := kdo (fetchstr me uarg PGSIZE) in
          memdo (put_bytes pg bs) ;;
          if r <? 0 then ret (false, argv, pages ++ [pg])
          else fetch_args uargv (Datatypes.S i) (argv ++ [take_str (length bs) bs]) (pages ++ [pg]) left'
  end.

Definition sys_exec : M S Z :=
  let! uargv := f_argaddr 1 in
  let! path := f_argstr 0 in
  match path with
  | None => ret (-1)
  | Some path =>
      let! (ok, argv, pages) := fetch_args uargv 0 [] [] MAXARG in
      let! r := (if ok : bool then exec end_ trampoline me pid path argv else ret (-1)) in
      for_each pages (fun pg => memdo (kfree end_ pg)) ;;
      ret r
  end.

(** [pipealloc] of pipe.c: the two files. *)
Definition new_pipe (pi : Z) : M S unit :=
  kdo (modify (set_devs (fun d => set_pipe pi (pipe_init (p_data (pipes d pi))) d))).
Definition pipe_end (f : nat) (pi : Z) (writable : bool) : M S unit :=
  change_file f (fset_type FD_PIPE) ;;
  change_file f (fset_rw (negb writable) writable) ;;
  change_file f (fset_pipe pi).
Definition pipealloc : M S (option (nat * nat)) :=
  let! o := filealloc in
  match o with
  | None => ret None
  | Some f0 =>
      let! o := filealloc in
      match o with
      | None => File.fileclose pid f0 ;; ret None
      | Some f1 =>
          let! pi := memdo kalloc in
          if pi =? 0 then File.fileclose pid f0 ;; File.fileclose pid f1 ;; ret None
          else new_pipe pi ;; pipe_end f0 pi false ;; pipe_end f1 pi true ;; ret (Some (f0, f1))
      end
  end.

Definition sys_pipe : M S Z :=
  let! fdarray := f_argaddr 0 in
  let! o := pipealloc in
  match o with
  | None => ret (-1)
  | Some (rf, wf) =>
      let close_both := File.fileclose pid rf ;; File.fileclose pid wf ;; ret (-1) in
      let! fd0 := fdalloc rf in
      if fd0 <? 0 then close_both
      else
        let! fd1 := fdalloc wf in
        if fd1 <? 0 then set_fd (Z.to_nat fd0) 0 ;; close_both
        else
          let! p := myproc me in
          let! r := memdo (copyout end_ (p_pagetable p) fdarray (int_bytes fd0)) in
          let! r := (if r <? 0 then ret r
                     else memdo (copyout end_ (p_pagetable p) (u64 (fdarray + 4)) (int_bytes fd1))) in
          if r <? 0 then set_fd (Z.to_nat fd0) 0 ;; set_fd (Z.to_nat fd1) 0 ;; close_both
          else ret 0
  end.
End handlers.
