(* ===== verification/Kernel.v ===== *)
(** * The kernel put together

    The file layer that the process code of Proc.v asks for, and the system
    calls on files that the dispatcher of Syscall.v asks for, given by the file
    system, the open files, the pipes and the console.  The state is that of
    the processes, with the file layer's own state beside it. *)

From S2P Require Import Prelude Bytes Riscv KString Locks Kalloc Vm Proc ProcInv Fork Syscall Bio Log Fs FsFrame File Pipe Uart Devices Exec Sysfile.

(** The state of the file layer: log and buffer cache, superblock, inode
    table, open files, and the devices. *)
Record flayer (D : Type) := FLayer {
  y_log : lstate;
  y_sb : superblock;
  y_itable : nat -> inode;
  y_ftable : nat -> file;
  y_devs : devs D;
}.
Arguments FLayer {D}. Arguments y_log {D}. Arguments y_sb {D}. Arguments y_itable {D}.
Arguments y_ftable {D}. Arguments y_devs {D}.

Section kernel.
Context {D : Type} `{PD : PortEnv D} (end_ trampoline : Z) (pad : list Z).
Abbreviation K := (kern (flayer D)).
Abbreviation KD := (kern (devs D)).
Abbreviation S := (fsys KD).

(** The two views of the state: the processes around the files, and the files
    around the processes. *)
Definition to_fs (k : K) : S :=
  let y := files k in
  FSys (FState (y_log y) (y_sb y) (y_itable y)
          (Kern (kst k) (procs k) (nextpid k) (initproc k) (ticks k) (zs k) (y_devs y)))
    (y_ftable y).
Definition of_fs (s : S) : K :=
  let k := fenv (ffs s) in
  Kern (kst k) (procs k) (nextpid k) (initproc k) (ticks k) (zs k)
    (FLayer (fl (ffs s)) (fsb (ffs s)) (itable (ffs s)) (ftable s) (files k)).

Lemma of_to_fs k : of_fs (to_fs k) = k.
Proof. destruct k as [? ? ? ? ? ? []]. done. Qed.
Lemma to_of_fs s : to_fs (of_fs s) = s.
Proof. destruct s as [[? ? ? []] ?]. done. Qed.

Definition onfs {A} (m : M S A) : M K A := zoom to_fs (fun s _ => of_fs s) m.

(** Code that needs the process id of the caller. *)
Definition with_pid {A} (me : nat) (m : Z -> M S A) : M K A :=
  let! p := get me in onfs (m (p_pid p)).

#[export] Instance kernel_files : FileLayer (flayer D) := {|
  Proc.filedup z := onfs (let! f := File.filedup (file_of z) in ret (file_ptr f));
  Proc.fileclose me z := with_pid me (fun pid => @File.fileclose KD (dev_env end_ me) pid (file_of z));
  Proc.idup z := onfs (fsdo (Fs.idup (inode_of z)) ;; ret z);
  Proc.begin_op := onfs (f_begin_op);
  Proc.iput me z := with_pid me (fun pid => fsdo (Fs.iput pid (inode_of z)));
  Proc.end_op me := with_pid me (fun pid => f_end_op pid);
  Proc.namei me path := with_pid me (fun pid =>
    let! p := myproc me in
    let! o := fsdo (@Fs.namei KD (copy_env end_ me) pid (inode_of (p_cwd p)) path) in
    ret (match o with Some ip => inode_ptr ip | None => 0 end));
|}.

(** The entries of the table of system calls that sysfile.c provides; [pad] is
    the gap in struct stat. *)
Definition file_syscall (me : nat) (num pid : Z) : M S Z :=
  if num =? 4 then sys_pipe end_ me pid
  else if num =? 5 then sys_read end_ me pid
  else if num =? 7 then sys_exec end_ trampoline me pid
  else if num =? 8 then sys_fstat end_ me pid pad
  else if num =? 9 then sys_chdir end_ me pid
  else if num =? 10 then sys_dup me
  else if num =? 15 then sys_open end_ me pid
  else if num =? 16 then sys_write end_ me pid
  else if num =? 17 then sys_mknod end_ me pid
  else if num =? 18 then sys_unlink end_ me pid
  else if num =? 19 then sys_link end_ me pid
  else if num =? 20 then sys_mkdir end_ me pid
  else if num =? 21 then sys_close end_ me pid
  else ret (-1).
#[export] Instance kernel_calls : FileCalls (flayer D) := {|
  file_call me num := with_pid me (file_syscall me num);
|}.

(** ** What the file layer promises to the process code *)

#[export] Instance woke_preorder {F} : PreOrder (@woke F).
Proof. split; [intros k; apply woke_refl|intros k k1 k2; apply woke_trans]. Qed.

(** Code of the file layer that wakes processes at most. *)
Definition fs_woke (x x' : fstate KD) : Prop := woke (fenv x) (fenv x').
Definition sys_woke (s s' : S) : Prop := fs_woke (ffs s) (ffs s').
#[local] Instance fs_woke_preorder : PreOrder fs_woke.
Proof. split; [intros x; apply woke_refl|intros x y z; apply woke_trans]. Qed.
#[local] Instance sys_woke_preorder : PreOrder sys_woke.
Proof. split; [intros x; apply woke_refl|intros x y z; apply woke_trans]. Qed.

Lemma fs_woke_same x x' : fenv x' = fenv x -> fs_woke x x'.
Proof. unfold fs_woke. intros ->. apply woke_refl. Qed.
Lemma wakes_fsdo {A} (m : M (fstate KD) A) : moves fs_woke m -> moves sys_woke (fsdo m).
Proof. by apply moves_zoom. Qed.
Lemma wakes_env {A} (m : M KD A) : moves woke m -> moves sys_woke (fsdo (lenv m)).
Proof. intros Hm. apply wakes_fsdo. by apply (moves_zoom fs_woke woke). Qed.
Lemma wakes_get f : moves sys_woke (get_file f).
Proof. apply moves_gets, _. Qed.
Lemma wakes_change f g : moves sys_woke (change_file f g).
Proof. apply moves_modify. intros s. apply woke_refl. Qed.
#[local] Hint Resolve fs_woke_same wakes_fsdo wakes_get wakes_change : moves.

Lemma pipeclose_wakes me pi w (k : KD) : wlp (kpipeclose end_ me pi w) (fun _ => woke k) k.
Proof.
  unfold kpipeclose. apply wlp_bind, wlp_zoom. unfold pipeclose.
  assert (Hw : forall (f : pipe -> pipe) c p, wlp (modp f ;; @env KD unit (@wakeup1 KD (pipe_env end_ me pi) c))
    (fun _ x => woke k (snd x)) (p, k)).
  { intros f c p. apply wlp_bind, wlp_modify, wlp_zoom. simpl. apply woke_wakeup. }
  apply wlp_bind. eapply wlp_mono; [destruct w; apply Hw|]. cbv beta. intros [] [p k1] H1.
  apply wlp_bind, wlp_gets, wlp_ret. simpl in *.
  assert (H2 : woke k (set_devs (set_pipe pi p) k1)) by (eapply woke_trans; [exact H1|apply woke_files]).
  destruct (_ && _); [|by apply wlp_ret]. unfold liftk. apply wlp_zoom. intros [] t _.
  eapply woke_trans; [exact H2|apply woke_kst].
Qed.

Lemma fileclose_wakes me pid f : moves sys_woke (@File.fileclose KD (dev_env end_ me) pid f).
Proof.
  assert (Hp : forall pi w, moves sys_woke (fsdo (lenv (kpipeclose end_ me pi w)))).
  { intros pi w. apply wakes_env. intros k. apply pipeclose_wakes. }
  unfold File.fileclose. simpl. moves.
Qed.

(** What wakes processes at most, seen from the processes. *)
Lemma wakes_onfs {A} (m : M S A) : moves sys_woke m -> moves woke (onfs m).
Proof. apply moves_zoom. intros k s (H1 & H2 & H3). by split_and!. Qed.
Lemma wakes_with_pid {A} me (m : Z -> M S A) : (forall pid, moves sys_woke (m pid)) -> moves woke (with_pid me m).
Proof. intros Hm. apply moves_bind; [exact _|apply moves_gets, _|]. intros p. apply wakes_onfs, Hm. Qed.

(** The promise of ProcInv.v. *)
#[export] Instance kernel_files_ok : FileLayerOk (flayer D).
Proof using Type.
  split.
  - intros f. apply wakes_onfs. unfold File.filedup. moves.
  - intros me f. apply wakes_with_pid. intros pid. apply fileclose_wakes.
  - intros d. apply wakes_onfs. moves.
  - apply wakes_onfs. unfold f_begin_op. moves.
  - intros me d. apply wakes_with_pid. moves.
  - intros me. apply wakes_with_pid. intros pid. unfold f_end_op. moves.
Qed.

(** The promise of Fork.v: a file with a reference count that does not
    overflow. *)
Definition kernel_file_live (n : nat) (y : flayer D) (z : Z) : Prop :=
  0 < z /\ 1 <= f_ref (y_ftable y (file_of z)) /\ f_ref (y_ftable y (file_of z)) + Z.of_nat n < 2 ^ 31.

#[export, refine] Instance kernel_file_dup : FileDup (flayer D) := {| file_live := kernel_file_live |}.
Proof using Type.
  - intros n y z (H1 & H2 & H3). split_and!; lia.
  - intros n z k (H1 & H2 & H3). simpl. unfold onfs. apply wp_zoom, wp_bind. unfold File.filedup.
    apply wp_bind, wp_gets. simpl. rewrite (proj2 (Z.ltb_ge _ _)) by lia. apply wp_bind, wp_modify, wp_ret, wp_ret.
    split; [unfold file_ptr, file_of; lia|]. eexists. split; [reflexivity|]. simpl. intros m g (G1 & G2 & G3).
    split; [done|]. simpl. rewrite i32_id by lia.
    destruct (decide (file_of g = file_of z)) as [E|E]; [rewrite E in *; rewrite upd_same|rewrite upd_other by done]; simpl; lia.
  - intros d k. simpl. unfold onfs. apply wp_zoom, wp_bind. unfold fsdo. apply wp_zoom. apply wp_bind, wp_modify, wp_ret, wp_ret.
    split; [done|]. eexists. reflexivity.
Defined.
End kernel.
