(* ===== verification/Refs.v ===== *)
(** * File descriptors and the reference counts of open files

    The open files of file.c, the descriptor tables of proc.c and the system
    calls of sysfile.c together: the reference count of every open file is the
    number of descriptors that point to it, in every state that system calls
    and process switches reach. *)

From stdpp Require Import relations.
From S2P Require Import Prelude Bytes Riscv KString Locks Kalloc Vm Proc ProcInv Fork Syscall Bio Log Fs FsFrame LogCrash File Pipe Uart Console Devices Exec Sysfile Kernel.

(** ** What leaves the descriptors alone *)

(** The descriptor tables are the same, and no process has ended. *)
Definition same_fds (P P' : nat -> proc) : Prop :=
  forall i, p_ofile (P' i) = p_ofile (P i) /\ (live (p_state (P i)) -> live (p_state (P' i))).
#[export] Instance same_fds_preorder : PreOrder same_fds.
Proof.
  split; [done|]. intros P P1 P2 H1 H2 i. destruct (H1 i), (H2 i). split; [congruence|auto].
Qed.

Lemma compat_trans p p1 p2 : compat p p1 -> compat p1 p2 -> compat p p2.
Proof. intros (H1 & H2 & H3) (G1 & G2 & G3). split_and!; [congruence..|].
  destruct H3 as [E|[? ?]], G3 as [E'|[? ?]]; [left; congruence|right; by rewrite <-E|right; by rewrite E'|by right].
Qed.

Section quiet.
Context {F : Type}.
Abbreviation K := (kern F).

Definition k_quiet (k k' : K) : Prop :=
  same_fds (procs k) (procs k') /\ nextpid k' = nextpid k /\ initproc k' = initproc k /\
  forall i, compat (procs k i) (procs k' i).
#[export] Instance k_quiet_preorder : PreOrder k_quiet.
Proof.
  split; [intros k; split_and!; try done; intros i; apply compat_refl|].
  intros k k1 k2 (H1 & H2 & H3 & H4) (G1 & G2 & G3 & G4). split_and!; [by etransitivity|congruence..|].
  intros i. by eapply compat_trans.
Qed.

Lemma woke_quiet k k' : woke k k' -> k_quiet k k'.
Proof.
  intros (Hn & Hi & Hp). split_and!; [|done|done|]; intros i; destruct (Hp i) as [->|[Hs ->]].
  - done.
  - split; [done|]. intros _. by split.
  - apply compat_refl.
  - split_and!; try done. right. by rewrite Hs.
Qed.

Lemma quiet_woke {A} (m : M K A) : moves woke m -> moves k_quiet m.
Proof. intros Hm k. eapply wlp_mono; [apply Hm|]. intros a. apply woke_quiet. Qed.
Lemma quiet_get i : moves k_quiet (get (F := F) i).
Proof. apply moves_gets, _. Qed.
Lemma quiet_liftk {A} (m : M kstate A) : moves k_quiet (liftk (F := F) m).
Proof. apply (moves_zoom k_quiet (fun _ _ => True)); [intros; apply woke_quiet, woke_kst|]. by intros s a s'. Qed.
Lemma quiet_wakeup me c : moves k_quiet (wakeup (F := F) me c).
Proof. apply quiet_woke. intros k. apply woke_wakeup. Qed.
Lemma quiet_killed me : moves k_quiet (killed (F := F) me).
Proof. apply moves_gets, _. Qed.
Lemma quiet_change i f : (forall p, p_ofile (f p) = p_ofile p) -> (forall p, compat p (f p)) ->
  moves k_quiet (change (F := F) i f).
Proof.
  intros H1 H2. apply moves_modify. intros k. split_and!; try done; intros j; simpl; upd_cases j i; try done.
  - split; [apply H1|apply compat_live, H2].
  - apply compat_refl.
Qed.
Lemma quiet_files k x : k_quiet k (set_files x k).
Proof. apply woke_quiet, woke_files. Qed.
End quiet.
#[export] Hint Resolve quiet_get quiet_liftk quiet_wakeup quiet_killed : moves.
#[export] Hint Extern 1 (moves k_quiet (change _ _)) =>
  (apply quiet_change; [done|by intros; split_and!; [| |left]]) : moves.

Section devices.
Context {D : Type} `{PD : PortEnv D} (end_ : Z) (me : nat).
Abbreviation KD := (kern (devs D)).

(** The same for code on a pipe, on the ring and on the console. *)
Definition pipe_quiet (x x' : pipe * KD) : Prop := k_quiet (snd x) (snd x').
Definition uart_quiet (x x' : uart * KD) : Prop := k_quiet (snd x) (snd x').
Definition cons_quiet (x x' : cons * (uart * KD)) : Prop := uart_quiet (snd x) (snd x').
#[local] Instance pipe_quiet_preorder : PreOrder pipe_quiet.
Proof. split; [intros x; by unfold pipe_quiet|intros x y z; unfold pipe_quiet; apply transitivity]. Qed.
#[local] Instance uart_quiet_preorder : PreOrder uart_quiet.
Proof. split; [intros x; by unfold uart_quiet|intros x y z; unfold uart_quiet; apply transitivity]. Qed.
#[local] Instance cons_quiet_preorder : PreOrder cons_quiet.
Proof. split; [intros x; by unfold cons_quiet|intros x y z; unfold cons_quiet; apply transitivity]. Qed.

Lemma quiet_ondev {A} (m : M D A) : moves k_quiet (ondev m).
Proof. apply (moves_zoom k_quiet (fun _ _ => True)); [intros; apply quiet_files|]. by intros s a s'. Qed.
Lemma quiet_onpipe {A} pi (m : M (pipe * KD) A) : moves pipe_quiet m -> moves k_quiet (onpipe pi m).
Proof. apply moves_zoom. intros k x Hx. etransitivity; [exact Hx|apply quiet_files]. Qed.
Lemma quiet_onuart {A} (m : M (uart * KD) A) : moves uart_quiet m -> moves k_quiet (onuart m).
Proof. apply moves_zoom. intros k x Hx. etransitivity; [exact Hx|apply quiet_files]. Qed.
Lemma quiet_oncons {A} (m : M (cons * (uart * KD)) A) : moves cons_quiet m -> moves uart_quiet (oncons m).
Proof. apply moves_zoom. intros k x Hx. unfold uart_quiet. etransitivity; [exact Hx|apply quiet_files]. Qed.
Lemma quiet_env {A} (m : M KD A) : moves k_quiet m -> moves pipe_quiet (env m).
Proof. by apply moves_zoom. Qed.
Lemma quiet_dev {A} (m : M KD A) : moves k_quiet m -> moves uart_quiet (dev m).
Proof. by apply moves_zoom. Qed.
Lemma quiet_serial {A} (m : M (uart * KD) A) : moves uart_quiet m -> moves cons_quiet (serial m).
Proof. by apply moves_zoom. Qed.
Lemma quiet_modp f : moves pipe_quiet (modp f).
Proof. apply moves_modify. intros x. unfold pipe_quiet. reflexivity. Qed.
Lemma quiet_modu f : moves uart_quiet (modu f).
Proof. apply moves_modify. intros x. unfold uart_quiet. reflexivity. Qed.
Lemma quiet_modc f : moves cons_quiet (modc f).
Proof. apply moves_modify. intros x. unfold cons_quiet, uart_quiet. reflexivity. Qed.
#[local] Hint Resolve quiet_ondev quiet_onpipe quiet_onuart quiet_oncons quiet_env quiet_dev quiet_serial
  quiet_modp quiet_modu quiet_modc : moves.

Lemma quiet_copyin pi a : moves k_quiet (@copyin1 KD (pipe_env end_ me pi) a).
Proof. simpl. moves. Qed.
Lemma quiet_copyout pi a c : moves k_quiet (@copyout1 KD (pipe_env end_ me pi) a c).
Proof. simpl. moves. Qed.
Lemma quiet_killed1 pi : moves k_quiet (@killed1 KD (pipe_env end_ me pi)).
Proof. simpl. moves. Qed.
Lemma quiet_wakeup1 pi c : moves k_quiet (@wakeup1 KD (pipe_env end_ me pi) c).
Proof. simpl. moves. Qed.
#[local] Hint Resolve quiet_copyin quiet_copyout quiet_killed1 quiet_wakeup1 : moves.

Lemma quiet_kpipeclose pi w : moves k_quiet (kpipeclose (D := D) end_ me pi w).
Proof. apply quiet_woke. intros k. apply pipeclose_wakes. Qed.
Lemma quiet_kpiperead pi addr n : moves k_quiet (kpiperead (D := D) end_ me pi addr n).
Proof.
  assert (Hl : forall left i, moves pipe_quiet (@read_loop KD (pipe_env end_ me pi) addr n left i)).
  { induction left as [|left IH]; intros i; cbn [read_loop]; unfold getp; moves. }
  unfold kpiperead, piperead, getp. apply moves_bind; [exact _| |intros ?; moves]. apply quiet_onpipe. moves.
Qed.
Lemma quiet_kpipewrite pi addr n : moves k_quiet (kpipewrite (D := D) end_ me pi addr n).
Proof.
  assert (Hl : forall left i, moves pipe_quiet (@write_loop KD (pipe_env end_ me pi) addr n left i)).
  { induction left as [|left IH]; intros i; cbn [write_loop]; unfold getp; moves. }
  unfold kpipewrite, pipewrite. moves.
Qed.

Lemma quiet_kconsoleread addr n : moves k_quiet (kconsoleread (D := D) end_ me addr n).
Proof.
  assert (Hl : forall left target dst n, moves cons_quiet (@read_chars KD (pipe_env end_ me 0) target dst n left)).
  { induction left as [|left IH]; intros; cbn [read_chars]; unfold getc; moves. }
  unfold kconsoleread, consoleread. moves.
Qed.

Lemma quiet_read_reg w r : moves k_quiet (@read_reg KD (uart_env w) r).
Proof. simpl. moves. Qed.
Lemma quiet_write_reg w r c : moves k_quiet (@write_reg KD (uart_env w) r c).
Proof. simpl. moves. Qed.
Lemma quiet_tx_wakeup w : moves k_quiet (@tx_wakeup KD (uart_env w)).
Proof. simpl. moves. Qed.
Lemma quiet_panicked w : moves k_quiet (@panicked KD (uart_env w)).
Proof. simpl. moves. Qed.
#[local] Hint Resolve quiet_read_reg quiet_write_reg quiet_tx_wakeup quiet_panicked : moves.
Lemma quiet_uartputc c : moves uart_quiet (@uartputc KD (uart_env (Some me)) c).
Proof.
  assert (Hl : forall left, moves uart_quiet (@uartstart_loop KD (uart_env (Some me)) left)).
  { induction left as [|left IH]; cbn [uartstart_loop]; unfold getu; moves. }
  unfold uartputc, putc_loop, getu, uartstart. moves.
Qed.
Lemma quiet_sync w spin c : moves uart_quiet (@uartputc_sync KD (uart_env w) spin c).
Proof.
  assert (Hl : forall n, moves uart_quiet (@wait_idle KD (uart_env w) n)).
  { induction n as [|n IH]; cbn [wait_idle]; moves. }
  unfold uartputc_sync. moves.
Qed.
#[local] Hint Resolve quiet_sync : moves.
Lemma quiet_kprintf w spin fmt ap : moves k_quiet (kprintf (D := D) w spin fmt ap).
Proof. unfold kprintf, kputs. moves. Qed.
#[local] Hint Resolve quiet_kprintf : moves.
Lemma quiet_procdump w spin : moves k_quiet (procdump (D := D) w spin).
Proof. unfold procdump. moves. Qed.
#[local] Hint Resolve quiet_procdump : moves.
Lemma quiet_cons_wakeup w spin : moves k_quiet (@cons_wakeup KD (cons_env w spin)).
Proof. simpl. moves. Qed.
Lemma quiet_procdump1 w spin : moves k_quiet (@procdump1 KD (cons_env w spin)).
Proof. simpl. moves. Qed.
#[local] Hint Resolve quiet_cons_wakeup quiet_procdump1 : moves.
Lemma quiet_consputc w spin c : moves cons_quiet (@consputc KD (uart_env w) spin c).
Proof. unfold consputc. moves. Qed.
#[local] Hint Resolve quiet_consputc : moves.
Lemma quiet_consoleintr w spin c : moves cons_quiet (@consoleintr KD (uart_env w) (cons_env w spin) spin c).
Proof.
  assert (Hl : forall n, moves cons_quiet (@kill_line KD (uart_env w) spin n)).
  { induction n as [|n IH]; cbn [kill_line]; unfold getc; moves. }
  unfold consoleintr, getc. moves.
Qed.
#[local] Hint Resolve quiet_consoleintr : moves.
Lemma quiet_kuartintr w spin left : moves k_quiet (kuartintr (D := D) w spin left).
Proof.
  assert (Hs : forall n, moves uart_quiet (@uartstart_loop KD (uart_env w) n)).
  { induction n as [|n IH]; cbn [uartstart_loop]; unfold getu; moves. }
  assert (Hr : forall n, moves uart_quiet (@receive_loop KD (uart_env w)
    (fun c => oncons (@consoleintr KD (uart_env w) (cons_env w spin) spin c)) n)).
  { induction n as [|n IH]; cbn [receive_loop]; unfold uartgetc; moves. }
  unfold kuartintr, uartintr, uartstart. apply quiet_onuart. moves.
Qed.

Lemma quiet_kconsolewrite addr n : moves k_quiet (kconsolewrite (D := D) end_ me addr n).
Proof.
  assert (Hl : forall left n i, moves cons_quiet (@write_chars KD (pipe_env end_ me 0) (uart_env (Some me)) addr n i left)).
  { induction left as [|left IH]; intros; cbn [write_chars]; [moves|]. pose proof quiet_uartputc. moves. }
  unfold kconsolewrite, consolewrite. moves.
Qed.
End devices.
#[export] Hint Resolve quiet_kpipeclose quiet_kpiperead quiet_kpipewrite quiet_kconsoleread quiet_kconsolewrite : moves.

Section files.
Context {D : Type} `{PD : PortEnv D} (end_ trampoline : Z) (me : nat) (pid : Z).
Abbreviation KD := (kern (devs D)).
Abbreviation S := (fsys KD).
#[local] Instance q_copy : CopyEnv KD := copy_env end_ me.
#[local] Instance q_dev : DevEnv KD := dev_env end_ me.

Definition fs_quiet (x x' : fstate KD) : Prop := k_quiet (fenv x) (fenv x').
(** No change in the descriptors and in the reference counts. *)
Definition sys_quiet (s s' : S) : Prop :=
  fs_quiet (ffs s) (ffs s') /\ forall f, f_ref (ftable s' f) = f_ref (ftable s f).
#[export] Instance fs_quiet_preorder : PreOrder fs_quiet.
Proof. split; [intros x; by unfold fs_quiet|intros x y z; unfold fs_quiet; apply transitivity]. Qed.
#[export] Instance sys_quiet_preorder : PreOrder sys_quiet.
Proof.
  split; [intros x; by split|]. intros x y z [H1 H2] [H3 H4]. split; [by etransitivity|]. intros f. by rewrite H4.
Qed.

Lemma fs_quiet_same x x' : fenv x' = fenv x -> fs_quiet x x'.
Proof. unfold fs_quiet. by intros ->. Qed.
Lemma quiet_lenv {A} (m : M KD A) : moves k_quiet m -> moves fs_quiet (lenv m).
Proof. by apply moves_zoom. Qed.
Lemma quiet_fsdo {A} (m : M (fstate KD) A) : moves fs_quiet m -> moves sys_quiet (fsdo m).
Proof. apply moves_zoom. intros s x Hx. by split. Qed.
Lemma quiet_kdo {A} (m : M KD A) : moves k_quiet m -> moves sys_quiet (kdo m).
Proof. intros Hm. by apply quiet_fsdo, quiet_lenv. Qed.
Lemma quiet_memdo {A} (m : M kstate A) : moves sys_quiet (memdo (D := D) m).
Proof. apply quiet_kdo. moves. Qed.
Lemma quiet_myproc : moves sys_quiet (myproc (D := D) me).
Proof. apply quiet_kdo. moves. Qed.
Lemma quiet_get_file f : moves sys_quiet (get_file f).
Proof. apply moves_gets, _. Qed.
Lemma quiet_change_file f g : (forall x, f_ref (g x) = f_ref x) -> moves sys_quiet (change_file f g).
Proof. intros Hg. apply moves_modify. intros s. split; [done|]. intros j. simpl. upd_cases j f; [apply Hg|done]. Qed.
#[local] Hint Resolve fs_quiet_same quiet_lenv quiet_fsdo quiet_kdo quiet_memdo quiet_myproc quiet_get_file : moves.
#[local] Hint Extern 1 (moves sys_quiet (change_file _ _)) => (apply quiet_change_file; by intros) : moves.

Lemma quiet_ucopyout a bs : moves fs_quiet (lenv (ucopyout a bs)).
Proof. apply quiet_lenv. simpl. unfold Proc.either_copyout. moves. Qed.
Lemma quiet_ucopyin a n : moves fs_quiet (lenv (ucopyin a n)).
Proof. apply quiet_lenv. simpl. unfold Proc.either_copyin. moves. Qed.
Lemma quiet_readi ip u dst off n : moves fs_quiet (readi pid ip u dst off n).
Proof. apply moves_readi; auto using quiet_ucopyout with moves typeclass_instances. Qed.
Lemma quiet_writei ip src off n : moves fs_quiet (writei pid ip src off n).
Proof. apply moves_writei; auto using quiet_ucopyin with moves typeclass_instances. Qed.
#[local] Hint Resolve quiet_readi quiet_writei quiet_ucopyout : moves.

Lemma quiet_add_nlink ip k : moves fs_quiet (add_nlink pid ip k).
Proof. unfold add_nlink. moves. Qed.
Lemma quiet_isdirempty dp : moves fs_quiet (isdirempty pid dp).
Proof.
  assert (Hl : forall left off, moves fs_quiet (isdirempty_loop pid dp off left)).
  { induction left as [|left IH]; intros; cbn [isdirempty_loop]; moves. }
  unfold isdirempty. moves.
Qed.
#[local] Hint Resolve quiet_add_nlink quiet_isdirempty : moves.
Lemma quiet_link cwd old new : moves fs_quiet (link_inode pid cwd old new).
Proof. unfold link_inode. moves. Qed.
Lemma quiet_unlink cwd path : moves fs_quiet (unlink_inode pid cwd path).
Proof. unfold unlink_inode. moves. Qed.
Lemma quiet_create cwd path type major minor : moves fs_quiet (create pid cwd path type major minor).
Proof. unfold create. moves. Qed.
#[local] Hint Resolve quiet_link quiet_unlink quiet_create : moves.

(** *** The handlers that do not open or close descriptors *)

Lemma quiet_argint n : moves k_quiet (argint (F := devs D) me n).
Proof. unfold argint, argraw. moves. Qed.
Lemma quiet_argaddr n : moves k_quiet (argaddr (F := devs D) me n).
Proof. unfold argaddr, argraw. moves. Qed.
Lemma quiet_fetchaddr a : moves k_quiet (fetchaddr (F := devs D) me a).
Proof. unfold fetchaddr. moves. Qed.
Lemma quiet_fetchstr a max : moves k_quiet (fetchstr (F := devs D) me a max).
Proof. unfold fetchstr. moves. Qed.
Lemma quiet_f_argstr n : moves sys_quiet (f_argstr (D := D) me n).
Proof. unfold f_argstr, argstr, argaddr, argraw, fetchstr. apply moves_bind; [exact _| |intros ?; moves]. apply quiet_kdo. moves. Qed.
#[local] Hint Resolve quiet_argint quiet_argaddr quiet_fetchaddr quiet_fetchstr quiet_f_argstr : moves.
Lemma quiet_f_argint n : moves sys_quiet (f_argint (D := D) me n).
Proof. unfold f_argint. moves. Qed.
Lemma quiet_f_argaddr n : moves sys_quiet (f_argaddr (D := D) me n).
Proof. unfold f_argaddr. moves. Qed.
#[local] Hint Resolve quiet_f_argint quiet_f_argaddr : moves.
Lemma quiet_argfd n : moves sys_quiet (argfd (D := D) me n).
Proof. unfold argfd. moves. Qed.
Lemma quiet_begin : moves sys_quiet (f_begin_op (D := D)).
Proof. unfold f_begin_op. moves. Qed.
Lemma quiet_end : moves sys_quiet (f_end_op (D := D) pid).
Proof. unfold f_end_op. moves. Qed.
Lemma quiet_my_cwd : moves sys_quiet (my_cwd (D := D) me).
Proof. unfold my_cwd. moves. Qed.
#[local] Hint Resolve quiet_argfd quiet_begin quiet_end quiet_my_cwd : moves.

Lemma quiet_dev_read major rd addr n : dev_read major = Some rd -> moves k_quiet (rd addr n).
Proof. simpl. case_bool; intros [= <-]. moves. Qed.
Lemma quiet_dev_write major wr addr n : dev_write major = Some wr -> moves k_quiet (wr addr n).
Proof. simpl. case_bool; intros [= <-]. moves. Qed.

Lemma quiet_fileread f addr n : moves sys_quiet (fileread pid f addr n).
Proof.
  unfold fileread. apply moves_bind; [exact _|moves|]. intros x. destruct (negb _); [moves|].
  destruct (f_type x); [moves|simpl; moves|moves|]. case_bool; [moves|].
  destruct (dev_read (f_major x)) as [rd|] eqn:E; [|moves]. apply quiet_kdo. by apply (quiet_dev_read (f_major x)).
Qed.
Lemma quiet_filewrite f addr n : moves sys_quiet (filewrite pid f addr n).
Proof.
  assert (Hl : forall left i, moves sys_quiet (filewrite_loop pid f addr n i left)).
  { induction left as [|left IH]; intros; cbn [filewrite_loop]; unfold write_chunk; moves. }
  unfold filewrite. apply moves_bind; [exact _|moves|]. intros x. destruct (negb _); [moves|].
  destruct (f_type x); [moves|simpl; moves|moves|]. case_bool; [moves|].
  destruct (dev_write (f_major x)) as [rd|] eqn:E; [|moves]. apply quiet_kdo. by apply (quiet_dev_write (f_major x)).
Qed.
Lemma quiet_filestat pad f addr : moves sys_quiet (filestat pid pad f addr).
Proof. unfold filestat. moves. Qed.
#[local] Hint Resolve quiet_fileread quiet_filewrite quiet_filestat : moves.

Lemma quiet_sys_read : moves sys_quiet (sys_read (D := D) end_ me pid).
Proof. unfold sys_read. moves. Qed.
Lemma quiet_sys_write : moves sys_quiet (sys_write (D := D) end_ me pid).
Proof. unfold sys_write. moves. Qed.
Lemma quiet_sys_fstat pad : moves sys_quiet (sys_fstat (D := D) end_ me pid pad).
Proof. unfold sys_fstat. moves. Qed.
Lemma quiet_sys_link : moves sys_quiet (sys_link (D := D) end_ me pid).
Proof. unfold sys_link, in_op. moves. Qed.
Lemma quiet_sys_unlink : moves sys_quiet (sys_unlink (D := D) end_ me pid).
Proof. unfold sys_unlink, in_op. moves. Qed.
Lemma quiet_sys_mkdir : moves sys_quiet (sys_mkdir (D := D) end_ me pid).
Proof. unfold sys_mkdir, make_inode. moves. Qed.
Lemma quiet_sys_mknod : moves sys_quiet (sys_mknod (D := D) end_ me pid).
Proof. unfold sys_mknod, make_inode. moves. Qed.
Lemma quiet_sys_chdir : moves sys_quiet (sys_chdir (D := D) end_ me pid).
Proof. unfold sys_chdir. moves. Qed.

Lemma quiet_proc_pagetable : moves k_quiet (proc_pagetable (F := devs D) end_ trampoline me).
Proof. unfold proc_pagetable. moves. Qed.
Lemma quiet_freepagetable pt sz : moves k_quiet (proc_freepagetable (F := devs D) end_ pt sz).
Proof. unfold proc_freepagetable. moves. Qed.
#[local] Hint Resolve quiet_proc_pagetable quiet_freepagetable : moves.
Lemma quiet_loadseg pt va ip offset sz : moves sys_quiet (loadseg (D := D) end_ me pid pt va ip offset sz).
Proof.
  assert (Hl : forall left i, moves sys_quiet (loadseg_loop (D := D) end_ me pid pt va ip offset sz i left)).
  { induction left as [|left IH]; intros; cbn [loadseg_loop]; unfold seg_page; moves. }
  unfold loadseg. moves.
Qed.
#[local] Hint Resolve quiet_loadseg : moves.
Lemma quiet_load_segments left pt ip off sz : moves sys_quiet (load_segments (D := D) end_ me pid pt ip off sz left).
Proof. revert off sz. induction left as [|left IH]; intros; cbn [load_segments]; moves. Qed.
Lemma quiet_push_args argv pt base sp us : moves sys_quiet (push_args (D := D) end_ pt base argv sp us).
Proof. revert sp us. induction argv as [|a argv IH]; intros; cbn [push_args]; moves. Qed.
#[local] Hint Resolve quiet_load_segments quiet_push_args : moves.
Lemma quiet_exec path argv : moves sys_quiet (exec (D := D) end_ trampoline me pid path argv).
Proof.
  assert (Hc : forall pt sz entry sp, moves sys_quiet (exec_commit (D := D) end_ me path pt sz entry sp)).
  { intros. unfold exec_commit. moves. }
  unfold exec, f_namei, bad_inode, exec_image, exec_stack, bad_image. moves.
Qed.
#[local] Hint Resolve quiet_exec : moves.
Lemma quiet_sys_exec : moves sys_quiet (sys_exec (D := D) end_ trampoline me pid).
Proof.
  assert (Hl : forall left uargv i argv pages, moves sys_quiet (fetch_args (D := D) me uargv i argv pages left)).
  { induction left as [|left IH]; intros; cbn [fetch_args]; moves. }
  unfold sys_exec. moves.
Qed.
End files.

(** ** Counting descriptors *)

(** Every descriptor: process slot and index. *)
Definition fd_slots : list (nat * nat) := list_prod proc_table (seq 0 NOFILE).
Definition fd_val (P : nat -> proc) (s : nat * nat) : Z := p_ofile (P (fst s)) (snd s).
Definition count_val (v : nat * nat -> Z) (z : Z) : Z := Z.of_nat (length (filter (fun s => v s = z) fd_slots)).
(** The number of descriptors that hold the pointer [z]. *)
Definition fd_count (P : nat -> proc) (z : Z) : Z := count_val (fd_val P) z.

Lemma in_fd_slots i fd : (i, fd) ∈ fd_slots <-> (i < NPROC)%nat /\ (fd < NOFILE)%nat.
Proof. unfold fd_slots. rewrite list_elem_of_In, in_prod_iff, <-!list_elem_of_In, in_table, elem_of_seq. lia. Qed.

Lemma NoDup_list_prod {A B} (l : list A) (l' : list B) : NoDup l -> NoDup l' -> NoDup (list_prod l l').
Proof.
  intros Hl Hl'. induction Hl as [|x l Hx Hl IH]; simpl; [constructor|]. apply NoDup_app. split_and!; [|..|done].
  - apply NoDup_fmap_2; [|done]. by intros a b [= ->].
  - intros [a b] (b' & [= -> ->] & _)%list_elem_of_fmap Hin. apply Hx.
    rewrite list_elem_of_In in Hin. apply in_prod_iff in Hin as [Hin _]. by rewrite list_elem_of_In.
Qed.
Lemma NoDup_fd_slots : NoDup fd_slots.
Proof. apply NoDup_list_prod; apply NoDup_seq. Qed.

Lemma count_range v z : 0 <= count_val v z <= 1024.
Proof.
  unfold count_val. pose proof (length_filter (fun s => v s = z) fd_slots) as H.
  assert (length fd_slots = 1024%nat) as E by reflexivity. lia.
Qed.

Lemma count_ext v v' z : (forall s, s ∈ fd_slots -> v' s = v s) -> count_val v' z = count_val v z.
Proof.
  unfold count_val. intros Hv. do 2 f_equal. generalize dependent fd_slots. intros l Hv.
  induction l as [|s l IH]; [done|]. rewrite !filter_cons, IH by (intros; apply Hv; by right).
  rewrite (Hv s) by left. done.
Qed.

Lemma count_pos v s0 z : s0 ∈ fd_slots -> v s0 = z -> 1 <= count_val v z.
Proof.
  intros Hin Hv. unfold count_val. assert (Hf : s0 ∈ filter (fun s => v s = z) fd_slots) by by apply list_elem_of_filter.
  destruct (filter _ _); [by apply not_elem_of_nil in Hf|]. simpl. lia.
Qed.
Lemma count_zero v z : (forall s, s ∈ fd_slots -> v s <> z) -> count_val v z = 0.
Proof.
  intros Hv. unfold count_val. destruct (filter _ _) as [|s l] eqn:E; [done|]. exfalso.
  assert (Hs : s ∈ filter (fun s => v s = z) fd_slots) by (rewrite E; left). apply list_elem_of_filter in Hs as [? ?]. by apply (Hv s).
Qed.

(** One descriptor changes. *)
Lemma count_change v v' s0 z : s0 ∈ fd_slots -> (forall s, s ∈ fd_slots -> s <> s0 -> v' s = v s) ->
  count_val v' z = count_val v z + (if v' s0 =? z then 1 else 0) - (if v s0 =? z then 1 else 0).
Proof.
  intros Hin Hv. unfold count_val. apply list_elem_of_split in Hin as (l1 & l2 & E).
  pose proof NoDup_fd_slots as Hnd. rewrite E in *. apply NoDup_app in Hnd as (_ & Hn1 & Hn2).
  assert (Ef : forall l, (forall s, s ∈ l -> v' s = v s) -> length (filter (fun s => v' s = z) l) = length (filter (fun s => v s = z) l)).
  { induction l as [|s l IH]; [done|]. intros Hl. rewrite !filter_cons, (Hl s) by left.
    destruct (decide (v s = z)); simpl; rewrite IH; auto; intros; apply Hl; by right. }
  assert (E1 : forall s, s ∈ l1 -> v' s = v s).
  { intros s Hs. apply Hv; [apply elem_of_app; by left|]. intros ->. eapply Hn1; [done|left]. }
  assert (E2 : forall s, s ∈ l2 -> v' s = v s).
  { intros s Hs. apply NoDup_cons in Hn2 as [Hn2 _]. apply Hv; [apply elem_of_app; right; by right|]. by intros ->. }
  rewrite !filter_app, !filter_cons, !length_app, (Ef l1 E1).
  destruct (decide (v' s0 = z)), (decide (v s0 = z)); simpl; rewrite (Ef l2 E2);
    destruct (Z.eqb_spec (v' s0) z), (Z.eqb_spec (v s0) z); try done; lia.
Qed.

(** Reference counts match, up to the references [c] that the running code
    itself holds; processes that have ended have no descriptors. *)
Record fd_ok (c : nat -> Z) (P : nat -> proc) (T : nat -> file) : Prop := {
  fo_count : forall f, (f < NFILE)%nat -> f_ref (T f) = fd_count P (file_ptr f) + c f;
  fo_range : forall i fd, (i < NPROC)%nat -> (fd < NOFILE)%nat ->
    p_ofile (P i) fd = 0 \/ exists f, (f < NFILE)%nat /\ p_ofile (P i) fd = file_ptr f;
  fo_dead : forall i fd, (i < NPROC)%nat -> (fd < NOFILE)%nat -> ~ live (p_state (P i)) -> p_ofile (P i) fd = 0;
}.

Definition credit (c : nat -> Z) (f : nat) (n : Z) : nat -> Z := upd c f (c f + n).
Definition none : nat -> Z := fun _ => 0.

Lemma credit_back c f : credit (credit c f 1) f (-1) = c.
Proof. apply functional_extensionality. intros g. unfold credit. rewrite upd_same. upd_cases g f; [lia|done]. Qed.
Lemma credit_forth c f : credit (credit c f (-1)) f 1 = c.
Proof. apply functional_extensionality. intros g. unfold credit. rewrite upd_same. upd_cases g f; [lia|done]. Qed.

Lemma credit_comm c f g a b : credit (credit c f a) g b = credit (credit c g b) f a.
Proof.
  apply functional_extensionality. intros h. unfold credit, upd.
  repeat match goal with |- context [decide ?P] => destruct (decide P) end; subst; try done; lia.
Qed.

Lemma file_ptr_inj f g : file_ptr f = file_ptr g -> f = g.
Proof. unfold file_ptr. lia. Qed.
Lemma file_of_ptr f : file_of (file_ptr f) = f.
Proof. unfold file_of, file_ptr. lia. Qed.

Lemma fd_ok_quiet c P P' T T' : same_fds P P' -> (forall f, f_ref (T' f) = f_ref (T f)) -> fd_ok c P T -> fd_ok c P' T'.
Proof.
  intros HP HT [H1 H2 H3]. assert (E : forall i fd, p_ofile (P' i) fd = p_ofile (P i) fd) by (intros; by rewrite (proj1 (HP i))).
  split.
  - intros f Hf. rewrite HT, H1 by done. f_equal. symmetry. apply count_ext. intros s _. apply E.
  - intros i fd Hi Hfd. rewrite E. by apply H2.
  - intros i fd Hi Hfd Hd. rewrite E. apply H3; [done..|]. intros Hl. by apply Hd, HP.
Qed.

(** [p->ofile[fd] = z] moves a reference between the table and the code. *)
Lemma fd_ok_set c P T i fd z :
  fd_ok c P T -> (i < NPROC)%nat -> (fd < NOFILE)%nat -> (z = 0 \/ live (p_state (P i))) ->
  (z = 0 \/ exists f, (f < NFILE)%nat /\ z = file_ptr f) ->
  fd_ok (fun f => c f + (if p_ofile (P i) fd =? file_ptr f then 1 else 0) - (if z =? file_ptr f then 1 else 0))
    (upd P i (set_ofile (upd (p_ofile (P i)) fd z) (P i))) T.
Proof.
  intros [H1 H2 H3] Hi Hfd Hl Hz. set (P' := upd P i _).
  assert (E0 : p_ofile (P' i) fd = z) by (unfold P'; rewrite upd_same; simpl; apply upd_same).
  assert (E : forall j g, (j, g) <> (i, fd) -> p_ofile (P' j) g = p_ofile (P j) g).
  { intros j g Hne. unfold P'. destruct (decide (j = i)) as [->|Hj]; [rewrite upd_same|by rewrite upd_other].
    simpl. rewrite upd_other; [done|congruence]. }
  assert (Es : forall j, p_state (P' j) = p_state (P j)) by (intros j; unfold P', upd; by destruct (decide (j = i)) as [->|]).
  split.
  - intros f Hf. rewrite H1 by done. unfold fd_count.
    rewrite (count_change (fd_val P) (fd_val P') (i, fd)); [|by apply in_fd_slots|intros [j g] _; apply E].
    unfold fd_val. cbn [fst snd]. rewrite E0. lia.
  - intros j g Hj Hg. destruct (decide ((j, g) = (i, fd))) as [[= -> ->]|Hne]; [by rewrite E0|]. rewrite E by done. by apply H2.
  - intros j g Hj Hg Hd. rewrite Es in Hd. destruct (decide ((j, g) = (i, fd))) as [[= -> ->]|Hne].
    + rewrite E0. by destruct Hl.
    + rewrite E by done. by apply H3.
Qed.

(** A new reference count. *)
Lemma fd_ok_ref c P T f n (g : file -> file) :
  fd_ok c P T -> (forall x, f_ref x = f_ref (T f) -> f_ref (g x) = f_ref x + n) ->
  fd_ok (credit c f n) P (upd T f (g (T f))).
Proof.
  intros [H1 H2 H3] Hg. split; [|done..]. intros h Hh. unfold credit. upd_cases h f; [|by apply H1].
  rewrite Hg by done. rewrite H1 by done. lia.
Qed.

Lemma fd_ok_open c P T i fd f :
  fd_ok c P T -> (i < NPROC)%nat -> (fd < NOFILE)%nat -> live (p_state (P i)) -> (f < NFILE)%nat -> p_ofile (P i) fd = 0 ->
  fd_ok (credit c f (-1)) (upd P i (set_ofile (upd (p_ofile (P i)) fd (file_ptr f)) (P i))) T.
Proof.
  intros Hok Hi Hfd Hl Hf E. pose proof (fd_ok_set c P T i fd (file_ptr f) Hok Hi Hfd) as H. rewrite E in H.
  assert (Ec : (fun g => c g + (if 0 =? file_ptr g then 1 else 0) - (if file_ptr f =? file_ptr g then 1 else 0)) = credit c f (-1)).
  { apply functional_extensionality. intros g. unfold credit. rewrite (proj2 (Z.eqb_neq 0 _)) by (unfold file_ptr; lia).
    destruct (decide (g = f)) as [->|Hg]; [rewrite Z.eqb_refl, upd_same; lia|].
    rewrite upd_other by done. rewrite (proj2 (Z.eqb_neq _ _)) by (intros ?%file_ptr_inj; congruence). lia. }
  rewrite Ec in H. apply H; [by right|right; by exists f].
Qed.

Lemma fd_ok_close c P T i fd f :
  fd_ok c P T -> (i < NPROC)%nat -> (fd < NOFILE)%nat -> p_ofile (P i) fd = file_ptr f ->
  fd_ok (credit c f 1) (upd P i (set_ofile (upd (p_ofile (P i)) fd 0) (P i))) T.
Proof.
  intros Hok Hi Hfd E. pose proof (fd_ok_set c P T i fd 0 Hok Hi Hfd) as H. rewrite E in H.
  assert (Ec : (fun g => c g + (if file_ptr f =? file_ptr g then 1 else 0) - (if 0 =? file_ptr g then 1 else 0)) = credit c f 1).
  { apply functional_extensionality. intros g. unfold credit. rewrite (proj2 (Z.eqb_neq 0 _)) by (unfold file_ptr; lia).
    destruct (decide (g = f)) as [->|Hg]; [rewrite Z.eqb_refl, upd_same; lia|].
    rewrite upd_other by done. rewrite (proj2 (Z.eqb_neq _ _)) by (intros ?%file_ptr_inj; congruence). lia. }
  rewrite Ec in H. apply H; by left.
Qed.

(** [pipealloc] hands out two references. *)
Definition both (f g : nat) : nat -> Z := credit (credit none f 1) g 1.

Lemma both_le f g h : both f g h <= 2.
Proof. unfold both, credit, none, upd. repeat destruct (decide _); lia. Qed.

Section handlers.
Context {D : Type} `{PD : PortEnv D} (end_ trampoline : Z) (me : nat) (pid : Z) (Hme : (me < NPROC)%nat).
Abbreviation KD := (kern (devs D)).
Abbreviation S := (fsys KD).

Definition myfd (s : S) (fd : nat) : Z := p_ofile (procs (fenv (ffs s)) me) fd.
(** The descriptors are right, up to [c], the process table is consistent and
    the caller is alive. *)
Definition sys_ok (c : nat -> Z) (s : S) : Prop :=
  fd_ok c (procs (fenv (ffs s))) (ftable s) /\ live (p_state (procs (fenv (ffs s)) me)) /\ ptable_inv (fenv (ffs s)).

Lemma ok_quiet {A} (m : M S A) c s : moves sys_quiet m -> sys_ok c s ->
  wlp m (fun _ s' => sys_ok c s' /\ myfd s' = myfd s) s.
Proof using Type.
  intros Hm (Hok & Hl & Hp). eapply wlp_mono; [apply Hm|]. cbv beta. intros a s' [(HP & Hn & Hi & Hc) HT].
  split; [|exact (proj1 (HP me))]. split_and!; [by apply (fd_ok_quiet c (procs (fenv (ffs s))) _ (ftable s))|by apply HP|].
  by apply (inv_compat None (fenv (ffs s))).
Qed.

Lemma ok_set_fd_open c s fd f : sys_ok c s -> (fd < NOFILE)%nat -> (f < NFILE)%nat -> myfd s fd = 0 ->
  wlp (set_fd me fd (file_ptr f)) (fun _ s' => sys_ok (credit c f (-1)) s' /\ myfd s' = upd (myfd s) fd (file_ptr f)) s.
Proof using Hme.
  intros (Hok & Hl & Hp) Hfd Hf E. unfold set_fd, kdo, fsdo, lenv. apply wlp_zoom, wlp_zoom, wlp_modify. split.
  - split_and!; [by apply fd_ok_open|simpl; by rewrite upd_same|]. apply inv_change; [|done]. by split_and!; [| |left].
  - unfold myfd. simpl. by rewrite upd_same.
Qed.
Lemma ok_set_fd_close c s fd f : sys_ok c s -> (fd < NOFILE)%nat -> myfd s fd = file_ptr f ->
  wlp (set_fd me fd 0) (fun _ s' => sys_ok (credit c f 1) s' /\ myfd s' = upd (myfd s) fd 0) s.
Proof using Hme.
  intros (Hok & Hl & Hp) Hfd E. unfold set_fd, kdo, fsdo, lenv. apply wlp_zoom, wlp_zoom, wlp_modify. split.
  - split_and!; [by apply fd_ok_close|simpl; by rewrite upd_same|]. apply inv_change; [|done]. by split_and!; [| |left].
  - unfold myfd. simpl. by rewrite upd_same.
Qed.

Lemma ok_filedup c s f : sys_ok c s -> (f < NFILE)%nat -> c f <= 1024 ->
  wlp (File.filedup f) (fun _ s' => sys_ok (credit c f 1) s' /\ myfd s' = myfd s) s.
Proof using Hme.
  intros (Hok & Hl & Hp) Hf Hc. unfold File.filedup. apply wlp_bind, wlp_gets. case_bool; [apply wlp_panic|].
  apply wlp_bind, wlp_modify, wlp_ret. split; [|done]. split; [|done]. simpl.
  apply (fd_ok_ref c _ _ f 1 (fun x => fset_ref (i32 (f_ref x + 1)) x)); [done|]. intros x E. simpl.
  rewrite E, (fo_count _ _ _ Hok f Hf). pose proof (count_range (fd_val (procs (fenv (ffs s)))) (file_ptr f)).
  unfold fd_count. rewrite i32_id; [done|]. rewrite (fo_count _ _ _ Hok f Hf) in *. unfold fd_count in *. lia.
Qed.

Lemma ok_filealloc c s : sys_ok c s ->
  wlp filealloc (fun r s' => myfd s' = myfd s /\ match r with
    | Some f => (f < NFILE)%nat /\ sys_ok (credit c f 1) s'
    | None => sys_ok c s'
    end) s.
Proof using Hme.
  intros (Hok & Hl & Hp). unfold filealloc. apply wlp_bind, wlp_gets.
  destruct (List.find _ _) as [f|] eqn:E; [|by apply wlp_ret].
  apply List.find_some in E as [Hin E0]. apply in_seq in Hin. bool_to_prop.
  apply wlp_bind, wlp_modify, wlp_ret. split; [done|]. split; [lia|]. split; [|done]. simpl.
  apply (fd_ok_ref c _ _ f 1 (fset_ref 1)); [done|]. intros x Ex. simpl. lia.
Qed.

Lemma ok_fileclose c s f : sys_ok c s -> (f < NFILE)%nat -> c f <= 1024 ->
  wlp (@File.fileclose KD (dev_env end_ me) pid f) (fun _ s' => sys_ok (credit c f (-1)) s' /\ myfd s' = myfd s) s.
Proof using Hme.
  intros (Hok & Hl & Hpt) Hf Hc. unfold File.fileclose. apply wlp_bind, wlp_gets. case_bool; [apply wlp_panic|].
  apply wlp_bind, wlp_modify, wlp_bind, wlp_gets. simpl. rewrite upd_same. simpl.
  assert (Er : i32 (f_ref (ftable s f) - 1) = f_ref (ftable s f) - 1).
  { apply i32_id. pose proof (fo_count _ _ _ Hok f Hf) as E.
    pose proof (count_range (fd_val (procs (fenv (ffs s)))) (file_ptr f)). unfold fd_count in E. lia. }
  set (s1 := set_file f _ s). assert (H1 : sys_ok (credit c f (-1)) s1).
  { split; [|done]. apply (fd_ok_ref c (procs (fenv (ffs s))) (ftable s) f (-1) (fun x => fset_ref (i32 (f_ref x - 1)) x)); [done|].
    intros x E. simpl. rewrite E. lia. }
  case_bool; [by apply wlp_ret|].
  assert (H2 : sys_ok (credit c f (-1)) (set_file f (fset_ref 0) s1)).
  { split; [|apply H1]. eapply fd_ok_quiet; [|..|apply H1]; [done|]. intros g. simpl. upd_cases g f; [|done]. simpl. lia. }
  apply wlp_bind, wlp_modify. eapply wlp_mono; [apply (ok_quiet _ _ _) with (2 := H2)|by intros].
  assert (Hpc : forall pi w, moves sys_quiet (fsdo (lenv (kpipeclose (D := D) end_ me pi w)))).
  { intros pi w. apply quiet_kdo. moves. }
  assert (Hb : moves sys_quiet (fsdo (lift (E := KD) Log.begin_op))) by apply quiet_begin.
  assert (He : moves sys_quiet (fsdo (lift (E := KD) (Log.end_op pid)))) by apply quiet_end.
  assert (Hi : forall ip, moves sys_quiet (fsdo (E := KD) (Fs.iput pid ip))).
  { intros ip. apply quiet_fsdo, moves_iput; [exact _|apply fs_quiet_same]. }
  apply moves_bind; [exact _|apply quiet_change_file; done|]. intros _. simpl. moves.
Qed.

Lemma ok_fdalloc c s f : sys_ok c s -> (f < NFILE)%nat ->
  wlp (fdalloc me f) (fun r s' =>
    (r = -1 /\ s' = s) \/
    (exists fd, r = Z.of_nat fd /\ (fd < NOFILE)%nat /\ myfd s fd = 0 /\
       sys_ok (credit c f (-1)) s' /\ myfd s' = upd (myfd s) fd (file_ptr f))) s.
Proof using Hme.
  intros Hok Hf. unfold fdalloc. apply wlp_bind. intros p s1 E. unfold myproc, kdo, fsdo, lenv, zoom, get, gets in E.
  injection E as <- <-. replace (set_ffs _ s) with s by (by destruct s as [[? ? ? ?] ?]).
  destruct (List.find _ _) as [fd|] eqn:E.
  - apply List.find_some in E as [Hin E0]. apply in_seq in Hin. bool_to_prop.
    apply wlp_bind. eapply wlp_mono; [apply ok_set_fd_open; [done|lia|done|done]|]. cbv beta. intros _ s' [H1 H2].
    apply wlp_ret. right. exists fd. split_and!; try done. lia.
  - apply wlp_ret. by left.
Qed.

(** A descriptor argument is an open file. *)
Lemma ok_argfd n s : sys_ok none s ->
  wlp (argfd me n) (fun o s' => sys_ok none s' /\ match o with
    | None => True
    | Some (fd, f) => (fd < NOFILE)%nat /\ (f < NFILE)%nat /\ myfd s' fd = file_ptr f
    end) s.
Proof using Hme.
  intros Hok. unfold argfd. apply wlp_bind. eapply wlp_mono; [apply ok_quiet; [apply quiet_f_argint|done]|].
  cbv beta. intros fd s1 [H1 _]. case_bool; [by apply wlp_ret|]. apply wlp_bind. intros p s2 E.
  unfold myproc, kdo, fsdo, lenv, zoom, get, gets in E. injection E as <- <-.
  replace (set_ffs _ s1) with s1 by (by destruct s1 as [[? ? ? ?] ?]). apply wlp_ret. split; [done|].
  case_bool; [done|]. destruct (fo_range _ _ _ (proj1 H1) me (Z.to_nat fd)) as [E|(f & Hf & E)]; [done|lia|done|].
  rewrite E, file_of_ptr. split_and!; [lia|done|done].
Qed.

Lemma ok_sys_dup s : sys_ok none s -> wlp (sys_dup me) (fun _ => sys_ok none) s.
Proof using Hme.
  intros Hok. unfold sys_dup. apply wlp_bind. eapply wlp_mono; [by apply ok_argfd|]. cbv beta.
  intros [[fd f]|] s1 [H1 Hf]; [|by apply wlp_ret]. destruct Hf as (_ & Hf & _).
  apply wlp_bind. eapply wlp_mono; [by apply ok_fdalloc|]. cbv beta.
  intros r s2 [[-> ->]|(fd' & -> & _ & _ & H2 & _)]; [by apply wlp_ret|].
  rewrite (proj2 (Z.ltb_ge _ _)) by lia. apply wlp_bind.
  eapply wlp_mono; [apply ok_filedup; [done..|]|].
  { unfold credit, none. rewrite upd_same. lia. }
  cbv beta. intros _ s3 [H3 _]. apply wlp_ret. by rewrite credit_forth in H3.
Qed.

Lemma ok_sys_close s : sys_ok none s -> wlp (sys_close end_ me pid) (fun _ => sys_ok none) s.
Proof using Hme.
  intros Hok. unfold sys_close. apply wlp_bind. eapply wlp_mono; [by apply ok_argfd|]. cbv beta.
  intros [[fd f]|] s1 [H1 Hf]; [|by apply wlp_ret]. destruct Hf as (Hfd & Hf & E).
  apply wlp_bind. eapply wlp_mono; [by apply ok_set_fd_close|]. cbv beta. intros _ s2 [H2 _].
  apply wlp_bind. eapply wlp_mono; [apply ok_fileclose; [done..|]|].
  { unfold credit, none. rewrite upd_same. lia. }
  cbv beta. intros _ s3 [H3 _]. apply wlp_ret. by rewrite credit_back in H3.
Qed.

Lemma credit_none f n : credit none f n f = n.
Proof using Type. unfold credit, none. by rewrite upd_same. Qed.

(** Quiet code in the middle of a handler. *)
Lemma ok_then {A B} (m : M S A) (k : A -> M S B) c s (Q : B -> S -> Prop) : moves sys_quiet m -> sys_ok c s ->
  (forall a s', sys_ok c s' -> myfd s' = myfd s -> wlp (k a) Q s') -> wlp (bind m k) Q s.
Proof using Type.
  intros Hm Hok Hk. apply wlp_bind. eapply wlp_mono; [by apply ok_quiet|]. cbv beta. intros a s' [H1 H2]. by apply Hk.
Qed.
Lemma ok_rest {A} (m : M S A) s : moves sys_quiet m -> sys_ok none s -> wlp m (fun _ => sys_ok none) s.
Proof using Type. intros Hm Hok. eapply wlp_mono; [by apply ok_quiet|]. by intros ? ? [? _]. Qed.

Lemma quiet_unlock_end ip : moves sys_quiet (fsdo (E := KD) (iunlockput pid ip) ;; f_end_op pid ;; ret (-1)).
Proof using Type.
  apply moves_bind; [exact _|apply quiet_fsdo, moves_iunlockput; [exact _|apply fs_quiet_same]|]. intros _.
  apply moves_bind; [exact _|apply quiet_end|]. intros _. moves.
Qed.

Lemma quiet_fs_op ip : moves sys_quiet (fsdo (E := KD) (itrunc pid ip)) /\ moves sys_quiet (fsdo (E := KD) (iunlock pid ip)).
Proof using Type.
  split; apply quiet_fsdo; [apply moves_itrunc|apply moves_iunlock]; try exact _; apply fs_quiet_same.
Qed.

Lemma ok_open_inode ip omode s : sys_ok none s -> wlp (open_inode end_ me pid ip omode) (fun _ => sys_ok none) s.
Proof using Hme.
  intros Hok. unfold open_inode. eapply ok_then; [|done|].
  { apply quiet_fsdo, moves_get_inode, _. }
  intros x s1 H1 _. case_bool; [apply ok_rest; [apply quiet_unlock_end|done]|].
  apply wlp_bind. eapply wlp_mono; [by apply ok_filealloc|]. cbv beta. intros [f|] s2 [_ H2];
    [|apply ok_rest; [apply quiet_unlock_end|done]]. destruct H2 as [Hf H2].
  apply wlp_bind. eapply wlp_mono; [by apply ok_fdalloc|]. cbv beta. intros r s3 [[-> ->]|(fd & -> & Hfd & _ & H3 & _)].
  - apply wlp_bind. eapply wlp_mono; [apply ok_fileclose; [done..|rewrite credit_none; lia]|]. cbv beta.
    intros _ s4 [H4 _]. rewrite credit_back in H4. apply ok_rest; [apply quiet_unlock_end|done].
  - rewrite (proj2 (Z.ltb_ge _ _)) by lia. rewrite credit_back in H3. apply ok_rest; [|done].
    pose proof (quiet_change_file (D := D) f). pose proof (quiet_end (D := D) pid). pose proof (quiet_fs_op ip) as [? ?]. moves.
Qed.

Lemma ok_sys_open s : sys_ok none s -> wlp (sys_open end_ me pid) (fun _ => sys_ok none) s.
Proof using Hme.
  intros Hok. unfold sys_open. eapply ok_then; [apply quiet_f_argint|done|]. intros omode s1 H1 _.
  eapply ok_then; [apply quiet_f_argstr|done|]. intros [path|] s2 H2 _; [|by apply wlp_ret].
  eapply ok_then; [apply quiet_begin|done|]. intros _ s3 H3 _.
  eapply ok_then; [apply quiet_my_cwd|done|]. intros cwd s4 H4 _.
  assert (He : moves sys_quiet (f_end_op pid ;; ret (-1) : M S Z)) by (pose proof (quiet_end (D := D) pid); moves).
  destruct (negb _).
  - eapply ok_then; [apply quiet_fsdo, quiet_create|done|]. intros [ip|] s5 H5 _; [by apply ok_open_inode|by apply ok_rest].
  - eapply ok_then; [apply quiet_fsdo, moves_namei; [exact _|apply fs_quiet_same]|done|].
    intros [ip|] s5 H5 _; [|by apply ok_rest].
    eapply ok_then; [apply quiet_fsdo, moves_ilock; [exact _|apply fs_quiet_same]|done|]. intros _ s6 H6 _.
    eapply ok_then; [apply quiet_fsdo, moves_get_inode, _|done|]. intros x s7 H7 _.
    destruct (_ && _); [apply ok_rest; [apply quiet_unlock_end|done]|by apply ok_open_inode].
Qed.

Lemma both_close {A} (a : A) f g s : sys_ok (both f g) s -> (f < NFILE)%nat -> (g < NFILE)%nat ->
  wlp (@File.fileclose KD (dev_env end_ me) pid f ;; @File.fileclose KD (dev_env end_ me) pid g ;; ret a)
    (fun r s' => r = a /\ sys_ok none s') s.
Proof using Hme.
  intros Hok Hf Hg. pose proof (both_le f g f). apply wlp_bind.
  eapply wlp_mono; [apply ok_fileclose; [exact Hok|done|lia]|]. cbv beta. intros _ s1 [H1 _].
  unfold both in H1. rewrite (credit_comm none f g), credit_back in H1. apply wlp_bind.
  eapply wlp_mono; [apply ok_fileclose; [exact H1|done|rewrite credit_none; lia]|].
  cbv beta. intros _ s2 [H2 _]. rewrite credit_back in H2. by apply wlp_ret.
Qed.

Lemma quiet_pipe_end f pi w : moves sys_quiet (pipe_end (D := D) f pi w).
Proof using Type. pose proof (quiet_change_file (D := D) f). unfold pipe_end. moves. Qed.

Lemma ok_pipealloc s : sys_ok none s ->
  wlp (pipealloc end_ me pid) (fun o s' => match o with
    | None => sys_ok none s'
    | Some (f, g) => (f < NFILE)%nat /\ (g < NFILE)%nat /\ sys_ok (both f g) s'
    end) s.
Proof using Hme.
  intros Hok. unfold pipealloc. apply wlp_bind. eapply wlp_mono; [by apply ok_filealloc|]. cbv beta.
  intros [f|] s1 [_ H1]; [|by apply wlp_ret]. destruct H1 as [Hf H1].
  apply wlp_bind. eapply wlp_mono; [by apply ok_filealloc|]. cbv beta. intros [g|] s2 [_ H2].
  2: { apply wlp_bind. eapply wlp_mono; [apply ok_fileclose; [done..|rewrite credit_none; lia]|]. cbv beta.
    intros _ s3 [H3 _]. rewrite credit_back in H3. by apply wlp_ret. }
  destruct H2 as [Hg H2]. fold (both f g) in H2.
  eapply ok_then; [apply quiet_memdo|done|]. intros pi s3 H3 _. case_bool.
  - eapply wlp_mono; [by apply both_close|]. by intros o s4 [-> H4].
  - eapply ok_then; [|done|].
    { apply quiet_kdo, moves_modify. intros k. apply quiet_files. }
    intros _ s4 H4 _. eapply ok_then; [apply quiet_pipe_end|done|]. intros _ s5 H5 _.
    eapply ok_then; [apply quiet_pipe_end|done|]. intros _ s6 H6 _. by apply wlp_ret.
Qed.

Lemma ok_sys_pipe s : sys_ok none s -> wlp (sys_pipe end_ me pid) (fun _ => sys_ok none) s.
Proof using Hme.
  intros Hok. unfold sys_pipe. eapply ok_then; [apply quiet_f_argaddr|done|]. intros fdarray s1 H1 _.
  apply wlp_bind. eapply wlp_mono; [by apply ok_pipealloc|]. cbv beta. intros [[rf wf]|] s2 H2; [|by apply wlp_ret].
  destruct H2 as (Hr & Hw & H2). assert (Hb : forall s, sys_ok (both rf wf) s -> wlp (@File.fileclose KD (dev_env end_ me) pid rf ;;
    @File.fileclose KD (dev_env end_ me) pid wf ;; ret (-1)) (fun _ => sys_ok none) s).
  { intros s' Hs'. eapply wlp_mono; [by apply both_close|]. by intros ? ? [_ ?]. }
  apply wlp_bind. eapply wlp_mono; [by apply ok_fdalloc|]. cbv beta. intros r s3 [[-> ->]|(fd0 & -> & Hf0 & _ & H3 & M3)]; [by apply Hb|].
  rewrite (proj2 (Z.ltb_ge (Z.of_nat fd0) 0)) by lia.
  apply wlp_bind. eapply wlp_mono; [by apply ok_fdalloc|]. cbv beta. intros r s4 [[-> ->]|(fd1 & -> & Hf1 & Z1 & H4 & M4)].
  { apply wlp_bind. eapply wlp_mono; [apply (ok_set_fd_close _ _ _ rf H3); [lia|]|].
    { rewrite Nat2Z.id, M3. apply upd_same. }
    cbv beta. intros _ s5 [H5 _]. rewrite credit_forth in H5. by apply Hb. }
  rewrite (proj2 (Z.ltb_ge (Z.of_nat fd1) 0)) by lia.
  assert (Hne : fd1 <> fd0).
  { intros ->. rewrite M3, upd_same in Z1. unfold file_ptr in Z1. lia. }
  eapply ok_then; [apply quiet_myproc|done|]. intros p s5 H5 M5.
  eapply ok_then; [apply quiet_memdo|done|]. intros r s6 H6 M6.
  eapply ok_then with (m := if r <? 0 then ret r else _); [pose proof (@quiet_memdo D); moves|done|].
  intros r' s7 H7 M7. assert (M : myfd s7 = upd (upd (myfd s2) fd0 (file_ptr rf)) fd1 (file_ptr wf)) by congruence.
  case_bool.
  - apply wlp_bind. eapply wlp_mono; [apply (ok_set_fd_close _ _ _ rf H7); [lia|]|].
    { rewrite Nat2Z.id, M, upd_other, upd_same by done. done. }
    cbv beta. intros _ s8 [H8 M8]. apply wlp_bind.
    eapply wlp_mono; [apply (ok_set_fd_close _ _ _ wf H8); [lia|]|].
    { rewrite !Nat2Z.id in *. rewrite M8, upd_other, M, upd_same by done. done. }
    cbv beta. intros _ s9 [H9 _]. apply Hb.
    rewrite (credit_comm _ wf rf), credit_forth, credit_forth in H9. done.
  - apply wlp_ret. rewrite (credit_comm (both rf wf)) in H7. unfold both in H7. by rewrite !credit_back in H7.
Qed.
End handlers.

(** ** The whole kernel *)

Section kernel.
Context {D : Type} `{PD : PortEnv D} (end_ trampoline forkret : Z) (pad : list Z) (pol : policy).
Abbreviation K := (kern (flayer D)).
Abbreviation KD := (kern (devs D)).
Abbreviation S := (fsys KD).
#[local] Instance the_files : FileLayer (flayer D) := kernel_files end_.
#[local] Instance the_calls : FileCalls (flayer D) := kernel_calls end_ trampoline pad.

(** Descriptors and reference counts agree, up to [c]. *)
Definition k_ok (c : nat -> Z) (k : K) : Prop := fd_ok c (procs k) (y_ftable (files k)).

(** No change in the descriptors and in the reference counts. *)
Definition k_still (k k' : K) : Prop :=
  same_fds (procs k) (procs k') /\ forall f, f_ref (y_ftable (files k') f) = f_ref (y_ftable (files k) f).
#[local] Instance k_still_preorder : PreOrder k_still.
Proof. split; [by intros k|]. intros k k1 k2 [H1 H2] [H3 H4]. split; [by etransitivity|]. intros f. by rewrite H4. Qed.

Lemma still_ok c k k' : k_still k k' -> k_ok c k -> k_ok c k'.
Proof. intros [HP HT]. by apply fd_ok_quiet. Qed.

Lemma still_get i : moves k_still (get (F := flayer D) i).
Proof. apply moves_gets, _. Qed.
Lemma still_liftk {A} (m : M kstate A) : moves k_still (liftk (F := flayer D) m).
Proof. apply (moves_zoom k_still (fun _ _ => True)); [done|]. by intros s a s'. Qed.
Lemma still_wakeup me c : moves k_still (wakeup (F := flayer D) me c).
Proof.
  intros k. intros a k' E. split; [by apply (quiet_wakeup me c k a k' E)|]. rewrite wakeup_spec in E. by injection E as _ <-.
Qed.
Lemma still_killed me : moves k_still (killed (F := flayer D) me).
Proof. apply moves_gets, _. Qed.
Lemma still_change i f :
  (forall p, p_ofile (f p) = p_ofile p) -> (forall p, live (p_state p) -> live (p_state (f p))) ->
  moves k_still (change (F := flayer D) i f).
Proof.
  intros H1 H2. apply moves_modify. intros k. split; [|done]. intros j. simpl.
  upd_cases j i; [|done]. split; [apply H1|apply H2].
Qed.
Lemma still_onfs {A} (m : M S A) : moves sys_quiet m -> moves k_still (onfs m).
Proof. apply moves_zoom. by intros k s [(H & _) HT]. Qed.
#[local] Hint Resolve still_get still_liftk still_wakeup still_killed still_onfs : moves.
#[local] Hint Extern 1 (moves k_still (change _ _)) => (apply still_change; [done|by intros]) : moves.

Lemma still_with_pid {A} me (m : Z -> M S A) : (forall pid, moves sys_quiet (m pid)) -> moves k_still (with_pid me m).
Proof. intros Hm. unfold with_pid. moves. Qed.
Lemma still_begin_op : moves k_still Proc.begin_op.
Proof. apply still_onfs, quiet_begin. Qed.
Lemma still_end_op me : moves k_still (Proc.end_op me).
Proof. apply still_with_pid. intros pid. apply quiet_end. Qed.
Lemma still_iput me d : moves k_still (Proc.iput me d).
Proof. apply still_with_pid. intros pid. apply quiet_fsdo, moves_iput; [exact _|apply fs_quiet_same]. Qed.
Lemma still_idup d : moves k_still (Proc.idup d).
Proof.
  apply still_onfs. apply moves_bind; [exact _| |intros ?; moves].
  apply quiet_fsdo, moves_idup; [exact _|apply fs_quiet_same].
Qed.
#[local] Hint Resolve still_begin_op still_end_op still_iput still_idup : moves.

(** *** The system calls on files *)

Lemma file_syscall_ok me num pid (s : S) : (me < NPROC)%nat -> sys_ok me none s ->
  wlp (file_syscall end_ trampoline pad me num pid) (fun _ => sys_ok me none) s.
Proof.
  intros Hme Hok. unfold file_syscall. destruct (num =? 4); [by apply ok_sys_pipe|].
  destruct (num =? 5); [apply ok_rest; [apply quiet_sys_read|done]|].
  destruct (num =? 7); [apply ok_rest; [apply quiet_sys_exec|done]|].
  destruct (num =? 8); [apply ok_rest; [apply quiet_sys_fstat|done]|].
  destruct (num =? 9); [apply ok_rest; [apply quiet_sys_chdir|done]|].
  destruct (num =? 10); [by apply ok_sys_dup|].
  destruct (num =? 15); [by apply ok_sys_open|].
  destruct (num =? 16); [apply ok_rest; [apply quiet_sys_write|done]|].
  destruct (num =? 17); [apply ok_rest; [apply quiet_sys_mknod|done]|].
  destruct (num =? 18); [apply ok_rest; [apply quiet_sys_unlink|done]|].
  destruct (num =? 19); [apply ok_rest; [apply quiet_sys_link|done]|].
  destruct (num =? 20); [apply ok_rest; [apply quiet_sys_mkdir|done]|].
  destruct (num =? 21); [by apply ok_sys_close|]. by apply wlp_ret.
Qed.

(** The process table, seen from the files and from the processes. *)
Lemma ptable_to_fs (k : K) : ptable_inv k -> ptable_inv (fenv (ffs (to_fs k))).
Proof. by intros [? ? ? ? ? ? ? ?]. Qed.
Lemma ptable_of_fs (s : S) : ptable_inv (fenv (ffs s)) -> ptable_inv (of_fs s).
Proof. by intros [? ? ? ? ? ? ? ?]. Qed.

Lemma file_call_ok me num k : (me < NPROC)%nat -> live (p_state (procs k me)) -> k_ok none k -> ptable_inv k ->
  wlp (file_call me num) (fun _ k' => k_ok none k' /\ ptable_inv k') k.
Proof.
  intros Hme Hl Hok Hp. apply wlp_bind, wlp_gets, wlp_zoom.
  eapply wlp_mono; [apply (file_syscall_ok me num _ (to_fs k) Hme); split_and!; [done|done|by apply ptable_to_fs]|].
  intros r s' (H1 & _ & H2). split; [done|by apply ptable_of_fs].
Qed.

(** *** fork and exit *)

Lemma kfiledup_ok c k z f : k_ok c k -> (f < NFILE)%nat -> z = file_ptr f -> c f <= 1024 ->
  wlp (Proc.filedup z) (fun r k' => r = z /\ k_ok (credit c f 1) k' /\ procs k' = procs k) k.
Proof.
  intros Hok Hf -> Hc. apply wlp_zoom, wlp_bind. rewrite file_of_ptr.
  unfold File.filedup. apply wlp_bind, wlp_gets. case_bool; [apply wlp_panic|].
  apply wlp_bind, wlp_modify, wlp_ret, wlp_ret. split_and!; try done.
  apply (fd_ok_ref c (procs k) (y_ftable (files k)) f 1 (fun x => fset_ref (i32 (f_ref x + 1)) x)); [done|].
  intros x E. simpl in *. rewrite E, i32_id; [done|].
  pose proof (fo_count _ _ _ Hok f Hf) as E1. pose proof (count_range (fd_val (procs k)) (file_ptr f)).
  unfold fd_count in E1. lia.
Qed.

Lemma kfileclose_ok me c k z f : (me < NPROC)%nat -> k_ok c k -> live (p_state (procs k me)) -> ptable_inv k ->
  (f < NFILE)%nat -> z = file_ptr f -> c f <= 1024 ->
  wlp (Proc.fileclose me z) (fun _ k' => k_ok (credit c f (-1)) k' /\ live (p_state (procs k' me)) /\
    p_ofile (procs k' me) = p_ofile (procs k me) /\ ptable_inv k') k.
Proof.
  intros Hme Hok Hl Hp Hf -> Hc. apply wlp_bind, wlp_gets, wlp_zoom. rewrite file_of_ptr.
  eapply wlp_mono; [apply (ok_fileclose end_ me _ Hme c (to_fs k)); [split_and!; [done|done|by apply ptable_to_fs]|done|done]|].
  intros r s' [(H1 & H2 & H4) H3]. split_and!; [done..|by apply ptable_of_fs].
Qed.

(** A change of one process's descriptor table. *)
Lemma change_fd_open c k i fd f : k_ok c k -> (i < NPROC)%nat -> (fd < NOFILE)%nat -> live (p_state (procs k i)) ->
  (f < NFILE)%nat -> p_ofile (procs k i) fd = 0 ->
  k_ok (credit c f (-1)) (put_proc i (fun p => set_ofile (upd (p_ofile p) fd (file_ptr f)) p) k).
Proof. apply fd_ok_open. Qed.
Lemma change_fd_close c k i fd f : k_ok c k -> (i < NPROC)%nat -> (fd < NOFILE)%nat -> p_ofile (procs k i) fd = file_ptr f ->
  k_ok (credit c f 1) (put_proc i (fun p => set_ofile (upd (p_ofile p) fd 0) p) k).
Proof. apply fd_ok_close. Qed.

(** The loop of [exit]. *)
Definition closed_but (me : nat) (r : list nat) (k : K) : Prop :=
  k_ok none k /\ live (p_state (procs k me)) /\
  forall fd, (fd < NOFILE)%nat -> fd ∉ r -> p_ofile (procs k me) fd = 0.

Lemma close_all me k : (me < NPROC)%nat -> k_ok none k -> live (p_state (procs k me)) -> ptable_inv k ->
  wlp (for_each (seq 0 NOFILE) (fun fd =>
      let! p := get me in
      when! negb (p_ofile p fd =? 0) do
        (Proc.fileclose me (p_ofile p fd) ;;
         change me (fun p => set_ofile (upd (p_ofile p) fd 0) p)))) (fun _ => closed_but me []) k.
Proof.
  intros Hme Hok Hl Hp. eapply wlp_mono.
  - apply (wlp_for_each_rest _ (fun r k => ((forall fd, fd ∈ r -> (fd < NOFILE)%nat) /\ ptable_inv k) /\ closed_but me r k)).
    + split; [split; [|done]; intros fd Hin; apply elem_of_seq in Hin; lia|]. split_and!; [done|done|].
      intros fd Hfd Hn. exfalso. apply Hn, elem_of_seq. lia.
    + intros fd r k1 [[Hr Hp1] (H1 & H2 & H3)]. assert (Hfd : (fd < NOFILE)%nat) by (apply Hr; left).
      apply wlp_bind, wlp_gets. case_bool.
      2: { apply wlp_ret. split; [split; [intros; apply Hr; by right|done]|]. split_and!; [done|done|]. intros fd' Hf' Hn.
        destruct (decide (fd' = fd)) as [->|]; [done|]. apply H3; set_solver. }
      destruct (fo_range _ _ _ H1 me fd Hme Hfd) as [E|(f & Hf & E)]; [lia|].
      apply wlp_bind. eapply wlp_mono; [apply (kfileclose_ok me none k1 _ f); try done; unfold none; lia|].
      cbv beta. intros _ k2 (G1 & G2 & G3 & G4). apply wlp_modify. split.
      { split; [intros; apply Hr; by right|]. apply inv_change; [|done]. by split_and!; [| |left]. }
      split_and!.
      * pose proof (change_fd_close _ k2 me fd f G1 Hme Hfd) as G. rewrite credit_forth in G. apply G. by rewrite G3.
      * simpl. by rewrite upd_same.
      * intros fd' Hf' Hn. simpl. rewrite upd_same. simpl. destruct (decide (fd' = fd)) as [->|Hne]; [apply upd_same|].
        rewrite upd_other by done. rewrite G3. apply H3; set_solver.
  - by intros _ k' [_ ?].
Qed.

Lemma closed_still me k k' : closed_but me [] k -> k_still k k' -> closed_but me [] k'.
Proof.
  intros (H1 & H2 & H3) Hs. split_and!; [by apply (still_ok none k)|by apply Hs|].
  intros fd Hfd Hn. destruct Hs as [HP _]. rewrite (proj1 (HP me)). by apply H3.
Qed.

Lemma still_reparent me p : moves k_still (reparent (F := flayer D) me p).
Proof. unfold reparent. moves. Qed.

Lemma exit_ok me st k : (me < NPROC)%nat -> live (p_state (procs k me)) -> ptable_inv k -> k_ok none k ->
  wlp (exit me st) (fun _ => k_ok none) k.
Proof.
  intros Hme Hl Hp Hok. unfold exit. apply wlp_bind, wlp_gets. case_bool; [apply wlp_panic|].
  apply wlp_bind. eapply wlp_mono; [by apply close_all|]. cbv beta. intros _ k1 H1.
  assert (Hq : forall A B (m : M K A) (n : A -> M K B) (Q : B -> K -> Prop) k, moves k_still m -> closed_but me [] k ->
    (forall a k', closed_but me [] k' -> wlp (n a) Q k') -> wlp (bind m n) Q k).
  { intros A B m n Q k0 Hm H0 Hn. apply wlp_bind. eapply wlp_mono; [apply Hm|]. cbv beta. intros a k' Hs.
    apply Hn. by apply (closed_still me k0). }
  apply Hq; [moves|exact H1|]. clear H1. intros _ k2 H1. apply Hq; [moves|exact H1|]. clear H1. intros p k2' H2.
  apply Hq; [moves|done|]. intros _ k3 H3. apply Hq; [moves|done|]. intros _ k4 H4.
  apply Hq; [moves|done|]. intros _ k5 H5. apply Hq; [apply still_reparent|done|]. intros _ k6 H6.
  apply Hq; [moves|done|]. intros q k7 H7. apply Hq; [moves|done|]. intros _ k8 H8.
  apply Hq; [moves|done|]. intros _ k9 (H9 & _ & H9'). apply wlp_modify. destruct H9 as [C1 C2 C3].
  assert (E : forall i, p_ofile (procs (put_proc me (set_state ZOMBIE) k9) i) = p_ofile (procs k9 i)).
  { intros i. simpl. unfold upd. by destruct (decide (i = me)) as [->|]. }
  split.
  - intros f Hf. etransitivity; [exact (C1 f Hf)|]. f_equal. symmetry. apply count_ext. intros [i fd] _.
    exact (f_equal (fun h => h fd) (E i)).
  - intros i fd Hi Hfd. rewrite E. by apply C2.
  - intros i fd Hi Hfd Hd. rewrite E. destruct (decide (i = me)) as [->|Hne]; [apply H9'; [done|set_solver]|].
    apply C3; [done..|]. simpl in Hd. by rewrite upd_other in Hd.
Qed.

(** [allocproc] and [freeproc] leave the descriptors and the files alone. *)
Definition same_ofile (k k' : K) : Prop := (forall i, p_ofile (procs k' i) = p_ofile (procs k i)) /\ files k' = files k.
#[local] Instance same_ofile_preorder : PreOrder same_ofile.
Proof. split; [by intros k|]. intros k k1 k2 [H1 H2] [H3 H4]. split; [intros i; by rewrite H3|congruence]. Qed.
Lemma ofile_liftk {A} (m : M kstate A) : moves same_ofile (liftk (F := flayer D) m).
Proof. apply (moves_zoom same_ofile (fun _ _ => True)); [done|]. by intros s a s'. Qed.
Lemma ofile_get i : moves same_ofile (get (F := flayer D) i).
Proof. apply moves_gets, _. Qed.
Lemma ofile_change i f : (forall p, p_ofile (f p) = p_ofile p) -> moves same_ofile (change (F := flayer D) i f).
Proof.
  intros Hf. apply moves_modify. intros k. split; [|done]. intros j. simpl. unfold upd.
  destruct (decide (j = i)) as [->|]; [apply Hf|done].
Qed.
#[local] Hint Resolve ofile_liftk ofile_get : moves.
#[local] Hint Extern 1 (moves same_ofile (change _ _)) => (apply ofile_change; done) : moves.
Lemma ofile_freeproc i : moves same_ofile (freeproc (F := flayer D) end_ i).
Proof. unfold freeproc, proc_freepagetable. moves. Qed.
Lemma ofile_allocproc : moves same_ofile (allocproc (F := flayer D) end_ trampoline forkret pol).
Proof.
  pose proof ofile_freeproc. unfold allocproc, allocpid, init_sched, proc_pagetable. moves.
  apply moves_modify. by intros k.
Qed.

(** Slots may be freed or taken as long as they have no descriptors. *)
Lemma ofile_ok c k k' : k_ok c k -> same_ofile k k' ->
  (forall i fd, (i < NPROC)%nat -> (fd < NOFILE)%nat -> ~ live (p_state (procs k' i)) ->
     live (p_state (procs k i)) -> p_ofile (procs k i) fd = 0) -> k_ok c k'.
Proof.
  intros [C1 C2 C3] [HP HF] Hd. unfold k_ok. rewrite HF. split.
  - intros f Hf. rewrite C1 by done. f_equal. symmetry. apply count_ext. intros [i fd] _. unfold fd_val. simpl. by rewrite HP.
  - intros i fd Hi Hfd. rewrite HP. by apply C2.
  - intros i fd Hi Hfd Hn. rewrite HP. destruct (decide (p_state (procs k i) = UNUSED)) as [E|E];
      [apply C3; [done..|]; by intros [? _]|].
    destruct (decide (p_state (procs k i) = ZOMBIE)) as [E'|E']; [apply C3; [done..|]; by intros [_ ?]|by apply Hd].
Qed.

(** The state of [fork] while the child [np] gets the descriptors from [r] on. *)
Definition child_ok (np : nat) (r : list nat) (k : K) : Prop :=
  k_ok none k /\ live (p_state (procs k np)) /\ NoDup r /\ (forall fd, fd ∈ r -> (fd < NOFILE)%nat) /\
  forall fd, fd ∈ r -> p_ofile (procs k np) fd = 0.

Lemma dup_all np (p : proc) k : (np < NPROC)%nat -> child_ok np (seq 0 NOFILE) k ->
  (forall fd, (fd < NOFILE)%nat -> p_ofile p fd = 0 \/ exists f, (f < NFILE)%nat /\ p_ofile p fd = file_ptr f) ->
  wlp (for_each (seq 0 NOFILE) (fun fd =>
      when! negb (p_ofile p fd =? 0) do
        let! f := Proc.filedup (p_ofile p fd) in
        change np (fun c => set_ofile (upd (p_ofile c) fd f) c))) (fun _ => child_ok np []) k.
Proof.
  intros Hnp Hok Hp. apply (wlp_for_each_rest _ (child_ok np)); [done|].
  intros fd r k1 (H1 & H2 & H3 & H4 & H5). apply NoDup_cons in H3 as [Hn H3].
  assert (Hfd : (fd < NOFILE)%nat) by (apply H4; left). case_bool.
  2: { apply wlp_ret. split_and!; try done; intros; [apply H4|apply H5]; by right. }
  destruct (Hp fd Hfd) as [E|(f & Hf & E)]; [lia|].
  apply wlp_bind. eapply wlp_mono; [apply (kfiledup_ok none k1 _ f); try done; unfold none; lia|].
  cbv beta. intros z k2 (-> & G1 & G2). rewrite E. apply wlp_modify. split_and!; try done.
  - pose proof (change_fd_open _ k2 np fd f G1 Hnp Hfd) as G. rewrite credit_back in G. rewrite G2 in G.
    apply G; [done|done|]. apply H5. left.
  - simpl. rewrite upd_same. simpl. by rewrite G2.
  - intros fd' Hin. apply H4. by right.
  - intros fd' Hin. simpl. rewrite upd_same. simpl. rewrite upd_other by (intros ->; done). rewrite G2. apply H5. by right.
Qed.

Lemma child_still np k k' : child_ok np [] k -> k_still k k' -> child_ok np [] k'.
Proof.
  intros (H1 & H2 & H3 & H4 & H5) Hs. split_and!; [by apply (still_ok none k)|by apply Hs|done|done|].
  intros fd Hin. by apply not_elem_of_nil in Hin.
Qed.

Lemma fork_ok me k : (me < NPROC)%nat -> k_ok none k ->
  wlp (fork end_ trampoline forkret pol me) (fun _ => k_ok none) k.
Proof.
  intros Hme Hok. unfold fork. apply wlp_bind. intros o k1 E.
  pose proof (ofile_allocproc k o k1 E) as Ho.
  pose proof (allocproc_slot end_ trampoline forkret pol k o k1 E) as Ha. cbv beta in Ho, Ha.
  destruct (find_unused k) as [np|] eqn:Hf; [|destruct Ha as [-> ->]; by apply wlp_ret].
  apply find_unused_Some in Hf as [Hnp Hun]. destruct Ha as (p' & (Hp & _ & _) & Hc).
  assert (H1 : k_ok none k1).
  { apply (ofile_ok none k k1); [done|done|]. intros i fd Hi Hfd Hd Hl. rewrite Hp in Hd. simpl in Hd. unfold upd in Hd.
    destruct (decide (i = np)) as [->|]; [destruct Hl as [Hl _]; congruence|done]. }
  assert (Hz : forall fd, (fd < NOFILE)%nat -> p_ofile (procs k1 np) fd = 0).
  { intros fd Hfd. rewrite (proj1 Ho np). apply (fo_dead _ _ _ Hok); [done..|]. intros [Hl _]. congruence. }
  destruct o as [i|]; [|by apply wlp_ret]. destruct Hc as (-> & Hs & _).
  assert (Hc1 : child_ok np (seq 0 NOFILE) k1).
  { split_and!; [done|rewrite Hp; simpl; rewrite upd_same; by rewrite Hs|apply NoDup_seq| |];
      intros fd Hin; apply elem_of_seq in Hin; [lia|apply Hz; lia]. }
  apply wlp_bind, wlp_gets, wlp_bind, wlp_gets.
  assert (Hq : forall A B (m : M K A) (n : A -> M K B) (Q : B -> K -> Prop) r k, moves k_still m -> child_ok np r k ->
    (forall a k', child_ok np r k' -> wlp (n a) Q k') -> wlp (bind m n) Q k).
  { intros A B m n Q r k0 Hm (G1 & G2 & G3 & G4 & G5) Hn. apply wlp_bind. eapply wlp_mono; [apply Hm|]. cbv beta. intros a k' Hst.
    apply Hn. split_and!; [by apply (still_ok none k0)|by apply Hst|done|done|]. intros fd Hin.
    destruct Hst as [HP _]. rewrite (proj1 (HP np)). by apply G5. }
  eapply Hq; [moves|exact Hc1|]. intros r k2 H2. case_bool.
  { apply wlp_bind. intros a k3 E3. apply wlp_ret. destruct H2 as (G1 & G2 & G3 & G4 & G5).
    pose proof (ofile_freeproc np k2 a k3 E3) as Ho3. pose proof (freeproc_only end_ np k2 a k3 E3) as (Hp3 & _ & _).
    apply (ofile_ok none k2 k3); [done|done|]. intros i fd Hi Hfd Hd Hl. rewrite Hp3 in Hd. unfold upd in Hd.
    destruct (decide (i = np)) as [->|]; [|done]. apply G5, elem_of_seq. lia. }
  do 5 (eapply Hq; [moves|eassumption|]; intros ? ? ?).
  apply wlp_bind. eapply wlp_mono; [apply (dup_all np (procs k1 me)); [done|done|]|].
  { intros fd Hfd. by apply (fo_range _ _ _ H1). }
  cbv beta. intros _ kd Hkd. do 6 (eapply Hq; [moves|eassumption|]; intros ? ? ?).
  apply wlp_ret. match goal with H : child_ok np [] ?k |- k_ok none ?k => apply H end.
Qed.

(** *** Every state *)

Lemma still_kill pid : moves k_still (kill (F := flayer D) pid).
Proof.
  unfold kill. apply moves_bind; [exact _|apply moves_gets, _|]. intros [i|]; [|moves].
  apply moves_bind; [exact _|moves|]. intros _ k. apply wlp_bind, wlp_gets, wlp_bind.
  destruct (bool_decide_reflect (p_state (procs k i) = SLEEPING)) as [E|E]; [apply wlp_modify|apply wlp_ret]; apply wlp_ret; [|done].
  split; [|done]. intros j. simpl. unfold upd. destruct (decide (j = i)) as [->|]; [|done]. split; [done|]. by intros _.
Qed.
Lemma still_sleep_on me c : moves k_still (sleep_on (F := flayer D) me c).
Proof. unfold sleep_on. moves. Qed.

(** Reaping a zombie. *)
Lemma reap_ok me pp (k k1 : K) (v : Z) : zombie_child me k = Some pp -> procs k1 = procs k -> k_ok none k1 ->
  wlp (freeproc end_ pp ;; ret v) (fun _ => k_ok none) k1.
Proof.
  intros (Hpp & _ & Hz)%zombie_child_Some Hp Hok. apply wlp_bind. intros a k2 E. apply wlp_ret.
  pose proof (ofile_freeproc pp k1 a k2 E) as Ho. pose proof (freeproc_only end_ pp k1 a k2 E) as (Hp2 & _ & _).
  apply (ofile_ok none k1 k2); [done|done|]. intros i fd Hi Hfd Hd Hl. rewrite Hp2 in Hd. unfold upd in Hd.
  destruct (decide (i = pp)) as [->|]; [|done]. apply (fo_dead _ _ _ Hok); [done..|]. rewrite Hp, Hz. by intros [_ ?].
Qed.

Lemma wait_ok me addr k : k_ok none k -> wlp (wait end_ me addr) (fun _ => k_ok none) k.
Proof.
  intros Hok. unfold wait. apply wlp_bind, wlp_gets. destruct (zombie_child me k) as [pp|] eqn:Hz.
  - apply wlp_bind, wlp_gets. apply wlp_copyout_int. intros b s. case_bool; [by apply wlp_ret|]. by apply (reap_ok me pp k).
  - do 2 (apply wlp_bind, wlp_gets). case_bool; [by apply wlp_ret|apply wlp_blocked].
Qed.
Lemma wait2_ok me a1 a2 a3 k : k_ok none k -> wlp (wait2 end_ me a1 a2 a3) (fun _ => k_ok none) k.
Proof.
  intros Hok. unfold wait2. apply wlp_bind, wlp_gets. destruct (zombie_child me k) as [pp|] eqn:Hz.
  - apply wlp_bind, wlp_gets. do 3 (apply wlp_copyout_int; intros ? ?; case_bool; [by apply wlp_ret|]). by apply (reap_ok me pp k).
  - do 2 (apply wlp_bind, wlp_gets). case_bool; [by apply wlp_ret|apply wlp_blocked].
Qed.

Lemma still_moves {A} (m : M K A) k : moves k_still m -> k_ok none k -> wlp m (fun _ => k_ok none) k.
Proof. intros Hm Hok. eapply wlp_mono; [apply Hm|]. intros a k' Hs. by apply (still_ok none k). Qed.

Lemma pstep_ok k k' : pstep end_ trampoline forkret pol k k' -> ptable_inv k -> k_ok none k -> k_ok none k'.
Proof.
  intros Hs Hp Hok. destruct Hs as [me r k1 Hr Hn E|me st k1 Hr E|me addr r k1 Hr E|me a1 a2 a3 r k1 Hr E|me pid r k1 Hr E
    |me n r k1 Hr E|me pid v r k1 Hr E|me pid v r k1 Hr E|me c k1 Hr E|me c k1 E|k1 E|me Hr|i Hi Hs].
  - eapply fork_ok, E; [apply Hr|done].
  - eapply exit_ok, E; [apply Hr|by apply running_live|done|done].
  - by eapply wait_ok, E.
  - by eapply wait2_ok, E.
  - eapply still_moves, E; [apply still_kill|done].
  - eapply still_moves, E; [unfold growproc; moves|done].
  - eapply still_moves, E; [unfold chpr; moves|done].
  - eapply still_moves, E; [unfold chtickets; moves|done].
  - eapply still_moves, E; [apply still_sleep_on|done].
  - eapply still_moves, E; [moves|done].
  - eapply still_moves, E; [unfold updatestatistics; moves|done].
  - apply (still_ok none k); [|done]. split; [|done]. intros j. simpl. unfold upd. by destruct (decide (j = me)) as [->|].
  - apply (still_ok none k); [|done]. split; [|done]. intros j. simpl. unfold upd. by destruct (decide (j = i)) as [->|].
Qed.

(** A step of the kernel: what a process does itself (proc.c), a system call
    on files (sysfile.c), an interrupt of the serial port. *)
Inductive kstep (k : K) : K -> Prop :=
| ks_proc k' : pstep end_ trampoline forkret pol k k' -> kstep k k'
| ks_file me num r k' : running k me -> file_call me num k = Ret (r, k') -> kstep k k'
| ks_uart w spin left k' : onfs (kdo (kuartintr w spin left)) k = Ret (tt, k') -> kstep k k'.

Lemma quiet_ptable {A} (m : M S A) (k : K) : moves sys_quiet m -> ptable_inv k -> wlp (onfs m) (fun _ => ptable_inv) k.
Proof.
  intros Hm Hp. apply wlp_zoom. eapply wlp_mono; [apply Hm|]. cbv beta. intros a s' [(_ & Hn & Hi & Hc) _].
  apply ptable_of_fs. apply (inv_compat None (fenv (ffs (to_fs k)))); [done..|by apply ptable_to_fs].
Qed.

Lemma kstep_ok k k' : kstep k k' -> ptable_inv k -> k_ok none k -> ptable_inv k' /\ k_ok none k'.
Proof.
  intros Hs Hp Hok. destruct Hs as [k' Hs|me num r k' Hr E|w spin left k' E].
  - split; [by apply (pstep_inv (FOK := kernel_files_ok end_) end_ trampoline forkret pol k)|by apply (pstep_ok k)].
  - destruct (file_call_ok me num k (proj1 Hr) (running_live k me Hr) Hok Hp r k' E). done.
  - pose proof (quiet_kdo _ (quiet_kuartintr w spin left)) as Hq. split.
    + exact (quiet_ptable _ k Hq Hp tt k' E).
    + exact (still_moves _ k (still_onfs _ Hq) Hok tt k' E).
Qed.

(** C2: file descriptors.  In every state that system calls that return, process
    switches and interrupts of the serial port reach, the reference count of each open
    file is the number of descriptors of all processes that refer to it; a
    descriptor in use refers to a file that is open, of a process that has not
    ended; and the process table is consistent. *)
Theorem descriptors_correct (k0 k : K) :
  ptable_inv k0 -> k_ok none k0 -> rtc kstep k0 k ->
  (forall f, (f < NFILE)%nat -> f_ref (y_ftable (files k) f) = fd_count (procs k) (file_ptr f)) /\
  (forall i fd, (i < NPROC)%nat -> (fd < NOFILE)%nat -> p_ofile (procs k i) fd <> 0 ->
     live (p_state (procs k i)) /\
     exists f, (f < NFILE)%nat /\ p_ofile (procs k i) fd = file_ptr f /\ 1 <= f_ref (y_ftable (files k) f) <= 1024) /\
  ptable_inv k.
Proof.
  intros Hp Hok Hs. assert (H : ptable_inv k /\ k_ok none k).
  { induction Hs as [k|k k1 k2 Hs _ IH]; [done|]. destruct (kstep_ok k k1 Hs Hp Hok). by apply IH. }
  clear Hp Hok Hs. destruct H as [Hp [C1 C2 C3]].
  assert (C : forall f, (f < NFILE)%nat -> f_ref (y_ftable (files k) f) = fd_count (procs k) (file_ptr f)).
  { intros f Hf. rewrite C1 by done. unfold none. lia. }
  split_and!; [done| |done]. intros i fd Hi Hfd Hne. split.
  - destruct (decide (p_state (procs k i) = UNUSED)) as [E|E]; [by rewrite C3 in Hne by (done || by intros [? _])|].
    destruct (decide (p_state (procs k i) = ZOMBIE)) as [E'|E']; [by rewrite C3 in Hne by (done || by intros [_ ?])|done].
  - destruct (C2 i fd Hi Hfd) as [E|(f & Hf & E)]; [done|]. exists f. split_and!; [done|done| |].
    + rewrite C by done. by apply (count_pos (fd_val (procs k)) (i, fd)); [apply in_fd_slots|].
    + rewrite C by done. apply count_range.
Qed.
End kernel.

(** *** A process with one open file *)

Lemma fd_ok_empty P T : (forall i fd, p_ofile (P i) fd = 0) -> (forall f, f_ref (T f) = 0) -> fd_ok none P T.
Proof.
  intros HP HT. split; [|intros; left; apply HP|intros; apply HP]. intros f Hf. rewrite HT. unfold none, fd_count.
  rewrite count_zero; [done|]. intros [i fd] _. unfold fd_val. simpl. rewrite HP. unfold file_ptr. lia.
Qed.

#[local] Instance no_port : PortEnv unit := {| reg_read _ := ret 0; reg_write _ _ := ret tt |}.
Definition file0 : file := File FD_NONE 0 false false 0 0 0 0.
Definition one_file : nat -> file := upd (fun _ => file0) O (fset_ref 1 file0).
Definition one_fd : nat -> proc :=
  upd init_table O (set_ofile (upd (p_ofile (init_table O)) O (file_ptr O)) (init_table O)).
Definition kern0 : kern (flayer unit) :=
  Kern (kst init_kern) one_fd 2 (Some O) 0 (0, 0, 0, 0)
    (FLayer (boot_lstate (fun _ => [])) (Superblock 0 0 0 0 0 0 0 0) (fun _ => Inode 0 0 0 initsleeplock false (Dinode 0 0 0 0 0 []))
      one_file (Devs (fun _ => pipe_init (fun _ => 0)) (Cons (fun _ => 0) 0 0 0) (Uart (fun _ => 0) 0 0) tt)).

Lemma kern0_ptable : ptable_inv kern0.
Proof.
  assert (E : forall i, compat (init_table i) (one_fd i)).
  { intros i. unfold one_fd, upd. destruct (decide (i = O)) as [->|]; [by split_and!; [| |left]|apply compat_refl]. }
  assert (H : ptable_inv (set_procs one_fd init_kern)) by (by apply (inv_compat None init_kern); [..|apply init_table_inv]).
  by destruct H.
Qed.
Lemma kern0_ok : k_ok none kern0.
Proof.
  assert (H0 : fd_ok none init_table (fun _ => file0)).
  { apply fd_ok_empty; [|done]. intros i fd. unfold init_table, upd. by destruct (decide (i = O)). }
  assert (H1 : fd_ok (credit none O 1) init_table one_file) by (by apply (fd_ok_ref none init_table (fun _ => file0) O 1 (fset_ref 1)); [|intros x ->]).
  unfold k_ok. rewrite <-(credit_back none O). apply (fd_ok_open (credit none O 1) init_table one_file O O O); try done.
  all: vm_compute; lia.
Qed.

(** dup(0): descriptor 1 refers to the file too. *)
Lemma descriptors_correct_witness : exists k, rtc (kstep (D := unit) 0 0 0 [] DEFAULT) kern0 k /\
  p_ofile (procs k O) 1%nat = file_ptr O /\ f_ref (y_ftable (files k) O) = 2 /\ fd_count (procs k) (file_ptr O) = 2.
Proof.
  assert (E : exists k, @file_call _ (kernel_calls 0 0 []) O 10 kern0 = Ret (1, k) /\
    p_ofile (procs k O) 1%nat = 1 /\ f_ref (y_ftable (files k) O) = 2).
  { eexists. split; [vm_compute; reflexivity|]. split; vm_compute; reflexivity. }
  destruct E as (k & E & E1 & E2).
  assert (Hs : rtc (kstep (D := unit) 0 0 0 [] DEFAULT) kern0 k).
  { eapply rtc_once, (ks_file _ _ _ _ _ _ O 10 1 k); [|exact E]. split; [vm_compute; lia|reflexivity]. }
  exists k. split; [exact Hs|]. split; [exact E1|]. split; [exact E2|].
  destruct (descriptors_correct 0 0 0 [] DEFAULT kern0 k kern0_ptable kern0_ok Hs) as (H & _ & _).
  rewrite <-(H O); [exact E2|vm_compute; lia].
Defined.
