(* ===== verification/Sh.v ===== *)
(** * user/sh.c: the shell

    The parser works on the input line in place: a pointer is an index into
    the line, and a word of a command is the pair of its first index and the
    index after it, where nulterminate stores a 0.  malloc is taken to
    succeed.  What a command does is a tree of system calls, with a branch for
    every result of a call. *)

From S2P Require Import Prelude Grep Sysfile.

Definition MAXARGS : nat := 10.

(** A command with the words in the line, and with the words as bytes. *)
Inductive cmd :=
| EXEC (argv : list (nat * nat))
| REDIR (c : cmd) (file efile : nat) (mode fd : Z)
| PIPE (left right : cmd)
| LIST (left right : cmd)
| BACK (c : cmd).

Definition whitespace : list Z := [32; 9; 13; 10; 11].
Definition symbols : list Z := [60; 124; 62; 38; 59; 40; 41].
(** [strchr(toks, c)] is not null. *)
Definition has (toks : list Z) (c : Z) : bool := match strchr toks c with Some _ => true | None => false end.

Definition LT : Z := 60.
Definition GT : Z := 62.
Definition PLUS : Z := 43.
Definition BAR : Z := 124.
Definition AMP : Z := 38.
Definition SEMI : Z := 59.
Definition LPAR : Z := 40.
Definition RPAR : Z := 41.
Definition WORD : Z := 97.

Section parser.
(** The line and the index of its end. *)
Context (buf : list Z) (es : nat).

Definition at_ (s : nat) : Z := nth s buf 0.

(** The loops over white space and over a word, for [left] characters. *)
Fixpoint skip_ws (left s : nat) : nat :=
  match left with
  | O => s
  | S left' => if has whitespace (at_ s) then skip_ws left' (S s) else s
  end.
Fixpoint word_end (left s : nat) : nat :=
  match left with
  | O => s
  | S left' => if negb (has whitespace (at_ s)) && negb (has symbols (at_ s)) then word_end left' (S s) else s
  end.

(** The result of the switch in gettoken: the token and the index after it. *)
Definition token_at (s : nat) : Z * nat :=
  let c := at_ s in
  if c =? 0 then (0, s)
  else if (c =? BAR) || (c =? LPAR) || (c =? RPAR) || (c =? SEMI) || (c =? AMP) || (c =? LT) then (c, S s)
  else if c =? GT then if at_ (S s) =? GT then (PLUS, S (S s)) else (GT, S s)
  else (WORD, word_end (es - s) s).
(** The token, and the indices [*q] and [*eq]; the state is [*ps]. *)
Definition gettoken : M nat (Z * (nat * nat)) := fun s =>
  let q := skip_ws (es - s) s in
  let (tok, eq) := token_at q in
  Ret ((tok, (q, eq)), skip_ws (es - eq) eq).
Definition peek (toks : list Z) : M nat bool := fun s =>
  let s := skip_ws (es - s) s in Ret (negb (at_ s =? 0) && has toks (at_ s), s).

(** A redirection: the word, the mode and the descriptor. *)
Definition redir : Type := ((nat * nat) * Z * Z).
(** The mode and descriptor of each kind; [None] for any other token. *)
Definition redir_kind (tok : Z) : option (Z * Z) :=
  if tok =? LT then Some (O_RDONLY, 0)
  else if tok =? GT then Some (Z.lor (Z.lor O_WRONLY O_CREATE) O_TRUNC, 1)
  else if tok =? PLUS then Some (Z.lor O_WRONLY O_CREATE, 1)
  else None.

(** parseredirs wraps the command it is given; the redirections are returned
    in the order in which they are wrapped around it, since the command of
    parseexec is still being filled in. *)
Fixpoint redirs_loop (left : nat) : M nat (list redir) :=
  let! b := peek [LT; GT] in
  if negb b then ret []
  else
    match left with
    | O => out_of_fuel
    | S left' =>
        let! (tok, _) := gettoken in
        let! (tok', w) := gettoken in
        if negb (tok' =? WORD) then panic "missing file for redirection"
        else
          let! rest := redirs_loop left' in
          ret (match redir_kind tok with Some (mode, fd) => (w, mode, fd) :: rest | None => rest end)
    end.
Definition parseredirs : M nat (list redir) := redirs_loop es.
Definition wrap (c : cmd) (rs : list redir) : cmd :=
  fold_left (fun c r => let '((q, eq), mode, fd) := r in REDIR c q eq mode fd) rs c.

(** The loop of parseexec over the words. *)
Fixpoint args_loop (left : nat) (args : list (nat * nat)) (rs : list redir) : M nat (list (nat * nat) * list redir) :=
  let! b := peek [BAR; RPAR; AMP; SEMI] in
  if b then ret (args, rs)
  else
    let! (tok, w) := gettoken in
    if tok =? 0 then ret (args, rs)
    else if negb (tok =? WORD) then panic "syntax"
    else
      let args' := args ++ [w] in
      if (MAXARGS <=? length args')%nat then panic "too many args"
      else
        match left with
        | O => out_of_fuel
        | S left' => let! rs' := parseredirs in args_loop left' args' (rs ++ rs')
        end.

(** The loop of parseline over the ampersands. *)
Fixpoint backs_loop (left : nat) (c : cmd) : M nat cmd :=
  let! b := peek [AMP] in
  if negb b then ret c
  else
    match left with
    | O => out_of_fuel
    | S left' => let! _ := gettoken in backs_loop left' (BACK c)
    end.

Fixpoint parseline (fuel : nat) : M nat cmd :=
  match fuel with
  | O => out_of_fuel
  | S n =>
      let! c := parsepipe n in
      let! c := backs_loop es c in
      let! b := peek [SEMI] in
      if b then let! _ := gettoken in let! r := parseline n in ret (LIST c r) else ret c
  end
with parsepipe (fuel : nat) : M nat cmd :=
  match fuel with
  | O => out_of_fuel
  | S n =>
      let! c := parseexec n in
      let! b := peek [BAR] in
      if b then let! _ := gettoken in let! r := parsepipe n in ret (PIPE c r) else ret c
  end
with parseexec (fuel : nat) : M nat cmd :=
  match fuel with
  | O => out_of_fuel
  | S n =>
      let! b := peek [LPAR] in
      if b then parseblock n
      else
        let! rs := parseredirs in
        let! (args, rs) := args_loop es [] rs in
        ret (wrap (EXEC args) rs)
  end
with parseblock (fuel : nat) : M nat cmd :=
  match fuel with
  | O => out_of_fuel
  | S n =>
      let! b := peek [LPAR] in
      if negb b then panic "parseblock"
      else
        let! _ := gettoken in
        let! c := parseline n in
        let! b := peek [RPAR] in
        if negb b then panic "syntax - missing )"
        else
          let! _ := gettoken in
          let! rs := parseredirs in
          ret (wrap c rs)
  end.
End parser.

(** Stores the terminating 0 of every word. *)
Fixpoint nulterminate (c : cmd) (buf : list Z) : list Z :=
  match c with
  | EXEC argv => fold_left (fun b w => <[snd w := 0]> b) argv buf
  | REDIR c _ efile _ _ => <[efile := 0]> (nulterminate c buf)
  | PIPE l r | LIST l r => nulterminate r (nulterminate l buf)
  | BACK c => nulterminate c buf
  end.

(** The length of the string at the start of the line. *)
Fixpoint line_len (buf : list Z) : nat :=
  match buf with
  | [] => O
  | c :: buf' => if c =? 0 then O else S (line_len buf')
  end.

(** The command and the line after nulterminate. *)
Definition parsecmd (buf : list Z) : outcome (cmd * list Z) :=
  let es := line_len buf in
  match (let! c := parseline buf es (4 * es + 4) in
         let! _ := peek buf es [] in
         let! s := gets id in
         if (s =? es)%nat then ret c else panic "syntax") O with
  | Ret (c, _) => Ret (c, nulterminate c buf)
  | Panic msg => Panic msg
  | Blocked => Blocked
  | OutOfFuel => OutOfFuel
  end.

(** ** The language of commands *)

(** Tokens: words and symbols, where the plus sign stands for [>>]. *)
Inductive tok := TWord (w : list Z) | TSym (c : Z).

Definition flush (w : list Z) : list tok := match w with [] => [] | _ => [TWord w] end.
(** The tokens of [s] after the beginning [w] of a word. *)
Fixpoint lex (w s : list Z) : list tok :=
  match s with
  | [] => flush w
  | c :: s' =>
      if has whitespace c then flush w ++ lex [] s'
      else if has symbols c then
        flush w ++
        if c =? GT then
          match s' with
          | c' :: s'' => if c' =? GT then TSym PLUS :: lex [] s'' else TSym GT :: lex [] s'
          | [] => [TSym GT]
          end
        else TSym c :: lex [] s'
      else lex (w ++ [c]) s'
  end.

Inductive acmd :=
| AExec (argv : list (list Z))
| ARedir (c : acmd) (file : list Z) (mode fd : Z)
| APipe (left right : acmd)
| AList (left right : acmd)
| ABack (c : acmd).
Definition aredir : Type := (list Z * Z * Z).
Definition awrap (c : acmd) (rs : list aredir) : acmd :=
  fold_left (fun c r => let '(w, mode, fd) := r in ARedir c w mode fd) rs c.

(** [<], [>] or [>>] and a word, any number of times. *)
Inductive g_redirs : list tok -> list aredir -> Prop :=
| gr_nil : g_redirs [] []
| gr_cons t w ts mode fd rs :
    redir_kind t = Some (mode, fd) -> g_redirs ts rs ->
    g_redirs (TSym t :: TWord w :: ts) ((w, mode, fd) :: rs).
(** Words, each followed by redirections. *)
Inductive g_words : list tok -> list (list Z) -> list aredir -> Prop :=
| gw_nil : g_words [] [] []
| gw_cons w ts1 rs1 ts2 ws rs2 :
    g_redirs ts1 rs1 -> g_words ts2 ws rs2 -> g_words (TWord w :: ts1 ++ ts2) (w :: ws) (rs1 ++ rs2).

Inductive g_line : list tok -> acmd -> Prop :=
| gl_one ts c k : g_pipe ts c -> g_line (ts ++ repeat (TSym AMP) k) (Nat.iter k ABack c)
| gl_list ts c k ts' c' :
    g_pipe ts c -> g_line ts' c' ->
    g_line (ts ++ repeat (TSym AMP) k ++ TSym SEMI :: ts') (AList (Nat.iter k ABack c) c')
with g_pipe : list tok -> acmd -> Prop :=
| gp_one ts c : g_exec ts c -> g_pipe ts c
| gp_pipe ts c ts' c' : g_exec ts c -> g_pipe ts' c' -> g_pipe (ts ++ TSym BAR :: ts') (APipe c c')
with g_exec : list tok -> acmd -> Prop :=
| ge_block ts c ts' rs :
    g_line ts c -> g_redirs ts' rs -> g_exec (TSym LPAR :: ts ++ TSym RPAR :: ts') (awrap c rs)
| ge_simple ts0 rs0 ts ws rs :
    g_redirs ts0 rs0 -> g_words ts ws rs -> (length ws < MAXARGS)%nat ->
    g_exec (ts0 ++ ts) (awrap (AExec ws) (rs0 ++ rs)).

Scheme g_line_min := Minimality for g_line Sort Prop
  with g_pipe_min := Minimality for g_pipe Sort Prop
  with g_exec_min := Minimality for g_exec Sort Prop.
Combined Scheme g_min from g_line_min, g_pipe_min, g_exec_min.

(** The C string at index [q] of the line, and the command with its words. *)
Definition cstring (buf : list Z) (q : nat) : list Z := take (line_len (drop q buf)) (drop q buf).
Fixpoint read_cmd (buf : list Z) (c : cmd) : acmd :=
  match c with
  | EXEC argv => AExec (map (fun w => cstring buf (fst w)) argv)
  | REDIR c file _ mode fd => ARedir (read_cmd buf c) (cstring buf file) mode fd
  | PIPE l r => APipe (read_cmd buf l) (read_cmd buf r)
  | LIST l r => AList (read_cmd buf l) (read_cmd buf r)
  | BACK c => ABack (read_cmd buf c)
  end.

(** ** Computations that return or panic, within their fuel *)

Definition ends {S A} (m : M S A) (Q : A -> S -> Prop) (s : S) : Prop :=
  match m s with Ret (a, s') => Q a s' | Panic _ => True | _ => False end.
Lemma ends_bind {S A B} (m : M S A) (k : A -> M S B) Q s :
  ends m (fun a => ends (k a) Q) s -> ends (bind m k) Q s.
Proof. unfold ends, bind. by destruct (m s) as [[a s']| | |]. Qed.
Lemma ends_mono {S A} (m : M S A) (Q Q' : A -> S -> Prop) s :
  ends m Q s -> (forall a s', Q a s' -> Q' a s') -> ends m Q' s.
Proof. unfold ends. destruct (m s) as [[a s']| | |]; eauto. Qed.

(** ** The scanner *)

Definition wordchar (c : Z) : Prop := has whitespace c = false /\ has symbols c = false /\ c <> 0.
Lemma has_in toks c : 0 ∉ toks -> has toks c = true <-> c ∈ toks.
Proof.
  unfold has. induction toks as [|x toks IH]; intros H0; cbn [strchr].
  - split; [done|]. by intros ?%elem_of_nil.
  - apply not_elem_of_cons in H0 as [Hx H0]. rewrite (proj2 (Z.eqb_neq x 0)) by done. rewrite elem_of_cons.
    destruct (Z.eqb_spec x c) as [->|Hne]; [split; auto|]. rewrite <- IH by done.
    destruct (strchr toks c) as [[]|]; split; auto; intros [->|?]; done.
Qed.
Lemma has_symbols c : has symbols c = true <-> c ∈ symbols.
Proof. by apply has_in, (bool_decide_unpack _). Qed.

Section scanner.
Context (str rest : list Z) (Hnz : Forall (fun c => c <> 0) str).
Abbreviation line_buf := (str ++ 0 :: rest).
Abbreviation es := (length str).
Definition rem (s : nat) : list tok := lex [] (drop s str).

Lemma at_cons s c t : drop s str = c :: t -> at_ line_buf s = c /\ drop (S s) str = t /\ (s < es)%nat /\ c <> 0.
Proof using Hnz.
  intros E. assert (Hs : (s < es)%nat).
  { destruct (decide (s < es)%nat); [done|]. rewrite drop_ge in E by lia. done. }
  assert (El : str !! s = Some c) by (rewrite <- (Nat.add_0_r s), <- lookup_drop, E; done).
  split_and!; try done.
  - unfold at_. rewrite app_nth1 by done. by apply nth_lookup_Some.
  - rewrite (drop_S _ _ _ El) in E. by injection E.
  - rewrite Forall_forall in Hnz. apply Hnz. by apply list_elem_of_lookup_2 in El.
Qed.
Lemma at_end s : (s <= es)%nat -> drop s str = [] -> s = es /\ at_ line_buf s = 0.
Proof.
  intros Hs E. assert (s = es) as ->. { apply (f_equal length) in E. rewrite length_drop in E. simpl in E. lia. }
  split; [done|]. unfold at_. rewrite app_nth2, Nat.sub_diag by lia. done.
Qed.

Lemma skip_spec n s : n = (es - s)%nat -> (s <= es)%nat ->
  let s' := skip_ws line_buf n s in (s <= s' <= es)%nat /\ rem s' = rem s /\
  match drop s' str with [] => True | c :: _ => has whitespace c = false end.
Proof using Hnz.
  revert s. induction n as [|n IH]; intros s Hn Hs; simpl.
  - split; [lia|]. split; [done|]. rewrite drop_ge by lia. done.
  - destruct (drop s str) as [|c t] eqn:E; [apply at_end in E as [-> _]; [lia|done]|].
    destruct (at_cons s c t E) as (-> & Et & Hlt & _). destruct (has whitespace c) eqn:Ew.
    + destruct (IH (S s)) as (H1 & H2 & H3); [lia..|]. split; [lia|]. split; [|done].
      rewrite H2. unfold rem. rewrite E, Et. simpl. by rewrite Ew.
    + split; [lia|]. split; [done|]. by rewrite E.
Qed.

(** The word [w] is in the line from index [q] to [e]. *)
Definition word_at (x : nat * nat) (w : list Z) : Prop :=
  drop (fst x) str = w ++ drop (snd x) str /\ snd x = (fst x + length w)%nat /\ w <> [] /\ Forall wordchar w /\
  match drop (snd x) str with [] => True | c :: _ => ~ wordchar c end.

Lemma word_end_spec n s : n = (es - s)%nat -> (s <= es)%nat ->
  let e := word_end line_buf n s in exists w, drop s str = w ++ drop e str /\ e = (s + length w)%nat /\ (e <= es)%nat /\
  Forall wordchar w /\ match drop e str with [] => True | c :: _ => ~ wordchar c end.
Proof using Hnz.
  revert s. induction n as [|n IH]; intros s Hn Hs; cbn [word_end].
  - exists []. rewrite Nat.add_0_r, drop_ge by lia. done.
  - destruct (drop s str) as [|c t] eqn:E; [apply at_end in E as [-> _]; [lia|done]|].
    destruct (at_cons s c t E) as (-> & Et & Hlt & Hc). destruct (negb (has whitespace c) && negb (has symbols c)) eqn:Ew.
    + apply andb_true_iff in Ew as [Ew1%negb_true_iff Ew2%negb_true_iff].
      destruct (IH (S s)) as (w & H1 & H2 & H3 & H4 & H5); [lia..|]. exists (c :: w).
      split_and!; [simpl; by rewrite <- H1, Et|simpl; lia|done| |done]. by constructor.
    + exists []. rewrite Nat.add_0_r, E. split_and!; try done. intros (H1 & H2 & _). by rewrite H1, H2 in Ew.
Qed.

Lemma lex_word w0 w t : Forall wordchar w -> lex w0 (w ++ t) = lex (w0 ++ w) t.
Proof.
  intros Hw. revert w0. induction Hw as [|c w (H1 & H2 & _) Hw IH]; intros w0; [by rewrite app_nil_r|].
  simpl. by rewrite H1, H2, IH, <- app_assoc.
Qed.
Lemma lex_head w t : w <> [] -> exists v ts, lex w t = TWord v :: ts.
Proof.
  revert w. induction t as [|c t IH]; intros w Hw; cbn [lex]; [by destruct w; eauto|].
  destruct (has whitespace c); [by destruct w; simpl; eauto|]. destruct (has symbols c); [by destruct w; simpl; eauto|].
  apply IH. by destruct w.
Qed.
Lemma lex_end w t : w <> [] -> Forall (fun c => c <> 0) t -> match t with [] => True | c :: _ => ~ wordchar c end ->
  lex w t = TWord w :: lex [] t.
Proof.
  intros Hw Ht Hc. assert (Ef : flush w = [TWord w]) by by destruct w.
  destruct t as [|c t]; [done|]. cbn [lex]. rewrite Ef. inversion Ht.
  destruct (has whitespace c) eqn:E1; [done|]. destruct (has symbols c) eqn:E2; [done|]. by destruct Hc.
Qed.

(** What gettoken returns for the first of the remaining tokens. *)
Definition got (ts : list tok) (tok : Z) (w : nat * nat) (s' : nat) : Prop :=
  match ts with
  | [] => tok = 0 /\ rem s' = [] /\ s' = es
  | TSym c :: ts' => tok = c /\ c <> WORD /\ c <> 0 /\ rem s' = ts'
  | TWord v :: ts' => tok = WORD /\ rem s' = ts' /\ word_at w v
  end.

Lemma token_at_spec q c t : drop q str = c :: t -> has whitespace c = false ->
  exists tok e T, token_at line_buf es q = (tok, e) /\ (e <= es)%nat /\ rem q = T :: rem e /\
    match T with TSym x => tok = x /\ x <> WORD /\ x <> 0 | TWord v => tok = WORD /\ word_at (q, e) v end.
Proof using Hnz.
  intros E Hw. destruct (at_cons q c t E) as (Eat & Et & Hlt & Hc). unfold token_at. rewrite Eat.
  rewrite (proj2 (Z.eqb_neq c 0)) by done. unfold rem at 1. rewrite E. cbn [lex]. rewrite Hw. cbn [flush app].
  destruct (has symbols c) eqn:Es.
  - apply has_symbols in Es. destruct (Z.eqb_spec c GT) as [->|Hgt].
    + cbn [orb]. change ((GT =? BAR) || (GT =? LPAR) || (GT =? RPAR) || (GT =? SEMI) || (GT =? AMP) || (GT =? LT)) with false.
      cbv iota. destruct t as [|c' t'].
      * apply at_end in Et as [Ee E0]; [|lia]. rewrite E0. exists GT, (S q), (TSym GT).
        unfold rem. rewrite Ee, drop_all. done.
      * destruct (at_cons (S q) c' t' Et) as (-> & Et' & Hlt' & _). destruct (Z.eqb_spec c' GT) as [->|Hc'].
        -- exists PLUS, (S (S q)), (TSym PLUS). unfold rem. rewrite Et'. done.
        -- exists GT, (S q), (TSym GT). unfold rem. rewrite Et. done.
    + exists c, (S q), (TSym c). split.
      { unfold symbols in Es. repeat (apply elem_of_cons in Es as [->|Es]; [done|]). by apply elem_of_nil in Es. }
      split; [lia|]. unfold rem. rewrite Et. split_and!; try done.
      intros ->. revert Es. by apply (bool_decide_unpack _).
  - destruct (word_end_spec (es - q) q eq_refl ltac:(lia)) as (w & H1 & H2 & H3 & H4 & H5). cbv zeta in *.
    set (e := word_end line_buf (es - q) q) in *. exists WORD, e, (TWord w).
    assert (Hwne : w <> []).
    { intros ->. rewrite E in H1. simpl in H1. rewrite <- H1 in H5. apply H5. by repeat split. }
    assert (Hno : forall x, has symbols x = true -> c <> x) by (intros x Hx ->; congruence).
    rewrite !(proj2 (Z.eqb_neq c _)) by (apply Hno; by apply has_symbols, (bool_decide_unpack _)).
    split; [done|]. split; [done|]. split; [|by repeat split].
    transitivity (lex [] (drop q str)); [rewrite E; cbn [lex]; by rewrite Hw, Es|]. rewrite H1, lex_word by done.
    apply lex_end; [done| |done]. by apply Forall_drop.
Qed.

Lemma gettoken_spec s : (s <= es)%nat ->
  exists tok w s', gettoken line_buf es s = Ret ((tok, w), s') /\ (s' <= es)%nat /\ got (rem s) tok w s'.
Proof using Hnz.
  intros Hs. unfold gettoken. destruct (skip_spec (es - s) s eq_refl Hs) as (Hq & Er & Hw). cbv zeta in *.
  set (q := skip_ws line_buf (es - s) s) in *. rewrite <- Er. clearbody q.
  assert (Hend : forall e, (e <= es)%nat -> (e <= skip_ws line_buf (es - e) e <= es)%nat /\ rem (skip_ws line_buf (es - e) e) = rem e).
  { intros e He. destruct (skip_spec (es - e) e eq_refl He) as (H1 & H2 & _). done. }
  destruct (drop q str) as [|c t] eqn:E.
  - apply at_end in E as [-> E0]; [|lia]. unfold token_at. rewrite E0. destruct (Hend es ltac:(done)) as [H1 H2].
    do 3 eexists. split; [reflexivity|]. split; [lia|]. unfold got. unfold rem at 1. rewrite drop_all. simpl.
    split_and!; [done| |lia]. rewrite H2. unfold rem. by rewrite drop_all.
  - destruct (token_at_spec q c t E Hw) as (tok & e & T & -> & He & -> & HT). destruct (Hend e He) as [H1 H2].
    do 3 eexists. split; [reflexivity|]. split; [lia|]. unfold got. rewrite H2. destruct T; by destruct_and?; split_and!.
Qed.

(** The character that peek sees of a token. *)
Definition first_char (c : Z) : Z := if c =? PLUS then GT else c.
Definition sees (toks : list Z) (ts : list tok) : bool :=
  match ts with TSym c :: _ => has toks (first_char c) | _ => false end.

Lemma peek_spec toks s : (s <= es)%nat -> (forall c, has toks c = true -> has symbols c = true) ->
  exists s', peek line_buf es toks s = Ret (sees toks (rem s), s') /\ (s' <= es)%nat /\ rem s' = rem s.
Proof using Hnz.
  intros Hs Htoks. unfold peek. destruct (skip_spec (es - s) s eq_refl Hs) as (Hq & Er & Hw). cbv zeta in *.
  set (q := skip_ws line_buf (es - s) s) in *. exists q. split; [|split; [lia|done]]. rewrite <- Er. clearbody q.
  f_equal. f_equal. unfold rem. destruct (drop q str) as [|c t] eqn:E.
  - apply at_end in E as [-> E0]; [|lia]. by rewrite E0.
  - destruct (at_cons q c t E) as (-> & Et & Hlt & Hc). rewrite (proj2 (Z.eqb_neq c 0)) by done. cbn [negb andb lex].
    rewrite Hw. cbn [flush app]. destruct (has symbols c) eqn:Es.
    + destruct (Z.eqb_spec c GT) as [->|Hgt].
      * destruct t as [|c' t']; [done|]. by destruct (c' =? GT).
      * cbn [sees]. unfold first_char. rewrite (proj2 (Z.eqb_neq c PLUS)); [done|].
        intros ->. apply has_symbols in Es. revert Es. by apply (bool_decide_unpack _).
    + assert (has toks c = false) as -> by (destruct (has toks c) eqn:Et'; [by rewrite Htoks in Es|done]).
      by destruct (lex_head [c] t) as (v & ts & ->).
Qed.

Lemma lex_length w t : (length (lex w t) <= length t + length (flush w))%nat.
Proof.
  remember (length t) as n eqn:En. revert w t En. induction n as [n IH] using lt_wf_ind. intros w t ->.
  destruct t as [|c t]; simpl; [done|].
  assert (H : forall w', (length (flush w') <= 1)%nat) by (intros []; simpl; lia).
  pose proof (IH (length t) ltac:(simpl; lia) [] t eq_refl) as H1. simpl in H1.
  destruct (has whitespace c); [rewrite length_app; lia|]. destruct (has symbols c).
  - rewrite length_app. destruct (c =? GT); [|simpl; lia]. destruct t as [|c' t]; [simpl; lia|].
    pose proof (IH (length t) ltac:(simpl; lia) [] t eq_refl) as H2. simpl in H2.
    destruct (c' =? GT); [simpl in *; lia|]. simpl in *. lia.
  - pose proof (IH (length t) ltac:(simpl; lia) (w ++ [c]) t eq_refl) as H2. specialize (H (w ++ [c])). lia.
Qed.
Lemma rem_length s : (length (rem s) <= es)%nat.
Proof. unfold rem. pose proof (lex_length [] (drop s str)) as H. rewrite length_drop in H. simpl in H. lia. Qed.

(** ** The parser reads a phrase of the grammar, or panics *)

Definition val (x : nat * nat) : list Z := take (snd x - fst x) (drop (fst x) str).
Lemma word_at_val x w : word_at x w -> val x = w.
Proof. intros (H1 & H2 & _). unfold val. rewrite H1, H2. replace (_ - _)%nat with (length w) by lia. apply take_app_length. Qed.
Definition placed (x : nat * nat) : Prop := word_at x (val x).
Lemma word_at_placed x w : word_at x w -> placed x.
Proof. intros H. unfold placed. by rewrite (word_at_val x w). Qed.

Fixpoint vcmd (c : cmd) : acmd :=
  match c with
  | EXEC argv => AExec (map val argv)
  | REDIR c q eq mode fd => ARedir (vcmd c) (val (q, eq)) mode fd
  | PIPE l r => APipe (vcmd l) (vcmd r)
  | LIST l r => AList (vcmd l) (vcmd r)
  | BACK c => ABack (vcmd c)
  end.
Fixpoint cplaced (c : cmd) : Prop :=
  match c with
  | EXEC argv => Forall placed argv
  | REDIR c q eq _ _ => cplaced c /\ placed (q, eq)
  | PIPE l r | LIST l r => cplaced l /\ cplaced r
  | BACK c => cplaced c
  end.
Definition vredir (r : redir) : aredir := let '(w, mode, fd) := r in (val w, mode, fd).
Definition rplaced (r : redir) : Prop := placed (fst (fst r)).

Lemma wrap_ok c rs : cplaced c -> Forall rplaced rs ->
  cplaced (wrap c rs) /\ vcmd (wrap c rs) = awrap (vcmd c) (map vredir rs).
Proof.
  intros Hc Hrs. revert c Hc. induction Hrs as [|[[[q e] mode] fd] rs Hr _ IH]; intros c Hc; [done|].
  unfold wrap, awrap. simpl. apply (IH (REDIR c q e mode fd)). by split.
Qed.

Lemma ends_peek toks s Q : (s <= es)%nat -> (forall c, has toks c = true -> has symbols c = true) ->
  (forall s', (s' <= es)%nat -> rem s' = rem s -> Q (sees toks (rem s)) s') -> ends (peek line_buf es toks) Q s.
Proof using Hnz.
  intros Hs Ht HQ. destruct (peek_spec toks s Hs Ht) as (s' & E & H1 & H2). unfold ends. rewrite E. by apply HQ.
Qed.
Lemma ends_gettoken s Q : (s <= es)%nat ->
  (forall tok w s', (s' <= es)%nat -> got (rem s) tok w s' -> Q (tok, w) s') -> ends (gettoken line_buf es) Q s.
Proof using Hnz.
  intros Hs HQ. destruct (gettoken_spec s Hs) as (tok & w & s' & E & H1 & H2). unfold ends. rewrite E. by apply HQ.
Qed.

(** [m] returns after it has read tokens that satisfy [P], or panics. *)
Definition reads {A} (m : M nat A) (P : list tok -> A -> Prop) (s : nat) : Prop :=
  ends m (fun a s' => (s' <= es)%nat /\ exists ts, rem s = ts ++ rem s' /\ P ts a) s.
Lemma reads_ret {A} (a : A) (P : list tok -> A -> Prop) s : (s <= es)%nat -> P [] a -> reads (ret a) P s.
Proof. intros Hs HP. unfold reads, ends. simpl. split; [done|]. by exists []. Qed.
Lemma reads_panic {A} msg (P : list tok -> A -> Prop) s : reads (panic msg) P s.
Proof. done. Qed.
Lemma reads_bind {A B} (m : M nat A) (k : A -> M nat B) P (Q : list tok -> B -> Prop) s :
  reads m P s ->
  (forall a s' ts, (s' <= es)%nat -> rem s = ts ++ rem s' -> P ts a -> reads (k a) (fun ts' => Q (ts ++ ts')) s') ->
  reads (bind m k) Q s.
Proof.
  intros Hm Hk. apply ends_bind. eapply ends_mono; [exact Hm|]. intros a s' (Hs' & ts & E & HP).
  eapply ends_mono; [by apply (Hk a s' ts)|]. intros b s'' (Hs'' & ts' & E' & HQ). split; [done|].
  exists (ts ++ ts'). by rewrite E, E', app_assoc.
Qed.
Lemma reads_mono {A} (m : M nat A) (P Q : list tok -> A -> Prop) s :
  reads m P s -> (forall ts a, P ts a -> Q ts a) -> reads m Q s.
Proof.
  intros Hm HPQ. eapply ends_mono; [exact Hm|]. intros a s' (Hs' & ts & E & HP). split; [done|]. exists ts. auto.
Qed.

Lemma has_sub toks : forallb (has symbols) toks = true -> forall c, has toks c = true -> has symbols c = true.
Proof.
  unfold has at 2. induction toks as [|x toks IH]; [done|]. cbn [strchr forallb]. intros [Hx Hs]%andb_true_iff c.
  destruct (x =? 0); [done|]. destruct (Z.eqb_spec x c) as [->|]; [done|]. intros Hc. apply IH; [done|].
  by destruct (strchr toks c) as [[]|].
Qed.
Lemma reads_peek {A} toks (k : bool -> M nat A) P s :
  (s <= es)%nat -> forallb (has symbols) toks = true ->
  (forall s', (s' <= es)%nat -> rem s' = rem s -> reads (k (sees toks (rem s))) P s') -> reads (bind (peek line_buf es toks) k) P s.
Proof using Hnz.
  intros Hs Ht Hk. apply ends_bind, ends_peek; [done|by apply has_sub|]. intros s' Hs' E. specialize (Hk s' Hs' E).
  unfold reads in Hk. by rewrite E in Hk.
Qed.
Lemma reads_gettoken {A} (k : Z * (nat * nat) -> M nat A) (P : list tok -> A -> Prop) s t ts :
  (s <= es)%nat -> rem s = t :: ts ->
  (forall tok w s', (s' <= es)%nat -> rem s' = ts -> got (rem s) tok w s' -> reads (k (tok, w)) (fun ts' => P (t :: ts')) s') ->
  reads (bind (gettoken line_buf es) k) P s.
Proof using Hnz.
  intros Hs E Hk. apply ends_bind, ends_gettoken; [done|]. intros tok w s' Hs' Hg.
  assert (E' : rem s' = ts) by (rewrite E in Hg; unfold got in Hg; destruct t; by destruct_and?).
  eapply ends_mono; [by apply Hk|]. cbv beta. intros a s'' (Hs'' & ts' & E'' & HP). split; [done|].
  exists (t :: ts'). by rewrite E, <- E', E''.
Qed.

Lemma reads_word {A} msg (k : nat * nat -> M nat A) (P : list tok -> A -> Prop) s : (s <= es)%nat ->
  (forall v ts w s', rem s = TWord v :: ts -> (s' <= es)%nat -> rem s' = ts -> word_at w v ->
     reads (k w) (fun ts' => P (TWord v :: ts')) s') ->
  reads (let! (tok, w) := gettoken line_buf es in if negb (tok =? WORD) then panic msg else k w) P s.
Proof using Hnz.
  intros Hs Hk. destruct (rem s) as [|[v|c] ts] eqn:E.
  - apply ends_bind, ends_gettoken; [done|]. intros tok w s' _ Hg. rewrite E in Hg. by destruct Hg as (-> & _).
  - eapply reads_gettoken; [done|done|]. intros tok w s' Hs' E' Hg. rewrite E in Hg. destruct Hg as (-> & _ & Hw).
    cbn [negb]. rewrite Z.eqb_refl. by apply (Hk v ts).
  - eapply reads_gettoken; [done|done|]. intros tok w s' Hs' E' Hg. rewrite E in Hg. destruct Hg as (-> & Hc & _).
    by rewrite (proj2 (Z.eqb_neq c WORD)).
Qed.

Lemma reads_word_or_end {A} msg (m0 : M nat A) (k : nat * nat -> M nat A) (P : list tok -> A -> Prop) s : (s <= es)%nat ->
  (rem s = [] -> forall s', (s' <= es)%nat -> rem s' = [] -> reads m0 P s') ->
  (forall v ts w s', rem s = TWord v :: ts -> (s' <= es)%nat -> rem s' = ts -> word_at w v ->
     reads (k w) (fun ts' => P (TWord v :: ts')) s') ->
  reads (let! (tok, w) := gettoken line_buf es in
         if tok =? 0 then m0 else if negb (tok =? WORD) then panic msg else k w) P s.
Proof using Hnz.
  intros Hs H0 Hk. destruct (rem s) as [|[v|c] ts] eqn:E.
  - apply ends_bind, ends_gettoken; [done|]. intros tok w s' Hs' Hg. rewrite E in Hg. destruct Hg as (-> & Er & ->).
    simpl. specialize (H0 eq_refl es Hs' Er). unfold reads in H0. rewrite Er in H0. by rewrite E.
  - eapply reads_gettoken; [done|done|]. intros tok w s' Hs' E' Hg. rewrite E in Hg. destruct Hg as (-> & _ & Hw).
    by apply (Hk v ts).
  - eapply reads_gettoken; [done|done|]. intros tok w s' Hs' E' Hg. rewrite E in Hg. destruct Hg as (-> & Hc & Hc' & _).
    by rewrite (proj2 (Z.eqb_neq c 0)), (proj2 (Z.eqb_neq c WORD)).
Qed.

Lemma sees_one x ts : x <> GT -> sees [x] ts = true -> exists ts', ts = TSym x :: ts'.
Proof.
  intros Hx. destruct ts as [|[w|c] ts]; [done|done|]. unfold sees, has, first_char. cbn [strchr].
  destruct (Z.eqb_spec x 0); [done|]. destruct (Z.eqb_spec c PLUS) as [->|].
  - destruct (Z.eqb_spec x GT); done.
  - destruct (Z.eqb_spec x c) as [->|]; [by eexists|done].
Qed.
Lemma sees_redir ts : sees [LT; GT] ts = true -> exists t ts' k, ts = TSym t :: ts' /\ redir_kind t = Some k.
Proof.
  destruct ts as [|[w|c] ts]; [done|done|]. cbn [sees]. intros H%has_in; [|by apply (bool_decide_unpack _)].
  unfold first_char in H. destruct (Z.eqb_spec c PLUS) as [->|].
  - by do 3 eexists.
  - apply elem_of_cons in H as [->|H%list_elem_of_singleton]; [by do 3 eexists|]. rewrite H. by do 3 eexists.
Qed.

Lemma redirs_read left s : (s <= es)%nat -> (length (rem s) <= left)%nat ->
  reads (redirs_loop line_buf es left) (fun ts rs => g_redirs ts (map vredir rs) /\ Forall rplaced rs) s.
Proof using Hnz.
  revert s. induction left as [|left IH]; intros s Hs Hl; cbn [redirs_loop];
    (apply reads_peek; [done|done|]); intros s1 Hs1 E1; destruct (sees [LT; GT] (rem s)) eqn:Es; cbn [negb];
    try (apply reads_ret; [done|]; split; constructor).
  - exfalso. apply sees_redir in Es as (t & ts' & k & E & _). rewrite E in Hl. simpl in Hl. lia.
  - apply sees_redir in Es as (t & ts' & [mode fd] & E & Ek). rewrite E in E1, Hl. simpl in Hl.
    eapply reads_gettoken; [done|done|]. intros tok w s2 Hs2 E2 Hg. rewrite E1 in Hg. destruct Hg as (-> & _).
    apply reads_word; [done|]. intros v ts w' s3 E3 Hs3 E3' Hw. subst ts'. rewrite E3 in Hl. simpl in Hl.
    eapply reads_bind; [apply IH; [done|rewrite E3'; lia]|]. intros rs s4 ts4 Hs4 E4 (H4 & H4').
    apply reads_ret; [done|]. rewrite Ek, app_nil_r. split; [|constructor; [by eapply word_at_placed|done]].
    simpl. rewrite (word_at_val w' v) by done. by constructor.
Qed.

Lemma args_read left s args rs : (s <= es)%nat -> (length (rem s) <= left)%nat -> (length args < MAXARGS)%nat ->
  Forall placed args -> Forall rplaced rs ->
  reads (args_loop line_buf es left args rs) (fun ts r => exists ws rs', r = (args ++ ws, rs ++ rs') /\
    g_words ts (map val ws) (map vredir rs') /\ Forall placed (fst r) /\ Forall rplaced (snd r) /\
    (length (fst r) < MAXARGS)%nat) s.
Proof using Hnz.
  assert (Hstop : forall s args rs, (s <= es)%nat -> (length args < MAXARGS)%nat -> Forall placed args -> Forall rplaced rs ->
    reads (ret (args, rs)) (fun ts r => exists ws rs', r = (args ++ ws, rs ++ rs') /\
      g_words ts (map val ws) (map vredir rs') /\ Forall placed (fst r) /\ Forall rplaced (snd r) /\
      (length (fst r) < MAXARGS)%nat) s).
  { intros. apply reads_ret; [done|]. exists [], []. rewrite !app_nil_r. split_and!; try done. constructor. }
  revert s args rs. induction left as [|left IH]; intros s args rs Hs Hl Ha Hpa Hpr; cbn [args_loop];
    (apply reads_peek; [done|done|]); intros s1 Hs1 E1; destruct (sees _ (rem s)); try by apply Hstop.
  - apply reads_word_or_end; [done|intros; by apply Hstop|]. intros v ts w s2 E2 _ _ _. exfalso.
    rewrite E1 in E2. rewrite E2 in Hl. simpl in Hl. lia.
  - apply reads_word_or_end; [done|intros; by apply Hstop|]. intros v ts w s2 E2 Hs2 E2' Hw.
    rewrite E1 in E2. rewrite E2 in Hl. simpl in Hl. destruct (Nat.leb_spec MAXARGS (length (args ++ [w]))); [apply reads_panic|].
    eapply reads_bind; [apply redirs_read; [done|apply rem_length]|]. intros rs1 s3 ts3 Hs3 E3 (H3 & H3').
    eapply reads_mono; [apply IH; [done| |done| |by apply Forall_app]|].
    + rewrite E2' in E3. rewrite E3, length_app in Hl. lia.
    + apply Forall_app. split; [done|]. constructor; [by eapply word_at_placed|done].
    + cbv beta. intros ts4 r (ws & rs' & -> & Hg & Hp). exists (w :: ws), (rs1 ++ rs').
      rewrite <- !app_assoc. split; [done|]. split; [|by rewrite <- !app_assoc in Hp].
      simpl. rewrite map_app, (word_at_val w v) by done. by constructor.
Qed.

Lemma backs_read left s c : (s <= es)%nat -> (length (rem s) <= left)%nat ->
  reads (backs_loop line_buf es left c) (fun ts c' => exists k, ts = repeat (TSym AMP) k /\ c' = Nat.iter k BACK c) s.
Proof using Hnz.
  revert s c. induction left as [|left IH]; intros s c Hs Hl; cbn [backs_loop];
    (apply reads_peek; [done|done|]); intros s1 Hs1 E1; destruct (sees [AMP] (rem s)) eqn:Es; cbn [negb];
    try (apply reads_ret; [done|]; by exists O).
  - exfalso. apply sees_one in Es as (ts' & E); [|done]. rewrite E in Hl. simpl in Hl. lia.
  - apply sees_one in Es as (ts' & E); [|done]. rewrite E in E1, Hl. simpl in Hl.
    eapply reads_gettoken; [done|done|]. intros tok w s2 Hs2 E2 _.
    eapply reads_mono; [apply IH; [done|rewrite E2; lia]|]. cbv beta. intros ts c' (k & -> & ->). exists (S k).
    by rewrite Nat.iter_succ_r.
Qed.

Definition is_line (ts : list tok) (c : cmd) : Prop := g_line ts (vcmd c) /\ cplaced c.
Definition is_pipe (ts : list tok) (c : cmd) : Prop := g_pipe ts (vcmd c) /\ cplaced c.
Definition is_exec (ts : list tok) (c : cmd) : Prop := g_exec ts (vcmd c) /\ cplaced c.

Lemma vcmd_backs k c : vcmd (Nat.iter k BACK c) = Nat.iter k ABack (vcmd c) /\ (cplaced c -> cplaced (Nat.iter k BACK c)).
Proof. induction k as [|k IH]; [done|]. simpl. destruct IH as [-> IH]. done. Qed.

(** All four functions with fuel [n], which is enough for the tokens left. *)
Definition reads_all (n : nat) : Prop := forall s, (s <= es)%nat -> let k := (4 * length (rem s))%nat in
  ((k + 3 <= n)%nat -> reads (parseline line_buf es n) is_line s) /\
  ((k + 2 <= n)%nat -> reads (parsepipe line_buf es n) is_pipe s) /\
  ((k + 1 <= n)%nat -> reads (parseexec line_buf es n) is_exec s) /\
  ((k <= n)%nat -> sees [LPAR] (rem s) = true -> reads (parseblock line_buf es n) is_exec s).
Lemma rem_mono s1 s2 ts : rem s1 = ts ++ rem s2 -> (length (rem s2) <= length (rem s1))%nat.
Proof. intros ->. rewrite length_app. lia. Qed.

Lemma read_line n s : reads_all n -> (s <= es)%nat -> (4 * length (rem s) + 3 <= S n)%nat -> 
  reads (parseline line_buf es (S n)) is_line s.
Proof using Hnz.
  intros IH Hs Hk. cbn [parseline].
  eapply reads_bind; [apply (IH s Hs); lia|]. intros c s1 ts1 Hs1 E1 [Hg1 Hp1].
  eapply reads_bind; [apply backs_read; [done|apply rem_length]|]. intros c' s2 ts2 Hs2 E2 (j & -> & ->).
  apply reads_peek; [done|done|]. intros s3 Hs3 E3. destruct (vcmd_backs j c) as [Hb Hbp].
  destruct (sees [SEMI] (rem s2)) eqn:Es.
  + apply sees_one in Es as (ts4 & E4); [|done]. rewrite E4 in E3.
    eapply reads_gettoken; [done|done|]. intros tok w s4 Hs4 E4' _.
    pose proof (rem_mono _ _ _ E1). pose proof (rem_mono _ _ _ E2). rewrite E4 in *. simpl in *.
    eapply reads_bind; [apply (IH s4 Hs4); rewrite E4'; lia|]. intros c2 s5 ts5 Hs5 E5 [Hg5 Hp5].
    apply reads_ret; [done|]. rewrite app_nil_r. split; [|split; auto]. simpl. rewrite Hb. by constructor.
  + apply reads_ret; [done|]. rewrite app_nil_r. split; [|auto]. rewrite Hb. by constructor.
Qed.
Lemma read_pipe n s : reads_all n -> (s <= es)%nat -> (4 * length (rem s) + 2 <= S n)%nat -> 
  reads (parsepipe line_buf es (S n)) is_pipe s.
Proof using Hnz.
  intros IH Hs Hk. cbn [parsepipe].
  eapply reads_bind; [apply (IH s Hs); lia|]. intros c s1 ts1 Hs1 E1 [Hg1 Hp1].
  apply reads_peek; [done|done|]. intros s2 Hs2 E2. destruct (sees [BAR] (rem s1)) eqn:Es.
  + apply sees_one in Es as (ts4 & E4); [|done]. rewrite E4 in E2.
    eapply reads_gettoken; [done|done|]. intros tok w s4 Hs4 E4' _.
    pose proof (rem_mono _ _ _ E1). rewrite E4 in *. simpl in *.
    eapply reads_bind; [apply (IH s4 Hs4); rewrite E4'; lia|]. intros c2 s5 ts5 Hs5 E5 [Hg5 Hp5].
    apply reads_ret; [done|]. rewrite app_nil_r. split; [|by split]. by constructor.
  + apply reads_ret; [done|]. rewrite app_nil_r. split; [by constructor|done].
Qed.
Lemma read_exec n s : reads_all n -> (s <= es)%nat -> (4 * length (rem s) + 1 <= S n)%nat -> 
  reads (parseexec line_buf es (S n)) is_exec s.
Proof using Hnz.
  intros IH Hs Hk. cbn [parseexec].
  apply reads_peek; [done|done|]. intros s1 Hs1 E1. destruct (sees [LPAR] (rem s)) eqn:Es.
  { apply (IH s1 Hs1); rewrite E1; [lia|done]. }
  eapply reads_bind; [apply redirs_read; [done|apply rem_length]|]. intros rs s2 ts2 Hs2 E2 (H2 & H2').
  eapply reads_bind; [apply args_read; [done|apply rem_length|unfold MAXARGS; simpl; lia|done|done]|].
  intros [args rs'] s3 ts3 Hs3 E3 (ws & rs3 & [= -> ->] & Hg & Hpa & Hpr & Hlen). simpl in *.
  apply reads_ret; [done|]. rewrite app_nil_r. destruct (wrap_ok (EXEC ws) (rs ++ rs3)) as [Hw1 Hw2]; [done|done|].
  split; [|done]. rewrite Hw2, map_app. simpl. constructor; [done|done|by rewrite length_map].
Qed.
Lemma read_parens n s : reads_all n -> (s <= es)%nat -> (4 * length (rem s) <= S n)%nat -> sees [LPAR] (rem s) = true -> 
  reads (parseblock line_buf es (S n)) is_exec s.
Proof using Hnz.
  intros IH Hs Hk Hp. cbn [parseblock].
  apply reads_peek; [done|done|]. intros s1 Hs1 E1. rewrite Hp. cbn [negb].
  apply sees_one in Hp as (ts4 & E4); [|done]. rewrite E4 in *.
  eapply reads_gettoken; [done|done|]. intros tok w s2 Hs2 E2 _. simpl in Hk.
  eapply reads_bind; [apply (IH s2 Hs2); rewrite E2; lia|]. intros c s3 ts3 Hs3 E3 [Hg3 Hp3].
  apply reads_peek; [done|done|]. intros s5 Hs5 E5. destruct (sees [RPAR] (rem s3)) eqn:Es; cbn [negb]; [|apply reads_panic].
  apply sees_one in Es as (ts6 & E6); [|done]. rewrite E6 in E5.
  eapply reads_gettoken; [done|done|]. intros tok' w' s6 Hs6 E6' _.
  eapply reads_bind; [apply redirs_read; [done|apply rem_length]|]. intros rs s7 ts7 Hs7 E7 (H7 & H7').
  apply reads_ret; [done|]. rewrite app_nil_r. destruct (wrap_ok c rs) as [Hw1 Hw2]; [done|done|].
  split; [|done]. rewrite Hw2. by constructor.
Qed.
Lemma parse_read n : reads_all n.
Proof using Hnz.
  induction n as [|n IH]; intros s Hs k.
  - split_and!; try lia. intros Hk Hp. apply sees_one in Hp as (ts & E); [|done]. unfold k in Hk. rewrite E in Hk. simpl in Hk. lia.
  - split_and!; intros Hk; [by apply read_line|by apply read_pipe|by apply read_exec|by apply read_parens].
Qed.

(** ** The parser finds every phrase of the grammar *)

(** [m] returns, with the tokens [r] still to come. *)
Definition finds {A} (m : M nat A) (Q : A -> Prop) (r : list tok) (s : nat) : Prop :=
  exists a s', m s = Ret (a, s') /\ (s' <= es)%nat /\ rem s' = r /\ Q a.
Lemma finds_ret {A} (a : A) (Q : A -> Prop) r s : (s <= es)%nat -> rem s = r -> Q a -> finds (ret a) Q r s.
Proof. intros. by exists a, s. Qed.
Lemma finds_bind {A B} (m : M nat A) (k : A -> M nat B) P (Q : B -> Prop) mid r s :
  finds m P mid s -> (forall a s', P a -> (s' <= es)%nat -> rem s' = mid -> finds (k a) Q r s') -> finds (bind m k) Q r s.
Proof.
  intros (a & s' & E & H1 & H2 & H3) Hk. destruct (Hk a s') as (b & s'' & E' & H'); [done..|].
  exists b, s''. unfold bind. by rewrite E.
Qed.
Lemma finds_peek {A} toks (k : bool -> M nat A) Q r s : (s <= es)%nat -> forallb (has symbols) toks = true ->
  (forall s', (s' <= es)%nat -> rem s' = rem s -> finds (k (sees toks (rem s))) Q r s') -> finds (bind (peek line_buf es toks) k) Q r s.
Proof using Hnz.
  intros Hs Ht Hk. destruct (peek_spec toks s Hs (has_sub toks Ht)) as (s1 & E & H1 & H2).
  destruct (Hk s1 H1 H2) as (b & s'' & E' & H'). exists b, s''. unfold bind. by rewrite E.
Qed.
Lemma finds_gettoken {A} (k : Z * (nat * nat) -> M nat A) Q r s t ts : (s <= es)%nat -> rem s = t :: ts ->
  (forall tok w s', (s' <= es)%nat -> rem s' = ts -> got (t :: ts) tok w s' -> finds (k (tok, w)) Q r s') ->
  finds (bind (gettoken line_buf es) k) Q r s.
Proof using Hnz.
  intros Hs Er Hk. destruct (gettoken_spec s Hs) as (tok & w & s1 & E & H1 & H2). rewrite Er in H2.
  destruct (Hk tok w s1 H1) as (b & s'' & E' & H'); [unfold got in H2; destruct t; by destruct_and?|done|].
  exists b, s''. unfold bind. by rewrite E.
Qed.

(** The first of [r], if any, is a symbol of [l]. *)
Definition stops (l : list Z) (r : list tok) : Prop :=
  match r with [] => True | TSym c :: _ => c ∈ l | TWord _ :: _ => False end.
Lemma stops_sees l toks r : stops l r -> forallb (fun c => negb (has toks (first_char c))) l = true -> sees toks r = false.
Proof.
  destruct r as [|[w|c] r]; [done|done|]. simpl. intros Hc Hl. rewrite forallb_forall in Hl.
  apply list_elem_of_In in Hc. specialize (Hl c Hc). by apply negb_true_iff.
Qed.
Lemma stops_sym c l r : existsb (Z.eqb c) l = true -> stops l (TSym c :: r).
Proof. simpl. intros (x & Hx & ->%Z.eqb_eq)%existsb_exists. by apply list_elem_of_In. Qed.
Lemma stops_sub l l' r : stops l r -> forallb (fun c => existsb (Z.eqb c) l') l = true -> stops l' r.
Proof.
  destruct r as [|[w|c] r]; [done|done|]. simpl. intros Hc Hl. rewrite forallb_forall in Hl.
  apply list_elem_of_In in Hc. specialize (Hl c Hc). apply existsb_exists in Hl as (x & Hx & ->%Z.eqb_eq). by apply list_elem_of_In.
Qed.

Lemma redirs_find left ts ars s r : g_redirs ts ars -> (s <= es)%nat -> rem s = ts ++ r -> sees [LT; GT] r = false ->
  (length ts <= left)%nat -> finds (redirs_loop line_buf es left) (fun rs => map vredir rs = ars) r s.
Proof using Hnz.
  intros Hg. revert left s. induction Hg as [|t w ts mode fd rs Hk Hg IH]; intros left s Hs E Hr Hl.
  - simpl in E. destruct left; cbn [redirs_loop]; (apply finds_peek; [done|done|]); intros s1 Hs1 E1; rewrite E, Hr;
      cbn [negb]; (apply finds_ret; [done|congruence|done]).
  - destruct left as [|left]; [simpl in Hl; lia|]. cbn [redirs_loop]. apply finds_peek; [done|done|]. intros s1 Hs1 E1.
    rewrite E in E1. assert (sees [LT; GT] (rem s) = true) as ->.
    { rewrite E. simpl. unfold redir_kind in Hk. destruct (Z.eqb_spec t LT) as [->|]; [done|].
      destruct (Z.eqb_spec t GT) as [->|]; [done|]. by destruct (Z.eqb_spec t PLUS) as [->|]. }
    cbn [negb]. simpl in E1. eapply finds_gettoken; [done|done|]. intros tok w1 s2 Hs2 E2 (-> & _).
    eapply finds_gettoken; [done|done|]. intros tok w2 s3 Hs3 E3 (-> & _ & Hw). rewrite Z.eqb_refl. cbn [negb].
    eapply finds_bind; [apply (IH left); [done|done|done|simpl in Hl; lia]|]. cbv beta. intros rs' s4 Hrs Hs4 E4.
    apply finds_ret; [done|done|]. rewrite Hk. simpl. by rewrite (word_at_val w2 w), Hrs.
Qed.

(** What can follow a simple command, a pipeline and a line. *)
Definition after_exec : list Z := [BAR; RPAR; AMP; SEMI].
Definition after_pipe : list Z := [RPAR; AMP; SEMI].
Definition after_line : list Z := [RPAR].

Lemma args_find left ts ws ars s r args rs : g_words ts ws ars -> (s <= es)%nat -> rem s = ts ++ r -> stops after_exec r ->
  (length args + length ws < MAXARGS)%nat -> (length ts <= left)%nat ->
  finds (args_loop line_buf es left args rs) (fun x => map val (fst x) = map val args ++ ws /\
    map vredir (snd x) = map vredir rs ++ ars) r s.
Proof using Hnz.
  intros Hg. revert left s args rs. induction Hg as [|w ts1 rs1 ts2 ws rs2 Hg1 Hg IH]; intros left s args rs Hs E Hr Hm Hl.
  - simpl in E. assert (Hnow : forall s', (s' <= es)%nat -> rem s' = r -> finds (ret (args, rs)) (fun x =>
      map val (fst x) = map val args ++ [] /\ map vredir (snd x) = map vredir rs ++ []) r s').
    { intros. rewrite !app_nil_r. by apply finds_ret. }
    destruct left; cbn [args_loop]; (apply finds_peek; [done|done|]); intros s1 Hs1 E1;
      (destruct (sees _ (rem s)) eqn:Es; [apply Hnow; [done|congruence]|]); rewrite E in *;
      (destruct r as [|[v|c] r']; [|done|]; [|exfalso; simpl in Hr, Es;
        assert (Hc : has [BAR; RPAR; AMP; SEMI] (first_char c) = true); [|congruence];
        unfold after_exec in Hr; repeat (apply elem_of_cons in Hr as [->|Hr]; [done|]); by apply elem_of_nil in Hr]);
      destruct (gettoken_spec s1 Hs1) as (tok & w & s2 & E2 & H2 & Hg2); rewrite E1 in Hg2; destruct Hg2 as (-> & Hr2 & _);
      destruct (Hnow s2 H2 Hr2) as (b & s'' & E' & H'); exists b, s''; unfold bind; by rewrite E2.
  - destruct left as [|left]; [simpl in Hl; lia|]. simpl in Hl, Hm. rewrite length_app in Hl. cbn [args_loop].
    apply finds_peek; [done|done|]. intros s1 Hs1 E1. rewrite E in *. cbn [sees]. simpl in E1.
    eapply finds_gettoken; [done|done|]. intros tok x s2 Hs2 E2 (-> & _ & Hw).
    change (WORD =? 0) with false. rewrite Z.eqb_refl. cbn [negb].
    rewrite (proj2 (Nat.leb_gt MAXARGS (length (args ++ [x])))) by (rewrite length_app; simpl; lia).
    assert (Hnr : sees [LT; GT] (ts2 ++ r) = false).
    { destruct Hg; [|done]. by eapply stops_sees. }
    eapply finds_bind; [apply (redirs_find es ts1 rs1); [done|done|by rewrite E2, app_assoc|exact Hnr|]|].
    { pose proof (rem_length s2) as H2. rewrite E2, !length_app in H2. lia. }
    cbv beta. intros rs' s3 Hrs Hs3 E3. destruct (IH left s3 (args ++ [x]) (rs ++ rs')) as (b & s' & E' & H1 & H2 & H3 & H4);
      [done|done|done|rewrite length_app; simpl; lia|lia|].
    exists b, s'. split; [exact E'|]. split; [done|]. split; [done|]. split.
    + rewrite H3, map_app, <- app_assoc. simpl. by rewrite (word_at_val x w).
    + by rewrite H4, map_app, Hrs, <- app_assoc.
Qed.

Lemma backs_find left k s r c : (s <= es)%nat -> rem s = repeat (TSym AMP) k ++ r -> sees [AMP] r = false -> (k <= left)%nat ->
  finds (backs_loop line_buf es left c) (fun c' => c' = Nat.iter k BACK c) r s.
Proof using Hnz.
  revert left s c. induction k as [|k IH]; intros left s c Hs E Hr Hl.
  - destruct left; cbn [backs_loop]; (apply finds_peek; [done|done|]); intros s1 Hs1 E1; rewrite E in *; simpl in *; rewrite Hr;
      by apply finds_ret.
  - destruct left as [|left]; [lia|]. cbn [backs_loop]. apply finds_peek; [done|done|]. intros s1 Hs1 E1. rewrite E in *.
    cbn [repeat app sees] in *. change (has [AMP] (first_char AMP)) with true. cbn [negb].
    eapply finds_gettoken; [done|done|]. intros tok w s2 Hs2 E2 _.
    destruct (IH left s2 (BACK c)) as (b & s' & E' & H1 & H2 & H3); [done|done|done|lia|].
    exists b, s'. split; [exact E'|]. split; [done|]. split; [done|]. by rewrite Nat.iter_succ_r.
Qed.

Lemma vcmd_wrap c rs : vcmd (wrap c rs) = awrap (vcmd c) (map vredir rs).
Proof.
  revert c. induction rs as [|[[[q e] mode] fd] rs IH]; intros c; [done|].
  unfold wrap, awrap. simpl. apply (IH (REDIR c q e mode fd)).
Qed.
Lemma redirs_no_paren ts ars r : g_redirs ts ars -> sees [LPAR] r = false -> sees [LPAR] (ts ++ r) = false.
Proof.
  intros Hg Hr. destruct Hg as [|t w ts mode fd rs Hk _]; [done|]. simpl. unfold redir_kind in Hk.
  destruct (Z.eqb_spec t LT) as [->|]; [done|]. destruct (Z.eqb_spec t GT) as [->|]; [done|].
  by destruct (Z.eqb_spec t PLUS) as [->|].
Qed.

Definition line_found (ts : list tok) (a : acmd) : Prop := forall n s r,
  (s <= es)%nat -> rem s = ts ++ r -> stops after_line r -> (4 * length ts + 3 <= n)%nat ->
  finds (parseline line_buf es n) (fun c => vcmd c = a) r s.
Definition pipe_found (ts : list tok) (a : acmd) : Prop := forall n s r,
  (s <= es)%nat -> rem s = ts ++ r -> stops after_pipe r -> (4 * length ts + 2 <= n)%nat ->
  finds (parsepipe line_buf es n) (fun c => vcmd c = a) r s.
Definition exec_found (ts : list tok) (a : acmd) : Prop := forall n s r,
  (s <= es)%nat -> rem s = ts ++ r -> stops after_exec r -> (4 * length ts + 1 <= n)%nat ->
  finds (parseexec line_buf es n) (fun c => vcmd c = a) r s.

Lemma rem_prefix s ts r : rem s = ts ++ r -> (length ts <= es)%nat.
Proof. intros E. pose proof (rem_length s) as H. rewrite E, length_app in H. lia. Qed.
Ltac fuel n Hn := destruct n as [|n]; [simpl in Hn; lia|];
  repeat (rewrite ?length_app, ?repeat_length in Hn; simpl in Hn).

Lemma find_line_one ts c k : pipe_found ts c ->
  line_found (ts ++ repeat (TSym AMP) k) (Nat.iter k ABack c).
Proof using Hnz.
  intros IH n s r Hs E Hr Hn. fuel n Hn. cbn [parseline].
  rewrite <- app_assoc in E.
  eapply finds_bind; [apply (IH n s (repeat (TSym AMP) k ++ r)); [done|done| |lia]|].
  { destruct k; [by eapply stops_sub|by apply stops_sym]. }
  cbv beta. intros c1 s1 Hc1 Hs1 E1. eapply finds_bind; [apply (backs_find es k s1 r c1); [done|done| |]|].
  { by eapply stops_sees. }
  { apply rem_prefix in E1. by rewrite repeat_length in E1. }
  cbv beta. intros c2 s2 -> Hs2 E2. apply finds_peek; [done|done|]. intros s3 Hs3 E3. rewrite E2.
  rewrite (stops_sees after_line) by done. apply finds_ret; [done|congruence|].
  destruct (vcmd_backs k c1) as [-> _]. by rewrite Hc1.
Qed.
Lemma find_line_list ts c k ts' c' : pipe_found ts c -> line_found ts' c' ->
  line_found (ts ++ repeat (TSym AMP) k ++ TSym SEMI :: ts') (AList (Nat.iter k ABack c) c').
Proof using Hnz.
  intros IH1 IH2 n s r Hs E Hr Hn. fuel n Hn. cbn [parseline].
  rewrite <- !app_assoc in E. simpl in E.
  eapply finds_bind; [apply (IH1 n s (repeat (TSym AMP) k ++ TSym SEMI :: ts' ++ r)); [done|done| |lia]|].
  { destruct k; by apply stops_sym. }
  cbv beta. intros c1 s1 Hc1 Hs1 E1. eapply finds_bind; [apply (backs_find es k s1 (TSym SEMI :: ts' ++ r) c1); [done|done|done|]|].
  { apply rem_prefix in E1. by rewrite repeat_length in E1. }
  cbv beta. intros c2 s2 -> Hs2 E2. apply finds_peek; [done|done|]. intros s3 Hs3 E3. rewrite E2 in *.
  change (sees [SEMI] (TSym SEMI :: ts' ++ r)) with true. cbv iota.
  eapply finds_gettoken; [done|done|]. intros tok w s4 Hs4 E4 _.
  eapply finds_bind; [apply (IH2 n s4 r); [done|done|done|lia]|]. cbv beta. intros c3 s5 Hc3 Hs5 E5.
  apply finds_ret; [done|done|]. simpl. destruct (vcmd_backs k c1) as [-> _]. by rewrite Hc1, Hc3.
Qed.
Lemma find_pipe_one ts c : exec_found ts c -> pipe_found ts c.
Proof using Hnz.
  intros IH n s r Hs E Hr Hn. fuel n Hn. cbn [parsepipe].
  eapply finds_bind; [apply (IH n s r); [done|done|by eapply stops_sub|lia]|]. cbv beta. intros c1 s1 Hc1 Hs1 E1.
  apply finds_peek; [done|done|]. intros s2 Hs2 E2. rewrite E1, (stops_sees after_pipe) by done.
  apply finds_ret; [done|congruence|done].
Qed.
Lemma find_pipe_pipe ts c ts' c' : exec_found ts c -> pipe_found ts' c' ->
  pipe_found (ts ++ TSym BAR :: ts') (APipe c c').
Proof using Hnz.
  intros IH1 IH2 n s r Hs E Hr Hn. fuel n Hn. cbn [parsepipe].
  rewrite <- app_assoc in E. simpl in E.
  eapply finds_bind; [apply (IH1 n s (TSym BAR :: ts' ++ r)); [done|done|by apply stops_sym|lia]|].
  cbv beta. intros c1 s1 Hc1 Hs1 E1. apply finds_peek; [done|done|]. intros s2 Hs2 E2. rewrite E1 in *.
  change (sees [BAR] (TSym BAR :: ts' ++ r)) with true. cbv iota.
  eapply finds_gettoken; [done|done|]. intros tok w s4 Hs4 E4 _.
  eapply finds_bind; [apply (IH2 n s4 r); [done|done|done|lia]|]. cbv beta. intros c3 s5 Hc3 Hs5 E5.
  apply finds_ret; [done|done|]. simpl. by rewrite Hc1, Hc3.
Qed.
Lemma find_block ts c ts' rs : line_found ts c -> g_redirs ts' rs ->
  exec_found (TSym LPAR :: ts ++ TSym RPAR :: ts') (awrap c rs).
Proof using Hnz.
  intros IH Hg n s r Hs E Hr Hn. fuel n Hn. cbn [parseexec].
  apply finds_peek; [done|done|]. intros s1 Hs1 E1. rewrite E in *. simpl in E1.
  change (sees [LPAR] ((TSym LPAR :: ts ++ TSym RPAR :: ts') ++ r)) with true. cbv iota.
  destruct n as [|n]; [lia|]. cbn [parseblock]. apply finds_peek; [done|done|]. intros s2 Hs2 E2. rewrite E1 in *.
  change (sees [LPAR] (TSym LPAR :: (ts ++ TSym RPAR :: ts') ++ r)) with true. cbn [negb].
  eapply finds_gettoken; [done|done|]. intros tok w s3 Hs3 E3 _. rewrite <- app_assoc in E3. simpl in E3.
  eapply finds_bind; [apply (IH n s3 (TSym RPAR :: ts' ++ r)); [done|done|by apply stops_sym|lia]|].
  cbv beta. intros c1 s4 Hc1 Hs4 E4. apply finds_peek; [done|done|]. intros s5 Hs5 E5. rewrite E4 in *.
  change (sees [RPAR] (TSym RPAR :: ts' ++ r)) with true. cbn [negb].
  eapply finds_gettoken; [done|done|]. intros tok' w' s6 Hs6 E6 _.
  eapply finds_bind; [apply (redirs_find es ts' rs s6 r); [done|done|done|by eapply stops_sees|by eapply rem_prefix]|].
  cbv beta. intros rs' s7 Hrs Hs7 E7. apply finds_ret; [done|done|]. by rewrite vcmd_wrap, Hc1, Hrs.
Qed.
Lemma find_simple ts0 rs0 ts ws rs : g_redirs ts0 rs0 -> g_words ts ws rs -> (length ws < MAXARGS)%nat ->
  exec_found (ts0 ++ ts) (awrap (AExec ws) (rs0 ++ rs)).
Proof using Hnz.
  intros Hg0 Hg Hws n s r Hs E Hr Hn. fuel n Hn. cbn [parseexec].
  rewrite <- app_assoc in E. apply finds_peek; [done|done|]. intros s1 Hs1 E1. rewrite E in *.
  assert (Hw : forall l, forallb (fun c => negb (has l (first_char c))) after_exec = true -> sees l (ts ++ r) = false).
  { intros l Hl. destruct Hg; [by eapply stops_sees|done]. }
  rewrite (redirs_no_paren ts0 rs0) by (done || by apply Hw).
  eapply finds_bind; [apply (redirs_find es ts0 rs0 s1 (ts ++ r)); [done|done|done|by apply Hw|by eapply rem_prefix]|].
  cbv beta. intros rs1 s2 Hrs1 Hs2 E2.
  eapply finds_bind; [apply (args_find es ts ws rs s2 r [] rs1); [done|done|done|done|done|by eapply rem_prefix]|].
  cbv beta. intros [args rs2] s3 [Ha Hr2] Hs3 E3. simpl in Ha, Hr2. apply finds_ret; [done|done|].
  by rewrite vcmd_wrap, Hr2, Hrs1; simpl; rewrite Ha.
Qed.

Lemma parse_find :
  (forall ts a, g_line ts a -> line_found ts a) /\ (forall ts a, g_pipe ts a -> pipe_found ts a) /\
  (forall ts a, g_exec ts a -> exec_found ts a).
Proof using Hnz.
  apply g_min; intros.
  - by apply find_line_one.
  - by apply find_line_list.
  - by apply find_pipe_one.
  - by apply find_pipe_pipe.
  - by apply find_block.
  - by apply find_simple.
Qed.

(** ** nulterminate *)

(** The indices at which nulterminate stores. *)
Fixpoint ends_of (c : cmd) : list nat :=
  match c with
  | EXEC argv => map snd argv
  | REDIR c _ e _ _ => ends_of c ++ [e]
  | PIPE l r | LIST l r => ends_of l ++ ends_of r
  | BACK c => ends_of c
  end.
Definition zeros (l : list nat) (b : list Z) : list Z := fold_left (fun b e => <[e := 0]> b) l b.

Lemma nulterminate_zeros c b : nulterminate c b = zeros (ends_of c) b.
Proof.
  revert b. induction c as [argv|c IH q e mode fd|l IHl r IHr|l IHl r IHr|c IH]; intros b; cbn [nulterminate ends_of]; unfold zeros in *;
    rewrite ?fold_left_app.
  - revert b. induction argv as [|x argv IH]; intros b; [done|]. simpl. apply IH.
  - by rewrite IH.
  - by rewrite IHl, IHr.
  - by rewrite IHl, IHr.
  - by rewrite IH.
Qed.
Lemma zeros_lookup l b i : (forall e, e ∈ l -> (e < length b)%nat) -> zeros l b !! i = if decide (i ∈ l) then Some 0 else b !! i.
Proof.
  revert b. induction l as [|e l IH]; intros b Hb; [done|]. unfold zeros in *. cbn [fold_left]. rewrite IH.
  2: { intros y Hy. rewrite length_insert. apply Hb. by right. }
  destruct (decide (i = e)) as [->|Hne].
  - rewrite list_lookup_insert_eq by (apply Hb; by left). rewrite (decide_True (P := e ∈ e :: l)) by by left. by case_decide.
  - rewrite list_lookup_insert_ne by done.
    rewrite (decide_ext (i ∈ e :: l) (i ∈ l)); [done|]. rewrite elem_of_cons. tauto.
Qed.

Lemma placed_bound x : placed x -> (fst x < es)%nat /\ (snd x <= es)%nat.
Proof.
  intros (H1 & H2 & H3 & _). apply (f_equal length) in H1. rewrite length_app, !length_drop in H1.
  destruct (val x); [done|]. simpl in *. lia.
Qed.
Lemma placed_end x c : placed x -> line_buf !! snd x = Some c -> ~ wordchar c.
Proof using Hnz.
  intros Hx Hc. pose proof (placed_bound x Hx) as [_ Hb]. destruct Hx as (_ & _ & _ & _ & H).
  destruct (drop (snd x) str) as [|c' t] eqn:E.
  - apply at_end in E as [E _]; [|done]. rewrite E, lookup_app_r, Nat.sub_diag in Hc by lia. injection Hc as <-. by intros (_ & _ & ?).
  - destruct (at_cons _ _ _ E) as (Ea & _ & Hlt & _). rewrite lookup_app_l in Hc by done.
    rewrite <- (Nat.add_0_r (snd x)), <- lookup_drop, E in Hc. by injection Hc as <-.
Qed.
Lemma placed_word x i : placed x -> (i < length (val x))%nat -> exists c, val x !! i = Some c /\ line_buf !! (fst x + i)%nat = Some c /\ wordchar c.
Proof.
  intros (H1 & H2 & H3 & H4 & _) Hi. destruct (lookup_lt_is_Some_2 (val x) i Hi) as [c Hc]. exists c. split; [done|]. split.
  - assert (Hl : (fst x + i < es)%nat).
    { apply (f_equal length) in H1. rewrite length_app, !length_drop in H1. lia. }
    rewrite lookup_app_l by done. rewrite <- lookup_drop, H1, lookup_app_l by done. done.
  - rewrite Forall_lookup in H4. by eapply H4.
Qed.

Lemma line_len_app w t : Forall (fun c => c <> 0) w -> line_len (w ++ 0 :: t) = length w.
Proof. induction 1 as [|c w Hc _ IH]; [done|]. simpl. by rewrite (proj2 (Z.eqb_neq c 0)), IH. Qed.
(** The words survive the stores at the ends of all words. *)
Lemma cstring_zeros x l : placed x -> snd x ∈ l -> (forall e, e ∈ l -> exists y, placed y /\ snd y = e) ->
  cstring (zeros l line_buf) (fst x) = val x.
Proof using Hnz.
  intros Hx Hin Hl. assert (Hlen : forall e, e ∈ l -> (e < length line_buf)%nat).
  { intros e (y & Hy & <-)%Hl. pose proof (placed_bound y Hy). rewrite length_app. simpl. lia. }
  pose proof (placed_bound x Hx) as [Hb1 Hb2]. pose proof Hx as (_ & Hsnd & _).
  assert (E : drop (fst x) (zeros l line_buf) = val x ++ 0 :: drop (S (snd x)) (zeros l line_buf)).
  { apply list_eq. intros i. rewrite lookup_drop, zeros_lookup by done.
    destruct (decide (i < length (val x))%nat) as [Hi|Hi].
    - destruct (placed_word x i Hx Hi) as (c & E1 & E2 & Hc). rewrite (lookup_app_l (val x)), E1 by done.
      rewrite decide_False; [done|]. intros (y & Hy & Ey)%Hl. rewrite <- Ey in E2. by eapply placed_end.
    - rewrite (lookup_app_r (val x)) by lia. destruct (decide (i = length (val x))) as [->|Hne].
      + rewrite Nat.sub_diag, <- Hsnd, decide_True by done. done.
      + assert (Ei : (S (snd x) + (i - length (val x) - 1) = fst x + i)%nat) by lia.
        replace (i - length (val x))%nat with (S (i - length (val x) - 1)) by lia.
        rewrite <- lookup_tail. cbn [tail]. rewrite lookup_drop, Ei, zeros_lookup by done. done. }
  unfold cstring. rewrite E. destruct Hx as (_ & _ & _ & Hw & _).
  rewrite line_len_app; [by apply take_app_length|]. eapply Forall_impl; [exact Hw|]. by intros c (_ & _ & ?).
Qed.

Lemma cplaced_ends c e : cplaced c -> e ∈ ends_of c -> exists y, placed y /\ snd y = e.
Proof.
  induction c as [argv|c IH q e' mode fd|l IHl r IHr|l IHl r IHr|c IH]; cbn [cplaced ends_of]; rewrite ?elem_of_app.
  - intros Hp (x & -> & Hx)%list_elem_of_fmap. rewrite Forall_forall in Hp. exists x. auto.
  - intros [Hc Hx] [He|He%list_elem_of_singleton]; [auto|]. exists (q, e'). by subst.
  - intros [? ?] [?|?]; auto.
  - intros [? ?] [?|?]; auto.
  - auto.
Qed.
Lemma read_zeros c l : cplaced c -> (forall e, e ∈ ends_of c -> e ∈ l) -> (forall e, e ∈ l -> exists y, placed y /\ snd y = e) ->
  read_cmd (zeros l line_buf) c = vcmd c.
Proof using Hnz.
  intros Hc Hsub Hl. revert Hc Hsub. induction c as [argv|c IH q e mode fd|cl IHl cr IHr|cl IHl cr IHr|c IH];
    cbn [cplaced ends_of read_cmd vcmd]; intros Hc Hsub.
  - f_equal. apply map_ext_in. intros x Hx%list_elem_of_In. rewrite Forall_forall in Hc.
    apply cstring_zeros; [by apply Hc| |done]. apply Hsub. by apply list_elem_of_fmap_2.
  - destruct Hc as [Hc Hx]. rewrite IH by (try done; intros; apply Hsub; set_solver).
    f_equal. apply (cstring_zeros (q, e) l Hx); [apply Hsub; set_solver|done].
  - destruct Hc. rewrite IHl, IHr by (try done; intros; apply Hsub; set_solver). done.
  - destruct Hc. rewrite IHl, IHr by (try done; intros; apply Hsub; set_solver). done.
  - by rewrite IH.
Qed.
Lemma read_nulterminate c : cplaced c -> read_cmd (nulterminate c line_buf) c = vcmd c.
Proof using Hnz.
  intros Hc. rewrite nulterminate_zeros. apply read_zeros; [done|done|]. intros e He. by apply (cplaced_ends c).
Qed.

(** The last test of parsecmd: nothing but white space is left. *)
Lemma peek_end s : (s <= es)%nat -> exists s', peek line_buf es [] s = Ret (false, s') /\ (s' = es <-> rem s = []).
Proof using Hnz.
  intros Hs. unfold peek. destruct (skip_spec (es - s) s eq_refl Hs) as (Hq & Er & Hw). cbv zeta in *.
  set (q := skip_ws line_buf (es - s) s) in *. exists q. split; [by rewrite andb_false_r|]. rewrite <- Er.
  destruct (drop q str) as [|c t] eqn:E.
  - unfold rem. rewrite E. apply at_end in E as [-> _]; [done|lia].
  - destruct (at_cons q c t E) as (_ & _ & Hlt & _). destruct (token_at_spec q c t E Hw) as (? & e & T & _ & _ & -> & _). split; [lia|done].
Qed.

Lemma parsecmd_finds a : g_line (lex [] str) a ->
  exists c line_buf', parsecmd line_buf = Ret (c, line_buf') /\ read_cmd line_buf' c = a.
Proof using Hnz.
  intros Hg. unfold parsecmd. rewrite line_len_app by done. assert (E0 : rem 0 = lex [] str) by done.
  pose proof (rem_length 0) as Hlen. rewrite E0 in Hlen.
  destruct (proj1 parse_find _ _ Hg (4 * es + 4)%nat 0%nat []) as (c & s' & E & Hs' & Er & Hv);
    [lia|by rewrite E0, app_nil_r|done|lia|].
  pose proof (parse_read (4 * es + 4) O ltac:(lia)) as [Hr _]. rewrite E0 in Hr. specialize (Hr ltac:(lia)).
  unfold reads, ends in Hr. rewrite E in Hr. destruct Hr as (_ & ts & _ & _ & Hp).
  destruct (peek_end s' Hs') as (s'' & E' & He). apply He in Er as ->.
  exists c, (nulterminate c line_buf). unfold bind at 1. rewrite E. unfold bind at 1. rewrite E'. unfold bind, gets, id. rewrite Nat.eqb_refl.
  split; [done|]. by rewrite read_nulterminate.
Qed.

Lemma parsecmd_rejects : (forall a, ~ g_line (lex [] str) a) -> exists msg, parsecmd line_buf = Panic msg.
Proof using Hnz.
  intros Hno. unfold parsecmd. rewrite line_len_app by done. assert (E0 : rem 0 = lex [] str) by done.
  pose proof (rem_length 0) as Hlen. pose proof (parse_read (4 * es + 4) O ltac:(lia)) as [Hr _]. specialize (Hr ltac:(lia)).
  unfold reads, ends in Hr. unfold bind at 1. destruct (parseline line_buf es (4 * es + 4) O) as [[c s']|msg| |] eqn:E; try done; [|by exists msg].
  destruct Hr as (Hs' & ts & Ets & Hg & _). destruct (peek_end s' Hs') as (s'' & E' & He). unfold bind at 1. rewrite E'.
  unfold bind, gets, id. destruct (Nat.eqb_spec s'' es) as [Heq|]; [|by exists "syntax"]. exfalso.
  apply He in Heq. rewrite Heq, app_nil_r, E0 in Ets. subst ts. by eapply Hno.
Qed.
End scanner.

(** C16: the parser of the shell accepts exactly the command language.  If the
    tokens of the line are a command of the grammar, parsecmd returns that
    command, and the strings its pointers point to after nulterminate are the
    words of the command; otherwise it panics.  It never loops. *)
Theorem parsecmd_correct (str rest : list Z) :
  Forall (fun c => c <> 0) str ->
  (forall a, g_line (lex [] str) a ->
     exists c buf', parsecmd (str ++ 0 :: rest) = Ret (c, buf') /\ read_cmd buf' c = a) /\
  ((forall a, ~ g_line (lex [] str) a) -> exists msg, parsecmd (str ++ 0 :: rest) = Panic msg).
Proof. intros Hnz. split; [intros a; by apply parsecmd_finds|by apply parsecmd_rejects]. Qed.

(** [a|b>c&] *)
Definition demo_line : list Z := [97; 124; 98; 62; 99; 38].
Definition demo_cmd : acmd := ABack (APipe (AExec [[97]]) (ARedir (AExec [[98]]) [99] 0x601 1)).
Lemma demo_line_ok : Forall (fun c => c <> 0) demo_line /\ g_line (lex [] demo_line) demo_cmd.
Proof.
  split; [by repeat constructor|]. change (lex [] demo_line) with
    (([] ++ TWord [97] :: [] ++ []) ++ TSym BAR :: ([] ++ TWord [98] :: [TSym GT; TWord [99]] ++ []) ++ repeat (TSym AMP) 1).
  apply (gl_one (([] ++ TWord [97] :: [] ++ []) ++ TSym BAR :: ([] ++ TWord [98] :: [TSym GT; TWord [99]] ++ [])) _ 1).
  apply gp_pipe.
  - apply (ge_simple [] [] _ [[97]] []); [constructor| |unfold MAXARGS; simpl; lia].
    apply (gw_cons [97] [] [] [] [] []); constructor.
  - apply gp_one. apply (ge_simple [] [] _ [[98]] [([99], 0x601, 1)]); [constructor| |unfold MAXARGS; simpl; lia].
    apply (gw_cons [98] [TSym GT; TWord [99]] [([99], 0x601, 1)] [] [] []); [|constructor].
    apply gr_cons; [reflexivity|constructor].
Qed.
Lemma parsecmd_correct_witness : exists c buf',
  parsecmd (demo_line ++ 0 :: [5; 5]) = Ret (c, buf') /\ read_cmd buf' c = demo_cmd.
Proof.
  destruct demo_line_ok as [H1 H2]. destruct (parsecmd_correct demo_line [5; 5] H1) as [H _]. by apply H.
Defined.
