(* ===== verification/ShRun.v ===== *)
(** * user/sh.c: running commands

    A process of the shell as the tree of its system calls, and what its
    descendants execute with which open files. *)

From S2P Require Import Prelude Proc Grep Sysfile Sh.

(** The rest of a process: a system call with a continuation for each of its
    results.  fork returns 0 in the child, the child's id in the parent and -1
    if it fails; read of one byte gives that byte or nothing. *)
Inductive prog :=
| Exit (status : Z)
| Close (fd : Z) (k : prog)
| Open (file : list Z) (mode : Z) (k : Z -> prog)
| Dup (fd : Z) (k : prog)
| MkPipe (k : option (Z * Z) -> prog)
| Fork (k : Z -> prog)
| Wait (k : prog)
| Execv (path : list Z) (argv : list (list Z)) (k : prog)
| Print (fd : Z) (msg : list Z) (k : prog)
| Chdir (path : list Z) (k : Z -> prog)
| Read1 (k : option Z -> prog).

Definition sh_panic (msg : list Z) : prog := Print 2 (msg ++ [NL]) (Exit 1).
Definition fork1 (k : Z -> prog) : prog :=
  Fork (fun pid => if pid =? -1 then sh_panic (chars "fork") else k pid).

Fixpoint runcmd (c : acmd) : prog :=
  match c with
  | AExec [] => Exit 1
  | AExec (path :: args) =>
      Execv path (path :: args) (Print 2 (chars "exec " ++ path ++ chars " failed" ++ [NL]) (Exit 0))
  | ARedir c file mode fd =>
      Close fd (Open file mode (fun r =>
        if r <? 0 then Print 2 (chars "open " ++ file ++ chars " failed" ++ [NL]) (Exit 1) else runcmd c))
  | AList l r => fork1 (fun pid => if pid =? 0 then runcmd l else Wait (runcmd r))
  | APipe l r =>
      MkPipe (fun p =>
        match p with
        | None => sh_panic (chars "pipe")
        | Some (p0, p1) =>
            fork1 (fun pid =>
              if pid =? 0 then Close 1 (Dup p1 (Close p0 (Close p1 (runcmd l))))
              else
                fork1 (fun pid =>
                  if pid =? 0 then Close 0 (Dup p0 (Close p0 (Close p1 (runcmd r))))
                  else Close p0 (Close p1 (Wait (Wait (Exit 0))))))
        end)
  | ABack c => fork1 (fun pid => if pid =? 0 then runcmd c else Exit 0)
  end.

(** The child that main forks for a line; the leftovers that parsecmd prints
    before it panics are left out. *)
Definition run_line (buf : list Z) : prog :=
  match parsecmd buf with
  | Ret (c, buf') => runcmd (read_cmd buf' c)
  | Panic msg => sh_panic (chars msg)
  | _ => Exit 1
  end.

(** [gets(buf, max)], for [left] more bytes. *)
Fixpoint gets_loop (left : nat) (line : list Z) (k : list Z -> prog) : prog :=
  match left with
  | O => k line
  | S left' =>
      Read1 (fun r =>
        match r with
        | None => k line
        | Some c => if (c =? NL) || (c =? 13) then k (line ++ [c]) else gets_loop left' (line ++ [c]) k
        end)
  end.
Definition SHBUF : nat := 100.
(** The line in the buffer, or nothing at the end of the input. *)
Definition getcmd (k : option (list Z) -> prog) : prog :=
  Print 2 (chars "$ ") (gets_loop (SHBUF - 1) [] (fun line =>
    let buf := line ++ repeat 0 (SHBUF - length line) in
    k (if at_ buf 0 =? 0 then None else Some buf))).

(** One turn of the loop of main, before the turns [next]. *)
Definition main_turn (next : prog) : prog :=
  getcmd (fun r =>
    match r with
    | None => Exit 0
    | Some buf =>
        if (at_ buf 0 =? 99) && (at_ buf 1 =? 100) && (at_ buf 2 =? 32) then
          let buf := <[(line_len buf - 1)%nat := 0]> buf in
          Chdir (cstring buf 3) (fun r =>
            if r <? 0 then Print 2 (chars "cannot cd " ++ cstring buf 3 ++ [NL]) next else next)
        else fork1 (fun pid => if pid =? 0 then run_line buf else Wait next)
    end).
(** The loop that opens the console until descriptors 0, 1 and 2 are in use. *)
Fixpoint open_console (left : nat) (next : prog) : prog :=
  Open (chars "console") O_RDWR (fun fd =>
    if 0 <=? fd then
      if 3 <=? fd then Close fd next
      else match left with O => next | S left' => open_console left' next end
    else next).
(** [main], for the first [turns] lines. *)
Definition main (turns : nat) : prog := open_console 3 (Nat.iter turns main_turn (Exit 0)).

(** ** Descriptors *)

Inductive obj := OFile (name : list Z) (mode : Z) | OPipeR (id : nat) | OPipeW (id : nat) | OOther (n : Z).
Definition table : Type := Z -> option obj.
Definition fd_list : list Z := map Z.of_nat (seq 0 NOFILE).
(** The descriptor that the kernel gives out next. *)
Definition lowest (t : table) : option Z := List.find (fun fd => match t fd with None => true | Some _ => false end) fd_list.

(** The commands that the process and its descendants execute, each with its
    descriptors, when every call succeeds; pipes are numbered from [id]. *)
Fixpoint executes (id : nat) (p : prog) (t : table) : nat * list (list (list Z) * table) :=
  match p with
  | Exit _ => (id, [])
  | Close fd k => executes id k (upd t fd None)
  | Open file mode k =>
      match lowest t with
      | Some fd => executes id (k fd) (upd t fd (Some (OFile file mode)))
      | None => executes id (k (-1)) t
      end
  | Dup fd k =>
      match lowest t, t fd with
      | Some fd', Some o => executes id k (upd t fd' (Some o))
      | _, _ => executes id k t
      end
  | MkPipe k =>
      match lowest t with
      | Some p0 =>
          let t1 := upd t p0 (Some (OPipeR id)) in
          match lowest t1 with
          | Some p1 => executes (S id) (k (Some (p0, p1))) (upd t1 p1 (Some (OPipeW id)))
          | None => executes id (k None) t
          end
      | None => executes id (k None) t
      end
  | Fork k =>
      let (id1, l1) := executes id (k 0) t in
      let (id2, l2) := executes id1 (k 1) t in
      (id2, l1 ++ l2)
  | Wait k => executes id k t
  | Execv _ argv _ => (id, [(argv, t)])
  | Print _ _ k => executes id k t
  | Chdir _ k => executes id (k 0) t
  | Read1 k => executes id (k None) t
  end.

(** What a command means: the programs it runs, where a redirection replaces
    one descriptor, and a pipe the output of the left and the input of the
    right side. *)
Fixpoint plan (id : nat) (c : acmd) (t : table) : nat * list (list (list Z) * table) :=
  match c with
  | AExec [] => (id, [])
  | AExec argv => (id, [(argv, t)])
  | ARedir c file mode fd => plan id c (upd t fd (Some (OFile file mode)))
  | APipe l r =>
      let (id1, l1) := plan (S id) l (upd t 1 (Some (OPipeW id))) in
      let (id2, l2) := plan id1 r (upd t 0 (Some (OPipeR id))) in
      (id2, l1 ++ l2)
  | AList l r =>
      let (id1, l1) := plan id l t in
      let (id2, l2) := plan id1 r t in
      (id2, l1 ++ l2)
  | ABack c => plan id c t
  end.

(** ** The shell does what the command means *)

Lemma fd_list_in fd : List.In fd fd_list <-> 0 <= fd < 16.
Proof.
  unfold fd_list, NOFILE. rewrite in_map_iff. split.
  - intros (i & <- & Hi%in_seq). lia.
  - intros Hfd. exists (Z.to_nat fd). split; [lia|]. apply in_seq. lia.
Qed.
Lemma find_first {A} (f : A -> bool) l1 x l2 : f x = true -> Forall (fun y => f y = false) l1 -> List.find f (l1 ++ x :: l2) = Some x.
Proof. intros Hx Hl. induction Hl as [|y l1 Hy _ IH]; simpl; [by rewrite Hx|by rewrite Hy]. Qed.
Lemma lowest_is t fd : 0 <= fd < 16 -> t fd = None -> (forall j, 0 <= j < fd -> t j <> None) -> lowest t = Some fd.
Proof.
  intros Hfd Ht Hlow. unfold lowest, fd_list, NOFILE.
  replace (seq 0 16) with (seq 0 (Z.to_nat fd) ++ Z.to_nat fd :: seq (S (Z.to_nat fd)) (15 - Z.to_nat fd)).
  2: { change (Z.to_nat fd :: seq (S (Z.to_nat fd)) (15 - Z.to_nat fd)) with (seq (0 + Z.to_nat fd)%nat (S (15 - Z.to_nat fd))).
       rewrite <- seq_app. f_equal. lia. }
  rewrite map_app. simpl. replace (Z.of_nat (Z.to_nat fd)) with fd by lia. apply find_first; [by rewrite Ht|].
  apply Forall_forall. intros j (i & -> & Hi)%list_elem_of_fmap. apply elem_of_seq in Hi.
  specialize (Hlow (Z.of_nat i) ltac:(lia)). by destruct (t (Z.of_nat i)).
Qed.
Lemma lowest_free t fd : lowest t = Some fd -> 0 <= fd < 16 /\ t fd = None.
Proof. intros [H1%fd_list_in H2]%find_some. by destruct (t fd). Qed.

(** Descriptors 0, 1 and 2 are in use and two others are not. *)
Definition std (t : table) : Prop := t 0 <> None /\ t 1 <> None /\ t 2 <> None.
Definition room (t : table) : Prop := exists p0 p1, p0 <> p1 /\ 3 <= p0 < 16 /\ 3 <= p1 < 16 /\ t p0 = None /\ t p1 = None.
Lemma std_upd t fd o : std t -> std (upd t fd (Some o)).
Proof. unfold std, upd. intros (? & ? & ?). by repeat case_decide. Qed.
Lemma room_upd t fd o : (fd = 0 \/ fd = 1) -> room t -> room (upd t fd (Some o)).
Proof.
  intros Hfd (p0 & p1 & H). exists p0, p1. unfold upd. rewrite !decide_False by lia. tauto.
Qed.
(** A free descriptor exists as soon as one is closed. *)
Lemma lowest_some t fd : 0 <= fd < 16 -> t fd = None -> exists fd', lowest t = Some fd'.
Proof.
  intros Hfd Ht. unfold lowest. destruct (List.find _ fd_list) as [fd'|] eqn:E; [by exists fd'|].
  pose proof (find_none _ _ E fd (proj2 (fd_list_in fd) Hfd)) as Hn. simpl in Hn. by rewrite Ht in Hn.
Qed.

(** The descriptors that pipe() gives to a shell process. *)
Lemma pipe_fds t id : std t -> room t -> exists p0 p1,
  lowest t = Some p0 /\ lowest (upd t p0 (Some (OPipeR id))) = Some p1 /\
  3 <= p0 /\ 3 <= p1 /\ p0 <> p1 /\ t p0 = None /\ t p1 = None.
Proof.
  intros (H0 & H1 & H2) (q0 & q1 & Hq & Hq0 & Hq1 & E0 & E1).
  destruct (lowest_some t q0) as [p0 Ep0]; [lia|done|].
  destruct (lowest_some (upd t p0 (Some (OPipeR id))) (if decide (p0 = q0) then q1 else q0)) as [p1 Ep1].
  { case_decide; lia. }
  { destruct (decide (p0 = q0)) as [->|]; rewrite upd_other by congruence; done. }
  exists p0, p1. destruct (lowest_free _ _ Ep0) as [? Ht0], (lowest_free _ _ Ep1) as [? Ht1].
  assert (p1 <> p0) by (intros ->; by rewrite upd_same in Ht1). rewrite upd_other in Ht1 by done.
  assert (forall p, t p = None -> 0 <= p -> 3 <= p).
  { intros p Hp ?. destruct (decide (p = 0)) as [->|]; [done|]. destruct (decide (p = 1)) as [->|]; [done|].
    destruct (decide (p = 2)) as [->|]; [done|]. lia. }
  split_and!; try done; auto with lia.
Qed.

(** One side of a pipe: [keep] becomes descriptor [fd], and the two
    descriptors of the pipe are closed. *)
Lemma pipe_side t p0 p1 r w keep o fd id k : std t -> 3 <= p0 -> 3 <= p1 -> p0 <> p1 -> t p0 = None -> t p1 = None ->
  fd = 0 \/ fd = 1 -> (keep = p0 /\ o = r) \/ (keep = p1 /\ o = w) ->
  executes id (Close fd (Dup keep (Close p0 (Close p1 k)))) (upd (upd t p0 (Some r)) p1 (Some w)) =
  executes id k (upd t fd (Some o)).
Proof.
  intros (H0 & H1 & H2) Hp0 Hp1 Hne E0 E1 Hfd Hk. cbn [executes]. set (t2 := upd (upd t p0 (Some r)) p1 (Some w)).
  assert (Hlow : lowest (upd t2 fd None) = Some fd).
  { apply lowest_is; [lia|apply upd_same|]. intros j Hj. unfold t2, upd. repeat case_decide; try lia; try done.
    destruct Hfd as [->| ->]; [lia|]. by replace j with 0 by lia. }
  assert (Hkeep : upd t2 fd None keep = Some o).
  { unfold t2, upd. destruct Hk as [[-> ->]|[-> ->]]; repeat case_decide; congruence || lia. }
  rewrite Hlow, Hkeep. f_equal. apply functional_extensionality. intros j. unfold t2, upd.
  repeat case_decide; subst; congruence || lia.
Qed.

Lemma executes_fork1 id k t : executes id (fork1 k) t =
  let (id1, l1) := executes id (k 0) t in let (id2, l2) := executes id1 (k 1) t in (id2, l1 ++ l2).
Proof. reflexivity. Qed.

Fixpoint redirs_std (c : acmd) : Prop :=
  match c with
  | AExec _ => True
  | ARedir c _ _ fd => redirs_std c /\ (fd = 0 \/ fd = 1)
  | APipe l r | AList l r => redirs_std l /\ redirs_std r
  | ABack c => redirs_std c
  end.

Lemma runcmd_plan c id t : redirs_std c -> std t -> room t -> executes id (runcmd c) t = plan id c t.
Proof.
  revert id t. induction c as [argv|c IH file mode fd|l IHl r IHr|l IHl r IHr|c IH]; intros id t Hc Hs Hr; cbn [runcmd plan].
  - by destruct argv.
  - destruct Hc as [Hc Hfd]. cbn [executes]. pose proof Hs as (H0 & H1 & H2).
    assert (lowest (upd t fd None) = Some fd) as ->.
    { apply lowest_is; [lia|apply upd_same|]. intros j Hj. rewrite upd_other by lia. destruct Hfd as [->| ->]; [lia|].
      by replace j with 0 by lia. }
    rewrite (proj2 (Z.ltb_ge fd 0)) by lia. rewrite upd_upd. apply IH; [done|by apply std_upd|by apply room_upd].
  - destruct Hc as [Hl Hr']. destruct (pipe_fds t id Hs Hr) as (p0 & p1 & E0 & E1 & Hp).
    cbn [executes]. rewrite E0. cbv zeta. rewrite E1. destruct Hp as (Hp0 & Hp1 & Hne & T0 & T1).
    rewrite executes_fork1. change (0 =? 0) with true. change (1 =? 0) with false. cbv iota.
    rewrite (pipe_side t p0 p1 _ _ p1 (OPipeW id)) by (done || by right).
    rewrite (IHl (S id)) by (done || by apply std_upd || by apply room_upd; auto).
    destruct (plan (S id) l _) as [id1 l1]. rewrite executes_fork1. change (0 =? 0) with true. change (1 =? 0) with false. cbv iota.
    rewrite (pipe_side t p0 p1 _ _ p0 (OPipeR id)) by (done || by left).
    rewrite (IHr id1) by (done || by apply std_upd || by apply room_upd; auto).
    destruct (plan id1 r _) as [id2 l2]. cbn [executes]. by rewrite app_nil_r.
  - destruct Hc as [Hl Hr']. rewrite executes_fork1. change (0 =? 0) with true. change (1 =? 0) with false. cbv iota.
    rewrite IHl by done. destruct (plan id l t) as [id1 l1]. cbn [executes]. by rewrite IHr.
  - rewrite executes_fork1. change (0 =? 0) with true. change (1 =? 0) with false. cbv iota. rewrite IH by done.
    destruct (plan id c t) as [id1 l1]. cbn [executes]. by rewrite app_nil_r.
Qed.

Lemma awrap_std c rs : redirs_std c -> Forall (fun r : aredir => snd r = 0 \/ snd r = 1) rs -> redirs_std (awrap c rs).
Proof.
  intros Hc Hrs. revert c Hc. induction Hrs as [|[[w mode] fd] rs Hr _ IH]; intros c Hc; [done|].
  unfold awrap. simpl. apply (IH (ARedir c w mode fd)). by split.
Qed.
Lemma redirs_fds ts rs : g_redirs ts rs -> Forall (fun r : aredir => snd r = 0 \/ snd r = 1) rs.
Proof.
  induction 1 as [|t w ts mode fd rs Hk _ IH]; constructor; [|done]. simpl. unfold redir_kind in Hk.
  repeat (destruct (_ =? _); [injection Hk as <- <-; auto|]). done.
Qed.
Lemma words_fds ts ws rs : g_words ts ws rs -> Forall (fun r : aredir => snd r = 0 \/ snd r = 1) rs.
Proof. induction 1; [constructor|]. apply Forall_app. split; [by eapply redirs_fds|done]. Qed.
Lemma backs_std k c : redirs_std c -> redirs_std (Nat.iter k ABack c).
Proof. by induction k. Qed.
Lemma grammar_std : (forall ts c, g_line ts c -> redirs_std c) /\ (forall ts c, g_pipe ts c -> redirs_std c) /\
  (forall ts c, g_exec ts c -> redirs_std c).
Proof.
  apply g_min; intros; simpl; try done.
  - by apply backs_std.
  - split; [by apply backs_std|done].
  - apply awrap_std; [done|by eapply redirs_fds].
  - apply awrap_std; [done|]. apply Forall_app. split; [by eapply redirs_fds|by eapply words_fds].
Qed.

(** C17: a line typed at the shell runs what it says.  For a line in the command
    language, with descriptors 0, 1 and 2 in use and room for a pipe, the
    process that the shell forks and its descendants execute exactly the
    commands of the line: each with the shell's descriptors, but for the one
    that a redirection or the side of a pipe replaces, and with no descriptor
    of a pipe left over.  This is of runs in which open, pipe, fork and exec
    succeed, as [executes] has it. *)
Theorem shell_line_correct (str rest : list Z) (a : acmd) (id : nat) (t : table) :
  Forall (fun c => c <> 0) str -> g_line (lex [] str) a -> std t -> room t ->
  executes id (run_line (str ++ 0 :: rest)) t = plan id a t.
Proof.
  intros Hnz Hg Hs Hr. destruct (parsecmd_finds str rest Hnz a Hg) as (c & buf' & E & Ea).
  unfold run_line. rewrite E, Ea. apply runcmd_plan; [|done|done]. by eapply (proj1 grammar_std).
Qed.

(** Descriptors 0, 1 and 2 on the console. *)
Definition demo_fds : table := fun fd => if (0 <=? fd) && (fd <? 3) then Some (OOther 1) else None.
Lemma shell_line_correct_witness : snd (executes 0 (run_line (demo_line ++ 0 :: [])) demo_fds) =
  [([[97]], upd demo_fds 1 (Some (OPipeW 0)));
   ([[98]], upd (upd demo_fds 0 (Some (OPipeR 0))) 1 (Some (OFile [99] 0x601)))].
Proof.
  destruct demo_line_ok as [H1 H2]. rewrite (shell_line_correct demo_line [] demo_cmd 0 demo_fds H1 H2); [reflexivity|by repeat split|].
  exists 3, 4. repeat split; try reflexivity; discriminate || lia.
Defined.

(** The argument of the first chdir of a process that reads [input]. *)
Fixpoint cd_arg (p : prog) (input : list Z) : option (list Z) :=
  match p with
  | Print _ _ k => cd_arg k input
  | Read1 k => match input with [] => cd_arg (k None) [] | c :: input' => cd_arg (k (Some c)) input' end
  | Chdir path _ => Some path
  | _ => None
  end.
(** main removes the last character of a cd line, also when the line does not
    end in a newline. *)
Lemma cd_chops : cd_arg (main_turn (Exit 0)) (chars "cd ab" ++ [NL]) = Some (chars "ab") /\
  cd_arg (main_turn (Exit 0)) (chars "cd ab") = Some (chars "a").
Proof. by vm_compute. Qed.
