(* ===== verification/Ulib.v ===== *)
(** * user/ulib.c: strings and memory

    The library functions of user programs on the bytes of the program's
    memory; loops that only a terminating 0 ends take fuel.  [gets] is in
    ShRun, [stat] in Utils, [atoi] in UPrintf. *)

From S2P Require Import Prelude Riscv KString.

Implicit Types (m : memory).

(** [while(( *s++ = *t++) != 0);] *)
Fixpoint lib_strcpy_loop m (s t : Z) (fuel : nat) : outcome memory :=
  match fuel with
  | O => OutOfFuel
  | S fuel' =>
      let c := ldb m t in
      let m := stb m s c in
      if c =? 0 then Ret m else lib_strcpy_loop m (s + 1) (t + 1) fuel'
  end.
(** The memory and the result. *)
Definition lib_strcpy m (s t : Z) (fuel : nat) : outcome (memory * Z) :=
  match lib_strcpy_loop m s t fuel with
  | Ret m' => Ret (m', s)
  | Panic msg => Panic msg
  | Blocked => Blocked
  | OutOfFuel => OutOfFuel
  end.

Fixpoint lib_strcmp m (p q : Z) (fuel : nat) : outcome Z :=
  match fuel with
  | O => OutOfFuel
  | S fuel' =>
      if negb (ldb m p =? 0) && (ldb m p =? ldb m q) then lib_strcmp m (p + 1) (q + 1) fuel'
      else Ret (ldb m p - ldb m q)
  end.

Fixpoint lib_strlen_loop m (s n : Z) (fuel : nat) : outcome Z :=
  match fuel with
  | O => OutOfFuel
  | S fuel' => if ldb m (s + n) =? 0 then Ret (u32 n) else lib_strlen_loop m s (i32 (n + 1)) fuel'
  end.
Definition lib_strlen m (s : Z) (fuel : nat) : outcome Z := lib_strlen_loop m s 0 fuel.

Fixpoint lib_memset_loop m (cdst c i : Z) (left : nat) : memory :=
  match left with O => m | S left' => lib_memset_loop (stb m (cdst + i) c) cdst c (i + 1) left' end.
Definition lib_memset m (dst c n : Z) : memory * Z := (lib_memset_loop m dst c 0 (Z.to_nat n), dst).

(** The pointer to the first [c], or 0. *)
Fixpoint lib_strchr m (s c : Z) (fuel : nat) : outcome Z :=
  match fuel with
  | O => OutOfFuel
  | S fuel' =>
      if ldb m s =? 0 then Ret 0
      else if ldb m s =? c then Ret s else lib_strchr m (s + 1) c fuel'
  end.

(** Copies upwards if the source is above, downwards otherwise; [n] is an int. *)
Definition lib_memmove m (vdst vsrc n : Z) : memory * Z :=
  ((if vdst <? vsrc then move_up m vdst vsrc (Z.to_nat n) else move_down m (vdst + n) (vsrc + n) (Z.to_nat n)), vdst).

Fixpoint lib_memcmp_loop m (p1 p2 : Z) (n : nat) : Z :=
  match n with
  | O => 0
  | S n' => if negb (ldb m p1 =? ldb m p2) then ldb m p1 - ldb m p2 else lib_memcmp_loop m (p1 + 1) (p2 + 1) n'
  end.
Definition lib_memcmp m (s1 s2 n : Z) : Z := lib_memcmp_loop m s1 s2 (Z.to_nat n).
Definition lib_memcpy m (dst src n : Z) : memory * Z := lib_memmove m dst src (i32 n).

(** ** Correctness *)

(** The string [s] is at address [a]. *)
Record cstr m (a : Z) (s : list Z) : Prop := {
  cs_byte : forall i c, s !! i = Some c -> ldb m (a + Z.of_nat i) = c;
  cs_nonzero : Forall (fun c => c <> 0) s;
  cs_end : ldb m (a + Z.of_nat (length s)) = 0;
}.

Lemma cstr_tail m a c s : cstr m a (c :: s) -> ldb m a = c /\ c <> 0 /\ cstr m (a + 1) s.
Proof.
  intros [H1 H2 H3]. apply Forall_cons in H2 as [Hc Hs]. split_and!; [|done|].
  - rewrite <-(H1 0%nat c eq_refl). f_equal. lia.
  - split; [|done|].
    + intros i x Hx. rewrite <-(H1 (S i) x Hx). f_equal. lia.
    + rewrite <-H3. f_equal. simpl. lia.
Qed.
Lemma cstr_nil m a : cstr m a [] -> ldb m a = 0.
Proof. intros [_ _ H]. simpl in H. by rewrite Z.add_0_r in H. Qed.

(** memmove copies also between ranges that overlap. *)
Theorem lib_memmove_correct m dst src n : 0 <= n ->
  snd (lib_memmove m dst src n) = dst /\
  (forall i, 0 <= i < n -> fst (lib_memmove m dst src n) (dst + i) = ldb m (src + i)) /\
  (forall x, x < dst \/ dst + n <= x -> fst (lib_memmove m dst src n) x = m x).
Proof.
  intros Hn. split; [done|]. unfold lib_memmove. cbn [fst].
  assert (H : forall x, (if dst <? src then move_up m dst src (Z.to_nat n) else move_down m (dst + n) (src + n) (Z.to_nat n)) x =
    if (dst <=? x) && (x <? dst + n) then ldb m (src + (x - dst)) else m x).
  { intros x. destruct (Z.ltb_spec dst src).
    - rewrite move_up_spec by lia. by rewrite Z2Nat.id by lia.
    - rewrite move_down_spec by lia. rewrite Z2Nat.id by lia.
      replace (src + n + (x - (dst + n))) with (src + (x - dst)) by lia. by replace (dst + n - n) with dst by lia. }
  split; intros x Hx; rewrite H; case_bool; try lia; try done. f_equal. lia.
Qed.

Lemma lib_strlen_spec m a s fuel : cstr m a s -> (length s < fuel)%nat -> Z.of_nat (length s) < 2 ^ 31 ->
  lib_strlen m a fuel = Ret (Z.of_nat (length s)).
Proof.
  intros Hs Hf Hb. unfold lib_strlen.
  assert (H : forall k n, a + n + Z.of_nat k = a + Z.of_nat (length s) -> 0 <= n -> (k < fuel)%nat ->
    forall fuel', (k < fuel')%nat -> lib_strlen_loop m a n fuel' = Ret (Z.of_nat (length s))).
  { induction k as [|k IH]; intros n E Hn Hk [|fuel'] Hf'; try lia; cbn [lib_strlen_loop].
    - replace (a + n) with (a + Z.of_nat (length s)) by lia. rewrite (cs_end _ _ _ Hs). cbn [Z.eqb]. rewrite u32_id by lia. f_equal. lia.
    - destruct (lookup_lt_is_Some_2 s (Z.to_nat n)) as [c Hc]; [lia|]. pose proof (cs_byte _ _ _ Hs _ _ Hc) as Hb'.
      rewrite Z2Nat.id in Hb' by lia. rewrite Hb'. pose proof (cs_nonzero _ _ _ Hs) as Hz. rewrite Forall_lookup in Hz.
      rewrite (proj2 (Z.eqb_neq _ _) (Hz _ _ Hc)), i32_id by lia. apply IH; lia. }
  apply (H (length s)); lia.
Qed.

(** strcmp is negative, zero or positive as the strings compare byte by byte. *)
Fixpoint compare_bytes (s t : list Z) : Z :=
  match s, t with
  | [], [] => 0
  | [], d :: _ => 0 - d
  | c :: _, [] => c
  | c :: s', d :: t' => if c =? d then compare_bytes s' t' else c - d
  end.

Lemma lib_strcmp_spec m p q s t fuel : cstr m p s -> cstr m q t -> (length s < fuel)%nat ->
  lib_strcmp m p q fuel = Ret (compare_bytes s t).
Proof.
  revert p q t fuel. induction s as [|c s IH]; intros p q t [|fuel] Hs Ht Hf; simpl in Hf; try lia; cbn [lib_strcmp].
  - rewrite (cstr_nil _ _ Hs). cbn [Z.eqb negb andb]. f_equal. destruct t as [|d t].
    + by rewrite (cstr_nil _ _ Ht).
    + apply cstr_tail in Ht as (-> & _). done.
  - apply cstr_tail in Hs as (-> & Hc & Hs). rewrite (proj2 (Z.eqb_neq _ _) Hc). cbn [negb andb]. destruct t as [|d t].
    + rewrite (cstr_nil _ _ Ht). rewrite (proj2 (Z.eqb_neq _ _) Hc). cbn [compare_bytes]. f_equal. lia.
    + apply cstr_tail in Ht as (-> & Hd & Ht). cbn [compare_bytes]. destruct (c =? d); [|done]. apply IH; [done|done|lia].
Qed.

Lemma compare_bytes_eq s t : Forall (fun c => 0 < c) s -> Forall (fun c => 0 < c) t -> compare_bytes s t = 0 <-> s = t.
Proof.
  intros Hs. revert t. induction Hs as [|c s Hc Hs IH]; intros t Ht; destruct Ht as [|d t Hd Ht]; cbn [compare_bytes]; try done.
  - split; [lia|done].
  - split; [lia|done].
  - destruct (Z.eqb_spec c d) as [->|Hne]; [|split; [lia|congruence]]. rewrite IH by done. split; [by intros ->|congruence].
Qed.

(** strcpy copies the string with its end to memory that it does not overlap
    from behind. *)
Lemma lib_strcpy_spec m a b s fuel : cstr m b s -> (length s < fuel)%nat -> a <= b \/ b + Z.of_nat (length s) < a ->
  exists m', lib_strcpy m a b fuel = Ret (m', a) /\ cstr m' a s /\
    forall x, x < a \/ a + Z.of_nat (length s) < x -> m' x = m x.
Proof.
  intros Hs Hf Hab. cut (exists m', lib_strcpy_loop m a b fuel = Ret m' /\ cstr m' a s /\
    forall x, x < a \/ a + Z.of_nat (length s) < x -> m' x = m x).
  { intros (m' & E & H). exists m'. split; [|done]. unfold lib_strcpy. by rewrite E. }
  revert m a b fuel Hs Hf Hab. induction s as [|c s IH]; intros m a b [|fuel] Hs Hf Hab; simpl in Hf; try lia; cbn [lib_strcpy_loop].
  - rewrite (cstr_nil _ _ Hs). cbn [Z.eqb]. eexists. split; [done|]. split.
    + split; [done|done|]. simpl. rewrite Z.add_0_r. unfold ldb, stb. by rewrite Z.eqb_refl.
    + intros x Hx. unfold stb. simpl in Hx. by rewrite (proj2 (Z.eqb_neq _ _)) by lia.
  - apply cstr_tail in Hs as (Hc & Hnz & Hs). rewrite Hc, (proj2 (Z.eqb_neq _ _) Hnz). cbn [length] in Hab.
    destruct (IH (stb m a c) (a + 1) (b + 1) fuel) as (m' & E & [C1 C2 C3] & Hfr); [|lia|lia|].
    { destruct Hs as [H1 H2 H3]. assert (Hk : forall x, b + 1 <= x <= b + 1 + Z.of_nat (length s) -> ldb (stb m a c) x = ldb m x).
      { intros x Hx. unfold ldb, stb. by rewrite (proj2 (Z.eqb_neq _ _)) by lia. }
      split; [|done|].
      - intros i x Hx. apply lookup_lt_Some in Hx as Hlt. rewrite Hk by lia. by apply H1.
      - rewrite Hk by lia. done. }
    exists m'. split; [done|]. split; [split|].
    + intros [|i] x Hx.
      * injection Hx as <-. unfold ldb. rewrite Hfr by lia. unfold stb. replace (a + Z.of_nat 0) with a by lia. rewrite Z.eqb_refl.
        rewrite <-Hc. unfold ldb, u8. rewrite !Z.mod_mod by lia. done.
      * replace (a + Z.of_nat (S i)) with (a + 1 + Z.of_nat i) by lia. by apply C1.
    + by constructor.
    + rewrite <-C3. f_equal. simpl. lia.
    + intros x Hx. cbn [length] in Hx. rewrite Hfr by lia. unfold stb. by rewrite (proj2 (Z.eqb_neq _ _)) by lia.
Qed.
