(* ===== verification/Utils.v ===== *)
(** * The user programs cat, wc, grep, ls, echo, rm, mkdir, ln, kill, init,
    zombie and stressfs

    A program as the sequence of its system calls, which depends on their
    results; and what the programs do on files that are sequences of bytes,
    whatever pieces read returns them in. *)

From S2P Require Import Prelude Bytes Proc Fs File Devices Sysfile Format UPrintf Grep Sh.

(** ** Programs *)

Inductive call :=
| SOpen (path : list Z) (mode : Z)
| SRead (fd n : Z)
| SWrite (fd : Z) (bs : list Z)
| SClose (fd : Z)
| SFstat (fd : Z)
| SDup (fd : Z)
| SFork
| SExec (path : list Z) (argv : list (list Z))
| SWait
| SMknod (path : list Z) (major minor : Z)
| SKill (pid : Z)
| SLink (old new : list Z)
| SMkdir (path : list Z)
| SUnlink (path : list Z)
| SSleep (n : Z).

(** The result of a call, and the bytes that it stores. *)
Definition reply : Type := Z * list Z.

(** [Stuck] is a loop that runs out of turns, or a buffer that overflows. *)
Inductive uprog (A : Type) :=
| Done (a : A)
| Quit (status : Z)
| Call (c : call) (k : reply -> uprog A)
| Stuck.
Arguments Done {A}.
Arguments Quit {A}.
Arguments Call {A}.
Arguments Stuck {A}.

Fixpoint ubind {A B} (m : uprog A) (k : A -> uprog B) : uprog B :=
  match m with
  | Done a => k a
  | Quit status => Quit status
  | Call c f => Call c (fun r => ubind (f r) k)
  | Stuck => Stuck
  end.

Declare Scope user_scope.
Delimit Scope user_scope with U.
Notation "'let!' x ':=' m 'in' k" := (ubind m (fun x => k)) : user_scope.
Notation "m ;; k" := (ubind m (fun _ => k)) : user_scope.
#[local] Open Scope user_scope.

Definition sys (c : call) : uprog Z := Call c (fun r => Done (fst r)).
Definition sysread (fd n : Z) : uprog reply := Call (SRead fd n) Done.

(** fprintf writes byte by byte. *)
Fixpoint putbytes (fd : Z) (bs : list Z) : uprog unit :=
  match bs with [] => Done tt | c :: bs' => sys (SWrite fd [c]) ;; putbytes fd bs' end.
Definition fprintf (fd : Z) (fmt : list Z) (ap : list varg) : uprog unit :=
  match vprintf fmt ap with Some bs => putbytes fd bs | None => Stuck end.

(** ** cat *)

Fixpoint cat (fd : Z) (fuel : nat) : uprog unit :=
  match fuel with
  | O => Stuck
  | S fuel' =>
      let! r := sysread fd 512 in
      let n := fst r in
      if 0 <? n then
        let! w := sys (SWrite 1 (snd r)) in
        if negb (w =? n) then fprintf 2 (chars "cat: write error" ++ [NL]) [] ;; Quit 1
        else cat fd fuel'
      else if n <? 0 then fprintf 2 (chars "cat: read error" ++ [NL]) [] ;; Quit 1
      else Done tt
  end.
Fixpoint cat_args (args : list (list Z)) (fuel : nat) : uprog unit :=
  match args with
  | [] => Quit 0
  | a :: args' =>
      let! fd := sys (SOpen a O_RDONLY) in
      if fd <? 0 then fprintf 2 (chars "cat: cannot open %s" ++ [NL]) [VStr (Some a)] ;; Quit 1
      else cat fd fuel ;; sys (SClose fd) ;; cat_args args' fuel
  end.
(** [args] are the arguments after the name of the program, here and below. *)
Definition cat_main (args : list (list Z)) (fuel : nat) : uprog unit :=
  match args with [] => cat 0 fuel ;; Quit 0 | _ => cat_args args fuel end.

(** ** wc *)

Record counts := Counts { cl : Z; cw : Z; cc : Z; inword : bool }.
Definition SPACES : list Z := [32; 13; 9; 10; 11].
Definition wc_byte (x : counts) (b : Z) : counts :=
  let c := i32 (cc x + 1) in
  let l := if b =? NL then i32 (cl x + 1) else cl x in
  if existsb (Z.eqb b) SPACES then Counts l (cw x) c false
  else if negb (inword x) then Counts l (i32 (cw x + 1)) c true
  else Counts l (cw x) c (inword x).
Fixpoint wc_loop (fd : Z) (x : counts) (fuel : nat) : uprog counts :=
  match fuel with
  | O => Stuck
  | S fuel' =>
      let! r := sysread fd 512 in
      let n := fst r in
      if 0 <? n then wc_loop fd (foldl wc_byte x (snd r)) fuel'
      else if n <? 0 then fprintf 1 (chars "wc: read error" ++ [NL]) [] ;; Quit 1
      else Done x
  end.
Definition wc (fd : Z) (name : list Z) (fuel : nat) : uprog unit :=
  let! x := wc_loop fd (Counts 0 0 0 false) fuel in
  fprintf 1 (chars "%d %d %d %s" ++ [NL]) [VWord (cl x); VWord (cw x); VWord (cc x); VStr (Some name)].
Fixpoint wc_args (args : list (list Z)) (fuel : nat) : uprog unit :=
  match args with
  | [] => Quit 0
  | a :: args' =>
      let! fd := sys (SOpen a O_RDONLY) in
      if fd <? 0 then fprintf 1 (chars "wc: cannot open %s" ++ [NL]) [VStr (Some a)] ;; Quit 1
      else wc fd a fuel ;; sys (SClose fd) ;; wc_args args' fuel
  end.
Definition wc_main (args : list (list Z)) (fuel : nat) : uprog unit :=
  match args with [] => wc 0 [] fuel ;; Quit 0 | _ => wc_args args fuel end.

(** ** grep: the calls of the loop and main *)

(** The first [m] bytes of the buffer are [buf]. *)
Fixpoint grep_fd (pattern : list Z) (fd : Z) (buf : list Z) (fuel : nat) : uprog unit :=
  match fuel with
  | O => Stuck
  | S fuel' =>
      let! r := sysread fd (BUFSIZE - Z.of_nat (length buf) - 1) in
      if 0 <? fst r then
        let buf := buf ++ snd r in
        let (out, buf') := scan_lines pattern buf (length buf) in
        foldr (fun line k => sys (SWrite 1 line) ;; k) (grep_fd pattern fd buf' fuel') out
      else Done tt
  end.
Fixpoint grep_args (pattern : list Z) (args : list (list Z)) (fuel : nat) : uprog unit :=
  match args with
  | [] => Quit 0
  | a :: args' =>
      let! fd := sys (SOpen a O_RDONLY) in
      if fd <? 0 then fprintf 1 (chars "grep: cannot open %s" ++ [NL]) [VStr (Some a)] ;; Quit 1
      else grep_fd pattern fd [] fuel ;; sys (SClose fd) ;; grep_args pattern args' fuel
  end.
Definition grep_main (args : list (list Z)) (fuel : nat) : uprog unit :=
  match args with
  | [] => fprintf 2 (chars "usage: grep pattern [file ...]" ++ [NL]) [] ;; Quit 1
  | [pattern] => grep_fd pattern 0 [] fuel ;; Quit 0
  | pattern :: files => grep_args pattern files fuel
  end.

(** ** ls *)

Definition SLASHC : Z := 47.
(** The characters after the last slash. *)
Fixpoint after_slash (path : list Z) : list Z :=
  match path with
  | [] => []
  | c :: path' => if existsb (Z.eqb SLASHC) path' then after_slash path' else if c =? SLASHC then path' else path
  end.
Definition fmtname (path : list Z) : list Z :=
  let p := after_slash path in
  if (DIRSIZ <=? length p)%nat then p else p ++ repeat 32 (DIRSIZ - length p).

(** The fields of a struct stat that ls prints. *)
Definition get_type (st : list Z) : Z := i16 (get16 st 8).
Definition get_ino (st : list Z) : Z := get32 st 4.
Definition get_size (st : list Z) : Z := le_val (slice st 16 8).

(** [stat] of ulib.c: the result and the bytes of the structure. *)
Definition lib_stat (n : list Z) : uprog reply :=
  let! fd := sys (SOpen n O_RDONLY) in
  if fd <? 0 then Done (-1, [])
  else
    let! r := Call (SFstat fd) Done in
    sys (SClose fd) ;;
    Done r.

Definition ls_line (path st : list Z) : uprog unit :=
  fprintf 1 (chars "%s %d %d %d" ++ [NL])
    [VStr (Some (fmtname path)); VWord (get_type st); VWord (get_ino st); VWord (i32 (get_size st))].
Fixpoint ls_dir (path : list Z) (fd : Z) (fuel : nat) : uprog unit :=
  match fuel with
  | O => Stuck
  | S fuel' =>
      let! r := sysread fd DIRENT_SIZE in
      if fst r =? DIRENT_SIZE then
        let de := snd r in
        if de_inum de =? 0 then ls_dir path fd fuel'
        else
          let buf := path ++ [SLASHC] ++ name_str DIRSIZ (de_name de) in
          let! st := lib_stat buf in
          if fst st <? 0 then fprintf 1 (chars "ls: cannot stat %s" ++ [NL]) [VStr (Some buf)] ;; ls_dir path fd fuel'
          else ls_line buf (snd st) ;; ls_dir path fd fuel'
      else Done tt
  end.
Definition ls (path : list Z) (fuel : nat) : uprog unit :=
  let! fd := sys (SOpen path O_RDONLY) in
  if fd <? 0 then fprintf 2 (chars "ls: cannot open %s" ++ [NL]) [VStr (Some path)]
  else
    let! r := Call (SFstat fd) Done in
    if fst r <? 0 then
      fprintf 2 (chars "ls: cannot stat %s" ++ [NL]) [VStr (Some path)] ;;
      sys (SClose fd) ;;
      Done tt
    else
      let type := get_type (snd r) in
      (if (type =? T_DEVICE) || (type =? T_FILE) then ls_line path (snd r)
       else if type =? T_DIR then
         if 512 <? Z.of_nat (length path) + 1 + Z.of_nat DIRSIZ + 1 then fprintf 1 (chars "ls: path too long" ++ [NL]) []
         else ls_dir path fd fuel
       else Done tt) ;;
      sys (SClose fd) ;;
      Done tt.
Fixpoint ls_args (args : list (list Z)) (fuel : nat) : uprog unit :=
  match args with [] => Quit 0 | a :: args' => ls a fuel ;; ls_args args' fuel end.
Definition ls_main (args : list (list Z)) (fuel : nat) : uprog unit :=
  match args with [] => ls [46] fuel ;; Quit 0 | _ => ls_args args fuel end.

(** ** echo, rm, mkdir, ln, kill *)

Fixpoint echo_args (args : list (list Z)) : uprog unit :=
  match args with
  | [] => Quit 0
  | a :: args' =>
      sys (SWrite 1 a) ;;
      sys (SWrite 1 (match args' with [] => [NL] | _ => [32] end)) ;;
      echo_args args'
  end.
Definition echo_main (args : list (list Z)) : uprog unit := echo_args args.

(** The loop of rm and mkdir: a call for each argument, up to the first that
    fails. *)
Fixpoint each_arg (c : list Z -> call) (msg : list Z) (args : list (list Z)) : uprog unit :=
  match args with
  | [] => Quit 0
  | a :: args' =>
      let! r := sys (c a) in
      if r <? 0 then fprintf 2 msg [VStr (Some a)] ;; Quit 0 else each_arg c msg args'
  end.
Definition rm_main (args : list (list Z)) : uprog unit :=
  match args with
  | [] => fprintf 2 (chars "Usage: rm files..." ++ [NL]) [] ;; Quit 1
  | _ => each_arg SUnlink (chars "rm: %s failed to delete" ++ [NL]) args
  end.
Definition mkdir_main (args : list (list Z)) : uprog unit :=
  match args with
  | [] => fprintf 2 (chars "Usage: mkdir files..." ++ [NL]) [] ;; Quit 1
  | _ => each_arg SMkdir (chars "mkdir: %s failed to create" ++ [NL]) args
  end.
Definition ln_main (args : list (list Z)) : uprog unit :=
  match args with
  | [old; new] =>
      let! r := sys (SLink old new) in
      (if r <? 0 then fprintf 2 (chars "link %s %s: failed" ++ [NL]) [VStr (Some old); VStr (Some new)] else Done tt) ;;
      Quit 0
  | _ => fprintf 2 (chars "Usage: ln old new" ++ [NL]) [] ;; Quit 1
  end.
Fixpoint kill_args (args : list (list Z)) : uprog unit :=
  match args with [] => Quit 0 | a :: args' => sys (SKill (atoi a)) ;; kill_args args' end.
Definition kill_main (args : list (list Z)) : uprog unit :=
  match args with
  | [] => fprintf 2 (chars "usage: kill pid..." ++ [NL]) [] ;; Quit 1
  | _ => kill_args args
  end.

(** ** init, zombie, stressfs *)

(** The inner loop: wait until the shell [pid] has exited. *)
Fixpoint init_wait (pid : Z) (next : uprog unit) (fuel : nat) : uprog unit :=
  match fuel with
  | O => Stuck
  | S fuel' =>
      let! wpid := sys SWait in
      if wpid =? pid then next
      else if wpid <? 0 then fprintf 1 (chars "init: wait returned an error" ++ [NL]) [] ;; Quit 1
      else init_wait pid next fuel'
  end.
(** One turn of the outer loop, before the turns [next]. *)
Definition init_turn (fuel : nat) (next : uprog unit) : uprog unit :=
  fprintf 1 (chars "init: starting sh" ++ [NL]) [] ;;
  let! pid := sys SFork in
  if pid <? 0 then fprintf 1 (chars "init: fork failed" ++ [NL]) [] ;; Quit 1
  else if pid =? 0 then
    sys (SExec (chars "sh") [chars "sh"]) ;;
    fprintf 1 (chars "init: exec sh failed" ++ [NL]) [] ;;
    Quit 1
  else init_wait pid next fuel.
(** [main], for the first [turns] shells. *)
Definition init_main (turns fuel : nat) : uprog unit :=
  let! r := sys (SOpen (chars "console") O_RDWR) in
  (if r <? 0 then
     sys (SMknod (chars "console") CONSOLE 0) ;;
     sys (SOpen (chars "console") O_RDWR) ;;
     Done tt
   else Done tt) ;;
  sys (SDup 0) ;;
  sys (SDup 0) ;;
  Nat.iter turns (init_turn fuel) Stuck.

Definition zombie_main : uprog unit :=
  let! r := sys SFork in
  (if 0 <? r then sys (SSleep 5) ;; Done tt else Done tt) ;;
  Quit 0.

(** The number of the process: how many forks returned 0. *)
Fixpoint stress_fork (i : Z) (left : nat) : uprog Z :=
  match left with
  | O => Done i
  | S left' =>
      let! r := sys SFork in
      if 0 <? r then Done i else stress_fork (i + 1) left'
  end.
Fixpoint repeat_call (n : nat) (c : call) : uprog unit :=
  match n with O => Done tt | S n' => sys c ;; repeat_call n' c end.
Definition stressfs_main : uprog unit :=
  fprintf 1 (chars "stressfs starting" ++ [NL]) [] ;;
  let data := repeat 97 512 in
  let! i := stress_fork 0 4 in
  fprintf 1 (chars "write %d" ++ [NL]) [VWord i] ;;
  let path := chars "stressfs" ++ [48 + i] in
  let! fd := sys (SOpen path (Z.lor O_CREATE O_RDWR)) in
  repeat_call 20 (SWrite fd data) ;;
  sys (SClose fd) ;;
  fprintf 1 (chars "read" ++ [NL]) [] ;;
  let! fd := sys (SOpen path O_RDONLY) in
  repeat_call 20 (SRead fd 512) ;;
  sys (SClose fd) ;;
  sys SWait ;;
  Quit 0.

(** ** What the programs do *)

(** Files and the bytes of their struct stat by name; for open descriptors the
    name and what is left to read; what was written to each descriptor; and the
    calls that change directories or processes, with the results they have.
    [whole] says that read returns as many bytes as it can. *)
Record os := OS {
  files : list Z -> option (list Z);
  stat_of : list Z -> list Z;
  whole : bool;
  opened : Z -> option (list Z * list Z);
  written : Z -> list Z;
  done_calls : list call;
  result : call -> Z;
}.
Definition set_opened (fd : Z) (x : option (list Z * list Z)) (s : os) : os :=
  OS (files s) (stat_of s) (whole s) (upd (opened s) fd x) (written s) (done_calls s) (result s).
Definition add_written (fd : Z) (bs : list Z) (s : os) : os :=
  OS (files s) (stat_of s) (whole s) (opened s) (upd (written s) fd (written s fd ++ bs)) (done_calls s) (result s).
Definition add_call (c : call) (s : os) : os :=
  OS (files s) (stat_of s) (whole s) (opened s) (written s) (done_calls s ++ [c]) (result s).

(** The replies to a call.  open takes any free descriptor; read returns some
    of the bytes that are left, at least one if there are any. *)
Inductive answer : call -> os -> reply -> os -> Prop :=
| answer_open path bs fd s : files s path = Some bs -> 0 <= fd -> opened s fd = None ->
    answer (SOpen path O_RDONLY) s (fd, []) (set_opened fd (Some (path, bs)) s)
| answer_open_none path s : files s path = None -> answer (SOpen path O_RDONLY) s (-1, []) s
| answer_read fd n m path bs s : opened s fd = Some (path, bs) -> (m <= length bs)%nat -> Z.of_nat m <= n ->
    (m = 0%nat -> bs = []) -> (whole s = true -> m = Nat.min (length bs) (Z.to_nat n)) ->
    answer (SRead fd n) s (Z.of_nat m, take m bs) (set_opened fd (Some (path, drop m bs)) s)
| answer_fstat fd path bs s : opened s fd = Some (path, bs) -> answer (SFstat fd) s (0, stat_of s path) s
| answer_write fd bs s : answer (SWrite fd bs) s (Z.of_nat (length bs), []) (add_written fd bs s)
| answer_close fd s : answer (SClose fd) s (0, []) (set_opened fd None s)
| answer_other c s : match c with SKill _ | SLink _ _ | SMkdir _ | SUnlink _ => True | _ => False end ->
    answer c s (result s c, []) (add_call c s).

(** Whatever the replies, the program comes to an end, with [Q]. *)
Fixpoint must {A} (p : uprog A) (Q : A + Z -> os -> Prop) (s : os) : Prop :=
  match p with
  | Done a => Q (inl a) s
  | Quit status => Q (inr status) s
  | Call c k => (exists r s', answer c s r s') /\ forall r s', answer c s r s' -> must (k r) Q s'
  | Stuck => False
  end.

Lemma must_bind {A B} (m : uprog A) (k : A -> uprog B) Q s :
  must m (fun r s => match r with inl a => must (k a) Q s | inr status => Q (inr status) s end) s -> must (ubind m k) Q s.
Proof.
  revert s. induction m as [a|status|c f IH|]; intros s H; simpl in *; try done.
  destruct H as [H1 H2]. split; [done|]. intros r s' Ha. apply IH. by apply H2.
Qed.
Lemma must_mono {A} (p : uprog A) (P Q : A + Z -> os -> Prop) s : must p P s -> (forall r s, P r s -> Q r s) -> must p Q s.
Proof.
  intros H HPQ. revert s H. induction p as [a|status|c f IH|]; intros s H; simpl in *; [by apply HPQ|by apply HPQ| |done].
  destruct H as [H1 H2]. split; [done|]. intros r s' Ha. by apply IH, H2.
Qed.

Ltac must_call := unfold sys, sysread; cbn [must]; split.

Lemma must_write fd bs (Q : Z + Z -> os -> Prop) s :
  Q (inl (Z.of_nat (length bs))) (add_written fd bs s) -> must (sys (SWrite fd bs)) Q s.
Proof.
  intros HQ. must_call; [do 2 eexists; constructor|]. intros r s' Ha. inversion Ha; subst; [done|]. done.
Qed.
Lemma must_close fd (Q : Z + Z -> os -> Prop) s : Q (inl 0) (set_opened fd None s) -> must (sys (SClose fd)) Q s.
Proof. intros HQ. must_call; [do 2 eexists; constructor|]. intros r s' Ha. by inversion Ha; subst. Qed.
Lemma must_open path bs (Q : Z + Z -> os -> Prop) s : files s path = Some bs -> (exists fd, 0 <= fd /\ opened s fd = None) ->
  (forall fd, 0 <= fd -> opened s fd = None -> Q (inl fd) (set_opened fd (Some (path, bs)) s)) ->
  must (sys (SOpen path O_RDONLY)) Q s.
Proof.
  intros Hf (fd & H0 & Hn) HQ. must_call; [do 2 eexists; by eapply answer_open|]. intros r s' Ha. inversion Ha; subst; simpl in *.
  - simplify_eq. by apply HQ.
  - congruence.
  - done.
Qed.
Lemma must_open_none path (Q : Z + Z -> os -> Prop) s : files s path = None -> Q (inl (-1)) s ->
  must (sys (SOpen path O_RDONLY)) Q s.
Proof.
  intros Hf HQ. must_call; [do 2 eexists; by eapply answer_open_none|]. intros r s' Ha. inversion Ha; subst; simpl in *; [congruence|done|done].
Qed.
Lemma must_read fd n path bs (Q : reply + Z -> os -> Prop) s : opened s fd = Some (path, bs) -> 0 < n ->
  (forall bs1 bs2, bs = bs1 ++ bs2 -> Z.of_nat (length bs1) <= n -> (bs1 = [] -> bs2 = []) ->
    (whole s = true -> length bs1 = Nat.min (length bs) (Z.to_nat n)) ->
    Q (inl (Z.of_nat (length bs1), bs1)) (set_opened fd (Some (path, bs2)) s)) ->
  must (sysread fd n) Q s.
Proof.
  intros Ho Hn HQ. must_call.
  - do 2 eexists. apply (answer_read fd n (Nat.min (length bs) (Z.to_nat n)) path bs); [done|lia|lia| |done].
    destruct bs as [|b bs]; [done|]. cbn [length]. lia.
  - intros r s' Ha. inversion Ha; subst; simpl in *; [|done]. simplify_eq.
    replace (Z.of_nat m) with (Z.of_nat (length (take m bs))) by (rewrite length_take; lia).
    apply HQ; [by rewrite take_drop|rewrite length_take; lia| |].
    + intros Et. destruct m as [|m]; [|by destruct bs].
      match goal with H : 0%nat = 0%nat -> _ |- _ => rewrite (H eq_refl) end. done.
    + intros Hw. rewrite length_take. match goal with H : whole s = true -> _ |- _ => rewrite (H Hw) end. lia.
Qed.
Lemma must_fstat fd path bs (Q : reply + Z -> os -> Prop) s : opened s fd = Some (path, bs) ->
  Q (inl (0, stat_of s path)) s -> must (Call (SFstat fd) Done) Q s.
Proof.
  intros Ho HQ. must_call; [do 2 eexists; by eapply answer_fstat|]. intros r s' Ha. inversion Ha; subst; [|done]. by simplify_eq.
Qed.
Lemma must_other c (Q : Z + Z -> os -> Prop) s : match c with SKill _ | SLink _ _ | SMkdir _ | SUnlink _ => True | _ => False end ->
  Q (inl (result s c)) (add_call c s) -> must (sys c) Q s.
Proof.
  intros Hc HQ. must_call; [do 2 eexists; by apply answer_other|]. intros r s' Ha. inversion Ha; subst; done.
Qed.

Lemma add_written_nil fd s : add_written fd [] s = s.
Proof.
  destruct s as [f st wh o w d r]. unfold add_written. simpl. rewrite app_nil_r. f_equal. apply functional_extensionality. intros x.
  by upd_cases x fd.
Qed.
Lemma add_written_app fd bs bs' s : add_written fd bs' (add_written fd bs s) = add_written fd (bs ++ bs') s.
Proof.
  unfold add_written. simpl. f_equal. apply functional_extensionality. intros x. by upd_cases x fd; rewrite ?app_assoc.
Qed.

Lemma must_putbytes fd bs (Q : unit + Z -> os -> Prop) s : Q (inl tt) (add_written fd bs s) -> must (putbytes fd bs) Q s.
Proof.
  revert s. induction bs as [|c bs IH]; intros s HQ; cbn [putbytes]; [by rewrite add_written_nil in HQ|].
  apply must_bind, must_write. apply IH. by rewrite add_written_app.
Qed.
Lemma must_fprintf fd fmt ap bs (Q : unit + Z -> os -> Prop) s : vprintf fmt ap = Some bs -> Q (inl tt) (add_written fd bs s) ->
  must (fprintf fd fmt ap) Q s.
Proof. intros E HQ. unfold fprintf. rewrite E. by apply must_putbytes. Qed.

Lemma set_opened_again fd x y s : set_opened fd y (set_opened fd x s) = set_opened fd y s.
Proof. unfold set_opened. simpl. f_equal. apply functional_extensionality. intros z. by upd_cases z fd. Qed.
Lemma set_opened_same fd x s : opened s fd = x -> set_opened fd x s = s.
Proof. intros <-. destruct s. unfold set_opened. simpl. f_equal. apply functional_extensionality. intros z. by upd_cases z fd. Qed.
Lemma written_opened fd bs fd' x s : add_written fd bs (set_opened fd' x s) = set_opened fd' x (add_written fd bs s).
Proof. done. Qed.

(** *** cat *)

Lemma cat_spec fd path bs fuel (Q : unit + Z -> os -> Prop) s : opened s fd = Some (path, bs) -> (length bs < fuel)%nat ->
  Q (inl tt) (set_opened fd (Some (path, [])) (add_written 1 bs s)) -> must (cat fd fuel) Q s.
Proof.
  revert bs s. induction fuel as [|fuel IH]; intros bs s Ho Hf HQ; [lia|]. cbn [cat]. apply must_bind.
  apply (must_read fd 512 path bs); [done|done|]. intros bs1 bs2 -> Hn Hz _. cbn [fst snd].
  destruct (Z.ltb_spec 0 (Z.of_nat (length bs1))) as [Hp|Hp].
  - apply must_bind, must_write. rewrite Z.eqb_refl. cbn [negb]. rewrite length_app in Hf. apply (IH bs2).
    + simpl. apply upd_same.
    + lia.
    + by rewrite add_written_app, written_opened, set_opened_again.
  - destruct bs1 as [|c bs1]; [|simpl in Hp; lia]. rewrite (Hz eq_refl) in *. cbn [length Z.of_nat Z.ltb Z.compare].
    by rewrite add_written_nil in HQ.
Qed.

(** There is always a descriptor left to open one more file. *)
Definition can_open (s : os) : Prop := exists fd, 0 <= fd /\ opened s fd = None.

(** The contents of the files up to the first that does not exist, and its
    name. *)
Fixpoint contents (s : os) (args : list (list Z)) : list (list Z * list Z) * option (list Z) :=
  match args with
  | [] => ([], None)
  | a :: args' =>
      match files s a with
      | None => ([], Some a)
      | Some bs => let (l, miss) := contents s args' in ((a, bs) :: l, miss)
      end
  end.
Lemma contents_written fd bs s args : contents (add_written fd bs s) args = contents s args.
Proof. induction args as [|a args IH]; [done|]. simpl. by rewrite IH. Qed.

(** A program that opens its arguments one after the other, applies [body] to
    each, which writes [out] for it, and stops with a message at the first
    that it cannot open. *)
Section each_file.
Context (body : list Z -> Z -> uprog unit) (errfd : Z) (fmt : list Z) (msg : list Z -> list Z) (out : list Z -> list Z -> list Z).
Context (loop : list (list Z) -> uprog unit).
Context (Hnil : loop [] = Quit 0).
Context (Hcons : forall a args, loop (a :: args) =
  let! fd := sys (SOpen a O_RDONLY) in
  if fd <? 0 then fprintf errfd fmt [VStr (Some a)] ;; Quit 1
  else body a fd ;; sys (SClose fd) ;; loop args).
Context (Hmsg : forall a, vprintf fmt [VStr (Some a)] = Some (msg a)).

Lemma each_file_spec args s (Hopen : can_open s) :
  (forall a bs, a ∈ args -> files s a = Some bs -> forall fd s' (Q : unit + Z -> os -> Prop), opened s' fd = Some (a, bs) ->
    Q (inl tt) (set_opened fd (Some (a, [])) (add_written 1 (out a bs) s')) -> must (body a fd) Q s') ->
  must (loop args) (fun r s' =>
    let text := concat (map (fun x => out x.1 x.2) (fst (contents s args))) in
    match snd (contents s args) with
    | None => r = inr 0 /\ s' = add_written 1 text s
    | Some a => r = inr 1 /\ s' = add_written errfd (msg a) (add_written 1 text s)
    end) s.
Proof using Hnil Hcons Hmsg.
  revert s Hopen. induction args as [|a args IH]; intros s Hopen Hb.
  - rewrite Hnil. simpl. by rewrite add_written_nil.
  - rewrite Hcons. apply must_bind. cbn [contents]. destruct (files s a) as [bs|] eqn:Ea.
    + apply (must_open a bs); [done|done|]. intros fd H0 Hfd. rewrite (proj2 (Z.ltb_ge _ _)) by lia. apply must_bind.
      apply (Hb a bs); [by left|done|simpl; apply upd_same|]. apply must_bind, must_close.
      rewrite written_opened, !set_opened_again, set_opened_same by done.
      eapply must_mono; [apply IH|].
      * destruct Hopen as (fd' & ? & ?). by exists fd'.
      * intros a' bs' Ha'. apply Hb. by right.
      * rewrite contents_written. destruct (contents s args) as [l miss]. cbn [fst snd map concat].
        intros r s' H. rewrite add_written_app in H. done.
    + apply must_open_none; [done|]. cbn [Z.ltb Z.compare]. apply must_bind.
      apply (must_fprintf _ _ _ (msg a)); [apply Hmsg|]. simpl. by rewrite add_written_nil.
Qed.
End each_file.

(** cat writes the contents of its arguments, in their order; at the first
    that does not exist it stops with a message on the standard error output
    and status 1. *)
Theorem cat_correct (args : list (list Z)) (fuel : nat) (s : os) : args <> [] -> can_open s ->
  (forall a bs, a ∈ args -> files s a = Some bs -> (length bs < fuel)%nat) ->
  must (cat_main args fuel) (fun r s' =>
    let text := concat (map snd (fst (contents s args))) in
    match snd (contents s args) with
    | None => r = inr 0 /\ s' = add_written 1 text s
    | Some a => r = inr 1 /\ s' = add_written 2 (chars "cat: cannot open " ++ a ++ [NL]) (add_written 1 text s)
    end) s.
Proof.
  intros Hne Hopen Hf. unfold cat_main. destruct args as [|a args]; [done|].
  apply (each_file_spec (fun _ fd => cat fd fuel) 2 (chars "cat: cannot open %s" ++ [NL])
    (fun a => chars "cat: cannot open " ++ a ++ [NL]) (fun _ bs => bs) (fun l => cat_args l fuel)); try done.
  intros a' bs Ha Hbs fd s' Q Ho HQ. apply (cat_spec fd a' bs); [done|by apply (Hf a')|done].
Qed.

(** *** wc *)

Definition space (b : Z) : bool := existsb (Z.eqb b) SPACES.
(** The words of a text, after the characters [w] of a word. *)
Fixpoint split_words (w bs : list Z) : list (list Z) :=
  match bs with
  | [] => [w]
  | b :: bs' => if space b then w :: split_words [] bs' else split_words (w ++ [b]) bs'
  end.
Definition words (bs : list Z) : list (list Z) := List.filter (fun w => negb (length w =? 0)%nat) (split_words [] bs).
Definition newlines (bs : list Z) : nat := length (List.filter (Z.eqb NL) bs).

Definition nonempty (w : list Z) : Z := if (length w =? 0)%nat then 0 else 1.
Lemma words_cons w l : Z.of_nat (length (List.filter (fun w => negb (length w =? 0)%nat) (w :: l))) =
  nonempty w + Z.of_nat (length (List.filter (fun w => negb (length w =? 0)%nat) l)).
Proof. unfold nonempty. simpl. destruct (length w =? 0)%nat; simpl; lia. Qed.

Lemma nonempty_range w : 0 <= nonempty w <= 1.
Proof. unfold nonempty. destruct (length w =? 0)%nat; lia. Qed.

(** The counters after a text: [w] is the part of a word before it. *)
Lemma wc_bytes bs w l n c : 0 <= l -> 0 <= n -> 0 <= c -> l + Z.of_nat (length bs) < 2 ^ 31 -> n + Z.of_nat (length bs) < 2 ^ 31 ->
  c + Z.of_nat (length bs) < 2 ^ 31 ->
  exists last : list Z, foldl wc_byte (Counts l n c (negb (length w =? 0)%nat)) bs =
    Counts (l + Z.of_nat (newlines bs))
      (n - nonempty w + Z.of_nat (length (List.filter (fun w => negb (length w =? 0)%nat) (split_words w bs))))
      (c + Z.of_nat (length bs)) (negb (length last =? 0)%nat).
Proof.
  revert w l n c. induction bs as [|b bs IH]; intros w l n c Hl Hn Hc Hl' Hn' Hc'.
  - exists w. cbn [foldl split_words]. rewrite words_cons. unfold newlines. simpl. f_equal; lia.
  - cbn [foldl split_words length] in *. set (l1 := if b =? NL then l + 1 else l).
    assert (Hl1 : l <= l1 <= l + 1) by (unfold l1; destruct (b =? NL); lia).
    assert (El : l1 + Z.of_nat (newlines bs) = l + Z.of_nat (newlines (b :: bs))).
    { unfold newlines, l1. cbn [List.filter]. rewrite (Z.eqb_sym NL b). destruct (b =? NL); simpl; lia. }
    assert (Ew : wc_byte (Counts l n c (negb (length w =? 0)%nat)) b =
      Counts l1 (if space b then n else n + 1 - nonempty w) (c + 1) (negb (length (if space b then [] else w ++ [b]) =? 0)%nat)).
    { unfold wc_byte. cbn [cl cw cc inword]. fold (space b). rewrite (i32_id (c + 1)) by lia.
      replace (if b =? NL then i32 (l + 1) else l) with l1 by (unfold l1; rewrite i32_id by lia; done).
      destruct (space b); [done|]. unfold nonempty. rewrite length_app, i32_id by lia.
      replace (length w + length [b] =? 0)%nat with false by (symmetry; apply Nat.eqb_neq; simpl; lia).
      destruct (length w =? 0)%nat; cbn [negb]; f_equal; lia. }
    rewrite Ew. pose proof (nonempty_range w). destruct (space b) eqn:Es.
    + destruct (IH [] l1 n (c + 1)) as (last & E); try lia. exists last. rewrite words_cons. etransitivity; [exact E|].
      change (nonempty []) with 0. f_equal; lia.
    + destruct (IH (w ++ [b]) l1 (n + 1 - nonempty w) (c + 1)) as (last & E); try lia. exists last. etransitivity; [exact E|].
      assert (Hne : nonempty (w ++ [b]) = 1) by (unfold nonempty; by rewrite (proj2 (Nat.eqb_neq _ _)) by (rewrite length_app; simpl; lia)). rewrite Hne. f_equal; lia.
Qed.

Lemma wc_counts bs : Z.of_nat (length bs) < 2 ^ 31 -> exists b, foldl wc_byte (Counts 0 0 0 false) bs =
  Counts (Z.of_nat (newlines bs)) (Z.of_nat (length (words bs))) (Z.of_nat (length bs)) b.
Proof.
  intros Hb. destruct (wc_bytes bs [] 0 0 0) as (last & E); try lia. eexists. etransitivity; [exact E|]. f_equal.
Qed.

Lemma wc_loop_spec fd path bs x fuel (Q : counts + Z -> os -> Prop) s : opened s fd = Some (path, bs) -> (length bs < fuel)%nat ->
  Q (inl (foldl wc_byte x bs)) (set_opened fd (Some (path, [])) s) -> must (wc_loop fd x fuel) Q s.
Proof.
  revert bs x s. induction fuel as [|fuel IH]; intros bs x s Ho Hf HQ; [lia|]. cbn [wc_loop]. apply must_bind.
  apply (must_read fd 512 path bs); [done|done|]. intros bs1 bs2 -> Hn Hz _. cbn [fst snd].
  destruct (Z.ltb_spec 0 (Z.of_nat (length bs1))) as [Hp|Hp].
  - rewrite length_app in Hf. rewrite foldl_app in HQ. apply (IH bs2); [simpl; apply upd_same|lia|]. by rewrite set_opened_again.
  - destruct bs1 as [|c bs1]; [|simpl in Hp; lia]. by rewrite (Hz eq_refl) in *.
Qed.

(** The numeral of a number. *)
Definition numeral (x : Z) : list Z := default [] (UPrintf.printint x 10 true).
Lemma numeral_spec x : 0 <= x < 2 ^ 31 -> UPrintf.printint x 10 true = Some (numeral x) /\ atoi (numeral x) = x.
Proof.
  intros Hx. destruct (printint_atoi x [] ltac:(lia) ltac:(done)) as (t & E & Ha & _). unfold numeral. rewrite E. cbn [default].
  split; [done|]. rewrite app_nil_r in Ha. apply Ha. lia.
Qed.

Definition wc_line (name bs : list Z) : list Z :=
  numeral (Z.of_nat (newlines bs)) ++ [32] ++ numeral (Z.of_nat (length (words bs))) ++ [32] ++
  numeral (Z.of_nat (length bs)) ++ [32] ++ name ++ [NL].

Lemma wc_printf l w c name : 0 <= l < 2 ^ 31 -> 0 <= w < 2 ^ 31 -> 0 <= c < 2 ^ 31 ->
  vprintf (chars "%d %d %d %s" ++ [NL]) [VWord l; VWord w; VWord c; VStr (Some name)] =
  Some (numeral l ++ [32] ++ numeral w ++ [32] ++ numeral c ++ [32] ++ name ++ [NL]).
Proof.
  intros Hl Hw Hc. unfold vprintf.
  etransitivity; [apply (format_pieces UPrintf.print_arg UPrintf.printptr
    [Num false Dec l; Lit 32; Num false Dec w; Lit 32; Num false Dec c; Lit 32; Str (Some name); Lit NL] 13)|].
  { repeat (constructor; try done). }
  { simpl. lia. }
  cbn [show_all show radix_base radix_sign]. unfold UPrintf.print_arg.
  rewrite !i32_id by lia. rewrite (proj1 (numeral_spec l Hl)), (proj1 (numeral_spec w Hw)), (proj1 (numeral_spec c Hc)).
  by rewrite app_nil_r.
Qed.

Lemma words_length bs : (length (words bs) <= length bs)%nat.
Proof.
  enough (H : forall w, Z.of_nat (length (List.filter (fun w => negb (length w =? 0)%nat) (split_words w bs))) <= nonempty w + Z.of_nat (length bs)).
  { specialize (H []). change (nonempty []) with 0 in H. unfold words. lia. }
  induction bs as [|b bs IH]; intros w; cbn [split_words length].
  - rewrite words_cons. simpl. lia.
  - destruct (space b); [rewrite words_cons; specialize (IH []); change (nonempty []) with 0 in IH; lia|].
    specialize (IH (w ++ [b])). pose proof (nonempty_range (w ++ [b])). pose proof (nonempty_range w). lia.
Qed.

Lemma newlines_length bs : (newlines bs <= length bs)%nat.
Proof. apply List.filter_length_le. Qed.

Lemma wc_spec fd path name bs fuel (Q : unit + Z -> os -> Prop) s : opened s fd = Some (path, bs) -> (length bs < fuel)%nat ->
  Z.of_nat (length bs) < 2 ^ 31 -> Q (inl tt) (set_opened fd (Some (path, [])) (add_written 1 (wc_line name bs) s)) -> must (wc fd name fuel) Q s.
Proof.
  intros Ho Hf Hb HQ. unfold wc. apply must_bind, (wc_loop_spec fd path bs); [done|done|].
  destruct (wc_counts bs Hb) as (b & ->). cbn [cl cw cc]. pose proof (words_length bs). pose proof (newlines_length bs).
  eapply must_fprintf; [apply wc_printf; lia|]. by rewrite written_opened.
Qed.

(** wc prints for each argument the numbers of its newlines, words and bytes
    and its name, and stops like cat at one that does not exist, with the
    message on the standard output. *)
Theorem wc_correct (args : list (list Z)) (fuel : nat) (s : os) : args <> [] -> can_open s ->
  (forall a bs, a ∈ args -> files s a = Some bs -> (length bs < fuel)%nat /\ Z.of_nat (length bs) < 2 ^ 31) ->
  must (wc_main args fuel) (fun r s' =>
    let text := concat (map (fun x => wc_line x.1 x.2) (fst (contents s args))) in
    match snd (contents s args) with
    | None => r = inr 0 /\ s' = add_written 1 text s
    | Some a => r = inr 1 /\ s' = add_written 1 (chars "wc: cannot open " ++ a ++ [NL]) (add_written 1 text s)
    end) s.
Proof.
  intros Hne Hopen Hf. unfold wc_main. destruct args as [|a args]; [done|].
  apply (each_file_spec (fun a fd => wc fd a fuel) 1 (chars "wc: cannot open %s" ++ [NL])
    (fun a => chars "wc: cannot open " ++ a ++ [NL]) wc_line (fun l => wc_args l fuel)); try done.
  intros a' bs Ha Hbs fd s' Q Ho HQ. destruct (Hf a' bs Ha Hbs). by apply (wc_spec fd a' a' bs).
Qed.

(** *** grep *)

Lemma must_writes lines (k : uprog unit) (Q : unit + Z -> os -> Prop) s :
  must k Q (add_written 1 (concat lines) s) -> must (foldr (fun line k => sys (SWrite 1 line) ;; k) k lines) Q s.
Proof.
  revert s. induction lines as [|l lines IH]; intros s HQ; cbn [foldr concat] in *; [by rewrite add_written_nil in HQ|].
  apply must_bind, must_write. apply IH. by rewrite add_written_app.
Qed.

(** The lines and the rest fit the buffer. *)
Definition short_lines (bs : list Z) : Prop :=
  Forall (fun l => (length l <= 1022)%nat) (lines bs) /\ (length (snd (split_lines bs)) <= 1022)%nat.

Lemma short_tail buf bs : short_lines (buf ++ bs) -> short_lines (snd (split_lines buf) ++ bs).
Proof.
  unfold short_lines, lines. rewrite (split_lines_app buf bs). cbn [fst snd]. intros [H1 H2]. by apply Forall_app in H1 as [_ H1].
Qed.

Lemma short_buffer buf bs : short_lines (buf ++ bs) -> split_lines buf = ([], buf) -> (length buf <= 1022)%nat.
Proof.
  intros [H1 H2] Hb. destruct (lines (buf ++ bs)) as [|l ls] eqn:El.
  - assert (Es : split_lines (buf ++ bs) = ([], snd (split_lines (buf ++ bs)))).
    { unfold lines in El. by destruct (split_lines (buf ++ bs)) as [ls tl]; simpl in El; subst. }
    apply no_lines in Es. rewrite Es, length_app in H2. lia.
  - destruct (first_line buf bs l ls Hb El) as (l' & ->). apply Forall_cons in H1 as [H1 _]. rewrite length_app in H1. lia.
Qed.

Lemma grep_fd_spec pattern fd path buf bs fuel (Q : unit + Z -> os -> Prop) s : opened s fd = Some (path, bs) -> (length bs < fuel)%nat ->
  split_lines buf = ([], buf) -> Forall (fun t => t <> 0) (buf ++ bs) -> short_lines (buf ++ bs) ->
  Q (inl tt) (set_opened fd (Some (path, [])) (add_written 1 (concat (matching pattern (lines (buf ++ bs)))) s)) ->
  must (grep_fd pattern fd buf fuel) Q s.
Proof.
  revert buf bs s. induction fuel as [|fuel IH]; intros buf bs s Ho Hf Hb Hz Hs HQ; [lia|]. cbn [grep_fd]. apply must_bind.
  pose proof (short_buffer buf bs Hs Hb) as Hl.
  apply (must_read fd _ path bs); [done|unfold BUFSIZE; lia|]. intros bs1 bs2 -> Hn Hnil _. cbn [fst snd].
  destruct (Z.ltb_spec 0 (Z.of_nat (length bs1))) as [Hp|Hp].
  - rewrite app_assoc in Hz, Hs, HQ. set (buf1 := buf ++ bs1) in *.
    assert (Hz1 : Forall (fun t => t <> 0) buf1) by (by apply Forall_app in Hz as [? _]).
    rewrite scan_lines_spec by done. apply must_writes. rewrite length_app in Hf. destruct (tail_suffix buf1) as (q & Eq).
    apply (IH _ bs2).
    + simpl. apply upd_same.
    + lia.
    + apply tail_lines.
    + rewrite Eq, <-app_assoc in Hz. by apply Forall_app in Hz as [_ ?].
    + by apply short_tail.
    + rewrite add_written_app, written_opened, set_opened_again. unfold matching, lines in *.
      rewrite split_lines_app in HQ. cbn [fst] in HQ. by rewrite List.filter_app, map_app, concat_app in HQ.
  - destruct bs1 as [|c bs1]; [|simpl in Hp; lia]. rewrite (Hnil eq_refl) in *. simpl in HQ. rewrite app_nil_r in HQ.
    unfold lines in HQ. rewrite Hb in HQ. simpl in HQ. by rewrite add_written_nil in HQ.
Qed.

(** grep prints the lines of its files that the pattern matches. *)
Theorem grep_main_correct (pattern : list Z) (args : list (list Z)) (fuel : nat) (s : os) : args <> [] -> can_open s ->
  (forall a bs, a ∈ args -> files s a = Some bs ->
    (length bs < fuel)%nat /\ Forall (fun t => t <> 0) bs /\ short_lines bs) ->
  must (grep_main (pattern :: args) fuel) (fun r s' =>
    let text := concat (map (fun x => concat (matching pattern (lines x.2))) (fst (contents s args))) in
    match snd (contents s args) with
    | None => r = inr 0 /\ s' = add_written 1 text s
    | Some a => r = inr 1 /\ s' = add_written 1 (chars "grep: cannot open " ++ a ++ [NL]) (add_written 1 text s)
    end) s.
Proof.
  intros Hne Hopen Hf. unfold grep_main. destruct args as [|a args]; [done|].
  apply (each_file_spec (fun _ fd => grep_fd pattern fd [] fuel) 1 (chars "grep: cannot open %s" ++ [NL])
    (fun a => chars "grep: cannot open " ++ a ++ [NL]) (fun _ bs => concat (matching pattern (lines bs)))
    (fun l => grep_args pattern l fuel)); try done.
  intros a' bs Ha Hbs fd s' Q Ho HQ. destruct (Hf a' bs Ha Hbs) as (H1 & H2 & H3). by apply (grep_fd_spec pattern fd a' [] bs).
Qed.

(** *** rm, mkdir, ln, kill, echo *)

(** The arguments up to the first whose call fails. *)
Fixpoint until_failure (c : list Z -> call) (s : os) (args : list (list Z)) : list (list Z) * option (list Z) :=
  match args with
  | [] => ([], None)
  | a :: args' =>
      if result s (c a) <? 0 then ([a], Some a)
      else let (l, bad) := until_failure c s args' in (a :: l, bad)
  end.
Definition add_calls (cs : list call) (s : os) : os :=
  OS (files s) (stat_of s) (whole s) (opened s) (written s) (done_calls s ++ cs) (result s).

Lemma add_calls_cons c cs s : add_calls cs (add_call c s) = add_calls (c :: cs) s.
Proof. unfold add_calls. simpl. by rewrite <-app_assoc. Qed.

Lemma until_failure_call c s a args : until_failure c (add_call a s) args = until_failure c s args.
Proof. induction args as [|x args IH]; [done|]. simpl. by rewrite IH. Qed.

Lemma each_arg_spec (c : list Z -> call) fmt msg args s : (forall a, match c a with SKill _ | SLink _ _ | SMkdir _ | SUnlink _ => True | _ => False end) ->
  (forall a, vprintf fmt [VStr (Some a)] = Some (msg a)) ->
  must (each_arg c fmt args) (fun r s' => r = inr 0 /\
    s' = add_written 2 (match snd (until_failure c s args) with Some a => msg a | None => [] end)
           (add_calls (map c (fst (until_failure c s args))) s)) s.
Proof.
  intros Hc Hm. revert s. induction args as [|a args IH]; intros s; cbn [each_arg until_failure].
  - simpl. rewrite add_written_nil. split; [done|]. destruct s. unfold add_calls. simpl. by rewrite app_nil_r.
  - apply must_bind, must_other; [apply Hc|]. destruct (result s (c a) <? 0) eqn:E.
    + apply must_bind, (must_fprintf _ _ _ (msg a)); [apply Hm|]. simpl. done.
    + eapply must_mono; [apply IH|]. intros r s' [-> ->]. split; [done|]. rewrite until_failure_call, add_calls_cons.
      by destruct (until_failure c s args) as [l bad].
Qed.

(** rm unlinks its arguments in their order, up to the first that it cannot
    unlink, which it reports; its status is always 0. *)
Theorem rm_correct (a : list Z) (args : list (list Z)) (s : os) :
  must (rm_main (a :: args)) (fun r s' => r = inr 0 /\
    s' = add_written 2 (match snd (until_failure SUnlink s (a :: args)) with
                        | Some x => chars "rm: " ++ x ++ chars " failed to delete" ++ [NL] | None => [] end)
           (add_calls (map SUnlink (fst (until_failure SUnlink s (a :: args)))) s)) s.
Proof.
  apply (each_arg_spec SUnlink _ (fun x => chars "rm: " ++ x ++ chars " failed to delete" ++ [NL])); [done|].
  intros x. reflexivity.
Qed.
Theorem mkdir_correct (a : list Z) (args : list (list Z)) (s : os) :
  must (mkdir_main (a :: args)) (fun r s' => r = inr 0 /\
    s' = add_written 2 (match snd (until_failure SMkdir s (a :: args)) with
                        | Some x => chars "mkdir: " ++ x ++ chars " failed to create" ++ [NL] | None => [] end)
           (add_calls (map SMkdir (fst (until_failure SMkdir s (a :: args)))) s)) s.
Proof.
  apply (each_arg_spec SMkdir _ (fun x => chars "mkdir: " ++ x ++ chars " failed to create" ++ [NL])); [done|].
  intros x. reflexivity.
Qed.

Lemma kill_spec args s : must (kill_args args) (fun r s' => r = inr 0 /\ s' = add_calls (map (fun a => SKill (atoi a)) args) s) s.
Proof.
  revert s. induction args as [|a args IH]; intros s; cbn [kill_args].
  - split; [done|]. destruct s. unfold add_calls. simpl. by rewrite app_nil_r.
  - apply must_bind, must_other; [done|]. eapply must_mono; [apply IH|]. intros r s' [-> ->]. split; [done|]. by rewrite add_calls_cons.
Qed.

(** echo writes its arguments separated by blanks, with a newline behind them. *)
Fixpoint joined (args : list (list Z)) : list Z :=
  match args with
  | [] => []
  | [a] => a ++ [NL]
  | a :: args' => a ++ [32] ++ joined args'
  end.
Lemma echo_spec args s : must (echo_main args) (fun r s' => r = inr 0 /\ s' = add_written 1 (joined args) s) s.
Proof.
  unfold echo_main. revert s. induction args as [|a args IH]; intros s; cbn [echo_args].
  - split; [done|]. by rewrite add_written_nil.
  - apply must_bind, must_write, must_bind, must_write. rewrite add_written_app. eapply must_mono; [apply IH|].
    intros r s' [-> ->]. split; [done|]. rewrite add_written_app. destruct args as [|b args]; [simpl; by rewrite app_nil_r|].
    cbn [joined]. by rewrite <-app_assoc.
Qed.

(** *** ls *)

Lemma numeral_int x : - 2 ^ 31 <= x < 2 ^ 31 -> UPrintf.printint x 10 true = Some (numeral x).
Proof.
  intros Hx. destruct (printint_atoi x [] ltac:(lia) ltac:(done)) as (t & E & _). unfold numeral. by rewrite E.
Qed.

Definition ls_text (path st : list Z) : list Z :=
  fmtname path ++ [32] ++ numeral (i32 (get_type st)) ++ [32] ++ numeral (i32 (get_ino st)) ++ [32] ++
  numeral (i32 (i32 (get_size st))) ++ [NL].
Lemma must_ls_line path st (Q : unit + Z -> os -> Prop) s :
  Q (inl tt) (add_written 1 (ls_text path st) s) -> must (ls_line path st) Q s.
Proof.
  intros HQ. unfold ls_line. eapply must_fprintf; [|exact HQ]. unfold vprintf. set (a := get_type st). set (b := get_ino st).
  set (c := i32 (get_size st)). set (t := fmtname path). etransitivity; [apply (format_pieces UPrintf.print_arg UPrintf.printptr
    [Str (Some t); Lit 32; Num false Dec a; Lit 32; Num false Dec b; Lit 32; Num false Dec c; Lit NL] 13)|].
  { repeat (constructor; try done). }
  { simpl. lia. }
  cbn [show_all show radix_base radix_sign]. unfold UPrintf.print_arg, ls_text.
  rewrite !numeral_int by apply i32_range. by rewrite app_nil_r.
Qed.

(** What ls prints for an entry of a directory. *)
Definition ls_entry (s : os) (path de : list Z) : list Z :=
  let buf := path ++ [SLASHC] ++ name_str DIRSIZ (de_name de) in
  if de_inum de =? 0 then []
  else match files s buf with
       | Some _ => ls_text buf (stat_of s buf)
       | None => chars "ls: cannot stat " ++ buf ++ [NL]
       end.

Lemma must_lib_stat path (Q : reply + Z -> os -> Prop) s : can_open s ->
  Q (inl (match files s path with Some _ => (0, stat_of s path) | None => (-1, []) end)) s -> must (lib_stat path) Q s.
Proof.
  intros Ho HQ. unfold lib_stat. apply must_bind. destruct (files s path) as [bs|] eqn:Ef; [|by apply must_open_none].
  apply (must_open path bs); [done|done|]. intros fd H0 Hfd. rewrite (proj2 (Z.ltb_ge _ _)) by lia.
  apply must_bind, (must_fstat fd path bs); [simpl; apply upd_same|]. apply must_bind, must_close.
  rewrite set_opened_again, (set_opened_same fd None s) by done. exact HQ.
Qed.

Lemma ls_entry_written fd bs s path de : ls_entry (add_written fd bs s) path de = ls_entry s path de.
Proof. done. Qed.
Lemma ls_entry_opened fd x s path de : ls_entry (set_opened fd x s) path de = ls_entry s path de.
Proof. done. Qed.

Lemma ls_dir_spec path fd p des fuel (Q : unit + Z -> os -> Prop) s : opened s fd = Some (p, concat des) -> whole s = true ->
  can_open s -> Forall (fun de => length de = 16%nat) des -> (length des < fuel)%nat ->
  Q (inl tt) (set_opened fd (Some (p, [])) (add_written 1 (concat (map (ls_entry s path) des)) s)) ->
  must (ls_dir path fd fuel) Q s.
Proof.
  intros Ho Hw Hc Hd. revert s Ho Hw Hc Q. induction fuel as [|fuel IH] in des, Hd |- *; intros s Ho Hw Hc Q Hf HQ; [lia|]. cbn [ls_dir].
  apply must_bind, (must_read fd _ p (concat des)); [done|done|]. intros bs1 bs2 E _ _ Hfull. specialize (Hfull Hw).
  cbn [fst snd]. destruct des as [|de des].
  - apply (f_equal length) in E. simpl in E, Hfull. rewrite length_app in E. destruct bs1; [|simpl in E; lia].
    destruct bs2; [|simpl in E; lia]. simpl in HQ |- *. by rewrite add_written_nil in HQ.
  - apply Forall_cons in Hd as [Hl Hd]. cbn [concat] in E, Hfull. rewrite length_app, Hl in Hfull.
    change (Z.to_nat DIRENT_SIZE) with 16%nat in Hfull. rewrite Nat.min_r in Hfull by lia. rewrite Hfull. cbn [Z.of_nat Z.eqb].
    apply app_inj_1 in E as [<- <-]; [|lia]. change (Z.of_nat 16 =? DIRENT_SIZE) with true. cbv iota.
    cbn [map concat length] in HQ, Hf. unfold ls_entry at 1 in HQ.
    assert (Hnext : forall out, Q (inl tt) (set_opened fd (Some (p, [])) (add_written 1 (out ++ concat (map (ls_entry s path) des)) s)) ->
      must (ls_dir path fd fuel) Q (add_written 1 out (set_opened fd (Some (p, concat des)) s))).
    { intros out HQ'. apply (IH des Hd).
      - simpl. apply upd_same.
      - done.
      - destruct Hc as (fd' & H0 & Hfd'). exists fd'. split; [done|]. simpl. rewrite upd_other; [done|]. intros ->. congruence.
      - lia.
      - by rewrite add_written_app, written_opened, set_opened_again. }
    destruct (de_inum de =? 0); [rewrite <-(add_written_nil 1 (set_opened _ _ _)); by apply Hnext|].
    set (buf := path ++ [SLASHC] ++ name_str DIRSIZ (de_name de)) in *. apply must_bind, must_lib_stat.
    { destruct Hc as (fd' & H0 & Hfd'). exists fd'. split; [done|]. simpl. rewrite upd_other; [done|]. intros ->. congruence. }
    cbn [set_opened files stat_of]. destruct (files s buf) as [bs|]; cbn [fst snd Z.ltb Z.compare].
    + apply must_bind, must_ls_line. by apply Hnext.
    + apply must_bind. eapply must_fprintf; [done|]. by apply Hnext.
Qed.

(** ls of a directory prints a line for each entry in use, with the name, type,
    inode number and size of the file. *)
Theorem ls_correct (path : list Z) (des : list (list Z)) (fuel : nat) (s : os) : files s path = Some (concat des) ->
  get_type (stat_of s path) = T_DIR -> Z.of_nat (length path) <= 496 -> Forall (fun de => length de = 16%nat) des -> whole s = true ->
  (exists fd fd', 0 <= fd /\ 0 <= fd' /\ fd <> fd' /\ opened s fd = None /\ opened s fd' = None) -> (length des < fuel)%nat ->
  must (ls path fuel) (fun r s' => r = inl tt /\ s' = add_written 1 (concat (map (ls_entry s path) des)) s) s.
Proof.
  intros Hfile Ht Hp Hd Hw (fd1 & fd2 & H1 & H2 & Hne & Ho1 & Ho2) Hf. unfold ls.
  apply must_bind, (must_open path (concat des)); [done|by exists fd1|].
  intros fd H0 Hfd. rewrite (proj2 (Z.ltb_ge _ _)) by lia.
  apply must_bind, (must_fstat fd path (concat des)); [simpl; apply upd_same|]. cbn [fst snd Z.ltb Z.compare].
  change (stat_of (set_opened _ _ s) path) with (stat_of s path). rewrite Ht. cbn [T_DIR T_DEVICE T_FILE Z.eqb Pos.eqb orb].
  change (Z.of_nat DIRSIZ) with 14. rewrite (proj2 (Z.ltb_ge _ _)) by lia. apply must_bind.
  apply (ls_dir_spec path fd path des); [simpl; apply upd_same|done| |done|done|].
  { destruct (decide (fd = fd1)) as [->|Hn1]; [exists fd2|exists fd1]; (split; [done|]); simpl; by rewrite upd_other. }
  apply must_bind, must_close. rewrite written_opened, !set_opened_again, set_opened_same by done. done.
Qed.

(** *** init *)

(** The calls that a program makes while it gets the replies [script], and the
    rest of the program. *)
Fixpoint play {A} (p : uprog A) (script : list reply) : list call * uprog A :=
  match script, p with
  | r :: script', Call c k => let (cs, p') := play (k r) script' in (c :: cs, p')
  | _, _ => ([], p)
  end.

Lemma play_bytes {A} fd bs (k : uprog A) script outs : length outs = length bs ->
  play (putbytes fd bs ;; k) (outs ++ script) = (map (fun c => SWrite fd [c]) bs ++ fst (play k script), snd (play k script)).
Proof.
  revert outs. induction bs as [|c bs IH]; intros [|o outs] Hl; try done; simpl in Hl.
  - simpl. by destruct (play k script).
  - injection Hl as Hl. simpl. by rewrite IH.
Qed.

Lemma play_wait pid next ws fuel : Forall (fun w => 0 <= w /\ w <> pid) ws -> (length ws < fuel)%nat ->
  play (init_wait pid next fuel) (map (fun w => (w, [])) ws ++ [(pid, [])]) = (repeat SWait (S (length ws)), next).
Proof.
  intros Hws. revert fuel. induction Hws as [|w ws [H0 Hne] _ IH]; intros [|fuel] Hf; simpl in Hf; try lia.
  - simpl. rewrite Z.eqb_refl. by destruct next.
  - cbn [map app length repeat]. simpl. rewrite (proj2 (Z.eqb_neq _ _) Hne), (proj2 (Z.ltb_ge _ _) H0).
    rewrite IH by lia. done.
Qed.

(** init announces a shell, forks it, waits for processes until the shell
    itself has exited, and then starts the next one. *)
Theorem init_restarts_shell (pid : Z) (outs : list reply) (ws : list Z) (fuel : nat) (next : uprog unit) :
  0 < pid -> length outs = 18%nat -> Forall (fun w => 0 <= w /\ w <> pid) ws -> (length ws < fuel)%nat ->
  play (init_turn fuel next) (outs ++ (pid, []) :: map (fun w => (w, [])) ws ++ [(pid, [])]) =
  (map (fun c => SWrite 1 [c]) (chars "init: starting sh" ++ [NL]) ++ SFork :: repeat SWait (S (length ws)), next).
Proof.
  intros Hp Ho Hws Hf. unfold init_turn, fprintf.
  change (vprintf (chars "init: starting sh" ++ [NL]) []) with (Some (chars "init: starting sh" ++ [NL])). cbv iota.
  rewrite play_bytes by done. simpl. rewrite (proj2 (Z.ltb_ge pid 0)), (proj2 (Z.eqb_neq pid 0)) by lia.
  rewrite (play_wait pid next ws fuel Hws Hf). done.
Qed.
