(* ===== verification/Boot.v ===== *)
(** * The start of a CPU: start.c, plic.c, main.c and the registers of riscv.h

    A hart with its privilege mode and control registers.  The supervisor
    registers sstatus, sie and sip are views of machine registers, and a
    register can be used only in a mode that may use it, as the privileged
    architecture says; an access that traps is a panic here. *)

From S2P Require Import Prelude Riscv Vm Trap.

(** ** Control registers *)

Inductive mode := UMode | SMode | MMode.
#[export] Instance mode_eq_dec : EqDecision mode.
Proof. solve_decision. Defined.
Definition mode_bits (m : mode) : Z := match m with UMode => 0 | SMode => 1 | MMode => 3 end.

Inductive creg :=
| mhartid | mstatus | mepc | medeleg | mideleg | mie | mip | mcounteren | menvcfg | pmpcfg0 | pmpaddr0
| sstatus | sie | sip | sepc | scause | stval | stvec | satp | stimecmp | time.
#[export] Instance creg_eq_dec : EqDecision creg.
Proof. solve_decision. Defined.

(** General registers of interest; [cr] holds the machine's registers. *)
Record hart := Hart {
  h_mode : mode;
  h_pc : Z;
  h_tp : Z;
  h_sp : Z;
  h_ra : Z;
  cr : creg -> Z;
  h_fences : nat;
}.
Definition set_cr (c : creg) (v : Z) (h : hart) : hart :=
  Hart (h_mode h) (h_pc h) (h_tp h) (h_sp h) (h_ra h) (upd (cr h) c v) (h_fences h).
Definition set_tp (v : Z) (h : hart) : hart :=
  Hart (h_mode h) (h_pc h) v (h_sp h) (h_ra h) (cr h) (h_fences h).

(** The bits of mstatus that sstatus shows. *)
Definition SSTATUS_BITS : Z := 0x80000003000de762.
Definition read_cr (h : hart) (c : creg) : Z :=
  match c with
  | sstatus => Z.land (cr h mstatus) SSTATUS_BITS
  | sie => Z.land (cr h mie) (cr h mideleg)
  | sip => Z.land (cr h mip) (cr h mideleg)
  | _ => cr h c
  end.
(** The bits [mask] of [old] become those of [v].  Registers other than the views
    sstatus, sie and sip are taken to hold every bit that is written, also the
    bits of medeleg and mideleg that a hart may fix at 0. *)
Definition mix (mask old v : Z) : Z := Z.lor (Z.ldiff old mask) (Z.land v mask).
Definition write_cr (c : creg) (v : Z) (h : hart) : hart :=
  match c with
  | sstatus => set_cr mstatus (mix SSTATUS_BITS (cr h mstatus) v) h
  | sie => set_cr mie (mix (cr h mideleg) (cr h mie) v) h
  | sip => set_cr mip (mix (cr h mideleg) (cr h mip) v) h
  | mhartid | time => h
  | _ => set_cr c v h
  end.

(** The lowest mode that may use a register; a supervisor uses the clock only
    when mcounteren and menvcfg let it. *)
Definition allowed (h : hart) (c : creg) : bool :=
  match h_mode h, c with
  | MMode, _ => true
  | SMode, (sstatus | sie | sip | sepc | scause | stval | stvec | satp) => true
  | SMode, time => Z.testbit (cr h mcounteren) 1
  | SMode, stimecmp => Z.testbit (cr h mcounteren) 1 && Z.testbit (cr h menvcfg) 63
  | _, _ => false
  end.
Definition csrr (c : creg) : M hart Z :=
  let! ok := gets (fun h => allowed h c) in
  if ok then gets (fun h => read_cr h c) else panic "illegal instruction".
Definition csrw (c : creg) (v : Z) : M hart unit :=
  let! ok := gets (fun h => allowed h c) in
  if ok then modify (write_cr c v) else panic "illegal instruction".

(** ** The accessors of riscv.h *)

Definition r_mhartid : M hart Z := csrr mhartid.
Definition r_mstatus : M hart Z := csrr mstatus.
Definition w_mstatus (x : Z) : M hart unit := csrw mstatus x.
Definition w_mepc (x : Z) : M hart unit := csrw mepc x.
Definition r_sstatus : M hart Z := csrr sstatus.
Definition w_sstatus (x : Z) : M hart unit := csrw sstatus x.
Definition r_sip : M hart Z := csrr sip.
Definition w_sip (x : Z) : M hart unit := csrw sip x.
Definition r_sie : M hart Z := csrr sie.
Definition w_sie (x : Z) : M hart unit := csrw sie x.
Definition r_mie : M hart Z := csrr mie.
Definition w_mie (x : Z) : M hart unit := csrw mie x.
Definition w_sepc (x : Z) : M hart unit := csrw sepc x.
Definition r_sepc : M hart Z := csrr sepc.
Definition r_medeleg : M hart Z := csrr medeleg.
Definition w_medeleg (x : Z) : M hart unit := csrw medeleg x.
Definition r_mideleg : M hart Z := csrr mideleg.
Definition w_mideleg (x : Z) : M hart unit := csrw mideleg x.
Definition w_stvec (x : Z) : M hart unit := csrw stvec x.
Definition r_stvec : M hart Z := csrr stvec.
Definition r_stimecmp : M hart Z := csrr stimecmp.
Definition w_stimecmp (x : Z) : M hart unit := csrw stimecmp x.
Definition r_menvcfg : M hart Z := csrr menvcfg.
Definition w_menvcfg (x : Z) : M hart unit := csrw menvcfg x.
Definition w_pmpcfg0 (x : Z) : M hart unit := csrw pmpcfg0 x.
Definition w_pmpaddr0 (x : Z) : M hart unit := csrw pmpaddr0 x.
Definition w_satp (x : Z) : M hart unit := csrw satp x.
Definition r_satp : M hart Z := csrr satp.
Definition r_scause : M hart Z := csrr scause.
Definition r_stval : M hart Z := csrr stval.
Definition w_mcounteren (x : Z) : M hart unit := csrw mcounteren x.
Definition r_mcounteren : M hart Z := csrr mcounteren.
Definition r_time : M hart Z := csrr time.
Definition r_sp : M hart Z := gets h_sp.
Definition r_tp : M hart Z := gets h_tp.
Definition w_tp (x : Z) : M hart unit := modify (set_tp x).
Definition r_ra : M hart Z := gets h_ra.
Definition sfence_vma : M hart unit :=
  modify (fun h => Hart (h_mode h) (h_pc h) (h_tp h) (h_sp h) (h_ra h) (cr h) (S (h_fences h))).

Definition MSTATUS_MPP_MASK : Z := Z.shiftl 3 11.
Definition MSTATUS_MPP_S : Z := Z.shiftl 1 11.
Definition SIE_SEIE : Z := Z.shiftl 1 9.
Definition SIE_STIE : Z := Z.shiftl 1 5.
Definition SIE_SSIE : Z := Z.shiftl 1 1.
Definition MIE_STIE : Z := Z.shiftl 1 5.

(** The interrupt flag of Locks.v: [intr_on], [intr_off] and [intr_get]. *)
Definition hart_intr_on : M hart unit := let! x := r_sstatus in w_sstatus (Z.lor x SSTATUS_SIE).
Definition hart_intr_off : M hart unit := let! x := r_sstatus in w_sstatus (Z.land x (u64 (Z.lnot SSTATUS_SIE))).
Definition hart_intr_get : M hart bool := let! x := r_sstatus in ret (negb (Z.land x SSTATUS_SIE =? 0)).

(** ** start.c *)

Definition timerinit : M hart unit :=
  (let! x := r_mie in w_mie (Z.lor x MIE_STIE)) ;;
  (let! x := r_menvcfg in w_menvcfg (Z.lor x (Z.shiftl 1 63))) ;;
  (let! x := r_mcounteren in w_mcounteren (Z.lor x 2)) ;;
  let! t := r_time in
  w_stimecmp (u64 (t + 1000000)).

(** The instruction mret: back to the mode in MPP, at mepc. *)
Definition mpp (x : Z) : mode :=
  let f := Z.land (Z.shiftr x 11) 3 in
  if f =? 3 then MMode else if f =? 1 then SMode else UMode.
Definition mret : M hart unit :=
  modify (fun h =>
    let x := cr h mstatus in
    let x' := Z.ldiff (mix 8 x (Z.shiftr x 4)) MSTATUS_MPP_MASK in
    Hart (mpp x) (cr h mepc) (h_tp h) (h_sp h) (h_ra h) (upd (cr h) mstatus (Z.lor x' 0x80)) (h_fences h)).

(** [main_addr] is the address of main. *)
Definition start (main_addr : Z) : M hart unit :=
  (let! x := r_mstatus in
   let x := Z.land x (u64 (Z.lnot MSTATUS_MPP_MASK)) in
   let x := Z.lor x MSTATUS_MPP_S in
   w_mstatus x) ;;
  w_mepc main_addr ;;
  w_satp 0 ;;
  w_medeleg 0xffff ;;
  w_mideleg 0xffff ;;
  (let! x := r_sie in w_sie (Z.lor (Z.lor (Z.lor x SIE_SEIE) SIE_STIE) SIE_SSIE)) ;;
  w_pmpaddr0 0x3fffffffffffff ;;
  w_pmpcfg0 0xf ;;
  timerinit ;;
  (let! id := r_mhartid in w_tp (u64 (i32 id))) ;;
  mret.

(** ** What the supervisor can do *)

(** An interrupt is taken by supervisor mode, whose interrupts are on. *)
Definition delivered (h : hart) (i : Z) : bool :=
  Z.testbit (cr h mie) i && Z.testbit (cr h mideleg) i.
(** Physical memory protection with its first entry in mode TOR. *)
Definition pmp_allows (h : hart) (addr : Z) : bool :=
  match h_mode h with
  | MMode => true
  | _ => (Z.land (Z.shiftr (cr h pmpcfg0) 3) 3 =? 1) && (Z.land (cr h pmpcfg0) 7 =? 7) &&
         (0 <=? addr) && (addr <? 4 * cr h pmpaddr0)
  end.

Lemma wp_csrr c Q h : h_mode h = MMode -> Q (read_cr h c) h -> wp (csrr c) Q h.
Proof. intros Hm HQ. unfold wp, csrr, bind, gets, allowed. by rewrite Hm. Qed.
(** Writes in machine mode, to registers that are no views and to sie. *)
Definition plain (c : creg) : bool :=
  match c with sstatus | sie | sip | mhartid | time => false | _ => true end.
Lemma wp_csrw c v Q h : h_mode h = MMode -> plain c = true ->
  (forall h', h_mode h' = MMode -> h_tp h' = h_tp h -> cr h' = upd (cr h) c v -> Q tt h') -> wp (csrw c v) Q h.
Proof.
  intros Hm Hp HQ. unfold wp, csrw, bind, gets, allowed, modify. rewrite Hm.
  replace (write_cr c v h) with (set_cr c v h) by by destruct c. by apply HQ.
Qed.
Lemma wp_csrw_sie v Q h : h_mode h = MMode ->
  (forall h', h_mode h' = MMode -> h_tp h' = h_tp h -> cr h' = upd (cr h) mie (mix (cr h mideleg) (cr h mie) v) -> Q tt h') ->
  wp (csrw sie v) Q h.
Proof. intros Hm HQ. unfold wp, csrw, bind, gets, allowed, modify. rewrite Hm. by apply HQ. Qed.
Ltac csr_step :=
  first [apply wp_bind | apply wp_csrr; [done|] | apply wp_csrw; [done..|]; intros ? ? ? ? | apply wp_csrw_sie; [done|]; intros ? ? ? ?
        | apply wp_modify]; cbv beta.

(** Looks up registers through the writes so far. *)
Ltac look :=
  repeat (cbn [read_cr]; match goal with E : cr ?h = upd _ _ _ |- context [cr ?h ?c] => rewrite E; upds end).

Lemma testbit_mix mask old v i : 0 <= i -> Z.testbit (mix mask old v) i = if Z.testbit mask i then Z.testbit v i else Z.testbit old i.
Proof. intros Hi. unfold mix. rewrite Z.lor_spec, Z.ldiff_spec, Z.land_spec. destruct (Z.testbit mask i), (Z.testbit old i), (Z.testbit v i); done. Qed.
Lemma mpp_supervisor x : 0 <= x < 2 ^ 64 -> mpp (Z.lor (Z.land x (u64 (Z.lnot MSTATUS_MPP_MASK))) MSTATUS_MPP_S) = SMode.
Proof.
  intros Hx. unfold mpp. set (y := Z.lor _ _). assert (Z.land (Z.shiftr y 11) 3 = 1) as ->; [|done].
  apply Z.bits_inj_iff'. intros i Hi. rewrite Z.land_spec, Z.shiftr_spec by done.
  destruct (decide (i = 0)) as [->|]; [|destruct (decide (i = 1)) as [->|]].
  - subst y. rewrite Z.lor_spec. by rewrite orb_true_r.
  - subst y. rewrite Z.lor_spec, Z.land_spec. by rewrite andb_false_r.
  - rewrite !(Z.bits_above_log2 _ i), ?andb_false_r; try done; simpl; lia.
Qed.

(** C40: start leaves the hart in supervisor mode at main with paging off: all
    exceptions and interrupts go to supervisor mode, which has external, timer
    and software interrupts enabled, may use all of physical memory, the clock
    and its timer, and finds the number of the hart in tp; the first timer
    interrupt is 1000000 ticks away. *)
Theorem start_correct main_addr h : h_mode h = MMode -> 0 <= cr h mstatus < 2 ^ 64 ->
  wp (start main_addr) (fun _ h' =>
    h_mode h' = SMode /\ h_pc h' = main_addr /\ cr h' satp = 0 /\
    cr h' medeleg = 0xffff /\ (forall i, i ∈ [1; 5; 9] -> delivered h' i = true) /\
    (forall a, 0 <= a < PHYSTOP -> pmp_allows h' a = true) /\
    allowed h' time = true /\ allowed h' stimecmp = true /\ cr h' stimecmp = u64 (cr h time + 1000000) /\
    h_tp h' = u64 (i32 (cr h mhartid))) h.
Proof.
  intros Hm Hx. unfold start, timerinit, r_mstatus, w_mstatus, w_mepc, w_satp, w_medeleg, w_mideleg, r_sie, w_sie,
    w_pmpaddr0, w_pmpcfg0, r_mie, w_mie, r_menvcfg, w_menvcfg, r_mcounteren, w_mcounteren, r_time, w_stimecmp, r_mhartid, w_tp, mret.
  repeat csr_step. cbn [h_mode h_pc h_tp cr set_tp]. upds.
  assert (Hmie : forall i, i ∈ [1; 5; 9] -> Z.testbit (cr h'7 mie) i = true).
  { intros i Hi. look. assert (0 <= i) by (set_unfold in Hi; lia). rewrite Z.lor_spec, testbit_mix, !Z.lor_spec by done.
    set_unfold in Hi. destruct Hi as [->|[->|[->|[]]]]; cbn -[Z.testbit]; by rewrite ?orb_true_r. }
  assert (Hmode : mpp (cr h'10 mstatus) = SMode) by (look; by apply mpp_supervisor).
  split_and!; [done|by look|by look|by look|..]; unfold delivered, pmp_allows, allowed; cbn [h_mode cr]; rewrite ?Hmode; upds.
  - intros i Hi. replace (cr h'10 mie) with (cr h'7 mie) by by look. upds. rewrite Hmie by done. look.
    set_unfold in Hi. by destruct Hi as [->|[->|[->|[]]]].
  - intros a Ha. upds. look. rewrite (proj2 (Z.leb_le _ _)), (proj2 (Z.ltb_lt _ _)) by (unfold PHYSTOP, KERNBASE in Ha; lia). done.
  - look. rewrite Z.lor_spec. by rewrite orb_true_r.
  - look. rewrite !Z.lor_spec. by rewrite !orb_true_r.
  - by look.
  - by look.
Qed.

Lemma start_correct_witness :
  wp (start 0x80000f00) (fun _ h' => h_mode h' = SMode /\ h_pc h' = 0x80000f00 /\ h_tp h' = 2)
    (Hart MMode 0x80000060 0 0 0 (upd (fun _ => 0) mhartid 2) 0).
Proof.
  eapply wp_mono; [exact (start_correct 0x80000f00 (Hart MMode 0x80000060 0 0 0 (upd (fun _ => 0) mhartid 2) 0)
    eq_refl (conj (Z.le_refl 0) eq_refl))|].
  cbv beta. intros _ h' (H1 & H2 & _ & _ & _ & _ & _ & _ & _ & H3). split; [exact H1|]. split; [exact H2|]. rewrite H3. reflexivity.
Defined.

(** ** The interrupt flag

    The operations that Locks.v uses on its flag [sie], on the register. *)
Definition s_enabled (h : hart) : bool := Z.testbit (cr h mstatus) 1.
Lemma land_sie x : negb (Z.land x SSTATUS_SIE =? 0) = Z.testbit x 1.
Proof.
  destruct (Z.testbit x 1) eqn:E.
  - destruct (Z.land x SSTATUS_SIE =? 0) eqn:E0; [|done]. apply Z.eqb_eq in E0. apply (f_equal (fun y => Z.testbit y 1)) in E0.
    rewrite Z.land_spec, E in E0. done.
  - assert (Z.land x SSTATUS_SIE = 0) as ->; [|done]. apply Z.bits_inj_iff'. intros i Hi.
    rewrite Z.land_spec, Z.bits_0. change SSTATUS_SIE with (2 ^ 1). rewrite Z.pow2_bits_eqb by done.
    destruct (1 =? i) eqn:Ei; [|by rewrite andb_false_r]. apply Z.eqb_eq in Ei as <-. by rewrite E.
Qed.
Lemma hart_intr_correct h : h_mode h = SMode ->
  wp hart_intr_on (fun _ h' => s_enabled h' = true) h /\
  wp hart_intr_off (fun _ h' => s_enabled h' = false) h /\
  wp hart_intr_get (fun r h' => r = s_enabled h /\ h' = h) h.
Proof.
  intros Hm. assert (Hr : forall Q, Q (read_cr h sstatus) h -> wp r_sstatus Q h).
  { intros Q HQ. unfold r_sstatus, csrr, wp, bind, gets, allowed. by rewrite Hm. }
  assert (Hw : forall v Q, Q tt (write_cr sstatus v h) -> wp (w_sstatus v) Q h).
  { intros v Q HQ. unfold w_sstatus, csrw, wp, bind, gets, allowed. by rewrite Hm. }
  unfold hart_intr_on, hart_intr_off, hart_intr_get, s_enabled. cbn [read_cr] in Hr. split_and!; apply wp_bind, Hr.
  - apply Hw. cbn [write_cr set_cr cr]. upds. rewrite testbit_mix, Z.lor_spec by done. by rewrite orb_true_r.
  - apply Hw. cbn [write_cr set_cr cr]. upds. rewrite testbit_mix, Z.land_spec by done. by rewrite andb_false_r.
  - apply wp_ret. split; [|done]. rewrite land_sie, Z.land_spec. by rewrite andb_true_r.
Qed.

(** ** plic.c *)

Definition PLIC_SENABLE (hart : Z) : Z := PLIC + 0x2080 + hart * 0x100.
Definition PLIC_SPRIORITY (hart : Z) : Z := PLIC + 0x201000 + hart * 0x2000.
Definition PLIC_SCLAIM (hart : Z) : Z := PLIC + 0x201004 + hart * 0x2000.

(** The registers of the interrupt controller; a read of a claim register is
    answered by the controller. *)
Class PlicEnv (S : Type) := {
  plic_read : Z -> M S Z;
  plic_write : Z -> Z -> M S unit;
}.
Section plic.
Context {S : Type} `{PE : PlicEnv S}.
Definition plicinit : M S unit :=
  plic_write (PLIC + UART0_IRQ * 4) 1 ;;
  plic_write (PLIC + VIRTIO0_IRQ * 4) 1.
Definition plicinithart (hart : Z) : M S unit :=
  plic_write (PLIC_SENABLE hart) (Z.lor (Z.shiftl 1 UART0_IRQ) (Z.shiftl 1 VIRTIO0_IRQ)) ;;
  plic_write (PLIC_SPRIORITY hart) 0.
Definition plic_claim (hart : Z) : M S Z :=
  let! irq := plic_read (PLIC_SCLAIM hart) in ret (i32 irq).
Definition plic_complete (hart irq : Z) : M S unit := plic_write (PLIC_SCLAIM hart) (u32 irq).
End plic.

(** The controller's memory. *)
#[export] Instance plic_memory : PlicEnv (Z -> Z) := {
  plic_read a := gets (fun m => m a);
  plic_write a v := modify (fun m => upd m a v);
}.
(** The controller passes interrupt [irq] on to the supervisor mode of
    [hart]: it is enabled there and above the threshold. *)
Definition passes_on (m : Z -> Z) (hart irq : Z) : bool :=
  Z.testbit (m (PLIC_SENABLE hart)) irq && (m (PLIC_SPRIORITY hart) <? m (PLIC + irq * 4)).

(** After plicinit and the plicinithart of some harts, the interrupts of the
    port and of the disk reach each of these harts. *)
Lemma plic_correct (harts : list Z) m : (forall h, h ∈ harts -> 0 <= h < 8) ->
  wp (plicinit ;; for_each harts plicinithart) (fun _ m' =>
    forall h, h ∈ harts -> passes_on m' h UART0_IRQ = true /\ passes_on m' h VIRTIO0_IRQ = true) m.
Proof.
  intros Hh. unfold plicinit. apply wp_bind, wp_bind, wp_modify, wp_modify.
  eapply wp_mono; [apply (wp_for_each plicinithart (fun dn rest m' =>
    m' (PLIC + UART0_IRQ * 4) = 1 /\ m' (PLIC + VIRTIO0_IRQ * 4) = 1 /\ dn ++ rest = harts /\
    forall h, h ∈ dn -> m' (PLIC_SENABLE h) = 1026 /\ m' (PLIC_SPRIORITY h) = 0) harts)|].
  - split_and!; [by upds|by rewrite upd_same|done|]. intros h Hx. by apply elem_of_nil in Hx.
  - intros d x r m' Ed (H1 & H2 & _ & H3). unfold plicinithart. apply wp_bind, wp_modify, wp_modify.
    assert (0 <= x < 8) by (apply Hh; rewrite <-Ed; set_solver).
    unfold PLIC_SENABLE, PLIC_SPRIORITY, UART0_IRQ, VIRTIO0_IRQ in *. split_and!.
    + by upds.
    + by upds.
    + rewrite <-Ed, <-app_assoc. done.
    + intros h [Hd|Hd]%elem_of_app.
      * assert (0 <= h < 8) by (apply Hh; rewrite <-Ed; set_solver). destruct (H3 h Hd) as [E1 E2].
        rewrite (upd_other _ _ _ (PLIC + 8320 + h * 256)) by lia. destruct (decide (h = x)) as [->|].
        { by rewrite !upd_same. }
        rewrite !upd_other by lia. done.
      * apply list_elem_of_singleton in Hd as ->. rewrite upd_other by lia. by rewrite !upd_same.
  - cbv beta. intros _ m' (H1 & H2 & _ & H3) h Hx. destruct (H3 h Hx) as [E1 E2].
    unfold passes_on. by rewrite E1, E2, H1, H2.
Qed.

(** ** main.c

    The harts run main side by side.  What a hart does in it is a list of
    calls, which are components of their own, and of accesses to [started]. *)

Inductive boot_call :=
| Consoleinit | Printfinit | Newline | Message (text : string) | Kinit | Kvminit | Kvminithart | Procinit | Trapinit
| Trapinithart | Plicinit | Plicinithart | Binit | Iinit | Fileinit | Virtio_disk_init | Userinit | Scheduler.
Inductive boot_act := Call (c : boot_call) | Set_started | Wait_started.

(** What hart 0 does before it lets the others go. *)
Definition boot_inits : list boot_call :=
  [Consoleinit; Printfinit; Newline; Message "xv6 kernel is booting"; Newline; Kinit; Kvminit; Kvminithart;
   Procinit; Trapinit; Trapinithart; Plicinit; Plicinithart; Binit; Iinit; Fileinit; Virtio_disk_init; Userinit].
Definition main (cpuid : nat) : list boot_act :=
  (if Nat.eqb cpuid 0 then map Call boot_inits ++ [Set_started]
   else [Wait_started; Call (Message "hart starting"); Call Kvminithart; Call Trapinithart; Call Plicinithart]) ++
  [Call Scheduler].

Record booting := Booting {
  started : Z;
  todo : nat -> list boot_act;
  calls : list (nat * boot_call);
}.
Inductive boot_step : booting -> booting -> Prop :=
| boot_do i c rest s : todo s i = Call c :: rest ->
    boot_step s (Booting (started s) (upd (todo s) i rest) (calls s ++ [(i, c)]))
| boot_set i rest s : todo s i = Set_started :: rest ->
    boot_step s (Booting 1 (upd (todo s) i rest) (calls s))
| boot_go i rest s : todo s i = Wait_started :: rest -> started s <> 0 ->
    boot_step s (Booting (started s) (upd (todo s) i rest) (calls s)).
Inductive boot_reaches : booting -> Prop :=
| boot_here : boot_reaches (Booting 0 main [])
| boot_next s s' : boot_reaches s -> boot_step s s' -> boot_reaches s'.

Record boot_inv (s : booting) : Prop := {
  bi_zero : exists k, todo s 0%nat = drop k (main 0) /\ (forall c, c ∈ take k boot_inits -> (0%nat, c) ∈ calls s);
  bi_started : started s <> 0 -> forall c, c ∈ boot_inits -> (0%nat, c) ∈ calls s;
  bi_others : forall i, i <> 0%nat -> (todo s i = main i \/ started s <> 0) /\ Set_started ∉ todo s i;
  bi_calls : forall pre i c post, calls s = pre ++ (i, c) :: post -> i <> 0%nat -> forall c0, c0 ∈ boot_inits -> (0%nat, c0) ∈ pre;
}.

Lemma main_zero k x rest : drop k (main 0) = x :: rest ->
  rest = drop (S k) (main 0) /\ main 0 !! k = Some x.
Proof.
  intros E. split; [by rewrite <-Nat.add_1_r, <-drop_drop, E|].
  by rewrite <-(Nat.add_0_r k), <-lookup_drop, E.
Qed.
Lemma main_zero_call k c : main 0 !! k = Some (Call c) -> (k < length boot_inits)%nat -> boot_inits !! k = Some c.
Proof.
  intros E Hk. change (main 0) with ((map Call boot_inits ++ [Set_started]) ++ [Call Scheduler]) in E.
  rewrite <-app_assoc, lookup_app_l in E by (by rewrite length_map). rewrite list_lookup_fmap in E.
  destruct (boot_inits !! k); simpl in E; congruence.
Qed.

Lemma boot_step_inv s s' : boot_inv s -> boot_step s s' -> boot_inv s'.
Proof.
  intros [(k & Hk & Hd) Hs Ho Hc] Hst. destruct Hst as [i c rest s Et|i rest s Et|i rest s Et Hn].
  - assert (Hz : exists k, upd (todo s) i rest 0%nat = drop k (main 0) /\
      forall c0, c0 ∈ take k boot_inits -> (0%nat, c0) ∈ calls s ++ [(i, c)]).
    { destruct (decide (i = 0%nat)) as [->|Hne].
      - rewrite Hk in Et. apply main_zero in Et as [Er Ek]. exists (S k). rewrite upd_same. split; [done|].
        intros c0 Hc0. destruct (decide (k < length boot_inits)%nat) as [Hl|Hl].
        + apply main_zero_call in Ek; [|done]. rewrite (take_S_r _ _ _ Ek) in Hc0.
          apply elem_of_app in Hc0 as [Hc0|Hc0]; [apply elem_of_app; left; auto|].
          apply list_elem_of_singleton in Hc0 as ->. set_solver.
        + rewrite take_ge in Hc0 by lia. apply elem_of_app. left. apply Hd. by rewrite take_ge by lia.
      - exists k. rewrite upd_other by done. split; [done|]. intros c0 Hc0. set_solver. }
    split; simpl; [done| |..].
    + intros Hst c0 Hc0. apply elem_of_app. left. auto.
    + intros j Hj. destruct (Ho j Hj) as [H1 H2]. upd_cases j i; [|done]. rewrite Et in H1, H2. split; [|set_solver].
      destruct H1 as [H1|H1]; [|by right]. destruct i; [done|]. by cbn in H1.
    + intros pre j c1 post E Hj c0 Hc0. destruct post as [|y post] using rev_ind.
      * apply app_inj_tail in E as [<- [= <- <-]]. destruct (Ho i Hj) as [[H1|H1] _]; [|by apply Hs].
        rewrite Et in H1. destruct i; [done|]. by cbn in H1.
      * rewrite app_comm_cons, app_assoc in E. apply app_inj_tail in E as [E _]. by apply (Hc pre j c1 post).
  - destruct (decide (i = 0%nat)) as [->|Hne]; [|exfalso; destruct (Ho i Hne) as [_ H2]; rewrite Et in H2; set_solver].
    rewrite Hk in Et. apply main_zero in Et as [Er Ek].
    assert (k = length boot_inits) as ->.
    { destruct (decide (k < length boot_inits)%nat) as [Hl|Hl].
      - change (main 0) with ((map Call boot_inits ++ [Set_started]) ++ [Call Scheduler]) in Ek.
        rewrite <-app_assoc, lookup_app_l in Ek by (by rewrite length_map). rewrite list_lookup_fmap in Ek.
        by destruct (boot_inits !! k).
      - destruct (decide (k = length boot_inits)); [done|]. exfalso.
        assert (main 0 !! k = Some (Call Scheduler) \/ main 0 !! k = None) as [E|E]; [|congruence..].
        destruct (decide (k = S (length boot_inits))) as [->|]; [by left|]. right. apply lookup_ge_None. simpl in *. lia. }
    rewrite take_ge in Hd by done. split; simpl; [|done| |done].
    + exists (S (length boot_inits)). rewrite upd_same. split; [done|]. by rewrite take_ge by lia.
    + intros j Hj. upd_cases j 0%nat; [done|]. split; [by right|apply Ho; done].
  - assert (i <> 0%nat) as Hne.
    { intros ->. rewrite Hk in Et. apply main_zero in Et as [_ Ek]. apply list_elem_of_lookup_2 in Ek. vm_compute in Ek. set_solver. }
    split; simpl; [|done| |done].
    + exists k. by rewrite upd_other by done.
    + intros j Hj. destruct (Ho j Hj) as [H1 H2]. upd_cases j i; [|done]. rewrite Et in H2. split; [by right|set_solver].
Qed.

(** No hart but the first does anything before the first has called all the
    initialisation functions, in particular those that the other harts need:
    kvminit before kvminithart, plicinit before plicinithart. *)
Lemma boot_order s pre i c post : boot_reaches s -> calls s = pre ++ (i, c) :: post -> i <> 0%nat ->
  forall c0, c0 ∈ boot_inits -> (0%nat, c0) ∈ pre.
Proof.
  intros Hr. cut (boot_inv s); [intros [_ _ _ H]; eauto|]. induction Hr as [|s s' Hr IH Hst]; [|by eapply boot_step_inv].
  split; simpl.
  - exists O. split; [done|]. intros c1 Hc1. by apply elem_of_nil in Hc1.
  - done.
  - intros j Hj. split; [by left|]. destruct j; [done|]. vm_compute. set_solver.
  - intros p j c1 q E. by destruct p.
Qed.
